(* ===== verification/_CoqProject ===== *)
-Q . S2P
Prelude.v
Core.v
Bytes.v
Utf16.v
ProtocolTypes.v
Header.v
Requests.v
Responses.v
Listings.v
InfoClasses.v
DirectTcp.v
Hash.v
Aes.v
Transport.v
Signing.v
Encryption.v
Exchange.v
FileOperations.v
FileRuns.v
Dcerpc.v
SrvsRpc.v
ShareEnumeration.v
DfsReferral.v
Session.v
SessionRuns.v
ShareRuns.v
SessionIds.v
Wildcard.v
RemoteTree.v
ServerCopy.v
Layers.v
Connector.v
ConnectorRuns.v
ConnectorProperties.v
Spnego.v
NtlmCrypto.v
NtlmMessages.v
NtlmProvider.v
Sockets.v
TcpTransport.v
AppErrors.v
OperationQueue.v
Asking.v
QtText.v
Libsmb2Errors.v
DfsPaths.v
NativeClient.v
ClientWorld.v
ClientRuns.v
DfsClient.v
DfsRuns.v
DfsProperties.v
DfsResolver.v
ResolverRuns.v
Json.v
Vault.v
PathNormalizer.v
ImportExport.v
ImportExportRuns.v
Repository.v
RepositoryRuns.v
Backup.v
BackupRuns.v
Settings.v
SettingsRuns.v
Services.v
ServiceRuns.v
Search.v
TempFiles.v
TempFileRuns.v
FileServices.v
Browser.v
BrowserRuns.v
Libsmb2Client.v
Libsmb2Runs.v
SmbclientResolver.v
StatusPanel.v
ConnectionUi.v
Keychain.v
Program.v
