(* ===== verification/Prelude.v ===== *)
(** * SMB Browser: the verification of its engine and of the code around it

    SMB Browser is a desktop program for files on SMB servers.  Its core is an
    engine of its own for the SMB2/SMB3 protocol ([src/src/native_smb]); around it
    are the clients the application works with ([src/src/infrastructure/smb]), the
    stores of connections and secrets ([src/src/infrastructure]), the services that
    put them together ([src/src/application]) and a Qt interface ([src/src/ui]).
    This library models the engine as a whole and, of the application, what decides
    about data: transfers, DFS referrals, the operation queue, search, stored
    connections, settings and secrets, export and import, the cache of files, the
    browser of remote files, and the parts of the interface that keep state.

    ** How the code is modelled

    - Integers keep their width: a [std::uint32_t] is an integer of [Z] that is
      reduced where the code reduces it ([u8] ... [u64] below).  Buffers are lists
      of bytes, a [QString] the list of its UTF-16 code units.
    - A computation of the engine is a [comp] (Core.v): a result, a
      [ProtocolError], an exception, or a read outside a buffer, so that the
      absence of the last two is a theorem.
    - What the program asks of its surroundings is left open.  The operations of
      the engine are programs over messages ([prog], Exchange.v), the TCP transport
      is a program over calls of the operating system ([sys], Sockets.v), and the
      clients and services are programs over their calls ([asking], Asking.v).
      What may be answered is a relation, and every theorem is about all runs over
      it; a world with computable answers gives the witnesses.
    - Code outside the repository (Qt, libsodium, SQLite, the operating system) is a
      parameter: a class with the functions the program uses ([Transport], [Qt],
      [QtJson], [Sodium], [NtlmEnvironment]) and a class with what their
      documentation says of them, with an instance of both.
    - The operation queue, whose threads share data, is a step relation over single
      accesses with every interleaving (OperationQueue.v).

    ** The protocol ([native_smb])

    - Prelude.v: widths, slices, tactics.  Core.v: error codes, [comp] and its logic
      ([SmbNative.h]).  Bytes.v, Utf16.v: integers and text on the wire.
    - ProtocolTypes.v: the structures and constants of [Protocol.h]; Header.v,
      Requests.v, Responses.v, Listings.v, InfoClasses.v, DirectTcp.v: the builders
      and decoders of [Protocol.cpp].  Builders describe their buffers truly, and
      refuse what does not fit; no bytes make a decoder read outside its buffer or
      throw; and decoders read what is written according to the protocol.
    - Hash.v, Aes.v, Signing.v ([Smb2Signing.cpp]) and Encryption.v
      ([Smb3Encryption.cpp]): the algorithms with their published test vectors, the
      signing and the encrypting transport: signed frames verify, what is decrypted
      was authenticated, and no nonce is used twice.
    - Transport.v is the interface of the transports ([Transport.h]); Exchange.v,
      FileOperations.v are the programs over it (the [*Exchanger.cpp], [FileReader],
      [FileWriter], [DirectoryLister], [DirectoryWatcher], [RemoteStatReader],
      [RemoteObjectOperator], [RemoteMetadataOperator]), and FileRuns.v says what
      each does on the wire: the ids of its messages, and that what it opens it
      closes.
    - Dcerpc.v, SrvsRpc.v, ShareEnumeration.v with ShareRuns.v: listing shares over
      the pipe of the server service.  DfsReferral.v: referrals.
    - Session.v ([NativeSmbSession.cpp]) with SessionRuns.v and SessionIds.v: a
      history of operations uses no message id twice.  Wildcard.v: the pattern
      matcher against the relation [glob].  RemoteTree.v: recursive deletion and
      deletion by pattern on a tree of objects.  ServerCopy.v: server-side copy.
    - Layers.v: the stack of transports of a connection, transparent for the
      session above and opaque on the wire below.  Connector.v
      ([Negotiator], [SessionSetupExchanger], [TreeConnector],
      [NativeSmbConnector], [NativeSmbConnection]), ConnectorRuns.v and
      ConnectorProperties.v: connecting ends, follows the handshake, and puts up the
      layers and keys that policy, server and share ask for.
    - Spnego.v, NtlmCrypto.v, NtlmMessages.v, NtlmProvider.v: authentication, up to
      the acceptance by a server that knows the password.
    - Sockets.v, TcpTransport.v ([DirectTcpTransport.cpp], the branch for Linux):
      the stream stays in step with the frames, descriptors are neither lost nor
      used after their close, and an exchange ends in time.

    ** The application

    - AppErrors.v ([core/Error.cpp], [NativeSmbErrorMapper.cpp]), QtText.v (Qt, and
      [LogSanitizer.cpp]), Json.v (JSON, dates, libsodium), Asking.v; Libsmb2Errors.v
      ([Libsmb2ErrorMapper.cpp]): every failure becomes an error with a message.
    - OperationQueue.v: an operation goes through its states once, in every
      interleaving; what is cancelled in time is not run; the queue drains.
    - NativeClient.v ([NativeSmbClient.cpp]), over the worlds of ClientWorld.v, with
      ClientRuns.v: downloads, uploads and copies are exact, and a move never loses the
      file.
    - DfsPaths.v, DfsClient.v ([DfsResolvingSmbClient.cpp]), DfsRuns.v,
      DfsProperties.v: through referrals an operation is done once, at the file it
      is meant for.  DfsResolver.v ([NativeDfsReferralResolver.cpp]) and
      ResolverRuns.v: the resolver keeps the contract the client is proved against.
    - Libsmb2Client.v ([Libsmb2SmbClient.cpp]), Libsmb2Runs.v: the other client, over
      the calls of libsmb2: every operation gives back what it took and does what it
      reports.  SmbclientResolver.v ([SmbclientDfsReferralResolver.cpp]): its resolver
      ends the program it starts, removes the credentials it writes, and invents no
      target.
    - Vault.v ([EncryptedVaultCredentialStore.cpp]): the vault is a map of secrets.
    - PathNormalizer.v, ImportExport.v ([ImportExportService.cpp]),
      ImportExportRuns.v: what is exported can be imported.
    - Repository.v ([ConnectionRepository.cpp], [ConnectionGroupRepository.cpp]): the
      statements sent to the database; RepositoryRuns.v: over a database that does
      what the statements say, the repositories are a map of connections.
    - Services.v ([ConnectionService.cpp], [ConnectionOpenService.cpp],
      [ConnectivityCheckService.cpp]), ServiceRuns.v: no stored connection names a
      secret that is not there, and a failure to open is remembered.
    - Search.v ([RecursiveSearchService.cpp]): the search visits a tree breadth
      first and finds what the pattern asks for.
    - Backup.v ([ConnectionImportExportService.cpp]), BackupRuns.v: what the database
      holds comes back from an export of it.
    - Settings.v ([SqliteStorage.cpp], [SettingsRepository.cpp], [SettingsService.cpp],
      [Settings.cpp]), SettingsRuns.v: migrations are done once, and settings are saved
      as a whole or not at all.
    - TempFiles.v ([TempFileCache.cpp]), TempFileRuns.v: a cleanup of the cache takes
      the files it should, the oldest first.  FileServices.v ([TransferManager.cpp],
      [OpenFileService.cpp], [PreviewService.cpp], [DesktopServicesFileOpener.cpp]).
    - Browser.v ([RemoteBrowserWidget.cpp]): the places, the operations it puts on the
      queue, and what these do; BrowserRuns.v: back and forward are a history.
    - StatusPanel.v ([StatusPanel.cpp]): together with the operation queue, its button
      cancels an operation that is there and has not been heard to end.
    - ConnectionUi.v ([ConnectionListModel.cpp], [ConnectionsPanel.cpp],
      [ConnectionDialog.cpp], [ConnectionManagementController.cpp],
      [ConnectionOpenController.cpp], [ConnectivityCheckController.cpp],
      [ConnectionClipboardController.cpp], [ImportExportController.cpp]): the list that
      is shown is what is stored, the dialog lets through what can be used, and what is
      opened or checked is reported.
    - Keychain.v ([QtKeychainCredentialStore.cpp]): the key ring answers as the theorems
      on the services ask of a store of secrets.
    - Program.v ([FileLogger.cpp], [app/main.cpp]): the log, the start, what the program
      does when its parts signal something, and its two commands for trying the client.

    ** Fuel and bounds

    Loops whose end is not structural take fuel; a program that has spent it halts
    with no result, and the theorems say that this does not happen.  The fuel is:
    the pattern matcher, the square of the lengths ([wildcard_fuel]); server-side
    copy, the size of the file, because every accepted answer copies a byte;
    recursive deletion, the depth of the tree; DER, 17 levels, one more than the
    code goes down; the deferred strings of a share list, one more than the length
    of the data, because every string takes some; the list of NTLM attributes and
    the referral strings, likewise the length of the data; the TCP loops, the
    timeout in nanoseconds, because every turn reads a clock that moves on; client
    transfers, the size of the file; path loops, the length of the text; nested
    referrals, the depth 4 of the code; an import, 2 levels, because a sealed
    document is opened with a passphrase that is then cleared; the cache, more levels
    of directories than the longest path in it has characters; a recursive search, the
    number of directories; the synchronisation of an opened file, its 30 attempts;
    transfers on libsmb2, the size of the file and the times the library says it is
    busy; the wait for [smbclient], its timeout in milliseconds; a dialog, one more than
    the user does with it.

    ** Not modelled

    - Qt, libsodium, SQLite and the operating system: parameters, as above.  The
      branch of [DirectTcpTransport.cpp] for Windows.
    - The internals of libsmb2 and of [smbclient]: what they answer is any answer.  The
      regular expression that reads the output of [smbclient], a parameter; the name
      of that program on Windows.
    - [ui] but for what Browser.v, StatusPanel.v and ConnectionUi.v hold: layout, models
      of files, themes, translations and message boxes, whose behaviour is Qt's.
    - What the interface does while it waits for the key ring, and the constant
      descriptions of [SmbNative.cpp].
    - Exceptions a delegate of the DFS client may throw, and the overflow of 64-bit
      clocks. *)

From stdpp Require Export prelude strings.
From Stdlib Require Export ZArith Lia.

#[export] Set Default Goal Selector "!".

(** ** Machine integers

    [std::uint8_t] ... [std::uint64_t] (and [std::size_t], 64 bits wide on the
    supported targets) are integers of [Z]; a conversion to a narrower type or
    an arithmetic operation on an unsigned type is reduced modulo [2^w]. *)

Definition u8 (z : Z) : Z := z mod 2 ^ 8.
Definition u16 (z : Z) : Z := z mod 2 ^ 16.
Definition u32 (z : Z) : Z := z mod 2 ^ 32.
Definition u64 (z : Z) : Z := z mod 2 ^ 64.

Definition is_u8 (z : Z) : Prop := (0 <= z < 2 ^ 8)%Z.
Definition is_u16 (z : Z) : Prop := (0 <= z < 2 ^ 16)%Z.
Definition is_u32 (z : Z) : Prop := (0 <= z < 2 ^ 32)%Z.
Definition is_u64 (z : Z) : Prop := (0 <= z < 2 ^ 64)%Z.

(** ** Byte buffers

    A [ByteVector], a [std::string] and a [std::array] of bytes are lists of
    bytes; [blen] is their [size()]. *)

Abbreviation bytes := (list Z) (only parsing).

Definition blen {A} (l : list A) : Z := Z.of_nat (length l).

Definition bytes_ok (bs : bytes) : Prop := Forall is_u8 bs.

(** [slice from to l] is the range [[from, to)] of [l]. *)
Definition slice {A} (from to : Z) (l : list A) : list A :=
  take (Z.to_nat (to - from)) (drop (Z.to_nat from) l).

Definition zeros (n : nat) : bytes := replicate n 0%Z.

(** [at_off data off bs]: the bytes [bs] stand in [data] at offset [off]. *)
Definition at_off (data : bytes) (off : Z) (bs : bytes) : Prop :=
  exists pre post, data = pre ++ bs ++ post /\ off = blen pre.

Local Open Scope Z_scope.

Create HintDb smb.

(** [ulia]: linear arithmetic with the width predicates unfolded. *)
Ltac ulia := unfold is_u8, is_u16, is_u32, is_u64 in *; lia.

(** ** Integer lemmas *)

Section integers.
Implicit Types z : Z.

Lemma u8_range z : is_u8 (u8 z).
Proof. apply Z.mod_pos_bound. lia. Qed.
Lemma u16_range z : is_u16 (u16 z).
Proof. apply Z.mod_pos_bound. lia. Qed.
Lemma u32_range z : is_u32 (u32 z).
Proof. apply Z.mod_pos_bound. lia. Qed.
Lemma u64_range z : is_u64 (u64 z).
Proof. apply Z.mod_pos_bound. lia. Qed.

Lemma u8_small z : is_u8 z -> u8 z = z.
Proof. apply Z.mod_small. Qed.
Lemma u16_small z : is_u16 z -> u16 z = z.
Proof. apply Z.mod_small. Qed.
Lemma u32_small z : is_u32 z -> u32 z = z.
Proof. apply Z.mod_small. Qed.
Lemma u64_add_l a b : u64 (u64 a + b) = u64 (a + b).
Proof. apply Zplus_mod_idemp_l. Qed.
Lemma u64_add_r a b : u64 (a + u64 b) = u64 (a + b).
Proof. apply Zplus_mod_idemp_r. Qed.
Lemma u64_small z : is_u64 z -> u64 z = z.
Proof. apply Z.mod_small. Qed.

Lemma land_255 z : Z.land z 255 = z mod 2 ^ 8.
Proof. change 255 with (Z.ones 8). apply Z.land_ones. lia. Qed.

(** A shifted high part and a low part that fits below it do not overlap. *)
Lemma lor_shiftl_add lo hi n :
  0 <= n -> 0 <= lo < 2 ^ n -> Z.lor lo (Z.shiftl hi n) = lo + 2 ^ n * hi.
Proof.
  intros Hn Hlo. rewrite Z.shiftl_mul_pow2 by done.
  assert (Z.land lo (hi * 2 ^ n) = 0) as Hd.
  { apply Z.bits_inj'. intros i Hi. rewrite Z.land_spec, Z.bits_0.
    destruct (decide (i < n)).
    - rewrite (Z.mul_pow2_bits_low hi n i) by lia. apply andb_false_r.
    - rewrite <- (Z.mod_small lo (2 ^ n)) by lia.
      by rewrite Z.mod_pow2_bits_high by lia. }
  rewrite <- Z.lxor_lor, <- Z.add_nocarry_lxor by done. lia.
Qed.

(** [(z + 3) & ~3]: the next multiple of four. *)
Lemma align4_spec z :
  z <= Z.land (z + 3) (Z.lnot 3) < z + 4 /\ Z.land (z + 3) (Z.lnot 3) mod 4 = 0.
Proof.
  change (Z.land (z + 3) (Z.lnot 3)) with (Z.ldiff (z + 3) (Z.ones 2)).
  rewrite Z.ldiff_ones_r, Z.shiftl_mul_pow2, Z.shiftr_div_pow2 by lia.
  change (2 ^ 2) with 4. pose proof (Z.div_mod (z + 3) 4).
  pose proof (Z.mod_pos_bound (z + 3) 4). rewrite Z.mod_mul by lia. lia.
Qed.

Lemma land_bit v n : 0 <= n -> (Z.land v (2 ^ n) =? 0) = negb (Z.testbit v n).
Proof.
  intros Hn. destruct (Z.testbit v n) eqn:Hb; cbn [negb].
  - apply Z.eqb_neq. intros H. apply (f_equal (fun z => Z.testbit z n)) in H.
    rewrite Z.land_spec, Z.pow2_bits_true, Hb, Z.bits_0 in H by done. done.
  - apply Z.eqb_eq. apply Z.bits_inj'. intros i Hi.
    rewrite Z.land_spec, Z.pow2_bits_eqb, Z.bits_0 by done.
    destruct (Z.eqb_spec n i) as [->|]; [by rewrite Hb|apply andb_false_r].
Qed.


Lemma is_u8_mod z : is_u8 (z mod 2 ^ 8).
Proof. apply u8_range. Qed.

Lemma lxor_pow2_range a b n :
  0 <= n -> 0 <= a < 2 ^ n -> 0 <= b < 2 ^ n -> 0 <= Z.lxor a b < 2 ^ n.
Proof.
  intros Hn Ha Hb.
  assert (Z.lxor a b = Z.lxor a b mod 2 ^ n) as ->; [|apply Z.mod_pos_bound; lia].
  apply Z.bits_inj'. intros i Hi.
  destruct (decide (i < n)).
  - by rewrite Z.mod_pow2_bits_low by lia.
  - rewrite Z.mod_pow2_bits_high, Z.lxor_spec by lia.
    rewrite <- (Z.mod_small a (2 ^ n)), <- (Z.mod_small b (2 ^ n)) by lia.
    rewrite !Z.mod_pow2_bits_high by lia. done.
Qed.

Lemma lor_pow2_range a b n :
  0 <= n -> 0 <= a < 2 ^ n -> 0 <= b < 2 ^ n -> 0 <= Z.lor a b < 2 ^ n.
Proof.
  intros Hn Ha Hb.
  assert (Z.lor a b = Z.lor a b mod 2 ^ n) as ->; [|apply Z.mod_pos_bound; lia].
  apply Z.bits_inj'. intros i Hi.
  destruct (decide (i < n)).
  - by rewrite Z.mod_pow2_bits_low by lia.
  - rewrite Z.mod_pow2_bits_high, Z.lor_spec by lia.
    rewrite <- (Z.mod_small a (2 ^ n)), <- (Z.mod_small b (2 ^ n)) by lia.
    rewrite !Z.mod_pow2_bits_high by lia. done.
Qed.

Lemma is_u8_lxor a b : is_u8 a -> is_u8 b -> is_u8 (Z.lxor a b).
Proof. apply lxor_pow2_range. lia. Qed.

Lemma lxor_cancel a b : Z.lxor (Z.lxor a b) b = a.
Proof. by rewrite Z.lxor_assoc, Z.lxor_nilpotent, Z.lxor_0_r. Qed.
End integers.

#[export] Hint Resolve u8_range u16_range u32_range u64_range is_u8_mod
  is_u8_lxor : smb.

(** ** Lengths and slices *)

Section lists.
Context {A : Type}.
Implicit Types l : list A.

Lemma blen_nonneg l : 0 <= blen l.
Proof. unfold blen. lia. Qed.
Lemma blen_nil : blen ([] : list A) = 0.
Proof. done. Qed.
Lemma blen_cons x l : blen (x :: l) = 1 + blen l.
Proof. unfold blen. cbn [length]. lia. Qed.
Lemma blen_app l1 l2 : blen (l1 ++ l2) = blen l1 + blen l2.
Proof. unfold blen. rewrite length_app. lia. Qed.
Lemma blen_replicate n (x : A) : blen (replicate n x) = Z.of_nat n.
Proof. unfold blen. by rewrite length_replicate. Qed.
Lemma blen_zero l : blen l = 0 -> l = [].
Proof. unfold blen. destruct l; simpl; [done|lia]. Qed.

Lemma blen_slice from to l :
  0 <= from -> from <= to -> to <= blen l -> blen (slice from to l) = to - from.
Proof.
  unfold blen, slice. intros. rewrite length_take, length_drop. lia.
Qed.

Lemma slice_app_exact l1 l2 l3 from to :
  from = blen l1 -> to = blen l1 + blen l2 ->
  slice from to (l1 ++ l2 ++ l3) = l2.
Proof.
  unfold slice, blen. intros -> ->.
  rewrite drop_app_length' by lia. apply take_app_length'. lia.
Qed.

Lemma slice_all l : slice 0 (blen l) l = l.
Proof. unfold slice, blen. rewrite drop_0. apply take_ge. lia. Qed.

Lemma slice_split l n :
  0 <= n -> n <= blen l -> l = slice 0 n l ++ slice n (blen l) l.
Proof.
  unfold slice, blen. intros. rewrite drop_0, Z.sub_0_r.
  rewrite (take_ge (drop _ _)); [by rewrite take_drop|].
  rewrite length_drop. lia.
Qed.

Lemma Forall_slice (P : A -> Prop) from to l :
  Forall P l -> Forall P (slice from to l).
Proof. intros. by apply Forall_take, Forall_drop. Qed.
End lists.

Create Rewrite HintDb blen.
#[export] Hint Rewrite @blen_nil @blen_cons @blen_app @blen_replicate : blen.
#[export] Hint Resolve Forall_slice : smb.

(** [len] normalises sizes of concatenations and closes linear goals. *)
Ltac len := unfold zeros; autorewrite with blen; try lia.

(** [blens]: every size in sight is nonnegative. *)
Ltac blens :=
  repeat match goal with
  | |- context [blen ?l] =>
      lazymatch goal with
      | _ : 0 <= blen l |- _ => fail
      | _ => pose proof (blen_nonneg l)
      end
  | _ : context [blen ?l] |- _ =>
      lazymatch goal with
      | _ : 0 <= blen l |- _ => fail
      | _ => pose proof (blen_nonneg l)
      end
  end.

(** [smalls]: conversions of values that fit change nothing. *)
Ltac smalls :=
  blens;
  repeat match goal with
  | |- context [u8 ?v] => rewrite (u8_small v) by first [ulia | auto with smb]
  | |- context [u16 ?v] => rewrite (u16_small v) by first [ulia | auto with smb]
  | |- context [u32 ?v] => rewrite (u32_small v) by first [ulia | auto with smb]
  | |- context [u64 ?v] => rewrite (u64_small v) by first [ulia | auto with smb]
  end.

(** ** Properties of small integers, by enumeration *)

(** [forall_below n p]: [p] holds of [0 .. n-1], by computation. *)
Definition forall_below (n : nat) (p : Z -> bool) : bool :=
  forallb p (Z.of_nat <$> seq 0 n).

Lemma forall_below_spec n p z :
  forall_below n p = true -> 0 <= z < Z.of_nat n -> p z = true.
Proof.
  intros H Hz. unfold forall_below in H. rewrite forallb_forall in H.
  apply H, list_elem_of_In, list_elem_of_fmap. exists (Z.to_nat z).
  split; [lia|]. apply elem_of_seq. lia.
Qed.

(** ** Bytes at an offset *)

Section offsets.
Implicit Types data pre post bs : list Z.

Lemma at_off_here bs post : at_off (bs ++ post) 0 bs.
Proof. by exists [], post. Qed.

Lemma at_off_all bs : at_off bs 0 bs.
Proof. exists [], []. by rewrite app_nil_r. Qed.

Lemma at_off_skip pre data off bs :
  at_off data (off - blen pre) bs -> at_off (pre ++ data) off bs.
Proof.
  intros (p & q & -> & Hoff). exists (pre ++ p), q. split.
  - by rewrite <- !app_assoc.
  - rewrite blen_app. lia.
Qed.

Lemma at_off_app_r data off bs post :
  at_off data off bs -> at_off (data ++ post) off bs.
Proof.
  intros (p & q & -> & ->). exists p, (q ++ post). split; [|done].
  by rewrite <- !app_assoc.
Qed.

Lemma at_off_bound data off bs :
  at_off data off bs -> 0 <= off /\ off + blen bs <= blen data.
Proof.
  intros (p & q & -> & ->). rewrite !blen_app.
  pose proof (blen_nonneg p). pose proof (blen_nonneg q). lia.
Qed.

Lemma at_off_app data off bs bs' :
  at_off data off (bs ++ bs') -> at_off data off bs /\ at_off data (off + blen bs) bs'.
Proof.
  intros (p & q & -> & ->). split.
  - exists p, (bs' ++ q). by rewrite <- !app_assoc.
  - exists (p ++ bs), q. rewrite blen_app, <- !app_assoc. split; [done|lia].
Qed.

Lemma at_off_eq data off off' bs : at_off data off bs -> off = off' -> at_off data off' bs.
Proof. by intros H <-. Qed.

Lemma at_off_slice data off bs to :
  at_off data off bs -> to = off + blen bs -> slice off to data = bs.
Proof. intros (p & q & -> & ->) ->. by apply slice_app_exact. Qed.

Lemma at_off_self data off n :
  0 <= off -> 0 <= n -> off + n <= blen data ->
  exists bs, at_off data off bs /\ length bs = Z.to_nat n /\
    (bytes_ok data -> bytes_ok bs).
Proof.
  intros Ho Hn Hb. unfold blen in Hb.
  exists (take (Z.to_nat n) (drop (Z.to_nat off) data)). split_and!.
  - exists (take (Z.to_nat off) data), (drop (Z.to_nat off + Z.to_nat n) data).
    rewrite <- drop_drop, !take_drop. split; [done|].
    unfold blen. rewrite length_take. lia.
  - rewrite length_take, length_drop. lia.
  - intros. by apply Forall_take, Forall_drop.
Qed.
End offsets.

(** [find_at] locates a field in a concatenation of fields of known sizes. *)
Ltac find_at :=
  rewrite <- ?app_assoc;
  repeat first
    [ match goal with
      | |- at_off _ ?o _ =>
          first [ apply at_off_here
                | apply at_off_all
                | replace o with 0%Z by len;
                  first [apply at_off_here | apply at_off_all] ]
      end
    | apply at_off_skip ].
