(* ===== verification/Core.v ===== *)
(** * Error codes and the result of a protocol computation

    [SmbNative.h] and [Protocol.h]: the enumerations every component shares,
    [ProtocolError], and [DecodeResult] with the two ways a C++ function can
    leave without one: a [std::invalid_argument] exception and a read outside
    a buffer. *)

From S2P Require Export Prelude.
Local Open Scope Z_scope.

Inductive AuthMode : Set :=
| AuthMode_Password | AuthMode_Guest | AuthMode_Anonymous | AuthMode_CurrentUser.

Inductive SecurityPolicy : Set :=
| SecurityPolicy_Required | SecurityPolicy_Preferred | SecurityPolicy_Disabled.

Inductive ErrorCode : Set :=
| ErrorCode_None
| ErrorCode_Cancelled
| ErrorCode_Timeout
| ErrorCode_DnsError
| ErrorCode_ServerUnavailable
| ErrorCode_ShareUnavailable
| ErrorCode_AuthenticationFailed
| ErrorCode_PermissionDenied
| ErrorCode_ProtocolUnsupported
| ErrorCode_FileNotFound
| ErrorCode_AlreadyExists
| ErrorCode_DirectoryNotEmpty
| ErrorCode_InvalidPath
| ErrorCode_NetworkError
| ErrorCode_IoError
| ErrorCode_UnsupportedCapability
| ErrorCode_InternalError.

#[export] Instance ErrorCode_eq_dec : EqDecision ErrorCode.
Proof. solve_decision. Defined.
#[export] Instance SecurityPolicy_eq_dec : EqDecision SecurityPolicy.
Proof. solve_decision. Defined.

Record ProtocolError : Set := mkProtocolError {
  err_code : ErrorCode;
  err_message : string;
  err_messagesUsed : Z
}.

(** [comp A] is what a call that returns [DecodeResult<A>] can do: succeed,
    return a failure, throw [std::invalid_argument], or read outside the
    buffer it was given (undefined behaviour in C++). *)
Inductive comp (A : Type) : Type :=
| Ok (a : A)
| Err (e : ProtocolError)
| Throw (message : string)
| OutOfBounds.

Arguments Ok {_} a.
Arguments Err {_} e.
Arguments Throw {_} message.
Arguments OutOfBounds {_}.

#[export] Instance comp_ret : MRet comp := fun A a => Ok a.
#[export] Instance comp_bind : MBind comp := fun A B f c =>
  match c with
  | Ok a => f a
  | Err e => Err e
  | Throw m => Throw m
  | OutOfBounds => OutOfBounds
  end.

(** [DecodeResult<T>::failure(code, message)], with [messagesUsed] 0. *)
Definition failure {A} (code : ErrorCode) (message : string) : comp A :=
  Err (mkProtocolError code message 0).

(** [DecodeResult<T>::failure(r.error.code, r.error.message)]: a caller that
    passes an error on with its code and text only. *)
Definition reraise {A} (c : comp A) : comp A :=
  match c with
  | Err e => failure (err_code e) (err_message e)
  | _ => c
  end.

(** [wp c P]: [c] neither throws nor reads out of bounds, and a value it
    returns satisfies [P]. *)
Definition wp {A} (c : comp A) (P : A -> Prop) : Prop :=
  match c with
  | Ok a => P a
  | Err _ => True
  | Throw _ | OutOfBounds => False
  end.

(** [wpt c P]: as [wp], but [c] may throw. *)
Definition wpt {A} (c : comp A) (P : A -> Prop) : Prop :=
  match c with
  | Ok a => P a
  | Err _ | Throw _ => True
  | OutOfBounds => False
  end.

Declare Scope comp_scope.
Delimit Scope comp_scope with comp.

(** [fail_if b with code, message ;; k]: the guard [if (b) return failure(..)]. *)
Notation "'fail_if' b 'with' code ',' message ';;' k" :=
  (if b then failure code message else k)
  (at level 10, b at level 99, code at level 99, message at level 99,
   k at level 200,
   format "'fail_if'  b  'with'  code ,  message  ;; '//' k") : comp_scope.

(** [throw_if b with message ;; k]: the guard
    [if (b) throw std::invalid_argument(message)]. *)
Notation "'throw_if' b 'with' message ';;' k" :=
  (if b then Throw message else k)
  (at level 10, b at level 99, message at level 99, k at level 200,
   format "'throw_if'  b  'with'  message  ;; '//' k") : comp_scope.
#[export] Set Warnings "-notation-overridden".

Section wp_lemmas.
Context {A B : Type}.
Implicit Types (c : comp A) (P Q : A -> Prop).

Lemma wp_bind c (f : A -> comp B) (P : B -> Prop) :
  wp c (fun a => wp (f a) P) -> wp (c ≫= f) P.
Proof. by destruct c. Qed.

Lemma wp_mono c P Q : wp c P -> (forall a, P a -> Q a) -> wp c Q.
Proof. destruct c; simpl; auto. Qed.

Lemma wp_reraise c P : wp c P -> wp (reraise c) P.
Proof. by destruct c. Qed.

Lemma wp_Ok c P a : wp c P -> c = Ok a -> P a.
Proof. by intros H ->. Qed.

Lemma wp_Ok_intro c P : (exists a, c = Ok a /\ P a) -> wp c P.
Proof. by intros (a & -> & ?). Qed.

Lemma wpt_bind c (f : A -> comp B) (P : B -> Prop) :
  wpt c (fun a => wpt (f a) P) -> wpt (c ≫= f) P.
Proof. by destruct c. Qed.

Lemma wpt_mono c P Q : wpt c P -> (forall a, P a -> Q a) -> wpt c Q.
Proof. destruct c; simpl; auto. Qed.

Lemma wp_wpt c P : wp c P -> wpt c P.
Proof. by destruct c. Qed.

Lemma bind_Ok_inv c (f : A -> comp B) b :
  (c ≫= f) = Ok b -> exists a, c = Ok a /\ f a = Ok b.
Proof. destruct c; [|done..]. intros H. by exists a. Qed.

Lemma Ok_inj (a b : A) : Ok a = Ok b -> a = b.
Proof. congruence. Qed.

Lemma reraise_Ok_inv c a : reraise c = Ok a -> c = Ok a.
Proof. by destruct c. Qed.
End wp_lemmas.

(** One step of a [wp] proof: binds, guards and returned values. *)
Ltac wp_step :=
  match goal with
  | |- wp (_ ≫= _) _ => apply wp_bind
  | |- wp (reraise _) _ => apply wp_reraise
  | |- wp (Ok _) _ => cbn [wp]
  | |- wp (mret _) _ => cbn [wp mret comp_ret]
  | |- wp (failure _ _) _ => exact I
  | |- wp (Err _) _ => exact I
  | |- wp (if ?b then _ else _) _ => destruct b eqn:?
  end.
Ltac wp_steps := repeat (wp_step; intros).

(** The same for [wpt], where a guard may throw. *)
Ltac wpt_step :=
  match goal with
  | |- wpt (_ ≫= _) _ => apply wpt_bind
  | |- wpt (Ok _) _ => cbn [wpt]
  | |- wpt (failure _ _) _ => exact I
  | |- wpt (Throw _) _ => exact I
  | |- wpt (if ?b then _ else _) _ => destruct b eqn:?
  end.
Ltac wpt_steps := repeat (wpt_step; intros).

(** Case analysis on the first conditional of the goal. *)
Ltac case_if :=
  match goal with |- context [if ?b then _ else _] => destruct b eqn:? end.

(** Splits the equation of a successful computation into its steps. *)
Ltac inv_comp :=
  repeat match goal with
  | H : (_ ≫= _) = Ok _ |- _ => apply bind_Ok_inv in H as (? & ? & H)
  | H : (if ?b then _ else _) = Ok _ |- _ => destruct b eqn:?; try discriminate H
  | H : reraise _ = Ok _ |- _ => apply reraise_Ok_inv in H
  | H : failure _ _ = Ok _ |- _ => discriminate H
  | H : Ok _ = Ok _ |- _ => apply Ok_inj in H; try subst
  end.

(** A computation returns one value. *)
Ltac same_result :=
  repeat match goal with
  | H : ?c = Ok _, H' : ?c = Ok _ |- _ =>
      rewrite H in H'; apply Ok_inj in H'; subst
  end.

(** ** Computations that fail only by throwing *)

(** The builders return no error codes: they succeed or throw. *)
Definition throws_only {A} (c : comp A) : Prop := forall e, c <> Err e.

Lemma throws_only_bind {A B} (c : comp A) (f : A -> comp B) :
  throws_only c -> (forall a, throws_only (f a)) -> throws_only (c ≫= f).
Proof.
  intros Hc Hf. destruct c as [a|e|m|]; [apply Hf|by destruct (Hc e)|done|done].
Qed.
Lemma throws_only_Ok {A} (a : A) : throws_only (Ok a).
Proof. done. Qed.
Lemma throws_only_Throw {A} m : throws_only (Throw m : comp A).
Proof. done. Qed.

Ltac throws_step :=
  match goal with
  | |- throws_only (_ ≫= _) => apply throws_only_bind
  | |- throws_only (Ok _) => apply throws_only_Ok
  | |- throws_only (Throw _) => apply throws_only_Throw
  | |- throws_only (if ?b then _ else _) => destruct b
  end.
