(* ===== verification/Bytes.v ===== *)
(** * Integers on the wire

    The little- and big-endian byte codecs every message of [Protocol.cpp],
    [Smb2Signing.cpp] and [Smb3Encryption.cpp] is built from, and their
    round trips. *)

From S2P Require Export Core.
Local Open Scope Z_scope.

(** ** Writing *)

(** [appendU16Le]: the two bytes it pushes. *)
Definition u16Le (value : Z) : bytes :=
  [Z.land value 255; Z.land (Z.shiftr value 8) 255].

(** [appendU32Le]: [for (shift = 0; shift < 32; shift += 8)]. *)
Definition u32Le (value : Z) : bytes :=
  (fun shift => Z.land (Z.shiftr value shift) 255) <$> [0; 8; 16; 24].

(** [appendU64Le]: [for (shift = 0; shift < 64; shift += 8)]. *)
Definition u64Le (value : Z) : bytes :=
  (fun shift => Z.land (Z.shiftr value shift) 255)
    <$> [0; 8; 16; 24; 32; 40; 48; 56].

Definition u32Be (value : Z) : bytes :=
  (fun shift => Z.land (Z.shiftr value shift) 255) <$> [24; 16; 8; 0].

Definition u64Be (value : Z) : bytes :=
  (fun shift => Z.land (Z.shiftr value shift) 255)
    <$> [56; 48; 40; 32; 24; 16; 8; 0].

Definition u16Be (value : Z) : bytes :=
  [Z.land (Z.shiftr value 8) 255; Z.land value 255].

(** ** Reading *)

(** [data[off]]; outside the buffer the read is undefined behaviour. *)
Definition read_u8 (data : bytes) (off : Z) : comp Z :=
  if decide (0 <= off) then
    match data !! Z.to_nat off with
    | Some b => Ok b
    | None => OutOfBounds
    end
  else OutOfBounds.

Definition readU16Le (data : bytes) (off : Z) : comp Z :=
  b0 ← read_u8 data off;
  b1 ← read_u8 data (off + 1);
  Ok (Z.lor b0 (u16 (Z.shiftl b1 8))).

Definition readU32Le (data : bytes) (off : Z) : comp Z :=
  b0 ← read_u8 data off;
  b1 ← read_u8 data (off + 1);
  b2 ← read_u8 data (off + 2);
  b3 ← read_u8 data (off + 3);
  Ok (Z.lor (Z.lor (Z.lor b0 (u32 (Z.shiftl b1 8))) (u32 (Z.shiftl b2 16)))
            (u32 (Z.shiftl b3 24))).

(** One turn of the loop of [readU64Le]: [value <<= 8; value |= data[index]]. *)
Definition readU64Le_step (data : bytes) (off : Z) (acc : comp Z) (index : Z)
    : comp Z :=
  value ← acc;
  b ← read_u8 data (off + index);
  Ok (Z.lor (u64 (Z.shiftl value 8)) b).

Definition readU64Le (data : bytes) (off : Z) : comp Z :=
  foldl (readU64Le_step data off) (Ok 0) [7; 6; 5; 4; 3; 2; 1; 0].

Definition readU32Be (data : bytes) (off : Z) : comp Z :=
  b0 ← read_u8 data off;
  b1 ← read_u8 data (off + 1);
  b2 ← read_u8 data (off + 2);
  b3 ← read_u8 data (off + 3);
  Ok (Z.lor (Z.lor (Z.lor (u32 (Z.shiftl b0 24)) (u32 (Z.shiftl b1 16)))
            (u32 (Z.shiftl b2 8))) b3).

(** [assign(data + from, data + to)]. *)
Definition read_range (data : bytes) (from to : Z) : comp bytes :=
  if decide (0 <= from /\ from <= to /\ to <= blen data)
  then Ok (slice from to data) else OutOfBounds.

(** ** Specification: a list of bytes as a little-endian number *)

Fixpoint le_value (bs : bytes) : Z :=
  match bs with
  | [] => 0
  | b :: bs => b + 256 * le_value bs
  end.

(** The [n] low bytes of [v], lowest first. *)
Fixpoint le_split (n : nat) (v : Z) : bytes :=
  match n with
  | O => []
  | S n => v mod 2 ^ 8 :: le_split n (v / 2 ^ 8)
  end.

(** ** The writers produce the digits of the number *)

Lemma le_split_value n v : le_value (le_split n v) = v mod 2 ^ (8 * Z.of_nat n).
Proof.
  revert v. induction n as [|n IH]; intros v; cbn [le_split le_value].
  - by rewrite Z.mod_1_r.
  - rewrite IH. replace (8 * Z.of_nat (S n)) with (8 + 8 * Z.of_nat n) by lia.
    rewrite Z.pow_add_r, Z.rem_mul_r by (try apply Z.pow_nonzero; lia). done.
Qed.

Lemma le_split_ok n v : bytes_ok (le_split n v).
Proof.
  revert v. induction n as [|n IH]; intros v; constructor; [apply is_u8_mod|].
  apply IH.
Qed.

Lemma length_le_split n v : length (le_split n v) = n.
Proof. revert v. induction n; intros v; simpl; auto. Qed.

Lemma byte_of_shift v i :
  0 <= i -> Z.land (Z.shiftr v i) 255 = (v / 2 ^ i) mod 2 ^ 8.
Proof. intros. by rewrite land_255, Z.shiftr_div_pow2. Qed.

Lemma u16Le_split v : u16Le v = le_split 2 v.
Proof. unfold u16Le. by rewrite land_255, byte_of_shift. Qed.

Ltac split_shifts :=
  unfold u32Le, u64Le; cbn [fmap list_fmap le_split];
  rewrite !byte_of_shift by lia; rewrite !Z.div_div by lia;
  repeat f_equal; try lia; by rewrite Z.div_1_r.

Lemma u32Le_split v : u32Le v = le_split 4 v.
Proof. split_shifts. Qed.

Lemma u64Le_split v : u64Le v = le_split 8 v.
Proof. split_shifts. Qed.

Lemma blen_u16Le v : blen (u16Le v) = 2.
Proof. done. Qed.
Lemma blen_u32Le v : blen (u32Le v) = 4.
Proof. done. Qed.
Lemma blen_u64Le v : blen (u64Le v) = 8.
Proof. done. Qed.
Lemma blen_u32Be v : blen (u32Be v) = 4.
Proof. done. Qed.
Lemma blen_u64Be v : blen (u64Be v) = 8.
Proof. done. Qed.
#[export] Hint Rewrite blen_u16Le blen_u32Le blen_u64Le blen_u32Be blen_u64Be
  : blen.

Lemma is_u8_land v : is_u8 (Z.land v 255).
Proof. rewrite land_255. apply is_u8_mod. Qed.

Lemma u16Le_ok v : bytes_ok (u16Le v).
Proof. rewrite u16Le_split. apply le_split_ok. Qed.
Lemma u32Le_ok v : bytes_ok (u32Le v).
Proof. rewrite u32Le_split. apply le_split_ok. Qed.
Lemma u64Le_ok v : bytes_ok (u64Le v).
Proof. rewrite u64Le_split. apply le_split_ok. Qed.
Lemma u32Be_ok v : bytes_ok (u32Be v).
Proof. repeat constructor; apply is_u8_land. Qed.
Lemma u64Be_ok v : bytes_ok (u64Be v).
Proof. repeat constructor; apply is_u8_land. Qed.
Lemma zeros_ok n : bytes_ok (zeros n).
Proof. apply Forall_replicate. ulia. Qed.
Lemma bytes_ok_app l1 l2 : bytes_ok l1 -> bytes_ok l2 -> bytes_ok (l1 ++ l2).
Proof. apply Forall_app_2. Qed.
Lemma bytes_ok_cons b l : is_u8 b -> bytes_ok l -> bytes_ok (b :: l).
Proof. by constructor. Qed.
Lemma bytes_ok_nil : bytes_ok [].
Proof. constructor. Qed.
#[export] Hint Resolve u16Le_ok u32Le_ok u64Le_ok u32Be_ok u64Be_ok zeros_ok
  bytes_ok_app bytes_ok_cons bytes_ok_nil is_u8_land : smb.

(** ** The readers compute the number the bytes stand for *)

Lemma le_value_range bs :
  bytes_ok bs -> 0 <= le_value bs < 2 ^ (8 * blen bs).
Proof.
  induction 1 as [|b bs Hb _ IH]; [done|].
  cbn [le_value]. rewrite blen_cons, Z.mul_add_distr_l, Z.pow_add_r
    by (pose proof (blen_nonneg bs); lia).
  unfold is_u8 in Hb. change (2 ^ (8 * 1)) with 256. lia.
Qed.

Lemma lor_u32_byte lo b n :
  0 <= n <= 24 -> 0 <= lo < 2 ^ n -> is_u8 b ->
  Z.lor lo (u32 (Z.shiftl b n)) = lo + 2 ^ n * b.
Proof.
  intros Hn Hlo Hb. rewrite u32_small.
  - apply lor_shiftl_add; lia.
  - unfold is_u32, is_u8 in *. rewrite Z.shiftl_mul_pow2 by lia.
    assert (2 ^ n <= 2 ^ 24) by (apply Z.pow_le_mono_r; lia). nia.
Qed.

Lemma read_u8_at data off bs i b :
  at_off data off bs -> bs !! i = Some b ->
  read_u8 data (off + Z.of_nat i) = Ok b.
Proof.
  intros (p & q & -> & ->) Hi. unfold read_u8, blen.
  rewrite decide_True by lia.
  replace (Z.to_nat _) with (length p + i)%nat by lia.
  rewrite lookup_app_r, Nat.add_sub' by lia.
  by rewrite (lookup_app_l_Some _ _ _ _ Hi).
Qed.

Lemma read_u8_here data off b : at_off data off [b] -> read_u8 data off = Ok b.
Proof. intros H. rewrite <- (Z.add_0_r off). by apply (read_u8_at _ _ _ 0 b H). Qed.

(** Splits [bs], of known length, into its bytes. *)
Ltac explode bs H :=
  repeat (destruct bs as [|? bs]; [discriminate H|]);
  destruct bs; [|discriminate H].

Ltac read_bytes Hat :=
  repeat match goal with
  | |- context [read_u8 ?d (?o + ?k)] =>
      let n := eval cbv in (Z.to_nat k) in
      rewrite (read_u8_at d o _ n _ Hat eq_refl : read_u8 d (o + k) = _)
  | |- context [read_u8 ?d ?o] =>
      replace (read_u8 d o) with (read_u8 d (o + 0)) by (by rewrite Z.add_0_r)
  end;
  cbn [mbind comp_bind].

Lemma readU16Le_value data off bs :
  at_off data off bs -> bytes_ok bs -> length bs = 2%nat ->
  readU16Le data off = Ok (le_value bs).
Proof.
  intros Hat Hok Hlen. explode bs Hlen. apply Forall_cons in Hok as [Hz Hok].
  apply Forall_cons in Hok as [Hz0 _]. unfold readU16Le. read_bytes Hat.
  f_equal. unfold u16. rewrite Z.mod_small, lor_shiftl_add; cbn [le_value];
    unfold is_u8 in *; rewrite ?Z.shiftl_mul_pow2; lia.
Qed.

Lemma readU32Le_value data off bs :
  at_off data off bs -> bytes_ok bs -> length bs = 4%nat ->
  readU32Le data off = Ok (le_value bs).
Proof.
  intros Hat Hok Hlen. explode bs Hlen. unfold readU32Le. read_bytes Hat.
  unfold bytes_ok in Hok. rewrite !Forall_cons in Hok.
  destruct Hok as (H0 & H1 & H2 & H3 & _). f_equal.
  rewrite (lor_u32_byte _ _ 8), (lor_u32_byte _ _ 16), (lor_u32_byte _ _ 24)
    by ulia. cbn [le_value]. lia.
Qed.

Lemma shiftl_lor_byte v b :
  0 <= v < 2 ^ 56 -> is_u8 b -> Z.lor (u64 (Z.shiftl v 8)) b = b + 256 * v.
Proof.
  intros Hv Hb. rewrite u64_small, Z.lor_comm, lor_shiftl_add;
    unfold is_u64, is_u8 in *; rewrite ?Z.shiftl_mul_pow2; lia.
Qed.

Lemma readU64Le_value data off bs :
  at_off data off bs -> bytes_ok bs -> length bs = 8%nat ->
  readU64Le data off = Ok (le_value bs).
Proof.
  intros Hat Hok Hlen. explode bs Hlen.
  unfold readU64Le, readU64Le_step. cbn [foldl]. read_bytes Hat.
  unfold bytes_ok in Hok. rewrite !Forall_cons in Hok.
  destruct Hok as (H0 & H1 & H2 & H3 & H4 & H5 & H6 & H7 & _). f_equal.
  repeat match goal with
  | |- context [Z.lor (u64 (Z.shiftl ?v 8)) ?b] =>
      lazymatch v with
      | context [Z.lor] => fail
      | _ => rewrite (shiftl_lor_byte v b) by ulia
      end
  end. cbn [le_value]. lia.
Qed.

(** ** Round trips: what is written at an offset is read back *)

Lemma readU8_at data off v : at_off data off [v] -> read_u8 data off = Ok v.
Proof. apply read_u8_here. Qed.

Lemma readU16Le_at data off v :
  at_off data off (u16Le v) -> readU16Le data off = Ok (u16 v).
Proof.
  intros H. rewrite (readU16Le_value _ _ _ H); [|auto with smb|done].
  by rewrite u16Le_split, le_split_value.
Qed.

Lemma readU32Le_at data off v :
  at_off data off (u32Le v) -> readU32Le data off = Ok (u32 v).
Proof.
  intros H. rewrite (readU32Le_value _ _ _ H); [|auto with smb|done].
  by rewrite u32Le_split, le_split_value.
Qed.

Lemma readU64Le_at data off v :
  at_off data off (u64Le v) -> readU64Le data off = Ok (u64 v).
Proof.
  intros H. rewrite (readU64Le_value _ _ _ H); [|auto with smb|done].
  by rewrite u64Le_split, le_split_value.
Qed.

Lemma read_range_at data off bs to :
  at_off data off bs -> to = off + blen bs -> read_range data off to = Ok bs.
Proof.
  intros H ->. pose proof (at_off_bound _ _ _ H). unfold read_range.
  rewrite decide_True by (pose proof (blen_nonneg bs); lia).
  by rewrite (at_off_slice _ _ _ _ H).
Qed.

(** ** In-bounds reads succeed with a value of the right width *)

Section wp_read.
Context (data : bytes) (Hok : bytes_ok data).

Lemma wp_read_u8 off P :
  0 <= off < blen data -> (forall v, is_u8 v -> P v) -> wp (read_u8 data off) P.
Proof using Hok.
  intros Hoff HP. unfold read_u8, blen in *. rewrite decide_True by lia.
  destruct (lookup_lt_is_Some_2 data (Z.to_nat off)) as [b Hb]; [lia|].
  rewrite Hb. apply HP. by eapply Forall_lookup_1.
Qed.

Lemma wp_readU16Le off P :
  0 <= off -> off + 2 <= blen data -> (forall v, is_u16 v -> P v) ->
  wp (readU16Le data off) P.
Proof using Hok.
  intros Hoff Hb HP.
  destruct (at_off_self data off 2) as (bs & Hat & Hlen & Hbs); [lia..|].
  rewrite (readU16Le_value data off bs) by auto. apply HP.
  pose proof (le_value_range bs (Hbs Hok)) as H. unfold blen in H.
  by rewrite Hlen in H.
Qed.

Lemma wp_readU32Le off P :
  0 <= off -> off + 4 <= blen data -> (forall v, is_u32 v -> P v) ->
  wp (readU32Le data off) P.
Proof using Hok.
  intros Hoff Hb HP.
  destruct (at_off_self data off 4) as (bs & Hat & Hlen & Hbs); [lia..|].
  rewrite (readU32Le_value data off bs) by auto. apply HP.
  pose proof (le_value_range bs (Hbs Hok)) as H. unfold blen in H.
  by rewrite Hlen in H.
Qed.

Lemma wp_readU64Le off P :
  0 <= off -> off + 8 <= blen data -> (forall v, is_u64 v -> P v) ->
  wp (readU64Le data off) P.
Proof using Hok.
  intros Hoff Hb HP.
  destruct (at_off_self data off 8) as (bs & Hat & Hlen & Hbs); [lia..|].
  rewrite (readU64Le_value data off bs) by auto. apply HP.
  pose proof (le_value_range bs (Hbs Hok)) as H. unfold blen in H.
  by rewrite Hlen in H.
Qed.

Lemma wp_read_range from to P :
  0 <= from -> from <= to -> to <= blen data ->
  (forall bs, bytes_ok bs -> blen bs = to - from -> P bs) ->
  wp (read_range data from to) P.
Proof using Hok.
  intros H0 H1 H2 HP. unfold read_range. rewrite decide_True by lia.
  apply HP; [by apply Forall_slice|by apply blen_slice].
Qed.
End wp_read.

(** Boolean guards of the code as facts. *)
Ltac bools :=
  repeat match goal with
  | H : context [negb _] |- _ => rewrite negb_true_iff in H || rewrite negb_false_iff in H
  | H : (_ || _) = false |- _ => apply orb_false_iff in H as [? ?]
  | H : (_ && _) = true |- _ => apply andb_true_iff in H as [? ?]
  | H : (_ <? _)%Z = true |- _ => apply Z.ltb_lt in H
  | H : (_ <? _)%Z = false |- _ => apply Z.ltb_ge in H
  | H : (_ <=? _)%Z = true |- _ => apply Z.leb_le in H
  | H : (_ <=? _)%Z = false |- _ => apply Z.leb_gt in H
  | H : (_ =? _)%Z = true |- _ => apply Z.eqb_eq in H
  | H : (_ =? _)%Z = false |- _ => apply Z.eqb_neq in H
  end.

(** [wp_reads]: steps a decoder whose reads are in bounds by arithmetic. *)
Ltac wp_read :=
  match goal with
  | H : bytes_ok ?d |- wp (read_u8 ?d _) _ => apply (wp_read_u8 d H)
  | H : bytes_ok ?d |- wp (readU16Le ?d _) _ => apply (wp_readU16Le d H)
  | H : bytes_ok ?d |- wp (readU32Le ?d _) _ => apply (wp_readU32Le d H)
  | H : bytes_ok ?d |- wp (readU64Le ?d _) _ => apply (wp_readU64Le d H)
  | H : bytes_ok ?d |- wp (read_range ?d _ _) _ => apply (wp_read_range d H)
  end; [bools; ulia..|intros].
Ltac wp_reads := repeat first [wp_step | wp_read].
