(* ===== verification/Utf16.v ===== *)
(** * UTF-8 and UTF-16LE text ([Protocol.cpp], [encodeUtf16Le] and
      [decodeUtf16Le])

    Text is UTF-8 inside the program and UTF-16LE on the wire.  The file models
    both conversions and proves that each inverts the other on the texts the
    other produces. *)

From S2P Require Export Bytes.
Local Open Scope Z_scope.
Local Open Scope comp_scope.

(** [appendUtf8CodePoint]: the bytes it appends. *)
Definition appendUtf8CodePoint (codePoint : Z) : bytes :=
  if codePoint <=? 0x7F then [u8 codePoint]
  else if codePoint <=? 0x7FF then
    [u8 (Z.lor 0xC0 (Z.shiftr codePoint 6));
     u8 (Z.lor 0x80 (Z.land codePoint 0x3F))]
  else if codePoint <=? 0xFFFF then
    [u8 (Z.lor 0xE0 (Z.shiftr codePoint 12));
     u8 (Z.lor 0x80 (Z.land (Z.shiftr codePoint 6) 0x3F));
     u8 (Z.lor 0x80 (Z.land codePoint 0x3F))]
  else
    [u8 (Z.lor 0xF0 (Z.shiftr codePoint 18));
     u8 (Z.lor 0x80 (Z.land (Z.shiftr codePoint 12) 0x3F));
     u8 (Z.lor 0x80 (Z.land (Z.shiftr codePoint 6) 0x3F));
     u8 (Z.lor 0x80 (Z.land codePoint 0x3F))].

(** The tail of one turn of [encodeUtf16Le]: the code units of a code point. *)
Definition appendUtf16CodeUnits (codePoint : Z) : comp bytes :=
  if codePoint <=? 0xFFFF then Ok (u16Le (u16 codePoint))
  else if codePoint <=? 0x10FFFF then
    let adjusted := codePoint - 0x10000 in
    Ok (u16Le (u16 (0xD800 + Z.shiftr adjusted 10))
        ++ u16Le (u16 (0xDC00 + Z.land adjusted 0x3FF)))
  else Throw "Unicode code point is out of range.".

Definition is_continuation (b : Z) : bool := Z.land b 0xC0 =? 0x80.

(** [encodeUtf16Le]: the argument is the text from index [i] on. *)
Fixpoint encodeUtf16Le (text : bytes) : comp bytes :=
  match text with
  | [] => Ok []
  | first :: t1 =>
      if Z.land first 0x80 =? 0 then
        units ← appendUtf16CodeUnits first;
        rest ← encodeUtf16Le t1;
        Ok (units ++ rest)
      else match t1 with
      | [] => Throw "Invalid UTF-8 sequence."
      | second :: t2 =>
          if Z.land first 0xE0 =? 0xC0 then
            throw_if negb (is_continuation second)
              with "Invalid UTF-8 continuation byte.";;
            units ← appendUtf16CodeUnits
              (Z.lor (Z.shiftl (Z.land first 0x1F) 6) (Z.land second 0x3F));
            rest ← encodeUtf16Le t2;
            Ok (units ++ rest)
          else match t2 with
          | [] => Throw "Invalid UTF-8 sequence."
          | third :: t3 =>
              if Z.land first 0xF0 =? 0xE0 then
                throw_if negb (is_continuation second)
                         || negb (is_continuation third)
                  with "Invalid UTF-8 continuation byte.";;
                units ← appendUtf16CodeUnits
                  (Z.lor (Z.lor (Z.shiftl (Z.land first 0x0F) 12)
                                (Z.shiftl (Z.land second 0x3F) 6))
                         (Z.land third 0x3F));
                rest ← encodeUtf16Le t3;
                Ok (units ++ rest)
              else match t3 with
              | [] => Throw "Invalid UTF-8 sequence."
              | fourth :: t4 =>
                  if Z.land first 0xF8 =? 0xF0 then
                    throw_if negb (is_continuation second)
                             || negb (is_continuation third)
                             || negb (is_continuation fourth)
                      with "Invalid UTF-8 continuation byte.";;
                    units ← appendUtf16CodeUnits
                      (Z.lor (Z.lor (Z.lor (Z.shiftl (Z.land first 0x07) 18)
                                           (Z.shiftl (Z.land second 0x3F) 12))
                                    (Z.shiftl (Z.land third 0x3F) 6))
                             (Z.land fourth 0x3F));
                    rest ← encodeUtf16Le t4;
                    Ok (units ++ rest)
                  else Throw "Invalid UTF-8 sequence."
              end
          end
      end
  end.

(** [readU16Le] on the two bytes at hand. *)
Definition unit16 (b0 b1 : Z) : Z := Z.lor b0 (u16 (Z.shiftl b1 8)).

(** The loop of [decodeUtf16Le]; the argument is the buffer from [offset] on. *)
Fixpoint decodeUtf16Le_loop (data : bytes) : comp bytes :=
  match data with
  | b0 :: b1 :: rest =>
      let unit := unit16 b0 b1 in
      if (0xD800 <=? unit) && (unit <=? 0xDBFF) then
        match rest with
        | c0 :: c1 :: rest' =>
            let next := unit16 c0 c1 in
            fail_if (next <? 0xDC00) || (0xDFFF <? next)
              with ErrorCode_IoError, "UTF-16LE high surrogate is not paired.";;
            let codePoint :=
              0x10000 + Z.lor (Z.shiftl (unit - 0xD800) 10) (next - 0xDC00) in
            text ← decodeUtf16Le_loop rest';
            Ok (appendUtf8CodePoint codePoint ++ text)
        | _ => failure ErrorCode_IoError "UTF-16LE high surrogate is truncated."
        end
      else if (0xDC00 <=? unit) && (unit <=? 0xDFFF) then
        failure ErrorCode_IoError
          "UTF-16LE low surrogate has no high surrogate."
      else
        text ← decodeUtf16Le_loop rest;
        Ok (appendUtf8CodePoint unit ++ text)
  | _ => Ok []
  end.

Definition decodeUtf16Le (data : bytes) : comp bytes :=
  fail_if negb (blen data mod 2 =? 0)
    with ErrorCode_IoError, "UTF-16LE buffer has odd byte length.";;
  decodeUtf16Le_loop data.

(** ** Specification: sequences of Unicode scalar values *)

Definition is_scalar (c : Z) : Prop :=
  0 <= c <= 0x10FFFF /\ ~ (0xD800 <= c <= 0xDFFF).

(** The UTF-8 form of a sequence of code points. *)
Definition utf8 (cs : list Z) : bytes := concat (appendUtf8CodePoint <$> cs).

(** The UTF-16LE form of one scalar value, in arithmetic. *)
Definition utf16_scalar (c : Z) : bytes :=
  if c <? 0x10000 then [c mod 256; c / 256]
  else
    let hi := 0xD800 + (c - 0x10000) / 1024 in
    let lo := 0xDC00 + (c - 0x10000) mod 1024 in
    [hi mod 256; hi / 256; lo mod 256; lo / 256].

Definition utf16 (cs : list Z) : bytes := concat (utf16_scalar <$> cs).

(** ** Lead and continuation bytes, by enumeration *)

Ltac by_enumeration n p :=
  intros Hx; pose proof (forall_below_spec n p _ eq_refl Hx) as Hp;
  cbv beta in Hp; unfold is_continuation in *; rewrite !andb_true_iff, ?negb_true_iff in Hp;
  rewrite ?Z.eqb_eq in Hp; rewrite ?Z.eqb_eq; tauto.

Lemma continuation_byte x :
  0 <= x < 64 ->
  is_continuation (u8 (Z.lor 0x80 x)) = true /\
  Z.land (u8 (Z.lor 0x80 x)) 0x3F = x.
Proof.
  by_enumeration 64%nat (fun x =>
    is_continuation (u8 (Z.lor 0x80 x)) &&
    (Z.land (u8 (Z.lor 0x80 x)) 0x3F =? x)).
Qed.

Lemma lead_byte2 x :
  0 <= x < 32 ->
  ((Z.land (u8 (Z.lor 0xC0 x)) 0x80 =? 0) = false /\
   (Z.land (u8 (Z.lor 0xC0 x)) 0xE0 =? 0xC0) = true) /\
  Z.land (u8 (Z.lor 0xC0 x)) 0x1F = x.
Proof.
  by_enumeration 32%nat (fun x =>
    negb (Z.land (u8 (Z.lor 0xC0 x)) 0x80 =? 0) &&
    (Z.land (u8 (Z.lor 0xC0 x)) 0xE0 =? 0xC0) &&
    (Z.land (u8 (Z.lor 0xC0 x)) 0x1F =? x)).
Qed.

Lemma lead_byte3 x :
  0 <= x < 16 ->
  (((Z.land (u8 (Z.lor 0xE0 x)) 0x80 =? 0) = false /\
   (Z.land (u8 (Z.lor 0xE0 x)) 0xE0 =? 0xC0) = false) /\
   (Z.land (u8 (Z.lor 0xE0 x)) 0xF0 =? 0xE0) = true) /\
  Z.land (u8 (Z.lor 0xE0 x)) 0x0F = x.
Proof.
  by_enumeration 16%nat (fun x =>
    negb (Z.land (u8 (Z.lor 0xE0 x)) 0x80 =? 0) &&
    negb (Z.land (u8 (Z.lor 0xE0 x)) 0xE0 =? 0xC0) &&
    (Z.land (u8 (Z.lor 0xE0 x)) 0xF0 =? 0xE0) &&
    (Z.land (u8 (Z.lor 0xE0 x)) 0x0F =? x)).
Qed.

Lemma lead_byte4 x :
  0 <= x < 8 ->
  ((((Z.land (u8 (Z.lor 0xF0 x)) 0x80 =? 0) = false /\
   (Z.land (u8 (Z.lor 0xF0 x)) 0xE0 =? 0xC0) = false) /\
   (Z.land (u8 (Z.lor 0xF0 x)) 0xF0 =? 0xE0) = false) /\
   (Z.land (u8 (Z.lor 0xF0 x)) 0xF8 =? 0xF0) = true) /\
  Z.land (u8 (Z.lor 0xF0 x)) 0x07 = x.
Proof.
  by_enumeration 8%nat (fun x =>
    negb (Z.land (u8 (Z.lor 0xF0 x)) 0x80 =? 0) &&
    negb (Z.land (u8 (Z.lor 0xF0 x)) 0xE0 =? 0xC0) &&
    negb (Z.land (u8 (Z.lor 0xF0 x)) 0xF0 =? 0xE0) &&
    (Z.land (u8 (Z.lor 0xF0 x)) 0xF8 =? 0xF0) &&
    (Z.land (u8 (Z.lor 0xF0 x)) 0x07 =? x)).
Qed.

Lemma ascii_byte x :
  0 <= x < 128 -> (Z.land (u8 x) 0x80 =? 0) = true /\ u8 x = x.
Proof.
  by_enumeration 128%nat (fun x => (Z.land (u8 x) 0x80 =? 0) && (u8 x =? x)).
Qed.

(** ** Splitting a code point into six-bit groups and joining them *)

Lemma land_3F z : Z.land z 0x3F = z mod 64.
Proof. change 0x3F with (Z.ones 6). by rewrite Z.land_ones. Qed.

Lemma join6 hi lo : 0 <= lo < 64 -> Z.lor (Z.shiftl hi 6) lo = 64 * hi + lo.
Proof. intros. rewrite Z.lor_comm, lor_shiftl_add; lia. Qed.

Lemma join6_2 a b c :
  0 <= b < 64 -> 0 <= c < 64 ->
  Z.lor (Z.lor (Z.shiftl a 12) (Z.shiftl b 6)) c = 4096 * a + 64 * b + c.
Proof.
  intros. change 12 with (6 + 6). rewrite <- Z.shiftl_shiftl by lia.
  rewrite <- Z.shiftl_lor, !join6 by lia. lia.
Qed.

Lemma join6_3 a b c d :
  0 <= b < 64 -> 0 <= c < 64 -> 0 <= d < 64 ->
  Z.lor (Z.lor (Z.lor (Z.shiftl a 18) (Z.shiftl b 12)) (Z.shiftl c 6)) d
  = 262144 * a + 4096 * b + 64 * c + d.
Proof.
  intros. change 18 with (12 + 6). change 12 with (6 + 6).
  rewrite <- !Z.shiftl_shiftl by lia.
  rewrite <- !Z.shiftl_lor, !join6 by lia. lia.
Qed.

Ltac div_mod_lia := Z.to_euclidean_division_equations; lia.

(** Encoding consumes exactly the UTF-8 form of one code point. *)
Lemma encodeUtf16Le_code_point c rest :
  0 <= c <= 0x10FFFF ->
  encodeUtf16Le (appendUtf8CodePoint c ++ rest) =
  (units ← appendUtf16CodeUnits c; r ← encodeUtf16Le rest; Ok (units ++ r)).
Proof.
  intros Hc. unfold appendUtf8CodePoint.
  destruct (c <=? 0x7F) eqn:H1; [|destruct (c <=? 0x7FF) eqn:H2;
    [|destruct (c <=? 0xFFFF) eqn:H3]]; bools.
  - destruct (ascii_byte c) as [Ha Hb]; [lia|].
    cbn [app encodeUtf16Le]. by rewrite Ha, Hb.
  - rewrite Z.shiftr_div_pow2, land_3F by lia. change (2 ^ 6) with 64.
    destruct (lead_byte2 (c / 64)) as ((La & Lb) & Lc); [div_mod_lia|].
    destruct (continuation_byte (c mod 64)) as (Ca & Cb); [div_mod_lia|].
    cbn [app encodeUtf16Le]. rewrite La, Lb, Lc, Ca, Cb. cbn [negb].
    rewrite join6, <- Z.div_mod by div_mod_lia. done.
  - rewrite !Z.shiftr_div_pow2, !land_3F by lia.
    change (2 ^ 6) with 64. change (2 ^ 12) with 4096.
    destruct (lead_byte3 (c / 4096)) as (((La & Lb) & Lc) & Ld); [div_mod_lia|].
    destruct (continuation_byte ((c / 64) mod 64)) as (Ca & Cb); [div_mod_lia|].
    destruct (continuation_byte (c mod 64)) as (Da & Db); [div_mod_lia|].
    cbn [app encodeUtf16Le]. rewrite La, Lb, Lc, Ld, Ca, Cb, Da, Db.
    cbn [negb orb]. rewrite join6_2 by div_mod_lia.
    replace (4096 * _ + _ + _) with c by div_mod_lia. done.
  - rewrite !Z.shiftr_div_pow2, !land_3F by lia.
    change (2 ^ 6) with 64. change (2 ^ 12) with 4096.
    change (2 ^ 18) with 262144.
    destruct (lead_byte4 (c / 262144)) as ((((La & Lb) & Lc) & Ld) & Le);
      [div_mod_lia|].
    destruct (continuation_byte ((c / 4096) mod 64)) as (Ba & Bb);
      [div_mod_lia|].
    destruct (continuation_byte ((c / 64) mod 64)) as (Ca & Cb); [div_mod_lia|].
    destruct (continuation_byte (c mod 64)) as (Da & Db); [div_mod_lia|].
    cbn [app encodeUtf16Le].
    rewrite La, Lb, Lc, Ld, Le, Ba, Bb, Ca, Cb, Da, Db.
    cbn [negb orb]. rewrite join6_3 by div_mod_lia.
    replace (262144 * _ + _ + _ + _) with c by div_mod_lia. done.
Qed.

(** ** Code units *)

Lemma unit16_value b0 b1 : is_u8 b0 -> is_u8 b1 -> unit16 b0 b1 = b0 + 256 * b1.
Proof.
  intros. unfold unit16, u16.
  rewrite Z.mod_small, lor_shiftl_add; rewrite ?Z.shiftl_mul_pow2; ulia.
Qed.

Lemma u16Le_arith v : u16Le (u16 v) = [v mod 256; v / 256 mod 256].
Proof.
  unfold u16Le, u16. rewrite land_255, byte_of_shift by lia.
  change (2 ^ 8) with 256. change (2 ^ 16) with (256 * 256).
  rewrite Z.rem_mul_r by lia. f_equal; [|f_equal]; div_mod_lia.
Qed.

Lemma u16Le_of_bytes b0 b1 :
  is_u8 b0 -> is_u8 b1 -> u16Le (u16 (b0 + 256 * b1)) = [b0; b1].
Proof.
  intros. rewrite u16Le_arith. f_equal; [|f_equal]; unfold is_u8 in *; div_mod_lia.
Qed.

Lemma appendUtf16CodeUnits_scalar c :
  is_scalar c -> appendUtf16CodeUnits c = Ok (utf16_scalar c).
Proof.
  intros [Hc _]. unfold appendUtf16CodeUnits, utf16_scalar.
  destruct (c <=? 0xFFFF) eqn:H1, (c <? 0x10000) eqn:H2; bools; try lia.
  - rewrite u16Le_arith. do 2 f_equal. f_equal. div_mod_lia.
  - destruct (c <=? 0x10FFFF) eqn:H3; bools; [|lia].
    rewrite Z.shiftr_div_pow2 by lia. change 0x3FF with (Z.ones 10).
    rewrite Z.land_ones by lia. change (2 ^ 10) with 1024.
    rewrite !u16Le_arith. cbn [app].
    do 2 f_equal. f_equal; [div_mod_lia|]. do 2 f_equal. div_mod_lia.
Qed.

Lemma decoded_pair hi lo :
  0xD800 <= hi <= 0xDBFF -> 0xDC00 <= lo <= 0xDFFF ->
  let c := 0x10000 + Z.lor (Z.shiftl (hi - 0xD800) 10) (lo - 0xDC00) in
  c = 0x10000 + 1024 * (hi - 0xD800) + (lo - 0xDC00) /\ is_scalar c.
Proof.
  intros Hhi Hlo c. unfold c.
  rewrite Z.lor_comm, lor_shiftl_add by lia. change (2 ^ 10) with 1024.
  split; [lia|]. unfold is_scalar. lia.
Qed.

(** ** Round trip from the wire *)

Lemma decode_loop_encode n data text :
  (length data <= n)%nat -> bytes_ok data -> Nat.Even (length data) ->
  decodeUtf16Le_loop data = Ok text -> encodeUtf16Le text = Ok data.
Proof.
  revert data text.
  induction n as [|n IH]; intros [|b0 [|b1 rest]] text Hlen Hok Hev Hdec;
    try (injection Hdec as <-; done); try (simpl in Hlen; lia);
    try (destruct Hev as [k Hk]; simpl in Hk; lia).
  apply Forall_cons in Hok as [Hb0 Hok]. apply Forall_cons in Hok as [Hb1 Hok].
  assert (Nat.Even (length rest)) as Hev'.
  { destruct Hev as [k Hk]. exists (k - 1)%nat. simpl in Hk. lia. }
  cbn [decodeUtf16Le_loop] in Hdec. rewrite unit16_value in Hdec by done.
  destruct (_ && _) eqn:Hhi in Hdec; [|destruct (_ && _) eqn:Hlo in Hdec];
    [|discriminate|].
  - destruct rest as [|c0 [|c1 rest]]; [discriminate..|].
    apply Forall_cons in Hok as [Hc0 Hok]. apply Forall_cons in Hok as [Hc1 Hok].
    rewrite unit16_value in Hdec by done. inv_comp. bools.
    destruct (decoded_pair (b0 + 256 * b1) (c0 + 256 * c1)) as [Hc Hsc]; [lia..|].
    rewrite encodeUtf16Le_code_point by (destruct Hsc; lia).
    rewrite appendUtf16CodeUnits_scalar by done. cbn [mbind comp_bind].
    rewrite (IH rest x); [|simpl in Hlen; lia|done| |done].
    2:{ destruct Hev' as [k Hk]. exists (k - 1)%nat. simpl in Hk. lia. }
    cbn [mbind comp_bind]. rewrite Hc. unfold utf16_scalar.
    destruct (_ <? _) eqn:Hs; bools; [lia|]. cbn [app].
    unfold is_u8 in *. do 2 f_equal; [div_mod_lia|].
    f_equal; [div_mod_lia|]. f_equal; [div_mod_lia|]. f_equal. div_mod_lia.
  - inv_comp. apply andb_false_iff in Hhi, Hlo.
    assert (is_scalar (b0 + 256 * b1)) as Hsc.
    { unfold is_scalar, is_u8 in *. split; [lia|]. intros Hs.
      destruct Hhi, Hlo; bools; lia. }
    rewrite encodeUtf16Le_code_point by (destruct Hsc; lia).
    rewrite appendUtf16CodeUnits_scalar by done. cbn [mbind comp_bind].
    rewrite (IH rest x); [|simpl in Hlen; lia|done..]. cbn [mbind comp_bind].
    unfold utf16_scalar, is_u8 in *.
    destruct (_ <? _) eqn:Hs; bools; [|lia]. cbn [app].
    f_equal. f_equal; [div_mod_lia|]. f_equal. div_mod_lia.
Qed.

(** Whatever UTF-16LE buffer [decodeUtf16Le] accepts, re-encoding the text
    it returns with [encodeUtf16Le] gives the same buffer back: no code unit
    is lost, merged or normalised. *)
Theorem decodeUtf16Le_encodeUtf16Le data text :
  bytes_ok data -> decodeUtf16Le data = Ok text -> encodeUtf16Le text = Ok data.
Proof.
  intros Hok Hdec. unfold decodeUtf16Le in Hdec.
  destruct (negb _) eqn:Hev in Hdec; [discriminate|]. bools.
  apply (decode_loop_encode (length data)); [done..| |done].
  unfold blen in Hev. exists (length data / 2)%nat.
  apply (f_equal Z.to_nat) in Hev. rewrite Z2Nat.inj_mod, Nat2Z.id in Hev by lia.
  change (Z.to_nat 2) with 2%nat in Hev.
  rewrite (Nat.div_mod_eq (length data) 2), Hev at 1. simpl. lia.
Qed.

Lemma decodeUtf16Le_encodeUtf16Le_witness :
  decodeUtf16Le [0x41; 0; 0x3D; 0xD8; 0x00; 0xDE]
    = Ok [0x41; 0xF0; 0x9F; 0x98; 0x80] /\
  encodeUtf16Le [0x41; 0xF0; 0x9F; 0x98; 0x80]
    = Ok [0x41; 0; 0x3D; 0xD8; 0x00; 0xDE].
Proof.
  split; [vm_compute; reflexivity|].
  apply decodeUtf16Le_encodeUtf16Le.
  - repeat constructor; vm_compute; discriminate.
  - vm_compute. reflexivity.
Defined.

(** ** Round trip from Unicode scalar values *)

Lemma decode_loop_scalar c rest :
  is_scalar c ->
  decodeUtf16Le_loop (utf16_scalar c ++ rest) =
  (text ← decodeUtf16Le_loop rest; Ok (appendUtf8CodePoint c ++ text)).
Proof.
  intros [Hc Hs]. unfold utf16_scalar.
  destruct (c <? 0x10000) eqn:Hb; bools; cbn [app decodeUtf16Le_loop].
  - rewrite unit16_value by (unfold is_u8; div_mod_lia).
    replace (_ + 256 * _) with c by div_mod_lia.
    do 2 (case_if; [bools; lia|]). done.
  - set (hi := 0xD800 + (c - 0x10000) / 1024).
    set (lo := 0xDC00 + (c - 0x10000) mod 1024).
    assert (0xD800 <= hi <= 0xDBFF) by (unfold hi; div_mod_lia).
    assert (0xDC00 <= lo <= 0xDFFF) by (unfold lo; div_mod_lia).
    rewrite !unit16_value by (unfold is_u8; div_mod_lia).
    replace (hi mod 256 + _) with hi by div_mod_lia.
    replace (lo mod 256 + _) with lo by div_mod_lia.
    case_if; [|rewrite andb_false_iff in *; bools; lia].
    case_if; [rewrite orb_true_iff in *; bools; lia|].
    destruct (decoded_pair hi lo) as [-> _]; [lia..|].
    replace (_ + 1024 * _ + _) with c by (unfold hi, lo; div_mod_lia). done.
Qed.

Lemma utf16_even cs : blen (utf16 cs) mod 2 = 0.
Proof.
  induction cs as [|c cs IH]; [done|].
  change (utf16 (c :: cs)) with (utf16_scalar c ++ utf16 cs).
  rewrite blen_app. unfold utf16_scalar.
  destruct (_ <? _); autorewrite with blen; div_mod_lia.
Qed.

(** On text made of Unicode scalar values (no surrogates) the two
    conversions are total and agree with the standard: the UTF-8 form encodes
    to the UTF-16LE form with surrogate pairs above U+FFFF, and that form
    decodes to the UTF-8 form. *)
Theorem utf16_scalar_round_trip cs :
  Forall is_scalar cs ->
  encodeUtf16Le (utf8 cs) = Ok (utf16 cs) /\
  decodeUtf16Le (utf16 cs) = Ok (utf8 cs).
Proof.
  intros Hcs. unfold decodeUtf16Le. rewrite utf16_even. cbn [Z.eqb negb].
  induction Hcs as [|c cs Hc _ [IHe IHd]]; [done|].
  change (utf16 (c :: cs)) with (utf16_scalar c ++ utf16 cs).
  change (utf8 (c :: cs)) with (appendUtf8CodePoint c ++ utf8 cs).
  rewrite encodeUtf16Le_code_point by exact (proj1 Hc).
  rewrite decode_loop_scalar by done.
  by rewrite appendUtf16CodeUnits_scalar, IHe, IHd by done.
Qed.

Lemma utf16_scalar_round_trip_witness :
  encodeUtf16Le (utf8 [0x48; 0x436; 0x20AC; 0x1F600])
    = Ok [0x48; 0; 0x36; 0x04; 0xAC; 0x20; 0x3D; 0xD8; 0x00; 0xDE].
Proof.
  refine (proj1 (utf16_scalar_round_trip [0x48; 0x436; 0x20AC; 0x1F600] _)).
  repeat constructor; unfold is_scalar; lia.
Defined.

(** Overlong forms are not rejected: the two-byte form of NUL encodes to a
    NUL code unit, and an encoded surrogate passes through unpaired. *)
Lemma encodeUtf16Le_overlong :
  encodeUtf16Le [0xC0; 0x80] = Ok [0; 0] /\
  encodeUtf16Le [0xED; 0xA0; 0x80] = Ok [0x00; 0xD8] /\
  decodeUtf16Le [0x00; 0xD8]
    = failure ErrorCode_IoError "UTF-16LE high surrogate is truncated.".
Proof. vm_compute. done. Qed.

(** ** Well-formedness of the results *)

Lemma appendUtf16CodeUnits_wp c :
  wpt (appendUtf16CodeUnits c) (fun u => bytes_ok u).
Proof.
  unfold appendUtf16CodeUnits. destruct (_ <=? _); [|destruct (_ <=? _)];
    cbn [wpt]; auto with smb.
Qed.

Lemma wpt_encodeUtf16Le_le n text :
  (length text <= n)%nat -> wpt (encodeUtf16Le text) bytes_ok.
Proof.
  revert text. induction n as [|n IH]; intros [|b1 t1] Hn; try apply bytes_ok_nil;
    simpl in Hn; [lia|].
  assert (forall c rest, (length rest <= n)%nat ->
    wpt (units ← appendUtf16CodeUnits c; rest ← encodeUtf16Le rest; Ok (units ++ rest))
      bytes_ok) as Hnext.
  { intros c rest Hr. wpt_step. eapply wpt_mono; [apply appendUtf16CodeUnits_wp|].
    intros units Hu. wpt_step. eapply wpt_mono; [by apply IH|].
    intros text Ht. by apply bytes_ok_app. }
  cbn [encodeUtf16Le]. wpt_step; [apply Hnext; lia|].
  destruct t1 as [|b2 [|b3 [|b4 t4]]]; simpl in Hn; try exact I;
    repeat first [exact I | apply Hnext; simpl; lia | wpt_step].
Qed.

(** [encodeUtf16Le] returns bytes or throws. *)
Lemma wpt_encodeUtf16Le text : wpt (encodeUtf16Le text) bytes_ok.
Proof. by eapply wpt_encodeUtf16Le_le. Qed.

Lemma throws_only_encodeUtf16Le_le n text :
  (length text <= n)%nat -> throws_only (encodeUtf16Le text).
Proof.
  revert text. induction n as [|n IH]; intros [|b1 t1] Hn; try apply throws_only_Ok;
    simpl in Hn; [lia|].
  assert (forall c rest, (length rest <= n)%nat ->
    throws_only (units ← appendUtf16CodeUnits c; rest ← encodeUtf16Le rest; Ok (units ++ rest)))
    as Hnext.
  { intros c rest Hr. throws_step; [unfold appendUtf16CodeUnits; repeat throws_step|].
    intros units. throws_step; [by apply IH|]. intros text. throws_step. }
  cbn [encodeUtf16Le]. throws_step; [apply Hnext; lia|].
  destruct t1 as [|b2 [|b3 [|b4 t4]]]; simpl in Hn;
    repeat first [apply Hnext; simpl; lia | throws_step].
Qed.
Lemma throws_only_encodeUtf16Le text : throws_only (encodeUtf16Le text).
Proof. by eapply throws_only_encodeUtf16Le_le. Qed.

Lemma appendUtf8CodePoint_ok c : bytes_ok (appendUtf8CodePoint c).
Proof.
  unfold appendUtf8CodePoint.
  repeat destruct (_ <=? _); repeat constructor; apply u8_range.
Qed.

Lemma wp_decodeUtf16Le_loop n data :
  (length data <= n)%nat -> wp (decodeUtf16Le_loop data) bytes_ok.
Proof.
  revert data. induction n as [|n IH]; intros [|b0 [|b1 rest]] Hn;
    try apply bytes_ok_nil; [simpl in Hn; lia|].
  cbn [decodeUtf16Le_loop]. wp_steps; try exact I.
  - destruct rest as [|c0 [|c1 rest]]; try exact I. wp_steps; try exact I.
    eapply wp_mono; [apply IH; simpl in Hn; lia|]. intros text Ht.
    apply bytes_ok_app; [apply appendUtf8CodePoint_ok|done].
  - eapply wp_mono; [apply IH; simpl in Hn; lia|]. intros text Ht.
    apply bytes_ok_app; [apply appendUtf8CodePoint_ok|done].
Qed.

(** [decodeUtf16Le] never reads outside its buffer and returns bytes. *)
Lemma wp_decodeUtf16Le data : wp (decodeUtf16Le data) bytes_ok.
Proof.
  unfold decodeUtf16Le. wp_steps. by eapply wp_decodeUtf16Le_loop.
Qed.
