(* ===== verification/ProtocolTypes.v ===== *)
(** * The vocabulary of the protocol ([Protocol.h])

    The enumerations, structures and constants of [Protocol.h].  The fields of
    a structure carry a prefix of their structure ([hdr_], [crr_], ...); for a
    structure [S], [S_ok] says that every integer field lies in the range of
    its C++ type and every buffer holds bytes.

    [static_cast] from an integer to an enumeration whose underlying type is
    fixed keeps the integer even when no enumerator names it: the constructors
    [Command_Unlisted], [Dialect_Unlisted] and [ShareType_Unlisted] hold those
    values. *)

From S2P Require Export Bytes.
Local Open Scope Z_scope.

(** ** Enumerations *)

Inductive Dialect : Set :=
| Dialect_Smb202
| Dialect_Smb210
| Dialect_Smb300
| Dialect_Smb302
| Dialect_Smb311
| Dialect_Unlisted (raw : Z).

#[export] Instance Dialect_eq_dec : EqDecision Dialect.
Proof. solve_decision. Defined.

(** The underlying integer of an enumerator. *)
Definition dialect_value (x : Dialect) : Z :=
  match x with
  | Dialect_Smb202 => 0x202
  | Dialect_Smb210 => 0x210
  | Dialect_Smb300 => 0x300
  | Dialect_Smb302 => 0x302
  | Dialect_Smb311 => 0x311
  | Dialect_Unlisted raw => raw
  end.

Definition dialects : list Dialect :=
  [Dialect_Smb202;
   Dialect_Smb210;
   Dialect_Smb300;
   Dialect_Smb302;
   Dialect_Smb311].

(** [static_cast<Dialect>(v)]. *)
Definition dialect_of (v : Z) : Dialect :=
  default (Dialect_Unlisted v)
    (snd <$> list_find (fun x => dialect_value x = v) dialects).

Definition dialect_ok (x : Dialect) : Prop :=
  is_u16 (dialect_value x) /\ dialect_of (dialect_value x) = x.

Inductive Command : Set :=
| Command_Negotiate
| Command_SessionSetup
| Command_Logoff
| Command_TreeConnect
| Command_TreeDisconnect
| Command_Create
| Command_Close
| Command_Flush
| Command_Read
| Command_Write
| Command_Lock
| Command_Ioctl
| Command_Cancel
| Command_Echo
| Command_QueryDirectory
| Command_ChangeNotify
| Command_QueryInfo
| Command_SetInfo
| Command_OplockBreak
| Command_Unlisted (raw : Z).

#[export] Instance Command_eq_dec : EqDecision Command.
Proof. solve_decision. Defined.

(** The underlying integer of an enumerator. *)
Definition command_value (x : Command) : Z :=
  match x with
  | Command_Negotiate => 0x0
  | Command_SessionSetup => 0x1
  | Command_Logoff => 0x2
  | Command_TreeConnect => 0x3
  | Command_TreeDisconnect => 0x4
  | Command_Create => 0x5
  | Command_Close => 0x6
  | Command_Flush => 0x7
  | Command_Read => 0x8
  | Command_Write => 0x9
  | Command_Lock => 0xa
  | Command_Ioctl => 0xb
  | Command_Cancel => 0xc
  | Command_Echo => 0xd
  | Command_QueryDirectory => 0xe
  | Command_ChangeNotify => 0xf
  | Command_QueryInfo => 0x10
  | Command_SetInfo => 0x11
  | Command_OplockBreak => 0x12
  | Command_Unlisted raw => raw
  end.

Definition commands : list Command :=
  [Command_Negotiate;
   Command_SessionSetup;
   Command_Logoff;
   Command_TreeConnect;
   Command_TreeDisconnect;
   Command_Create;
   Command_Close;
   Command_Flush;
   Command_Read;
   Command_Write;
   Command_Lock;
   Command_Ioctl;
   Command_Cancel;
   Command_Echo;
   Command_QueryDirectory;
   Command_ChangeNotify;
   Command_QueryInfo;
   Command_SetInfo;
   Command_OplockBreak].

(** [static_cast<Command>(v)]. *)
Definition command_of (v : Z) : Command :=
  default (Command_Unlisted v)
    (snd <$> list_find (fun x => command_value x = v) commands).

Definition command_ok (x : Command) : Prop :=
  is_u16 (command_value x) /\ command_of (command_value x) = x.

Inductive ShareType : Set :=
| ShareType_Disk
| ShareType_Pipe
| ShareType_Print
| ShareType_Unlisted (raw : Z).

#[export] Instance ShareType_eq_dec : EqDecision ShareType.
Proof. solve_decision. Defined.

(** The underlying integer of an enumerator. *)
Definition shareType_value (x : ShareType) : Z :=
  match x with
  | ShareType_Disk => 0x1
  | ShareType_Pipe => 0x2
  | ShareType_Print => 0x3
  | ShareType_Unlisted raw => raw
  end.

Definition shareTypes : list ShareType :=
  [ShareType_Disk;
   ShareType_Pipe;
   ShareType_Print].

(** [static_cast<ShareType>(v)]. *)
Definition shareType_of (v : Z) : ShareType :=
  default (ShareType_Unlisted v)
    (snd <$> list_find (fun x => shareType_value x = v) shareTypes).

Definition shareType_ok (x : ShareType) : Prop :=
  is_u8 (shareType_value x) /\ shareType_of (shareType_value x) = x.

Inductive GlobalCapability : Set :=
| GlobalCapability_Dfs
| GlobalCapability_Leasing
| GlobalCapability_LargeMtu
| GlobalCapability_MultiChannel
| GlobalCapability_PersistentHandles
| GlobalCapability_DirectoryLeasing
| GlobalCapability_Encryption
| GlobalCapability_Notifications.

Definition globalCapability_value (x : GlobalCapability) : Z :=
  match x with
  | GlobalCapability_Dfs => 0x1
  | GlobalCapability_Leasing => 0x2
  | GlobalCapability_LargeMtu => 0x4
  | GlobalCapability_MultiChannel => 0x8
  | GlobalCapability_PersistentHandles => 0x10
  | GlobalCapability_DirectoryLeasing => 0x20
  | GlobalCapability_Encryption => 0x40
  | GlobalCapability_Notifications => 0x80
  end.

(** ** Structures *)

Record FileId : Set := mkFileId {
  fid_persistent : Z;
  fid_volatileId : Z
}.

Definition FileId_ok (x : FileId) : Prop :=
  is_u64 (fid_persistent x) /\
  is_u64 (fid_volatileId x).

Record Smb2SyncHeader : Set := mkSmb2SyncHeader {
  hdr_creditCharge : Z;
  hdr_status : Z;
  hdr_command : Command;
  hdr_creditRequest : Z;
  hdr_flags : Z;
  hdr_nextCommand : Z;
  hdr_messageId : Z;
  hdr_treeId : Z;
  hdr_sessionId : Z;
  hdr_signature : bytes
}.

Definition Smb2SyncHeader_ok (x : Smb2SyncHeader) : Prop :=
  is_u16 (hdr_creditCharge x) /\
  is_u32 (hdr_status x) /\
  command_ok (hdr_command x) /\
  is_u16 (hdr_creditRequest x) /\
  is_u32 (hdr_flags x) /\
  is_u32 (hdr_nextCommand x) /\
  is_u64 (hdr_messageId x) /\
  is_u32 (hdr_treeId x) /\
  is_u64 (hdr_sessionId x) /\
  bytes_ok (hdr_signature x) /\
  blen (hdr_signature x) = 16.

Record NegotiateRequestOptions : Set := mkNegotiateRequestOptions {
  nqo_dialects : list Dialect;
  nqo_signing : SecurityPolicy;
  nqo_capabilities : Z;
  nqo_clientGuid : bytes
}.

Definition NegotiateRequestOptions_ok (x : NegotiateRequestOptions) : Prop :=
  Forall dialect_ok (nqo_dialects x) /\
  is_u32 (nqo_capabilities x) /\
  bytes_ok (nqo_clientGuid x) /\
  blen (nqo_clientGuid x) = 16.

Record NegotiateResponse : Set := mkNegotiateResponse {
  ngr_securityMode : Z;
  ngr_dialect : Dialect;
  ngr_negotiateContextCount : Z;
  ngr_serverGuid : bytes;
  ngr_capabilities : Z;
  ngr_maxTransactSize : Z;
  ngr_maxReadSize : Z;
  ngr_maxWriteSize : Z;
  ngr_systemTime : Z;
  ngr_serverStartTime : Z;
  ngr_securityBuffer : bytes;
  ngr_negotiateContextOffset : Z
}.

Definition NegotiateResponse_ok (x : NegotiateResponse) : Prop :=
  is_u16 (ngr_securityMode x) /\
  dialect_ok (ngr_dialect x) /\
  is_u16 (ngr_negotiateContextCount x) /\
  bytes_ok (ngr_serverGuid x) /\
  blen (ngr_serverGuid x) = 16 /\
  is_u32 (ngr_capabilities x) /\
  is_u32 (ngr_maxTransactSize x) /\
  is_u32 (ngr_maxReadSize x) /\
  is_u32 (ngr_maxWriteSize x) /\
  is_u64 (ngr_systemTime x) /\
  is_u64 (ngr_serverStartTime x) /\
  bytes_ok (ngr_securityBuffer x) /\
  is_u32 (ngr_negotiateContextOffset x).

Record SessionSetupRequestOptions : Set := mkSessionSetupRequestOptions {
  sso_flags : Z;
  sso_signing : SecurityPolicy;
  sso_capabilities : Z;
  sso_previousSessionId : Z;
  sso_securityBuffer : bytes
}.

Definition SessionSetupRequestOptions_ok (x : SessionSetupRequestOptions) : Prop :=
  is_u8 (sso_flags x) /\
  is_u32 (sso_capabilities x) /\
  is_u64 (sso_previousSessionId x) /\
  bytes_ok (sso_securityBuffer x).

Record SessionSetupResponse : Set := mkSessionSetupResponse {
  ssr_status : Z;
  ssr_sessionId : Z;
  ssr_sessionFlags : Z;
  ssr_securityBuffer : bytes;
  ssr_requestPayload : bytes;
  ssr_responsePayload : bytes;
  ssr_moreProcessingRequired : bool;
  ssr_guestSession : bool;
  ssr_nullSession : bool;
  ssr_encryptData : bool
}.

Definition SessionSetupResponse_ok (x : SessionSetupResponse) : Prop :=
  is_u32 (ssr_status x) /\
  is_u64 (ssr_sessionId x) /\
  is_u16 (ssr_sessionFlags x) /\
  bytes_ok (ssr_securityBuffer x) /\
  bytes_ok (ssr_requestPayload x) /\
  bytes_ok (ssr_responsePayload x).

Record TreeConnectRequestOptions : Set := mkTreeConnectRequestOptions {
  tco_server : bytes;
  tco_share : bytes;
  tco_flags : Z
}.

Definition TreeConnectRequestOptions_ok (x : TreeConnectRequestOptions) : Prop :=
  bytes_ok (tco_server x) /\
  bytes_ok (tco_share x) /\
  is_u16 (tco_flags x).

Record TreeConnectResponse : Set := mkTreeConnectResponse {
  tcr_shareType : ShareType;
  tcr_shareFlags : Z;
  tcr_capabilities : Z;
  tcr_maximalAccess : Z;
  tcr_isDfs : bool;
  tcr_isDfsRoot : bool;
  tcr_requiresEncryption : bool
}.

Definition TreeConnectResponse_ok (x : TreeConnectResponse) : Prop :=
  shareType_ok (tcr_shareType x) /\
  is_u32 (tcr_shareFlags x) /\
  is_u32 (tcr_capabilities x) /\
  is_u32 (tcr_maximalAccess x).

Record TreeDisconnectResponse : Set := mkTreeDisconnectResponse {
  tdr_status : Z
}.

Definition TreeDisconnectResponse_ok (x : TreeDisconnectResponse) : Prop :=
  is_u32 (tdr_status x).

Record LogoffResponse : Set := mkLogoffResponse {
  lgr_status : Z
}.

Definition LogoffResponse_ok (x : LogoffResponse) : Prop :=
  is_u32 (lgr_status x).

Record CreateRequestOptions : Set := mkCreateRequestOptions {
  cro_path : bytes;
  cro_requestedOplockLevel : Z;
  cro_impersonationLevel : Z;
  cro_desiredAccess : Z;
  cro_fileAttributes : Z;
  cro_shareAccess : Z;
  cro_createDisposition : Z;
  cro_createOptions : Z;
  cro_createContexts : bytes
}.

Definition CreateRequestOptions_ok (x : CreateRequestOptions) : Prop :=
  bytes_ok (cro_path x) /\
  is_u8 (cro_requestedOplockLevel x) /\
  is_u32 (cro_impersonationLevel x) /\
  is_u32 (cro_desiredAccess x) /\
  is_u32 (cro_fileAttributes x) /\
  is_u32 (cro_shareAccess x) /\
  is_u32 (cro_createDisposition x) /\
  is_u32 (cro_createOptions x) /\
  bytes_ok (cro_createContexts x).

Record CreateResponse : Set := mkCreateResponse {
  crr_oplockLevel : Z;
  crr_flags : Z;
  crr_createAction : Z;
  crr_creationTime : Z;
  crr_lastAccessTime : Z;
  crr_lastWriteTime : Z;
  crr_changeTime : Z;
  crr_allocationSize : Z;
  crr_endOfFile : Z;
  crr_fileAttributes : Z;
  crr_fileId : FileId;
  crr_isReparsePoint : bool
}.

Definition CreateResponse_ok (x : CreateResponse) : Prop :=
  is_u8 (crr_oplockLevel x) /\
  is_u8 (crr_flags x) /\
  is_u32 (crr_createAction x) /\
  is_u64 (crr_creationTime x) /\
  is_u64 (crr_lastAccessTime x) /\
  is_u64 (crr_lastWriteTime x) /\
  is_u64 (crr_changeTime x) /\
  is_u64 (crr_allocationSize x) /\
  is_u64 (crr_endOfFile x) /\
  is_u32 (crr_fileAttributes x) /\
  FileId_ok (crr_fileId x).

Record CloseRequestOptions : Set := mkCloseRequestOptions {
  clo_fileId : FileId;
  clo_flags : Z
}.

Definition CloseRequestOptions_ok (x : CloseRequestOptions) : Prop :=
  FileId_ok (clo_fileId x) /\
  is_u16 (clo_flags x).

Record CloseResponse : Set := mkCloseResponse {
  clr_status : Z;
  clr_flags : Z;
  clr_creationTime : Z;
  clr_lastAccessTime : Z;
  clr_lastWriteTime : Z;
  clr_changeTime : Z;
  clr_allocationSize : Z;
  clr_endOfFile : Z;
  clr_fileAttributes : Z;
  clr_hasPostQueryAttributes : bool
}.

Definition CloseResponse_ok (x : CloseResponse) : Prop :=
  is_u32 (clr_status x) /\
  is_u16 (clr_flags x) /\
  is_u64 (clr_creationTime x) /\
  is_u64 (clr_lastAccessTime x) /\
  is_u64 (clr_lastWriteTime x) /\
  is_u64 (clr_changeTime x) /\
  is_u64 (clr_allocationSize x) /\
  is_u64 (clr_endOfFile x) /\
  is_u32 (clr_fileAttributes x).

Record ReadRequestOptions : Set := mkReadRequestOptions {
  rdo_fileId : FileId;
  rdo_length : Z;
  rdo_offset : Z;
  rdo_flags : Z;
  rdo_minimumCount : Z;
  rdo_channel : Z;
  rdo_remainingBytes : Z;
  rdo_channelInfo : bytes
}.

Definition ReadRequestOptions_ok (x : ReadRequestOptions) : Prop :=
  FileId_ok (rdo_fileId x) /\
  is_u32 (rdo_length x) /\
  is_u64 (rdo_offset x) /\
  is_u8 (rdo_flags x) /\
  is_u32 (rdo_minimumCount x) /\
  is_u32 (rdo_channel x) /\
  is_u32 (rdo_remainingBytes x) /\
  bytes_ok (rdo_channelInfo x).

Record ReadResponse : Set := mkReadResponse {
  rdr_status : Z;
  rdr_dataOffset : Z;
  rdr_dataRemaining : Z;
  rdr_flags : Z;
  rdr_data : bytes
}.

Definition ReadResponse_ok (x : ReadResponse) : Prop :=
  is_u32 (rdr_status x) /\
  is_u8 (rdr_dataOffset x) /\
  is_u32 (rdr_dataRemaining x) /\
  is_u8 (rdr_flags x) /\
  bytes_ok (rdr_data x).

Record WriteRequestOptions : Set := mkWriteRequestOptions {
  wro_fileId : FileId;
  wro_data : bytes;
  wro_offset : Z;
  wro_channel : Z;
  wro_remainingBytes : Z;
  wro_channelInfo : bytes;
  wro_flags : Z
}.

Definition WriteRequestOptions_ok (x : WriteRequestOptions) : Prop :=
  FileId_ok (wro_fileId x) /\
  bytes_ok (wro_data x) /\
  is_u64 (wro_offset x) /\
  is_u32 (wro_channel x) /\
  is_u32 (wro_remainingBytes x) /\
  bytes_ok (wro_channelInfo x) /\
  is_u32 (wro_flags x).

Record WriteResponse : Set := mkWriteResponse {
  wrr_status : Z;
  wrr_count : Z;
  wrr_remaining : Z;
  wrr_writeChannelInfoOffset : Z;
  wrr_writeChannelInfoLength : Z
}.

Definition WriteResponse_ok (x : WriteResponse) : Prop :=
  is_u32 (wrr_status x) /\
  is_u32 (wrr_count x) /\
  is_u32 (wrr_remaining x) /\
  is_u16 (wrr_writeChannelInfoOffset x) /\
  is_u16 (wrr_writeChannelInfoLength x).

Record IoctlRequestOptions : Set := mkIoctlRequestOptions {
  ioo_ctlCode : Z;
  ioo_fileId : FileId;
  ioo_input : bytes;
  ioo_maxInputResponse : Z;
  ioo_maxOutputResponse : Z;
  ioo_flags : Z
}.

Definition IoctlRequestOptions_ok (x : IoctlRequestOptions) : Prop :=
  is_u32 (ioo_ctlCode x) /\
  FileId_ok (ioo_fileId x) /\
  bytes_ok (ioo_input x) /\
  is_u32 (ioo_maxInputResponse x) /\
  is_u32 (ioo_maxOutputResponse x) /\
  is_u32 (ioo_flags x).

Record IoctlResponse : Set := mkIoctlResponse {
  ior_status : Z;
  ior_ctlCode : Z;
  ior_fileId : FileId;
  ior_input : bytes;
  ior_output : bytes;
  ior_flags : Z
}.

Definition IoctlResponse_ok (x : IoctlResponse) : Prop :=
  is_u32 (ior_status x) /\
  is_u32 (ior_ctlCode x) /\
  FileId_ok (ior_fileId x) /\
  bytes_ok (ior_input x) /\
  bytes_ok (ior_output x) /\
  is_u32 (ior_flags x).

Record CopyChunk : Set := mkCopyChunk {
  cch_sourceOffset : Z;
  cch_targetOffset : Z;
  cch_length : Z
}.

Definition CopyChunk_ok (x : CopyChunk) : Prop :=
  is_u64 (cch_sourceOffset x) /\
  is_u64 (cch_targetOffset x) /\
  is_u32 (cch_length x).

Record CopyChunkResponse : Set := mkCopyChunkResponse {
  ccr_chunksWritten : Z;
  ccr_chunkBytesWritten : Z;
  ccr_totalBytesWritten : Z
}.

Definition CopyChunkResponse_ok (x : CopyChunkResponse) : Prop :=
  is_u32 (ccr_chunksWritten x) /\
  is_u32 (ccr_chunkBytesWritten x) /\
  is_u32 (ccr_totalBytesWritten x).

Record SetInfoRequestOptions : Set := mkSetInfoRequestOptions {
  sio_fileId : FileId;
  sio_infoType : Z;
  sio_fileInfoClass : Z;
  sio_buffer : bytes;
  sio_additionalInformation : Z
}.

Definition SetInfoRequestOptions_ok (x : SetInfoRequestOptions) : Prop :=
  FileId_ok (sio_fileId x) /\
  is_u8 (sio_infoType x) /\
  is_u8 (sio_fileInfoClass x) /\
  bytes_ok (sio_buffer x) /\
  is_u32 (sio_additionalInformation x).

Record SetInfoResponse : Set := mkSetInfoResponse {
  sir_status : Z
}.

Definition SetInfoResponse_ok (x : SetInfoResponse) : Prop :=
  is_u32 (sir_status x).

Record QueryInfoRequestOptions : Set := mkQueryInfoRequestOptions {
  qio_fileId : FileId;
  qio_infoType : Z;
  qio_fileInfoClass : Z;
  qio_outputBufferLength : Z;
  qio_inputBuffer : bytes;
  qio_additionalInformation : Z;
  qio_flags : Z
}.

Definition QueryInfoRequestOptions_ok (x : QueryInfoRequestOptions) : Prop :=
  FileId_ok (qio_fileId x) /\
  is_u8 (qio_infoType x) /\
  is_u8 (qio_fileInfoClass x) /\
  is_u32 (qio_outputBufferLength x) /\
  bytes_ok (qio_inputBuffer x) /\
  is_u32 (qio_additionalInformation x) /\
  is_u32 (qio_flags x).

Record QueryInfoResponse : Set := mkQueryInfoResponse {
  qir_status : Z;
  qir_outputBufferOffset : Z;
  qir_buffer : bytes
}.

Definition QueryInfoResponse_ok (x : QueryInfoResponse) : Prop :=
  is_u32 (qir_status x) /\
  is_u16 (qir_outputBufferOffset x) /\
  bytes_ok (qir_buffer x).

Record FileBasicInformation : Set := mkFileBasicInformation {
  fbi_creationTime : Z;
  fbi_lastAccessTime : Z;
  fbi_lastWriteTime : Z;
  fbi_changeTime : Z;
  fbi_fileAttributes : Z
}.

Definition FileBasicInformation_ok (x : FileBasicInformation) : Prop :=
  is_u64 (fbi_creationTime x) /\
  is_u64 (fbi_lastAccessTime x) /\
  is_u64 (fbi_lastWriteTime x) /\
  is_u64 (fbi_changeTime x) /\
  is_u32 (fbi_fileAttributes x).

Record FileStandardInformation : Set := mkFileStandardInformation {
  fsi_allocationSize : Z;
  fsi_endOfFile : Z;
  fsi_numberOfLinks : Z;
  fsi_deletePending : bool;
  fsi_directory : bool
}.

Definition FileStandardInformation_ok (x : FileStandardInformation) : Prop :=
  is_u64 (fsi_allocationSize x) /\
  is_u64 (fsi_endOfFile x) /\
  is_u32 (fsi_numberOfLinks x).

Record FileFullEaInformation : Set := mkFileFullEaInformation {
  fea_name : bytes;
  fea_value : bytes;
  fea_needEa : bool
}.

Definition FileFullEaInformation_ok (x : FileFullEaInformation) : Prop :=
  bytes_ok (fea_name x) /\
  bytes_ok (fea_value x).

Record QueryDirectoryRequestOptions : Set := mkQueryDirectoryRequestOptions {
  qdo_fileId : FileId;
  qdo_pattern : bytes;
  qdo_informationClass : Z;
  qdo_flags : Z;
  qdo_fileIndex : Z;
  qdo_outputBufferLength : Z
}.

Definition QueryDirectoryRequestOptions_ok (x : QueryDirectoryRequestOptions) : Prop :=
  FileId_ok (qdo_fileId x) /\
  bytes_ok (qdo_pattern x) /\
  is_u8 (qdo_informationClass x) /\
  is_u8 (qdo_flags x) /\
  is_u32 (qdo_fileIndex x) /\
  is_u32 (qdo_outputBufferLength x).

Record DirectoryEntry : Set := mkDirectoryEntry {
  dre_name : bytes;
  dre_fileIndex : Z;
  dre_creationTime : Z;
  dre_lastAccessTime : Z;
  dre_lastWriteTime : Z;
  dre_changeTime : Z;
  dre_endOfFile : Z;
  dre_allocationSize : Z;
  dre_fileAttributes : Z;
  dre_eaSizeOrReparseTag : Z;
  dre_fileId : Z;
  dre_isDirectory : bool;
  dre_isReparsePoint : bool
}.

Definition DirectoryEntry_ok (x : DirectoryEntry) : Prop :=
  bytes_ok (dre_name x) /\
  is_u32 (dre_fileIndex x) /\
  is_u64 (dre_creationTime x) /\
  is_u64 (dre_lastAccessTime x) /\
  is_u64 (dre_lastWriteTime x) /\
  is_u64 (dre_changeTime x) /\
  is_u64 (dre_endOfFile x) /\
  is_u64 (dre_allocationSize x) /\
  is_u32 (dre_fileAttributes x) /\
  is_u32 (dre_eaSizeOrReparseTag x) /\
  is_u64 (dre_fileId x).

Record QueryDirectoryResponse : Set := mkQueryDirectoryResponse {
  qdr_status : Z;
  qdr_entries : list DirectoryEntry
}.

Definition QueryDirectoryResponse_ok (x : QueryDirectoryResponse) : Prop :=
  is_u32 (qdr_status x) /\
  Forall DirectoryEntry_ok (qdr_entries x).

Record ChangeNotifyRequestOptions : Set := mkChangeNotifyRequestOptions {
  cno_fileId : FileId;
  cno_flags : Z;
  cno_outputBufferLength : Z;
  cno_completionFilter : Z
}.

Definition ChangeNotifyRequestOptions_ok (x : ChangeNotifyRequestOptions) : Prop :=
  FileId_ok (cno_fileId x) /\
  is_u16 (cno_flags x) /\
  is_u32 (cno_outputBufferLength x) /\
  is_u32 (cno_completionFilter x).

Record ChangeNotifyEntry : Set := mkChangeNotifyEntry {
  cne_action : Z;
  cne_name : bytes
}.

Definition ChangeNotifyEntry_ok (x : ChangeNotifyEntry) : Prop :=
  is_u32 (cne_action x) /\
  bytes_ok (cne_name x).

Record ChangeNotifyResponse : Set := mkChangeNotifyResponse {
  cnr_status : Z;
  cnr_outputBufferOffset : Z;
  cnr_entries : list ChangeNotifyEntry
}.

Definition ChangeNotifyResponse_ok (x : ChangeNotifyResponse) : Prop :=
  is_u32 (cnr_status x) /\
  is_u16 (cnr_outputBufferOffset x) /\
  Forall ChangeNotifyEntry_ok (cnr_entries x).

(** ** Constants *)

Definition kSmb2HeaderSize : Z := 64.
Definition kDirectTcpHeaderSize : Z := 4.
Definition kSmb2ProtocolId : Z := 0x424D53FE.
Definition kSmb2HeaderStructureSize : Z := 64.
Definition kNegotiateRequestStructureSize : Z := 36.
Definition kNegotiateResponseStructureSize : Z := 65.
Definition kSessionSetupRequestStructureSize : Z := 25.
Definition kSessionSetupResponseStructureSize : Z := 9.
Definition kLogoffRequestStructureSize : Z := 4.
Definition kLogoffResponseStructureSize : Z := 4.
Definition kTreeConnectRequestStructureSize : Z := 9.
Definition kTreeConnectResponseStructureSize : Z := 16.
Definition kTreeDisconnectRequestStructureSize : Z := 4.
Definition kTreeDisconnectResponseStructureSize : Z := 4.
Definition kCreateRequestStructureSize : Z := 57.
Definition kCreateResponseStructureSize : Z := 89.
Definition kCloseRequestStructureSize : Z := 24.
Definition kCloseResponseStructureSize : Z := 60.
Definition kReadRequestStructureSize : Z := 49.
Definition kReadResponseStructureSize : Z := 17.
Definition kWriteRequestStructureSize : Z := 49.
Definition kWriteResponseStructureSize : Z := 17.
Definition kIoctlRequestStructureSize : Z := 57.
Definition kIoctlResponseStructureSize : Z := 49.
Definition kSetInfoRequestStructureSize : Z := 33.
Definition kSetInfoResponseStructureSize : Z := 2.
Definition kQueryInfoRequestStructureSize : Z := 41.
Definition kQueryInfoResponseStructureSize : Z := 9.
Definition kQueryDirectoryRequestStructureSize : Z := 33.
Definition kQueryDirectoryResponseStructureSize : Z := 9.
Definition kChangeNotifyRequestStructureSize : Z := 32.
Definition kChangeNotifyResponseStructureSize : Z := 9.
Definition kStatusSuccess : Z := 0x00000000.
Definition kStatusNotifyEnumDir : Z := 0x0000010C.
Definition kStatusNoSuchFile : Z := 0xC000000F.
Definition kStatusAccessDenied : Z := 0xC0000022.
Definition kStatusObjectNameNotFound : Z := 0xC0000034.
Definition kStatusObjectNameCollision : Z := 0xC0000035.
Definition kStatusObjectPathNotFound : Z := 0xC000003A.
Definition kStatusObjectPathSyntaxBad : Z := 0xC000003B.
Definition kStatusInvalidParameter : Z := 0xC000000D.
Definition kStatusInvalidDeviceRequest : Z := 0xC0000010.
Definition kStatusMoreProcessingRequired : Z := 0xC0000016.
Definition kStatusSharingViolation : Z := 0xC0000043.
Definition kStatusLogonFailure : Z := 0xC000006D.
Definition kStatusAccountRestriction : Z := 0xC000006E.
Definition kStatusInvalidLogonHours : Z := 0xC000006F.
Definition kStatusInvalidWorkstation : Z := 0xC0000070.
Definition kStatusPasswordExpired : Z := 0xC0000071.
Definition kStatusAccountDisabled : Z := 0xC0000072.
Definition kStatusIoTimeout : Z := 0xC00000B5.
Definition kStatusFileIsADirectory : Z := 0xC00000BA.
Definition kStatusNotSupported : Z := 0xC00000BB.
Definition kStatusNetworkNameDeleted : Z := 0xC00000C9.
Definition kStatusNetworkAccessDenied : Z := 0xC00000CA.
Definition kStatusBadNetworkName : Z := 0xC00000CC.
Definition kStatusDirectoryNotEmpty : Z := 0xC0000101.
Definition kStatusNotADirectory : Z := 0xC0000103.
Definition kStatusPathNotCovered : Z := 0xC0000257.
Definition kStatusNoMoreFiles : Z := 0x80000006.
Definition kFlagServerToRedir : Z := 0x00000001.
Definition kFlagAsyncCommand : Z := 0x00000002.
Definition kFlagSigned : Z := 0x00000008.
Definition kFlagDfsOperations : Z := 0x10000000.
Definition kShareFlagDfs : Z := 0x00000001.
Definition kShareFlagDfsRoot : Z := 0x00000002.
Definition kShareFlagEncryptData : Z := 0x00008000.
Definition kShareCapabilityDfs : Z := 0x00000008.
Definition kSessionFlagIsGuest : Z := 0x0001.
Definition kSessionFlagIsNull : Z := 0x0002.
Definition kSessionFlagEncryptData : Z := 0x0004.
Definition kInfoTypeFile : Z := 0x01.
Definition kInfoTypeSecurity : Z := 0x03.
Definition kFileBasicInformation : Z := 0x04.
Definition kFileStandardInformation : Z := 0x05.
Definition kFileRenameInformation : Z := 0x0A.
Definition kFileLinkInformation : Z := 0x0B.
Definition kFileDispositionInformation : Z := 0x0D.
Definition kFileFullEaInformation : Z := 0x0F.
Definition kFileReadData : Z := 0x00000001.
Definition kFileListDirectory : Z := 0x00000001.
Definition kFileWriteData : Z := 0x00000002.
Definition kFileAppendData : Z := 0x00000004.
Definition kFileReadEa : Z := 0x00000008.
Definition kFileWriteEa : Z := 0x00000010.
Definition kFileReadAttributes : Z := 0x00000080.
Definition kFileWriteAttributes : Z := 0x00000100.
Definition kReadControlAccess : Z := 0x00020000.
Definition kWriteDacAccess : Z := 0x00040000.
Definition kWriteOwnerAccess : Z := 0x00080000.
Definition kSynchronizeAccess : Z := 0x00100000.
Definition kAccessSystemSecurity : Z := 0x01000000.
Definition kFileAttributeDirectory : Z := 0x00000010.
Definition kFileAttributeNormal : Z := 0x00000080.
Definition kFileAttributeReparsePoint : Z := 0x00000400.
Definition kFileShareRead : Z := 0x00000001.
Definition kFileShareWrite : Z := 0x00000002.
Definition kFileShareDelete : Z := 0x00000004.
Definition kFileOpen : Z := 0x00000001.
Definition kFileCreate : Z := 0x00000002.
Definition kFileOpenIf : Z := 0x00000003.
Definition kFileOverwrite : Z := 0x00000004.
Definition kFileOverwriteIf : Z := 0x00000005.
Definition kFileDirectoryFile : Z := 0x00000001.
Definition kFileNonDirectoryFile : Z := 0x00000040.
Definition kFileOpenReparsePoint : Z := 0x00200000.
Definition kDeleteAccess : Z := 0x00010000.
Definition kCloseFlagPostQueryAttrib : Z := 0x0001.
Definition kWriteFlagWriteThrough : Z := 0x00000001.
Definition kWriteFlagWriteUnbuffered : Z := 0x00000002.
Definition kFileIdBothDirectoryInformation : Z := 0x25.
Definition kQueryDirectoryRestartScans : Z := 0x01.
Definition kSmb2WatchTree : Z := 0x0001.
Definition kFileNotifyChangeFileName : Z := 0x00000001.
Definition kFileNotifyChangeDirName : Z := 0x00000002.
Definition kFileNotifyChangeAttributes : Z := 0x00000004.
Definition kFileNotifyChangeSize : Z := 0x00000008.
Definition kFileNotifyChangeLastWrite : Z := 0x00000010.
Definition kFileNotifyChangeLastAccess : Z := 0x00000020.
Definition kFileNotifyChangeCreation : Z := 0x00000040.
Definition kFileNotifyChangeEa : Z := 0x00000080.
Definition kFileNotifyChangeSecurity : Z := 0x00000100.
Definition kOwnerSecurityInformation : Z := 0x00000001.
Definition kGroupSecurityInformation : Z := 0x00000002.
Definition kDaclSecurityInformation : Z := 0x00000004.
Definition kSaclSecurityInformation : Z := 0x00000008.
Definition kFileNeedEa : Z := 0x80.
Definition kFileNotifyChangeStreamName : Z := 0x00000200.
Definition kFileNotifyChangeStreamSize : Z := 0x00000400.
Definition kFileNotifyChangeStreamWrite : Z := 0x00000800.
Definition kFileActionAdded : Z := 0x00000001.
Definition kFileActionRemoved : Z := 0x00000002.
Definition kFileActionModified : Z := 0x00000003.
Definition kFileActionRenamedOldName : Z := 0x00000004.
Definition kFileActionRenamedNewName : Z := 0x00000005.
Definition kIoctlIsFsctl : Z := 0x00000001.
Definition kIoReparseTagSymlink : Z := 0xA000000C.
Definition kSymlinkFlagRelative : Z := 0x00000001.
Definition kFsctlSetReparsePoint : Z := 0x000900A4.
Definition kFsctlSrvRequestResumeKey : Z := 0x00140078.
Definition kFsctlSrvCopyChunk : Z := 0x001440F2.
Definition kFileNotifyChangeDefault : Z :=
  Z.lor (Z.lor (Z.lor (Z.lor (Z.lor kFileNotifyChangeFileName
    kFileNotifyChangeDirName) kFileNotifyChangeAttributes)
    kFileNotifyChangeSize) kFileNotifyChangeLastWrite)
    kFileNotifyChangeCreation.

(** Constants of the anonymous namespace of [Protocol.cpp]. *)
Definition kSigningEnabled : Z := 0x0001.
Definition kSigningRequired : Z := 0x0002.
Definition kSmb2ProcessId : Z := 0x0000FEFF.
Definition kMaxDirectTcpPayloadLength : Z := 0x00FFFFFF.

#[global] Arguments command_of : simpl never.
#[global] Arguments dialect_of : simpl never.
#[global] Arguments shareType_of : simpl never.

(** ** Enumerations and their integers *)

Lemma command_of_value x :
  x ∈ commands -> command_of (command_value x) = x.
Proof. revert x. apply Forall_forall. by vm_compute; repeat constructor. Qed.

Lemma command_of_ok v : is_u16 v -> command_ok (command_of v).
Proof.
  intros Hv. unfold command_ok, command_of.
  destruct (list_find _ _) as [[i c]|] eqn:E; cbn [fmap option_fmap option_map from_option id snd].
  - apply list_find_Some in E as (Hi & <- & _). split; [done|].
    apply command_of_value. by apply list_elem_of_lookup_2 in Hi.
  - change (command_value (Command_Unlisted v)) with v. split; [done|]. by rewrite E.
Qed.

Lemma dialect_of_value x :
  x ∈ dialects -> dialect_of (dialect_value x) = x.
Proof. revert x. apply Forall_forall. by vm_compute; repeat constructor. Qed.

Lemma dialect_of_ok v : is_u16 v -> dialect_ok (dialect_of v).
Proof.
  intros Hv. unfold dialect_ok, dialect_of.
  destruct (list_find _ _) as [[i c]|] eqn:E; cbn [fmap option_fmap option_map from_option id snd].
  - apply list_find_Some in E as (Hi & <- & _). split; [done|].
    apply dialect_of_value. by apply list_elem_of_lookup_2 in Hi.
  - change (dialect_value (Dialect_Unlisted v)) with v. split; [done|]. by rewrite E.
Qed.

Lemma shareType_of_value x :
  x ∈ shareTypes -> shareType_of (shareType_value x) = x.
Proof. revert x. apply Forall_forall. by vm_compute; repeat constructor. Qed.

Lemma shareType_of_ok v : is_u8 v -> shareType_ok (shareType_of v).
Proof.
  intros Hv. unfold shareType_ok, shareType_of.
  destruct (list_find _ _) as [[i c]|] eqn:E; cbn [fmap option_fmap option_map from_option id snd].
  - apply list_find_Some in E as (Hi & <- & _). split; [done|].
    apply shareType_of_value. by apply list_elem_of_lookup_2 in Hi.
  - change (shareType_value (ShareType_Unlisted v)) with v. split; [done|]. by rewrite E.
Qed.

#[export] Hint Resolve command_of_ok dialect_of_ok shareType_of_ok : smb.
