(* ===== verification/Header.v ===== *)
(** * The SMB2 header and NT status codes ([Protocol.cpp])

    [encodeSmb2SyncHeader]/[decodeSmb2SyncHeader], the mapping of NT status
    codes to error codes and names, and the checks every response decoder
    starts with. *)

From S2P Require Export ProtocolTypes Utf16.
Local Open Scope Z_scope.
Local Open Scope comp_scope.

(** ** Formatting of integers by [std::ostringstream] *)

Definition digit_char (upper : bool) (d : Z) : Ascii.ascii :=
  Ascii.ascii_of_nat (Z.to_nat
    (if d <? 10 then 48 + d else if upper then 55 + d else 87 + d)).

(** The digits of [v] in [base], at least one; [fuel] bounds their number. *)
Fixpoint digits_loop (upper : bool) (base : Z) (fuel : nat) (v : Z)
    (acc : string) : string :=
  let acc := String (digit_char upper (v mod base)) acc in
  match fuel with
  | O => acc
  | S fuel =>
      if v / base =? 0 then acc else digits_loop upper base fuel (v / base) acc
  end.

(** [stream << v] after [std::dec], [std::hex] and [std::uppercase]; 64-bit
    values have at most 20 decimal and 16 hexadecimal digits. *)
Definition std_dec (v : Z) : string := digits_loop false 10 20 v EmptyString.
Definition std_hex_upper (v : Z) : string := digits_loop true 16 16 v EmptyString.
Definition std_hex_lower (v : Z) : string := digits_loop false 16 16 v EmptyString.

(** [std::setw(n) << std::setfill('0')]. *)
Definition zero_padded (n : nat) (s : string) : string :=
  Nat.iter (n - String.length s)%nat (String (digit_char true 0)) s.

(** ** Capabilities and security mode *)

Definition capabilityMask (values : list GlobalCapability) : Z :=
  foldl (fun mask value => Z.lor mask (globalCapability_value value)) 0 values.

Definition securityModeForPolicy (policy : SecurityPolicy) : Z :=
  match policy with
  | SecurityPolicy_Required => Z.lor kSigningEnabled kSigningRequired
  | SecurityPolicy_Preferred => kSigningEnabled
  | SecurityPolicy_Disabled => 0
  end.

(** ** NT status codes *)

Definition status_in (status : Z) (codes : list Z) : bool :=
  existsb (Z.eqb status) codes.

Definition errorCodeForNtStatus (status : Z) : ErrorCode :=
  if status_in status [kStatusSuccess; kStatusNotifyEnumDir]
  then ErrorCode_None
  else if status_in status
    [kStatusLogonFailure; kStatusAccountRestriction; kStatusInvalidLogonHours;
     kStatusInvalidWorkstation; kStatusPasswordExpired; kStatusAccountDisabled]
  then ErrorCode_AuthenticationFailed
  else if status_in status
    [kStatusAccessDenied; kStatusNetworkAccessDenied; kStatusSharingViolation]
  then ErrorCode_PermissionDenied
  else if status_in status
    [kStatusBadNetworkName; kStatusNetworkNameDeleted; kStatusPathNotCovered]
  then ErrorCode_ShareUnavailable
  else if status_in status
    [kStatusNoSuchFile; kStatusObjectNameNotFound; kStatusObjectPathNotFound]
  then ErrorCode_FileNotFound
  else if status_in status [kStatusObjectNameCollision]
  then ErrorCode_AlreadyExists
  else if status_in status [kStatusDirectoryNotEmpty]
  then ErrorCode_DirectoryNotEmpty
  else if status_in status
    [kStatusObjectPathSyntaxBad; kStatusNotADirectory; kStatusFileIsADirectory]
  then ErrorCode_InvalidPath
  else if status_in status
    [kStatusInvalidParameter; kStatusInvalidDeviceRequest]
  then ErrorCode_UnsupportedCapability
  else if status_in status [kStatusIoTimeout] then ErrorCode_Timeout
  else if status_in status [kStatusNotSupported]
  then ErrorCode_ProtocolUnsupported
  else ErrorCode_NetworkError.

Local Open Scope string_scope.

Definition ntStatusNames : list (Z * string) :=
  [(kStatusSuccess, "STATUS_SUCCESS");
   (kStatusNotifyEnumDir, "STATUS_NOTIFY_ENUM_DIR");
   (kStatusNoSuchFile, "STATUS_NO_SUCH_FILE");
   (kStatusAccessDenied, "STATUS_ACCESS_DENIED");
   (kStatusObjectNameNotFound, "STATUS_OBJECT_NAME_NOT_FOUND");
   (kStatusObjectNameCollision, "STATUS_OBJECT_NAME_COLLISION");
   (kStatusObjectPathNotFound, "STATUS_OBJECT_PATH_NOT_FOUND");
   (kStatusObjectPathSyntaxBad, "STATUS_OBJECT_PATH_SYNTAX_BAD");
   (kStatusInvalidParameter, "STATUS_INVALID_PARAMETER");
   (kStatusInvalidDeviceRequest, "STATUS_INVALID_DEVICE_REQUEST");
   (kStatusMoreProcessingRequired, "STATUS_MORE_PROCESSING_REQUIRED");
   (kStatusSharingViolation, "STATUS_SHARING_VIOLATION");
   (kStatusLogonFailure, "STATUS_LOGON_FAILURE");
   (kStatusAccountRestriction, "STATUS_ACCOUNT_RESTRICTION");
   (kStatusInvalidLogonHours, "STATUS_INVALID_LOGON_HOURS");
   (kStatusInvalidWorkstation, "STATUS_INVALID_WORKSTATION");
   (kStatusPasswordExpired, "STATUS_PASSWORD_EXPIRED");
   (kStatusAccountDisabled, "STATUS_ACCOUNT_DISABLED");
   (kStatusIoTimeout, "STATUS_IO_TIMEOUT");
   (kStatusFileIsADirectory, "STATUS_FILE_IS_A_DIRECTORY");
   (kStatusNotSupported, "STATUS_NOT_SUPPORTED");
   (kStatusNetworkNameDeleted, "STATUS_NETWORK_NAME_DELETED");
   (kStatusNetworkAccessDenied, "STATUS_NETWORK_ACCESS_DENIED");
   (kStatusBadNetworkName, "STATUS_BAD_NETWORK_NAME");
   (kStatusDirectoryNotEmpty, "STATUS_DIRECTORY_NOT_EMPTY");
   (kStatusNotADirectory, "STATUS_NOT_A_DIRECTORY");
   (kStatusPathNotCovered, "STATUS_PATH_NOT_COVERED");
   (kStatusNoMoreFiles, "STATUS_NO_MORE_FILES")].

Definition ntStatusName (status : Z) : string :=
  default "STATUS_UNMAPPED"
    (snd <$> find (fun p => fst p =? status)%Z ntStatusNames).

Definition ntStatusFailureMessage (status : Z) (operation : string) : string :=
  operation +:+ " failed with " +:+ ntStatusName status +:+ " (0x"
    +:+ zero_padded 8 (std_hex_upper status) +:+ ").".

Definition failureFromNtStatus {A} (status : Z) (operation : string) : comp A :=
  failure (errorCodeForNtStatus status) (ntStatusFailureMessage status operation).

(** ** The 64-byte header *)

Definition encodeSmb2SyncHeader (header : Smb2SyncHeader) : bytes :=
  (u32Le kSmb2ProtocolId
  ++ u16Le kSmb2HeaderStructureSize
  ++ u16Le (hdr_creditCharge header)
  ++ u32Le (hdr_status header)
  ++ u16Le (command_value (hdr_command header))
  ++ u16Le (hdr_creditRequest header)
  ++ u32Le (hdr_flags header)
  ++ u32Le (hdr_nextCommand header)
  ++ u64Le (hdr_messageId header)
  ++ u32Le kSmb2ProcessId
  ++ u32Le (hdr_treeId header)
  ++ u64Le (hdr_sessionId header)
  ++ hdr_signature header)%list.

Definition decodeSmb2SyncHeader (data : bytes) : comp Smb2SyncHeader :=
  fail_if (blen data <? kSmb2HeaderSize)%Z with ErrorCode_IoError,
    "SMB2 header buffer is shorter than 64 bytes.";;
  protocolId ← readU32Le data 0;
  fail_if negb (protocolId =? kSmb2ProtocolId)%Z with ErrorCode_ProtocolUnsupported,
    "Invalid SMB2 protocol identifier.";;
  structureSize ← readU16Le data 4;
  fail_if negb (structureSize =? kSmb2HeaderStructureSize)%Z
    with ErrorCode_ProtocolUnsupported, "Invalid SMB2 header structure size.";;
  creditCharge ← readU16Le data 6;
  status ← readU32Le data 8;
  command ← readU16Le data 12;
  creditRequest ← readU16Le data 14;
  flags ← readU32Le data 16;
  nextCommand ← readU32Le data 20;
  messageId ← readU64Le data 24;
  treeId ← readU32Le data 36;
  sessionId ← readU64Le data 40;
  signature ← read_range data 48 64;
  Ok (mkSmb2SyncHeader creditCharge status (command_of command) creditRequest
        flags nextCommand messageId treeId sessionId signature).

(** [Smb2SyncHeader header;]: the default member initialisers. *)
Definition defaultHeader : Smb2SyncHeader :=
  mkSmb2SyncHeader 0 0 Command_Negotiate 1 0 0 0 0 0 (zeros 16).

(** ** The checks a response decoder starts with

    Every [decode*Response] decodes the header, then rejects a response to
    another command, a packet that does not come from the server, and a status
    it does not handle; then it checks the size of the fixed part and its
    StructureSize field. *)
Definition decodeResponseHeader (article name : string) (command : Command)
    (accepted : list Z) (data : bytes) : comp Smb2SyncHeader :=
  header ← reraise (decodeSmb2SyncHeader data);
  fail_if bool_decide (hdr_command header ≠ command)
    with ErrorCode_ProtocolUnsupported,
    "SMB2 response is not " +:+ article +:+ " " +:+ name +:+ " response.";;
  fail_if (Z.land (hdr_flags header) kFlagServerToRedir =? 0)%Z
    with ErrorCode_ProtocolUnsupported,
    "SMB2 " +:+ name +:+ " response is missing server-to-redirector flag.";;
  if negb (status_in (hdr_status header) accepted)
  then failureFromNtStatus (hdr_status header) ("SMB2 " +:+ name)
  else Ok header.

Definition checkResponseBody (name : string) (fixedSize structureSize : Z)
    (data : bytes) : comp unit :=
  fail_if (blen data <? kSmb2HeaderSize + fixedSize)%Z with ErrorCode_IoError,
    "SMB2 " +:+ name +:+ " response buffer is shorter than fixed response.";;
  actual ← readU16Le data kSmb2HeaderSize;
  fail_if negb (actual =? structureSize)%Z with ErrorCode_ProtocolUnsupported,
    "Invalid SMB2 " +:+ name +:+ " response structure size.";;
  Ok tt.

Local Close Scope string_scope.

(** ** Lemmas *)

Lemma blen_encodeSmb2SyncHeader h :
  Smb2SyncHeader_ok h -> blen (encodeSmb2SyncHeader h) = kSmb2HeaderSize.
Proof.
  unfold Smb2SyncHeader_ok. intros. unfold encodeSmb2SyncHeader, kSmb2HeaderSize.
  len.
Qed.

(** [rd]: evaluates the reads of a decoder on a concatenation of fields. *)
Ltac rd_step :=
  match goal with
  | |- context [readU64Le ?d ?o] => erewrite (readU64Le_at d o) by find_at
  | |- context [readU32Le ?d ?o] => erewrite (readU32Le_at d o) by find_at
  | |- context [readU16Le ?d ?o] => erewrite (readU16Le_at d o) by find_at
  | |- context [read_u8 ?d ?o] => erewrite (readU8_at d o) by find_at
  end; cbn [mbind comp_bind].

Lemma decode_encoded_header h rest :
  Smb2SyncHeader_ok h ->
  decodeSmb2SyncHeader (encodeSmb2SyncHeader h ++ rest) = Ok h.
Proof.
  intros Hh. unfold decodeSmb2SyncHeader.
  rewrite blen_app, blen_encodeSmb2SyncHeader by done.
  pose proof (blen_nonneg rest).
  replace (_ <? _) with false by (symmetry; apply Z.ltb_ge; lia).
  unfold Smb2SyncHeader_ok, command_ok in Hh. destruct_and! Hh.
  unfold encodeSmb2SyncHeader.
  repeat (rd_step; try change (negb _) with false; cbv iota).
  erewrite read_range_at; [|find_at|unfold kSmb2HeaderSize; len].
  cbn [mbind comp_bind]. rewrite !u16_small, !u32_small, !u64_small by done.
  destruct h. cbn in *. by f_equal; f_equal.
Qed.

(** The 64-byte header survives the wire: decoding an encoded header,
    whatever message body follows it, gives the header back, field by field. *)
Theorem decodeSmb2SyncHeader_encode h rest :
  Smb2SyncHeader_ok h ->
  decodeSmb2SyncHeader (encodeSmb2SyncHeader h ++ rest) = Ok h.
Proof. apply decode_encoded_header. Qed.

Lemma decodeSmb2SyncHeader_encode_witness :
  decodeSmb2SyncHeader
    (encodeSmb2SyncHeader
       (mkSmb2SyncHeader 1 0 Command_Read 4 1 0 77 5 (2 ^ 40) (zeros 16))
     ++ [17; 0])
  = Ok (mkSmb2SyncHeader 1 0 Command_Read 4 1 0 77 5 (2 ^ 40) (zeros 16)).
Proof.
  apply decodeSmb2SyncHeader_encode. unfold Smb2SyncHeader_ok, command_ok.
  cbn. repeat split; try lia; exact (zeros_ok 16).
Defined.

(** ** Memory safety and width of the results *)

Lemma wp_decodeSmb2SyncHeader data :
  bytes_ok data ->
  wp (decodeSmb2SyncHeader data)
     (fun h => Smb2SyncHeader_ok h /\ kSmb2HeaderSize <= blen data).
Proof.
  intros Hok. unfold decodeSmb2SyncHeader, kSmb2HeaderSize in *.
  wp_reads. bools. unfold Smb2SyncHeader_ok. cbn. split; [|lia].
  split_and!; auto with smb.
Qed.

Lemma wp_decodeResponseHeader article name command accepted data :
  bytes_ok data ->
  wp (decodeResponseHeader article name command accepted data)
     (fun h => Smb2SyncHeader_ok h /\ kSmb2HeaderSize <= blen data /\
               hdr_command h = command /\
               Z.land (hdr_flags h) kFlagServerToRedir <> 0 /\
               status_in (hdr_status h) accepted = true).
Proof.
  intros Hok. unfold decodeResponseHeader. wp_steps.
  eapply wp_mono; [by apply wp_decodeSmb2SyncHeader|]. cbv beta.
  intros h [Hh Hlen]. wp_steps; try exact I. bools.
  rewrite bool_decide_eq_false in *. split_and!; auto.
  by destruct (decide (hdr_command h = command)).
Qed.

Lemma wp_checkResponseBody name fixedSize structureSize data P :
  bytes_ok data -> 2 <= fixedSize ->
  (kSmb2HeaderSize + fixedSize <= blen data -> P tt) ->
  wp (checkResponseBody name fixedSize structureSize data) P.
Proof.
  intros Hok Hf HP. unfold checkResponseBody, kSmb2HeaderSize in *.
  wp_reads. bools. auto.
Qed.
