(* ===== verification/Requests.v ===== *)
(** * Request builders ([Protocol.cpp], the [build*Request] functions)

    Each builder checks its size limits, encodes a header and appends the
    fixed and variable parts of the message.  The limits throw
    [std::invalid_argument]. *)

From S2P Require Export Header.
Local Open Scope Z_scope.
Local Open Scope comp_scope.

(** [std::numeric_limits<std::uint16_t>::max()] and the 32-bit one. *)
Definition kU16Max : Z := 65535.
Definition kU32Max : Z := 4294967295.

Definition appendFileId (fileId : FileId) : bytes :=
  u64Le (fid_persistent fileId) ++ u64Le (fid_volatileId fileId).

(** A header whose builder sets the fields given here and leaves the others at
    their initial values. *)
Definition requestHeader (command : Command) (creditCharge creditRequest
    messageId treeId sessionId : Z) : Smb2SyncHeader :=
  mkSmb2SyncHeader creditCharge (hdr_status defaultHeader) command creditRequest
    (hdr_flags defaultHeader) (hdr_nextCommand defaultHeader) messageId treeId
    sessionId (hdr_signature defaultHeader).

(** ** NEGOTIATE *)

Definition hasDialect (dialects : list Dialect) (dialect : Dialect) : bool :=
  bool_decide (dialect ∈ dialects).

Definition appendPadding (bs : bytes) (alignment : Z) : bytes :=
  let remainder := blen bs mod alignment in
  if remainder =? 0 then bs
  else bs ++ zeros (Z.to_nat (alignment - remainder)).

Definition negotiateContextSalt (clientGuid : bytes) : bytes :=
  clientGuid ++ clientGuid.

Definition appendNegotiateContext (bs : bytes) (type : Z) (data : bytes) : bytes :=
  appendPadding
    (bs ++ u16Le type ++ u16Le (u16 (blen data)) ++ u32Le 0 ++ data) 8.

Definition buildPreauthIntegrityContext (clientGuid : bytes) : bytes :=
  let kHashSha512 := 0x0001 in
  let salt := negotiateContextSalt clientGuid in
  u16Le 1 ++ u16Le (u16 (blen salt)) ++ u16Le kHashSha512 ++ salt.

Definition buildEncryptionCapabilitiesContext : bytes :=
  let kCipherAes128Ccm := 0x0001 in
  u16Le 1 ++ u16Le kCipherAes128Ccm.

Definition defaultInitialDialects : list Dialect :=
  [Dialect_Smb202; Dialect_Smb210; Dialect_Smb300; Dialect_Smb302;
   Dialect_Smb311].

Definition containsSmb1Dialect (dialects : list Dialect) : bool := false.

Definition negotiateDialects (options : NegotiateRequestOptions) : list Dialect :=
  match nqo_dialects options with
  | [] => defaultInitialDialects
  | ds => ds
  end.

Definition buildNegotiateRequest (options : NegotiateRequestOptions)
    (messageId : Z) : comp bytes :=
  let dialects := negotiateDialects options in
  throw_if kU16Max <? blen dialects
    with "Too many SMB dialects in negotiate request.";;
  let header := requestHeader Command_Negotiate 0 1 messageId 0 0 in
  let includeSmb311Contexts := hasDialect dialects Dialect_Smb311 in
  let includeEncryptionContext :=
    negb (Z.land (nqo_capabilities options)
            (globalCapability_value GlobalCapability_Encryption) =? 0) in
  let contextCount :=
    if includeSmb311Contexts then (if includeEncryptionContext then 2 else 1)
    else 0 in
  let contextOffset :=
    if includeSmb311Contexts
    then u32 ((kSmb2HeaderSize + kNegotiateRequestStructureSize
               + blen dialects * 2 + 7) / 8 * 8)
    else 0 in
  let bs :=
    encodeSmb2SyncHeader header
    ++ u16Le kNegotiateRequestStructureSize
    ++ u16Le (u16 (blen dialects))
    ++ u16Le (securityModeForPolicy (nqo_signing options))
    ++ u16Le 0
    ++ u32Le (nqo_capabilities options)
    ++ nqo_clientGuid options
    ++ u32Le contextOffset
    ++ u16Le contextCount
    ++ u16Le 0
    ++ concat ((fun d => u16Le (dialect_value d)) <$> dialects) in
  Ok (if includeSmb311Contexts then
        let bs := appendPadding bs 8 in
        let bs := appendNegotiateContext bs 0x0001
                    (buildPreauthIntegrityContext (nqo_clientGuid options)) in
        if includeEncryptionContext
        then appendNegotiateContext bs 0x0002 buildEncryptionCapabilitiesContext
        else bs
      else bs).

(** ** SESSION_SETUP, TREE_CONNECT, TREE_DISCONNECT, LOGOFF *)

Definition buildSessionSetupRequest (options : SessionSetupRequestOptions)
    (messageId sessionId : Z) : comp bytes :=
  throw_if kU16Max <? blen (sso_securityBuffer options)
    with "SMB2 SESSION_SETUP security buffer is too large.";;
  let header := requestHeader Command_SessionSetup 1 1 messageId 0 sessionId in
  let kSecurityBufferOffset := kSmb2HeaderSize + 24 in
  Ok (encodeSmb2SyncHeader header
      ++ u16Le kSessionSetupRequestStructureSize
      ++ [sso_flags options]
      ++ [u8 (securityModeForPolicy (sso_signing options))]
      ++ u32Le (sso_capabilities options)
      ++ u32Le 0
      ++ u16Le kSecurityBufferOffset
      ++ u16Le (u16 (blen (sso_securityBuffer options)))
      ++ u64Le (sso_previousSessionId options)
      ++ sso_securityBuffer options).

Definition kBackslash : Z := 0x5C.

(** ["\\\\" + server + "\\" + share]. *)
Definition uncPath (options : TreeConnectRequestOptions) : comp bytes :=
  throw_if (blen (tco_server options) =? 0) || (blen (tco_share options) =? 0)
    with "SMB tree connect requires server and share.";;
  Ok ([kBackslash; kBackslash] ++ tco_server options ++ [kBackslash]
      ++ tco_share options).

Definition buildTreeConnectRequest (options : TreeConnectRequestOptions)
    (messageId sessionId : Z) : comp bytes :=
  unc ← uncPath options;
  path ← encodeUtf16Le unc;
  throw_if kU16Max <? blen path with "SMB2 TREE_CONNECT path is too large.";;
  let header := requestHeader Command_TreeConnect 1 1 messageId 0 sessionId in
  let kPathOffset := kSmb2HeaderSize + 8 in
  Ok (encodeSmb2SyncHeader header
      ++ u16Le kTreeConnectRequestStructureSize
      ++ u16Le (tco_flags options)
      ++ u16Le kPathOffset
      ++ u16Le (u16 (blen path))
      ++ path).

Definition buildTreeDisconnectRequest (messageId treeId sessionId : Z) : bytes :=
  encodeSmb2SyncHeader
    (requestHeader Command_TreeDisconnect 1 1 messageId treeId sessionId)
  ++ u16Le kTreeDisconnectRequestStructureSize
  ++ u16Le 0.

Definition buildLogoffRequest (messageId sessionId : Z) : bytes :=
  encodeSmb2SyncHeader (requestHeader Command_Logoff 1 1 messageId 0 sessionId)
  ++ u16Le kLogoffRequestStructureSize
  ++ u16Le 0.

(** ** CREATE and CLOSE *)

Definition buildCreateRequest (options : CreateRequestOptions)
    (messageId treeId sessionId : Z) : comp bytes :=
  name ← encodeUtf16Le (cro_path options);
  throw_if kU16Max <? blen name with "SMB2 CREATE name is too large.";;
  throw_if kU32Max <? blen (cro_createContexts options)
    with "SMB2 CREATE contexts are too large.";;
  let header := requestHeader Command_Create 1 1 messageId treeId sessionId in
  let kNameOffset := kSmb2HeaderSize + 56 in
  let createContextsOffset :=
    if blen (cro_createContexts options) =? 0 then 0
    else u32 (kNameOffset + blen name) in
  Ok (encodeSmb2SyncHeader header
      ++ u16Le kCreateRequestStructureSize
      ++ [0]
      ++ [cro_requestedOplockLevel options]
      ++ u32Le (cro_impersonationLevel options)
      ++ u64Le 0
      ++ u64Le 0
      ++ u32Le (cro_desiredAccess options)
      ++ u32Le (cro_fileAttributes options)
      ++ u32Le (cro_shareAccess options)
      ++ u32Le (cro_createDisposition options)
      ++ u32Le (cro_createOptions options)
      ++ u16Le kNameOffset
      ++ u16Le (u16 (blen name))
      ++ u32Le createContextsOffset
      ++ u32Le (u32 (blen (cro_createContexts options)))
      ++ name
      ++ cro_createContexts options
      ++ (if (blen name =? 0) && (blen (cro_createContexts options) =? 0)
          then [0] else [])).

Definition buildCloseRequest (options : CloseRequestOptions)
    (messageId treeId sessionId : Z) : bytes :=
  encodeSmb2SyncHeader
    (requestHeader Command_Close 1 1 messageId treeId sessionId)
  ++ u16Le kCloseRequestStructureSize
  ++ u16Le (clo_flags options)
  ++ u32Le 0
  ++ appendFileId (clo_fileId options).

(** ** READ and WRITE *)

(** [creditCharge] of a transfer of [size] bytes, a [std::uint16_t]. *)
Definition payloadCreditCharge (size : Z) : Z :=
  if 0 <? size then u16 (1 + (size - 1) / 65536) else 1.

Definition buildReadRequest (options : ReadRequestOptions)
    (messageId treeId sessionId : Z) : comp bytes :=
  throw_if kU16Max <? blen (rdo_channelInfo options)
    with "SMB2 READ channel info is too large.";;
  let creditCharge := payloadCreditCharge (rdo_length options) in
  let header := requestHeader Command_Read creditCharge (Z.max 1 creditCharge)
                  messageId treeId sessionId in
  let kChannelInfoOffset := kSmb2HeaderSize + 48 in
  let channelInfoOffset :=
    if blen (rdo_channelInfo options) =? 0 then 0 else kChannelInfoOffset in
  Ok (encodeSmb2SyncHeader header
      ++ u16Le kReadRequestStructureSize
      ++ [0]
      ++ [rdo_flags options]
      ++ u32Le (rdo_length options)
      ++ u64Le (rdo_offset options)
      ++ appendFileId (rdo_fileId options)
      ++ u32Le (rdo_minimumCount options)
      ++ u32Le (rdo_channel options)
      ++ u32Le (rdo_remainingBytes options)
      ++ u16Le channelInfoOffset
      ++ u16Le (u16 (blen (rdo_channelInfo options)))
      ++ rdo_channelInfo options
      ++ (if blen (rdo_channelInfo options) =? 0 then [0] else [])).

Definition buildWriteRequest (options : WriteRequestOptions)
    (messageId treeId sessionId : Z) : comp bytes :=
  throw_if kU32Max <? blen (wro_data options)
    with "SMB2 WRITE data is too large.";;
  throw_if kU16Max <? blen (wro_channelInfo options)
    with "SMB2 WRITE channel info is too large.";;
  let creditCharge := payloadCreditCharge (blen (wro_data options)) in
  let header := requestHeader Command_Write creditCharge (Z.max 1 creditCharge)
                  messageId treeId sessionId in
  let kDataOffset := kSmb2HeaderSize + 48 in
  let dataOffset := if blen (wro_data options) =? 0 then 0 else kDataOffset in
  let channelInfoOffset :=
    if blen (wro_channelInfo options) =? 0 then 0
    else u16 (kDataOffset + blen (wro_data options)) in
  Ok (encodeSmb2SyncHeader header
      ++ u16Le kWriteRequestStructureSize
      ++ u16Le dataOffset
      ++ u32Le (u32 (blen (wro_data options)))
      ++ u64Le (wro_offset options)
      ++ appendFileId (wro_fileId options)
      ++ u32Le (wro_channel options)
      ++ u32Le (wro_remainingBytes options)
      ++ u16Le channelInfoOffset
      ++ u16Le (u16 (blen (wro_channelInfo options)))
      ++ u32Le (wro_flags options)
      ++ wro_data options
      ++ wro_channelInfo options).

(** ** IOCTL, SET_INFO, QUERY_INFO *)

Definition buildIoctlRequest (options : IoctlRequestOptions)
    (messageId treeId sessionId : Z) : comp bytes :=
  throw_if kU32Max <? blen (ioo_input options)
    with "SMB2 IOCTL input buffer is too large.";;
  let header := requestHeader Command_Ioctl 1 1 messageId treeId sessionId in
  let kBufferOffset := kSmb2HeaderSize + 56 in
  let inputOffset := if blen (ioo_input options) =? 0 then 0 else kBufferOffset in
  Ok (encodeSmb2SyncHeader header
      ++ u16Le kIoctlRequestStructureSize
      ++ u16Le 0
      ++ u32Le (ioo_ctlCode options)
      ++ appendFileId (ioo_fileId options)
      ++ u32Le inputOffset
      ++ u32Le (u32 (blen (ioo_input options)))
      ++ u32Le (ioo_maxInputResponse options)
      ++ u32Le 0
      ++ u32Le 0
      ++ u32Le (ioo_maxOutputResponse options)
      ++ u32Le (ioo_flags options)
      ++ u32Le 0
      ++ ioo_input options
      ++ (if blen (ioo_input options) =? 0 then [0] else [])).

Definition buildSetInfoRequest (options : SetInfoRequestOptions)
    (messageId treeId sessionId : Z) : comp bytes :=
  throw_if kU32Max <? blen (sio_buffer options)
    with "SMB2 SET_INFO buffer is too large.";;
  let header := requestHeader Command_SetInfo 1 1 messageId treeId sessionId in
  let kBufferOffset := kSmb2HeaderSize + 32 in
  Ok (encodeSmb2SyncHeader header
      ++ u16Le kSetInfoRequestStructureSize
      ++ [sio_infoType options]
      ++ [sio_fileInfoClass options]
      ++ u32Le (u32 (blen (sio_buffer options)))
      ++ u16Le (if blen (sio_buffer options) =? 0 then 0 else kBufferOffset)
      ++ u16Le 0
      ++ u32Le (sio_additionalInformation options)
      ++ appendFileId (sio_fileId options)
      ++ sio_buffer options).

Definition buildQueryInfoRequest (options : QueryInfoRequestOptions)
    (messageId treeId sessionId : Z) : comp bytes :=
  throw_if kU32Max <? blen (qio_inputBuffer options)
    with "SMB2 QUERY_INFO input buffer is too large.";;
  let header := requestHeader Command_QueryInfo 1 1 messageId treeId sessionId in
  let kInputBufferOffset := kSmb2HeaderSize + 40 in
  Ok (encodeSmb2SyncHeader header
      ++ u16Le kQueryInfoRequestStructureSize
      ++ [qio_infoType options]
      ++ [qio_fileInfoClass options]
      ++ u32Le (qio_outputBufferLength options)
      ++ u16Le (if blen (qio_inputBuffer options) =? 0 then 0
                else kInputBufferOffset)
      ++ u16Le 0
      ++ u32Le (u32 (blen (qio_inputBuffer options)))
      ++ u32Le (qio_additionalInformation options)
      ++ u32Le (qio_flags options)
      ++ appendFileId (qio_fileId options)
      ++ qio_inputBuffer options).

(** ** QUERY_DIRECTORY and CHANGE_NOTIFY *)

Definition buildQueryDirectoryRequest (options : QueryDirectoryRequestOptions)
    (messageId treeId sessionId : Z) : comp bytes :=
  pattern ← encodeUtf16Le (qdo_pattern options);
  throw_if kU16Max <? blen pattern
    with "SMB2 QUERY_DIRECTORY pattern is too large.";;
  let header :=
    requestHeader Command_QueryDirectory 1 1 messageId treeId sessionId in
  let kFileNameOffset := kSmb2HeaderSize + 32 in
  Ok (encodeSmb2SyncHeader header
      ++ u16Le kQueryDirectoryRequestStructureSize
      ++ [qdo_informationClass options]
      ++ [qdo_flags options]
      ++ u32Le (qdo_fileIndex options)
      ++ appendFileId (qdo_fileId options)
      ++ u16Le (if blen pattern =? 0 then 0 else kFileNameOffset)
      ++ u16Le (u16 (blen pattern))
      ++ u32Le (qdo_outputBufferLength options)
      ++ pattern).

Definition buildChangeNotifyRequest (options : ChangeNotifyRequestOptions)
    (messageId treeId sessionId : Z) : bytes :=
  let creditCharge := payloadCreditCharge (cno_outputBufferLength options) in
  encodeSmb2SyncHeader
    (requestHeader Command_ChangeNotify creditCharge 1 messageId treeId sessionId)
  ++ u16Le kChangeNotifyRequestStructureSize
  ++ u16Le (cno_flags options)
  ++ u32Le (cno_outputBufferLength options)
  ++ appendFileId (cno_fileId options)
  ++ u32Le (cno_completionFilter options)
  ++ u32Le 0.

(** ** Specification *)

(** The offset and length fields of a message describe [payload]: the length
    field holds its size and, unless it is empty, it stands at the offset. *)
Definition buffer_described (msg : bytes) (offset length : comp Z)
    (payload : bytes) : Prop :=
  length = Ok (blen payload) /\
  (payload = [] \/
   exists o, offset = Ok o /\ slice o (o + blen payload) msg = payload).

(** A request carries the header the caller asked for. *)
Definition carries_header (msg : bytes) (h : Smb2SyncHeader) : Prop :=
  decodeSmb2SyncHeader msg = Ok h.

(** The number of credits of a transfer: one per started 64 KiB, at least one. *)
Definition credits_for (size : Z) : Z := Z.max 1 ((size + 65535) / 65536).

(** [built m t s h msg]: [msg] is the request some builder returns for message
    id [m], tree [t] and session [s]; [h] is the header it must carry. *)
Inductive built (m t s : Z) : Smb2SyncHeader -> bytes -> Prop :=
| built_negotiate o msg :
    buildNegotiateRequest o m = Ok msg ->
    built m t s (requestHeader Command_Negotiate 0 1 m 0 0) msg
| built_session_setup o msg :
    buildSessionSetupRequest o m s = Ok msg ->
    built m t s (requestHeader Command_SessionSetup 1 1 m 0 s) msg
| built_tree_connect o msg :
    buildTreeConnectRequest o m s = Ok msg ->
    built m t s (requestHeader Command_TreeConnect 1 1 m 0 s) msg
| built_tree_disconnect :
    built m t s (requestHeader Command_TreeDisconnect 1 1 m t s)
      (buildTreeDisconnectRequest m t s)
| built_logoff :
    built m t s (requestHeader Command_Logoff 1 1 m 0 s) (buildLogoffRequest m s)
| built_create o msg :
    buildCreateRequest o m t s = Ok msg ->
    built m t s (requestHeader Command_Create 1 1 m t s) msg
| built_close o :
    built m t s (requestHeader Command_Close 1 1 m t s) (buildCloseRequest o m t s)
| built_read o msg :
    buildReadRequest o m t s = Ok msg ->
    rdo_length o <= 0xFFFF0000 ->
    let n := credits_for (rdo_length o) in
    built m t s (requestHeader Command_Read n n m t s) msg
| built_write o msg :
    buildWriteRequest o m t s = Ok msg ->
    blen (wro_data o) <= 0xFFFF0000 ->
    let n := credits_for (blen (wro_data o)) in
    built m t s (requestHeader Command_Write n n m t s) msg
| built_ioctl o msg :
    buildIoctlRequest o m t s = Ok msg ->
    built m t s (requestHeader Command_Ioctl 1 1 m t s) msg
| built_set_info o msg :
    buildSetInfoRequest o m t s = Ok msg ->
    built m t s (requestHeader Command_SetInfo 1 1 m t s) msg
| built_query_info o msg :
    buildQueryInfoRequest o m t s = Ok msg ->
    built m t s (requestHeader Command_QueryInfo 1 1 m t s) msg
| built_query_directory o msg :
    buildQueryDirectoryRequest o m t s = Ok msg ->
    built m t s (requestHeader Command_QueryDirectory 1 1 m t s) msg
| built_change_notify o :
    cno_outputBufferLength o <= 0xFFFF0000 ->
    built m t s
      (requestHeader Command_ChangeNotify
         (credits_for (cno_outputBufferLength o)) 1 m t s)
      (buildChangeNotifyRequest o m t s).

(** [buffer_field msg off len p]: [msg] is a request with a variable buffer
    [p]; [off] and [len] are what a receiver reads in its offset and length
    fields, at the positions [MS-SMB2] gives them. *)
Inductive buffer_field (m t s : Z) : bytes -> comp Z -> comp Z -> bytes -> Prop :=
| field_session_setup o msg :
    buildSessionSetupRequest o m s = Ok msg ->
    buffer_field m t s msg (readU16Le msg 76) (readU16Le msg 78)
      (sso_securityBuffer o)
| field_tree_connect o msg unc path :
    buildTreeConnectRequest o m s = Ok msg ->
    uncPath o = Ok unc -> encodeUtf16Le unc = Ok path ->
    buffer_field m t s msg (readU16Le msg 68) (readU16Le msg 70) path
| field_create_name o msg name :
    buildCreateRequest o m t s = Ok msg ->
    encodeUtf16Le (cro_path o) = Ok name ->
    buffer_field m t s msg (readU16Le msg 108) (readU16Le msg 110) name
| field_create_contexts o msg :
    buildCreateRequest o m t s = Ok msg ->
    120 + blen (cro_createContexts o) + kU16Max <= kU32Max ->
    buffer_field m t s msg (readU32Le msg 112) (readU32Le msg 116)
      (cro_createContexts o)
| field_read_channel o msg :
    buildReadRequest o m t s = Ok msg ->
    buffer_field m t s msg (readU16Le msg 108) (readU16Le msg 110)
      (rdo_channelInfo o)
| field_write_data o msg :
    buildWriteRequest o m t s = Ok msg ->
    buffer_field m t s msg (readU16Le msg 66) (readU32Le msg 68) (wro_data o)
| field_write_channel o msg :
    buildWriteRequest o m t s = Ok msg ->
    112 + blen (wro_data o) <= kU16Max ->
    buffer_field m t s msg (readU16Le msg 104) (readU16Le msg 106)
      (wro_channelInfo o)
| field_ioctl o msg :
    buildIoctlRequest o m t s = Ok msg ->
    buffer_field m t s msg (readU32Le msg 88) (readU32Le msg 92) (ioo_input o)
| field_set_info o msg :
    buildSetInfoRequest o m t s = Ok msg ->
    buffer_field m t s msg (readU16Le msg 72) (readU32Le msg 68) (sio_buffer o)
| field_query_info o msg :
    buildQueryInfoRequest o m t s = Ok msg ->
    buffer_field m t s msg (readU16Le msg 72) (readU32Le msg 76)
      (qio_inputBuffer o)
| field_query_directory o msg pattern :
    buildQueryDirectoryRequest o m t s = Ok msg ->
    encodeUtf16Le (qdo_pattern o) = Ok pattern ->
    buffer_field m t s msg (readU16Le msg 88) (readU16Le msg 90) pattern.

(** ** Lemmas *)

Lemma blen_appendFileId f : blen (appendFileId f) = 16.
Proof. done. Qed.

Lemma blen_requestHeader c cc cr m t s :
  blen (encodeSmb2SyncHeader (requestHeader c cc cr m t s)) = 64.
Proof. done. Qed.
#[export] Hint Rewrite blen_appendFileId blen_requestHeader : blen.

Lemma requestHeader_ok c cc cr m t s :
  command_ok c -> is_u16 cc -> is_u16 cr -> is_u64 m -> is_u32 t -> is_u64 s ->
  Smb2SyncHeader_ok (requestHeader c cc cr m t s).
Proof.
  intros. unfold Smb2SyncHeader_ok; cbn.
  repeat split; try assumption; try ulia; try apply H; exact (zeros_ok 16).
Qed.

Lemma listed_command_ok c : c ∈ commands -> command_ok c.
Proof.
  intros H. split; [|by apply command_of_value].
  revert c H. apply Forall_forall. repeat constructor; vm_compute; done.
Qed.

Lemma payloadCreditCharge_range n : is_u16 (payloadCreditCharge n).
Proof. unfold payloadCreditCharge. case_if; [apply u16_range|ulia]. Qed.

Lemma max_1_u16 v : is_u16 v -> is_u16 (Z.max 1 v).
Proof. ulia. Qed.

#[export] Hint Resolve payloadCreditCharge_range max_1_u16 : smb.

Lemma request_header_decodes c cc cr m t s rest :
  c ∈ commands -> is_u16 cc -> is_u16 cr -> is_u64 m -> is_u32 t -> is_u64 s ->
  carries_header (encodeSmb2SyncHeader (requestHeader c cc cr m t s) ++ rest)
    (requestHeader c cc cr m t s).
Proof.
  intros. apply decode_encoded_header, requestHeader_ok;
    auto using listed_command_ok.
Qed.

(** Every builder keeps the header: the leading bytes of what it returns. *)
Ltac header_kept :=
  rewrite <- ?app_assoc; apply request_header_decodes;
  lazymatch goal with
  | |- _ ∈ commands => apply (bool_decide_unpack _); vm_compute; exact I
  | |- _ => solve [auto with smb | ulia]
  end.

Lemma appendPadding_prefix bs a : exists p, appendPadding bs a = bs ++ p.
Proof.
  unfold appendPadding. case_if; [by exists []; rewrite app_nil_r|eauto].
Qed.

Lemma appendNegotiateContext_prefix bs t d :
  exists p, appendNegotiateContext bs t d = bs ++ p.
Proof.
  unfold appendNegotiateContext.
  destruct (appendPadding_prefix
    (bs ++ u16Le t ++ u16Le (u16 (blen d)) ++ u32Le 0 ++ d) 8) as [p ->].
  rewrite <- !app_assoc. eauto.
Qed.

Lemma payloadCreditCharge_credits n :
  n <= 0xFFFF0000 -> payloadCreditCharge n = credits_for n.
Proof.
  intros Hn. unfold payloadCreditCharge, credits_for. case_if; bools.
  - replace (n + 65535) with (n - 1 + 1 * 65536) by lia.
    rewrite Z.div_add by lia.
    assert (0 <= (n - 1) / 65536 <= (n - 1) / 65536) by (split; [|lia]; apply Z.div_pos; lia).
    assert ((n - 1) / 65536 < 65535) by (apply Z.div_lt_upper_bound; lia).
    rewrite u16_small by ulia. lia.
  - assert ((n + 65535) / 65536 < 1) by (apply Z.div_lt_upper_bound; lia). lia.
Qed.

Lemma credits_for_range n : n <= 0xFFFF0000 -> is_u16 (credits_for n).
Proof. intros. rewrite <- payloadCreditCharge_credits by done. auto with smb. Qed.
#[export] Hint Resolve credits_for_range : smb.

Lemma negotiate_prefix o m msg :
  buildNegotiateRequest o m = Ok msg ->
  exists rest, msg =
    encodeSmb2SyncHeader (requestHeader Command_Negotiate 0 1 m 0 0) ++ rest.
Proof.
  unfold buildNegotiateRequest. intros H. inv_comp. cbv zeta.
  repeat match goal with
  | |- context [appendNegotiateContext ?b ?t ?d] =>
      destruct (appendNegotiateContext_prefix b t d) as [? ->]
  | |- context [appendPadding ?b 8] =>
      destruct (appendPadding_prefix b 8) as [? ->]
  end.
  repeat case_if; rewrite <- ?app_assoc; eauto.
Qed.

Lemma max_credits_for n : Z.max 1 (credits_for n) = credits_for n.
Proof. unfold credits_for. lia. Qed.

(** The equation of a builder that returned, taken apart. *)
Ltac inv_builder :=
  unfold buildSessionSetupRequest, buildTreeConnectRequest, buildCreateRequest,
    buildReadRequest, buildWriteRequest, buildIoctlRequest, buildSetInfoRequest,
    buildQueryInfoRequest, buildQueryDirectoryRequest in *;
  inv_comp.

(** Every request the engine sends carries the header that was asked for:
    the command, the message id, the tree and the session, one credit, and for
    READ, WRITE and CHANGE_NOTIFY one credit for each started 64 KiB of
    payload (up to 0xFFFF0000 bytes, where the 16-bit field ends). *)
Theorem builders_carry_header m t s h msg :
  is_u64 m -> is_u32 t -> is_u64 s -> built m t s h msg -> carries_header msg h.
Proof.
  intros Hm Ht Hs [].
  1: edestruct negotiate_prefix as [rest ->]; [eassumption|].
  14: unfold buildChangeNotifyRequest.
  all: inv_builder; rewrite ?payloadCreditCharge_credits, ?max_credits_for
    by done; try subst n; header_kept.
Qed.

Lemma described_at msg off len p o :
  len = Ok (blen p) -> (blen p <> 0 -> off = Ok o /\ at_off msg o p) ->
  buffer_described msg off len p.
Proof.
  intros Hl H. split; [done|]. destruct (decide (blen p = 0)) as [Hz|Hz].
  - left. by apply blen_zero.
  - right. destruct (H Hz) as [-> Hat]. exists o. split; [done|].
    by apply at_off_slice.
Qed.

(** [described o]: reads the two fields of a request and finds the buffer at
    [o]. *)
Ltac described o :=
  apply (described_at _ _ _ _ o); [| intros ?; split];
  [ repeat rd_step; f_equal; smalls; try done
  | repeat rd_step; rewrite ?(proj2 (Z.eqb_neq _ _)) by done; f_equal; unfold kSmb2HeaderSize; smalls; lia
  | find_at ].



Lemma builders_carry_header_witness :
  exists msg,
    buildReadRequest (mkReadRequestOptions (mkFileId 1 2) 200000 0 0 0 0 0 [])
      7 5 9 = Ok msg /\
    carries_header msg (requestHeader Command_Read 4 4 7 5 9).
Proof.
  eexists. split; [reflexivity|].
  eapply (builders_carry_header 7 5 9); [ulia..|].
  apply (built_read 7 5 9 (mkReadRequestOptions (mkFileId 1 2) 200000 0 0 0 0 0 []));
    [reflexivity|done].
Defined.


(** ** Limits of the 16-bit fields *)

(** Above 0xFFFF0000 bytes the 16-bit credit count wraps around to zero. *)
Lemma payloadCreditCharge_wraps n :
  0xFFFF0000 < n <= kU32Max -> payloadCreditCharge n = 0.
Proof.
  unfold kU32Max. intros Hn. unfold payloadCreditCharge.
  rewrite (proj2 (Z.ltb_lt _ _)) by lia.
  replace ((n - 1) / 65536) with 65535; [done|].
  apply Z.div_unique with (n - 1 - 65536 * 65535); lia.
Qed.

(** The offset a WRITE announces for its channel info is reduced to 16 bits. *)
Lemma write_channelInfo_offset o m t s msg :
  buildWriteRequest o m t s = Ok msg -> blen (wro_channelInfo o) <> 0 ->
  readU16Le msg 104 = Ok (u16 (112 + blen (wro_data o))).
Proof.
  intros H Hc. inv_builder. rewrite <- ?app_assoc.
  rd_step. rewrite (proj2 (Z.eqb_neq _ _)) by done. f_equal.
  by apply u16_small, u16_range.
Qed.

(** ** The negotiate contexts of SMB 3.1.1 *)

Lemma appendPadding_8 bs :
  appendPadding bs 8 = bs ++ zeros (Z.to_nat ((- blen bs) mod 8)).
Proof.
  unfold appendPadding. case_if; bools.
  - rewrite Z.mod_opp_l_z by lia. by rewrite app_nil_r.
  - do 2 f_equal. rewrite Z.mod_opp_l_nz by lia. done.
Qed.

(** The bytes of the two contexts, each padded to 8. *)
Definition preauth_context (clientGuid : bytes) : bytes :=
  u16Le 1 ++ u16Le 38 ++ u32Le 0
    ++ u16Le 1 ++ u16Le 32 ++ u16Le 1 ++ (clientGuid ++ clientGuid) ++ zeros 2.
Definition encryption_context : bytes :=
  u16Le 2 ++ u16Le 4 ++ u32Le 0 ++ u16Le 1 ++ u16Le 1 ++ zeros 4.

Lemma appendNegotiateContext_aligned bs type data :
  blen bs mod 8 = 0 ->
  appendNegotiateContext bs type data =
    bs ++ u16Le type ++ u16Le (u16 (blen data)) ++ u32Le 0 ++ data
       ++ zeros (Z.to_nat ((- blen data) mod 8)).
Proof.
  intros Hb. unfold appendNegotiateContext. rewrite appendPadding_8.
  rewrite <- !app_assoc. do 6 f_equal. rewrite !blen_app. cbn [blen length u16Le].
  replace (- (blen bs + _)) with (- blen data + (- (blen bs / 8) - 1) * 8);
    [by rewrite Z.mod_add by lia|].
  rewrite (Z.div_mod (blen bs) 8) at 2 by lia. len.
Qed.
Lemma ceil_8 n : 0 <= n -> (n + 7) / 8 * 8 = n + (- n) mod 8.
Proof.
  intros. pose proof (Z.div_mod (n + 7) 8). pose proof (Z.mod_pos_bound (n + 7) 8).
  pose proof (Z.div_mod (- n) 8). pose proof (Z.mod_pos_bound (- n) 8). lia.
Qed.

(** The fixed part of a NEGOTIATE request and its dialect list. *)
Definition negotiate_head (o : NegotiateRequestOptions) (m contextOffset
    contextCount : Z) : bytes :=
  encodeSmb2SyncHeader (requestHeader Command_Negotiate 0 1 m 0 0)
  ++ u16Le 36 ++ u16Le (u16 (blen (negotiateDialects o)))
  ++ u16Le (securityModeForPolicy (nqo_signing o)) ++ u16Le 0
  ++ u32Le (nqo_capabilities o) ++ nqo_clientGuid o
  ++ u32Le contextOffset ++ u16Le contextCount ++ u16Le 0
  ++ concat ((fun d => u16Le (dialect_value d)) <$> negotiateDialects o).

Lemma blen_dialects ds :
  blen (concat ((fun d => u16Le (dialect_value d)) <$> ds)) = 2 * blen ds.
Proof.
  induction ds as [|d ds IH]; [done|].
  rewrite fmap_cons. cbn [concat]. rewrite blen_app, IH. len.
Qed.

Lemma blen_negotiate_head o m a b :
  blen (nqo_clientGuid o) = 16 ->
  blen (negotiate_head o m a b) = 100 + 2 * blen (negotiateDialects o).
Proof. intros Hg. unfold negotiate_head. len. rewrite blen_dialects. lia. Qed.

(** [options.capabilities] offers encryption. *)
Definition offers_encryption (o : NegotiateRequestOptions) : bool :=
  negb (Z.land (nqo_capabilities o) 0x40 =? 0).

Lemma blen_preauth_context g : blen g = 16 -> blen (preauth_context g) = 48.
Proof. intros. unfold preauth_context. len. Qed.

Lemma mod_aligned n : (n + (- n) mod 8) mod 8 = 0.
Proof. rewrite Z.add_mod_idemp_r by lia. by rewrite Z.add_opp_diag_r. Qed.

Lemma buildNegotiateRequest_shape o m msg :
  buildNegotiateRequest o m = Ok msg -> blen (nqo_clientGuid o) = 16 ->
  let n := 100 + 2 * blen (negotiateDialects o) in
  let enc := offers_encryption o in
  msg = if hasDialect (negotiateDialects o) Dialect_Smb311
        then negotiate_head o m (n + (- n) mod 8) (if enc then 2 else 1)
             ++ zeros (Z.to_nat ((- n) mod 8))
             ++ preauth_context (nqo_clientGuid o)
             ++ (if enc then encryption_context else [])
        else negotiate_head o m 0 0.
Proof.
  intros H Hg. unfold buildNegotiateRequest in H. inv_comp. bools.
  change (negb (Z.land _ _ =? 0)) with (offers_encryption o).
  cbv zeta. case_if; [|done].
  set (n := 100 + 2 * blen (negotiateDialects o)).
  assert (u32 ((kSmb2HeaderSize + kNegotiateRequestStructureSize
    + blen (negotiateDialects o) * 2 + 7) / 8 * 8) = n + (- n) mod 8) as ->.
  { replace (_ + 7) with (n + 7)
      by (unfold n, kSmb2HeaderSize, kNegotiateRequestStructureSize; lia).
    rewrite ceil_8 by (unfold n; blens; lia).
    pose proof (Z.mod_pos_bound (- n) 8). apply u32_small.
    unfold kU16Max in *. unfold n in *. pose proof (blen_nonneg (negotiateDialects o)). ulia. }
  change (encodeSmb2SyncHeader _ ++ _) with
    (negotiate_head o m (n + (- n) mod 8) (if offers_encryption o then 2 else 1)).
  rewrite appendPadding_8, blen_negotiate_head by done. fold n.
  assert (blen (negotiate_head o m (n + (- n) mod 8)
    (if offers_encryption o then 2 else 1) ++ zeros (Z.to_nat (- n mod 8)))
    mod 8 = 0) as Ha.
  { rewrite blen_app, blen_negotiate_head by done. fold n. unfold zeros.
    rewrite blen_replicate, Z2Nat.id by (apply Z.mod_pos_bound; lia).
    apply mod_aligned. }
  assert (blen (buildPreauthIntegrityContext (nqo_clientGuid o)) = 38) as Hp.
  { unfold buildPreauthIntegrityContext, negotiateContextSalt. len. }
  rewrite !(appendNegotiateContext_aligned _ 1), Hp by done.
  assert (forall l, l ++ u16Le 1 ++ u16Le (u16 38) ++ u32Le 0
    ++ buildPreauthIntegrityContext (nqo_clientGuid o)
    ++ zeros (Z.to_nat ((- 38) mod 8)) = l ++ preauth_context (nqo_clientGuid o))
    as ->.
  { intros. unfold buildPreauthIntegrityContext, negotiateContextSalt,
      preauth_context.
    rewrite blen_app, Hg, <- !app_assoc. reflexivity. }
  case_if; [|by rewrite app_nil_r, <- app_assoc].
  rewrite appendNegotiateContext_aligned; [by rewrite <- !app_assoc|].
  rewrite blen_app, blen_preauth_context by done.
  by rewrite Z.add_mod, Ha by lia.
Qed.
Lemma negotiate_head_fields o m a b rest :
  let msg := negotiate_head o m a b ++ rest in
  blen (nqo_clientGuid o) = 16 -> is_u16 (blen (negotiateDialects o)) ->
  is_u32 a -> is_u16 b ->
  readU16Le msg 66 = Ok (blen (negotiateDialects o)) /\
  at_off msg 100
    (concat ((fun d => u16Le (dialect_value d)) <$> negotiateDialects o)) /\
  readU32Le msg 92 = Ok a /\ readU16Le msg 96 = Ok b.
Proof.
  intros msg Hg Hd Ha Hb. unfold msg, negotiate_head. rewrite <- !app_assoc.
  split_and!; repeat rd_step; smalls; try done. find_at.
Qed.

(** A NEGOTIATE request lists its dialects at byte 100, and its context
    fields are right: without SMB 3.1.1 they announce nothing; with it the
    context offset is a multiple of 8 inside the message, and exactly the
    announced number of contexts stands there, each padded to 8 bytes:
    pre-authentication integrity first, then encryption when it is offered. *)
Theorem negotiate_contexts_placed o m msg :
  buildNegotiateRequest o m = Ok msg -> blen (nqo_clientGuid o) = 16 ->
  let dialects := negotiateDialects o in
  let enc := offers_encryption o in
  readU16Le msg 66 = Ok (blen dialects) /\
  at_off msg 100 (concat ((fun d => u16Le (dialect_value d)) <$> dialects)) /\
  if hasDialect dialects Dialect_Smb311 then
    exists off,
      readU32Le msg 92 = Ok off /\ off mod 8 = 0 /\
      readU16Le msg 96 = Ok (if enc then 2 else 1) /\
      slice off (blen msg) msg =
        preauth_context (nqo_clientGuid o)
        ++ (if enc then encryption_context else [])
  else readU32Le msg 92 = Ok 0 /\ readU16Le msg 96 = Ok 0.
Proof.
  intros H Hg. pose proof (buildNegotiateRequest_shape _ _ _ H Hg) as Hm.
  assert (blen (negotiateDialects o) <= kU16Max) as Hd.
  { unfold buildNegotiateRequest in H. inv_comp. by bools. }
  cbv zeta in *. unfold kU16Max in *.
  pose proof (blen_nonneg (negotiateDialects o)) as Hn.
  set (n := 100 + 2 * blen (negotiateDialects o)) in *.
  assert (0 <= (- n) mod 8 < 8) by (apply Z.mod_pos_bound; lia).
  assert (is_u16 (blen (negotiateDialects o))) by ulia.
  assert (is_u32 (n + (- n) mod 8)) by (unfold n in *; ulia).
  case_if; subst msg.
  - edestruct negotiate_head_fields as (-> & ? & Hoff & Hc);
      [done..| |split; [done|]; split; [done|]; exists (n + (- n) mod 8)];
      [case_if; ulia|]. split_and!; [done|apply mod_aligned|done|].
    set (ctx := preauth_context _ ++ _). rewrite app_assoc.
    apply at_off_slice.
    + exists (negotiate_head o m (n + - n mod 8)
        (if offers_encryption o then 2 else 1) ++ zeros (Z.to_nat (- n mod 8))), [].
      rewrite app_nil_r. split; [done|].
      rewrite blen_app, blen_negotiate_head by done. fold n. unfold zeros.
      rewrite blen_replicate. lia.
    + rewrite !blen_app, blen_negotiate_head by done. fold n. unfold zeros.
      rewrite blen_replicate. lia.
  - rewrite <- (app_nil_r (negotiate_head o m 0 0)).
    edestruct negotiate_head_fields as (-> & ? & ? & ?); [done..|]. done.
Qed.

Lemma negotiate_contexts_placed_witness :
  exists msg off,
    buildNegotiateRequest
      (mkNegotiateRequestOptions [] SecurityPolicy_Required 0x40 (zeros 16)) 0
      = Ok msg /\
    readU32Le msg 92 = Ok off /\ off mod 8 = 0 /\ readU16Le msg 96 = Ok 2.
Proof.
  eexists.
  destruct (negotiate_contexts_placed
    (mkNegotiateRequestOptions [] SecurityPolicy_Required 0x40 (zeros 16)) 0 _
    eq_refl eq_refl) as (_ & _ & H).
  change (hasDialect _ _) with true in H.
  change (offers_encryption _) with true in H. cbv iota in H.
  destruct H as (off & H1 & H2 & H3 & _).
  exists off. split; [reflexivity|]. by split_and!.
Defined.
