(* ===== verification/Responses.v ===== *)
(** * Response decoders ([Protocol.cpp], the [decode*Response] functions)

    Each decoder checks the header and the fixed part, then reads the fields;
    a variable buffer is copied only after its bounds are checked.  The two
    responses that carry lists of entries are in [Listings.v]. *)

From S2P Require Export Header.
Local Open Scope Z_scope.
Local Open Scope comp_scope.
Local Open Scope string_scope.

(** A field of the response body, [body + k] in the code. *)
Definition body (k : Z) : Z := kSmb2HeaderSize + k.

(** A flag of a bit field. *)
Definition has_flag (value flag : Z) : bool := negb (Z.land value flag =? 0)%Z.

(** The three-part test on a buffer announced at [offset] with [length] bytes:
    before the header, beyond the message, or wrapping around. *)
Definition outside (size offset length : Z) : bool :=
  (offset <? kSmb2HeaderSize)%Z || (size <? offset + length)%Z
  || (offset + length <? offset)%Z.

(** [if (length > 0) response.x.assign(data + offset, data + offset + length)]. *)
Definition assign_if_any (data : bytes) (offset length : Z) : comp bytes :=
  if (0 <? length)%Z then read_range data offset (offset + length) else Ok [].

(** ** NEGOTIATE *)

Definition isOfferedDialect (dialect : Dialect) (offered : list Dialect) : bool :=
  bool_decide (dialect ∈ offered).

Definition decodeNegotiateResponse (data : bytes) (offeredDialects : list Dialect)
    : comp NegotiateResponse :=
  header ← decodeResponseHeader "a" "NEGOTIATE" Command_Negotiate
             [kStatusSuccess] data;
  checkResponseBody "NEGOTIATE" 64 kNegotiateResponseStructureSize data;;
  rawDialect ← readU16Le data (body 4);
  let dialect := dialect_of rawDialect in
  fail_if negb (isOfferedDialect dialect offeredDialects)
    with ErrorCode_ProtocolUnsupported,
    "Server selected an SMB dialect that was not offered.";;
  securityBufferOffset ← readU16Le data (body 56);
  securityBufferLength ← readU16Le data (body 58);
  fail_if outside (blen data) securityBufferOffset securityBufferLength
    with ErrorCode_IoError,
    "SMB2 NEGOTIATE response security buffer is out of bounds.";;
  securityMode ← readU16Le data (body 2);
  negotiateContextCount ← readU16Le data (body 6);
  serverGuid ← read_range data (body 8) (body 24);
  capabilities ← readU32Le data (body 24);
  maxTransactSize ← readU32Le data (body 28);
  maxReadSize ← readU32Le data (body 32);
  maxWriteSize ← readU32Le data (body 36);
  systemTime ← readU64Le data (body 40);
  serverStartTime ← readU64Le data (body 48);
  negotiateContextOffset ← readU32Le data (body 60);
  securityBuffer ← read_range data securityBufferOffset
                     (securityBufferOffset + securityBufferLength);
  Ok (mkNegotiateResponse securityMode dialect negotiateContextCount serverGuid
        capabilities maxTransactSize maxReadSize maxWriteSize systemTime
        serverStartTime securityBuffer negotiateContextOffset).

(** ** SESSION_SETUP, TREE_CONNECT, TREE_DISCONNECT, LOGOFF *)

Definition decodeSessionSetupResponse (data : bytes)
    : comp SessionSetupResponse :=
  header ← decodeResponseHeader "a" "SESSION_SETUP" Command_SessionSetup
             [kStatusSuccess; kStatusMoreProcessingRequired] data;
  checkResponseBody "SESSION_SETUP" 8 kSessionSetupResponseStructureSize data;;
  securityBufferOffset ← readU16Le data (body 4);
  securityBufferLength ← readU16Le data (body 6);
  fail_if (0 <? securityBufferLength)%Z
          && outside (blen data) securityBufferOffset securityBufferLength
    with ErrorCode_IoError,
    "SMB2 SESSION_SETUP response security buffer is out of bounds.";;
  sessionFlags ← readU16Le data (body 2);
  securityBuffer ← assign_if_any data securityBufferOffset securityBufferLength;
  Ok (mkSessionSetupResponse (hdr_status header) (hdr_sessionId header)
        sessionFlags securityBuffer [] []
        (hdr_status header =? kStatusMoreProcessingRequired)%Z
        (has_flag sessionFlags kSessionFlagIsGuest)
        (has_flag sessionFlags kSessionFlagIsNull)
        (has_flag sessionFlags kSessionFlagEncryptData)).

Definition decodeTreeConnectResponse (data : bytes) : comp TreeConnectResponse :=
  header ← decodeResponseHeader "a" "TREE_CONNECT" Command_TreeConnect
             [kStatusSuccess] data;
  checkResponseBody "TREE_CONNECT" 16 kTreeConnectResponseStructureSize data;;
  shareType ← read_u8 data (body 2);
  shareFlags ← readU32Le data (body 4);
  capabilities ← readU32Le data (body 8);
  maximalAccess ← readU32Le data (body 12);
  Ok (mkTreeConnectResponse (shareType_of shareType) shareFlags capabilities
        maximalAccess
        (has_flag shareFlags kShareFlagDfs
         || has_flag capabilities kShareCapabilityDfs)
        (has_flag shareFlags kShareFlagDfsRoot)
        (has_flag shareFlags kShareFlagEncryptData)).

Definition decodeTreeDisconnectResponse (data : bytes)
    : comp TreeDisconnectResponse :=
  header ← decodeResponseHeader "a" "TREE_DISCONNECT" Command_TreeDisconnect
             [kStatusSuccess] data;
  checkResponseBody "TREE_DISCONNECT" 4 kTreeDisconnectResponseStructureSize
    data;;
  Ok (mkTreeDisconnectResponse (hdr_status header)).

Definition decodeLogoffResponse (data : bytes) : comp LogoffResponse :=
  header ← decodeResponseHeader "a" "LOGOFF" Command_Logoff
             [kStatusSuccess] data;
  checkResponseBody "LOGOFF" 4 kLogoffResponseStructureSize data;;
  Ok (mkLogoffResponse (hdr_status header)).

(** ** CREATE and CLOSE *)

Definition decodeCreateResponse (data : bytes) : comp CreateResponse :=
  header ← decodeResponseHeader "a" "CREATE" Command_Create
             [kStatusSuccess] data;
  checkResponseBody "CREATE" 88 kCreateResponseStructureSize data;;
  oplockLevel ← read_u8 data (body 2);
  flags ← read_u8 data (body 3);
  createAction ← readU32Le data (body 4);
  creationTime ← readU64Le data (body 8);
  lastAccessTime ← readU64Le data (body 16);
  lastWriteTime ← readU64Le data (body 24);
  changeTime ← readU64Le data (body 32);
  allocationSize ← readU64Le data (body 40);
  endOfFile ← readU64Le data (body 48);
  fileAttributes ← readU32Le data (body 56);
  persistent ← readU64Le data (body 64);
  volatileId ← readU64Le data (body 72);
  Ok (mkCreateResponse oplockLevel flags createAction creationTime
        lastAccessTime lastWriteTime changeTime allocationSize endOfFile
        fileAttributes (mkFileId persistent volatileId)
        (has_flag flags 0x01
         || has_flag fileAttributes kFileAttributeReparsePoint)).

Definition decodeCloseResponse (data : bytes) : comp CloseResponse :=
  header ← decodeResponseHeader "a" "CLOSE" Command_Close [kStatusSuccess] data;
  checkResponseBody "CLOSE" 60 kCloseResponseStructureSize data;;
  flags ← readU16Le data (body 2);
  creationTime ← readU64Le data (body 8);
  lastAccessTime ← readU64Le data (body 16);
  lastWriteTime ← readU64Le data (body 24);
  changeTime ← readU64Le data (body 32);
  allocationSize ← readU64Le data (body 40);
  endOfFile ← readU64Le data (body 48);
  fileAttributes ← readU32Le data (body 56);
  Ok (mkCloseResponse (hdr_status header) flags creationTime lastAccessTime
        lastWriteTime changeTime allocationSize endOfFile fileAttributes
        (has_flag flags kCloseFlagPostQueryAttrib)).

(** ** READ and WRITE *)

Definition decodeReadResponse (data : bytes) : comp ReadResponse :=
  header ← decodeResponseHeader "a" "READ" Command_Read [kStatusSuccess] data;
  checkResponseBody "READ" 16 kReadResponseStructureSize data;;
  dataOffset ← read_u8 data (body 2);
  dataLength ← readU32Le data (body 4);
  fail_if (0 <? dataLength)%Z && outside (blen data) dataOffset dataLength
    with ErrorCode_IoError, "SMB2 READ response data is out of bounds.";;
  dataRemaining ← readU32Le data (body 8);
  flags ← readU32Le data (body 12);
  payload ← assign_if_any data dataOffset dataLength;
  Ok (mkReadResponse (hdr_status header) dataOffset dataRemaining
        (Z.land flags 0xFF) payload).

Definition decodeWriteResponse (data : bytes) : comp WriteResponse :=
  header ← decodeResponseHeader "a" "WRITE" Command_Write [kStatusSuccess] data;
  checkResponseBody "WRITE" 16 kWriteResponseStructureSize data;;
  count ← readU32Le data (body 4);
  remaining ← readU32Le data (body 8);
  writeChannelInfoOffset ← readU16Le data (body 12);
  writeChannelInfoLength ← readU16Le data (body 14);
  Ok (mkWriteResponse (hdr_status header) count remaining
        writeChannelInfoOffset writeChannelInfoLength).

(** ** IOCTL, SET_INFO, QUERY_INFO *)

(** The lambda of [decodeIoctlResponse]. *)
Definition bufferInBounds (size offset count : Z) : bool :=
  (count =? 0)%Z || ((kSmb2HeaderSize <=? offset)%Z
                     && (offset + count <=? size)%Z
                     && (offset <=? offset + count)%Z).

Definition decodeIoctlResponse (data : bytes) : comp IoctlResponse :=
  header ← decodeResponseHeader "an" "IOCTL" Command_Ioctl [kStatusSuccess] data;
  checkResponseBody "IOCTL" 48 kIoctlResponseStructureSize data;;
  inputOffset ← readU32Le data (body 24);
  inputCount ← readU32Le data (body 28);
  outputOffset ← readU32Le data (body 32);
  outputCount ← readU32Le data (body 36);
  fail_if negb (bufferInBounds (blen data) inputOffset inputCount)
          || negb (bufferInBounds (blen data) outputOffset outputCount)
    with ErrorCode_IoError, "SMB2 IOCTL response buffer is out of bounds.";;
  ctlCode ← readU32Le data (body 4);
  persistent ← readU64Le data (body 8);
  volatileId ← readU64Le data (body 16);
  flags ← readU32Le data (body 40);
  input ← assign_if_any data inputOffset inputCount;
  output ← assign_if_any data outputOffset outputCount;
  Ok (mkIoctlResponse (hdr_status header) ctlCode
        (mkFileId persistent volatileId) input output flags).

Definition decodeSetInfoResponse (data : bytes) : comp SetInfoResponse :=
  header ← decodeResponseHeader "a" "SET_INFO" Command_SetInfo
             [kStatusSuccess] data;
  checkResponseBody "SET_INFO" 2 kSetInfoResponseStructureSize data;;
  Ok (mkSetInfoResponse (hdr_status header)).

Definition decodeQueryInfoResponse (data : bytes) : comp QueryInfoResponse :=
  header ← decodeResponseHeader "a" "QUERY_INFO" Command_QueryInfo
             [kStatusSuccess] data;
  checkResponseBody "QUERY_INFO" 8 kQueryInfoResponseStructureSize data;;
  outputOffset ← readU16Le data (body 2);
  outputLength ← readU32Le data (body 4);
  fail_if (0 <? outputLength)%Z && outside (blen data) outputOffset outputLength
    with ErrorCode_IoError,
    "SMB2 QUERY_INFO response output buffer is out of bounds.";;
  buffer ← assign_if_any data outputOffset outputLength;
  Ok (mkQueryInfoResponse (hdr_status header) outputOffset buffer).

Local Close Scope string_scope.

(** ** Lemmas *)

Lemma outside_false size offset length :
  outside size offset length = false ->
  kSmb2HeaderSize <= offset /\ offset <= offset + length /\ offset + length <= size.
Proof. unfold outside. intros. bools. lia. Qed.

Lemma bufferInBounds_true size offset count :
  bufferInBounds size offset count = true -> 0 < count ->
  kSmb2HeaderSize <= offset /\ offset <= offset + count /\ offset + count <= size.
Proof. unfold bufferInBounds. intros H Hc. apply orb_true_iff in H as []; bools; lia. Qed.

Lemma wp_assign_if_any data offset length P :
  bytes_ok data ->
  (0 < length -> kSmb2HeaderSize <= offset /\ offset <= offset + length /\
     offset + length <= blen data) ->
  (forall bs, bytes_ok bs -> blen bs = Z.max 0 length -> P bs) ->
  wp (assign_if_any data offset length) P.
Proof.
  intros Hok Hb HP. unfold assign_if_any. wp_steps; bools.
  - specialize (Hb Heqb). unfold kSmb2HeaderSize in *.
    apply wp_read_range; [done|lia..|]. intros bs Hbs Hlen. apply HP; [done|lia].
  - apply HP; [apply bytes_ok_nil|]. change (blen []) with 0. lia.
Qed.

(** The guard [length > 0 && outside] lets a copy through. *)
Lemma guard_any size offset length :
  (0 <? length) && outside size offset length = false ->
  0 < length ->
  kSmb2HeaderSize <= offset /\ offset <= offset + length /\ offset + length <= size.
Proof.
  intros H Hl. rewrite (proj2 (Z.ltb_lt 0 length)) in H by done.
  by apply outside_false.
Qed.

(** The header and body checks of a decoder, then its reads. *)
Ltac decoder_header :=
  apply wp_bind; eapply wp_mono; [by apply wp_decodeResponseHeader|];
  cbv beta; intros ? (? & ? & ? & ? & ?); apply wp_bind;
  apply wp_checkResponseBody; [done|lia|]; intros ?;
  unfold body, kSmb2HeaderSize in *.
Ltac decoder_reads :=
  repeat first
    [ wp_step | wp_read
    | match goal with
      | |- wp (assign_if_any ?d _ _) _ =>
          apply wp_assign_if_any;
          [done
          |first [ by apply guard_any
                 | intros; bools; by apply bufferInBounds_true ]
          |intros]
      end ].

#[export] Hint Resolve shareType_of_ok dialect_of_ok : smb.

Lemma land_255_u8 v : is_u8 (Z.land v 0xFF).
Proof. apply is_u8_land. Qed.

Lemma header_status_ok h : Smb2SyncHeader_ok h -> is_u32 (hdr_status h).
Proof. by intros (? & ? & ?). Qed.
Lemma header_sessionId_ok h : Smb2SyncHeader_ok h -> is_u64 (hdr_sessionId h).
Proof. unfold Smb2SyncHeader_ok. tauto. Qed.
#[export] Hint Resolve land_255_u8 header_status_ok header_sessionId_ok : smb.

(** The fields a decoder read have the width of the record's fields. *)
Ltac decoded_ok :=
  cbn; unfold FileId_ok, kSmb2HeaderSize in *; cbn;
  repeat match goal with |- _ /\ _ => split end;
  auto using bytes_ok_nil with smb; try ulia.

Section safety.
Context (data : bytes) (Hok : bytes_ok data).

Lemma wp_decodeNegotiateResponse offered :
  wp (decodeNegotiateResponse data offered)
     (fun r => NegotiateResponse_ok r /\ ngr_dialect r ∈ offered).
Proof using Hok.
  unfold decodeNegotiateResponse. decoder_header. decoder_reads; try exact I.
  all: try match goal with H : outside _ _ _ = false |- _ =>
             apply outside_false in H; unfold kSmb2HeaderSize in * end.
  all: decoder_reads.
  unfold NegotiateResponse_ok. split; [decoded_ok|].
  bools. unfold isOfferedDialect in *. by case_bool_decide.
Qed.

Lemma wp_decodeSessionSetupResponse :
  wp (decodeSessionSetupResponse data) SessionSetupResponse_ok.
Proof using Hok.
  unfold decodeSessionSetupResponse, SessionSetupResponse_ok. decoder_header.
  decoder_reads; try exact I; decoded_ok.
Qed.

Lemma wp_decodeTreeConnectResponse :
  wp (decodeTreeConnectResponse data) TreeConnectResponse_ok.
Proof using Hok.
  unfold decodeTreeConnectResponse, TreeConnectResponse_ok. decoder_header.
  decoder_reads; try exact I; decoded_ok.
Qed.

Lemma wp_decodeTreeDisconnectResponse :
  wp (decodeTreeDisconnectResponse data) TreeDisconnectResponse_ok.
Proof using Hok.
  unfold decodeTreeDisconnectResponse, TreeDisconnectResponse_ok. decoder_header.
  decoder_reads; try exact I; decoded_ok.
Qed.

Lemma wp_decodeLogoffResponse :
  wp (decodeLogoffResponse data) LogoffResponse_ok.
Proof using Hok.
  unfold decodeLogoffResponse, LogoffResponse_ok. decoder_header.
  decoder_reads; try exact I; decoded_ok.
Qed.

Lemma wp_decodeCreateResponse :
  wp (decodeCreateResponse data) CreateResponse_ok.
Proof using Hok.
  unfold decodeCreateResponse, CreateResponse_ok. decoder_header.
  decoder_reads; try exact I; decoded_ok.
Qed.

Lemma wp_decodeCloseResponse :
  wp (decodeCloseResponse data) CloseResponse_ok.
Proof using Hok.
  unfold decodeCloseResponse, CloseResponse_ok. decoder_header.
  decoder_reads; try exact I; decoded_ok.
Qed.

Lemma wp_decodeReadResponse :
  wp (decodeReadResponse data) ReadResponse_ok.
Proof using Hok.
  unfold decodeReadResponse, ReadResponse_ok. decoder_header.
  decoder_reads; try exact I; decoded_ok.
Qed.

Lemma wp_decodeWriteResponse :
  wp (decodeWriteResponse data) WriteResponse_ok.
Proof using Hok.
  unfold decodeWriteResponse, WriteResponse_ok. decoder_header.
  decoder_reads; try exact I; decoded_ok.
Qed.

Lemma wp_decodeIoctlResponse :
  wp (decodeIoctlResponse data) IoctlResponse_ok.
Proof using Hok.
  unfold decodeIoctlResponse, IoctlResponse_ok. decoder_header.
  decoder_reads; try exact I; decoded_ok.
Qed.

Lemma wp_decodeSetInfoResponse :
  wp (decodeSetInfoResponse data) SetInfoResponse_ok.
Proof using Hok.
  unfold decodeSetInfoResponse, SetInfoResponse_ok. decoder_header.
  decoder_reads; try exact I; decoded_ok.
Qed.

Lemma wp_decodeQueryInfoResponse :
  wp (decodeQueryInfoResponse data) QueryInfoResponse_ok.
Proof using Hok.
  unfold decodeQueryInfoResponse, QueryInfoResponse_ok. decoder_header.
  decoder_reads; try exact I; decoded_ok.
Qed.
End safety.

(** C29: No response a server can send makes a decoder read outside the buffer
    or throw: on any bytes at all each decoder of a single response returns an
    error or a record whose every field has its width; and NEGOTIATE only ever
    accepts a dialect the client offered. *)
Theorem response_decoders_safe data offered :
  bytes_ok data ->
  wp (decodeNegotiateResponse data offered)
     (fun r => NegotiateResponse_ok r /\ ngr_dialect r ∈ offered) /\
  wp (decodeSessionSetupResponse data) SessionSetupResponse_ok /\
  wp (decodeTreeConnectResponse data) TreeConnectResponse_ok /\
  wp (decodeTreeDisconnectResponse data) TreeDisconnectResponse_ok /\
  wp (decodeLogoffResponse data) LogoffResponse_ok /\
  wp (decodeCreateResponse data) CreateResponse_ok /\
  wp (decodeCloseResponse data) CloseResponse_ok /\
  wp (decodeReadResponse data) ReadResponse_ok /\
  wp (decodeWriteResponse data) WriteResponse_ok /\
  wp (decodeIoctlResponse data) IoctlResponse_ok /\
  wp (decodeSetInfoResponse data) SetInfoResponse_ok /\
  wp (decodeQueryInfoResponse data) QueryInfoResponse_ok.
Proof.
  intros Hok. repeat match goal with |- _ /\ _ => split end;
    auto using wp_decodeNegotiateResponse, wp_decodeSessionSetupResponse,
      wp_decodeTreeConnectResponse, wp_decodeTreeDisconnectResponse,
      wp_decodeLogoffResponse, wp_decodeCreateResponse, wp_decodeCloseResponse,
      wp_decodeReadResponse, wp_decodeWriteResponse, wp_decodeIoctlResponse,
      wp_decodeSetInfoResponse, wp_decodeQueryInfoResponse.
Qed.

Lemma response_decoders_safe_witness :
  bytes_ok (zeros 80) /\
  wp (decodeReadResponse (zeros 80)) ReadResponse_ok.
Proof.
  split; [apply zeros_ok|].
  apply (response_decoders_safe (zeros 80) []). apply zeros_ok.
Defined.

(** ** Specification: the responses a server builds *)

(** [is_reply cmd status h]: the header of a server's response to [cmd]. *)
Definition is_reply (cmd : Command) (status : Z) (h : Smb2SyncHeader) : Prop :=
  Smb2SyncHeader_ok h /\ hdr_command h = cmd /\ hdr_status h = status /\
  Z.land (hdr_flags h) kFlagServerToRedir <> 0.

(** A response: the header, the StructureSize field and the other fields. *)
Definition response (h : Smb2SyncHeader) (structureSize : Z) (fields : bytes)
    : bytes :=
  encodeSmb2SyncHeader h ++ u16Le structureSize ++ fields.

(** The layouts of [MS-SMB2] 2.2.6, 2.2.14, 2.2.16, 2.2.20, 2.2.22, 2.2.32 and
    2.2.38, with the buffer, if any, right after the fixed part. *)
Definition session_setup_fields (r : SessionSetupResponse) : bytes :=
  u16Le (ssr_sessionFlags r) ++ u16Le 72 ++ u16Le (blen (ssr_securityBuffer r))
  ++ ssr_securityBuffer r.

Definition create_fields (r : CreateResponse) (reserved contexts : bytes) : bytes :=
  [crr_oplockLevel r] ++ [crr_flags r] ++ u32Le (crr_createAction r)
  ++ u64Le (crr_creationTime r) ++ u64Le (crr_lastAccessTime r)
  ++ u64Le (crr_lastWriteTime r) ++ u64Le (crr_changeTime r)
  ++ u64Le (crr_allocationSize r) ++ u64Le (crr_endOfFile r)
  ++ u32Le (crr_fileAttributes r) ++ reserved
  ++ u64Le (fid_persistent (crr_fileId r)) ++ u64Le (fid_volatileId (crr_fileId r))
  ++ contexts.

Definition close_fields (r : CloseResponse) : bytes :=
  u16Le (clr_flags r) ++ u32Le 0
  ++ u64Le (clr_creationTime r) ++ u64Le (clr_lastAccessTime r)
  ++ u64Le (clr_lastWriteTime r) ++ u64Le (clr_changeTime r)
  ++ u64Le (clr_allocationSize r) ++ u64Le (clr_endOfFile r)
  ++ u32Le (clr_fileAttributes r).

Definition read_fields (r : ReadResponse) : bytes :=
  [80] ++ [0] ++ u32Le (blen (rdr_data r)) ++ u32Le (rdr_dataRemaining r)
  ++ u32Le (rdr_flags r) ++ rdr_data r.

Definition write_fields (r : WriteResponse) : bytes :=
  u16Le 0 ++ u32Le (wrr_count r) ++ u32Le (wrr_remaining r)
  ++ u16Le (wrr_writeChannelInfoOffset r)
  ++ u16Le (wrr_writeChannelInfoLength r).

Definition ioctl_fields (r : IoctlResponse) : bytes :=
  u16Le 0 ++ u32Le (ior_ctlCode r) ++ u64Le (fid_persistent (ior_fileId r))
  ++ u64Le (fid_volatileId (ior_fileId r))
  ++ u32Le 112 ++ u32Le (blen (ior_input r))
  ++ u32Le (112 + blen (ior_input r)) ++ u32Le (blen (ior_output r))
  ++ u32Le (ior_flags r) ++ u32Le 0 ++ ior_input r ++ ior_output r.

Definition query_info_fields (r : QueryInfoResponse) : bytes :=
  u16Le 72 ++ u32Le (blen (qir_buffer r)) ++ qir_buffer r.

Section replies.
Context (cmd : Command) (status : Z) (h : Smb2SyncHeader).
Context (Hh : is_reply cmd status h).

Lemma decodeResponseHeader_reply article name accepted ss fields :
  status_in status accepted = true ->
  decodeResponseHeader article name cmd accepted
    (response h ss fields) = Ok h.
Proof using Hh.
  intros Hs. destruct Hh as (Hok & Hc & Hst & Hf). unfold decodeResponseHeader,
    response.
  rewrite decode_encoded_header by done. cbn [reraise mbind comp_bind].
  rewrite bool_decide_eq_false_2 by tauto.
  rewrite (proj2 (Z.eqb_neq _ _)) by done. by rewrite Hst, Hs.
Qed.

Lemma decodeResponseHeader_refused article name accepted ss fields :
  status_in status accepted = false ->
  decodeResponseHeader article name cmd accepted
    (response h ss fields) =
  failureFromNtStatus status (String.append "SMB2 " name).
Proof using Hh.
  intros Hs. destruct Hh as (Hok & Hc & Hst & Hf). unfold decodeResponseHeader,
    response.
  rewrite decode_encoded_header by done. cbn [reraise mbind comp_bind].
  rewrite bool_decide_eq_false_2 by tauto.
  rewrite (proj2 (Z.eqb_neq _ _)) by done. by rewrite Hst, Hs.
Qed.

Lemma blen_reply : blen (encodeSmb2SyncHeader h) = 64.
Proof using Hh. destruct Hh. by apply blen_encodeSmb2SyncHeader. Qed.

Lemma checkResponseBody_reply name fixedSize ss fields :
  is_u16 ss -> fixedSize <= 2 + blen fields ->
  checkResponseBody name fixedSize ss (response h ss fields) = Ok tt.
Proof using Hh.
  intros Hss Hf. pose proof blen_reply as Hb.
  unfold checkResponseBody, response, kSmb2HeaderSize.
  rewrite (proj2 (Z.ltb_ge _ _)) by (rewrite !blen_app, blen_u16Le; lia).
  rd_step. rewrite u16_small by done. by rewrite Z.eqb_refl.
Qed.
End replies.

(** A buffer that stands in the message after the header passes every test. *)
Lemma outside_at data off p :
  at_off data off p -> kSmb2HeaderSize <= off ->
  outside (blen data) off (blen p) = false.
Proof.
  intros H Ho. apply at_off_bound in H as [_ H]. unfold outside. blens.
  rewrite !orb_false_iff, !Z.ltb_ge. lia.
Qed.

Lemma bufferInBounds_at data off p :
  at_off data off p -> kSmb2HeaderSize <= off ->
  bufferInBounds (blen data) off (blen p) = true.
Proof.
  intros H Ho. apply at_off_bound in H as [_ H]. unfold bufferInBounds. blens.
  rewrite orb_true_iff, !andb_true_iff, !Z.leb_le. lia.
Qed.

Lemma assign_at data off p :
  at_off data off p -> assign_if_any data off (blen p) = Ok p.
Proof.
  intros H. unfold assign_if_any. case_if; bools.
  - by apply read_range_at.
  - blens. by rewrite (blen_zero p) by lia.
Qed.

Section layouts.
Context (h : Smb2SyncHeader) (status : Z).

(** The header and body checks pass; the header becomes an opaque block of 64
    bytes and the reads of the fields are evaluated. *)
Ltac read_reply Hh :=
  erewrite decodeResponseHeader_reply by done;
  cbn [mbind comp_bind];
  erewrite checkResponseBody_reply by first [done | ulia | blens; len];
  cbn [mbind comp_bind];
  pose proof (blen_reply _ _ _ Hh) as Hb; destruct (Hh) as (_ & _ & Hs & _);
  unfold response, body, kSmb2HeaderSize;
  generalize dependent (encodeSmb2SyncHeader h); intros hd Hb;
  repeat rd_step.
Ltac reply_fields :=
  cbn [mbind comp_bind]; destruct_and?; f_equal; smalls;
  try (match goal with |- _ = ?r => is_var r; destruct r end);
  cbn in *; f_equal; congruence.

Lemma decodeReadResponse_reply r :
  is_reply Command_Read kStatusSuccess h -> ReadResponse_ok r ->
  rdr_status r = kStatusSuccess -> rdr_dataOffset r = 80 ->
  is_u32 (blen (rdr_data r)) ->
  decodeReadResponse (response h 17 (read_fields r)) = Ok r.
Proof.
  intros Hh (? & ? & ? & ? & ?) Hst Hoff Hlen. unfold decodeReadResponse, read_fields.
  read_reply Hh. smalls.
  rewrite outside_at, assign_at, andb_false_r by first [done | find_at].
  replace (Z.land (rdr_flags r) 255) with (rdr_flags r)
    by (rewrite land_255; symmetry; by apply Z.mod_small).
  reply_fields.
Qed.

Lemma decodeCreateResponse_reply r reserved contexts :
  is_reply Command_Create kStatusSuccess h -> CreateResponse_ok r ->
  crr_isReparsePoint r = has_flag (crr_flags r) 1
    || has_flag (crr_fileAttributes r) kFileAttributeReparsePoint ->
  blen reserved = 4 -> 8 <= blen contexts ->
  decodeCreateResponse (response h 89 (create_fields r reserved contexts)) = Ok r.
Proof.
  intros Hh Hr Hp Hres Hctx. unfold CreateResponse_ok, FileId_ok in Hr.
  unfold decodeCreateResponse, create_fields.
  read_reply Hh. destruct_and!. smalls.
  destruct r as [??????????[]]; reply_fields.
Qed.

Lemma decodeCloseResponse_reply r :
  is_reply Command_Close kStatusSuccess h -> CloseResponse_ok r ->
  clr_status r = kStatusSuccess ->
  clr_hasPostQueryAttributes r = has_flag (clr_flags r) kCloseFlagPostQueryAttrib ->
  decodeCloseResponse (response h 60 (close_fields r)) = Ok r.
Proof.
  intros Hh Hr Hst Hp. unfold CloseResponse_ok in Hr.
  unfold decodeCloseResponse, close_fields.
  read_reply Hh. reply_fields.
Qed.

Lemma decodeWriteResponse_reply r :
  is_reply Command_Write kStatusSuccess h -> WriteResponse_ok r ->
  wrr_status r = kStatusSuccess ->
  decodeWriteResponse (response h 17 (write_fields r)) = Ok r.
Proof.
  intros Hh Hr Hst. unfold WriteResponse_ok in Hr.
  unfold decodeWriteResponse, write_fields.
  read_reply Hh. reply_fields.
Qed.

Lemma decodeIoctlResponse_reply r :
  is_reply Command_Ioctl kStatusSuccess h -> IoctlResponse_ok r ->
  ior_status r = kStatusSuccess ->
  112 + blen (ior_input r) + blen (ior_output r) < 2 ^ 32 ->
  decodeIoctlResponse (response h 49 (ioctl_fields r)) = Ok r.
Proof.
  intros Hh Hr Hst Hlen. unfold IoctlResponse_ok, FileId_ok in Hr.
  unfold decodeIoctlResponse, ioctl_fields.
  read_reply Hh. destruct_and!. smalls.
  rewrite !bufferInBounds_at by first
    [done | unfold kSmb2HeaderSize; lia | find_at].
  cbn [negb orb]. rewrite !assign_at by find_at.
  destruct r as [??[]]; reply_fields.
Qed.

Lemma decodeQueryInfoResponse_reply r :
  is_reply Command_QueryInfo kStatusSuccess h -> QueryInfoResponse_ok r ->
  qir_status r = kStatusSuccess -> qir_outputBufferOffset r = 72 ->
  is_u32 (blen (qir_buffer r)) ->
  decodeQueryInfoResponse (response h 9 (query_info_fields r)) = Ok r.
Proof.
  intros Hh Hr Hst Hoff Hlen. unfold QueryInfoResponse_ok in Hr.
  unfold decodeQueryInfoResponse, query_info_fields.
  read_reply Hh. smalls.
  rewrite outside_at, assign_at, andb_false_r by first [done | find_at].
  reply_fields.
Qed.

Lemma decodeSessionSetupResponse_reply r :
  is_reply Command_SessionSetup (ssr_status r) h -> SessionSetupResponse_ok r ->
  status_in (ssr_status r) [kStatusSuccess; kStatusMoreProcessingRequired] = true ->
  ssr_sessionId r = hdr_sessionId h ->
  ssr_requestPayload r = [] -> ssr_responsePayload r = [] ->
  ssr_moreProcessingRequired r = (ssr_status r =? kStatusMoreProcessingRequired) ->
  ssr_guestSession r = has_flag (ssr_sessionFlags r) kSessionFlagIsGuest ->
  ssr_nullSession r = has_flag (ssr_sessionFlags r) kSessionFlagIsNull ->
  ssr_encryptData r = has_flag (ssr_sessionFlags r) kSessionFlagEncryptData ->
  is_u16 (blen (ssr_securityBuffer r)) ->
  decodeSessionSetupResponse (response h 9 (session_setup_fields r)) = Ok r.
Proof.
  intros Hh Hr ????????? . unfold SessionSetupResponse_ok in Hr.
  unfold decodeSessionSetupResponse, session_setup_fields.
  read_reply Hh. smalls.
  rewrite outside_at, assign_at, andb_false_r by first [done | find_at].
  reply_fields.
Qed.
End layouts.


(** A header of a server's response. *)
Definition sample_reply (cmd : Command) (status : Z) : Smb2SyncHeader :=
  mkSmb2SyncHeader 1 status cmd 1 1 0 7 5 9 (zeros 16).


(** A reply with a status its decoder does not accept is reported as that
    status: whatever follows the header, the result is the failure
    [failureFromNtStatus] builds, with the error code mapped from the status
    and its name and value in the message; only SESSION_SETUP accepts a second
    status. *)
Theorem response_decoders_report_status h cmd status ss fields offered :
  is_reply cmd status h ->
  status <> kStatusSuccess ->
  match cmd with
  | Command_Negotiate =>
      decodeNegotiateResponse (response h ss fields) offered
      = failureFromNtStatus status "SMB2 NEGOTIATE"
  | Command_SessionSetup =>
      status <> kStatusMoreProcessingRequired ->
      decodeSessionSetupResponse (response h ss fields)
      = failureFromNtStatus status "SMB2 SESSION_SETUP"
  | Command_Logoff =>
      decodeLogoffResponse (response h ss fields)
      = failureFromNtStatus status "SMB2 LOGOFF"
  | Command_TreeConnect =>
      decodeTreeConnectResponse (response h ss fields)
      = failureFromNtStatus status "SMB2 TREE_CONNECT"
  | Command_TreeDisconnect =>
      decodeTreeDisconnectResponse (response h ss fields)
      = failureFromNtStatus status "SMB2 TREE_DISCONNECT"
  | Command_Create =>
      decodeCreateResponse (response h ss fields)
      = failureFromNtStatus status "SMB2 CREATE"
  | Command_Close =>
      decodeCloseResponse (response h ss fields)
      = failureFromNtStatus status "SMB2 CLOSE"
  | Command_Read =>
      decodeReadResponse (response h ss fields)
      = failureFromNtStatus status "SMB2 READ"
  | Command_Write =>
      decodeWriteResponse (response h ss fields)
      = failureFromNtStatus status "SMB2 WRITE"
  | Command_Ioctl =>
      decodeIoctlResponse (response h ss fields)
      = failureFromNtStatus status "SMB2 IOCTL"
  | Command_QueryInfo =>
      decodeQueryInfoResponse (response h ss fields)
      = failureFromNtStatus status "SMB2 QUERY_INFO"
  | Command_SetInfo =>
      decodeSetInfoResponse (response h ss fields)
      = failureFromNtStatus status "SMB2 SET_INFO"
  | _ => True
  end.
Proof.
  intros Hh Hs. apply Z.eqb_neq in Hs as Hs'.
  assert (status_in status [kStatusSuccess] = false) as Hin
    by (cbn; by rewrite Hs').
  destruct cmd; try done; try intros Hm%Z.eqb_neq;
    unfold decodeNegotiateResponse, decodeLogoffResponse,
      decodeTreeConnectResponse, decodeTreeDisconnectResponse,
      decodeCreateResponse, decodeCloseResponse, decodeReadResponse,
      decodeWriteResponse, decodeIoctlResponse, decodeQueryInfoResponse,
      decodeSetInfoResponse, decodeSessionSetupResponse;
    erewrite decodeResponseHeader_refused; try done.
  cbn. by rewrite Hs', Hm.
Qed.

Lemma response_decoders_report_status_witness :
  decodeCreateResponse
    (response (sample_reply Command_Create kStatusAccessDenied) 9 [])
  = failureFromNtStatus kStatusAccessDenied "SMB2 CREATE".
Proof.
  apply (response_decoders_report_status
    (sample_reply Command_Create kStatusAccessDenied) Command_Create
    kStatusAccessDenied 9 [] []); [|done].
  split_and!; [|done..]. unfold Smb2SyncHeader_ok, command_ok.
  cbn. repeat split; try (unfold kStatusAccessDenied; lia); exact (zeros_ok 16).
Defined.
