(* ===== verification/Listings.v ===== *)
(** * Directory listings and change notifications ([Protocol.cpp])

    [decodeQueryDirectoryResponse] and [decodeChangeNotifyResponse] walk a
    chain of entries, each with the offset of the next one; every step checks
    the entry against the end of the output buffer. *)

From S2P Require Export Responses.
Local Open Scope Z_scope.
Local Open Scope comp_scope.

(** ** QUERY_DIRECTORY *)

(** The fixed fields of the [FILE_ID_BOTH_DIR_INFORMATION] at [entry]. *)
Definition parseDirectoryEntry (data : bytes) (entry : Z) (name : bytes)
    : comp DirectoryEntry :=
  fileIndex ← readU32Le data (entry + 4);
  creationTime ← readU64Le data (entry + 8);
  lastAccessTime ← readU64Le data (entry + 16);
  lastWriteTime ← readU64Le data (entry + 24);
  changeTime ← readU64Le data (entry + 32);
  endOfFile ← readU64Le data (entry + 40);
  allocationSize ← readU64Le data (entry + 48);
  fileAttributes ← readU32Le data (entry + 56);
  eaSizeOrReparseTag ← readU32Le data (entry + 64);
  fileId ← readU64Le data (entry + 96);
  Ok (mkDirectoryEntry name fileIndex creationTime lastAccessTime lastWriteTime
        changeTime endOfFile allocationSize fileAttributes eaSizeOrReparseTag
        fileId (has_flag fileAttributes kFileAttributeDirectory)
        (has_flag fileAttributes kFileAttributeReparsePoint)).

(** The [while] loop from [entryOffset] on.  [fuel] bounds the number of
    turns; the loop advances at each turn, so the length of the message is
    enough, and running out of it is reported as [OutOfBounds], a result the
    safety theorem excludes. *)
Fixpoint directoryEntries (data : bytes) (entriesEnd : Z) (fuel : nat)
    (entryOffset : Z) : comp (list DirectoryEntry) :=
  match fuel with
  | O => OutOfBounds
  | S fuel =>
      if negb (entryOffset <? entriesEnd) then Ok [] else
      fail_if entriesEnd - entryOffset <? 104 with ErrorCode_IoError,
        "FILE_ID_BOTH_DIR_INFORMATION entry is shorter than fixed part.";;
      nextEntryOffset ← readU32Le data entryOffset;
      fileNameLength ← readU32Le data (entryOffset + 60);
      let fileNameOffset := entryOffset + 104 in
      let fileNameEnd := fileNameOffset + fileNameLength in
      fail_if (entriesEnd <? fileNameEnd) || (fileNameEnd <? fileNameOffset)
        with ErrorCode_IoError,
        "FILE_ID_BOTH_DIR_INFORMATION file name is out of bounds.";;
      fail_if negb (nextEntryOffset =? 0)
              && ((nextEntryOffset <? u32 (104 + fileNameLength))
                  || (entriesEnd <? entryOffset + nextEntryOffset))
        with ErrorCode_IoError,
        "FILE_ID_BOTH_DIR_INFORMATION next entry offset is invalid.";;
      nameBytes ← read_range data fileNameOffset fileNameEnd;
      name ← reraise (decodeUtf16Le nameBytes);
      parsed ← parseDirectoryEntry data entryOffset name;
      if nextEntryOffset =? 0 then Ok [parsed]
      else
        rest ← directoryEntries data entriesEnd fuel
                 (entryOffset + nextEntryOffset);
        Ok (parsed :: rest)
  end.

Definition decodeQueryDirectoryResponse (data : bytes)
    : comp QueryDirectoryResponse :=
  header ← decodeResponseHeader "a" "QUERY_DIRECTORY" Command_QueryDirectory
             [kStatusSuccess; kStatusNoMoreFiles] data;
  if hdr_status header =? kStatusNoMoreFiles
  then Ok (mkQueryDirectoryResponse (hdr_status header) [])
  else
    checkResponseBody "QUERY_DIRECTORY" 8 kQueryDirectoryResponseStructureSize
      data;;
    outputOffset ← readU16Le data (body 2);
    outputLength ← readU32Le data (body 4);
    let outputEnd := outputOffset + outputLength in
    fail_if (0 <? outputLength) && outside (blen data) outputOffset outputLength
      with ErrorCode_IoError,
      "SMB2 QUERY_DIRECTORY response output buffer is out of bounds.";;
    entries ← (if 0 <? outputLength
               then directoryEntries data outputEnd (length data) outputOffset
               else Ok []);
    Ok (mkQueryDirectoryResponse (hdr_status header) entries).

(** ** CHANGE_NOTIFY *)

Fixpoint notifyEntries (data : bytes) (entriesEnd : Z) (fuel : nat)
    (entryOffset : Z) : comp (list ChangeNotifyEntry) :=
  match fuel with
  | O => OutOfBounds
  | S fuel =>
      if negb (entryOffset <? entriesEnd) then Ok [] else
      fail_if entriesEnd - entryOffset <? 12 with ErrorCode_IoError,
        "FILE_NOTIFY_INFORMATION entry is shorter than fixed part.";;
      nextEntryOffset ← readU32Le data entryOffset;
      fileNameLength ← readU32Le data (entryOffset + 8);
      let fileNameOffset := entryOffset + 12 in
      let fileNameEnd := fileNameOffset + fileNameLength in
      fail_if (entriesEnd <? fileNameEnd) || (fileNameEnd <? fileNameOffset)
        with ErrorCode_IoError,
        "FILE_NOTIFY_INFORMATION file name is out of bounds.";;
      fail_if negb (nextEntryOffset =? 0)
              && (negb (nextEntryOffset mod 4 =? 0)
                  || (nextEntryOffset <? u32 (12 + fileNameLength))
                  || (entriesEnd <? entryOffset + nextEntryOffset))
        with ErrorCode_IoError,
        "FILE_NOTIFY_INFORMATION next entry offset is invalid.";;
      nameBytes ← read_range data fileNameOffset fileNameEnd;
      name ← reraise (decodeUtf16Le nameBytes);
      action ← readU32Le data (entryOffset + 4);
      let parsed := mkChangeNotifyEntry action name in
      if nextEntryOffset =? 0 then Ok [parsed]
      else
        rest ← notifyEntries data entriesEnd fuel (entryOffset + nextEntryOffset);
        Ok (parsed :: rest)
  end.

Definition decodeChangeNotifyResponse (data : bytes)
    : comp ChangeNotifyResponse :=
  header ← decodeResponseHeader "a" "CHANGE_NOTIFY" Command_ChangeNotify
             [kStatusSuccess; kStatusNotifyEnumDir] data;
  checkResponseBody "CHANGE_NOTIFY" 8 kChangeNotifyResponseStructureSize data;;
  outputOffset ← readU16Le data (body 2);
  outputLength ← readU32Le data (body 4);
  let outputEnd := outputOffset + outputLength in
  fail_if (0 <? outputLength) && outside (blen data) outputOffset outputLength
    with ErrorCode_IoError,
    "SMB2 CHANGE_NOTIFY response output buffer is out of bounds.";;
  entries ← (if 0 <? outputLength
             then notifyEntries data outputEnd (length data) outputOffset
             else Ok []);
  Ok (mkChangeNotifyResponse (hdr_status header) outputOffset entries).

(** ** Safety and termination *)

Lemma wp_parseDirectoryEntry data entry name :
  bytes_ok data -> bytes_ok name -> 0 <= entry -> entry + 104 <= blen data ->
  wp (parseDirectoryEntry data entry name) DirectoryEntry_ok.
Proof.
  intros. unfold parseDirectoryEntry. decoder_reads.
  unfold DirectoryEntry_ok. decoded_ok.
Qed.

(** An entry takes at least [size] bytes, unless the 32-bit sum wraps, which a
    buffer below 4 GiB excludes. *)
Definition entries_fit {A} (size available : Z) (l : list A) : Prop :=
  size * blen l <= Z.max 0 available.

Lemma entries_fit_cons {A} size d d' x (l : list A) :
  0 <= d' -> size + d' <= d -> entries_fit size d' l ->
  entries_fit size d (x :: l).
Proof. unfold entries_fit. rewrite blen_cons. lia. Qed.

Lemma wp_directoryEntries data entriesEnd fuel entryOffset :
  bytes_ok data -> 0 <= entryOffset <= entriesEnd -> entriesEnd <= blen data ->
  entriesEnd - entryOffset < Z.of_nat fuel ->
  wp (directoryEntries data entriesEnd fuel entryOffset)
     (fun l => Forall DirectoryEntry_ok l /\
               (blen data < 2 ^ 32 ->
                entries_fit 104 (entriesEnd - entryOffset) l)).
Proof.
  intros Hok. revert entryOffset.
  induction fuel as [|fuel IH]; intros o Ho He Hf; [lia|].
  cbn [directoryEntries]. wp_steps; bools.
  - split; [constructor|]. unfold entries_fit. change (blen []) with 0. lia.
  - wp_read. rename v into next. wp_steps. wp_read. rename v into len.
    wp_steps; bools. 
    apply wp_read_range; [done|ulia..|]. intros nb Hnb Hnl. wp_steps.
    eapply wp_mono; [apply wp_decodeUtf16Le|]. intros name Hname. wp_steps.
    eapply wp_mono; [apply wp_parseDirectoryEntry; [done..|lia|lia]|].
    intros e Hentry. wp_steps; bools.
    + split; [by apply Forall_singleton|]. intros. unfold entries_fit.
      change (blen [e]) with 1. lia.
    + assert (0 < next) by ulia.
      cbn [negb andb] in *. bools.
      eapply wp_mono; [apply IH; lia|]. intros l [Hl Hfit]. wp_steps.
      split; [by constructor|]. intros Hs.
      apply (entries_fit_cons _ _ (entriesEnd - (o + next))); [lia| |by apply Hfit].
      rewrite u32_small in * by ulia. lia.
Qed.

Lemma wp_notifyEntries data entriesEnd fuel entryOffset :
  bytes_ok data -> 0 <= entryOffset <= entriesEnd -> entriesEnd <= blen data ->
  entriesEnd - entryOffset < Z.of_nat fuel ->
  wp (notifyEntries data entriesEnd fuel entryOffset)
     (fun l => Forall ChangeNotifyEntry_ok l /\
               (blen data < 2 ^ 32 ->
                entries_fit 12 (entriesEnd - entryOffset) l)).
Proof.
  intros Hok. revert entryOffset.
  induction fuel as [|fuel IH]; intros o Ho He Hf; [lia|].
  cbn [notifyEntries]. wp_steps; bools.
  - split; [constructor|]. unfold entries_fit. change (blen []) with 0. lia.
  - wp_read. rename v into next. wp_steps. wp_read. rename v into len.
    wp_steps; bools.
    apply wp_read_range; [done|ulia..|]. intros nb Hnb Hnl. wp_steps.
    eapply wp_mono; [apply wp_decodeUtf16Le|]. intros name Hname. wp_steps.
    wp_read. wp_steps; bools.
    + split; [by apply Forall_singleton|]. intros. unfold entries_fit.
      change (blen [_]) with 1. lia.
    + assert (0 < next) by ulia. cbn [negb andb] in *. bools.
      eapply wp_mono; [apply IH; lia|]. intros l [Hl Hfit]. wp_steps.
      split; [by constructor|]. intros Hs.
      apply (entries_fit_cons _ _ (entriesEnd - (o + next))); [lia| |by apply Hfit].
      rewrite u32_small in * by ulia. lia.
Qed.

Section listing_safety.
Context (data : bytes) (Hok : bytes_ok data).

(** The bounds of an output buffer that holds entries. *)
Lemma listing_bounds offset length :
  outside (blen data) offset length = false -> 0 < length ->
  0 <= offset <= offset + length /\ offset + length <= blen data /\
  offset + length - offset < Z.of_nat (List.length data).
Proof using Hok.
  intros H Hl. destruct (outside_false _ _ _ H) as (? & ? & ?).
  unfold kSmb2HeaderSize, blen in *. lia.
Qed.

Lemma wp_decodeQueryDirectoryResponse :
  wp (decodeQueryDirectoryResponse data)
     (fun r => QueryDirectoryResponse_ok r /\
               (blen data < 2 ^ 32 -> 104 * blen (qdr_entries r) <= blen data)).
Proof using Hok.
  unfold decodeQueryDirectoryResponse.
  apply wp_bind. eapply wp_mono; [by apply wp_decodeResponseHeader|].
  cbv beta. intros h (Hh & ? & ? & ? & ?). wp_steps.
  { split; [|cbn; change (blen []) with 0; blens; lia].
    split; [by apply header_status_ok|constructor]. }
  apply wp_checkResponseBody; [done|lia|]. intros ?.
  unfold body, kSmb2HeaderSize in *. decoder_reads; try exact I.
  - bools. destruct (listing_bounds v v0) as (? & ? & ?); [done..|].
    eapply wp_mono; [by apply wp_directoryEntries|]. intros l [Hl Hfit]. wp_steps.
    split; [split; [by apply header_status_ok|done]|].
    intros Hs. specialize (Hfit Hs). unfold entries_fit in Hfit. cbn. lia.
  - split; [split; [by apply header_status_ok|constructor]|].
    cbn; change (blen []) with 0. blens. lia.
Qed.

Lemma wp_decodeChangeNotifyResponse :
  wp (decodeChangeNotifyResponse data)
     (fun r => ChangeNotifyResponse_ok r /\
               (blen data < 2 ^ 32 -> 12 * blen (cnr_entries r) <= blen data)).
Proof using Hok.
  unfold decodeChangeNotifyResponse. decoder_header. decoder_reads; try exact I.
  - bools. destruct (listing_bounds v v0) as (? & ? & ?); [done..|].
    eapply wp_mono; [by apply wp_notifyEntries|]. intros l [Hl Hfit]. wp_steps.
    split; [unfold ChangeNotifyResponse_ok; decoded_ok|].
    intros Hs. specialize (Hfit Hs). unfold entries_fit in Hfit. cbn. lia.
  - split; [unfold ChangeNotifyResponse_ok; decoded_ok; constructor|].
    cbn; change (blen []) with 0. blens. lia.
Qed.
End listing_safety.

(** NO_MORE_FILES comes without entries. *)
Lemma wp_no_more_files data :
  bytes_ok data ->
  wp (decodeQueryDirectoryResponse data)
     (fun r => qdr_status r = kStatusNoMoreFiles -> qdr_entries r = []).
Proof.
  intros Hok. pose proof (wp_decodeQueryDirectoryResponse data Hok) as Hw.
  destruct (decodeQueryDirectoryResponse data) as [r|e|e|] eqn:Hr; try done.
  cbn. clear Hw. unfold decodeQueryDirectoryResponse in Hr.
  apply bind_Ok_inv in Hr as (h & _ & Hr).
  destruct (hdr_status h =? kStatusNoMoreFiles) eqn:Hst.
  - by apply Ok_inj in Hr as <-.
  - inv_comp; cbn; bools; by intros.
Qed.

(** The entry lists of QUERY_DIRECTORY and CHANGE_NOTIFY responses are
    walked safely whatever the server sends: the loops terminate, no offset
    chain reads outside the message, every entry is well-formed, and a message
    below 4 GiB cannot produce more entries than its bytes pay for. *)
Theorem listing_decoders_safe data :
  bytes_ok data ->
  wp (decodeQueryDirectoryResponse data)
     (fun r => QueryDirectoryResponse_ok r /\
               (blen data < 2 ^ 32 -> 104 * blen (qdr_entries r) <= blen data)) /\
  wp (decodeChangeNotifyResponse data)
     (fun r => ChangeNotifyResponse_ok r /\
               (blen data < 2 ^ 32 -> 12 * blen (cnr_entries r) <= blen data)).
Proof.
  split; auto using wp_decodeQueryDirectoryResponse, wp_decodeChangeNotifyResponse.
Qed.

Lemma listing_decoders_safe_witness :
  bytes_ok (zeros 200) /\
  wp (decodeQueryDirectoryResponse (zeros 200))
     (fun r => QueryDirectoryResponse_ok r /\
        (blen (zeros 200) < 2 ^ 32 -> 104 * blen (qdr_entries r) <= blen (zeros 200))).
Proof.
  split; [apply zeros_ok|]. apply (listing_decoders_safe (zeros 200)), zeros_ok.
Defined.

(** ** Specification: the chain of entries a server builds *)

(** Each entry but the last announces its size, padding included, as the offset
    of the next one; the last announces 0. *)
Section chain.
Context {A : Type} (encode : Z -> A -> bytes) (pad : A -> bytes).

Fixpoint chain (l : list A) : bytes :=
  match l with
  | [] => []
  | [e] => encode 0 e
  | e :: l => encode (blen (encode 0 e ++ pad e)) e ++ pad e ++ chain l
  end.
End chain.

(** A [FILE_ID_BOTH_DIR_INFORMATION]: the parsed entry, its name in UTF-16LE,
    the short-name part and the padding that follows. *)
Record WireEntry : Set := mkWireEntry {
  we_entry : DirectoryEntry;
  we_name : bytes;
  we_short : bytes;
  we_pad : bytes
}.

Definition encode_entry (next : Z) (w : WireEntry) : bytes :=
  let e := we_entry w in
  u32Le next ++ u32Le (dre_fileIndex e) ++ u64Le (dre_creationTime e)
  ++ u64Le (dre_lastAccessTime e) ++ u64Le (dre_lastWriteTime e)
  ++ u64Le (dre_changeTime e) ++ u64Le (dre_endOfFile e)
  ++ u64Le (dre_allocationSize e) ++ u32Le (dre_fileAttributes e)
  ++ u32Le (blen (we_name w)) ++ u32Le (dre_eaSizeOrReparseTag e)
  ++ we_short w ++ u64Le (dre_fileId e) ++ we_name w.

Definition WireEntry_ok (w : WireEntry) : Prop :=
  DirectoryEntry_ok (we_entry w) /\ blen (we_short w) = 28 /\
  decodeUtf16Le (we_name w) = Ok (dre_name (we_entry w)) /\
  dre_isDirectory (we_entry w)
    = has_flag (dre_fileAttributes (we_entry w)) kFileAttributeDirectory /\
  dre_isReparsePoint (we_entry w)
    = has_flag (dre_fileAttributes (we_entry w)) kFileAttributeReparsePoint.

(** A [FILE_NOTIFY_INFORMATION]. *)
Record WireNotify : Set := mkWireNotify {
  wn_entry : ChangeNotifyEntry;
  wn_name : bytes;
  wn_pad : bytes
}.

Definition encode_notify (next : Z) (w : WireNotify) : bytes :=
  u32Le next ++ u32Le (cne_action (wn_entry w)) ++ u32Le (blen (wn_name w))
  ++ wn_name w.

Definition WireNotify_ok (w : WireNotify) : Prop :=
  is_u32 (cne_action (wn_entry w)) /\
  decodeUtf16Le (wn_name w) = Ok (cne_name (wn_entry w)) /\
  (12 + blen (wn_name w) + blen (wn_pad w)) mod 4 = 0.

Lemma blen_encode_entry next w :
  blen (we_short w) = 28 -> blen (encode_entry next w) = 104 + blen (we_name w).
Proof. intros. unfold encode_entry. len. Qed.

Lemma blen_encode_notify next w :
  blen (encode_notify next w) = 12 + blen (wn_name w).
Proof. unfold encode_notify. len. Qed.

(** One turn of the loop on a well-formed entry. *)
Lemma directoryEntries_step pre w next rest fuel :
  let data := pre ++ encode_entry next w ++ rest in
  WireEntry_ok w -> blen data < 2 ^ 32 ->
  next = 0 \/ 104 + blen (we_name w) <= next <= blen (encode_entry next w ++ rest) ->
  directoryEntries data (blen data) (S fuel) (blen pre) =
  if next =? 0 then Ok [we_entry w]
  else l ← directoryEntries data (blen data) fuel (blen pre + next);
       Ok (we_entry w :: l).
Proof.
  intros data (He & Hs & Hn & Hd & Hr) Hsmall Hnext.
  pose proof (blen_encode_entry next w Hs) as Hlen.
  assert (blen data = blen pre + (104 + blen (we_name w)) + blen rest) as Hdata
    by (unfold data; rewrite !blen_app, Hlen; lia).
  rewrite blen_app, Hlen in Hnext.
  assert (is_u32 next /\ is_u32 (blen (we_name w))) as [Hnu Hwu]
    by (blens; ulia).
  cbn [directoryEntries]. rewrite Hdata.
  unfold data, encode_entry. rewrite <- !app_assoc.
  blens. 
  rewrite (proj2 (Z.ltb_lt (blen pre) _)) by lia. cbn [negb].
  rewrite (proj2 (Z.ltb_ge _ 104)) by lia.
  do 2 rd_step. smalls.
  replace ((_ <? _) || (_ <? _)) with false
    by (symmetry; rewrite orb_false_iff, !Z.ltb_ge; lia).
  replace (negb (next =? 0) && _) with false
    by (symmetry; destruct (Z.eqb_spec next 0); [done|];
        rewrite andb_true_l, orb_false_iff, !Z.ltb_ge; lia).
  erewrite read_range_at by first [lia | find_at]. cbn [mbind comp_bind].
  rewrite Hn. cbn [reraise mbind comp_bind]. unfold parseDirectoryEntry.
  repeat rd_step. unfold DirectoryEntry_ok in He. destruct_and!. smalls.
  rewrite <- Hd, <- Hr. destruct w as [[] ? ? ?]. done.
Qed.

Lemma notifyEntries_step pre w next rest fuel :
  let data := pre ++ encode_notify next w ++ rest in
  WireNotify_ok w -> blen data < 2 ^ 32 ->
  next = 0 \/ 12 + blen (wn_name w) <= next <= blen (encode_notify next w ++ rest)
              /\ next mod 4 = 0 ->
  notifyEntries data (blen data) (S fuel) (blen pre) =
  if next =? 0 then Ok [wn_entry w]
  else l ← notifyEntries data (blen data) fuel (blen pre + next);
       Ok (wn_entry w :: l).
Proof.
  intros data (He & Hn & _) Hsmall Hnext.
  pose proof (blen_encode_notify next w) as Hlen.
  assert (blen data = blen pre + (12 + blen (wn_name w)) + blen rest) as Hdata
    by (unfold data; rewrite !blen_app, Hlen; lia).
  rewrite blen_app, Hlen in Hnext.
  assert (is_u32 next /\ is_u32 (blen (wn_name w))) as [Hnu Hwu] by (blens; ulia).
  cbn [notifyEntries]. rewrite Hdata.
  unfold data, encode_notify. rewrite <- !app_assoc. blens.
  rewrite (proj2 (Z.ltb_lt (blen pre) _)) by lia. cbn [negb].
  rewrite (proj2 (Z.ltb_ge _ 12)) by lia.
  do 3 rd_step. smalls.
  replace ((_ <? _) || (_ <? _)) with false
    by (symmetry; rewrite orb_false_iff, !Z.ltb_ge; lia).
  match goal with |- context [negb (next =? 0) && ?b] =>
    assert (negb (next =? 0) && b = false) as -> end.
  { destruct (Z.eqb_spec next 0); [done|].
      destruct Hnext as [|[Hb Hm]]; [done|].
      rewrite andb_true_l, Hm, Z.eqb_refl. cbn [negb orb].
      rewrite orb_false_iff, !Z.ltb_ge. lia. }
  erewrite read_range_at by first [lia | find_at]. cbn [mbind comp_bind].
  rewrite Hn. cbn [reraise mbind comp_bind].
  destruct w as [[] ? ?]. done.
Qed.

(** The whole chain is walked, in order. *)
Lemma directoryEntries_chain l pre fuel :
  let data := pre ++ chain encode_entry we_pad l in
  Forall WireEntry_ok l -> l <> [] -> blen data < 2 ^ 32 ->
  (length l <= fuel)%nat ->
  directoryEntries data (blen data) fuel (blen pre) = Ok (we_entry <$> l).
Proof.
  revert pre fuel. induction l as [|w l IH]; intros pre fuel data Hl Hne Hs Hf;
    [done|].
  apply Forall_cons in Hl as [Hw Hl]. destruct fuel as [|fuel]; [simpl in Hf; lia|].
  destruct l as [|w2 l].
  - unfold data in *. cbn [chain] in *. rewrite <- (app_nil_r (encode_entry 0 w)) in *.
    rewrite directoryEntries_step by auto. done.
  - pose proof Hw as (_ & Hshort & _). unfold data in *. clear data.
    cbn [chain] in *. set (next := blen (encode_entry 0 w ++ we_pad w)) in *.
    fold (chain encode_entry we_pad (w2 :: l)) in *.
    assert (next = 104 + blen (we_name w) + blen (we_pad w)) as Hnext
      by (unfold next; rewrite blen_app, blen_encode_entry; done).
    blens. rewrite directoryEntries_step; [|done..|].
    2:{ right. rewrite !blen_app, blen_encode_entry by done. blens. lia. }
    rewrite (proj2 (Z.eqb_neq next 0)) by lia.
    rewrite !app_assoc in *. rewrite <- (app_assoc pre) in *.
    replace (blen pre + next) with (blen (pre ++ encode_entry next w ++ we_pad w))
      by (rewrite !blen_app, blen_encode_entry by done; lia).
    rewrite IH; [done|done|done|done|simpl in *; lia].
Qed.

Lemma notifyEntries_chain l pre fuel :
  let data := pre ++ chain encode_notify wn_pad l in
  Forall WireNotify_ok l -> l <> [] -> blen data < 2 ^ 32 ->
  (length l <= fuel)%nat ->
  notifyEntries data (blen data) fuel (blen pre) = Ok (wn_entry <$> l).
Proof.
  revert pre fuel. induction l as [|w l IH]; intros pre fuel data Hl Hne Hs Hf;
    [done|].
  apply Forall_cons in Hl as [Hw Hl]. destruct fuel as [|fuel]; [simpl in Hf; lia|].
  destruct l as [|w2 l].
  - unfold data in *. cbn [chain] in *. rewrite <- (app_nil_r (encode_notify 0 w)) in *.
    rewrite notifyEntries_step by auto. done.
  - pose proof Hw as (_ & _ & Hmod). unfold data in *. clear data.
    cbn [chain] in *. set (next := blen (encode_notify 0 w ++ wn_pad w)) in *.
    fold (chain encode_notify wn_pad (w2 :: l)) in *.
    assert (next = 12 + blen (wn_name w) + blen (wn_pad w)) as Hnext
      by (unfold next; rewrite blen_app, blen_encode_notify; done).
    blens. rewrite notifyEntries_step; [|done..|].
    2:{ right. rewrite !blen_app, blen_encode_notify. blens.
        split; [lia|by rewrite Hnext]. }
    rewrite (proj2 (Z.eqb_neq next 0)) by lia.
    rewrite !app_assoc in *. rewrite <- (app_assoc pre) in *.
    replace (blen pre + next) with (blen (pre ++ encode_notify next w ++ wn_pad w))
      by (rewrite !blen_app, blen_encode_notify; lia).
    rewrite IH; [done|done|done|done|simpl in *; lia].
Qed.

(** The length of a chain bounds the number of its entries. *)
Lemma length_chain {A} (encode : Z -> A -> bytes) pad l :
  (forall n e, encode n e <> []) -> (length l <= length (chain encode pad l))%nat.
Proof.
  intros He. induction l as [|e [|e2 l] IH]; [done| |].
  - specialize (He 0 e). cbn. destruct (encode 0 e); [done|simpl; lia].
  - cbn [chain]. fold (chain encode pad (e2 :: l)). rewrite !length_app.
    set (n := blen _). specialize (He n e).
    destruct (encode n e); [done|]. simpl in *. lia.
Qed.

(** A response whose output buffer, right after the fixed part, is [p]. *)
Definition listing (h : Smb2SyncHeader) (p : bytes) : bytes :=
  response h 9 (u16Le 72 ++ u32Le (blen p) ++ p).

Section listing_replies.
Context (h : Smb2SyncHeader) (p : bytes).

Lemma listing_prefix cmd status :
  is_reply cmd status h -> exists pre, listing h p = pre ++ p /\ blen pre = 72.
Proof.
  intros Hh. exists (encodeSmb2SyncHeader h ++ u16Le 9 ++ u16Le 72 ++ u32Le (blen p)).
  split; [unfold listing, response; by rewrite <- !app_assoc|].
  rewrite blen_app, (blen_reply _ _ _ Hh). done.
Qed.

Lemma listing_header cmd status article name accepted :
  is_reply cmd status h -> status_in status accepted = true ->
  decodeResponseHeader article name cmd accepted (listing h p) = Ok h.
Proof. intros. by eapply decodeResponseHeader_reply. Qed.

Lemma listing_body cmd status name :
  is_reply cmd status h -> checkResponseBody name 8 9 (listing h p) = Ok tt.
Proof.
  intros. eapply checkResponseBody_reply; [done|ulia|]. blens. len.
Qed.

Lemma listing_fields cmd status :
  is_reply cmd status h -> is_u32 (blen p) ->
  readU16Le (listing h p) (body 2) = Ok 72 /\
  readU32Le (listing h p) (body 4) = Ok (blen p) /\
  blen (listing h p) = 72 + blen p /\
  outside (blen (listing h p)) 72 (blen p) = false.
Proof.
  intros Hh Hp. pose proof (blen_reply _ _ _ Hh) as Hb.
  unfold listing, response, body, kSmb2HeaderSize. split_and!.
  - by rd_step.
  - rd_step. by smalls.
  - rewrite !blen_app, Hb. len.
  - apply outside_at; [find_at|done].
Qed.
End listing_replies.

(** Listings are complete and in order: the chain of entries a server
    builds for a directory, whatever the names, the paddings and the number of
    entries, is decoded to exactly those entries; the same holds for the
    records of a change notification. *)
Theorem listings_decode h :
  (forall l,
     is_reply Command_QueryDirectory kStatusSuccess h -> Forall WireEntry_ok l ->
     let p := chain encode_entry we_pad l in
     72 + blen p < 2 ^ 32 ->
     decodeQueryDirectoryResponse (listing h p)
     = Ok (mkQueryDirectoryResponse kStatusSuccess (we_entry <$> l))) /\
  (forall l,
     is_reply Command_ChangeNotify kStatusSuccess h -> Forall WireNotify_ok l ->
     let p := chain encode_notify wn_pad l in
     72 + blen p < 2 ^ 32 ->
     decodeChangeNotifyResponse (listing h p)
     = Ok (mkChangeNotifyResponse kStatusSuccess 72 (wn_entry <$> l))).
Proof.
  split; intros l Hh Hl p Hp; pose proof Hh as (_ & _ & Hs & _);
    destruct (listing_fields h p _ _ Hh) as (H1 & H2 & H3 & H4); [blens; ulia| |
    blens; ulia|]; destruct (listing_prefix h p _ _ Hh) as (pre & Hpre & H72).
  - assert (length l <= length p)%nat by by apply length_chain.
    unfold decodeQueryDirectoryResponse. erewrite listing_header by done.
    cbn [mbind comp_bind]. rewrite Hs.
    change (kStatusSuccess =? kStatusNoMoreFiles) with false. cbv iota.
    erewrite listing_body, H1, H2 by done. cbn [mbind comp_bind].
    rewrite H4, andb_false_r, <- H3, Hpre, <- H72. case_if; bools.
    + unfold p. rewrite directoryEntries_chain; try done.
      * by intros ->.
      * fold p. rewrite <- Hpre. by rewrite H3.
      * fold p. rewrite length_app. lia.
    + destruct l; [done|]. unfold blen in *. simpl in *. lia.
  - assert (length l <= length p)%nat by by apply length_chain.
    unfold decodeChangeNotifyResponse. erewrite listing_header by done.
    cbn [mbind comp_bind]. erewrite listing_body, H1, H2 by done.
    cbn [mbind comp_bind].
    rewrite H4, andb_false_r, <- H3, Hpre, Hs, <- H72. case_if; bools.
    + unfold p. rewrite notifyEntries_chain; try done.
      * by intros ->.
      * fold p. rewrite <- Hpre. by rewrite H3.
      * fold p. rewrite length_app. lia.
    + destruct l; [done|]. unfold blen in *. simpl in *. lia.
Qed.

Lemma listings_decode_witness :
  let w := mkWireNotify (mkChangeNotifyEntry 1 [0x41]) [0x41; 0] [0; 0] in
  decodeChangeNotifyResponse
    (listing (sample_reply Command_ChangeNotify 0)
       (chain encode_notify wn_pad [w; w]))
  = Ok (mkChangeNotifyResponse 0 72
          [mkChangeNotifyEntry 1 [0x41]; mkChangeNotifyEntry 1 [0x41]]).
Proof.
  intros w.
  apply (proj2 (listings_decode (sample_reply Command_ChangeNotify 0)) [w; w]).
  - split_and!; [|done..]. unfold Smb2SyncHeader_ok, command_ok.
    cbn. repeat split; try lia; exact (zeros_ok 16).
  - assert (WireNotify_ok w) by (repeat split; cbn; lia).
    by repeat constructor.
  - vm_compute. done.
Defined.
