(* ===== verification/InfoClasses.v ===== *)
(** * Information classes and IOCTL payloads ([Protocol.cpp])

    The buffers that travel inside SET_INFO, QUERY_INFO and IOCTL: file times
    and attributes, extended attributes, rename and link requests, symbolic
    link reparse points, and server-side copy. *)

From S2P Require Export Requests Responses.
Local Open Scope Z_scope.
Local Open Scope comp_scope.

(** ** Server-side copy *)

Definition encodeCopyChunk (chunk : CopyChunk) : bytes :=
  u64Le (cch_sourceOffset chunk) ++ u64Le (cch_targetOffset chunk)
  ++ u32Le (cch_length chunk) ++ u32Le 0.

Definition buildSrvCopyChunkRequest (resumeKey : bytes) (chunks : list CopyChunk)
    : comp bytes :=
  throw_if blen resumeKey <? 24
    with "SRV_COPYCHUNK requires a 24-byte resume key.";;
  throw_if kU32Max <? blen chunks with "Too many SRV_COPYCHUNK chunks.";;
  Ok (slice 0 24 resumeKey ++ u32Le (u32 (blen chunks)) ++ u32Le 0
      ++ concat (encodeCopyChunk <$> chunks)).

Definition decodeSrvCopyChunkResponse (data : bytes) : comp CopyChunkResponse :=
  fail_if blen data <? 12 with ErrorCode_IoError,
    "SRV_COPYCHUNK response buffer is shorter than fixed response.";;
  chunksWritten ← readU32Le data 0;
  chunkBytesWritten ← readU32Le data 4;
  totalBytesWritten ← readU32Le data 8;
  Ok (mkCopyChunkResponse chunksWritten chunkBytesWritten totalBytesWritten).

(** ** Symbolic links *)

Definition buildSymbolicLinkReparseBuffer (substituteName printName : bytes)
    (relative : bool) : comp bytes :=
  throw_if blen substituteName =? 0
    with "SMB2 symlink substitute name is empty.";;
  let printName := if blen printName =? 0 then substituteName else printName in
  substitute ← encodeUtf16Le substituteName;
  print ← encodeUtf16Le printName;
  throw_if (kU16Max <? blen substitute) || (kU16Max <? blen print)
           || (kU16Max <? blen substitute + blen print + 12)
    with "SMB2 symlink reparse buffer is too large.";;
  Ok (u32Le kIoReparseTagSymlink
      ++ u16Le (u16 (12 + blen substitute + blen print))
      ++ u16Le 0
      ++ u16Le 0
      ++ u16Le (u16 (blen substitute))
      ++ u16Le (u16 (blen substitute))
      ++ u16Le (u16 (blen print))
      ++ u32Le (if relative then kSymlinkFlagRelative else 0)
      ++ substitute
      ++ print).

(** ** Times and attributes *)

Definition buildFileBasicInformation (info : FileBasicInformation) : bytes :=
  u64Le (fbi_creationTime info) ++ u64Le (fbi_lastAccessTime info)
  ++ u64Le (fbi_lastWriteTime info) ++ u64Le (fbi_changeTime info)
  ++ u32Le (fbi_fileAttributes info) ++ u32Le 0.

Definition decodeFileBasicInformation (data : bytes)
    : comp FileBasicInformation :=
  fail_if blen data <? 40 with ErrorCode_IoError,
    "FILE_BASIC_INFORMATION buffer is shorter than 40 bytes.";;
  creationTime ← readU64Le data 0;
  lastAccessTime ← readU64Le data 8;
  lastWriteTime ← readU64Le data 16;
  changeTime ← readU64Le data 24;
  fileAttributes ← readU32Le data 32;
  Ok (mkFileBasicInformation creationTime lastAccessTime lastWriteTime
        changeTime fileAttributes).

Definition decodeFileStandardInformation (data : bytes)
    : comp FileStandardInformation :=
  fail_if blen data <? 24 with ErrorCode_IoError,
    "FILE_STANDARD_INFORMATION buffer is shorter than 24 bytes.";;
  allocationSize ← readU64Le data 0;
  endOfFile ← readU64Le data 8;
  numberOfLinks ← readU32Le data 16;
  deletePending ← read_u8 data 20;
  directory ← read_u8 data 21;
  Ok (mkFileStandardInformation allocationSize endOfFile numberOfLinks
        (negb (deletePending =? 0)) (negb (directory =? 0))).

(** ** Extended attributes *)

Definition alignEntrySize (size : Z) : Z := Z.land (size + 3) (Z.lnot 3).

(** One turn of the loop of [buildFileFullEaInformation]; [last] is
    [index + 1 == entries.size()]. *)
Definition encodeEa (entry : FileFullEaInformation) (last : bool) : comp bytes :=
  throw_if blen (fea_name entry) =? 0 with "SMB2 EA name is empty.";;
  throw_if 255 <? blen (fea_name entry) with "SMB2 EA name is too large.";;
  throw_if kU16Max <? blen (fea_value entry) with "SMB2 EA value is too large.";;
  let fixedAndPayloadSize :=
    8 + blen (fea_name entry) + 1 + blen (fea_value entry) in
  let alignedEntrySize :=
    if last then fixedAndPayloadSize else alignEntrySize fixedAndPayloadSize in
  Ok (u32Le (if last then 0 else u32 alignedEntrySize)
      ++ [if fea_needEa entry then kFileNeedEa else 0]
      ++ [u8 (blen (fea_name entry))]
      ++ u16Le (u16 (blen (fea_value entry)))
      ++ fea_name entry ++ [0] ++ fea_value entry
      ++ zeros (Z.to_nat (alignedEntrySize - fixedAndPayloadSize))).

Fixpoint buildFileFullEaInformation (entries : list FileFullEaInformation)
    : comp bytes :=
  match entries with
  | [] => Ok []
  | entry :: rest =>
      encoded ← encodeEa entry (match rest with [] => true | _ => false end);
      others ← buildFileFullEaInformation rest;
      Ok (encoded ++ others)
  end.

(** The loop of [decodeFileFullEaInformation] from [offset] on; [fuel] as in
    [directoryEntries]. *)
Fixpoint decodeEaEntries (data : bytes) (fuel : nat) (offset : Z)
    : comp (list FileFullEaInformation) :=
  match fuel with
  | O => OutOfBounds
  | S fuel =>
      if negb (offset <? blen data) then Ok [] else
      fail_if blen data - offset <? 8 with ErrorCode_IoError,
        "FILE_FULL_EA_INFORMATION entry is shorter than fixed header.";;
      nextEntryOffset ← readU32Le data offset;
      flags ← read_u8 data (offset + 4);
      nameLength ← read_u8 data (offset + 5);
      valueLength ← readU16Le data (offset + 6);
      let nameOffset := offset + 8 in
      let valueOffset := nameOffset + nameLength + 1 in
      let entryEnd := valueOffset + valueLength in
      fail_if blen data <? entryEnd with ErrorCode_IoError,
        "FILE_FULL_EA_INFORMATION entry payload is out of bounds.";;
      terminator ← read_u8 data (nameOffset + nameLength);
      fail_if negb (terminator =? 0) with ErrorCode_ProtocolUnsupported,
        "FILE_FULL_EA_INFORMATION entry name is not NUL-terminated.";;
      name ← read_range data nameOffset (nameOffset + nameLength);
      value ← read_range data valueOffset entryEnd;
      let entry := mkFileFullEaInformation name value
                     (has_flag flags kFileNeedEa) in
      if nextEntryOffset =? 0 then Ok [entry]
      else
        fail_if (nextEntryOffset <? 8) || (offset + nextEntryOffset <=? offset)
                || (blen data <? offset + nextEntryOffset)
          with ErrorCode_IoError,
          "FILE_FULL_EA_INFORMATION next entry offset is invalid.";;
        rest ← decodeEaEntries data fuel (offset + nextEntryOffset);
        Ok (entry :: rest)
  end.

Definition decodeFileFullEaInformation (data : bytes)
    : comp (list FileFullEaInformation) :=
  decodeEaEntries data (S (length data)) 0.

(** ** Deletion, renaming, links *)

Definition buildFileDispositionInformation (deletePending : bool) : bytes :=
  [u8 (if deletePending then 1 else 0)].

(** The buffer [buildFileRenameInformation] and [buildFileLinkInformation]
    share; they differ in the messages of their exceptions. *)
Definition targetPathInformation (empty large : string) (newPath : bytes)
    (replaceIfExists : bool) : comp bytes :=
  name ← encodeUtf16Le newPath;
  throw_if blen name =? 0 with empty;;
  throw_if kU32Max <? blen name with large;;
  let bs := [u8 (if replaceIfExists then 1 else 0)] ++ zeros 7 ++ u64Le 0
            ++ u32Le (u32 (blen name)) ++ name in
  Ok (bs ++ zeros (Z.to_nat (24 - blen bs))).

Definition buildFileRenameInformation : bytes -> bool -> comp bytes :=
  targetPathInformation "SMB2 rename target path is empty."
    "SMB2 rename target path is too large.".

Definition buildFileLinkInformation : bytes -> bool -> comp bytes :=
  targetPathInformation "SMB2 hardlink target path is empty."
    "SMB2 hardlink target path is too large.".

(** ** Extended attributes: lemmas *)

Lemma alignEntrySize_spec n :
  n <= alignEntrySize n < n + 4 /\ alignEntrySize n mod 4 = 0.
Proof. apply align4_spec. Qed.

(** The bytes of an entry that announces [next] and is padded by [padding]. *)
Definition ea_bytes (next : Z) (e : FileFullEaInformation) (padding : nat) : bytes :=
  u32Le next ++ [if fea_needEa e then kFileNeedEa else 0]
  ++ [blen (fea_name e)] ++ u16Le (blen (fea_value e))
  ++ fea_name e ++ [0] ++ fea_value e ++ zeros padding.

Lemma blen_ea_bytes next e padding :
  blen (ea_bytes next e padding) =
  9 + blen (fea_name e) + blen (fea_value e) + Z.of_nat padding.
Proof. unfold ea_bytes. len. Qed.

Lemma encodeEa_bytes e last enc :
  encodeEa e last = Ok enc ->
  blen (fea_name e) <= 255 /\ blen (fea_value e) <= 65535 /\
  exists padding,
    enc = ea_bytes (if last then 0 else blen enc) e padding /\ (padding < 4)%nat.
Proof.
  intros H. unfold encodeEa in H. inv_comp. bools. unfold kU16Max in *.
  split_and!; [done..|]. blens.
  set (n := 8 + blen (fea_name e) + 1 + blen (fea_value e)).
  pose proof (alignEntrySize_spec n) as [Ha _].
  exists (Z.to_nat ((if last then n else alignEntrySize n) - n)).
  split; [|destruct last; lia].
  assert (is_u32 (alignEntrySize n)) by (unfold n in *; ulia).
  unfold ea_bytes. smalls. do 2 f_equal. destruct last; [done|].
  rewrite u32_small by done.
  change (alignEntrySize n = blen (ea_bytes (alignEntrySize n) e
    (Z.to_nat (alignEntrySize n - n)))).
  rewrite blen_ea_bytes. unfold n in *. lia.
Qed.

Lemma decodeEa_step pre next e padding rest fuel :
  let data := pre ++ ea_bytes next e padding ++ rest in
  let size := blen (ea_bytes next e padding) in
  blen (fea_name e) <= 255 -> blen (fea_value e) <= 65535 ->
  next = 0 \/ next = size -> is_u32 size ->
  decodeEaEntries data (S fuel) (blen pre) =
  if next =? 0 then Ok [e]
  else l ← decodeEaEntries data fuel (blen pre + next); Ok (e :: l).
Proof.
  intros data size Hn Hv Hnext Hsize.
  pose proof (blen_ea_bytes next e padding) as Hlen. fold size in Hlen.
  assert (blen data = blen pre + size + blen rest) as Hdata
    by (unfold data, size; rewrite !blen_app; lia).
  blens. assert (is_u32 next) by ulia.
  cbn [decodeEaEntries]. rewrite Hdata.
  rewrite (proj2 (Z.ltb_lt (blen pre) _)) by lia. cbn [negb].
  rewrite (proj2 (Z.ltb_ge _ 8)) by lia.
  unfold data, ea_bytes. rewrite <- !app_assoc.
  do 4 rd_step. smalls. rewrite (proj2 (Z.ltb_ge _ _)) by lia.
  rd_step. cbn [negb Z.eqb].
  erewrite read_range_at by first [lia | find_at]. cbn [mbind comp_bind].
  erewrite read_range_at by first [lia | find_at]. cbn [mbind comp_bind].
  assert (mkFileFullEaInformation (fea_name e) (fea_value e)
    (has_flag (if fea_needEa e then kFileNeedEa else 0) kFileNeedEa) = e) as ->
    by (by destruct e as [? ? []]).
  destruct (Z.eqb_spec next 0); [done|].
  replace (_ || _ || _) with false; [done|].
  symmetry. rewrite !orb_false_iff, !Z.ltb_ge, Z.leb_gt. lia.
Qed.

Lemma decodeEaEntries_build entries bs pre fuel :
  buildFileFullEaInformation entries = Ok bs -> (length entries < fuel)%nat ->
  decodeEaEntries (pre ++ bs) fuel (blen pre) = Ok entries.
Proof.
  revert bs pre fuel. induction entries as [|e rest IH]; intros bs pre fuel H Hf;
    (destruct fuel as [|fuel]; [simpl in Hf; lia|]); cbn in H.
  - inv_comp. rewrite app_nil_r. cbn [decodeEaEntries].
    by rewrite (proj2 (Z.ltb_ge _ _)) by lia.
  - inv_comp. rename x into enc, x0 into others.
    destruct (encodeEa_bytes _ _ _ H0) as (Hn & Hv & padding & Henc & Hpad).
    assert (forall next, blen (ea_bytes next e padding) = blen enc) as Hsz
      by (intros; by rewrite Henc, !blen_ea_bytes).
    assert (is_u32 (blen enc) /\ 0 < blen enc) as [Hu Hpos].
    { rewrite <- (Hsz 0), blen_ea_bytes. blens. ulia. }
    rewrite Henc at 1. rewrite decodeEa_step; [|done|done|..].
    + destruct rest as [|e2 rest]; [done|].
      rewrite (proj2 (Z.eqb_neq _ _)) by lia. rewrite <- Henc.
      rewrite app_assoc, <- blen_app.
      rewrite IH; [done|done|simpl in *; lia].
    + rewrite Hsz. destruct rest; auto.
    + by rewrite Hsz.
Qed.

Lemma length_buildEa entries bs :
  buildFileFullEaInformation entries = Ok bs -> (length entries <= length bs)%nat.
Proof.
  revert bs. induction entries as [|e rest IH]; intros bs H; [simpl; lia|].
  cbn in H. inv_comp.
  destruct (encodeEa_bytes _ _ _ H0) as (_ & _ & padding & Henc & _).
  apply (f_equal (@blen Z)) in Henc. rewrite blen_ea_bytes in Henc. blens.
  apply IH in H1. rewrite length_app. simpl. unfold blen in *. lia.
Qed.

(** ** Memory safety *)

Lemma wp_decodeEaEntries data fuel offset :
  bytes_ok data -> 0 <= offset <= blen data -> blen data - offset < Z.of_nat fuel ->
  wp (decodeEaEntries data fuel offset) (Forall FileFullEaInformation_ok).
Proof.
  intros Hok. revert offset. induction fuel as [|fuel IH]; intros o Ho Hf; [lia|].
  cbn [decodeEaEntries]. wp_steps; bools; [constructor|].
  do 4 (wp_read; wp_steps). bools. do 3 (wp_read; wp_steps); bools.
  - by apply Forall_singleton.
  -
    eapply wp_mono; [apply IH; ulia|]. intros l Hl. wp_steps. by constructor.
Qed.

(** The reading side of these buffers never leaves them. *)
Lemma wp_decodeFileFullEaInformation data :
  bytes_ok data ->
  wp (decodeFileFullEaInformation data) (Forall FileFullEaInformation_ok).
Proof.
  intros Hok. apply wp_decodeEaEntries; [done|blens; lia|]. unfold blen. lia.
Qed.

Lemma wp_decodeFileBasicInformation data :
  bytes_ok data -> wp (decodeFileBasicInformation data) FileBasicInformation_ok.
Proof.
  intros Hok. unfold decodeFileBasicInformation. wp_reads; try exact I.
  by unfold FileBasicInformation_ok.
Qed.

Lemma wp_decodeFileStandardInformation data :
  bytes_ok data -> wp (decodeFileStandardInformation data) FileStandardInformation_ok.
Proof.
  intros Hok. unfold decodeFileStandardInformation. wp_reads; try exact I.
  by unfold FileStandardInformation_ok.
Qed.

(** The builders that may throw do nothing worse. *)
Lemma wpt_targetPathInformation empty large path replace :
  wpt (targetPathInformation empty large path replace) (fun _ => True).
Proof.
  unfold targetPathInformation. wpt_step.
  eapply wpt_mono; [apply wpt_encodeUtf16Le|]. intros name _. by wpt_steps.
Qed.

Lemma wpt_buildSymbolicLinkReparseBuffer substitute print relative :
  wpt (buildSymbolicLinkReparseBuffer substitute print relative) (fun _ => True).
Proof.
  unfold buildSymbolicLinkReparseBuffer. wpt_step; [exact I|].
  do 2 (wpt_step; eapply wpt_mono; [apply wpt_encodeUtf16Le|]; intros ? _).
  by wpt_steps.
Qed.

Lemma wpt_buildFileFullEaInformation entries :
  wpt (buildFileFullEaInformation entries) (fun _ => True).
Proof.
  induction entries as [|entry rest IH]; [exact I|]. cbn [buildFileFullEaInformation].
  wpt_step. unfold encodeEa. do 3 (wpt_step; [exact I|]). wpt_step. wpt_step.
  eapply wpt_mono; [exact IH|done].
Qed.

(** Extended attributes survive the wire: whatever list of attributes
    [buildFileFullEaInformation] accepts, decoding the buffer gives the same
    list back, names, values and NEED_EA flags, in order; and decoding any
    other bytes terminates inside the buffer. *)
Theorem extended_attributes_round_trip :
  (forall entries bs,
     buildFileFullEaInformation entries = Ok bs ->
     decodeFileFullEaInformation bs = Ok entries) /\
  (forall data,
     bytes_ok data ->
     wp (decodeFileFullEaInformation data) (Forall FileFullEaInformation_ok)).
Proof.
  split; [|apply wp_decodeFileFullEaInformation].
  intros entries bs H. apply (decodeEaEntries_build entries bs []); [done|].
  pose proof (length_buildEa _ _ H). lia.
Qed.

Lemma extended_attributes_round_trip_witness :
  let eas := [mkFileFullEaInformation [0x41] [1; 2] true;
              mkFileFullEaInformation [0x42; 0x43] [] false] in
  exists bs, buildFileFullEaInformation eas = Ok bs /\
             decodeFileFullEaInformation bs = Ok eas.
Proof.
  intros eas. eexists. split; [reflexivity|].
  apply (proj1 extended_attributes_round_trip eas). reflexivity.
Defined.

(** ** Layouts *)

Lemma decodeFileBasicInformation_build info rest :
  FileBasicInformation_ok info ->
  decodeFileBasicInformation (buildFileBasicInformation info ++ rest) = Ok info.
Proof.
  intros Hi. unfold FileBasicInformation_ok in Hi. destruct_and!.
  unfold decodeFileBasicInformation, buildFileBasicInformation.
  rewrite (proj2 (Z.ltb_ge _ _)) by (len; blens; lia).
  rewrite <- !app_assoc. repeat rd_step. smalls. by destruct info.
Qed.

Lemma concat_chunks_at pre chunks rest i c :
  chunks !! i = Some c ->
  at_off (pre ++ concat (encodeCopyChunk <$> chunks) ++ rest)
    (blen pre + 24 * Z.of_nat i) (encodeCopyChunk c).
Proof.
  revert pre i. induction chunks as [|c' chunks IH]; intros pre i Hi; [done|].
  rewrite fmap_cons. cbn [concat]. destruct i as [|i]; cbn in Hi; simplify_eq.
  - rewrite <- app_assoc. replace (_ + _) with (blen pre) by lia.
    exists pre, (concat (encodeCopyChunk <$> chunks) ++ rest). done.
  - rewrite <- app_assoc, app_assoc. specialize (IH (pre ++ encodeCopyChunk c') i Hi).
    rewrite blen_app in IH. change (blen (encodeCopyChunk c')) with 24 in IH.
    replace (blen pre + 24 * Z.of_nat (S i)) with (blen pre + 24 + 24 * Z.of_nat i)
      by lia. done.
Qed.

(** The fields of a byte string that stands inside another one. *)
Lemma at_off_sub data off bs pre sub post :
  at_off data off bs -> bs = pre ++ sub ++ post ->
  at_off data (off + blen pre) sub.
Proof.
  intros (p & q & -> & ->) ->. exists (p ++ pre), (post ++ q).
  rewrite <- !app_assoc, blen_app. done.
Qed.

(** A server-side copy request says what it copies: the resume key comes
    first, then the number of chunks, and chunk [i] of the list is read back
    at byte [32 + 24 * i] with its source offset, target offset and length;
    the builder throws exactly when the key is short or the count does not
    fit. *)
Theorem copy_chunk_request_layout key chunks msg i c :
  buildSrvCopyChunkRequest key chunks = Ok msg ->
  Forall CopyChunk_ok chunks -> chunks !! i = Some c ->
  slice 0 24 msg = slice 0 24 key /\
  readU32Le msg 24 = Ok (blen chunks) /\
  blen msg = 32 + 24 * blen chunks /\
  let o := 32 + 24 * Z.of_nat i in
  readU64Le msg o = Ok (cch_sourceOffset c) /\
  readU64Le msg (o + 8) = Ok (cch_targetOffset c) /\
  readU32Le msg (o + 16) = Ok (cch_length c).
Proof.
  intros H Hok Hi. unfold buildSrvCopyChunkRequest in H. inv_comp. bools.
  unfold kU32Max in *. blens.
  assert (blen (slice 0 24 key) = 24) as Hk by (apply blen_slice; lia).
  set (k := slice 0 24 key) in *. rewrite u32_small by ulia.
  rewrite Forall_lookup in Hok. destruct (Hok _ _ Hi) as (Hs & Ht & Hl).
  assert (blen (concat (encodeCopyChunk <$> chunks)) = 24 * blen chunks) as Hc.
  { clear. induction chunks; [done|]. rewrite fmap_cons. cbn [concat].
    rewrite blen_app, IHchunks, blen_cons. change (blen (encodeCopyChunk a)) with 24.
    lia. }
  assert (at_off (k ++ u32Le (blen chunks) ++ u32Le 0
    ++ concat (encodeCopyChunk <$> chunks)) (32 + 24 * Z.of_nat i)
    (encodeCopyChunk c)) as Hat.
  { pose proof (concat_chunks_at (k ++ u32Le (blen chunks) ++ u32Le 0) chunks [] i c Hi)
      as Hat. rewrite app_nil_r, <- !app_assoc, !blen_app, Hk in Hat. exact Hat. }
  split_and!.
  - apply at_off_slice; [apply at_off_here|lia].
  - rd_step. by smalls.
  - rewrite !blen_app, Hk, Hc. len.
  - rewrite <- (u64_small (cch_sourceOffset c)) by done. apply readU64Le_at.
    rewrite <- (Z.add_0_r (32 + _)). by eapply (at_off_sub _ _ _ []).
  - rewrite <- (u64_small (cch_targetOffset c)) by done. apply readU64Le_at.
    by eapply (at_off_sub _ _ _ (u64Le (cch_sourceOffset c))).
  - rewrite <- (u32_small (cch_length c)) by done. apply readU32Le_at.
    by eapply (at_off_sub _ _ _ (u64Le (cch_sourceOffset c) ++ u64Le (cch_targetOffset c))).
Qed.

Lemma copy_chunk_request_layout_witness :
  exists msg,
    buildSrvCopyChunkRequest (zeros 24) [mkCopyChunk 0 0 5; mkCopyChunk 5 9 7]
      = Ok msg /\ readU64Le msg 64 = Ok 9.
Proof.
  eexists. split; [vm_compute; reflexivity|].
  match goal with |- readU64Le ?m _ = _ =>
    destruct (copy_chunk_request_layout (zeros 24)
      [mkCopyChunk 0 0 5; mkCopyChunk 5 9 7] m 1 (mkCopyChunk 5 9 7))
      as (_ & _ & _ & _ & H & _)
  end; [vm_compute; reflexivity| |reflexivity|exact H].
  repeat constructor; cbn; lia.
Defined.

Lemma targetPathInformation_layout empty large path replace msg :
  targetPathInformation empty large path replace = Ok msg ->
  exists name,
    encodeUtf16Le path = Ok name /\ name <> [] /\
    read_u8 msg 0 = Ok (if replace then 1 else 0) /\
    readU32Le msg 16 = Ok (blen name) /\ at_off msg 20 name /\ 24 <= blen msg.
Proof.
  unfold targetPathInformation. intros H. inv_comp. bools. unfold kU32Max in *.
  exists x. rewrite <- !app_assoc. blens. split_and!.
  - done.
  - by intros ->.
  - rd_step. by destruct replace.
  - rd_step. by smalls.
  - find_at.
  - len.
Qed.

(** The buffers that name a path hold the whole path: in a symbolic link
    the two name fields describe the substitute and the print name (the
    substitute again when no print name is given) and the data length covers
    them; a rename or link request carries the UTF-16 target behind its exact
    length and is at least 24 bytes long. *)
Theorem path_buffers_layout sub print relative path replace msg :
  (buildSymbolicLinkReparseBuffer sub print relative = Ok msg ->
   exists s p,
     encodeUtf16Le sub = Ok s /\
     encodeUtf16Le (if blen print =? 0 then sub else print) = Ok p /\
     readU16Le msg 4 = Ok (blen msg - 8) /\
     readU16Le msg 8 = Ok 0 /\ readU16Le msg 10 = Ok (blen s) /\
     readU16Le msg 12 = Ok (blen s) /\ readU16Le msg 14 = Ok (blen p) /\
     readU32Le msg 16 = Ok (if relative then kSymlinkFlagRelative else 0) /\
     at_off msg 20 s /\ at_off msg (20 + blen s) p) /\
  (buildFileRenameInformation path replace = Ok msg \/
   buildFileLinkInformation path replace = Ok msg ->
   exists name,
     encodeUtf16Le path = Ok name /\ name <> [] /\
     read_u8 msg 0 = Ok (if replace then 1 else 0) /\
     readU32Le msg 16 = Ok (blen name) /\ at_off msg 20 name /\ 24 <= blen msg).
Proof.
  split.
  - unfold buildSymbolicLinkReparseBuffer. intros H. inv_comp.
    rewrite !orb_false_iff in *. destruct_and?. bools. unfold kU16Max in *.
    exists x, x0. blens. split_and!; [done..| | | | | | | |].
    all: try by (rd_step; smalls).
    + rd_step. smalls. f_equal. len.
    + rd_step. by destruct relative.
    + find_at.
    + find_at.
  - intros [H|H]; by eapply targetPathInformation_layout.
Qed.

Lemma path_buffers_layout_witness :
  exists msg,
    buildFileRenameInformation [0x61] true = Ok msg /\ at_off msg 20 [0x61; 0].
Proof.
  eexists. split; [reflexivity|].
  match goal with |- at_off ?m _ _ =>
    destruct (proj2 (path_buffers_layout [] [] true [0x61] true m))
      as (name & Hn & _ & _ & _ & Hat & _); [left; reflexivity|]
  end.
  vm_compute in Hn. apply Ok_inj in Hn. subst name. exact Hat.
Defined.
