(* ===== verification/DirectTcp.v ===== *)
(** * Direct TCP framing ([Protocol.cpp])

    Every message travels behind a 4-byte header: a zero byte and the size of
    the message on 24 bits, big-endian. *)

From S2P Require Export Header.
Local Open Scope Z_scope.
Local Open Scope comp_scope.

Definition encodeDirectTcpFrame (smb2Message : bytes) : comp bytes :=
  throw_if kMaxDirectTcpPayloadLength <? blen smb2Message
    with "SMB2 Direct TCP payload is too large.";;
  let length := u32 (blen smb2Message) in
  Ok ([0]
      ++ [u8 (Z.land (Z.shiftr length 16) 0xFF)]
      ++ [u8 (Z.land (Z.shiftr length 8) 0xFF)]
      ++ [u8 (Z.land length 0xFF)]
      ++ smb2Message).

(** A [ByteVector] of at least 4 bytes has a non-null [data()], so the null
    test adds nothing to the size test. *)
Definition decodeDirectTcpPayloadLength (data : bytes) : comp Z :=
  fail_if blen data <? kDirectTcpHeaderSize with ErrorCode_IoError,
    "SMB2 Direct TCP header buffer is shorter than 4 bytes.";;
  marker ← read_u8 data 0;
  fail_if negb (marker =? 0) with ErrorCode_ProtocolUnsupported,
    "Invalid SMB2 Direct TCP header marker.";;
  b1 ← read_u8 data 1;
  b2 ← read_u8 data 2;
  b3 ← read_u8 data 3;
  Ok (Z.lor (Z.lor (u32 (Z.shiftl b1 16)) (u32 (Z.shiftl b2 8))) b3).

Definition decodeDirectTcpPayload (data : bytes) : comp bytes :=
  payloadLength ← reraise (decodeDirectTcpPayloadLength data);
  fail_if blen data <? kDirectTcpHeaderSize + payloadLength
    with ErrorCode_IoError,
    "SMB2 Direct TCP frame is shorter than declared payload.";;
  read_range data kDirectTcpHeaderSize (kDirectTcpHeaderSize + payloadLength).

(** The header of the message in a frame, if both can be decoded. *)
Definition frameHeader (frame : bytes) : option Smb2SyncHeader :=
  match decodeDirectTcpPayload frame with
  | Ok payload =>
      match decodeSmb2SyncHeader payload with Ok h => Some h | _ => None end
  | _ => None
  end.

(** ** Lemmas *)

Lemma length_bytes_value n :
  0 <= n <= kMaxDirectTcpPayloadLength ->
  Z.lor (Z.lor (u32 (Z.shiftl (u8 (Z.land (Z.shiftr n 16) 0xFF)) 16))
               (u32 (Z.shiftl (u8 (Z.land (Z.shiftr n 8) 0xFF)) 8)))
        (u8 (Z.land n 0xFF)) = n.
Proof.
  intros Hn. unfold kMaxDirectTcpPayloadLength in Hn.
  rewrite !land_255, !(u8_small (_ mod _)) by apply is_u8_mod.
  rewrite !Z.shiftr_div_pow2 by lia.
  set (a := _ mod 2 ^ 8). set (b := (n / 2 ^ 8) mod 2 ^ 8).
  set (c := n mod 2 ^ 8).
  assert (is_u8 a /\ is_u8 b /\ is_u8 c) as (Ha & Hb & Hc)
    by (split_and!; apply is_u8_mod).
  rewrite (Z.lor_comm (Z.lor _ _)), (Z.lor_comm (u32 (Z.shiftl a 16))), Z.lor_assoc.
  rewrite (lor_u32_byte c b 8), (lor_u32_byte _ a 16) by ulia.
  unfold a, b, c. rewrite (Z.mod_small (n / 2 ^ 16)).
  - pose proof (Z.div_mod n (2 ^ 8)). pose proof (Z.div_mod (n / 2 ^ 8) (2 ^ 8)).
    rewrite Z.div_div in * by lia. change (2 ^ 8 * 2 ^ 8) with (2 ^ 16) in *. lia.
  - split; [apply Z.div_pos; lia|apply Z.div_lt_upper_bound; lia].
Qed.

Lemma decode_frame msg frame rest :
  encodeDirectTcpFrame msg = Ok frame ->
  decodeDirectTcpPayloadLength (frame ++ rest) = Ok (blen msg) /\
  decodeDirectTcpPayload (frame ++ rest) = Ok msg /\
  blen frame = 4 + blen msg.
Proof.
  intros H. unfold encodeDirectTcpFrame in H. inv_comp. bools.
  unfold kMaxDirectTcpPayloadLength in *.
  rewrite u32_small by (blens; ulia).
  assert (decodeDirectTcpPayloadLength
    (([0] ++ [u8 (Z.land (Z.shiftr (blen msg) 16) 0xFF)]
      ++ [u8 (Z.land (Z.shiftr (blen msg) 8) 0xFF)]
      ++ [u8 (Z.land (blen msg) 0xFF)] ++ msg) ++ rest) = Ok (blen msg)) as Hl.
  { unfold decodeDirectTcpPayloadLength, kDirectTcpHeaderSize.
    rewrite (proj2 (Z.ltb_ge _ _)) by (len; blens; lia).
    rewrite <- !app_assoc. do 4 rd_step. cbn [negb Z.eqb]. repeat rd_step.
    by rewrite length_bytes_value by 
      (unfold kMaxDirectTcpPayloadLength; blens; lia). }
  split_and!; [exact Hl| |by len].
  unfold decodeDirectTcpPayload, kDirectTcpHeaderSize. rewrite Hl.
  cbn [reraise mbind comp_bind].
  rewrite (proj2 (Z.ltb_ge _ _)) by (len; blens; lia).
  rewrite <- !app_assoc. apply read_range_at; [find_at|done].
Qed.

Lemma wp_decodeDirectTcpPayloadLength data :
  bytes_ok data ->
  wp (decodeDirectTcpPayloadLength data)
     (fun n => 0 <= n <= kMaxDirectTcpPayloadLength).
Proof.
  intros Hok. unfold decodeDirectTcpPayloadLength, kDirectTcpHeaderSize,
    kMaxDirectTcpPayloadLength. wp_reads; try exact I.
  rewrite (Z.lor_comm (Z.lor _ _)), (Z.lor_comm (u32 (Z.shiftl v0 16))), Z.lor_assoc.
  rewrite (lor_u32_byte v2 v1 8), (lor_u32_byte _ v0 16) by ulia. ulia.
Qed.

Lemma wp_decodeDirectTcpPayload data :
  bytes_ok data ->
  wp (decodeDirectTcpPayload data)
     (fun p => bytes_ok p /\ blen p <= kMaxDirectTcpPayloadLength).
Proof.
  intros Hok. unfold decodeDirectTcpPayload, kDirectTcpHeaderSize. wp_steps.
  eapply wp_mono; [by apply wp_decodeDirectTcpPayloadLength|]. intros n Hn.
  cbv beta in Hn. wp_reads. split; [done|lia].
Qed.

Lemma decoded_payload_ok frame payload :
  bytes_ok frame -> decodeDirectTcpPayload frame = Ok payload ->
  bytes_ok payload /\ blen payload <= kMaxDirectTcpPayloadLength.
Proof.
  intros Hf H. pose proof (wp_decodeDirectTcpPayload frame Hf) as Hw.
  by rewrite H in Hw.
Qed.

Lemma encode_frame_total msg :
  blen msg <= kMaxDirectTcpPayloadLength ->
  exists frame, encodeDirectTcpFrame msg = Ok frame.
Proof.
  intros H. unfold encodeDirectTcpFrame. rewrite (proj2 (Z.ltb_ge _ _)) by done.
  eauto.
Qed.

(** Framing is transparent and total up to its limit: exactly the messages
    of at most 0xFFFFFF bytes can be framed (a larger one throws); the receiver
    reads their size from the header and recovers them whatever follows in the
    stream. *)
Theorem direct_tcp_round_trip msg rest :
  if kMaxDirectTcpPayloadLength <? blen msg
  then exists m, encodeDirectTcpFrame msg = Throw m
  else exists frame, encodeDirectTcpFrame msg = Ok frame /\
         blen frame = 4 + blen msg /\
         decodeDirectTcpPayloadLength (frame ++ rest) = Ok (blen msg) /\
         decodeDirectTcpPayload (frame ++ rest) = Ok msg.
Proof.
  destruct (kMaxDirectTcpPayloadLength <? blen msg) eqn:Hm.
  - unfold encodeDirectTcpFrame. rewrite Hm. eauto.
  - assert (exists frame, encodeDirectTcpFrame msg = Ok frame) as [frame Hf]
      by (unfold encodeDirectTcpFrame; rewrite Hm; eauto).
    exists frame. destruct (decode_frame msg frame rest Hf) as (? & ? & ?). done.
Qed.
