(* ===== verification/Hash.v ===== *)
(** * SHA-256 and HMAC-SHA-256 ([Smb2Signing.cpp])

    The digest behind SMB 2 signing and the SMB 3 key derivation, with the
    32-bit words kept at their width. *)

From S2P Require Export Header.
Local Open Scope Z_scope.

Definition kSha256BlockSize : Z := 64.

Definition rotr (value shift : Z) : Z :=
  Z.lor (Z.shiftr value shift) (u32 (Z.shiftl value (32 - shift))).

(** ** Padding *)

(** [while ((bytes.size() % 64) != 56) bytes.push_back(0);], at most 63 turns. *)
Fixpoint padTo56 (fuel : nat) (bs : bytes) : bytes :=
  match fuel with
  | O => bs
  | S fuel =>
      if blen bs mod kSha256BlockSize =? 56 then bs else padTo56 fuel (bs ++ [0])
  end.

Definition paddedSha256Message (data : bytes) : bytes :=
  let bitLength := u64 (blen data * 8) in
  padTo56 64 (data ++ [0x80]) ++ u64Be bitLength.

(** ** The compression function *)

Definition sha256_k : list Z := concat
  [[0x428a2f98; 0x71374491; 0xb5c0fbcf; 0xe9b5dba5];
   [0x3956c25b; 0x59f111f1; 0x923f82a4; 0xab1c5ed5];
   [0xd807aa98; 0x12835b01; 0x243185be; 0x550c7dc3];
   [0x72be5d74; 0x80deb1fe; 0x9bdc06a7; 0xc19bf174];
   [0xe49b69c1; 0xefbe4786; 0x0fc19dc6; 0x240ca1cc];
   [0x2de92c6f; 0x4a7484aa; 0x5cb0a9dc; 0x76f988da];
   [0x983e5152; 0xa831c66d; 0xb00327c8; 0xbf597fc7];
   [0xc6e00bf3; 0xd5a79147; 0x06ca6351; 0x14292967];
   [0x27b70a85; 0x2e1b2138; 0x4d2c6dfc; 0x53380d13];
   [0x650a7354; 0x766a0abb; 0x81c2c92e; 0x92722c85];
   [0xa2bfe8a1; 0xa81a664b; 0xc24b8b70; 0xc76c51a3];
   [0xd192e819; 0xd6990624; 0xf40e3585; 0x106aa070];
   [0x19a4c116; 0x1e376c08; 0x2748774c; 0x34b0bcb5];
   [0x391c0cb3; 0x4ed8aa4a; 0x5b9cca4f; 0x682e6ff3];
   [0x748f82ee; 0x78a5636f; 0x84c87814; 0x8cc70208];
   [0x90befffa; 0xa4506ceb; 0xbef9a3f7; 0xc67178f2]].

(** The chaining value [h0 .. h7], and the working variables [a .. h]. *)
Record Sha256State : Set := mkSha256State {
  sha_a : Z; sha_b : Z; sha_c : Z; sha_d : Z;
  sha_e : Z; sha_f : Z; sha_g : Z; sha_h : Z
}.

Definition sha256_init : Sha256State :=
  mkSha256State 0x6a09e667 0xbb67ae85 0x3c6ef372 0xa54ff53a
    0x510e527f 0x9b05688c 0x1f83d9ab 0x5be0cd19.

(** [readU32Be] on four bytes. *)
Definition word_be (b0 b1 b2 b3 : Z) : Z :=
  Z.lor (Z.lor (Z.lor (u32 (Z.shiftl b0 24)) (u32 (Z.shiftl b1 16)))
               (u32 (Z.shiftl b2 8))) b3.

(** [w[0] .. w[15]]: the words of a 64-byte block. *)
Fixpoint block_words (block : bytes) : list Z :=
  match block with
  | b0 :: b1 :: b2 :: b3 :: rest => word_be b0 b1 b2 b3 :: block_words rest
  | _ => []
  end.

Definition small_sigma0 (x : Z) : Z :=
  Z.lxor (Z.lxor (rotr x 7) (rotr x 18)) (Z.shiftr x 3).
Definition small_sigma1 (x : Z) : Z :=
  Z.lxor (Z.lxor (rotr x 17) (rotr x 19)) (Z.shiftr x 10).

(** One turn of the schedule loop; [ws] holds [w[i-1], w[i-2], ..., w[0]]. *)
Definition schedule_step (ws : list Z) : list Z :=
  u32 (nth 15 ws 0 + small_sigma0 (nth 14 ws 0) + nth 6 ws 0
       + small_sigma1 (nth 1 ws 0)) :: ws.

(** [w[0] .. w[63]]. *)
Definition schedule (block : bytes) : list Z :=
  rev (Nat.iter 48 schedule_step (rev (block_words block))).

(** One of the 64 rounds, on [k[i]] and [w[i]]. *)
Definition sha256_round (st : Sha256State) (kw : Z * Z) : Sha256State :=
  let '(ki, wi) := kw in
  let '(mkSha256State a b c d e f g h) := st in
  let s1 := Z.lxor (Z.lxor (rotr e 6) (rotr e 11)) (rotr e 25) in
  let ch := Z.lxor (Z.land e f) (Z.land (u32 (Z.lnot e)) g) in
  let temp1 := u32 (h + s1 + ch + ki + wi) in
  let s0 := Z.lxor (Z.lxor (rotr a 2) (rotr a 13)) (rotr a 22) in
  let maj := Z.lxor (Z.lxor (Z.land a b) (Z.land a c)) (Z.land b c) in
  let temp2 := u32 (s0 + maj) in
  mkSha256State (u32 (temp1 + temp2)) a b c (u32 (d + temp1)) e f g.

Definition sha256_block (h : Sha256State) (block : bytes) : Sha256State :=
  let r := foldl sha256_round h (zip sha256_k (schedule block)) in
  mkSha256State
    (u32 (sha_a h + sha_a r)) (u32 (sha_b h + sha_b r))
    (u32 (sha_c h + sha_c r)) (u32 (sha_d h + sha_d r))
    (u32 (sha_e h + sha_e r)) (u32 (sha_f h + sha_f r))
    (u32 (sha_g h + sha_g r)) (u32 (sha_h h + sha_h r)).

(** [for (offset = 0; offset < bytes.size(); offset += 64)], on the bytes from
    [offset] on. *)
Fixpoint sha256_blocks (fuel : nat) (h : Sha256State) (bs : bytes) : Sha256State :=
  match fuel, bs with
  | S fuel, _ :: _ => sha256_blocks fuel (sha256_block h (take 64 bs)) (drop 64 bs)
  | _, _ => h
  end.

(** [writeU32Be(digest, 4 * i, h_i)] for [i] from 0 to 7. *)
Definition sha256_digest (h : Sha256State) : bytes :=
  u32Be (sha_a h) ++ u32Be (sha_b h) ++ u32Be (sha_c h) ++ u32Be (sha_d h)
  ++ u32Be (sha_e h) ++ u32Be (sha_f h) ++ u32Be (sha_g h) ++ u32Be (sha_h h).

Definition sha256 (data : bytes) : bytes :=
  let bs := paddedSha256Message data in
  sha256_digest (sha256_blocks (length bs) sha256_init bs).

(** ** HMAC *)

Definition xor_with (mask : Z) (bs : bytes) : bytes := (fun b => Z.lxor b mask) <$> bs.

(** The key, hashed when it is longer than a block and filled up with zeros. *)
Definition normalizedKey (key : bytes) : bytes :=
  let k := if kSha256BlockSize <? blen key then sha256 key else key in
  resize 64 0 k.

Definition hmacSha256 (key data : bytes) : bytes :=
  let k := normalizedKey key in
  let inner := sha256 (xor_with 0x36 k ++ data) in
  sha256 (xor_with 0x5C k ++ inner).

(** ** Test vectors of the repository's tests *)

Lemma sha256_abc :
  sha256 [0x61; 0x62; 0x63] =
  [0xba; 0x78; 0x16; 0xbf; 0x8f; 0x01; 0xcf; 0xea; 0x41; 0x41; 0x40; 0xde; 0x5d;
   0xae; 0x22; 0x23; 0xb0; 0x03; 0x61; 0xa3; 0x96; 0x17; 0x7a; 0x9c; 0xb4; 0x10;
   0xff; 0x61; 0xf2; 0x00; 0x15; 0xad].
Proof. vm_compute. reflexivity. Qed.

(** ** Lemmas: padding *)

Lemma padTo56_zeros fuel bs n :
  (n < fuel)%nat -> (blen bs + Z.of_nat n) mod 64 = 56 ->
  (forall m, (m < n)%nat -> (blen bs + Z.of_nat m) mod 64 <> 56) ->
  padTo56 fuel bs = bs ++ zeros n.
Proof.
  revert bs n. induction fuel as [|fuel IH]; intros bs n Hn Hm Hlt; [lia|].
  cbn [padTo56]. unfold kSha256BlockSize. destruct n as [|n].
  - rewrite Z.add_0_r in Hm. by rewrite Hm, app_nil_r.
  - rewrite (proj2 (Z.eqb_neq _ _)).
    2:{ specialize (Hlt 0%nat). rewrite Z.add_0_r in Hlt. apply Hlt. lia. }
    rewrite (IH _ n); [by rewrite <- app_assoc|lia|..].
    + rewrite blen_app. change (blen [0]) with 1.
      rewrite <- Hm. f_equal. lia.
    + intros m Hmn. rewrite blen_app. change (blen [0]) with 1.
      specialize (Hlt (S m)). rewrite Nat2Z.inj_succ in Hlt.
      replace (blen bs + 1 + Z.of_nat m) with (blen bs + Z.succ (Z.of_nat m)) by lia.
      apply Hlt. lia.
Qed.

Lemma padTo56_done bs :
  padTo56 64 bs = bs ++ zeros (Z.to_nat ((56 - blen bs) mod 64)).
Proof.
  pose proof (Z.mod_pos_bound (56 - blen bs) 64) as Hb.
  apply padTo56_zeros; [lia|..].
  - rewrite Z2Nat.id, Z.add_mod_idemp_r by lia. by rewrite Z.add_comm, Z.sub_add.
  - intros m Hm He. assert (Z.of_nat m < (56 - blen bs) mod 64) as Hlt by lia.
    assert ((56 - blen bs) mod 64 = Z.of_nat m); [|lia].
    symmetry. apply Z.mod_unique with (((56 - blen bs) - Z.of_nat m) / 64); [lia|].
    pose proof (Z.div_mod (blen bs + Z.of_nat m) 64). 
    assert ((56 - blen bs - Z.of_nat m) mod 64 = 0) as Hz.
    { rewrite <- Z.sub_add_distr, Zminus_mod, He. done. }
    pose proof (Z.div_mod (56 - blen bs - Z.of_nat m) 64). lia.
Qed.

Lemma paddedSha256Message_eq data :
  paddedSha256Message data =
  data ++ [0x80] ++ zeros (Z.to_nat ((55 - blen data) mod 64))
    ++ u64Be (u64 (blen data * 8)).
Proof.
  unfold paddedSha256Message. rewrite padTo56_done, blen_app.
  change (blen [0x80]) with 1. rewrite <- !app_assoc.
  by replace (56 - (blen data + 1)) with (55 - blen data) by lia.
Qed.

Lemma blen_paddedSha256Message data : blen (paddedSha256Message data) mod 64 = 0.
Proof.
  rewrite paddedSha256Message_eq, !blen_app. unfold zeros.
  pose proof (Z.mod_pos_bound (55 - blen data) 64).
  rewrite blen_replicate, Z2Nat.id by lia.
  change (blen [_]) with 1. change (blen (u64Be _)) with 8.
  replace (_ + _) with ((55 - blen data) mod 64 + (blen data + 9)) by lia.
  rewrite Z.add_mod_idemp_l by lia.
  by replace (_ + _) with (1 * 64) by lia.
Qed.

Lemma u64Be_inj a b : u64Be a = u64Be b -> u64 a = u64 b.
Proof.
  intros H. assert (u64Le a = u64Le b) as Hle.
  { change (u64Le a) with (rev (u64Be a)). change (u64Le b) with (rev (u64Be b)).
    by rewrite H. }
  rewrite !u64Le_split in Hle. apply (f_equal le_value) in Hle.
  by rewrite !le_split_value in Hle.
Qed.

Lemma paddedSha256Message_inj d1 d2 :
  blen d1 < 2 ^ 61 -> blen d2 < 2 ^ 61 ->
  paddedSha256Message d1 = paddedSha256Message d2 -> d1 = d2.
Proof.
  intros H1 H2 H. rewrite !paddedSha256Message_eq, !app_assoc in H.
  apply app_inj_2 in H as [H He]; [|done]. apply u64Be_inj in He.
  blens. rewrite !u64_small in He
    by first [apply u64_range | ulia]. rewrite <- !app_assoc in H.
  apply app_inj_1 in H as [H _]; [done|]. unfold blen in *. nia.
Qed.

(** ** Lemmas: words *)

(** [rotr] rotates: bit [i] of the result is bit [i + shift] modulo 32. *)
Lemma rotr_testbit v s i :
  is_u32 v -> 0 < s < 32 -> 0 <= i < 32 ->
  Z.testbit (rotr v s) i = Z.testbit v ((i + s) mod 32).
Proof.
  intros Hv Hs Hi. unfold rotr, u32.
  rewrite Z.lor_spec, Z.shiftr_spec, Z.mod_pow2_bits_low, Z.shiftl_spec by lia.
  destruct (decide (i + s < 32)).
  - rewrite (Z.mod_small (i + s)) by lia.
    rewrite (Z.testbit_neg_r v (i - _)) by lia. apply orb_false_r.
  - replace ((i + s) mod 32) with (i - (32 - s))
      by (apply Z.mod_unique with 1; lia).
    rewrite <- (Z.mod_small v (2 ^ 32)) at 1 by done.
    rewrite Z.mod_pow2_bits_high by lia. done.
Qed.

Lemma length_block_words n block :
  length block = (4 * n)%nat -> length (block_words block) = n.
Proof.
  revert block. induction n as [|n IH]; intros block H.
  - by destruct block.
  - do 4 (destruct block as [|? block]; [simpl in H; lia|]).
    cbn [block_words length]. rewrite IH; [done|simpl in H; lia].
Qed.

(** [ws n]: the schedule after [n] turns, latest word first. *)
Definition ws (block : bytes) (n : nat) : list Z :=
  Nat.iter n schedule_step (rev (block_words block)).

Lemma ws_S block n : ws block (S n) = schedule_step (ws block n).
Proof. done. Qed.

Lemma length_ws block n :
  length block = 64%nat -> length (ws block n) = (16 + n)%nat.
Proof.
  intros H. induction n as [|n IH].
  - change (length (rev (block_words block)) = 16%nat).
    rewrite length_rev. by apply length_block_words.
  - rewrite ws_S. unfold schedule_step. cbn [length]. lia.
Qed.

Lemma ws_prefix block n m :
  (n <= m)%nat -> exists tl, rev (ws block m) = rev (ws block n) ++ tl.
Proof.
  induction 1 as [|m _ [tl IH]]; [exists []; by rewrite app_nil_r|].
  rewrite ws_S. unfold schedule_step at 1. cbn [rev]. rewrite IH, <- app_assoc. eauto.
Qed.

(** The word [k + 1] places before the end of an unfinished schedule. *)
Lemma nth_ws block n k :
  length block = 64%nat -> (k < 16)%nat -> (n <= 48)%nat ->
  nth k (ws block n) 0 = nth (15 + n - k) (schedule block) 0.
Proof.
  intros Hb Hk Hn. unfold schedule. fold (ws block 48).
  destruct (ws_prefix block n 48) as [tl ->]; [lia|].
  pose proof (length_ws block n Hb) as Hl.
  rewrite (app_nth1 (rev (ws block n))) by (rewrite length_rev; lia).
  rewrite rev_nth by lia. f_equal. lia.
Qed.

Lemma schedule_length block : length block = 64%nat -> length (schedule block) = 64%nat.
Proof.
  intros H. unfold schedule. fold (ws block 48).
  by rewrite length_rev, length_ws.
Qed.

Lemma schedule_head block i :
  length block = 64%nat -> (i < 16)%nat ->
  nth i (schedule block) 0 = nth i (block_words block) 0.
Proof.
  intros H Hi. pose proof (nth_ws block 0 (15 - i) H) as Hw.
  replace (15 + 0 - (15 - i))%nat with i in Hw by lia.
  rewrite <- Hw by lia. change (ws block 0) with (rev (block_words block)).
  pose proof (length_block_words 16 block H). rewrite rev_nth by lia. f_equal. lia.
Qed.

Lemma schedule_step_eq block n :
  length block = 64%nat -> (n < 48)%nat ->
  nth (16 + n) (schedule block) 0 =
  u32 (nth n (schedule block) 0 + small_sigma0 (nth (n + 1) (schedule block) 0)
       + nth (n + 9) (schedule block) 0
       + small_sigma1 (nth (n + 14) (schedule block) 0)).
Proof.
  intros H Hn. pose proof (nth_ws block (S n) 0 H) as Hw.
  replace (15 + S n - 0)%nat with (16 + n)%nat in Hw by lia.
  rewrite <- Hw by lia. rewrite ws_S. unfold schedule_step. cbn [nth].
  rewrite !nth_ws by (done || lia).
  replace (15 + n - 15)%nat with n by lia.
  replace (15 + n - 14)%nat with (n + 1)%nat by lia.
  replace (15 + n - 6)%nat with (n + 9)%nat by lia.
  replace (15 + n - 1)%nat with (n + 14)%nat by lia. done.
Qed.

Lemma nth_block_words block i :
  (4 * i + 4 <= length block)%nat ->
  nth i (block_words block) 0 =
  word_be (nth (4 * i) block 0) (nth (4 * i + 1) block 0)
          (nth (4 * i + 2) block 0) (nth (4 * i + 3) block 0).
Proof.
  revert block. induction i as [|i IH]; intros block H;
    (do 4 (destruct block as [|? block]; [simpl in H; lia|])); [done|].
  cbn [block_words nth]. rewrite IH by (simpl in H; lia).
  replace (4 * S i)%nat with (S (S (S (S (4 * i))))) by lia. done.
Qed.

Lemma word_be_value b0 b1 b2 b3 :
  is_u8 b0 -> is_u8 b1 -> is_u8 b2 -> is_u8 b3 ->
  word_be b0 b1 b2 b3 = 2 ^ 24 * b0 + 2 ^ 16 * b1 + 2 ^ 8 * b2 + b3.
Proof.
  intros. unfold word_be.
  rewrite (Z.lor_comm _ b3), (Z.lor_comm (Z.lor _ _) (u32 (Z.shiftl b2 8))),
    (Z.lor_comm (u32 (Z.shiftl b0 24))), !Z.lor_assoc.
  rewrite (lor_u32_byte b3 b2 8), (lor_u32_byte _ b1 16), (lor_u32_byte _ b0 24)
    by ulia. lia.
Qed.

(** [rotr] and the shifts keep a word a word. *)
Lemma digest_ok h : bytes_ok (sha256_digest h) /\ blen (sha256_digest h) = 32.
Proof. split; [unfold sha256_digest; auto 10 with smb|done]. Qed.

Lemma sha256_ok data : bytes_ok (sha256 data) /\ blen (sha256 data) = 32.
Proof. apply digest_ok. Qed.

Lemma hmacSha256_ok key data :
  bytes_ok (hmacSha256 key data) /\ blen (hmacSha256 key data) = 32.
Proof. apply sha256_ok. Qed.

Lemma normalizedKey_length key : length (normalizedKey key) = 64%nat.
Proof. apply length_resize. Qed.

(** The padding of SHA-256 is the standard one and loses nothing: the
    message, a 1 bit, the least number of zeros, and the bit length on 64
    bits make a whole number of 64-byte blocks, and below 2^61 bytes two
    messages with the same padded form are equal. *)
Theorem sha256_padding data :
  paddedSha256Message data =
    data ++ [0x80] ++ zeros (Z.to_nat ((55 - blen data) mod 64))
      ++ u64Be (u64 (blen data * 8)) /\
  blen (paddedSha256Message data) mod kSha256BlockSize = 0 /\
  (forall data', blen data < 2 ^ 61 -> blen data' < 2 ^ 61 ->
     paddedSha256Message data = paddedSha256Message data' -> data = data').
Proof.
  split; [apply paddedSha256Message_eq|]. split; [apply blen_paddedSha256Message|].
  apply paddedSha256Message_inj.
Qed.

(** The message schedule is the one of FIPS 180-4: 64 words, the first 16
    the big-endian words of the block, every later one given by the
    recurrence [w[t] = s1(w[t-2]) + w[t-7] + s0(w[t-15]) + w[t-16]] modulo
    2^32, where the rotations move bit [i + n] modulo 32 to bit [i]. *)
Theorem sha256_schedule block :
  length block = 64%nat -> bytes_ok block ->
  let w t := nth t (schedule block) 0 in
  let byte t := nth t block 0 in
  length (schedule block) = 64%nat /\
  (forall t, (t < 16)%nat ->
     w t = 2 ^ 24 * byte (4 * t)%nat + 2 ^ 16 * byte (4 * t + 1)%nat
           + 2 ^ 8 * byte (4 * t + 2)%nat + byte (4 * t + 3)%nat) /\
  (forall t, (16 <= t < 64)%nat ->
     w t = (small_sigma1 (w (t - 2)%nat) + w (t - 7)%nat
            + small_sigma0 (w (t - 15)%nat) + w (t - 16)%nat) mod 2 ^ 32) /\
  (forall v n i, is_u32 v -> 0 < n < 32 -> 0 <= i < 32 ->
     Z.testbit (rotr v n) i = Z.testbit v ((i + n) mod 32)).
Proof.
  intros Hl Hok w byte. split_and!.
  - by apply schedule_length.
  - intros t Ht. unfold w. rewrite schedule_head, nth_block_words by (done || lia).
    apply word_be_value; apply Forall_nth; auto; lia.
  - intros t Ht. unfold w. pose proof (schedule_step_eq block (t - 16) Hl) as H.
    replace (16 + (t - 16))%nat with t in H by lia.
    rewrite H by lia. unfold u32. f_equal.
    replace (t - 16 + 1)%nat with (t - 15)%nat by lia.
    replace (t - 16 + 9)%nat with (t - 7)%nat by lia.
    replace (t - 16 + 14)%nat with (t - 2)%nat by lia. lia.
  - apply rotr_testbit.
Qed.

Lemma sha256_schedule_witness :
  length (schedule (zeros 64)) = 64%nat.
Proof.
  apply (sha256_schedule (zeros 64)); [reflexivity|apply zeros_ok].
Defined.
