(* ===== verification/Aes.v ===== *)
(** * AES-128 and AES-CMAC ([Smb2Signing.cpp])

    The block cipher on a state of 16 bytes, its key expansion, and the message
    authentication code SMB 3 signs with. *)

From S2P Require Export Header.
From Stdlib Require Import Btauto.
Local Open Scope Z_scope.
Local Open Scope comp_scope.

(** ** The field GF(2^8) *)

Definition xtime (value : Z) : Z :=
  u8 (Z.lxor (Z.shiftl value 1)
             (if negb (Z.land value 0x80 =? 0) then 0x1B else 0)).

(** [while (right != 0)]: [right] is a byte, so 8 turns are enough. *)
Fixpoint gfMultiply_loop (fuel : nat) (left right result : Z) : Z :=
  match fuel with
  | O => result
  | S fuel =>
      if right =? 0 then result
      else
        let result := if negb (Z.land right 1 =? 0) then Z.lxor result left
                      else result in
        gfMultiply_loop fuel (xtime left) (Z.shiftr right 1) result
  end.

Definition gfMultiply (left right : Z) : Z := gfMultiply_loop 8 left right 0.

Fixpoint gfPow_loop (fuel : nat) (value power result : Z) : Z :=
  match fuel with
  | O => result
  | S fuel =>
      if power =? 0 then result
      else
        let result := if negb (Z.land power 1 =? 0) then gfMultiply result value
                      else result in
        gfPow_loop fuel (gfMultiply value value) (Z.shiftr power 1) result
  end.

Definition gfPow (value power : Z) : Z := gfPow_loop 8 value power 1.

(** [for (shift = 1; shift <= 4; ++shift)] is unrolled as a fold. *)
Definition aesSbox (value : Z) : Z :=
  let inverse := if value =? 0 then 0 else gfPow value 254 in
  let result :=
    foldl (fun result shift =>
      Z.lxor result (u8 (Z.lor (Z.shiftl inverse shift)
                               (Z.shiftr inverse (8 - shift)))))
      inverse [1; 2; 3; 4] in
  u8 (Z.lxor result 0x63).

(** ** The rounds, on a state of 16 bytes *)

Definition xorBytes (left right : bytes) : bytes := zip_with Z.lxor left right.

Definition addRoundKey (state roundKey : bytes) : bytes := xorBytes state roundKey.

Definition subBytes (state : bytes) : bytes := aesSbox <$> state.

(** [state[i]], for an index inside the array. *)
Definition at_ (state : bytes) (i : nat) : Z := nth i state 0.

Definition shiftRows (original : bytes) : bytes :=
  at_ original <$>
    [0; 5; 10; 15; 4; 9; 14; 3; 8; 13; 2; 7; 12; 1; 6; 11]%nat.

Definition mixColumn (a0 a1 a2 a3 : Z) : bytes :=
  [u8 (Z.lxor (Z.lxor (Z.lxor (gfMultiply a0 2) (gfMultiply a1 3)) a2) a3);
   u8 (Z.lxor (Z.lxor (Z.lxor a0 (gfMultiply a1 2)) (gfMultiply a2 3)) a3);
   u8 (Z.lxor (Z.lxor (Z.lxor a0 a1) (gfMultiply a2 2)) (gfMultiply a3 3));
   u8 (Z.lxor (Z.lxor (Z.lxor (gfMultiply a0 3) a1) a2) (gfMultiply a3 2))].

(** [for (column = 0; column < 4; ++column)]: columns are 4 bytes each. *)
Fixpoint mixColumns (state : bytes) : bytes :=
  match state with
  | a0 :: a1 :: a2 :: a3 :: rest => mixColumn a0 a1 a2 a3 ++ mixColumns rest
  | _ => []
  end.

(** ** The key expansion *)

(** One turn of the loop: [expanded] holds the [bytesGenerated] bytes so far;
    the turn appends 4 and yields the next round constant. *)
Definition expand_step (acc : bytes * Z) : bytes * Z :=
  let '(expanded, rcon) := acc in
  let bytesGenerated := length expanded in
  let temp := fun i => at_ expanded (bytesGenerated - 4 + i) in
  let '(t0, t1, t2, t3, rcon') :=
    if decide (bytesGenerated mod 16 = 0)%nat
    then (Z.lxor (aesSbox (temp 1%nat)) rcon, aesSbox (temp 2%nat),
          aesSbox (temp 3%nat), aesSbox (temp 0%nat), xtime rcon)
    else (temp 0%nat, temp 1%nat, temp 2%nat, temp 3%nat, rcon) in
  let word := xorBytes
    ((fun i => at_ expanded (bytesGenerated - 16 + i)) <$> [0; 1; 2; 3]%nat)
    [t0; t1; t2; t3] in
  (expanded ++ word, rcon').

(** [while (bytesGenerated < 176)], from 16 bytes in steps of 4: 40 turns. *)
Definition expandAes128Key (key : bytes) : bytes :=
  fst (Nat.iter 40 expand_step (key, 1)).

Definition roundKey (expandedKey : bytes) (round : nat) : bytes :=
  take 16 (drop (16 * round) expandedKey).

Definition aes_round (expandedKey : bytes) (state : bytes) (round : nat) : bytes :=
  addRoundKey (mixColumns (shiftRows (subBytes state)))
    (roundKey expandedKey round).

Definition aes128EncryptBlock (key plaintext : bytes) : bytes :=
  let expandedKey := expandAes128Key key in
  let state := addRoundKey plaintext (roundKey expandedKey 0) in
  let state := foldl (aes_round expandedKey) state (seq 1 9) in
  addRoundKey (shiftRows (subBytes state)) (roundKey expandedKey 10).

(** ** AES-CMAC *)

Definition kAesBlockSize : Z := 16.

Definition xorBlocks (left right : bytes) : bytes := xorBytes left right.

(** From the last byte to the first, with the carry of the byte after it. *)
Definition leftShiftOneBit (input : bytes) : bytes :=
  fst (foldr (fun byte acc =>
         let '(result, carry) := acc in
         (u8 (Z.lor (Z.shiftl byte 1) carry) :: result,
          if negb (Z.land byte 0x80 =? 0) then 1 else 0))
       ([], 0) input).

Definition cmacSubkeyDouble (input : bytes) : bytes :=
  let result := leftShiftOneBit input in
  if negb (Z.land (at_ input 0) 0x80 =? 0)
  then alter (fun b => Z.lxor b 0x87) 15%nat result else result.

Definition blockFromBytes (data : bytes) (offset : Z) : comp bytes :=
  read_range data offset (offset + 16).

(** The bytes from [offset] on, a 0x80 and zeros up to 16 bytes. *)
Definition paddedFinalBlock (data : bytes) (offset : Z) : comp bytes :=
  remaining ← read_range data offset (blen data);
  if blen remaining <? 16
  then Ok (resize 16 0 (remaining ++ [0x80])) else OutOfBounds.

(** [for (block = 0; block + 1 < blockCount; ++block)], from [block] on. *)
Fixpoint cmac_loop (key data : bytes) (turns : nat) (block : Z) (state : bytes)
    : comp bytes :=
  match turns with
  | O => Ok state
  | S turns =>
      b ← blockFromBytes data (block * 16);
      cmac_loop key data turns (block + 1)
        (aes128EncryptBlock key (xorBlocks state b))
  end.

Definition aes128Cmac (key data : bytes) : comp bytes :=
  fail_if negb (blen key =? kAesBlockSize)
    with ErrorCode_UnsupportedCapability,
    "AES-128-CMAC requires a 16-byte signing key.";;
  let l := aes128EncryptBlock key (zeros 16) in
  let k1 := cmacSubkeyDouble l in
  let k2 := cmacSubkeyDouble k1 in
  let completeFinalBlock :=
    negb (blen data =? 0) && (blen data mod kAesBlockSize =? 0) in
  let blockCount :=
    if completeFinalBlock then blen data / kAesBlockSize
    else blen data / kAesBlockSize + 1 in
  finalBlock ←
    (if completeFinalBlock
     then blockFromBytes data ((blockCount - 1) * kAesBlockSize)
     else paddedFinalBlock data ((blockCount - 1) * kAesBlockSize));
  let finalBlock := xorBlocks finalBlock (if completeFinalBlock then k1 else k2) in
  state ← cmac_loop key data (Z.to_nat (blockCount - 1)) 0 (zeros 16);
  Ok (aes128EncryptBlock key (xorBlocks state finalBlock)).

(** ** The field: lemmas *)

Lemma u8_lxor a b : u8 (Z.lxor a b) = Z.lxor (u8 a) (u8 b).
Proof.
  unfold u8. apply Z.bits_inj'. intros i Hi. rewrite Z.lxor_spec.
  destruct (decide (i < 8)).
  - by rewrite !Z.mod_pow2_bits_low, Z.lxor_spec by lia.
  - by rewrite !Z.mod_pow2_bits_high by lia.
Qed.

Lemma xtime_eq v :
  xtime v = u8 (Z.lxor (Z.shiftl v 1) (if Z.testbit v 7 then 0x1B else 0)).
Proof.
  unfold xtime. change 0x80 with (2 ^ 7). rewrite land_bit by lia.
  by rewrite negb_involutive.
Qed.

(** Equations between xors of the same atoms. *)
Ltac xor_ring :=
  apply Z.bits_inj'; let i := fresh "i" in intros i _;
  rewrite ?Z.lxor_spec, ?Z.bits_0;
  repeat match goal with
  | |- context [Z.testbit ?a i] => generalize (Z.testbit a i); intros
  end; btauto.

Lemma xtime_lxor a b : xtime (Z.lxor a b) = Z.lxor (xtime a) (xtime b).
Proof.
  rewrite !xtime_eq, Z.lxor_spec, Z.shiftl_lxor, !u8_lxor.
  destruct (Z.testbit a 7), (Z.testbit b 7); cbn [xorb];
    change (u8 0) with 0; xor_ring.
Qed.

Lemma xtime_u8 v : is_u8 (xtime v).
Proof. apply u8_range. Qed.
#[export] Hint Resolve xtime_u8 : smb.

(** Multiplication by the constants of the cipher and of its inverse. *)
Lemma gfMultiply_2 a : gfMultiply a 2 = xtime a.
Proof. reflexivity. Qed.
Lemma gfMultiply_3 a : gfMultiply a 3 = Z.lxor a (xtime a).
Proof. reflexivity. Qed.
Lemma gfMultiply_9 a :
  gfMultiply a 9 = Z.lxor a (xtime (xtime (xtime a))).
Proof. reflexivity. Qed.
Lemma gfMultiply_11 a :
  gfMultiply a 11 = Z.lxor (Z.lxor a (xtime a)) (xtime (xtime (xtime a))).
Proof. reflexivity. Qed.
Lemma gfMultiply_13 a :
  gfMultiply a 13 = Z.lxor (Z.lxor a (xtime (xtime a))) (xtime (xtime (xtime a))).
Proof. reflexivity. Qed.
Lemma gfMultiply_14 a :
  gfMultiply a 14 =
  Z.lxor (Z.lxor (xtime a) (xtime (xtime a))) (xtime (xtime (xtime a))).
Proof. destruct a; reflexivity. Qed.

(** ** Specification: the inverse cipher *)

(** The inverse affine map, then the inverse in the field. *)
Definition inverseSbox (value : Z) : Z :=
  let rotated n := u8 (Z.lor (Z.shiftl value n) (Z.shiftr value (8 - n))) in
  gfPow (Z.lxor (Z.lxor (Z.lxor (rotated 1) (rotated 3)) (rotated 6)) 0x05) 254.

Definition inverseSubBytes (state : bytes) : bytes := inverseSbox <$> state.

Definition inverseShiftRows (original : bytes) : bytes :=
  at_ original <$>
    [0; 13; 10; 7; 4; 1; 14; 11; 8; 5; 2; 15; 12; 9; 6; 3]%nat.

Definition inverseMixColumn (a0 a1 a2 a3 : Z) : bytes :=
  let row c0 c1 c2 c3 :=
    Z.lxor (Z.lxor (Z.lxor (gfMultiply a0 c0) (gfMultiply a1 c1))
                   (gfMultiply a2 c2)) (gfMultiply a3 c3) in
  [row 14 11 13 9; row 9 14 11 13; row 13 9 14 11; row 11 13 9 14].

Fixpoint inverseMixColumns (state : bytes) : bytes :=
  match state with
  | a0 :: a1 :: a2 :: a3 :: rest =>
      inverseMixColumn a0 a1 a2 a3 ++ inverseMixColumns rest
  | _ => []
  end.

Definition inverse_round (expandedKey : bytes) (state : bytes) (round : nat)
    : bytes :=
  inverseSubBytes (inverseShiftRows (inverseMixColumns
    (addRoundKey state (roundKey expandedKey round)))).

Definition aes128DecryptBlock (key ciphertext : bytes) : bytes :=
  let expandedKey := expandAes128Key key in
  let state := inverseSubBytes (inverseShiftRows
    (addRoundKey ciphertext (roundKey expandedKey 10))) in
  let state := foldl (inverse_round expandedKey) state (rev (seq 1 9)) in
  addRoundKey state (roundKey expandedKey 0).

(** ** The rounds are undone *)

(** A block: 16 bytes. *)
Definition is_block (bs : bytes) : Prop := bytes_ok bs /\ length bs = 16%nat.

Lemma xorBytes_cancel a b :
  length a = length b -> xorBytes (xorBytes a b) b = a.
Proof.
  revert b. induction a as [|x a IH]; intros [|y b] H; simplify_eq/=; [done|].
  unfold xorBytes in *. cbn. by rewrite lxor_cancel, IH.
Qed.

Lemma length_xorBytes a b : length a = length b -> length (xorBytes a b) = length a.
Proof. intros. unfold xorBytes. rewrite length_zip_with. lia. Qed.

Lemma xorBytes_ok a b : bytes_ok a -> bytes_ok b -> bytes_ok (xorBytes a b).
Proof.
  intros Ha. revert b. induction Ha as [|x a Hx Ha IH]; intros [|y b] Hb;
    try apply bytes_ok_nil.
  apply Forall_cons in Hb as [Hy Hb].
  apply bytes_ok_cons; [by apply is_u8_lxor|by apply IH].
Qed.

Lemma xorBlock_ok a b : is_block a -> is_block b -> is_block (xorBytes a b).
Proof.
  intros [] []. split; [by apply xorBytes_ok|]. rewrite length_xorBytes; congruence.
Qed.

Lemma aesSbox_u8 v : is_u8 (aesSbox v).
Proof. apply u8_range. Qed.

Lemma inverseSbox_aesSbox v : is_u8 v -> inverseSbox (aesSbox v) = v.
Proof.
  intros Hv. apply Z.eqb_eq.
  apply (forall_below_spec 256 (fun v => inverseSbox (aesSbox v) =? v)); [|done].
  vm_compute. reflexivity.
Qed.

Lemma subBytes_ok s : is_block s -> is_block (subBytes s).
Proof.
  intros [Hs Hl]. unfold subBytes. split; [|by rewrite length_fmap].
  apply Forall_fmap, Forall_true. intros. apply aesSbox_u8.
Qed.

Lemma inverseSubBytes_subBytes s : bytes_ok s -> inverseSubBytes (subBytes s) = s.
Proof.
  unfold inverseSubBytes, subBytes. rewrite <- list_fmap_compose.
  induction 1 as [|x s Hx _ IH]; [done|]. rewrite fmap_cons. f_equal; [|exact IH].
  by apply inverseSbox_aesSbox.
Qed.

(** Splits a block into its 16 bytes. *)
Ltac explode_block s H :=
  destruct H as [?H ?Hl]; do 16 (destruct s as [|? s]; [discriminate|]);
  destruct s; [|discriminate].

Lemma inverseShiftRows_shiftRows s :
  is_block s -> inverseShiftRows (shiftRows s) = s.
Proof. intros H. explode_block s H. reflexivity. Qed.

Lemma shiftRows_ok s : is_block s -> is_block (shiftRows s).
Proof.
  intros H. explode_block s H. split; [|done].
  unfold bytes_ok in *. rewrite !Forall_cons in H. cbn.
  destruct_and! H.
  repeat first [assumption | apply bytes_ok_nil | apply bytes_ok_cons].
Qed.

Lemma mixColumn_ok a0 a1 a2 a3 : bytes_ok (mixColumn a0 a1 a2 a3).
Proof. unfold mixColumn. auto 6 with smb. Qed.

Lemma inverseMixColumn_mixColumn a0 a1 a2 a3 :
  is_u8 a0 -> is_u8 a1 -> is_u8 a2 -> is_u8 a3 ->
  match mixColumn a0 a1 a2 a3 with
  | [b0; b1; b2; b3] => inverseMixColumn b0 b1 b2 b3 = [a0; a1; a2; a3]
  | _ => False
  end.
Proof.
  intros. unfold mixColumn, inverseMixColumn. cbv zeta.
  rewrite !gfMultiply_2, !gfMultiply_3, !gfMultiply_9, !gfMultiply_11,
    !gfMultiply_13, !gfMultiply_14.
  rewrite !u8_small by auto 10 with smb. rewrite !xtime_lxor.
  f_equal; [xor_ring|]. f_equal; [xor_ring|]. f_equal; [xor_ring|].
  f_equal. xor_ring.
Qed.

Lemma inverseMixColumns_mixColumns n s :
  bytes_ok s -> length s = (4 * n)%nat -> inverseMixColumns (mixColumns s) = s.
Proof.
  revert s. induction n as [|n IH]; intros s Hs Hl; [by destruct s|].
  do 4 (destruct s as [|? s]; [simpl in Hl; lia|]).
  unfold bytes_ok in Hs. rewrite !Forall_cons in Hs.
  destruct Hs as (H0 & H1 & H2 & H3 & Hs).
  pose proof (inverseMixColumn_mixColumn _ _ _ _ H0 H1 H2 H3) as Hm.
  cbn [mixColumns]. destruct (mixColumn _ _ _ _) as [|b0 [|b1 [|b2 [|b3 []]]]];
    try done.
  cbn [app inverseMixColumns]. rewrite Hm, IH; [done|done|simpl in Hl; lia].
Qed.

Lemma mixColumns_length n s :
  length s = (4 * n)%nat -> bytes_ok (mixColumns s) /\ length (mixColumns s) = length s.
Proof.
  revert s. induction n as [|n IH]; intros s Hl.
  - destruct s; [|done]. split; [apply bytes_ok_nil|done].
  - do 4 (destruct s as [|? s]; [simpl in Hl; lia|]).
    destruct (IH s) as [Hok Hlen]; [simpl in Hl; lia|]. cbn [mixColumns].
    split; [apply bytes_ok_app; [apply mixColumn_ok|done]|].
    rewrite length_app, Hlen. done.
Qed.

Lemma mixColumns_ok s : is_block s -> is_block (mixColumns s).
Proof.
  intros [_ Hl]. destruct (mixColumns_length 4 s Hl). split; [done|congruence].
Qed.

(** ** The expanded key *)

Lemma at_u8 s i : bytes_ok s -> is_u8 (at_ s i).
Proof.
  intros Hs. unfold at_. destruct (decide (i < length s)%nat).
  - apply Forall_nth; [done|lia].
  - rewrite nth_overflow by lia. ulia.
Qed.
#[export] Hint Resolve at_u8 aesSbox_u8 xorBytes_ok : smb.

Lemma expand_step_ok expanded rcon :
  bytes_ok expanded -> is_u8 rcon ->
  let '(expanded', rcon') := expand_step (expanded, rcon) in
  bytes_ok expanded' /\ is_u8 rcon' /\
  length expanded' = (length expanded + 4)%nat.
Proof.
  intros He Hr. unfold expand_step. case_decide; cbn [fmap list_fmap];
    (split; [auto 12 with smb|split; [auto with smb|]]);
    rewrite length_app, length_xorBytes by done; done.
Qed.

Lemma expandAes128Key_ok key :
  is_block key -> bytes_ok (expandAes128Key key) /\
                  length (expandAes128Key key) = 176%nat.
Proof.
  intros [Hk Hl]. unfold expandAes128Key.
  assert (forall n, let '(e, r) := Nat.iter n expand_step (key, 1) in
    bytes_ok e /\ is_u8 r /\ length e = (16 + 4 * n)%nat) as H.
  { induction n as [|n IH]; [split; [done|split; [ulia|exact Hl]]|].
    cbn [Nat.iter nat_rect]. destruct (Nat.iter n expand_step (key, 1)) as [e r] eqn:Hi.
    unfold Nat.iter in Hi. rewrite Hi. destruct IH as (He & Hr & Hlen).
    pose proof (expand_step_ok e r He Hr) as Hs.
    destruct (expand_step (e, r)) as [e' r']. destruct Hs as (? & ? & ?).
    split; [done|split; [done|lia]]. }
  specialize (H 40%nat). destruct (Nat.iter 40 _ _). tauto.
Qed.

Lemma roundKey_ok key r :
  is_block key -> (r <= 10)%nat -> is_block (roundKey (expandAes128Key key) r).
Proof.
  intros Hk Hr. destruct (expandAes128Key_ok key Hk) as [Hok Hlen]. split.
  - by apply Forall_take, Forall_drop.
  - unfold roundKey. rewrite length_take, length_drop. lia.
Qed.

(** ** The cipher *)

Section cipher.
Context (key : bytes) (Hkey : is_block key).
Local Abbreviation ek := (expandAes128Key key).

Lemma aes_round_ok s r :
  is_block s -> (r <= 10)%nat -> is_block (aes_round ek s r).
Proof using Hkey.
  intros. apply xorBlock_ok; [|by apply roundKey_ok].
  auto using mixColumns_ok, shiftRows_ok, subBytes_ok.
Qed.

Lemma inverse_round_round s r :
  is_block s -> (r <= 10)%nat -> inverse_round ek (aes_round ek s r) r = s.
Proof using Hkey.
  intros Hs Hr. unfold inverse_round, aes_round, addRoundKey.
  pose proof (subBytes_ok s Hs) as Hsub. pose proof (shiftRows_ok _ Hsub) as Hsh.
  rewrite xorBytes_cancel.
  - rewrite (inverseMixColumns_mixColumns 4) by apply Hsh.
    rewrite inverseShiftRows_shiftRows by done.
    apply inverseSubBytes_subBytes, Hs.
  - destruct (mixColumns_ok _ Hsh), (roundKey_ok key r Hkey Hr). congruence.
Qed.

Lemma rounds_ok rs s :
  is_block s -> Forall (fun r => r <= 10)%nat rs ->
  is_block (foldl (aes_round ek) s rs) /\
  foldl (inverse_round ek) (foldl (aes_round ek) s rs) (rev rs) = s.
Proof using Hkey.
  revert s. induction rs as [|r rs IH] using rev_ind; intros s Hs Hrs; [done|].
  apply Forall_app in Hrs as [Hrs Hr]. apply Forall_cons in Hr as [Hr _].
  destruct (IH s Hs Hrs) as [Hb Hi]. rewrite foldl_app. cbn [foldl].
  rewrite rev_app_distr. cbn [rev app foldl].
  rewrite inverse_round_round by done. split; [by apply aes_round_ok|done].
Qed.

Lemma aes128EncryptBlock_block p : is_block p -> is_block (aes128EncryptBlock key p).
Proof using Hkey.
  intros Hp. unfold aes128EncryptBlock. cbv zeta.
  apply xorBlock_ok; [|apply roundKey_ok; [done|lia]].
  apply shiftRows_ok, subBytes_ok, rounds_ok.
  - apply xorBlock_ok; [done|apply roundKey_ok; [done|lia]].
  - repeat constructor; lia.
Qed.

Lemma decrypt_encrypt_block p :
  is_block p -> aes128DecryptBlock key (aes128EncryptBlock key p) = p.
Proof using Hkey.
  intros Hp. unfold aes128DecryptBlock, aes128EncryptBlock, addRoundKey. cbv zeta.
  assert (forall r, (r <= 10)%nat -> length (roundKey ek r) = 16%nat) as Hrk
    by (intros; by apply roundKey_ok).
  set (s0 := xorBytes p (roundKey ek 0)).
  assert (is_block s0) as Hs0
    by (apply xorBlock_ok; [done|apply roundKey_ok; [done|lia]]).
  destruct (rounds_ok (seq 1 9) s0 Hs0) as [Hb Hi]; [repeat constructor; lia|].
  set (s9 := foldl (aes_round ek) s0 (seq 1 9)) in *.
  pose proof (subBytes_ok s9 Hb) as Hsub. pose proof (shiftRows_ok _ Hsub) as [_ Hsh].
  rewrite xorBytes_cancel by (rewrite Hrk by lia; congruence).
  rewrite inverseShiftRows_shiftRows, inverseSubBytes_subBytes by apply Hsub || apply Hb.
  rewrite Hi. unfold s0. apply xorBytes_cancel. rewrite Hrk by lia. apply Hp.
Qed.
End cipher.

(** ** Specification: multiplication of polynomials *)

(** The product of two polynomials over GF(2), before reduction. *)
Fixpoint poly_mul (n : nat) (a b : Z) : Z :=
  match n with
  | O => 0
  | S n => Z.lxor (if Z.testbit b 0 then a else 0)
                  (poly_mul n (Z.shiftl a 1) (Z.shiftr b 1))
  end.

(** Division by x^8 + x^4 + x^3 + x + 1: the terms of degree 14 to 8 go. *)
Definition reduce_term (p i : Z) : Z :=
  if Z.testbit p i then Z.lxor p (Z.shiftl 0x11B (i - 8)) else p.
Definition poly_reduce (p : Z) : Z := foldl reduce_term p [14; 13; 12; 11; 10; 9; 8].

Lemma reduce_term_lxor i p q :
  reduce_term (Z.lxor p q) i = Z.lxor (reduce_term p i) (reduce_term q i).
Proof.
  unfold reduce_term. rewrite Z.lxor_spec.
  destruct (Z.testbit p i), (Z.testbit q i); cbn [xorb]; xor_ring.
Qed.

Lemma poly_reduce_lxor p q :
  poly_reduce (Z.lxor p q) = Z.lxor (poly_reduce p) (poly_reduce q).
Proof. unfold poly_reduce. cbn [foldl]. by rewrite !reduce_term_lxor. Qed.

Lemma poly_reduce_shift a i :
  is_u8 a -> (i < 8)%nat -> poly_reduce (Z.shiftl a (Z.of_nat i)) = Nat.iter i xtime a.
Proof.
  intros Ha Hi.
  assert (forallb (fun i => forall_below 256 (fun a =>
    poly_reduce (Z.shiftl a (Z.of_nat i)) =? Nat.iter i xtime a)) (seq 0 8) = true)
    as H by (vm_compute; reflexivity).
  rewrite forallb_forall in H. apply Z.eqb_eq.
  apply (forall_below_spec 256 _ a (H i ltac:(apply in_seq; lia))). done.
Qed.

(** Both sides as sums of multiples of [a]. *)
Fixpoint gf_sum (n : nat) (a b : Z) : Z :=
  match n with
  | O => 0
  | S n => Z.lxor (if Z.testbit b 0 then a else 0)
                  (gf_sum n (xtime a) (Z.shiftr b 1))
  end.

Lemma gf_sum_0 n a : gf_sum n a 0 = 0.
Proof.
  revert a. induction n as [|n IH]; intros a; [done|].
  cbn [gf_sum]. rewrite Z.shiftr_0_l, IH. done.
Qed.

Lemma gfMultiply_loop_sum n a b acc :
  0 <= b < 2 ^ Z.of_nat n -> gfMultiply_loop n a b acc = Z.lxor acc (gf_sum n a b).
Proof.
  revert a b acc. induction n as [|n IH]; intros a b acc Hb.
  - cbn. by rewrite Z.lxor_0_r.
  - cbn [gfMultiply_loop gf_sum]. destruct (Z.eqb_spec b 0) as [->|Hz].
    + rewrite Z.shiftr_0_l, gf_sum_0. cbn. by rewrite Z.lxor_0_r.
    + rewrite IH.
      2:{ rewrite Nat2Z.inj_succ, Z.pow_succ_r in Hb by lia.
          rewrite Z.shiftr_div_pow2 by lia. change (2 ^ 1) with 2.
          split; [apply Z.div_pos|apply Z.div_lt_upper_bound]; lia. }
      change 1 with (2 ^ 0) at 1. rewrite land_bit, negb_involutive by lia.
      destruct (Z.testbit b 0); xor_ring.
Qed.

Lemma poly_reduce_mul n i a b :
  is_u8 a -> (n + i <= 8)%nat ->
  poly_reduce (poly_mul n (Z.shiftl a (Z.of_nat i)) b) =
  gf_sum n (Nat.iter i xtime a) b.
Proof.
  intros Ha. revert i b. induction n as [|n IH]; intros i b Hi; [done|].
  cbn [poly_mul gf_sum]. rewrite poly_reduce_lxor.
  rewrite Z.shiftl_shiftl by lia. replace (Z.of_nat i + 1) with (Z.of_nat (S i)) by lia.
  rewrite IH by lia. f_equal.
  destruct (Z.testbit b 0); [by apply poly_reduce_shift; [|lia]|done].
Qed.

Lemma gfMultiply_poly a b :
  is_u8 a -> is_u8 b -> gfMultiply a b = poly_reduce (poly_mul 8 a b).
Proof.
  intros Ha Hb. unfold gfMultiply. rewrite gfMultiply_loop_sum by done.
  rewrite Z.lxor_0_l. symmetry.
  pose proof (poly_reduce_mul 8 0 a b Ha) as H. cbn [Nat.iter] in H.
  change (Z.of_nat 0) with 0 in H. rewrite Z.shiftl_0_r in H. by apply H.
Qed.

Lemma gf_inverse v : is_u8 v -> v <> 0 -> gfMultiply v (gfPow v 254) = 1.
Proof.
  intros Hv Hz.
  assert (forall_below 256 (fun v =>
    (v =? 0) || (gfMultiply v (gfPow v 254) =? 1)) = true) as Ht
    by (vm_compute; reflexivity).
  pose proof (forall_below_spec _ _ v Ht Hv) as H. cbv beta in H.
  apply orb_true_iff in H as [H|H]; apply Z.eqb_eq in H; [contradiction|exact H].
Qed.

(** ** Specification: CMAC on blocks *)

(** A block as a big-endian number. *)
Definition be_value (bs : bytes) : Z := foldl (fun v b => 256 * v + b) 0 bs.

Lemma be_value_app a b : be_value (a ++ b) = 2 ^ (8 * blen b) * be_value a + be_value b.
Proof.
  unfold be_value. rewrite foldl_app. generalize (foldl (fun v b => 256 * v + b) 0 a).
  induction b as [|x b IH] using rev_ind; intros v.
  - cbn [foldl]. change (8 * blen []) with 0. ring.
  - rewrite !foldl_app, blen_app. cbn [foldl]. change (blen [x]) with 1.
    rewrite IH. replace (8 * (blen b + 1)) with (8 * blen b + 8) by lia.
    rewrite Z.pow_add_r by (blens; lia). change (2 ^ 8) with 256. ring.
Qed.

Lemma be_value_cons x b : be_value (x :: b) = 2 ^ (8 * blen b) * x + be_value b.
Proof. change (x :: b) with ([x] ++ b). by rewrite be_value_app. Qed.

Lemma be_value_range bs : bytes_ok bs -> 0 <= be_value bs < 2 ^ (8 * blen bs).
Proof.
  induction 1 as [|b bs Hb _ IH]; [done|].
  rewrite be_value_cons, blen_cons, Z.mul_add_distr_l, Z.pow_add_r by (blens; lia).
  unfold is_u8 in Hb. change (2 ^ (8 * 1)) with 256. nia.
Qed.

(** The carry chain: the shifted bytes and the bit that leaves them. *)
Lemma shift_value bs :
  bytes_ok bs ->
  let '(r, c) := foldr (fun byte acc =>
         let '(result, carry) := acc in
         (u8 (Z.lor (Z.shiftl byte 1) carry) :: result,
          if negb (Z.land byte 0x80 =? 0) then 1 else 0)) ([], 0) bs in
  bytes_ok r /\ length r = length bs /\ 0 <= c <= 1 /\
  be_value r + 2 ^ (8 * blen bs) * c = 2 * be_value bs.
Proof.
  induction 1 as [|b bs Hb _ IH]; [split_and!; [apply bytes_ok_nil|done..]|].
  cbn [foldr]. destruct (foldr _ _ bs) as [r c]. destruct IH as (Hr & Hl & Hc & Hv).
  change 0x80 with (2 ^ 7). rewrite land_bit, negb_involutive by lia.
  assert (Z.testbit b 7 = (128 <=? b)) as ->.
  { unfold is_u8 in Hb. destruct (Z.leb_spec 128 b).
    - rewrite Z.testbit_true by lia. change (2 ^ 7) with 128.
      replace (b / 128) with 1 by (apply Z.div_unique with (b - 128); lia). done.
    - rewrite Z.testbit_false by lia. change (2 ^ 7) with 128.
      by rewrite Z.div_small by lia. }
  assert (u8 (Z.lor (Z.shiftl b 1) c) =
    2 * b + c - 256 * (if 128 <=? b then 1 else 0)) as He.
  { rewrite Z.lor_comm, (lor_shiftl_add c b 1) by lia. change (2 ^ 1) with 2.
    unfold u8, is_u8 in *. destruct (Z.leb_spec 128 b).
    - symmetry. apply Z.mod_unique with 1; lia.
    - rewrite Z.mod_small; lia. }
  split_and!.
  - apply bytes_ok_cons; auto with smb.
  - simpl. congruence.
  - destruct (128 <=? b); lia.
  - destruct (128 <=? b); lia.
  - rewrite be_value_cons, He, be_value_cons, blen_cons.
    assert (blen r = blen bs) as -> by (unfold blen; congruence).
    rewrite Z.mul_add_distr_l, Z.pow_add_r by (blens; lia).
    change (2 ^ (8 * 1)) with 256. destruct (128 <=? b); lia.
Qed.

Lemma be_value_last_lxor r b m :
  bytes_ok r -> is_u8 b -> is_u8 m ->
  be_value (r ++ [Z.lxor b m]) = Z.lxor (be_value (r ++ [b])) m.
Proof.
  intros Hr Hb Hm. rewrite !be_value_app. change (blen [_]) with 1.
  change (be_value [?x]) with x. cbn [be_value foldl].
  change (2 ^ (8 * 1)) with (2 ^ 8).
  assert (forall x, is_u8 x -> 2 ^ 8 * be_value r + x = Z.lor x (Z.shiftl (be_value r) 8))
    as H by (intros; rewrite lor_shiftl_add; [lia|lia|done]).
  change (256 * 0 + ?x) with x. rewrite !H by auto with smb.
  apply Z.bits_inj'. intros i Hi. rewrite !Z.lor_spec, !Z.lxor_spec, Z.lor_spec.
  rewrite !Z.shiftl_spec by done. destruct (decide (i < 8)).
  - rewrite (Z.testbit_neg_r (be_value r)) by lia. by rewrite !orb_false_r.
  - assert (forall x, is_u8 x -> Z.testbit x i = false) as Hx.
    { intros x Hx. rewrite <- (Z.mod_small x (2 ^ 8)) by done.
      apply Z.mod_pow2_bits_high. lia. }
    rewrite !Hx by done. cbn. by rewrite xorb_false_r.
Qed.

Lemma cmacSubkeyDouble_value b :
  is_block b ->
  is_block (cmacSubkeyDouble b) /\
  be_value (cmacSubkeyDouble b) =
    let v := (2 * be_value b) mod 2 ^ 128 in
    if 2 ^ 127 <=? be_value b then Z.lxor v 0x87 else v.
Proof.
  intros [Hb Hl]. pose proof (shift_value b Hb) as Hs.
  unfold cmacSubkeyDouble, leftShiftOneBit. destruct (foldr _ _ b) as [r c].
  destruct Hs as (Hr & Hrl & Hc & Hv). cbn [fst].
  assert (blen b = 16) as Hb16 by (unfold blen; lia).
  assert (blen r = 16) as Hr16 by (unfold blen; lia).
  rewrite Hb16 in Hv. change (2 ^ (8 * 16)) with (2 ^ 128) in Hv.
  pose proof (be_value_range r Hr) as Hrr. rewrite Hr16 in Hrr.
  change (2 ^ (8 * 16)) with (2 ^ 128) in Hrr.
  assert (be_value r = (2 * be_value b) mod 2 ^ 128) as Hmod
    by (apply Z.mod_unique with c; lia).
  assert (negb (Z.land (at_ b 0) 0x80 =? 0) = (2 ^ 127 <=? be_value b)) as ->.
  { change 0x80 with (2 ^ 7). rewrite land_bit, negb_involutive by lia.
    destruct b as [|x b]; [done|]. change (at_ (x :: b) 0) with x.
    apply Forall_cons in Hb as [Hx Hb]. rewrite be_value_cons.
    rewrite blen_cons in Hb16. pose proof (be_value_range b Hb) as Hbr.
    replace (blen b) with 15 in * by lia. change (8 * 15) with 120 in *.
    destruct (Z.leb_spec (2 ^ 127) (2 ^ 120 * x + be_value b)).
    - rewrite Z.testbit_true by lia. unfold is_u8 in Hx.
      replace (x / 2 ^ 7) with 1; [done|].
      apply Z.div_unique with (x - 128); lia.
    - rewrite Z.testbit_false by lia. unfold is_u8 in Hx.
      by rewrite Z.div_small by lia. }
  destruct (2 ^ 127 <=? be_value b); [|split; [split; [done|lia]|exact Hmod]].
  assert (exists p x, r = p ++ [x] /\ length p = 15%nat) as (p & x & -> & Hp).
  { destruct (exists_last (l := r)) as (p & x & ->); [by intros ->|].
    exists p, x. split; [done|]. rewrite length_app in Hrl. simpl in Hrl. lia. }
  assert (alter (fun b => Z.lxor b 0x87) 15%nat (p ++ [x]) = p ++ [Z.lxor x 0x87]) as ->.
  { rewrite <- Hp, <- (Nat.add_0_r (length p)). by rewrite alter_app_r. }
  apply Forall_app in Hr as [Hpo Hx]. apply Forall_cons in Hx as [Hx _].
  assert (is_u8 0x87) by ulia. split.
  - split; [|rewrite length_app; simpl; lia].
    apply bytes_ok_app; [done|auto with smb].
  - rewrite be_value_last_lxor by done. cbv zeta. by rewrite Hmod.
Qed.

(** CBC chaining of full blocks, the loop of RFC 4493. *)
Definition cbc (key state : bytes) (blocks : list bytes) : bytes :=
  foldl (fun st b => aes128EncryptBlock key (xorBlocks st b)) state blocks.

(** The last block: completed by 10..0 when it is short, and masked by one of
    the two subkeys. *)
Definition cmac_last (key m : bytes) : bytes :=
  let k1 := cmacSubkeyDouble (aes128EncryptBlock key (zeros 16)) in
  let k2 := cmacSubkeyDouble k1 in
  if blen m =? 16 then xorBlocks m k1
  else xorBlocks (m ++ [0x80] ++ zeros (15 - length m)) k2.

Lemma cmac_loop_cbc key bs pre rest k st :
  Forall (fun b => length b = 16%nat) bs -> blen pre = k * 16 ->
  cmac_loop key (pre ++ concat bs ++ rest) (length bs) k st = Ok (cbc key st bs).
Proof.
  revert pre k st. induction bs as [|b bs IH]; intros pre k st Hbs Hpre; [done|].
  apply Forall_cons in Hbs as [Hb Hbs]. cbn [length cmac_loop concat].
  assert (blen b = 16) as Hb16 by (unfold blen; lia).
  unfold blockFromBytes. rewrite <- app_assoc.
  erewrite read_range_at; [|exists pre, (concat bs ++ rest); split; [done|lia]|lia].
  cbn [mbind comp_bind]. rewrite app_assoc. rewrite IH; [done|done|].
  rewrite blen_app. lia.
Qed.

Lemma blen_blocks (bs : list bytes) :
  Forall (fun b => length b = 16%nat) bs -> blen (concat bs) = 16 * blen bs.
Proof.
  induction 1 as [|b bs Hb _ IH]; [done|]. cbn [concat].
  rewrite blen_app, blen_cons, IH. unfold blen at 1. lia.
Qed.

Lemma resize_padded m :
  (length m < 16)%nat ->
  resize 16 0 (m ++ [0x80]) = m ++ [0x80] ++ zeros (15 - length m).
Proof.
  intros H. rewrite resize_ge by (rewrite length_app; simpl; lia).
  rewrite <- app_assoc. do 2 f_equal. rewrite length_app. unfold zeros. f_equal.
  simpl. lia.
Qed.

Lemma aes128Cmac_blocks key bs m :
  length key = 16%nat -> Forall (fun b => length b = 16%nat) bs ->
  (length m <= 16)%nat -> (m = [] -> bs = []) ->
  aes128Cmac key (concat bs ++ m) =
  Ok (aes128EncryptBlock key
        (xorBlocks (cbc key (zeros 16) bs) (cmac_last key m))).
Proof.
  intros Hk Hbs Hm Hne. unfold aes128Cmac, kAesBlockSize.
  assert (blen key = 16) as -> by (unfold blen; lia). cbn [Z.eqb negb Pos.eqb].
  pose proof (blen_blocks bs Hbs) as Hlen. rewrite blen_app, Hlen.
  pose proof (cmac_loop_cbc key bs [] m 0 (zeros 16) Hbs eq_refl) as Hloop.
  assert (at_off (concat bs ++ m) (blen bs * 16) m) as Hat
    by (exists (concat bs), []; rewrite app_nil_r; split; [done|lia]).
  unfold cmac_last. cbv zeta.
  set (k1 := cmacSubkeyDouble (aes128EncryptBlock key (zeros 16))).
  assert (0 <= blen m <= 16) as Hm' by (unfold blen; lia). blens.
  destruct (Z.eqb_spec (blen m) 16) as [H16|H16].
  - assert ((16 * blen bs + blen m) / 16 = blen bs + 1) as Hdiv
      by (rewrite H16; symmetry; apply Z.div_unique with 0; lia).
    assert ((16 * blen bs + blen m) mod 16 = 0) as Hmod
      by (rewrite H16; symmetry; apply Z.mod_unique with (blen bs + 1); lia).
    rewrite Hdiv, Hmod, (proj2 (Z.eqb_neq _ 0)) by lia. cbn [negb andb Z.eqb].
    unfold blockFromBytes. rewrite Z.add_simpl_r.
    erewrite read_range_at by (exact Hat || lia). cbn [mbind comp_bind].
    assert (Z.to_nat (blen bs) = length bs) as -> by (unfold blen; lia).
    cbn [app] in Hloop. rewrite Hloop. reflexivity.
  - assert ((16 * blen bs + blen m) / 16 = blen bs) as Hdiv
      by (symmetry; apply Z.div_unique with (blen m); lia).
    assert (negb (16 * blen bs + blen m =? 0) &&
      ((16 * blen bs + blen m) mod 16 =? 0) = false) as ->.
    { replace ((16 * blen bs + blen m) mod 16) with (blen m)
        by (apply Z.mod_unique with (blen bs); lia).
      destruct m as [|x m]; [by rewrite (Hne eq_refl)|].
      rewrite (proj2 (Z.eqb_neq (blen (x :: m)) 0)); [apply andb_false_r|].
      rewrite blen_cons. blens. lia. }
    rewrite Hdiv, Z.add_simpl_r. unfold paddedFinalBlock.
    erewrite read_range_at by (exact Hat || (rewrite blen_app; lia)).
    cbn [mbind comp_bind]. rewrite (proj2 (Z.ltb_lt (blen m) 16)) by lia.
    rewrite resize_padded by (unfold blen in *; lia).
    assert (Z.to_nat (blen bs) = length bs) as -> by (unfold blen; lia).
    cbn [app] in Hloop. rewrite Hloop. reflexivity.
Qed.

(** Every message is a list of full blocks and a last one. *)
Lemma split_blocks (data : bytes) :
  exists bs m, data = concat bs ++ m /\ Forall (fun b => length b = 16%nat) bs /\
    (length m <= 16)%nat /\ (m = [] -> bs = []).
Proof.
  remember (length data) as n eqn:Hn. revert data Hn.
  induction n as [n IH] using lt_wf_ind. intros data Hn.
  destruct (decide (n <= 16)%nat).
  - exists [], data. split_and!; [done|constructor|lia|done].
  - destruct (IH (n - 16)%nat ltac:(lia) (drop 16 data)) as (bs & m & Hd & Hbs & Hm & Hne);
      [rewrite length_drop; lia|].
    exists (take 16 data :: bs), m. split_and!.
    + cbn [concat]. rewrite <- app_assoc, <- Hd. by rewrite take_drop.
    + constructor; [rewrite length_take; lia|done].
    + done.
    + intros ->. rewrite (Hne eq_refl) in Hd. apply (f_equal length) in Hd.
      rewrite length_drop in Hd. simpl in Hd. lia.
Qed.

Lemma zeros_block : is_block (zeros 16).
Proof. split; [apply zeros_ok|done]. Qed.

Section cmac_total.
Context (key : bytes) (Hkey : is_block key).

Lemma cbc_block st bs :
  is_block st -> Forall is_block bs -> is_block (cbc key st bs).
Proof using Hkey.
  revert st. induction bs as [|b bs IH]; intros st Hst Hbs; [done|].
  apply Forall_cons in Hbs as [Hb Hbs]. apply IH; [|done].
  by apply aes128EncryptBlock_block, xorBlock_ok.
Qed.

Lemma cmac_last_block m :
  bytes_ok m -> (length m <= 16)%nat -> is_block (cmac_last key m).
Proof using Hkey.
  intros Hm Hl. unfold cmac_last. cbv zeta.
  assert (is_block (cmacSubkeyDouble (aes128EncryptBlock key (zeros 16)))) as Hk1
    by (apply cmacSubkeyDouble_value, aes128EncryptBlock_block, zeros_block; done).
  destruct (Z.eqb_spec (blen m) 16); apply xorBlock_ok; try done.
  - split; [done|unfold blen in *; lia].
  - split.
    + apply bytes_ok_app; [done|]. apply bytes_ok_cons; [ulia|apply zeros_ok].
    + rewrite !length_app. unfold zeros. rewrite length_replicate.
      unfold blen in *. simpl. lia.
  - by apply cmacSubkeyDouble_value.
Qed.

(** A 16-byte key always gives a 16-byte code. *)
Lemma aes128Cmac_total data :
  bytes_ok data -> exists tag, aes128Cmac key data = Ok tag /\ is_block tag.
Proof using Hkey.
  intros Hd. destruct (split_blocks data) as (bs & m & -> & Hbs & Hm & Hne).
  eexists. split; [apply aes128Cmac_blocks; [apply Hkey|done..]|].
  apply Forall_app in Hd as [Hc Hmo].
  apply aes128EncryptBlock_block; [done|]. apply xorBlock_ok.
  - apply cbc_block; [apply zeros_block|].
    clear Hm Hne. induction Hbs as [|b bs Hb Hbs IH]; [constructor|].
    cbn [concat] in Hc. apply Forall_app in Hc as [? ?].
    constructor; [split; done|auto].
  - by apply cmac_last_block.
Qed.
End cmac_total.

(** ** Test vectors of the repository's tests *)

Definition rfc4493_key : bytes :=
  [0x2b; 0x7e; 0x15; 0x16; 0x28; 0xae; 0xd2; 0xa6; 0xab; 0xf7; 0x15; 0x88; 0x09;
   0xcf; 0x4f; 0x3c].

Lemma aes128Cmac_vectors :
  aes128Cmac rfc4493_key [] =
    Ok [0xbb; 0x1d; 0x69; 0x29; 0xe9; 0x59; 0x37; 0x28; 0x7f; 0xa3; 0x7d; 0x12;
        0x9b; 0x75; 0x67; 0x46] /\
  aes128Cmac rfc4493_key
    [0x6b; 0xc1; 0xbe; 0xe2; 0x2e; 0x40; 0x9f; 0x96; 0xe9; 0x3d; 0x7e; 0x11; 0x73;
     0x93; 0x17; 0x2a] =
    Ok [0x07; 0x0a; 0x16; 0xb4; 0x6b; 0x4d; 0x41; 0x44; 0xf7; 0x9b; 0xdd; 0x9d;
        0xd0; 0x4a; 0x28; 0x7c].
Proof. split; vm_compute; reflexivity. Qed.

(** AES-128 as implemented is a block cipher: under every 16-byte key it
    maps 16-byte blocks to 16-byte blocks, and the inverse cipher (inverse
    S-box, inverse row shift, inverse column mix, round keys in reverse order)
    recovers the plaintext, so no two blocks have the same ciphertext. *)
Theorem aes128_decrypts key p :
  is_block key -> is_block p ->
  is_block (aes128EncryptBlock key p) /\
  aes128DecryptBlock key (aes128EncryptBlock key p) = p.
Proof.
  intros. by split; [apply aes128EncryptBlock_block|apply decrypt_encrypt_block].
Qed.

Lemma aes128_decrypts_witness :
  is_block (zeros 16) /\
  aes128DecryptBlock (zeros 16) (aes128EncryptBlock (zeros 16) (zeros 16))
    = zeros 16.
Proof.
  split; [apply zeros_block|].
  apply (aes128_decrypts (zeros 16) (zeros 16)); apply zeros_block.
Defined.

(** The arithmetic of the S-box is that of GF(2^8): [gfMultiply] is the
    product of polynomials modulo x^8 + x^4 + x^3 + x + 1, [gfPow v 254] is
    the inverse of [v], and [aesSbox] is a permutation of the bytes. *)
Theorem aes_field_arithmetic :
  (forall a b, is_u8 a -> is_u8 b -> gfMultiply a b = poly_reduce (poly_mul 8 a b)) /\
  (forall v, is_u8 v -> v <> 0 -> gfMultiply v (gfPow v 254) = 1) /\
  (forall v, is_u8 v -> is_u8 (aesSbox v) /\ inverseSbox (aesSbox v) = v).
Proof.
  split; [exact gfMultiply_poly|]. split; [exact gf_inverse|].
  intros v Hv. split; [apply aesSbox_u8|by apply inverseSbox_aesSbox].
Qed.

(** AES-CMAC is the algorithm of RFC 4493: on any message, seen as full
    blocks and a last one, it chains the full blocks, completes a short last
    block with 10..0 and masks the last block with K1 or K2; the subkeys are
    successive doublings, modulo x^128 + x^7 + x^2 + x + 1, of the encrypted
    zero block; no message makes it read outside its buffer, and a key of any
    other size than 16 is an error. *)
Theorem aes128Cmac_rfc4493 key :
  (forall (bs : list bytes) m,
     length key = 16%nat -> Forall (fun b => length b = 16%nat) bs ->
     (length m <= 16)%nat -> (m = [] -> bs = []) ->
     aes128Cmac key (concat bs ++ m) =
     Ok (aes128EncryptBlock key
           (xorBlocks (cbc key (zeros 16) bs) (cmac_last key m)))) /\
  (forall data, exists (bs : list bytes) m,
     data = concat bs ++ m /\ Forall (fun b => length b = 16%nat) bs /\
     (length m <= 16)%nat /\ (m = [] -> bs = [])) /\
  (forall b, is_block b ->
     be_value (cmacSubkeyDouble b) =
     let v := (2 * be_value b) mod 2 ^ 128 in
     if 2 ^ 127 <=? be_value b then Z.lxor v 0x87 else v) /\
  (length key <> 16%nat -> forall data,
     aes128Cmac key data =
     failure ErrorCode_UnsupportedCapability
       "AES-128-CMAC requires a 16-byte signing key.").
Proof.
  split; [intros; by apply aes128Cmac_blocks|]. split; [apply split_blocks|].
  split; [intros; by apply cmacSubkeyDouble_value|].
  intros Hk data. unfold aes128Cmac, kAesBlockSize.
  by rewrite (proj2 (Z.eqb_neq _ _)) by (unfold blen; lia).
Qed.
