(* ===== verification/Transport.v ===== *)
(** * The transport interface ([Transport.h])

    A [Transport] exchanges one framed request for one framed response.  The
    abstract class becomes a type class over the type [T] of its states (the
    object and whatever it is connected to); [C] is the type of the operation
    contexts, which are only handed on.  The laws are what a client relies on:
    what comes back is bytes. *)

From S2P Require Export Header.

Class Transport (T C : Type) : Type :=
  exchange : T -> bytes -> C -> T * comp bytes.

(** [transport_ok t]: from [t] on, a request of bytes is answered by bytes or
    by an error, and the transport stays one that does so. *)
Class TransportLaws (T C : Type) `{Transport T C} : Type := {
  transport_ok : T -> Prop;
  exchange_ok t request context :
    transport_ok t -> bytes_ok request ->
    transport_ok (fst (exchange t request context)) /\
    wp (snd (exchange t request context)) bytes_ok
}.
