(* ===== verification/Signing.v ===== *)
(** * Message signing ([Smb2Signing.cpp])

    Key derivation, signing and verification of framed messages, and
    [SigningTransport], which signs every request and verifies every
    response. *)

From S2P Require Export Hash Aes DirectTcp Transport.
Local Open Scope Z_scope.
Local Open Scope comp_scope.

Definition kSmb2SignatureOffset : Z := 48.
Definition kSmb2FlagsOffset : Z := 16.
Definition kSha512DigestSize : Z := 64.

(** [std::copy] into a buffer at an offset; outside it, undefined behaviour. *)
Definition write_range (data : bytes) (off : Z) (bs : bytes) : comp bytes :=
  if decide (0 <= off /\ off + blen bs <= blen data)
  then Ok (slice 0 off data ++ bs ++ slice (off + blen bs) (blen data) data)
  else OutOfBounds.

Definition writeU32Le (data : bytes) (off value : Z) : comp bytes :=
  write_range data off (u32Le value).

(** The bytes of a C string literal, and its terminator. *)
Definition ascii_bytes (text : string) : bytes :=
  (fun c => Z.of_nat (Ascii.nat_of_ascii c)) <$> String.list_ascii_of_string text.
Definition asciiWithNull (text : string) : bytes := ascii_bytes text ++ [0].

(** ** Supported dialects *)

Definition supportsHmacSha256Signing (dialect : Dialect) : bool :=
  bool_decide (dialect = Dialect_Smb202) || bool_decide (dialect = Dialect_Smb210).

Definition supportsAesCmacSigning (dialect : Dialect) : bool :=
  bool_decide (dialect = Dialect_Smb300) || bool_decide (dialect = Dialect_Smb302)
  || bool_decide (dialect = Dialect_Smb311).

Definition supportsSigning (dialect : Dialect) : bool :=
  supportsHmacSha256Signing dialect || supportsAesCmacSigning dialect.

Local Open Scope string_scope.

Definition unsupportedSigning {A} (dialect : Dialect) : comp A :=
  failure ErrorCode_UnsupportedCapability
    ("SMB signing for dialect 0x" +:+ std_hex_upper (dialect_value dialect)
     +:+ " is not implemented in the clean-room engine yet.").

Definition commandName (command : Command) : string :=
  match command with
  | Command_Negotiate => "NEGOTIATE"
  | Command_SessionSetup => "SESSION_SETUP"
  | Command_Logoff => "LOGOFF"
  | Command_TreeConnect => "TREE_CONNECT"
  | Command_TreeDisconnect => "TREE_DISCONNECT"
  | Command_Create => "CREATE"
  | Command_Close => "CLOSE"
  | Command_Flush => "FLUSH"
  | Command_Read => "READ"
  | Command_Write => "WRITE"
  | Command_Lock => "LOCK"
  | Command_Ioctl => "IOCTL"
  | Command_Cancel => "CANCEL"
  | Command_Echo => "ECHO"
  | Command_QueryDirectory => "QUERY_DIRECTORY"
  | Command_ChangeNotify => "CHANGE_NOTIFY"
  | Command_QueryInfo => "QUERY_INFO"
  | Command_SetInfo => "SET_INFO"
  | Command_OplockBreak => "OPLOCK_BREAK"
  | Command_Unlisted _ => "UNKNOWN"
  end.

Definition hex_field (width : nat) (value : Z) : string :=
  zero_padded width (std_hex_upper value).

Definition describeSignatureVerificationFailure
    (requestFrame responseFrame : bytes) (dialect : Dialect) : string :=
  "SMB2 signed response verification failed"
  +:+ match frameHeader requestFrame with
      | Some h => " after request=" +:+ commandName (hdr_command h)
      | None => ""
      end
  +:+ match frameHeader responseFrame with
      | Some h =>
          " response=" +:+ commandName (hdr_command h)
          +:+ " status=0x" +:+ hex_field 8 (hdr_status h)
          +:+ " message_id=0x" +:+ hex_field 16 (hdr_messageId h)
          +:+ " flags=0x" +:+ hex_field 8 (hdr_flags h)
          +:+ (if (Z.land (hdr_flags h) kFlagSigned =? 0)%Z
               then " signed_flag=missing" else " signed_flag=present")
      | None => ""
      end
  +:+ " dialect=0x" +:+ hex_field 4 (dialect_value dialect) +:+ ".".

(** [toHex] and [toHex16]. *)
Definition toHex (digest : bytes) : string :=
  String.concat "" ((fun b => zero_padded 2 (std_hex_lower b)) <$> digest).

Local Close Scope string_scope.

(** ** Key derivation (SP 800-108, counter mode, one block) *)

(** The input [i || label || 0 || context || L] of the pseudo-random function
    every derivation of the engine shares; both [label] and [context] are the
    bytes the code inserts. *)
Definition kdf_input (label context : bytes) : bytes :=
  u32Be 1 ++ label ++ [0] ++ context ++ u32Be 128.

Definition derivedKey (sessionKey input : bytes) : bytes :=
  take 16 (hmacSha256 sessionKey input).

Definition deriveSmb311Key (sessionKey : bytes) (label : string)
    (context : bytes) : comp bytes :=
  fail_if blen sessionKey =? 0 with ErrorCode_AuthenticationFailed,
    "Cannot derive SMB 3.1.1 key without a session key.";;
  fail_if negb (blen context =? kSha512DigestSize)
    with ErrorCode_ProtocolUnsupported,
    "SMB 3.1.1 key derivation requires a 64-byte preauth hash.";;
  Ok (derivedKey sessionKey (kdf_input (asciiWithNull label) context)).

Definition deriveSmb3SigningKey (sessionKey : bytes) (dialect : Dialect)
    : comp bytes :=
  if negb (bool_decide (dialect = Dialect_Smb300))
     && negb (bool_decide (dialect = Dialect_Smb302))
  then unsupportedSigning dialect
  else
    fail_if blen sessionKey =? 0 with ErrorCode_AuthenticationFailed,
      "Cannot derive SMB3 signing key without a session key.";;
    Ok (derivedKey sessionKey
          (kdf_input (asciiWithNull "SMB2AESCMAC") (asciiWithNull "SmbSign"))).

Definition initialSmb311PreauthHash : bytes := zeros 64.

Definition deriveSmb311SigningKey (sessionKey preauthIntegrityHash : bytes)
    : comp bytes :=
  deriveSmb311Key sessionKey "SMBSigningKey" preauthIntegrityHash.

Section preauth.
(** libsodium's [crypto_hash_sha512], of which the code uses the 64 bytes of
    the digest. *)
Context (crypto_hash_sha512 : bytes -> bytes).

Definition updateSmb311PreauthHash (currentHash message : bytes) : comp bytes :=
  fail_if negb (blen currentHash =? kSha512DigestSize)
    with ErrorCode_ProtocolUnsupported,
    "SMB 3.1.1 preauth hash state must be 64 bytes.";;
  Ok (crypto_hash_sha512 (currentHash ++ message)).
End preauth.

(** ** Signing and verification *)

Definition zeroSmb2Signature (payload : bytes) : comp bytes :=
  write_range payload kSmb2SignatureOffset (zeros 16).

(** The first 16 bytes of the code of a message, by the dialect's algorithm. *)
Definition messageCode (sessionKey payload : bytes) (dialect : Dialect)
    : comp bytes :=
  if supportsHmacSha256Signing dialect
  then Ok (take 16 (hmacSha256 sessionKey payload))
  else digest ← reraise (aes128Cmac sessionKey payload); Ok (take 16 digest).

Definition signSmb2DirectTcpFrame (requestFrame sessionKey : bytes)
    (dialect : Dialect) : comp bytes :=
  if negb (supportsSigning dialect) then unsupportedSigning dialect else
  payload ← reraise (decodeDirectTcpPayload requestFrame);
  fail_if blen payload <? kSmb2HeaderSize with ErrorCode_ProtocolUnsupported,
    "SMB2 message is shorter than header.";;
  old ← readU32Le payload kSmb2FlagsOffset;
  let flags := Z.lor old kFlagSigned in
  payload ← writeU32Le payload kSmb2FlagsOffset flags;
  payload ← zeroSmb2Signature payload;
  code ← messageCode sessionKey payload dialect;
  payload ← write_range payload kSmb2SignatureOffset code;
  encodeDirectTcpFrame payload.

Definition verifySmb2DirectTcpFrameSignature (responseFrame sessionKey : bytes)
    (dialect : Dialect) : comp bool :=
  if negb (supportsSigning dialect) then unsupportedSigning dialect else
  payload ← reraise (decodeDirectTcpPayload responseFrame);
  fail_if blen payload <? kSmb2HeaderSize with ErrorCode_ProtocolUnsupported,
    "SMB2 response is shorter than header.";;
  flags ← readU32Le payload kSmb2FlagsOffset;
  if Z.land flags kFlagSigned =? 0 then Ok false
  else
    expected ← read_range payload kSmb2SignatureOffset
                 (kSmb2SignatureOffset + 16);
    payload ← zeroSmb2Signature payload;
    code ← messageCode sessionKey payload dialect;
    Ok (bool_decide (expected = code)).

(** ** [SigningTransport] *)

Record SigningTransport (T : Type) : Type := mkSigningTransport {
  sgt_inner : option T;
  sgt_sessionKey : bytes;
  sgt_dialect : Dialect;
  sgt_verifyResponses : bool
}.
Arguments mkSigningTransport {_} _ _ _ _.
Arguments sgt_inner {_} _.
Arguments sgt_sessionKey {_} _.
Arguments sgt_dialect {_} _.
Arguments sgt_verifyResponses {_} _.

(** What [SigningTransport::exchange] makes of the inner response. *)
Definition acceptResponse (signedRequest : bytes) (response : comp bytes)
    (sessionKey : bytes) (dialect : Dialect) (verify : bool) : comp bytes :=
  match response with
  | Ok frame =>
      if negb verify then Ok frame
      else
        verified ← reraise
          (verifySmb2DirectTcpFrameSignature frame sessionKey dialect);
        fail_if negb verified with ErrorCode_ProtocolUnsupported,
          describeSignatureVerificationFailure signedRequest frame dialect;;
        Ok frame
  | failed => failed
  end.

#[export] Instance signing_exchange {T C} `{Transport T C}
    : Transport (SigningTransport T) C :=
  fun t requestFrame context =>
    match sgt_inner t with
    | None =>
        (t, failure ErrorCode_InternalError
              "Signing transport has no inner transport.")
    | Some inner =>
        match signSmb2DirectTcpFrame requestFrame (sgt_sessionKey t)
                (sgt_dialect t) with
        | Ok signedRequest =>
            let '(inner', response) := exchange inner signedRequest context in
            (mkSigningTransport (Some inner') (sgt_sessionKey t)
               (sgt_dialect t) (sgt_verifyResponses t),
             acceptResponse signedRequest response (sgt_sessionKey t)
               (sgt_dialect t) (sgt_verifyResponses t))
        | failed => (t, failed)
        end
    end.

(** ** Lemmas: a message in five parts *)

Lemma write_range_parts pre old new post :
  blen old = blen new ->
  write_range (pre ++ old ++ post) (blen pre) new = Ok (pre ++ new ++ post).
Proof.
  intros Hl. unfold write_range.
  rewrite decide_True by (rewrite !blen_app; blens; lia). f_equal.
  assert (slice 0 (blen pre) (pre ++ old ++ post) = pre) as ->
    by (apply (slice_app_exact [] pre (old ++ post)); done).
  do 2 f_equal. apply at_off_slice; [|rewrite !blen_app; lia].
  exists (pre ++ old), []. rewrite app_nil_r, <- app_assoc, blen_app.
  split; [done|lia].
Qed.

(** What stands before the flags, the flags, what stands between them and the
    signature, the signature, and the rest of a message. *)
Record parts : Set := mkParts {
  p_head : bytes; p_flags : bytes; p_middle : bytes; p_signature : bytes;
  p_rest : bytes
}.

Definition assemble (p : parts) : bytes :=
  p_head p ++ p_flags p ++ p_middle p ++ p_signature p ++ p_rest p.

Definition parts_ok (p : parts) : Prop :=
  blen (p_head p) = 16 /\ blen (p_flags p) = 4 /\ blen (p_middle p) = 28 /\
  blen (p_signature p) = 16 /\ bytes_ok (assemble p).

Lemma message_parts payload :
  bytes_ok payload -> kSmb2HeaderSize <= blen payload ->
  exists p, payload = assemble p /\ parts_ok p.
Proof.
  intros Hok Hl. unfold kSmb2HeaderSize in Hl.
  exists (mkParts (slice 0 16 payload) (slice 16 20 payload) (slice 20 48 payload)
    (slice 48 64 payload) (slice 64 (blen payload) payload)).
  assert (payload = assemble (mkParts (slice 0 16 payload) (slice 16 20 payload)
    (slice 20 48 payload) (slice 48 64 payload)
    (slice 64 (blen payload) payload))) as He.
  { unfold assemble. cbn.
    unfold slice, blen in *. rewrite drop_0.
    change (Z.to_nat (16 - 0)) with 16%nat. change (Z.to_nat (20 - 16)) with 4%nat.
    change (Z.to_nat (48 - 20)) with 28%nat. change (Z.to_nat (64 - 48)) with 16%nat.
    change (Z.to_nat 16) with 16%nat. change (Z.to_nat 20) with 20%nat.
    change (Z.to_nat 48) with 48%nat. change (Z.to_nat 64) with 64%nat.
    rewrite (take_ge (drop 64 payload)) by (rewrite length_drop; lia).
    change (drop 64 payload) with (drop (48 + 16) payload). rewrite <- drop_drop, take_drop.
    change (drop 48 payload) with (drop (20 + 28) payload). rewrite <- drop_drop, take_drop.
    change (drop 20 payload) with (drop (16 + 4) payload). rewrite <- drop_drop, take_drop.
    by rewrite take_drop. }
  split; [exact He|]. unfold parts_ok. rewrite <- He. cbn.
  rewrite !blen_slice by lia. split_and!; [lia..|done].
Qed.

(** The message [p] with other flags and another signature. *)
Definition with_flags (p : parts) (flags : Z) (signature : bytes) : bytes :=
  p_head p ++ u32Le flags ++ p_middle p ++ signature ++ p_rest p.

Section parts_lemmas.
Context (p : parts) (Hp : parts_ok p).

Lemma read_flags : readU32Le (assemble p) 16 = Ok (le_value (p_flags p)) /\
                   is_u32 (le_value (p_flags p)).
Proof using Hp.
  destruct Hp as (Hh & Hf & Hm & Hs & Hok). unfold assemble, bytes_ok in Hok.
  rewrite !Forall_app in Hok. destruct Hok as (_ & Hfo & _). split.
  - apply readU32Le_value; [|done|unfold blen in Hf; lia].
    exists (p_head p), (p_middle p ++ p_signature p ++ p_rest p). split; [done|lia].
  - pose proof (le_value_range _ Hfo) as Hr. by rewrite Hf in Hr.
Qed.

Lemma write_flags flags :
  writeU32Le (assemble p) 16 flags = Ok (with_flags p flags (p_signature p)).
Proof using Hp.
  destruct Hp as (Hh & Hf & _). unfold writeU32Le, assemble, with_flags.
  rewrite <- Hh. by apply write_range_parts.
Qed.

Lemma write_signature flags s s' :
  blen s = 16 -> blen s' = 16 ->
  write_range (with_flags p flags s) 48 s' = Ok (with_flags p flags s').
Proof using Hp.
  intros Hs Hs'. destruct Hp as (Hh & Hf & Hm & _). unfold with_flags.
  replace 48 with (blen (p_head p ++ u32Le flags ++ p_middle p))
    by (rewrite !blen_app, Hh, Hm; done).
  pose proof (write_range_parts (p_head p ++ u32Le flags ++ p_middle p) s s' (p_rest p))
    as H. rewrite <- !app_assoc in H. apply H. congruence.
Qed.

Lemma with_flags_ok flags s : bytes_ok s -> bytes_ok (with_flags p flags s).
Proof using Hp.
  intros Hs. destruct Hp as (_ & _ & _ & _ & Hok). unfold assemble, bytes_ok in Hok.
  rewrite !Forall_app in Hok. destruct Hok as (? & ? & ? & ? & ?).
  unfold with_flags. auto 8 with smb.
Qed.

Lemma blen_with_flags flags s :
  blen s = 16 -> blen (with_flags p flags s) = blen (assemble p).
Proof using Hp.
  intros Hs. destruct Hp as (Hh & Hf & Hm & Hsig & _).
  unfold with_flags, assemble. rewrite !blen_app. change (blen (u32Le _)) with 4. lia.
Qed.

Lemma read_with_flags flags s :
  is_u32 flags -> readU32Le (with_flags p flags s) 16 = Ok flags.
Proof using Hp.
  intros Hfl. destruct Hp as (Hh & _).
  rewrite <- (u32_small flags) at 2 by done. apply readU32Le_at.
  exists (p_head p), (p_middle p ++ s ++ p_rest p). split; [done|lia].
Qed.

Lemma read_signature flags s :
  blen s = 16 -> read_range (with_flags p flags s) 48 64 = Ok s.
Proof using Hp.
  intros Hs. destruct Hp as (Hh & _ & Hm & _). apply read_range_at; [|lia].
  exists (p_head p ++ u32Le flags ++ p_middle p), (p_rest p).
  unfold with_flags. rewrite <- !app_assoc. split; [done|].
  rewrite !blen_app, Hh, Hm. done.
Qed.

Lemma assemble_with_flags :
  assemble p = with_flags p (le_value (p_flags p)) (p_signature p).
Proof using Hp.
  destruct Hp as (Hh & Hf & Hm & Hs & Hok). unfold assemble, bytes_ok in Hok.
  rewrite !Forall_app in Hok. destruct Hok as (_ & Hfo & _).
  unfold assemble, with_flags. do 2 f_equal.
  rewrite u32Le_split. symmetry.
  assert (length (p_flags p) = 4%nat) as Hl by (unfold blen in Hf; lia).
  rewrite <- Hl. clear -Hfo. induction Hfo as [|b l Hb _ IH]; [done|].
  cbn [length le_value le_split]. f_equal.
  - rewrite Z.mul_comm. change (2 ^ 8) with 256. rewrite Z.mod_add by lia.
    by apply Z.mod_small.
  - rewrite Z.mul_comm. change (2 ^ 8) with 256. rewrite Z.div_add by lia.
    rewrite Z.div_small by done. exact IH.
Qed.
End parts_lemmas.

(** ** Lemmas: the code of a message *)

(** A key the dialect's algorithm can use. *)
Definition key_fits (sessionKey : bytes) (dialect : Dialect) : Prop :=
  supportsHmacSha256Signing dialect = true \/ blen sessionKey = 16.

Lemma messageCode_total key payload dialect :
  bytes_ok key -> bytes_ok payload -> key_fits key dialect ->
  exists c, messageCode key payload dialect = Ok c /\ bytes_ok c /\ blen c = 16.
Proof.
  intros Hk Hp Hfit. unfold messageCode, key_fits in *.
  destruct (supportsHmacSha256Signing dialect) eqn:Hd.
  - destruct (hmacSha256_ok key payload) as [Hok Hl].
    eexists. split; [done|]. split; [by apply Forall_take|].
    unfold blen in *. rewrite length_take. lia.
  - destruct Hfit as [|Hl]; [done|].
    destruct (aes128Cmac_total key) with (data := payload) as (tag & -> & Ht & Htl);
      [split; [done|unfold blen in Hl; lia]|done|].
    cbn [reraise mbind comp_bind]. exists (take 16 tag).
    rewrite take_ge by lia. split; [done|]. split; [done|]. unfold blen. lia.
Qed.

Lemma messageCode_ok key payload dialect c :
  bytes_ok key -> bytes_ok payload -> messageCode key payload dialect = Ok c ->
  bytes_ok c /\ blen c = 16.
Proof.
  intros Hk Hp Hc.
  destruct (messageCode_total key payload dialect Hk Hp) as (c' & Hc' & ?).
  - unfold key_fits, messageCode in *.
    destruct (supportsHmacSha256Signing dialect); [by left|right].
    unfold aes128Cmac, kAesBlockSize in Hc.
    destruct (Z.eqb_spec (blen key) 16); [done|discriminate].
  - rewrite Hc in Hc'. by apply Ok_inj in Hc' as <-.
Qed.

Definition signed_flags (p : parts) : Z := Z.lor (le_value (p_flags p)) kFlagSigned.

Lemma signed_flags_ok p :
  parts_ok p -> is_u32 (signed_flags p) /\
                (Z.land (signed_flags p) kFlagSigned =? 0) = false.
Proof.
  intros Hp. destruct (read_flags p Hp) as [_ Hu]. unfold signed_flags. split.
  - apply lor_pow2_range; [lia|done|]. unfold kFlagSigned. lia.
  - change kFlagSigned with (2 ^ 3). rewrite land_bit, Z.lor_spec by lia.
    rewrite (Z.pow2_bits_true 3) by lia. by rewrite orb_true_r.
Qed.

(** Signing, on the parts of the message. *)
Lemma sign_parts frame key dialect p :
  decodeDirectTcpPayload frame = Ok (assemble p) -> parts_ok p ->
  signSmb2DirectTcpFrame frame key dialect =
  if negb (supportsSigning dialect) then unsupportedSigning dialect
  else
    code ← messageCode key (with_flags p (signed_flags p) (zeros 16)) dialect;
    payload ← write_range (with_flags p (signed_flags p) (zeros 16)) 48 code;
    encodeDirectTcpFrame payload.
Proof.
  intros Hd Hp. unfold signSmb2DirectTcpFrame. rewrite Hd.
  destruct (negb _); [done|]. cbn [reraise mbind comp_bind].
  destruct (read_flags p Hp) as [Hr _]. pose proof Hp as (Hh & Hf & Hm & Hs & _).
  rewrite (proj2 (Z.ltb_ge _ _)).
  2:{ unfold assemble, kSmb2HeaderSize. rewrite !blen_app. blens. lia. }
  unfold kSmb2FlagsOffset. rewrite Hr. cbn [mbind comp_bind].
  fold (signed_flags p). rewrite write_flags by done. cbn [mbind comp_bind].
  unfold zeroSmb2Signature, kSmb2SignatureOffset.
  rewrite write_signature by done. done.
Qed.

Lemma verify_parts frame key dialect p flags s :
  decodeDirectTcpPayload frame = Ok (with_flags p flags s) -> parts_ok p ->
  blen s = 16 -> is_u32 flags ->
  verifySmb2DirectTcpFrameSignature frame key dialect =
  if negb (supportsSigning dialect) then unsupportedSigning dialect
  else if Z.land flags kFlagSigned =? 0 then Ok false
  else
    code ← messageCode key (with_flags p flags (zeros 16)) dialect;
    Ok (bool_decide (s = code)).
Proof.
  intros Hd Hp Hs Hf. unfold verifySmb2DirectTcpFrameSignature. rewrite Hd.
  destruct (negb _); [done|]. cbn [reraise mbind comp_bind].
  rewrite (proj2 (Z.ltb_ge _ _)).
  2:{ rewrite blen_with_flags by done. destruct Hp as (Hh & Hfl & Hm & Hsi & _).
      unfold assemble, kSmb2HeaderSize. rewrite !blen_app. blens. lia. }
  unfold kSmb2FlagsOffset. rewrite read_with_flags by done. cbn [mbind comp_bind].
  destruct (_ =? 0); [done|]. unfold zeroSmb2Signature, kSmb2SignatureOffset.
  change (48 + 16) with 64. rewrite read_signature by done.
  cbn [mbind comp_bind]. rewrite write_signature by done. done.
Qed.

Lemma decode_payload_parts frame payload :
  bytes_ok frame -> decodeDirectTcpPayload frame = Ok payload ->
  kSmb2HeaderSize <= blen payload ->
  exists p, payload = assemble p /\ parts_ok p.
Proof.
  intros Hf Hd Hl. apply message_parts; [|done].
  by apply (decoded_payload_ok frame).
Qed.

(** What a successful signature produced. *)
Lemma sign_inv frame key dialect signed :
  bytes_ok frame -> bytes_ok key ->
  signSmb2DirectTcpFrame frame key dialect = Ok signed ->
  exists p code,
    decodeDirectTcpPayload frame = Ok (assemble p) /\ parts_ok p /\
    supportsSigning dialect = true /\
    messageCode key (with_flags p (signed_flags p) (zeros 16)) dialect = Ok code /\
    bytes_ok code /\ blen code = 16 /\
    encodeDirectTcpFrame (with_flags p (signed_flags p) code) = Ok signed.
Proof.
  intros Hf Hk H.
  assert (exists payload, decodeDirectTcpPayload frame = Ok payload /\
    kSmb2HeaderSize <= blen payload) as (payload & Hd & Hl).
  { unfold signSmb2DirectTcpFrame in H. inv_comp. bools. eauto. }
  destruct (decode_payload_parts _ _ Hf Hd Hl) as (p & -> & Hp).
  rewrite (sign_parts _ _ _ p) in H by done.
  destruct (supportsSigning dialect); [|discriminate]. cbn [negb] in H.
  inv_comp. rename x into code.
  destruct (messageCode_ok _ _ _ _ Hk (with_flags_ok p Hp _ _ (zeros_ok 16)) H0)
    as [Hc Hcl].
  rewrite write_signature in H1 by done. apply Ok_inj in H1 as <-.
  exists p, code. done.
Qed.

Lemma sign_then_verify frame key dialect signed :
  bytes_ok frame -> bytes_ok key ->
  signSmb2DirectTcpFrame frame key dialect = Ok signed ->
  verifySmb2DirectTcpFrameSignature signed key dialect = Ok true.
Proof.
  intros Hf Hk H.
  destruct (sign_inv _ _ _ _ Hf Hk H) as (p & code & _ & Hp & Hd & Hc & _ & Hcl & He).
  destruct (signed_flags_ok p Hp) as [Hu Hflag].
  destruct (decode_frame _ _ [] He) as (_ & Hdec & _). rewrite app_nil_r in Hdec.
  rewrite (verify_parts signed key dialect p (signed_flags p) code) by done.
  rewrite Hd, Hflag, Hc. cbn [negb mbind comp_bind].
  by rewrite bool_decide_eq_true_2.
Qed.

Lemma with_flags_slices p flags s :
  parts_ok p -> blen s = 16 ->
  let m := with_flags p flags s in
  slice 0 16 m = p_head p /\ slice 20 48 m = p_middle p /\
  slice 64 (blen m) m = p_rest p.
Proof.
  intros (Hh & Hf & Hm & Hsi & _) Hs m. unfold m.
  split_and!; apply at_off_slice.
  - apply at_off_here.
  - lia.
  - exists (p_head p ++ u32Le flags), (s ++ p_rest p). unfold with_flags.
    rewrite <- app_assoc, blen_app, Hh. done.
  - lia.
  - exists (p_head p ++ u32Le flags ++ p_middle p ++ s), []. unfold with_flags.
    rewrite app_nil_r, <- !app_assoc, !blen_app, Hh, Hm, Hs. done.
  - unfold with_flags. rewrite !blen_app, Hh, Hm, Hs. change (blen (u32Le _)) with 4. lia.
Qed.

(** Signing does what it promises: a message of at least a header, with a
    supported dialect and a key its algorithm can use, is always signed; the
    signed frame verifies under the same key and dialect; and nothing but the
    signed flag and the 16 signature bytes of the message has changed. *)
Theorem signed_frames_verify frame key dialect :
  bytes_ok frame -> bytes_ok key ->
  (forall payload,
     decodeDirectTcpPayload frame = Ok payload -> kSmb2HeaderSize <= blen payload ->
     supportsSigning dialect = true -> key_fits key dialect ->
     exists signed, signSmb2DirectTcpFrame frame key dialect = Ok signed) /\
  (forall signed,
     signSmb2DirectTcpFrame frame key dialect = Ok signed ->
     verifySmb2DirectTcpFrameSignature signed key dialect = Ok true /\
     exists old new flags,
       decodeDirectTcpPayload frame = Ok old /\
       decodeDirectTcpPayload signed = Ok new /\ blen new = blen old /\
       readU32Le old 16 = Ok flags /\
       readU32Le new 16 = Ok (Z.lor flags kFlagSigned) /\
       slice 0 16 new = slice 0 16 old /\ slice 20 48 new = slice 20 48 old /\
       slice 64 (blen new) new = slice 64 (blen old) old).
Proof.
  intros Hf Hk. split.
  - intros payload Hd Hl Hs Hfit.
    destruct (decoded_payload_ok _ _ Hf Hd) as [_ Hmax].
    destruct (decode_payload_parts _ _ Hf Hd Hl) as (p & -> & Hp).
    rewrite (sign_parts _ _ _ p), Hs by done. cbn [negb].
    destruct (messageCode_total key (with_flags p (signed_flags p) (zeros 16)) dialect)
      as (c & -> & Hc & Hcl); [done|by apply with_flags_ok, zeros_ok|done|].
    cbn [mbind comp_bind]. rewrite write_signature by done. cbn [mbind comp_bind].
    apply encode_frame_total. by rewrite blen_with_flags.
  - intros signed H. split; [by apply (sign_then_verify frame)|].
    destruct (sign_inv _ _ _ _ Hf Hk H) as (p & c & Hd & Hp & _ & _ & _ & Hcl & He).
    destruct (decode_frame _ _ [] He) as (_ & Hdec & _). rewrite app_nil_r in Hdec.
    destruct (signed_flags_ok p Hp) as [Hu _]. destruct (read_flags p Hp) as [Hr _].
    exists (assemble p), (with_flags p (signed_flags p) c), (le_value (p_flags p)).
    split_and!; try done.
    + by apply blen_with_flags.
    + by apply read_with_flags.
    + rewrite (assemble_with_flags p) by done. pose proof Hp as (_ & _ & _ & Hsi & _).
      destruct (with_flags_slices p (signed_flags p) c Hp Hcl) as (-> & _ & _).
      by destruct (with_flags_slices p (le_value (p_flags p)) _ Hp Hsi) as (-> & _ & _).
    + rewrite (assemble_with_flags p) by done. pose proof Hp as (_ & _ & _ & Hsi & _).
      destruct (with_flags_slices p (signed_flags p) c Hp Hcl) as (_ & -> & _).
      by destruct (with_flags_slices p (le_value (p_flags p)) _ Hp Hsi) as (_ & -> & _).
    + rewrite (assemble_with_flags p) by done. pose proof Hp as (_ & _ & _ & Hsi & _).
      destruct (with_flags_slices p (signed_flags p) c Hp Hcl) as (_ & _ & ->).
      by destruct (with_flags_slices p (le_value (p_flags p)) _ Hp Hsi) as (_ & _ & ->).
Qed.

Lemma signed_frames_verify_witness :
  exists signed,
    signSmb2DirectTcpFrame ([0; 0; 0; 64] ++ zeros 64) [1; 2; 3] Dialect_Smb202
      = Ok signed /\
    verifySmb2DirectTcpFrameSignature signed [1; 2; 3] Dialect_Smb202 = Ok true.
Proof.
  assert (bytes_ok ([0; 0; 0; 64] ++ zeros 64)) as Hf
    by (apply bytes_ok_app; [|apply zeros_ok];
        repeat (apply bytes_ok_cons; [ulia|]); apply bytes_ok_nil).
  assert (bytes_ok [1; 2; 3]) as Hk
    by (repeat (apply bytes_ok_cons; [ulia|]); apply bytes_ok_nil).
  destruct (signed_frames_verify _ _ Dialect_Smb202 Hf Hk) as [Hsign Hverify].
  destruct (Hsign (zeros 64)) as [signed Hs];
    [reflexivity|done|reflexivity|by left|].
  exists signed. split; [exact Hs|]. by apply Hverify.
Defined.

(** Verification accepts exactly the frames that carry the right code: a
    frame verifies if and only if its message is at least a header long, has
    the signed flag, and its 16 signature bytes are the code of the message
    with those bytes zeroed. *)
Theorem verification_exact frame key dialect :
  verifySmb2DirectTcpFrameSignature frame key dialect = Ok true <->
  supportsSigning dialect = true /\
  exists payload flags zeroed signature,
    decodeDirectTcpPayload frame = Ok payload /\
    kSmb2HeaderSize <= blen payload /\
    readU32Le payload 16 = Ok flags /\ Z.land flags kFlagSigned <> 0 /\
    read_range payload 48 64 = Ok signature /\
    zeroSmb2Signature payload = Ok zeroed /\
    messageCode key zeroed dialect = Ok signature.
Proof.
  unfold verifySmb2DirectTcpFrameSignature. split.
  - intros H. destruct (supportsSigning dialect); [|discriminate].
    split; [done|]. cbn [negb] in H. inv_comp. bools.
    apply bool_decide_eq_true in H. subst.
    exists x, x0, x2, x3. done.
  - intros (-> & payload & flags & zeroed & signature & Hd & Hl & Hfl & Hs & Hr & Hz & Hc).
    cbn [negb]. rewrite Hd. cbn [reraise mbind comp_bind].
    rewrite (proj2 (Z.ltb_ge _ _)) by done.
    unfold kSmb2FlagsOffset, kSmb2SignatureOffset. rewrite Hfl. cbn [mbind comp_bind].
    rewrite (proj2 (Z.eqb_neq _ _)) by done. change (48 + 16) with 64.
    rewrite Hr. cbn [mbind comp_bind]. rewrite Hz. cbn [mbind comp_bind].
    rewrite Hc. cbn [mbind comp_bind]. by rewrite bool_decide_eq_true_2.
Qed.

(** ** Safety *)

Lemma wp_messageCode key payload dialect :
  bytes_ok key -> bytes_ok payload ->
  wp (messageCode key payload dialect) (fun c => bytes_ok c /\ blen c = 16).
Proof.
  intros Hk Hp.
  destruct (supportsHmacSha256Signing dialect) eqn:Hd;
    [|destruct (Z.eqb_spec (blen key) 16) as [Hl|Hl]].
  - destruct (messageCode_total key payload dialect Hk Hp) as (c & -> & ?); [by left|done].
  - destruct (messageCode_total key payload dialect Hk Hp) as (c & -> & ?); [by right|done].
  - unfold messageCode, aes128Cmac, kAesBlockSize.
    rewrite Hd, (proj2 (Z.eqb_neq _ _)) by done. exact I.
Qed.

Lemma wp_sign frame key dialect :
  bytes_ok frame -> bytes_ok key ->
  wp (signSmb2DirectTcpFrame frame key dialect) bytes_ok.
Proof.
  intros Hf Hk. destruct (decodeDirectTcpPayload frame) as [payload| | |] eqn:Hd.
  2-4: pose proof (wp_decodeDirectTcpPayload frame Hf) as Hw; rewrite Hd in Hw;
       unfold signSmb2DirectTcpFrame; rewrite Hd;
       destruct (negb _); [exact I|by destruct Hw || exact I].
  destruct (decoded_payload_ok _ _ Hf Hd) as [_ Hmax].
  destruct (Z.ltb_spec (blen payload) kSmb2HeaderSize) as [Hl|Hl].
  { unfold signSmb2DirectTcpFrame. rewrite Hd. destruct (negb _); [exact I|].
    cbn [reraise mbind comp_bind]. by rewrite (proj2 (Z.ltb_lt _ _)). }
  destruct (decode_payload_parts _ _ Hf Hd Hl) as (p & -> & Hp).
  rewrite (sign_parts _ _ _ p) by done. destruct (negb _); [exact I|].
  apply wp_bind. eapply wp_mono; [apply wp_messageCode; [done|]|].
  { apply with_flags_ok, zeros_ok; done. }
  intros c [Hc Hcl]. rewrite write_signature by done. cbn [mbind comp_bind].
  destruct (encode_frame_total (with_flags p (signed_flags p) c)) as [signed He];
    [by rewrite blen_with_flags|].
  rewrite He. unfold encodeDirectTcpFrame in He. inv_comp. cbn [wp].
  apply bytes_ok_cons; [ulia|]. repeat (apply bytes_ok_cons; [apply u8_range|]).
  by apply with_flags_ok.
Qed.

Lemma wp_verify frame key dialect :
  bytes_ok frame -> bytes_ok key ->
  wp (verifySmb2DirectTcpFrameSignature frame key dialect) (fun _ => True).
Proof.
  intros Hf Hk. unfold verifySmb2DirectTcpFrameSignature.
  destruct (negb _); [exact I|]. wp_steps.
  eapply wp_mono; [by apply wp_decodeDirectTcpPayload|].
  intros payload [Hp _]. cbv beta. unfold kSmb2HeaderSize, kSmb2FlagsOffset.
  wp_reads; try exact I. bools. unfold kSmb2SignatureOffset. wp_reads.
  unfold zeroSmb2Signature, write_range, kSmb2SignatureOffset.
  change (blen (zeros 16)) with 16. rewrite decide_True by lia. wp_steps.
  eapply wp_mono; [apply wp_messageCode; [done|]|done].
  apply bytes_ok_app; [by apply Forall_slice|].
  apply bytes_ok_app; [apply zeros_ok|by apply Forall_slice].
Qed.

(** [SigningTransport] keeps the laws of the transport it wraps. *)
Section signing_transport.
Context {T C : Type} `{TransportLaws T C}.

Definition signing_ok (t : SigningTransport T) : Prop :=
  bytes_ok (sgt_sessionKey t) /\
  match sgt_inner t with Some inner => transport_ok inner | None => True end.

Lemma wp_acceptResponse signedRequest response key dialect verify :
  bytes_ok key -> wp response bytes_ok ->
  wp (acceptResponse signedRequest response key dialect verify) bytes_ok.
Proof.
  intros Hk Hr. unfold acceptResponse. destruct response as [frame| | |]; try done.
  wp_steps; [done|]. eapply wp_mono; [by apply wp_verify|]. intros [] _;
    wp_steps; done.
Qed.

Lemma signing_exchange_ok t request context :
  signing_ok t -> bytes_ok request ->
  signing_ok (fst (exchange t request context)) /\
  wp (snd (exchange t request context)) bytes_ok.
Proof.
  intros [Hk Hi] Hreq. unfold exchange at 1 2, signing_exchange.
  destruct (sgt_inner t) as [inner|] eqn:Hin.
  - pose proof (wp_sign request (sgt_sessionKey t) (sgt_dialect t) Hreq Hk) as Hs.
    destruct (signSmb2DirectTcpFrame _ _ _) as [signed| | |]; try done.
    + pose proof (exchange_ok inner signed context Hi Hs) as [Hi' Hr].
      destruct (exchange inner signed context) as [inner' response].
      split; [by split|by apply wp_acceptResponse].
    + split; [|done]. split; [done|]. cbn. by rewrite Hin.
  - split; [|done]. split; [done|]. cbn. by rewrite Hin.
Qed.
End signing_transport.

#[export] Instance signing_laws {T C} `{TransportLaws T C}
    : TransportLaws (SigningTransport T) C :=
  {| transport_ok := signing_ok; exchange_ok := signing_exchange_ok |}.

(** [SigningTransport] is a gate: nothing leaves unsigned and, with
    verification on, nothing comes back unverified.  A request that cannot be
    signed never reaches the inner transport; a response is delivered, as it
    came, exactly when it verifies; a response that does not verify becomes the
    described protocol error; and the laws of a transport are kept, so no
    response makes it throw or read out of bounds. *)
Theorem signing_transport_gate {T C} `{TransportLaws T C} (t : SigningTransport T)
    inner request context :
  sgt_inner t = Some inner -> sgt_verifyResponses t = true ->
  let key := sgt_sessionKey t in
  let dialect := sgt_dialect t in
  (transport_ok t -> bytes_ok request ->
   transport_ok (fst (exchange t request context)) /\
   wp (snd (exchange t request context)) bytes_ok) /\
  match signSmb2DirectTcpFrame request key dialect with
  | Ok signed =>
      exchange t request context =
      (mkSigningTransport (Some (fst (exchange inner signed context))) key dialect true,
       match snd (exchange inner signed context) with
       | Ok frame =>
           match verifySmb2DirectTcpFrameSignature frame key dialect with
           | Ok true => Ok frame
           | Ok false =>
               failure ErrorCode_ProtocolUnsupported
                 (describeSignatureVerificationFailure signed frame dialect)
           | Err e => failure (err_code e) (err_message e)
           | Throw m => Throw m
           | OutOfBounds => OutOfBounds
           end
       | failed => failed
       end)
  | failed => exchange t request context = (t, failed)
  end.
Proof.
  intros Hin Hv key dialect. split; [apply exchange_ok|].
  unfold key, dialect. unfold exchange at 1 4 5 6, signing_exchange.
  rewrite Hin, Hv. destruct (signSmb2DirectTcpFrame _ _ _) as [signed| | |]; try done.
  destruct (exchange inner signed context) as [inner' [frame| | |]]; try done.
  cbn [fst snd acceptResponse negb]. f_equal.
  by destruct (verifySmb2DirectTcpFrameSignature _ _ _) as [[]| | |].
Qed.

(** A transport that answers every request with the same frame. *)
#[local] Instance echo_transport (frame : bytes) : Transport unit unit :=
  fun t _ _ => (t, Ok frame).
#[local] Program Instance echo_laws : @TransportLaws unit unit (echo_transport []) :=
  {| transport_ok _ := True |}.
Next Obligation. intros. split; [done|apply bytes_ok_nil]. Qed.

Lemma signing_transport_gate_witness :
  @exchange _ _ (@signing_exchange unit unit (echo_transport []))
    (mkSigningTransport (Some tt) [1] Dialect_Smb202 true) [0; 0; 0; 1; 7] tt
  = (mkSigningTransport (Some tt) [1] Dialect_Smb202 true,
     failure ErrorCode_ProtocolUnsupported "SMB2 message is shorter than header.").
Proof.
  exact (proj2 (@signing_transport_gate unit unit (echo_transport []) echo_laws
    (mkSigningTransport (Some tt) [1] Dialect_Smb202 true) tt [0; 0; 0; 1; 7] tt
    eq_refl eq_refl)).
Defined.
