(* ===== verification/Encryption.v ===== *)
(** * SMB 3 encryption ([Smb3Encryption.cpp])

    AES-128-CCM, the transform header that carries an encrypted message, and
    [Smb3EncryptionTransport], which numbers its nonces. *)

From S2P Require Export Signing.
Local Open Scope Z_scope.
Local Open Scope comp_scope.

Definition kSmb3TransformProtocolId : Z := 0x424D53FD.
Definition kSmb3TransformHeaderSize : Z := 52.
Definition kSmb3TransformSignatureOffset : Z := 4.
Definition kSmb3TransformNonceOffset : Z := 20.
Definition kSmb3TransformAadOffset : Z := 20.
Definition kSmb3AesCcmNonceSize : Z := 11.
Definition kSmb3AesCcmTagSize : Z := 16.
Definition kSmb3Aes128CcmAlgorithm : Z := 0x0001.

Inductive Smb3KeyDirection : Set := ClientToServer | ServerToClient.

Record AesCcmEncryptedMessage : Set := mkAesCcmEncryptedMessage {
  acm_ciphertext : bytes;
  acm_tag : bytes
}.

(** ** Blocks *)

(** The (possibly short) block at the head of the bytes that remain, filled up
    with zeros: [blockFromBytes] of this file. *)
Definition zeroPaddedBlock (bs : bytes) : bytes := resize 16 0 (take 16 bs).

(** [std::copy_n(key.begin(), 16, ...)]: a shorter key is read past its end. *)
Definition keyBlockFrom (key : bytes) : comp bytes := read_range key 0 16.

(** [while ((formatted.size() % 16) != 0) push_back(0)], at most 15 turns. *)
Fixpoint padToBlock (fuel : nat) (bs : bytes) : bytes :=
  match fuel with
  | O => bs
  | S fuel =>
      if blen bs mod kAesBlockSize =? 0 then bs else padToBlock fuel (bs ++ [0])
  end.

Definition formatAad (aad : bytes) : bytes :=
  if blen aad =? 0 then []
  else if 0xFF00 <=? blen aad then []
  else padToBlock 16 (u16Be (u16 (blen aad)) ++ aad).

(** [value & 0xFF] at the end, then [value >>= 8], [n] times: the [n] low bytes
    of [value], most significant first. *)
Definition be_field (n : nat) (value : Z) : bytes := rev (le_split n value).

(** ** AES-CCM *)

(** [for (offset = 0; offset < bs.size(); offset += 16)], from [offset] on. *)
Fixpoint mac_loop (fuel : nat) (key state bs : bytes) : bytes :=
  match fuel, bs with
  | S fuel, _ :: _ =>
      mac_loop fuel key
        (aes128EncryptBlock key (xorBlocks state (zeroPaddedBlock bs)))
        (drop 16 bs)
  | _, _ => state
  end.

(** [maxLength <<= 8], [lengthFieldSize] times, on 64 bits. *)
Definition ccmMaxLength (lengthFieldSize : Z) : Z :=
  Nat.iter (Z.to_nat lengthFieldSize) (fun v => u64 (Z.shiftl v 8)) 1.

(** The first block of the MAC: flags, nonce and message length. *)
Definition macFirstBlock (nonce aad : bytes) (plaintextSize tagLength : Z) : bytes :=
  let lengthFieldSize := 15 - blen nonce in
  [u8 (Z.lor (Z.lor (if blen aad =? 0 then 0 else 0x40)
                    (Z.shiftl (Z.land ((tagLength - 2) / 2) 7) 3))
             (Z.land (lengthFieldSize - 1) 7))]
  ++ nonce ++ be_field (Z.to_nat lengthFieldSize) plaintextSize.

Definition cbcMac (key nonce plaintext aad : bytes) (tagLength : Z) : comp bytes :=
  fail_if negb (blen key =? kAesBlockSize)
    with ErrorCode_UnsupportedCapability,
    "AES-128-CCM requires a 16-byte encryption key.";;
  fail_if (blen nonce =? 0) || (13 <? blen nonce)
    with ErrorCode_ProtocolUnsupported,
    "AES-CCM nonce length must be between 1 and 13 bytes.";;
  fail_if (tagLength <? 4) || (16 <? tagLength) || negb (tagLength mod 2 =? 0)
    with ErrorCode_ProtocolUnsupported,
    "AES-CCM tag length must be an even value between 4 and 16 bytes.";;
  let lengthFieldSize := 15 - blen nonce in
  fail_if ccmMaxLength lengthFieldSize <=? blen plaintext
    with ErrorCode_ProtocolUnsupported,
    "AES-CCM plaintext is too large for the selected nonce length.";;
  keyBlock ← keyBlockFrom key;
  let state := aes128EncryptBlock keyBlock
                 (macFirstBlock nonce aad (blen plaintext) tagLength) in
  let formattedAad := formatAad aad in
  fail_if negb (blen aad =? 0) && (blen formattedAad =? 0)
    with ErrorCode_ProtocolUnsupported,
    "AES-CCM AAD is too large for the implemented encoder.";;
  let state := mac_loop (length formattedAad) keyBlock state formattedAad in
  Ok (mac_loop (length plaintext) keyBlock state plaintext).

(** Past 15 bytes the nonce is copied beyond the block. *)
Definition counterBlock (nonce : bytes) (counter : Z) : comp bytes :=
  if 15 <? blen nonce then OutOfBounds
  else
    let lengthFieldSize := 15 - blen nonce in
    Ok ([u8 (Z.land (lengthFieldSize - 1) 7)] ++ nonce
        ++ be_field (Z.to_nat lengthFieldSize) counter).

Fixpoint ccmCrypt_loop (fuel : nat) (keyBlock nonce : bytes) (counter : Z)
    (input : bytes) : comp bytes :=
  match fuel, input with
  | S fuel, _ :: _ =>
      block ← counterBlock nonce counter;
      let stream := aes128EncryptBlock keyBlock block in
      rest ← ccmCrypt_loop fuel keyBlock nonce (u64 (counter + 1)) (drop 16 input);
      Ok (xorBytes (take 16 input) stream ++ rest)
  | _, _ => Ok []
  end.

Definition ccmCrypt (key nonce input : bytes) : comp bytes :=
  keyBlock ← keyBlockFrom key;
  ccmCrypt_loop (length input) keyBlock nonce 1 input.

Definition ccmTagMask (key nonce : bytes) : comp bytes :=
  keyBlock ← keyBlockFrom key;
  block ← counterBlock nonce 0;
  Ok (aes128EncryptBlock keyBlock block).

Definition aes128CcmEncrypt (key nonce plaintext aad : bytes) (tagLength : Z)
    : comp AesCcmEncryptedMessage :=
  mac ← reraise (cbcMac key nonce plaintext aad tagLength);
  mask ← ccmTagMask key nonce;
  ciphertext ← ccmCrypt key nonce plaintext;
  Ok (mkAesCcmEncryptedMessage ciphertext
        (take (Z.to_nat tagLength) (xorBytes mac mask))).

Definition aes128CcmDecrypt (key nonce ciphertext aad tag : bytes) : comp bytes :=
  plaintext ← ccmCrypt key nonce ciphertext;
  encrypted ← reraise (aes128CcmEncrypt key nonce plaintext aad (blen tag));
  fail_if negb (blen (acm_tag encrypted) =? blen tag)
          || negb (bool_decide (tag = acm_tag encrypted))
    with ErrorCode_ProtocolUnsupported,
    "SMB3 encrypted message authentication failed.";;
  Ok plaintext.

(** ** Keys *)

Definition deriveKey (sessionKey : bytes) (label context : string) : comp bytes :=
  fail_if blen sessionKey =? 0 with ErrorCode_AuthenticationFailed,
    "Cannot derive SMB3 encryption key without a session key.";;
  Ok (derivedKey sessionKey
        (kdf_input (asciiWithNull label) (asciiWithNull context))).

Local Open Scope string_scope.
Definition unsupportedDialect {A} (dialect : Dialect) : comp A :=
  failure ErrorCode_UnsupportedCapability
    ("SMB3 AES-CCM encryption for dialect 0x"
     +:+ std_hex_upper (dialect_value dialect)
     +:+ " is not implemented in the clean-room engine.").
Local Close Scope string_scope.

Definition supportsEncryption (dialect : Dialect) : bool :=
  bool_decide (dialect = Dialect_Smb300) || bool_decide (dialect = Dialect_Smb302).

Definition deriveSmb3EncryptionKey (sessionKey : bytes) (dialect : Dialect)
    (direction : Smb3KeyDirection) : comp bytes :=
  if negb (supportsEncryption dialect) then unsupportedDialect dialect
  else deriveKey sessionKey "SMB2AESCCM"
         (match direction with
          | ClientToServer => "ServerIn "
          | ServerToClient => "ServerOut"
          end).

(** ** The transform header *)

Definition buildTransformHeader (originalMessageSize sessionId : Z)
    (nonce : bytes) (dialect : Dialect) : bytes :=
  u32Le kSmb3TransformProtocolId
  ++ zeros 16
  ++ nonce
  ++ u32Le originalMessageSize
  ++ u16Le 0
  ++ u16Le (if bool_decide (dialect = Dialect_Smb311) then 0x0001
            else kSmb3Aes128CcmAlgorithm)
  ++ u64Le sessionId.

Definition smb3AadFromHeader (transformHeader : bytes) : comp bytes :=
  read_range transformHeader kSmb3TransformAadOffset kSmb3TransformHeaderSize.

Definition ccmNonceFromTransformNonce (transformPayload : bytes) : comp bytes :=
  read_range transformPayload kSmb3TransformNonceOffset
    (kSmb3TransformNonceOffset + kSmb3AesCcmNonceSize).

Definition encryptSmb3DirectTcpFrame (requestFrame encryptionKey : bytes)
    (sessionId : Z) (nonce : bytes) (dialect : Dialect) : comp bytes :=
  if negb (supportsEncryption dialect) then unsupportedDialect dialect else
  payload ← reraise (decodeDirectTcpPayload requestFrame);
  fail_if 0xFFFFFFFF <? blen payload with ErrorCode_ProtocolUnsupported,
    "SMB3 transform payload is too large.";;
  let transformHeader :=
    buildTransformHeader (u32 (blen payload)) sessionId nonce dialect in
  aad ← smb3AadFromHeader transformHeader;
  ccmNonce ← read_range nonce 0 kSmb3AesCcmNonceSize;
  encrypted ← reraise
    (aes128CcmEncrypt encryptionKey ccmNonce payload aad kSmb3AesCcmTagSize);
  transformHeader ← write_range transformHeader kSmb3TransformSignatureOffset
                      (acm_tag encrypted);
  encodeDirectTcpFrame (transformHeader ++ acm_ciphertext encrypted).

Definition decryptSmb3DirectTcpFrame (responseFrame decryptionKey : bytes)
    (expectedSessionId : Z) (dialect : Dialect) : comp bytes :=
  if negb (supportsEncryption dialect) then unsupportedDialect dialect else
  payload ← reraise (decodeDirectTcpPayload responseFrame);
  fail_if blen payload <? kSmb3TransformHeaderSize
    with ErrorCode_ProtocolUnsupported,
    "SMB3 response is not an encrypted transform message.";;
  protocolId ← readU32Le payload 0;
  fail_if negb (protocolId =? kSmb3TransformProtocolId)
    with ErrorCode_ProtocolUnsupported,
    "SMB3 response is not an encrypted transform message.";;
  originalMessageSize ← readU32Le payload 36;
  algorithm ← readU16Le payload 42;
  sessionId ← readU64Le payload 44;
  fail_if negb (algorithm =? kSmb3Aes128CcmAlgorithm)
    with ErrorCode_UnsupportedCapability,
    "SMB3 response uses an unsupported encryption algorithm.";;
  fail_if negb (sessionId =? expectedSessionId)
    with ErrorCode_ProtocolUnsupported,
    "SMB3 response transform session id does not match the session.";;
  aad ← smb3AadFromHeader payload;
  ccmNonce ← ccmNonceFromTransformNonce payload;
  tag ← read_range payload kSmb3TransformSignatureOffset
          (kSmb3TransformSignatureOffset + kSmb3AesCcmTagSize);
  ciphertext ← read_range payload kSmb3TransformHeaderSize (blen payload);
  plaintext ← aes128CcmDecrypt decryptionKey ccmNonce ciphertext aad tag;
  fail_if negb (blen plaintext =? originalMessageSize)
    with ErrorCode_ProtocolUnsupported,
    "SMB3 decrypted message size does not match transform header.";;
  encodeDirectTcpFrame plaintext.

(** ** [Smb3EncryptionTransport] *)

Record Smb3EncryptionTransport (T : Type) : Type := mkSmb3EncryptionTransport {
  set_inner : option T;
  set_encryptionKey : bytes;
  set_decryptionKey : bytes;
  set_sessionId : Z;
  set_dialect : Dialect;
  set_nonceCounter : Z
}.
Arguments mkSmb3EncryptionTransport {_} _ _ _ _ _ _.
Arguments set_inner {_} _.
Arguments set_encryptionKey {_} _.
Arguments set_decryptionKey {_} _.
Arguments set_sessionId {_} _.
Arguments set_dialect {_} _.
Arguments set_nonceCounter {_} _.

(** A new transport counts from 1. *)
Definition newSmb3EncryptionTransport {T} (inner : option T)
    (encryptionKey decryptionKey : bytes) (sessionId : Z) (dialect : Dialect)
    : Smb3EncryptionTransport T :=
  mkSmb3EncryptionTransport inner encryptionKey decryptionKey sessionId dialect 1.

(** The nonce for a value of [m_nonceCounter]: 8 bytes of it, then zeros. *)
Definition nonceOf (value : Z) : bytes :=
  ((fun index => Z.land (Z.shiftr value (index * 8)) 0xFF)
     <$> [0; 1; 2; 3; 4; 5; 6; 7]) ++ zeros 8.

(** [nextNonce]: the transport after [m_nonceCounter++], and the nonce. *)
Definition nextNonce {T} (t : Smb3EncryptionTransport T)
    : Smb3EncryptionTransport T * bytes :=
  (mkSmb3EncryptionTransport (set_inner t) (set_encryptionKey t)
     (set_decryptionKey t) (set_sessionId t) (set_dialect t)
     (u64 (set_nonceCounter t + 1)),
   nonceOf (set_nonceCounter t)).

Definition with_inner {T} (t : Smb3EncryptionTransport T) (inner : T)
    : Smb3EncryptionTransport T :=
  mkSmb3EncryptionTransport (Some inner) (set_encryptionKey t)
    (set_decryptionKey t) (set_sessionId t) (set_dialect t) (set_nonceCounter t).

#[export] Instance encryption_exchange {T C} `{Transport T C}
    : Transport (Smb3EncryptionTransport T) C :=
  fun t requestFrame context =>
    match set_inner t with
    | None =>
        (t, failure ErrorCode_InternalError
              "SMB3 encryption transport has no inner transport.")
    | Some inner =>
        let '(t, nonce) := nextNonce t in
        match encryptSmb3DirectTcpFrame requestFrame (set_encryptionKey t)
                (set_sessionId t) nonce (set_dialect t) with
        | Ok encryptedRequest =>
            let '(inner', response) := exchange inner encryptedRequest context in
            (with_inner t inner',
             match response with
             | Ok frame =>
                 decryptSmb3DirectTcpFrame frame (set_decryptionKey t)
                   (set_sessionId t) (set_dialect t)
             | failed => failed
             end)
        | failed => (t, failed)
        end
    end.

(** ** Test vector of the repository's tests (RFC 3610, packet 1) *)

Definition rfc3610_key : bytes :=
  [0xc0; 0xc1; 0xc2; 0xc3; 0xc4; 0xc5; 0xc6; 0xc7; 0xc8; 0xc9; 0xca; 0xcb; 0xcc;
   0xcd; 0xce; 0xcf].
Definition rfc3610_nonce : bytes := [0; 0; 0; 3; 2; 1; 0; 0xa0; 0xa1; 0xa2; 0xa3; 0xa4; 0xa5].
Definition rfc3610_plaintext : bytes := Z.of_nat <$> seq 8 23.
Definition rfc3610_result : AesCcmEncryptedMessage := mkAesCcmEncryptedMessage
  [0x58; 0x8c; 0x97; 0x9a; 0x61; 0xc6; 0x63; 0xd2; 0xf0; 0x66; 0xd0; 0xc2; 0xc0;
   0xf9; 0x89; 0x80; 0x6d; 0x5f; 0x6b; 0x61; 0xda; 0xc3; 0x84]
  [0x17; 0xe8; 0xd1; 0x2c; 0xfd; 0xf9; 0x26; 0xe0].

Lemma ccm_rfc3610 :
  aes128CcmEncrypt rfc3610_key rfc3610_nonce rfc3610_plaintext
    [0; 1; 2; 3; 4; 5; 6; 7] 8 = Ok rfc3610_result.
Proof. vm_compute. reflexivity. Qed.

(** ** Lemmas: blocks *)

Lemma be_field_ok n v : bytes_ok (be_field n v) /\ length (be_field n v) = n.
Proof.
  unfold be_field. split.
  - apply Forall_rev, le_split_ok.
  - by rewrite length_rev, length_le_split.
Qed.

Lemma zeroPaddedBlock_ok bs : bytes_ok bs -> is_block (zeroPaddedBlock bs).
Proof.
  intros H. split; [|apply length_resize].
  unfold zeroPaddedBlock, bytes_ok. apply Forall_resize; [ulia|by apply Forall_take].
Qed.

Lemma key_block key : length key = 16%nat -> keyBlockFrom key = Ok key.
Proof.
  intros H. apply read_range_at; [apply at_off_all|]. unfold blen. lia.
Qed.

Lemma counterBlock_ok nonce counter :
  bytes_ok nonce -> blen nonce <= 15 ->
  exists b, counterBlock nonce counter = Ok b /\ is_block b.
Proof.
  intros Hn Hl. unfold counterBlock. rewrite (proj2 (Z.ltb_ge _ _)) by done.
  eexists. split; [done|].
  destruct (be_field_ok (Z.to_nat (15 - blen nonce)) counter) as [Hb Hbl]. split.
  - apply bytes_ok_cons; [apply u8_range|]. by apply bytes_ok_app.
  - simpl. rewrite length_app, Hbl. unfold blen in *. lia.
Qed.

(** One short block of the key stream: applying it twice changes nothing. *)
Lemma xor_stream_cancel a s :
  (length a <= length s)%nat -> xorBytes (xorBytes a s) s = a.
Proof.
  revert s. induction a as [|x a IH]; intros [|y s] H; simpl in H; try done; [lia|].
  unfold xorBytes in *. cbn. rewrite lxor_cancel, IH; [done|lia].
Qed.

Lemma length_xor_stream a s :
  (length a <= length s)%nat -> length (xorBytes a s) = length a.
Proof. intros. unfold xorBytes. rewrite length_zip_with. lia. Qed.

Section ccm.
Context (key : bytes) (Hkey : is_block key).
Context (nonce : bytes) (Hnonce : bytes_ok nonce) (Hnl : blen nonce <= 15).

Lemma ccmCrypt_loop_total fuel counter input :
  bytes_ok input ->
  exists out, ccmCrypt_loop fuel key nonce counter input = Ok out /\ bytes_ok out.
Proof using Hkey Hnonce Hnl.
  revert counter input. induction fuel as [|fuel IH]; intros counter input Hi;
    [exists []; split; [done|apply bytes_ok_nil]|].
  destruct input as [|x input]; [exists []; split; [done|apply bytes_ok_nil]|].
  cbn [ccmCrypt_loop]. destruct (counterBlock_ok nonce counter) as (b & -> & Hb); [done..|].
  cbn [mbind comp_bind].
  destruct (IH (u64 (counter + 1)) (drop 16 (x :: input))) as (out & -> & Ho);
    [by apply Forall_drop|].
  eexists. split; [done|]. apply bytes_ok_app; [|done].
  apply xorBytes_ok; [by apply Forall_take|].
  by apply aes128EncryptBlock_block.
Qed.

Lemma ccmCrypt_loop_involution fuel counter input out :
  (length input <= fuel)%nat ->
  ccmCrypt_loop fuel key nonce counter input = Ok out ->
  length out = length input /\ ccmCrypt_loop fuel key nonce counter out = Ok input.
Proof using Hkey Hnonce Hnl.
  revert counter input out. induction fuel as [|fuel IH]; intros counter input out Hf H.
  { cbn in H. apply Ok_inj in H as <-. destruct input; [done|simpl in Hf; lia]. }
  destruct input as [|x input]; [apply Ok_inj in H as <-; done|].
  cbn [ccmCrypt_loop] in H.
  destruct (counterBlock_ok nonce counter) as (b & Hcb & Hb); [done..|].
  rewrite Hcb in H. cbn [mbind comp_bind] in H. inv_comp. rename x0 into rest.
  destruct (IH (u64 (counter + 1)) (drop 16 (x :: input)) rest) as [Hl Hr];
    [rewrite length_drop; cbn [length] in *; lia|done|].
  set (stream := aes128EncryptBlock key b).
  assert (length stream = 16%nat) as Hs by (by apply aes128EncryptBlock_block).
  set (p := take 16 (x :: input)) in *.
  assert (length p <= length stream)%nat as Hp
    by (rewrite Hs; unfold p; rewrite length_take; lia).
  pose proof (length_xor_stream p stream Hp) as Hxl.
  assert (p ++ drop 16 (x :: input) = x :: input) as Happ by apply take_drop.
  split.
  - rewrite length_app, Hxl, Hl, <- length_app, Happ. done.
  - assert (take 16 (xorBytes p stream ++ rest) = xorBytes p stream /\
            drop 16 (xorBytes p stream ++ rest) = rest) as [Ht Hd].
    { destruct (decide (length p = 16)%nat) as [H16|H16].
      - rewrite take_app_length', drop_app_length' by lia. done.
      - assert (rest = []) as ->.
        { apply length_zero_iff_nil. rewrite Hl, length_drop.
          unfold p in H16. rewrite length_take in H16. cbn [length] in *. lia. }
        rewrite app_nil_r. rewrite Hs in Hp.
        by rewrite take_ge, drop_ge by lia. }
    destruct (xorBytes p stream ++ rest) as [|y out] eqn:Ho.
    + apply (f_equal length) in Ho. rewrite length_app, Hxl in Ho.
      unfold p in Ho. rewrite length_take in Ho. cbn [length] in Ho. lia.
    + cbn [ccmCrypt_loop]. rewrite Hcb. cbn [mbind comp_bind].
      rewrite Hd, Hr. cbn [mbind comp_bind]. fold stream.
      rewrite Ht, xor_stream_cancel by done. by rewrite Happ.
Qed.

Lemma ccmCrypt_involution input out :
  ccmCrypt key nonce input = Ok out ->
  length out = length input /\ ccmCrypt key nonce out = Ok input.
Proof using Hkey Hnonce Hnl.
  unfold ccmCrypt. rewrite key_block by apply Hkey. cbn [mbind comp_bind].
  intros H. destruct (ccmCrypt_loop_involution _ _ _ _ (le_n _) H) as [Hl Hr].
  split; [done|]. by rewrite Hl.
Qed.

Lemma ccmCrypt_total input :
  bytes_ok input -> exists out, ccmCrypt key nonce input = Ok out /\ bytes_ok out.
Proof using Hkey Hnonce Hnl.
  intros Hi. unfold ccmCrypt. rewrite key_block by apply Hkey. cbn [mbind comp_bind].
  by apply ccmCrypt_loop_total.
Qed.

Lemma ccmTagMask_total : exists mask, ccmTagMask key nonce = Ok mask /\ is_block mask.
Proof using Hkey Hnonce Hnl.
  unfold ccmTagMask. rewrite key_block by apply Hkey. cbn [mbind comp_bind].
  destruct (counterBlock_ok nonce 0) as (b & -> & Hb); [done..|].
  eexists. split; [done|]. by apply aes128EncryptBlock_block.
Qed.

Lemma mac_loop_block fuel state bs :
  is_block state -> bytes_ok bs -> is_block (mac_loop fuel key state bs).
Proof using Hkey.
  revert state bs. induction fuel as [|fuel IH]; intros state bs Hs Hb; [done|].
  destruct bs as [|x bs]; [done|]. cbn [mac_loop]. apply IH; [|by apply Forall_drop].
  by apply aes128EncryptBlock_block, xorBlock_ok, zeroPaddedBlock_ok.
Qed.
End ccm.

Lemma padToBlock_ok fuel bs :
  bytes_ok bs -> bytes_ok (padToBlock fuel bs) /\ blen bs <= blen (padToBlock fuel bs).
Proof.
  revert bs. induction fuel as [|fuel IH]; intros bs Hb; [done|]. cbn [padToBlock].
  case_if; [done|]. destruct (IH (bs ++ [0])) as [? Hl].
  - apply bytes_ok_app; [done|apply bytes_ok_cons; [ulia|apply bytes_ok_nil]].
  - split; [done|]. rewrite blen_app in Hl. change (blen [0]) with 1 in Hl. lia.
Qed.

Lemma u16Be_ok v : bytes_ok (u16Be v).
Proof. unfold u16Be. auto with smb. Qed.

Lemma formatAad_ok aad :
  bytes_ok aad ->
  bytes_ok (formatAad aad) /\
  ((blen aad =? 0) = false -> blen aad < 0xFF00 -> (blen (formatAad aad) =? 0) = false).
Proof.
  intros Ha. unfold formatAad. case_if; [by split; [apply bytes_ok_nil|]|].
  case_if; bools; [split; [apply bytes_ok_nil|lia]|].
  destruct (padToBlock_ok 16 (u16Be (u16 (blen aad)) ++ aad)) as [Hok Hl];
    [apply bytes_ok_app; [apply u16Be_ok|done]|].
  split; [done|]. intros _ _. apply Z.eqb_neq.
  rewrite blen_app in Hl. change (blen (u16Be _)) with 2 in Hl. blens. lia.
Qed.

Lemma macFirstBlock_ok nonce aad size tagLength :
  bytes_ok nonce -> 0 < blen nonce <= 13 ->
  is_block (macFirstBlock nonce aad size tagLength).
Proof.
  intros Hn Hl. unfold macFirstBlock.
  destruct (be_field_ok (Z.to_nat (15 - blen nonce)) size) as [Hb Hbl]. split.
  - apply bytes_ok_cons; [apply u8_range|]. by apply bytes_ok_app.
  - rewrite !length_app, Hbl. cbn [length]. unfold blen in *. lia.
Qed.

(** What AES-CCM accepts. *)
Definition ccm_accepts (nonce plaintext aad : bytes) (tagLength : Z) : Prop :=
  0 < blen nonce <= 13 /\ 4 <= tagLength <= 16 /\ tagLength mod 2 = 0 /\
  blen plaintext < ccmMaxLength (15 - blen nonce) /\ blen aad < 0xFF00.

Lemma cbcMac_inv key nonce plaintext aad tagLength mac :
  cbcMac key nonce plaintext aad tagLength = Ok mac ->
  blen key = 16 /\ ccm_accepts nonce plaintext aad tagLength.
Proof.
  intros H. unfold cbcMac, kAesBlockSize in H. inv_comp.
  rewrite !orb_false_iff in *. destruct_and?. bools. split; [done|].
  blens. split_and!; try lia; try done.
  unfold formatAad in *. destruct (blen aad =? 0) eqn:Ha; bools; [lia|].
  destruct (0xFF00 <=? blen aad) eqn:Hb; bools; [discriminate|lia].
Qed.

Section ccm_encrypt.
Context (key : bytes) (Hkey : is_block key).
Context (nonce aad : bytes) (Hnonce : bytes_ok nonce) (Haad : bytes_ok aad).

Lemma cbcMac_total plaintext tagLength :
  bytes_ok plaintext -> ccm_accepts nonce plaintext aad tagLength ->
  exists mac, cbcMac key nonce plaintext aad tagLength = Ok mac /\ is_block mac.
Proof using Hkey Hnonce Haad.
  intros Hp (Hn & Ht & Hm & Hl & Ha). unfold cbcMac, kAesBlockSize.
  assert (blen key = 16) as -> by (destruct Hkey; unfold blen; lia).
  rewrite Z.eqb_refl, (proj2 (Z.eqb_neq (blen nonce) 0)), (proj2 (Z.ltb_ge 13 _)),
    (proj2 (Z.ltb_ge _ 4)), (proj2 (Z.ltb_ge 16 _)), Hm by lia.
  rewrite (proj2 (Z.leb_gt _ _)) by done. cbn [negb orb Z.eqb].
  rewrite key_block by apply Hkey. cbn [mbind comp_bind].
  destruct (formatAad_ok aad Haad) as [Hfa Hne].
  replace (negb (blen aad =? 0) && _) with false.
  - eexists. split; [done|].
    apply mac_loop_block, Hp; [done|]. apply mac_loop_block; [done| |done].
    apply aes128EncryptBlock_block; [done|]. by apply macFirstBlock_ok.
  - destruct (blen aad =? 0); [done|]. cbn [negb andb]. by rewrite Hne.
Qed.

Lemma aes128CcmEncrypt_total plaintext tagLength :
  bytes_ok plaintext -> ccm_accepts nonce plaintext aad tagLength ->
  exists c tag,
    aes128CcmEncrypt key nonce plaintext aad tagLength
      = Ok (mkAesCcmEncryptedMessage c tag) /\
    bytes_ok c /\ bytes_ok tag /\ blen c = blen plaintext /\ blen tag = tagLength /\
    ccmCrypt key nonce plaintext = Ok c.
Proof using Hkey Hnonce Haad.
  intros Hp Hacc. pose proof Hacc as (Hn & Ht & _).
  destruct (cbcMac_total plaintext tagLength Hp Hacc) as (mac & Hmac & Hmb).
  destruct (ccmTagMask_total key Hkey nonce Hnonce ltac:(lia)) as (mask & Hmask & Hkb).
  destruct (ccmCrypt_total key Hkey nonce Hnonce ltac:(lia) plaintext Hp) as (c & Hc & Hcb).
  destruct (ccmCrypt_involution key Hkey nonce Hnonce ltac:(lia) _ _ Hc) as [Hcl _].
  unfold aes128CcmEncrypt. rewrite Hmac. cbn [reraise mbind comp_bind].
  rewrite Hmask. cbn [mbind comp_bind]. rewrite Hc. cbn [mbind comp_bind].
  destruct (xorBlock_ok _ _ Hmb Hkb) as [Hx Hxl].
  do 2 eexists. split; [done|]. split_and!; [done|by apply Forall_take| |..|done].
  - unfold blen. by rewrite Hcl.
  - unfold blen. rewrite length_take. lia.
Qed.

(** Encryption succeeds exactly on what is accepted. *)
Lemma aes128CcmEncrypt_inv plaintext tagLength m :
  aes128CcmEncrypt key nonce plaintext aad tagLength = Ok m ->
  ccm_accepts nonce plaintext aad tagLength.
Proof using Type.
  intros H. unfold aes128CcmEncrypt in H. inv_comp.
  by eapply cbcMac_inv.
Qed.

Lemma decrypt_iff c tag p :
  bytes_ok c -> bytes_ok p -> blen nonce <= 15 ->
  aes128CcmDecrypt key nonce c aad tag = Ok p <->
  aes128CcmEncrypt key nonce p aad (blen tag) = Ok (mkAesCcmEncryptedMessage c tag).
Proof using Hkey Hnonce Haad.
  intros Hc Hp Hn. unfold aes128CcmDecrypt.
  destruct (ccmCrypt_total key Hkey nonce Hnonce Hn c Hc) as (q & Hq & Hqb).
  rewrite Hq. cbn [mbind comp_bind].
  destruct (ccmCrypt_involution key Hkey nonce Hnonce Hn _ _ Hq) as [_ Hqc].
  split; intros H.
  - inv_comp. rewrite !orb_false_iff in *. destruct_and?. bools.
    rewrite bool_decide_eq_true in *. subst tag.
    pose proof (aes128CcmEncrypt_inv _ _ _ H0) as Hacc.
    destruct (aes128CcmEncrypt_total p _ Hp Hacc) as (c' & tag' & He & _ & _ & _ & _ & Hc').
    rewrite He in H0. apply Ok_inj in H0 as <-. cbn [acm_tag] in *.
    rewrite He. rewrite Hqc in Hc'. by apply Ok_inj in Hc' as ->.
  - pose proof (aes128CcmEncrypt_inv _ _ _ H) as Hacc.
    destruct (aes128CcmEncrypt_total p _ Hp Hacc) as (c' & tag' & He & _ & _ & _ & _ & Hc').
    rewrite H in He. apply Ok_inj in He. simplify_eq.
    destruct (ccmCrypt_involution key Hkey nonce Hnonce Hn _ _ Hc') as [_ Hpc].
    rewrite Hq in Hpc. apply Ok_inj in Hpc as ->.
    rewrite H. cbn [reraise mbind comp_bind acm_tag].
    by rewrite Z.eqb_refl, bool_decide_eq_true_2.
Qed.
End ccm_encrypt.

(** ** Lemmas: frames *)

(** A transform message: header with its tag, then the ciphertext. *)
Definition transform_aad (size sessionId : Z) (nonce : bytes) : bytes :=
  nonce ++ u32Le size ++ u16Le 0 ++ u16Le kSmb3Aes128CcmAlgorithm ++ u64Le sessionId.

Definition transform_message (tag aad ciphertext : bytes) : bytes :=
  u32Le kSmb3TransformProtocolId ++ tag ++ aad ++ ciphertext.

Lemma buildTransformHeader_aad size sessionId nonce dialect :
  buildTransformHeader size sessionId nonce dialect =
  u32Le kSmb3TransformProtocolId ++ zeros 16 ++ transform_aad size sessionId nonce.
Proof. unfold buildTransformHeader. by destruct (bool_decide _). Qed.

Section frames.
Context (key : bytes) (Hkey : is_block key).
Context (sessionId : Z) (Hs : is_u64 sessionId).
Context (nonce : bytes) (Hnonce : bytes_ok nonce) (Hnl : blen nonce = 16).
Context (dialect : Dialect) (Hd : supportsEncryption dialect = true).

Lemma blen_transform_aad size : blen (transform_aad size sessionId nonce) = 32.
Proof using Hnl. unfold transform_aad. len. Qed.

Lemma transform_aad_ok size : bytes_ok (transform_aad size sessionId nonce).
Proof using Hnonce. unfold transform_aad. auto 8 with smb. Qed.

Local Abbreviation ccm_nonce := (slice 0 11 nonce).

Lemma ccm_nonce_ok : bytes_ok ccm_nonce /\ blen ccm_nonce = 11.
Proof using Hnonce Hnl.
  split; [by apply Forall_slice|]. apply blen_slice; lia.
Qed.

(** Encryption of a frame, in terms of its payload. *)
Lemma encrypt_frame_eq frame payload :
  bytes_ok frame -> decodeDirectTcpPayload frame = Ok payload ->
  encryptSmb3DirectTcpFrame frame key sessionId nonce dialect =
  encrypted ← reraise (aes128CcmEncrypt key ccm_nonce payload
                (transform_aad (blen payload) sessionId nonce) 16);
  header ← write_range (u32Le kSmb3TransformProtocolId ++ zeros 16
             ++ transform_aad (blen payload) sessionId nonce) 4 (acm_tag encrypted);
  encodeDirectTcpFrame (header ++ acm_ciphertext encrypted).
Proof using Hnl Hd.
  intros Hf Hdec. destruct (decoded_payload_ok _ _ Hf Hdec) as [_ Hmax].
  unfold kMaxDirectTcpPayloadLength in Hmax. blens.
  unfold encryptSmb3DirectTcpFrame. rewrite Hd, Hdec. cbn [negb reraise mbind comp_bind].
  rewrite (proj2 (Z.ltb_ge _ _)) by lia.
  rewrite u32_small by ulia. rewrite buildTransformHeader_aad.
  unfold smb3AadFromHeader, kSmb3TransformAadOffset, kSmb3TransformHeaderSize.
  erewrite (read_range_at _ 20).
  2:{ exists (u32Le kSmb3TransformProtocolId ++ zeros 16), [].
      by rewrite app_nil_r, <- app_assoc. }
  2:{ by rewrite blen_transform_aad. }
  cbn [mbind comp_bind]. unfold kSmb3AesCcmNonceSize.
  unfold read_range at 1. rewrite decide_True by lia. done.
Qed.

Lemma encrypt_frame_total frame payload :
  bytes_ok frame -> decodeDirectTcpPayload frame = Ok payload ->
  exists c tag,
    aes128CcmEncrypt key ccm_nonce payload
      (transform_aad (blen payload) sessionId nonce) 16
      = Ok (mkAesCcmEncryptedMessage c tag) /\
    bytes_ok c /\ blen c = blen payload /\ blen tag = 16 /\
    encryptSmb3DirectTcpFrame frame key sessionId nonce dialect =
    encodeDirectTcpFrame (transform_message tag
      (transform_aad (blen payload) sessionId nonce) c).
Proof using Hkey Hnonce Hnl Hd.
  intros Hf Hdec. destruct (decoded_payload_ok _ _ Hf Hdec) as [Hp Hmax].
  unfold kMaxDirectTcpPayloadLength in Hmax.
  destruct ccm_nonce_ok as [Hn Hnl11].
  destruct (aes128CcmEncrypt_total key Hkey ccm_nonce
    (transform_aad (blen payload) sessionId nonce) Hn (transform_aad_ok _)
    payload 16 Hp) as (c & tag & He & Hc & _ & Hcl & Htl & _).
  { unfold ccm_accepts. rewrite Hnl11, blen_transform_aad.
    change (ccmMaxLength (15 - 11)) with (2 ^ 32). split_and!; try lia; done. }
  exists c, tag. split; [done|]. split; [done|]. split; [done|]. split; [done|].
  rewrite (encrypt_frame_eq _ _ Hf Hdec), He. cbn [reraise mbind comp_bind].
  cbn [acm_tag acm_ciphertext].
  pose proof (write_range_parts (u32Le kSmb3TransformProtocolId) (zeros 16) tag
    (transform_aad (blen payload) sessionId nonce) ltac:(by rewrite Htl)) as Hw.
  change (blen (u32Le _)) with 4 in Hw. rewrite Hw. cbn [mbind comp_bind].
  unfold transform_message. by rewrite <- !app_assoc.
Qed.

(** Decryption of a transform message. *)
Lemma decrypt_frame_eq frame tag size c expected :
  decodeDirectTcpPayload frame
    = Ok (transform_message tag (transform_aad size sessionId nonce) c) ->
  blen tag = 16 -> is_u32 size ->
  decryptSmb3DirectTcpFrame frame key expected dialect =
  fail_if negb (sessionId =? expected) with ErrorCode_ProtocolUnsupported,
    "SMB3 response transform session id does not match the session.";;
  plaintext ← aes128CcmDecrypt key ccm_nonce c
                (transform_aad size sessionId nonce) tag;
  fail_if negb (blen plaintext =? size) with ErrorCode_ProtocolUnsupported,
    "SMB3 decrypted message size does not match transform header.";;
  encodeDirectTcpFrame plaintext.
Proof using Hs Hnonce Hnl Hd.
  intros Hdec Ht Hsz. unfold decryptSmb3DirectTcpFrame. rewrite Hd, Hdec.
  cbn [negb reraise mbind comp_bind].
  pose proof (blen_transform_aad size) as Ha.
  assert (blen (transform_message tag (transform_aad size sessionId nonce) c)
    = 52 + blen c) as Hlen.
  { unfold transform_message. rewrite !blen_app, Ht, Ha. len. }
  unfold kSmb3TransformHeaderSize. blens.
  rewrite (proj2 (Z.ltb_ge _ 52)) by lia.
  assert (readU32Le (transform_message tag (transform_aad size sessionId nonce) c) 0
    = Ok kSmb3TransformProtocolId) as ->.
  { unfold transform_message. by rd_step. }
  cbn [mbind comp_bind]. rewrite Z.eqb_refl. cbn [negb].
  assert (readU32Le (transform_message tag (transform_aad size sessionId nonce) c) 36
    = Ok size) as ->.
  { unfold transform_message, transform_aad. rewrite <- !app_assoc. rd_step. by smalls. }
  assert (readU16Le (transform_message tag (transform_aad size sessionId nonce) c) 42
    = Ok kSmb3Aes128CcmAlgorithm) as ->.
  { unfold transform_message, transform_aad. rewrite <- !app_assoc. by rd_step. }
  assert (readU64Le (transform_message tag (transform_aad size sessionId nonce) c) 44
    = Ok sessionId) as ->.
  { unfold transform_message, transform_aad. rewrite <- !app_assoc. rd_step. by smalls. }
  cbn [mbind comp_bind]. rewrite Z.eqb_refl. cbn [negb].
  destruct (negb (sessionId =? expected)); [done|].
  unfold smb3AadFromHeader, kSmb3TransformAadOffset, kSmb3TransformHeaderSize.
  rewrite (read_range_at _ 20 (transform_aad size sessionId nonce)).
  2:{ unfold transform_message. find_at. }
  2:{ by rewrite Ha. }
  cbn [mbind comp_bind].
  unfold ccmNonceFromTransformNonce, kSmb3TransformNonceOffset, kSmb3AesCcmNonceSize.
  rewrite (read_range_at _ 20 ccm_nonce).
  2:{ unfold transform_message, transform_aad. apply at_off_skip, at_off_skip.
      exists [], (slice 11 (blen nonce) nonce ++ u32Le size ++ u16Le 0
        ++ u16Le kSmb3Aes128CcmAlgorithm ++ u64Le sessionId ++ c).
      rewrite (app_assoc ccm_nonce), <- slice_split by lia.
      rewrite <- !app_assoc, Ht. done. }
  2:{ by rewrite (proj2 ccm_nonce_ok). }
  cbn [mbind comp_bind].
  unfold kSmb3TransformSignatureOffset, kSmb3AesCcmTagSize.
  rewrite (read_range_at _ 4 tag) by first [lia | unfold transform_message; find_at].
  cbn [mbind comp_bind].
  rewrite (read_range_at _ 52 c) by first [lia | unfold transform_message; find_at].
  done.
Qed.
End frames.

(** ** Lemmas: counter blocks and nonces *)

Lemma le_split_inj n a b :
  le_split n a = le_split n b -> a mod 2 ^ (8 * Z.of_nat n) = b mod 2 ^ (8 * Z.of_nat n).
Proof. intros H. apply (f_equal le_value) in H. by rewrite !le_split_value in H. Qed.

Lemma be_field_inj n a b :
  0 <= a < 2 ^ (8 * Z.of_nat n) -> 0 <= b < 2 ^ (8 * Z.of_nat n) ->
  be_field n a = be_field n b -> a = b.
Proof.
  unfold be_field. intros Ha Hb H. apply (f_equal (@rev Z)) in H.
  rewrite !rev_involutive in H. apply le_split_inj in H.
  by rewrite !Z.mod_small in H.
Qed.

Lemma counterBlock_inj n1 n2 i j b :
  blen n1 = 11 -> blen n2 = 11 -> is_u32 i -> is_u32 j ->
  counterBlock n1 i = Ok b -> counterBlock n2 j = Ok b -> n1 = n2 /\ i = j.
Proof.
  unfold counterBlock. intros Hn1 Hn2 Hi Hj. rewrite Hn1, Hn2.
  change (15 <? 11) with false. cbv iota. intros H1 H2.
  apply Ok_inj in H1, H2. rewrite <- H2 in H1. clear H2.
  apply app_inj_1 in H1 as [_ H]; [|done].
  apply app_inj_1 in H as [-> H]; [|unfold blen in *; lia].
  split; [done|]. by apply be_field_inj in H.
Qed.

Lemma macFirstBlock_counterBlock n1 n2 aad size tagLength i :
  blen n1 = 11 -> blen n2 = 11 -> 4 <= tagLength <= 16 ->
  counterBlock n2 i <> Ok (macFirstBlock n1 aad size tagLength).
Proof.
  unfold counterBlock, macFirstBlock. intros Hn1 Hn2 Ht. rewrite Hn1, Hn2.
  change (15 <? 11) with false. cbv iota. intros H. apply Ok_inj in H.
  apply app_inj_1 in H as [H _]; [|done]. injection H as H.
  assert ((tagLength - 2) / 2 = 1 \/ (tagLength - 2) / 2 = 2 \/ (tagLength - 2) / 2 = 3
    \/ (tagLength - 2) / 2 = 4 \/ (tagLength - 2) / 2 = 5 \/ (tagLength - 2) / 2 = 6
    \/ (tagLength - 2) / 2 = 7) as Hcases.
  { pose proof (Z.div_mod (tagLength - 2) 2). pose proof (Z.mod_pos_bound (tagLength - 2) 2).
    lia. }
  destruct (blen aad =? 0);
    destruct Hcases as [E|[E|[E|[E|[E|[E|E]]]]]]; rewrite E in H; discriminate H.
Qed.

Lemma nonceOf_ok v : bytes_ok (nonceOf v) /\ blen (nonceOf v) = 16.
Proof.
  split; [|done]. unfold nonceOf. apply bytes_ok_app; [|apply zeros_ok].
  apply Forall_fmap, Forall_true. intros. apply is_u8_land.
Qed.

Lemma nonceOf_inj a b :
  is_u64 a -> is_u64 b -> slice 0 11 (nonceOf a) = slice 0 11 (nonceOf b) -> a = b.
Proof.
  intros Ha Hb H.
  assert (u64Le a = u64Le b) as Hle.
  { change (slice 0 11 (nonceOf a)) with (u64Le a ++ zeros 3) in H.
    change (slice 0 11 (nonceOf b)) with (u64Le b ++ zeros 3) in H.
    by apply app_inj_1 in H as [H _]. }
  rewrite !u64Le_split in Hle. apply le_split_inj in Hle.
  by rewrite !Z.mod_small in Hle.
Qed.

Lemma blen_transform_message tag size sessionId nonce c :
  blen nonce = 16 ->
  blen (transform_message tag (transform_aad size sessionId nonce) c)
  = 36 + blen tag + blen c.
Proof.
  intros Hn. unfold transform_message. rewrite !blen_app, blen_transform_aad by done.
  change (blen (u32Le _)) with 4. lia.
Qed.

(** A message that leaves room for the header is encrypted, and its frame
    decrypts, for its own session only. *)
Lemma encrypt_decrypt frame payload key sessionId nonce dialect :
  is_block key -> is_u64 sessionId -> bytes_ok nonce -> blen nonce = 16 ->
  supportsEncryption dialect = true -> bytes_ok frame ->
  decodeDirectTcpPayload frame = Ok payload ->
  52 + blen payload <= kMaxDirectTcpPayloadLength ->
  exists encrypted plain,
    encryptSmb3DirectTcpFrame frame key sessionId nonce dialect = Ok encrypted /\
    encodeDirectTcpFrame payload = Ok plain /\
    forall expected,
      decryptSmb3DirectTcpFrame encrypted key expected dialect =
      if sessionId =? expected then Ok plain
      else failure ErrorCode_ProtocolUnsupported
             "SMB3 response transform session id does not match the session.".
Proof.
  intros Hk Hs Hn Hnl Hd Hf Hdec Hroom.
  destruct (decoded_payload_ok _ _ Hf Hdec) as [Hp Hmax].
  destruct (encrypt_frame_total key Hk sessionId nonce Hn Hnl dialect Hd frame payload
    Hf Hdec) as (c & tag & He & Hc & Hcl & Htl & ->).
  set (msg := transform_message _ _ _).
  destruct (encode_frame_total msg) as [enc Henc].
  { unfold msg. rewrite blen_transform_message, Htl, Hcl by done. lia. }
  destruct (encode_frame_total payload) as [plain Hplain]; [done|].
  destruct (decode_frame _ _ [] Henc) as (_ & Hdenc & _). rewrite app_nil_r in Hdenc.
  exists enc, plain. split; [done|]. split; [done|]. intros expected.
  rewrite (decrypt_frame_eq key sessionId Hs nonce Hn Hnl dialect Hd enc tag
    (blen payload) c expected Hdenc Htl)
    by (unfold kMaxDirectTcpPayloadLength in *; blens; ulia).
  destruct (sessionId =? expected); [|done]. cbn [negb].
  destruct (ccm_nonce_ok nonce Hn Hnl) as [Hcn Hcnl].
  rewrite (proj2 (decrypt_iff key Hk _ _ Hcn (transform_aad_ok _ _ Hn _) c tag payload
    Hc Hp ltac:(lia))) by (by rewrite Htl).
  cbn [mbind comp_bind]. by rewrite Z.eqb_refl.
Qed.

(** AES-CCM decryption accepts exactly what encryption produces: under a
    16-byte key, a ciphertext and a tag decrypt to [p] if and only if
    encrypting [p] with the same nonce and associated data gives that
    ciphertext and that tag; encryption succeeds exactly on the nonce, tag and
    message sizes CCM allows, keeps the size of the message and gives a tag of
    the size asked for. *)
Theorem ccm_decryption_exact key nonce aad :
  is_block key -> bytes_ok nonce -> bytes_ok aad ->
  (forall c tag p,
     bytes_ok c -> bytes_ok p -> blen nonce <= 15 ->
     aes128CcmDecrypt key nonce c aad tag = Ok p <->
     aes128CcmEncrypt key nonce p aad (blen tag)
       = Ok (mkAesCcmEncryptedMessage c tag)) /\
  (forall p tagLength,
     bytes_ok p ->
     (exists m, aes128CcmEncrypt key nonce p aad tagLength = Ok m /\
                blen (acm_ciphertext m) = blen p /\ blen (acm_tag m) = tagLength) <->
     ccm_accepts nonce p aad tagLength).
Proof.
  intros Hk Hn Ha. split; [intros; by apply decrypt_iff|].
  intros p tagLength Hp. split.
  - intros (m & H & _). by eapply aes128CcmEncrypt_inv.
  - intros Hacc.
    destruct (aes128CcmEncrypt_total key Hk nonce aad Hn Ha p tagLength Hp Hacc)
      as (c & tag & He & _ & _ & Hcl & Htl & _).
    exists (mkAesCcmEncryptedMessage c tag). done.
Qed.

Lemma ccm_decryption_exact_witness :
  aes128CcmDecrypt (zeros 16) (zeros 11) [3; 4] [] [1; 2; 3; 4] = Ok [5; 6] <->
  aes128CcmEncrypt (zeros 16) (zeros 11) [5; 6] [] 4
    = Ok (mkAesCcmEncryptedMessage [3; 4] [1; 2; 3; 4]).
Proof.
  apply (proj1 (ccm_decryption_exact (zeros 16) (zeros 11) [] zeros_block
    (zeros_ok 11) bytes_ok_nil) [3; 4] [1; 2; 3; 4] [5; 6]);
    [repeat (apply bytes_ok_cons; [ulia|]); apply bytes_ok_nil..|done].
Defined.

(** No block of key stream is used twice: for the 11-byte nonces of SMB 3,
    the blocks enciphered for two counters below 2^32 are different unless
    nonce and counter are the same, and none is ever the first block of a
    MAC. *)
Theorem counter_blocks_distinct n1 n2 i j b aad size tagLength :
  blen n1 = 11 -> blen n2 = 11 -> is_u32 i -> is_u32 j -> 4 <= tagLength <= 16 ->
  (counterBlock n1 i = Ok b -> counterBlock n2 j = Ok b -> n1 = n2 /\ i = j) /\
  counterBlock n2 j <> Ok (macFirstBlock n1 aad size tagLength).
Proof.
  intros. split; [by apply counterBlock_inj|by apply macFirstBlock_counterBlock].
Qed.

Lemma counter_blocks_distinct_witness :
  counterBlock (zeros 11) 1 <> Ok (macFirstBlock (zeros 11) [] 0 16).
Proof.
  refine (proj2 (counter_blocks_distinct (zeros 11) (zeros 11) 0 1 [] [] 0 16 _ _ _ _ _));
    (reflexivity || ulia).
Defined.

(** An encrypted frame comes back: with a 16-byte key, a 16-byte nonce and
    SMB 3.0 or 3.0.2, every frame whose message leaves room for the transform
    header is encrypted, and decrypting the result gives a frame with the same
    message; the same frame presented for another session is rejected; a
    message too long for the header makes the framing throw. *)
Theorem encrypted_frames_decrypt frame payload key sessionId nonce dialect :
  is_block key -> is_u64 sessionId -> bytes_ok nonce -> blen nonce = 16 ->
  supportsEncryption dialect = true -> bytes_ok frame ->
  decodeDirectTcpPayload frame = Ok payload ->
  if 52 + blen payload <=? kMaxDirectTcpPayloadLength then
    exists encrypted plain,
      encryptSmb3DirectTcpFrame frame key sessionId nonce dialect = Ok encrypted /\
      decryptSmb3DirectTcpFrame encrypted key sessionId dialect = Ok plain /\
      decodeDirectTcpPayload plain = Ok payload /\
      forall other, other <> sessionId ->
        decryptSmb3DirectTcpFrame encrypted key other dialect =
        failure ErrorCode_ProtocolUnsupported
          "SMB3 response transform session id does not match the session."
  else exists m, encryptSmb3DirectTcpFrame frame key sessionId nonce dialect = Throw m.
Proof.
  intros Hk Hs Hn Hnl Hd Hf Hdec.
  destruct (52 + blen payload <=? kMaxDirectTcpPayloadLength) eqn:Hroom; bools.
  - destruct (encrypt_decrypt frame payload key sessionId nonce dialect) as
      (encrypted & plain & He & Hplain & Hdecr); try done.
    exists encrypted, plain.
    destruct (decode_frame _ _ [] Hplain) as (_ & Hdplain & _).
    rewrite app_nil_r in Hdplain. split; [done|]. split; [|split; [done|]].
    + by rewrite Hdecr, Z.eqb_refl.
    + intros other Hne. by rewrite Hdecr, (proj2 (Z.eqb_neq _ _)) by congruence.
  - destruct (encrypt_frame_total key Hk sessionId nonce Hn Hnl dialect Hd frame payload
      Hf Hdec) as (c & tag & _ & _ & Hcl & Htl & ->).
    unfold encodeDirectTcpFrame.
    rewrite blen_transform_message, Htl, Hcl by done.
    rewrite (proj2 (Z.ltb_lt _ _)) by lia. eauto.
Qed.

Lemma encrypted_frames_decrypt_witness :
  exists encrypted plain,
    encryptSmb3DirectTcpFrame [0; 0; 0; 1; 7] (zeros 16) 9 (nonceOf 1) Dialect_Smb302
      = Ok encrypted /\
    decryptSmb3DirectTcpFrame encrypted (zeros 16) 9 Dialect_Smb302 = Ok plain /\
    decodeDirectTcpPayload plain = Ok [7].
Proof.
  destruct (encrypted_frames_decrypt [0; 0; 0; 1; 7] [7] (zeros 16) 9 (nonceOf 1)
    Dialect_Smb302) as (e & p & H1 & H2 & H3 & _);
    [apply zeros_block|ulia|apply nonceOf_ok|reflexivity|reflexivity| |reflexivity|].
  - repeat (apply bytes_ok_cons; [ulia|]). apply bytes_ok_nil.
  - exists e, p. by split_and!.
Defined.

(** ** Lemmas: the transport *)

(** The nonce a transform frame carries: 11 bytes behind the framing header,
    the protocol id and the tag. *)
Definition frame_nonce (frame : bytes) : bytes := slice 24 35 frame.

Lemma encode_frame_prefix msg frame :
  encodeDirectTcpFrame msg = Ok frame -> exists pre, blen pre = 4 /\ frame = pre ++ msg.
Proof.
  unfold encodeDirectTcpFrame. intros H. inv_comp.
  eexists (_ :: _ :: _ :: [_]). by split.
Qed.

Lemma encrypted_frame_nonce frame key sessionId nonce dialect encrypted :
  is_block key -> bytes_ok nonce -> blen nonce = 16 -> bytes_ok frame ->
  encryptSmb3DirectTcpFrame frame key sessionId nonce dialect = Ok encrypted ->
  frame_nonce encrypted = slice 0 11 nonce.
Proof.
  intros Hk Hn Hnl Hf H.
  destruct (supportsEncryption dialect) eqn:Hd.
  2:{ unfold encryptSmb3DirectTcpFrame in H. by rewrite Hd in H. }
  destruct (decodeDirectTcpPayload frame) as [payload| | |] eqn:Hdec.
  2-4: unfold encryptSmb3DirectTcpFrame in H; by rewrite Hd, Hdec in H.
  destruct (encrypt_frame_total key Hk sessionId nonce Hn Hnl dialect Hd frame payload
    Hf Hdec) as (c & tag & _ & _ & _ & Htl & He).
  rewrite He in H. apply encode_frame_prefix in H as (pre & Hpre & ->).
  unfold frame_nonce, transform_message, transform_aad.
  assert (nonce = slice 0 11 nonce ++ slice 11 (blen nonce) nonce) as Hsplit
    by (apply slice_split; lia).
  rewrite Hsplit at 1. rewrite <- !app_assoc.
  apply at_off_slice; [|by rewrite blen_slice by lia]. find_at.
Qed.

(** A run of exchanges. *)
Fixpoint exchanges {T C} `{Transport T C} (t : T) (requests : list (bytes * C)) : T :=
  match requests with
  | [] => t
  | (frame, context) :: requests => exchanges (fst (exchange t frame context)) requests
  end.

(** The wire: a transport and the frames that were handed to it. *)
Record Wire (T : Type) : Type := mkWire { wire_to : T; wire_frames : list bytes }.
Arguments mkWire {_} _ _.
Arguments wire_to {_} _.
Arguments wire_frames {_} _.

#[export] Instance wire_exchange {T C} `{Transport T C} : Transport (Wire T) C :=
  fun w frame context =>
    let '(to, response) := exchange (wire_to w) frame context in
    (mkWire to (wire_frames w ++ [frame]), response).

(** Over a wire, after [n] exchanges: the nonces used so far belong to
    different values of the counter, all at most [n]. *)
Definition nonces_used {T} (n : nat) (key : bytes)
    (t : Smb3EncryptionTransport (Wire T)) : Prop :=
  set_encryptionKey t = key /\ set_nonceCounter t = u64 (1 + Z.of_nat n) /\
  exists w used, set_inner t = Some w /\ NoDup used /\
    Forall (fun v => 1 <= v <= Z.of_nat n) used /\
    frame_nonce <$> wire_frames w = (fun v => slice 0 11 (nonceOf (u64 v))) <$> used.

Lemma nonces_used_step {T C} `{Transport T C} n key
    (t : Smb3EncryptionTransport (Wire T)) frame (context : C) :
  is_block key -> bytes_ok frame -> nonces_used n key t ->
  nonces_used (S n) key (fst (exchange t frame context)).
Proof.
  intros Hk Hf (Hkey & Hc & w & used & Hin & Hnd & Hall & Hlog).
  assert (u64 (set_nonceCounter t + 1) = u64 (1 + Z.of_nat (S n))) as Hnext.
  { rewrite Hc. unfold u64. rewrite Zplus_mod_idemp_l. f_equal. lia. }
  assert (Forall (fun v => 1 <= v <= Z.of_nat (S n)) used) as Hall'.
  { eapply Forall_impl; [exact Hall|]. cbv beta. lia. }
  unfold exchange, encryption_exchange. rewrite Hin. cbn [nextNonce].
  destruct (encryptSmb3DirectTcpFrame _ _ _ _ _) as [e| | |] eqn:He;
    [|split; [done|]; split; [done|]; by exists w, used..].
  unfold exchange, wire_exchange.
  destruct (exchange (wire_to w) e context) as [to response]. cbn [fst].
  split; [done|]. split; [done|].
  exists (mkWire to (wire_frames w ++ [e])), (used ++ [1 + Z.of_nat n]).
  split; [done|]. split; [|split].
  - apply NoDup_app. split; [done|]. split; [|apply NoDup_singleton].
    intros v Hv Hv1. apply list_elem_of_singleton in Hv1.
    rewrite Forall_forall in Hall. apply Hall in Hv. lia.
  - apply Forall_app. split; [done|]. apply Forall_singleton. lia.
  - cbn [set_encryptionKey] in He. rewrite Hkey, Hc in He.
    destruct (nonceOf_ok (u64 (1 + Z.of_nat n))) as [Hno Hnol].
    pose proof (encrypted_frame_nonce _ _ _ _ _ _ Hk Hno Hnol Hf He) as Hnonce.
    cbn [wire_frames]. rewrite !fmap_app, Hlog. f_equal. cbn. by rewrite Hnonce.
Qed.

Lemma nonces_used_run {T C} `{Transport T C} key (requests : list (bytes * C)) n
    (t : Smb3EncryptionTransport (Wire T)) :
  is_block key -> Forall (fun r => bytes_ok (fst r)) requests -> nonces_used n key t ->
  nonces_used (length requests + n) key (exchanges t requests).
Proof.
  intros Hk Hall. revert n t.
  induction Hall as [|[frame context] requests Hf Hall IH]; intros n t Hu; [done|].
  cbn [length exchanges]. rewrite Nat.add_succ_comm.
  apply IH. by apply nonces_used_step.
Qed.

Lemma NoDup_nonces used n :
  NoDup used -> Forall (fun v => 1 <= v <= n) used -> n <= 2 ^ 64 ->
  NoDup ((fun v => slice 0 11 (nonceOf (u64 v))) <$> used).
Proof.
  intros Hnd Hall Hn. induction Hnd as [|v used Hv Hnd IH]; [constructor|].
  inversion Hall as [|? ? Hvn Hall']. subst. rewrite fmap_cons. constructor; [|by apply IH].
  intros Hin. apply list_elem_of_fmap in Hin as (v' & Heq & Hin).
  apply nonceOf_inj in Heq; [|apply u64_range..].
  rewrite Forall_forall in Hall'. specialize (Hall' _ Hin). cbv beta in Hall'.
  assert (v = v') as ->; [|done]. unfold u64 in Heq.
  assert ((v - v') mod 2 ^ 64 = 0) as Hz by (rewrite Zminus_mod, Heq, Z.sub_diag; done).
  apply Z.mod_divide in Hz as [k Hk]; [|done]. assert (k = 0) as -> by lia. lia.
Qed.

(** ** Lemmas: what a decrypted frame was *)

Lemma decrypted_ok key nonce aad c tag p :
  is_block key -> bytes_ok nonce -> blen nonce <= 15 -> bytes_ok c ->
  aes128CcmDecrypt key nonce c aad tag = Ok p -> bytes_ok p.
Proof.
  intros Hk Hn Hnl Hc H. unfold aes128CcmDecrypt in H.
  destruct (ccmCrypt_total key Hk nonce Hn Hnl c Hc) as (q & Hq & Hqb).
  rewrite Hq in H. cbn [mbind comp_bind] in H. inv_comp. done.
Qed.

Lemma read_range_inside data from to :
  0 <= from -> from <= to -> to <= blen data -> read_range data from to = Ok (slice from to data).
Proof. intros. unfold read_range. by rewrite decide_True by lia. Qed.

(** What a frame that decrypts carries. *)
Definition authentic_frame (frame key : bytes) (sessionId : Z)
    (payload message : bytes) : Prop :=
  decodeDirectTcpPayload frame = Ok payload /\ bytes_ok message /\
  kSmb3TransformHeaderSize <= blen payload /\
  readU32Le payload 0 = Ok kSmb3TransformProtocolId /\
  readU32Le payload 36 = Ok (blen message) /\
  readU16Le payload 42 = Ok kSmb3Aes128CcmAlgorithm /\
  readU64Le payload 44 = Ok sessionId /\
  aes128CcmEncrypt key (slice 20 31 payload) message (slice 20 52 payload) 16
    = Ok (mkAesCcmEncryptedMessage (slice 52 (blen payload) payload)
            (slice 4 20 payload)).

Lemma decrypt_frame_iff frame key sessionId dialect plain :
  is_block key -> bytes_ok frame -> supportsEncryption dialect = true ->
  decryptSmb3DirectTcpFrame frame key sessionId dialect = Ok plain <->
  exists payload message,
    authentic_frame frame key sessionId payload message /\
    encodeDirectTcpFrame message = Ok plain.
Proof.
  intros Hk Hf Hd. unfold decryptSmb3DirectTcpFrame, authentic_frame.
  rewrite Hd. cbn [negb].
  destruct (decodeDirectTcpPayload frame) as [payload| | |] eqn:Hdec;
    [|split; [done|by intros (? & ? & (? & _) & _)]..].
  destruct (decoded_payload_ok _ _ Hf Hdec) as [Hp _]. cbn [reraise mbind comp_bind].
  unfold smb3AadFromHeader, ccmNonceFromTransformNonce, kSmb3TransformHeaderSize,
    kSmb3TransformSignatureOffset, kSmb3TransformNonceOffset, kSmb3TransformAadOffset,
    kSmb3AesCcmNonceSize, kSmb3AesCcmTagSize.
  change (20 + 11) with 31. change (4 + 16) with 20.
  destruct (blen payload <? 52) eqn:Hlen; bools.
  { split; [done|]. intros (? & ? & (Heq & _ & ? & _) & _). apply Ok_inj in Heq.
    subst. lia. }
  assert (forall p, bytes_ok p ->
    aes128CcmDecrypt key (slice 20 31 payload) (slice 52 (blen payload) payload)
      (slice 20 52 payload) (slice 4 20 payload) = Ok p <->
    aes128CcmEncrypt key (slice 20 31 payload) p (slice 20 52 payload) 16
    = Ok (mkAesCcmEncryptedMessage (slice 52 (blen payload) payload)
            (slice 4 20 payload))) as Hiff.
  { intros p Hpb. rewrite decrypt_iff by (try (by apply Forall_slice); try done; by rewrite blen_slice by lia).
    by rewrite blen_slice by lia. }
  rewrite !read_range_inside by lia. cbn [mbind comp_bind]. split.
  - intros H. inv_comp. bools.
    match goal with H : aes128CcmDecrypt _ _ _ _ _ = Ok ?p |- _ => rename H into Hdc end.
    pose proof Hdc as Hpb. apply decrypted_ok in Hpb; try by apply Forall_slice.
    2: done. 2: by rewrite blen_slice by lia.
    apply Hiff in Hdc; [|done]. do 2 eexists. split; [|done].
    split; [done|]. split; [done|]. split; [done|].
    do 4 (split; [congruence|]). done.
  - intros (payload' & message & (Heq & Hpb & _ & Hr0 & Hr1 & Hr2 & Hr3 & Henc) & Hpl).
    apply Ok_inj in Heq. subst payload'.
    rewrite Hr0, Hr1, Hr2, Hr3. cbn [mbind comp_bind]. rewrite !Z.eqb_refl. cbn [negb].
    rewrite (proj2 (Hiff _ Hpb) Henc). cbn [mbind comp_bind]. by rewrite Z.eqb_refl.
Qed.

Lemma encode_frame_ok msg frame :
  encodeDirectTcpFrame msg = Ok frame -> bytes_ok msg -> bytes_ok frame.
Proof.
  unfold encodeDirectTcpFrame. intros H Hm. inv_comp.
  repeat (apply bytes_ok_cons; [first [apply u8_range | ulia]|]). done.
Qed.

(** C32: No nonce is used twice: whatever the transport is connected to and
    whatever is asked of it, of the frames a new encryption transport puts on
    the wire in up to 2^64 exchanges no two carry the same nonce; an exchange
    that fails before or after sending does not give its nonce back. *)
Theorem transport_nonces_distinct {T C} `{Transport T C} (inner : T)
    encryptionKey decryptionKey sessionId dialect (requests : list (bytes * C)) :
  is_block encryptionKey -> Forall (fun r => bytes_ok (fst r)) requests ->
  Z.of_nat (length requests) <= 2 ^ 64 ->
  exists w,
    set_inner (exchanges (newSmb3EncryptionTransport (Some (mkWire inner []))
      encryptionKey decryptionKey sessionId dialect) requests) = Some w /\
    NoDup (frame_nonce <$> wire_frames w).
Proof.
  intros Hk Hr Hlen.
  destruct (nonces_used_run encryptionKey requests 0
    (newSmb3EncryptionTransport (Some (mkWire inner [])) encryptionKey decryptionKey
       sessionId dialect) Hk Hr) as (_ & _ & w & used & Hin & Hnd & Hall & Hlog).
  { split; [done|]. split; [done|]. exists (mkWire inner []), [].
    by split_and!; [|constructor|constructor|]. }
  exists w. split; [done|]. rewrite Hlog, Nat.add_0_r in *. by eapply NoDup_nonces.
Qed.

(** A transport that answers every request with an error. *)
#[local] Instance dead_transport : Transport unit unit :=
  fun t _ _ => (t, failure ErrorCode_NetworkError "down").

Lemma transport_nonces_distinct_witness :
  exists w,
    set_inner (exchanges (newSmb3EncryptionTransport (Some (mkWire tt [])) (zeros 16)
      (zeros 16) 9 Dialect_Smb302) [([0; 0; 0; 1; 7], tt); ([0; 0; 0; 1; 7], tt)]) = Some w /\
    NoDup (frame_nonce <$> wire_frames w).
Proof.
  apply (transport_nonces_distinct tt (zeros 16) (zeros 16) 9 Dialect_Smb302
    [([0; 0; 0; 1; 7], tt); ([0; 0; 0; 1; 7], tt)]).
  - apply zeros_block.
  - apply Forall_cons_2; [|apply Forall_cons_2; [|by apply Forall_nil_2]];
      (repeat (apply bytes_ok_cons; [ulia|]); apply bytes_ok_nil).
  - by vm_compute.
Defined.

(** C35: Only authentic responses are delivered: with a 16-byte key and SMB 3.0
    or 3.0.2 a frame decrypts to [plain] if and only if it is a transform
    message of this session whose algorithm is AES-128-CCM and whose
    ciphertext and tag are the CCM encryption, under the nonce and the
    associated data in its own header, of a message of the size the header
    declares, of which [plain] is the frame.  With any other dialect nothing
    decrypts. *)
Theorem decrypted_frames_authentic frame key sessionId dialect plain :
  is_block key -> bytes_ok frame ->
  decryptSmb3DirectTcpFrame frame key sessionId dialect = Ok plain <->
  supportsEncryption dialect = true /\
  exists payload message,
    authentic_frame frame key sessionId payload message /\
    encodeDirectTcpFrame message = Ok plain.
Proof.
  intros Hk Hf. destruct (supportsEncryption dialect) eqn:Hd.
  - rewrite decrypt_frame_iff by done. split; [done|by intros [_ ?]].
  - unfold decryptSmb3DirectTcpFrame. rewrite Hd. by split; [|intros [? _]].
Qed.

Lemma decrypted_frames_authentic_witness :
  ~ (exists payload message,
       authentic_frame [0; 0; 0; 0] (zeros 16) 9 payload message /\
       encodeDirectTcpFrame message = Ok [0; 0; 0; 0]).
Proof.
  intros H.
  pose proof (proj2 (decrypted_frames_authentic [0; 0; 0; 0] (zeros 16) 9 Dialect_Smb302
    [0; 0; 0; 0] zeros_block (zeros_ok 4)) (conj eq_refl H)) as Hd.
  discriminate Hd.
Defined.

(** ** The channel between the transport and a server *)

(** A server's end of the channel: it decrypts a request with the client's
    encryption key, serves the message, and encrypts the response. *)
Record Smb3Peer (T : Type) : Type := mkSmb3Peer {
  peer_server : T;
  peer_requestKey : bytes;
  peer_responseKey : bytes;
  peer_sessionId : Z;
  peer_dialect : Dialect;
  peer_nonce : bytes
}.
Arguments mkSmb3Peer {_} _ _ _ _ _ _.
Arguments peer_server {_} _.
Arguments peer_requestKey {_} _.
Arguments peer_responseKey {_} _.
Arguments peer_sessionId {_} _.
Arguments peer_dialect {_} _.
Arguments peer_nonce {_} _.

#[export] Instance peer_exchange {T C} `{Transport T C} : Transport (Smb3Peer T) C :=
  fun p frame context =>
    match decryptSmb3DirectTcpFrame frame (peer_requestKey p) (peer_sessionId p)
            (peer_dialect p) with
    | Ok request =>
        let '(server, response) := exchange (peer_server p) request context in
        (mkSmb3Peer server (peer_requestKey p) (peer_responseKey p)
           (peer_sessionId p) (peer_dialect p) (peer_nonce p),
         match response with
         | Ok frame =>
             encryptSmb3DirectTcpFrame frame (peer_responseKey p)
               (peer_sessionId p) (peer_nonce p) (peer_dialect p)
         | failed => failed
         end)
    | failed => (p, failed)
    end.

(** The encrypted channel is transparent: an encryption transport over a
    peer that holds the same keys, session and dialect answers a framed request
    as the peer's server answers it directly: the server sees the same frame
    and ends in the same state, a framed response comes back as it was, and
    the server's error comes back with its code and text. *)
Theorem encrypted_channel_transparent {T C} `{Transport T C} (server server' : T)
    requestKey responseKey sessionId dialect peerNonce counter request response
    frame (context : C) :
  is_block requestKey -> is_block responseKey -> is_u64 sessionId ->
  supportsEncryption dialect = true -> bytes_ok peerNonce -> blen peerNonce = 16 ->
  bytes_ok request -> 52 + blen request <= kMaxDirectTcpPayloadLength ->
  encodeDirectTcpFrame request = Ok frame ->
  exchange server frame context = (server', response) ->
  match response with
  | Ok answer =>
      exists message, bytes_ok message /\ encodeDirectTcpFrame message = Ok answer /\
        52 + blen message <= kMaxDirectTcpPayloadLength
  | _ => True
  end ->
  let peer s := mkSmb3Peer s requestKey responseKey sessionId dialect peerNonce in
  let transport s n := mkSmb3EncryptionTransport (Some (peer s)) requestKey
                         responseKey sessionId dialect n in
  exchange (transport server counter) frame context =
  (transport server' (u64 (counter + 1)), response).
Proof.
  intros Hk Hk' Hs Hd Hpn Hpnl Hreq Hroom Hframe Hserve Hresp peer transport.
  destruct (nonceOf_ok counter) as [Hno Hnol].
  destruct (decode_frame _ _ [] Hframe) as (_ & Hdec & _). rewrite app_nil_r in Hdec.
  destruct (encrypt_decrypt frame request requestKey sessionId (nonceOf counter) dialect)
    as (e & plain & He & Hplain & Hdecr); try done.
  { by apply encode_frame_ok in Hframe. }
  rewrite Hframe in Hplain. apply Ok_inj in Hplain as <-.
  unfold transport, exchange at 1, encryption_exchange. cbn [set_inner nextNonce
    set_encryptionKey set_sessionId set_dialect set_decryptionKey set_nonceCounter].
  rewrite He. unfold exchange at 1, peer_exchange, peer. cbn [peer_requestKey
    peer_responseKey peer_sessionId peer_dialect peer_nonce peer_server].
  rewrite Hdecr, Z.eqb_refl, Hserve. unfold with_inner. cbn [set_inner
    set_encryptionKey set_sessionId set_dialect set_decryptionKey set_nonceCounter].
  f_equal. destruct response as [answer| | |]; [|done..].
  destruct Hresp as (message & Hm & Hans & Hmr).
  destruct (decode_frame _ _ [] Hans) as (_ & Hda & _). rewrite app_nil_r in Hda.
  destruct (encrypt_decrypt answer message responseKey sessionId peerNonce dialect)
    as (e' & plain' & He' & Hplain' & Hdecr'); try done.
  { by apply encode_frame_ok in Hans. }
  rewrite He', Hdecr', Z.eqb_refl. congruence.
Qed.

(** A server that answers with the frame it was sent. *)
#[local] Instance mirror_transport : Transport unit unit := fun t frame _ => (t, Ok frame).

Lemma encrypted_channel_transparent_witness :
  let transport n := mkSmb3EncryptionTransport
    (Some (mkSmb3Peer tt (zeros 16) (zeros 16) 9 Dialect_Smb300 (zeros 16)))
    (zeros 16) (zeros 16) 9 Dialect_Smb300 n in
  @exchange _ _ (@encryption_exchange _ _ (@peer_exchange _ _ mirror_transport))
    (transport 1) [0; 0; 0; 1; 7] tt = (transport 2, Ok [0; 0; 0; 1; 7]).
Proof.
  apply (@encrypted_channel_transparent unit unit mirror_transport tt tt (zeros 16)
    (zeros 16) 9 Dialect_Smb300 (zeros 16) 1 [7] (Ok [0; 0; 0; 1; 7]) [0; 0; 0; 1; 7] tt);
    try reflexivity; try apply zeros_block; try ulia; try apply (zeros_ok 16).
  - apply bytes_ok_cons; [ulia|apply bytes_ok_nil].
  - discriminate.
  - exists [7]. split; [apply bytes_ok_cons; [ulia|apply bytes_ok_nil]|].
    split; [reflexivity|discriminate].
Defined.
