(* ===== verification/Exchange.v ===== *)
(** * Exchanges with a server

    The operations of the engine send requests over a [Transport] and look at
    the answers, and between two messages they ask whether the caller has
    cancelled them ([isCancellationRequested], [SmbNative.cpp]).  [prog] is a
    small monad of such programs: what comes back from the transport, from the
    cancellation token and from the callbacks is left open, [perform] runs a
    program on a world that answers, and [runs] is the relation between a
    program, the messages of a run and its result.  The exchangers
    ([ReadExchanger.cpp], [WriteExchanger.cpp], [CloseExchanger.cpp],
    [QueryInfoExchanger.cpp], [SetInfoExchanger.cpp],
    [ChangeNotifyExchanger.cpp]) are the first programs. *)

From S2P Require Export Transport DirectTcp Requests Responses Listings InfoClasses.
Local Open Scope Z_scope.
Local Open Scope comp_scope.

(** ** Contexts *)

(** [OperationContext]: the timeout in milliseconds, and whether there is a
    cancellation token and which callbacks are set. *)
Record OperationContext : Set := mkOperationContext {
  oc_timeout : Z;
  oc_cancellationToken : bool;
  oc_cancellationCallback : bool;
  oc_progressCallback : bool
}.

Record TransferProgress : Set := mkTransferProgress {
  tp_bytesTransferred : Z;
  tp_totalBytes : Z
}.

(** ** Programs *)

(** A program that ends with a value, exchanges a frame, reads the
    cancellation token, calls the cancellation callback or the progress
    callback; [OutOfFuel] marks a loop that was cut. *)
Inductive prog (A : Type) : Type :=
| Done (a : A)
| Exchange (frame : bytes) (context : OperationContext) (k : comp bytes -> prog A)
| AskToken (k : bool -> prog A)
| AskCallback (k : bool -> prog A)
| Report (progress : TransferProgress) (k : prog A)
| OutOfFuel.
Arguments Done {_} a.
Arguments Exchange {_} frame context k.
Arguments AskToken {_} k.
Arguments AskCallback {_} k.
Arguments Report {_} progress k.
Arguments OutOfFuel {_}.

Fixpoint prog_bind {A B} (p : prog A) (f : A -> prog B) : prog B :=
  match p with
  | Done a => f a
  | Exchange frame context k => Exchange frame context (fun r => prog_bind (k r) f)
  | AskToken k => AskToken (fun b => prog_bind (k b) f)
  | AskCallback k => AskCallback (fun b => prog_bind (k b) f)
  | Report progress k => Report progress (prog_bind k f)
  | OutOfFuel => OutOfFuel
  end.

(** A program that may fail, throw or read out of bounds. *)
Definition action (A : Type) : Type := prog (comp A).

#[export] Instance action_ret : MRet action := fun A a => Done (Ok a).
#[export] Instance action_bind : MBind action := fun A B f p =>
  prog_bind p (fun r =>
    match r with
    | Ok a => f a
    | Err e => Done (Err e)
    | Throw m => Done (Throw m)
    | OutOfBounds => Done OutOfBounds
    end).

(** A computation that exchanges nothing. *)
Definition lift {A} (c : comp A) : action A := Done c.

(** What the caller makes of a failure: its code and text, and the number of
    messages it reports itself. *)
Definition reraise_used {A} (messagesUsed : Z) (c : comp A) : comp A :=
  match c with
  | Err e => Err (mkProtocolError (err_code e) (err_message e) messagesUsed)
  | _ => c
  end.
Definition failing_with {A} (messagesUsed : Z) (p : action A) : action A :=
  prog_bind p (fun r => Done (reraise_used messagesUsed r)).

(** [reraise] on programs. *)
Definition reraised {A} (p : action A) : action A :=
  prog_bind p (fun r => Done (reraise r)).

(** [isCancellationRequested] *)
Definition isCancelled (context : OperationContext) : action bool :=
  token ← (if oc_cancellationToken context
           then AskToken (fun b => Done (Ok b)) else mret false);
  if token : bool then mret true
  else if oc_cancellationCallback context
  then AskCallback (fun b => Done (Ok b)) else mret false.

(** [cancel_if context with message ;; k]: the guard
    [if (isCancelled(context)) return cancelledResult();]. *)
Notation "'cancel_if' c 'with' message ';;' k" :=
  (isCancelled c ≫= fun cancelled : bool =>
     if cancelled then lift (failure ErrorCode_Cancelled message) else k)
  (at level 10, c at level 99, message at level 99, k at level 200,
   only parsing) : comp_scope.

Definition transport_exchange (frame : bytes) (context : OperationContext)
    : action bytes :=
  Exchange frame context Done.

(** [exchangePayload], the helper every operation file defines. *)
Definition exchangePayload (request : comp bytes) (context : OperationContext)
    : action bytes :=
  frame ← lift (request ≫= encodeDirectTcpFrame);
  response ← reraised (transport_exchange frame context);
  lift (decodeDirectTcpPayload response).

(** ** Exchangers *)

(** The common body of the exchangers: one request, one response, a check for
    cancellation before and after. *)
Definition exchanger {A} (what : string) (request : comp bytes)
    (decode : bytes -> comp A) (context : OperationContext) : action A :=
  cancel_if context with "SMB " +:+ what +:+ " was cancelled.";;
  frame ← lift (request ≫= encodeDirectTcpFrame);
  responseFrame ← reraised (transport_exchange frame context);
  cancel_if context with "SMB " +:+ what +:+ " was cancelled.";;
  payload ← lift (reraise (decodeDirectTcpPayload responseFrame));
  lift (reraise (decode payload)).

Section exchangers.
Context (messageId treeId sessionId : Z) (context : OperationContext).

Definition ReadExchanger_read (options : ReadRequestOptions) : action ReadResponse :=
  exchanger "read" (buildReadRequest options messageId treeId sessionId)
    decodeReadResponse context.

Definition WriteExchanger_write (options : WriteRequestOptions)
    : action WriteResponse :=
  exchanger "write" (buildWriteRequest options messageId treeId sessionId)
    decodeWriteResponse context.

Definition CloseExchanger_close (options : CloseRequestOptions)
    : action CloseResponse :=
  exchanger "close" (Ok (buildCloseRequest options messageId treeId sessionId))
    decodeCloseResponse context.

Definition QueryInfoExchanger_queryInfo (options : QueryInfoRequestOptions)
    : action QueryInfoResponse :=
  exchanger "query info" (buildQueryInfoRequest options messageId treeId sessionId)
    decodeQueryInfoResponse context.

Definition SetInfoExchanger_setInfo (options : SetInfoRequestOptions)
    : action SetInfoResponse :=
  exchanger "set info" (buildSetInfoRequest options messageId treeId sessionId)
    decodeSetInfoResponse context.

Definition ChangeNotifyExchanger_wait (options : ChangeNotifyRequestOptions)
    : action ChangeNotifyResponse :=
  exchanger "change notify"
    (Ok (buildChangeNotifyRequest options messageId treeId sessionId))
    decodeChangeNotifyResponse context.
End exchangers.

(** ** Running a program *)

(** A world a program can be run on: a transport, a cancellation token and the
    caller's callbacks. *)
Class World (W : Type) : Type := {
  world_transport :: Transport W OperationContext;
  ask_token : W -> W * bool;
  ask_callback : W -> W * bool;
  report_progress : W -> TransferProgress -> W
}.

Fixpoint perform {W} `{World W} {A} (p : prog A) (w : W) : W * option A :=
  match p with
  | Done a => (w, Some a)
  | Exchange frame context k =>
      let '(w, response) := exchange w frame context in perform (k response) w
  | AskToken k => let '(w, b) := ask_token w in perform (k b) w
  | AskCallback k => let '(w, b) := ask_callback w in perform (k b) w
  | Report progress k => perform k (report_progress w progress)
  | OutOfFuel => (w, None)
  end.

(** A request frame and what the transport answered. *)
Abbreviation message := (bytes * comp bytes)%type (only parsing).

(** [runs p tr o]: some world answers so that [p] exchanges exactly the
    messages [tr] and ends with [o], [None] if it runs out of fuel. *)
Inductive runs {A} : prog A -> list message -> option A -> Prop :=
| runs_done a : runs (Done a) [] (Some a)
| runs_exchange frame context k response tr o :
    runs (k response) tr o ->
    runs (Exchange frame context k) ((frame, response) :: tr) o
| runs_token k b tr o : runs (k b) tr o -> runs (AskToken k) tr o
| runs_callback k b tr o : runs (k b) tr o -> runs (AskCallback k) tr o
| runs_report progress k tr o : runs k tr o -> runs (Report progress k) tr o
| runs_out : runs OutOfFuel [] None.
#[export] Hint Constructors runs : smb.

(** ** Reasoning about programs *)

(** A message of a transport that keeps its laws: the answer is bytes or an
    error. *)
Definition lawful (m : message) : Prop := wp (snd m) bytes_ok.

(** A world whose transport answers with bytes or an error. *)
Class LawfulWorld (W : Type) `{World W} : Prop :=
  lawful_exchange w frame context : lawful (frame, snd (exchange w frame context)).

(** The messages of a performance. *)
Fixpoint transcript {W} `{World W} {A} (p : prog A) (w : W) : list message :=
  match p with
  | Done _ | OutOfFuel => []
  | Exchange frame context k =>
      let '(w, response) := exchange w frame context in
      (frame, response) :: transcript (k response) w
  | AskToken k => let '(w, b) := ask_token w in transcript (k b) w
  | AskCallback k => let '(w, b) := ask_callback w in transcript (k b) w
  | Report progress k => transcript k (report_progress w progress)
  end.

(** Every performance on such a world is a run over a lawful transport. *)
Lemma transcript_runs {W} `{LawfulWorld W} {A} (p : prog A) w :
  runs p (transcript p w) (snd (perform p w)) /\ Forall lawful (transcript p w).
Proof.
  revert w. induction p as [a|frame context k IH|k IH|k IH|progress k IH|];
    intros w; cbn [perform transcript snd]; [by repeat constructor| | | | |].
  - pose proof (lawful_exchange w frame context) as Hl.
    destruct (exchange w frame context) as [w' r]. destruct (IH r w') as (Htr & Hall).
    split; by constructor.
  - destruct (ask_token w) as [w' b]. destruct (IH b w') as (Htr & Hall).
    split; [by econstructor|done].
  - destruct (ask_callback w) as [w' b]. destruct (IH b w') as (Htr & Hall).
    split; [by econstructor|done].
  - destruct (IH (report_progress w progress)) as (Htr & Hall).
    split; [by constructor|done].
  - by repeat constructor.
Qed.

Lemma perform_runs {W} `{LawfulWorld W} {A} (p : prog A) w :
  exists tr, runs p tr (snd (perform p w)) /\ Forall lawful tr.
Proof. eexists. apply transcript_runs. Qed.

(** A world without a server. *)
#[local] Instance dead_exchange : Transport unit OperationContext :=
  fun w _ _ => (w, failure ErrorCode_NetworkError "down").
#[export] Instance dead_world : World unit := {|
  world_transport := dead_exchange;
  ask_token w := (w, false);
  ask_callback w := (w, false);
  report_progress w _ := w
|}.
#[export] Instance dead_world_lawful : LawfulWorld unit.
Proof. intros w frame context. exact I. Qed.

(** A world whose server answers with the frames it was given, in order. *)
#[local] Instance scripted_exchange : Transport (list bytes) OperationContext :=
  fun w _ _ =>
    match w with
    | [] => ([], failure ErrorCode_NetworkError "closed")
    | frame :: w => (w, Ok (u8 <$> frame))
    end.
#[export] Instance scripted_world : World (list bytes) := {|
  world_transport := scripted_exchange;
  ask_token w := (w, false);
  ask_callback w := (w, false);
  report_progress w _ := w
|}.
#[export] Instance scripted_world_lawful : LawfulWorld (list bytes).
Proof.
  intros [|reply w] frame context; [exact I|].
  apply Forall_forall. intros b (x & -> & _)%list_elem_of_fmap. apply u8_range.
Qed.

(** [pwp p h Q]: after the messages [h], every run of [p] over a lawful
    transport ends with messages and a result that satisfy [Q]. *)
Fixpoint pwp {A} (p : prog A) (h : list message)
    (Q : list message -> option A -> Prop) : Prop :=
  match p with
  | Done a => Q h (Some a)
  | Exchange frame context k =>
      forall response, lawful (frame, response) ->
        pwp (k response) (h ++ [(frame, response)]) Q
  | AskToken k => forall b, pwp (k b) h Q
  | AskCallback k => forall b, pwp (k b) h Q
  | Report progress k => pwp k h Q
  | OutOfFuel => Q h None
  end.

Lemma pwp_mono {A} (p : prog A) h (Q Q' : list message -> option A -> Prop) :
  pwp p h Q -> (forall h o, Q h o -> Q' h o) -> pwp p h Q'.
Proof.
  intros Hp HQ. revert h Hp.
  induction p as [a|frame context k IH|k IH|k IH|progress k IH|]; cbn; eauto.
Qed.

Lemma pwp_bind {A B} (p : prog A) (f : A -> prog B) h Q :
  pwp p h (fun h o => match o with Some a => pwp (f a) h Q | None => Q h None end) ->
  pwp (prog_bind p f) h Q.
Proof.
  revert h. induction p as [a|frame context k IH|k IH|k IH|progress k IH|];
    cbn; eauto.
Qed.

(** What a bind makes of the result of its first part. *)
Definition followed_by {A B} (f : A -> action B) (Q : list message -> option (comp B) -> Prop)
    (h : list message) (o : option (comp A)) : Prop :=
  match o with
  | Some (Ok a) => pwp (f a) h Q
  | Some (Err e) => Q h (Some (Err e))
  | Some (Throw m) => Q h (Some (Throw m))
  | Some OutOfBounds => Q h (Some OutOfBounds)
  | None => Q h None
  end.

Lemma pwp_action_bind {A B} (p : action A) (f : A -> action B) h Q :
  pwp p h (followed_by f Q) -> pwp (p ≫= f) h Q.
Proof.
  intros H. apply pwp_bind. eapply pwp_mono; [exact H|].
  by intros h' [[a|e|m|]|] HQ.
Qed.

Lemma pwp_reraised {A} (p : action A) h Q :
  pwp p h (fun h o => Q h (reraise <$> o)) -> pwp (reraised p) h Q.
Proof.
  intros H. apply pwp_bind. eapply pwp_mono; [exact H|]. by intros h' [[a|e|m|]|] HQ.
Qed.

Lemma pwp_failing_with {A} n (p : action A) h Q :
  pwp p h (fun h o => Q h (reraise_used n <$> o)) -> pwp (failing_with n p) h Q.
Proof.
  intros H. apply pwp_bind. eapply pwp_mono; [exact H|]. by intros h' [[a|e|m|]|] HQ.
Qed.

Lemma pwp_isCancelled context h Q :
  (oc_cancellationToken context || oc_cancellationCallback context = true ->
   Q h (Some (Ok true))) ->
  Q h (Some (Ok false)) -> pwp (isCancelled context) h Q.
Proof.
  intros Ht Hf. unfold isCancelled. apply pwp_action_bind.
  destruct (oc_cancellationToken context); cbn in *.
  - intros []; cbn; [auto|]. destruct (oc_cancellationCallback context); cbn; [|done].
    intros []; auto.
  - destruct (oc_cancellationCallback context); cbn; [|done]. intros []; auto.
Qed.

Lemma pwp_cancel_if {A} context message (k : action A) h Q :
  (oc_cancellationToken context || oc_cancellationCallback context = true ->
   Q h (Some (failure ErrorCode_Cancelled message))) ->
  pwp k h Q ->
  pwp (cancel_if context with message;; k) h Q.
Proof. intros Hc Hk. apply pwp_action_bind, pwp_isCancelled; cbn; auto. Qed.

(** What holds of every lawful continuation holds of every lawful run. *)
Lemma pwp_runs {A} (p : prog A) h Q tr o :
  pwp p h Q -> runs p tr o -> Forall lawful tr -> Q (h ++ tr) o.
Proof.
  intros Hp Hr. revert h Hp.
  induction Hr as [a|frame context k response tr o Hr IH|k b tr o Hr IH|k b tr o Hr IH
    |progress k tr o Hr IH|]; intros h Hp Hl; cbn in Hp.
  - by rewrite app_nil_r.
  - inversion Hl as [|? ? Hm Hl']; subst.
    specialize (IH _ (Hp response Hm) Hl'). by rewrite <- app_assoc in IH.
  - eauto.
  - eauto.
  - eauto.
  - by rewrite app_nil_r.
Qed.

(** ** Requests on a tree *)

(** The requests the operations send: built for message id [m], tree [t] and
    session [s]. *)
Inductive request_on (m t s : Z) : Command -> comp bytes -> Prop :=
| on_create o : request_on m t s Command_Create (buildCreateRequest o m t s)
| on_close o : request_on m t s Command_Close (Ok (buildCloseRequest o m t s))
| on_read o : request_on m t s Command_Read (buildReadRequest o m t s)
| on_write o : request_on m t s Command_Write (buildWriteRequest o m t s)
| on_ioctl o : request_on m t s Command_Ioctl (buildIoctlRequest o m t s)
| on_query_info o : request_on m t s Command_QueryInfo (buildQueryInfoRequest o m t s)
| on_set_info o : request_on m t s Command_SetInfo (buildSetInfoRequest o m t s)
| on_query_directory o :
    request_on m t s Command_QueryDirectory (buildQueryDirectoryRequest o m t s)
| on_change_notify o :
    request_on m t s Command_ChangeNotify (Ok (buildChangeNotifyRequest o m t s)).
#[export] Hint Constructors request_on : smb.

(** A frame whose message has this header address. *)
Definition addressed (command : Command) (m t s : Z) (frame : bytes) : Prop :=
  exists msg h,
    encodeDirectTcpFrame msg = Ok frame /\ decodeSmb2SyncHeader msg = Ok h /\
    hdr_command h = command /\ hdr_messageId h = m /\ hdr_treeId h = t /\
    hdr_sessionId h = s.

Lemma request_on_header m t s command request msg :
  is_u64 m -> is_u32 t -> is_u64 s ->
  request_on m t s command request -> request = Ok msg ->
  exists h, decodeSmb2SyncHeader msg = Ok h /\
    hdr_command h = command /\ hdr_messageId h = m /\ hdr_treeId h = t /\
    hdr_sessionId h = s.
Proof.
  intros Hm Ht Hs Hreq Hmsg.
  assert (exists cc cr, decodeSmb2SyncHeader msg = Ok (requestHeader command cc cr m t s))
    as (cc & cr & H); [|by exists (requestHeader command cc cr m t s)].
  destruct Hreq; unfold buildCloseRequest, buildChangeNotifyRequest in *; inv_builder;
    do 2 eexists; header_kept.
Qed.

(** A builder returns a message or throws. *)
Lemma request_on_wpt m t s command request :
  request_on m t s command request -> wpt request (fun _ => True).
Proof.
  intros []; try exact I;
    unfold buildCreateRequest, buildReadRequest, buildWriteRequest, buildIoctlRequest,
      buildSetInfoRequest, buildQueryInfoRequest, buildQueryDirectoryRequest;
    repeat (wpt_step; try exact I);
    (eapply wpt_mono; [apply wpt_encodeUtf16Le|]; intros name _;
     repeat (wpt_step; try exact I)).
Qed.

(** A request is sent, or an exception is thrown. *)
Lemma request_on_throws m t s command request :
  request_on m t s command request -> throws_only (request ≫= encodeDirectTcpFrame).
Proof.
  intros Hreq. apply throws_only_bind.
  - destruct Hreq; try apply throws_only_Ok;
      unfold buildCreateRequest, buildReadRequest, buildWriteRequest, buildIoctlRequest,
        buildSetInfoRequest, buildQueryInfoRequest, buildQueryDirectoryRequest;
      repeat first [throws_step | apply throws_only_encodeUtf16Le | intros ?].
  - intros msg. unfold encodeDirectTcpFrame. repeat throws_step.
Qed.

(** ** What an exchange does *)

(** The frame a request is sent in. *)
Definition sent (request : comp bytes) (frame : bytes) : Prop :=
  request ≫= encodeDirectTcpFrame = Ok frame.

(** The message an answer carries. *)
Definition replied (response : comp bytes) (payload : bytes) : Prop :=
  exists frame, response = Ok frame /\ decodeDirectTcpPayload frame = Ok payload.

Lemma sent_addressed m t s command request frame :
  is_u64 m -> is_u32 t -> is_u64 s ->
  request_on m t s command request -> sent request frame ->
  addressed command m t s frame.
Proof.
  intros Hm Ht Hs Hreq Hsent. unfold sent in Hsent.
  apply bind_Ok_inv in Hsent as (msg & Hmsg & Henc).
  destruct (request_on_header m t s command request msg Hm Ht Hs Hreq Hmsg)
    as (h & Hh & ?). by exists msg, h.
Qed.

Lemma send_cases m t s command request :
  request_on m t s command request ->
  (exists frame, request ≫= encodeDirectTcpFrame = Ok frame) \/
  (exists e, request ≫= encodeDirectTcpFrame = Err e) \/
  (exists e, request ≫= encodeDirectTcpFrame = Throw e).
Proof.
  intros Hreq. apply request_on_wpt in Hreq.
  assert (wpt (request ≫= encodeDirectTcpFrame) (fun _ => True)) as H.
  { apply wpt_bind. eapply wpt_mono; [exact Hreq|]. intros msg _.
    unfold encodeDirectTcpFrame. by case_if. }
  destruct (request ≫= encodeDirectTcpFrame); [eauto..|done].
Qed.

Section specs.
Context (m t s : Z) (command : Command) (request : comp bytes).
Context (Hreq : request_on m t s command request).
Context (context : OperationContext) (h : list message).

(** After a request was sent, with [k] to come. *)
Definition after_sending {B} (Q : list message -> option (comp B) -> Prop)
    (answered : list message -> bytes -> Prop) : Prop :=
  forall frame response, sent request frame ->
    (forall e, Q (h ++ [(frame, response)]) (Some (Err e))) /\
    (forall payload, bytes_ok payload -> replied response payload ->
       answered (h ++ [(frame, response)]) payload).

Lemma pwp_exchangePayload Q :
  (forall e, Q h (Some (Throw e))) -> (forall e, Q h (Some (Err e))) ->
  after_sending Q (fun h payload => Q h (Some (Ok payload))) ->
  pwp (exchangePayload request context) h Q.
Proof using Hreq.
  intros Hthrow Herr Hsent. unfold exchangePayload. apply pwp_action_bind.
  unfold lift. cbn [pwp].
  destruct (send_cases m t s command request Hreq) as [[f Hf]|[[e He]|[e He]]].
  2: rewrite He; apply Herr. 2: rewrite He; apply Hthrow.
  rewrite Hf. cbn [followed_by]. apply pwp_action_bind, pwp_reraised.
  unfold transport_exchange. cbn [pwp]. intros response Hlaw.
  destruct (Hsent f response Hf) as [He Hp]. unfold lawful in Hlaw. cbn [snd] in Hlaw.
  destruct response as [rf|e|e|]; cbn in Hlaw |- *; [|apply He|done|done].
  pose proof (wp_decodeDirectTcpPayload rf Hlaw) as Hwp.
  destruct (decodeDirectTcpPayload rf) as [payload|e|e|] eqn:Hdec; cbn in Hwp |- *;
    [|apply He|done|done].
  apply Hp; [apply Hwp|by exists rf].
Qed.

(** One exchange whose answer is decoded: as [exchangePayload] and a decoder. *)
Lemma pwp_exchanger {A} what (decode : bytes -> comp A) Q :
  (forall data, bytes_ok data -> wp (decode data) (fun _ => True)) ->
  (forall e, Q h (Some (Throw e))) -> (forall e, Q h (Some (Err e))) ->
  after_sending Q (fun h payload =>
    forall a, decode payload = Ok a -> Q h (Some (Ok a))) ->
  pwp (exchanger what request decode context) h Q.
Proof using Hreq.
  intros Hdecode Hthrow Herr Hsent. unfold exchanger.
  apply pwp_cancel_if; [intros; apply Herr|]. apply pwp_action_bind.
  unfold lift at 1. cbn [pwp].
  destruct (send_cases m t s command request Hreq) as [[f Hf]|[[e He]|[e He]]].
  2: rewrite He; apply Herr. 2: rewrite He; apply Hthrow.
  rewrite Hf. cbn [followed_by]. apply pwp_action_bind, pwp_reraised.
  unfold transport_exchange. cbn [pwp]. intros response Hlaw.
  destruct (Hsent f response Hf) as [He Hp]. unfold lawful in Hlaw. cbn [snd] in Hlaw.
  destruct response as [rf|e|e|]; cbn in Hlaw; [|apply He|done|done].
  cbn [option_fmap option_map reraise followed_by fmap].
  apply pwp_cancel_if; [intros; apply He|]. apply pwp_action_bind.
  pose proof (wp_decodeDirectTcpPayload rf Hlaw) as Hwp.
  destruct (decodeDirectTcpPayload rf) as [payload|e|e|] eqn:Hdec; cbn in Hwp |- *;
    [|apply He|done|done].
  specialize (Hp payload (proj1 Hwp) ltac:(by exists rf)).
  specialize (Hdecode payload (proj1 Hwp)).
  destruct (decode payload) as [a|e|e|]; cbn in Hdecode |- *;
    [by apply Hp|apply He|done|done].
Qed.
End specs.

(** ** Messages in order *)

(** The messages [h] are requests for the ids [m], [m + 1], ..., on tree [t]
    and session [s]. *)
Definition numbered (m t s : Z) (h : list message) : Prop :=
  forall i frame response, h !! i = Some (frame, response) ->
    exists command, addressed command (u64 (m + Z.of_nat i)) t s frame.

Lemma numbered_nil m t s : numbered m t s [].
Proof. by intros i ? ?. Qed.

Lemma numbered_snoc m t s h k command request frame response :
  is_u32 t -> is_u64 s -> numbered m t s h -> k = Z.of_nat (length h) ->
  request_on (u64 (m + k)) t s command request -> sent request frame ->
  numbered m t s (h ++ [(frame, response)]).
Proof.
  intros Ht Hs Hn -> Hreq Hsent i f r Hi.
  apply lookup_app_Some in Hi as [Hi|[Hlen Hi]]; [by eapply Hn|].
  apply list_lookup_singleton_Some in Hi as [Hz Heq]. simplify_eq.
  exists command. eapply sent_addressed; try done; [apply u64_range|].
  by replace i with (length h) by lia.
Qed.
