(* ===== verification/FileOperations.v ===== *)
(** * Operations on remote objects

    [FileReader.cpp], [FileWriter.cpp], [DirectoryLister.cpp],
    [DirectoryWatcher.cpp], [RemoteStatReader.cpp], [RemoteObjectOperator.cpp]
    and [RemoteMetadataOperator.cpp]: each opens an object, does its work and
    closes it, over a transport and with the message ids its caller set aside. *)

From S2P Require Export Exchange.
Local Open Scope Z_scope.
Local Open Scope comp_scope.

(** ** Results *)

Record FileReadResult : Set := mkFileReadResult {
  frr_fileId : FileId;
  frr_data : bytes;
  frr_dataRemaining : Z
}.

Record FileWriteResult : Set := mkFileWriteResult {
  fwr_fileId : FileId;
  fwr_bytesWritten : Z;
  fwr_remaining : Z;
  fwr_messagesUsed : Z
}.

Record DirectoryListResult : Set := mkDirectoryListResult {
  dlr_directoryFileId : FileId;
  dlr_entries : list DirectoryEntry;
  dlr_messagesUsed : Z
}.

Record DirectoryWatchResult : Set := mkDirectoryWatchResult {
  dwr_directoryFileId : FileId;
  dwr_entries : list ChangeNotifyEntry;
  dwr_status : Z
}.

Record RemoteStatResult : Set := mkRemoteStatResult {
  rsr_fileId : FileId;
  rsr_creationTime : Z;
  rsr_lastAccessTime : Z;
  rsr_lastWriteTime : Z;
  rsr_changeTime : Z;
  rsr_allocationSize : Z;
  rsr_endOfFile : Z;
  rsr_fileAttributes : Z;
  rsr_numberOfLinks : Z;
  rsr_messagesUsed : Z;
  rsr_deletePending : bool;
  rsr_directory : bool;
  rsr_reparsePoint : bool
}.

Record RemoteObjectResult : Set := mkRemoteObjectResult { ror_fileId : FileId }.

Record RemoteMetadataMutationResult : Set := mkRemoteMetadataMutationResult {
  rmm_fileId : FileId;
  rmm_messagesUsed : Z
}.

Record RemoteExtendedAttributesResult : Set := mkRemoteExtendedAttributesResult {
  rea_fileId : FileId;
  rea_entries : list FileFullEaInformation;
  rea_messagesUsed : Z
}.

Record RemoteSecurityDescriptorResult : Set := mkRemoteSecurityDescriptorResult {
  rsd_fileId : FileId;
  rsd_descriptor : bytes;
  rsd_messagesUsed : Z
}.

(** ** Options *)

(** [kFileShareRead | kFileShareWrite | kFileShareDelete]. *)
Definition shareAll : Z :=
  Z.lor (Z.lor kFileShareRead kFileShareWrite) kFileShareDelete.

(** A [CreateRequestOptions] whose other members keep their initial values. *)
Definition createOptions (path : bytes) (desiredAccess fileAttributes
    createDisposition options : Z) : CreateRequestOptions :=
  mkCreateRequestOptions path 0 0x00000002 desiredAccess fileAttributes shareAll
    createDisposition options [].

Definition closeOptions (fileId : FileId) : CloseRequestOptions :=
  mkCloseRequestOptions fileId 0.

Definition readOptions (fileId : FileId) (length offset : Z) : ReadRequestOptions :=
  mkReadRequestOptions fileId length offset 0 0 0 0 [].

Definition writeOptions (fileId : FileId) (data : bytes) (offset : Z)
    : WriteRequestOptions :=
  mkWriteRequestOptions fileId data offset 0 0 [] 0.

(** [FileReader.cpp], [FileWriter.cpp] *)
Definition readerCreateOptions (path : bytes) : CreateRequestOptions :=
  createOptions path
    (Z.lor (Z.lor kFileReadData kFileReadEa) kFileReadAttributes)
    kFileAttributeNormal kFileOpen kFileNonDirectoryFile.

Definition writerCreateOptions (path : bytes) : CreateRequestOptions :=
  createOptions path
    (Z.lor (Z.lor (Z.lor kFileWriteData kFileWriteEa) kFileWriteAttributes)
       kFileReadAttributes)
    kFileAttributeNormal kFileOpenIf kFileNonDirectoryFile.

(** [DirectoryLister.cpp], [DirectoryWatcher.cpp] *)
Definition listerCreateOptions (path : bytes) : CreateRequestOptions :=
  createOptions path
    (Z.lor (Z.lor kFileListDirectory kFileReadEa) kFileReadAttributes)
    kFileAttributeNormal kFileOpen kFileDirectoryFile.

Definition watcherCreateOptions (path : bytes) : CreateRequestOptions :=
  createOptions path (Z.lor kFileListDirectory kFileReadAttributes)
    kFileAttributeNormal kFileOpen kFileDirectoryFile.

(** [RemoteStatReader.cpp] *)
Definition statCreateOptions (path : bytes) : CreateRequestOptions :=
  createOptions path kFileReadAttributes kFileAttributeNormal kFileOpen 0.

Definition statQueryOptions (fileId : FileId) (fileInfoClass outputBufferLength : Z)
    : QueryInfoRequestOptions :=
  mkQueryInfoRequestOptions fileId kInfoTypeFile fileInfoClass outputBufferLength
    [] 0 0.

(** [RemoteObjectOperator.cpp] *)
Definition newDirectoryOptions (path : bytes) : CreateRequestOptions :=
  createOptions path kFileReadAttributes kFileAttributeDirectory kFileCreate
    kFileDirectoryFile.

Definition openForMutationOptions (path : bytes) (directory : bool)
    : CreateRequestOptions :=
  createOptions path
    (Z.lor (Z.lor kDeleteAccess kFileReadAttributes) kFileWriteAttributes)
    kFileAttributeNormal kFileOpen (if directory then kFileDirectoryFile else 0).

Definition symlinkCreateOptions (path : bytes) (directory : bool)
    : CreateRequestOptions :=
  createOptions path (Z.lor kFileWriteAttributes kFileReadAttributes)
    (Z.lor kFileAttributeReparsePoint
       (if directory then kFileAttributeDirectory else 0))
    kFileCreate
    (Z.lor kFileOpenReparsePoint
       (if directory then kFileDirectoryFile else kFileNonDirectoryFile)).

(** [RemoteMetadataOperator.cpp] *)
Definition metadataOpenOptions (path : bytes) (desiredAccess : Z)
    : CreateRequestOptions :=
  createOptions path desiredAccess kFileAttributeNormal kFileOpen 0.

Definition metadataQueryOptions (fileId : FileId) (infoType fileInfoClass
    outputBufferLength additionalInformation : Z) : QueryInfoRequestOptions :=
  mkQueryInfoRequestOptions fileId infoType fileInfoClass outputBufferLength []
    additionalInformation 0.

Definition setOptions (fileId : FileId) (infoType fileInfoClass : Z)
    (buffer : bytes) (additionalInformation : Z) : SetInfoRequestOptions :=
  mkSetInfoRequestOptions fileId infoType fileInfoClass buffer
    additionalInformation.

Definition securityQueryAccess (securityInformation : Z) : Z :=
  let access := Z.lor kReadControlAccess kFileReadAttributes in
  if has_flag securityInformation kSaclSecurityInformation
  then Z.lor access kAccessSystemSecurity else access.

Definition securitySetAccess (securityInformation : Z) : Z :=
  let access := kFileReadAttributes in
  let access :=
    if has_flag securityInformation kOwnerSecurityInformation
       || has_flag securityInformation kGroupSecurityInformation
    then Z.lor access kWriteOwnerAccess else access in
  let access :=
    if has_flag securityInformation kDaclSecurityInformation
    then Z.lor access kWriteDacAccess else access in
  if has_flag securityInformation kSaclSecurityInformation
  then Z.lor access kAccessSystemSecurity else access.

(** [failureFrom(error, messageId)]: the text names the message. *)
Definition with_message_id {A} (messageId : Z) (c : comp A) : comp A :=
  match c with
  | Err e =>
      failure (err_code e)
        (err_message e +:+ " message_id=" +:+ std_dec messageId +:+ ".")
  | _ => c
  end.

(** ** Operations *)

Section operations.
Context (messageId treeId sessionId : Z) (context : OperationContext).

(** The id [messageId + k]. *)
Local Abbreviation id k := (u64 (messageId + k)).

(** [closer.close(...)] with the id [messageId + k]. *)
Definition close_with (k : Z) (fileId : FileId) : action CloseResponse :=
  CloseExchanger_close (id k) treeId sessionId context (closeOptions fileId).

Definition FileReader_readOnce (path : bytes) (length offset : Z)
    : action FileReadResult :=
  let cancelled := "SMB file read was cancelled."%string in
  cancel_if context with cancelled;;
  createPayload ← reraised (exchangePayload
    (buildCreateRequest (readerCreateOptions path) messageId treeId sessionId)
    context);
  cancel_if context with cancelled;;
  createResponse ← lift (with_message_id messageId
                           (decodeCreateResponse createPayload));
  let fileId := crr_fileId createResponse in
  readResponse ← reraised (ReadExchanger_read (id 1) treeId sessionId context
                             (readOptions fileId length offset));
  reraised (close_with 2 fileId);;
  mret (mkFileReadResult fileId (rdr_data readResponse)
          (rdr_dataRemaining readResponse)).

Definition FileWriter_writeOnce (path data : bytes) (offset : Z)
    : action FileWriteResult :=
  let cancelled := "SMB file write was cancelled."%string in
  cancel_if context with cancelled;;
  createPayload ← reraised (exchangePayload
    (buildCreateRequest (writerCreateOptions path) messageId treeId sessionId)
    context);
  cancel_if context with cancelled;;
  createResponse ← lift (reraise (decodeCreateResponse createPayload));
  let fileId := crr_fileId createResponse in
  if blen data =? 0 then
    reraised (close_with 1 fileId);;
    mret (mkFileWriteResult fileId 0 0 2)
  else
    writeResponse ← reraised (WriteExchanger_write (id 1) treeId sessionId context
                                (writeOptions fileId data offset));
    reraised (close_with 2 fileId);;
    mret (mkFileWriteResult fileId (wrr_count writeResponse)
            (wrr_remaining writeResponse) 3).

(** The query loop of [DirectoryLister::list], with [messagesUsed] messages
    used and [entries] read so far.  The server decides when it ends: [fuel]
    bounds the number of queries. *)
Fixpoint list_loop (fuel : nat) (fileId : FileId) (firstQuery : bool)
    (messagesUsed : Z) (entries : list DirectoryEntry)
    : action (list DirectoryEntry * Z) :=
  match fuel with
  | O => OutOfFuel
  | S fuel =>
      let queryOptions :=
        mkQueryDirectoryRequestOptions fileId [0x2A] kFileIdBothDirectoryInformation
          (if firstQuery then kQueryDirectoryRestartScans else 0) 0 65536 in
      queryPayload ← reraised (exchangePayload
        (buildQueryDirectoryRequest queryOptions (id messagesUsed) treeId sessionId)
        context);
      let messagesUsed := u64 (messagesUsed + 1) in
      cancel_if context with "SMB directory listing was cancelled.";;
      queryResponse ← lift (reraise (decodeQueryDirectoryResponse queryPayload));
      if qdr_status queryResponse =? kStatusNoMoreFiles
      then mret (entries, messagesUsed)
      else
        let entries := entries ++ qdr_entries queryResponse in
        match qdr_entries queryResponse with
        | [] => mret (entries, messagesUsed)
        | _ => list_loop fuel fileId false messagesUsed entries
        end
  end.

Definition DirectoryLister_list (fuel : nat) (path : bytes)
    : action DirectoryListResult :=
  let cancelled := "SMB directory listing was cancelled."%string in
  cancel_if context with cancelled;;
  createPayload ← reraised (exchangePayload
    (buildCreateRequest (listerCreateOptions path) (id 0) treeId sessionId)
    context);
  cancel_if context with cancelled;;
  createResponse ← lift (with_message_id messageId
                           (decodeCreateResponse createPayload));
  let fileId := crr_fileId createResponse in
  queried ← list_loop fuel fileId true 1 [];
  let '(entries, messagesUsed) := queried in
  reraised (close_with messagesUsed fileId);;
  mret (mkDirectoryListResult fileId entries (u64 (messagesUsed + 1))).

Definition DirectoryWatcher_waitOnce (path : bytes) (completionFilter : Z)
    (watchTree : bool) (outputBufferLength : Z) : action DirectoryWatchResult :=
  let cancelled := "SMB directory watch was cancelled."%string in
  cancel_if context with cancelled;;
  createPayload ← reraised (exchangePayload
    (buildCreateRequest (watcherCreateOptions path) messageId treeId sessionId)
    context);
  createResponse ← lift (reraise (decodeCreateResponse createPayload));
  cancel_if context with cancelled;;
  let fileId := crr_fileId createResponse in
  notifyResponse ← reraised (ChangeNotifyExchanger_wait (id 1) treeId sessionId
    context
    (mkChangeNotifyRequestOptions fileId (if watchTree then kSmb2WatchTree else 0)
       outputBufferLength completionFilter));
  reraised (close_with 2 fileId);;
  mret (mkDirectoryWatchResult fileId (cnr_entries notifyResponse)
          (cnr_status notifyResponse)).

Definition RemoteStatReader_stat (path : bytes) : action RemoteStatResult :=
  let cancelled := "SMB stat was cancelled."%string in
  cancel_if context with cancelled;;
  createPayload ← failing_with 1 (exchangePayload
    (buildCreateRequest (statCreateOptions path) messageId treeId sessionId)
    context);
  cancel_if context with cancelled;;
  createResponse ← lift (reraise_used 1 (decodeCreateResponse createPayload));
  let fileId := crr_fileId createResponse in
  basicResponse ← failing_with 2 (QueryInfoExchanger_queryInfo (id 1) treeId
    sessionId context (statQueryOptions fileId kFileBasicInformation 40));
  cancel_if context with cancelled;;
  basicInfo ← lift (reraise_used 2
    (decodeFileBasicInformation (qir_buffer basicResponse)));
  standardResponse ← failing_with 3 (QueryInfoExchanger_queryInfo (id 2) treeId
    sessionId context (statQueryOptions fileId kFileStandardInformation 24));
  cancel_if context with cancelled;;
  standardInfo ← lift (reraise_used 3
    (decodeFileStandardInformation (qir_buffer standardResponse)));
  failing_with 4 (close_with 3 fileId);;
  mret (mkRemoteStatResult fileId (fbi_creationTime basicInfo)
          (fbi_lastAccessTime basicInfo) (fbi_lastWriteTime basicInfo)
          (fbi_changeTime basicInfo) (fsi_allocationSize standardInfo)
          (fsi_endOfFile standardInfo) (fbi_fileAttributes basicInfo)
          (fsi_numberOfLinks standardInfo) 4 (fsi_deletePending standardInfo)
          (fsi_directory standardInfo)
          (has_flag (fbi_fileAttributes basicInfo) kFileAttributeReparsePoint
           || crr_isReparsePoint createResponse)).

(** *** [RemoteObjectOperator] *)

(** [openObject]: the answer to a CREATE. *)
Definition openObject (options : CreateRequestOptions) : action CreateResponse :=
  createPayload ← reraised (exchangePayload
    (buildCreateRequest options messageId treeId sessionId) context);
  lift (decodeCreateResponse createPayload).

Definition closeAndReturn (k : Z) (fileId : FileId) : action RemoteObjectResult :=
  reraised (close_with k fileId);;
  mret (mkRemoteObjectResult fileId).

Definition createDirectory (path : bytes) : action RemoteObjectResult :=
  let cancelled := "SMB create directory was cancelled."%string in
  cancel_if context with cancelled;;
  createResponse ← reraised (openObject (newDirectoryOptions path));
  cancel_if context with cancelled;;
  closeAndReturn 1 (crr_fileId createResponse).

(** The common body of the operations that open an object, change it with one
    request and close it; [change] may throw when it builds its buffer. *)
Definition open_change_close {A} (cancelled : string)
    (options : CreateRequestOptions) (change : FileId -> action A)
    : action RemoteObjectResult :=
  cancel_if context with cancelled;;
  createResponse ← reraised (openObject options);
  cancel_if context with cancelled;;
  let fileId := crr_fileId createResponse in
  reraised (change fileId);;
  closeAndReturn 2 fileId.

Definition deleteObject (path : bytes) (directory : bool)
    : action RemoteObjectResult :=
  open_change_close "SMB delete was cancelled." (openForMutationOptions path directory)
    (fun fileId =>
       SetInfoExchanger_setInfo (id 1) treeId sessionId context
         (setOptions fileId kInfoTypeFile kFileDispositionInformation
            (buildFileDispositionInformation true) 0)).

Definition renameObject (fromPath toPath : bytes) (replaceIfExists : bool)
    : action RemoteObjectResult :=
  open_change_close "SMB rename was cancelled." (openForMutationOptions fromPath false)
    (fun fileId =>
       buffer ← lift (buildFileRenameInformation toPath replaceIfExists);
       SetInfoExchanger_setInfo (id 1) treeId sessionId context
         (setOptions fileId kInfoTypeFile kFileRenameInformation buffer 0)).

Definition createHardLink (existingPath linkPath : bytes) (replaceIfExists : bool)
    : action RemoteObjectResult :=
  open_change_close "SMB hardlink creation was cancelled."
    (openForMutationOptions existingPath false)
    (fun fileId =>
       buffer ← lift (buildFileLinkInformation linkPath replaceIfExists);
       SetInfoExchanger_setInfo (id 1) treeId sessionId context
         (setOptions fileId kInfoTypeFile kFileLinkInformation buffer 0)).

(** [ioctl]: the answer to an IOCTL. *)
Definition ioctl (k : Z) (options : IoctlRequestOptions) : action IoctlResponse :=
  payload ← reraised (exchangePayload
    (buildIoctlRequest options (id k) treeId sessionId) context);
  lift (decodeIoctlResponse payload).

Definition createSymbolicLink (linkPath targetPath : bytes)
    (directory relative : bool) : action RemoteObjectResult :=
  open_change_close "SMB symlink creation was cancelled."
    (symlinkCreateOptions linkPath directory)
    (fun fileId =>
       input ← lift (buildSymbolicLinkReparseBuffer targetPath targetPath relative);
       ioctl 1 (mkIoctlRequestOptions kFsctlSetReparsePoint fileId input 0 0
                  kIoctlIsFsctl)).

(** *** [RemoteMetadataOperator] *)

(** [openObject] of this file: its failures count one message. *)
Definition openForMetadata (options : CreateRequestOptions) : action CreateResponse :=
  createPayload ← failing_with 1 (exchangePayload
    (buildCreateRequest options messageId treeId sessionId) context);
  lift (reraise_used 1 (decodeCreateResponse createPayload)).

Definition closeMutation (fileId : FileId) : action RemoteMetadataMutationResult :=
  failing_with 3 (close_with 2 fileId);;
  mret (mkRemoteMetadataMutationResult fileId 3).

(** The operations that open, set one piece of information and close; the
    buffer is built after the object is open. *)
Definition setInformation (path : bytes) (desiredAccess infoType fileInfoClass : Z)
    (buffer : comp bytes) (additionalInformation : Z)
    : action RemoteMetadataMutationResult :=
  let cancelled := "SMB metadata operation was cancelled."%string in
  cancel_if context with cancelled;;
  createResponse ← openForMetadata (metadataOpenOptions path desiredAccess);
  cancel_if context with cancelled;;
  let fileId := crr_fileId createResponse in
  buffer ← lift buffer;
  failing_with 2 (SetInfoExchanger_setInfo (id 1) treeId sessionId context
    (setOptions fileId infoType fileInfoClass buffer additionalInformation));;
  closeMutation fileId.

Definition setBasicInformation (path : bytes) (info : FileBasicInformation)
    : action RemoteMetadataMutationResult :=
  setInformation path (Z.lor kFileWriteAttributes kFileReadAttributes) kInfoTypeFile
    kFileBasicInformation (Ok (buildFileBasicInformation info)) 0.

Definition listExtendedAttributes (path : bytes)
    : action RemoteExtendedAttributesResult :=
  let cancelled := "SMB EA query was cancelled."%string in
  cancel_if context with cancelled;;
  createResponse ← openForMetadata
    (metadataOpenOptions path (Z.lor kFileReadEa kFileReadAttributes));
  cancel_if context with cancelled;;
  let fileId := crr_fileId createResponse in
  queryResponse ← failing_with 2 (QueryInfoExchanger_queryInfo (id 1) treeId
    sessionId context
    (metadataQueryOptions fileId kInfoTypeFile kFileFullEaInformation 65536 0));
  entries ← lift (reraise_used 2
    (decodeFileFullEaInformation (qir_buffer queryResponse)));
  failing_with 3 (close_with 2 fileId);;
  mret (mkRemoteExtendedAttributesResult fileId entries 3).

Definition setExtendedAttributes (path : bytes)
    (entries : list FileFullEaInformation) : action RemoteMetadataMutationResult :=
  setInformation path (Z.lor kFileWriteEa kFileReadAttributes) kInfoTypeFile
    kFileFullEaInformation (buildFileFullEaInformation entries) 0.

Definition removeExtendedAttribute (path name : bytes)
    : action RemoteMetadataMutationResult :=
  setExtendedAttributes path [mkFileFullEaInformation name [] false].

Definition querySecurityDescriptor (path : bytes) (securityInformation : Z)
    : action RemoteSecurityDescriptorResult :=
  let cancelled := "SMB security descriptor query was cancelled."%string in
  cancel_if context with cancelled;;
  createResponse ← openForMetadata
    (metadataOpenOptions path (securityQueryAccess securityInformation));
  cancel_if context with cancelled;;
  let fileId := crr_fileId createResponse in
  queryResponse ← failing_with 2 (QueryInfoExchanger_queryInfo (id 1) treeId
    sessionId context
    (metadataQueryOptions fileId kInfoTypeSecurity 0 65536 securityInformation));
  failing_with 3 (close_with 2 fileId);;
  mret (mkRemoteSecurityDescriptorResult fileId (qir_buffer queryResponse) 3).

Definition setSecurityDescriptor (path : bytes) (securityInformation : Z)
    (descriptor : bytes) : action RemoteMetadataMutationResult :=
  setInformation path (securitySetAccess securityInformation) kInfoTypeSecurity 0
    (Ok descriptor) securityInformation.
End operations.
