(* ===== verification/FileRuns.v ===== *)
(** * Runs of the operations on remote objects

    What every operation of [FileOperations.v] does on the wire, whatever a
    lawful transport answers: the ids, tree and session of its messages, their
    number, the handle it opens and closes, and that it never reads out of
    bounds; and that a listing is complete. *)

From S2P Require Export FileOperations.
Local Open Scope Z_scope.
Local Open Scope comp_scope.

(** ** Handles *)

(** The file id a message opened: the message is a CREATE that succeeded. *)
Definition opened_by (msg : message) : option FileId :=
  h ← frameHeader (fst msg);
  if decide (hdr_command h = Command_Create) then
    match (snd msg ≫= decodeDirectTcpPayload) ≫= decodeCreateResponse with
    | Ok r => Some (crr_fileId r)
    | _ => None
    end
  else None.

(** The file id a message asks the server to close. *)
Definition closed_by (msg : message) : option FileId :=
  h ← frameHeader (fst msg);
  if decide (hdr_command h = Command_Close) then
    match decodeDirectTcpPayload (fst msg) with
    | Ok request =>
        match readU64Le request 72, readU64Le request 80 with
        | Ok persistent, Ok volatileId => Some (mkFileId persistent volatileId)
        | _, _ => None
        end
    | _ => None
    end
  else None.

Lemma addressed_header command m t s frame :
  addressed command m t s frame ->
  exists h, frameHeader frame = Some h /\ hdr_command h = command.
Proof.
  intros (msg & h & Henc & Hdec & Hc & _). exists h. split; [|done].
  destruct (decode_frame _ _ [] Henc) as (_ & Hpay & _). rewrite app_nil_r in Hpay.
  unfold frameHeader. by rewrite Hpay, Hdec.
Qed.

Section handles.
Context (m t s : Z) (command : Command) (request : comp bytes).
Context (Hm : is_u64 m) (Ht : is_u32 t) (Hs : is_u64 s).
Context (Hreq : request_on m t s command request).
Context (frame : bytes) (response : comp bytes) (Hsent : sent request frame).

Lemma opened_by_other : command <> Command_Create -> opened_by (frame, response) = None.
Proof using Hm Ht Hs Hreq Hsent.
  intros Hne. destruct (addressed_header command m t s frame) as (h & Hh & <-);
    [by eapply sent_addressed|].
  unfold opened_by. cbn [fst]. rewrite Hh. cbn. by rewrite decide_False.
Qed.

Lemma closed_by_other : command <> Command_Close -> closed_by (frame, response) = None.
Proof using Hm Ht Hs Hreq Hsent.
  intros Hne. destruct (addressed_header command m t s frame) as (h & Hh & <-);
    [by eapply sent_addressed|].
  unfold closed_by. cbn [fst]. rewrite Hh. cbn. by rewrite decide_False.
Qed.

Lemma opened_by_create payload r :
  command = Command_Create -> replied response payload ->
  decodeCreateResponse payload = Ok r ->
  opened_by (frame, response) = Some (crr_fileId r).
Proof using Hm Ht Hs Hreq Hsent.
  intros Hc (rf & -> & Hp) Hr. destruct (addressed_header command m t s frame)
    as (h & Hh & <-); [by eapply sent_addressed|].
  unfold opened_by. cbn [fst snd]. rewrite Hh. cbn [mbind option_bind].
  rewrite decide_True by done. cbn [mbind comp_bind]. by rewrite Hp; cbn; rewrite Hr.
Qed.
End handles.

Lemma closed_by_close m t s fileId frame response :
  is_u64 m -> is_u32 t -> is_u64 s -> FileId_ok fileId ->
  sent (Ok (buildCloseRequest (closeOptions fileId) m t s)) frame ->
  closed_by (frame, response) = Some fileId.
Proof.
  intros Hm Ht Hs [Hp Hv] Hsent.
  destruct (addressed_header Command_Close m t s frame) as (h & Hh & Hc);
    [eapply sent_addressed; eauto with smb|].
  unfold closed_by. cbn [fst]. rewrite Hh. cbn [mbind option_bind].
  rewrite decide_True by done. unfold sent in Hsent. cbn [mbind comp_bind] in Hsent.
  destruct (decode_frame _ _ [] Hsent) as (_ & Hpay & _). rewrite app_nil_r in Hpay.
  rewrite Hpay. clear Hpay. unfold buildCloseRequest, appendFileId, closeOptions.
  assert (blen (encodeSmb2SyncHeader (requestHeader Command_Close 1 1 m t s)) = 64) as Hl.
  { apply blen_encodeSmb2SyncHeader, requestHeader_ok; try ulia.
    apply listed_command_ok, (bool_decide_unpack _). by vm_compute. }
  cbn [clo_fileId clo_flags]. revert Hl. generalize (encodeSmb2SyncHeader
    (requestHeader Command_Close 1 1 m t s)) as header. intros header Hl.
  do 2 rd_step. rewrite !u64_small by done. by destruct fileId.
Qed.

(** ** One step of an operation *)

(** A result that is not a value: an error or an exception. *)
Definition is_failure {A} (c : comp A) : Prop :=
  match c with Err _ | Throw _ => True | _ => False end.

(** [mapped g p]: [p] with its result changed by [g]; [reraised] and
    [failing_with] are of this form. *)
Definition mapped {A} (g : comp A -> comp A) (p : action A) : action A :=
  prog_bind p (fun r => Done (g r)).

(** [g] changes failures only, and into failures. *)
Definition keeps_values {A} (g : comp A -> comp A) : Prop :=
  (forall a, g (Ok a) = Ok a) /\ (forall c, is_failure c -> is_failure (g c)).

Lemma reraise_keeps {A} : keeps_values (@reraise A).
Proof. split; [done|by intros []]. Qed.
Lemma reraise_used_keeps {A} n : keeps_values (@reraise_used A n).
Proof. split; [done|by intros []]. Qed.
Lemma with_message_id_keeps {A} n : keeps_values (@with_message_id A n).
Proof. split; [done|by intros []]. Qed.
Lemma identity_keeps {A} : keeps_values (fun c : comp A => c).
Proof. split; done. Qed.
#[export] Hint Resolve @reraise_keeps @reraise_used_keeps @with_message_id_keeps
  @identity_keeps : smb.

Section steps.
Context (m t s : Z) (Ht : is_u32 t) (Hs : is_u64 s).

(** [k] messages were sent, in order. *)
Definition track (k : nat) (h : list message) : Prop :=
  numbered m t s h /\ length h = k.

(** A postcondition a failure after [k] messages satisfies. *)
Definition tolerant {A} (Q : list message -> option (comp A) -> Prop) (k : nat) : Prop :=
  forall h c, track k h -> is_failure c -> Q h (Some c).

Lemma track_snoc k h command request frame response :
  track k h -> request_on (u64 (m + Z.of_nat k)) t s command request ->
  sent request frame -> track (S k) (h ++ [(frame, response)]).
Proof using Ht Hs.
  intros [Hn Hl] Hreq Hsent. split; [|rewrite length_app; simpl; lia].
  subst k. by eapply numbered_snoc.
Qed.

Lemma step_cancel {A} k h context message (p : action A) Q :
  track k h -> tolerant Q k -> pwp p h Q ->
  pwp (cancel_if context with message;; p) h Q.
Proof using Type. intros. apply pwp_cancel_if; [|done]. intros. by apply H0. Qed.

(** A computation without messages, its failures changed by [g]. *)
Lemma step_lift {A B} k h (g : comp A -> comp A) (c : comp A) P (f : A -> action B) Q :
  keeps_values g -> track k h -> tolerant Q k -> wpt c P ->
  (forall a, c = Ok a -> P a -> pwp (f a) h Q) -> pwp (lift (g c) ≫= f) h Q.
Proof using Type.
  intros [Hv Hg] Hh HQ Hc Hf. apply pwp_action_bind. unfold lift. cbn [pwp].
  destruct c as [a|e|e|]; cbn in Hc; [rewrite Hv; by apply Hf| | |done].
  - pose proof (Hg (Err e) I). destruct (g (Err e)); cbn; try done; by apply HQ.
  - pose proof (Hg (Throw e) I). destruct (g (Throw e)); cbn; try done; by apply HQ.
Qed.

Section exchange.
Context (k : nat) (h : list message) (command : Command) (request : comp bytes).
Context (Htrack : track k h).
Context (Hreq : request_on (u64 (m + Z.of_nat k)) t s command request).
Context (context : OperationContext).

Lemma mapped_failure {A B} (g : comp A -> comp A) (f : A -> action B) Q h' k' c :
  keeps_values g -> track k' h' -> tolerant Q k' -> is_failure c ->
  followed_by f Q h' (Some (g c)).
Proof using Type.
  intros [_ Hg] Hh HQ Hc. specialize (Hg c Hc).
  destruct (g c); cbn in *; try done; by apply HQ.
Qed.

(** A message was sent and [payload] came back. *)
Definition message_sent (frame : bytes) (response : comp bytes) (payload : bytes)
    : Prop :=
  sent request frame /\ bytes_ok payload /\ replied response payload /\
  track (S k) (h ++ [(frame, response)]).

Lemma step_payload {B} g (f : bytes -> action B) Q :
  keeps_values g -> tolerant Q k -> tolerant Q (S k) ->
  (forall frame response payload, message_sent frame response payload ->
     pwp (f payload) (h ++ [(frame, response)]) Q) ->
  pwp (mapped g (exchangePayload request context) ≫= f) h Q.
Proof using Ht Hs Htrack Hreq.
  intros Hg Hk HSk Hf. apply pwp_action_bind, pwp_bind.
  eapply pwp_exchangePayload; [exact Hreq|..].
  - intros e. cbn. by eapply mapped_failure.
  - intros e. cbn. by eapply mapped_failure.
  - intros frame response Hsent.
    assert (track (S k) (h ++ [(frame, response)])) as Htr by by eapply track_snoc.
    split; [intros e; cbn; by eapply mapped_failure|].
    intros payload Hp Hrep. cbn. rewrite (proj1 Hg). apply Hf. by split_and!.
Qed.

Lemma step_exchanger {A B} g what (decode : bytes -> comp A) P (f : A -> action B) Q :
  (forall data, bytes_ok data -> wp (decode data) P) ->
  keeps_values g -> tolerant Q k -> tolerant Q (S k) ->
  (forall frame response payload a, message_sent frame response payload ->
     decode payload = Ok a -> P a -> pwp (f a) (h ++ [(frame, response)]) Q) ->
  pwp (mapped g (exchanger what request decode context) ≫= f) h Q.
Proof using Ht Hs Htrack Hreq.
  intros Hd Hg Hk HSk Hf. apply pwp_action_bind, pwp_bind.
  eapply pwp_exchanger; [exact Hreq|intros; eapply wp_mono; [by apply Hd|done]|..].
  - intros e. cbn. by eapply mapped_failure.
  - intros e. cbn. by eapply mapped_failure.
  - intros frame response Hsent.
    assert (track (S k) (h ++ [(frame, response)])) as Htr by by eapply track_snoc.
    split; [intros e; cbn; by eapply mapped_failure|].
    intros payload Hp Hrep a Ha. cbn. rewrite (proj1 Hg).
    pose proof (wp_Ok _ _ _ (Hd payload Hp) Ha).
    eapply Hf; [|exact Ha|done]. by split_and!.
Qed.
(** An exchange in tail position. *)
Lemma step_exchanger_last {A} what (decode : bytes -> comp A) P Q :
  (forall data, bytes_ok data -> wp (decode data) P) ->
  tolerant Q k -> tolerant Q (S k) ->
  (forall frame response payload a, message_sent frame response payload ->
     decode payload = Ok a -> P a -> Q (h ++ [(frame, response)]) (Some (Ok a))) ->
  pwp (exchanger what request decode context) h Q.
Proof using Ht Hs Htrack Hreq.
  intros Hd Hk HSk Hf.
  eapply pwp_exchanger; [exact Hreq|intros; eapply wp_mono; [by apply Hd|done]|..].
  - intros e. by apply Hk.
  - intros e. by apply Hk.
  - intros frame response Hsent.
    assert (track (S k) (h ++ [(frame, response)])) as Htr by by eapply track_snoc.
    split; [intros e; by apply HSk|].
    intros payload Hp Hrep a Ha. pose proof (wp_Ok _ _ _ (Hd payload Hp) Ha).
    eapply Hf; [|exact Ha|done]. by split_and!.
Qed.

(** A request and its decoder: [openObject], [ioctl]. *)
Lemma step_request_last {A} g (decode : bytes -> comp A) P Q :
  (forall data, bytes_ok data -> wp (decode data) P) -> keeps_values g ->
  tolerant Q k -> tolerant Q (S k) ->
  (forall frame response payload a, message_sent frame response payload ->
     decode payload = Ok a -> P a -> Q (h ++ [(frame, response)]) (Some (Ok a))) ->
  pwp (mapped g (exchangePayload request context) ≫= fun payload =>
         lift (decode payload)) h Q.
Proof using Ht Hs Htrack Hreq.
  intros Hd Hg Hk HSk Hf. apply step_payload; try done.
  intros frame response payload Hmsg. destruct Hmsg as (Hsent & Hp & Hrep & Htr).
  specialize (Hd payload Hp). unfold lift. cbn [pwp].
  destruct (decode payload) as [a|e|e|] eqn:Ha; cbn in Hd; [|by apply HSk|done|done].
  eapply Hf; [|exact Ha|done]. by split_and!.
Qed.
End exchange.

(** The inside of a mapped program. *)
Lemma step_mapped {A B} (g : comp A -> comp A) (p : action A) (f : A -> action B) h Q :
  pwp p h (fun h o => followed_by f Q h (g <$> o)) -> pwp (mapped g p ≫= f) h Q.
Proof using Type.
  intros H. apply pwp_action_bind, pwp_bind. eapply pwp_mono; [exact H|].
  by intros h' [[]|].
Qed.

Lemma tolerant_followed {A B} (g : comp A -> comp A) (f : A -> action B) Q k :
  keeps_values g -> tolerant Q k ->
  tolerant (fun h o => followed_by f Q h (g <$> o)) k.
Proof using Type. intros Hg HQ h c Hh Hc. cbn. by eapply mapped_failure. Qed.
End steps.

Lemma pwp_bind_assoc {A B C} (p : action A) (q : A -> action B) (f : B -> action C) h Q :
  pwp (p ≫= fun a => q a ≫= f) h Q -> pwp ((p ≫= q) ≫= f) h Q.
Proof.
  unfold mbind, action_bind. revert h.
  induction p as [a|frame context k IH|k IH|k IH|progress k IH|]; cbn; eauto.
  by destruct a.
Qed.

(** What the last bind of a program returns. *)
Lemma pwp_mret {A} (a : A) h (Q : list message -> option (comp A) -> Prop) :
  Q h (Some (Ok a)) -> pwp (mret a : action A) h Q.
Proof. done. Qed.

(** ** The operations and what they promise *)

(** [file_operation m t s context A op used limit fuelled]: [op] is an operation
    run with the ids from [m] on; [used] is the number of messages its result
    stands for, [limit] the number it never exceeds; [fuelled] tells the one
    operation with a loop the server controls. *)
Inductive file_operation (m t s : Z) (context : OperationContext)
    : forall A, action A -> (A -> Z) -> nat -> bool -> Prop :=
| op_read path length offset :
    file_operation m t s context _
      (FileReader_readOnce m t s context path length offset) (fun _ => 3) 3 false
| op_write path data offset :
    file_operation m t s context _
      (FileWriter_writeOnce m t s context path data offset) fwr_messagesUsed 3 false
| op_list fuel path :
    file_operation m t s context _
      (DirectoryLister_list m t s context fuel path) dlr_messagesUsed (fuel + 2) true
| op_watch path filter tree length :
    file_operation m t s context _
      (DirectoryWatcher_waitOnce m t s context path filter tree length) (fun _ => 3) 3 false
| op_stat path :
    file_operation m t s context _ (RemoteStatReader_stat m t s context path)
      rsr_messagesUsed 4 false
| op_create_directory path :
    file_operation m t s context _ (createDirectory m t s context path) (fun _ => 2) 2 false
| op_delete path directory :
    file_operation m t s context _ (deleteObject m t s context path directory)
      (fun _ => 3) 3 false
| op_rename from to replace :
    file_operation m t s context _ (renameObject m t s context from to replace)
      (fun _ => 3) 3 false
| op_hard_link existing link replace :
    file_operation m t s context _
      (createHardLink m t s context existing link replace) (fun _ => 3) 3 false
| op_symbolic_link link target directory relative :
    file_operation m t s context _
      (createSymbolicLink m t s context link target directory relative) (fun _ => 3) 3 false
| op_set_basic path info :
    file_operation m t s context _ (setBasicInformation m t s context path info)
      rmm_messagesUsed 3 false
| op_list_attributes path :
    file_operation m t s context _ (listExtendedAttributes m t s context path)
      rea_messagesUsed 3 false
| op_set_attributes path entries :
    file_operation m t s context _ (setExtendedAttributes m t s context path entries)
      rmm_messagesUsed 3 false
| op_remove_attribute path name :
    file_operation m t s context _ (removeExtendedAttribute m t s context path name)
      rmm_messagesUsed 3 false
| op_query_security path information :
    file_operation m t s context _
      (querySecurityDescriptor m t s context path information) rsd_messagesUsed 3 false
| op_set_security path information descriptor :
    file_operation m t s context _
      (setSecurityDescriptor m t s context path information descriptor)
      rmm_messagesUsed 3 false.

(** The messages of a run open one handle and close it. *)
Definition closes_its_handle (h : list message) : Prop :=
  exists fileId, omap opened_by h = [fileId] /\ omap closed_by h = [fileId].

(** What a run of an operation looks like. *)
Definition well_run {A} (m t s : Z) (used : A -> Z) (limit : nat) (fuelled : bool)
    (h : list message) (o : option (comp A)) : Prop :=
  numbered m t s h /\ (length h <= limit)%nat /\ o <> Some OutOfBounds /\
  (o = None -> fuelled = true /\ S (length h) = limit) /\
  forall a, o = Some (Ok a) ->
    used a = u64 (Z.of_nat (length h)) /\ closes_its_handle h.

Lemma well_run_tolerant {A} m t s (used : A -> Z) limit fuelled k :
  (k <= limit)%nat -> tolerant m t s (well_run m t s used limit fuelled) k.
Proof.
  intros Hk h c [Hn Hl] Hc. split; [done|]. split; [lia|]. split; [by destruct c|].
  split; [done|]. intros a [= ->]. destruct Hc.
Qed.

Lemma well_run_value {A} m t s (used : A -> Z) limit fuelled k h a :
  track m t s k h -> (k <= limit)%nat -> used a = u64 (Z.of_nat k) ->
  closes_its_handle h -> well_run m t s used limit fuelled h (Some (Ok a)).
Proof.
  intros [Hn Hl] Hk Hu Hc. split; [done|]. split; [lia|]. split; [done|].
  split; [done|]. intros a' [= <-]. by rewrite Hl.
Qed.

(** ** Opening, working, closing *)

Section runs_of_operations.
Context (m t s : Z) (Hm : is_u64 m) (Ht : is_u32 t) (Hs : is_u64 s).
Context (context : OperationContext).

(** The handles seen in messages: [open] and [closed] ones. *)
Definition handles (open closed : list FileId) (h : list message) : Prop :=
  omap opened_by h = open /\ omap closed_by h = closed.

Lemma handles_snoc open closed h msg :
  handles open closed h ->
  handles (open ++ option_list (opened_by msg)) (closed ++ option_list (closed_by msg))
    (h ++ [msg]).
Proof using Type.
  intros [Ho Hc]. unfold handles. rewrite !omap_app, Ho, Hc. cbn.
  by destruct (opened_by msg), (closed_by msg).
Qed.

(** A CREATE that was answered opens its file id. *)
Lemma handles_create options k h frame response payload r :
  message_sent m t s k h (buildCreateRequest options (u64 (m + Z.of_nat k)) t s)
    frame response payload ->
  decodeCreateResponse payload = Ok r -> handles [] [] h ->
  handles [crr_fileId r] [] (h ++ [(frame, response)]).
Proof using Ht Hs.
  intros (Hsent & _ & Hrep & _) Hr Hh.
  pose proof (handles_snoc _ _ _ (frame, response) Hh) as Hsnoc.
  pose proof (u64_range (m + Z.of_nat k)) as Hid.
  rewrite (opened_by_create _ _ _ _ _ Hid Ht Hs (on_create _ _ _ options) _ _ Hsent
    payload r eq_refl Hrep Hr) in Hsnoc.
  by rewrite (closed_by_other _ _ _ _ _ Hid Ht Hs (on_create _ _ _ options) _ _ Hsent)
    in Hsnoc by done.
Qed.

(** Other requests open and close nothing. *)
Lemma handles_other command request open closed k h frame response payload :
  request_on (u64 (m + Z.of_nat k)) t s command request ->
  command <> Command_Create -> command <> Command_Close ->
  message_sent m t s k h request frame response payload ->
  handles open closed h -> handles open closed (h ++ [(frame, response)]).
Proof using Ht Hs.
  intros Hreq Hc1 Hc2 (Hsent & _) Hh.
  pose proof (handles_snoc _ _ _ (frame, response) Hh) as Hsnoc.
  pose proof (u64_range (m + Z.of_nat k)) as Hid.
  rewrite (opened_by_other _ _ _ _ _ Hid Ht Hs Hreq _ _ Hsent) in Hsnoc by done.
  rewrite (closed_by_other _ _ _ _ _ Hid Ht Hs Hreq _ _ Hsent) in Hsnoc by done.
  cbn in Hsnoc. by rewrite !app_nil_r in Hsnoc.
Qed.

Lemma handles_close fileId open closed k h frame response payload :
  FileId_ok fileId ->
  message_sent m t s k h
    (Ok (buildCloseRequest (closeOptions fileId) (u64 (m + Z.of_nat k)) t s))
    frame response payload ->
  handles open closed h -> handles open (closed ++ [fileId]) (h ++ [(frame, response)]).
Proof using Ht Hs.
  intros Hf (Hsent & _) Hh.
  pose proof (handles_snoc _ _ _ (frame, response) Hh) as Hsnoc.
  pose proof (u64_range (m + Z.of_nat k)) as Hid.
  rewrite (opened_by_other _ _ _ _ _ Hid Ht Hs (on_close _ _ _ _) _ _ Hsent) in Hsnoc
    by done.
  rewrite (closed_by_close _ _ _ _ _ _ Hid Ht Hs Hf Hsent) in Hsnoc.
  cbn in Hsnoc. by rewrite app_nil_r in Hsnoc.
Qed.

Lemma handles_nil : handles [] [] [].
Proof using Type. done. Qed.

Lemma closes_its_handle_intro fileId h :
  handles [fileId] [fileId] h -> closes_its_handle h.
Proof using Type. intros [Ho Hc]. by exists fileId. Qed.
Section one_operation.
Context {A : Type} (used : A -> Z) (limit : nat) (fuelled : bool).
Local Abbreviation Q := (well_run m t s used limit fuelled).

Lemma start : m = u64 (m + Z.of_nat 0).
Proof using Hm. rewrite Z.add_0_r. by rewrite u64_small. Qed.

Lemma track_nil : track m t s 0 [].
Proof using Type. split; [apply numbered_nil|done]. Qed.

Lemma tolerates k : (k <= limit)%nat -> tolerant m t s Q k.
Proof using Type. apply well_run_tolerant. Qed.

(** The first message: a CREATE, its answer not decoded yet. *)
Definition created (payload : bytes) (h : list message) : Prop :=
  track m t s 1 h /\ bytes_ok payload /\
  forall r, decodeCreateResponse payload = Ok r -> handles [crr_fileId r] [] h.

Lemma step_create g options (f : bytes -> action A) :
  keeps_values g -> (1 <= limit)%nat ->
  (forall payload h, created payload h -> pwp (f payload) h Q) ->
  pwp (mapped g (exchangePayload (buildCreateRequest options m t s) context) ≫= f) [] Q.
Proof using Hm Ht Hs.
  intros Hg Hl Hf. rewrite start at 1.
  apply (step_payload m t s Ht Hs 0 [] Command_Create _ track_nil (on_create _ _ _ options)).
  - done.
  - apply tolerates. lia.
  - by apply tolerates.
  - intros frame response payload Hmsg. apply Hf. destruct Hmsg as (H1 & H2 & H3 & H4).
    split; [done|]. split; [done|]. intros r Hr.
    eapply handles_create; [|done|apply handles_nil]. by split_and!.
Qed.

Lemma step_created g payload h (f : CreateResponse -> action A) :
  keeps_values g -> (1 <= limit)%nat -> created payload h ->
  (forall r, FileId_ok (crr_fileId r) -> handles [crr_fileId r] [] h ->
     pwp (f r) h Q) ->
  pwp (lift (g (decodeCreateResponse payload)) ≫= f) h Q.
Proof using Type.
  intros Hg Hl (Htr & Hp & Hh) Hf.
  eapply (step_lift m t s 1 h g _ CreateResponse_ok); [done|done| | |].
  - by apply tolerates.
  - apply wp_wpt, wp_decodeCreateResponse, Hp.
  - intros r Hr (_ & _ & _ & _ & _ & _ & _ & _ & _ & _ & Hid). by apply Hf; auto.
Qed.

(** The second message, to the handle. *)
Lemma step_work {B} k g what command request (decode : bytes -> comp B) P fileId h
    (f : B -> action A) :
  (forall data, bytes_ok data -> wp (decode data) P) -> keeps_values g ->
  (S k <= limit)%nat -> track m t s k h -> handles [fileId] [] h ->
  request_on (u64 (m + Z.of_nat k)) t s command request ->
  command <> Command_Create -> command <> Command_Close ->
  (forall h r, P r -> track m t s (S k) h -> handles [fileId] [] h -> pwp (f r) h Q) ->
  pwp (mapped g (exchanger what request decode context) ≫= f) h Q.
Proof using Ht Hs.
  intros Hd Hg Hl Htr Hh Hreq Hc1 Hc2 Hf.
  apply (step_exchanger m t s Ht Hs k h command request Htr Hreq context g what decode P);
    [done|done| | |].
  - apply tolerates. lia.
  - by apply tolerates.
  - intros frame response payload r Hmsg Hr HP. pose proof Hmsg as (_ & _ & _ & Htr').
    apply Hf; [done..|]. by eapply handles_other.
Qed.

(** The last message: CLOSE. *)
Lemma step_close k g fileId h (r : A) :
  keeps_values g -> (S k <= limit)%nat -> track m t s k h -> handles [fileId] [] h ->
  FileId_ok fileId -> used r = u64 (Z.of_nat (S k)) ->
  pwp (mapped g (close_with m t s context (Z.of_nat k) fileId);; mret r) h Q.
Proof using Ht Hs.
  intros Hg Hl Htr Hh Hf Hu. unfold close_with, CloseExchanger_close.
  apply (step_exchanger m t s Ht Hs k h Command_Close _ Htr (on_close _ _ _ _) context g
    "close" decodeCloseResponse CloseResponse_ok).
  - intros. by apply wp_decodeCloseResponse.
  - done.
  - apply tolerates. lia.
  - by apply tolerates.
  - intros frame response payload cr Hmsg Hr _. pose proof Hmsg as (_ & _ & _ & Htr').
    apply pwp_mret. eapply well_run_value; try done.
    eapply closes_its_handle_intro. by eapply (handles_close fileId [fileId] []).
Qed.
End one_operation.
End runs_of_operations.

(** ** Every operation is well run *)

#[local] Hint Resolve wp_decodeReadResponse wp_decodeWriteResponse
  wp_decodeQueryInfoResponse wp_decodeSetInfoResponse
  wp_decodeIoctlResponse wp_decodeCreateResponse : smb.

Lemma wp_notify data :
  bytes_ok data -> wp (decodeChangeNotifyResponse data) ChangeNotifyResponse_ok.
Proof. intros. eapply wp_mono; [by apply wp_decodeChangeNotifyResponse|]. by intros r []. Qed.
#[local] Hint Resolve wp_notify : smb.

(** Closes the conditions of a step. *)
Ltac side := first [done | lia | solve [auto with smb] | exact eq_refl].

Section every_operation.
Context (m t s : Z) (Hm : is_u64 m) (Ht : is_u32 t) (Hs : is_u64 s).
Context (context : OperationContext).

(** The first guard, before anything is sent. *)
Lemma guard_start {A} (used : A -> Z) limit fuelled message (p : action A) :
  pwp p [] (well_run m t s used limit fuelled) ->
  pwp (cancel_if context with message;; p) [] (well_run m t s used limit fuelled).
Proof using Type.
  intros H. eapply step_cancel; [apply track_nil|apply tolerates; lia|done].
Qed.

Lemma guard {A} (used : A -> Z) limit fuelled k h message (p : action A) :
  track m t s k h -> (k <= limit)%nat -> pwp p h (well_run m t s used limit fuelled) ->
  pwp (cancel_if context with message;; p) h (well_run m t s used limit fuelled).
Proof using Type. intros Ht' Hk H. by eapply step_cancel; [|by apply tolerates|]. Qed.

Lemma readOnce_well_run path length offset :
  pwp (FileReader_readOnce m t s context path length offset) []
    (well_run m t s (fun _ => 3) 3 false).
Proof using Hm Ht Hs.
  apply guard_start, step_create; [side..|].
  intros payload h Hcr. pose proof Hcr as (Htr & _). apply (guard _ _ _ 1); [side..|].
  apply (step_created m t s _ _ _ (with_message_id m)); [side..|]. intros r Hid Hh.
  eapply (step_work m t s Ht Hs context _ _ _ 1 reraise); [side..|].
  intros h' rd _ Htr' Hh'.
  apply (step_close m t s Ht Hs context _ _ _ 2 reraise); side.
Qed.

Lemma writeOnce_well_run path data offset :
  pwp (FileWriter_writeOnce m t s context path data offset) []
    (well_run m t s fwr_messagesUsed 3 false).
Proof using Hm Ht Hs.
  apply guard_start, step_create; [side..|].
  intros payload h Hcr. pose proof Hcr as (Htr & _). apply (guard _ _ _ 1); [side..|].
  apply (step_created m t s _ _ _ reraise); [side..|]. intros r Hid Hh.
  destruct (blen data =? 0).
  - apply (step_close m t s Ht Hs context _ _ _ 1 reraise); side.
  - eapply (step_work m t s Ht Hs context _ _ _ 1 reraise); [side..|].
    intros h' wr _ Htr' Hh'.
    apply (step_close m t s Ht Hs context _ _ _ 2 reraise); side.
Qed.

Lemma waitOnce_well_run path filter tree length :
  pwp (DirectoryWatcher_waitOnce m t s context path filter tree length) []
    (well_run m t s (fun _ => 3) 3 false).
Proof using Hm Ht Hs.
  apply guard_start, step_create; [side..|].
  intros payload h Hcr. pose proof Hcr as (Htr & _).
  apply (step_created m t s _ _ _ reraise); [side..|]. intros r Hid Hh.
  apply (guard _ _ _ 1); [side..|].
  eapply (step_work m t s Ht Hs context _ _ _ 1 reraise); [side..|].
  intros h' nr _ Htr' Hh'.
  apply (step_close m t s Ht Hs context _ _ _ 2 reraise); side.
Qed.

(** Decoding an information buffer that came back. *)
Lemma step_information {A B} (used : A -> Z) limit fuelled k n h (c : comp B) P (f : B -> action A) :
  (k <= limit)%nat -> track m t s k h -> wp c P ->
  (forall a, pwp (f a) h (well_run m t s used limit fuelled)) ->
  pwp (lift (reraise_used n c) ≫= f) h (well_run m t s used limit fuelled).
Proof using Type.
  intros Hk Htr Hc Hf. eapply (step_lift m t s k h (reraise_used n) c P); [side|done| | |].
  - by apply tolerates.
  - by apply wp_wpt.
  - by intros a _ _.
Qed.

Lemma stat_well_run path :
  pwp (RemoteStatReader_stat m t s context path) []
    (well_run m t s rsr_messagesUsed 4 false).
Proof using Hm Ht Hs.
  apply guard_start, step_create; [side..|].
  intros payload h Hcr. pose proof Hcr as (Htr & _). apply (guard _ _ _ 1); [side..|].
  apply (step_created m t s _ _ _ (reraise_used 1)); [side..|]. intros r Hid Hh.
  eapply (step_work m t s Ht Hs context _ _ _ 1 (reraise_used 2)); [side..|].
  intros h2 basic (_ & _ & Hb) Htr2 Hh2. apply (guard _ _ _ 2); [side..|].
  eapply (step_information _ _ _ 2); [side|side|by apply wp_decodeFileBasicInformation|].
  intros info.
  eapply (step_work m t s Ht Hs context _ _ _ 2 (reraise_used 3)); [side..|].
  intros h3 standard (_ & _ & Hst) Htr3 Hh3. apply (guard _ _ _ 3); [side..|].
  eapply (step_information _ _ _ 3); [side|side|by apply wp_decodeFileStandardInformation|].
  intros info'.
  apply (step_close m t s Ht Hs context _ _ _ 3 (reraise_used 4)); side.
Qed.

(** *** [RemoteObjectOperator] *)

Lemma step_open {A} (used : A -> Z) limit fuelled g options (f : CreateResponse -> action A) :
  keeps_values g -> (1 <= limit)%nat ->
  (forall r h, FileId_ok (crr_fileId r) -> track m t s 1 h ->
     handles [crr_fileId r] [] h -> pwp (f r) h (well_run m t s used limit fuelled)) ->
  pwp (mapped g (openObject m t s context options) ≫= f) [] (well_run m t s used limit fuelled).
Proof using Hm Ht Hs.
  intros Hg Hl Hf. apply step_mapped. unfold openObject.
  replace (buildCreateRequest options m t s)
    with (buildCreateRequest options (u64 (m + Z.of_nat 0)) t s)
    by (by rewrite <- (start m Hm)).
  apply (step_request_last m t s Ht Hs 0 [] Command_Create _ (track_nil m t s)
    (on_create _ _ _ options) context reraise decodeCreateResponse CreateResponse_ok);
    [side|side|apply tolerant_followed, tolerates; side..|].
  intros frame response payload r Hmsg Hr HP. pose proof Hmsg as (_ & _ & _ & Htr).
  cbn. rewrite (proj1 Hg). cbn. apply Hf; [apply HP|done|].
  exact (handles_create m t s Ht Hs options 0 [] frame response payload r Hmsg Hr handles_nil).
Qed.

Lemma createDirectory_well_run path :
  pwp (createDirectory m t s context path) [] (well_run m t s (fun _ => 2) 2 false).
Proof using Hm Ht Hs.
  apply guard_start, (step_open _ _ _ reraise); [side..|]. intros r h Hid Htr Hh.
  apply (guard _ _ _ 1); [side..|].
  apply (step_close m t s Ht Hs context _ _ _ 1 reraise); side.
Qed.

(** The change in the middle sends one request, for the second id. *)
Definition one_request {A} (change : action A) : Prop :=
  forall h (Q : list message -> option (comp A) -> Prop),
    track m t s 1 h -> tolerant m t s Q 1 -> tolerant m t s Q 2 ->
    (forall command request frame response payload a,
       request_on (u64 (m + Z.of_nat 1)) t s command request ->
       command <> Command_Create -> command <> Command_Close ->
       message_sent m t s 1 h request frame response payload ->
       Q (h ++ [(frame, response)]) (Some (Ok a))) ->
    pwp change h Q.

Lemma open_change_close_well_run {A} cancelled options (change : FileId -> action A) :
  (forall fileId, one_request (change fileId)) ->
  pwp (open_change_close m t s context cancelled options change) []
    (well_run m t s (fun _ => 3) 3 false).
Proof using Hm Ht Hs.
  intros Hchange. apply guard_start, (step_open _ _ _ reraise); [side..|].
  intros r h Hid Htr Hh. apply (guard _ _ _ 1); [side..|].
  apply (step_mapped reraise). apply Hchange; [done|apply tolerant_followed, tolerates; side..|].
  intros command request frame response payload a Hreq Hc1 Hc2 Hmsg.
  pose proof Hmsg as (_ & _ & _ & Htr'). cbn.
  apply (step_close m t s Ht Hs context _ _ _ 2 reraise); [side..| |side|side].
  by eapply handles_other.
Qed.

Lemma one_exchange {A} what command request (decode : bytes -> comp A) P :
  (forall data, bytes_ok data -> wp (decode data) P) ->
  request_on (u64 (m + Z.of_nat 1)) t s command request ->
  command <> Command_Create -> command <> Command_Close ->
  one_request (exchanger what request decode context).
Proof using Ht Hs.
  intros Hd Hreq Hc1 Hc2 h Q Htr H1 H2 Hq.
  apply (step_exchanger_last m t s Ht Hs 1 h command request Htr Hreq context what
    decode P); [done..|]. eauto.
Qed.

(** A buffer that is built first may throw. *)
Lemma one_built {A B} (c : comp A) (change : A -> action B) :
  wpt c (fun _ => True) -> (forall a, one_request (change a)) ->
  one_request (lift c ≫= change).
Proof using Type.
  intros Hc Hchange h Q Htr H1 H2 Hq.
  apply (step_lift m t s 1 h (fun c => c) c (fun _ => True)); [side..|].
  intros a _ _. by apply Hchange.
Qed.

Lemma one_ioctl options : one_request (ioctl m t s context 1 options).
Proof using Ht Hs.
  intros h Q Htr H1 H2 Hq. unfold ioctl.
  apply (step_request_last m t s Ht Hs 1 h Command_Ioctl _ Htr (on_ioctl _ _ _ options)
    context reraise decodeIoctlResponse IoctlResponse_ok); [side..|].
  intros. eapply (Hq Command_Ioctl); [apply on_ioctl|done..].
Qed.

Lemma deleteObject_well_run path directory :
  pwp (deleteObject m t s context path directory) [] (well_run m t s (fun _ => 3) 3 false).
Proof using Hm Ht Hs.
  apply open_change_close_well_run. intros fileId.
  by eapply one_exchange; [|apply on_set_info|..]; auto with smb.
Qed.

Lemma renameObject_well_run from to replace :
  pwp (renameObject m t s context from to replace) [] (well_run m t s (fun _ => 3) 3 false).
Proof using Hm Ht Hs.
  apply open_change_close_well_run. intros fileId.
  apply one_built; [apply wpt_targetPathInformation|]. intros buffer.
  by eapply one_exchange; [|apply on_set_info|..]; auto with smb.
Qed.

Lemma createHardLink_well_run existing link replace :
  pwp (createHardLink m t s context existing link replace) []
    (well_run m t s (fun _ => 3) 3 false).
Proof using Hm Ht Hs.
  apply open_change_close_well_run. intros fileId.
  apply one_built; [apply wpt_targetPathInformation|]. intros buffer.
  by eapply one_exchange; [|apply on_set_info|..]; auto with smb.
Qed.

Lemma createSymbolicLink_well_run link target directory relative :
  pwp (createSymbolicLink m t s context link target directory relative) []
    (well_run m t s (fun _ => 3) 3 false).
Proof using Hm Ht Hs.
  apply open_change_close_well_run. intros fileId.
  apply one_built; [apply wpt_buildSymbolicLinkReparseBuffer|]. intros input.
  apply one_ioctl.
Qed.

(** *** [RemoteMetadataOperator] *)

Lemma step_open_metadata {A} (used : A -> Z) limit fuelled options (f : CreateResponse -> action A) :
  (1 <= limit)%nat ->
  (forall r h, FileId_ok (crr_fileId r) -> track m t s 1 h ->
     handles [crr_fileId r] [] h -> pwp (f r) h (well_run m t s used limit fuelled)) ->
  pwp (openForMetadata m t s context options ≫= f) [] (well_run m t s used limit fuelled).
Proof using Hm Ht Hs.
  intros Hl Hf. apply pwp_bind_assoc, step_create; [side..|].
  intros payload h Hcr. pose proof Hcr as (Htr & _).
  apply (step_created m t s _ _ _ (reraise_used 1)); [side..|]. intros r Hid Hh. auto.
Qed.

Lemma setInformation_well_run path access infoType infoClass buffer additional :
  wpt buffer (fun _ => True) ->
  pwp (setInformation m t s context path access infoType infoClass buffer additional) []
    (well_run m t s rmm_messagesUsed 3 false).
Proof using Hm Ht Hs.
  intros Hb. apply guard_start, step_open_metadata; [side|]. intros r h Hid Htr Hh.
  apply (guard _ _ _ 1); [side..|].
  apply (step_lift m t s 1 h (fun c => c) buffer (fun _ => True));
    [side..|by apply tolerates; lia|side|]. intros b _ _.
  eapply (step_work m t s Ht Hs context _ _ _ 1 (reraise_used 2)); [side..|].
  intros h' sr _ Htr' Hh'.
  apply (step_close m t s Ht Hs context _ _ _ 2 (reraise_used 3)); side.
Qed.

Lemma listExtendedAttributes_well_run path :
  pwp (listExtendedAttributes m t s context path) []
    (well_run m t s rea_messagesUsed 3 false).
Proof using Hm Ht Hs.
  apply guard_start, step_open_metadata; [side|]. intros r h Hid Htr Hh.
  apply (guard _ _ _ 1); [side..|].
  eapply (step_work m t s Ht Hs context _ _ _ 1 (reraise_used 2)); [side..|].
  intros h' qr (_ & _ & Hb) Htr' Hh'.
  eapply (step_information _ _ _ 2); [side|side|by apply wp_decodeFileFullEaInformation|].
  intros entries.
  apply (step_close m t s Ht Hs context _ _ _ 2 (reraise_used 3)); side.
Qed.

Lemma querySecurityDescriptor_well_run path information :
  pwp (querySecurityDescriptor m t s context path information) []
    (well_run m t s rsd_messagesUsed 3 false).
Proof using Hm Ht Hs.
  apply guard_start, step_open_metadata; [side|]. intros r h Hid Htr Hh.
  apply (guard _ _ _ 1); [side..|].
  eapply (step_work m t s Ht Hs context _ _ _ 1 (reraise_used 2)); [side..|].
  intros h' qr _ Htr' Hh'.
  apply (step_close m t s Ht Hs context _ _ _ 2 (reraise_used 3)); side.
Qed.

(** *** [DirectoryLister] *)

Lemma u64_of_nat_S k : u64 (u64 (Z.of_nat k) + 1) = u64 (Z.of_nat (S k)).
Proof using Type. unfold u64. rewrite Zplus_mod_idemp_l. f_equal. lia. Qed.

Lemma u64_add_of_nat k : u64 (m + u64 (Z.of_nat k)) = u64 (m + Z.of_nat k).
Proof using Type. unfold u64. by rewrite Zplus_mod_idemp_r. Qed.

Lemma list_loop_well_run {A} (used : A -> Z) limit fileId
    (f : list DirectoryEntry * Z -> action A) fuel k h first entries :
  (forall k h entries, (k < limit)%nat -> track m t s k h -> handles [fileId] [] h ->
     pwp (f (entries, u64 (Z.of_nat k))) h (well_run m t s used limit true)) ->
  (S (k + fuel) = limit)%nat -> track m t s k h -> handles [fileId] [] h ->
  pwp (list_loop m t s context fuel fileId first (u64 (Z.of_nat k)) entries ≫= f) h
    (well_run m t s used limit true).
Proof using Hm Ht Hs.
  intros Hf. revert k h first entries.
  induction fuel as [|fuel IH]; intros k h first entries Hl Htr Hh.
  - cbn. destruct Htr as [Hn Hlen]. split; [done|]. split; [lia|].
    split; [done|]. split; [|done]. intros _. split; [done|lia].
  - cbn [list_loop]. apply pwp_bind_assoc. rewrite u64_add_of_nat, u64_of_nat_S.
    apply (step_payload m t s Ht Hs k h Command_QueryDirectory _ Htr
      (on_query_directory _ _ _ _) context reraise); [side|apply tolerates; lia..|].
    intros frame response payload Hmsg. pose proof Hmsg as (_ & Hp & _ & Htr').
    apply pwp_bind_assoc, pwp_action_bind, pwp_isCancelled; [intros _|];
      [apply (tolerates m t s used limit true (S k)); [lia|done|done]|].
    apply pwp_bind_assoc.
    apply (step_lift m t s (S k) _ reraise _ (fun _ => True));
      [side..|apply tolerates; lia| |].
    { eapply wpt_mono; [by apply wp_wpt, wp_decodeQueryDirectoryResponse|done]. }
    intros qr _ _.
    assert (handles [fileId] [] (h ++ [(frame, response)])) as Hh'.
    { by eapply (handles_other m t s Ht Hs Command_QueryDirectory); [apply on_query_directory|..]. }
    destruct (qdr_status qr =? kStatusNoMoreFiles); [by apply Hf; first [lia|done]|].
    destruct (qdr_entries qr); [by apply Hf; first [lia|done]|].
    apply IH; [lia|done..].
Qed.

Lemma list_well_run fuel path :
  pwp (DirectoryLister_list m t s context fuel path) []
    (well_run m t s dlr_messagesUsed (fuel + 2) true).
Proof using Hm Ht Hs.
  apply guard_start. replace (u64 (m + 0)) with m
    by (by rewrite Z.add_0_r, u64_small).
  apply step_create; [side..|].
  intros payload h Hcr. pose proof Hcr as (Htr & _). apply (guard _ _ _ 1); [side..|].
  apply (step_created m t s _ _ _ (with_message_id m)); [side..|]. intros r Hid Hh.
  apply (list_loop_well_run dlr_messagesUsed (fuel + 2) (crr_fileId r) _ fuel 1);
    [|lia|done|done].
  clear h Hcr Htr Hh. intros k h entries Hk Htr Hh.
  replace (close_with m t s context (u64 (Z.of_nat k)) (crr_fileId r))
    with (close_with m t s context (Z.of_nat k) (crr_fileId r))
    by (unfold close_with; by rewrite u64_add_of_nat).
  apply (step_close m t s Ht Hs context _ _ _ k reraise); [side..|].
  cbn. apply u64_of_nat_S.
Qed.
End every_operation.

Lemma file_operation_well_run {A} m t s context (op : action A) used limit fuelled :
  is_u64 m -> is_u32 t -> is_u64 s ->
  file_operation m t s context A op used limit fuelled ->
  pwp op [] (well_run m t s used limit fuelled).
Proof.
  intros Hm Ht Hs [].
  - by apply readOnce_well_run.
  - by apply writeOnce_well_run.
  - by apply list_well_run.
  - by apply waitOnce_well_run.
  - by apply stat_well_run.
  - by apply createDirectory_well_run.
  - by apply deleteObject_well_run.
  - by apply renameObject_well_run.
  - by apply createHardLink_well_run.
  - by apply createSymbolicLink_well_run.
  - by apply setInformation_well_run.
  - by apply listExtendedAttributes_well_run.
  - apply setInformation_well_run; [done..|apply wpt_buildFileFullEaInformation].
  - apply setInformation_well_run; [done..|apply wpt_buildFileFullEaInformation].
  - by apply querySecurityDescriptor_well_run.
  - by apply setInformation_well_run.
Qed.

(** C38: Whatever a lawful transport answers, an operation on a remote object
    sends requests for its tree and session with consecutive message ids from
    the one it was given, never more than its limit; it never reads out of
    bounds; it always comes to an end, but for the query loop of a listing,
    which ends when the server's answers do; and when it succeeds it has used
    as many messages as it reports and has closed the one handle it opened. *)
Theorem file_operations_well_run {A} m t s context (op : action A) used limit fuelled tr o :
  is_u64 m -> is_u32 t -> is_u64 s ->
  file_operation m t s context A op used limit fuelled ->
  runs op tr o -> Forall lawful tr ->
  well_run m t s used limit fuelled tr o.
Proof.
  intros Hm Ht Hs Hop Hr Hl.
  by apply (pwp_runs op [] _ tr o (file_operation_well_run m t s context op used limit
    fuelled Hm Ht Hs Hop)).
Qed.

(** A context that cannot be cancelled. *)
Definition plain_context : OperationContext := mkOperationContext 30000 false false false.

(** The transport is down at the first message of a deletion. *)
Lemma file_operations_well_run_witness :
  exists tr,
    runs (deleteObject 7 1 9 plain_context [97] false) tr
      (Some (failure ErrorCode_NetworkError "down")) /\
    well_run 7 1 9 (fun _ => 3) 3 false tr
      (Some (failure (A := RemoteObjectResult) ErrorCode_NetworkError "down")).
Proof.
  destruct (perform_runs (deleteObject 7 1 9 plain_context [97] false) tt)
    as (tr & Hr & Hl).
  assert (snd (perform (deleteObject 7 1 9 plain_context [97] false) tt)
    = Some (failure ErrorCode_NetworkError "down")) as Ho by (vm_compute; reflexivity).
  rewrite Ho in Hr. exists tr. split; [exact Hr|].
  eapply (file_operations_well_run 7 1 9 plain_context);
    [ulia..|apply op_delete|exact Hr|exact Hl].
Defined.

(** ** Listings *)

(** The entries a message listed: the message is a QUERY_DIRECTORY that was
    answered; NO_MORE_FILES lists none. *)
Definition listed_by (msg : message) : option (list DirectoryEntry) :=
  h ← frameHeader (fst msg);
  if decide (hdr_command h = Command_QueryDirectory) then
    match (snd msg ≫= decodeDirectTcpPayload) ≫= decodeQueryDirectoryResponse with
    | Ok r => Some (qdr_entries r)
    | _ => None
    end
  else None.

(** The listing in the messages [h]: batches with entries, and at the end of a
    complete one a batch without. *)
Definition listing_run (fuel : nat) (h : list message)
    (o : option (comp DirectoryListResult)) : Prop :=
  match o with
  | Some (Ok r) =>
      exists batches, omap listed_by h = batches ++ [[]] /\
        Forall (fun batch => batch <> []) batches /\ dlr_entries r = concat batches
  | None =>
      length (omap listed_by h) = fuel /\
      Forall (fun batch => batch <> []) (omap listed_by h)
  | _ => True
  end.

Section listings.
Context (m t s : Z) (Hm : is_u64 m) (Ht : is_u32 t) (Hs : is_u64 s).
Context (context : OperationContext).

Lemma listing_tolerant fuel k : tolerant m t s (listing_run fuel) k.
Proof using Type. by intros h [] _. Qed.

Lemma listed_by_other command request k h frame response payload :
  request_on (u64 (m + Z.of_nat k)) t s command request ->
  command <> Command_QueryDirectory ->
  message_sent m t s k h request frame response payload ->
  listed_by (frame, response) = None.
Proof using Ht Hs.
  intros Hreq Hne (Hsent & _). destruct (addressed_header command (u64 (m + Z.of_nat k)) t s
    frame) as (hd & Hh & <-); [eapply sent_addressed; eauto with smb|].
  unfold listed_by. cbn [fst]. rewrite Hh. cbn. by rewrite decide_False.
Qed.

Lemma listed_by_query options k h frame response payload r :
  message_sent m t s k h (buildQueryDirectoryRequest options (u64 (m + Z.of_nat k)) t s)
    frame response payload ->
  decodeQueryDirectoryResponse payload = Ok r ->
  listed_by (frame, response) = Some (qdr_entries r).
Proof using Ht Hs.
  intros (Hsent & _ & (rf & -> & Hp) & _) Hr.
  destruct (addressed_header Command_QueryDirectory (u64 (m + Z.of_nat k)) t s frame)
    as (hd & Hh & Hc); [eapply sent_addressed; eauto with smb|].
  unfold listed_by. cbn [fst snd]. rewrite Hh. cbn [mbind option_bind].
  rewrite decide_True by done. cbn [mbind comp_bind]. by rewrite Hp; cbn; rewrite Hr.
Qed.

Lemma listing_snoc h msg batches :
  omap listed_by h = batches ->
  omap listed_by (h ++ [msg]) = batches ++ option_list (listed_by msg).
Proof using Type. intros <-. rewrite omap_app. cbn. by destruct (listed_by msg). Qed.

Lemma list_loop_listing fuel0 fileId
    (f : list DirectoryEntry * Z -> action DirectoryListResult) fuel k h first batches :
  (forall k h batches, track m t s k h -> omap listed_by h = batches ++ [[]] ->
     Forall (fun batch => batch <> []) batches ->
     pwp (f (concat batches, u64 (Z.of_nat k))) h (listing_run fuel0)) ->
  (fuel0 = length batches + fuel)%nat -> track m t s k h ->
  omap listed_by h = batches -> Forall (fun batch => batch <> []) batches ->
  pwp (list_loop m t s context fuel fileId first (u64 (Z.of_nat k)) (concat batches) ≫= f)
    h (listing_run fuel0).
Proof using Hm Ht Hs.
  intros Hf. revert k h first batches.
  induction fuel as [|fuel IH]; intros k h first batches Hl Htr Hh Hne.
  { cbn. rewrite Hh. split; [lia|done]. }
  cbn [list_loop]. apply pwp_bind_assoc. rewrite u64_add_of_nat, u64_of_nat_S.
  apply (step_payload m t s Ht Hs k h Command_QueryDirectory _ Htr
    (on_query_directory _ _ _ _) context reraise); [side|apply listing_tolerant..|].
  intros frame response payload Hmsg. pose proof Hmsg as (_ & Hp & _ & Htr').
  apply pwp_bind_assoc, pwp_action_bind, pwp_isCancelled; [done|].
  apply pwp_bind_assoc.
  apply (step_lift m t s (S k) _ reraise _ (fun r => qdr_status r = kStatusNoMoreFiles ->
    qdr_entries r = [])); [side..|apply listing_tolerant| |].
  { apply wp_wpt. by apply wp_no_more_files. }
  intros qr Hqr Hlast.
  pose proof (listing_snoc h (frame, response) batches Hh) as Hh'.
  rewrite (listed_by_query _ _ _ _ _ _ _ Hmsg Hqr) in Hh'. cbn [option_list] in Hh'.
  destruct (qdr_status qr =? kStatusNoMoreFiles) eqn:Hst; bools.
  { rewrite Hlast in Hh' by done. by apply (Hf (S k)). }
  destruct (qdr_entries qr) as [|e entries] eqn:Hqe.
  { rewrite app_nil_r. by apply (Hf (S k)). }
  replace (concat batches ++ e :: entries) with (concat (batches ++ [e :: entries]))
    by (by rewrite concat_app; cbn; rewrite app_nil_r).
  apply IH; [rewrite length_app; simpl; lia|done|done|].
  apply Forall_app. split; [done|]. by apply Forall_singleton.
Qed.

Lemma list_listing fuel path :
  pwp (DirectoryLister_list m t s context fuel path) [] (listing_run fuel).
Proof using Hm Ht Hs.
  unfold DirectoryLister_list.
  eapply step_cancel; [apply track_nil|apply listing_tolerant|].
  replace (u64 (m + 0)) with (u64 (m + Z.of_nat 0)) by done.
  apply (step_payload m t s Ht Hs 0 [] Command_Create _ (track_nil m t s)
    (on_create _ _ _ _) context reraise); [side|apply listing_tolerant..|].
  intros frame response payload Hmsg. pose proof Hmsg as (_ & Hp & _ & Htr).
  eapply step_cancel; [exact Htr|apply listing_tolerant|].
  apply (step_lift m t s 1 _ (with_message_id m) _ CreateResponse_ok);
    [side..|apply listing_tolerant|by apply wp_wpt, wp_decodeCreateResponse|].
  intros r _ _.
  assert (omap listed_by ([] ++ [(frame, response)]) = []) as Hh.
  { cbn. by rewrite (listed_by_other Command_Create _ _ _ _ _ _ (on_create _ _ _ _)
      ltac:(done) Hmsg). }
  apply (list_loop_listing fuel (crr_fileId r) _ fuel 1 _ true []); [|done..|by constructor].
  clear Hmsg Hp Htr Hh. intros k h batches Htr Hh Hne.
  unfold close_with, CloseExchanger_close. rewrite u64_add_of_nat.
  apply (step_exchanger m t s Ht Hs k h Command_Close _ Htr (on_close _ _ _ _) context
    reraise "close" decodeCloseResponse CloseResponse_ok);
    [intros; by apply wp_decodeCloseResponse|side|apply listing_tolerant..|].
  intros frame' response' payload' cr Hmsg _ _. apply pwp_mret. exists batches.
  rewrite (listing_snoc _ _ _ Hh), (listed_by_other Command_Close _ _ _ _ _ _
    (on_close _ _ _ _) ltac:(done) Hmsg).
  cbn [option_list]. by rewrite app_nil_r.
Qed.
End listings.

(** A listing is complete and ends when the server ends it: when it
    succeeds, its entries are those of all answers to its queries, in order,
    every answer but the last had entries, and the last had none (or was
    NO_MORE_FILES); and a run that needs more than [fuel] queries has seen
    [fuel] answers, all with entries. *)
Theorem listing_complete m t s context fuel path tr o :
  is_u64 m -> is_u32 t -> is_u64 s ->
  runs (DirectoryLister_list m t s context fuel path) tr o -> Forall lawful tr ->
  listing_run fuel tr o.
Proof.
  intros Hm Ht Hs Hr Hl.
  by apply (pwp_runs _ [] _ tr o (list_listing m t s Hm Ht Hs context fuel path)).
Qed.

(** A directory with one file, listed in one batch. *)
Definition one_file : WireEntry :=
  mkWireEntry (mkDirectoryEntry [0x41] 0 0 0 0 0 0 0 0 0 0 false false) [0x41; 0]
    (zeros 28) [].
Definition one_file_script : list bytes :=
  omap (fun payload => match encodeDirectTcpFrame payload with Ok f => Some f | _ => None end)
    [response (sample_reply Command_Create 0) 89 (zeros 86);
     listing (sample_reply Command_QueryDirectory 0) (chain encode_entry we_pad [one_file]);
     encodeSmb2SyncHeader (sample_reply Command_QueryDirectory kStatusNoMoreFiles);
     response (sample_reply Command_Close 0) 60 (zeros 58)].
Definition one_file_listing : action DirectoryListResult :=
  DirectoryLister_list 7 1 9 plain_context 5 [97].
Definition one_file_result : DirectoryListResult :=
  mkDirectoryListResult (mkFileId 0 0) [we_entry one_file] 4.

Lemma listing_complete_witness :
  exists tr,
    runs one_file_listing tr (Some (Ok (one_file_result))) /\
    listing_run 5 tr (Some (Ok (one_file_result))).
Proof.
  destruct (perform_runs one_file_listing one_file_script) as (tr & Hr & Hl).
  assert (snd (perform one_file_listing one_file_script)
    = Some (Ok (one_file_result))) as Ho
    by (vm_compute; reflexivity).
  rewrite Ho in Hr. exists tr. split; [exact Hr|].
  apply (listing_complete 7 1 9 plain_context 5 [97]); [ulia..|exact Hr|exact Hl].
Defined.
