(* ===== verification/Dcerpc.v ===== *)
(** * DCE/RPC protocol data units ([Dcerpc.cpp])

    The BIND and REQUEST units the share listing writes to its pipe, and the
    decoders of what the server answers.  A unit is always a single fragment. *)

From S2P Require Export Utf16.
Local Open Scope Z_scope.
Local Open Scope comp_scope.

Definition kDcerpcVersion : Z := 5.
Definition kDcerpcPacketTypeRequest : Z := 0.
Definition kDcerpcPacketTypeResponse : Z := 2.
Definition kDcerpcPacketTypeBind : Z := 11.
Definition kDcerpcPacketTypeBindAck : Z := 12.
Definition kDcerpcFlagFirstFragment : Z := 0x01.
Definition kDcerpcFlagLastFragment : Z := 0x02.
Definition kDcerpcDefaultFragSize : Z := 4280.
Definition kCommonHeaderSize : Z := 16.
Definition kDcerpcAccepted : Z := 0.

Record DcerpcSyntaxId : Set := mkDcerpcSyntaxId {
  dsi_uuid : bytes;
  dsi_majorVersion : Z;
  dsi_minorVersion : Z
}.

Record DcerpcBindAck : Set := mkDcerpcBindAck {
  dba_maxTransmitFrag : Z;
  dba_maxReceiveFrag : Z;
  dba_associationGroupId : Z;
  dba_accepted : bool;
  dba_result : Z;
  dba_reason : Z;
  dba_transferSyntax : DcerpcSyntaxId
}.

Record DcerpcResponse : Set := mkDcerpcResponse {
  drs_allocationHint : Z;
  drs_contextId : Z;
  drs_stubData : bytes
}.

Definition srvsRpcSyntax : DcerpcSyntaxId :=
  mkDcerpcSyntaxId [0xc8; 0x4f; 0x32; 0x4b; 0x70; 0x16; 0xd3; 0x01; 0x12; 0x78;
                    0x5a; 0x47; 0xbf; 0x6e; 0xe1; 0x88] 3 0.

Definition ndr32TransferSyntax : DcerpcSyntaxId :=
  mkDcerpcSyntaxId [0x04; 0x5d; 0x88; 0x8a; 0xeb; 0x1c; 0xc9; 0x11; 0x9f; 0xe8;
                    0x08; 0x00; 0x2b; 0x10; 0x48; 0x60] 2 0.

(** ** Building *)

Definition appendCommonHeader (packetType fragLength callId : Z) : bytes :=
  [kDcerpcVersion; 0; packetType;
   Z.lor kDcerpcFlagFirstFragment kDcerpcFlagLastFragment; 0x10; 0; 0; 0]
  ++ u16Le fragLength ++ u16Le 0 ++ u32Le callId.

Definition appendSyntaxId (syntax : DcerpcSyntaxId) : bytes :=
  dsi_uuid syntax ++ u16Le (dsi_majorVersion syntax) ++ u16Le (dsi_minorVersion syntax).

Definition buildDcerpcBindPdu (abstractSyntax : DcerpcSyntaxId)
    (callId contextId maxTransmitFrag maxReceiveFrag : Z) : bytes :=
  appendCommonHeader kDcerpcPacketTypeBind 72 callId
  ++ u16Le maxTransmitFrag ++ u16Le maxReceiveFrag ++ u32Le 0 ++ [1] ++ [0]
  ++ u16Le 0 ++ u16Le contextId ++ [1] ++ [0]
  ++ appendSyntaxId abstractSyntax ++ appendSyntaxId ndr32TransferSyntax.

Definition buildDcerpcRequestPdu (opnum : Z) (stubData : bytes) (callId contextId : Z)
    : bytes :=
  let fragLength := u16 (kCommonHeaderSize + 8 + blen stubData) in
  appendCommonHeader kDcerpcPacketTypeRequest fragLength callId
  ++ u32Le (u32 (blen stubData)) ++ u16Le contextId ++ u16Le opnum ++ stubData.

(** ** Reading *)

(** [validateCommonHeader]: the fragment length, or [None]. *)
Definition validateCommonHeader (data : bytes) (expectedPacketType : Z)
    : comp (option Z) :=
  if blen data <? kCommonHeaderSize then Ok None else
  version ← read_u8 data 0;
  packetType ← read_u8 data 2;
  if negb (version =? kDcerpcVersion) || negb (packetType =? expectedPacketType)
  then Ok None else
  flags ← read_u8 data 3;
  let both := Z.lor kDcerpcFlagFirstFragment kDcerpcFlagLastFragment in
  if negb (Z.land flags both =? both) then Ok None else
  representation ← read_u8 data 4;
  if negb (representation =? 0x10) then Ok None else
  fragLength ← readU16Le data 8;
  Ok (if (kCommonHeaderSize <=? fragLength) && (fragLength <=? blen data)
      then Some fragLength else None).

Definition decodeDcerpcBindAck (data : bytes) : comp DcerpcBindAck :=
  header ← validateCommonHeader data kDcerpcPacketTypeBindAck;
  match header with
  | None => failure ErrorCode_IoError "DCE/RPC bind_ack header is invalid."
  | Some fragLength =>
      fail_if fragLength <? 36
        with ErrorCode_IoError, "DCE/RPC bind_ack body is truncated.";;
      maxTransmitFrag ← readU16Le data 16;
      maxReceiveFrag ← readU16Le data 18;
      associationGroupId ← readU32Le data 20;
      secondaryAddressLength ← readU16Le data 24;
      let offset := 26 in
      fail_if fragLength <? offset + secondaryAddressLength
        with ErrorCode_IoError, "DCE/RPC bind_ack secondary address is truncated.";;
      let offset := Z.land (offset + secondaryAddressLength + 3) (Z.lnot 3) in
      fail_if fragLength <? offset + 4
        with ErrorCode_IoError, "DCE/RPC bind_ack result list is truncated.";;
      resultCount ← read_u8 data offset;
      let offset := offset + 4 in
      fail_if (resultCount =? 0) || (fragLength <? offset + 24)
        with ErrorCode_IoError, "DCE/RPC bind_ack has no presentation result.";;
      result ← readU16Le data offset;
      reason ← readU16Le data (offset + 2);
      uuid ← read_range data (offset + 4) (offset + 20);
      majorVersion ← readU16Le data (offset + 20);
      minorVersion ← readU16Le data (offset + 22);
      let accepted := result =? kDcerpcAccepted in
      fail_if negb accepted with ErrorCode_ProtocolUnsupported,
        "DCE/RPC bind_ack rejected the requested presentation context.";;
      Ok (mkDcerpcBindAck maxTransmitFrag maxReceiveFrag associationGroupId accepted
            result reason (mkDcerpcSyntaxId uuid majorVersion minorVersion))
  end.

Definition decodeDcerpcResponse (data : bytes) : comp DcerpcResponse :=
  header ← validateCommonHeader data kDcerpcPacketTypeResponse;
  match header with
  | None => failure ErrorCode_IoError "DCE/RPC response header is invalid."
  | Some fragLength =>
      fail_if fragLength <? kCommonHeaderSize + 8
        with ErrorCode_IoError, "DCE/RPC response body is truncated.";;
      allocationHint ← readU32Le data 16;
      contextId ← readU16Le data 20;
      stubData ← read_range data 24 fragLength;
      Ok (mkDcerpcResponse allocationHint contextId stubData)
  end.

(** ** Nothing is read outside a unit *)

Lemma wp_validateCommonHeader data type :
  bytes_ok data ->
  wp (validateCommonHeader data type)
    (fun r => forall n, r = Some n -> 16 <= n <= blen data /\ is_u16 n).
Proof.
  intros Hb. unfold validateCommonHeader, kCommonHeaderSize. wp_reads; bools; try done.
  intros n. case_if; [|done]. intros [= <-]. bools. split; [lia|ulia].
Qed.

Lemma wp_decodeDcerpcResponse data :
  bytes_ok data -> wp (decodeDcerpcResponse data) (fun r => bytes_ok (drs_stubData r)).
Proof.
  intros Hb. unfold decodeDcerpcResponse, kCommonHeaderSize. apply wp_bind.
  eapply wp_mono; [by apply wp_validateCommonHeader|]. intros [n|] Hn; [|done].
  specialize (Hn n eq_refl). wp_reads; bools; try lia; try done.
Qed.

Lemma wp_decodeDcerpcBindAck data :
  bytes_ok data -> wp (decodeDcerpcBindAck data) (fun a => dba_result a = 0).
Proof.
  intros Hb. unfold decodeDcerpcBindAck. apply wp_bind.
  eapply wp_mono; [by apply wp_validateCommonHeader|]. intros [n|] Hn; [|done].
  specialize (Hn n eq_refl). wp_step; bools; [done|].
  do 3 (wp_step; wp_read). wp_step. apply wp_readU16Le; [done|lia|lia|]. intros l Hl.
  pose proof (align4_spec (26 + l)) as [Hal _].
  replace (26 + (l + 3)) with (26 + l + 3) by lia.
  set (offset := Z.land (26 + l + 3) (Z.lnot 3)) in *. clearbody offset.
  wp_reads; bools; done.
Qed.

(** ** The units of a server are read back *)

Lemma blen_appendCommonHeader type frag call : blen (appendCommonHeader type frag call) = 16.
Proof. done. Qed.
#[export] Hint Rewrite blen_appendCommonHeader : blen.

Lemma validateCommonHeader_at type frag call body :
  is_u8 type -> 16 <= frag <= 16 + blen body -> is_u16 frag ->
  validateCommonHeader (appendCommonHeader type frag call ++ body) type = Ok (Some frag).
Proof.
  intros Ht Hf Hr. unfold validateCommonHeader, kCommonHeaderSize.
  rewrite blen_app, blen_appendCommonHeader, (proj2 (Z.ltb_ge _ _)) by lia.
  assert (forall off v, 0 <= off < 8 ->
    [kDcerpcVersion; 0; type; 3; 0x10; 0; 0; 0] !! Z.to_nat off = Some v ->
    read_u8 (appendCommonHeader type frag call ++ body) off = Ok v) as Hread.
  { intros off v Hoff Hv. unfold read_u8. rewrite decide_True by lia.
    unfold appendCommonHeader. rewrite <- app_assoc.
    by rewrite (lookup_app_l_Some _ _ _ v). }
  rewrite (Hread 0 kDcerpcVersion), (Hread 2 type), (Hread 3 3), (Hread 4 0x10) by done.
  cbn [mbind comp_bind]. rewrite !Z.eqb_refl. cbn [negb orb].
  change (negb (Z.land 3 (Z.lor kDcerpcFlagFirstFragment kDcerpcFlagLastFragment)
    =? Z.lor kDcerpcFlagFirstFragment kDcerpcFlagLastFragment)) with false. cbn iota.
  rewrite (readU16Le_at _ 8 frag) by (unfold appendCommonHeader; find_at).
  cbn [mbind comp_bind]. rewrite u16_small by done.
  by rewrite !(proj2 (Z.leb_le _ _)) by lia.
Qed.

(** A RESPONSE unit, as C706 12.6.4.10 has it, and whatever follows it. *)
Definition response_unit (callId allocationHint contextId : Z) (stub rest : bytes) : bytes :=
  appendCommonHeader kDcerpcPacketTypeResponse (24 + blen stub) callId
  ++ u32Le allocationHint ++ u16Le contextId ++ u16Le 0 ++ stub ++ rest.

Lemma decodeDcerpcResponse_unit callId hint context stub rest :
  is_u32 hint -> is_u16 context -> blen stub <= 65511 ->
  decodeDcerpcResponse (response_unit callId hint context stub rest)
  = Ok (mkDcerpcResponse hint context stub).
Proof.
  intros Hh Hc Hs. pose proof (blen_nonneg stub). pose proof (blen_nonneg rest).
  assert (validateCommonHeader (response_unit callId hint context stub rest)
    kDcerpcPacketTypeResponse = Ok (Some (24 + blen stub))) as Hv.
  { apply validateCommonHeader_at; [done| |ulia].
    rewrite !blen_app. autorewrite with blen. lia. }
  unfold decodeDcerpcResponse. rewrite Hv. cbn [mbind comp_bind]. unfold kCommonHeaderSize.
  rewrite (proj2 (Z.ltb_ge _ _)) by lia.
  rewrite (readU32Le_at _ 16 hint) by (unfold response_unit; find_at). cbn [mbind comp_bind].
  rewrite (readU16Le_at _ 20 context) by (unfold response_unit; find_at). cbn [mbind comp_bind].
  rewrite (read_range_at _ 24 stub) by (unfold response_unit; first [lia|find_at]).
  cbn [mbind comp_bind]. by rewrite u32_small, u16_small.
Qed.

(** A BIND_ACK unit with a secondary address and one result (12.6.4.4). *)
Definition bind_ack_unit (callId maxTransmitFrag maxReceiveFrag groupId : Z)
    (address : bytes) (result reason : Z) (syntax : DcerpcSyntaxId) : bytes :=
  let padding := zeros (Z.to_nat ((- (26 + blen address)) mod 4)) in
  let body := u16Le maxTransmitFrag ++ u16Le maxReceiveFrag ++ u32Le groupId
    ++ u16Le (blen address) ++ address ++ padding ++ [1] ++ [0] ++ u16Le 0
    ++ u16Le result ++ u16Le reason ++ appendSyntaxId syntax in
  appendCommonHeader kDcerpcPacketTypeBindAck (16 + blen body) callId ++ body.

Lemma align4_padded z :
  Z.land (z + 3) (Z.lnot 3) = z + (- z) mod 4.
Proof.
  pose proof (align4_spec z) as [Hr Hm]. pose proof (Z.mod_pos_bound (- z) 4).
  assert ((z + (- z) mod 4) mod 4 = 0) as Hp.
  { rewrite Z.add_mod_idemp_r, Z.add_opp_diag_r by lia. done. }
  pose proof (Z.div_mod (z + (- z) mod 4) 4). 
  pose proof (Z.div_mod (Z.land (z + 3) (Z.lnot 3)) 4). lia.
Qed.

Lemma decodeDcerpcBindAck_unit callId tx rx group address result reason syntax :
  is_u16 tx -> is_u16 rx -> is_u32 group -> blen address <= 60000 ->
  is_u16 result -> is_u16 reason -> blen (dsi_uuid syntax) = 16 ->
  is_u16 (dsi_majorVersion syntax) -> is_u16 (dsi_minorVersion syntax) ->
  decodeDcerpcBindAck (bind_ack_unit callId tx rx group address result reason syntax)
  = if result =? 0 then Ok (mkDcerpcBindAck tx rx group true result reason syntax)
    else failure ErrorCode_ProtocolUnsupported
           "DCE/RPC bind_ack rejected the requested presentation context.".
Proof.
  intros Htx Hrx Hg Ha Hres Hrea Hu Hmaj Hmin. pose proof (blen_nonneg address).
  pose proof (Z.mod_pos_bound (- (26 + blen address)) 4 ltac:(lia)) as Hp.
  set (n := (- (26 + blen address)) mod 4) in *.
  assert (blen (zeros (Z.to_nat n)) = n) as Hz by (len; lia).
  unfold decodeDcerpcBindAck, bind_ack_unit. fold n.
  set (pad := zeros (Z.to_nat n)) in *. clearbody pad.
  destruct syntax as [uuid major minor]. cbn [dsi_uuid dsi_majorVersion dsi_minorVersion] in *.
  unfold appendSyntaxId. cbn [dsi_uuid dsi_majorVersion dsi_minorVersion].
  match goal with |- context [16 + blen ?b] => set (body := b) end.
  assert (blen body = 10 + blen address + n + 28) as Hb.
  { unfold body. rewrite !blen_app, Hz, Hu. autorewrite with blen. lia. }
  rewrite validateCommonHeader_at; [|done|lia|ulia]. cbn [mbind comp_bind].
  rewrite Hb, (proj2 (Z.ltb_ge _ 36)) by lia.
  set (data := appendCommonHeader _ _ _ ++ body).
  rewrite (readU16Le_at data 16 tx) by (unfold data, body; find_at). cbn [mbind comp_bind].
  rewrite (readU16Le_at data 18 rx) by (unfold data, body; find_at). cbn [mbind comp_bind].
  rewrite (readU32Le_at data 20 group) by (unfold data, body; find_at). cbn [mbind comp_bind].
  rewrite (readU16Le_at data 24 (blen address)) by (unfold data, body; find_at).
  cbn [mbind comp_bind]. rewrite (u16_small (blen address)) by ulia.
  rewrite (proj2 (Z.ltb_ge _ (26 + blen address))) by lia.
  replace (26 + blen address + 3) with ((26 + blen address) + 3) by lia.
  rewrite align4_padded. fold n.
  rewrite (proj2 (Z.ltb_ge _ (26 + blen address + n + 4))) by lia.
  rewrite (readU8_at data (26 + blen address + n) 1) by (unfold data, body; find_at).
  cbn [mbind comp_bind]. cbn [Z.eqb orb].
  rewrite (proj2 (Z.ltb_ge _ (26 + blen address + n + 4 + 24))) by lia.
  rewrite (readU16Le_at data (26 + blen address + n + 4) result)
    by (unfold data, body; find_at).
  cbn [mbind comp_bind].
  rewrite (readU16Le_at data (26 + blen address + n + 4 + 2) reason)
    by (unfold data, body; find_at).
  cbn [mbind comp_bind].
  rewrite (read_range_at data (26 + blen address + n + 4 + 4) uuid)
    by (unfold data, body; first [lia|find_at]).
  cbn [mbind comp_bind].
  rewrite (readU16Le_at data (26 + blen address + n + 4 + 20) major)
    by (unfold data, body; find_at).
  cbn [mbind comp_bind].
  rewrite (readU16Le_at data (26 + blen address + n + 4 + 22) minor)
    by (unfold data, body; find_at).
  cbn [mbind comp_bind]. rewrite !u16_small, u32_small by done.
  unfold kDcerpcAccepted. by destruct (result =? 0).
Qed.
