(* ===== verification/SrvsRpc.v ===== *)
(** * The share list of the server service ([SrvsRpc.cpp])

    The NDR encoding of a NetrShareEnum request, and the decoder of its answer:
    a cursor that moves through the stub, the array of shares with the strings
    it defers, and the status at the end. *)

From S2P Require Export Dcerpc.
Local Open Scope Z_scope.
Local Open Scope comp_scope.

Definition kSrvsNetrShareEnumOpnum : Z := 15.
Definition kShareTypeDisk : Z := 0x00000000.
Definition kShareTypePrinter : Z := 0x00000001.
Definition kShareTypeDevice : Z := 0x00000002.
Definition kShareTypeIpc : Z := 0x00000003.
Definition kShareTypeTemporary : Z := 0x40000000.
Definition kShareTypeSpecial : Z := 0x80000000.
Definition kNetApiStatusSuccess : Z := 0.
Definition kNetApiStatusMoreData : Z := 234.
Definition kShareInfoLevel1 : Z := 1.
Definition kNullPointer : Z := 0.
Definition kServerNameReferentId : Z := 0x00020000.
Definition kShareInfoContainerReferentId : Z := 0x00020004.
Definition kResumeHandleReferentId : Z := 0x00020008.

Inductive SrvsShareKind : Set :=
| SrvsShareKind_Disk | SrvsShareKind_Printer | SrvsShareKind_Device
| SrvsShareKind_Ipc | SrvsShareKind_Unknown.

Record SrvsShareInfo : Set := mkSrvsShareInfo {
  ssi_name : bytes;
  ssi_rawType : Z;
  ssi_kind : SrvsShareKind;
  ssi_comment : bytes;
  ssi_hidden : bool;
  ssi_special : bool;
  ssi_temporary : bool
}.

Record SrvsShareEnumResponse : Set := mkSrvsShareEnumResponse {
  sse_shares : list SrvsShareInfo;
  sse_totalEntries : Z;
  sse_resumeHandle : option Z;
  sse_apiStatus : Z;
  sse_moreData : bool
}.

(** ** The request *)

(** [while (size % 4 != 0) push_back(0)]: the zeros it adds to a buffer of
    [size] bytes. *)
Definition align4 (size : Z) : bytes := zeros (Z.to_nat ((- size) mod 4)).

Fixpoint skip_backslashes (name : bytes) : bytes :=
  match name with
  | 0x5C :: name => skip_backslashes name
  | _ => name
  end.

Definition normalizeServerName (serverName : bytes) : bytes :=
  let normalized := (fun c => if c =? 0x2F then 0x5C else c) <$> serverName in
  if bool_decide (take 2 normalized = [0x5C; 0x5C]) then normalized
  else [0x5C; 0x5C] ++ skip_backslashes normalized.

(** What [appendNdrUtf16String] appends to a buffer of [size] bytes. *)
Definition appendNdrUtf16String (size : Z) (text : bytes) : comp bytes :=
  utf16 ← encodeUtf16Le text;
  let characterCount := u32 (blen utf16 / 2 + 1) in
  let field := u32Le characterCount ++ u32Le 0 ++ u32Le characterCount
    ++ utf16 ++ u16Le 0 in
  Ok (field ++ align4 (size + blen field)).

Definition appendNdrUniqueUtf16String (size referentId : Z) (text : bytes) : comp bytes :=
  string ← appendNdrUtf16String (size + 4) text;
  Ok (u32Le referentId ++ string).

Definition buildNetrShareEnumRequestStub (serverName : bytes)
    (preferredMaximumLength : Z) (resumeHandle : option Z) : comp bytes :=
  name ← appendNdrUniqueUtf16String 0 kServerNameReferentId (normalizeServerName serverName);
  Ok (name ++ u32Le kShareInfoLevel1 ++ u32Le kShareInfoLevel1
      ++ u32Le kShareInfoContainerReferentId ++ u32Le 0 ++ u32Le kNullPointer
      ++ u32Le preferredMaximumLength
      ++ match resumeHandle with
         | Some handle => u32Le kResumeHandleReferentId ++ u32Le handle
         | None => u32Le kNullPointer
         end).

(** ** The cursor *)

(** [NdrCursor]: a reading takes the offset and leaves the next one.  Where the
    C++ method returns [false] the caller fails with a text of its own, which is
    the argument [error] here. *)
Definition reading (A : Type) : Type := Z -> comp (A * Z).

#[export] Instance reading_ret : MRet reading := fun A a offset => Ok (a, offset).
#[export] Instance reading_bind : MBind reading := fun A B f r offset =>
  match r offset with
  | Ok (a, offset) => f a offset
  | Err e => Err e
  | Throw m => Throw m
  | OutOfBounds => OutOfBounds
  end.

Definition fail_with {A} (code : ErrorCode) (error : string) : reading A := fun _ =>
  failure code error.
Definition read_failure {A} (error : string) : reading A :=
  fail_with ErrorCode_IoError error.

Section cursor.
Context (data : bytes).

Definition alignTo4 (error : string) : reading unit := fun offset =>
  let aligned := Z.land (offset + 3) (Z.lnot 3) in
  fail_if blen data <? aligned with ErrorCode_IoError, error;;
  Ok (tt, aligned).

Definition readU32 (error : string) : reading Z := fun offset =>
  fail_if blen data <? offset + 4 with ErrorCode_IoError, error;;
  value ← readU32Le data offset;
  Ok (value, offset + 4).

(** The characters at the cursor, without a terminating zero. *)
Definition string_at (error : string) (actualCount : Z) : reading bytes := fun offset =>
  let byteCount := u64 (actualCount * 2) in
  fail_if blen data <? offset + byteCount with ErrorCode_IoError, error;;
  terminated ← (if 2 <=? byteCount then
                  last ← readU16Le data (offset + byteCount - 2); Ok (last =? 0)
                else Ok false);
  let decodeBytes := if terminated : bool then byteCount - 2 else byteCount in
  chars ← read_range data offset (offset + decodeBytes);
  match decodeUtf16Le chars with
  | Ok text => Ok (text, offset + byteCount)
  | Err _ => failure ErrorCode_IoError error
  | Throw m => Throw m
  | OutOfBounds => OutOfBounds
  end.

Definition readUtf16String (error : string) : reading bytes :=
  maxCount ← readU32 error;
  offsetCount ← readU32 error;
  actualCount ← readU32 error;
  if negb (offsetCount =? 0) || (maxCount <? actualCount)
     || (u64 (2 ^ 64 - 1) / 2 <? actualCount)
  then read_failure error
  else
    text ← string_at error actualCount;
    alignTo4 error;;
    mret text.
End cursor.

(** ** The answer *)

Definition shareKind (rawType : Z) : SrvsShareKind :=
  let kind := Z.land rawType 0x000000FF in
  if kind =? kShareTypeDisk then SrvsShareKind_Disk
  else if kind =? kShareTypePrinter then SrvsShareKind_Printer
  else if kind =? kShareTypeDevice then SrvsShareKind_Device
  else if kind =? kShareTypeIpc then SrvsShareKind_Ipc
  else SrvsShareKind_Unknown.

Definition endsWithDollar (text : bytes) : bool := bool_decide (last text = Some 0x24).

Record DeferredShare : Set := mkDeferredShare {
  dfs_namePointer : Z;
  dfs_rawType : Z;
  dfs_commentPointer : Z
}.

Section answer.
Context (data : bytes).

(** [for (index = 0; index < entriesRead; ++index)], [remaining] turns to go;
    each takes twelve bytes of the stub, which bounds the [fuel]. *)
Fixpoint deferred_loop (fuel : nat) (remaining : Z) : reading (list DeferredShare) :=
  match fuel with
  | O => fun _ => OutOfBounds
  | S fuel =>
      if remaining =? 0 then mret []
      else
        let truncated := "NetrShareEnum response share array is truncated."%string in
        namePointer ← readU32 data truncated;
        rawType ← readU32 data truncated;
        commentPointer ← readU32 data truncated;
        rest ← deferred_loop fuel (remaining - 1);
        mret (mkDeferredShare namePointer rawType commentPointer :: rest)
  end.

Definition decodeShare (item : DeferredShare) : reading SrvsShareInfo :=
  name ← (if dfs_namePointer item =? kNullPointer then mret []
          else readUtf16String data "NetrShareEnum response share name is invalid.");
  let special := negb (Z.land (dfs_rawType item) kShareTypeSpecial =? 0) in
  comment ← (if dfs_commentPointer item =? kNullPointer then mret []
             else readUtf16String data "NetrShareEnum response share comment is invalid.");
  mret (mkSrvsShareInfo name (dfs_rawType item) (shareKind (dfs_rawType item)) comment
          (special || endsWithDollar name) special
          (negb (Z.land (dfs_rawType item) kShareTypeTemporary =? 0))).

(** The array behind the buffer pointer of the container. *)
Definition share_array (entriesRead bufferPointer : Z) : reading (list SrvsShareInfo) :=
  if negb (bufferPointer =? kNullPointer) then
    arrayCount ← readU32 data "NetrShareEnum response is missing share array count.";
    if arrayCount <? entriesRead
    then read_failure "NetrShareEnum response array count is inconsistent."
    else
      deferred ← deferred_loop (S (length data)) entriesRead;
      mapM decodeShare deferred
  else if negb (entriesRead =? 0)
  then read_failure "NetrShareEnum response has entries without a buffer."
  else mret [].

Definition container (containerPointer : Z) : reading (Z * Z) :=
  let truncated := "NetrShareEnum response share container is truncated."%string in
  if negb (containerPointer =? kNullPointer) then
    entriesRead ← readU32 data truncated;
    bufferPointer ← readU32 data truncated;
    mret (entriesRead, bufferPointer)
  else mret (0, 0).

Definition resume_handle (resumePointer : Z) : reading (option Z) :=
  if negb (resumePointer =? kNullPointer) then
    resume ← readU32 data "NetrShareEnum response resume handle is truncated.";
    mret (Some resume)
  else mret None.

Definition share_enum_reading : reading SrvsShareEnumResponse :=
  let before := "NetrShareEnum response is truncated before share list."%string in
  level ← readU32 data before;
  unionLevel ← readU32 data before;
  containerPointer ← readU32 data before;
  if negb (level =? kShareInfoLevel1) || negb (unionLevel =? kShareInfoLevel1)
  then read_failure "NetrShareEnum response uses an unsupported info level."
  else
    '(entriesRead, bufferPointer) ← container containerPointer;
    shares ← share_array entriesRead bufferPointer;
    totalEntries ← readU32 data "NetrShareEnum response is missing total entries.";
    resumePointer ← readU32 data "NetrShareEnum response is missing resume handle pointer.";
    resumeHandle ← resume_handle resumePointer;
    apiStatus ← readU32 data "NetrShareEnum response is missing API status.";
    let moreData := apiStatus =? kNetApiStatusMoreData in
    if negb (apiStatus =? kNetApiStatusSuccess) && negb moreData
    then fail_with (if apiStatus =? 5 then ErrorCode_PermissionDenied
                    else ErrorCode_NetworkError)
           "NetrShareEnum returned a non-success NET_API_STATUS."
    else mret (mkSrvsShareEnumResponse shares totalEntries resumeHandle apiStatus moreData).
End answer.

Definition decodeNetrShareEnumResponseStub (data : bytes) : comp SrvsShareEnumResponse :=
  '(response, _) ← share_enum_reading data 0; Ok response.

(** ** Nothing is read outside the stub *)

(** [rwp r P offset]: from [offset] the reading stays inside and leaves [P] of
    its value and offset. *)
Definition rwp {A} (r : reading A) (offset : Z) (P : A -> Z -> Prop) : Prop :=
  wp (r offset) (fun p => P p.1 p.2).

Lemma rwp_bind {A B} (r : reading A) (f : A -> reading B) offset (P : B -> Z -> Prop) :
  rwp r offset (fun a offset => rwp (f a) offset P) -> rwp (r ≫= f) offset P.
Proof. unfold rwp, mbind, reading_bind. by destruct (r offset) as [[a o]| | |]. Qed.

Lemma rwp_mono {A} (r : reading A) offset (P Q : A -> Z -> Prop) :
  rwp r offset P -> (forall a o, P a o -> Q a o) -> rwp r offset Q.
Proof. intros H HPQ. eapply wp_mono; [exact H|]. by intros [a o]; apply HPQ. Qed.

Section safe.
Context (data : bytes) (Hok : bytes_ok data).

(** The cursor is inside the stub. *)
Definition inside (offset : Z) : Prop := 0 <= offset <= blen data.

Lemma rwp_readU32 error offset :
  inside offset ->
  rwp (readU32 data error) offset (fun v o => is_u32 v /\ o = offset + 4 /\ inside o).
Proof using Hok.
  unfold inside, rwp, readU32. intros Ho. wp_reads; bools. cbn [fst snd]. by split_and!; [|lia..].
Qed.

Lemma rwp_readUtf16String error offset :
  inside offset ->
  rwp (readUtf16String data error) offset (fun _ o => offset <= o /\ inside o).
Proof using Hok.
  intros Ho. unfold readUtf16String.
  do 3 (apply rwp_bind; eapply rwp_mono; [by apply rwp_readU32|];
    intros ? ? (? & -> & ?)).
  case_if; [done|]. apply rwp_bind. rename a1 into count.
  eapply (rwp_mono _ _ (fun _ o => offset <= o /\ inside o)).
  - unfold rwp, string_at, inside in *. rewrite u64_small by ulia. wp_step; bools; [done|].
    apply wp_bind. eapply (wp_mono _ (fun b : bool => b = true -> 2 <= count * 2)).
    { wp_reads; bools; try done; ulia. }
    intros b Hb. wp_step. apply wp_read_range; [done|lia| | |].
    1, 2: destruct b; [specialize (Hb eq_refl)|]; ulia.
    intros chars Hc _. pose proof (wp_decodeUtf16Le chars) as Hw.
    destruct (decodeUtf16Le chars); cbn in *; try done; ulia.
  - intros text o [Hle Hin]. apply rwp_bind. unfold rwp, alignTo4, inside in *.
    pose proof (align4_spec o) as [Hal _]. wp_step; bools; [done|]. cbn. lia.
Qed.
End safe.

Section safe_answer.
Context (data : bytes) (Hok : bytes_ok data).
Local Abbreviation inside := (inside data).

Lemma rwp_deferred_loop fuel remaining offset :
  inside offset -> blen data - offset < 12 * Z.of_nat fuel ->
  rwp (deferred_loop data fuel remaining) offset (fun _ o => inside o).
Proof using Hok.
  revert remaining offset. induction fuel as [|fuel IH]; intros remaining offset Ho Hf.
  { unfold inside in Ho. lia. }
  cbn [deferred_loop]. case_if; [done|].
  do 3 (apply rwp_bind; eapply rwp_mono; [by apply rwp_readU32|]; intros ? ? (? & -> & ?)).
  apply rwp_bind. eapply rwp_mono; [apply IH; [done|lia]|]. by intros rest o Hr.
Qed.

Lemma rwp_decodeShare item offset :
  inside offset -> rwp (decodeShare data item) offset (fun _ o => inside o).
Proof using Hok.
  intros Ho. unfold decodeShare. apply rwp_bind.
  eapply (rwp_mono _ _ (fun _ => inside)).
  { case_if; [done|]. eapply rwp_mono; [by apply rwp_readUtf16String|]. by intros ? ? []. }
  intros name o Hin. apply rwp_bind. eapply (rwp_mono _ _ (fun _ => inside)).
  { case_if; [done|]. eapply rwp_mono; [by apply rwp_readUtf16String|]. by intros ? ? []. }
  by intros comment o' Hin'.
Qed.

Lemma rwp_mapM {A B} (f : A -> reading B) l offset :
  (forall a o, inside o -> rwp (f a) o (fun _ o => inside o)) -> inside offset ->
  rwp (mapM f l) offset (fun _ o => inside o).
Proof using Type.
  intros Hf. revert offset. induction l as [|a l IH]; intros offset Ho; [done|].
  cbn [mapM]. apply rwp_bind. eapply rwp_mono; [by apply Hf|]. intros b o Hb. cbn beta in Hb.
  apply rwp_bind. eapply rwp_mono; [by apply IH|]. by intros bs o' Hbs.
Qed.

Lemma rwp_share_array entries buffer offset :
  inside offset -> rwp (share_array data entries buffer) offset (fun _ o => inside o).
Proof using Hok.
  intros Ho. unfold share_array. case_if; [|by case_if].
  apply rwp_bind; eapply rwp_mono; [by apply rwp_readU32|]. intros n ? (? & -> & Hi).
  case_if; [done|]. apply rwp_bind. eapply rwp_mono.
  { apply rwp_deferred_loop; [done|]. unfold inside, blen in *. lia. }
  intros deferred o Hd. cbn beta in Hd. apply rwp_mapM; [|done].
  intros. by apply rwp_decodeShare.
Qed.

Ltac u32_step := apply rwp_bind; eapply rwp_mono; [by apply rwp_readU32|]; intros ? ? (? & -> & ?).

Lemma wp_decodeNetrShareEnumResponseStub :
  wp (decodeNetrShareEnumResponseStub data) (fun _ => True).
Proof using Hok.
  unfold decodeNetrShareEnumResponseStub. apply wp_bind.
  eapply (wp_mono _ (fun _ => True)); [|by intros []].
  change (rwp (share_enum_reading data) 0 (fun _ _ => True)).
  assert (inside 0) by (split; [done|apply blen_nonneg]). unfold share_enum_reading.
  do 3 u32_step. case_if; [done|]. apply rwp_bind. eapply (rwp_mono _ _ (fun _ => inside)).
  { unfold container. case_if; [|done]. by do 2 u32_step. }
  intros [entries buffer] o Hc. cbn beta in Hc. apply rwp_bind.
  eapply rwp_mono; [by apply rwp_share_array|]. intros shares o' Hs. cbn beta in Hs.
  do 2 u32_step. apply rwp_bind. eapply (rwp_mono _ _ (fun _ => inside)).
  { unfold resume_handle. case_if; [|done]. by u32_step. }
  intros resume o'' Hr. cbn beta in Hr. u32_step. by case_if.
Qed.
End safe_answer.

(** ** The answer of a server is read back *)

(** A string as NDR has it, terminated and padded. *)
Definition ndr_string (utf16 : bytes) : bytes :=
  u32Le (blen utf16 / 2 + 1) ++ u32Le 0 ++ u32Le (blen utf16 / 2 + 1)
  ++ utf16 ++ u16Le 0 ++ align4 (14 + blen utf16).

Record WireShare : Set := mkWireShare {
  wsh_name : bytes;
  wsh_type : Z;
  wsh_comment : bytes
}.

Definition wire_share_ok (s : WireShare) : Prop :=
  is_u32 (wsh_type s) /\
  blen (wsh_name s) mod 2 = 0 /\ blen (wsh_name s) < 2 ^ 32 /\
  blen (wsh_comment s) mod 2 = 0 /\ blen (wsh_comment s) < 2 ^ 32.

(** A share list: the level, the array with [referent] ids for its strings, the
    strings, and what follows. *)
Definition share_header (referent : Z) (s : WireShare) : bytes :=
  u32Le referent ++ u32Le (wsh_type s) ++ u32Le referent.

Definition share_strings (s : WireShare) : bytes :=
  ndr_string (wsh_name s) ++ ndr_string (wsh_comment s).

Definition share_list_stub (referent : Z) (shares : list WireShare) (total : Z)
    (resume : option Z) (status : Z) : bytes :=
  u32Le 1 ++ u32Le 1 ++ u32Le referent ++ u32Le (blen shares) ++ u32Le referent
  ++ u32Le (blen shares) ++ concat (share_header referent <$> shares)
  ++ concat (share_strings <$> shares) ++ u32Le total
  ++ match resume with
     | Some handle => u32Le referent ++ u32Le handle
     | None => u32Le 0
     end
  ++ u32Le status.

(** What a share list says of a share. *)
Definition share_of (s : WireShare) (name comment : bytes) : SrvsShareInfo :=
  let special := Z.testbit (wsh_type s) 31 in
  mkSrvsShareInfo name (wsh_type s) (shareKind (wsh_type s)) comment
    (special || bool_decide (last name = Some 0x24)) special (Z.testbit (wsh_type s) 30).

Definition shares_listed (s : WireShare) (i : SrvsShareInfo) : Prop :=
  exists name comment, decodeUtf16Le (wsh_name s) = Ok name /\
    decodeUtf16Le (wsh_comment s) = Ok comment /\ i = share_of s name comment.

Lemma readU32_at data error offset v :
  is_u32 v -> at_off data offset (u32Le v) ->
  readU32 data error offset = Ok (v, offset + 4).
Proof.
  intros Hv Hat. unfold readU32. pose proof (at_off_bound _ _ _ Hat) as Hb.
  autorewrite with blen in Hb. rewrite (proj2 (Z.ltb_ge _ _)) by lia.
  rewrite (readU32Le_at _ _ v Hat). cbn [mbind comp_bind]. by rewrite u32_small.
Qed.

Lemma reading_bind_Ok {A B} (r : reading A) (f : A -> reading B) offset a offset' :
  r offset = Ok (a, offset') -> (r ≫= f) offset = f a offset'.
Proof. intros H. unfold mbind, reading_bind. by rewrite H. Qed.

Lemma blen_ndr_string w : blen w mod 2 = 0 -> blen (ndr_string w) mod 4 = 0.
Proof.
  intros Hw. unfold ndr_string, align4. rewrite !blen_app. autorewrite with blen. unfold zeros.
  rewrite blen_replicate. pose proof (Z.mod_pos_bound (- (14 + blen w)) 4 ltac:(lia)).
  rewrite Z2Nat.id by lia.
  replace (4 + (4 + (4 + (blen w + (2 + (- (14 + blen w)) mod 4)))))
    with ((14 + blen w) + (- (14 + blen w)) mod 4) by lia.
  rewrite Z.add_mod_idemp_r by lia. by rewrite Z.add_opp_diag_r.
Qed.

Lemma readUtf16String_at data error offset w text :
  at_off data offset (ndr_string w) -> offset mod 4 = 0 ->
  blen w mod 2 = 0 -> blen w < 2 ^ 32 -> decodeUtf16Le w = Ok text ->
  readUtf16String data error offset = Ok (text, offset + blen (ndr_string w)).
Proof.
  intros Hat Hmod Hw2 Hw Hd. pose proof (blen_nonneg w).
  assert (blen w = 2 * (blen w / 2)) as Heven by (rewrite (Z.div_mod (blen w) 2) at 1; lia).
  set (n := blen w / 2) in *.
  pose proof (blen_ndr_string w Hw2) as Hal. pose proof (at_off_bound _ _ _ Hat) as Hb.
  unfold ndr_string in Hat, Hb |- *. fold n in Hat, Hb |- *.
  apply at_off_app in Hat as [H0 Hat]. apply at_off_app in Hat as [H1 Hat].
  apply at_off_app in Hat as [H2 Hat]. apply at_off_app in Hat as [H3 Hat].
  apply at_off_app in Hat as [H4 _]. autorewrite with blen in *.
  assert (0 <= blen (align4 (14 + blen w))) as Hpad by apply blen_nonneg.
  set (pad := blen (align4 _)) in *.
  unfold readUtf16String.
  rewrite (reading_bind_Ok _ _ _ _ _ (readU32_at _ error _ (n + 1) ltac:(ulia) H0)).
  rewrite (reading_bind_Ok _ _ _ _ _ (readU32_at _ error _ 0 ltac:(ulia) H1)).
  rewrite (reading_bind_Ok _ _ _ _ _ (readU32_at _ error _ (n + 1) ltac:(ulia) H2)).
  cbn [Z.eqb negb orb]. change (u64 (2 ^ 64 - 1) / 2) with (2 ^ 63 - 1).
  rewrite !(proj2 (Z.ltb_ge _ _)) by lia. cbn [orb].
  assert (string_at data error (n + 1) (offset + 4 + 4 + 4)
    = Ok (text, offset + 12 + 2 * n + 2)) as Hs.
  { unfold string_at. rewrite u64_small by ulia.
    rewrite (proj2 (Z.ltb_ge _ _)) by lia. rewrite (proj2 (Z.leb_le 2 _)) by lia.
    rewrite (readU16Le_at _ _ 0) by (eapply at_off_eq; [exact H4|lia]).
    cbn [mbind comp_bind]. change (u16 0 =? 0) with true. cbn iota.
    rewrite (read_range_at _ _ w); [|exact H3|lia]. cbn [mbind comp_bind].
    rewrite Hd. do 2 f_equal. lia. }
  rewrite (reading_bind_Ok _ _ _ _ _ Hs). unfold mbind, reading_bind, alignTo4, mret, reading_ret.
  assert (Z.land (offset + 12 + 2 * n + 2 + 3) (Z.lnot 3)
    = offset + (4 + (4 + (4 + (blen w + (2 + pad)))))) as ->.
  { rewrite align4_padded. unfold pad, align4, zeros. rewrite blen_replicate, Z2Nat.id
      by (apply Z.mod_pos_bound; lia).
    replace (- (offset + 12 + 2 * n + 2)) with (- (14 + blen w) + (- (offset / 4)) * 4)
      by (pose proof (Z.div_mod offset 4 ltac:(lia)); lia).
    rewrite Z.mod_add by lia. lia. }
  rewrite (proj2 (Z.ltb_ge _ _)) by lia. done.
Qed.

Definition deferred_of (referent : Z) (s : WireShare) : DeferredShare :=
  mkDeferredShare referent (wsh_type s) referent.

Section read_back.
Context (data : bytes) (referent : Z) (Hr : is_u32 referent /\ referent <> 0).

Lemma deferred_loop_at shares fuel offset :
  Forall wire_share_ok shares -> (length shares < fuel)%nat ->
  at_off data offset (concat (share_header referent <$> shares)) ->
  deferred_loop data fuel (blen shares) offset
  = Ok (deferred_of referent <$> shares, offset + blen (concat (share_header referent <$> shares))).
Proof using Hr.
  intros Hs. revert fuel offset.
  induction Hs as [|s shares (Ht & _) _ IH]; intros [|fuel] offset Hf Hat;
    try (simpl in Hf; lia); cbn [deferred_loop fmap list_fmap concat].
  { by rewrite blen_nil, Z.add_0_r. }
  cbn [fmap list_fmap concat] in Hat. apply at_off_app in Hat as [Hh Hat].
  rewrite blen_cons. pose proof (blen_nonneg shares).
  rewrite (proj2 (Z.eqb_neq _ 0)) by lia.
  assert (blen (share_header referent s) = 12) as Hl by done. rewrite Hl in Hat.
  unfold share_header at 1 in Hh.
  apply at_off_app in Hh as [H0 Hh]. apply at_off_app in Hh as [H1 H2].
  autorewrite with blen in *.
  rewrite (reading_bind_Ok _ _ _ _ _ (readU32_at _ _ _ referent (proj1 Hr) H0)).
  rewrite (reading_bind_Ok _ _ _ _ _ (readU32_at _ _ _ (wsh_type s) Ht H1)).
  rewrite (reading_bind_Ok _ _ _ _ _ (readU32_at _ _ _ referent (proj1 Hr) H2)).
  replace (1 + blen shares - 1) with (blen shares) by lia.
  erewrite reading_bind_Ok; [|apply IH; [simpl in Hf; lia|]].
  - rewrite Hl. unfold mret, reading_ret. do 2 f_equal. lia.
  - eapply at_off_eq; [exact Hat|lia].
Qed.

Lemma decodeShare_at s i offset :
  wire_share_ok s -> shares_listed s i -> offset mod 4 = 0 ->
  at_off data offset (share_strings s) ->
  decodeShare data (deferred_of referent s) offset = Ok (i, offset + blen (share_strings s)).
Proof using Hr.
  intros (Ht & Hn2 & Hn & Hc2 & Hc) (name & comment & Hname & Hcomment & ->) Hm Hat.
  unfold share_strings in *. apply at_off_app in Hat as [H0 H1].
  unfold decodeShare, deferred_of. cbn [dfs_namePointer dfs_rawType dfs_commentPointer].
  rewrite (proj2 (Z.eqb_neq referent kNullPointer)) by (unfold kNullPointer; apply Hr).
  rewrite (reading_bind_Ok _ _ _ _ _
    (readUtf16String_at _ _ _ _ name H0 Hm Hn2 Hn Hname)).
  rewrite (reading_bind_Ok _ _ _ _ _
    (readUtf16String_at _ _ _ _ comment H1 ltac:(rewrite Z.add_mod, blen_ndr_string, Hm by done; done) Hc2 Hc Hcomment)).
  unfold mret, reading_ret, share_of. rewrite blen_app, Z.add_assoc.
  change kShareTypeSpecial with (2 ^ 31). change kShareTypeTemporary with (2 ^ 30).
  by rewrite !land_bit, !negb_involutive by lia.
Qed.

Lemma shares_at shares infos offset :
  Forall wire_share_ok shares -> Forall2 shares_listed shares infos -> offset mod 4 = 0 ->
  at_off data offset (concat (share_strings <$> shares)) ->
  mapM (decodeShare data) (deferred_of referent <$> shares) offset
  = Ok (infos, offset + blen (concat (share_strings <$> shares))).
Proof using Hr.
  intros Hs Hl. revert offset. induction Hl as [|s i shares infos Hi Hl IH];
    intros offset Hm Hat; cbn [mapM fmap list_fmap concat] in *.
  { by rewrite blen_nil, Z.add_0_r. }
  apply Forall_cons in Hs as [Hok Hs]. apply at_off_app in Hat as [H0 Hat].
  rewrite (reading_bind_Ok _ _ _ _ _ (decodeShare_at s i offset Hok Hi Hm H0)).
  assert (blen (share_strings s) mod 4 = 0) as Hm'.
  { unfold share_strings. rewrite blen_app, Z.add_mod, !blen_ndr_string by (done || apply Hok).
    done. }
  erewrite reading_bind_Ok; [|apply IH; [done| |exact Hat]].
  - rewrite blen_app, Z.add_assoc. done.
  - by rewrite Z.add_mod, Hm, Hm'.
Qed.
End read_back.

Lemma blen_share_headers referent shares :
  blen (concat (share_header referent <$> shares)) = 12 * blen shares.
Proof.
  induction shares as [|s shares IH]; [done|].
  cbn [fmap list_fmap concat]. rewrite blen_app, IH, blen_cons.
  change (blen (share_header referent s)) with 12. lia.
Qed.

(** The end of the answer. *)
Lemma tail_at data error error' offset referent resume status :
  is_u32 referent -> referent <> 0 -> from_option is_u32 True resume -> is_u32 status ->
  at_off data offset
    (match resume with
     | Some handle => u32Le referent ++ u32Le handle
     | None => u32Le 0
     end ++ u32Le status) ->
  exists pointer o1 o2 o3,
    readU32 data error offset = Ok (pointer, o1) /\
    resume_handle data pointer o1 = Ok (resume, o2) /\
    readU32 data error' o2 = Ok (status, o3).
Proof.
  intros Hr Hr0 Hh Hst Hat. apply at_off_app in Hat as [H0 H1].
  destruct resume as [handle|].
  - apply at_off_app in H0 as [H0 H0']. rewrite blen_app in H1. rewrite !blen_u32Le in *.
    eexists _, _, _, _. split; [exact (readU32_at _ _ _ _ Hr H0)|]. split.
    + unfold resume_handle, kNullPointer. rewrite (proj2 (Z.eqb_neq referent 0) Hr0).
      cbn [negb]. by rewrite (reading_bind_Ok _ _ _ _ _ (readU32_at _ _ _ _ Hh H0')).
    + apply (readU32_at _ _ _ status Hst). eapply at_off_eq; [exact H1|lia].
  - rewrite !blen_u32Le in *.
    eexists _, _, _, _. split; [exact (readU32_at _ _ _ 0 ltac:(ulia) H0)|]. split; [done|].
    apply (readU32_at _ _ _ status Hst H1).
Qed.

(** A share list is read as it was written: the shares in order, with the
    names and comments their UTF-16 stands for, hidden when the special bit is
    set or the name ends in a dollar, and the total and resume handle.  Only the
    status decides whether it is a result: success and more-data are, access
    denied and every other status fail. *)
Theorem share_list_decodes referent shares infos total resume status :
  is_u32 referent -> referent <> 0 -> Forall wire_share_ok shares ->
  Forall2 shares_listed shares infos -> blen shares < 2 ^ 32 -> is_u32 total ->
  from_option is_u32 True resume -> is_u32 status ->
  decodeNetrShareEnumResponseStub (share_list_stub referent shares total resume status)
  = if decide (status ∈ [0; 234])
    then Ok (mkSrvsShareEnumResponse infos total resume status (status =? 234))
    else failure (if status =? 5 then ErrorCode_PermissionDenied else ErrorCode_NetworkError)
           "NetrShareEnum returned a non-success NET_API_STATUS.".
Proof.
  intros Hr Hr0 Hs Hl Hn Ht Hh Hst. pose proof (blen_nonneg shares).
  set (data := share_list_stub referent shares total resume status).
  assert (at_off data 0 data) as Hat by apply at_off_all.
  unfold data at 2, share_list_stub in Hat.
  apply at_off_app in Hat as [H0 Hat]. apply at_off_app in Hat as [H1 Hat].
  apply at_off_app in Hat as [H2 Hat]. apply at_off_app in Hat as [H3 Hat].
  apply at_off_app in Hat as [H4 Hat]. apply at_off_app in Hat as [H5 Hat].
  apply at_off_app in Hat as [H6 Hat]. apply at_off_app in Hat as [H7 Hat].
  apply at_off_app in Hat as [H8 Hat]. rewrite !blen_u32Le in *.
  unfold decodeNetrShareEnumResponseStub.
  enough (exists last, share_enum_reading data 0 = match status =? 0, status =? 234 with
      | false, false => failure (if status =? 5 then ErrorCode_PermissionDenied
           else ErrorCode_NetworkError) "NetrShareEnum returned a non-success NET_API_STATUS."
      | _, b => Ok (mkSrvsShareEnumResponse infos total resume status b, last) end) as [last ->].
  { destruct (Z.eqb_spec status 0) as [->|]; [done|].
    destruct (Z.eqb_spec status 234) as [->|]; [done|].
    rewrite decide_False; [done|].
    by intros [?|[?|?%elem_of_nil]%elem_of_cons]%elem_of_cons. }
  pose proof (proj2 (Z.eqb_neq referent 0) Hr0) as Hne.
  unfold share_enum_reading.
  rewrite (reading_bind_Ok _ _ _ _ _ (readU32_at _ _ _ 1 ltac:(ulia) H0)).
  rewrite (reading_bind_Ok _ _ _ _ _ (readU32_at _ _ _ 1 ltac:(ulia) H1)).
  rewrite (reading_bind_Ok _ _ _ _ _ (readU32_at _ _ _ referent Hr H2)).
  cbn [Z.eqb Pos.eqb kShareInfoLevel1 negb orb].
  assert (container data referent (0 + 4 + 4 + 4)
    = Ok ((blen shares, referent), 0 + 4 + 4 + 4 + 4 + 4)) as Hc.
  { unfold container, kNullPointer. rewrite Hne. cbn [negb].
    rewrite (reading_bind_Ok _ _ _ _ _ (readU32_at _ _ _ (blen shares) ltac:(ulia) H3)).
    by rewrite (reading_bind_Ok _ _ _ _ _ (readU32_at _ _ _ _ Hr H4)). }
  rewrite (reading_bind_Ok _ _ _ _ _ Hc). clear Hc.
  assert (share_array data (blen shares) referent (0 + 4 + 4 + 4 + 4 + 4)
    = Ok (infos, 0 + 4 + 4 + 4 + 4 + 4 + 4 + blen (concat (share_header referent <$> shares))
          + blen (concat (share_strings <$> shares)))) as Ha.
  { unfold share_array, kNullPointer. rewrite Hne. cbn [negb].
    rewrite (reading_bind_Ok _ _ _ _ _ (readU32_at _ _ _ (blen shares) ltac:(ulia) H5)).
    rewrite Z.ltb_irrefl.
    pose proof (at_off_bound _ _ _ H6) as Hb. rewrite blen_share_headers in Hb.
    erewrite reading_bind_Ok;
      [|apply (deferred_loop_at data referent (conj Hr Hr0) shares); [done| |exact H6]].
    - apply (shares_at data referent (conj Hr Hr0)); [done..| |exact H7].
      rewrite blen_share_headers.
      replace (0 + 4 + 4 + 4 + 4 + 4 + 4 + 12 * blen shares)
        with ((6 + 3 * blen shares) * 4) by lia.
      by apply Z.mod_mul.
    - unfold blen in Hb. lia. }
  rewrite (reading_bind_Ok _ _ _ _ _ Ha). clear Ha.
  rewrite (reading_bind_Ok _ _ _ _ _ (readU32_at _ _ _ total Ht H8)).
  destruct (tail_at data "NetrShareEnum response is missing resume handle pointer."
    "NetrShareEnum response is missing API status." _ referent resume status Hr Hr0 Hh Hst Hat)
    as (pointer & o1 & o2 & o3 & Hp & Hres & Hs3).
  rewrite (reading_bind_Ok _ _ _ _ _ Hp), (reading_bind_Ok _ _ _ _ _ Hres),
    (reading_bind_Ok _ _ _ _ _ Hs3). exists o3.
  unfold kNetApiStatusSuccess, kNetApiStatusMoreData.
  by destruct (status =? 0), (status =? 234).
Qed.

(** Two shares, one of them hidden. *)
Definition sample_shares : list WireShare :=
  [mkWireShare [0x64; 0] 0 [0x41; 0; 0x42; 0]; mkWireShare [0x43; 0; 0x24; 0] 0x80000000 []].

Definition sample_infos : list SrvsShareInfo :=
  [mkSrvsShareInfo [0x64] 0 SrvsShareKind_Disk [0x41; 0x42] false false false;
   mkSrvsShareInfo [0x43; 0x24] 0x80000000 SrvsShareKind_Disk [] true true false].

Lemma share_list_decodes_witness :
  decodeNetrShareEnumResponseStub (share_list_stub 0x20000 sample_shares 2 (Some 7) 234)
  = Ok (mkSrvsShareEnumResponse sample_infos 2 (Some 7) 234 true).
Proof.
  assert (Forall wire_share_ok sample_shares) as Hs.
  { repeat constructor; cbn; ulia. }
  assert (Forall2 shares_listed sample_shares sample_infos) as Hl.
  { repeat constructor; [exists [0x64], [0x41; 0x42]|exists [0x43; 0x24], []]; by vm_compute. }
  refine (share_list_decodes 0x20000 sample_shares sample_infos 2 (Some 7) 234 _ _ Hs Hl _ _ _ _);
    (done || (cbn; ulia)).
Defined.
