(* ===== verification/ShareEnumeration.v ===== *)
(** * Listing the shares of a server ([RemoteShareEnumerator.cpp])

    The enumerator opens the pipe of the server service, binds it, asks for the
    share list, and closes the pipe; when a step fails it closes the pipe all
    the same, with a context that cannot be cancelled. *)

From S2P Require Export FileRuns SrvsRpc.
Local Open Scope Z_scope.
Local Open Scope comp_scope.

Definition kPipeReadSize : Z := 64 * 1024.

Record NativeShareInfo : Set := mkNativeShareInfo {
  nsi_name : bytes;
  nsi_rawType : Z;
  nsi_type : string;
  nsi_comment : bytes;
  nsi_hidden : bool;
  nsi_special : bool;
  nsi_temporary : bool
}.

Record NativeShareList : Set := mkNativeShareList {
  nsl_shares : list NativeShareInfo;
  nsl_totalEntries : Z;
  nsl_resumeHandle : option Z;
  nsl_moreData : bool;
  nsl_messagesUsed : Z
}.

(** The name of the pipe, in ASCII. *)
Definition srvsvc : bytes := [0x73; 0x72; 0x76; 0x73; 0x76; 0x63].

Definition srvsvcPipeOpenOptions : CreateRequestOptions :=
  mkCreateRequestOptions srvsvc 0 0x00000002
    (Z.lor (Z.lor (Z.lor (Z.lor kFileReadData kFileWriteData) kFileReadAttributes)
              kFileWriteAttributes) kSynchronizeAccess)
    kFileAttributeNormal (Z.lor kFileShareRead kFileShareWrite) kFileOpen 0 [].

Definition typeName (kind : SrvsShareKind) : string :=
  match kind with
  | SrvsShareKind_Disk => "disk"
  | SrvsShareKind_Printer => "printer"
  | SrvsShareKind_Device => "device"
  | SrvsShareKind_Ipc => "ipc"
  | SrvsShareKind_Unknown => "unknown"
  end.

Definition toNativeShare (share : SrvsShareInfo) : NativeShareInfo :=
  mkNativeShareInfo (ssi_name share) (ssi_rawType share) (typeName (ssi_kind share))
    (ssi_comment share) (ssi_hidden share) (ssi_special share) (ssi_temporary share).

(** [OperationContext cleanupContext; cleanupContext.timeout = context.timeout] *)
Definition pipeCleanupContext (context : OperationContext) : OperationContext :=
  mkOperationContext (oc_timeout context) false false false.

Section enumeration.
Context (messageId treeId sessionId : Z) (context : OperationContext).
Local Abbreviation id k := (u64 (messageId + k)).

Definition writePipe (k : Z) (fileId : FileId) (data : bytes) : action bool :=
  written ← reraised (WriteExchanger_write (id k) treeId sessionId context
                        (writeOptions fileId data 0));
  lift (fail_if negb (wrr_count written =? blen data)
          with ErrorCode_IoError, "SMB named pipe write was shorter than expected.";;
        Ok true).

Definition readPipe (k : Z) (fileId : FileId) : action bytes :=
  read ← reraised (ReadExchanger_read (id k) treeId sessionId context
                     (readOptions fileId kPipeReadSize 0));
  mret (rdr_data read).

Definition closePipe (k : Z) (fileId : FileId) (context : OperationContext) : action bool :=
  reraised (CloseExchanger_close (id k) treeId sessionId context (closeOptions fileId));;
  mret true.

(** [if (!r.ok) { closeOpenedPipe(); return failureFrom(r.error, messagesUsed); }]
    after [messagesUsed] messages. *)
Definition or_close {A} (messagesUsed : Z) (fileId : FileId) (p : action A) : action A :=
  prog_bind p (fun r =>
    match r with
    | Err e =>
        prog_bind (closePipe messagesUsed fileId (pipeCleanupContext context)) (fun closed =>
          match closed with
          | Throw m => Done (Throw m)
          | OutOfBounds => Done OutOfBounds
          | _ => Done (reraise_used (u64 (messagesUsed + 1)) (Err e))
          end)
    | _ => Done r
    end).

Definition listShares (serverName : bytes) : action NativeShareList :=
  cancel_if context with "SMB share enumeration was cancelled.";;
  createPayload ← failing_with 1 (exchangePayload
    (buildCreateRequest srvsvcPipeOpenOptions messageId treeId sessionId) context);
  create ← lift (reraise_used 1 (decodeCreateResponse createPayload));
  let fileId := crr_fileId create in
  let bindPdu := buildDcerpcBindPdu srvsRpcSyntax 1 0 kDcerpcDefaultFragSize
                   kDcerpcDefaultFragSize in
  or_close 2 fileId (writePipe 1 fileId bindPdu);;
  bindBytes ← or_close 3 fileId (readPipe 2 fileId);
  or_close 3 fileId (lift (decodeDcerpcBindAck bindBytes));;
  requestStub ← lift (buildNetrShareEnumRequestStub serverName 0xFFFFFFFF None);
  let requestPdu := buildDcerpcRequestPdu kSrvsNetrShareEnumOpnum requestStub 2 0 in
  or_close 4 fileId (writePipe 3 fileId requestPdu);;
  responseBytes ← or_close 5 fileId (readPipe 4 fileId);
  rpcResponse ← or_close 5 fileId (lift (decodeDcerpcResponse responseBytes));
  shareEnum ← or_close 5 fileId
    (lift (decodeNetrShareEnumResponseStub (drs_stubData rpcResponse)));
  failing_with 6 (closePipe 5 fileId context);;
  mret (mkNativeShareList (toNativeShare <$> sse_shares shareEnum)
          (sse_totalEntries shareEnum) (sse_resumeHandle shareEnum)
          (sse_moreData shareEnum) 6).
End enumeration.
