(* ===== verification/DfsReferral.v ===== *)
(** * DFS referrals ([DfsReferral.cpp], [RemoteDfsReferralFetcher.cpp])

    The request for a referral, the decoder of the answer, and the exchange: one
    IOCTL on the pipe's tree. *)

From S2P Require Export FileRuns.
Local Open Scope Z_scope.
Local Open Scope comp_scope.

Definition kFsctlDfsGetReferrals : Z := 0x00060194.
Definition kDfsReferralVersion2 : Z := 2.
Definition kDfsReferralVersion3 : Z := 3.
Definition kDfsReferralVersion4 : Z := 4.
Definition kDfsReferralNameList : Z := 0x0002.
Definition kDfsReferralHeaderReferralServers : Z := 0x00000001.
Definition kDfsReferralHeaderStorageServers : Z := 0x00000002.
Definition kDfsReferralHeaderTargetFailback : Z := 0x00000004.
Definition kDfsReferralOutputSize : Z := 64 * 1024.

Record DfsReferralEntry : Set := mkDfsReferralEntry {
  dfe_version : Z;
  dfe_serverType : Z;
  dfe_flags : Z;
  dfe_timeToLiveSeconds : Z;
  dfe_dfsPath : bytes;
  dfe_dfsAlternatePath : bytes;
  dfe_networkAddress : bytes;
  dfe_rootTarget : bool;
  dfe_nameListReferral : bool
}.

Record DfsReferralResponse : Set := mkDfsReferralResponse {
  drr_pathConsumedBytes : Z;
  drr_headerFlags : Z;
  drr_entries : list DfsReferralEntry
}.

Record NativeDfsReferralResult : Set := mkNativeDfsReferralResult {
  ndr_response : DfsReferralResponse;
  ndr_messagesUsed : Z
}.

Definition buildDfsGetReferralRequest (requestPath : bytes) (maxReferralLevel : Z)
    : comp bytes :=
  encoded ← encodeUtf16Le requestPath;
  Ok (u16Le maxReferralLevel ++ encoded ++ u16Le 0).

(** ** Decoding *)

(** [while (end + 1 < size)]: two bytes more each turn. *)
Fixpoint referralString_loop (fuel : nat) (data : bytes) (offset finish : Z) : comp bytes :=
  match fuel with
  | O => OutOfBounds
  | S fuel =>
      if finish + 1 <? blen data then
        unit ← readU16Le data finish;
        if unit =? 0 then chars ← read_range data offset finish; decodeUtf16Le chars
        else referralString_loop fuel data offset (finish + 2)
      else failure ErrorCode_IoError "DFS referral string is not null-terminated."
  end.

Definition readReferralString (data : bytes) (offset : Z) : comp bytes :=
  fail_if blen data <=? offset
    with ErrorCode_IoError, "DFS referral string offset is out of bounds.";;
  referralString_loop (S (length data)) data offset offset.

(** [readOptionalString]: where it returns [false] its caller fails, with the
    one text there is for that. *)
Definition readOptionalString (data : bytes) (entryOffset stringOffset : Z) : comp bytes :=
  if stringOffset =? 0 then Ok []
  else
    match readReferralString data (entryOffset + stringOffset) with
    | Err _ => failure ErrorCode_IoError "DFS referral entry string is invalid."
    | r => r
    end.

(** The fields of an entry that come before its strings. *)
Record ReferralFields : Set := mkReferralFields {
  rf_serverType : Z;
  rf_flags : Z;
  rf_timeToLiveSeconds : Z;
  rf_nameListReferral : bool;
  rf_dfsPathOffset : Z;
  rf_dfsAlternatePathOffset : Z;
  rf_networkAddressOffset : Z
}.

Definition referralFields (data : bytes) (entryOffset version entrySize : Z)
    : comp ReferralFields :=
  if version =? kDfsReferralVersion2 then
    fail_if entrySize <? 22
      with ErrorCode_IoError, "DFS referral v2 entry is truncated.";;
    serverType ← readU16Le data (entryOffset + 4);
    flags ← readU16Le data (entryOffset + 6);
    ttl ← readU32Le data (entryOffset + 12);
    path ← readU16Le data (entryOffset + 16);
    alternate ← readU16Le data (entryOffset + 18);
    address ← readU16Le data (entryOffset + 20);
    Ok (mkReferralFields serverType flags ttl false path alternate address)
  else if (version =? kDfsReferralVersion3) || (version =? kDfsReferralVersion4) then
    fail_if entrySize <? 34
      with ErrorCode_IoError, "DFS referral v3/v4 entry is truncated.";;
    serverType ← readU16Le data (entryOffset + 4);
    flags ← readU16Le data (entryOffset + 6);
    ttl ← readU32Le data (entryOffset + 8);
    path ← readU16Le data (entryOffset + 12);
    if negb (Z.land flags kDfsReferralNameList =? 0)
    then Ok (mkReferralFields serverType flags ttl true path 0 0)
    else
      alternate ← readU16Le data (entryOffset + 14);
      address ← readU16Le data (entryOffset + 16);
      Ok (mkReferralFields serverType flags ttl false path alternate address)
  else failure ErrorCode_ProtocolUnsupported "Unsupported DFS referral entry version.".

Definition decodeReferralEntry (data : bytes) (entryOffset : Z) : comp DfsReferralEntry :=
  fail_if blen data <? entryOffset + 4
    with ErrorCode_IoError, "DFS referral entry is truncated.";;
  version ← readU16Le data entryOffset;
  entrySize ← readU16Le data (entryOffset + 2);
  fail_if (entrySize =? 0) || (blen data <? entryOffset + entrySize)
    with ErrorCode_IoError, "DFS referral entry size is invalid.";;
  fields ← referralFields data entryOffset version entrySize;
  dfsPath ← readOptionalString data entryOffset (rf_dfsPathOffset fields);
  alternate ← readOptionalString data entryOffset (rf_dfsAlternatePathOffset fields);
  address ← readOptionalString data entryOffset (rf_networkAddressOffset fields);
  Ok (mkDfsReferralEntry version (rf_serverType fields) (rf_flags fields)
        (rf_timeToLiveSeconds fields) dfsPath alternate address
        (rf_serverType fields =? 1) (rf_nameListReferral fields)).

(** The loop over the entries, [count] to go. *)
Fixpoint referralEntries (count : nat) (data : bytes) (entryOffset : Z)
    : comp (list DfsReferralEntry) :=
  match count with
  | O => Ok []
  | S count =>
      fail_if blen data <? entryOffset + 4
        with ErrorCode_IoError, "DFS referral response entries are truncated.";;
      entrySize ← readU16Le data (entryOffset + 2);
      entry ← reraise (decodeReferralEntry data entryOffset);
      entries ← referralEntries count data (entryOffset + entrySize);
      Ok (entry :: entries)
  end.

Definition decodeDfsReferralResponse (data : bytes) : comp DfsReferralResponse :=
  fail_if blen data <? 8
    with ErrorCode_IoError, "DFS referral response header is truncated.";;
  pathConsumedBytes ← readU16Le data 0;
  referralCount ← readU16Le data 2;
  headerFlags ← readU32Le data 4;
  entries ← referralEntries (Z.to_nat referralCount) data 8;
  Ok (mkDfsReferralResponse pathConsumedBytes headerFlags entries).

(** ** The exchange *)

Section fetcher.
Context (messageId treeId sessionId : Z) (context : OperationContext).

Definition referralOptions (input : bytes) : IoctlRequestOptions :=
  mkIoctlRequestOptions kFsctlDfsGetReferrals (mkFileId (2 ^ 64 - 1) (2 ^ 64 - 1)) input 0
    kDfsReferralOutputSize kIoctlIsFsctl.

Definition getReferrals (requestPath : bytes) : action NativeDfsReferralResult :=
  cancel_if context with "SMB DFS referral request was cancelled.";;
  input ← lift (buildDfsGetReferralRequest requestPath 3);
  payload ← failing_with 1 (exchangePayload
    (buildIoctlRequest (referralOptions input) messageId treeId sessionId) context);
  ioctl ← lift (reraise_used 1 (decodeIoctlResponse payload));
  referrals ← lift (reraise_used 1 (decodeDfsReferralResponse (ior_output ioctl)));
  mret (mkNativeDfsReferralResult referrals 1).
End fetcher.

(** ** Nothing is read outside the answer *)

Section safe_referrals.
Context (data : bytes) (Hok : bytes_ok data).

Lemma wp_referralString_loop fuel offset finish :
  0 <= offset <= finish -> (finish <= blen data -> blen data - finish < 2 * Z.of_nat fuel) ->
  (0 < fuel)%nat ->
  wp (referralString_loop fuel data offset finish) bytes_ok.
Proof using Hok.
  revert finish. induction fuel as [|fuel IH]; intros finish Ho Hf H0; [lia|].
  cbn [referralString_loop]. wp_step; bools; [|done].
  wp_step. wp_read. wp_step; bools.
  - wp_steps. apply wp_read_range; [done|lia..|]. intros chars _ _. apply wp_decodeUtf16Le.
  - apply IH; lia.
Qed.

Lemma wp_readOptionalString entryOffset stringOffset :
  0 <= entryOffset -> 0 <= stringOffset ->
  wp (readOptionalString data entryOffset stringOffset) bytes_ok.
Proof using Hok.
  intros He Hs. unfold readOptionalString, readReferralString. wp_step; [by constructor|].
  case_if; [done|]. bools.
  assert (wp (referralString_loop (S (length data)) data (entryOffset + stringOffset)
    (entryOffset + stringOffset)) bytes_ok) as H.
  { apply wp_referralString_loop; unfold blen; lia. }
  by destruct (referralString_loop _ _ _ _).
Qed.

Lemma wp_referralFields entryOffset version entrySize :
  0 <= entryOffset -> entryOffset + entrySize <= blen data ->
  wp (referralFields data entryOffset version entrySize)
    (fun f => 0 <= rf_dfsPathOffset f /\ 0 <= rf_dfsAlternatePathOffset f /\
              0 <= rf_networkAddressOffset f).
Proof using Hok.
  intros He Hs. unfold referralFields.
  repeat first [wp_step | wp_read]; cbn; bools; try done; ulia.
Qed.

Lemma wp_decodeReferralEntry entryOffset :
  0 <= entryOffset -> wp (decodeReferralEntry data entryOffset) (fun _ => True).
Proof using Hok.
  intros He. unfold decodeReferralEntry. wp_step; bools; [done|]. do 2 (wp_step; wp_read).
  wp_step; bools; [done|]. apply wp_bind. eapply wp_mono; [apply wp_referralFields; lia|].
  intros f (Hp1 & Hp2 & Hp3).
  do 3 (apply wp_bind; eapply wp_mono; [by apply wp_readOptionalString|]; intros ? _). done.
Qed.

Lemma wp_referralEntries count entryOffset :
  0 <= entryOffset -> wp (referralEntries count data entryOffset) (fun _ => True).
Proof using Hok.
  revert entryOffset. induction count as [|count IH]; intros entryOffset He; [done|].
  cbn [referralEntries]. wp_step; bools; [done|]. wp_step. wp_read.
  apply wp_bind, wp_reraise. eapply wp_mono; [by apply wp_decodeReferralEntry|]. intros e _.
  apply wp_bind. eapply wp_mono; [apply IH; ulia|]. done.
Qed.

Lemma wp_decodeDfsReferralResponse : wp (decodeDfsReferralResponse data) (fun _ => True).
Proof using Hok.
  unfold decodeDfsReferralResponse. wp_step; bools; [done|]. do 3 (wp_step; wp_read).
  apply wp_bind. eapply wp_mono; [by apply wp_referralEntries|]. done.
Qed.
End safe_referrals.

(** ** The answer of a server is read back *)

(** Text as UTF-16 code units, none of them zero. *)
Definition units_text (units : list Z) : bytes := concat (u16Le <$> units).
Definition units_ok (units : list Z) : Prop := Forall (fun u => 1 <= u < 2 ^ 16) units.

(** A referral of version 3 or 4 that is not a name list ([MS-DFSC] 2.2.5.3). *)
Record WireReferral : Set := mkWireReferral {
  wrf_version : Z;
  wrf_serverType : Z;
  wrf_flags : Z;
  wrf_ttl : Z;
  wrf_path : list Z;
  wrf_alternate : list Z;
  wrf_address : list Z
}.

Definition wire_referral_ok (w : WireReferral) : Prop :=
  (wrf_version w = 3 \/ wrf_version w = 4) /\ is_u16 (wrf_serverType w) /\
  is_u16 (wrf_flags w) /\ Z.testbit (wrf_flags w) 1 = false /\ is_u32 (wrf_ttl w) /\
  units_ok (wrf_path w) /\ units_ok (wrf_alternate w) /\ units_ok (wrf_address w).

Definition referral_strings (w : WireReferral) : bytes :=
  (units_text (wrf_path w) ++ u16Le 0) ++ (units_text (wrf_alternate w) ++ u16Le 0)
  ++ (units_text (wrf_address w) ++ u16Le 0).

(** The fixed part of an entry whose strings start [relative] bytes behind it. *)
Definition referral_header (w : WireReferral) (relative : Z) : bytes :=
  u16Le (wrf_version w) ++ u16Le 34 ++ u16Le (wrf_serverType w) ++ u16Le (wrf_flags w)
  ++ u32Le (wrf_ttl w) ++ u16Le relative
  ++ u16Le (relative + blen (units_text (wrf_path w)) + 2)
  ++ u16Le (relative + blen (units_text (wrf_path w)) + 2
            + blen (units_text (wrf_alternate w)) + 2) ++ zeros 16.

(** All fixed parts, the strings of the first [relative] bytes behind. *)
Fixpoint referral_headers (ws : list WireReferral) (relative : Z) : bytes :=
  match ws with
  | [] => []
  | w :: ws =>
      referral_header w relative
      ++ referral_headers ws (relative - 34 + blen (referral_strings w))
  end.

Definition referral_answer (consumed flags : Z) (ws : list WireReferral) : bytes :=
  u16Le consumed ++ u16Le (blen ws) ++ u32Le flags
  ++ referral_headers ws (34 * blen ws) ++ concat (referral_strings <$> ws).

Definition referral_read (w : WireReferral) (e : DfsReferralEntry) : Prop :=
  exists path alternate address,
    decodeUtf16Le (units_text (wrf_path w)) = Ok path /\
    decodeUtf16Le (units_text (wrf_alternate w)) = Ok alternate /\
    decodeUtf16Le (units_text (wrf_address w)) = Ok address /\
    e = mkDfsReferralEntry (wrf_version w) (wrf_serverType w) (wrf_flags w) (wrf_ttl w)
          path alternate address (wrf_serverType w =? 1) false.

Lemma blen_units units : blen (units_text units) = 2 * blen units.
Proof.
  unfold units_text. induction units as [|u units IH]; [done|].
  cbn [fmap list_fmap concat]. rewrite blen_app, IH, blen_u16Le, blen_cons. lia.
Qed.

Lemma referralString_loop_at data offset pre units text fuel :
  units_ok units -> at_off data offset (units_text (pre ++ units) ++ u16Le 0) ->
  decodeUtf16Le (units_text (pre ++ units)) = Ok text -> (length units < fuel)%nat ->
  referralString_loop fuel data offset (offset + 2 * blen pre) = Ok text.
Proof.
  intros Hu. revert pre fuel. induction Hu as [|u units Hu Hus IH]; intros pre [|fuel] Hat Hd Hf;
    try (simpl in Hf; lia); cbn [referralString_loop].
  - rewrite app_nil_r in *. apply at_off_app in Hat as [H0 H1]. rewrite blen_units in H1.
    pose proof (at_off_bound _ _ _ H1) as Hb. rewrite blen_u16Le in Hb.
    rewrite (proj2 (Z.ltb_lt _ _)) by lia. rewrite (readU16Le_at _ _ 0 H1).
    cbn [mbind comp_bind]. change (u16 0 =? 0) with true. cbn iota.
    rewrite (read_range_at _ _ _ _ H0) by (by rewrite blen_units).
    exact Hd.
  - assert (at_off data (offset + 2 * blen pre) (u16Le u)) as Hat'.
    { unfold units_text in Hat. rewrite fmap_app, concat_app in Hat.
      cbn [fmap list_fmap concat] in Hat. rewrite <- !app_assoc in Hat.
      apply at_off_app in Hat as [_ Hat]. apply at_off_app in Hat as [Hat _].
      pose proof (blen_units pre) as Hl. unfold units_text in Hl. by rewrite Hl in Hat. }
    pose proof (at_off_bound _ _ _ Hat') as Hb. rewrite blen_u16Le in Hb.
    rewrite (proj2 (Z.ltb_lt _ _)) by lia. rewrite (readU16Le_at _ _ u Hat').
    cbn [mbind comp_bind]. rewrite u16_small by ulia.
    rewrite (proj2 (Z.eqb_neq u 0)) by lia.
    replace (offset + 2 * blen pre + 2) with (offset + 2 * blen (pre ++ [u]))
      by (rewrite blen_app, blen_cons, blen_nil; lia).
    rewrite (cons_middle u pre units), app_assoc in Hat, Hd.
    apply IH; [exact Hat|exact Hd|simpl in Hf; lia].
Qed.

Lemma readOptionalString_at data entryOffset stringOffset units text :
  units_ok units -> stringOffset <> 0 ->
  at_off data (entryOffset + stringOffset) (units_text units ++ u16Le 0) ->
  decodeUtf16Le (units_text units) = Ok text ->
  readOptionalString data entryOffset stringOffset = Ok text.
Proof.
  intros Hu H0 Hat Hd. unfold readOptionalString, readReferralString.
  rewrite (proj2 (Z.eqb_neq _ 0) H0). pose proof (at_off_bound _ _ _ Hat) as Hb.
  rewrite blen_app, blen_units, blen_u16Le in Hb. pose proof (blen_nonneg units).
  rewrite (proj2 (Z.leb_gt _ _)) by lia.
  pose proof (referralString_loop_at data (entryOffset + stringOffset) [] units text
    (S (length data)) Hu Hat Hd ltac:(unfold blen in Hb; lia)) as Hl.
  change (2 * blen []) with 0 in Hl. rewrite Z.add_0_r in Hl. by rewrite Hl.
Qed.

Lemma blen_referral_header w relative : blen (referral_header w relative) = 34.
Proof. done. Qed.

Lemma blen_referral_strings w :
  blen (referral_strings w)
  = 2 * blen (wrf_path w) + 2 * blen (wrf_alternate w) + 2 * blen (wrf_address w) + 6.
Proof.
  unfold referral_strings. rewrite !blen_app, !blen_units, !blen_u16Le. lia.
Qed.

Lemma decodeReferralEntry_at data offset w relative e :
  wire_referral_ok w -> referral_read w e -> 34 <= relative ->
  relative + blen (referral_strings w) <= 65536 ->
  at_off data offset (referral_header w relative) ->
  at_off data (offset + relative) (referral_strings w) ->
  decodeReferralEntry data offset = Ok e /\ readU16Le data (offset + 2) = Ok 34.
Proof.
  intros (Hv & Hty & Hfl & Hbit & Httl & Hp & Ha & Hn) (path & alt & addr & Dp & Da & Dn & ->)
    Hrel Hmax Hat Hstr.
  pose proof (at_off_bound _ _ _ Hat) as Hb. rewrite blen_referral_header in Hb.
  rewrite blen_referral_strings in Hmax.
  pose proof (blen_nonneg (wrf_path w)). pose proof (blen_nonneg (wrf_alternate w)).
  pose proof (blen_nonneg (wrf_address w)).
  unfold referral_header in Hat. rewrite !blen_units in Hat.
  do 8 (apply at_off_app in Hat as [? Hat]). rewrite ?blen_u16Le, ?blen_u32Le in *.
  unfold referral_strings in Hstr. apply at_off_app in Hstr as [S1 Hstr].
  apply at_off_app in Hstr as [S2 S3]. rewrite !blen_app, !blen_units, !blen_u16Le in *.
  set (a2 := relative + 2 * blen (wrf_path w) + 2) in *.
  set (a3 := a2 + 2 * blen (wrf_alternate w) + 2) in *.
  assert (is_u16 relative /\ is_u16 a2 /\ is_u16 a3) as (R1 & R2 & R3) by (unfold a2, a3; ulia).
  assert (readU16Le data (offset + 2) = Ok 34) as Hsize.
  { rewrite (readU16Le_at _ _ 34) by (eapply at_off_eq; [eassumption|lia]). done. }
  split; [|exact Hsize].
  unfold decodeReferralEntry. rewrite (proj2 (Z.ltb_ge _ _)) by lia.
  rewrite (readU16Le_at data offset (wrf_version w)) by done. cbn [mbind comp_bind].
  rewrite Hsize. cbn [mbind comp_bind Z.eqb orb]. rewrite (proj2 (Z.ltb_ge _ _)) by lia.
  assert (referralFields data offset (u16 (wrf_version w)) 34
    = Ok (mkReferralFields (wrf_serverType w) (wrf_flags w) (wrf_ttl w) false relative a2 a3))
    as ->.
  { unfold referralFields.
    assert ((u16 (wrf_version w) =? kDfsReferralVersion2) = false) as -> by (by destruct Hv as [->| ->]).
    assert ((u16 (wrf_version w) =? kDfsReferralVersion3)
      || (u16 (wrf_version w) =? kDfsReferralVersion4) = true) as -> by (by destruct Hv as [->| ->]).
    change (34 <? 34) with false. cbn iota.
    rewrite (readU16Le_at data (offset + 4) (wrf_serverType w))
      by (eapply at_off_eq; [eassumption|lia]).
    cbn [mbind comp_bind].
    rewrite (readU16Le_at data (offset + 6) (wrf_flags w))
      by (eapply at_off_eq; [eassumption|lia]).
    cbn [mbind comp_bind].
    rewrite (readU32Le_at data (offset + 8) (wrf_ttl w))
      by (eapply at_off_eq; [eassumption|lia]).
    cbn [mbind comp_bind].
    rewrite (readU16Le_at data (offset + 12) relative)
      by (eapply at_off_eq; [eassumption|lia]).
    cbn [mbind comp_bind].
    rewrite (readU16Le_at data (offset + 14) a2)
      by (eapply at_off_eq; [eassumption|lia]).
    rewrite (readU16Le_at data (offset + 16) a3)
      by (eapply at_off_eq; [eassumption|lia]).
    rewrite !u16_small, u32_small by done. change kDfsReferralNameList with (2 ^ 1).
    by rewrite land_bit, Hbit by lia. }
  cbn [mbind comp_bind rf_dfsPathOffset rf_dfsAlternatePathOffset rf_networkAddressOffset].
  rewrite (readOptionalString_at _ _ relative (wrf_path w) path) by (done || lia).
  cbn [mbind comp_bind].
  rewrite (readOptionalString_at _ _ a2 (wrf_alternate w) alt)
    by (first [done | unfold a3, a2; lia | eapply at_off_eq; [exact S2|unfold a2; lia]]).
  cbn [mbind comp_bind].
  rewrite (readOptionalString_at _ _ a3 (wrf_address w) addr)
    by (first [done | unfold a3, a2; lia | eapply at_off_eq; [exact S3|unfold a3, a2; lia]]).
  cbn [mbind comp_bind rf_serverType rf_flags rf_timeToLiveSeconds rf_nameListReferral].
  rewrite u16_small by (destruct Hv as [->| ->]; ulia). done.
Qed.

(** The headers and strings of what is left of an answer. *)
Lemma referralEntries_at data ws es offset relative :
  Forall wire_referral_ok ws -> Forall2 referral_read ws es ->
  34 * blen ws <= relative ->
  relative + blen (concat (referral_strings <$> ws)) <= 65536 ->
  at_off data offset (referral_headers ws relative) ->
  at_off data (offset + relative) (concat (referral_strings <$> ws)) ->
  referralEntries (length ws) data offset = Ok es.
Proof.
  intros Hok Hl. revert offset relative Hok.
  induction Hl as [|w e ws es He Hl IH]; intros offset relative Hok Hrel Hmax Hat Hstr; [done|].
  apply Forall_cons in Hok as [Hw Hok]. cbn [length referralEntries referral_headers] in *.
  cbn [fmap list_fmap concat] in *. rewrite blen_app in Hmax. rewrite blen_cons in Hrel.
  pose proof (blen_nonneg ws). pose proof (blen_nonneg (concat (referral_strings <$> ws))).
  apply at_off_app in Hat as [Hh Hat]. apply at_off_app in Hstr as [S1 S2].
  rewrite blen_referral_header in Hat.
  destruct (decodeReferralEntry_at data offset w relative e Hw He ltac:(lia) ltac:(lia) Hh S1)
    as [Hd Hsize].
  pose proof (at_off_bound _ _ _ Hh) as Hb. rewrite blen_referral_header in Hb.
  rewrite (proj2 (Z.ltb_ge _ _)) by lia. rewrite Hsize. cbn [mbind comp_bind].
  rewrite Hd. cbn [reraise mbind comp_bind].
  pose proof (blen_referral_strings w) as Hbs.
  pose proof (blen_nonneg (wrf_path w)). pose proof (blen_nonneg (wrf_alternate w)).
  pose proof (blen_nonneg (wrf_address w)).
  rewrite (IH (offset + 34) (relative - 34 + blen (referral_strings w)));
    [done|done|lia|lia|done|].
  eapply at_off_eq; [exact S2|lia].
Qed.

(** A referral answer is read as it was written: the length of the path
    the server has resolved, the header flags, and the referrals in order, each
    with its type, flags, time to live and the three names its offsets lead to,
    wherever the 64 kilobytes the offsets reach hold them. *)
Theorem dfs_referrals_decode consumed flags ws es :
  is_u16 consumed -> is_u32 flags -> Forall wire_referral_ok ws ->
  Forall2 referral_read ws es ->
  34 * blen ws + blen (concat (referral_strings <$> ws)) <= 65536 ->
  decodeDfsReferralResponse (referral_answer consumed flags ws)
  = Ok (mkDfsReferralResponse consumed flags es).
Proof.
  intros Hc Hf Hok Hl Hmax. pose proof (blen_nonneg ws) as Hn.
  pose proof (blen_nonneg (concat (referral_strings <$> ws))) as Hn'.
  set (data := referral_answer consumed flags ws).
  assert (at_off data 0 data) as Hat by apply at_off_all.
  unfold data at 2, referral_answer in Hat.
  apply at_off_app in Hat as [H0 Hat]. apply at_off_app in Hat as [H1 Hat].
  apply at_off_app in Hat as [H2 Hat]. apply at_off_app in Hat as [H3 H4].
  rewrite ?blen_u16Le, ?blen_u32Le in *.
  assert (blen (referral_headers ws (34 * blen ws)) = 34 * blen ws) as Hh.
  { generalize (34 * blen ws) at 1. clear. induction ws as [|w ws IH]; intros r; [done|].
    cbn [referral_headers]. rewrite blen_app, IH, blen_cons, blen_referral_header. lia. }
  rewrite Hh in H4. pose proof (at_off_bound _ _ _ H3) as Hb.
  unfold decodeDfsReferralResponse. rewrite (proj2 (Z.ltb_ge _ _)) by lia.
  rewrite (readU16Le_at _ 0 consumed H0). cbn [mbind comp_bind].
  rewrite (readU16Le_at _ 2 (blen ws) H1). cbn [mbind comp_bind].
  rewrite (readU32Le_at _ 4 flags H2). cbn [mbind comp_bind].
  rewrite !u16_small, u32_small by ulia. unfold blen at 1. rewrite Nat2Z.id.
  by rewrite (referralEntries_at data ws es 8 (34 * blen ws)) by (done || lia).
Qed.

(** One referral to a server for a share. *)
Definition sample_referral : WireReferral :=
  mkWireReferral 4 1 4 300 [0x5C; 0x61] [0x5C; 0x61] [0x5C; 0x62; 0x5C; 0x63].

Lemma dfs_referrals_decode_witness :
  decodeDfsReferralResponse (referral_answer 4 3 [sample_referral])
  = Ok (mkDfsReferralResponse 4 3
      [mkDfsReferralEntry 4 1 4 300 [0x5C; 0x61] [0x5C; 0x61] [0x5C; 0x62; 0x5C; 0x63]
         true false]).
Proof.
  assert (Forall wire_referral_ok [sample_referral]) as Hok.
  { constructor; [|constructor]. repeat split; cbn; try (right; reflexivity); try lia;
      repeat constructor; lia. }
  apply dfs_referrals_decode; [split; done..|exact Hok| |by vm_compute].
  constructor; [|constructor].
  exists [0x5C; 0x61], [0x5C; 0x61], [0x5C; 0x62; 0x5C; 0x63]. by vm_compute.
Defined.
