(* ===== verification/Session.v ===== *)
(** * The session ([NativeSmbSession.cpp])

    A session is bound to a tree and numbers the messages it sends:
    [m_nextMessageId] is the first id that is free.  An operation sets ids
    aside, either before it runs ([allocateMessageIds]) or after, by the number
    of messages the operation reports.  Recursive deletion and deletion by
    pattern are written against the interface [RemoteStore], which the session
    implements. *)

From S2P Require Export ShareEnumeration DfsReferral.
Local Open Scope Z_scope.
Local Open Scope comp_scope.

(** ** Results *)

Record NativeRemoteEntry : Set := mkNativeRemoteEntry {
  nre_name : bytes;
  nre_size : Z;
  nre_allocationSize : Z;
  nre_creationTime : Z;
  nre_lastAccessTime : Z;
  nre_lastWriteTime : Z;
  nre_changeTime : Z;
  nre_attributes : Z;
  nre_directory : bool;
  nre_reparsePoint : bool
}.

Record NativeDirectoryListing : Set := mkNativeDirectoryListing {
  ndl_entries : list NativeRemoteEntry
}.

Record NativeReadResult : Set := mkNativeReadResult {
  nrr_data : bytes;
  nrr_dataRemaining : Z
}.

Record NativeFileHandle : Set := mkNativeFileHandle {
  nfh_fileId : FileId;
  nfh_size : Z
}.

Record NativeWriteResult : Set := mkNativeWriteResult {
  nwr_bytesWritten : Z;
  nwr_remaining : Z
}.

Record NativeStatResult : Set := mkNativeStatResult {
  nsr_size : Z;
  nsr_allocationSize : Z;
  nsr_creationTime : Z;
  nsr_lastAccessTime : Z;
  nsr_lastWriteTime : Z;
  nsr_changeTime : Z;
  nsr_attributes : Z;
  nsr_numberOfLinks : Z;
  nsr_directory : bool;
  nsr_reparsePoint : bool;
  nsr_deletePending : bool
}.

Record NativeMetadataCapabilities : Set := mkNativeMetadataCapabilities {
  nmc_canSetBasicInformation : bool;
  nmc_canListExtendedAttributes : bool;
  nmc_canSetExtendedAttributes : bool;
  nmc_canQuerySecurityDescriptor : bool;
  nmc_canSetSecurityDescriptor : bool;
  nmc_canUsePosixMode : bool;
  nmc_canUsePosixOwner : bool;
  nmc_canUsePosixGroup : bool
}.

Record NativeExtendedAttributesResult : Set := mkNativeExtendedAttributesResult {
  nea_entries : list FileFullEaInformation
}.

Record NativeSecurityDescriptorResult : Set := mkNativeSecurityDescriptorResult {
  nsd_descriptor : bytes
}.

Record NativeObjectMutationResult : Set := mkNativeObjectMutationResult {
  nom_path : bytes
}.

Record NativeNotifyEntry : Set := mkNativeNotifyEntry {
  nne_action : Z;
  nne_name : bytes
}.

Record NativeNotifyResult : Set := mkNativeNotifyResult {
  nnr_entries : list NativeNotifyEntry;
  nnr_enumerationRequired : bool
}.

(** The conversions of [NativeSmbSession.cpp]. *)
Definition toNativeEntry (entry : DirectoryEntry) : NativeRemoteEntry :=
  mkNativeRemoteEntry (dre_name entry) (dre_endOfFile entry)
    (dre_allocationSize entry) (dre_creationTime entry) (dre_lastAccessTime entry)
    (dre_lastWriteTime entry) (dre_changeTime entry) (dre_fileAttributes entry)
    (dre_isDirectory entry) (dre_isReparsePoint entry).

Definition toNativeNotifyEntry (entry : ChangeNotifyEntry) : NativeNotifyEntry :=
  mkNativeNotifyEntry (cne_action entry) (cne_name entry).

(** ** Names *)

Definition isDotEntry (name : bytes) : bool :=
  bool_decide (name = [0x2E]) || bool_decide (name = [0x2E; 0x2E]).

Definition joinRemotePath (parent child : bytes) : bytes :=
  match last parent with
  | None => child
  | Some c =>
      if (c =? kBackslash) || (c =? 0x2F) then parent ++ child
      else parent ++ [kBackslash] ++ child
  end.

(** [lowerAscii] in the "C" locale. *)
Definition lowerAscii (ch : Z) : Z :=
  if (0x41 <=? ch) && (ch <=? 0x5A) then ch + 0x20 else ch.

(** The main loop of [wildcardMatches], with its four indices; [None] when the
    fuel runs out, [Some None] for [return false], else the pattern index after
    the loop. *)
Fixpoint wildcard_loop (fuel : nat) (pattern text : bytes)
    (patternIndex textIndex : nat) (starIndex : option nat) (retryTextIndex : nat)
    : option (option nat) :=
  match fuel with
  | O => None
  | S fuel =>
      match text !! textIndex with
      | None => Some (Some patternIndex)
      | Some c =>
          let p := pattern !! patternIndex in
          let same := match p with
                      | Some d => (d =? 0x3F) || (lowerAscii d =? lowerAscii c)
                      | None => false
                      end in
          if same then
            wildcard_loop fuel pattern text (S patternIndex) (S textIndex)
              starIndex retryTextIndex
          else if match p with Some d => d =? 0x2A | None => false end then
            wildcard_loop fuel pattern text (S patternIndex) textIndex
              (Some patternIndex) textIndex
          else
            match starIndex with
            | Some star =>
                wildcard_loop fuel pattern text (S star) (S retryTextIndex)
                  starIndex (S retryTextIndex)
            | None => Some None
            end
      end
  end.

(** The last loop: only stars may be left of the pattern. *)
Definition only_stars (pattern : bytes) : bool := forallb (fun d => d =? 0x2A) pattern.

(** Every turn of the loop advances the pattern index, or else the retry index
    with the pattern index reset: [Wildcard.v] shows that this many turns are
    enough. *)
Definition wildcard_fuel (pattern text : bytes) : nat :=
  S (length text) * S (length pattern).

Definition wildcardMatches (pattern text : bytes) : option bool :=
  match wildcard_loop (wildcard_fuel pattern text) pattern text 0 0 None 0 with
  | None => None
  | Some None => Some false
  | Some (Some patternIndex) => Some (only_stars (drop patternIndex pattern))
  end.

(** ** The session monad *)

(** [NativeSmbSession]; [m_transport] is the world the programs run on. *)
Record NativeSmbSession : Set := mkNativeSmbSession {
  nss_treeId : Z;
  nss_sessionId : Z;
  nss_nextMessageId : Z
}.

Record NativeSmbSessionConfig : Set := mkNativeSmbSessionConfig {
  nsc_treeId : Z;
  nsc_sessionId : Z;
  nsc_firstMessageId : Z
}.

(** The constructor. *)
Definition newNativeSmbSession (config : NativeSmbSessionConfig) : NativeSmbSession :=
  mkNativeSmbSession (nsc_treeId config) (nsc_sessionId config)
    (if nsc_firstMessageId config =? 0 then 1 else nsc_firstMessageId config).

(** A program that may change the session; the session is kept when it fails
    or throws. *)
Definition sessioned (A : Type) : Type :=
  NativeSmbSession -> prog (NativeSmbSession * comp A).

#[export] Instance sessioned_ret : MRet sessioned := fun A a s => Done (s, Ok a).
#[export] Instance sessioned_bind : MBind sessioned := fun A B f p s =>
  prog_bind (p s) (fun '(s, r) =>
    match r with
    | Ok a => f a s
    | Err e => Done (s, Err e)
    | Throw m => Done (s, Throw m)
    | OutOfBounds => Done (s, OutOfBounds)
    end).

(** A program that leaves the session alone. *)
Definition plain {A} (p : action A) : sessioned A := fun s =>
  prog_bind p (fun r => Done (s, r)).

Definition mutationFailure {A} (code : ErrorCode) (message : string) : sessioned A :=
  plain (lift (failure code message)).

(** [p], and when it fails [cleanup], whose own failure is ignored. *)
Definition or_else {A} (p : sessioned A) (cleanup : sessioned unit) : sessioned A :=
  fun s => prog_bind (p s) (fun '(s, r) =>
    match r with
    | Err e => (cleanup ≫= fun _ => plain (lift (Err e))) s
    | _ => Done (s, r)
    end).

(** [(void)p] *)
Definition ignored {A} (p : sessioned A) : sessioned unit := fun s =>
  prog_bind (p s) (fun '(s, r) =>
    Done (s, match r with
             | Ok _ | Err _ => Ok tt
             | Throw m => Throw m
             | OutOfBounds => OutOfBounds
             end)).

Definition set_nextMessageId (s : NativeSmbSession) (next : Z) : NativeSmbSession :=
  mkNativeSmbSession (nss_treeId s) (nss_sessionId s) next.

(** [m_nextMessageId += count] *)
Definition advance (count : Z) (s : NativeSmbSession) : NativeSmbSession :=
  set_nextMessageId s (u64 (nss_nextMessageId s + count)).

Definition allocateMessageIds (count : Z) : sessioned Z := fun s =>
  Done (advance count s, Ok (nss_nextMessageId s)).

(** The type of the operations of [FileOperations.v]: message id, tree id,
    session id and context come first. *)
Abbreviation operation A := (Z -> Z -> Z -> OperationContext -> action A).

Definition run_at {A} (op : operation A) (context : OperationContext) (messageId : Z)
    : sessioned A := fun s =>
  plain (op messageId (nss_treeId s) (nss_sessionId s) context) s.

(** An operation that takes [count] ids before it starts. *)
Definition with_allocated {A} (count : Z) (op : operation A)
    (context : OperationContext) : sessioned A :=
  messageId ← allocateMessageIds count;
  run_at (fun m t s c => reraised (op m t s c)) context messageId.

(** An operation whose ids are taken when it is over: those it reports, [used]
    of a result and [failed] of an error. *)
Definition with_counted {A} (used : A -> Z) (failed : ProtocolError -> Z)
    (op : operation A) (context : OperationContext) : sessioned A := fun s =>
  prog_bind (op (nss_nextMessageId s) (nss_treeId s) (nss_sessionId s) context)
    (fun r =>
       match r with
       | Ok a => Done (advance (used a) s, Ok a)
       | Err e => Done (advance (failed e) s, reraise (Err e))
       | _ => Done (s, r)
       end).

(** ** Simple operations *)

Section session_operations.
Context (context : OperationContext).

Definition listDirectory (fuel : nat) (path : bytes) : sessioned NativeDirectoryListing :=
  result ← with_counted dlr_messagesUsed (fun _ => 3)
    (fun m t s c => DirectoryLister_list m t s c fuel path) context;
  mret (mkNativeDirectoryListing
    (toNativeEntry <$> filter (fun entry => isDotEntry (dre_name entry) = false)
                         (dlr_entries result))).

Definition metadataCapabilities : NativeMetadataCapabilities :=
  mkNativeMetadataCapabilities true true true true true false false false.

Definition readFileOnce (path : bytes) (length offset : Z) : sessioned NativeReadResult :=
  result ← with_allocated 3 (fun m t s c => FileReader_readOnce m t s c path length offset)
    context;
  mret (mkNativeReadResult (frr_data result) (frr_dataRemaining result)).

Definition readFileOptions (path : bytes) : CreateRequestOptions :=
  createOptions path
    (Z.lor (Z.lor kFileReadData kFileReadEa) kFileReadAttributes)
    kFileAttributeNormal kFileOpen kFileNonDirectoryFile.

Definition copySourceOptions (path : bytes) : CreateRequestOptions :=
  createOptions path (Z.lor kFileReadData kFileReadAttributes)
    kFileAttributeNormal kFileOpen kFileNonDirectoryFile.

Definition copyTargetOptions (path : bytes) : CreateRequestOptions :=
  createOptions path
    (Z.lor (Z.lor kFileWriteData kFileWriteAttributes) kFileReadAttributes)
    kFileAttributeNormal kFileOverwriteIf kFileNonDirectoryFile.

(** [openFile], [ioctl] and [closeFile] of this file. *)
Definition openFile (options : CreateRequestOptions) : operation CreateResponse :=
  fun m t s c => openObject m t s c options.

Definition sessionIoctl (options : IoctlRequestOptions) : operation IoctlResponse :=
  fun m t s c => ioctl m t s c 0 options.

Definition closeFile (fileId : FileId) : operation bool := fun m t s c =>
  reraised (CloseExchanger_close m t s c (closeOptions fileId));;
  mret true.

Definition openFileForRead (path : bytes) : sessioned NativeFileHandle :=
  response ← with_allocated 1 (openFile (readFileOptions path)) context;
  mret (mkNativeFileHandle (crr_fileId response) (crr_endOfFile response)).

Definition creditChargeForPayload (size : Z) : Z :=
  if size =? 0 then 1 else u64 (1 + (size - 1) / 65536).

Definition readFileChunk (fileId : FileId) (length offset : Z)
    : sessioned NativeReadResult :=
  response ← with_allocated (creditChargeForPayload length)
    (fun m t s c => ReadExchanger_read m t s c (readOptions fileId length offset)) context;
  mret (mkNativeReadResult (rdr_data response) (rdr_dataRemaining response)).

Definition closeFileHandle (fileId : FileId) : sessioned bool :=
  with_allocated 1 (closeFile fileId) context.

Definition writeFileOnce (path data : bytes) (offset : Z) : sessioned NativeWriteResult :=
  result ← with_counted fwr_messagesUsed (fun _ => 3)
    (fun m t s c => FileWriter_writeOnce m t s c path data offset) context;
  mret (mkNativeWriteResult (fwr_bytesWritten result) (fwr_remaining result)).

Definition statObject (path : bytes) : sessioned NativeStatResult :=
  result ← with_counted rsr_messagesUsed err_messagesUsed
    (fun m t s c => RemoteStatReader_stat m t s c path) context;
  mret (mkNativeStatResult (rsr_endOfFile result) (rsr_allocationSize result)
    (rsr_creationTime result) (rsr_lastAccessTime result) (rsr_lastWriteTime result)
    (rsr_changeTime result) (rsr_fileAttributes result) (rsr_numberOfLinks result)
    (rsr_directory result) (rsr_reparsePoint result) (rsr_deletePending result)).

(** The mutations: the result names the path. *)
Definition metadata_mutation (path : bytes)
    (op : operation RemoteMetadataMutationResult) : sessioned NativeObjectMutationResult :=
  with_counted rmm_messagesUsed err_messagesUsed op context;;
  mret (mkNativeObjectMutationResult path).

Definition session_setBasicInformation (path : bytes) (info : FileBasicInformation) :=
  metadata_mutation path (fun m t s c => setBasicInformation m t s c path info).

Definition session_setExtendedAttributes (path : bytes)
    (entries : list FileFullEaInformation) :=
  metadata_mutation path (fun m t s c => setExtendedAttributes m t s c path entries).

Definition session_removeExtendedAttribute (path name : bytes) :=
  metadata_mutation path (fun m t s c => removeExtendedAttribute m t s c path name).

Definition session_setSecurityDescriptor (path : bytes) (securityInformation : Z)
    (descriptor : bytes) :=
  metadata_mutation path (fun m t s c =>
    setSecurityDescriptor m t s c path securityInformation descriptor).

Definition session_listExtendedAttributes (path : bytes)
    : sessioned NativeExtendedAttributesResult :=
  result ← with_counted rea_messagesUsed err_messagesUsed
    (fun m t s c => listExtendedAttributes m t s c path) context;
  mret (mkNativeExtendedAttributesResult (rea_entries result)).

Definition session_querySecurityDescriptor (path : bytes) (securityInformation : Z)
    : sessioned NativeSecurityDescriptorResult :=
  result ← with_counted rsd_messagesUsed err_messagesUsed
    (fun m t s c => querySecurityDescriptor m t s c path securityInformation) context;
  mret (mkNativeSecurityDescriptorResult (rsd_descriptor result)).

Definition object_mutation (path : bytes) (count : Z)
    (op : operation RemoteObjectResult) : sessioned NativeObjectMutationResult :=
  with_allocated count op context;;
  mret (mkNativeObjectMutationResult path).

Definition session_createDirectory (path : bytes) :=
  object_mutation path 2 (fun m t s c => createDirectory m t s c path).

Definition session_deleteObject (path : bytes) (directory : bool) :=
  object_mutation path 3 (fun m t s c => deleteObject m t s c path directory).

Definition session_renameObject (fromPath toPath : bytes) (replaceIfExists : bool) :=
  object_mutation toPath 3
    (fun m t s c => renameObject m t s c fromPath toPath replaceIfExists).

Definition session_listShares (serverName : bytes) : sessioned NativeShareList :=
  with_counted nsl_messagesUsed err_messagesUsed
    (fun m t s c => listShares m t s c serverName) context.

Definition session_getDfsReferrals (requestPath : bytes) : sessioned NativeDfsReferralResult :=
  with_counted ndr_messagesUsed err_messagesUsed
    (fun m t s c => getReferrals m t s c requestPath) context.

Definition session_createHardLink (existingPath linkPath : bytes)
    (replaceIfExists : bool) :=
  object_mutation linkPath 3
    (fun m t s c => createHardLink m t s c existingPath linkPath replaceIfExists).

Definition session_createSymbolicLink (linkPath targetPath : bytes)
    (directory relative : bool) :=
  object_mutation linkPath 3
    (fun m t s c => createSymbolicLink m t s c linkPath targetPath directory relative).

Definition watchDirectoryOnce (path : bytes) (completionFilter : Z) (watchTree : bool)
    : sessioned NativeNotifyResult :=
  result ← with_allocated 3 (fun m t s c =>
    DirectoryWatcher_waitOnce m t s c path completionFilter watchTree 65536) context;
  mret (mkNativeNotifyResult (toNativeNotifyEntry <$> dwr_entries result)
          (dwr_status result =? kStatusNotifyEnumDir)).
End session_operations.

(** ** Recursive deletion *)

(** What recursive deletion needs of a session: the check for cancellation,
    failing, [statObject], [listDirectory] and [deleteObject]; [store_cut] marks
    a recursion that was cut. *)
Class RemoteStore (M : Type -> Type) : Type := {
  store_isCancelled : M bool;
  store_fail : forall A, ErrorCode -> string -> M A;
  store_cut : forall A, M A;
  store_stat : bytes -> M NativeStatResult;
  store_list : bytes -> M NativeDirectoryListing;
  store_delete : bytes -> bool -> M NativeObjectMutationResult
}.
Arguments store_fail {_ _ _} code message.
Arguments store_cut {_ _ _}.

Section deletion.
Context {M : Type -> Type} `{MRet M, MBind M, RemoteStore M}.

(** [if (isCancelled(context)) return mutationFailure(Cancelled, message);] *)
Definition unless_cancelled {A} (message : string) (p : M A) : M A :=
  cancelled ← store_isCancelled;
  if cancelled : bool then store_fail ErrorCode_Cancelled message else p.

Fixpoint each {A} (f : A -> M unit) (l : list A) : M unit :=
  match l with
  | [] => mret tt
  | a :: l => f a;; each f l
  end.

(** A child of [parent]: its tree when it is a real directory. *)
Definition delete_child (deleteTree : bytes -> M NativeObjectMutationResult)
    (parent : bytes) (entry : NativeRemoteEntry) : M unit :=
  let child := joinRemotePath parent (nre_name entry) in
  (if nre_directory entry && negb (nre_reparsePoint entry)
   then deleteTree child else store_delete child (nre_directory entry));;
  mret tt.

(** [deleteTreeInternal]; [fuel] bounds the depth of the tree. *)
Fixpoint deleteTreeInternal (fuel : nat) (path : bytes)
    : M NativeObjectMutationResult :=
  match fuel with
  | O => store_cut
  | S fuel =>
      if decide (path = []) then
        store_fail ErrorCode_InvalidPath "Refusing to delete the SMB share root."
      else
        unless_cancelled "SMB recursive delete was cancelled." (
          stat ← store_stat path;
          if negb (nsr_directory stat) || nsr_reparsePoint stat
          then store_delete path (nsr_directory stat)
          else
            listing ← store_list path;
            each (fun entry =>
                    if isDotEntry (nre_name entry) then mret tt
                    else unless_cancelled "SMB recursive delete was cancelled."
                           (delete_child (deleteTreeInternal fuel) path entry))
              (ndl_entries listing);;
            store_delete path true)
  end.

Definition deleteWildcard (fuel : nat) (parentPath pattern : bytes)
    : M NativeObjectMutationResult :=
  if decide (pattern = []) then
    store_fail ErrorCode_InvalidPath "SMB wildcard delete pattern is empty."
  else
    unless_cancelled "SMB wildcard delete was cancelled." (
      listing ← store_list parentPath;
      each (fun entry =>
              if isDotEntry (nre_name entry) then mret tt
              else
                match wildcardMatches pattern (nre_name entry) with
                | None => store_cut
                | Some false => mret tt
                | Some true =>
                    unless_cancelled "SMB wildcard delete was cancelled."
                      (delete_child (deleteTreeInternal fuel) parentPath entry)
                end)
        (ndl_entries listing);;
      mret (mkNativeObjectMutationResult (joinRemotePath parentPath pattern))).
End deletion.

(** The session as a store; [fuel] bounds its listings. *)
#[export] Instance session_store (fuel : nat) (context : OperationContext)
    : RemoteStore sessioned := {|
  store_isCancelled := plain (isCancelled context);
  store_fail A := mutationFailure;
  store_cut A := fun _ => OutOfFuel;
  store_stat := statObject context;
  store_list := listDirectory context fuel;
  store_delete := session_deleteObject context
|}.

Definition session_deleteTree (context : OperationContext) (fuel : nat) (path : bytes)
    : sessioned NativeObjectMutationResult :=
  deleteTreeInternal (H1 := session_store fuel context) fuel path.

Definition session_deleteWildcard (context : OperationContext) (fuel : nat)
    (parentPath pattern : bytes) : sessioned NativeObjectMutationResult :=
  deleteWildcard (H1 := session_store fuel context) fuel parentPath pattern.

(** ** Server-side copy *)

Definition kCopyChunkSize : Z := 1024 * 1024.

Section copying.
Context (context : OperationContext).

(** [OperationContext cleanupContext; cleanupContext.timeout = context.timeout;] *)
Definition cleanupContext : OperationContext :=
  mkOperationContext (oc_timeout context) false false false.

(** The guard for cancellation of this function. *)
Definition copy_unless_cancelled {A} (p : sessioned A) : sessioned A :=
  cancelled ← plain (isCancelled context);
  if cancelled : bool
  then mutationFailure ErrorCode_Cancelled "SMB server-side copy was cancelled."
  else p.

(** [closeSource] and [closeTarget], their results ignored. *)
Definition close_ignoring (fileId : FileId) : sessioned unit :=
  messageId ← allocateMessageIds 1;
  ignored (run_at (closeFile fileId) cleanupContext messageId).

(** A failure of a request is passed on by [mutationFailureFrom]. *)
Definition copy_request {A} (op : operation A) : sessioned A := with_allocated 1 op context.

Definition resumeOptions (source : FileId) : IoctlRequestOptions :=
  mkIoctlRequestOptions kFsctlSrvRequestResumeKey source [] 0 32 kIoctlIsFsctl.

Definition copyOptions (target : FileId) (input : bytes) : IoctlRequestOptions :=
  mkIoctlRequestOptions kFsctlSrvCopyChunk target input 0 16 kIoctlIsFsctl.

(** [std::min<std::uint64_t>(kCopyChunkSize, size - offset)] *)
Definition chunk_length (size offset : Z) : Z := u32 (Z.min kCopyChunkSize (u64 (size - offset))).

(** [while (offset < size)]: every turn copies at least one byte, so [fuel] can
    be the number of bytes left and one more. *)
Fixpoint copy_loop (fuel : nat) (key : bytes) (target : FileId) (size offset : Z)
    : sessioned unit :=
  match fuel with
  | O => fun _ => OutOfFuel
  | S fuel =>
      if offset <? size then
        copy_unless_cancelled (
          let length := chunk_length size offset in
          input ← plain (lift (buildSrvCopyChunkRequest key
                                 [mkCopyChunk offset offset length]));
          copied ← copy_request (sessionIoctl (copyOptions target input));
          parsed ← plain (lift (reraise (decodeSrvCopyChunkResponse
                                           (ior_output copied))));
          let written := ccr_totalBytesWritten parsed in
          if (written =? 0) || (length <? written) then
            mutationFailure ErrorCode_ProtocolUnsupported
              "SMB server-side copy returned an invalid byte count."
          else
            let offset := u64 (offset + written) in
            plain (if oc_progressCallback context
                   then Report (mkTransferProgress offset size) (Done (Ok tt))
                   else mret tt);;
            copy_loop fuel key target size offset)
      else mret tt
  end.

Definition copyFileServerSide (sourcePath targetPath : bytes) (size : Z)
    : sessioned NativeObjectMutationResult :=
  copy_unless_cancelled (
    sourceCreate ← copy_request (openFile (copySourceOptions sourcePath));
    let source := crr_fileId sourceCreate in
    targetCreate ← or_else
      (copy_unless_cancelled (copy_request (openFile (copyTargetOptions targetPath))))
      (close_ignoring source);
    let target := crr_fileId targetCreate in
    let closeBoth := close_ignoring target;; close_ignoring source in
    (if size =? 0 then mret tt
     else
       or_else (
         resume ← copy_request (sessionIoctl (resumeOptions source));
         if blen (ior_output resume) <? 24 then
           mutationFailure ErrorCode_UnsupportedCapability
             "SMB server-side copy resume key response is too short."
         else copy_loop (S (Z.to_nat size)) (ior_output resume) target size 0)
         closeBoth);;
    closeBoth;;
    mret (mkNativeObjectMutationResult targetPath)).
End copying.
