(* ===== verification/SessionRuns.v ===== *)
(** * Message ids of a session

    The rule SMB2 puts on a client is that no two requests of a session carry
    the same message id.  Every session operation numbers its messages
    consecutively from [m_nextMessageId] and moves [m_nextMessageId] past them
    when it succeeds; when it fails, it does so unless it was cancelled, threw,
    or a listing broke off after its first query.  A history of operations
    therefore never uses an id twice. *)

From S2P Require Export Session.
Local Open Scope Z_scope.
Local Open Scope comp_scope.

(** ** More about programs *)

Lemma pwp_and {A} (p : prog A) h (P Q : list message -> option A -> Prop) :
  pwp p h P -> pwp p h Q -> pwp p h (fun h o => P h o /\ Q h o).
Proof.
  revert h. induction p as [a|frame context k IH|k IH|k IH|progress k IH|]; cbn; eauto.
Qed.

(** What a program does after other messages. *)
Lemma pwp_after {A} (p : prog A) h0 h Q :
  pwp p h Q -> pwp p (h0 ++ h) (fun h' o => exists tr, h' = h0 ++ tr /\ Q tr o).
Proof.
  revert h. induction p as [a|frame context k IH|k IH|k IH|progress k IH|]; cbn; eauto.
  intros h Hp response Hl. rewrite <- app_assoc. auto.
Qed.

Lemma pwp_after_nil {A} (p : prog A) h0 Q :
  pwp p [] Q -> pwp p h0 (fun h' o => exists tr, h' = h0 ++ tr /\ Q tr o).
Proof. intros H. pose proof (pwp_after p h0 [] Q H) as Ha. by rewrite app_nil_r in Ha. Qed.

(** A cancellation that cannot come. *)
Definition uncancellable (context : OperationContext) : Prop :=
  oc_cancellationToken context || oc_cancellationCallback context = false.

Lemma pwp_cancel_if_not {A} context message (k : action A) h Q :
  uncancellable context -> pwp k h Q -> pwp (cancel_if context with message;; k) h Q.
Proof. intros Hu Hk. apply pwp_cancel_if; [|done]. rewrite Hu. done. Qed.

(** ** The number of messages a failure reports *)

(** [p] sends at most one message. *)
Definition sends_one {A} (p : action A) : Prop :=
  forall h, pwp p h (fun h' _ => (length h' <= S (length h))%nat).

Lemma sends_exchangePayload request context : sends_one (exchangePayload request context).
Proof.
  intros h. unfold exchangePayload. apply pwp_action_bind. unfold lift. cbn [pwp].
  destruct (request ≫= encodeDirectTcpFrame) as [f|e|e|]; cbn [followed_by]; try lia.
  apply pwp_action_bind, pwp_reraised. unfold transport_exchange. cbn [pwp].
  intros response _. assert (length (h ++ [(f, response)]) <= S (length h))%nat
    by (rewrite length_app; simpl; lia).
  by destruct response.
Qed.

Lemma sends_exchanger {A} what request (decode : bytes -> comp A) context :
  sends_one (exchanger what request decode context).
Proof.
  intros h. unfold exchanger. apply pwp_cancel_if; [intros; lia|].
  apply pwp_action_bind. unfold lift at 1. cbn [pwp].
  destruct (request ≫= encodeDirectTcpFrame) as [f|e|e|]; cbn [followed_by]; try lia.
  apply pwp_action_bind, pwp_reraised. unfold transport_exchange. cbn [pwp].
  intros response _. assert (length (h ++ [(f, response)]) <= S (length h))%nat
    by (rewrite length_app; simpl; lia).
  destruct response as [rf|e|e|]; cbn [option_fmap option_map reraise followed_by fmap];
    try done.
  apply pwp_cancel_if; [done|]. apply pwp_action_bind. unfold lift. cbn [pwp].
  by destruct (reraise (decodeDirectTcpPayload rf)).
Qed.
#[export] Hint Resolve sends_exchangePayload sends_exchanger : smb.

(** After [k] messages a failure of [p] reports all messages sent. *)
Definition counts {A} (k : nat) (p : action A) : Prop :=
  forall h, (length h <= k)%nat ->
    pwp p h (fun h' o => forall e, o = Some (Err e) ->
               Z.of_nat (length h') <= err_messagesUsed e <= 4).

Section counting.
Context {A B : Type}.
Implicit Types (k : nat) (n : Z).

Lemma counts_mret k (a : A) : counts k (mret a).
Proof using Type. by intros h Hh e. Qed.

Lemma counts_cancel k context message (p : action A) :
  uncancellable context -> counts k p -> counts k (cancel_if context with message;; p).
Proof using Type. intros Hu Hp h Hh. apply pwp_cancel_if_not; auto. Qed.

Lemma counts_lift k n (c : comp A) (f : A -> action B) :
  Z.of_nat k <= n <= 4 -> (forall a, counts k (f a)) ->
  counts k (lift (reraise_used n c) ≫= f).
Proof using Type.
  intros Hn Hf h Hh. apply pwp_action_bind. unfold lift. cbn [pwp].
  destruct c as [a|e|e|]; cbn; [by apply Hf| |done|done].
  intros e' [= <-]. cbn. lia.
Qed.

(** A buffer that fails by throwing reports nothing. *)
Lemma counts_built k (c : comp A) (f : A -> action B) :
  throws_only c -> (forall a, counts k (f a)) -> counts k (lift c ≫= f).
Proof using Type.
  intros Hc Hf h Hh. apply pwp_action_bind. unfold lift. cbn [pwp].
  destruct c as [a|e|e|]; cbn; [by apply Hf|by destruct (Hc e)|done|done].
Qed.

Lemma counts_exchange k n (p : action A) (f : A -> action B) :
  sends_one p -> Z.of_nat (S k) <= n <= 4 -> (forall a, counts (S k) (f a)) ->
  counts k (failing_with n p ≫= f).
Proof using Type.
  intros Hp Hn Hf h Hh. apply pwp_action_bind, pwp_failing_with.
  eapply pwp_mono; [apply Hp|]. intros h' o Hl. cbn beta in Hl.
  destruct o as [[a|e|e|]|]; cbn; try done; [apply Hf; lia|].
  intros e' [= <-]. cbn. lia.
Qed.
End counting.

(** The helper that opens the object of the metadata operations. *)
Lemma counts_open {B} m t s context options (f : CreateResponse -> action B) :
  (forall r, counts 1 (f r)) ->
  counts 0 (openForMetadata m t s context options ≫= f).
Proof.
  intros Hf h Hh. apply pwp_bind_assoc. revert h Hh.
  change (counts 0 (failing_with 1 (exchangePayload (buildCreateRequest options m t s)
    context) ≫= fun payload =>
      lift (reraise_used 1 (decodeCreateResponse payload)) ≫= f)).
  apply counts_exchange; [apply sends_exchangePayload|lia|]. intros payload.
  apply counts_lift; [lia|done].
Qed.

Lemma throws_only_buildFileFullEaInformation entries :
  throws_only (buildFileFullEaInformation entries).
Proof.
  induction entries as [|entry rest IH]; [done|]. cbn [buildFileFullEaInformation].
  throws_step; [unfold encodeEa; repeat throws_step|]. intros bs.
  throws_step; [exact IH|]. intros; throws_step.
Qed.

Section counted_operations.
Context (m t s : Z) (context : OperationContext) (Hu : uncancellable context).

Lemma stat_counts path : counts 0 (RemoteStatReader_stat m t s context path).
Proof using Hu.
  apply counts_cancel; [done|].
  apply counts_exchange; [auto with smb|lia|]; intros payload.
  apply counts_cancel; [done|]. apply counts_lift; [lia|]; intros r.
  apply counts_exchange; [apply sends_exchanger|lia|]; intros basic.
  apply counts_cancel; [done|]. apply counts_lift; [lia|]; intros info.
  apply counts_exchange; [apply sends_exchanger|lia|]; intros standard.
  apply counts_cancel; [done|]. apply counts_lift; [lia|]; intros info'.
  apply counts_exchange; [apply sends_exchanger|lia|]; intros closed. apply counts_mret.
Qed.

Lemma closeMutation_counts fileId : counts 2 (closeMutation m t s context fileId).
Proof using Type.
  apply counts_exchange; [apply sends_exchanger|lia|]; intros closed. apply counts_mret.
Qed.

Lemma setInformation_counts path access infoType infoClass buffer additional :
  throws_only buffer ->
  counts 0 (setInformation m t s context path access infoType infoClass buffer additional).
Proof using Hu.
  intros Hb. apply counts_cancel; [done|]. apply counts_open; intros r.
  apply counts_cancel; [done|]. apply counts_built; [done|]; intros bs.
  apply counts_exchange; [apply sends_exchanger|lia|]; intros _. apply closeMutation_counts.
Qed.

Lemma listExtendedAttributes_counts path :
  counts 0 (listExtendedAttributes m t s context path).
Proof using Hu.
  apply counts_cancel; [done|]. apply counts_open; intros r.
  apply counts_cancel; [done|].
  apply counts_exchange; [apply sends_exchanger|lia|]; intros q.
  apply counts_lift; [lia|]; intros entries.
  apply counts_exchange; [apply sends_exchanger|lia|]; intros _. apply counts_mret.
Qed.

Lemma querySecurityDescriptor_counts path information :
  counts 0 (querySecurityDescriptor m t s context path information).
Proof using Hu.
  apply counts_cancel; [done|]. apply counts_open; intros r.
  apply counts_cancel; [done|].
  apply counts_exchange; [apply sends_exchanger|lia|]; intros q.
  apply counts_exchange; [apply sends_exchanger|lia|]; intros _. apply counts_mret.
Qed.
End counted_operations.

(** ** One exchange, exactly *)

(** The outcome [c] of one request after the messages [h]: unless it could not
    be built, it was sent and [c] is what [decode] makes of the answer. *)
Definition exchanged {A} (request : comp bytes) (decode : bytes -> comp A)
    (h h' : list message) (c : comp A) : Prop :=
  match c with
  | Throw _ => h' = h /\ forall frame, ~ sent request frame
  | OutOfBounds => False
  | _ => exists frame response,
      sent request frame /\ h' = h ++ [(frame, response)] /\ lawful (frame, response) /\
      reraise c = reraise ((response ≫= decodeDirectTcpPayload) ≫= decode)
  end.

(** [exchanged] of a run that ends. *)
Definition outcome {A} (Q : list message -> comp A -> Prop) (h : list message)
    (o : option (comp A)) : Prop :=
  match o with Some c => Q h c | None => False end.

Section exact.
Context (m t s : Z) (command : Command) (request : comp bytes).
Context (Hreq : request_on m t s command request) (context : OperationContext).

Lemma exchangePayload_exact h :
  pwp (exchangePayload request context) h (outcome (exchanged request Ok h)).
Proof using Hreq.
  unfold exchangePayload. apply pwp_action_bind. unfold lift. cbn [pwp].
  pose proof (request_on_throws m t s command request Hreq) as Hthrows.
  destruct (send_cases m t s command request Hreq) as [[f Hf]|[[e He]|[e He]]].
  2: by destruct (Hthrows e).
  2: { rewrite He. split; [done|]. intros frame. unfold sent. by rewrite He. }
  rewrite Hf. cbn [followed_by]. apply pwp_action_bind, pwp_reraised.
  unfold transport_exchange. cbn [pwp]. intros response Hl. pose proof Hl as Hlaw.
  unfold lawful in Hl. cbn [snd] in Hl.
  destruct response as [rf|e|e|]; cbn in Hl; [|by exists f, (Err e)|done|done].
  cbn [option_fmap option_map reraise followed_by fmap pwp outcome].
  pose proof (wp_decodeDirectTcpPayload rf Hl) as Hwp.
  destruct (decodeDirectTcpPayload rf) as [payload|e|e|] eqn:Hdec; try done;
    exists f, (Ok rf); (split_and!; [done..|]); cbn; by rewrite Hdec.
Qed.

Lemma exchanger_exact {A} what (decode : bytes -> comp A) h :
  (forall data, bytes_ok data -> wp (decode data) (fun _ => True)) ->
  uncancellable context ->
  pwp (exchanger what request decode context) h (outcome (exchanged request decode h)).
Proof using Hreq.
  intros Hd Hu. apply pwp_cancel_if_not; [done|]. apply pwp_action_bind.
  unfold lift at 1. cbn [pwp].
  pose proof (request_on_throws m t s command request Hreq) as Hthrows.
  destruct (send_cases m t s command request Hreq) as [[f Hf]|[[e He]|[e He]]].
  2: by destruct (Hthrows e).
  2: { rewrite He. split; [done|]. intros frame. unfold sent. by rewrite He. }
  rewrite Hf. cbn [followed_by]. apply pwp_action_bind, pwp_reraised.
  unfold transport_exchange. cbn [pwp]. intros response Hl. pose proof Hl as Hlaw.
  unfold lawful in Hl. cbn [snd] in Hl.
  destruct response as [rf|e|e|]; cbn in Hl; [|by exists f, (Err e)|done|done].
  cbn [option_fmap option_map reraise followed_by fmap].
  apply pwp_cancel_if_not; [done|]. apply pwp_action_bind. unfold lift.
  pose proof (wp_decodeDirectTcpPayload rf Hl) as Hwp.
  destruct (decodeDirectTcpPayload rf) as [payload|e|e|] eqn:Hdec; cbn [reraise pwp followed_by];
    try done.
  - specialize (Hd payload (proj1 Hwp)).
    destruct (decode payload) as [a|e|e|] eqn:Ha; try done; cbn;
      exists f, (Ok rf); (split_and!; [done..|]); cbn; by rewrite Hdec; cbn; rewrite Ha.
  - exists f, (Ok rf). split_and!; [done..|]. cbn. by rewrite Hdec.
Qed.

(** A request and a decoder: [openObject], [ioctl]. *)
Lemma request_exact {A} (decode : bytes -> comp A) h :
  (forall data, bytes_ok data -> wp (decode data) (fun _ => True)) ->
  pwp (reraised (exchangePayload request context) ≫= fun payload => lift (decode payload)) h
    (outcome (exchanged request decode h)).
Proof using Hreq.
  intros Hd. apply pwp_action_bind, pwp_reraised. eapply pwp_mono;
    [apply exchangePayload_exact|].
  intros h' [c|]; [|done]. cbn [outcome]. unfold exchanged.
  destruct c as [payload|e|e|]; cbn [fmap option_fmap option_map reraise followed_by outcome];
    try done.
  - intros (f & response & Hs & -> & Hl & Heq). unfold lift. cbn [pwp outcome].
    unfold lawful in Hl. cbn in Hl.
    destruct response as [rf|e|e|]; cbn in Heq, Hl; try discriminate Heq.
    pose proof (wp_decodeDirectTcpPayload rf Hl) as Hwp.
    destruct (decodeDirectTcpPayload rf) as [p|e|e|] eqn:Hdec; cbn in Heq, Hwp; try discriminate Heq.
    apply Ok_inj in Heq as ->. specialize (Hd p (proj1 Hwp)).
    destruct (decode p) as [a|e|e|] eqn:Ha; try done;
      exists f, (Ok rf); (split_and!; [done..|]); cbn; by rewrite Hdec; cbn; rewrite Ha.
  - intros (f & response & Hs & -> & Hl & Heq). exists f, response. split_and!; [done..|].
    clear Hs Hl. destruct (response ≫= decodeDirectTcpPayload) as [p|e'|e'|];
      cbn in Heq |- *; try discriminate Heq. unfold failure in *. by injection Heq as -> ->.
Qed.
End exact.

(** A CLOSE can always be built. *)
Lemma encode_close m t s fileId :
  is_u64 m -> is_u32 t -> is_u64 s ->
  exists frame, sent (Ok (buildCloseRequest (closeOptions fileId) m t s)) frame.
Proof.
  intros Hm Ht Hs. unfold sent. cbn [mbind comp_bind]. unfold encodeDirectTcpFrame.
  assert (blen (buildCloseRequest (closeOptions fileId) m t s) = 88) as ->.
  { unfold buildCloseRequest, appendFileId. rewrite !blen_app, blen_encodeSmb2SyncHeader.
    - by len.
    - apply requestHeader_ok; try ulia.
      apply listed_command_ok, (bool_decide_unpack _). by vm_compute. }
  by eexists.
Qed.

(** ** Listings that break off *)

Definition is_Ok {A} (c : comp A) : bool := match c with Ok _ => true | _ => false end.

(** The answer to a QUERY_DIRECTORY or to a CLOSE is a failure. *)
Definition refused (msg : message) : bool :=
  match frameHeader (fst msg) with
  | Some h =>
      let payload := snd msg ≫= decodeDirectTcpPayload in
      match hdr_command h with
      | Command_QueryDirectory => negb (is_Ok (payload ≫= decodeQueryDirectoryResponse))
      | Command_Close => negb (is_Ok (payload ≫= decodeCloseResponse))
      | _ => false
      end
  | None => false
  end.

(** No query and no CLOSE was refused. *)
Definition calm (h : list message) : Prop := Forall (fun msg => refused msg = false) h.

Lemma calm_app h h' : calm (h ++ h') <-> calm h /\ calm h'.
Proof. apply Forall_app. Qed.

Lemma calm_snoc h msg : calm (h ++ [msg]) -> refused msg = false.
Proof. intros [_ H]%calm_app. by inversion H. Qed.

Lemma reraise_Err_inv {A} (c : comp A) e : Err e = reraise c -> exists e', c = Err e'.
Proof. destruct c; [done|eauto|done..]. Qed.

Lemma refused_answer {A} m t s command request (decode : bytes -> comp A) frame response e :
  is_u64 m -> is_u32 t -> is_u64 s -> request_on m t s command request ->
  sent request frame ->
  reraise (Err e) = reraise ((response ≫= decodeDirectTcpPayload) ≫= decode) ->
  exists h, frameHeader frame = Some h /\ hdr_command h = command /\
    is_Ok ((response ≫= decodeDirectTcpPayload) ≫= decode) = false.
Proof.
  intros Hm Ht Hs Hreq Hsent He. destruct (addressed_header command m t s frame)
    as (h & Hh & Hc); [by eapply sent_addressed|].
  exists h. split_and!; [done..|]. cbn in He. apply reraise_Err_inv in He as [e' ->]. done.
Qed.

Lemma pwp_true {A} (p : prog A) h : pwp p h (fun _ _ => True).
Proof. revert h. induction p; cbn; auto. Qed.

Section calm_listing.
Context (m t s : Z) (Hm : is_u64 m) (Ht : is_u32 t) (Hs : is_u64 s).
Context (context : OperationContext) (Hu : uncancellable context).

(** A failure comes after at most three messages, or was a refusal. *)
Definition breaks_off {A} (h : list message) (o : option (comp A)) : Prop :=
  forall e, o = Some (Err e) -> calm h -> (length h <= 3)%nat.

Lemma close_breaks_off {A} k fileId h (a : A) :
  pwp (reraised (close_with m t s context k fileId);; mret a) h breaks_off.
Proof using Hm Ht Hs Hu.
  apply pwp_action_bind, pwp_reraised. eapply pwp_mono.
  { eapply exchanger_exact; [apply on_close| |done].
    intros data Hd. eapply wp_mono; [by apply wp_decodeCloseResponse|done]. }
  intros h' [[r|e|e|]|];
    cbn [outcome fmap option_fmap option_map reraise followed_by]; try done.
  intros (frame & response & Hsent & -> & Hl & He) _ _ Hcalm.
  destruct (refused_answer (u64 (m + k)) t s Command_Close _ decodeCloseResponse frame
    response e (u64_range _) Ht Hs (on_close _ _ _ _) Hsent He) as (hd & Hh & Hc & Hno).
  apply calm_snoc in Hcalm. unfold refused in Hcalm. cbn [fst snd] in Hcalm.
  by rewrite Hh, Hc, Hno in Hcalm.
Qed.

(** Once something was refused, nothing is claimed. *)
Lemma uncalm_breaks_off {A} (p : action A) h : ~ calm h -> pwp p h breaks_off.
Proof using Type.
  intros Hc. eapply pwp_mono; [apply pwp_after_nil, (pwp_true p [])|].
  by intros h' o (tr & -> & _) e _ [? _]%calm_app.
Qed.

Lemma query_breaks_off {A} options k h (g : bytes -> action A) :
  (forall payload h, is_Ok (decodeQueryDirectoryResponse payload) = true ->
     pwp (g payload) h breaks_off) ->
  pwp (reraised (exchangePayload
         (buildQueryDirectoryRequest options (u64 (m + k)) t s) context) ≫= g) h breaks_off.
Proof using Hm Ht Hs Hu.
  intros Hg. apply pwp_action_bind, pwp_reraised. eapply pwp_mono.
  { eapply exchangePayload_exact, on_query_directory. }
  assert (forall frame response, sent (buildQueryDirectoryRequest options (u64 (m + k)) t s)
    frame -> is_Ok ((response ≫= decodeDirectTcpPayload) ≫= decodeQueryDirectoryResponse)
      = false ->
    ~ calm (h ++ [(frame, response)])) as Hbad.
  { intros frame response Hsent Hno Hcalm%calm_snoc.
    destruct (addressed_header Command_QueryDirectory (u64 (m + k)) t s frame) as (hd & Hh & Hc).
    { eapply sent_addressed; [apply u64_range|done|done|apply on_query_directory|done]. }
    unfold refused in Hcalm. cbn [fst snd] in Hcalm. by rewrite Hh, Hc, Hno in Hcalm. }
  intros h' [[payload|e|e|]|]; cbn [outcome fmap option_fmap option_map reraise followed_by];
    try done; unfold exchanged; intros (frame & response & Hsent & -> & Hl & Heq);
    cbn [reraise] in Heq; specialize (Hbad frame response Hsent);
    destruct (response ≫= decodeDirectTcpPayload) as [p| | |]; try discriminate Heq.
  - cbn in Heq. apply Ok_inj in Heq as ->. cbn [mbind comp_bind] in Hbad.
    destruct (is_Ok (decodeQueryDirectoryResponse p)) eqn:Hok; [by apply Hg|].
    apply uncalm_breaks_off. by apply Hbad.
  - intros _ _ Hcalm. by destruct (Hbad eq_refl).
Qed.

Lemma list_loop_breaks_off {A} fuel fileId (f : list DirectoryEntry * Z -> action A) :
  (forall r h, pwp (f r) h breaks_off) ->
  forall h first used entries,
  pwp (list_loop m t s context fuel fileId first used entries ≫= f) h breaks_off.
Proof using Hm Ht Hs Hu.
  intros Hf. induction fuel as [|fuel IH]; intros h first used entries; [done|].
  cbn [list_loop]. apply pwp_bind_assoc, query_breaks_off. clear h. intros payload h Hok.
  apply pwp_bind_assoc, pwp_action_bind, pwp_isCancelled; [by rewrite Hu|].
  apply pwp_bind_assoc, pwp_action_bind. unfold lift. cbn [pwp].
  destruct (decodeQueryDirectoryResponse payload) as [r|e|e|]; try done.
  cbn [reraise followed_by]. case_if; [apply Hf|]. destruct (qdr_entries r); [apply Hf|apply IH].
Qed.

Lemma list_breaks_off fuel path :
  pwp (DirectoryLister_list m t s context fuel path) [] breaks_off.
Proof using Hm Ht Hs Hu.
  apply pwp_cancel_if_not; [done|]. apply pwp_action_bind, pwp_reraised.
  eapply pwp_mono; [apply sends_exchangePayload|]. intros h o Hl. cbn [length] in Hl.
  destruct o as [[payload|e|e|]|]; cbn [fmap option_fmap option_map reraise followed_by];
    try done; [|intros e' _ _; lia].
  apply pwp_cancel_if_not; [done|]. apply pwp_action_bind. unfold lift. cbn [pwp].
  destruct (decodeCreateResponse payload) as [r|e|e|]; cbn [with_message_id followed_by];
    try done; [|intros e' _ _; lia].
  apply list_loop_breaks_off. intros [entries used] h'. apply close_breaks_off.
Qed.
End calm_listing.

(** ** Session programs *)

Definition session_ok (s : NativeSmbSession) : Prop :=
  is_u32 (nss_treeId s) /\ is_u64 (nss_sessionId s) /\ is_u64 (nss_nextMessageId s).

(** The messages [h] carry the next ids of [s], in order. *)
Definition numbered_from (s : NativeSmbSession) (h : list message) : Prop :=
  numbered (nss_nextMessageId s) (nss_treeId s) (nss_sessionId s) h.

(** [n] ids were taken between [s] and [s']. *)
Definition took (n : Z) (s s' : NativeSmbSession) : Prop :=
  nss_nextMessageId s' = u64 (nss_nextMessageId s + n).

(** Ids were taken for the messages [h], with at most the largest credit charge
    to spare. *)
Definition covered (s : NativeSmbSession) (h : list message) (s' : NativeSmbSession) : Prop :=
  exists n, took n s s' /\ Z.of_nat (length h) <= n <= Z.of_nat (length h) + 65536.

Definition exact (s : NativeSmbSession) (h : list message) (s' : NativeSmbSession) : Prop :=
  took (Z.of_nat (length h)) s s'.

Lemma exact_covered s h s' : exact s h s' -> covered s h s'.
Proof. intros He. eexists. split; [exact He|lia]. Qed.

(** What became of the ids: [values] of a result, [errors] of a failure. *)
Definition ids_after {A} (values errors : NativeSmbSession -> list message ->
    NativeSmbSession -> Prop) (s : NativeSmbSession) (h : list message)
    (o : option (NativeSmbSession * comp A)) : Prop :=
  numbered_from s h /\
  match o with
  | None => True
  | Some (s', c) =>
      session_ok s' /\ nss_treeId s' = nss_treeId s /\ nss_sessionId s' = nss_sessionId s /\
      match c with
      | Ok _ => values s h s'
      | Err _ => errors s h s'
      | Throw _ => True
      | OutOfBounds => False
      end
  end.

(** A failure that was not a cancellation and did not refuse a query or a
    CLOSE. *)
Definition covered_if_calm (context : OperationContext) (s : NativeSmbSession)
    (h : list message) (s' : NativeSmbSession) : Prop :=
  uncancellable context -> calm h -> covered s h s'.

Definition strict {A} (p : sessioned A) : Prop :=
  forall s, session_ok s -> pwp (p s) [] (ids_after exact exact s).
Definition orderly (context : OperationContext) {A} (p : sessioned A) : Prop :=
  forall s, session_ok s -> pwp (p s) [] (ids_after exact (covered_if_calm context) s).
Definition loose (context : OperationContext) {A} (p : sessioned A) : Prop :=
  forall s, session_ok s -> pwp (p s) [] (ids_after covered (covered_if_calm context) s).

Lemma ids_after_mono {A} (V V' E E' : NativeSmbSession -> list message ->
    NativeSmbSession -> Prop) s h (o : option (NativeSmbSession * comp A)) :
  (forall s', V s h s' -> V' s h s') -> (forall s', E s h s' -> E' s h s') ->
  ids_after V E s h o -> ids_after V' E' s h o.
Proof.
  intros HV HE [Hn Ho]. split; [done|]. destruct o as [[s' c]|]; [|done].
  destruct Ho as (? & ? & ? & Hc). split_and!; [done..|]. destruct c; auto.
Qed.

Lemma strict_orderly context {A} (p : sessioned A) : strict p -> orderly context p.
Proof.
  intros Hp s Hs. eapply pwp_mono; [by apply Hp|]. intros h o. apply ids_after_mono; [done|].
  intros s' He _ _. by apply exact_covered.
Qed.
Lemma orderly_loose context {A} (p : sessioned A) : orderly context p -> loose context p.
Proof.
  intros Hp s Hs. eapply pwp_mono; [by apply Hp|]. intros h o. apply ids_after_mono; [|done].
  apply exact_covered.
Qed.

Lemma numbered_app m t s h h' :
  is_u64 m -> numbered m t s h -> numbered (u64 (m + Z.of_nat (length h))) t s h' ->
  numbered m t s (h ++ h').
Proof.
  intros Hm Hh Hh' i frame response Hi.
  apply lookup_app_Some in Hi as [Hi|[Hlen Hi]]; [by eapply Hh|].
  specialize (Hh' _ _ _ Hi). rewrite u64_add_l in Hh'.
  by replace (m + Z.of_nat i) with (m + Z.of_nat (length h) + Z.of_nat (i - length h)) by lia.
Qed.

Lemma took_add m n s s1 s2 :
  took m s s1 -> took n s1 s2 -> took (m + n) s s2.
Proof.
  unfold took. intros -> ->. rewrite u64_add_l. f_equal. lia.
Qed.

Lemma exact_app s h s1 h' s2 : exact s h s1 -> exact s1 h' s2 -> exact s (h ++ h') s2.
Proof.
  intros H1 H2. unfold exact. rewrite length_app, Nat2Z.inj_add. by eapply took_add.
Qed.
Lemma covered_app s h s1 h' s2 : exact s h s1 -> covered s1 h' s2 -> covered s (h ++ h') s2.
Proof.
  intros H1 (n & H2 & Hn). exists (Z.of_nat (length h) + n).
  split; [by eapply took_add|]. rewrite length_app. lia.
Qed.
Lemma covered_if_calm_app context s h s1 h' s2 :
  exact s h s1 -> covered_if_calm context s1 h' s2 -> covered_if_calm context s (h ++ h') s2.
Proof. intros H1 H2 Hu [_ Hc]%calm_app. by eapply covered_app; [|apply H2]. Qed.

Lemma ids_after_app {A} (V E : NativeSmbSession -> list message -> NativeSmbSession -> Prop)
    s h s1 h' (o : option (NativeSmbSession * comp A)) :
  (forall s2, V s1 h' s2 -> V s (h ++ h') s2) -> (forall s2, E s1 h' s2 -> E s (h ++ h') s2) ->
  session_ok s -> numbered_from s h -> exact s h s1 -> nss_treeId s1 = nss_treeId s ->
  nss_sessionId s1 = nss_sessionId s ->
  ids_after V E s1 h' o -> ids_after V E s (h ++ h') o.
Proof.
  intros HV HE (_ & _ & Hm) Hn Hx Ht Hs [Hn' Ho]. split.
  - apply numbered_app; [done|done|]. unfold numbered_from in Hn'.
    by rewrite Hx, Ht, Hs in Hn'.
  - destruct o as [[s2 c]|]; [|done]. destruct Ho as (? & ? & ? & Hc).
    split_and!; [done|congruence|congruence|]. destruct c; auto.
Qed.

(** The rule for [≫=]. *)
Section bind.
Context (V E : NativeSmbSession -> list message -> NativeSmbSession -> Prop).
Context (HV : forall s h s1 h' s2, exact s h s1 -> V s1 h' s2 -> V s (h ++ h') s2).
Context (HE : forall s h s1 h' s2, exact s h s1 -> E s1 h' s2 -> E s (h ++ h') s2).

Lemma ids_bind {A B} (p : sessioned A) (f : A -> sessioned B) s :
  session_ok s -> pwp (p s) [] (ids_after exact E s) ->
  (forall a s1, session_ok s1 -> pwp (f a s1) [] (ids_after V E s1)) ->
  pwp ((p ≫= f) s) [] (ids_after V E s).
Proof using HV HE.
  intros Hs Hp Hf. apply pwp_bind. eapply pwp_mono; [exact Hp|].
  intros h [[s1 c]|] [Hn Ho]; [|by split]. destruct Ho as (Hs1 & Ht & Hss & Hc).
  destruct c as [a|e|e|]; try done.
  eapply pwp_mono; [apply pwp_after_nil, Hf, Hs1|]. intros h' o (tr & -> & Ho).
  eapply ids_after_app; eauto.
Qed.
End bind.

Lemma strict_bind {A B} (p : sessioned A) (f : A -> sessioned B) :
  strict p -> (forall a, strict (f a)) -> strict (p ≫= f).
Proof.
  intros Hp Hf s Hs. apply ids_bind; [apply exact_app|apply exact_app|done|by apply Hp|].
  intros a s1 Hs1. by apply Hf.
Qed.
Lemma orderly_bind context {A B} (p : sessioned A) (f : A -> sessioned B) :
  orderly context p -> (forall a, orderly context (f a)) -> orderly context (p ≫= f).
Proof.
  intros Hp Hf s Hs.
  apply ids_bind; [apply exact_app|apply covered_if_calm_app|done|by apply Hp|].
  intros a s1 Hs1. by apply Hf.
Qed.

(** A program that sends nothing and keeps the session. *)
Lemma ids_nil {A} s (c : comp A) :
  session_ok s -> c <> OutOfBounds -> ids_after exact exact s [] (Some (s, c)).
Proof.
  intros Hs Hc. split; [apply numbered_nil|]. split_and!; [done..|].
  assert (exact s [] s) as Hx.
  { unfold exact, took. cbn [length]. rewrite Z.add_0_r, u64_small; [done|apply Hs]. }
  by destruct c.
Qed.

Lemma strict_lift {A} (c : comp A) : c <> OutOfBounds -> strict (plain (lift c)).
Proof. intros Hc s Hs. by apply ids_nil. Qed.
Lemma strict_mret {A} (a : A) : strict (mret a).
Proof. by apply strict_lift. Qed.
Lemma strict_failure {A} code message : strict (mutationFailure (A := A) code message).
Proof. by apply strict_lift. Qed.
Lemma strict_isCancelled context : strict (plain (isCancelled context)).
Proof.
  intros s Hs. unfold plain. apply pwp_bind. apply pwp_isCancelled; [intros _|]; by apply ids_nil.
Qed.
#[export] Hint Resolve @strict_lift @strict_mret @strict_failure strict_isCancelled
  @strict_orderly @orderly_loose : smb.

(** ** The operations of a session *)

Lemma with_allocated_eq {A} count (op : operation A) context s :
  with_allocated count op context s =
  prog_bind (reraised (op (nss_nextMessageId s) (nss_treeId s) (nss_sessionId s) context))
    (fun r => Done (advance count s, r)).
Proof. done. Qed.

Lemma advance_ok count s : session_ok s -> session_ok (advance count s).
Proof. intros (? & ? & ?). split_and!; [done..|apply u64_range]. Qed.

(** Ids taken in advance, [values] and [errors] being what is known of the
    messages of a success and of a failure. *)
Lemma ids_allocated {A} (V E : NativeSmbSession -> list message -> NativeSmbSession -> Prop)
    count (op : operation A) context s :
  session_ok s ->
  pwp (op (nss_nextMessageId s) (nss_treeId s) (nss_sessionId s) context) []
    (fun h o => numbered_from s h /\ o <> Some OutOfBounds /\
       (forall a, o = Some (Ok a) -> V s h (advance count s)) /\
       (forall e, o = Some (Err e) -> E s h (advance count s))) ->
  pwp (with_allocated count op context s) [] (ids_after V E s).
Proof.
  intros Hs Hop. rewrite with_allocated_eq. apply pwp_bind, pwp_reraised.
  eapply pwp_mono; [exact Hop|]. intros h o (Hn & Ho & Hv & He).
  destruct o as [c|]; [|by split]. split; [done|].
  split_and!; [by apply advance_ok|done..|].
  destruct c; cbn; try done; [by eapply Hv|by eapply He].
Qed.

Section file_operations.
Context {A : Type} (op : operation A) (used : A -> Z) (limit : nat) (fuelled : bool).
Context (context : OperationContext).
Context (Hop : forall m t s, file_operation m t s context A (op m t s context)
  used limit fuelled).

Lemma op_well_run s :
  session_ok s ->
  pwp (op (nss_nextMessageId s) (nss_treeId s) (nss_sessionId s) context) []
    (well_run (nss_nextMessageId s) (nss_treeId s) (nss_sessionId s) used limit fuelled).
Proof using Hop.
  intros (Ht & Hs & Hm).
  by apply (file_operation_well_run _ _ _ context _ used limit fuelled Hm Ht Hs).
Qed.

Lemma orderly_allocated count :
  (forall a, used a = count) -> Z.of_nat limit <= count <= 4 ->
  orderly context (with_allocated count op context).
Proof using Hop.
  intros Hused Hl s Hs. apply ids_allocated; [done|].
  eapply pwp_mono; [by apply op_well_run|]. intros h o (Hn & Hlen & Ho & _ & Hv).
  split_and!; [done..| |].
  - intros a Ha. destruct (Hv a Ha) as [Hu _]. rewrite Hused, u64_small in Hu by ulia.
    unfold exact, took. by rewrite <- Hu.
  - intros e _ _ _. exists count. split; [done|]. lia.
Qed.

Lemma with_counted_eq failed s :
  with_counted used failed op context s =
  prog_bind (op (nss_nextMessageId s) (nss_treeId s) (nss_sessionId s) context)
    (fun r => match r with
              | Ok a => Done (advance (used a) s, Ok a)
              | Err e => Done (advance (failed e) s, reraise (Err e))
              | _ => Done (s, r)
              end).
Proof using Type. done. Qed.

Lemma orderly_counted failed :
  (uncancellable context -> forall s, session_ok s ->
     pwp (op (nss_nextMessageId s) (nss_treeId s) (nss_sessionId s) context) []
       (fun h o => forall e, o = Some (Err e) -> calm h ->
          Z.of_nat (length h) <= failed e <= 4)) ->
  orderly context (with_counted used failed op context).
Proof using Hop.
  intros Hfailed s Hs. rewrite with_counted_eq. apply pwp_bind.
  assert (pwp (op (nss_nextMessageId s) (nss_treeId s) (nss_sessionId s) context) []
    (fun h o => forall e, o = Some (Err e) -> uncancellable context -> calm h ->
       Z.of_nat (length h) <= failed e <= 4)) as He.
  { unfold uncancellable in *. destruct (_ || _).
    - eapply pwp_mono; [apply pwp_true|]. done.
    - eapply pwp_mono; [by apply Hfailed|]. eauto. }
  eapply pwp_mono; [apply pwp_and; [by apply op_well_run|exact He]|].
  intros h o [(Hn & Hlen & Ho & _ & Hv) Herr]. destruct o as [c|]; [|by split].
  destruct c as [a|e|e|]; cbn [pwp]; (split; [done|]); [| |by split_and!|done].
  - split_and!; [by apply advance_ok|done..|]. destruct (Hv a eq_refl) as [-> _].
    unfold exact, took. cbn. by rewrite u64_add_r.
  - split_and!; [by apply advance_ok|done..|]. intros Hu Hc. exists (failed e).
    split; [done|]. pose proof (Herr e eq_refl Hu Hc). lia.
Qed.
End file_operations.

(** *** One message *)

Section one_message.
Context (context : OperationContext).

(** What one exchange from [s] does with a single id. *)
Lemma strict_request {A} (op : operation A) command (request : Z -> Z -> Z -> comp bytes)
    (decode : bytes -> comp A) :
  (forall m t s, request_on m t s command (request m t s)) ->
  (forall m t s h, is_u64 m -> pwp (op m t s context) h
     (outcome (exchanged (request m t s) decode h))) ->
  strict (with_allocated 1 op context).
Proof using Type.
  intros Hreq Hop s Hs. apply ids_allocated; [done|]. destruct Hs as (Ht & Hsid & Hm).
  eapply pwp_mono; [by apply Hop|]. intros h [c|]; [|done]. cbn [outcome]. intros Hc.
  assert (forall frame response, sent (request (nss_nextMessageId s) (nss_treeId s)
      (nss_sessionId s)) frame -> h = [] ++ [(frame, response)] ->
    numbered_from s h /\ exact s h (advance 1 s)) as Hone.
  { intros frame response Hsent ->. split; [|done].
    eapply (numbered_snoc _ _ _ [] 0); [done|done|apply numbered_nil|done| |exact Hsent].
    rewrite Z.add_0_r, u64_small by done. apply Hreq. }
  unfold exchanged in Hc. destruct c as [a|e|e|]; [| | |done].
  - destruct Hc as (frame & response & Hsent & -> & _).
    destruct (Hone frame response Hsent eq_refl). by split_and!.
  - destruct Hc as (frame & response & Hsent & -> & _).
    destruct (Hone frame response Hsent eq_refl). by split_and!.
  - destruct Hc as [-> _]. split_and!; [apply numbered_nil|done..].
Qed.

Lemma wp_any {A} (c : comp A) P : wp c P -> wp c (fun _ => True).
Proof using Type. intros H. by eapply wp_mono. Qed.

Lemma openFile_exact options m t s h :
  pwp (openFile options m t s context) h
    (outcome (exchanged (buildCreateRequest options m t s) decodeCreateResponse h)).
Proof using Type.
  eapply request_exact; [apply on_create|]. intros data Hd.
  by eapply wp_any, wp_decodeCreateResponse.
Qed.

Lemma ioctl_exact options m t s h :
  is_u64 m ->
  pwp (sessionIoctl options m t s context) h
    (outcome (exchanged (buildIoctlRequest options m t s) decodeIoctlResponse h)).
Proof using Type.
  intros Hm. unfold sessionIoctl, ioctl. rewrite Z.add_0_r, u64_small by done.
  eapply request_exact; [apply on_ioctl|]. intros data Hd.
  by eapply wp_any, wp_decodeIoctlResponse.
Qed.

Lemma strict_openFile options : strict (with_allocated 1 (openFile options) context).
Proof using Type.
  eapply strict_request; [intros; apply on_create|]. intros. apply openFile_exact.
Qed.

Lemma strict_ioctl options : strict (with_allocated 1 (sessionIoctl options) context).
Proof using Type.
  eapply strict_request; [intros; apply on_ioctl|]. intros. by apply ioctl_exact.
Qed.
End one_message.

(** *** One exchanger *)

Section one_exchanger.
Context (context : OperationContext) (s : NativeSmbSession) (Hs : session_ok s).
Context (command : Command) (request : comp bytes).
Context (Hreq : request_on (nss_nextMessageId s) (nss_treeId s) (nss_sessionId s)
  command request).

Lemma exchanger_numbered {A} what (decode : bytes -> comp A) :
  (forall data, bytes_ok data -> wp (decode data) (fun _ => True)) ->
  pwp (exchanger what request decode context) []
    (fun h o => numbered_from s h /\ o <> Some OutOfBounds /\ (length h <= 1)%nat /\
       forall a, o = Some (Ok a) -> length h = 1%nat).
Proof using Hs Hreq.
  intros Hd. destruct Hs as (Ht & Hsid & Hm).
  eapply pwp_exchanger; [exact Hreq|exact Hd|..].
  - intros e. split_and!; [apply numbered_nil|done|simpl; lia|done].
  - intros e. split_and!; [apply numbered_nil|done|simpl; lia|done].
  - intros frame response Hsent.
    assert (numbered_from s ([] ++ [(frame, response)])) as Hn.
    { eapply (numbered_snoc _ _ _ [] 0); [done|done|apply numbered_nil|done| |exact Hsent].
      by rewrite Z.add_0_r, u64_small. }
    split; intros; split_and!; simpl; done || lia.
Qed.
End one_exchanger.

(** The ids of one exchanger among [count] that were taken. *)
Lemma orderly_closeFileHandle context fileId : orderly context (closeFileHandle context fileId).
Proof.
  intros s Hs. apply ids_allocated; [done|]. unfold closeFile.
  apply pwp_action_bind, pwp_reraised. eapply pwp_mono.
  { apply (exchanger_numbered context s Hs Command_Close _ (on_close _ _ _ _)).
    intros data Hd. eapply wp_any. by apply wp_decodeCloseResponse. }
  intros h o (Hn & Ho & Hl & Hv).
  assert (covered_if_calm context s h (advance 1 s)) as Hc.
  { intros _ _. exists 1. split; [done|lia]. }
  destruct o as [[r|e|e|]|]; cbn [fmap option_fmap option_map reraise followed_by]; try done.
  split_and!; [done..| |done]. intros a _. unfold exact. by rewrite (Hv r eq_refl).
Qed.

Lemma creditChargeForPayload_range size :
  is_u32 size -> 1 <= creditChargeForPayload size <= 65536.
Proof.
  unfold creditChargeForPayload. intros Hs. case_if; bools; [lia|].
  assert (0 <= (size - 1) / 65536 <= 65535) by (Z.to_euclidean_division_equations; ulia).
  rewrite u64_small; ulia.
Qed.

Lemma loose_readFileChunk context fileId length offset :
  is_u32 length -> loose context (readFileChunk context fileId length offset).
Proof.
  intros Hlen s Hs. pose proof (creditChargeForPayload_range length Hlen) as Hr.
  apply pwp_bind. eapply pwp_mono.
  { apply (ids_allocated covered (covered_if_calm context)); [exact Hs|].
    eapply pwp_mono.
    { apply (exchanger_numbered context s Hs Command_Read _ (on_read _ _ _ _)).
      intros data Hd. eapply wp_any. by apply wp_decodeReadResponse. }
    intros h o (Hn & Ho & Hl & _).
    assert (covered s h (advance (creditChargeForPayload length) s)) as Hc.
    { eexists. split; [done|lia]. }
    split_and!; [done..|]. by intros e _ _ _. }
  intros h [[s1 c]|] Hi; [|done]. destruct c; done.
Qed.

(** *** All of them *)

Lemma orderly_map context {A B} (p : sessioned A) (f : A -> B) :
  orderly context p -> orderly context (a ← p; mret (f a)).
Proof. intros Hp. apply orderly_bind; [done|]. intros a. apply strict_orderly, strict_mret. Qed.

Section every_operation_orderly.
Context (context : OperationContext).

Lemma orderly_used {A} (op : operation A) used :
  (forall m t s, file_operation m t s context A (op m t s context) used 3 false) ->
  (uncancellable context -> forall m t s, counts 0 (op m t s context)) ->
  orderly context (with_counted used err_messagesUsed op context).
Proof using Type.
  intros Hop Hc. apply (orderly_counted op used 3 false context Hop). intros Hu s Hs.
  eapply pwp_mono; [apply Hc; [done|simpl; lia]|]. simpl. eauto.
Qed.

Lemma orderly_listDirectory fuel path : orderly context (listDirectory context fuel path).
Proof using Type.
  apply orderly_map, (orderly_counted _ _ (fuel + 2) true context (fun m t s =>
    op_list m t s context fuel path)). intros Hu s (Ht & Hs & Hm).
  eapply pwp_mono; [by apply list_breaks_off|]. intros h o Hb e He Hc.
  specialize (Hb e He Hc). lia.
Qed.

Lemma orderly_statObject path : orderly context (statObject context path).
Proof using Type.
  apply orderly_map, (orderly_counted _ _ 4 false context (fun m t s =>
    op_stat m t s context path)). intros Hu s Hs.
  eapply pwp_mono; [apply (stat_counts _ _ _ context Hu); simpl; lia|]. simpl. eauto.
Qed.

Lemma orderly_writeFileOnce path data offset :
  orderly context (writeFileOnce context path data offset).
Proof using Type.
  apply orderly_map, (orderly_counted _ _ 3 false context (fun m t s =>
    op_write m t s context path data offset)). intros Hu s Hs.
  destruct Hs as (Ht & Hs & Hm). eapply pwp_mono; [by apply writeOnce_well_run|].
  intros h o (_ & Hl & _) e _ _. lia.
Qed.

Lemma orderly_object_mutation path count (op : operation RemoteObjectResult) :
  2 <= count <= 3 ->
  (forall m t s, file_operation m t s context _ (op m t s context) (fun _ => count)
     (Z.to_nat count) false) ->
  orderly context (object_mutation context path count op).
Proof using Type.
  intros Hc Hop. apply orderly_map.
  eapply orderly_allocated; [exact Hop|done|lia].
Qed.

Lemma orderly_deleteObject path directory :
  orderly context (session_deleteObject context path directory).
Proof using Type. apply orderly_object_mutation; [lia|]. intros. apply op_delete. Qed.

Lemma orderly_metadata_mutation path (op : operation RemoteMetadataMutationResult) :
  (forall m t s, file_operation m t s context _ (op m t s context) rmm_messagesUsed 3 false) ->
  (uncancellable context -> forall m t s, counts 0 (op m t s context)) ->
  orderly context (metadata_mutation context path op).
Proof using Type. intros. by apply orderly_map, orderly_used. Qed.

(** Recursive deletion. *)
Local Abbreviation store fuel := (session_store fuel context).

Lemma orderly_unless_cancelled fuel {A} message (p : sessioned A) :
  orderly context p ->
  orderly context (unless_cancelled (H1 := store fuel) message p).
Proof using Type.
  intros Hp. apply orderly_bind; [apply strict_orderly, strict_isCancelled|].
  intros []; [apply strict_orderly, strict_failure|done].
Qed.

Lemma orderly_each {A} (f : A -> sessioned unit) l :
  (forall a, orderly context (f a)) -> orderly context (each f l).
Proof using Type.
  intros Hf. induction l as [|a l IH]; cbn [each]; [apply strict_orderly, strict_mret|].
  apply orderly_bind; [apply Hf|done].
Qed.

Lemma orderly_delete_child fuel deleteTree parent entry :
  (forall path, orderly context (deleteTree path)) ->
  orderly context (delete_child (H1 := store fuel) deleteTree parent entry).
Proof using Type.
  intros Hd. apply orderly_map. case_if; [apply Hd|apply orderly_deleteObject].
Qed.

Lemma orderly_cut {A} : orderly context (fun _ => OutOfFuel : prog (NativeSmbSession * comp A)).
Proof using Type. intros s Hs. split; [apply numbered_nil|done]. Qed.

Lemma orderly_deleteTreeInternal fuel0 fuel path :
  orderly context (deleteTreeInternal (H1 := store fuel0) fuel path).
Proof using Type.
  revert path. induction fuel as [|fuel IH]; intros path; [apply orderly_cut|].
  cbn [deleteTreeInternal]. case_decide; [apply strict_orderly, strict_failure|].
  apply orderly_unless_cancelled, orderly_bind; [apply orderly_statObject|]. intros st.
  case_if; [apply orderly_deleteObject|].
  apply orderly_bind; [apply orderly_listDirectory|]. intros listing.
  apply orderly_bind; [|intros _; apply orderly_deleteObject]. apply orderly_each.
  intros entry. case_if; [apply strict_orderly, strict_mret|].
  by apply orderly_unless_cancelled, orderly_delete_child.
Qed.

Lemma orderly_deleteWildcard fuel parentPath pattern :
  orderly context (session_deleteWildcard context fuel parentPath pattern).
Proof using Type.
  unfold session_deleteWildcard, deleteWildcard.
  case_decide; [apply strict_orderly, strict_failure|].
  apply orderly_unless_cancelled, orderly_bind; [apply orderly_listDirectory|]. intros listing.
  apply orderly_map, orderly_each. intros entry.
  case_if; [apply strict_orderly, strict_mret|].
  case_match; [|apply orderly_cut]. case_match; [|apply strict_orderly, strict_mret].
  apply orderly_unless_cancelled, orderly_delete_child. apply orderly_deleteTreeInternal.
Qed.
End every_operation_orderly.
