(* ===== verification/ShareRuns.v ===== *)
(** * Runs of the share listing

    What [listShares] does on the wire, whatever a lawful transport answers:
    the ids of its messages, how many it reports, and that the pipe it opened
    is closed. *)

From Stdlib Require Import Sorted.
From S2P Require Export SessionRuns.
Local Open Scope Z_scope.
Local Open Scope comp_scope.

(** ** Ids with gaps *)

(** The messages [h] carry ids [m + o], on tree [t] and session [s], for
    offsets [o] that increase and stay below [n]. *)
Definition spaced (m t s n : Z) (h : list message) : Prop :=
  exists offsets, StronglySorted Z.lt offsets /\ Forall (fun o => 0 <= o < n) offsets /\
    Forall2 (fun o msg => exists command, addressed command (u64 (m + o)) t s (fst msg))
      offsets h.

Lemma StronglySorted_snoc l (x : Z) :
  StronglySorted Z.lt l -> Forall (fun y => y < x) l -> StronglySorted Z.lt (l ++ [x]).
Proof.
  induction 1 as [|y l Hs IH Hy]; intros Hx; [by repeat constructor|].
  apply Forall_cons in Hx as [Hyx Hx]. simpl. constructor; [auto|].
  apply Forall_app. split; [done|]. by constructor.
Qed.

Section spaced.
Context (m t s : Z) (Ht : is_u32 t) (Hs : is_u64 s).

Lemma spaced_weaken n n' h : n <= n' -> spaced m t s n h -> spaced m t s n' h.
Proof using Type.
  intros Hn (o & Ho & Hb & Hf). exists o. split_and!; [done| |done].
  eapply Forall_impl; [exact Hb|]. simpl. lia.
Qed.

Lemma spaced_snoc n o h command request frame response :
  0 <= n <= o -> spaced m t s n h -> request_on (u64 (m + o)) t s command request ->
  sent request frame -> spaced m t s (o + 1) (h ++ [(frame, response)]).
Proof using Ht Hs.
  intros Hn (os & Ho & Hb & Hf) Hreq Hsent. exists (os ++ [o]). split_and!.
  - apply StronglySorted_snoc; [done|]. eapply Forall_impl; [exact Hb|]. simpl. lia.
  - apply Forall_app. split; [|by repeat constructor; lia].
    eapply Forall_impl; [exact Hb|]. simpl. lia.
  - apply Forall2_app; [done|]. constructor; [|constructor]. exists command.
    eapply sent_addressed; try done. apply u64_range.
Qed.

Lemma numbered_spaced h : numbered m t s h -> spaced m t s (Z.of_nat (length h)) h.
Proof using Type.
  intros Hn. exists (Z.of_nat <$> seq 0 (length h)). split_and!.
  - generalize 0%nat, (length h). intros i n. revert i.
    induction n as [|n IH]; intros i; [constructor|]. cbn [seq fmap list_fmap].
    constructor; [apply IH|]. apply Forall_fmap, Forall_forall. intros j Hj%elem_of_seq.
    simpl. lia.
  - apply Forall_fmap, Forall_forall. intros j Hj%elem_of_seq. simpl. lia.
  - apply Forall2_fmap_l, Forall2_same_length_lookup. split; [by rewrite length_seq|].
    intros i j [frame response] Hj Hi. apply lookup_seq in Hj as [-> _]. simpl. by eapply Hn.
Qed.
End spaced.

(** ** One exchange *)

(** [pwp_exchanger], where a failure before the request is sent is a
    cancellation. *)
Lemma pwp_exchanger_sent {A} m t s command request context h what (decode : bytes -> comp A) Q :
  request_on m t s command request ->
  (forall data, bytes_ok data -> wp (decode data) (fun _ => True)) ->
  (forall e, Q h (Some (Throw e))) ->
  (~ uncancellable context -> forall e, Q h (Some (Err e))) ->
  after_sending request h Q (fun h payload =>
    forall a, decode payload = Ok a -> Q h (Some (Ok a))) ->
  pwp (exchanger what request decode context) h Q.
Proof.
  intros Hreq Hd Hthrow Herr Hsent.
  destruct (decide (uncancellable context)) as [Hu|Hu].
  - eapply pwp_mono; [by eapply exchanger_exact|]. intros h' [c|]; [|done].
    cbn [outcome]. unfold exchanged.
    destruct c as [a|e|e|]; [| |by intros [-> _]|done].
    + intros (f & r & Hs & -> & Hl & Heq). unfold lawful in Hl. cbn [snd] in Hl.
      destruct (Hsent f r Hs) as [_ Hp].
      destruct r as [rf|e|e|]; cbn in Heq, Hl; try done.
      pose proof (wp_decodeDirectTcpPayload rf Hl) as Hwp.
      destruct (decodeDirectTcpPayload rf) as [p|e|e|] eqn:Hdec; cbn in Heq; try done.
      apply (Hp p); [apply Hwp|by exists rf|]. by destruct (decode p).
    + intros (f & r & Hs & -> & _). apply (Hsent f r Hs).
  - by eapply pwp_exchanger; [..|apply Herr|].
Qed.

Lemma wp_payload frame response payload :
  lawful (frame, response) -> response ≫= decodeDirectTcpPayload = Ok payload -> bytes_ok payload.
Proof.
  intros Hl Hp. unfold lawful in Hl. cbn [snd] in Hl. destruct response as [rf|e|e|]; try done.
  cbn [mbind comp_bind] in Hp. cbn in Hl. pose proof (wp_decodeDirectTcpPayload rf Hl) as Hwp.
  rewrite Hp in Hwp. apply Hwp.
Qed.

(** The request stub can only fail by throwing, for a name that is not UTF-8. *)
Lemma wpt_stub serverName :
  match buildNetrShareEnumRequestStub serverName 0xFFFFFFFF None with
  | Ok _ | Throw _ => True
  | _ => False
  end.
Proof.
  unfold buildNetrShareEnumRequestStub, appendNdrUniqueUtf16String, appendNdrUtf16String.
  pose proof (wpt_encodeUtf16Le (normalizeServerName serverName)) as Hw.
  pose proof (throws_only_encodeUtf16Le (normalizeServerName serverName)) as Ht.
  destruct (encodeUtf16Le (normalizeServerName serverName)) as [u|e|e|]; try done.
  by destruct (Ht e).
Qed.

Section share_run.
Context (m t s : Z) (Hm : is_u64 m) (Ht : is_u32 t) (Hs : is_u64 s).
Context (context : OperationContext).
Local Abbreviation spaced := (spaced m t s).

(** What a run of [listShares] looks like: a value reports its six messages,
    numbered without a gap; a failure reports as many ids as it used, or one
    more; and the pipe that was opened is closed, unless the caller cancelled
    before its CLOSE. *)
Definition share_listing (h : list message) (o : option (comp NativeShareList)) : Prop :=
  match o with
  | Some (Ok r) =>
      nsl_messagesUsed r = 6 /\ length h = 6%nat /\ numbered m t s h /\ closes_its_handle h
  | Some (Err e) =>
      spaced (err_messagesUsed e) h /\
      Z.of_nat (length h) <= err_messagesUsed e <= Z.of_nat (length h) + 1 /\
      err_messagesUsed e <= 6 /\
      (handles [] [] h \/ closes_its_handle h \/
       (~ uncancellable context /\ length h = 5%nat))
  | Some (Throw _) => spaced 6 h
  | _ => False
  end.

(** The pipe is open and [k] messages were sent. *)
Definition piped (k : nat) (fileId : FileId) (h : list message) : Prop :=
  track m t s k h /\ handles [fileId] [] h /\ FileId_ok fileId.

(** A failing step of it, [used] ids gone. *)
Definition broken (used : Z) (fileId : FileId) (h : list message) : Prop :=
  spaced used h /\ Z.of_nat (length h) <= used <= Z.of_nat (length h) + 1 /\
  handles [fileId] [] h.

Lemma track_spaced k h : track m t s k h -> spaced (Z.of_nat k) h.
Proof using Type. intros [Hn <-]. by apply numbered_spaced. Qed.

Lemma pwp_closePipe used fileId h context' Q :
  FileId_ok fileId -> 0 <= used -> broken used fileId h -> uncancellable context' ->
  (forall h' c, spaced (used + 1) h' -> handles [fileId] [fileId] h' ->
     length h' = S (length h) -> wp c (fun _ => True) -> Q h' (Some c)) ->
  pwp (closePipe m t s used fileId context') h Q.
Proof using Ht Hs.
  intros Hf Hused (Hsp & _ & Hh) Hu HQ. unfold closePipe. apply pwp_action_bind, pwp_reraised.
  pose proof (u64_range (m + used)) as Hid.
  eapply pwp_mono; [eapply (exchanger_exact _ _ _ _ _ (on_close _ _ _ _)); [|done]|].
  { intros data Hd. eapply wp_any. by apply wp_decodeCloseResponse. }
  intros h' [c|]; [|done]. cbn [outcome]. unfold exchanged.
  assert (forall frame response,
    sent (Ok (buildCloseRequest (closeOptions fileId) (u64 (m + used)) t s)) frame ->
    forall c, wp c (fun _ => True) -> Q (h ++ [(frame, response)]) (Some c)) as Hdone.
  { intros frame response Hsent c' Hc. apply HQ; [| |by rewrite length_app, Nat.add_comm|done].
    - eapply spaced_snoc; [done|done| |exact Hsp|apply on_close|exact Hsent]. lia.
    - pose proof (handles_snoc _ _ _ (frame, response) Hh) as Hsnoc.
      rewrite (opened_by_other _ _ _ _ _ Hid Ht Hs (on_close _ _ _ _) _ _ Hsent) in Hsnoc
        by done.
      by rewrite (closed_by_close _ _ _ _ _ _ Hid Ht Hs Hf Hsent) in Hsnoc. }
  destruct c as [r|e|e|]; cbn [fmap option_fmap option_map reraise followed_by].
  - intros (frame & response & Hsent & -> & _). by apply Hdone.
  - intros (frame & response & Hsent & -> & _). by apply Hdone.
  - intros [_ Hno]. destruct (encode_close (u64 (m + used)) t s fileId Hid Ht Hs)
      as [frame Hsent]. by destruct (Hno frame).
  - done.
Qed.

(** A step of the open pipe that may fail, and what follows it. *)
Lemma step_or_close {A} used fileId h (p : action A) (f : A -> action NativeShareList) :
  FileId_ok fileId -> 0 <= used <= 5 ->
  pwp p h (fun h' o =>
    match o with
    | Some (Ok a) => pwp (f a) h' share_listing
    | Some (Err _) => broken used fileId h'
    | Some (Throw _) => spaced 6 h'
    | _ => False
    end) ->
  pwp (or_close m t s context used fileId p ≫= f) h share_listing.
Proof using Ht Hs.
  intros Hf Hused Hp. apply pwp_action_bind. unfold or_close. apply pwp_bind.
  eapply pwp_mono; [exact Hp|]. intros h' [[a|e|e|]|] Ho; try done. cbn [followed_by].
  apply pwp_bind, (pwp_closePipe used fileId); [done|lia|done|done|].
  intros h2 c Hsp Hh Hl Hc. destruct Ho as (_ & Hlen & _).
  assert (share_listing h2 (Some (reraise_used (u64 (used + 1)) (Err e)))) as Hdone.
  { cbn [reraise_used share_listing err_messagesUsed]. rewrite u64_small by ulia.
    split; [done|]. rewrite Hl. split; [lia|]. split; [lia|]. right. left.
    by eapply closes_its_handle_intro. }
  by destruct c.
Qed.

Lemma piped_broken k fileId h : piped k fileId h -> broken (Z.of_nat k) fileId h.
Proof using Type.
  intros (Htr & Hh & _). split; [by apply track_spaced|]. destruct Htr as [_ ->].
  split; [lia|done].
Qed.

(** A computation on what was read. *)
Lemma step_pipe_lift {A} k fileId h (c : comp A) (f : A -> action NativeShareList) :
  (k <= 5)%nat -> piped k fileId h -> wp c (fun _ => True) ->
  (forall a, pwp (f a) h share_listing) ->
  pwp (or_close m t s context (Z.of_nat k) fileId (lift c) ≫= f) h share_listing.
Proof using Ht Hs.
  intros Hk Hp Hc Hf. apply step_or_close; [apply Hp|lia|]. unfold lift. cbn [pwp].
  destruct c as [a|e|e|]; cbn in Hc; [apply Hf|by apply piped_broken|done|done].
Qed.

(** A READ or WRITE on the pipe, the id [k] of which is gone whatever happens. *)
Lemma step_pipe {A B} k fileId h what command request (decode : bytes -> comp B) (g : B -> comp A)
    (f : A -> action NativeShareList) P :
  (k <= 4)%nat -> piped k fileId h ->
  request_on (u64 (m + Z.of_nat k)) t s command request ->
  command <> Command_Create -> command <> Command_Close ->
  (forall data, bytes_ok data -> wp (decode data) P) ->
  (forall b, P b -> wp (g b) (fun a => forall h, piped (S k) fileId h ->
     pwp (f a) h share_listing)) ->
  pwp (or_close m t s context (Z.of_nat (S k)) fileId
         (reraised (exchanger what request decode context) ≫= fun b => lift (g b)) ≫= f)
    h share_listing.
Proof using Ht Hs.
  intros Hk Hp Hreq Hc1 Hc2 Hd Hg. pose proof (piped_broken _ _ _ Hp) as (Hsp & _ & _).
  destruct Hp as (Htr & Hh & Hf). apply step_or_close; [done|lia|].
  apply pwp_action_bind, pwp_reraised. eapply pwp_exchanger_sent; [exact Hreq| | | |].
  - intros data Hdata. eapply wp_any, Hd, Hdata.
  - intros e. eapply spaced_weaken; [|exact Hsp]. lia.
  - intros _ e. destruct Htr as [_ Hl]. split; [eapply spaced_weaken; [|exact Hsp]; lia|].
    split; [lia|done].
  - intros frame response Hsent.
    assert (spaced (Z.of_nat (S k)) (h ++ [(frame, response)])) as Hsp'.
    { rewrite Nat2Z.inj_succ, <- Z.add_1_r. eapply spaced_snoc; [done|done| |done|done|done].
      lia. }
    assert (length (h ++ [(frame, response)]) = S k) as Hl'.
    { rewrite length_app. destruct Htr as [_ ->]. simpl. lia. }
    assert (forall payload, bytes_ok payload -> replied response payload ->
      piped (S k) fileId (h ++ [(frame, response)])) as Hpiped.
    { intros payload Hpay Hrep.
      assert (message_sent m t s k h request frame response payload) as Hmsg.
      { split; [done|]. split; [done|]. split; [done|]. by eapply track_snoc. }
      split; [apply Hmsg|]. split; [|done]. by eapply handles_other. }
    assert (broken (Z.of_nat (S k)) fileId (h ++ [(frame, response)])) as Hbroken.
    { split; [done|]. split; [lia|]. pose proof (u64_range (m + Z.of_nat k)) as Hid.
      pose proof (handles_snoc _ _ _ (frame, response) Hh) as Hsnoc.
      rewrite (opened_by_other _ _ _ _ _ Hid Ht Hs Hreq _ _ Hsent) in Hsnoc by done.
      by rewrite (closed_by_other _ _ _ _ _ Hid Ht Hs Hreq _ _ Hsent) in Hsnoc by done. }
    split; [intros e; done|]. intros payload Hpay Hrep b Hb.
    cbn [option_fmap option_map reraise followed_by fmap]. unfold lift. cbn [pwp].
    pose proof (Hd payload Hpay) as HP. rewrite Hb in HP. specialize (Hg b HP).
    destruct (g b) as [a|e|e|]; cbn in Hg; [|done..]. apply Hg. by eapply Hpiped.
Qed.

Lemma step_write k fileId h data (f : bool -> action NativeShareList) :
  (k <= 4)%nat -> piped k fileId h ->
  (forall b h, piped (S k) fileId h -> pwp (f b) h share_listing) ->
  pwp (or_close m t s context (Z.of_nat (S k)) fileId
         (writePipe m t s context (Z.of_nat k) fileId data) ≫= f) h share_listing.
Proof using Ht Hs.
  intros Hk Hp Hf.
  apply (step_pipe k fileId h "write" Command_Write _ decodeWriteResponse
    (fun written => fail_if negb (wrr_count written =? blen data) with ErrorCode_IoError,
       "SMB named pipe write was shorter than expected.";; Ok true) f WriteResponse_ok);
    [done|done|apply on_write|done|done|apply wp_decodeWriteResponse|].
  intros b _. case_if; [done|]. cbn. intros. by apply Hf.
Qed.

Lemma step_read k fileId h (f : bytes -> action NativeShareList) :
  (k <= 4)%nat -> piped k fileId h ->
  (forall data h, bytes_ok data -> piped (S k) fileId h -> pwp (f data) h share_listing) ->
  pwp (or_close m t s context (Z.of_nat (S k)) fileId
         (readPipe m t s context (Z.of_nat k) fileId) ≫= f) h share_listing.
Proof using Ht Hs.
  intros Hk Hp Hf.
  apply (step_pipe k fileId h "read" Command_Read _ decodeReadResponse
    (fun r => Ok (rdr_data r)) f ReadResponse_ok);
    [done|done|apply on_read|done|done|apply wp_decodeReadResponse|].
  intros b Hb. cbn. intros. apply Hf; [apply Hb|done].
Qed.

(** The last CLOSE, with the caller's context. *)
Lemma step_last fileId h (r : NativeShareList) :
  piped 5 fileId h -> nsl_messagesUsed r = 6 ->
  pwp (failing_with 6 (closePipe m t s 5 fileId context);; mret r) h share_listing.
Proof using Ht Hs.
  intros (Htr & Hh & Hf) Hr. pose proof (u64_range (m + 5)) as Hid.
  apply pwp_action_bind, pwp_failing_with. unfold closePipe.
  apply pwp_action_bind, pwp_reraised.
  eapply pwp_exchanger_sent; [apply on_close| | | |].
  - intros data Hd. eapply wp_any. by apply wp_decodeCloseResponse.
  - intros e. eapply spaced_weaken; [|exact (track_spaced _ _ Htr)]. lia.
  - intros Hu e. destruct Htr as [Hn Hl]. cbn. split; [|split; [|split; [done|]]].
    + eapply spaced_weaken; [|by apply numbered_spaced]. lia.
    + lia.
    + right. right. done.
  - intros frame response Hsent.
    assert (handles [fileId] [fileId] (h ++ [(frame, response)])) as Hh'.
    { pose proof (handles_snoc _ _ _ (frame, response) Hh) as Hsnoc.
      rewrite (opened_by_other _ _ _ _ _ Hid Ht Hs (on_close _ _ _ _) _ _ Hsent) in Hsnoc
        by done.
      by rewrite (closed_by_close _ _ _ _ _ _ Hid Ht Hs Hf Hsent) in Hsnoc. }
    assert (track m t s 6 (h ++ [(frame, response)])) as Htr'.
    { eapply track_snoc; [done|done|done|apply on_close|exact Hsent]. }
    assert (closes_its_handle (h ++ [(frame, response)])) as Hc
      by (by eapply closes_its_handle_intro).
    split.
    + intros e. cbn. split; [by apply (track_spaced 6)|]. destruct Htr' as [_ ->].
      split; [lia|]. split; [done|]. right. by left.
    + intros payload _ _ a _. cbn. destruct Htr' as [Hn Hl]. by split_and!.
Qed.

(** A CREATE that was sent and opened nothing. *)
Lemma create_failed frame response :
  sent (buildCreateRequest srvsvcPipeOpenOptions m t s) frame ->
  is_Ok ((response ≫= decodeDirectTcpPayload) ≫= decodeCreateResponse) = false ->
  track m t s 1 [(frame, response)] /\ handles [] [] [(frame, response)].
Proof using Hm Ht Hs.
  intros Hsent Hno. split.
  - apply (track_snoc m t s Ht Hs 0 [] Command_Create
      (buildCreateRequest srvsvcPipeOpenOptions m t s)); [apply track_nil| |done].
    rewrite <- (start m Hm). apply on_create.
  - pose proof (handles_snoc [] [] [] (frame, response) handles_nil) as Hsnoc.
    rewrite (closed_by_other _ _ _ _ _ Hm Ht Hs (on_create _ _ _ _) _ _ Hsent) in Hsnoc by done.
    assert (opened_by (frame, response) = None) as Hopen; [|by rewrite Hopen in Hsnoc].
    unfold opened_by. cbn [fst snd]. destruct (frameHeader frame) as [h|]; [|done].
    cbn [mbind option_bind]. case_decide; [|done].
    by destruct ((response ≫= decodeDirectTcpPayload) ≫= decodeCreateResponse).
Qed.

Lemma create_only_listing frame response e :
  track m t s 1 [(frame, response)] -> handles [] [] [(frame, response)] ->
  share_listing [(frame, response)] (Some (reraise_used 1 (Err e))).
Proof using Type.
  intros Htr Hh. cbn [reraise_used share_listing err_messagesUsed].
  split; [by apply (track_spaced 1)|]. split; [simpl; lia|]. split; [lia|]. by left.
Qed.

Lemma created_piped frame response payload r :
  sent (buildCreateRequest srvsvcPipeOpenOptions m t s) frame ->
  lawful (frame, response) -> response ≫= decodeDirectTcpPayload = Ok payload ->
  decodeCreateResponse payload = Ok r ->
  piped 1 (crr_fileId r) [(frame, response)].
Proof using Hm Ht Hs.
  intros Hsent Hl Hp Hr. unfold lawful in Hl. cbn [snd] in Hl.
  destruct response as [rf|e|e|]; try done. cbn [mbind comp_bind] in Hp. cbn in Hl.
  pose proof (wp_decodeDirectTcpPayload rf Hl) as Hwp. rewrite Hp in Hwp.
  assert (message_sent m t s 0 [] (buildCreateRequest srvsvcPipeOpenOptions
    (u64 (m + Z.of_nat 0)) t s) frame (Ok rf) payload) as Hmsg.
  { rewrite <- (start m Hm). split; [done|]. split; [apply Hwp|]. split; [by exists rf|].
    apply (track_snoc m t s Ht Hs 0 [] Command_Create
      (buildCreateRequest srvsvcPipeOpenOptions m t s)); [apply track_nil| |done].
    rewrite <- (start m Hm). apply on_create. }
  split; [apply Hmsg|]. split.
  - exact (handles_create m t s Ht Hs _ 0 [] frame (Ok rf) payload r Hmsg Hr handles_nil).
  - pose proof (wp_decodeCreateResponse payload (proj1 Hwp)) as Hc. rewrite Hr in Hc.
    by destruct Hc as (_ & _ & _ & _ & _ & _ & _ & _ & _ & _ & Hid).
Qed.

Lemma listShares_listing serverName :
  pwp (listShares m t s context serverName) [] share_listing.
Proof using Hm Ht Hs.
  unfold listShares. apply pwp_cancel_if.
  { intros _. split; [by apply (spaced_weaken m t s 0), (track_spaced 0), track_nil|].
    split; [done|]. split; [done|]. by left. }
  apply pwp_action_bind, pwp_failing_with.
  eapply pwp_mono; [apply (exchangePayload_exact _ _ _ _ _ (on_create _ _ _ _))|].
  intros h' [c|]; [|done]. cbn [outcome]. unfold exchanged.
  destruct c as [payload|e|e|]; cbn [fmap option_fmap option_map reraise_used followed_by].
  4: done.
  3: { intros [-> _]. eapply spaced_weaken; [|apply (track_spaced 0), track_nil]. lia. }
  2: { intros (frame & response & Hsent & -> & _ & Heq).
       assert (is_Ok ((response ≫= decodeDirectTcpPayload) ≫= decodeCreateResponse) = false) as Hno
         by (by destruct (response ≫= decodeDirectTcpPayload)).
       destruct (create_failed frame response Hsent Hno) as [Htr Hh].
       exact (create_only_listing frame response e Htr Hh). }
  intros (frame & response & Hsent & -> & Hl & Heq). cbn [app].
  destruct (response ≫= decodeDirectTcpPayload) as [p|e|e|] eqn:Hpay; cbn in Heq; try done.
  apply Ok_inj in Heq as ->. apply pwp_action_bind. unfold lift at 1. cbn [pwp].
  pose proof (wp_payload _ _ _ Hl Hpay) as Hok.
  pose proof (wp_decodeCreateResponse p Hok) as Hwp.
  destruct (decodeCreateResponse p) as [r|e|e|] eqn:Hr; cbn in Hwp;
    cbn [reraise_used followed_by]; [|..|done|done].
  2: { assert (is_Ok ((response ≫= decodeDirectTcpPayload) ≫= decodeCreateResponse) = false) as Hno
         by (by rewrite Hpay; cbn [mbind comp_bind]; rewrite Hr).
       destruct (create_failed frame response Hsent Hno) as [Htr Hh].
       exact (create_only_listing frame response e Htr Hh). }
  pose proof (created_piped frame response p r Hsent Hl Hpay Hr) as Hpiped.
  apply (step_write 1); [lia|done|]. intros _ h2 Hp2.
  apply (step_read 2); [lia|done|]. intros bind h3 Hb3 Hp3.
  apply (step_pipe_lift 3); [lia|done|eapply wp_any; by apply wp_decodeDcerpcBindAck|]. intros _.
  apply pwp_action_bind. unfold lift at 1. cbn [pwp].
  pose proof (wpt_stub serverName) as Hstub.
  destruct (buildNetrShareEnumRequestStub serverName 0xFFFFFFFF None) as [stub|e|e|];
    cbn [followed_by].
  2, 4: by destruct Hstub.
  2: { eapply spaced_weaken; [|apply (track_spaced 3), Hp3]. lia. }
  apply (step_write 3); [lia|done|]. intros _ h4 Hp4.
  apply (step_read 4); [lia|done|]. intros bytes h5 Hb5 Hp5.
  pose proof (wp_decodeDcerpcResponse bytes Hb5) as Hrpc.
  apply step_or_close; [apply Hp5|lia|]. unfold lift at 1. cbn [pwp].
  destruct (decodeDcerpcResponse bytes) as [rpc|e|e|]; cbn in Hrpc;
    [|by apply (piped_broken 5)|done|done].
  apply (step_pipe_lift 5); [lia|done|by apply wp_decodeNetrShareEnumResponseStub|].
  intros enum. by apply step_last.
Qed.
End share_run.

(** Listing shares, whatever a lawful transport answers, ends; its requests
    carry ids from the one it was given, in increasing order; a result reports
    the six messages it took, and a failure all ids it used and at most one
    more; nothing is read out of bounds; and the pipe that was opened is closed,
    unless the caller cancelled just before that, or the name of the server was
    not UTF-8. *)
Theorem share_listing_runs m t s context serverName tr o :
  is_u64 m -> is_u32 t -> is_u64 s ->
  runs (listShares m t s context serverName) tr o -> Forall lawful tr ->
  share_listing m t s context tr o.
Proof.
  intros Hm Ht Hs Hr Hl.
  by apply (pwp_runs _ [] _ tr o (listShares_listing m t s Hm Ht Hs context serverName)).
Qed.

(** The pipe is opened, and then the server is gone. *)
Lemma share_listing_runs_witness :
  let script := take 1 one_file_script in
  let tr := transcript (listShares 7 1 9 plain_context [97]) script in
  runs (listShares 7 1 9 plain_context [97]) tr
    (Some (Err (mkProtocolError ErrorCode_NetworkError "closed" 3))) /\
  share_listing 7 1 9 plain_context tr
    (Some (Err (mkProtocolError ErrorCode_NetworkError "closed" 3))).
Proof.
  intros script tr.
  destruct (transcript_runs (listShares 7 1 9 plain_context [97]) script) as [Hr Hl].
  assert (snd (perform (listShares 7 1 9 plain_context [97]) script)
    = Some (Err (mkProtocolError ErrorCode_NetworkError "closed" 3))) as Ho
    by (vm_compute; reflexivity).
  rewrite Ho in Hr. split; [exact Hr|].
  apply (share_listing_runs 7 1 9 plain_context [97] tr); [ulia..|exact Hr|exact Hl].
Defined.
