(* ===== verification/SessionIds.v ===== *)
(** * Histories of a session

    Server-side copy numbers its messages like the other operations; and so a
    history of session operations uses no message id twice. *)

From S2P Require Export ShareRuns.
Local Open Scope Z_scope.
Local Open Scope comp_scope.

(** *** Server-side copy *)

Lemma strict_ignored {A} (p : sessioned A) : strict p -> strict (ignored p).
Proof.
  intros Hp s Hs. apply pwp_bind. eapply pwp_mono; [by apply Hp|].
  intros h [[s1 c]|] [Hn Ho]; [|by split]. destruct Ho as (? & ? & ? & Hc).
  split; [done|]. split_and!; [done..|]. by destruct c.
Qed.

Lemma strict_or_else {A} (p : sessioned A) cleanup :
  strict p -> strict cleanup -> strict (or_else p cleanup).
Proof.
  intros Hp Hq s Hs. apply pwp_bind. eapply pwp_mono; [by apply Hp|].
  intros h [[s1 c]|] Hi; [|by destruct Hi; split]. destruct c as [a|e|e|]; try done.
  destruct Hi as [Hn (Hs1 & Ht & Hss & Hx)]. apply pwp_bind.
  eapply pwp_mono; [apply pwp_after_nil, Hq, Hs1|]. intros h' o (tr & -> & Ho).
  apply (ids_after_app exact exact s h s1 tr) in Ho;
    [|by intros ? ?; eapply exact_app|by intros ? ?; eapply exact_app|done..].
  destruct o as [[s2 c]|]; [|by destruct Ho; split].
  destruct Ho as [Hn' (? & ? & ? & Hc)]. destruct c; cbn [pwp plain lift prog_bind];
    by split.
Qed.

Section closing.
Context (context : OperationContext).

(** A handle is closed with the next id, and what comes back is ignored. *)
Lemma close_ignoring_exact fileId s h :
  session_ok s ->
  pwp (close_ignoring context fileId s) h (fun h' o =>
    o = Some (advance 1 s, Ok tt) /\
    exists frame response,
      sent (Ok (buildCloseRequest (closeOptions fileId) (nss_nextMessageId s)
                  (nss_treeId s) (nss_sessionId s))) frame /\
      h' = h ++ [(frame, response)]).
Proof using Type.
  intros (Ht & Hs & Hm). unfold close_ignoring, closeFile.
  apply pwp_bind. cbn [allocateMessageIds pwp]. apply pwp_bind. unfold run_at, plain.
  apply pwp_bind, pwp_action_bind, pwp_reraised. eapply pwp_mono.
  { apply (exchanger_exact _ _ _ _ _ (on_close _ _ _ _) (cleanupContext context) "close"
      decodeCloseResponse); [|done].
    intros data Hd. eapply wp_any. by apply wp_decodeCloseResponse. }
  intros h' [c|]; [|done]. cbn [outcome]. unfold exchanged.
  destruct c as [r|e|e|]; cbn [fmap option_fmap option_map reraise followed_by].
  - intros (frame & response & Hsent & -> & _). split; [done|]. by exists frame, response.
  - intros (frame & response & Hsent & -> & _). split; [done|]. by exists frame, response.
  - intros [_ Hno]. destruct (encode_close (nss_nextMessageId s) (nss_treeId s)
      (nss_sessionId s) fileId Hm Ht Hs) as [frame Hf]. by destruct (Hno frame).
  - done.
Qed.

Lemma strict_close_ignoring fileId : strict (close_ignoring context fileId).
Proof using Type.
  intros s Hs. eapply pwp_mono; [by apply close_ignoring_exact|].
  intros h o (-> & frame & response & Hsent & ->). pose proof Hs as (Ht & Hsid & Hm). split.
  - eapply (numbered_snoc _ _ _ [] 0); [done|done|apply numbered_nil|done| |exact Hsent].
    rewrite Z.add_0_r, u64_small by done. apply on_close.
  - split_and!; [by apply advance_ok|done..].
Qed.
End closing.

Section copy_ids.
Context (context : OperationContext).

Lemma strict_copy_unless_cancelled {A} (p : sessioned A) :
  strict p -> strict (copy_unless_cancelled context p).
Proof using Type.
  intros Hp. apply strict_bind; [apply strict_isCancelled|].
  intros []; [apply strict_failure|done].
Qed.

(** Reads inside a buffer succeed, whatever the buffer holds. *)
Lemma read_u8_inside data off :
  0 <= off < blen data -> exists v, read_u8 data off = Ok v.
Proof using Type.
  intros Hoff. unfold read_u8, blen in *. rewrite decide_True by lia.
  destruct (lookup_lt_is_Some_2 data (Z.to_nat off)) as [b Hb]; [lia|]. rewrite Hb. eauto.
Qed.

Lemma readU32Le_inside data off :
  0 <= off -> off + 4 <= blen data -> exists v, readU32Le data off = Ok v.
Proof using Type.
  intros H0 H4. unfold readU32Le.
  destruct (read_u8_inside data off) as [b0 ->]; [lia|].
  destruct (read_u8_inside data (off + 1)) as [b1 ->]; [lia|].
  destruct (read_u8_inside data (off + 2)) as [b2 ->]; [lia|].
  destruct (read_u8_inside data (off + 3)) as [b3 ->]; [lia|]. cbn. eauto.
Qed.

Lemma decodeSrvCopyChunkResponse_in_bounds data :
  decodeSrvCopyChunkResponse data <> OutOfBounds.
Proof using Type.
  unfold decodeSrvCopyChunkResponse. case_if; bools; [done|].
  destruct (readU32Le_inside data 0) as [v0 ->]; [lia..|].
  destruct (readU32Le_inside data 4) as [v4 ->]; [lia..|].
  destruct (readU32Le_inside data 8) as [v8 ->]; [lia..|]. done.
Qed.

Lemma strict_copy_loop fuel key target size offset :
  strict (copy_loop context fuel key target size offset).
Proof using Type.
  revert offset. induction fuel as [|fuel IH]; intros offset; cbn [copy_loop].
  { intros s Hs. split; [apply numbered_nil|done]. }
  case_if; [|apply strict_mret]. apply strict_copy_unless_cancelled, strict_bind.
  { apply strict_lift. unfold buildSrvCopyChunkRequest. by repeat case_if. }
  intros input. apply strict_bind; [apply strict_ioctl|]. intros copied.
  apply strict_bind.
  { apply strict_lift. pose proof (decodeSrvCopyChunkResponse_in_bounds (ior_output copied)).
    by destruct (decodeSrvCopyChunkResponse _). }
  intros parsed. case_if; [apply strict_failure|]. apply strict_bind; [|intros _; apply IH].
  intros s Hs. case_if; by apply ids_nil.
Qed.

Lemma strict_copyFileServerSide source target size :
  strict (copyFileServerSide context source target size).
Proof using Type.
  apply strict_copy_unless_cancelled, strict_bind; [apply strict_openFile|]. intros src.
  apply strict_bind.
  { apply strict_or_else; [|apply strict_close_ignoring].
    apply strict_copy_unless_cancelled, strict_openFile. }
  intros tgt.
  assert (strict (close_ignoring context (crr_fileId tgt);;
    close_ignoring context (crr_fileId src))) as Hclose.
  { apply strict_bind; [|intros _]; apply strict_close_ignoring. }
  apply strict_bind; [case_if; [apply strict_mret|]|].
  - apply strict_or_else; [|done]. apply strict_bind; [apply strict_ioctl|]. intros resume.
    case_if; [apply strict_failure|apply strict_copy_loop].
  - intros _. apply strict_bind; [done|intros _; apply strict_mret].
Qed.
End copy_ids.

(** ** Operations and histories *)

(** The operations of [NativeSmbSession], with the loops of the listings and
    the recursion of the deletions cut at [fuel]. *)
Inductive session_operation (context : OperationContext)
    : forall A, sessioned A -> Prop :=
| so_list fuel path : session_operation context _ (listDirectory context fuel path)
| so_read path length offset :
    session_operation context _ (readFileOnce context path length offset)
| so_open path : session_operation context _ (openFileForRead context path)
| so_chunk fileId length offset :
    is_u32 length -> session_operation context _ (readFileChunk context fileId length offset)
| so_close fileId : session_operation context _ (closeFileHandle context fileId)
| so_write path data offset :
    session_operation context _ (writeFileOnce context path data offset)
| so_stat path : session_operation context _ (statObject context path)
| so_set_basic path info :
    session_operation context _ (session_setBasicInformation context path info)
| so_list_attributes path :
    session_operation context _ (session_listExtendedAttributes context path)
| so_set_attributes path entries :
    session_operation context _ (session_setExtendedAttributes context path entries)
| so_remove_attribute path name :
    session_operation context _ (session_removeExtendedAttribute context path name)
| so_query_security path information :
    session_operation context _ (session_querySecurityDescriptor context path information)
| so_set_security path information descriptor :
    session_operation context _
      (session_setSecurityDescriptor context path information descriptor)
| so_create_directory path :
    session_operation context _ (session_createDirectory context path)
| so_delete path directory :
    session_operation context _ (session_deleteObject context path directory)
| so_delete_tree fuel path :
    session_operation context _ (session_deleteTree context fuel path)
| so_delete_wildcard fuel parent pattern :
    session_operation context _ (session_deleteWildcard context fuel parent pattern)
| so_rename from to replace :
    session_operation context _ (session_renameObject context from to replace)
| so_hard_link existing link replace :
    session_operation context _ (session_createHardLink context existing link replace)
| so_symbolic_link link target directory relative :
    session_operation context _
      (session_createSymbolicLink context link target directory relative)
| so_copy source target size :
    session_operation context _ (copyFileServerSide context source target size)
| so_watch path filter tree :
    session_operation context _ (watchDirectoryOnce context path filter tree)
| so_list_shares serverName :
    session_operation context _ (session_listShares context serverName)
| so_get_referrals requestPath :
    session_operation context _ (session_getDfsReferrals context requestPath).

(** A result after which the session can be used on: a value, or a failure
    that was neither a cancellation nor a refused query or CLOSE. *)
Definition settled {A} (context : OperationContext) (h : list message) (c : comp A) : Prop :=
  match c with
  | Ok _ => True
  | Err _ => uncancellable context /\ calm h
  | _ => False
  end.

(** The message ids of requests. *)
Definition message_ids (h : list message) : list Z :=
  omap (fun msg => hdr_messageId <$> frameHeader (fst msg)) h.

(** Ids [m + o] for different offsets [o] below [n]. *)
Definition ids_below (m n : Z) (ids : list Z) : Prop :=
  exists offsets, NoDup offsets /\ Forall (fun o => 0 <= o < n) offsets /\
    ids = (fun o => u64 (m + o)) <$> offsets.

Lemma numbered_ids m t s h :
  numbered m t s h -> message_ids h = (fun i => u64 (m + Z.of_nat i)) <$> seq 0 (length h).
Proof.
  induction h as [|[frame response] h IH] using rev_ind; intros Hn; [done|].
  unfold message_ids in *. rewrite omap_app, length_app, seq_app, fmap_app, IH.
  - assert ((h ++ [(frame, response)]) !! length h = Some (frame, response)) as Hlast
      by (by rewrite lookup_app_r, Nat.sub_diag).
    destruct (Hn _ _ _ Hlast) as (command & msg & hd & Henc & Hdec & Hc & Hid & _).
    f_equal. cbn. unfold frameHeader.
    destruct (decode_frame _ _ [] Henc) as (_ & Hpay & _). rewrite app_nil_r in Hpay.
    by rewrite Hpay, Hdec; cbn; rewrite Hid.
  - intros i f r Hi. apply (Hn i f r). by apply lookup_app_l_Some.
Qed.

Lemma numbered_below m t s h n :
  numbered m t s h -> Z.of_nat (length h) <= n -> ids_below m n (message_ids h).
Proof.
  intros Hn Hl. exists (Z.of_nat <$> seq 0 (length h)). split_and!.
  - apply NoDup_fmap_2; [apply _|apply NoDup_seq].
  - apply Forall_fmap, Forall_forall. intros i Hi%elem_of_seq. simpl. lia.
  - rewrite <- list_fmap_compose. by eapply numbered_ids.
Qed.

Lemma ids_below_app m n n' ids ids' :
  0 <= n -> 0 <= n' -> ids_below m n ids -> ids_below (u64 (m + n)) n' ids' ->
  ids_below m (n + n') (ids ++ ids').
Proof.
  intros Hn Hn' (o & Hd & Ho & ->) (o' & Hd' & Ho' & ->).
  exists (o ++ (Z.add n <$> o')). rewrite Forall_forall in Ho, Ho'. split_and!.
  - apply NoDup_app. split_and!; [done| |apply NoDup_fmap_2; [|done]].
    + intros x Hx (y & -> & Hy)%list_elem_of_fmap. specialize (Ho _ Hx). specialize (Ho' _ Hy).
      lia.
    + intros x y H. lia.
  - apply Forall_app. split; apply Forall_forall.
    + intros x Hx. specialize (Ho _ Hx). lia.
    + intros x (y & -> & Hy)%list_elem_of_fmap. specialize (Ho' _ Hy). lia.
  - rewrite fmap_app, <- list_fmap_compose. f_equal. apply list_fmap_ext. intros _ x _. simpl.
    by rewrite u64_add_l, Z.add_assoc.
Qed.

Lemma ids_below_NoDup m n ids : n <= 2 ^ 64 -> ids_below m n ids -> NoDup ids.
Proof.
  intros Hn (o & Hd & Ho & ->). rewrite Forall_forall in Ho.
  apply NoDup_fmap_2_strong; [|done]. intros x y Hx Hy. unfold u64. intros Heq.
  specialize (Ho _ Hx) as Hx'. specialize (Ho _ Hy) as Hy'.
  assert ((m + x) - (m + y) = 2 ^ 64 * ((m + x) / 2 ^ 64 - (m + y) / 2 ^ 64)).
  { rewrite (Z.div_mod (m + x) (2 ^ 64)), (Z.div_mod (m + y) (2 ^ 64)) at 1 by lia.
    rewrite Heq. ring. }
  nia.
Qed.

(** What an operation that settled did with the ids: those of its messages are
    different ones of the [n] it took. *)
Definition ids_taken (s : NativeSmbSession) (h : list message) (s' : NativeSmbSession) : Prop :=
  session_ok s' /\ nss_treeId s' = nss_treeId s /\ nss_sessionId s' = nss_sessionId s /\
  exists n, took n s s' /\ Z.of_nat (length h) <= n <= Z.of_nat (length h) + 65536 /\
    length (message_ids h) = length h /\ ids_below (nss_nextMessageId s) n (message_ids h).

Definition takes_ids (context : OperationContext) {A} (p : sessioned A) : Prop :=
  forall s, session_ok s -> pwp (p s) [] (fun h o =>
    forall s' c, o = Some (s', c) -> settled context h c -> ids_taken s h s').

Lemma loose_takes_ids context {A} (p : sessioned A) : loose context p -> takes_ids context p.
Proof.
  intros Hp s Hs. eapply pwp_mono; [by apply Hp|]. intros h o [Hn Ho] s' c -> Hset.
  destruct Ho as (Hs' & Ht & Hi & Hc).
  assert (covered s h s') as (n & Hn' & Hr) by (destruct c; [done|by apply Hc; apply Hset|done..]).
  split_and!; [done..|]. exists n. split_and!; [done|lia|lia| |].
  - by rewrite (numbered_ids _ _ _ _ Hn), length_fmap, length_seq.
  - eapply numbered_below; [exact Hn|lia].
Qed.

(** *** Share listings and referrals *)

Lemma spaced_ids m t s n h :
  spaced m t s n h -> length (message_ids h) = length h /\ ids_below m n (message_ids h).
Proof.
  intros (os & Ho & Hb & Hf).
  assert (message_ids h = (fun o => u64 (m + o)) <$> os) as Hids.
  { clear Ho Hb. induction Hf as [|o [frame response] os h (command & Ha) _ IH]; [done|].
    destruct Ha as (msg & hd & Henc & Hdec & _ & Hid & _). cbn [fst] in Henc.
    unfold message_ids in *. cbn [omap list_omap fmap list_fmap fst]. rewrite IH.
    assert (frameHeader frame = Some hd) as Hh; [|by rewrite Hh, <- Hid].
    unfold frameHeader. destruct (decode_frame _ _ [] Henc) as (_ & Hpay & _).
    rewrite app_nil_r in Hpay. by rewrite Hpay, Hdec. }
  rewrite Hids, length_fmap. split; [by apply Forall2_length in Hf|].
  exists os. split_and!; [|done..]. clear -Ho.
  induction Ho as [|o os Ho IH Hlt]; constructor; [|done].
  intros Hin. rewrite Forall_forall in Hlt. specialize (Hlt o Hin). lia.
Qed.

(** The ids of a failing or successful operation are counted. *)
Definition counted (m t s n : Z) (h : list message) : Prop :=
  spaced m t s n h /\ Z.of_nat (length h) <= n <= Z.of_nat (length h) + 65536.

Lemma takes_ids_counted {A} (op : operation A) used context :
  (forall m t s, is_u64 m -> is_u32 t -> is_u64 s ->
     pwp (op m t s context) [] (fun h o =>
       match o with
       | Some (Ok a) => counted m t s (used a) h
       | Some (Err e) => counted m t s (err_messagesUsed e) h
       | _ => True
       end)) ->
  takes_ids context (with_counted used err_messagesUsed op context).
Proof.
  intros Hop s Hs. pose proof Hs as (Ht & Hsid & Hm). unfold with_counted. apply pwp_bind.
  eapply pwp_mono; [by apply Hop|]. intros h [c|] Hc; [|done].
  assert (forall n, counted (nss_nextMessageId s) (nss_treeId s) (nss_sessionId s) n h ->
    ids_taken s h (advance n s)) as Htaken.
  { intros n [Hsp Hr]. split; [by apply advance_ok|]. split; [done|]. split; [done|].
    apply spaced_ids in Hsp as [Hl Hb]. by exists n. }
  destruct c as [a|e|e|]; cbn [pwp]; intros s' c' [= <- <-]; cbn [settled];
    [auto|auto|done|done].
Qed.

Lemma takes_ids_listShares context serverName :
  takes_ids context (session_listShares context serverName).
Proof.
  apply takes_ids_counted. intros m t s Hm Ht Hs.
  eapply pwp_mono; [by apply listShares_listing|]. intros h [[r|e|e|]|]; try done.
  - intros (-> & Hl & Hn & _). split; [|rewrite Hl; lia].
    apply numbered_spaced in Hn. by rewrite Hl in Hn.
  - intros (Hsp & Hr & _). split; [done|lia].
Qed.

Lemma takes_ids_getReferrals context requestPath :
  takes_ids context (session_getDfsReferrals context requestPath).
Proof.
  apply takes_ids_counted. intros m t s Hm Ht Hs. unfold getReferrals.
  assert (counted m t s 0 []) as H0.
  { split; [exact (numbered_spaced m t s [] (numbered_nil m t s))|simpl; lia]. }
  apply pwp_cancel_if; [done|]. apply pwp_action_bind. unfold lift at 1. cbn [pwp].
  pose proof (throws_only_bind (encodeUtf16Le requestPath)
    (fun e => Ok (u16Le 3 ++ e ++ u16Le 0)) (throws_only_encodeUtf16Le _)
    (fun _ => throws_only_Ok _)) as Hthrows.
  unfold buildDfsGetReferralRequest. destruct (encodeUtf16Le requestPath ≫= _) as [i|e|e|];
    cbn [followed_by]; [|by destruct (Hthrows e)|done|done].
  apply pwp_action_bind, pwp_failing_with.
  eapply pwp_mono; [apply (exchangePayload_exact _ _ _ _ _ (on_ioctl _ _ _ _))|].
  intros h' [c|]; [|done]. cbn [outcome]. unfold exchanged.
  destruct c as [payload|e|e|]; cbn [fmap option_fmap option_map reraise_used followed_by];
    [..|done|done].
  all: intros (frame & response & Hsent & -> & _); cbn [app].
  all: assert (counted m t s 1 [(frame, response)]) as H1.
  1, 3: split; [|simpl; lia];
    apply (spaced_snoc m t s Ht Hs 0 0 [] Command_Ioctl (buildIoctlRequest (referralOptions i) m t s));
    [done|exact (numbered_spaced m t s [] (numbered_nil m t s))| |done];
    rewrite Z.add_0_r, u64_small by done; apply on_ioctl.
  2: done.
  apply pwp_action_bind. unfold lift at 1. cbn [pwp].
  destruct (decodeIoctlResponse payload) as [r|e|e|]; cbn [reraise_used followed_by]; try done.
  apply pwp_action_bind. unfold lift at 1. cbn [pwp].
  by destruct (decodeDfsReferralResponse (ior_output r)).
Qed.

Lemma session_operation_takes_ids context A (p : sessioned A) :
  session_operation context A p -> takes_ids context p.
Proof.
  intros []; try (by apply loose_takes_ids, loose_readFileChunk);
    try apply takes_ids_listShares; try apply takes_ids_getReferrals;
    apply loose_takes_ids, orderly_loose.
  - apply orderly_listDirectory.
  - eapply orderly_map, orderly_allocated; [intros; apply op_read|done|done].
  - apply orderly_map, strict_orderly, strict_openFile.
  - apply orderly_closeFileHandle.
  - apply orderly_writeFileOnce.
  - apply orderly_statObject.
  - apply orderly_metadata_mutation; intros; [apply op_set_basic|].
    by apply setInformation_counts.
  - apply orderly_map, orderly_used; intros; [apply op_list_attributes|].
    by apply listExtendedAttributes_counts.
  - apply orderly_metadata_mutation; intros; [apply op_set_attributes|].
    apply setInformation_counts; [done|apply throws_only_buildFileFullEaInformation].
  - apply orderly_metadata_mutation; intros; [apply op_remove_attribute|].
    apply setInformation_counts; [done|apply throws_only_buildFileFullEaInformation].
  - apply orderly_map, orderly_used; intros; [apply op_query_security|].
    by apply querySecurityDescriptor_counts.
  - apply orderly_metadata_mutation; intros; [apply op_set_security|].
    by apply setInformation_counts.
  - apply orderly_object_mutation; [lia|intros; apply op_create_directory].
  - apply orderly_deleteObject.
  - apply orderly_deleteTreeInternal.
  - apply orderly_deleteWildcard.
  - apply orderly_object_mutation; [lia|intros; apply op_rename].
  - apply orderly_object_mutation; [lia|intros; apply op_hard_link].
  - apply orderly_object_mutation; [lia|intros; apply op_symbolic_link].
  - apply strict_orderly, strict_copyFileServerSide.
  - eapply orderly_map, orderly_allocated; [intros; apply op_watch|done|done].
Qed.

(** [history n s h s']: [n] operations run one after the other, over a lawful
    transport, exchange the messages [h] and take the session from [s] to
    [s']. *)
Inductive history : nat -> NativeSmbSession -> list message -> NativeSmbSession -> Prop :=
| history_nil s : history 0 s [] s
| history_snoc n context A (p : sessioned A) s h s1 h1 s2 c :
    history n s h s1 -> session_operation context A p ->
    runs (p s1) h1 (Some (s2, c)) -> Forall lawful h1 -> settled context h1 c ->
    history (S n) s (h ++ h1) s2.

(** What a history does with the ids. *)
Lemma history_ids n s h s' :
  history n s h s' -> session_ok s ->
  session_ok s' /\ nss_treeId s' = nss_treeId s /\ nss_sessionId s' = nss_sessionId s /\
  exists taken, took taken s s' /\
    Z.of_nat (length h) <= taken <= Z.of_nat (length h) + 65536 * Z.of_nat n /\
    length (message_ids h) = length h /\
    ids_below (nss_nextMessageId s) taken (message_ids h).
Proof.
  intros Hh Hs. induction Hh as [s|n context A p s h s1 h1 s2 c Hh IH Hop Hr Hl Hset].
  { split_and!; [done..|]. exists 0. split_and!; [|simpl; lia..|done|].
    - unfold took. rewrite Z.add_0_r, u64_small; [done|apply Hs].
    - exists []. by repeat constructor. }
  destruct (IH Hs) as (Hs1 & Ht1 & Hi1 & taken & Htk & Hrange & Hlen & Hids).
  pose proof (session_operation_takes_ids context A p Hop s1 Hs1) as Htakes.
  apply (pwp_runs _ _ _ h1 (Some (s2, c))) in Htakes; [|done..]. cbn [app] in Htakes.
  destruct (Htakes s2 c eq_refl Hset) as (Hs2 & Ht2 & Hi2 & k & Hk & Hkr & Hkl & Hkb).
  split_and!; [done|congruence|congruence|]. exists (taken + k).
  assert (message_ids (h ++ h1) = message_ids h ++ message_ids h1) as -> by apply omap_app.
  split_and!; [by eapply took_add|rewrite length_app; lia..| |].
  - by rewrite !length_app, Hlen, Hkl.
  - apply ids_below_app; [lia..|done|]. by rewrite <- Htk.
Qed.


(** A session lists a directory, and then a stat fails because the server is
    gone. *)
Definition sample_session : NativeSmbSession :=
  newNativeSmbSession (mkNativeSmbSessionConfig 1 9 7).
Definition sample_listing : sessioned NativeDirectoryListing :=
  listDirectory plain_context 5 [97].
Definition sample_stat : sessioned NativeStatResult := statObject plain_context [97].

