(* ===== verification/Wildcard.v ===== *)
(** * Matching names against a pattern

    [wildcardMatches] ([NativeSmbSession.cpp]) decides with one retry position
    whether a name matches a pattern of [*] and [?].  The specification is the
    relation [glob]; the loop terminates, accepts only names that match, and
    accepts all of them that hold no [*] themselves. *)

From S2P Require Export Session.
Local Open Scope Z_scope.

Definition kStar : Z := 0x2A.
Definition kAny : Z := 0x3F.

(** One character of a pattern that is not a star. *)
Definition fits (d c : Z) : Prop := d = kAny \/ lowerAscii d = lowerAscii c.

Inductive glob : bytes -> bytes -> Prop :=
| glob_nil : glob [] []
| glob_star p skipped t : glob p t -> glob (kStar :: p) (skipped ++ t)
| glob_fits d p c t : d <> kStar -> fits d c -> glob p t -> glob (d :: p) (c :: t).
#[export] Hint Constructors glob : smb.

Lemma glob_star_inv p t : glob (kStar :: p) t -> exists k, glob p (drop k t).
Proof.
  inversion 1 as [|? skipped t' Hg|]; subst; [|done]. exists (length skipped).
  by rewrite drop_app_length.
Qed.

Lemma glob_star_drop p t k : glob p (drop k t) -> glob (kStar :: p) t.
Proof. intros Hg. rewrite <- (take_drop k t). by constructor. Qed.

Lemma glob_fits_inv d p c t :
  d <> kStar -> glob (d :: p) (c :: t) -> fits d c /\ glob p t.
Proof. intros Hd. by inversion 1; subst. Qed.

Lemma glob_nil_r p : glob p [] <-> only_stars p = true.
Proof.
  split.
  - remember [] as t eqn:Ht. induction 1 as [|p skipped t' Hg IH|]; try done.
    apply app_eq_nil in Ht as [-> ->]. by apply IH.
  - induction p as [|d p IH]; intros Hs; [constructor|]. cbn in Hs. bools.
    subst d. apply (glob_star p [] []), IH. done.
Qed.

(** A piece of the pattern without stars takes as many characters as it has. *)
Definition star_free (p : bytes) : Prop := Forall (fun d => d <> kStar) p.

Lemma glob_piece piece p t :
  star_free piece -> glob (piece ++ p) t ->
  (length piece <= length t)%nat /\ glob p (drop (length piece) t).
Proof.
  intros Hf. revert t. induction Hf as [|d piece Hd Hf IH]; intros t Hg; [simpl; split; [lia|done]|].
  inversion Hg as [| |? ? c t' _ Hc Hg']; subst; [done|].
  destruct (IH t' Hg') as [Hl Hp]. split; [simpl; lia|done].
Qed.

Section matching.
Context (p t : bytes).

(** What holds at every turn of the loop: the state is sound, the text before
    the retry position is skipped, and if the text has no star, then nothing a
    match needs was given up. *)
Record loop_inv (pi ti : nat) (star : option nat) (retry : nat) : Prop := {
  li_pattern : (pi <= length p)%nat;
  li_retry : (retry <= ti <= length t)%nat;
  li_sound : glob (drop pi p) (drop ti t) -> glob p t;
  li_star :
    match star with
    | None => kStar ∉ t -> glob p t -> glob (drop pi p) (drop ti t)
    | Some s =>
        (s < pi)%nat /\
        (forall k, glob (drop (S s) p) (drop (retry + k) t) -> glob p t) /\
        (kStar ∉ t -> exists piece,
           star_free piece /\ drop (S s) p = piece ++ drop pi p /\
           (retry + length piece = ti)%nat /\
           (glob p t -> exists k, glob (drop (S s) p) (drop (retry + k) t)))
    end
}.

(** How far the loop still can go. *)
Definition turns_left (pi retry : nat) : nat :=
  ((length t - retry) * S (length p) + (length p - pi))%nat.

Lemma lowerAscii_star c : lowerAscii c = kStar -> c = kStar.
Proof using Type. unfold lowerAscii, kStar. case_if; bools; lia. Qed.

Section turn.
Context (pi ti : nat) (star : option nat) (retry : nat).
Context (Hinv : loop_inv pi ti star retry) (c : Z) (Hc : t !! ti = Some c).

Lemma text_left : drop ti t = c :: drop (S ti) t.
Proof using Hc. by apply drop_S. Qed.

Lemma pattern_left d : p !! pi = Some d -> drop pi p = d :: drop (S pi) p.
Proof using Type. apply drop_S. Qed.

Lemma turn_fits d :
  p !! pi = Some d -> fits d c -> loop_inv (S pi) (S ti) star retry.
Proof using Hinv Hc.
  intros Hd Hfit. pose proof (pattern_left d Hd) as Hp. pose proof text_left as Ht.
  destruct Hinv as [Hpi Hri Hs Hst].
  apply lookup_lt_Some in Hd as Hlt. apply lookup_lt_Some in Hc as Hlt'.
  assert (kStar ∉ t -> d <> kStar) as Hnot.
  { intros Hno ->. destruct Hfit as [Hf|Hf]; [done|].
    symmetry in Hf. change (lowerAscii kStar) with kStar in Hf. apply lowerAscii_star in Hf as ->.
    apply Hno. by eapply list_elem_of_lookup_2. }
  split; [lia|lia| |].
  - intros Hg. apply Hs. rewrite Hp, Ht. destruct (decide (d = kStar)) as [->|Hne].
    + by apply (glob_star _ [c]).
    + by constructor.
  - rewrite Hp, Ht in Hst. destruct star as [s|].
    + destruct Hst as (Hlt'' & Hall & Hcomp). split; [lia|]. split; [done|].
      intros Hno. destruct (Hcomp Hno) as (piece & Hf & Heq & Hlen & Hex).
      exists (piece ++ [d]). split_and!.
      * apply Forall_app. split; [done|]. by apply Forall_singleton, Hnot.
      * by rewrite Heq, <- app_assoc.
      * rewrite length_app. simpl. lia.
      * done.
    + intros Hno Hg. by apply (glob_fits_inv d _ c _ (Hnot Hno)), Hst.
Qed.

Lemma turn_star : p !! pi = Some kStar -> loop_inv (S pi) ti (Some pi) ti.
Proof using Hinv.
  intros Hd. pose proof (pattern_left kStar Hd) as Hp.
  destruct Hinv as [Hpi Hri Hs Hst]. apply lookup_lt_Some in Hd as Hlt.
  split; [lia|lia| |].
  - intros Hg. apply Hs. rewrite Hp. by apply (glob_star _ []).
  - split; [lia|]. split.
    + intros k Hg. apply Hs. rewrite Hp. apply (glob_star_drop _ _ k). by rewrite drop_drop.
    + intros Hno. exists []. split_and!; [constructor|done|simpl; lia|]. intros Hg.
      destruct star as [s|].
      * destruct Hst as (_ & _ & Hcomp). destruct (Hcomp Hno) as (piece & Hf & Heq & Hlen & Hex).
        destruct (Hex Hg) as [k Hk]. rewrite Heq in Hk.
        apply glob_piece in Hk as [_ Hk]; [|done]. rewrite drop_drop, Hp in Hk.
        apply glob_star_inv in Hk as [k' Hk]. rewrite drop_drop in Hk.
        exists (k + k')%nat. by replace (ti + (k + k'))%nat
          with (retry + k + length piece + k')%nat by lia.
      * specialize (Hst Hno Hg). rewrite Hp in Hst. apply glob_star_inv in Hst as [k Hk].
        rewrite drop_drop in Hk. by exists k.
Qed.

Definition head_fits : Prop :=
  match p !! pi with Some d => d = kStar \/ fits d c | None => False end.

Lemma no_match : ~ head_fits -> ~ glob (drop pi p) (drop ti t).
Proof using Hc.
  unfold head_fits. rewrite text_left. destruct (p !! pi) as [d|] eqn:Hd.
  - rewrite (pattern_left d Hd). intros Hno Hg. apply Hno. left.
    destruct (decide (d = kStar)) as [|Hne]; [done|].
    destruct Hno. right. by apply (glob_fits_inv d _ c _ Hne) in Hg as [? _].
  - apply lookup_ge_None in Hd. rewrite drop_ge by lia. intros _. by inversion 1.
Qed.

Lemma turn_retry s :
  star = Some s -> ~ head_fits -> loop_inv (S s) (S retry) (Some s) (S retry).
Proof using Hinv Hc.
  intros Hstar Hno. apply no_match in Hno. destruct Hinv as [Hpi Hri Hs Hst]. subst star.
  destruct Hst as (Hlt & Hall & Hcomp). apply lookup_lt_Some in Hc as Hlt'.
  split; [lia|lia| |].
  - intros Hg. apply (Hall 1%nat). by rewrite Nat.add_1_r.
  - split; [lia|]. split.
    + intros k Hg. apply (Hall (S k)). by rewrite <- Nat.add_succ_comm.
    + intros Hns. destruct (Hcomp Hns) as (piece & Hf & Heq & Hlen & Hex).
      exists []. split_and!; [constructor|done|simpl; lia|]. intros Hg.
      destruct (Hex Hg) as [[|k] Hk].
      * rewrite Heq in Hk. apply glob_piece in Hk as [_ Hk]; [|done].
        rewrite drop_drop in Hk. destruct Hno.
        by replace ti with (retry + 0 + length piece)%nat by lia.
      * exists k. by rewrite Nat.add_succ_comm.
Qed.

Lemma turn_fails : star = None -> ~ head_fits -> kStar ∉ t -> ~ glob p t.
Proof using Hinv Hc.
  intros -> Hno Hns Hg. apply no_match in Hno. apply Hno. by apply (li_star _ _ _ _ Hinv).
Qed.
End turn.

(** At the end of the text the rest of the pattern decides. *)
Lemma at_end pi ti star retry :
  loop_inv pi ti star retry -> t !! ti = None -> kStar ∉ t ->
  glob p t -> glob (drop pi p) [].
Proof using Type.
  intros [Hpi Hri Hs Hst] Hend Hns Hg. apply lookup_ge_None in Hend.
  assert (ti = length t) as -> by lia. destruct star as [s|].
  - destruct Hst as (_ & _ & Hcomp). destruct (Hcomp Hns) as (piece & Hf & Heq & Hlen & Hex).
    destruct (Hex Hg) as [k Hk]. rewrite Heq in Hk. apply glob_piece in Hk as [Hl Hk]; [|done].
    rewrite length_drop in Hl. rewrite drop_drop, (drop_ge t) in Hk by lia. done.
  - specialize (Hst Hns Hg). by rewrite (drop_ge t) in Hst by lia.
Qed.
End matching.

(** The loop from a state: it ends, and with the answer. *)
Definition loop_answers (p t : bytes) (r : option nat) : Prop :=
  match r with
  | None => kStar ∉ t -> ~ glob p t
  | Some pi => (glob (drop pi p) [] -> glob p t) /\
               (kStar ∉ t -> glob p t -> glob (drop pi p) [])
  end.

Lemma wildcard_loop_answers p t fuel pi ti star retry :
  loop_inv p t pi ti star retry -> (turns_left p t pi retry < fuel)%nat ->
  exists r, wildcard_loop fuel p t pi ti star retry = Some r /\ loop_answers p t r.
Proof.
  revert pi ti star retry. induction fuel as [|fuel IH]; intros pi ti star retry Hinv Hf; [lia|].
  unfold turns_left in *. pose proof (li_retry _ _ _ _ _ _ Hinv) as Hri.
  pose proof (li_pattern _ _ _ _ _ _ Hinv) as Hpi. cbn [wildcard_loop].
  destruct (t !! ti) as [c|] eqn:Hc.
  2: { exists (Some pi). split; [done|]. split.
    - apply lookup_ge_None in Hc. intros Hg. apply (li_sound _ _ _ _ _ _ Hinv).
      by rewrite (drop_ge t) by lia.
    - intros. by eapply at_end. }
  apply lookup_lt_Some in Hc as Hlt.
  destruct (p !! pi) as [d|] eqn:Hd; cbn [negb].
  1: apply lookup_lt_Some in Hd as Hlt';
     destruct ((d =? 0x3F) || (lowerAscii d =? lowerAscii c)) eqn:Hsame.
  - apply IH; [|lia]. eapply turn_fits; [done|done|exact Hd|].
    unfold fits, kAny. bools. lia.
  - destruct (d =? 0x2A) eqn:Hs; bools.
    + subst d. apply IH; [by eapply turn_star|]. nia.
    + assert (~ head_fits p pi c) as Hno.
      { unfold head_fits. rewrite Hd. unfold fits, kStar, kAny. lia. }
      destruct star as [s|].
      * apply IH; [by eapply turn_retry|]. nia.
      * exists None. split; [done|]. exact (turn_fails p t pi ti None retry Hinv c Hc eq_refl Hno).
  - assert (~ head_fits p pi c) as Hno by (unfold head_fits; rewrite Hd; tauto).
    destruct star as [s|].
    + apply IH; [by eapply turn_retry|]. nia.
    + exists None. split; [done|]. exact (turn_fails p t pi ti None retry Hinv c Hc eq_refl Hno).
Qed.

(** The result and what it means. *)
Lemma wildcardMatches_spec pattern text :
  exists answer, wildcardMatches pattern text = Some answer /\
    (answer = true -> glob pattern text) /\
    (kStar ∉ text -> glob pattern text -> answer = true).
Proof.
  assert (loop_inv pattern text 0 0 None 0) as Hinv by (split; [lia..|done|done]).
  destruct (wildcard_loop_answers pattern text (wildcard_fuel pattern text) 0 0 None 0 Hinv)
    as (r & Hr & Ha).
  { unfold turns_left, wildcard_fuel. nia. }
  unfold wildcardMatches. rewrite Hr. destruct r as [pi|].
  - exists (only_stars (drop pi pattern)). destruct Ha as [Hs Hc]. split; [done|]. split.
    + intros Ho. by apply Hs, glob_nil_r.
    + intros Hns Hg. by apply glob_nil_r, Hc.
  - exists false. split; [done|]. split; [done|]. intros Hns Hg. by destruct (Ha Hns).
Qed.

(** C31: [wildcardMatches] ends on every pattern and name; it accepts only
    names the pattern matches, ignoring ASCII case, and all of those without a
    star: on the names a Windows server can list it decides [glob]. *)
Theorem wildcardMatches_glob pattern text :
  exists answer, wildcardMatches pattern text = Some answer /\
    (answer = true -> glob pattern text) /\
    (kStar ∉ text -> glob pattern text -> answer = true).
Proof. apply wildcardMatches_spec. Qed.

(** The exception: a star in the name takes the star of the pattern. *)
Lemma wildcardMatches_star_in_name :
  glob [0x2A; 0x62] [0x2A; 0x61; 0x62] /\
  wildcardMatches [0x2A; 0x62] [0x2A; 0x61; 0x62] = Some false.
Proof.
  split; [|vm_compute; reflexivity]. apply (glob_star [0x62] [0x2A; 0x61] [0x62]).
  apply glob_fits; [done|by right|constructor].
Qed.
