(* ===== verification/RemoteTree.v ===== *)
(** * Recursive deletion on a tree

    [deleteTreeInternal] and [deleteWildcard] are written against the interface
    [RemoteStore].  Here the interface is implemented by a remote file system,
    a map from paths to kinds of objects whose listings name the children of a
    directory after [.] and [..] and which deletes only what exists, under its
    kind, and a directory only when it is empty.  On such a store, recursive
    deletion ends, succeeds and removes exactly the subtree, and never goes
    through a reparse point; deletion by pattern removes exactly the children
    that match, with their subtrees. *)

From S2P Require Export Wildcard.
From stdpp Require Export gmap.
Local Open Scope Z_scope.

(** ** Paths *)

(** [base p ++ n] is the path of the child [n] of [p]; the root is [[]]. *)
Definition base (p : bytes) : bytes :=
  match p with [] => [] | _ => p ++ [kBackslash] end.

(** A name that a directory can hold. *)
Definition valid_name (n : bytes) : Prop :=
  n <> [] /\ Forall (fun c => c <> kBackslash /\ c <> 0x2F /\ c <> kStar) n /\
  isDotEntry n = false.
#[export] Instance valid_name_dec n : Decision (valid_name n).
Proof. unfold valid_name. apply _. Defined.

(** [q] lies below [p]. *)
Definition below (p q : bytes) : Prop := base p `prefix_of` q.

(** A path that does not end in a separator. *)
Definition plain_path (p : bytes) : Prop :=
  forall c, last p = Some c -> c <> kBackslash /\ c <> 0x2F.

Lemma base_cons p : p <> [] -> base p = p ++ [kBackslash].
Proof. by destruct p. Qed.

Lemma joinRemotePath_base p n : plain_path p -> joinRemotePath p n = base p ++ n.
Proof.
  intros Hp. unfold joinRemotePath. destruct p as [|c p] using rev_ind; [done|].
  rewrite last_snoc. destruct (Hp c) as [H1 H2]; [by rewrite last_snoc|].
  rewrite base_cons by by destruct p.
  replace ((c =? kBackslash) || (c =? 0x2F)) with false
    by (symmetry; rewrite orb_false_iff, !Z.eqb_neq; done).
  by rewrite <- !app_assoc.
Qed.

Lemma plain_child p n : valid_name n -> plain_path (base p ++ n).
Proof.
  intros (Hne & Hf & _) c Hc. destruct n as [|d n _] using rev_ind; [done|].
  rewrite app_assoc, last_snoc in Hc. injection Hc as ->.
  apply Forall_app in Hf as [_ Hf]. by inversion Hf as [|? ? (? & ? & ?)].
Qed.

Lemma valid_no_backslash n : valid_name n -> kBackslash ∉ n.
Proof.
  intros (_ & Hf & _) Hin. rewrite Forall_forall in Hf. by destruct (Hf _ Hin).
Qed.

Lemma child_nonempty p n : valid_name n -> base p ++ n <> [].
Proof. intros (Hne & _) H. by apply app_eq_nil in H as [_ ->]. Qed.

Lemma below_child p n : below p (base p ++ n).
Proof. by exists n. Qed.

Lemma below_trans p q r : q <> [] -> below p q -> below q r -> below p r.
Proof.
  unfold below. intros Hq Hpq Hqr. etrans; [exact Hpq|]. etrans; [|exact Hqr].
  rewrite base_cons by done. by exists [kBackslash].
Qed.

Lemma not_below_self p : p <> [] -> ~ below p p.
Proof.
  unfold below. intros Hp Hb. apply prefix_length in Hb.
  rewrite base_cons, length_app in Hb by done. simpl in Hb. lia.
Qed.

(** Children of one directory are apart. *)
Lemma siblings_apart p n n' :
  valid_name n -> valid_name n' -> n <> n' ->
  base p ++ n' <> base p ++ n /\ ~ below (base p ++ n) (base p ++ n').
Proof.
  intros Hn Hn' Hne. split; [intros H; by simplify_eq|].
  unfold below. rewrite base_cons by by apply child_nonempty.
  intros [s Hs]. rewrite <- !app_assoc in Hs. simplify_eq.
  apply (valid_no_backslash _ Hn'). apply elem_of_app. right. left.
Qed.

(** ** The remote file system *)

(** An object: a directory or not, a reparse point or not. *)
Record kind : Set := mkKind { k_directory : bool; k_reparse : bool }.
#[export] Instance kind_eq_dec : EqDecision kind.
Proof. solve_decision. Defined.

Definition directory_kind : kind := mkKind true false.

Abbreviation files := (gmap bytes kind).

(** Every object has a valid name, in the root or in a directory that exists. *)
Definition tree_ok (fs : files) : Prop :=
  forall q k, fs !! q = Some k ->
    exists r n, valid_name n /\ q = base r ++ n /\ (r = [] \/ fs !! r = Some directory_kind).

Definition name_in (p q : bytes) : option bytes :=
  if decide (base p = take (length (base p)) q) then
    let n := drop (length (base p)) q in
    if decide (valid_name n) then Some n else None
  else None.

Definition children (fs : files) (p : bytes) : list (bytes * kind) :=
  omap (fun '(q, k) => n ← name_in p q; Some (n, k)) (map_to_list fs).

Definition entry_of (name : bytes) (k : kind) : NativeRemoteEntry :=
  mkNativeRemoteEntry name 0 0 0 0 0 0 0 (k_directory k) (k_reparse k).

Definition stat_of (k : kind) : NativeStatResult :=
  mkNativeStatResult 0 0 0 0 0 0 0 0 (k_directory k) (k_reparse k) false.

(** A program on the file system; [None] is a recursion that was cut. *)
Definition on_files (A : Type) : Type := files -> files * option (comp A).
#[export] Instance on_files_ret : MRet on_files := fun A a fs => (fs, Some (Ok a)).
#[export] Instance on_files_bind : MBind on_files := fun A B f p fs =>
  let '(fs, r) := p fs in
  match r with
  | Some (Ok a) => f a fs
  | Some (Err e) => (fs, Some (Err e))
  | Some (Throw m) => (fs, Some (Throw m))
  | Some OutOfBounds => (fs, Some OutOfBounds)
  | None => (fs, None)
  end.

Definition refuse {A} (code : ErrorCode) (message : string) : on_files A := fun fs =>
  (fs, Some (failure code message)).

Definition files_stat (p : bytes) : on_files NativeStatResult := fun fs =>
  match fs !! p with
  | Some k => (fs, Some (Ok (stat_of k)))
  | None => refuse ErrorCode_FileNotFound "no such object" fs
  end.

Definition files_list (p : bytes) : on_files NativeDirectoryListing := fun fs =>
  if decide (p = [] \/ fs !! p = Some directory_kind) then
    (fs, Some (Ok (mkNativeDirectoryListing
       ([entry_of [0x2E] directory_kind; entry_of [0x2E; 0x2E] directory_kind]
        ++ ((fun '(n, k) => entry_of n k) <$> children fs p)))))
  else refuse ErrorCode_IoError "not a directory" fs.

Definition files_delete (p : bytes) (directory : bool)
    : on_files NativeObjectMutationResult := fun fs =>
  match fs !! p with
  | Some k =>
      if decide (k_directory k = directory) then
        if decide (children fs p = []) then
          (delete p fs, Some (Ok (mkNativeObjectMutationResult p)))
        else refuse ErrorCode_DirectoryNotEmpty "the directory is not empty" fs
      else refuse ErrorCode_IoError "another kind of object" fs
  | None => refuse ErrorCode_FileNotFound "no such object" fs
  end.

#[export] Instance files_store : RemoteStore on_files :=
  Build_RemoteStore on_files (mret false) (fun A => refuse) (fun A fs => (fs, None))
    files_stat files_list files_delete.

(** The file system without [p] and all below it. *)
Definition outside_of (p q : bytes) : Prop := q <> p /\ ~ below p q.
#[export] Instance outside_of_dec p q : Decision (outside_of p q).
Proof. unfold outside_of, below. apply _. Defined.
Definition without (p : bytes) (fs : files) : files :=
  filter (fun kv => outside_of p (fst kv)) fs.

(** ** Facts about trees *)

Lemma lookup_without p fs q k :
  without p fs !! q = Some k <-> fs !! q = Some k /\ outside_of p q.
Proof. apply map_lookup_filter_Some. Qed.

Lemma name_in_Some p q n : name_in p q = Some n <-> valid_name n /\ q = base p ++ n.
Proof.
  unfold name_in. split.
  - case_decide as Hb; [|done]. case_decide as Hn; [|done]. intros [= <-]. split; [done|].
    rewrite Hb at 1. by rewrite take_drop.
  - intros [Hn ->]. rewrite decide_True by by rewrite take_app_length.
    rewrite drop_app_length. by rewrite decide_True.
Qed.

Lemma elem_of_children fs p n k :
  (n, k) ∈ children fs p <-> valid_name n /\ fs !! (base p ++ n) = Some k.
Proof.
  unfold children. rewrite list_elem_of_omap. split.
  - intros ([q k'] & Hin%elem_of_map_to_list & Hq). simpl in Hq.
    destruct (name_in p q) as [n'|] eqn:Hn'; simplify_eq/=.
    apply name_in_Some in Hn' as [Hv ->]. done.
  - intros [Hv Hl]. exists (base p ++ n, k). split; [by apply elem_of_map_to_list|].
    simpl. assert (name_in p (base p ++ n) = Some n) as -> by by apply name_in_Some.
    done.
Qed.

Lemma NoDup_children fs p : NoDup (children fs p).*1.
Proof.
  unfold children. pose proof (NoDup_fst_map_to_list fs) as Hd.
  induction (map_to_list fs) as [|[q k] l IH]; [constructor|].
  apply NoDup_cons in Hd as [Hnot Hd]. simpl.
  destruct (name_in p q) as [n|] eqn:Hn; simpl; [|by apply IH].
  apply NoDup_cons. split; [|by apply IH].
  intros ([n' k'] & -> & Hin)%list_elem_of_fmap. simpl in *.
  apply list_elem_of_omap in Hin as ([q' k2] & Hin & Hq'). simpl in Hq'.
  destruct (name_in p q') as [n2|] eqn:Hn2; simplify_eq/=.
  apply name_in_Some in Hn as [_ ->]. apply name_in_Some in Hn2 as [_ ->].
  apply Hnot, list_elem_of_fmap. by exists (base p ++ n', k').
Qed.

Section tree.
Context (fs : files) (Hok : tree_ok fs).

Lemma tree_plain q k : fs !! q = Some k -> plain_path q /\ q <> [].
Proof using Hok.
  intros Hq. destruct (Hok q k Hq) as (r & n & Hn & -> & _).
  split; [by apply plain_child|by apply child_nonempty].
Qed.

(** A plain path whose base is a prefix of [base r] is [r] or above [r]. *)
Lemma base_prefix p r :
  plain_path r -> base p `prefix_of` base r -> r = p \/ below p r.
Proof using Type.
  intros Hr [s Hs]. destruct (decide (p = [])) as [->|Hp]; [right; by exists r|].
  destruct (decide (r = [])) as [->|Hne]; [by destruct p|].
  rewrite !base_cons in Hs by done. unfold below. rewrite base_cons by done.
  destruct s as [|c s _] using rev_ind.
  - rewrite app_nil_r in Hs. apply app_inj_tail in Hs as [-> _]. by left.
  - rewrite app_assoc in Hs. apply app_inj_tail in Hs as [-> _]. right. by exists s.
Qed.

(** The parent of an object below [p] is [p] or below [p]. *)
Lemma parent_below p r n :
  plain_path r -> valid_name n -> below p (base r ++ n) -> r = p \/ below p r.
Proof using Type.
  intros Hr Hn [s Hs]. apply base_prefix; [done|].
  apply app_eq_inv in Hs as [(l & Hl & Hs)|(l & Hl & Hs)]; [by exists l|].
  (* [base p] would end inside the name *)
  destruct (decide (p = [])) as [->|Hp]; [by exists (base r)|].
  rewrite (base_cons p) in Hl by done.
  destruct l as [|c l _] using rev_ind; [rewrite app_nil_r in Hl|].
  - rewrite (base_cons p) by done. by rewrite Hl.
  - rewrite app_assoc in Hl. apply app_inj_tail in Hl as [_ <-].
    destruct (valid_no_backslash n Hn). rewrite Hs. apply elem_of_app. left.
    apply elem_of_app. right. left.
Qed.

(** Every object below [p] is a child of the directory [p] or below one. *)
Lemma below_first p q k :
  fs !! q = Some k -> below p q ->
  (p <> [] -> fs !! p = Some directory_kind) /\
  exists n k', valid_name n /\ fs !! (base p ++ n) = Some k' /\
    (q = base p ++ n \/ below (base p ++ n) q).
Proof using Hok.
  revert k. induction q as [q IH] using (well_founded_induction
    (Wf_nat.well_founded_ltof _ (@length Z))). intros k Hq Hb.
  destruct (Hok q k Hq) as (r & n & Hn & -> & Hr).
  assert (plain_path r) as Hpr by (destruct Hr as [->|Hr]; [done|by eapply tree_plain]).
  destruct (parent_below p r n Hpr Hn Hb) as [->|Hpb].
  - split; [by destruct Hr|]. exists n, k. split_and!; [done..|by left].
  - destruct (decide (r = [])) as [->|Hne].
    { unfold below in Hpb. apply prefix_nil_inv in Hpb. destruct p; [|done].
      split; [done|]. exists n, k. split_and!; [done..|by left]. }
    destruct Hr as [|Hr]; [done|].
    destruct (IH r) with directory_kind as (Hp & n' & k' & Hn' & Hk' & Hin); [|done|done|].
    { unfold Wf_nat.ltof. rewrite base_cons, !length_app by done. simpl. lia. }
    split; [done|]. exists n', k'. split_and!; [done..|]. right.
    destruct Hin as [->|Hin]; [apply below_child|].
    eapply below_trans; [exact Hne|exact Hin|apply below_child].
Qed.

(** Nothing lies below an object that is not a directory. *)
Lemma nothing_below p k :
  p <> [] -> fs !! p = Some k -> k <> directory_kind ->
  forall q k', fs !! q = Some k' -> ~ below p q.
Proof using Hok.
  intros Hp Hk Hne q k' Hq Hb. destruct (below_first p q k' Hq Hb) as [Hd _].
  specialize (Hd Hp). congruence.
Qed.

Lemma children_nil p k : p <> [] -> fs !! p = Some k -> k <> directory_kind -> children fs p = [].
Proof using Hok.
  intros Hp Hk Hne. destruct (children fs p) as [|[n k'] l] eqn:Hc; [done|].
  assert ((n, k') ∈ children fs p) as [Hn Hl]%elem_of_children by (rewrite Hc; left).
  destruct (nothing_below p k Hp Hk Hne _ _ Hl). apply below_child.
Qed.

(** Removing a subtree leaves a tree. *)
Lemma without_ok p : p <> [] -> tree_ok (without p fs).
Proof using Hok.
  intros Hp q k [Hq [Hne Hnb]]%lookup_without.
  destruct (Hok q k Hq) as (r & n & Hn & -> & Hr). exists r, n. split_and!; [done..|].
  destruct Hr as [->|Hr]; [by left|right]. apply lookup_without. split; [done|]. split.
  - intros ->. apply Hnb, below_child.
  - intros Hb. apply Hnb. eapply below_trans; [|exact Hb|apply below_child].
    by eapply tree_plain.
Qed.
End tree.

Lemma lookup_without_sibling p n n' fs k :
  valid_name n -> valid_name n' -> n <> n' -> fs !! (base p ++ n') = Some k ->
  without (base p ++ n) fs !! (base p ++ n') = Some k.
Proof. intros. apply lookup_without. split; [done|]. by apply siblings_apart. Qed.

(** ** Deleting *)

(** Several subtrees. *)
Definition without_all (l : list bytes) (fs : files) : files := foldl (fun fs p => without p fs) fs l.

Lemma lookup_without_all l fs q k :
  without_all l fs !! q = Some k <-> fs !! q = Some k /\ Forall (fun p => outside_of p q) l.
Proof.
  unfold without_all. revert fs. induction l as [|p l IH]; intros fs; cbn [foldl].
  { rewrite Forall_nil. tauto. }
  rewrite IH, lookup_without, Forall_cons. tauto.
Qed.

(** The subtree at [p] fits into the depth [fuel]. *)
Definition fits_in (fuel : nat) (p : bytes) (fs : files) : Prop :=
  forall q k, fs !! q = Some k -> q = p \/ below p q -> (length q < length p + fuel)%nat.

(** Deleting an object that holds nothing. *)
Lemma delete_leaf p k fs :
  p <> [] -> tree_ok fs -> fs !! p = Some k -> (forall q k', fs !! q = Some k' -> ~ below p q) ->
  files_delete p (k_directory k) fs
  = (without p fs, Some (Ok (mkNativeObjectMutationResult p))).
Proof.
  intros Hp Hok Hk Hno. unfold files_delete. rewrite Hk, decide_True by done.
  rewrite decide_True.
  - f_equal. apply map_eq. intros q. apply option_eq. intros k'.
    rewrite lookup_without, lookup_delete_Some. split.
    + intros [Hne Hq]. split; [done|]. split; [done|]. by eapply Hno.
    + intros [Hq [Hne _]]. done.
  - destruct (children fs p) as [|[n k'] l] eqn:Hc; [done|].
    assert ((n, k') ∈ children fs p) as [Hn Hl]%elem_of_children by (rewrite Hc; left).
    destruct (Hno _ _ Hl). apply below_child.
Qed.

Section deleting.
Context (fuel : nat).
Context (Hsub : forall fs p, tree_ok fs -> p <> [] -> fs !! p = Some directory_kind ->
  fits_in fuel p fs ->
  deleteTreeInternal fuel p fs
  = (without p fs, Some (Ok (mkNativeObjectMutationResult p)))).

Lemma delete_child_files fs p n k :
  tree_ok fs -> plain_path p -> valid_name n -> fs !! (base p ++ n) = Some k ->
  fits_in fuel (base p ++ n) fs ->
  delete_child (deleteTreeInternal fuel) p (entry_of n k) fs
  = (without (base p ++ n) fs, Some (Ok tt)).
Proof using Hsub.
  intros Hok Hp Hn Hk Hfit. pose proof (child_nonempty p n Hn) as Hne.
  unfold delete_child. cbn [entry_of nre_name nre_directory nre_reparsePoint].
  rewrite joinRemotePath_base by done. unfold mbind, on_files_bind.
  destruct (decide (k = directory_kind)) as [->|Hkd].
  - cbn [k_directory k_reparse directory_kind andb negb]. by rewrite Hsub.
  - assert (k_directory k && negb (k_reparse k) = false) as ->
      by (by destruct k as [[] []]).
    change (store_delete (M := on_files) (base p ++ n) (k_directory k) fs)
      with (files_delete (base p ++ n) (k_directory k) fs).
    rewrite delete_leaf by (done || by eapply nothing_below). done.
Qed.

(** Going through children, some of which are wanted. *)
Lemma each_children (f : NativeRemoteEntry -> on_files unit) (wanted : bytes -> bool) p :
  (forall fs n k, tree_ok fs -> valid_name n -> fs !! (base p ++ n) = Some k ->
     fits_in fuel (base p ++ n) fs ->
     f (entry_of n k) fs = (if wanted n then without (base p ++ n) fs else fs, Some (Ok tt))) ->
  forall l fs, tree_ok fs -> NoDup l.*1 ->
  (forall n k, (n, k) ∈ l -> valid_name n /\ fs !! (base p ++ n) = Some k /\
     fits_in fuel (base p ++ n) fs) ->
  each f ((fun '(n, k) => entry_of n k) <$> l) fs
  = (without_all ((fun n => base p ++ n) <$> filter (fun n => wanted n = true) l.*1) fs,
     Some (Ok tt)).
Proof using Type.
  intros Hf l. induction l as [|[n k] l IH]; intros fs Hok Hd Hl; [done|].
  apply NoDup_cons in Hd as [Hnot Hd]. destruct (Hl n k) as (Hn & Hk & Hfit); [by left|].
  cbn [each fmap list_fmap fst]. unfold mbind at 1, on_files_bind at 1.
  rewrite Hf by done. rewrite filter_cons. destruct (wanted n) eqn:Hw.
  - rewrite decide_True by done. cbn [fmap list_fmap]. unfold without_all. cbn [foldl].
    apply IH; [by apply without_ok, child_nonempty|done|].
    intros n' k' Hin. destruct (Hl n' k') as (Hn' & Hk' & Hfit'); [by right|].
    assert (n <> n') as Hne.
    { intros ->. apply Hnot, list_elem_of_fmap. by exists (n', k'). }
    split_and!; [done|by apply lookup_without_sibling|].
    intros q kq [Hq _]%lookup_without. by eapply Hfit'.
  - rewrite decide_False by done. apply IH; [done..|]. intros n' k' Hin. apply Hl. by right.
Qed.

(** The dot entries a listing starts with are skipped. *)
Lemma each_listing (f : NativeRemoteEntry -> on_files unit) l fs :
  each (fun entry => if isDotEntry (nre_name entry) then mret tt else f entry)
    ([entry_of [0x2E] directory_kind; entry_of [0x2E; 0x2E] directory_kind] ++ l) fs
  = each (fun entry => if isDotEntry (nre_name entry) then mret tt else f entry) l fs.
Proof using Type. done. Qed.

Lemma fits_in_child p n fs k :
  valid_name n -> fs !! (base p ++ n) = Some k -> fits_in (S fuel) p fs ->
  fits_in fuel (base p ++ n) fs.
Proof using Type.
  intros Hn Hk Hfit q k' Hq Hin. pose proof (child_nonempty p n Hn) as Hne.
  assert (length (base p ++ n) >= S (length p))%nat as Hlen.
  { rewrite length_app. destruct Hn as [Hnn _]. destruct n; [done|].
    destruct p; simpl; [lia|rewrite length_app; simpl; lia]. }
  assert (below p q) as Hpq.
  { destruct Hin as [->|Hb]; [apply below_child|].
    eapply below_trans; [exact Hne|apply below_child|exact Hb]. }
  pose proof (Hfit q k' Hq (or_intror Hpq)). lia.
Qed.
End deleting.

(** All children gone, nothing is left below. *)
Lemma without_children p fs :
  tree_ok fs -> p <> [] ->
  forall q k, without_all ((fun n => base p ++ n) <$> (children fs p).*1) fs !! q = Some k ->
    ~ below p q.
Proof.
  intros Hok Hp q k [Hq Hall]%lookup_without_all Hb. rewrite Forall_forall in Hall.
  destruct (below_first fs Hok p q k Hq Hb) as (_ & n & k' & Hn & Hk' & Hin).
  assert (base p ++ n ∈ (fun n => base p ++ n) <$> (children fs p).*1) as Hc.
  { apply list_elem_of_fmap. exists n. split; [done|]. apply list_elem_of_fmap.
    exists (n, k'). split; [done|]. by apply elem_of_children. }
  destruct (Hall _ Hc) as [Hne Hnb]. by destruct Hin as [->|].
Qed.

Lemma without_all_ok l fs : Forall (fun p => p <> []) l -> tree_ok fs -> tree_ok (without_all l fs).
Proof.
  unfold without_all. revert fs. induction l as [|p l IH]; intros fs Hl Hok; [done|].
  apply Forall_cons in Hl as [Hp Hl]. cbn [foldl]. by apply IH, without_ok.
Qed.

Lemma filter_all {A} (l : list A) : filter (fun _ => true = true) l = l.
Proof. induction l as [|a l IH]; [done|]. by rewrite filter_cons, decide_True, IH. Qed.

Lemma wanted_children p fs : (fun n => base p ++ n) <$> filter (fun n => (fun _ => true) n = true) (children fs p).*1
  = (fun n => base p ++ n) <$> (children fs p).*1.
Proof. f_equal. apply filter_all. Qed.

Lemma unless_cancelled_files {A} message (p : on_files A) : unless_cancelled message p = p.
Proof. done. Qed.

(** The loop of a deletion whose children are [wanted]. *)
Lemma each_child fuel (f : NativeRemoteEntry -> on_files unit) (wanted : bytes -> bool) p fs :
  (forall fs n k, tree_ok fs -> valid_name n -> fs !! (base p ++ n) = Some k ->
     fits_in fuel (base p ++ n) fs ->
     f (entry_of n k) fs = (if wanted n then without (base p ++ n) fs else fs, Some (Ok tt))) ->
  tree_ok fs -> fits_in (S fuel) p fs ->
  each (fun entry => if isDotEntry (nre_name entry) then mret tt else f entry)
    ([entry_of [0x2E] directory_kind; entry_of [0x2E; 0x2E] directory_kind]
     ++ ((fun '(n, k) => entry_of n k) <$> children fs p)) fs
  = (without_all ((fun n => base p ++ n) <$> filter (fun n => wanted n = true) (children fs p).*1)
       fs, Some (Ok tt)).
Proof.
  intros Hf Hok Hfit. rewrite each_listing. apply (each_children fuel).
  - intros fs' n k Hok' Hn Hk Hfit'. cbn [entry_of nre_name].
    destruct Hn as (Hne & Hfa & Hdot). rewrite Hdot. apply Hf; try done.
  - done.
  - apply NoDup_children.
  - intros n k [Hn Hk]%elem_of_children. split_and!; [done..|]. by eapply fits_in_child.
Qed.

Lemma deleteTree_directory fuel fs p :
  tree_ok fs -> p <> [] -> fs !! p = Some directory_kind -> fits_in fuel p fs ->
  deleteTreeInternal fuel p fs
  = (without p fs, Some (Ok (mkNativeObjectMutationResult p))).
Proof.
  revert fs p. induction fuel as [|fuel IH]; intros fs p Hok Hp Hk Hfit.
  { specialize (Hfit p _ Hk (or_introl eq_refl)). lia. }
  destruct (tree_plain fs Hok p _ Hk) as [Hplain _].
  cbn [deleteTreeInternal]. rewrite decide_False, unless_cancelled_files by done.
  unfold mbind, on_files_bind.
  change (store_stat (M := on_files)) with files_stat.
  change (store_list (M := on_files)) with files_list.
  change (store_delete (M := on_files)) with files_delete.
  unfold files_stat at 1. rewrite Hk. cbn [stat_of directory_kind k_directory k_reparse
    nsr_directory nsr_reparsePoint negb orb].
  unfold files_list at 1. rewrite decide_True by by right. cbn [ndl_entries].
  rewrite (each_child fuel _ (fun _ => true)); [|clear fs Hok Hk Hfit|done|done].
  - rewrite wanted_children.
    set (fs' := without_all _ fs).
    assert (fs' !! p = Some directory_kind) as Hk'.
    { apply lookup_without_all. split; [done|]. apply Forall_fmap, Forall_forall.
      intros n ([n' k'] & -> & [Hn _]%elem_of_children)%list_elem_of_fmap. split; cbn.
      - intros Heq. eapply (not_below_self p); [done|]. rewrite Heq at 2. apply below_child.
      - intros Hb. eapply (not_below_self p); [done|]. eapply below_trans; [|apply below_child|exact Hb].
        by apply child_nonempty. }
    assert (tree_ok fs') as Hok'.
    { apply without_all_ok; [|done]. apply Forall_fmap, Forall_forall.
      intros n ([n' k'] & -> & [Hn _]%elem_of_children)%list_elem_of_fmap.
      by apply child_nonempty. }
    assert (files_delete p true fs' = (without p fs', Some (Ok (mkNativeObjectMutationResult p))))
      as -> by (apply (delete_leaf p directory_kind); try done; by apply without_children).
    f_equal. apply map_eq. intros q. apply option_eq. intros k.
    rewrite !lookup_without. unfold fs'. rewrite lookup_without_all. split; [tauto|].
    intros [Hq Ho]. split; [|done]. split; [done|]. apply Forall_fmap, Forall_forall.
    intros n ([n' k'] & -> & [Hn _]%elem_of_children)%list_elem_of_fmap. cbn. split.
    + intros ->. apply Ho, below_child.
    + intros Hb. apply Ho. eapply below_trans; [|apply below_child|exact Hb].
      by apply child_nonempty.
  - intros fs n k Hok Hn Hk Hfit. rewrite unless_cancelled_files.
    by apply (delete_child_files fuel).
Qed.

Lemma deleteTree_files fuel fs p k :
  tree_ok fs -> fs !! p = Some k -> fits_in fuel p fs ->
  deleteTreeInternal fuel p fs
  = (without p fs, Some (Ok (mkNativeObjectMutationResult p))).
Proof.
  intros Hok Hk Hfit. destruct (tree_plain fs Hok p k Hk) as [_ Hp].
  destruct (decide (k = directory_kind)) as [->|Hkd]; [by apply deleteTree_directory|].
  destruct fuel as [|fuel]; [specialize (Hfit p k Hk (or_introl eq_refl)); lia|].
  cbn [deleteTreeInternal]. rewrite decide_False, unless_cancelled_files by done.
  unfold mbind, on_files_bind. change (store_stat (M := on_files)) with files_stat.
  change (store_delete (M := on_files)) with files_delete.
  unfold files_stat at 1. rewrite Hk. cbn [stat_of nsr_directory nsr_reparsePoint].
  assert (negb (k_directory k) || k_reparse k = true) as -> by (by destruct k as [[] []]).
  apply delete_leaf; try done. by eapply nothing_below.
Qed.


(** Deletion by pattern removes exactly the children of the directory that
    match the pattern, each with its subtree. *)
Theorem deleteWildcard_removes_matches fuel fs parent pattern :
  tree_ok fs -> parent = [] \/ fs !! parent = Some directory_kind -> pattern <> [] ->
  fits_in (S fuel) parent fs ->
  exists fs', deleteWildcard fuel parent pattern fs
    = (fs', Some (Ok (mkNativeObjectMutationResult (joinRemotePath parent pattern)))) /\
    forall q k, fs' !! q = Some k <->
      fs !! q = Some k /\
      forall n kn, valid_name n -> fs !! (base parent ++ n) = Some kn -> glob pattern n ->
        q <> base parent ++ n /\ ~ below (base parent ++ n) q.
Proof.
  intros Hok Hparent Hpat Hfit.
  assert (plain_path parent) as Hplain.
  { destruct Hparent as [->|Hp]; [done|]. by eapply tree_plain. }
  eexists. split.
  - unfold deleteWildcard. rewrite decide_False, unless_cancelled_files by done.
    unfold mbind, on_files_bind. change (store_list (M := on_files)) with files_list.
    unfold files_list at 1. rewrite decide_True by done. cbn [ndl_entries].
    rewrite (each_child fuel _ (fun n => bool_decide (wildcardMatches pattern n = Some true)));
      [done|clear fs Hok Hparent Hfit|done|done].
    intros fs n k Hok Hn Hk Hfit. cbn [entry_of nre_name].
    destruct (wildcardMatches_spec pattern n) as ([] & Ha & _); rewrite Ha.
    + rewrite bool_decide_true, unless_cancelled_files by done.
      by apply (delete_child_files fuel); [intros; apply deleteTree_directory|..].
    + by rewrite bool_decide_false.
  - intros q k. rewrite lookup_without_all, Forall_fmap, Forall_forall.
    apply and_iff_compat_l. split.
    + intros Hall n kn Hn Hkn Hg. apply (Hall n). apply list_elem_of_filter.
      destruct (wildcardMatches_spec pattern n) as (answer & Ha & _ & Hcomplete). split.
      * apply bool_decide_eq_true. rewrite Ha. f_equal. apply Hcomplete; [|done].
        destruct Hn as (_ & Hf & _). rewrite Forall_forall in Hf. intros Hin.
        by destruct (Hf _ Hin) as (_ & _ & ?).
      * apply list_elem_of_fmap. exists (n, kn). split; [done|]. by apply elem_of_children.
    + intros Hall n [Hm%bool_decide_eq_true Hin]%list_elem_of_filter.
      apply list_elem_of_fmap in Hin as ([n' kn] & -> & [Hn Hkn]%elem_of_children).
      cbn in *. apply (Hall n' kn Hn Hkn).
      destruct (wildcardMatches_spec pattern n') as (answer & Ha & Hsound & _).
      apply Hsound. congruence.
Qed.

(** A directory [a] with a file [b] and a link [l], and a file [c]. *)
Definition sample_files : files :=
  list_to_map [([0x61], directory_kind); ([0x61; 0x5C; 0x62], mkKind false false);
               ([0x61; 0x5C; 0x6C], mkKind true true); ([0x63], mkKind false false)].

Lemma sample_files_cases q k :
  sample_files !! q = Some k ->
  (q = [0x61] /\ k = directory_kind) \/ q = [0x61; 0x5C; 0x62] \/ q = [0x61; 0x5C; 0x6C] \/
  q = [0x63].
Proof.
  unfold sample_files. cbn [list_to_map foldr fst snd].
  repeat (rewrite lookup_insert_Some; intros [[<- <-]|[_ H]]; [tauto|revert H]). done.
Qed.

Lemma sample_files_ok : tree_ok sample_files.
Proof.
  assert (forall n, bool_decide (valid_name n) = true -> valid_name n) as Hv
    by (intros n; apply bool_decide_eq_true_1).
  intros q k [[-> _]|[->|[->| ->]]]%sample_files_cases.
  - exists [], [0x61]. split_and!; [by apply Hv|done|by left].
  - exists [0x61], [0x62]. split_and!; [by apply Hv|done|by right].
  - exists [0x61], [0x6C]. split_and!; [by apply Hv|done|by right].
  - exists [], [0x63]. split_and!; [by apply Hv|done|by left].
Qed.

Lemma sample_files_fit p : fits_in 4 p sample_files.
Proof.
  intros q k Hq _. apply sample_files_cases in Hq as [[-> _]|[->|[->| ->]]]; simpl; lia.
Qed.


Lemma deleteWildcard_removes_matches_witness :
  exists fs', deleteWildcard 3 [] [0x2A; 0x43] sample_files
    = (fs', Some (Ok (mkNativeObjectMutationResult [0x2A; 0x43]))) /\
    fs' !! [0x63] = None.
Proof.
  destruct (deleteWildcard_removes_matches 3 sample_files [] [0x2A; 0x43] sample_files_ok)
    as (fs' & Hd & Hl); [left; reflexivity|discriminate|apply sample_files_fit|].
  exists fs'. split; [exact Hd|].
  destruct (fs' !! [0x63]) as [k|] eqn:Hk; [|reflexivity].
  apply Hl in Hk as (_ & Hb). destruct (Hb [0x63] (mkKind false false)) as [Hne _].
  - apply (bool_decide_eq_true_1 (valid_name [0x63])). reflexivity.
  - reflexivity.
  - apply (glob_star [0x43] [] [0x63]), glob_fits; [discriminate|right; reflexivity|constructor].
  - destruct Hne. reflexivity.
Defined.
