(* ===== verification/ServerCopy.v ===== *)
(** * Server-side copy

    [NativeSmbSession::copyFileServerSide] opens two files, asks for a resume
    key and copies chunk by chunk until the offset reaches the size.  The loop
    ends because every accepted answer copies at least one byte; on success the
    chunks tile the file, and whatever happens short of an exception, every
    handle that was opened is closed, in the reverse order. *)

From S2P Require Export SessionIds.
Local Open Scope Z_scope.
Local Open Scope comp_scope.

(** ** Exchanges of the session *)

Lemma reraise_idemp {A} (c : comp A) : reraise (reraise c) = reraise c.
Proof. by destruct c. Qed.

Lemma exchanged_reraise {A} request (decode : bytes -> comp A) h h' c :
  exchanged request decode h h' c -> exchanged request decode h h' (reraise c).
Proof.
  unfold exchanged. destruct c as [a|e|e|]; cbn [reraise]; try done.
Qed.

(** A value comes from the payload of an answer. *)
Lemma exchanged_Ok {A} request (decode : bytes -> comp A) h h' a :
  exchanged request decode h h' (Ok a) ->
  exists frame response payload, sent request frame /\ h' = h ++ [(frame, response)] /\
    bytes_ok payload /\ replied response payload /\ decode payload = Ok a.
Proof.
  intros (frame & response & Hsent & -> & Hl & Heq). unfold lawful in Hl. cbn [snd] in Hl.
  cbn [reraise] in Heq. symmetry in Heq. apply reraise_Ok_inv in Heq.
  destruct response as [rf|e|e|]; try discriminate Heq. cbn in Heq, Hl.
  pose proof (wp_decodeDirectTcpPayload rf Hl) as Hwp.
  destruct (decodeDirectTcpPayload rf) as [payload|e|e|] eqn:Hd; try discriminate Heq.
  exists frame, (Ok rf), payload. split_and!; [done..|apply Hwp|by exists rf|done].
Qed.

Section copying_runs.
Context (context : OperationContext).

(** One request of the copy. *)
Lemma request_run {A} (op : operation A) (request : Z -> Z -> Z -> comp bytes)
    (decode : bytes -> comp A) s h :
  session_ok s ->
  (forall m t s h, is_u64 m ->
     pwp (op m t s context) h (outcome (exchanged (request m t s) decode h))) ->
  pwp (copy_request context op s) h (fun h' o => exists c, o = Some (advance 1 s, c) /\
    exchanged (request (nss_nextMessageId s) (nss_treeId s) (nss_sessionId s)) decode h h' c).
Proof using Type.
  intros Hs Hop. unfold copy_request. rewrite with_allocated_eq.
  apply pwp_bind, pwp_reraised. eapply pwp_mono; [by apply Hop, Hs|].
  intros h' [c|]; [|done]. cbn [outcome fmap option_fmap option_map pwp]. intros Hx.
  eexists. split; [done|]. by apply exchanged_reraise.
Qed.

(** One request of the copy, followed by [f]. *)
Lemma request_step {A B} (op : operation A) (request : Z -> Z -> Z -> comp bytes)
    (decode : bytes -> comp A) (f : A -> sessioned B) s h
    (Q : list message -> option (NativeSmbSession * comp B) -> Prop) :
  session_ok s ->
  (forall m t s h, is_u64 m ->
     pwp (op m t s context) h (outcome (exchanged (request m t s) decode h))) ->
  (forall h' c, exchanged (request (nss_nextMessageId s) (nss_treeId s) (nss_sessionId s))
       decode h h' c ->
     match c with
     | Ok a => pwp (f a (advance 1 s)) h' Q
     | Err e => Q h' (Some (advance 1 s, Err e))
     | Throw m => Q h' (Some (advance 1 s, Throw m))
     | OutOfBounds => False
     end) ->
  pwp ((copy_request context op ≫= f) s) h Q.
Proof using Type.
  intros Hs Hop Hq. apply pwp_bind. eapply pwp_mono; [by apply (request_run op request decode)|].
  intros h' o (c & -> & Hx). apply Hq in Hx. by destruct c.
Qed.

(** A guard for cancellation. *)
Lemma cancel_step {A} (p : sessioned A) s h
    (Q : list message -> option (NativeSmbSession * comp A) -> Prop) :
  (forall e, Q h (Some (s, Err e))) -> pwp (p s) h Q ->
  pwp (copy_unless_cancelled context p s) h Q.
Proof using Type.
  intros He Hp. apply pwp_bind. unfold plain. apply pwp_bind, pwp_isCancelled; [|done].
  intros _. apply He.
Qed.

(** A computation of the copy. *)
Lemma lift_step {A B} (c : comp A) (f : A -> sessioned B) s h
    (Q : list message -> option (NativeSmbSession * comp B) -> Prop) :
  c <> OutOfBounds -> (forall e, Q h (Some (s, Err e))) -> (forall e, Q h (Some (s, Throw e))) ->
  (forall a, c = Ok a -> pwp (f a s) h Q) ->
  pwp ((plain (lift c) ≫= f) s) h Q.
Proof using Type.
  intros Hc He Ht Hf. apply pwp_bind. unfold plain, lift. cbn [prog_bind pwp].
  destruct c; [by apply Hf|apply He|apply Ht|done].
Qed.
End copying_runs.

(** ** The chunks *)

Section chunks.
Context (t s : Z) (target : FileId) (key : bytes) (size : Z).

(** [copied m offset h offset']: the messages [h], with ids from [m] on, copied
    the bytes of the source from [offset] to [offset'] to the same place of the
    target, in consecutive chunks of at most a mebibyte. *)
Inductive copied : Z -> Z -> list message -> Z -> Prop :=
| copied_none m offset : copied m offset [] offset
| copied_chunk m offset input frame response payload answer count h offset' :
    buildSrvCopyChunkRequest key
      [mkCopyChunk offset offset (Z.min kCopyChunkSize (size - offset))] = Ok input ->
    sent (buildIoctlRequest (copyOptions target input) m t s) frame ->
    replied response payload -> decodeIoctlResponse payload = Ok answer ->
    decodeSrvCopyChunkResponse (ior_output answer) = Ok count ->
    1 <= ccr_totalBytesWritten count <= Z.min kCopyChunkSize (size - offset) ->
    copied (u64 (m + 1)) (offset + ccr_totalBytesWritten count) h offset' ->
    copied m offset ((frame, response) :: h) offset'.
End chunks.

Lemma decodeSrvCopyChunkResponse_written data c :
  bytes_ok data -> decodeSrvCopyChunkResponse data = Ok c -> 0 <= ccr_totalBytesWritten c.
Proof.
  intros Hd Hc. assert (wp (decodeSrvCopyChunkResponse data)
    (fun c => is_u32 (ccr_totalBytesWritten c))) as Hw.
  { unfold decodeSrvCopyChunkResponse. case_if; bools; [exact I|]. wp_reads. done. }
  rewrite Hc in Hw. cbn in Hw. ulia.
Qed.

Lemma chunk_length_eq size offset :
  is_u64 size -> 0 <= offset < size ->
  chunk_length size offset = Z.min kCopyChunkSize (size - offset).
Proof.
  intros Hs Ho. unfold chunk_length, kCopyChunkSize. rewrite (u64_small (size - offset)) by ulia.
  apply u32_small. ulia.
Qed.

(** ** The loop *)

Section loop.
Context (context : OperationContext) (t sid : Z) (target : FileId) (key : bytes) (size : Z).
Context (Hsize : is_u64 size) (Ht : is_u32 t) (Hsid : is_u64 sid) (Hkey : 24 <= blen key).

(** The session as the copy sees it. *)
Definition session_at (next : Z) : NativeSmbSession := mkNativeSmbSession t sid next.

(** Messages that open and close nothing. *)
Definition no_handles (h : list message) : Prop :=
  omap opened_by h = [] /\ omap closed_by h = [].

Lemma no_handles_cons m command request frame response h :
  is_u64 m -> request_on m t sid command request -> command <> Command_Create ->
  command <> Command_Close -> sent request frame -> no_handles h ->
  no_handles ((frame, response) :: h).
Proof using Ht Hsid.
  intros Hm Hreq H1 H2 Hsent [Ho Hc]. unfold no_handles. cbn.
  rewrite (opened_by_other m t sid command request Hm Ht Hsid Hreq frame response Hsent H1).
  rewrite (closed_by_other m t sid command request Hm Ht Hsid Hreq frame response Hsent H2).
  done.
Qed.

(** The loop after the messages [h0]: it ends; it opens and closes nothing; and
    when it succeeds everything was copied. *)
Definition loop_result (next offset : Z) (h0 h : list message)
    (o : option (NativeSmbSession * comp unit)) : Prop :=
  exists next' c chunks,
    o = Some (session_at next', c) /\ is_u64 next' /\ h = h0 ++ chunks /\
    no_handles chunks /\ c <> OutOfBounds /\
    (c = Ok tt -> copied t sid target key size next offset chunks size).

Lemma loop_result_failure next offset h0 c :
  is_u64 next -> c <> OutOfBounds -> c <> Ok tt ->
  loop_result next offset h0 h0 (Some (session_at next, c)).
Proof using Type.
  intros Hn Hc Hok. exists next, c, []. rewrite app_nil_r. by split_and!.
Qed.

Lemma copy_loop_result fuel offset next h0 :
  0 <= offset <= size -> is_u64 next -> (Z.to_nat (size - offset) < fuel)%nat ->
  pwp (copy_loop context fuel key target size offset (session_at next)) h0
    (loop_result next offset h0).
Proof using Hsize Ht Hsid Hkey.
  revert offset next h0. induction fuel as [|fuel IH]; intros offset next h0 Ho Hn Hf; [lia|].
  cbn [copy_loop]. destruct (Z.ltb_spec offset size) as [Hlt|Hge].
  2: { exists next, (Ok tt), []. rewrite app_nil_r. assert (offset = size) as -> by lia.
       split_and!; [done..|]. intros _. constructor. }
  rewrite chunk_length_eq by (done || lia). cbv zeta.
  apply cancel_step; [intros; by apply loop_result_failure|].
  apply lift_step; [unfold buildSrvCopyChunkRequest; by repeat case_if
    |intros; by apply loop_result_failure..|].
  intros input Hinput.
  eapply request_step; [done|intros; by apply ioctl_exact|].
  intros h' c Hx. cbn [session_at nss_nextMessageId nss_treeId nss_sessionId] in Hx.
  assert (forall c' frame response, sent (buildIoctlRequest (copyOptions target input) next t sid)
      frame -> h' = h0 ++ [(frame, response)] -> c' <> OutOfBounds -> c' <> Ok tt ->
      loop_result next offset h0 h' (Some (advance 1 (session_at next), c'))) as Hfail.
  { intros c' frame response Hsent -> Hc' Hok. exists (u64 (next + 1)), c', [(frame, response)].
    split_and!; [done|apply u64_range|done| |done|done].
    by eapply (no_handles_cons next Command_Ioctl); [..|apply on_ioctl| | |exact Hsent|]. }
  destruct c as [answer|e|e|].
  2: { destruct Hx as (frame & response & Hsent & -> & _). by eapply Hfail. }
  2: { destruct Hx as [-> _]. exists (u64 (next + 1)), (Throw e), []. rewrite app_nil_r.
       split_and!; [done|apply u64_range|done..]. }
  2: done.
  destruct (exchanged_Ok _ _ _ _ _ Hx) as (frame & response & payload & Hsent & -> & Hp & Hrep & Hdec).
  apply lift_step.
  { pose proof (decodeSrvCopyChunkResponse_in_bounds (ior_output answer)).
    by destruct (decodeSrvCopyChunkResponse _). }
  1,2: intros; by eapply Hfail.
  intros count Hcount%reraise_Ok_inv.
  pose proof (decodeSrvCopyChunkResponse_written (ior_output answer) count) as Hw.
  destruct (wp_Ok _ _ _ (wp_decodeIoctlResponse payload Hp) Hdec) as (_ & _ & _ & _ & Hout & _).
  specialize (Hw Hout Hcount). case_if; bools; [by eapply Hfail|].
  assert (1 <= ccr_totalBytesWritten count <= Z.min kCopyChunkSize (size - offset)) as Hr by lia.
  rewrite (u64_small (offset + _)) by ulia.
  assert (pwp (copy_loop context fuel key target size (offset + ccr_totalBytesWritten count)
    (session_at (u64 (next + 1)))) (h0 ++ [(frame, response)])
    (loop_result next offset h0)) as Hloop.
  { eapply pwp_mono; [apply IH; [lia|apply u64_range|lia]|].
    intros h o (next' & c & chunks & -> & Hn' & -> & Hno & Hc & Hcopied).
    exists next', c, ((frame, response) :: chunks). rewrite <- app_assoc.
    split_and!; [done..| |done|].
    - by eapply (no_handles_cons next Command_Ioctl); [..|apply on_ioctl| | |exact Hsent|].
    - intros Hok. eapply copied_chunk; eauto. }
  destruct (oc_progressCallback context); exact Hloop.
Qed.
End loop.

(** ** The handles of the copy *)

Section copy_handles.
Context (context : OperationContext) (m t sid : Z).
Context (Hm : is_u64 m) (Ht : is_u32 t) (Hsid : is_u64 sid).

(** What a CREATE does to the open handles. *)
Lemma create_handles options open closed h h' c :
  exchanged (buildCreateRequest options m t sid) decodeCreateResponse h h' c ->
  handles open closed h ->
  match c with
  | Ok r => handles (open ++ [crr_fileId r]) closed h' /\ FileId_ok (crr_fileId r) /\
            exists msg, h' = h ++ [msg]
  | Err _ => handles open closed h'
  | Throw _ => True
  | OutOfBounds => False
  end.
Proof using Hm Ht Hsid.
  intros Hx Hh. destruct c as [r|e|e|]; [| |done..].
  - destruct (exchanged_Ok _ _ _ _ _ Hx) as (frame & response & payload & Hsent & -> & Hp &
      Hrep & Hdec).
    pose proof (handles_snoc _ _ _ (frame, response) Hh) as Hsnoc.
    rewrite (opened_by_create m t sid _ _ Hm Ht Hsid (on_create _ _ _ options) frame response
      Hsent payload r eq_refl Hrep Hdec) in Hsnoc.
    rewrite (closed_by_other m t sid _ _ Hm Ht Hsid (on_create _ _ _ options) frame response
      Hsent) in Hsnoc by done.
    cbn in Hsnoc. rewrite app_nil_r in Hsnoc. split; [done|]. split; [|by eexists].
    by destruct (wp_Ok _ _ _ (wp_decodeCreateResponse payload Hp) Hdec)
      as (_ & _ & _ & _ & _ & _ & _ & _ & _ & _ & Hid).
  - destruct Hx as (frame & response & Hsent & -> & Hl & Heq).
    pose proof (handles_snoc _ _ _ (frame, response) Hh) as Hsnoc.
    rewrite (closed_by_other m t sid _ _ Hm Ht Hsid (on_create _ _ _ options) frame response
      Hsent) in Hsnoc by done.
    assert (opened_by (frame, response) = None) as Hnone.
    { destruct (addressed_header Command_Create m t sid frame) as (hd & Hhd & Hc).
      { eapply sent_addressed; eauto with smb. }
      unfold opened_by. cbn [fst snd]. rewrite Hhd. cbn [mbind option_bind].
      rewrite decide_True by done. cbn [reraise] in Heq.
      apply reraise_Err_inv in Heq as [e' Heq]. unfold mbind in *. by rewrite Heq. }
    rewrite Hnone in Hsnoc. cbn in Hsnoc. by rewrite !app_nil_r in Hsnoc.
Qed.

Lemma ioctl_handles options open closed h h' c :
  exchanged (buildIoctlRequest options m t sid) decodeIoctlResponse h h' c ->
  handles open closed h ->
  match c with
  | Ok _ | Err _ => handles open closed h' /\ exists msg, h' = h ++ [msg]
  | Throw _ => True
  | OutOfBounds => False
  end.
Proof using Hm Ht Hsid.
  intros Hx Hh.
  assert (forall frame response, sent (buildIoctlRequest options m t sid) frame ->
    handles open closed (h ++ [(frame, response)])) as Hother.
  { intros frame response Hsent. pose proof (handles_snoc _ _ _ (frame, response) Hh) as Hsnoc.
    rewrite (opened_by_other m t sid _ _ Hm Ht Hsid (on_ioctl _ _ _ options) frame response
      Hsent) in Hsnoc by done.
    rewrite (closed_by_other m t sid _ _ Hm Ht Hsid (on_ioctl _ _ _ options) frame response
      Hsent) in Hsnoc by done.
    cbn in Hsnoc. by rewrite !app_nil_r in Hsnoc. }
  destruct c as [r|e|e|]; [| |done..];
    destruct Hx as (frame & response & Hsent & -> & _); split; eauto.
Qed.
End copy_handles.

Section closing_both.
Context (context : OperationContext) (s : NativeSmbSession) (Hs : session_ok s).

Lemma close_handles fileId open closed h :
  FileId_ok fileId -> handles open closed h ->
  pwp (close_ignoring context fileId s) h (fun h' o =>
    o = Some (advance 1 s, Ok tt) /\ handles open (closed ++ [fileId]) h' /\
    exists msg, h' = h ++ [msg]).
Proof using Hs.
  intros Hf Hh. eapply pwp_mono; [by apply close_ignoring_exact|].
  intros h' o (-> & frame & response & Hsent & ->). split; [done|].
  destruct Hs as (Ht & Hsid & Hm).
  pose proof (handles_snoc _ _ _ (frame, response) Hh) as Hsnoc.
  rewrite (closed_by_close _ _ _ _ _ response Hm Ht Hsid Hf Hsent) in Hsnoc.
  rewrite (opened_by_other _ _ _ _ _ Hm Ht Hsid (on_close _ _ _ _) _ response Hsent) in Hsnoc
    by done.
  cbn in Hsnoc. rewrite app_nil_r in Hsnoc. eauto.
Qed.
End closing_both.

Lemma close_both_handles context s target source open h :
  session_ok s -> FileId_ok target -> FileId_ok source -> handles open [] h ->
  pwp ((close_ignoring context target;; close_ignoring context source) s) h (fun h' o =>
    o = Some (advance 1 (advance 1 s), Ok tt) /\ handles open [target; source] h' /\
    exists x1 x2, h' = h ++ [x1; x2]).
Proof.
  intros Hs Ht Hsrc Hh. apply pwp_bind. eapply pwp_mono; [by apply (close_handles context s Hs)|].
  intros h1 o (-> & Hh1 & x1 & ->).
  eapply pwp_mono; [apply (close_handles context _ (advance_ok 1 s Hs) source open _ _ Hsrc Hh1)|].
  intros h2 o (-> & Hh2 & x2 & ->). split_and!; [done..|]. exists x1, x2.
  by rewrite <- app_assoc.
Qed.

(** ** The whole copy *)

(** The messages of a copy that succeeded: two CREATEs, for a file with content
    the resume key and the chunks, and two CLOSEs. *)
Definition copied_whole (s : NativeSmbSession) (size : Z) (h : list message) : Prop :=
  exists source target create1 create2 middle close1 close2,
    h = [create1; create2] ++ middle ++ [close1; close2] /\
    omap opened_by h = [source; target] /\
    (size = 0 /\ middle = [] \/
     exists key m resume chunks, middle = resume :: chunks /\ 24 <= blen key /\
       copied (nss_treeId s) (nss_sessionId s) target key size m 0 chunks size).

(** What a run of the copy looks like: unless it threw, the handles opened are
    closed in the reverse order. *)
Definition copy_run (s : NativeSmbSession) (targetPath : bytes) (size : Z)
    (h : list message) (o : option (NativeSmbSession * comp NativeObjectMutationResult))
    : Prop :=
  exists s' c, o = Some (s', c) /\
    match c with
    | Ok r => nom_path r = targetPath /\ omap closed_by h = rev (omap opened_by h) /\
              copied_whole s size h
    | Err _ => omap closed_by h = rev (omap opened_by h)
    | Throw _ => True
    | OutOfBounds => False
    end.

(** The rule for [or_else] with a cleanup that succeeds. *)
Lemma or_else_step {A B} (p : sessioned A) cleanup (f : A -> sessioned B) s h
    (Q : list message -> option (NativeSmbSession * comp B) -> Prop) :
  pwp (p s) h (fun h' o => exists s' c, o = Some (s', c) /\
    match c with
    | Ok a => pwp (f a s') h' Q
    | Err e => pwp (cleanup s') h' (fun h2 o2 =>
        exists s2, o2 = Some (s2, Ok tt) /\ Q h2 (Some (s2, Err e)))
    | Throw m => Q h' (Some (s', Throw m))
    | OutOfBounds => False
    end) ->
  pwp ((or_else p cleanup ≫= f) s) h Q.
Proof.
  intros Hp. apply pwp_bind, pwp_bind. eapply pwp_mono; [exact Hp|].
  intros h' o (s' & c & -> & Hc). destruct c as [a|e|m|]; [exact Hc| |exact Hc|done].
  apply pwp_bind. eapply pwp_mono; [exact Hc|]. by intros h2 o2 (s2 & -> & HQ).
Qed.

Section whole.
Context (context : OperationContext) (sourcePath targetPath : bytes) (size : Z).
Context (s : NativeSmbSession) (Hs : session_ok s) (Hsize : is_u64 size).
Local Abbreviation Q := (copy_run s targetPath size).

Lemma copy_failed s' e open h :
  handles open (rev open) h -> Q h (Some (s', Err e)).
Proof using Type. intros [Ho Hc]. exists s', (Err e). split; [done|]. by rewrite Ho, Hc. Qed.

Lemma copy_threw s' e h : Q h (Some (s', Throw e)).
Proof using Type. by exists s', (Throw e). Qed.

(** The end of a copy whose messages so far are known. *)
Lemma copy_finish s' source target create1 create2 middle h :
  session_ok s' -> FileId_ok source -> FileId_ok target ->
  h = [create1; create2] ++ middle -> handles [source; target] [] h ->
  (size = 0 /\ middle = [] \/
   exists key m resume chunks, middle = resume :: chunks /\ 24 <= blen key /\
     copied (nss_treeId s) (nss_sessionId s) target key size m 0 chunks size) ->
  pwp (((close_ignoring context target;; close_ignoring context source);;
        mret (mkNativeObjectMutationResult targetPath)) s') h Q.
Proof using Type.
  intros Hs' Hsrc Htgt Hh Hhan Hmid. apply pwp_bind.
  eapply pwp_mono; [by apply (close_both_handles context s' target source [source; target])|].
  intros h' o (-> & [Ho Hc] & x1 & x2 & ->). cbn.
  eexists _, (Ok _). split; [done|]. split; [done|]. rewrite Ho, Hc. split; [done|].
  exists source, target, create1, create2, middle, x1, x2. split_and!; [|done|done].
  by rewrite Hh, <- app_assoc.
Qed.

Lemma copyFileServerSide_run :
  pwp (copyFileServerSide context sourcePath targetPath size s) [] Q.
Proof using Hs Hsize.
  pose proof Hs as (Ht & Hsid & Hm). apply cancel_step; [intros e; by apply (copy_failed s e [])|].
  eapply request_step; [done|intros; by apply openFile_exact|]. intros h1 c1 Hx1.
  apply (create_handles _ _ _ Hm Ht Hsid _ [] []) in Hx1; [|done].
  destruct c1 as [source|e|e|]; [|by apply (copy_failed _ _ [])|apply copy_threw|done].
  destruct Hx1 as (Hh1 & Hsrc & create1 & ->). pose proof (advance_ok 1 s Hs) as Hs1.
  pose proof Hs1 as (Ht1 & Hsid1 & Hm1). apply or_else_step.
  assert (forall s1' e, session_ok s1' ->
    pwp (close_ignoring context (crr_fileId source) s1') [create1] (fun h2 o2 =>
      exists s2, o2 = Some (s2, Ok tt) /\ Q h2 (Some (s2, Err e)))) as Hclose.
  { intros s1' e Hs1'.
    eapply pwp_mono; [by apply (close_handles context s1' Hs1' _ [crr_fileId source] [])|].
    intros h2 o2 (-> & Hh2 & _). eexists. split; [done|].
    by apply (copy_failed _ _ [crr_fileId source]). }
  apply cancel_step; [intros e; eexists _, _; split; [done|]; by apply Hclose|].
  eapply pwp_mono; [by eapply request_run; [|intros; by apply openFile_exact]|].
  intros h2 o (c2 & -> & Hx2). eexists _, c2. split; [done|].
  apply (create_handles _ _ _ Hm1 Ht1 Hsid1 _ [crr_fileId source] []) in Hx2; [|done].
  pose proof (advance_ok 1 _ Hs1) as Hs2.
  destruct c2 as [target|e|e|]; [| |apply copy_threw|done].
  2: { eapply pwp_mono; [by apply (close_handles context _ Hs2 _ [crr_fileId source] [])|].
       intros h3 o3 (-> & Hh3 & _). eexists. split; [done|].
       by apply (copy_failed _ _ [crr_fileId source]). }
  destruct Hx2 as (Hh2 & Htgt & create2 & ->). cbn [app] in Hh2.
  pose proof Hs2 as (Ht2 & Hsid2 & Hm2). cbv zeta.
  destruct (Z.eqb_spec size 0) as [Hz|Hnz].
  { apply pwp_bind. cbn [pwp mret sessioned_ret].
    eapply (copy_finish _ (crr_fileId source) (crr_fileId target) create1 create2 []);
      [done..|by left]. }
  apply or_else_step.
  assert (forall s3 e h, session_ok s3 ->
    handles [crr_fileId source; crr_fileId target] [] h ->
    pwp ((close_ignoring context (crr_fileId target);;
          close_ignoring context (crr_fileId source)) s3) h (fun h3 o3 =>
      exists s4, o3 = Some (s4, Ok tt) /\ Q h3 (Some (s4, Err e)))) as Hboth.
  { intros s3 e h Hs3 Hh. eapply pwp_mono; [by eapply close_both_handles|].
    intros h3 o3 (-> & Hh3 & _). eexists. split; [done|].
    by apply (copy_failed _ _ [crr_fileId source; crr_fileId target]). }
  eapply request_step; [done|intros; by apply ioctl_exact|]. intros h3 c3 Hx3.
  apply (ioctl_handles _ _ _ Hm2 Ht2 Hsid2 _ [crr_fileId source; crr_fileId target] []) in Hx3;
    [|exact Hh2].
  pose proof (advance_ok 1 _ Hs2) as Hs3.
  destruct c3 as [resume|e|e|];
    [| |eexists _, (Throw e); split; [done|apply copy_threw]|done].
  2: { eexists _, (Err e). split; [done|]. apply Hboth; [done|apply Hx3]. }
  destruct Hx3 as [Hh3 [resumed ->]].
  destruct (Z.ltb_spec (blen (ior_output resume)) 24) as [Hshort|Hkey].
  { eexists _, (failure _ _). split; [done|]. by apply Hboth. }
  eapply pwp_mono.
  { pose proof Hs3 as (Ht3 & Hsid3 & Hm3).
    apply (copy_loop_result context (nss_treeId s) (nss_sessionId s) (crr_fileId target)
      (ior_output resume) size Hsize Ht Hsid Hkey (S (Z.to_nat size)) 0
      (nss_nextMessageId (advance 1 (advance 1 (advance 1 s))))); [ulia|done|lia]. }
  intros h4 o (next & c & chunks & -> & Hnext & -> & [Hno Hnc] & Hc & Hcopied).
  assert (handles [crr_fileId source; crr_fileId target] []
    (((([] ++ [create1]) ++ [create2]) ++ [resumed]) ++ chunks)) as Hh4.
  { destruct Hh3 as [Ho3 Hc3]. unfold handles.
    by rewrite !(omap_app _ _ chunks), Ho3, Hc3, Hno, Hnc, !app_nil_r. }
  assert (session_ok (session_at (nss_treeId s) (nss_sessionId s) next)) as Hs4 by done.
  eexists _, c. split; [done|]. destruct c as [[]|e|e|]; [| |apply copy_threw|done].
  - eapply (copy_finish _ (crr_fileId source) (crr_fileId target) create1 create2
      (resumed :: chunks)); [done..| |exact Hh4|].
    + by rewrite <- !app_assoc.
    + right. eexists _, _, resumed, chunks. split_and!; [done|exact Hkey|]. by apply Hcopied.
  - by apply Hboth.
Qed.
End whole.

(** C6: Server-side copy always ends, whatever a lawful transport answers and
    whenever it is cancelled.  When it succeeds, the chunks it sent, each at most
    a mebibyte, tile the file from 0 to its size: each begins where the bytes
    the server reported for the one before end.  And unless an exception is
    thrown, every handle the copy opened is closed, in the reverse order. *)
Theorem server_copy_complete context sourcePath targetPath size s tr o :
  session_ok s -> is_u64 size ->
  runs (copyFileServerSide context sourcePath targetPath size s) tr o -> Forall lawful tr ->
  copy_run s targetPath size tr o.
Proof.
  intros Hs Hsize Hr Hl.
  by apply (pwp_runs _ [] _ tr o (copyFileServerSide_run context sourcePath targetPath size s
    Hs Hsize)).
Qed.

(** A file of three bytes. *)
Definition ioctl_reply (output : bytes) : bytes :=
  response (sample_reply Command_Ioctl 0) 49
    (ioctl_fields (mkIoctlResponse 0 0 (mkFileId 0 0) [] output 0)).
Definition copy_script : list bytes :=
  omap (fun payload => match encodeDirectTcpFrame payload with Ok f => Some f | _ => None end)
    [response (sample_reply Command_Create 0) 89 (zeros 86);
     response (sample_reply Command_Create 0) 89 (zeros 86);
     ioctl_reply (zeros 32); ioctl_reply (u32Le 1 ++ u32Le 0 ++ u32Le 3);
     response (sample_reply Command_Close 0) 60 (zeros 58);
     response (sample_reply Command_Close 0) 60 (zeros 58)].
Definition sample_copy : prog (NativeSmbSession * comp NativeObjectMutationResult) :=
  copyFileServerSide plain_context [97] [98] 3 sample_session.

Lemma server_copy_complete_witness :
  let tr := transcript sample_copy copy_script in
  runs sample_copy tr
    (Some (advance 6 sample_session, Ok (mkNativeObjectMutationResult [98]))) /\
  copied_whole sample_session 3 tr.
Proof.
  intros tr. destruct (transcript_runs sample_copy copy_script) as [Hr Hl].
  fold tr in Hr, Hl.
  assert (snd (perform sample_copy copy_script)
    = Some (advance 6 sample_session, Ok (mkNativeObjectMutationResult [98]))) as Ho
    by (vm_compute; reflexivity).
  rewrite Ho in Hr. split; [exact Hr|].
  assert (copy_run sample_session [98] 3 tr
    (Some (advance 6 sample_session, Ok (mkNativeObjectMutationResult [98])))) as Hc.
  { apply (server_copy_complete plain_context [97] [98] 3 sample_session);
      [split_and!; cbn; ulia|ulia|exact Hr|exact Hl]. }
  destruct Hc as (s' & c & Heq & Hc). injection Heq as <- <-. apply Hc.
Defined.
