(* ===== verification/Layers.v ===== *)
(** * The transport of a connection

    [NativeSmbConnector::connect] is given a transport and puts a
    [SigningTransport] and a [Smb3EncryptionTransport] around it, each of which
    owns the transport it wraps: the objects behind a
    [std::unique_ptr<Transport>] are a [Stack].  A program runs on a stack as
    it runs on the world at its bottom. *)

From S2P Require Export Signing Encryption Exchange.
Local Open Scope Z_scope.
Local Open Scope comp_scope.
#[local] Set Warnings "-register-all".

(** ** Stacks *)

(** What a [std::unique_ptr<Transport>] of the engine points to: the transport
    the caller supplied, or one of the two wrappers. *)
Inductive Stack (W : Type) : Type :=
| Direct (w : W)
| Signing (t : SigningTransport (Stack W))
| Encrypting (t : Smb3EncryptionTransport (Stack W)).
Arguments Direct {_} w.
Arguments Signing {_} t.
Arguments Encrypting {_} t.

Section stacks.
Context {W : Type} `{World W}.

(** The virtual call [transport.exchange(requestFrame, context)]. *)
Fixpoint stack_exchange (s : Stack W) (frame : bytes) (context : OperationContext)
    : Stack W * comp bytes :=
  match s with
  | Direct w => let '(w, r) := exchange w frame context in (Direct w, r)
  | Signing t =>
      let '(t, r) := @signing_exchange _ _ stack_exchange t frame context in
      (Signing t, r)
  | Encrypting t =>
      let '(t, r) := @encryption_exchange _ _ stack_exchange t frame context in
      (Encrypting t, r)
  end.

(** The caller's token and callbacks are beside the transport: the stack only
    passes on what they do to the world. *)
Fixpoint on_bottom {A} (f : W -> W * A) (default : A) (s : Stack W) : Stack W * A :=
  match s with
  | Direct w => let '(w, a) := f w in (Direct w, a)
  | Signing t =>
      match sgt_inner t with
      | Some inner =>
          let '(inner, a) := on_bottom f default inner in
          (Signing (mkSigningTransport (Some inner) (sgt_sessionKey t) (sgt_dialect t)
                      (sgt_verifyResponses t)), a)
      | None => (s, default)
      end
  | Encrypting t =>
      match set_inner t with
      | Some inner =>
          let '(inner, a) := on_bottom f default inner in
          (Encrypting (with_inner t inner), a)
      | None => (s, default)
      end
  end.

#[export] Instance stack_world : World (Stack W) := {|
  world_transport := stack_exchange;
  ask_token := on_bottom ask_token false;
  ask_callback := on_bottom ask_callback false;
  report_progress s p := fst (on_bottom (fun w => (report_progress w p, tt)) tt s)
|}.
End stacks.

(** ** Performances on two worlds *)

Section invariants.
Context {W : Type} `{World W}.

(** What every step of a program keeps holds at its end: [I w h] is about the
    world and the messages so far. *)
Lemma perform_invariant (I : W -> list message -> Prop) :
  (forall w h frame context, I w h ->
     I (fst (exchange w frame context))
       (h ++ [(frame, snd (exchange w frame context))])) ->
  (forall w h, I w h -> I (fst (ask_token w)) h) ->
  (forall w h, I w h -> I (fst (ask_callback w)) h) ->
  (forall w h p, I w h -> I (report_progress w p) h) ->
  forall A (p : prog A) w h, I w h -> I (fst (perform p w)) (h ++ transcript p w).
Proof.
  intros He Ht Hc Hp A p.
  induction p as [a|frame context k IH|k IH|k IH|progress k IH|]; intros w h Hi;
    cbn [perform transcript fst]; rewrite ?app_nil_r; auto.
  - pose proof (He w h frame context Hi) as Hi'.
    destruct (exchange w frame context) as [w' r]. cbn [fst snd] in Hi'.
    rewrite cons_middle, app_assoc. by apply IH.
  - pose proof (Ht w h Hi) as Hi'. destruct (ask_token w). by apply IH.
  - pose proof (Hc w h Hi) as Hi'. destruct (ask_callback w). by apply IH.
Qed.

(** Two worlds that give the same answers, as long as the messages are of the
    kind [ok], cannot be told apart. *)
Lemma perform_same {W'} `{World W'} (R : W -> W' -> Prop) (ok : message -> Prop) :
  (forall w w' frame context, R w w' -> ok (frame, snd (exchange w frame context)) ->
     R (fst (exchange w frame context)) (fst (exchange w' frame context)) /\
     snd (exchange w frame context) = snd (exchange w' frame context)) ->
  (forall w w', R w w' -> R (fst (ask_token w)) (fst (ask_token w')) /\
     snd (ask_token w) = snd (ask_token w')) ->
  (forall w w', R w w' -> R (fst (ask_callback w)) (fst (ask_callback w')) /\
     snd (ask_callback w) = snd (ask_callback w')) ->
  (forall w w' p, R w w' -> R (report_progress w p) (report_progress w' p)) ->
  forall A (p : prog A) w w', R w w' -> Forall ok (transcript p w) ->
    R (fst (perform p w)) (fst (perform p w')) /\
    snd (perform p w) = snd (perform p w').
Proof.
  intros He Ht Hc Hp A p.
  induction p as [a|frame context k IH|k IH|k IH|progress k IH|]; intros w w' Hr;
    cbn [perform transcript fst snd]; auto.
  - pose proof (He w w' frame context Hr) as He'.
    destruct (exchange w frame context) as [v r].
    destruct (exchange w' frame context) as [v' r']. cbn [fst snd] in He'.
    intros [Hok Hall]%Forall_cons_1. destruct (He' Hok) as [Hv <-]. by apply IH.
  - pose proof (Ht w w' Hr) as [Hv Hb]. destruct (ask_token w), (ask_token w').
    cbn [snd] in Hb. subst. by apply IH.
  - pose proof (Hc w w' Hr) as [Hv Hb]. destruct (ask_callback w), (ask_callback w').
    cbn [snd] in Hb. subst. by apply IH.
Qed.
End invariants.

(** ** The wire *)

(** A world and the messages that have been exchanged with it. *)
Record Recorded (W : Type) : Type := mkRecorded {
  rec_world : W;
  rec_messages : list message
}.
Arguments mkRecorded {_} _ _.
Arguments rec_world {_} _.
Arguments rec_messages {_} _.

Definition on_recorded {W A} (f : W -> W * A) (r : Recorded W) : Recorded W * A :=
  (mkRecorded (fst (f (rec_world r))) (rec_messages r), snd (f (rec_world r))).

#[export] Instance recorded_exchange {W} `{World W}
    : Transport (Recorded W) OperationContext := fun r frame context =>
  let '(w, response) := exchange (rec_world r) frame context in
  (mkRecorded w (rec_messages r ++ [(frame, response)]), response).

#[export] Instance recorded_world {W} `{World W} : World (Recorded W) := {|
  world_transport := recorded_exchange;
  ask_token := on_recorded ask_token;
  ask_callback := on_recorded ask_callback;
  report_progress r p := mkRecorded (report_progress (rec_world r) p) (rec_messages r)
|}.

(** The messages at the bottom of a stack. *)
Fixpoint messages_of {W} (s : Stack (Recorded W)) : list message :=
  match s with
  | Direct r => rec_messages r
  | Signing t => from_option messages_of [] (sgt_inner t)
  | Encrypting t => from_option messages_of [] (set_inner t)
  end.

(** How a layer carries the messages of a program: a request it cannot protect
    never leaves, every other one leaves as the layer makes it and is answered
    by what the layer makes of the answer. *)
Inductive carried (protect : bytes -> comp bytes -> Prop)
    (accept : bytes -> comp bytes -> comp bytes)
    : list message -> list message -> Prop :=
| carried_nil : carried protect accept [] []
| carried_over ms ws request sent response :
    carried protect accept ms ws -> protect request (Ok sent) ->
    carried protect accept (ms ++ [(request, accept sent response)])
      (ws ++ [(sent, response)])
| carried_held ms ws request failed :
    carried protect accept ms ws -> protect request failed ->
    (forall sent, failed <> Ok sent) ->
    carried protect accept (ms ++ [(request, failed)]) ws.

Section wire.
Context {W : Type} `{World W}.

Definition encrypted_stack (s : Stack W) ek dk sessionId dialect counter : Stack W :=
  Encrypting (mkSmb3EncryptionTransport (Some s) ek dk sessionId dialect counter).

Definition encrypts ek sessionId dialect (request : bytes) (r : comp bytes) : Prop :=
  exists counter,
    r = encryptSmb3DirectTcpFrame request ek sessionId (nonceOf counter) dialect.

(** What the encryption layer makes of an answer. *)
Definition decrypted dk sessionId dialect (sent : bytes) (r : comp bytes) : comp bytes :=
  match r with
  | Ok frame => decryptSmb3DirectTcpFrame frame dk sessionId dialect
  | failed => failed
  end.

Definition signed_stack (s : Stack W) key dialect : Stack W :=
  Signing (mkSigningTransport (Some s) key dialect true).

Definition signs key dialect (request : bytes) (r : comp bytes) : Prop :=
  r = signSmb2DirectTcpFrame request key dialect.

(** What the signing layer makes of an answer. *)
Definition checked key dialect (sent : bytes) (r : comp bytes) : comp bytes :=
  acceptResponse sent r key dialect true.
End wire.

Section protected.
Context {W : Type} `{World W}.

(** One step on an encrypted stack. *)
Lemma encrypted_stack_exchange (s : Stack W) ek dk sid d n frame context :
  exchange (encrypted_stack s ek dk sid d n) frame context =
  match encryptSmb3DirectTcpFrame frame ek sid (nonceOf n) d with
  | Ok sent =>
      (encrypted_stack (fst (exchange s sent context)) ek dk sid d (u64 (n + 1)),
       decrypted dk sid d sent (snd (exchange s sent context)))
  | failed => (encrypted_stack s ek dk sid d (u64 (n + 1)), failed)
  end.
Proof.
  unfold exchange at 1. cbn [world_transport stack_world stack_exchange encrypted_stack].
  unfold encryption_exchange. cbn [set_inner nextNonce set_encryptionKey set_sessionId
    set_dialect set_decryptionKey set_nonceCounter].
  destruct (encryptSmb3DirectTcpFrame _ _ _ _ _) as [sent| | |]; try done.
  unfold exchange. cbn [world_transport stack_world].
  by destruct (stack_exchange s sent context) as [s' r].
Qed.

Lemma signed_stack_exchange (s : Stack W) key d frame context :
  exchange (signed_stack s key d) frame context =
  match signSmb2DirectTcpFrame frame key d with
  | Ok sent =>
      (signed_stack (fst (exchange s sent context)) key d,
       checked key d sent (snd (exchange s sent context)))
  | failed => (signed_stack s key d, failed)
  end.
Proof.
  unfold exchange at 1. cbn [world_transport stack_world stack_exchange signed_stack].
  unfold signing_exchange. cbn [sgt_inner sgt_sessionKey sgt_dialect sgt_verifyResponses].
  destruct (signSmb2DirectTcpFrame _ _ _) as [sent| | |]; try done.
  unfold exchange. cbn [world_transport stack_world].
  by destruct (stack_exchange s sent context) as [s' r].
Qed.

Lemma recorded_direct_exchange (v : W) ms sent context :
  exchange (Direct (mkRecorded v ms)) sent context =
  (Direct (mkRecorded (fst (exchange v sent context))
             (ms ++ [(sent, snd (exchange v sent context))])),
   snd (exchange v sent context)).
Proof.
  unfold exchange at 1. cbn [world_transport stack_world stack_exchange].
  unfold exchange at 1. cbn [world_transport recorded_world]. unfold recorded_exchange.
  cbn [rec_world rec_messages]. by destruct (exchange v sent context) as [v' r].
Qed.

(** On a recorded wire a layer of either kind carries what the program sends. *)
Section layer.
Context (top : Stack (Recorded W) -> Z -> Stack (Recorded W)).
Context (next : Z -> Z).
Context (protect : Z -> bytes -> comp bytes) (accept : bytes -> comp bytes -> comp bytes).
Context (Htop : forall s n frame context,
  exchange (top s n) frame context =
  match protect n frame with
  | Ok sent => (top (fst (exchange s sent context)) (next n),
                accept sent (snd (exchange s sent context)))
  | failed => (top s (next n), failed)
  end).
Context (Hbottom : forall A (f : Recorded W -> Recorded W * A) a s n,
  on_bottom f a (top s n) =
  (top (fst (on_bottom f a s)) n, snd (on_bottom f a s))).

Definition carries (ms : list message) (s : Stack (Recorded W)) (h : list message) : Prop :=
  exists w n new, s = top (Direct (mkRecorded w (ms ++ new))) n /\
    carried (fun request r => exists n, r = protect n request) accept h new.

Lemma layer_carries ms {A} (p : prog A) w n :
  carries ms (fst (perform p (top (Direct (mkRecorded w ms)) n)))
    (transcript p (top (Direct (mkRecorded w ms)) n)).
Proof using Htop Hbottom.
  apply (perform_invariant (carries ms)) with (h := []).
  - intros s h frame context (v & m & new & -> & Hc). rewrite Htop.
    destruct (protect m frame) as [sent| | |] eqn:Hp.
    2-4: exists v, (next m), new; split; [done|]; constructor;
         [done|by exists m|by intros].
    rewrite recorded_direct_exchange. cbn [fst snd].
    eexists _, (next m), (new ++ [_]). rewrite app_assoc. split; [done|].
    constructor; [done|by exists m].
  - intros s h (v & m & new & -> & Hc). cbn [ask_token stack_world]. rewrite Hbottom.
    by eexists _, m, new.
  - intros s h (v & m & new & -> & Hc). cbn [ask_callback stack_world]. rewrite Hbottom.
    by eexists _, m, new.
  - intros s h pr (v & m & new & -> & Hc). cbn [report_progress stack_world].
    rewrite Hbottom. by eexists _, m, new.
  - exists w, n, []. rewrite app_nil_r. split; [done|constructor].
Qed.
End layer.
End protected.

(** ** What reaches the wire *)

Lemma carried_sent protect accept (Q R : bytes -> Prop) ms ws :
  carried protect accept ms ws -> Forall (fun m => Q (fst m)) ms ->
  (forall request sent, Q request -> protect request (Ok sent) -> R sent) ->
  Forall (fun m => R (fst m)) ws.
Proof.
  intros Hc Hms HR. induction Hc as [|ms ws request sent r Hc IH Hp|ms ws request r Hc IH Hp Hn].
  - constructor.
  - apply Forall_app in Hms as [Hms Hlast]. apply Forall_cons_1 in Hlast as [Hq _].
    apply Forall_app. split; [by apply IH|]. apply Forall_singleton. by eapply HR.
  - apply Forall_app in Hms as [Hms _]. by apply IH.
Qed.

(** A frame whose message is a transform message: the protocol id of these is
    0xFD and the letters SMB. *)
Definition is_transform (frame : bytes) : Prop :=
  exists rest, decodeDirectTcpPayload frame = Ok ([0xFD; 0x53; 0x4D; 0x42] ++ rest).

Lemma encrypted_is_transform frame key sessionId nonce dialect sent :
  encryptSmb3DirectTcpFrame frame key sessionId nonce dialect = Ok sent ->
  is_transform sent.
Proof.
  unfold encryptSmb3DirectTcpFrame, buildTransformHeader, write_range, is_transform.
  intros Hs. inv_comp.
  destruct (decode_frame _ _ [] Hs) as (_ & Hdec & _). rewrite app_nil_r in Hdec.
  eexists. exact Hdec.
Qed.

(** Writing behind the protocol id leaves it alone. *)
Lemma write_range_prefix pre data off bs data' :
  blen pre <= off -> write_range (pre ++ data) off bs = Ok data' ->
  exists rest, data' = pre ++ rest.
Proof.
  unfold write_range. intros Hoff Hw. case_decide as Hd; [|done]. apply Ok_inj in Hw as <-.
  eexists. rewrite <- (firstn_skipn (length pre) (slice 0 off _)), <- app_assoc. f_equal.
  unfold slice. rewrite Z.sub_0_r, drop_0, take_take, Nat.min_l by (unfold blen in *; lia).
  apply take_app_length.
Qed.

Lemma signed_is_transform frame key dialect sent :
  signSmb2DirectTcpFrame frame key dialect = Ok sent -> is_transform frame ->
  is_transform sent.
Proof.
  unfold signSmb2DirectTcpFrame, writeU32Le, zeroSmb2Signature. intros Hs [rest Hdec].
  rewrite Hdec in Hs. inv_comp.
  repeat match goal with
  | Hx : reraise (Ok _) = Ok _ |- _ => apply Ok_inj in Hx; subst
  | Hw : write_range (_ ++ _) _ _ = Ok _ |- _ =>
      apply write_range_prefix in Hw as [? ->]; [|done]
  end.
  match goal with He : encodeDirectTcpFrame _ = Ok _ |- _ =>
    destruct (decode_frame _ _ [] He) as (_ & Hd & _) end.
  rewrite app_nil_r in Hd. eexists. exact Hd.
Qed.

Section protected_wire.
Context {W : Type} `{World W}.
Implicit Types (w : W).

Lemma encrypted_carries {A} (p : prog A) w ms ek dk sid d n :
  let start := encrypted_stack (Direct (mkRecorded w ms)) ek dk sid d n in
  exists w' n' new,
    fst (perform p start) = encrypted_stack (Direct (mkRecorded w' (ms ++ new))) ek dk sid d n' /\
    carried (encrypts ek sid d) (decrypted dk sid d) (transcript p start) new.
Proof.
  apply (layer_carries (fun s => encrypted_stack s ek dk sid d) (fun n => u64 (n + 1))
    (fun n request => encryptSmb3DirectTcpFrame request ek sid (nonceOf n) d)).
  - intros. apply encrypted_stack_exchange.
  - intros B f b s m. cbn [on_bottom encrypted_stack set_inner].
    by destruct (on_bottom f b s).
Qed.

Lemma signed_carries {A} (p : prog A) w ms key d :
  let start := signed_stack (Direct (mkRecorded w ms)) key d in
  exists w' new,
    fst (perform p start) = signed_stack (Direct (mkRecorded w' (ms ++ new))) key d /\
    carried (signs key d) (checked key d) (transcript p start) new.
Proof.
  destruct (layer_carries (fun s _ => signed_stack s key d) (fun n => n)
    (fun _ request => signSmb2DirectTcpFrame request key d) (checked key d))
    with (ms := ms) (p := p) (w := w) (n := 0) as (w' & _ & new & Hs & Hc).
  - intros. apply signed_stack_exchange.
  - intros B f b s m. cbn [on_bottom signed_stack sgt_inner].
    by destruct (on_bottom f b s).
  - exists w', new. split; [exact Hs|]. unfold signs.
    clear Hs. induction Hc as [|? ? ? ? ? ? ? [_ ?]|? ? ? ? ? ? [_ ?] ?]; by constructor.
Qed.

(** C33: Over an encryption layer nothing leaves in clear, over a signing layer
    nothing leaves unsigned, and what comes back is what the layer accepts: for
    every program, whatever the world answers, the messages on the wire are
    the program's messages carried by the layer, in order, without the ones
    the layer could not protect; every encrypted frame is a transform message,
    every signed frame of bytes verifies under the key; and the layer and its
    keys stay in place. *)
Theorem protected_wire {A} (p : prog A) w dialect :
  (forall ek dk sessionId n,
     let start := encrypted_stack (Direct (mkRecorded w [])) ek dk sessionId dialect n in
     exists w' n' wire,
       fst (perform p start) =
         encrypted_stack (Direct (mkRecorded w' wire)) ek dk sessionId dialect n' /\
       carried (encrypts ek sessionId dialect) (decrypted dk sessionId dialect)
         (transcript p start) wire /\
       Forall (fun m => is_transform (fst m)) wire) /\
  (forall key,
     let start := signed_stack (Direct (mkRecorded w [])) key dialect in
     exists w' wire,
       fst (perform p start) = signed_stack (Direct (mkRecorded w' wire)) key dialect /\
       carried (signs key dialect) (checked key dialect) (transcript p start) wire /\
       (bytes_ok key -> Forall (fun m => bytes_ok (fst m)) (transcript p start) ->
        Forall (fun m => verifySmb2DirectTcpFrameSignature (fst m) key dialect = Ok true)
          wire)).
Proof.
  split.
  - intros ek dk sid n start.
    destruct (encrypted_carries p w [] ek dk sid dialect n) as (w' & n' & wire & Hs & Hc).
    exists w', n', wire. split; [exact Hs|]. split; [exact Hc|].
    eapply (carried_sent _ _ (fun _ => True)); [exact Hc|by apply Forall_true|].
    intros request sent _ [m Hm]. by eapply encrypted_is_transform.
  - intros key start.
    destruct (signed_carries p w [] key dialect) as (w' & wire & Hs & Hc).
    exists w', wire. split; [exact Hs|]. split; [exact Hc|]. intros Hk Hb.
    eapply (carried_sent _ _ bytes_ok
      (fun sent => verifySmb2DirectTcpFrameSignature sent key dialect = Ok true));
      [exact Hc|exact Hb|].
    intros request sent Hr Hsig. by eapply sign_then_verify.
Qed.
End protected_wire.

(** ** An encrypted session *)

(** The server's end of the channel as a world: the caller's token and
    callbacks are beside it. *)
Definition on_server {W A} (f : W -> W * A) (p : Smb3Peer W) : Smb3Peer W * A :=
  let '(w, a) := f (peer_server p) in
  (mkSmb3Peer w (peer_requestKey p) (peer_responseKey p) (peer_sessionId p)
     (peer_dialect p) (peer_nonce p), a).

#[export] Instance peer_world {W} `{World W} : World (Smb3Peer W) := {|
  world_transport := peer_exchange;
  ask_token := on_server ask_token;
  ask_callback := on_server ask_callback;
  report_progress p progress :=
    fst (on_server (fun w => (report_progress w progress, tt)) p)
|}.

(** A frame that is still one when a transform header is put before its
    message. *)
Definition frame_fits (frame : bytes) : Prop :=
  exists message, bytes_ok message /\ encodeDirectTcpFrame message = Ok frame /\
    52 + blen message <= kMaxDirectTcpPayloadLength.

Definition message_fits (m : message) : Prop :=
  frame_fits (fst m) /\ match snd m with Ok answer => frame_fits answer | _ => True end.

Section encrypted_session.
Context {W : Type} `{World W}.
Context (requestKey responseKey : bytes) (sessionId : Z) (dialect : Dialect) (nonce : bytes).

Definition over_channel (server : W) (counter : Z) : Stack (Smb3Peer W) :=
  encrypted_stack
    (Direct (mkSmb3Peer server requestKey responseKey sessionId dialect nonce))
    requestKey responseKey sessionId dialect counter.

Definition same_server (server : W) (s : Stack (Smb3Peer W)) : Prop :=
  exists counter, s = over_channel server counter.

Lemma over_channel_exchange server counter frame context :
  is_block requestKey -> is_block responseKey -> is_u64 sessionId ->
  supportsEncryption dialect = true -> bytes_ok nonce -> blen nonce = 16 ->
  message_fits (frame, snd (exchange server frame context)) ->
  exchange (over_channel server counter) frame context =
  (over_channel (fst (exchange server frame context)) (u64 (counter + 1)),
   snd (exchange server frame context)).
Proof.
  intros Hk Hk' Hs Hd Hn Hnl [(request & Hreq & Hf & Hroom) Hfits]. cbn [fst snd] in *.
  pose proof (encrypted_channel_transparent server (fst (exchange server frame context))
    requestKey responseKey sessionId dialect nonce counter request
    (snd (exchange server frame context)) frame context Hk Hk' Hs Hd Hn Hnl Hreq
    Hroom Hf) as Ht.
  rewrite <- surjective_pairing in Ht. specialize (Ht eq_refl Hfits). cbv zeta in Ht.
  unfold exchange at 1 in Ht. unfold encryption_exchange in Ht.
  unfold over_channel. rewrite encrypted_stack_exchange.
  cbn [set_inner nextNonce set_encryptionKey set_sessionId set_dialect set_decryptionKey
    set_nonceCounter] in Ht.
  destruct (encryptSmb3DirectTcpFrame _ _ _ _ _) as [sent| | |].
  - unfold exchange at 1 2. cbn [world_transport stack_world stack_exchange].
    destruct (exchange (mkSmb3Peer server _ _ _ _ _) sent context) as [peer r] eqn:He.
    change (exchange (mkSmb3Peer server requestKey responseKey sessionId dialect nonce)
              sent context) with (peer_exchange (mkSmb3Peer server requestKey responseKey
              sessionId dialect nonce) sent context) in *.
    cbn [fst snd]. unfold with_inner in Ht. cbn in Ht. injection Ht as Hp Hr.
    unfold encrypted_stack, decrypted. by rewrite Hp, Hr.
  - injection Ht as Hp Hr. by rewrite <- Hp, <- Hr.
  - injection Ht as Hp Hr. by rewrite <- Hp, <- Hr.
  - injection Ht as Hp Hr. by rewrite <- Hp, <- Hr.
Qed.

Lemma over_channel_bottom {B} (f : W -> W * B) b server counter :
  on_bottom (on_server f) b (over_channel server counter) =
  (over_channel (fst (f server)) counter, snd (f server)).
Proof. cbn. unfold on_server. cbn. by destruct (f server). Qed.

(** C28: A session over an encrypted channel is the session: whatever program
    runs over the encryption layer, with a peer that holds the same keys, ends
    with the result it has when it runs on the peer's server directly, and
    leaves the server as it is left then, as long as the frames the two
    exchange leave room for the transform header. *)
Theorem encrypted_session_transparent {A} (p : prog A) server counter :
  is_block requestKey -> is_block responseKey -> is_u64 sessionId ->
  supportsEncryption dialect = true -> bytes_ok nonce -> blen nonce = 16 ->
  Forall message_fits (transcript p server) ->
  exists counter',
    perform p (over_channel server counter) =
    (over_channel (fst (perform p server)) counter', snd (perform p server)).
Proof using Type.
  intros Hk Hk' Hs Hd Hn Hnl Hall.
  destruct (perform_same same_server message_fits) with (p := p) (w := server)
    (w' := over_channel server counter) as [[c Hc] Ho]; try done.
  - intros w ? frame context [c ->] Hok. rewrite over_channel_exchange by done.
    split; [by eexists|done].
  - intros w ? [c ->]. cbn [ask_token stack_world peer_world].
    rewrite over_channel_bottom. by split; [exists c|].
  - intros w ? [c ->]. cbn [ask_callback stack_world peer_world].
    rewrite over_channel_bottom. by split; [exists c|].
  - intros w ? progress [c ->]. cbn [report_progress stack_world peer_world].
    by exists c.
  - by exists counter.
  - exists c. destruct (perform p (over_channel server counter)) as [s o].
    cbn [fst snd] in Hc, Ho. congruence.
Qed.
End encrypted_session.

(** A frame around a message of 64 zero bytes, a request for a server that
    sends it back. *)
Definition zero_frame : bytes := [0; 0; 0; 64] ++ zeros 64.

Definition plain_exchange : action bytes :=
  transport_exchange zero_frame (mkOperationContext 1000 false false false).

Lemma zero_frame_ok : bytes_ok zero_frame.
Proof.
  apply bytes_ok_app; [|apply zeros_ok]. repeat (apply bytes_ok_cons; [ulia|]).
  apply bytes_ok_nil.
Qed.

Lemma zero_frame_fits : frame_fits zero_frame.
Proof. exists (zeros 64). split; [apply (zeros_ok 64)|]. split; [reflexivity|discriminate]. Qed.

Lemma zeros_16_block : is_block (zeros 16).
Proof. split; [apply (zeros_ok 16)|reflexivity]. Qed.

Lemma protected_wire_witness :
  let start := signed_stack (Direct (mkRecorded tt [])) [1; 2; 3] Dialect_Smb202 in
  exists w' wire,
    fst (perform plain_exchange start) =
      signed_stack (Direct (mkRecorded w' wire)) [1; 2; 3] Dialect_Smb202 /\
    Forall (fun m => verifySmb2DirectTcpFrameSignature (fst m) [1; 2; 3] Dialect_Smb202
                     = Ok true) wire.
Proof.
  destruct (protected_wire plain_exchange tt Dialect_Smb202) as [_ Hs].
  destruct (Hs [1; 2; 3]) as (w' & wire & He & _ & Hv). exists w', wire.
  split; [exact He|]. apply Hv.
  - repeat (apply bytes_ok_cons; [ulia|]). apply bytes_ok_nil.
  - apply Forall_cons_2; [apply zero_frame_ok|by apply Forall_nil_2].
Defined.

Lemma encrypted_session_transparent_witness :
  exists counter',
    perform plain_exchange (over_channel (zeros 16) (zeros 16) 9 Dialect_Smb300 (zeros 16)
      [zero_frame] 1) =
    (over_channel (zeros 16) (zeros 16) 9 Dialect_Smb300 (zeros 16) [] counter',
     Some (Ok zero_frame)).
Proof.
  assert (perform plain_exchange [zero_frame] = ([], Some (Ok zero_frame))) as He
    by (vm_compute; reflexivity).
  pose proof (encrypted_session_transparent (zeros 16) (zeros 16) 9 Dialect_Smb300
    (zeros 16) plain_exchange [zero_frame] 1 zeros_16_block zeros_16_block) as Ht.
  rewrite He in Ht. apply Ht; try reflexivity; try ulia.
  - apply (zeros_ok 16).
  - assert (transcript plain_exchange [zero_frame] = [(zero_frame, Ok zero_frame)]) as ->
      by (vm_compute; reflexivity).
    apply Forall_cons_2; [|by apply Forall_nil_2]. split; exact zero_frame_fits.
Defined.

(** With both layers on, as [connect] puts them, the signing layer is inside
    the encryption layer: it signs the transform message, and the flags and
    the signature it writes overwrite the tag, the session id and the
    ciphertext.  What reaches the wire does not decrypt. *)
Lemma encryption_over_signing_unreadable :
  let start := encrypted_stack
    (signed_stack (Direct (mkRecorded tt [])) (zeros 16) Dialect_Smb300)
    (zeros 16) (zeros 16) 9 Dialect_Smb300 1 in
  (fun m => decryptSmb3DirectTcpFrame (fst m) (zeros 16) 9 Dialect_Smb300)
    <$> messages_of (fst (perform plain_exchange start)) =
  [failure ErrorCode_ProtocolUnsupported
     "SMB3 response transform session id does not match the session."].
Proof. vm_compute. reflexivity. Qed.
