(* ===== verification/Connector.v ===== *)
(** * Setting a connection up

    [Negotiator.cpp], [SessionSetupExchanger.cpp] and [TreeConnector.cpp] are the three
    exchanges.  [NativeSmbConnector.cpp] negotiates, sets a session up, puts the signing
    and encryption layers around the transport the policy and the server ask for, and
    connects the tree; [NativeSmbConnection.cpp] owns the transport and the session that
    result. *)

From S2P Require Export Layers Session.
Local Open Scope Z_scope.
Local Open Scope comp_scope.

(** * Negotiation, session setup and tree connection *)

Record NegotiatedConnection : Set := mkNegotiatedConnection {
  ngc_dialect : Dialect;
  ngc_signingRequired : bool;
  ngc_encryptionSupported : bool;
  ngc_capabilities : Z;
  ngc_maxReadSize : Z;
  ngc_maxWriteSize : Z;
  ngc_securityBuffer : bytes;
  ngc_preauthIntegrityHash : bytes
}.

Record TreeConnectResult : Set := mkTreeConnectResult {
  tcn_treeId : Z;
  tcn_shareType : ShareType;
  tcn_isDfs : bool;
  tcn_isDfsRoot : bool;
  tcn_requiresEncryption : bool;
  tcn_maximalAccess : Z
}.

Definition hasCapability (capabilities : Z) (capability : GlobalCapability) : bool :=
  negb (Z.land capabilities (globalCapability_value capability) =? 0).

Definition is_smb311 (dialect : Dialect) : bool := bool_decide (dialect = Dialect_Smb311).

Section handshake.
Context (crypto_hash_sha512 : bytes -> bytes).

(** The hash of the two NEGOTIATE messages, kept for SMB 3.1.1 only. *)
Definition negotiatedPreauthHash (dialect : Dialect) (requestPayload payload : bytes)
    : comp bytes :=
  if is_smb311 dialect then
    updated ← reraise (updateSmb311PreauthHash crypto_hash_sha512
                         initialSmb311PreauthHash requestPayload);
    reraise (updateSmb311PreauthHash crypto_hash_sha512 updated payload)
  else Ok [].

Definition negotiatedConnection (options : NegotiateRequestOptions)
    (response : NegotiateResponse) (preauthHash : bytes) : NegotiatedConnection :=
  mkNegotiatedConnection (ngr_dialect response)
    (negb (Z.land (ngr_securityMode response) 0x0002 =? 0)
     || bool_decide (nqo_signing options = SecurityPolicy_Required))
    (hasCapability (ngr_capabilities response) GlobalCapability_Encryption)
    (ngr_capabilities response) (ngr_maxReadSize response)
    (ngr_maxWriteSize response) (ngr_securityBuffer response) preauthHash.

Definition Negotiator_negotiate (options : NegotiateRequestOptions)
    (context : OperationContext) : action NegotiatedConnection :=
  cancel_if context with "SMB negotiation was cancelled.";;
  let dialects := negotiateDialects options in
  requestPayload ← lift (buildNegotiateRequest options 0);
  requestFrame ← lift (encodeDirectTcpFrame requestPayload);
  responseFrame ← reraised (transport_exchange requestFrame context);
  cancel_if context with "SMB negotiation was cancelled.";;
  payload ← lift (reraise (decodeDirectTcpPayload responseFrame));
  response ← lift (reraise (decodeNegotiateResponse payload dialects));
  preauthHash ← lift (negotiatedPreauthHash (ngr_dialect response) requestPayload payload);
  mret (negotiatedConnection options response preauthHash).
End handshake.

(** [response.value.requestPayload = ...; response.value.responsePayload = ...] *)
Definition with_payloads (r : SessionSetupResponse) (requestPayload payload : bytes)
    : SessionSetupResponse :=
  mkSessionSetupResponse (ssr_status r) (ssr_sessionId r) (ssr_sessionFlags r)
    (ssr_securityBuffer r) requestPayload payload (ssr_moreProcessingRequired r)
    (ssr_guestSession r) (ssr_nullSession r) (ssr_encryptData r).

Definition SessionSetupExchanger_exchange (options : SessionSetupRequestOptions)
    (messageId sessionId : Z) (context : OperationContext)
    : action SessionSetupResponse :=
  cancel_if context with "SMB session setup was cancelled.";;
  requestPayload ← lift (buildSessionSetupRequest options messageId sessionId);
  requestFrame ← lift (encodeDirectTcpFrame requestPayload);
  responseFrame ← reraised (transport_exchange requestFrame context);
  cancel_if context with "SMB session setup was cancelled.";;
  payload ← lift (reraise (decodeDirectTcpPayload responseFrame));
  response ← lift (reraise (decodeSessionSetupResponse payload));
  mret (with_payloads response requestPayload payload).

Definition treeConnectResult (response : TreeConnectResponse) (header : Smb2SyncHeader)
    : TreeConnectResult :=
  mkTreeConnectResult (hdr_treeId header) (tcr_shareType response)
    (tcr_isDfs response) (tcr_isDfsRoot response) (tcr_requiresEncryption response)
    (tcr_maximalAccess response).

Definition TreeConnector_connect (options : TreeConnectRequestOptions)
    (messageId sessionId : Z) (context : OperationContext)
    : action TreeConnectResult :=
  exchanger "tree connect" (buildTreeConnectRequest options messageId sessionId)
    (fun payload =>
       response ← decodeTreeConnectResponse payload;
       header ← decodeSmb2SyncHeader payload;
       Ok (treeConnectResult response header)) context.

(** * The connector and the connection *)

(** ** Options and results *)

(** [ConnectionConfig], with the fields the connector reads (the others,
    [normalizedUri], [domain], [username], [authMode], [dialectFamily] and
    [timeout], are the token provider's and the caller's). *)
Record ConnectionConfig : Set := mkConnectionConfig {
  cfg_server : bytes;
  cfg_share : bytes;
  cfg_domain : bytes;
  cfg_username : bytes;
  cfg_authMode : AuthMode;
  cfg_signing : SecurityPolicy;
  cfg_encryption : SecurityPolicy
}.

Record NativeSmbConnectorOptions : Set := mkNativeSmbConnectorOptions {
  nco_config : ConnectionConfig;
  nco_negotiateOptions : NegotiateRequestOptions;
  nco_firstSessionMessageId : Z;
  nco_maxSessionSetupRounds : Z
}.

(** [SessionSetupTokenProvider]: the abstract class the authentication
    mechanisms implement; [P] is the type of its objects. *)
Class SessionSetupTokenProvider (P : Type) : Type := {
  initialToken : P -> NegotiatedConnection -> ConnectionConfig -> P * comp bytes;
  nextToken : P -> SessionSetupResponse -> ConnectionConfig -> P * comp bytes;
  sessionBaseKey : P -> comp bytes
}.

(** The implementation of [sessionBaseKey] in the class itself. *)
Definition default_sessionBaseKey : comp bytes :=
  failure ErrorCode_UnsupportedCapability
    "Session setup token provider does not expose a session key.".

(** [NativeSmbConnection]: its transport is never null, since the constructor
    makes a session of it. *)
Record NativeSmbConnection (W : Type) : Type := mkNativeSmbConnection {
  nbc_transport : Stack W;
  nbc_session : NativeSmbSession;
  nbc_disconnected : bool
}.
Arguments mkNativeSmbConnection {_} _ _ _.
Arguments nbc_transport {_} _.
Arguments nbc_session {_} _.
Arguments nbc_disconnected {_} _.

(** The constructor. *)
Definition newNativeSmbConnection {W} (transport : Stack W)
    (sessionConfig : NativeSmbSessionConfig) : NativeSmbConnection W :=
  mkNativeSmbConnection transport (newNativeSmbSession sessionConfig) false.

Record NativeSmbConnectedState (W : Type) : Type := mkNativeSmbConnectedState {
  ncs_connection : NativeSmbConnection W;
  ncs_negotiated : NegotiatedConnection;
  ncs_session : SessionSetupResponse;
  ncs_tree : TreeConnectResult
}.
Arguments mkNativeSmbConnectedState {_} _ _ _ _.
Arguments ncs_connection {_} _.
Arguments ncs_negotiated {_} _.
Arguments ncs_session {_} _.
Arguments ncs_tree {_} _.

(** ** Helpers of the connector *)

Definition is_disabled (p : SecurityPolicy) : bool := bool_decide (p = SecurityPolicy_Disabled).
Definition is_required (p : SecurityPolicy) : bool := bool_decide (p = SecurityPolicy_Required).
Definition is_preferred (p : SecurityPolicy) : bool := bool_decide (p = SecurityPolicy_Preferred).

Definition supportsAesCcmEncryption (dialect : Dialect) : bool :=
  bool_decide (dialect = Dialect_Smb300) || bool_decide (dialect = Dialect_Smb302).

(** The capabilities both requests declare. *)
Definition declaredCapabilities (capabilities : Z) (config : ConnectionConfig) : Z :=
  let capabilities :=
    Z.lor capabilities (capabilityMask [GlobalCapability_Dfs; GlobalCapability_LargeMtu]) in
  if is_disabled (cfg_encryption config) then capabilities
  else Z.lor capabilities (capabilityMask [GlobalCapability_Encryption]).

Definition negotiateOptionsFrom (options : NativeSmbConnectorOptions)
    : NegotiateRequestOptions :=
  let negotiate := nco_negotiateOptions options in
  mkNegotiateRequestOptions (nqo_dialects negotiate)
    (cfg_signing (nco_config options))
    (declaredCapabilities (nqo_capabilities negotiate) (nco_config options))
    (nqo_clientGuid negotiate).

Definition sessionSetupOptionsFrom (options : NativeSmbConnectorOptions)
    (token : bytes) : SessionSetupRequestOptions :=
  mkSessionSetupRequestOptions 0 (cfg_signing (nco_config options))
    (declaredCapabilities 0 (nco_config options)) 0 token.

Definition show_bool (b : bool) : string := if b then "true" else "false".

Definition treeConnectFailureFrom {A} (error : ProtocolError)
    (negotiated : NegotiatedConnection) (session : SessionSetupResponse) : comp A :=
  failure (err_code error)
    (err_message error +:+ " negotiated_dialect=0x"
     +:+ std_hex_upper (dialect_value (ngc_dialect negotiated))
     +:+ " signing_required=" +:+ show_bool (ngc_signingRequired negotiated)
     +:+ " encryption_supported=" +:+ show_bool (ngc_encryptionSupported negotiated)
     +:+ " session_encrypt=" +:+ show_bool (ssr_encryptData session)
     +:+ " guest=" +:+ show_bool (ssr_guestSession session)
     +:+ " null_session=" +:+ show_bool (ssr_nullSession session)
     +:+ ".").

(** [options.firstSessionMessageId == 0 ? 1 : options.firstSessionMessageId] *)
Definition firstMessageId (options : NativeSmbConnectorOptions) : Z :=
  if nco_firstSessionMessageId options =? 0 then 1 else nco_firstSessionMessageId options.

Definition maxRounds (options : NativeSmbConnectorOptions) : Z :=
  if nco_maxSessionSetupRounds options =? 0 then 1 else nco_maxSessionSetupRounds options.

(** What the connector decides once the session is set up. *)
Section decisions.
Context (options : NativeSmbConnectorOptions) (negotiated : NegotiatedConnection)
  (session : SessionSetupResponse).

Definition anonymous_session : bool := ssr_guestSession session || ssr_nullSession session.

Definition sessionCanEncrypt : bool :=
  ngc_encryptionSupported negotiated && supportsAesCcmEncryption (ngc_dialect negotiated)
  && negb (ssr_guestSession session) && negb (ssr_nullSession session).

Definition shouldSignConnection : bool :=
  (ngc_signingRequired negotiated || negb (is_disabled (cfg_signing (nco_config options))))
  && negb (ssr_guestSession session) && negb (ssr_nullSession session).

(** [session.encryptData || options.config.encryption == Required] *)
Definition mustEncryptSession : bool :=
  ssr_encryptData session || is_required (cfg_encryption (nco_config options)).

Definition needsSessionKey : bool := shouldSignConnection || mustEncryptSession.
End decisions.

(** ** The connector *)

Section connector.
Context {W P : Type} `{World W} `{SessionSetupTokenProvider P}.
Context (crypto_hash_sha512 : bytes -> bytes).

(** A step of [connect]: it works on the transport and the token provider, and
    may fail or throw ([None] stands for a program that was cut; [connect]
    runs none). *)
Definition connecting (A : Type) : Type :=
  Stack W * P -> Stack W * P * option (comp A).

#[export] Instance connecting_ret : MRet connecting := fun A a st => (st, Some (Ok a)).
#[export] Instance connecting_bind : MBind connecting := fun A B f p st =>
  let '(st, r) := p st in
  match r with
  | Some (Ok a) => f a st
  | Some (Err e) => (st, Some (Err e))
  | Some (Throw m) => (st, Some (Throw m))
  | Some OutOfBounds => (st, Some OutOfBounds)
  | None => (st, None)
  end.

Definition pure {A} (c : comp A) : connecting A := fun st => (st, Some c).

(** A program run on the transport of the moment. *)
Definition on_transport {A} (p : action A) : connecting A := fun '(t, q) =>
  let '(t, r) := perform p t in (t, q, r).

Definition ask_provider {A} (f : P -> P * comp A) : connecting A := fun '(t, q) =>
  let '(q, r) := f q in (t, q, Some (reraise r)).

Definition ask_sessionBaseKey : connecting bytes :=
  ask_provider (fun q => (q, sessionBaseKey q)).

(** [transport = std::make_unique<...>(std::move(transport), ...)] *)
Definition wrap_transport (layer : Stack W -> Stack W) : connecting unit :=
  fun '(t, q) => (layer t, q, Some (Ok tt)).

(** A result that is looked at: only a failure is caught. *)
Definition attempt {A} (p : connecting A) : connecting (comp A) := fun st =>
  let '(st, r) := p st in
  match r with
  | Some (Ok a) => (st, Some (Ok (Ok a)))
  | Some (Err e) => (st, Some (Ok (Err e)))
  | Some (Throw m) => (st, Some (Throw m))
  | Some OutOfBounds => (st, Some OutOfBounds)
  | None => (st, None)
  end.

Section connect.
Context (options : NativeSmbConnectorOptions) (context : OperationContext).

(** The hash after a round of SESSION_SETUP: the last response is left out. *)
Definition roundPreauthHash (dialect : Dialect) (hash : bytes)
    (session : SessionSetupResponse) : comp bytes :=
  if is_smb311 dialect then
    updated ← reraise (updateSmb311PreauthHash crypto_hash_sha512 hash
                         (ssr_requestPayload session));
    if ssr_moreProcessingRequired session
    then reraise (updateSmb311PreauthHash crypto_hash_sha512 updated
                    (ssr_responsePayload session))
    else Ok updated
  else Ok hash.

(** What the loop leaves behind. *)
Record setup_state : Set := mkSetupState {
  sus_session : SessionSetupResponse;
  sus_sessionId : Z;
  sus_messageId : Z;
  sus_preauthHash : bytes
}.

(** [SessionSetupResponse session;] *)
Definition emptySessionSetupResponse : SessionSetupResponse :=
  mkSessionSetupResponse 0 0 0 [] [] [] false false false false.

(** [for (round = 0; round < maxRounds; ++round)]: [rounds] are left. *)
Fixpoint setup_loop (rounds : nat) (negotiated : NegotiatedConnection)
    (token : bytes) (s : setup_state) : connecting setup_state :=
  match rounds with
  | O => mret s
  | S rounds =>
      session ← on_transport (reraised
        (SessionSetupExchanger_exchange (sessionSetupOptionsFrom options token)
           (sus_messageId s) (sus_sessionId s) context));
      hash ← pure (roundPreauthHash (ngc_dialect negotiated) (sus_preauthHash s) session);
      let s := mkSetupState session (ssr_sessionId session)
                 (u64 (sus_messageId s + 1)) hash in
      if negb (ssr_moreProcessingRequired session) then mret s
      else
        token ← ask_provider (fun q => nextToken q session (nco_config options));
        if bool_decide (rounds = O) then
          pure (failure ErrorCode_InternalError "SMB SESSION_SETUP exceeded round limit.")
        else setup_loop rounds negotiated token s
  end.

(** The signing key for the dialect. *)
Definition signingKeyFor (dialect : Dialect) (sessionKey preauthHash : bytes)
    : comp bytes :=
  if is_smb311 dialect then reraise (deriveSmb311SigningKey sessionKey preauthHash)
  else if supportsAesCmacSigning dialect
  then reraise (deriveSmb3SigningKey sessionKey dialect)
  else Ok sessionKey.

(** The check of the final SESSION_SETUP response. *)
Definition verifyFinalSession (negotiated : NegotiatedConnection) (signingKey : bytes)
    (session : SessionSetupResponse) : comp unit :=
  frame ← encodeDirectTcpFrame (ssr_responsePayload session);
  match decodeDirectTcpPayload frame with
  | Ok payload =>
      let isSigned := match decodeSmb2SyncHeader payload with
                      | Ok header => negb (Z.land (hdr_flags header) kFlagSigned =? 0)
                      | _ => false
                      end in
      if isSigned || ngc_signingRequired negotiated then
        verified ← reraise (verifySmb2DirectTcpFrameSignature frame signingKey
                              (ngc_dialect negotiated));
        fail_if negb verified with ErrorCode_ProtocolUnsupported,
          "SMB2 final SESSION_SETUP response has an invalid signature.";;
        Ok tt
      else Ok tt
  | _ => Ok tt
  end.

Definition signingLayer (key : bytes) (dialect : Dialect) (t : Stack W) : Stack W :=
  Signing (mkSigningTransport (Some t) key dialect true).

Definition encryptionLayer (encryptionKey decryptionKey : bytes) (sessionId : Z)
    (dialect : Dialect) (t : Stack W) : Stack W :=
  Encrypting (newSmb3EncryptionTransport (Some t) encryptionKey decryptionKey
                sessionId dialect).

Definition enableSigning (negotiated : NegotiatedConnection) (sessionKey : bytes)
    (s : setup_state) : connecting unit :=
  let dialect := ngc_dialect negotiated in
  if negb (supportsSigning dialect) then
    pure (failure ErrorCode_UnsupportedCapability
      "Clean-room SMB signing is not implemented for the negotiated dialect.")
  else
    signingKey ← pure (signingKeyFor dialect sessionKey (sus_preauthHash s));
    pure (verifyFinalSession negotiated signingKey (sus_session s));;
    wrap_transport (signingLayer signingKey dialect).

(** The closure [enableEncryption], with [connectionEncrypted] and [sessionKey]
    passed to it; the key it may fetch is not used again, because a success
    sets [connectionEncrypted] and a failure ends [connect]. *)
Definition enableEncryption (negotiated : NegotiatedConnection) (s : setup_state)
    (connectionEncrypted : bool) (sessionKey : bytes) : connecting bool :=
  let dialect := ngc_dialect negotiated in
  if connectionEncrypted then mret true
  else if negb (sessionCanEncrypt negotiated (sus_session s)) then
    pure (failure ErrorCode_UnsupportedCapability
      "SMB encryption is required, but the negotiated connection does not support the clean-room AES-CCM transform layer.")
  else
    sessionKey ← (if decide (sessionKey = []) then ask_sessionBaseKey else mret sessionKey);
    encryptionKey ← pure (reraise (deriveSmb3EncryptionKey sessionKey dialect
                                     ClientToServer));
    decryptionKey ← pure (reraise (deriveSmb3EncryptionKey sessionKey dialect
                                     ServerToClient));
    wrap_transport (encryptionLayer encryptionKey decryptionKey (sus_sessionId s) dialect);;
    mret true.

(** The call of [treeConnector.connect], its failure looked at *)
Definition connectTree (messageId sessionId : Z) : connecting (comp TreeConnectResult) :=
  attempt (on_transport (TreeConnector_connect
    (mkTreeConnectRequestOptions (cfg_server (nco_config options))
       (cfg_share (nco_config options)) 0) messageId sessionId context)).

Definition isPermissionDenied {A} (r : comp A) : bool :=
  match r with Err e => bool_decide (err_code e = ErrorCode_PermissionDenied) | _ => false end.

(** The tree, with one more try under encryption when the policy only prefers
    it; what is encrypted and the next message id come with it. *)
Definition connectTreeWithRetry (negotiated : NegotiatedConnection) (s : setup_state)
    (sessionKey : bytes) (connectionEncrypted : bool)
    : connecting (comp TreeConnectResult * bool * Z) :=
  let messageId := sus_messageId s in
  let next := u64 (messageId + 1) in
  tree ← connectTree messageId (sus_sessionId s);
  if isPermissionDenied tree && is_preferred (cfg_encryption (nco_config options))
     && sessionCanEncrypt negotiated (sus_session s) && negb connectionEncrypted
  then
    encrypted ← enableEncryption negotiated s connectionEncrypted sessionKey;
    tree ← connectTree next (sus_sessionId s);
    mret (tree, encrypted, u64 (next + 1))
  else mret (tree, connectionEncrypted, next).

Definition connected_state (negotiated : NegotiatedConnection) (s : setup_state)
    (tree : TreeConnectResult) (messageId : Z) : connecting (NativeSmbConnectedState W) :=
  fun '(t, q) => (t, q, Some (Ok (mkNativeSmbConnectedState
    (newNativeSmbConnection t
       (mkNativeSmbSessionConfig (tcn_treeId tree) (sus_sessionId s) messageId))
    negotiated (sus_session s) tree))).

(** The guards between negotiation and the first token. *)
Definition checkNegotiated (negotiated : NegotiatedConnection) : comp unit :=
  if is_required (cfg_encryption (nco_config options)) then
    fail_if negb (ngc_encryptionSupported negotiated) with ErrorCode_UnsupportedCapability,
      "SMB encryption is required by policy, but the server did not advertise SMB3 encryption support.";;
    fail_if negb (supportsAesCcmEncryption (ngc_dialect negotiated))
      with ErrorCode_UnsupportedCapability,
      "SMB encryption is required by policy, but the negotiated dialect is not supported by the clean-room AES-CCM transform layer.";;
    Ok tt
  else Ok tt.

(** The guards after the loop. *)
Definition checkSession (negotiated : NegotiatedConnection) (s : setup_state) : comp unit :=
  fail_if sus_sessionId s =? 0 with ErrorCode_InternalError,
    "SMB SESSION_SETUP completed without a session id.";;
  fail_if mustEncryptSession options (sus_session s)
          && negb (sessionCanEncrypt negotiated (sus_session s))
    with ErrorCode_UnsupportedCapability,
    "SMB encryption is required, but the negotiated connection does not support the clean-room AES-CCM transform layer.";;
  Ok tt.

(** [connect], from the first token on. *)
Definition setupSession (negotiated : NegotiatedConnection) : connecting setup_state :=
  token ← ask_provider (fun q => initialToken q negotiated (nco_config options));
  setup_loop (Z.to_nat (maxRounds options)) negotiated token
    (mkSetupState emptySessionSetupResponse 0 (firstMessageId options)
       (ngc_preauthIntegrityHash negotiated)).

Definition NativeSmbConnector_connect : connecting (NativeSmbConnectedState W) :=
  negotiated ← on_transport (reraised
    (Negotiator_negotiate crypto_hash_sha512 (negotiateOptionsFrom options) context));
  pure (checkNegotiated negotiated);;
  s ← setupSession negotiated;
  let session := sus_session s in
  pure (checkSession negotiated s);;
  sessionKey ← (if needsSessionKey options negotiated session
                then ask_sessionBaseKey else mret []);
  (if shouldSignConnection options negotiated session
   then enableSigning negotiated sessionKey s else mret tt);;
  encrypted ← (if mustEncryptSession options session
               then enableEncryption negotiated s false sessionKey else mret false);
  '(tree, encrypted, messageId) ← connectTreeWithRetry negotiated s sessionKey encrypted;
  tree ← pure (match tree with
               | Err e => treeConnectFailureFrom e negotiated session
               | other => other
               end);
  let shouldEncrypt := mustEncryptSession options session || tcn_requiresEncryption tree in
  (if shouldEncrypt && negb encrypted
   then enableEncryption negotiated s encrypted sessionKey else mret encrypted);;
  connected_state negotiated s tree messageId.
End connect.
End connector.

(** ** The connection *)

Section connection.
Context {W : Type} `{World W}.

(** An operation of the session, run on the transport the connection owns. *)
Definition connected (A : Type) : Type :=
  NativeSmbConnection W -> NativeSmbConnection W * option (comp A).

Definition on_session {A} (op : sessioned A) : connected A := fun c =>
  let '(t, r) := perform (op (nbc_session c)) (nbc_transport c) in
  match r with
  | Some (s, r) => (mkNativeSmbConnection t s (nbc_disconnected c), Some r)
  | None => (mkNativeSmbConnection t (nbc_session c) (nbc_disconnected c), None)
  end.

Section delegations.
Context (context : OperationContext).

Definition connection_listDirectory (fuel : nat) (path : bytes) :=
  on_session (listDirectory context fuel path).
Definition connection_statObject (path : bytes) := on_session (statObject context path).
Definition connection_metadataCapabilities : NativeMetadataCapabilities :=
  metadataCapabilities.
Definition connection_setBasicInformation (path : bytes) (info : FileBasicInformation) :=
  on_session (session_setBasicInformation context path info).
Definition connection_listExtendedAttributes (path : bytes) :=
  on_session (session_listExtendedAttributes context path).
Definition connection_setExtendedAttributes (path : bytes)
    (entries : list FileFullEaInformation) :=
  on_session (session_setExtendedAttributes context path entries).
Definition connection_removeExtendedAttribute (path name : bytes) :=
  on_session (session_removeExtendedAttribute context path name).
Definition connection_querySecurityDescriptor (path : bytes) (securityInformation : Z) :=
  on_session (session_querySecurityDescriptor context path securityInformation).
Definition connection_setSecurityDescriptor (path : bytes) (securityInformation : Z)
    (descriptor : bytes) :=
  on_session (session_setSecurityDescriptor context path securityInformation descriptor).
Definition connection_readFileOnce (path : bytes) (length offset : Z) :=
  on_session (readFileOnce context path length offset).
Definition connection_openFileForRead (path : bytes) :=
  on_session (openFileForRead context path).
Definition connection_readFileChunk (fileId : FileId) (length offset : Z) :=
  on_session (readFileChunk context fileId length offset).
Definition connection_closeFileHandle (fileId : FileId) :=
  on_session (closeFileHandle context fileId).
Definition connection_writeFileOnce (path data : bytes) (offset : Z) :=
  on_session (writeFileOnce context path data offset).
Definition connection_createDirectory (path : bytes) :=
  on_session (session_createDirectory context path).
Definition connection_deleteObject (path : bytes) (directory : bool) :=
  on_session (session_deleteObject context path directory).
Definition connection_deleteTree (fuel : nat) (path : bytes) :=
  on_session (session_deleteTree context fuel path).
Definition connection_deleteWildcard (fuel : nat) (parentPath pattern : bytes) :=
  on_session (session_deleteWildcard context fuel parentPath pattern).
Definition connection_renameObject (fromPath toPath : bytes) (replaceIfExists : bool) :=
  on_session (session_renameObject context fromPath toPath replaceIfExists).
Definition connection_createHardLink (existingPath linkPath : bytes)
    (replaceIfExists : bool) :=
  on_session (session_createHardLink context existingPath linkPath replaceIfExists).
Definition connection_createSymbolicLink (linkPath targetPath : bytes)
    (directory relative : bool) :=
  on_session (session_createSymbolicLink context linkPath targetPath directory relative).
Definition connection_copyFileServerSide (sourcePath targetPath : bytes) (size : Z) :=
  on_session (copyFileServerSide context sourcePath targetPath size).
Definition connection_watchDirectoryOnce (path : bytes) (completionFilter : Z)
    (watchTree : bool) :=
  on_session (watchDirectoryOnce context path completionFilter watchTree).
Definition connection_listShares (serverName : bytes) :=
  on_session (session_listShares context serverName).
Definition connection_getDfsReferrals (requestPath : bytes) :=
  on_session (session_getDfsReferrals context requestPath).
End delegations.

(** The exchanges of [disconnect]. *)
Definition disconnectTree (context : OperationContext) : sessioned unit :=
  messageId ← allocateMessageIds 1;
  payload ← run_at (fun m t s c =>
    reraised (exchangePayload (Ok (buildTreeDisconnectRequest m t s)) c)) context messageId;
  plain (lift (reraise (decodeTreeDisconnectResponse payload)));;
  mret tt.

Definition logoff (context : OperationContext) : sessioned unit :=
  messageId ← allocateMessageIds 1;
  payload ← run_at (fun m t s c =>
    reraised (exchangePayload (Ok (buildLogoffRequest m s)) c)) context messageId;
  plain (lift (reraise (decodeLogoffResponse payload)));;
  mret tt.

Definition NativeSmbConnection_disconnect (context : OperationContext) : connected bool :=
  fun c =>
    if nbc_disconnected c then (c, Some (Ok true))
    else
      let '(c, r) := on_session (disconnectTree context;; logoff context;; mret true) c in
      match r with
      | Some (Ok _) => (mkNativeSmbConnection (nbc_transport c) (nbc_session c) true, r)
      | _ => (c, r)
      end.

(** The destructor: [disconnect] with a timeout of a second, its result ignored. *)
Definition destroy_connection (c : NativeSmbConnection W) : NativeSmbConnection W :=
  fst (NativeSmbConnection_disconnect (mkOperationContext 1000 false false false) c).
End connection.
