(* ===== verification/ConnectorRuns.v ===== *)
(** * What the connector guarantees

    The session setup of [Connector.v] follows the rules of the SMB2 handshake,
    the layers it puts around the transport are those the policy, the server
    and the share ask for, with keys derived from the session key and, for SMB
    3.1.1, from the messages on the wire; and it ends after a bounded number of
    messages. *)

From S2P Require Export Connector.
Local Open Scope Z_scope.
Local Open Scope comp_scope.

(** ** Runs *)

Section runs_inversion.
Context {A B : Type}.

Lemma runs_bind_inv (p : prog A) (f : A -> prog B) tr o :
  runs (prog_bind p f) tr o ->
  (exists tr1 tr2 a, tr = tr1 ++ tr2 /\ runs p tr1 (Some a) /\ runs (f a) tr2 o) \/
  (runs p tr None /\ o = None).
Proof.
  revert tr. induction p as [a|frame context k IH|k IH|k IH|progress k IH|];
    cbn [prog_bind]; intros tr Hr.
  - left. exists [], tr, a. by repeat constructor.
  - inversion Hr as [|? ? ? r tr' ? Hk| | | |]; subst.
    apply IH in Hk as [(tr1 & tr2 & a & -> & H1 & H2)|[Hn ->]].
    + left. exists ((frame, r) :: tr1), tr2, a. by repeat constructor.
    + right. by repeat constructor.
  - inversion Hr as [| |? b tr' ? Hk| | |]; subst.
    apply IH in Hk as [(tr1 & tr2 & a & -> & H1 & H2)|[Hn ->]].
    + left. exists tr1, tr2, a. split; [done|]. split; [by econstructor|done].
    + right. split; [by econstructor|done].
  - inversion Hr as [| | |? b tr' ? Hk| |]; subst.
    apply IH in Hk as [(tr1 & tr2 & a & -> & H1 & H2)|[Hn ->]].
    + left. exists tr1, tr2, a. split; [done|]. split; [by econstructor|done].
    + right. split; [by econstructor|done].
  - inversion Hr as [| | | |? ? tr' ? Hk|]; subst.
    apply IH in Hk as [(tr1 & tr2 & a & -> & H1 & H2)|[Hn ->]].
    + left. exists tr1, tr2, a. by repeat constructor.
    + right. by repeat constructor.
  - inversion Hr. subst. right. by repeat constructor.
Qed.

Lemma runs_done_inv (a : A) tr o : runs (Done a) tr o -> tr = [] /\ o = Some a.
Proof. inversion 1. by subst. Qed.
End runs_inversion.

(** A successful run of a sequence is a successful run of each part. *)
Lemma runs_action_bind_Ok {A B} (p : action A) (f : A -> action B) tr b :
  runs (p ≫= f) tr (Some (Ok b)) ->
  exists tr1 tr2 a, tr = tr1 ++ tr2 /\ runs p tr1 (Some (Ok a)) /\
    runs (f a) tr2 (Some (Ok b)).
Proof.
  intros [(tr1 & tr2 & r & -> & H1 & H2)|[_ ?]]%runs_bind_inv; [|done].
  destruct r as [a|e|m|]; [by exists tr1, tr2, a|..];
    by apply runs_done_inv in H2 as [_ ?].
Qed.

Lemma runs_lift_Ok {A} (c : comp A) tr a :
  runs (lift c) tr (Some (Ok a)) -> tr = [] /\ c = Ok a.
Proof. intros [-> [= ->]]%runs_done_inv. done. Qed.

Lemma runs_mret_Ok {A} (a b : A) tr :
  runs (mret a : action A) tr (Some (Ok b)) -> tr = [] /\ a = b.
Proof. intros [-> [= ->]]%runs_done_inv. done. Qed.

Lemma runs_reraised_Ok {A} (p : action A) tr a :
  runs (reraised p) tr (Some (Ok a)) -> runs p tr (Some (Ok a)).
Proof.
  intros [(tr1 & tr2 & r & -> & H1 & H2)|[_ ?]]%runs_bind_inv; [|done].
  apply runs_done_inv in H2 as [-> [= Hr]]. symmetry in Hr.
  apply reraise_Ok_inv in Hr as ->. by rewrite app_nil_r.
Qed.

Lemma runs_exchange_Ok frame context tr a :
  runs (transport_exchange frame context) tr (Some (Ok a)) -> tr = [(frame, Ok a)].
Proof.
  inversion 1 as [|? ? ? r tr' ? Hk| | | |]; subst.
  by apply runs_done_inv in Hk as [-> [= ->]].
Qed.

Lemma runs_cancelled_Ok context tr b :
  runs (isCancelled context) tr (Some (Ok b)) -> tr = [].
Proof.
  unfold isCancelled. intros (tr1 & tr2 & t & -> & H1 & H2)%runs_action_bind_Ok.
  assert (tr1 = []) as ->.
  { destruct (oc_cancellationToken context); [|by apply runs_mret_Ok in H1 as [-> _]].
    inversion H1 as [| |? ? ? ? Hk| | |]; subst. by apply runs_done_inv in Hk as [-> _]. }
  destruct t; [by apply runs_mret_Ok in H2 as [-> _]|].
  destruct (oc_cancellationCallback context); [|by apply runs_mret_Ok in H2 as [-> _]].
  inversion H2 as [| | |? ? ? ? Hk| |]; subst. by apply runs_done_inv in Hk as [-> _].
Qed.

(** Splits a successful run into the runs of its steps. *)
Ltac inv_runs :=
  repeat match goal with
  | Hr : runs (isCancelled _ ≫= _) _ (Some (Ok _)) |- _ =>
      let b := fresh "b" in let tr := fresh "tr" in let Hc := fresh in
      apply runs_action_bind_Ok in Hr as (tr & ? & b & -> & Hc & Hr);
      apply runs_cancelled_Ok in Hc as ->; destruct b;
      [by apply runs_lift_Ok in Hr as [_ Hr]|]; cbn [app]
  | Hr : runs (_ ≫= _) _ (Some (Ok _)) |- _ =>
      apply runs_action_bind_Ok in Hr as (? & ? & ? & -> & ? & Hr)
  | Hr : runs (reraised _) _ (Some (Ok _)) |- _ => apply runs_reraised_Ok in Hr
  | Hr : runs (lift _) _ (Some (Ok _)) |- _ => apply runs_lift_Ok in Hr as [-> Hr]
  | Hr : runs (mret _) _ (Some (Ok _)) |- _ => apply runs_mret_Ok in Hr as [-> Hr]
  | Hr : runs (transport_exchange _ _) _ (Some (Ok _)) |- _ =>
      apply runs_exchange_Ok in Hr as ->
  | Hr : reraise _ = Ok _ |- _ => apply reraise_Ok_inv in Hr
  end.

(** ** Bounds on the number of messages *)

(** [p] exchanges at most [n] messages and is not cut, whatever it is told. *)
Fixpoint at_most {A} (n : nat) (p : prog A) : Prop :=
  match p with
  | Done _ => True
  | Exchange _ _ k => exists m, n = S m /\ forall r, at_most m (k r)
  | AskToken k | AskCallback k => forall b, at_most n (k b)
  | Report _ k => at_most n k
  | OutOfFuel => False
  end.

Lemma at_most_bind {A B} n m (p : prog A) (f : A -> prog B) :
  at_most n p -> (forall a, at_most m (f a)) -> at_most (n + m) (prog_bind p f).
Proof.
  intros Hp Hf. revert n Hp.
  assert (forall j (q : prog B), at_most m q -> at_most (j + m) q) as Hweak.
  { clear. intros j q. revert m.
    induction q as [a|frame context k IH|k IH|k IH|progress k IH|]; intros m; cbn; auto.
    intros (m' & -> & Hk). exists (j + m')%nat. split; [lia|auto]. }
  induction p as [a|frame context k IH|k IH|k IH|progress k IH|]; intros n; cbn; auto.
  - intros (n' & -> & Hk). exists (n' + m)%nat. split; [done|auto].
Qed.

Lemma at_most_action_bind {A B} n m (p : action A) (f : A -> action B) :
  at_most n p -> (forall a, at_most m (f a)) -> at_most (n + m) (p ≫= f).
Proof. intros Hp Hf. apply at_most_bind; [done|]. intros []; [apply Hf|done..]. Qed.

Lemma at_most_cancel_if {A} n context message (k : action A) :
  at_most n k -> at_most n (cancel_if context with message;; k).
Proof.
  intros Hk. apply (at_most_action_bind 0).
  - unfold isCancelled. apply (at_most_action_bind 0 0).
    + by destruct (oc_cancellationToken context).
    + intros []; [done|]. by destruct (oc_cancellationCallback context).
  - intros []; [done|]. done.
Qed.

Lemma at_most_perform {W} `{World W} {A} n (p : prog A) w :
  at_most n p ->
  (length (transcript p w) <= n)%nat /\ exists a, snd (perform p w) = Some a.
Proof.
  revert n w. induction p as [a|frame context k IH|k IH|k IH|progress k IH|];
    intros n w; cbn [at_most transcript perform].
  - intros _. split; [apply Nat.le_0_l|by exists a].
  - intros (m & -> & Hk). destruct (exchange w frame context) as [w' r].
    destruct (IH r m w' (Hk r)) as [Hl Ha]. split; [simpl; lia|done].
  - intros Hk. destruct (ask_token w) as [w' b]. by apply IH.
  - intros Hk. destruct (ask_callback w) as [w' b]. by apply IH.
  - intros Hk. by apply IH.
  - done.
Qed.

(** ** Stacks *)

(** What a wrapper is, apart from what it wraps and its counter; [NoTransport]
    stands for a wrapper around a null pointer. *)
Inductive layer : Set :=
| SigningLayer (key : bytes) (dialect : Dialect) (verify : bool)
| EncryptionLayer (encryptionKey decryptionKey : bytes) (sessionId : Z) (dialect : Dialect)
| NoTransport.

Fixpoint layers_of {W} (s : Stack W) : list layer :=
  match s with
  | Direct _ => []
  | Signing t =>
      SigningLayer (sgt_sessionKey t) (sgt_dialect t) (sgt_verifyResponses t)
      :: from_option layers_of [NoTransport] (sgt_inner t)
  | Encrypting t =>
      EncryptionLayer (set_encryptionKey t) (set_decryptionKey t) (set_sessionId t)
        (set_dialect t)
      :: from_option layers_of [NoTransport] (set_inner t)
  end.

Section stack_facts.
Context {W : Type}.

(** The principle of induction that sees the inner stack. *)
Lemma stack_induction (Q : Stack W -> Prop) :
  (forall w, Q (Direct w)) ->
  (forall t, from_option Q True (sgt_inner t) -> Q (Signing t)) ->
  (forall t, from_option Q True (set_inner t) -> Q (Encrypting t)) ->
  forall s, Q s.
Proof using Type.
  intros Hd Hs He. fix IH 1. intros [w|[inner key d v]|[inner ek dk sid d n]].
  - apply Hd.
  - apply Hs. destruct inner; cbn; [apply IH|exact I].
  - apply He. destruct inner; cbn; [apply IH|exact I].
Qed.

Context `{World W}.

Lemma layers_exchange (s : Stack W) frame context :
  layers_of (fst (exchange s frame context)) = layers_of s.
Proof using Type.
  revert frame. induction s as [w|[[s|] key d v] IH|[[s|] ek dk sid d n] IH]
    using stack_induction; intros frame; unfold exchange;
    cbn [world_transport stack_world stack_exchange]; try done.
  - by destruct (exchange w frame context).
  - unfold signing_exchange. cbn [sgt_inner sgt_sessionKey sgt_dialect].
    destruct (signSmb2DirectTcpFrame _ _ _) as [sent| | |]; try done.
    specialize (IH sent). unfold exchange in IH. cbn in IH.
    unfold exchange. destruct (stack_exchange s sent context). cbn in *. by rewrite IH.
  - unfold encryption_exchange. cbn [set_inner nextNonce set_encryptionKey set_sessionId
      set_dialect set_nonceCounter].
    destruct (encryptSmb3DirectTcpFrame _ _ _ _ _) as [sent| | |]; try done.
    specialize (IH sent). unfold exchange in IH. cbn in IH.
    unfold exchange. destruct (stack_exchange s sent context). cbn in *. by rewrite IH.
Qed.

Lemma layers_bottom {A} (f : W -> W * A) a (s : Stack W) :
  layers_of (fst (on_bottom f a s)) = layers_of s.
Proof using Type.
  induction s as [w|[[s|] key d v] IH|[[s|] ek dk sid d n] IH] using stack_induction;
    cbn; try done.
  - by destruct (f w).
  - cbn in IH. destruct (on_bottom f a s). cbn in *. by rewrite IH.
  - cbn in IH. destruct (on_bottom f a s). cbn in *. by rewrite IH.
Qed.

(** No program changes the layers. *)
Lemma layers_perform {A} (p : prog A) (s : Stack W) :
  layers_of (fst (perform p s)) = layers_of s.
Proof using Type.
  apply (perform_invariant (fun s' _ => layers_of s' = layers_of s)) with (h := []);
    try done; intros s' h; intros; cbn [ask_token ask_callback report_progress stack_world];
    by rewrite ?layers_exchange, ?layers_bottom.
Qed.
End stack_facts.

Section wire_facts.
Context {W : Type} `{World W}.
Implicit Types s : Stack (Recorded W).

(** [s'] has at most [n] more messages on its wire than [s]. *)
Definition extends (n : nat) s s' : Prop :=
  exists new, messages_of s' = messages_of s ++ new /\ (length new <= n)%nat.

Lemma extends_refl n s s' : messages_of s' = messages_of s -> extends n s s'.
Proof. intros Hs. exists []. rewrite app_nil_r. split; [done|apply Nat.le_0_l]. Qed.

Lemma extends_trans n m s s' s'' :
  extends n s s' -> extends m s' s'' -> extends (n + m) s s''.
Proof.
  intros (new & Hs & Hn) (new' & Hs' & Hm). exists (new ++ new').
  rewrite Hs', Hs, app_assoc, length_app. split; [done|lia].
Qed.

Lemma wire_exchange s frame context : extends 1 s (fst (exchange s frame context)).
Proof.
  revert frame. induction s as [w|[[s|] key d v] IH|[[s|] ek dk sid d n] IH]
    using stack_induction; intros frame; unfold exchange;
    cbn [world_transport stack_world stack_exchange]; try by apply extends_refl.
  - unfold exchange. cbn [world_transport recorded_world]. unfold recorded_exchange.
    destruct (exchange (rec_world w) frame context) as [w' r]. exists [(frame, r)].
    by split.
  - unfold signing_exchange. cbn [sgt_inner sgt_sessionKey sgt_dialect].
    destruct (signSmb2DirectTcpFrame _ _ _) as [sent| | |]; try by apply extends_refl.
    specialize (IH sent). unfold exchange in IH. cbn in IH.
    unfold exchange. destruct (stack_exchange s sent context). exact IH.
  - unfold encryption_exchange. cbn [set_inner nextNonce set_encryptionKey set_sessionId
      set_dialect set_nonceCounter].
    destruct (encryptSmb3DirectTcpFrame _ _ _ _ _) as [sent| | |];
      try by apply extends_refl.
    specialize (IH sent). unfold exchange in IH. cbn in IH.
    unfold exchange. destruct (stack_exchange s sent context). exact IH.
Qed.

Lemma wire_bottom {A} (f : Recorded W -> Recorded W * A) a s :
  (forall r, rec_messages (fst (f r)) = rec_messages r) ->
  messages_of (fst (on_bottom f a s)) = messages_of s.
Proof.
  intros Hf.
  induction s as [w|[[s|] key d v] IH|[[s|] ek dk sid d n] IH] using stack_induction;
    cbn; try done.
  - specialize (Hf w). by destruct (f w).
  - cbn in IH. destruct (on_bottom f a s). cbn in *. by rewrite IH.
  - cbn in IH. destruct (on_bottom f a s). cbn in *. by rewrite IH.
Qed.

(** A program puts at most its messages on the wire. *)
Lemma wire_perform {A} (p : prog A) s :
  extends (length (transcript p s)) s (fst (perform p s)).
Proof.
  apply (perform_invariant (fun s' h => extends (length h) s s')) with (h := []).
  - intros s' h frame context Hle. rewrite length_app.
    eapply extends_trans; [exact Hle|]. apply wire_exchange.
  - intros s' h Hle. rewrite <- (Nat.add_0_r (length h)).
    eapply extends_trans; [exact Hle|]. apply extends_refl, wire_bottom. done.
  - intros s' h Hle. rewrite <- (Nat.add_0_r (length h)).
    eapply extends_trans; [exact Hle|]. apply extends_refl, wire_bottom. done.
  - intros s' h progress Hle. rewrite <- (Nat.add_0_r (length h)).
    eapply extends_trans; [exact Hle|]. apply extends_refl, wire_bottom. done.
  - by apply extends_refl.
Qed.

Lemma wire_at_most {A} n (p : prog A) s :
  at_most n p -> extends n s (fst (perform p s)) /\ exists a, snd (perform p s) = Some a.
Proof.
  intros [Hn Ha]%(at_most_perform n p s). split; [|done].
  destruct (wire_perform p s) as (new & Hs & Hl). exists new. split; [done|lia].
Qed.

(** A program that runs directly on a recorded world. *)
Lemma direct_run {A} (p : prog A) w ms :
  exists w' new,
    fst (perform p (Direct (mkRecorded w ms))) = Direct (mkRecorded w' (ms ++ new)) /\
    runs p new (snd (perform p (Direct (mkRecorded w ms)))).
Proof.
  revert w ms. induction p as [a|frame context k IH|k IH|k IH|progress k IH|];
    intros w ms; cbn [perform].
  - exists w, []. rewrite app_nil_r. by repeat constructor.
  - rewrite recorded_direct_exchange.
    destruct (exchange w frame context) as [w1 r]. cbn [fst snd].
    destruct (IH r w1 (ms ++ [(frame, r)])) as (w' & new & Hs & Hr).
    exists w', ((frame, r) :: new). rewrite Hs, <- app_assoc. split; [done|].
    by constructor.
  - cbn. destruct (ask_token w) as [w1 b]. cbn.
    destruct (IH b w1 ms) as (w' & new & Hs & Hr). exists w', new.
    split; [done|by econstructor].
  - cbn. destruct (ask_callback w) as [w1 b]. cbn.
    destruct (IH b w1 ms) as (w' & new & Hs & Hr). exists w', new.
    split; [done|by econstructor].
  - cbn. destruct (IH (report_progress w progress) ms) as (w' & new & Hs & Hr).
    exists w', new. split; [done|by constructor].
  - exists w, []. rewrite app_nil_r. by repeat constructor.
Qed.
End wire_facts.

(** ** The handshake *)

(** A message whose request and whose answer are framed payloads. *)
Definition framed (m : message) (request payload : bytes) : Prop :=
  encodeDirectTcpFrame request = Ok (fst m) /\
  exists frame, snd m = Ok frame /\ decodeDirectTcpPayload frame = Ok payload.

Section handshake_rules.
Context (crypto_hash_sha512 : bytes -> bytes).
Context (options : NativeSmbConnectorOptions).

(** A NEGOTIATE exchange and what it settles: an offered dialect, the
    demands of either side, and for SMB 3.1.1 the hash of both messages. *)
Definition negotiation (m : message) (n : NegotiatedConnection) : Prop :=
  let asked := negotiateOptionsFrom options in
  exists request payload response,
    buildNegotiateRequest asked 0 = Ok request /\ framed m request payload /\
    decodeNegotiateResponse payload (negotiateDialects asked) = Ok response /\
    ngc_dialect n = ngr_dialect response /\
    ngc_signingRequired n =
      negb (Z.land (ngr_securityMode response) 2 =? 0)
      || is_required (cfg_signing (nco_config options)) /\
    ngc_encryptionSupported n = negb (Z.land (ngr_capabilities response) 0x40 =? 0) /\
    ngc_preauthIntegrityHash n =
      (if is_smb311 (ngc_dialect n)
       then crypto_hash_sha512 (crypto_hash_sha512 (zeros 64 ++ request) ++ payload)
       else []).

(** A SESSION_SETUP exchange with a message id and a session id. *)
Definition setup_round (messageId sessionId : Z) (m : message)
    (session : SessionSetupResponse) : Prop :=
  exists token request payload response,
    buildSessionSetupRequest (sessionSetupOptionsFrom options token) messageId sessionId
      = Ok request /\
    framed m request payload /\ decodeSessionSetupResponse payload = Ok response /\
    session = with_payloads response request payload.

(** The hash covers every message but the last response. *)
Definition preauth_step (dialect : Dialect) (hash : bytes)
    (session : SessionSetupResponse) : bytes :=
  if is_smb311 dialect then
    let hash := crypto_hash_sha512 (hash ++ ssr_requestPayload session) in
    if ssr_moreProcessingRequired session
    then crypto_hash_sha512 (hash ++ ssr_responsePayload session) else hash
  else hash.

(** The rounds of a session setup: consecutive message ids, the session id of
    the answer before, on while the server asks for more. *)
Inductive setup_rounds (dialect : Dialect)
    : Z -> Z -> bytes -> list message -> setup_state -> Prop :=
| last_round messageId sessionId hash m session :
    setup_round messageId sessionId m session ->
    ssr_moreProcessingRequired session = false ->
    setup_rounds dialect messageId sessionId hash [m]
      (mkSetupState session (ssr_sessionId session) (u64 (messageId + 1))
         (preauth_step dialect hash session))
| next_round messageId sessionId hash m session ms s :
    setup_round messageId sessionId m session ->
    ssr_moreProcessingRequired session = true ->
    setup_rounds dialect (u64 (messageId + 1)) (ssr_sessionId session)
      (preauth_step dialect hash session) ms s ->
    setup_rounds dialect messageId sessionId hash (m :: ms) s.
End handshake_rules.

Lemma negotiate_run sha options context tr n :
  runs (Negotiator_negotiate sha (negotiateOptionsFrom options) context) tr (Some (Ok n)) ->
  exists m, tr = [m] /\ negotiation sha options m n.
Proof.
  unfold Negotiator_negotiate. intros Hr. inv_runs. cbn [app].
  match goal with
  | H1 : encodeDirectTcpFrame ?q = Ok ?e, H2 : decodeDirectTcpPayload ?f = Ok ?p,
    H3 : decodeNegotiateResponse ?p _ = Ok ?r |- _ =>
      exists (e, Ok f); split; [done|]; exists q, p, r
  end.
  split; [done|]. split; [by split; [|eexists]|]. split; [done|].
  subst. cbn. split; [done|]. split; [done|]. split; [done|].
  match goal with Hh : negotiatedPreauthHash _ _ _ _ = Ok _ |- _ => revert Hh end.
  unfold negotiatedPreauthHash, updateSmb311PreauthHash, initialSmb311PreauthHash.
  destruct (is_smb311 _); [|by intros [= <-]]. intros Hh. inv_comp. done.
Qed.

Lemma setup_run options token messageId sessionId context tr session :
  runs (reraised (SessionSetupExchanger_exchange (sessionSetupOptionsFrom options token)
          messageId sessionId context)) tr (Some (Ok session)) ->
  exists m, tr = [m] /\ setup_round options messageId sessionId m session.
Proof.
  unfold SessionSetupExchanger_exchange. intros Hr. inv_runs. cbn [app].
  match goal with
  | H1 : encodeDirectTcpFrame ?q = Ok ?e, H2 : decodeDirectTcpPayload ?f = Ok ?p,
    H3 : decodeSessionSetupResponse ?p = Ok ?r |- _ =>
      exists (e, Ok f); split; [done|]; exists token, q, p, r
  end.
  split; [done|]. split; [by split; [|eexists]|]. by split.
Qed.

Lemma roundPreauthHash_step sha dialect hash session hash' :
  roundPreauthHash sha dialect hash session = Ok hash' ->
  hash' = preauth_step sha dialect hash session.
Proof.
  unfold roundPreauthHash, preauth_step, updateSmb311PreauthHash.
  destruct (is_smb311 dialect); [|by intros [= <-]].
  intros Hh. by inv_comp.
Qed.

(** ** Steps of [connect] *)

Section steps.
Context {W P : Type} `{World W} `{SessionSetupTokenProvider P}.

Lemma connecting_bind_Ok {A B} (p : connecting (W := W) (P := P) A)
    (f : A -> connecting B) st st' b :
  (p ≫= f) st = (st', Some (Ok b)) ->
  exists st1 a, p st = (st1, Some (Ok a)) /\ f a st1 = (st', Some (Ok b)).
Proof using Type.
  unfold mbind, connecting_bind.
  destruct (p st) as [st1 [[a|e|m|]|]]; intros Hf; try discriminate Hf.
  by exists st1, a.
Qed.

Lemma pure_Ok {A} (c : comp A) (st st' : Stack W * P) a :
  pure c st = (st', Some (Ok a)) -> st' = st /\ c = Ok a.
Proof using Type. by intros [= -> ->]. Qed.

Lemma connecting_ret_Ok {A} (a b : A) (st st' : Stack W * P) :
  (mret a : connecting A) st = (st', Some (Ok b)) -> st' = st /\ a = b.
Proof using Type. by intros [= -> ->]. Qed.

Lemma ask_provider_Ok {A} (f : P -> P * comp A) t q (st' : Stack W * P) a :
  ask_provider f (t, q) = (st', Some (Ok a)) ->
  exists q', st' = (t, q') /\ f q = (q', Ok a).
Proof using Type.
  unfold ask_provider. destruct (f q) as [q' r]. intros [= <- Hr%reraise_Ok_inv].
  exists q'. by rewrite Hr.
Qed.

Lemma ask_sessionBaseKey_Ok t q (st' : Stack W * P) key :
  ask_sessionBaseKey (t, q) = (st', Some (Ok key)) ->
  st' = (t, q) /\ sessionBaseKey q = Ok key.
Proof using Type.
  unfold ask_sessionBaseKey. intros (q' & -> & [= -> ->])%ask_provider_Ok. done.
Qed.

Lemma on_transport_Ok {A} (p : action A) t q (st' : Stack W * P) a :
  on_transport p (t, q) = (st', Some (Ok a)) ->
  exists t', st' = (t', q) /\ perform p t = (t', Some (Ok a)).
Proof using Type.
  unfold on_transport. destruct (perform p t) as [t' r]. intros [= <- ->]. by exists t'.
Qed.

Lemma attempt_Ok {A} (p : connecting A) (st st' : Stack W * P) c :
  attempt p st = (st', Some (Ok c)) -> fst (p st) = st' /\ snd (p st) = Some c.
Proof using Type.
  unfold attempt. destruct (p st) as [st1 [[a|e|m|]|]]; intros [= -> <-]; done.
Qed.
End steps.

(** Splits a successful step of [connect] into its parts. *)
Ltac inv_state Hc :=
  let He := fresh in destruct Hc as [He Hc]; injection He as ? ?; subst.
Ltac inv_connect :=
  repeat match goal with
  | Hc : (_ ≫= _) _ = (_, Some (Ok _)) |- _ =>
      apply connecting_bind_Ok in Hc; destruct Hc as ([? ?] & ? & ? & Hc)
  | Hc : pure _ _ = (_, Some (Ok _)) |- _ => apply pure_Ok in Hc; inv_state Hc
  | Hc : mret _ _ = (_, Some (Ok _)) |- _ => apply connecting_ret_Ok in Hc; inv_state Hc
  | Hc : ask_sessionBaseKey _ = (_, Some (Ok _)) |- _ =>
      apply ask_sessionBaseKey_Ok in Hc; inv_state Hc
  | Hc : ask_provider _ _ = (_, Some (Ok _)) |- _ =>
      apply ask_provider_Ok in Hc; destruct Hc as [? Hc]; inv_state Hc
  | Hc : on_transport _ _ = (_, Some (Ok _)) |- _ =>
      apply on_transport_Ok in Hc; destruct Hc as [? Hc]; inv_state Hc
  | Hc : attempt _ _ = (_, Some (Ok _)) |- _ =>
      apply attempt_Ok in Hc; destruct Hc as [? Hc]
  | Hc : wrap_transport _ _ = (_, Some (Ok _)) |- _ => injection Hc as ? ?; subst
  | Hc : reraise _ = Ok _ |- _ => apply reraise_Ok_inv in Hc
  end.

Section connect_runs.
Context {W P : Type} `{World W} `{SessionSetupTokenProvider P}.
Context (sha : bytes -> bytes) (options : NativeSmbConnectorOptions).
Context (context : OperationContext).
Implicit Types (w : W) (q : P).

(** A successful exchange of the handshake over the bare transport. *)
Lemma direct_Ok {A} (p : action A) w ms t' a :
  perform p (Direct (mkRecorded w ms)) = (t', Some (Ok a)) ->
  exists w' new, t' = Direct (mkRecorded w' (ms ++ new)) /\ runs p new (Some (Ok a)).
Proof using Type.
  intros Hp. destruct (direct_run p w ms) as (w' & new & Hs & Hr).
  rewrite Hp in Hs, Hr. by exists w', new.
Qed.

Lemma setup_loop_rounds rounds negotiated token s w ms q t' q' s' :
  rounds <> O ->
  setup_loop sha options context rounds negotiated token s (Direct (mkRecorded w ms), q)
    = (t', q', Some (Ok s')) ->
  exists w' new, t' = Direct (mkRecorded w' (ms ++ new)) /\
    (length new <= rounds)%nat /\
    setup_rounds sha options (ngc_dialect negotiated) (sus_messageId s) (sus_sessionId s)
      (sus_preauthHash s) new s'.
Proof using Type.
  revert token s w ms q. induction rounds as [|rounds IH]; intros token s w ms q Hz Hl;
    [done|]. cbn [setup_loop] in Hl. inv_connect.
  match goal with Hp : perform _ _ = _ |- _ =>
    apply direct_Ok in Hp as (w1 & new1 & -> & (m & -> & Hround)%setup_run) end.
  match goal with Hh : roundPreauthHash _ _ _ _ = Ok _ |- _ =>
    apply roundPreauthHash_step in Hh; subst end.
  destruct (ssr_moreProcessingRequired _) eqn:Hmore; cbn [negb] in Hl; inv_connect.
  - match goal with Hn : nextToken _ _ _ = _ |- _ => clear Hn end.
    case_bool_decide as Hr; inv_connect; [done|].
    apply IH in Hl as (w2 & new2 & -> & Hlen & Hrounds); [|done].
    exists w2, ([m] ++ new2). rewrite app_assoc. split; [done|].
    split; [simpl; lia|]. by eapply next_round.
  - exists w1, [m]. split; [done|]. split; [simpl; lia|]. by apply last_round.
Qed.
End connect_runs.

(** ** What is established *)

Section established.
Context {W P : Type} `{World W} `{SessionSetupTokenProvider P}.
Context (sha : bytes -> bytes) (options : NativeSmbConnectorOptions).

(** A signing key that fits the session: derived from the provider's session
    key as the dialect asks, and the final SESSION_SETUP response has been
    verified with it when signing is required. *)
Definition signing_established (provider : P) (n : NegotiatedConnection)
    (s : setup_state) (key : bytes) : Prop :=
  supportsSigning (ngc_dialect n) = true /\
  (exists sessionKey, sessionBaseKey provider = Ok sessionKey /\
     signingKeyFor (ngc_dialect n) sessionKey (sus_preauthHash s) = Ok key) /\
  exists frame, encodeDirectTcpFrame (ssr_responsePayload (sus_session s)) = Ok frame /\
    (ngc_signingRequired n = true ->
     verifySmb2DirectTcpFrameSignature frame key (ngc_dialect n) = Ok true).

(** Encryption keys that fit the session, one for each direction. *)
Definition encryption_established (provider : P) (n : NegotiatedConnection)
    (s : setup_state) (encryptionKey decryptionKey : bytes) : Prop :=
  sessionCanEncrypt n (sus_session s) = true /\
  exists sessionKey, sessionBaseKey provider = Ok sessionKey /\
    deriveSmb3EncryptionKey sessionKey (ngc_dialect n) ClientToServer = Ok encryptionKey /\
    deriveSmb3EncryptionKey sessionKey (ngc_dialect n) ServerToClient = Ok decryptionKey.

(** The session key [connect] holds: none yet, or the provider's. *)
Definition key_held (provider : P) (key : bytes) : Prop :=
  key = [] \/ sessionBaseKey provider = Ok key.

Lemma verifyFinalSession_Ok n key session :
  verifyFinalSession n key session = Ok tt ->
  exists frame, encodeDirectTcpFrame (ssr_responsePayload session) = Ok frame /\
    (ngc_signingRequired n = true ->
     verifySmb2DirectTcpFrameSignature frame key (ngc_dialect n) = Ok true).
Proof using Type.
  intros Hv. unfold verifyFinalSession in Hv.
  apply bind_Ok_inv in Hv as (frame & Hf & Hv). exists frame. split; [done|].
  intros Hr. destruct (decode_frame _ _ [] Hf) as (_ & Hdec & _).
  rewrite app_nil_r in Hdec. rewrite Hdec, Hr, orb_true_r in Hv. inv_comp.
  bools. by subst.
Qed.

Lemma enableSigning_Ok n sessionKey s t q t' q' :
  sessionBaseKey q = Ok sessionKey ->
  enableSigning (W := Recorded W) n sessionKey s (t, q) = (t', q', Some (Ok tt)) ->
  q' = q /\ exists key,
    t' = Signing (mkSigningTransport (Some t) key (ngc_dialect n) true) /\
    signing_established q n s key.
Proof using Type.
  intros Hk Hs. unfold enableSigning in Hs.
  destruct (supportsSigning (ngc_dialect n)) eqn:Hsup; cbn [negb] in Hs; [|by inv_connect].
  inv_connect. split; [done|]. eexists. split; [done|].
  split; [done|]. split; [by eexists|].
  match goal with Hv : verifyFinalSession _ _ _ = Ok ?u |- _ => destruct u end.
  by apply verifyFinalSession_Ok.
Qed.

Lemma enableEncryption_Ok n s sessionKey t q t' q' b :
  key_held q sessionKey ->
  enableEncryption (W := Recorded W) n s false sessionKey (t, q) = (t', q', Some (Ok b)) ->
  b = true /\ q' = q /\ exists ek dk,
    layers_of t' = EncryptionLayer ek dk (sus_sessionId s) (ngc_dialect n) :: layers_of t /\
    messages_of t' = messages_of t /\
    encryption_established q n s ek dk.
Proof using Type.
  intros Hk He. unfold enableEncryption in He.
  destruct (sessionCanEncrypt n (sus_session s)) eqn:Hcan; cbn [negb] in He; [|by inv_connect].
  inv_connect. case_decide as Hd; inv_connect.
  - split; [done|]. split; [done|]. do 2 eexists. split; [done|]. split; [done|].
    split; [done|]. by eexists.
  - split; [done|]. split; [done|]. do 2 eexists. split; [done|]. split; [done|].
    split; [done|]. destruct Hk as [->|Hk]; [done|]. by eexists.
Qed.
End established.

(** ** Bounds of the exchanges *)

Lemma at_most_lift_bind {A B} n (c : comp A) (f : A -> action B) :
  (forall a, at_most n (f a)) -> at_most n (lift c ≫= f).
Proof. intros Hf. by apply (at_most_action_bind 0). Qed.

Lemma at_most_exchange_bind {A} n frame context (f : bytes -> action A) :
  (forall a, at_most n (f a)) ->
  at_most (S n) (reraised (transport_exchange frame context) ≫= f).
Proof. intros Hf. apply (at_most_action_bind 1); [|done]. exists 0%nat. by split. Qed.

Lemma at_most_reraised {A} n (p : action A) : at_most n p -> at_most n (reraised p).
Proof.
  intros Hp. rewrite <- (Nat.add_0_r n). by apply at_most_bind.
Qed.

Ltac bound_step :=
  match goal with
  | |- at_most _ (isCancelled _ ≫= _) => apply at_most_cancel_if
  | |- at_most _ (lift _ ≫= _) => apply at_most_lift_bind; intros ?
  | |- at_most _ (reraised (transport_exchange _ _) ≫= _) =>
      apply at_most_exchange_bind; intros ?
  | |- at_most _ (lift _) => exact I
  | |- at_most _ (mret _) => exact I
  end.

Lemma negotiate_bound sha options context :
  at_most 1 (Negotiator_negotiate sha options context).
Proof. unfold Negotiator_negotiate. repeat bound_step. Qed.

Lemma setup_bound options messageId sessionId context :
  at_most 1 (SessionSetupExchanger_exchange options messageId sessionId context).
Proof. unfold SessionSetupExchanger_exchange. repeat bound_step. Qed.

Lemma tree_bound options messageId sessionId context :
  at_most 1 (TreeConnector_connect options messageId sessionId context).
Proof. unfold TreeConnector_connect, exchanger. repeat bound_step. Qed.

(** ** The tree *)

Section tree.
Context {W P : Type} `{World W} `{SessionSetupTokenProvider P}.
Context (options : NativeSmbConnectorOptions) (context : OperationContext).

Lemma connectTree_Ok messageId sessionId (t : Stack (Recorded W)) (q : P) t' q' tree :
  connectTree options context messageId sessionId (t, q) = (t', q', Some (Ok tree)) ->
  q' = q /\ layers_of t' = layers_of t /\ extends 1 t t'.
Proof using Type.
  unfold connectTree. intros [He _]%attempt_Ok. unfold on_transport in He.
  destruct (perform _ t) as [t1 r] eqn:Hp. cbn [fst] in He. injection He as <- <-.
  split; [done|].
  pose proof (layers_perform (TreeConnector_connect (mkTreeConnectRequestOptions
    (cfg_server (nco_config options)) (cfg_share (nco_config options)) 0) messageId
    sessionId context) t) as Hl.
  pose proof (wire_at_most 1 _ t (tree_bound (mkTreeConnectRequestOptions
    (cfg_server (nco_config options)) (cfg_share (nco_config options)) 0) messageId
    sessionId context)) as [Hx _].
  rewrite Hp in Hl, Hx. done.
Qed.

(** The layers after the tree is connected: those before, or one more. *)
Definition encryption_added (n : NegotiatedConnection) (s : setup_state) (provider : P)
    (before after : list layer) (encrypted encrypted' : bool) : Prop :=
  (encrypted' = encrypted /\ after = before) \/
  (encrypted = false /\ encrypted' = true /\ exists ek dk,
     after = EncryptionLayer ek dk (sus_sessionId s) (ngc_dialect n) :: before /\
     encryption_established provider n s ek dk).

Lemma connectTreeWithRetry_Ok n s sessionKey encrypted (t : Stack (Recorded W)) (q : P)
    t' q' tree encrypted' next :
  key_held q sessionKey ->
  connectTreeWithRetry options context n s sessionKey encrypted (t, q)
    = (t', q', Some (Ok (tree, encrypted', next))) ->
  q' = q /\ extends 2 t t' /\
  encryption_added n s q (layers_of t) (layers_of t') encrypted encrypted' /\
  (next = u64 (sus_messageId s + 1) \/ next = u64 (u64 (sus_messageId s + 1) + 1)).
Proof using Type.
  intros Hk Hc. unfold connectTreeWithRetry in Hc.
  apply connecting_bind_Ok in Hc as ([t1 q1] & tree1 & H1 & Hc).
  apply connectTree_Ok in H1 as (-> & Hl1 & Hx1).
  destruct (_ && negb encrypted) eqn:Hretry; inv_connect.
  - apply andb_prop in Hretry as [_ Hne]. destruct encrypted; [done|].
    match goal with H2 : enableEncryption _ _ _ _ _ = _ |- _ =>
      apply enableEncryption_Ok in H2 as (-> & -> & ek & dk & Hl2 & Hm2 & Hest); [|done] end.
    match goal with H3 : connectTree _ _ _ _ _ = _ |- _ =>
      apply connectTree_Ok in H3 as (-> & Hl3 & Hx3) end.
    match goal with He : _ = (tree, encrypted', next) |- _ => injection He as <- <- <- end.
    split; [done|]. split.
    { change 2%nat with (1 + (0 + 1))%nat. eapply extends_trans; [exact Hx1|].
      eapply extends_trans; [by apply extends_refl|done]. }
    split; [|by right]. right. split; [done|]. split; [done|]. exists ek, dk.
    split; [congruence|done].
  - match goal with He : _ = (tree, encrypted', next) |- _ => injection He as <- <- <- end.
    split; [done|]. split.
    { destruct Hx1 as (new & Hn & Hlen). exists new. split; [done|lia]. }
    split; [|by left]. by left.
Qed.
End tree.

(** ** Established connections *)

(** What [connect] promises of a connection: [provider] is the token provider
    afterwards and [t] the transport.  The messages on the wire are one
    negotiation, the rounds of a session setup and the tree connection; the
    session is bound to the session and tree ids of the server and continues
    the message ids; the signing layer is there exactly when the connection
    should sign, the encryption layer at least when the policy, the session or
    the share demands it, on top of it. *)
Record established {W P} `{SessionSetupTokenProvider P} (sha : bytes -> bytes)
    (options : NativeSmbConnectorOptions) (provider : P)
    (state : NativeSmbConnectedState (Recorded W)) (s : setup_state) (key ek dk : bytes)
    (encrypted : bool) : Prop := {
  established_wire : exists m rounds trees,
    messages_of (nbc_transport (ncs_connection state)) = [m] ++ rounds ++ trees /\
    negotiation sha options m (ncs_negotiated state) /\
    setup_rounds sha options (ngc_dialect (ncs_negotiated state)) (firstMessageId options) 0
      (ngc_preauthIntegrityHash (ncs_negotiated state)) rounds s /\
    (length rounds <= Z.to_nat (maxRounds options))%nat /\ (length trees <= 2)%nat;
  established_session : ncs_session state = sus_session s /\ sus_sessionId s <> 0;
  established_ids : exists next,
    nbc_session (ncs_connection state) = newNativeSmbSession (mkNativeSmbSessionConfig
      (tcn_treeId (ncs_tree state)) (sus_sessionId s) next) /\
    (next = u64 (sus_messageId s + 1) \/ next = u64 (u64 (sus_messageId s + 1) + 1));
  established_layers : layers_of (nbc_transport (ncs_connection state)) =
    (if encrypted
     then [EncryptionLayer ek dk (sus_sessionId s) (ngc_dialect (ncs_negotiated state))]
     else []) ++
    (if shouldSignConnection options (ncs_negotiated state) (sus_session s)
     then [SigningLayer key (ngc_dialect (ncs_negotiated state)) true] else []);
  established_signing :
    shouldSignConnection options (ncs_negotiated state) (sus_session s) = true ->
    signing_established provider (ncs_negotiated state) s key;
  established_encryption :
    encrypted = true -> encryption_established provider (ncs_negotiated state) s ek dk;
  established_policy :
    mustEncryptSession options (sus_session s) || tcn_requiresEncryption (ncs_tree state)
      = true -> encrypted = true
}.

Section connect_established.
Context {W P : Type} `{World W} `{SessionSetupTokenProvider P}.
Context (sha : bytes -> bytes) (options : NativeSmbConnectorOptions).
Context (context : OperationContext).

(** The layers before the tree is connected. *)
Lemma enableLayers_Ok n s sessionKey (t : Stack (Recorded W)) (q : P) t' q' u :
  (needsSessionKey options n (sus_session s) = true -> sessionBaseKey q = Ok sessionKey) ->
  (if shouldSignConnection options n (sus_session s)
   then enableSigning n sessionKey s else mret tt) (t, q) = (t', q', Some (Ok u)) ->
  q' = q /\ messages_of t' = messages_of t /\ exists key,
    layers_of t' = (if shouldSignConnection options n (sus_session s)
                    then [SigningLayer key (ngc_dialect n) true] else []) ++ layers_of t /\
    (shouldSignConnection options n (sus_session s) = true ->
     signing_established q n s key).
Proof using Type.
  unfold needsSessionKey. destruct (shouldSignConnection _ _ _); intros Hk Hs.
  - destruct u. apply enableSigning_Ok in Hs as (-> & key & -> & Hest); [|by apply Hk].
    split; [done|]. split; [done|]. by exists key.
  - inv_connect. split; [done|]. split; [done|]. by exists [].
Qed.

Lemma enableRequired_Ok n s sessionKey (must : bool) (t : Stack (Recorded W)) (q : P) t' q'
    encrypted :
  key_held q sessionKey ->
  (if must then enableEncryption n s false sessionKey else mret false) (t, q)
    = (t', q', Some (Ok encrypted)) ->
  q' = q /\ messages_of t' = messages_of t /\ encrypted = must /\
  encryption_added n s q (layers_of t) (layers_of t') false encrypted.
Proof using Type.
  intros Hk He. destruct must.
  - apply enableEncryption_Ok in He as (-> & -> & ek & dk & Hl & Hm & Hest); [|done].
    split; [done|]. split; [done|]. split; [done|]. right. split; [done|].
    split; [done|]. by exists ek, dk.
  - inv_connect. split; [done|]. split; [done|]. split; [done|]. by left.
Qed.

(** The last step, when the share demands encryption. *)
Lemma enableForShare_Ok n s sessionKey (must encrypted : bool) (t : Stack (Recorded W))
    (q : P) t' q' u :
  key_held q sessionKey ->
  (if must && negb encrypted then enableEncryption n s encrypted sessionKey
   else mret encrypted) (t, q) = (t', q', Some (Ok u)) ->
  q' = q /\ messages_of t' = messages_of t /\
  exists encrypted', (must = true -> encrypted' = true) /\
    encryption_added n s q (layers_of t) (layers_of t') encrypted encrypted'.
Proof using Type.
  intros Hk He. destruct (must && negb encrypted) eqn:Hb.
  - apply andb_prop in Hb as [-> Hn]. destruct encrypted; [done|].
    apply enableEncryption_Ok in He as (-> & -> & ek & dk & Hl & Hm & Hest); [|done].
    split; [done|]. split; [done|]. exists true. split; [done|]. right.
    split; [done|]. split; [done|]. by exists ek, dk.
  - inv_connect. split; [done|]. split; [done|]. exists u. split; [|by left].
    intros ->. by destruct u.
Qed.

(** Encryption is added at most once. *)
Lemma encryption_added_trans n s (q : P) l1 l2 l3 e1 e2 e3 :
  encryption_added n s q l1 l2 e1 e2 -> encryption_added n s q l2 l3 e2 e3 ->
  encryption_added n s q l1 l3 e1 e3.
Proof using Type.
  intros [[-> ->]|(-> & -> & ek & dk & -> & Hest)] [[-> ->]|(? & -> & H2)]; try done.
  - by left.
  - right. by subst.
  - right. split; [done|]. split; [done|]. by exists ek, dk.
Qed.

Lemma encryption_added_layers n s (q : P) l l' e :
  encryption_added n s q l l' false e ->
  exists ek dk,
    l' = (if e then [EncryptionLayer ek dk (sus_sessionId s) (ngc_dialect n)] else []) ++ l /\
    (e = true -> encryption_established q n s ek dk).
Proof using Type.
  intros [[-> ->]|(_ & -> & ek & dk & -> & Hest)].
  - by exists [], [].
  - by exists ek, dk.
Qed.

(** The message list of a stack that keeps it. *)
Lemma messages_of_direct (w : W) ms : messages_of (Direct (mkRecorded w ms)) = ms.
Proof using Type. done. Qed.

Lemma sessionKey_Ok (need : bool) (t : Stack (Recorded W)) (q : P) t' q' key :
  (if need then ask_sessionBaseKey else mret []) (t, q) = (t', q', Some (Ok key)) ->
  t' = t /\ q' = q /\ (need = true -> sessionBaseKey q = Ok key) /\ key_held q key.
Proof using Type.
  destruct need; intros Hk; inv_connect; split_and!; try done; first [by right|by left].
Qed.

Lemma connect_established (w : W) (q : P) t' q' state :
  NativeSmbConnector_connect sha options context (Direct (mkRecorded w []), q)
    = (t', q', Some (Ok state)) ->
  nbc_transport (ncs_connection state) = t' /\
  exists s key ek dk encrypted, established sha options q' state s key ek dk encrypted.
Proof using Type.
  unfold NativeSmbConnector_connect, setupSession. intros Hc.
  apply connecting_bind_Ok in Hc as ([t1 q1] & n & H1 & Hc).
  apply on_transport_Ok in H1 as (? & [= -> ->] & H1).
  apply direct_Ok in H1 as (w1 & new1 & -> & Hr1).
  assert (exists m, new1 = [m] /\ negotiation sha options m n) as (m & -> & Hneg)
    by (apply runs_reraised_Ok in Hr1; by eapply negotiate_run).
  apply connecting_bind_Ok in Hc as ([t2 q2] & ? & H2 & Hc).
  apply pure_Ok in H2 as [[= -> ->] _].
  apply connecting_bind_Ok in Hc as ([t3 q3] & s & H3 & Hc).
  apply connecting_bind_Ok in H3 as ([t4 q4] & token & H4 & H3).
  apply ask_provider_Ok in H4 as (? & [= -> ->] & _).
  apply connecting_bind_Ok in Hc as ([t5 q5] & ? & H5 & Hc).
  apply pure_Ok in H5 as [[= -> ->] Hcheck].
  assert (sus_sessionId s <> 0) as Hsid.
  { unfold checkSession in Hcheck. inv_comp. bools. done. }
  destruct (decide (Z.to_nat (maxRounds options) = O)) as [Hz|Hz].
  { rewrite Hz in H3. apply connecting_ret_Ok in H3 as [_ <-]. done. }
  apply setup_loop_rounds in H3 as (w2 & new2 & -> & Hlen & Hrounds); [|done].
  cbn [sus_messageId sus_sessionId sus_preauthHash] in Hrounds.
  apply connecting_bind_Ok in Hc as ([t6 q6] & sessionKey & H6 & Hc).
  apply sessionKey_Ok in H6 as (-> & -> & Hneed & Hheld).
  apply connecting_bind_Ok in Hc as ([t7 q7] & u & H7 & Hc).
  apply enableLayers_Ok in H7 as (-> & Hm7 & key & Hl7 & Hsign); [|done].
  apply connecting_bind_Ok in Hc as ([t8 q8] & e8 & H8 & Hc).
  apply enableRequired_Ok in H8 as (-> & Hm8 & Hmust & Hadd8); [|done].
  apply connecting_bind_Ok in Hc as ([t9 q9] & [[tree9 e9] next] & H9 & Hc).
  apply connectTreeWithRetry_Ok in H9 as (-> & Hx9 & Hadd9 & Hnext); [|done].
  apply connecting_bind_Ok in Hc as ([t10 q10] & tree & H10 & Hc).
  apply pure_Ok in H10 as [[= -> ->] _].
  apply connecting_bind_Ok in Hc as ([t11 q11] & e11 & H11 & Hc).
  apply enableForShare_Ok in H11 as (-> & Hm11 & e & Hpol & Hadd11); [|done].
  unfold connected_state in Hc. injection Hc as <- <- <-. split; [done|].
  pose proof (encryption_added_trans _ _ _ _ _ _ _ _ _
    (encryption_added_trans _ _ _ _ _ _ _ _ _ Hadd8 Hadd9) Hadd11) as Hadd.
  apply encryption_added_layers in Hadd as (ek & dk & Hl & Henc).
  exists s, key, ek, dk, e. split; cbn [ncs_connection ncs_negotiated ncs_session ncs_tree
    nbc_transport nbc_session newNativeSmbConnection].
  - destruct Hx9 as (trees & Hm9 & Hlt). exists m, new2, trees.
    rewrite Hm11, Hm9, Hm8, Hm7, messages_of_direct, <- app_assoc. done.
  - done.
  - by exists next.
  - by rewrite Hl, Hl7, app_nil_r.
  - done.
  - done.
  - done.
Qed.
End connect_established.
