(* ===== verification/ConnectorProperties.v ===== *)
(** * Properties of the connector *)

From S2P Require Export ConnectorRuns.
Local Open Scope Z_scope.
Local Open Scope comp_scope.

(** ** Nothing in clear *)

Section nothing_in_clear.
Context {W : Type} `{World W}.
Implicit Types s : Stack (Recorded W).

(** The new messages of [s'] are transform messages. *)
Definition extends_encrypted s s' : Prop :=
  exists new, messages_of s' = messages_of s ++ new /\
    Forall (fun m => is_transform (fst m)) new.

Lemma extends_encrypted_refl s s' : messages_of s' = messages_of s -> extends_encrypted s s'.
Proof. intros Hs. exists []. by rewrite app_nil_r. Qed.

(** Below the encryption layer, at most a signing layer: what is given to the
    inner stack is a transform message. *)
Definition at_most_signing (ls : list layer) : Prop :=
  ls = [] \/ exists key d, ls = [SigningLayer key d true].

Lemma inner_exchange s frame context :
  at_most_signing (layers_of s) -> is_transform frame ->
  extends_encrypted s (fst (exchange s frame context)).
Proof.
  assert (forall r frame, is_transform frame ->
    extends_encrypted (Direct r) (fst (exchange (Direct r) frame context))) as Hdirect.
  { intros [v ms] f Hf. rewrite recorded_direct_exchange. cbn [fst].
    eexists [_]. split; [done|]. by apply Forall_singleton. }
  intros [Hs|(key & d & Hs)] Hf.
  - destruct s as [r|[inner ? ? ?]|[inner ? ? ? ? ?]]; try discriminate Hs. by apply Hdirect.
  - destruct s as [r|[[[r|?|?]|] k d' v']|[inner ? ? ? ? ?]]; try discriminate Hs.
    injection Hs as -> -> ->.
    change (Signing _) with (signed_stack (Direct r) key d). rewrite signed_stack_exchange.
    destruct (signSmb2DirectTcpFrame frame key d) as [sent| | |] eqn:Hsign;
      try by apply extends_encrypted_refl.
    destruct (Hdirect r sent (signed_is_transform _ _ _ _ Hsign Hf)) as (new & Hm & Hall).
    exists new. split; [exact Hm|done].
Qed.

Lemma encrypted_exchange s frame context ek dk sid d ls :
  layers_of s = EncryptionLayer ek dk sid d :: ls -> at_most_signing ls ->
  extends_encrypted s (fst (exchange s frame context)).
Proof.
  intros Hs Hls.
  destruct s as [r|[inner ? ? ?]|[[inner|] ek' dk' sid' d' n]]; try discriminate Hs;
    [|by destruct Hls as [->|(? & ? & ->)]].
  injection Hs as -> -> -> -> Hin. cbn [from_option set_inner] in Hin.
  change (Encrypting _) with (encrypted_stack inner ek dk sid d n).
  rewrite encrypted_stack_exchange.
  destruct (encryptSmb3DirectTcpFrame _ _ _ _ _) as [sent| | |] eqn:He;
    try by apply extends_encrypted_refl.
  destruct (inner_exchange inner sent context) as (new & Hm & Hall);
    [by rewrite Hin|by eapply encrypted_is_transform|].
  exists new. split; [exact Hm|done].
Qed.

Lemma encrypted_perform {A} (p : prog A) s ek dk sid d ls :
  layers_of s = EncryptionLayer ek dk sid d :: ls -> at_most_signing ls ->
  extends_encrypted s (fst (perform p s)).
Proof.
  intros Hs Hls.
  apply (perform_invariant (fun s' _ => layers_of s' = EncryptionLayer ek dk sid d :: ls /\
    extends_encrypted s s')) with (h := []); [| | | |split; [done|by apply extends_encrypted_refl]].
  - intros s' h frame context [Hl (new & Hm & Hall)]. split; [by rewrite layers_exchange|].
    destruct (encrypted_exchange s' frame context _ _ _ _ _ Hl Hls) as (new' & Hm' & Hall').
    exists (new ++ new'). rewrite Hm', Hm, app_assoc. split; [done|]. by apply Forall_app.
  - intros s' h [Hl Hx]. cbn [ask_token stack_world]. rewrite layers_bottom.
    unfold extends_encrypted. by rewrite wire_bottom.
  - intros s' h [Hl Hx]. cbn [ask_callback stack_world]. rewrite layers_bottom.
    unfold extends_encrypted. by rewrite wire_bottom.
  - intros s' h progress [Hl Hx]. cbn [report_progress stack_world]. rewrite layers_bottom.
    unfold extends_encrypted. by rewrite wire_bottom.
Qed.
End nothing_in_clear.

(** ** The number of messages *)

Section bounded.
Context {W P : Type} `{World W} `{SessionSetupTokenProvider P}.

(** A step that puts at most [n] messages on the wire and ends. *)
Definition bounded {A} (n : nat) (p : connecting (W := Recorded W) (P := P) A) : Prop :=
  forall t q, extends n t (fst (fst (p (t, q)))) /\ exists r, snd (p (t, q)) = Some r.

Lemma bounded_bind {A B} n m (p : connecting A) (f : A -> connecting B) :
  bounded n p -> (forall a, bounded m (f a)) -> bounded (n + m) (p ≫= f).
Proof using Type.
  intros Hp Hf t q. unfold mbind, connecting_bind. specialize (Hp t q).
  destruct (p (t, q)) as [[t1 q1] r]. cbn [fst snd] in Hp. destruct Hp as [Hx [[a|e|m'|] ->]].
  - specialize (Hf a t1 q1). destruct (f a (t1, q1)) as [[t2 q2] r2].
    cbn [fst snd] in *. destruct Hf as [Hx2 Hr2]. split; [by eapply extends_trans|done].
  - destruct Hx as (new & ? & ?). split; [exists new; split; [done|lia]|by eexists].
  - destruct Hx as (new & ? & ?). split; [exists new; split; [done|lia]|by eexists].
  - destruct Hx as (new & ? & ?). split; [exists new; split; [done|lia]|by eexists].
Qed.

Lemma bounded_weaken {A} n m (p : connecting A) : (n <= m)%nat -> bounded n p -> bounded m p.
Proof using Type.
  intros Hle Hp t q. destruct (Hp t q) as [(new & Hm & Hl) Hr]. split; [|done].
  exists new. split; [done|lia].
Qed.

Lemma bounded_still {A} (p : connecting (W := Recorded W) (P := P) A) :
  (forall t q, messages_of (fst (fst (p (t, q)))) = messages_of t /\
     exists r, snd (p (t, q)) = Some r) -> bounded 0 p.
Proof using Type. intros Hp t q. destruct (Hp t q). split; [by apply extends_refl|done]. Qed.

Lemma bounded_pure {A} (c : comp A) : bounded 0 (pure c).
Proof using Type. apply bounded_still. intros t q. split; [done|by eexists]. Qed.

Lemma bounded_mret {A} (a : A) : bounded 0 (mret a).
Proof using Type. apply bounded_still. intros t q. split; [done|by eexists]. Qed.

Lemma bounded_ask_provider {A} (f : P -> P * comp A) : bounded 0 (ask_provider f).
Proof using Type.
  apply bounded_still. intros t q. unfold ask_provider.
  destruct (f q) as [q' r]. split; [done|by eexists].
Qed.

Lemma bounded_on_transport {A} n (p : action A) : at_most n p -> bounded n (on_transport p).
Proof using Type.
  intros Hp t q. destruct (wire_at_most n p t Hp) as [Hx Hr]. unfold on_transport.
  by destruct (perform p t) as [t' r].
Qed.

Lemma bounded_attempt {A} n (p : connecting A) : bounded n p -> bounded n (attempt p).
Proof using Type.
  intros Hp t q. unfold attempt. specialize (Hp t q).
  destruct (p (t, q)) as [[t1 q1] r]. cbn [fst snd] in Hp.
  destruct Hp as [Hx [[a|e|m|] ->]]; split; try done; by eexists.
Qed.
End bounded.

Ltac bounded_step :=
  match goal with
  | |- bounded _ (pure _) => apply bounded_pure
  | |- bounded _ (mret _) => apply bounded_mret
  | |- bounded _ (ask_provider _) => apply bounded_ask_provider
  | |- bounded _ ask_sessionBaseKey => apply bounded_ask_provider
  | |- bounded 0 (if ?b then _ else _) => destruct b
  | |- bounded 0 (_ ≫= _) => apply (bounded_bind 0 0); [|intros ?]
  | |- bounded 0 (wrap_transport _) =>
      apply bounded_still; intros ? ?; split; [reflexivity|by eexists]
  end.

Section connector_bounds.
Context {W P : Type} `{World W} `{SessionSetupTokenProvider P}.
Context (sha : bytes -> bytes) (options : NativeSmbConnectorOptions).
Context (context : OperationContext).

Lemma setup_loop_bounded rounds n token s :
  bounded (W := W) (P := P) rounds (setup_loop sha options context rounds n token s).
Proof using Type.
  revert token s. induction rounds as [|rounds IH]; intros token s; cbn [setup_loop];
    [apply bounded_mret|].
  apply (bounded_bind 1); [apply bounded_on_transport, at_most_reraised, setup_bound|].
  intros session. apply (bounded_bind 0); [apply bounded_pure|]. intros hash.
  destruct (negb _); [apply (bounded_weaken 0); [apply Nat.le_0_l|apply bounded_mret]|].
  apply (bounded_bind 0); [apply bounded_ask_provider|]. intros token'.
  destruct (bool_decide _); [apply (bounded_weaken 0); [apply Nat.le_0_l|apply bounded_pure]|].
  apply IH.
Qed.

Lemma enableSigning_bounded n key s :
  bounded (W := W) (P := P) 0 (enableSigning n key s).
Proof using Type. unfold enableSigning. repeat bounded_step. Qed.

Lemma enableEncryption_bounded n s e key :
  bounded (W := W) (P := P) 0 (enableEncryption n s e key).
Proof using Type.
  unfold enableEncryption. repeat bounded_step.
Qed.

Lemma connectTree_bounded messageId sessionId :
  bounded (W := W) (P := P) 1 (connectTree options context messageId sessionId).
Proof using Type. apply bounded_attempt, bounded_on_transport, tree_bound. Qed.

Lemma connectTreeWithRetry_bounded n s key e :
  bounded (W := W) (P := P) 2 (connectTreeWithRetry options context n s key e).
Proof using Type.
  unfold connectTreeWithRetry. apply (bounded_bind 1); [apply connectTree_bounded|].
  intros tree. destruct (_ && _).
  - apply (bounded_bind 0); [apply enableEncryption_bounded|]. intros e'.
    apply (bounded_bind 1 0); [apply connectTree_bounded|]. intros tree'. apply bounded_mret.
  - apply (bounded_weaken 0); [lia|apply bounded_mret].
Qed.

(** [connect] always comes to an end: whatever the server, the token
    provider and the caller's callbacks do, it returns or throws, after one
    NEGOTIATE, at most [maxSessionSetupRounds] SESSION_SETUPs (1 when that is
    0) and at most two TREE_CONNECTs. *)
Theorem connector_terminates (w : W) (q : P) :
  exists wire r,
    messages_of (fst (fst (NativeSmbConnector_connect sha options context
                             (Direct (mkRecorded w []), q)))) = wire /\
    snd (NativeSmbConnector_connect sha options context (Direct (mkRecorded w []), q))
      = Some r /\
    Z.of_nat (length wire) <= Z.max 1 (nco_maxSessionSetupRounds options) + 3.
Proof using Type.
  assert (bounded (W := W) (P := P) (1 + (0 + (0 + Z.to_nat (maxRounds options) + 2)))
    (NativeSmbConnector_connect sha options context)) as Hb.
  { unfold NativeSmbConnector_connect.
    apply (bounded_bind 1).
    { apply bounded_on_transport, at_most_reraised, negotiate_bound. }
    intros n. apply (bounded_bind 0); [apply bounded_pure|]. intros _.
    apply bounded_bind.
    { unfold setupSession. apply (bounded_bind 0); [apply bounded_ask_provider|].
      intros token. apply setup_loop_bounded. }
    intros s. apply (bounded_bind 0); [apply bounded_pure|]. intros _.
    apply (bounded_bind 0); [by repeat bounded_step|]. intros key.
    apply (bounded_bind 0).
    { destruct (shouldSignConnection _ _ _); [apply enableSigning_bounded|apply bounded_mret]. }
    intros _. apply (bounded_bind 0).
    { destruct (mustEncryptSession _ _); [apply enableEncryption_bounded|apply bounded_mret]. }
    intros e. apply (bounded_bind 2 0); [apply connectTreeWithRetry_bounded|].
    intros [[tree e'] next]. apply (bounded_bind 0 0); [apply bounded_pure|]. intros t.
    apply (bounded_bind 0 0).
    { destruct (_ && negb e'); [apply enableEncryption_bounded|apply bounded_mret]. }
    intros _. apply bounded_still. intros t' q'. split; [done|by eexists]. }
  destruct (Hb (Direct (mkRecorded w [])) q) as [(new & Hm & Hl) [r Hr]].
  exists new, r. split; [exact Hm|]. split; [exact Hr|].
  unfold maxRounds in Hl. destruct (nco_maxSessionSetupRounds options =? 0) eqn:Hz; bools; lia.
Qed.
End connector_bounds.

(** ** What a connection is *)


(** What may happen to a connection. *)
Inductive connection_step {W} `{World W}
    : NativeSmbConnection W -> NativeSmbConnection W -> Prop :=
| step_operation {A} (op : sessioned A) c : connection_step c (fst (on_session op c))
| step_disconnect context c : connection_step c (fst (NativeSmbConnection_disconnect context c)).

Lemma on_session_encrypted {W A} `{World W} (op : sessioned A)
    (c : NativeSmbConnection (Recorded W)) ek dk sid d ls :
  layers_of (nbc_transport c) = EncryptionLayer ek dk sid d :: ls -> at_most_signing ls ->
  layers_of (nbc_transport (fst (on_session op c))) = EncryptionLayer ek dk sid d :: ls /\
  extends_encrypted (nbc_transport c) (nbc_transport (fst (on_session op c))).
Proof.
  intros Hl Hls. unfold on_session.
  pose proof (layers_perform (op (nbc_session c)) (nbc_transport c)) as Hp.
  pose proof (encrypted_perform (op (nbc_session c)) _ _ _ _ _ _ Hl Hls) as He.
  destruct (perform _ _) as [t [[s r]|]]; cbn in *; split; try done; congruence.
Qed.

Lemma connection_step_encrypted {W} `{World W} (c c' : NativeSmbConnection (Recorded W))
    ek dk sid d ls :
  connection_step c c' ->
  layers_of (nbc_transport c) = EncryptionLayer ek dk sid d :: ls -> at_most_signing ls ->
  layers_of (nbc_transport c') = EncryptionLayer ek dk sid d :: ls /\
  extends_encrypted (nbc_transport c) (nbc_transport c').
Proof.
  intros Hstep Hl Hls. destruct Hstep as [A op c|context c].
  - by apply on_session_encrypted.
  - unfold NativeSmbConnection_disconnect. destruct (nbc_disconnected c).
    { split; [done|by apply extends_encrypted_refl]. }
    pose proof (on_session_encrypted (disconnectTree context;; logoff context;; mret true)
      c _ _ _ _ _ Hl Hls) as Ho.
    by destruct (on_session _ c) as [c' [[a|e|m|]|]].
Qed.

Lemma connection_steps_encrypted {W} `{World W} (c c' : NativeSmbConnection (Recorded W))
    ek dk sid d ls :
  rtc connection_step c c' ->
  layers_of (nbc_transport c) = EncryptionLayer ek dk sid d :: ls -> at_most_signing ls ->
  extends_encrypted (nbc_transport c) (nbc_transport c').
Proof.
  intros Hsteps Hl Hls. induction Hsteps as [c|c c' c'' Hstep _ IH].
  - by apply extends_encrypted_refl.
  - destruct (connection_step_encrypted _ _ _ _ _ _ _ Hstep Hl Hls) as [Hl' (new & Hm & Hn)].
    destruct (IH Hl') as (new' & Hm' & Hn'). exists (new ++ new').
    rewrite Hm', Hm, app_assoc. split; [done|]. by apply Forall_app.
Qed.

(** C5: When encryption is demanded nothing leaves in clear: if [connect]
    returns a connection and the policy, the session or the share demands
    encryption, then whatever operations the session runs and however often
    the connection is disconnected, every frame put on the wire from then on
    is a transform message. *)
Theorem demanded_encryption_holds {W P} `{World W} `{SessionSetupTokenProvider P} sha
    options context (w : W) (q : P) t q' state c :
  NativeSmbConnector_connect sha options context (Direct (mkRecorded w []), q)
    = (t, q', Some (Ok state)) ->
  mustEncryptSession options (ncs_session state)
  || tcn_requiresEncryption (ncs_tree state) = true ->
  rtc connection_step (ncs_connection state) c ->
  exists new,
    messages_of (nbc_transport c) = messages_of t ++ new /\
    Forall (fun m => is_transform (fst m)) new.
Proof.
  intros Hc Hmust Hsteps.
  destruct (connect_established _ _ _ _ _ _ _ _ Hc) as (Ht & s & key & ek & dk & e & Hest).
  destruct (established_session _ _ _ _ _ _ _ _ _ Hest) as [Hs _].
  rewrite Hs in Hmust. apply (established_policy _ _ _ _ _ _ _ _ _ Hest) in Hmust as ->.
  pose proof (established_layers _ _ _ _ _ _ _ _ _ Hest) as Hl. cbn [app] in Hl.
  assert (at_most_signing (if shouldSignConnection options (ncs_negotiated state)
    (sus_session s) then [SigningLayer key (ngc_dialect (ncs_negotiated state)) true]
    else [])) as Hls by (destruct (shouldSignConnection _ _ _); [right; by eexists _, _|by left]).
  rewrite <- Ht. by apply (connection_steps_encrypted _ _ _ _ _ _ _ Hsteps Hl).
Qed.

(** ** A handshake *)

Definition frame_of (payload : bytes) : bytes :=
  match encodeDirectTcpFrame payload with Ok frame => frame | _ => [] end.

(** A server that speaks SMB 3.0.2 with encryption, sets a session up in two
    rounds, and has a share that demands encryption. *)
Definition sample_header (cmd : Command) (status treeId : Z) : Smb2SyncHeader :=
  mkSmb2SyncHeader 1 status cmd 1 1 0 0 treeId 9 (zeros 16).

Definition sample_script_with (sessionFlags shareFlags : Z) : list bytes :=
  [frame_of (response (sample_header Command_Negotiate 0 0) 65
     (u16Le 1 ++ u16Le 0x0302 ++ u16Le 0 ++ zeros 16 ++ u32Le 0x44 ++ u32Le 65536
      ++ u32Le 65536 ++ u32Le 65536 ++ u64Le 0 ++ u64Le 0 ++ u16Le 128 ++ u16Le 0
      ++ u32Le 0));
   frame_of (response (sample_header Command_SessionSetup kStatusMoreProcessingRequired 0) 9
     (u16Le 0 ++ u16Le 72 ++ u16Le 0));
   frame_of (response (sample_header Command_SessionSetup 0 0) 9
     (u16Le sessionFlags ++ u16Le 72 ++ u16Le 0));
   frame_of (response (sample_header Command_TreeConnect 0 5) 16
     ([1] ++ [0] ++ u32Le shareFlags ++ u32Le 0 ++ u32Le 0x1F01FF))].

Definition sample_script : list bytes := sample_script_with 0 kShareFlagEncryptData.

#[export] Instance sample_provider : SessionSetupTokenProvider unit := {|
  initialToken q _ _ := (q, Ok [1]);
  nextToken q _ _ := (q, Ok [2]);
  sessionBaseKey _ := Ok (zeros 16)
|}.

Definition sample_options_with (signing : SecurityPolicy) : NativeSmbConnectorOptions :=
  mkNativeSmbConnectorOptions
    (mkConnectionConfig [0x61] [0x62] [] [] AuthMode_Password signing
       SecurityPolicy_Preferred)
    (mkNegotiateRequestOptions [] SecurityPolicy_Disabled 0 (zeros 16)) 1 8.

Definition sample_connector_options : NativeSmbConnectorOptions :=
  sample_options_with SecurityPolicy_Disabled.

Definition sample_context : OperationContext := mkOperationContext 1000 false false false.

Abbreviation sample_connect :=
  (NativeSmbConnector_connect (fun _ => zeros 64) sample_connector_options sample_context
     (Direct (mkRecorded sample_script []), tt)).

Definition is_established {W A} (r : W * option (comp A)) : bool :=
  match snd r with Some (Ok _) => true | _ => false end.

Lemma is_established_inv {W A} (r : W * option (comp A)) :
  is_established r = true -> exists w a, r = (w, Some (Ok a)).
Proof. destruct r as [w [[a|e|m|]|]]; try discriminate. intros _. by exists w, a. Qed.

Lemma sample_connect_established : is_established sample_connect = true.
Proof. vm_compute. reflexivity. Qed.

Lemma sample_share_encrypts :
  match snd sample_connect with
  | Some (Ok state) => tcn_requiresEncryption (ncs_tree state)
  | _ => false
  end = true.
Proof. vm_compute. reflexivity. Qed.


(** The connection after a listing and a disconnection. *)
Lemma demanded_encryption_holds_witness :
  exists t q' state, sample_connect = (t, q', Some (Ok state)) /\
    exists new,
      messages_of (nbc_transport (fst (NativeSmbConnection_disconnect sample_context
        (fst (connection_listDirectory sample_context 5 [0x61] (ncs_connection state))))))
      = messages_of t ++ new /\
      Forall (fun m => is_transform (fst m)) new.
Proof.
  destruct (is_established_inv sample_connect sample_connect_established)
    as ([t q'] & state & Hc).
  exists t, q', state. split; [exact Hc|].
  apply (demanded_encryption_holds (fun _ => zeros 64) sample_connector_options
    sample_context sample_script tt t q' state _ Hc).
  - pose proof sample_share_encrypts as Hr. rewrite Hc in Hr. cbn [snd] in Hr. rewrite Hr. apply orb_true_r.
  - eapply rtc_l; [exact (step_operation (listDirectory sample_context 5 [0x61]) _)|].
    eapply rtc_l; [apply step_disconnect|]. apply rtc_refl.
Defined.

(** Required signing is not enforced on an anonymous session: a server that
    answers with the guest flag gets a connection without any layer, its final
    SESSION_SETUP answer, which is not signed, unverified. *)
Lemma guest_session_unsigned :
  let r := NativeSmbConnector_connect (fun _ => zeros 64)
    (sample_options_with SecurityPolicy_Required) sample_context
    (Direct (mkRecorded (sample_script_with kSessionFlagIsGuest 0) []), tt) in
  is_established r = true /\ layers_of (fst (fst r)) = [].
Proof. vm_compute. split; reflexivity. Qed.
