(* ===== verification/Spnego.v ===== *)
(** * SPNEGO tokens ([SpnegoToken.cpp])

    The NTLM messages of a session setup travel inside SPNEGO tokens, DER
    encoded.  The code builds the two tokens a client sends, and looks for the
    NTLM message in the token of a server, going down at most 16 levels. *)

From S2P Require Export Bytes.
Local Open Scope Z_scope.
Local Open Scope comp_scope.

Definition kDerSequence : Z := 0x30.
Definition kDerOctetString : Z := 0x04.
Definition kDerObjectIdentifier : Z := 0x06.
Definition kDerApplication0 : Z := 0x60.
Definition kDerContext0 : Z := 0xA0.
Definition kDerContext1 : Z := 0xA1.
Definition kDerContext2 : Z := 0xA2.

Definition kSpnegoOid : bytes := [0x2B; 0x06; 0x01; 0x05; 0x05; 0x02].
Definition kNtlmOid : bytes :=
  [0x2B; 0x06; 0x01; 0x04; 0x01; 0x82; 0x37; 0x02; 0x02; 0x0A].

(** ** Building *)

(** [while (length > 0)]: the bytes of the length, the least first; 8 turns
    are enough for a [std::size_t]. *)
Fixpoint derLengthBytes (fuel : nat) (length : Z) : bytes :=
  match fuel with
  | O => []
  | S fuel =>
      if 0 <? length
      then Z.land length 0xFF :: derLengthBytes fuel (Z.shiftr length 8)
      else []
  end.

Definition appendDerLength (length : Z) : bytes :=
  if length <? 0x80 then [length]
  else
    let encoded := derLengthBytes 8 length in
    Z.lor 0x80 (blen encoded) :: rev encoded.

Definition derTlv (tag : Z) (content : bytes) : bytes :=
  [tag] ++ appendDerLength (blen content) ++ content.

Definition derOid (oid : bytes) : bytes := derTlv kDerObjectIdentifier oid.
Definition derOctetString (value : bytes) : bytes := derTlv kDerOctetString value.
Definition derSequence (value : bytes) : bytes := derTlv kDerSequence value.
Definition derContext (tag : Z) (value : bytes) : bytes := derTlv tag value.

Definition buildSpnegoNegTokenInit (ntlmToken : bytes) : bytes :=
  let mechTypes := derContext kDerContext0 (derSequence (derOid kNtlmOid)) in
  let mechToken := derContext kDerContext2 (derOctetString ntlmToken) in
  let initSequence := mechTypes ++ mechToken in
  let negotiationToken := derContext kDerContext0 (derSequence initSequence) in
  derTlv kDerApplication0 (derOid kSpnegoOid ++ negotiationToken).

Definition buildSpnegoNegTokenResp (ntlmToken : bytes) : bytes :=
  let responseToken := derContext kDerContext2 (derOctetString ntlmToken) in
  derContext kDerContext1 (derSequence responseToken).

(** ** Reading *)

Definition kNtlmSignature : bytes := [0x4E; 0x54; 0x4C; 0x4D; 0x53; 0x53; 0x50; 0].

Definition startsWithNtlmSignature (bs : bytes) : bool :=
  (8 <=? blen bs) && bool_decide (take 8 bs = kNtlmSignature).

(** [length = (length << 8) | bytes[offset++]], [count] times. *)
Fixpoint derLength_loop (count : nat) (bs : bytes) (offset length : Z) : comp Z :=
  match count with
  | O => Ok length
  | S count =>
      b ← read_u8 bs offset;
      derLength_loop count bs (offset + 1) (Z.lor (u64 (Z.shiftl length 8)) b)
  end.

(** The length and the offset behind it. *)
Definition readDerLength (bs : bytes) (offset : Z) : comp (Z * Z) :=
  fail_if blen bs <=? offset with ErrorCode_ProtocolUnsupported,
    "SPNEGO DER length is truncated.";;
  first ← read_u8 bs offset;
  let offset := offset + 1 in
  if Z.land first 0x80 =? 0 then Ok (first, offset)
  else
    let count := Z.land first 0x7F in
    fail_if (count =? 0) || (8 <? count) || (blen bs <? offset + count)
      with ErrorCode_ProtocolUnsupported, "SPNEGO DER length is invalid.";;
    length ← derLength_loop (Z.to_nat count) bs offset 0;
    Ok (length, offset + count).

(** A value that was looked into: only a protocol error is passed over. *)
Definition or_look_further (found rest : comp bytes) : comp bytes :=
  match found with
  | Err e => if bool_decide (err_code e = ErrorCode_ProtocolUnsupported) then rest else Err e
  | _ => found
  end.

(** The loop over the values of one level, [nested] looking into one; every
    turn reads at least two bytes.  The sum [offset + length] of the bounds
    check is a [std::size_t]; the range that is then copied is not. *)
Fixpoint ntlm_scan (nested : bytes -> comp bytes) (fuel : nat) (bs : bytes) (offset : Z)
    : comp bytes :=
  match fuel with
  | O => OutOfBounds
  | S fuel =>
      if offset <? blen bs then
        tag ← read_u8 bs offset;
        '(length, offset) ← reraise (readDerLength bs (offset + 1));
        fail_if blen bs <? u64 (offset + length) with ErrorCode_ProtocolUnsupported,
          "SPNEGO DER value is truncated.";;
        content ← read_range bs offset (offset + length);
        if (tag =? kDerOctetString) && startsWithNtlmSignature content then Ok content
        else
          let rest := ntlm_scan nested fuel bs (u64 (offset + length)) in
          if negb (Z.land tag 0x20 =? 0) || (tag =? kDerSequence)
             || (tag =? kDerApplication0)
          then or_look_further (nested content) rest
          else rest
      else failure ErrorCode_ProtocolUnsupported "SPNEGO token does not contain NTLMSSP."
  end.

(** [levels] is [17 - depth]. *)
Fixpoint findNtlmOctetString (levels : nat) (bs : bytes) : comp bytes :=
  match levels with
  | O => failure ErrorCode_ProtocolUnsupported "SPNEGO DER nesting is too deep."
  | S levels =>
      if startsWithNtlmSignature bs then Ok bs
      else ntlm_scan (findNtlmOctetString levels) (S (length bs)) bs 0
  end.

Definition unwrapSpnegoNtlmToken (token : bytes) : comp bytes :=
  findNtlmOctetString 17 token.

(** ** Lengths *)

Lemma derLengthBytes_ok fuel n :
  0 <= n < 2 ^ (8 * Z.of_nat fuel) ->
  bytes_ok (derLengthBytes fuel n) /\ le_value (derLengthBytes fuel n) = n /\
  (length (derLengthBytes fuel n) <= fuel)%nat /\
  (0 < n -> derLengthBytes fuel n <> []).
Proof.
  revert n. induction fuel as [|fuel IH]; intros n Hn; cbn [derLengthBytes].
  - split; [apply bytes_ok_nil|]. cbn in *. split; [lia|]. split; [done|]. intros ?. lia.
  - destruct (Z.ltb_spec 0 n) as [Hpos|Hz].
    + destruct (IH (Z.shiftr n 8)) as (Hb & Hv & Hl & _).
      { rewrite Z.shiftr_div_pow2 by lia. split; [apply Z.div_pos; lia|].
        apply Z.div_lt_upper_bound; [lia|]. rewrite <- Z.pow_add_r by lia.
        replace (8 + 8 * Z.of_nat fuel) with (8 * Z.of_nat (S fuel)) by lia. lia. }
      split; [by apply bytes_ok_cons; [apply is_u8_land|]|]. cbn [le_value length]. rewrite Hv, land_255.
      rewrite Z.shiftr_div_pow2 in * by lia. pose proof (Z.div_mod n (2 ^ 8) ltac:(lia)).
      split; [change (2 ^ 8) with 256 in *; lia|]. split; [lia|done].
    + split; [apply bytes_ok_nil|]. cbn. split; [lia|]. split; [lia|]. intros ?. lia.
Qed.

Lemma le_value_app l b : le_value (l ++ [b]) = le_value l + 2 ^ (8 * blen l) * b.
Proof.
  induction l as [|a l IH].
  { change (2 ^ (8 * blen [])) with 1. cbn [app le_value]. lia. }
  cbn [app le_value]. rewrite IH.
  unfold blen. cbn [length]. rewrite Nat2Z.inj_succ.
  replace (8 * Z.succ (Z.of_nat (length l))) with (8 + 8 * Z.of_nat (length l)) by lia.
  rewrite Z.pow_add_r by lia. change (2 ^ 8) with 256. lia.
Qed.

Lemma blen_rev (l : bytes) : blen (rev l) = blen l.
Proof. unfold blen. by rewrite length_rev. Qed.

(** The loop reads big-endian. *)
Lemma derLength_loop_value bs l offset acc :
  at_off bs offset l -> bytes_ok l -> 0 <= acc ->
  (acc + 1) * 2 ^ (8 * blen l) <= 2 ^ 64 ->
  derLength_loop (length l) bs offset acc
  = Ok (acc * 2 ^ (8 * blen l) + le_value (rev l)).
Proof.
  revert offset acc. induction l as [|b l IH]; intros offset acc Hat Hb Ha Hm.
  - change (2 ^ (8 * blen [])) with 1. cbn [length derLength_loop rev le_value].
    f_equal. lia.
  - apply Forall_cons_1 in Hb as [Hb0 Hb]. cbn [length derLength_loop].
    destruct Hat as (pre & post & -> & ->).
    rewrite (readU8_at _ _ b) by (exists pre, (l ++ post); done). cbn [mbind comp_bind].
    assert (2 ^ (8 * blen (b :: l)) = 256 * 2 ^ (8 * blen l)) as Hp'.
    { rewrite <- (Z.pow_add_r 2 8) by (pose proof (blen_nonneg l); lia). f_equal.
      rewrite blen_cons. lia. }
    rewrite Hp' in Hm.
    assert (0 < 2 ^ (8 * blen l)) by (apply Z.pow_pos_nonneg; unfold blen; lia).
    rewrite shiftl_lor_byte; [|nia|done]. rewrite IH.
    + f_equal. change (rev (b :: l)) with (rev l ++ [b]).
      rewrite le_value_app, blen_rev, Hp'. lia.
    + exists (pre ++ [b]), post. rewrite <- app_assoc, blen_app. done.
    + done.
    + unfold is_u8 in Hb0. lia.
    + unfold is_u8 in Hb0. nia.
Qed.

Lemma readDerLength_at bs offset n :
  at_off bs offset (appendDerLength n) -> 0 <= n < 2 ^ 64 ->
  readDerLength bs offset = Ok (n, offset + blen (appendDerLength n)).
Proof.
  intros Hat Hn. pose proof (at_off_bound _ _ _ Hat) as [Ho Hle].
  unfold appendDerLength, readDerLength in *.
  destruct (Z.ltb_spec n 0x80) as [Hs|Hs].
  - change (blen [n]) with 1 in *. rewrite (proj2 (Z.leb_gt _ _)) by lia.
    rewrite (readU8_at _ _ n) by done. cbn [mbind comp_bind].
    assert ((Z.land n 0x80 =? 0) = true) as ->; [|done].
    apply (forall_below_spec 128 (fun n => Z.land n 0x80 =? 0)); [by vm_compute|lia].
  - destruct (derLengthBytes_ok 8 n) as (Hb & Hv & Hl & Hne); [lia|].
    specialize (Hne ltac:(lia)). set (enc := derLengthBytes 8 n) in *.
    assert (1 <= blen enc <= 8) as Hbl.
    { unfold blen. destruct enc; [done|]. cbn [length] in *. lia. }
    assert ((Z.land (Z.lor 128 (blen enc)) 128 =? 0) = false /\
            Z.land (Z.lor 128 (blen enc)) 127 = blen enc) as [Hhi Hlo].
    { assert (forall k, 1 <= k <= 8 -> (Z.land (Z.lor 128 k) 128 =? 0) = false /\
        Z.land (Z.lor 128 k) 127 = k) as Hk; [|by apply Hk].
      intros k Hk. assert (k = 1 \/ k = 2 \/ k = 3 \/ k = 4 \/ k = 5 \/ k = 6 \/ k = 7 \/ k = 8)
        as [->|[->|[->|[->|[->|[->|[->| ->]]]]]]] by lia; by vm_compute. }
    destruct Hat as (pre & post & -> & ->).
    rewrite blen_cons, blen_rev in Hle.
    rewrite (proj2 (Z.leb_gt _ _)) by lia.
    rewrite (readU8_at _ _ (Z.lor 128 (blen enc))) by (exists pre, (rev enc ++ post); done).
    cbn [mbind comp_bind]. rewrite Hhi, Hlo.
    rewrite (proj2 (Z.eqb_neq _ _)), (proj2 (Z.ltb_ge 8 _)), (proj2 (Z.ltb_ge _ _)) by lia.
    cbn [orb].
    assert (Z.to_nat (blen enc) = length (rev enc)) as ->
      by (rewrite length_rev; unfold blen; lia).
    rewrite derLength_loop_value.
    + cbn [mbind comp_bind]. rewrite rev_involutive, Hv, blen_cons, blen_rev.
      do 2 f_equal; lia.
    + exists (pre ++ [Z.lor 128 (blen enc)]), post. by rewrite <- app_assoc, blen_app.
    + by apply Forall_rev.
    + done.
    + rewrite blen_rev, Z.mul_1_l. apply Z.pow_le_mono_r; lia.
Qed.

(** ** Values *)

Lemma blen_appendDerLength n : 0 <= n < 2 ^ 64 -> 1 <= blen (appendDerLength n) <= 9.
Proof.
  intros Hn. unfold appendDerLength. destruct (n <? 0x80); [done|].
  destruct (derLengthBytes_ok 8 n) as (_ & _ & Hl & _); [lia|].
  rewrite blen_cons, blen_rev. unfold blen. lia.
Qed.

Lemma blen_derTlv tag content :
  blen (derTlv tag content) = 1 + blen (appendDerLength (blen content)) + blen content.
Proof. unfold derTlv. rewrite !blen_app. change (blen [tag]) with 1. lia. Qed.

(** A value that may hold others. *)
Definition constructed (tag : Z) : bool :=
  negb (Z.land tag 0x20 =? 0) || (tag =? kDerSequence) || (tag =? kDerApplication0).

Section scan.
Context (nested : bytes -> comp bytes).

Lemma ntlm_scan_value fuel bs offset tag content :
  at_off bs offset (derTlv tag content) -> blen bs < 2 ^ 60 ->
  ntlm_scan nested (S fuel) bs offset =
  if (tag =? kDerOctetString) && startsWithNtlmSignature content then Ok content
  else
    let rest := ntlm_scan nested fuel bs (offset + blen (derTlv tag content)) in
    if constructed tag then or_look_further (nested content) rest else rest.
Proof using Type.
  intros Hat Hsize. pose proof (at_off_bound _ _ _ Hat) as [Ho Hle].
  rewrite blen_derTlv in Hle |- *. pose proof (blen_nonneg content).
  pose proof (blen_nonneg (appendDerLength (blen content))).
  pose proof (blen_appendDerLength (blen content) ltac:(lia)).
  destruct Hat as (pre & post & -> & ->). unfold derTlv in *. cbn [ntlm_scan].
  rewrite (proj2 (Z.ltb_lt _ _)) by lia.
  rewrite (readU8_at _ _ tag) by (eexists pre, _; by rewrite <- !app_assoc).
  cbn [mbind comp_bind]. rewrite (readDerLength_at _ _ (blen content)); [|exists (pre ++ [tag]), (content ++ post)|lia].
  2:{ rewrite <- !app_assoc, blen_app. done. }
  cbn [reraise mbind comp_bind]. rewrite u64_small by ulia.
  rewrite (proj2 (Z.ltb_ge _ _)) by lia.
  rewrite (read_range_at _ _ content); [| |done].
  2:{ exists (pre ++ [tag] ++ appendDerLength (blen content)), post.
      rewrite <- !app_assoc, !blen_app. split; [done|]. change (blen [tag]) with 1. lia. }
  cbn [mbind comp_bind].
  replace (blen pre + 1 + blen (appendDerLength (blen content)) + blen content)
    with (blen pre + (1 + blen (appendDerLength (blen content)) + blen content)) by lia.
  done.
Qed.

Lemma ntlm_scan_end fuel bs :
  ntlm_scan nested (S fuel) bs (blen bs)
  = failure ErrorCode_ProtocolUnsupported "SPNEGO token does not contain NTLMSSP.".
Proof using Type. cbn [ntlm_scan]. by rewrite Z.ltb_irrefl. Qed.
End scan.

Lemma starts_not tag rest : tag <> 0x4E -> startsWithNtlmSignature (tag :: rest) = false.
Proof.
  intros Ht. unfold startsWithNtlmSignature.
  rewrite (bool_decide_eq_false_2 (_ = _)); [apply andb_false_r|].
  unfold kNtlmSignature. cbn [take firstn]. congruence.
Qed.

(** ** What a client's tokens hold *)

Lemma scan_1 nested tag content :
  blen (derTlv tag content) < 2 ^ 60 ->
  ntlm_scan nested (S (length (derTlv tag content))) (derTlv tag content) 0 =
  if (tag =? kDerOctetString) && startsWithNtlmSignature content then Ok content
  else if constructed tag
  then or_look_further (nested content)
         (failure ErrorCode_ProtocolUnsupported "SPNEGO token does not contain NTLMSSP.")
  else failure ErrorCode_ProtocolUnsupported "SPNEGO token does not contain NTLMSSP.".
Proof.
  intros Hs. rewrite (ntlm_scan_value nested _ _ 0 tag content); [|by apply at_off_all|done].
  rewrite Z.add_0_l. destruct (length (derTlv tag content)) as [|n] eqn:Hl;
    [unfold derTlv in Hl; discriminate Hl|].
  by rewrite ntlm_scan_end.
Qed.

Lemma scan_2 nested tag1 content1 tag2 content2 :
  let bs := derTlv tag1 content1 ++ derTlv tag2 content2 in
  blen bs < 2 ^ 60 ->
  ntlm_scan nested (S (length bs)) bs 0 =
  if (tag1 =? kDerOctetString) && startsWithNtlmSignature content1 then Ok content1
  else
    let rest :=
      if (tag2 =? kDerOctetString) && startsWithNtlmSignature content2 then Ok content2
      else if constructed tag2
      then or_look_further (nested content2)
             (failure ErrorCode_ProtocolUnsupported "SPNEGO token does not contain NTLMSSP.")
      else failure ErrorCode_ProtocolUnsupported "SPNEGO token does not contain NTLMSSP."
    in if constructed tag1 then or_look_further (nested content1) rest else rest.
Proof.
  intros bs Hs. rewrite (ntlm_scan_value nested _ _ 0 tag1 content1);
    [|by apply at_off_here|done].
  rewrite Z.add_0_l.
  assert (exists n, length bs = S (S n)) as [n Hn].
  { unfold bs, derTlv. rewrite length_app. cbn [length app]. rewrite Nat.add_succ_r.
    by eexists. }
  rewrite Hn, (ntlm_scan_value nested _ _ _ tag2 content2); [| |done].
  2:{ exists (derTlv tag1 content1), []. by rewrite app_nil_r. }
  rewrite <- blen_app. fold bs. by rewrite ntlm_scan_end.
Qed.

(** What [findNtlmOctetString] does with a value that holds the message. *)
Lemma find_octets levels token :
  startsWithNtlmSignature token = true -> blen (derOctetString token) < 2 ^ 60 ->
  findNtlmOctetString (S levels) (derOctetString token) = Ok token.
Proof.
  intros Ht Hs. cbn [findNtlmOctetString].
  unfold derOctetString at 1, derTlv at 1. cbn [app]. rewrite starts_not by done.
  unfold derOctetString in *. rewrite scan_1 by done. cbn [Z.eqb kDerOctetString andb].
  by rewrite Ht.
Qed.

Lemma find_wrapped levels tag content token :
  constructed tag = true -> tag <> 0x4E -> tag <> 4 -> blen (derTlv tag content) < 2 ^ 60 ->
  findNtlmOctetString levels content = Ok token ->
  findNtlmOctetString (S levels) (derTlv tag content) = Ok token.
Proof.
  intros Hc H1 H2 Hs Hf. cbn [findNtlmOctetString].
  unfold derTlv at 1. cbn [app]. rewrite starts_not by done. rewrite scan_1 by done.
  unfold kDerOctetString. rewrite (proj2 (Z.eqb_neq _ _)) by done. cbn [andb].
  by rewrite Hc, Hf.
Qed.

(** A first value without the message is passed over. *)
Lemma find_second levels tag1 content1 tag2 content2 token :
  tag1 <> 0x4E -> tag1 <> 4 ->
  (constructed tag1 = true -> exists e, findNtlmOctetString levels content1 = Err e /\
     err_code e = ErrorCode_ProtocolUnsupported) ->
  blen (derTlv tag1 content1 ++ derTlv tag2 content2) < 2 ^ 60 ->
  constructed tag2 = true -> tag2 <> 4 -> findNtlmOctetString levels content2 = Ok token ->
  findNtlmOctetString (S levels) (derTlv tag1 content1 ++ derTlv tag2 content2) = Ok token.
Proof.
  intros H1 H1' Hp Hs Hc H2 Hf. cbn [findNtlmOctetString].
  unfold derTlv at 1. cbn [app]. rewrite starts_not by done. rewrite scan_2 by done.
  unfold kDerOctetString. rewrite !(proj2 (Z.eqb_neq _ 4)) by done. cbn [andb].
  rewrite Hc, Hf. destruct (constructed tag1); [|done].
  destruct (Hp eq_refl) as (e & -> & He). cbn [or_look_further].
  by rewrite bool_decide_eq_true_2.
Qed.

Lemma mech_types_hold_nothing :
  exists e, findNtlmOctetString 13 (derSequence (derOid kNtlmOid)) = Err e /\
    err_code e = ErrorCode_ProtocolUnsupported.
Proof. eexists. split; vm_compute; reflexivity. Qed.

(** A message of less than 2^59 bytes leaves room for the headers. *)
Lemma wrapping_fits tag content k :
  blen content <= k -> k < 2 ^ 60 -> blen (derTlv tag content) <= k + 10.
Proof.
  intros Hc Hk. rewrite blen_derTlv. pose proof (blen_nonneg content).
  pose proof (blen_appendDerLength (blen content) ltac:(lia)). lia.
Qed.

Lemma unwrap_negTokenInit token :
  startsWithNtlmSignature token = true -> blen token < 2 ^ 59 ->
  unwrapSpnegoNtlmToken (buildSpnegoNegTokenInit token) = Ok token.
Proof.
  intros Ht Hs. unfold unwrapSpnegoNtlmToken.
  pose proof (wrapping_fits kDerOctetString token (2 ^ 59) ltac:(lia) ltac:(lia)) as F1.
  fold (derOctetString token) in F1.
  pose proof (wrapping_fits kDerContext2 _ _ F1 ltac:(lia)) as F2.
  unfold buildSpnegoNegTokenInit.
  set (mech := derContext kDerContext0 (derSequence (derOid kNtlmOid))).
  set (ini := mech ++ derContext kDerContext2 (derOctetString token)).
  assert (blen ini <= 2 ^ 59 + 60) as G1
    by (unfold ini; rewrite blen_app; change (blen mech) with 16; unfold derContext; lia).
  pose proof (wrapping_fits kDerSequence _ _ G1 ltac:(lia)) as G2.
  pose proof (wrapping_fits kDerContext0 _ _ G2 ltac:(lia)) as G3.
  assert (blen (derOid kSpnegoOid ++ derContext kDerContext0 (derSequence ini))
    <= 2 ^ 59 + 100) as G4
    by (rewrite blen_app; change (blen (derOid kSpnegoOid)) with 8;
        unfold derContext, derSequence in *; lia).
  pose proof (wrapping_fits kDerApplication0 _ _ G4 ltac:(lia)) as G5.
  apply find_wrapped; [done..|lia|].
  apply find_second; [done|done|done|unfold derContext, derOid in *; lia|done|done|].
  apply find_wrapped; [done..|unfold derSequence in *; lia|].
  apply find_second; [done|done| | |done|done|].
  + intros _. exact mech_types_hold_nothing.
  + change (blen ini < 2 ^ 60). lia.
  + by apply find_octets; [|unfold derOctetString in *; lia].
Qed.

Lemma unwrap_negTokenResp token :
  startsWithNtlmSignature token = true -> blen token < 2 ^ 59 ->
  unwrapSpnegoNtlmToken (buildSpnegoNegTokenResp token) = Ok token.
Proof.
  intros Ht Hs. unfold unwrapSpnegoNtlmToken.
  pose proof (wrapping_fits kDerOctetString token (2 ^ 59) ltac:(lia) ltac:(lia)) as F1.
  fold (derOctetString token) in F1.
  pose proof (wrapping_fits kDerContext2 _ _ F1 ltac:(lia)) as F2.
  pose proof (wrapping_fits kDerSequence _ _ F2 ltac:(lia)) as F3.
  pose proof (wrapping_fits kDerContext1 _ _ F3 ltac:(lia)) as F4.
  unfold buildSpnegoNegTokenResp.
  apply find_wrapped; [done..|unfold derContext, derSequence in *; lia|].
  apply find_wrapped; [done..|unfold derContext in *; lia|].
  apply find_wrapped; [done..|lia|]. by apply find_octets; [|lia].
Qed.

(** What a client wraps a server unwraps: an NTLM message is found again,
    unchanged, in the NegTokenInit and in the NegTokenResp built around it, in
    an OCTET STRING of its own, and alone. *)
Theorem spnego_round_trip token :
  startsWithNtlmSignature token = true -> blen token < 2 ^ 59 ->
  unwrapSpnegoNtlmToken (buildSpnegoNegTokenInit token) = Ok token /\
  unwrapSpnegoNtlmToken (buildSpnegoNegTokenResp token) = Ok token /\
  unwrapSpnegoNtlmToken (derOctetString token) = Ok token /\
  unwrapSpnegoNtlmToken token = Ok token.
Proof.
  intros Ht Hs. split; [by apply unwrap_negTokenInit|]. split; [by apply unwrap_negTokenResp|].
  unfold unwrapSpnegoNtlmToken. split.
  - apply find_octets; [done|].
    pose proof (wrapping_fits kDerOctetString token (2 ^ 59) ltac:(lia) ltac:(lia)).
    unfold derOctetString. lia.
  - cbn [findNtlmOctetString]. by rewrite Ht.
Qed.

Lemma spnego_round_trip_witness :
  unwrapSpnegoNtlmToken (buildSpnegoNegTokenInit (kNtlmSignature ++ [1; 0; 0; 0]))
  = Ok (kNtlmSignature ++ [1; 0; 0; 0]).
Proof.
  assert (startsWithNtlmSignature (kNtlmSignature ++ [1; 0; 0; 0]) = true) as Hs
    by reflexivity.
  assert (blen (kNtlmSignature ++ [1; 0; 0; 0]) < 2 ^ 59) as Hl by reflexivity.
  exact (proj1 (spnego_round_trip _ Hs Hl)).
Defined.

(** A length of eight bytes passes the bounds check when the sum with the
    offset wraps: the range that is copied then ends before it begins. *)
Lemma der_length_wraps :
  unwrapSpnegoNtlmToken [0x30; 0x88; 255; 255; 255; 255; 255; 255; 255; 255] = OutOfBounds.
Proof. reflexivity. Qed.
