(* ===== verification/NtlmCrypto.v ===== *)
(** * NTLM cryptography ([NtlmCrypto.cpp])

    MD4, MD5 and HMAC-MD5, and from them the hash of a password, the NTLMv2
    key of a user, and the two responses to a challenge with the session key. *)

From S2P Require Export Hash Utf16 Signing.
Local Open Scope Z_scope.
Local Open Scope comp_scope.

Definition leftRotate (value shift : Z) : Z :=
  Z.lor (u32 (Z.shiftl value shift)) (Z.shiftr value (32 - shift)).

(** [readU32Le] on four bytes. *)
Definition word_le (b0 b1 b2 b3 : Z) : Z :=
  Z.lor (Z.lor (Z.lor b0 (u32 (Z.shiftl b1 8))) (u32 (Z.shiftl b2 16)))
        (u32 (Z.shiftl b3 24)).

Definition paddedMessage (data : bytes) : bytes :=
  padTo56 64 (data ++ [0x80]) ++ u64Le (u64 (blen data * 8)).

(** [x[0] .. x[15]]: the words of a 64-byte block. *)
Fixpoint block_words_le (block : bytes) : list Z :=
  match block with
  | b0 :: b1 :: b2 :: b3 :: rest => word_le b0 b1 b2 b3 :: block_words_le rest
  | _ => []
  end.

(** The four words of the chaining value. *)
Record MdState : Set := mkMdState { md_a : Z; md_b : Z; md_c : Z; md_d : Z }.

Definition md_init : MdState :=
  mkMdState 0x67452301 0xEFCDAB89 0x98BADCFE 0x10325476.

(** [a += aa; b += bb; c += cc; d += dd;] *)
Definition md_add (s t : MdState) : MdState :=
  mkMdState (u32 (md_a s + md_a t)) (u32 (md_b s + md_b t)) (u32 (md_c s + md_c t))
    (u32 (md_d s + md_d t)).

(** [writeDigestWord] at 0, 4, 8 and 12. *)
Definition md_digest (s : MdState) : bytes :=
  u32Le (md_a s) ++ u32Le (md_b s) ++ u32Le (md_c s) ++ u32Le (md_d s).

(** [for (offset = 0; offset < bytes.size(); offset += 64)], on the bytes from
    [offset] on. *)
Fixpoint md_blocks (compress : MdState -> bytes -> MdState) (fuel : nat) (s : MdState)
    (bs : bytes) : MdState :=
  match fuel, bs with
  | S fuel, _ :: _ => md_blocks compress fuel (compress s (take 64 bs)) (drop 64 bs)
  | _, _ => s
  end.

(** [~x] on 32 bits. *)
Definition not32 (x : Z) : Z := u32 (Z.lnot x).

(** ** MD4 *)

Definition md4_f (x y z : Z) : Z := Z.lor (Z.land x y) (Z.land (not32 x) z).
Definition md4_g (x y z : Z) : Z :=
  Z.lor (Z.lor (Z.land x y) (Z.land x z)) (Z.land y z).
Definition md4_h (x y z : Z) : Z := Z.lxor (Z.lxor x y) z.

(** [round1], [round2] and [round3], which differ in the function and the
    constant. *)
Definition md4_op (f : Z -> Z -> Z -> Z) (constant : Z) (x : list Z)
    (v1 v2 v3 v4 k s : Z) : Z :=
  leftRotate (u32 (v1 + f v2 v3 v4 + nth (Z.to_nat k) x 0 + constant)) s.

(** One turn of a round's loop: four operations on the words [ks], rotated by
    [ss]. *)
Definition md4_turn (f : Z -> Z -> Z -> Z) (constant : Z) (x : list Z)
    (ss : Z * Z * Z * Z) (st : MdState) (ks : Z * Z * Z * Z) : MdState :=
  let '(s0, s1, s2, s3) := ss in
  let '(k0, k1, k2, k3) := ks in
  let '(mkMdState a b c d) := st in
  let a := md4_op f constant x a b c d k0 s0 in
  let d := md4_op f constant x d a b c k1 s1 in
  let c := md4_op f constant x c d a b k2 s2 in
  let b := md4_op f constant x b c d a k3 s3 in
  mkMdState a b c d.

Definition md4_block (st : MdState) (block : bytes) : MdState :=
  let x := block_words_le block in
  let r := foldl (md4_turn md4_f 0 x (3, 7, 11, 19)) st
             [(0, 1, 2, 3); (4, 5, 6, 7); (8, 9, 10, 11); (12, 13, 14, 15)] in
  let r := foldl (md4_turn md4_g 0x5A827999 x (3, 5, 9, 13)) r
             [(0, 4, 8, 12); (1, 5, 9, 13); (2, 6, 10, 14); (3, 7, 11, 15)] in
  let r := foldl (md4_turn md4_h 0x6ED9EBA1 x (3, 9, 11, 15)) r
             [(0, 8, 4, 12); (2, 10, 6, 14); (1, 9, 5, 13); (3, 11, 7, 15)] in
  md_add r st.

Definition md4 (data : bytes) : bytes :=
  let bs := paddedMessage data in md_digest (md_blocks md4_block (length bs) md_init bs).

(** ** MD5 *)

Definition md5_s : list Z :=
  [7; 12; 17; 22; 7; 12; 17; 22; 7; 12; 17; 22; 7; 12; 17; 22;
   5; 9; 14; 20; 5; 9; 14; 20; 5; 9; 14; 20; 5; 9; 14; 20;
   4; 11; 16; 23; 4; 11; 16; 23; 4; 11; 16; 23; 4; 11; 16; 23;
   6; 10; 15; 21; 6; 10; 15; 21; 6; 10; 15; 21; 6; 10; 15; 21].

Definition md5_k : list Z := concat
  [[0xd76aa478; 0xe8c7b756; 0x242070db; 0xc1bdceee];
   [0xf57c0faf; 0x4787c62a; 0xa8304613; 0xfd469501];
   [0x698098d8; 0x8b44f7af; 0xffff5bb1; 0x895cd7be];
   [0x6b901122; 0xfd987193; 0xa679438e; 0x49b40821];
   [0xf61e2562; 0xc040b340; 0x265e5a51; 0xe9b6c7aa];
   [0xd62f105d; 0x02441453; 0xd8a1e681; 0xe7d3fbc8];
   [0x21e1cde6; 0xc33707d6; 0xf4d50d87; 0x455a14ed];
   [0xa9e3e905; 0xfcefa3f8; 0x676f02d9; 0x8d2a4c8a];
   [0xfffa3942; 0x8771f681; 0x6d9d6122; 0xfde5380c];
   [0xa4beea44; 0x4bdecfa9; 0xf6bb4b60; 0xbebfbc70];
   [0x289b7ec6; 0xeaa127fa; 0xd4ef3085; 0x04881d05];
   [0xd9d4d039; 0xe6db99e5; 0x1fa27cf8; 0xc4ac5665];
   [0xf4292244; 0x432aff97; 0xab9423a7; 0xfc93a039];
   [0x655b59c3; 0x8f0ccc92; 0xffeff47d; 0x85845dd1];
   [0x6fa87e4f; 0xfe2ce6e0; 0xa3014314; 0x4e0811a1];
   [0xf7537e82; 0xbd3af235; 0x2ad7d2bb; 0xeb86d391]].

(** The function and the word of step [i]. *)
Definition md5_mix (i b c d : Z) : Z * Z :=
  if i <? 16 then (Z.lor (Z.land b c) (Z.land (not32 b) d), i)
  else if i <? 32 then (Z.lor (Z.land d b) (Z.land (not32 d) c), (5 * i + 1) mod 16)
  else if i <? 48 then (Z.lxor (Z.lxor b c) d, (3 * i + 5) mod 16)
  else (Z.lxor c (Z.lor b (not32 d)), (7 * i) mod 16).

Definition md5_step (m : list Z) (st : MdState) (i : nat) : MdState :=
  let '(mkMdState a b c d) := st in
  let '(f, g) := md5_mix (Z.of_nat i) b c d in
  mkMdState d
    (u32 (b + leftRotate (u32 (a + f + nth i md5_k 0 + nth (Z.to_nat g) m 0))
                (nth i md5_s 0)))
    b c.

Definition md5_block (st : MdState) (block : bytes) : MdState :=
  md_add (foldl (md5_step (block_words_le block)) st (seq 0 64)) st.

Definition md5 (data : bytes) : bytes :=
  let bs := paddedMessage data in md_digest (md_blocks md5_block (length bs) md_init bs).

(** ** HMAC-MD5 *)

Definition hmacMd5 (key data : bytes) : bytes :=
  let normalizedKey := resize 64 0 (if 64 <? blen key then md5 key else key) in
  let inner := md5 (xor_with 0x36 normalizedKey ++ data) in
  md5 (xor_with 0x5C normalizedKey ++ inner).

(** ** NTLMv2 *)

(** [std::toupper] in the "C" locale. *)
Definition upperAscii (ch : Z) : Z :=
  if (0x61 <=? ch) && (ch <=? 0x7A) then ch - 0x20 else ch.

Definition uppercaseAscii (text : bytes) : bytes := upperAscii <$> text.

Definition ntHash (password : bytes) : comp bytes :=
  utf16Password ← encodeUtf16Le password;
  Ok (md4 utf16Password).

Definition ntowfv2 (password user domain : bytes) : comp bytes :=
  key ← ntHash password;
  identity ← encodeUtf16Le (uppercaseAscii user ++ domain);
  Ok (hmacMd5 key identity).

Record NtlmV2ResponseParts : Set := mkNtlmV2ResponseParts {
  nvr_ntChallengeResponse : bytes;
  nvr_lmChallengeResponse : bytes;
  nvr_ntProof : bytes;
  nvr_sessionBaseKey : bytes
}.

(** [temp], the part of the response the proof covers. *)
Definition ntlmV2Blob (clientChallenge : bytes) (timestamp : Z) (targetInfo : bytes) : bytes :=
  [0x01] ++ [0x01] ++ u16Le 0 ++ u32Le 0 ++ u64Le timestamp ++ clientChallenge
  ++ u32Le 0 ++ targetInfo ++ u32Le 0.

Definition computeNtlmV2ResponseFromKey (responseKey serverChallenge clientChallenge : bytes)
    (timestamp : Z) (targetInfo : bytes) : NtlmV2ResponseParts :=
  let temp := ntlmV2Blob clientChallenge timestamp targetInfo in
  let ntProof := hmacMd5 responseKey (serverChallenge ++ temp) in
  let lmProof := hmacMd5 responseKey (serverChallenge ++ clientChallenge) in
  mkNtlmV2ResponseParts (ntProof ++ temp) (lmProof ++ clientChallenge) ntProof
    (hmacMd5 responseKey ntProof).

Definition computeNtlmV2Response (password user domain serverChallenge clientChallenge : bytes)
    (timestamp : Z) (targetInfo : bytes) : comp NtlmV2ResponseParts :=
  responseKey ← ntowfv2 password user domain;
  Ok (computeNtlmV2ResponseFromKey responseKey serverChallenge clientChallenge timestamp
        targetInfo).

(** ** Published test vectors *)

(** RFC 1320, A.5. *)
Lemma md4_abc :
  md4 (ascii_bytes "abc") =
  [0xa4; 0x48; 0x01; 0x7a; 0xaf; 0x21; 0xd8; 0x52; 0x5f; 0xc1; 0x0a; 0xe8; 0x7a; 0xa6;
   0x72; 0x9d].
Proof. vm_compute. reflexivity. Qed.

(** RFC 1321, A.5. *)
Lemma md5_abc :
  md5 (ascii_bytes "abc") =
  [0x90; 0x01; 0x50; 0x98; 0x3c; 0xd2; 0x4f; 0xb0; 0xd6; 0x96; 0x3f; 0x7d; 0x28; 0xe1;
   0x7f; 0x72].
Proof. vm_compute. reflexivity. Qed.

(** RFC 2202, 2. *)
Lemma hmacMd5_rfc2202 :
  hmacMd5 (replicate 16 0x0b) (ascii_bytes "Hi There") =
  [0x92; 0x94; 0x72; 0x7a; 0x36; 0x38; 0xbb; 0x1c; 0x13; 0xf4; 0x8e; 0xf8; 0x15; 0x8b;
   0xfc; 0x9d].
Proof. vm_compute. reflexivity. Qed.

(** [MS-NLMP] 4.2.4.1.1. *)
Lemma ntowfv2_nlmp :
  ntowfv2 (ascii_bytes "Password") (ascii_bytes "User") (ascii_bytes "Domain") =
  Ok [0x0c; 0x86; 0x8a; 0x40; 0x3b; 0xfd; 0x7a; 0x93; 0xa3; 0x00; 0x1e; 0xf2; 0x2e; 0xf0;
      0x2e; 0x3f].
Proof. vm_compute. reflexivity. Qed.
