(* ===== verification/NtlmMessages.v ===== *)
(** * NTLM messages ([NtlmMessages.cpp])

    The NEGOTIATE and AUTHENTICATE messages a client builds and the CHALLENGE
    message it decodes.  The variable fields are described by security buffers:
    a length, a maximal length and an offset from the start of the message. *)

From S2P Require Export NtlmCrypto Spnego.
Local Open Scope Z_scope.
Local Open Scope comp_scope.

Definition kNtlmNegotiateUnicode : Z := 0x00000001.
Definition kNtlmNegotiateOem : Z := 0x00000002.
Definition kNtlmRequestTarget : Z := 0x00000004.
Definition kNtlmNegotiateSign : Z := 0x00000010.
Definition kNtlmNegotiateSeal : Z := 0x00000020.
Definition kNtlmNegotiateNtlm : Z := 0x00000200.
Definition kNtlmNegotiateAlwaysSign : Z := 0x00008000.
Definition kNtlmNegotiateExtendedSessionSecurity : Z := 0x00080000.
Definition kNtlmNegotiateTargetInfo : Z := 0x00800000.
Definition kNtlmNegotiateVersion : Z := 0x02000000.
Definition kNtlmNegotiate128 : Z := 0x20000000.
Definition kNtlmNegotiateKeyExchange : Z := 0x40000000.
Definition kNtlmNegotiate56 : Z := 0x80000000.

Definition kNtlmNegotiateMessageType : Z := 1.
Definition kNtlmChallengeMessageType : Z := 2.
Definition kNtlmAuthenticateMessageType : Z := 3.

Definition kNtlmVersion : bytes := [0x0A; 0; 0; 0; 0; 0; 0; 0x0F].

Record NtlmNegotiateOptions : Set := mkNtlmNegotiateOptions {
  nno_domain : bytes;
  nno_workstation : bytes;
  nno_flags : Z;
  nno_version : bytes
}.

Record NtlmChallengeMessage : Set := mkNtlmChallengeMessage {
  ncm_targetName : bytes;
  ncm_flags : Z;
  ncm_serverChallenge : bytes;
  ncm_targetInfo : bytes;
  ncm_hasTargetInfo : bool
}.

Record NtlmAuthenticateOptions : Set := mkNtlmAuthenticateOptions {
  nao_domain : bytes;
  nao_username : bytes;
  nao_workstation : bytes;
  nao_lmChallengeResponse : bytes;
  nao_ntChallengeResponse : bytes;
  nao_encryptedRandomSessionKey : bytes;
  nao_flags : Z;
  nao_version : bytes;
  nao_includeVersion : bool;
  nao_includeMic : bool;
  nao_mic : bytes
}.

(** ** Building *)

Definition encodeUnicodeUpper (text : bytes) : comp bytes :=
  encodeUtf16Le (uppercaseAscii text).

Definition appendSecurityBuffer (length offset : Z) : bytes :=
  u16Le length ++ u16Le length ++ u32Le (if length =? 0 then 0 else offset).

Definition checkedFieldSize (size : Z) (fieldName : string) : comp Z :=
  throw_if 65535 <? size with "NTLM " +:+ fieldName +:+ " field is too large.";;
  Ok size.

Definition buildNtlmNegotiateMessage (options : NtlmNegotiateOptions) : comp bytes :=
  domain ← encodeUnicodeUpper (nno_domain options);
  workstation ← encodeUnicodeUpper (nno_workstation options);
  throw_if (65535 <? blen domain) || (65535 <? blen workstation)
    with "NTLM negotiate identity field is too large.";;
  let kPayloadOffset := 40 in
  Ok (kNtlmSignature ++ u32Le kNtlmNegotiateMessageType ++ u32Le (nno_flags options)
      ++ appendSecurityBuffer (blen domain) kPayloadOffset
      ++ appendSecurityBuffer (blen workstation) (u32 (kPayloadOffset + blen domain))
      ++ nno_version options ++ domain ++ workstation).

(** The security buffers of consecutive fields, the first at [offset]. *)
Definition buildNtlmAuthenticateMessage (options : NtlmAuthenticateOptions) : comp bytes :=
  domain ← encodeUtf16Le (nao_domain options);
  username ← encodeUtf16Le (nao_username options);
  workstation ← encodeUtf16Le (nao_workstation options);
  lmLength ← checkedFieldSize (blen (nao_lmChallengeResponse options)) "LM response";
  ntLength ← checkedFieldSize (blen (nao_ntChallengeResponse options)) "NT response";
  domainLength ← checkedFieldSize (blen domain) "domain";
  usernameLength ← checkedFieldSize (blen username) "username";
  workstationLength ← checkedFieldSize (blen workstation) "workstation";
  sessionKeyLength ← checkedFieldSize (blen (nao_encryptedRandomSessionKey options))
                       "encrypted session key";
  let domainOffset := u32 (64 + (if nao_includeVersion options then 8 else 0)
                              + (if nao_includeMic options then 16 else 0)) in
  let usernameOffset := u32 (domainOffset + domainLength) in
  let workstationOffset := u32 (usernameOffset + usernameLength) in
  let lmOffset := u32 (workstationOffset + workstationLength) in
  let ntOffset := u32 (lmOffset + lmLength) in
  let sessionKeyOffset := u32 (ntOffset + ntLength) in
  Ok (kNtlmSignature ++ u32Le kNtlmAuthenticateMessageType
      ++ appendSecurityBuffer lmLength lmOffset
      ++ appendSecurityBuffer ntLength ntOffset
      ++ appendSecurityBuffer domainLength domainOffset
      ++ appendSecurityBuffer usernameLength usernameOffset
      ++ appendSecurityBuffer workstationLength workstationOffset
      ++ appendSecurityBuffer sessionKeyLength sessionKeyOffset
      ++ u32Le (nao_flags options)
      ++ (if nao_includeVersion options then nao_version options else [])
      ++ (if nao_includeMic options then nao_mic options else [])
      ++ domain ++ username ++ workstation
      ++ nao_lmChallengeResponse options ++ nao_ntChallengeResponse options
      ++ nao_encryptedRandomSessionKey options).

(** ** Reading *)

Definition readSecurityBuffer (bs : bytes) (descriptorOffset : Z) : comp bytes :=
  fail_if blen bs <? descriptorOffset + 8 with ErrorCode_IoError,
    "NTLM security buffer descriptor is truncated.";;
  length ← readU16Le bs descriptorOffset;
  maxLength ← readU16Le bs (descriptorOffset + 2);
  offset ← readU32Le bs (descriptorOffset + 4);
  fail_if maxLength <? length with ErrorCode_IoError,
    "NTLM security buffer length exceeds max length.";;
  if length =? 0 then Ok []
  else
    let end_ := offset + length in
    fail_if (offset <? 32) || (blen bs <? end_) || (end_ <? offset) with ErrorCode_IoError,
      "NTLM security buffer is out of bounds.";;
    read_range bs offset end_.

Definition decodeNtlmChallengeMessage (bs : bytes) : comp NtlmChallengeMessage :=
  fail_if blen bs <? 48 with ErrorCode_IoError,
    "NTLM CHALLENGE_MESSAGE is shorter than 48 bytes.";;
  fail_if negb (startsWithNtlmSignature bs) with ErrorCode_ProtocolUnsupported,
    "Invalid NTLMSSP signature.";;
  messageType ← readU32Le bs 8;
  fail_if negb (messageType =? kNtlmChallengeMessageType) with ErrorCode_ProtocolUnsupported,
    "NTLM message is not a CHALLENGE_MESSAGE.";;
  targetName ← reraise (readSecurityBuffer bs 12);
  flags ← readU32Le bs 20;
  targetInfo ← reraise (readSecurityBuffer bs 40);
  serverChallenge ← read_range bs 24 32;
  decodedTargetName ← reraise (decodeUtf16Le targetName);
  Ok (mkNtlmChallengeMessage decodedTargetName flags serverChallenge targetInfo
        (negb (bool_decide (targetInfo = [])))).

(** ** Security buffers *)

Lemma readSecurityBuffer_at msg descriptor field offset :
  at_off msg descriptor (appendSecurityBuffer (blen field) offset) ->
  at_off msg offset field -> blen field <= 65535 -> 32 <= offset < 2 ^ 32 ->
  readSecurityBuffer msg descriptor = Ok field.
Proof.
  intros Hd Hf Hl Ho. pose proof (blen_nonneg field).
  pose proof (at_off_bound _ _ _ Hd) as [Hd0 Hdb]. pose proof (at_off_bound _ _ _ Hf) as [_ Hfb].
  unfold appendSecurityBuffer in *. autorewrite with blen in Hdb.
  destruct Hd as (pre & post & -> & ->). unfold readSecurityBuffer.
  rewrite (proj2 (Z.ltb_ge _ _)) by lia.
  rewrite (readU16Le_at _ (blen pre) (blen field)) by find_at.
  cbn [mbind comp_bind].
  rewrite (readU16Le_at _ (blen pre + 2) (blen field)) by find_at.
  cbn [mbind comp_bind].
  rewrite (readU32Le_at _ (blen pre + 4) (if blen field =? 0 then 0 else offset)) by find_at.
  cbn [mbind comp_bind]. rewrite !u16_small by ulia. rewrite Z.ltb_irrefl.
  destruct (Z.eqb_spec (blen field) 0) as [Hz|Hz]; [by rewrite (blen_zero _ Hz)|].
  rewrite u32_small by ulia.
  rewrite (proj2 (Z.ltb_ge _ 32)), !(proj2 (Z.ltb_ge _ _)) by lia. cbn [orb].
  by apply read_range_at.
Qed.

Lemma starts_with_signature rest : startsWithNtlmSignature (kNtlmSignature ++ rest) = true.
Proof.
  unfold startsWithNtlmSignature. rewrite blen_app. pose proof (blen_nonneg rest).
  change (blen kNtlmSignature) with 8. rewrite (proj2 (Z.leb_le _ _)) by lia.
  cbn [andb]. by apply bool_decide_eq_true_2.
Qed.

(** ** The messages *)

(** The CHALLENGE message of [MS-NLMP] 2.2.1.2, with its two fields in order
    behind the header. *)
Definition challenge_message (targetName : bytes) (flags : Z)
    (serverChallenge targetInfo version : bytes) : bytes :=
  kNtlmSignature ++ u32Le kNtlmChallengeMessageType
  ++ appendSecurityBuffer (blen targetName) 56 ++ u32Le flags ++ serverChallenge
  ++ zeros 8 ++ appendSecurityBuffer (blen targetInfo) (56 + blen targetName)
  ++ version ++ targetName ++ targetInfo.

Lemma blen_appendSecurityBuffer length offset :
  blen (appendSecurityBuffer length offset) = 8.
Proof. done. Qed.
Lemma blen_kNtlmSignature : blen kNtlmSignature = 8.
Proof. done. Qed.
#[export] Hint Rewrite blen_appendSecurityBuffer blen_kNtlmSignature : blen.

Lemma decode_challenge_message targetName flags serverChallenge targetInfo version name :
  is_u32 flags -> blen serverChallenge = 8 -> blen version = 8 ->
  blen targetName <= 65535 -> blen targetInfo <= 65535 ->
  decodeUtf16Le targetName = Ok name ->
  decodeNtlmChallengeMessage
    (challenge_message targetName flags serverChallenge targetInfo version)
  = Ok (mkNtlmChallengeMessage name flags serverChallenge targetInfo
          (negb (bool_decide (targetInfo = [])))).
Proof.
  intros Hf Hs Hv Hn Hi Hd.
  pose proof (blen_nonneg targetName). pose proof (blen_nonneg targetInfo).
  unfold decodeNtlmChallengeMessage.
  assert (blen (challenge_message targetName flags serverChallenge targetInfo version)
    = 56 + blen targetName + blen targetInfo) as Hl.
  { unfold challenge_message. rewrite !blen_app, Hs, Hv. autorewrite with blen.
    change (blen kNtlmSignature) with 8. change (blen (zeros 8)) with 8. lia. }
  rewrite Hl, (proj2 (Z.ltb_ge _ _)) by lia.
  unfold challenge_message at 1. rewrite starts_with_signature. cbn [negb].
  rewrite (readU32Le_at _ 8 kNtlmChallengeMessageType) by (unfold challenge_message; find_at).
  cbn [mbind comp_bind]. change (u32 kNtlmChallengeMessageType) with kNtlmChallengeMessageType.
  rewrite Z.eqb_refl. cbn [negb].
  rewrite (readSecurityBuffer_at _ 12 targetName 56);
    [|unfold challenge_message; find_at..|done|lia].
  cbn [reraise mbind comp_bind].
  rewrite (readU32Le_at _ 20 flags) by (unfold challenge_message; find_at).
  cbn [mbind comp_bind].
  rewrite (readSecurityBuffer_at _ 40 targetInfo (56 + blen targetName));
    [|unfold challenge_message; find_at..|done|lia].
  cbn [reraise mbind comp_bind].
  rewrite (read_range_at _ 24 serverChallenge);
    [|unfold challenge_message; find_at|lia].
  cbn [mbind comp_bind]. rewrite Hd. cbn [reraise mbind comp_bind].
  by rewrite u32_small.
Qed.

Lemma checkedFieldSize_Ok size name n :
  checkedFieldSize size name = Ok n -> n = size /\ size <= 65535.
Proof. unfold checkedFieldSize. intros Hc. inv_comp. bools. by split; [|lia]. Qed.

(** The fields of an AUTHENTICATE message, where [MS-NLMP] 2.2.1.3 has them. *)
Record authenticate_fields (msg : bytes) (o : NtlmAuthenticateOptions) : Prop := {
  af_signature : startsWithNtlmSignature msg = true;
  af_type : readU32Le msg 8 = Ok kNtlmAuthenticateMessageType;
  af_lm : readSecurityBuffer msg 12 = Ok (nao_lmChallengeResponse o);
  af_nt : readSecurityBuffer msg 20 = Ok (nao_ntChallengeResponse o);
  af_domain : exists domain, encodeUtf16Le (nao_domain o) = Ok domain /\
    readSecurityBuffer msg 28 = Ok domain;
  af_username : exists username, encodeUtf16Le (nao_username o) = Ok username /\
    readSecurityBuffer msg 36 = Ok username;
  af_workstation : exists workstation, encodeUtf16Le (nao_workstation o) = Ok workstation /\
    readSecurityBuffer msg 44 = Ok workstation;
  af_sessionKey : readSecurityBuffer msg 52 = Ok (nao_encryptedRandomSessionKey o);
  af_flags : readU32Le msg 60 = Ok (u32 (nao_flags o))
}.

Lemma authenticate_message_fields o msg :
  blen (nao_version o) = 8 -> blen (nao_mic o) = 16 ->
  buildNtlmAuthenticateMessage o = Ok msg -> authenticate_fields msg o.
Proof.
  intros Hv Hm Hb. unfold buildNtlmAuthenticateMessage in Hb. inv_comp.
  repeat match goal with
  | Hc : checkedFieldSize _ _ = Ok _ |- _ => apply checkedFieldSize_Ok in Hc as [-> ?]
  end.
  blens.
  set (ver := if nao_includeVersion o then nao_version o else []).
  set (mic := if nao_includeMic o then nao_mic o else []).
  assert (u32 (64 + (if nao_includeVersion o then 8 else 0)
                  + (if nao_includeMic o then 16 else 0)) = 64 + blen ver + blen mic) as ->.
  { unfold ver, mic. destruct (nao_includeVersion o), (nao_includeMic o);
      rewrite ?Hv, ?Hm; reflexivity. }
  assert (0 <= blen ver <= 8 /\ 0 <= blen mic <= 16) as [Hver Hmic].
  { unfold ver, mic. destruct (nao_includeVersion o), (nao_includeMic o);
      rewrite ?Hv, ?Hm; done. }
  clearbody ver mic. smalls.
  split; try (eexists; split; [eassumption|]);
    try (eapply readSecurityBuffer_at; [find_at|find_at|lia|ulia]).
  - apply starts_with_signature.
  - refine (readU32Le_at _ 8 kNtlmAuthenticateMessageType _). find_at.
  - apply readU32Le_at. find_at.
Qed.

Lemma authenticate_message_total o d u w :
  encodeUtf16Le (nao_domain o) = Ok d -> encodeUtf16Le (nao_username o) = Ok u ->
  encodeUtf16Le (nao_workstation o) = Ok w ->
  blen d <= 65535 -> blen u <= 65535 -> blen w <= 65535 ->
  blen (nao_lmChallengeResponse o) <= 65535 -> blen (nao_ntChallengeResponse o) <= 65535 ->
  blen (nao_encryptedRandomSessionKey o) <= 65535 ->
  blen (nao_version o) = 8 -> blen (nao_mic o) = 16 ->
  exists msg, buildNtlmAuthenticateMessage o = Ok msg /\ blen msg < 2 ^ 59.
Proof.
  intros Hd Hu Hw Hdl Hul Hwl Hl Hn Hk Hv Hm. unfold buildNtlmAuthenticateMessage.
  rewrite Hd, Hu, Hw. cbn [mbind comp_bind]. unfold checkedFieldSize.
  rewrite !(proj2 (Z.ltb_ge 65535 _)) by done. cbn [mbind comp_bind].
  eexists. split; [done|]. rewrite !blen_app. autorewrite with blen.
  destruct (nao_includeVersion o), (nao_includeMic o); rewrite ?Hv, ?Hm, ?blen_nil; lia.
Qed.
