(* ===== verification/NtlmProvider.v ===== *)
(** * The NTLMv2 token provider ([NtlmV2TokenProvider.cpp])

    The authentication mechanism of the connector: it builds the NEGOTIATE
    token, answers the server's CHALLENGE with an AUTHENTICATE token that
    proves the password, and keeps the session key. *)

From S2P Require Export NtlmMessages Connector.
Local Open Scope Z_scope.
Local Open Scope comp_scope.

Definition kUnixEpochAsFiletime : Z := 116444736000000000.

(** What the provider calls outside itself: the two functions of its options,
    [std::random_device] and the system clock, in nanoseconds. *)
Class NtlmEnvironment (E : Type) : Type := {
  clientChallengeGenerator : E -> E * bytes;
  timestampProvider : E -> E * Z;
  random_device : E -> E * Z;
  system_clock : E -> E * Z
}.

Record NtlmV2TokenProviderOptions : Set := mkNtlmV2TokenProviderOptions {
  npo_workstation : bytes;
  npo_negotiateFlags : Z;
  npo_useServerTimestamp : bool;
  npo_omitLmResponse : bool;
  npo_useSpnego : bool;
  npo_fixedClientChallenge : option bytes;
  npo_fixedTimestamp : option Z;
  npo_hasClientChallengeGenerator : bool;
  npo_hasTimestampProvider : bool
}.

(** The provider, with its surroundings. *)
Record NtlmV2TokenProvider (E : Type) : Type := mkNtlmV2TokenProvider {
  ntp_password : bytes;
  ntp_options : NtlmV2TokenProviderOptions;
  ntp_lastNegotiateMessage : bytes;
  ntp_sessionBaseKey : bytes;
  ntp_environment : E
}.
Arguments mkNtlmV2TokenProvider {_} _ _ _ _ _.
Arguments ntp_password {_} _.
Arguments ntp_options {_} _.
Arguments ntp_lastNegotiateMessage {_} _.
Arguments ntp_sessionBaseKey {_} _.
Arguments ntp_environment {_} _.

(** The constructor. *)
Definition newNtlmV2TokenProvider {E} (password : bytes)
    (options : NtlmV2TokenProviderOptions) (environment : E) : NtlmV2TokenProvider E :=
  mkNtlmV2TokenProvider password options [] (zeros 16) environment.

(** ** Target information *)

(** The loop over the AV pairs of the target information, four bytes or more
    each. *)
Fixpoint timestamp_loop (fuel : nat) (targetInfo : bytes) (offset : Z) : comp (option Z) :=
  match fuel with
  | O => OutOfBounds
  | S fuel =>
      if offset + 4 <=? blen targetInfo then
        avId ← readU16Le targetInfo offset;
        avLength ← readU16Le targetInfo (offset + 2);
        let offset := offset + 4 in
        fail_if blen targetInfo <? offset + avLength with ErrorCode_ProtocolUnsupported,
          "NTLM target info AV_PAIR is truncated.";;
        if avId =? 0 then Ok None
        else if avId =? 7 then
          fail_if negb (avLength =? 8) with ErrorCode_ProtocolUnsupported,
            "NTLM timestamp AV_PAIR has invalid length.";;
          value ← readU64Le targetInfo offset;
          Ok (Some value)
        else timestamp_loop fuel targetInfo (offset + avLength)
      else if bool_decide (targetInfo = []) then Ok None
      else failure ErrorCode_ProtocolUnsupported "NTLM target info is not terminated."
  end.

Definition timestampFromTargetInfo (targetInfo : bytes) : comp (option Z) :=
  timestamp_loop (S (length targetInfo)) targetInfo 0.

Definition authFlagsForChallenge (challengeFlags requestedFlags : Z) : Z :=
  let flags := Z.land challengeFlags requestedFlags in
  Z.land (Z.lor (Z.lor (Z.lor flags kNtlmNegotiateUnicode) kNtlmNegotiateNtlm)
                kNtlmNegotiateExtendedSessionSecurity)
         (u32 (Z.lnot kNtlmNegotiateKeyExchange)).

Record AuthIdentity : Set := mkAuthIdentity {
  aid_domain : bytes;
  aid_username : bytes;
  aid_anonymous : bool
}.

Definition authIdentityFromConfig (config : ConnectionConfig) : comp AuthIdentity :=
  match cfg_authMode config with
  | AuthMode_Password => Ok (mkAuthIdentity (cfg_domain config) (cfg_username config) false)
  | AuthMode_Guest =>
      Ok (mkAuthIdentity (cfg_domain config)
            (if decide (cfg_username config = []) then ascii_bytes "Guest"
             else cfg_username config) false)
  | AuthMode_Anonymous => Ok (mkAuthIdentity [] [] true)
  | AuthMode_CurrentUser =>
      failure ErrorCode_UnsupportedCapability
        "Current-user/Kerberos authentication is not implemented by the clean-room native SMB engine yet."
  end.

(** ** The provider *)

Section provider.
Context {E : Type} `{NtlmEnvironment E}.

(** A step of the provider, which may change it. *)
Definition providing (A : Type) : Type :=
  NtlmV2TokenProvider E -> NtlmV2TokenProvider E * comp A.

#[local] Instance providing_ret : MRet providing := fun A a p => (p, Ok a).
#[local] Instance providing_bind : MBind providing := fun A B f x p =>
  let '(p, r) := x p in
  match r with
  | Ok a => f a p
  | Err e => (p, Err e)
  | Throw m => (p, Throw m)
  | OutOfBounds => (p, OutOfBounds)
  end.

Definition providing_pure {A} (c : comp A) : providing A := fun p => (p, c).
Definition the_options : providing NtlmV2TokenProviderOptions := fun p =>
  (p, Ok (ntp_options p)).
Definition the_password : providing bytes := fun p => (p, Ok (ntp_password p)).

Definition set_lastNegotiateMessage (message : bytes) : providing unit := fun p =>
  (mkNtlmV2TokenProvider (ntp_password p) (ntp_options p) message (ntp_sessionBaseKey p)
     (ntp_environment p), Ok tt).

Definition set_sessionBaseKey (key : bytes) : providing unit := fun p =>
  (mkNtlmV2TokenProvider (ntp_password p) (ntp_options p) (ntp_lastNegotiateMessage p) key
     (ntp_environment p), Ok tt).

(** A call outside. *)
Definition calling {A} (f : E -> E * A) : providing A := fun p =>
  let '(e, a) := f (ntp_environment p) in
  (mkNtlmV2TokenProvider (ntp_password p) (ntp_options p) (ntp_lastNegotiateMessage p)
     (ntp_sessionBaseKey p) e, Ok a).

(** [for (auto &byte : bytes) byte = static_cast<std::uint8_t>(device());] *)
Fixpoint random_bytes (n : nat) : providing bytes :=
  match n with
  | O => mret []
  | S n => word ← calling random_device; rest ← random_bytes n; mret (u8 word :: rest)
  end.

Definition randomClientChallenge : providing bytes := random_bytes 8.

Definition currentFiletime : providing Z :=
  now ← calling system_clock;
  mret (u64 (kUnixEpochAsFiletime + u64 (Z.quot now 100))).

Definition clientChallengeFromOptions : providing bytes :=
  options ← the_options;
  match npo_fixedClientChallenge options with
  | Some challenge => mret challenge
  | None =>
      if npo_hasClientChallengeGenerator options then calling clientChallengeGenerator
      else randomClientChallenge
  end.

Definition timestampFromOptions : providing Z :=
  options ← the_options;
  match npo_fixedTimestamp options with
  | Some timestamp => mret timestamp
  | None => if npo_hasTimestampProvider options then calling timestampProvider
            else currentFiletime
  end.

Definition ntlm_initialToken (config : ConnectionConfig) : providing bytes :=
  options ← the_options;
  identity ← providing_pure (reraise (authIdentityFromConfig config));
  message ← providing_pure (buildNtlmNegotiateMessage
    (mkNtlmNegotiateOptions (aid_domain identity) (npo_workstation options)
       (npo_negotiateFlags options) kNtlmVersion));
  set_lastNegotiateMessage message;;
  mret (if npo_useSpnego options then buildSpnegoNegTokenInit message else message).

(** The two responses, left empty for an anonymous session but for one byte. *)
Definition challengeResponses (challenge : NtlmChallengeMessage) (identity : AuthIdentity)
    (timestamp : Z) : providing (bytes * bytes) :=
  options ← the_options;
  password ← the_password;
  if aid_anonymous identity then mret ([0], [])
  else
    clientChallenge ← clientChallengeFromOptions;
    response ← providing_pure (reraise
      (computeNtlmV2Response password (aid_username identity) (aid_domain identity)
         (ncm_serverChallenge challenge) clientChallenge timestamp
         (ncm_targetInfo challenge)));
    set_sessionBaseKey (nvr_sessionBaseKey response);;
    mret (if npo_omitLmResponse options then [] else nvr_lmChallengeResponse response,
          nvr_ntChallengeResponse response).

(** The challenge a SESSION_SETUP answer carries. *)
Definition receivedChallenge (useSpnego : bool) (securityBuffer : bytes)
    : comp NtlmChallengeMessage :=
  token ← reraise (if useSpnego then unwrapSpnegoNtlmToken securityBuffer
                   else Ok securityBuffer);
  fail_if negb (startsWithNtlmSignature token) with ErrorCode_ProtocolUnsupported,
    "NTLMv2 token provider received a non-NTLMSSP challenge token.";;
  reraise (decodeNtlmChallengeMessage token).

Definition ntlm_nextToken (securityBuffer : bytes) (config : ConnectionConfig)
    : providing bytes :=
  options ← the_options;
  challenge ← providing_pure (receivedChallenge (npo_useSpnego options) securityBuffer);
  targetTimestamp ← providing_pure (reraise
    (timestampFromTargetInfo (ncm_targetInfo challenge)));
  timestamp ← (match targetTimestamp with
               | Some t => if npo_useServerTimestamp options then mret t
                           else timestampFromOptions
               | None => timestampFromOptions
               end);
  identity ← providing_pure (reraise (authIdentityFromConfig config));
  let flags := authFlagsForChallenge (ncm_flags challenge) (npo_negotiateFlags options) in
  '(lm, nt) ← challengeResponses challenge identity timestamp;
  message ← providing_pure (buildNtlmAuthenticateMessage
    (mkNtlmAuthenticateOptions (aid_domain identity) (aid_username identity)
       (npo_workstation options) lm nt [] flags kNtlmVersion
       (negb (Z.land flags kNtlmNegotiateVersion =? 0)) false (zeros 16)));
  mret (if npo_useSpnego options then buildSpnegoNegTokenResp message else message).

Definition ntlm_sessionBaseKey (p : NtlmV2TokenProvider E) : comp bytes :=
  if existsb (fun byte => negb (byte =? 0)) (ntp_sessionBaseKey p)
  then Ok (ntp_sessionBaseKey p)
  else failure ErrorCode_AuthenticationFailed
         "NTLMv2 session base key is not available before authentication.".

#[export] Instance ntlm_token_provider : SessionSetupTokenProvider (NtlmV2TokenProvider E) := {|
  initialToken p _ config := ntlm_initialToken config p;
  nextToken p challenge config := ntlm_nextToken (ssr_securityBuffer challenge) config p;
  sessionBaseKey := ntlm_sessionBaseKey
|}.
End provider.

(** ** Digests *)

Lemma md_digest_ok s : bytes_ok (md_digest s) /\ blen (md_digest s) = 16.
Proof.
  unfold md_digest. split; [by auto 10 with smb|]. rewrite !blen_app. done.
Qed.

Lemma hmacMd5_ok key data : bytes_ok (hmacMd5 key data) /\ blen (hmacMd5 key data) = 16.
Proof. apply md_digest_ok. Qed.

(** ** Target information *)

(** AV pairs as [MS-NLMP] 2.2.2.1 has them, with the terminator. *)
Definition av_pairs (pairs : list (Z * bytes)) : bytes :=
  concat ((fun p => u16Le (fst p) ++ u16Le (blen (snd p)) ++ snd p) <$> pairs)
  ++ u16Le 0 ++ u16Le 0.

Definition av_pair_ok (p : Z * bytes) : Prop :=
  1 <= fst p < 2 ^ 16 /\ blen (snd p) < 2 ^ 16 /\ bytes_ok (snd p) /\
  (fst p = 7 -> blen (snd p) = 8).

(** The timestamp among them, if there is one. *)
Fixpoint timestamp_of (pairs : list (Z * bytes)) : option Z :=
  match pairs with
  | [] => None
  | (id, value) :: pairs => if id =? 7 then Some (le_value value) else timestamp_of pairs
  end.

Lemma timestamp_loop_pairs pre pairs fuel :
  Forall av_pair_ok pairs -> (length pairs < fuel)%nat ->
  timestamp_loop fuel (pre ++ av_pairs pairs) (blen pre) = Ok (timestamp_of pairs).
Proof.
  intros Hp. revert pre fuel. induction Hp as [|[id value] pairs Hok Hp IH];
    intros pre [|fuel] Hf; try (simpl in Hf; lia); cbn [timestamp_loop timestamp_of].
  - unfold av_pairs. cbn [fmap list_fmap concat app]. rewrite !blen_app.
    autorewrite with blen. rewrite (proj2 (Z.leb_le _ _)) by lia.
    rewrite (readU16Le_at _ _ 0) by find_at. cbn [mbind comp_bind].
    rewrite (readU16Le_at _ _ 0) by find_at. cbn [mbind comp_bind].
    change (u16 0) with 0. rewrite (proj2 (Z.ltb_ge _ _)) by lia. done.
  - destruct Hok as (Hid & Hl & Hb & H7). cbn [fst snd] in *.
    assert (pre ++ av_pairs ((id, value) :: pairs) =
      (pre ++ u16Le id ++ u16Le (blen value) ++ value) ++ av_pairs pairs) as He.
    { unfold av_pairs. cbn [fmap list_fmap concat fst snd]. by rewrite <- !app_assoc. }
    pose proof (blen_nonneg value). pose proof (blen_nonneg (av_pairs pairs)).
    rewrite He. clear He.
    assert (blen ((pre ++ u16Le id ++ u16Le (blen value) ++ value) ++ av_pairs pairs)
      = blen pre + 4 + blen value + blen (av_pairs pairs)) as Hs
      by (rewrite !blen_app; autorewrite with blen; lia).
    rewrite Hs, (proj2 (Z.leb_le _ _)) by lia.
    rewrite (readU16Le_at _ (blen pre) id) by find_at. cbn [mbind comp_bind].
    rewrite (readU16Le_at _ (blen pre + 2) (blen value)) by find_at.
    cbn [mbind comp_bind]. rewrite !u16_small by ulia.
    rewrite (proj2 (Z.ltb_ge _ _)) by lia. rewrite (proj2 (Z.eqb_neq id 0)) by lia.
    destruct (Z.eqb_spec id 7) as [->|Hne].
    + rewrite H7 by done. cbn [Z.eqb negb]. rewrite (readU64Le_value _ _ value); [done| |done|].
      * find_at.
      * specialize (H7 eq_refl). unfold blen in H7. lia.
    + replace (blen pre + 4 + blen value)
        with (blen (pre ++ u16Le id ++ u16Le (blen value) ++ value))
        by (rewrite !blen_app; autorewrite with blen; lia).
      apply IH. simpl in Hf. lia.
Qed.

Lemma length_av_pairs pairs : (length pairs < S (length (av_pairs pairs)))%nat.
Proof.
  unfold av_pairs. rewrite length_app. induction pairs as [|p pairs IH]; [simpl; lia|].
  cbn [fmap list_fmap concat]. rewrite !length_app. simpl in *. lia.
Qed.

Lemma timestampFromTargetInfo_pairs pairs :
  Forall av_pair_ok pairs -> timestampFromTargetInfo (av_pairs pairs) = Ok (timestamp_of pairs).
Proof.
  intros Hp. unfold timestampFromTargetInfo.
  apply (timestamp_loop_pairs []); [done|apply length_av_pairs].
Qed.

Lemma timestamp_of_range pairs :
  Forall av_pair_ok pairs -> from_option is_u64 True (timestamp_of pairs).
Proof.
  induction 1 as [|[id value] pairs (_ & _ & Hb & H7) _ IH]; [done|].
  cbn [timestamp_of fst snd] in *. destruct (Z.eqb_spec id 7) as [->|]; [|done].
  cbn [from_option]. specialize (H7 eq_refl).
  pose proof (le_value_range value Hb) as Hr. rewrite H7 in Hr. exact Hr.
Qed.

(** ** The exchange *)

(** What a server that knows the user's NTLMv2 key makes of a response to its
    challenge ([MS-NLMP] 3.3.2): it checks the proof in the first 16 bytes
    against the rest, and gets the session key from it. *)
Definition server_accepts (key serverChallenge ntResponse : bytes) : option bytes :=
  let proof := take 16 ntResponse in
  if decide (proof = hmacMd5 key (serverChallenge ++ drop 16 ntResponse))
  then Some (hmacMd5 key proof) else None.

Lemma server_accepts_response key serverChallenge clientChallenge timestamp targetInfo :
  let r := computeNtlmV2ResponseFromKey key serverChallenge clientChallenge timestamp
             targetInfo in
  server_accepts key serverChallenge (nvr_ntChallengeResponse r)
  = Some (nvr_sessionBaseKey r).
Proof.
  intros r. unfold server_accepts, r, computeNtlmV2ResponseFromKey.
  cbn [nvr_ntChallengeResponse nvr_sessionBaseKey].
  set (blob := ntlmV2Blob clientChallenge timestamp targetInfo).
  set (proof := hmacMd5 key (serverChallenge ++ blob)).
  assert (length proof = 16%nat) as Hl.
  { assert (blen proof = 16) as Hb by apply hmacMd5_ok. unfold blen in Hb. lia. }
  rewrite (take_app_length' _ _ 16), (drop_app_length' _ _ 16) by done.
  by rewrite decide_True.
Qed.

Lemma response_layout key serverChallenge clientChallenge timestamp targetInfo :
  blen clientChallenge = 8 -> is_u64 timestamp ->
  let nt := nvr_ntChallengeResponse (computeNtlmV2ResponseFromKey key serverChallenge
              clientChallenge timestamp targetInfo) in
  readU64Le nt 24 = Ok timestamp /\ blen nt = 48 + blen targetInfo.
Proof.
  intros Hc Ht nt. unfold nt, computeNtlmV2ResponseFromKey, ntlmV2Blob.
  cbn [nvr_ntChallengeResponse]. set (proof := hmacMd5 key _).
  assert (blen proof = 16) as Hl by apply hmacMd5_ok. split.
  - rewrite (readU64Le_at _ 24 timestamp) by find_at. by rewrite u64_small.
  - rewrite !blen_app, Hl, Hc. autorewrite with blen. change (blen [1]) with 1. lia.
Qed.

Class NtlmEnvironmentLaws (E : Type) `{NtlmEnvironment E} : Prop := {
  generator_size e : blen (snd (clientChallengeGenerator e)) = 8;
  provider_range e : is_u64 (snd (timestampProvider e))
}.

(** The options hold arrays of eight bytes and 64-bit integers. *)
Definition provider_options_ok (o : NtlmV2TokenProviderOptions) : Prop :=
  from_option (fun c => blen c = 8) True (npo_fixedClientChallenge o) /\
  from_option is_u64 True (npo_fixedTimestamp o).

(** The server's side: the challenge it sends in the buffer of its answer. *)
Record challenges (useSpnego : bool) (securityBuffer serverChallenge : bytes)
    (flags : Z) (pairs : list (Z * bytes)) : Prop := {
  ch_pairs : Forall av_pair_ok pairs /\ blen (av_pairs pairs) <= 65535 - 48;
  ch_sizes : is_u32 flags /\ blen serverChallenge = 8;
  ch_token : exists targetName version name,
    decodeUtf16Le targetName = Ok name /\ blen targetName <= 65535 /\ blen version = 8 /\
    (if useSpnego then unwrapSpnegoNtlmToken securityBuffer else Ok securityBuffer)
    = Ok (challenge_message targetName flags serverChallenge (av_pairs pairs) version)
}.

Lemma receivedChallenge_challenges useSpnego securityBuffer serverChallenge flags pairs :
  challenges useSpnego securityBuffer serverChallenge flags pairs ->
  exists c, receivedChallenge useSpnego securityBuffer = Ok c /\
    ncm_serverChallenge c = serverChallenge /\ ncm_flags c = flags /\
    ncm_targetInfo c = av_pairs pairs.
Proof.
  intros [[Hp Hi] [Hf Hs] (tn & v & name & Hd & Hn & Hv & Ht)].
  unfold receivedChallenge. rewrite Ht. cbn [reraise mbind comp_bind].
  unfold challenge_message at 1. rewrite starts_with_signature. cbn [negb].
  rewrite (decode_challenge_message _ _ _ _ _ name) by (done || lia).
  cbn [reraise]. by eexists.
Qed.

(** Who logs on, with the names as they go on the wire and the key the
    password gives. *)
Record logs_on (config : ConnectionConfig) (password workstation : bytes)
    (domain username key : bytes) : Prop := {
  lo_identity : exists identity,
    authIdentityFromConfig config = Ok identity /\ aid_anonymous identity = false /\
    ntowfv2 password (aid_username identity) (aid_domain identity) = Ok key /\
    encodeUtf16Le (aid_domain identity) = Ok domain /\
    encodeUtf16Le (aid_username identity) = Ok username;
  lo_workstation : exists wire, encodeUtf16Le workstation = Ok wire /\ blen wire <= 65535;
  lo_sizes : blen domain <= 65535 /\ blen username <= 65535
}.

Section exchange.
Context {E : Type} `{NtlmEnvironmentLaws E}.
#[local] Existing Instances providing_ret providing_bind.
Implicit Types p : NtlmV2TokenProvider E.

(** A step that leaves the password and the options alone. *)
Definition settles {A} (f : providing (E := E) A) (Q : A -> Prop) : Prop :=
  forall p, exists p' a, f p = (p', Ok a) /\ Q a /\
    ntp_options p' = ntp_options p /\ ntp_password p' = ntp_password p.

Lemma random_bytes_settle n p :
  exists p' bs, random_bytes n p = (p', Ok bs) /\ blen bs = Z.of_nat n /\
    ntp_options p' = ntp_options p /\ ntp_password p' = ntp_password p.
Proof using Type.
  revert p. induction n as [|n IH]; intros p; [by exists p, []|].
  cbn [random_bytes]. unfold mbind, providing_bind at 1, calling.
  destruct (random_device (ntp_environment p)) as [e w].
  destruct (IH (mkNtlmV2TokenProvider (ntp_password p) (ntp_options p)
    (ntp_lastNegotiateMessage p) (ntp_sessionBaseKey p) e)) as (p' & bs & Hr & Hl & Ho & Hp).
  unfold providing_bind. rewrite Hr. exists p', (u8 w :: bs). split; [done|].
  rewrite blen_cons. split; [lia|]. done.
Qed.

Lemma clientChallenge_settle p :
  provider_options_ok (ntp_options p) ->
  exists p' c, clientChallengeFromOptions p = (p', Ok c) /\ blen c = 8 /\
    ntp_options p' = ntp_options p /\ ntp_password p' = ntp_password p.
Proof using Type*.
  intros [Hf _]. unfold clientChallengeFromOptions, the_options, mbind, providing_bind.
  destruct (npo_fixedClientChallenge (ntp_options p)) as [c|]; [by exists p, c|].
  destruct (npo_hasClientChallengeGenerator (ntp_options p)).
  - unfold calling. pose proof (generator_size (ntp_environment p)) as Hg.
    destruct (clientChallengeGenerator (ntp_environment p)) as [e c].
    by eexists _, c.
  - destruct (random_bytes_settle 8 p) as (p' & bs & Hr & Hl & Hs).
    exists p', bs. unfold randomClientChallenge. by rewrite Hr.
Qed.

Lemma timestamp_settle p :
  provider_options_ok (ntp_options p) ->
  exists p' t, timestampFromOptions p = (p', Ok t) /\ is_u64 t /\
    ntp_options p' = ntp_options p /\ ntp_password p' = ntp_password p.
Proof using Type*.
  intros [_ Hf]. unfold timestampFromOptions, the_options, mbind, providing_bind.
  destruct (npo_fixedTimestamp (ntp_options p)) as [t|]; [by exists p, t|].
  destruct (npo_hasTimestampProvider (ntp_options p)).
  - unfold calling. pose proof (provider_range (ntp_environment p)) as Hg.
    destruct (timestampProvider (ntp_environment p)) as [e t]. by eexists _, t.
  - unfold currentFiletime, mbind, providing_bind, calling.
    destruct (system_clock (ntp_environment p)) as [e now].
    eexists _, _. split; [done|]. split; [apply u64_range|done].
Qed.

Lemma challengeResponses_settle p challenge identity timestamp key :
  aid_anonymous identity = false -> provider_options_ok (ntp_options p) ->
  ntowfv2 (ntp_password p) (aid_username identity) (aid_domain identity) = Ok key ->
  exists p' lm clientChallenge,
    let r := computeNtlmV2ResponseFromKey key (ncm_serverChallenge challenge)
               clientChallenge timestamp (ncm_targetInfo challenge) in
    challengeResponses challenge identity timestamp p
    = (p', Ok (lm, nvr_ntChallengeResponse r)) /\
    ntp_sessionBaseKey p' = nvr_sessionBaseKey r /\ blen clientChallenge = 8 /\
    blen lm <= 24.
Proof using Type*.
  intros Ha Ho Hk. unfold challengeResponses, the_options, the_password.
  unfold mbind, providing_bind. rewrite Ha.
  destruct (clientChallenge_settle p Ho) as (p1 & c & -> & Hc & Ho1 & Hp1).
  unfold providing_pure, computeNtlmV2Response. rewrite Hk. cbn [mbind comp_bind reraise].
  unfold set_sessionBaseKey. eexists _, _, c. split; [done|]. split; [done|].
  split; [done|]. destruct (npo_omitLmResponse _); [done|].
  unfold computeNtlmV2ResponseFromKey. cbn [nvr_lmChallengeResponse].
  rewrite blen_app, Hc, (proj2 (hmacMd5_ok _ _)). lia.
Qed.

Lemma timestamp_chosen p (useServer : bool) (server : option Z) :
  provider_options_ok (ntp_options p) -> from_option is_u64 True server ->
  exists p' t,
    (match server with
     | Some t => if useServer then mret t else timestampFromOptions
     | None => timestampFromOptions
     end : providing Z) p = (p', Ok t) /\ is_u64 t /\
    ntp_options p' = ntp_options p /\ ntp_password p' = ntp_password p /\
    (useServer = true -> forall t', server = Some t' -> t = t').
Proof using Type*.
  intros Ho Hs. destruct (timestamp_settle p Ho) as (p' & t & Hf & Ht & Ho' & Hp').
  destruct server as [t'|]; [destruct useServer|].
  - exists p, t'. repeat split; try done; [apply Hs..|]. by intros _ ? [= ->].
  - by exists p', t.
  - by exists p', t.
Qed.

End exchange.

(** A provider with fixed challenge and time, and one round with a server
    whose challenge has a name and a timestamp. *)
#[local] Instance no_environment : NtlmEnvironment unit := {|
  clientChallengeGenerator e := (e, zeros 8);
  timestampProvider e := (e, 0);
  random_device e := (e, 0);
  system_clock e := (e, 0)
|}.

#[local] Instance no_environment_laws : NtlmEnvironmentLaws unit.
Proof. split; done. Qed.

Definition ntlm_options_sample : NtlmV2TokenProviderOptions :=
  mkNtlmV2TokenProviderOptions (ascii_bytes "PC") 0xA2088207 true false true
    (Some (zeros 8)) None false false.

Definition sample_pairs : list (Z * bytes) := [(2, [83; 0]); (7, [1; 2; 3; 4; 5; 6; 7; 8])].

Definition sample_challenge : bytes :=
  buildSpnegoNegTokenResp
    (challenge_message [83; 0] 0xA2898205 (zeros 8) (av_pairs sample_pairs) (zeros 8)).

Definition sample_key : bytes :=
  match ntowfv2 (ascii_bytes "Password") (ascii_bytes "User") (ascii_bytes "Domain") with
  | Ok key => key
  | _ => []
  end.

Definition ntlm_provider_sample : NtlmV2TokenProvider unit :=
  newNtlmV2TokenProvider (ascii_bytes "Password") ntlm_options_sample tt.

Definition ntlm_config_sample : ConnectionConfig :=
  mkConnectionConfig [0x61] [0x62] (ascii_bytes "Domain") (ascii_bytes "User")
    AuthMode_Password SecurityPolicy_Preferred SecurityPolicy_Preferred.

Definition wire_name (text : bytes) : bytes := concat ((fun b => [b; 0]) <$> text).

Lemma sample_challenges :
  challenges true sample_challenge (zeros 8) 0xA2898205 sample_pairs.
Proof.
  split; [| |exists [83; 0], (zeros 8), [83]; by vm_compute].
  - split; [|by vm_compute].
    repeat constructor; cbn; try done; unfold is_u8; lia.
  - by vm_compute.
Qed.

Lemma sample_logs_on :
  logs_on ntlm_config_sample (ascii_bytes "Password") (ascii_bytes "PC")
    (wire_name (ascii_bytes "Domain")) (wire_name (ascii_bytes "User")) sample_key.
Proof.
  split.
  - exists (mkAuthIdentity (ascii_bytes "Domain") (ascii_bytes "User") false). by vm_compute.
  - exists (wire_name (ascii_bytes "PC")). by vm_compute.
  - by vm_compute.
Qed.

