(* ===== verification/Sockets.v ===== *)
(** * Programs over the operating system's sockets

    [DirectTcpTransport.cpp] calls the resolver, the socket functions, the
    steady clock and the caller's cancellation token.  [sys] is the monad of
    such programs: a call names what is asked, and what is answered is left
    open.  [runs_to] is the relation between a program, what it does to the
    connection it holds and its result, for all answers the interface allows
    ([answered]); [swp] is the corresponding program logic and [run] executes a
    program on a concrete system.

    The calls are those of the branch that is not Windows, with the constants
    of Linux; what is behind them is not part of the program and has no
    definition here. *)

From S2P Require Export Exchange Signing.
Local Open Scope Z_scope.
Local Open Scope comp_scope.

(** ** Calls *)

Definition EINTR : Z := 4.
Definition EAGAIN : Z := 11.
Definition EWOULDBLOCK : Z := EAGAIN.
Definition EPROTONOSUPPORT : Z := 93.
Definition EAFNOSUPPORT : Z := 97.
Definition ENETUNREACH : Z := 101.
Definition ECONNRESET : Z := 104.
Definition ETIMEDOUT : Z := 110.
Definition ECONNREFUSED : Z := 111.
Definition EHOSTUNREACH : Z := 113.
Definition EINPROGRESS : Z := 115.
Definition SOCK_STREAM : Z := 1.
Definition IPPROTO_TCP : Z := 6.
Definition O_NONBLOCK : Z := 2048.
Definition FD_SETSIZE : Z := 1024.

(** The members of [addrinfo] the code uses; a linked list of them is a list. *)
Record addrinfo : Set := mkAddrinfo {
  ai_family : Z;
  ai_socktype : Z;
  ai_protocol : Z;
  ai_addr : bytes
}.

(** [syscall B] is a call answered by a [B].  The clock is in nanoseconds.  A
    set of descriptors is a list, [None] a null pointer, a [timeval] a pair;
    [Getsockopt] reads [SO_ERROR] and is answered by its result and the error
    it stored; [Recv] by its result and the bytes it stored. *)
Inductive syscall : Set -> Type :=
| AskCancelToken : syscall bool
| AskCancelCallback : syscall bool
| SteadyClock : syscall Z
| Errno : syscall Z
| Getaddrinfo (host : bytes) (port : string) (socktype protocol : Z) : syscall (Z * list addrinfo)
| Socket (family socktype protocol : Z) : syscall Z
| FcntlGetFlags (fd : Z) : syscall Z
| FcntlSetFlags (fd flags : Z) : syscall Z
| Connect (fd : Z) (addr : bytes) : syscall Z
| Select (fd nfds : Z) (readSet writeSet : option (list Z)) (timeout : Z * Z) : syscall Z
| Getsockopt (fd : Z) : syscall (Z * Z)
| Send (fd : Z) (data : bytes) : syscall Z
| Recv (fd size : Z) : syscall (Z * bytes)
| CloseSocket (fd : Z) : syscall Z.

(** ** Programs *)

(** [Cut] marks a loop whose fuel is spent. *)
Inductive sys (A : Type) : Type :=
| Return (a : A)
| Call (B : Set) (c : syscall B) (k : B -> sys A)
| Cut.
Arguments Return {_} a.
Arguments Call {_ B} c k.
Arguments Cut {_}.

Fixpoint sys_bind {A B} (p : sys A) (f : A -> sys B) : sys B :=
  match p with
  | Return a => f a
  | Call c k => Call c (fun b => sys_bind (k b) f)
  | Cut => Cut
  end.

(** A program that returns a [DecodeResult]. *)
Definition tcp (A : Type) : Type := sys (comp A).
#[export] Instance tcp_ret : MRet tcp := fun A a => Return (Ok a).
#[export] Instance tcp_bind : MBind tcp := fun A B f p =>
  sys_bind p (fun r =>
    match r with
    | Ok a => f a
    | Err e => Return (Err e)
    | Throw m => Return (Throw m)
    | OutOfBounds => Return OutOfBounds
    end).
Definition result {A} (r : comp A) : tcp A := Return r.
Definition call {B : Set} (c : syscall B) : tcp B := Call c (fun b => Return (Ok b)).

(** ** Answers *)

(** The connection a program holds: none, the open descriptor with the bytes
    that were accepted for sending and the bytes that were received on it, or
    a descriptor that was lost, used after it was closed or closed twice. *)
Inductive wire : Set :=
| Idle
| Connected (fd : Z) (sent received : bytes)
| Misused.

(** A call on [fd] that moves no data. *)
Definition used (fd : Z) (w : wire) : wire :=
  match w with
  | Connected fd' _ _ => if fd =? fd' then w else Misused
  | _ => Misused
  end.

(** What a call and its answer make of the connection. *)
Definition observe {B} (c : syscall B) : B -> wire -> wire :=
  match c in syscall B return B -> wire -> wire with
  | Socket _ _ _ => fun fd w =>
      if fd =? -1 then w else
      match w with Idle => Connected fd [] [] | _ => Misused end
  | FcntlGetFlags fd | FcntlSetFlags fd _ | Connect fd _
  | Select fd _ _ _ _ => fun _ => used fd
  | Getsockopt fd => fun _ => used fd
  | Send fd data => fun n w =>
      match w with
      | Connected fd' sent received =>
          if fd =? fd' then Connected fd (sent ++ slice 0 n data) received else Misused
      | _ => Misused
      end
  | Recv fd _ => fun a w =>
      match w with
      | Connected fd' sent received =>
          if fd =? fd' then Connected fd sent (received ++ slice 0 (fst a) (snd a))
          else Misused
      | _ => Misused
      end
  | CloseSocket fd => fun _ w =>
      match w with
      | Connected fd' _ _ => if fd =? fd' then Idle else Misused
      | _ => Misused
      end
  | _ => fun _ w => w
  end.

(** The time after a call, given the time before it. *)
Definition passed {B} (c : syscall B) : B -> Z -> Z :=
  match c in syscall B return B -> Z -> Z with
  | SteadyClock => fun now _ => now
  | _ => fun _ time => time
  end.

Section answers.
(** What is assumed of the answers: the clock moves on by at least [tick]
    between two readings, and descriptors satisfy [fds]. *)
Context (tick : Z) (fds : Z -> Prop).

(** The interface: a descriptor is -1 or a number, [send] accepts at most what
    it was given, [recv] stores as many bytes as it says and no more than was
    asked for. *)
Definition answered {B} (c : syscall B) : Z -> B -> Prop :=
  match c in syscall B return Z -> B -> Prop with
  | SteadyClock => fun time now => time + tick <= now
  | Socket _ _ _ => fun _ fd => fd = -1 \/ 0 <= fd /\ fds fd
  | Send _ data => fun _ n => n <= blen data
  | Recv _ size => fun _ a =>
      fst a <= size /\ (0 < fst a -> blen (snd a) = fst a /\ bytes_ok (snd a))
  | _ => fun _ _ => True
  end.

(** [runs_to p w time o w']: with answers the interface allows, [p] takes the
    connection from [w] to [w'] and ends with [o], [None] if its fuel is spent. *)
Inductive runs_to {A} : sys A -> wire -> Z -> option A -> wire -> Prop :=
| runs_to_return a w time : runs_to (Return a) w time (Some a) w
| runs_to_call B (c : syscall B) k b w time o w' :
    answered c time b ->
    runs_to (k b) (observe c b w) (passed c b time) o w' ->
    runs_to (Call c k) w time o w'
| runs_to_cut w time : runs_to Cut w time None w.

(** [swp p w time Q]: from [w] at [time], every run of [p] ends with a
    connection, a time and a result that satisfy [Q]; [stuck] says whether a
    spent loop is tolerated. *)
Fixpoint swp (stuck : Prop) {A} (p : sys A) (w : wire) (time : Z)
    (Q : wire -> Z -> A -> Prop) : Prop :=
  match p with
  | Return a => Q w time a
  | Call c k => forall b, answered c time b ->
      swp stuck (k b) (observe c b w) (passed c b time) Q
  | Cut => stuck
  end.

Lemma swp_runs stuck {A} (p : sys A) w time Q o w' :
  swp stuck p w time Q -> runs_to p w time o w' ->
  match o with Some a => exists time', Q w' time' a | None => stuck end.
Proof.
  intros Hp Hr. induction Hr as [a w time|B c k b w time o w' Hb Hr IH|w time].
  - by exists time.
  - exact (IH (Hp b Hb)).
  - exact Hp.
Qed.

Lemma swp_mono stuck {A} (p : sys A) w time (Q Q' : wire -> Z -> A -> Prop) :
  swp stuck p w time Q -> (forall w time a, Q w time a -> Q' w time a) ->
  swp stuck p w time Q'.
Proof.
  intros Hp HQ. revert w time Hp. induction p; cbn; eauto.
Qed.

Lemma swp_bind stuck {A B} (p : sys A) (f : A -> sys B) w time Q :
  swp stuck p w time (fun w time a => swp stuck (f a) w time Q) ->
  swp stuck (sys_bind p f) w time Q.
Proof. revert w time. induction p; cbn; eauto. Qed.

(** What a bind makes of the result of its first part. *)
Definition then_swp (stuck : Prop) {A B} (f : A -> tcp B) (Q : wire -> Z -> comp B -> Prop)
    (w : wire) (time : Z) (r : comp A) : Prop :=
  match r with
  | Ok a => swp stuck (f a) w time Q
  | Err e => Q w time (Err e)
  | Throw m => Q w time (Throw m)
  | OutOfBounds => Q w time OutOfBounds
  end.

Lemma swp_tcp_bind stuck {A B} (p : tcp A) (f : A -> tcp B) w time Q :
  swp stuck p w time (then_swp stuck f Q) -> swp stuck (p ≫= f) w time Q.
Proof.
  intros H. apply swp_bind. eapply swp_mono; [exact H|].
  by intros w' time' [a|e|m|] HQ.
Qed.
End answers.

(** ** Systems *)

(** A deterministic operating system on a world of type [W]. *)
Class System (W : Type) : Type := {
  answer : forall B : Set, syscall B -> W -> B * W;
  clock : W -> Z
}.

Fixpoint run {W} `{System W} {A} (p : sys A) (s : W) : option (A * W) :=
  match p with
  | Return a => Some (a, s)
  | Call c k => let '(b, s) := answer _ c s in run (k b) s
  | Cut => None
  end.

(** The documented behaviour the transport relies on, as far as a world that
    satisfies [system_ok] goes. *)
Class SystemLaws (W : Type) `{System W} (tick : Z) (fds : Z -> Prop) : Type := {
  system_ok : W -> Prop;
  answer_ok (B : Set) (c : syscall B) s :
    system_ok s ->
    let '(b, s') := answer B c s in
    system_ok s' /\ answered tick fds c (clock s) b /\ clock s' = passed c b (clock s)
}.

Section systems.
Context {W : Type} `{SystemLaws W tick fds}.

(** An execution is one of the runs. *)
Lemma run_runs_to {A} (p : sys A) w s :
  system_ok s ->
  exists w', runs_to tick fds p w (clock s) (fst <$> run p s) w'.
Proof.
  intros Hs. revert w s Hs. induction p as [a|B c k IH|]; intros w s Hs; cbn.
  - exists w. constructor.
  - pose proof (answer_ok B c s Hs) as Ha. destruct (answer B c s) as [b s'].
    destruct Ha as (Hs' & Hb & Ht).
    destruct (IH b (observe c b w) s' Hs') as [w' Hr]. exists w'.
    rewrite Ht in Hr. by econstructor.
  - exists w. constructor.
Qed.

Lemma run_ok {A} (p : sys A) s a s' :
  system_ok s -> run p s = Some (a, s') -> system_ok s'.
Proof.
  revert s. induction p as [a'|B c k IH|]; intros s Hs; cbn.
  - by intros [= -> ->].
  - pose proof (answer_ok B c s Hs) as Ha. destruct (answer B c s) as [b s1].
    destruct Ha as (Hs1 & _). by apply IH.
  - done.
Qed.

Lemma swp_run stuck {A} (p : sys A) w s Q :
  system_ok s -> swp tick fds stuck p w (clock s) Q ->
  match run p s with
  | Some (a, s') => system_ok s' /\ exists w' time', Q w' time' a
  | None => stuck
  end.
Proof.
  intros Hs Hp. destruct (run_runs_to p w s Hs) as [w' Hr].
  pose proof (swp_runs _ _ _ _ _ _ _ _ _ Hp Hr) as HQ.
  destruct (run p s) as [[a s']|] eqn:Hrun; cbn in HQ; [|done].
  split; [by eapply run_ok|by exists w'].
Qed.
End systems.
