(* ===== verification/TcpTransport.v ===== *)
(** * Direct TCP sockets ([DirectTcpTransport.h], [DirectTcpTransport.cpp])

    The transport the engine runs on: it connects when it has no connection,
    sends a request frame, reads the 4-byte header and then the payload it
    announces, and closes the connection on every failure.  The socket is not
    blocking; [waitForSocket] waits for it in slices of at most 100 ms, between
    which it looks at the cancellation token and the deadline.

    The loops take fuel.  Every turn reads the steady clock, so a fuel larger
    than the timeout in nanoseconds is enough ([tcp_exchange_terminates]). *)

From S2P Require Export Sockets.
Local Open Scope Z_scope.
Local Open Scope comp_scope.

Record DirectTcpEndpoint : Set := mkDirectTcpEndpoint {
  ep_host : bytes;
  ep_port : Z
}.

(** [m_socket] is -1 when there is no connection. *)
Record DirectTcpTransport : Set := mkDirectTcpTransport {
  m_endpoint : DirectTcpEndpoint;
  m_socket : Z
}.

Definition kInvalidSocket : Z := -1.

Definition isWouldBlock (error : Z) : bool :=
  (error =? EWOULDBLOCK) || (error =? EAGAIN) || (error =? EINPROGRESS).

Definition closeSocket (socket : Z) : tcp unit :=
  _ ← call (CloseSocket socket);
  mret tt.

Definition setNonBlocking (socket : Z) : tcp Z :=
  flags ← call (FcntlGetFlags socket);
  if flags <? 0 then mret (-1) else
  call (FcntlSetFlags socket (Z.lor flags O_NONBLOCK)).

(** [isCancellationRequested(context)] *)
Definition socketCancelled (context : OperationContext) : tcp bool :=
  token ← (if oc_cancellationToken context then call AskCancelToken else mret false);
  if token : bool then mret true
  else if oc_cancellationCallback context then call AskCancelCallback else mret false.

(** A timeout in nanoseconds; one that is not positive stands for 30 s. *)
Definition timeoutOf (context : OperationContext) : Z :=
  (if oc_timeout context <=? 0 then 30000 else oc_timeout context) * 1000000.

Definition deadlineFor (context : OperationContext) : tcp Z :=
  now ← call SteadyClock;
  mret (now + timeoutOf context).

Definition cancelledResult {A} : comp A :=
  failure ErrorCode_Cancelled "SMB Direct TCP operation was cancelled.".
Definition timeoutResult {A} : comp A :=
  failure ErrorCode_Timeout "SMB Direct TCP operation timed out.".

(** [stream << v] of an [int]. *)
Definition std_int (v : Z) : string :=
  if v <? 0 then "-" +:+ std_dec (- v) else std_dec v.

Definition socketErrorMessage (operation : string) (error : Z) : string :=
  operation +:+ " failed with socket error " +:+ std_int error +:+ ".".

Definition mapSocketError (error : Z) : ErrorCode :=
  if error =? ETIMEDOUT then ErrorCode_Timeout
  else if (error =? ECONNREFUSED) || (error =? ECONNRESET)
          || (error =? EHOSTUNREACH) || (error =? ENETUNREACH)
  then ErrorCode_ServerUnavailable
  else if (error =? EAFNOSUPPORT) || (error =? EPROTONOSUPPORT)
  then ErrorCode_ProtocolUnsupported
  else ErrorCode_NetworkError.

Definition socketFailure {A} (operation : string) (error : Z) : comp A :=
  failure (mapSocketError error) (socketErrorMessage operation error).

Definition socketError (operation : string) (error : Z) : ProtocolError :=
  mkProtocolError (mapSocketError error) (socketErrorMessage operation error) 0.

Definition requestContext (requestFrame : bytes) : string :=
  match frameHeader requestFrame with
  | Some h =>
      " while waiting for " +:+ commandName (hdr_command h)
      +:+ " response message_id=0x" +:+ hex_field 16 (hdr_messageId h)
  | None => ""
  end.

(** The failure both functions return for an error of code and text [e]. *)
Definition withRequestContext {A} (e : ProtocolError) (requestFrame : bytes) : comp A :=
  failure (err_code e)
    (match requestContext requestFrame with
     | EmptyString => err_message e
     | context => err_message e +:+ context +:+ "."
     end).

(** [FD_SET]: a descriptor that does not fit the set is a write outside it. *)
Definition FD_SET (socket : Z) : comp (list Z) :=
  if (0 <=? socket) && (socket <? FD_SETSIZE) then Ok [socket] else OutOfBounds.

Fixpoint waitForSocket (fuel : nat) (socket : Z) (writable : bool)
    (context : OperationContext) (deadline : Z) : tcp bool :=
  match fuel with
  | O => Cut
  | S fuel =>
      cancelled ← socketCancelled context;
      if cancelled : bool then result cancelledResult else
      now ← call SteadyClock;
      if deadline <=? now then result timeoutResult else
      let remaining := Z.quot (deadline - now) 1000000 in
      let waitSlice := Z.min remaining 100 in
      set ← result (FD_SET socket);
      selected ← call (Select socket (socket + 1)
        (if writable then None else Some set) (if writable then Some set else None)
        (Z.quot waitSlice 1000, Z.rem waitSlice 1000 * 1000));
      if 0 <? selected then mret true
      else if selected <? 0 then
        error ← call Errno;
        if error =? EINTR then waitForSocket fuel socket writable context deadline
        else result (socketFailure "select" error)
      else waitForSocket fuel socket writable context deadline
  end.
(** The loop over the addresses; [lastError] is what the last of them said. *)
Fixpoint connectEntries (fuel : nat) (context : OperationContext) (deadline : Z)
    (lastError : ProtocolError) (entries : list addrinfo) : tcp Z :=
  match entries with
  | [] => result (failure (err_code lastError) (err_message lastError))
  | entry :: entries =>
      let next e := connectEntries fuel context deadline e entries in
      cancelled ← socketCancelled context;
      if cancelled : bool then
        result (failure ErrorCode_Cancelled "SMB Direct TCP connect was cancelled.")
      else
      socketHandle ← call (Socket (ai_family entry) (ai_socktype entry) (ai_protocol entry));
      if socketHandle =? kInvalidSocket then
        error ← call Errno;
        next (socketError "socket" error)
      else
      mode ← setNonBlocking socketHandle;
      if negb (mode =? 0) then
        error ← call Errno;
        _ ← closeSocket socketHandle;
        next (socketError "set non-blocking" error)
      else
      connectResult ← call (Connect socketHandle (ai_addr entry));
      if connectResult =? 0 then mret socketHandle else
      connectError ← call Errno;
      if negb (isWouldBlock connectError) then
        _ ← closeSocket socketHandle;
        next (socketError "connect" connectError)
      else
      sys_bind (waitForSocket fuel socketHandle true context deadline) (fun ready =>
      match ready with
      | Ok _ =>
          '(status, socketError') ← call (Getsockopt socketHandle);
          if negb (status =? 0) || negb (socketError' =? 0) then
            error ← (if negb (socketError' =? 0) then mret socketError' else call Errno);
            _ ← closeSocket socketHandle;
            next (socketError "connect" error)
          else mret socketHandle
      | Err e =>
          _ ← closeSocket socketHandle;
          result (failure (err_code e) (err_message e))
      | Throw m => result (Throw m)
      | OutOfBounds => result OutOfBounds
      end)
  end.

Definition connectSocket (fuel : nat) (endpoint : DirectTcpEndpoint)
    (context : OperationContext) : tcp Z :=
  let port := std_dec (ep_port endpoint) in
  '(resolveStatus, results) ←
    call (Getaddrinfo (ep_host endpoint) port SOCK_STREAM IPPROTO_TCP);
  if negb (resolveStatus =? 0) || (match results with [] => true | _ => false end) then
    result (failure ErrorCode_DnsError "SMB Direct TCP host resolution failed.")
  else
  deadline ← deadlineFor context;
  connectEntries fuel context deadline
    (mkProtocolError ErrorCode_ServerUnavailable "SMB Direct TCP connect failed." 0)
    results.

(** ** The transport *)

(** A method: the object's state is passed along; [C++] leaves with a result,
    an exception, or undefined behaviour. *)
Definition method (A : Type) : Type :=
  DirectTcpTransport -> sys (DirectTcpTransport * comp A).

(** The continuation after a call: [k] on success, [handler] on an error. *)
Definition on_result {A B} (t : DirectTcpTransport) (r : comp A)
    (handler : ProtocolError -> sys (DirectTcpTransport * comp B))
    (k : A -> sys (DirectTcpTransport * comp B)) : sys (DirectTcpTransport * comp B) :=
  match r with
  | Ok a => k a
  | Err e => handler e
  | Throw m => Return (t, Throw m)
  | OutOfBounds => Return (t, OutOfBounds)
  end.

Definition DirectTcpTransport_close (t : DirectTcpTransport) : sys DirectTcpTransport :=
  if m_socket t =? kInvalidSocket then Return t else
  sys_bind (closeSocket (m_socket t)) (fun _ =>
  Return (mkDirectTcpTransport (m_endpoint t) kInvalidSocket)).

Definition connectIfNeeded (fuel : nat) (context : OperationContext) : method bool := fun t =>
  if negb (m_socket t =? kInvalidSocket) then Return (t, Ok true) else
  sys_bind (connectSocket fuel (m_endpoint t) context) (fun socketResult =>
  on_result t socketResult
    (fun e => Return (t, failure (err_code e) (err_message e)))
    (fun socket => Return (mkDirectTcpTransport (m_endpoint t) socket, Ok true))).

Definition int_max : Z := 2 ^ 31 - 1.

Fixpoint sendAll_loop (fuel turns : nat) (socket : Z) (data : bytes)
    (context : OperationContext) (deadline offset : Z) : tcp bool :=
  match turns with
  | O => Cut
  | S turns =>
      if blen data <=? offset then mret true else
      cancelled ← socketCancelled context;
      if cancelled : bool then result cancelledResult else
      _ ← waitForSocket fuel socket true context deadline;
      let remaining := blen data - offset in
      let chunk := Z.min remaining int_max in
      sent ← call (Send socket (slice offset (offset + chunk) data));
      if 0 <? sent then
        sendAll_loop fuel turns socket data context deadline (offset + sent)
      else if sent =? 0 then
        result (failure ErrorCode_NetworkError "SMB Direct TCP socket closed during send.")
      else
      error ← call Errno;
      if isWouldBlock error then
        sendAll_loop fuel turns socket data context deadline offset
      else result (socketFailure "send" error)
  end.

Definition sendAll (fuel : nat) (socket : Z) (data : bytes)
    (context : OperationContext) : tcp bool :=
  deadline ← deadlineFor context;
  sendAll_loop fuel fuel socket data context deadline 0.

(** [data] stored in [buffer] from [offset] on. *)
Definition store (buffer : bytes) (offset : Z) (data : bytes) : bytes :=
  slice 0 offset buffer ++ data ++ slice (offset + blen data) (blen buffer) buffer.

Fixpoint receiveExact_loop (fuel turns : nat) (socket size : Z)
    (context : OperationContext) (deadline : Z) (buffer : bytes) (offset : Z) : tcp bytes :=
  match turns with
  | O => Cut
  | S turns =>
      if size <=? offset then mret buffer else
      cancelled ← socketCancelled context;
      if cancelled : bool then result cancelledResult else
      sys_bind (waitForSocket fuel socket false context deadline) (fun ready =>
      _ ← result (reraise ready);
      let remaining := size - offset in
      let chunk := Z.min remaining int_max in
      '(received, data) ← call (Recv socket chunk);
      if 0 <? received then
        receiveExact_loop fuel turns socket size context deadline
          (store buffer offset data) (offset + received)
      else if received =? 0 then
        result (failure ErrorCode_NetworkError
          "SMB Direct TCP socket closed during receive.")
      else
      error ← call Errno;
      if isWouldBlock error then
        receiveExact_loop fuel turns socket size context deadline buffer offset
      else result (socketFailure "receive" error))
  end.

Definition receiveExact (fuel : nat) (socket size : Z) (context : OperationContext)
    : tcp bytes :=
  deadline ← deadlineFor context;
  receiveExact_loop fuel fuel socket size context deadline (zeros (Z.to_nat size)) 0.

Definition DirectTcpTransport_exchange (fuel : nat) (requestFrame : bytes)
    (context : OperationContext) : method bytes := fun t =>
  let closing {A} (t : DirectTcpTransport) (r : comp A) :=
    sys_bind (DirectTcpTransport_close t) (fun t => Return (t, r)) in
  sys_bind (connectIfNeeded fuel context t) (fun '(t, connected) =>
  on_result t connected
    (fun e => Return (t, failure (err_code e) (err_message e))) (fun _ =>
  sys_bind (sendAll fuel (m_socket t) requestFrame context) (fun sent =>
  on_result t sent
    (fun e => closing t (withRequestContext e requestFrame)) (fun _ =>
  sys_bind (receiveExact fuel (m_socket t) kDirectTcpHeaderSize context) (fun header =>
  on_result t header
    (fun e => closing t (withRequestContext e requestFrame)) (fun header =>
  on_result t (decodeDirectTcpPayloadLength header)
    (fun e => closing t (failure (err_code e) (err_message e))) (fun payloadLength =>
  sys_bind (receiveExact fuel (m_socket t) payloadLength context) (fun payload =>
  on_result t payload
    (fun e => closing t (withRequestContext e requestFrame)) (fun payload =>
  Return (t, Ok (header ++ payload))))))))))).

(** A client's exchanges, in order; after undefined behaviour there is no next
    one. *)
Fixpoint exchanges (fuel : nat) (requests : list (bytes * OperationContext))
    (t : DirectTcpTransport) : sys (DirectTcpTransport * list (comp bytes)) :=
  match requests with
  | [] => Return (t, [])
  | (frame, context) :: requests =>
      sys_bind (DirectTcpTransport_exchange fuel frame context t) (fun '(t, r) =>
      match r with
      | OutOfBounds => Return (t, [r])
      | _ =>
          sys_bind (exchanges fuel requests t) (fun '(t, results) =>
          Return (t, r :: results))
      end)
  end.
(** ** Lemmas: the primitives *)

Lemma timeoutOf_pos context : 0 < timeoutOf context.
Proof. unfold timeoutOf. destruct (Z.leb_spec (oc_timeout context) 0); lia. Qed.

Lemma used_connected fd sent received :
  used fd (Connected fd sent received) = Connected fd sent received.
Proof. unfold used. by rewrite Z.eqb_refl. Qed.

Section runs.
Context (tick : Z) (fds : Z -> Prop) (stuck : Prop) (Htick : 0 <= tick).
#[local] Abbreviation proves := (swp tick fds stuck).

(** The fuel [n] lasts from [time] until [deadline]. *)
Definition budget (n : nat) (deadline time : Z) : Prop :=
  stuck \/ 1 <= tick /\ Z.max 0 (deadline - time) < Z.of_nat n.

Lemma budget_later n deadline time time' :
  budget n deadline time -> time <= time' -> budget n deadline time'.
Proof. unfold budget. intros [?|[? ?]] ?; [by left|right; lia]. Qed.

Lemma budget_spent deadline time : budget 0 deadline time -> stuck.
Proof. unfold budget. intros [?|[? ?]]; [done|lia]. Qed.

Lemma budget_turn n deadline time time' :
  budget (S n) deadline time -> time + tick <= time' -> time' < deadline ->
  budget n deadline time'.
Proof. unfold budget. intros [?|[? ?]] ? ?; [by left|right; lia]. Qed.

Lemma swp_errno {A} (k : Z -> tcp A) w time Q :
  (forall error, proves (k error) w time Q) -> proves (call Errno ≫= k) w time Q.
Proof. intros HQ. cbn. auto. Qed.

Lemma swp_cancelled context w time (Q : wire -> Z -> comp bool -> Prop) :
  (forall b, Q w time (Ok b)) -> proves (socketCancelled context) w time Q.
Proof.
  intros HQ. unfold socketCancelled. apply swp_tcp_bind.
  destruct (oc_cancellationToken context).
  - cbn. intros b _. destruct b; [apply HQ|].
    destruct (oc_cancellationCallback context); cbn; auto.
  - cbn. destruct (oc_cancellationCallback context); cbn; auto.
Qed.

Lemma swp_closeSocket fd sent received time (Q : wire -> Z -> comp unit -> Prop) :
  Q Idle time (Ok tt) -> proves (closeSocket fd) (Connected fd sent received) time Q.
Proof. intros HQ. cbn. intros _ _. by rewrite Z.eqb_refl. Qed.

Lemma swp_deadlineFor context w time (Q : wire -> Z -> comp Z -> Prop) :
  (forall now, time <= now -> Q w now (Ok (now + timeoutOf context))) ->
  proves (deadlineFor context) w time Q.
Proof. intros HQ. cbn. intros now Hnow. apply HQ. lia. Qed.

(** How waiting can end: with a time before the deadline, an error, or outside
    the descriptor set. *)
Definition waited (fd deadline time : Z) (time' : Z) (r : comp bool) : Prop :=
  time <= time' /\
  match r with
  | Ok _ => time + tick <= time' < deadline
  | Err _ => True
  | Throw _ => False
  | OutOfBounds => ~ 0 <= fd < FD_SETSIZE
  end.

Lemma swp_waitForSocket n fd writable context deadline sent received time
    (Q : wire -> Z -> comp bool -> Prop) :
  budget n deadline time ->
  (forall time' r, waited fd deadline time time' r ->
    Q (Connected fd sent received) time' r) ->
  proves (waitForSocket n fd writable context deadline)
    (Connected fd sent received) time Q.
Proof.
  revert time. induction n as [|n IH]; intros time Hn HQ; cbn [waitForSocket].
  { exact (budget_spent _ _ Hn). }
  apply swp_tcp_bind, swp_cancelled. intros cancelled. cbn [then_swp].
  destruct cancelled; [apply HQ; split; [lia|exact I]|].
  cbn [mbind tcp_bind call sys_bind swp observe passed answered].
  intros now Hnow. destruct (Z.leb_spec deadline now) as [Hd|Hd].
  { apply HQ. split; [lia|exact I]. }
  unfold FD_SET. destruct (Z.leb_spec 0 fd), (Z.ltb_spec fd FD_SETSIZE);
    cbn [andb result sys_bind swp observe passed]; try (apply HQ; split; [lia|cbn; lia]).
  intros selected _. cbn [observe passed]. rewrite used_connected. destruct (0 <? selected).
  { apply HQ. split; [lia|cbn; lia]. }
  assert (proves (waitForSocket n fd writable context deadline)
    (Connected fd sent received) now Q) as Hnext.
  { apply IH; [by eapply budget_turn|]. intros time' r [Ht Hr]. apply HQ.
    split; [lia|]. destruct r; [cbn in *; lia|done..]. }
  destruct (selected <? 0); [|exact Hnext].
  cbn [swp observe passed]. intros error _. destruct (error =? EINTR); [exact Hnext|].
  apply HQ. split; [lia|exact I].
Qed.

(** ** Sending and receiving *)

(** How sending [data] can end. *)
Definition sentAll (fd : Z) (data sent received : bytes) (w : wire) (r : comp bool) : Prop :=
  match r with
  | Ok _ => w = Connected fd (sent ++ data) received
  | Err _ => exists sent', w = Connected fd sent' received
  | Throw _ => False
  | OutOfBounds => (exists sent', w = Connected fd sent' received) /\ ~ 0 <= fd < FD_SETSIZE
  end.

Lemma slice_next {A} offset n m (data : list A) :
  0 <= offset -> 0 <= n <= m -> offset + m <= blen data ->
  slice 0 offset data ++ slice 0 n (slice offset (offset + m) data)
  = slice 0 (offset + n) data.
Proof.
  intros Ho Hn Hm. unfold slice, blen in *.
  rewrite !drop_0, !Z.sub_0_r, take_take, Z.add_simpl_l.
  replace (Z.to_nat n `min` Z.to_nat m)%nat with (Z.to_nat n) by lia.
  rewrite Z2Nat.inj_add by lia. apply take_take_drop.
Qed.

Lemma swp_sendAll_loop n k fd data context deadline offset sent received time
    (Q : wire -> Z -> comp bool -> Prop) :
  0 <= offset <= blen data ->
  budget n deadline time -> budget k deadline time ->
  (forall w time' r, time <= time' -> sentAll fd data sent received w r -> Q w time' r) ->
  proves (sendAll_loop n k fd data context deadline offset)
    (Connected fd (sent ++ slice 0 offset data) received) time Q.
Proof.
  revert offset time. induction k as [|k IH]; intros offset time Ho Hn Hk HQ;
    cbn [sendAll_loop]; [exact (budget_spent _ _ Hk)|].
  destruct (Z.leb_spec (blen data) offset) as [Hd|Hd].
  { apply HQ; [lia|]. cbn. replace offset with (blen data) by lia. by rewrite slice_all. }
  apply swp_tcp_bind, swp_cancelled. intros cancelled. cbn [then_swp].
  destruct cancelled; [apply HQ; [lia|by eexists]|].
  apply swp_tcp_bind, swp_waitForSocket; [done|].
  intros time' r [Ht Hr]. destruct r as [b|e|m|]; cbn [then_swp];
    [|apply HQ; [lia|by eexists]|done|apply HQ; [lia|split; [by eexists|done]]].
  assert (budget n deadline time') as Hn' by (by eapply budget_later).
  assert (budget k deadline time') as Hk' by (eapply budget_turn; [done|lia..]).
  cbn [mbind tcp_bind call sys_bind swp observe passed answered].
  set (m := Z.min (blen data - offset) int_max). 
  assert (0 < m <= blen data - offset) as Hm by (unfold m, int_max; lia).
  intros n' Hn''. rewrite blen_slice in Hn'' by lia. rewrite Z.eqb_refl.
  destruct (Z.ltb_spec 0 n') as [Hpos|Hpos].
  { rewrite <- app_assoc, slice_next by lia.
    apply IH; [lia|done..|]. intros w1 t1 r1 ? ?. apply HQ; [lia|done]. }
  replace (slice 0 n' _) with (@nil Z)
    by (unfold slice at 1; by replace (Z.to_nat (n' - 0)) with 0%nat by lia).
  rewrite app_nil_r. destruct (n' =? 0); [apply HQ; [lia|by eexists]|].
  cbn [swp observe passed]. intros error _. destruct (isWouldBlock error).
  - apply IH; [done..|]. intros w1 t1 r1 ? ?. apply HQ; [lia|done].
  - apply HQ; [lia|by eexists].
Qed.

Lemma swp_sendAll n fd data context sent received time (Q : wire -> Z -> comp bool -> Prop) :
  stuck \/ 1 <= tick /\ timeoutOf context < Z.of_nat n ->
  (forall w time' r, time <= time' -> sentAll fd data sent received w r -> Q w time' r) ->
  proves (sendAll n fd data context) (Connected fd sent received) time Q.
Proof.
  intros Hn HQ. apply swp_tcp_bind, swp_deadlineFor. intros now Hnow. cbn [then_swp].
  pose proof (timeoutOf_pos context).
  rewrite <- (app_nil_r sent). change (@nil Z) with (slice 0 0 data).
  assert (budget n (now + timeoutOf context) now).
  { destruct Hn as [?|[? ?]]; [by left|right; lia]. }
  apply swp_sendAll_loop; [pose proof (blen_nonneg data); lia|done|done|].
  intros w time' r ? ?. apply HQ; [lia|done].
Qed.

(** How receiving [size] bytes can end. *)
Definition receivedAll (fd size : Z) (sent received : bytes) (w : wire) (r : comp bytes)
    : Prop :=
  match r with
  | Ok data =>
      w = Connected fd sent (received ++ data) /\ blen data = size /\ bytes_ok data
  | Err _ => exists received', w = Connected fd sent received'
  | Throw _ => False
  | OutOfBounds =>
      (exists received', w = Connected fd sent received') /\ ~ 0 <= fd < FD_SETSIZE
  end.

Lemma store_prefix buffer offset data :
  0 <= offset -> offset + blen data <= blen buffer ->
  blen (store buffer offset data) = blen buffer /\
  slice 0 (offset + blen data) (store buffer offset data) = slice 0 offset buffer ++ data.
Proof.
  intros Ho Hd. unfold store. pose proof (blen_nonneg data). split.
  - len. rewrite !blen_slice by lia. lia.
  - rewrite app_assoc. rewrite <- (app_nil_l ((slice 0 offset buffer ++ data) ++ _)).
    apply slice_app_exact; [done|]. len. rewrite blen_slice by lia. lia.
Qed.

Lemma store_ok buffer offset data :
  bytes_ok buffer -> bytes_ok data -> bytes_ok (store buffer offset data).
Proof. intros ? ?. unfold store, bytes_ok. rewrite !Forall_app. auto with smb. Qed.

Lemma swp_receiveExact_loop n k fd size context deadline buffer offset sent received time
    (Q : wire -> Z -> comp bytes -> Prop) :
  0 <= offset <= size -> blen buffer = size -> bytes_ok buffer ->
  budget n deadline time -> budget k deadline time ->
  (forall w time' r, time <= time' -> receivedAll fd size sent received w r ->
    Q w time' r) ->
  proves (receiveExact_loop n k fd size context deadline buffer offset)
    (Connected fd sent (received ++ slice 0 offset buffer)) time Q.
Proof.
  revert buffer offset time.
  induction k as [|k IH]; intros buffer offset time Ho Hs Hok Hn Hk HQ;
    cbn [receiveExact_loop]; [exact (budget_spent _ _ Hk)|].
  destruct (Z.leb_spec size offset) as [Hd|Hd].
  { apply HQ; [lia|]. cbn. replace offset with (blen buffer) by lia.
    by rewrite slice_all. }
  apply swp_tcp_bind, swp_cancelled. intros cancelled. cbn [then_swp].
  destruct cancelled; [apply HQ; [lia|by eexists]|].
  apply swp_bind, swp_waitForSocket; [done|].
  intros time' r [Ht Hr]. destruct r as [b|e|m|];
    cbn [reraise failure result mbind tcp_bind sys_bind swp];
    [|apply HQ; [lia|by eexists]|done|apply HQ; [lia|split; [by eexists|done]]].
  assert (budget n deadline time') as Hn' by (by eapply budget_later).
  assert (budget k deadline time') as Hk' by (eapply budget_turn; [done|lia..]).
  cbn [call sys_bind swp observe passed answered].
  set (m := Z.min (size - offset) int_max).
  assert (0 < m <= size - offset) as Hm by (unfold m, int_max; lia).
  intros [n' data] [Hle Hdata]. cbn [fst snd observe passed sys_bind] in *. rewrite Z.eqb_refl.
  destruct (Z.ltb_spec 0 n') as [Hpos|Hpos].
  { destruct (Hdata Hpos) as [Hlen Hdok].
    destruct (store_prefix buffer offset data) as [Hsl Hsp]; [lia..|].
    replace (slice 0 n' data) with data by (by rewrite <- Hlen, slice_all).
    rewrite <- app_assoc, <- Hsp, Hlen.
    apply IH; [lia|lia|by apply store_ok|done..|]. intros w1 t1 r1 ? ?.
    apply HQ; [lia|done]. }
  replace (slice 0 n' data) with (@nil Z)
    by (unfold slice; by replace (Z.to_nat (n' - 0)) with 0%nat by lia).
  rewrite app_nil_r. destruct (n' =? 0); [apply HQ; [lia|by eexists]|].
  apply swp_errno. intros error. destruct (isWouldBlock error).
  - apply IH; [done..|]. intros w1 t1 r1 ? ?. apply HQ; [lia|done].
  - apply HQ; [lia|by eexists].
Qed.

Lemma swp_receiveExact n fd size context sent received time
    (Q : wire -> Z -> comp bytes -> Prop) :
  0 <= size -> stuck \/ 1 <= tick /\ timeoutOf context < Z.of_nat n ->
  (forall w time' r, time <= time' -> receivedAll fd size sent received w r ->
    Q w time' r) ->
  proves (receiveExact n fd size context) (Connected fd sent received) time Q.
Proof.
  intros Hs Hn HQ. apply swp_tcp_bind, swp_deadlineFor. intros now Hnow. cbn [then_swp].
  pose proof (timeoutOf_pos context).
  rewrite <- (app_nil_r received).
  change (@nil Z) with (slice 0 0 (zeros (Z.to_nat size))).
  assert (budget n (now + timeoutOf context) now).
  { destruct Hn as [?|[? ?]]; [by left|right; lia]. }
  apply swp_receiveExact_loop; [lia| | |done|done|].
  - unfold blen, zeros. rewrite length_replicate. lia.
  - apply Forall_replicate. ulia.
  - intros w time' r ? ?. apply HQ; [lia|done].
Qed.

(** ** Connecting *)

(** A program outside the descriptor set: on this descriptor the behaviour of
    the process is undefined. *)
Definition undefined (w : wire) : Prop :=
  exists fd sent received,
    w = Connected fd sent received /\ fds fd /\ FD_SETSIZE <= fd.

(** How connecting can end. *)
Definition dialled (w : wire) (r : comp Z) : Prop :=
  match r with
  | Ok fd => w = Connected fd [] [] /\ 0 <= fd /\ fds fd
  | Err _ => w = Idle
  | Throw _ => False
  | OutOfBounds => undefined w
  end.

(** A call on the descriptor that is open. *)
Lemma swp_used {A} (B : Set) (c : syscall B) (k : B -> tcp A) fd sent received time Q :
  (forall b, observe c b (Connected fd sent received) = Connected fd sent received /\
             passed c b time = time) ->
  (forall b, proves (k b) (Connected fd sent received) time Q) ->
  proves (call c ≫= k) (Connected fd sent received) time Q.
Proof.
  intros Hc HQ. cbn [mbind tcp_bind call sys_bind swp]. intros b _.
  destruct (Hc b) as [-> ->]. apply HQ.
Qed.

Lemma swp_close_bind {A} fd (k : unit -> tcp A) sent received time Q :
  proves (k tt) Idle time Q ->
  proves (closeSocket fd ≫= k) (Connected fd sent received) time Q.
Proof. intros HQ. apply swp_tcp_bind, swp_closeSocket. exact HQ. Qed.

Lemma swp_setNonBlocking fd sent received time (Q : wire -> Z -> comp Z -> Prop) :
  (forall mode, Q (Connected fd sent received) time (Ok mode)) ->
  proves (setNonBlocking fd) (Connected fd sent received) time Q.
Proof.
  intros HQ. unfold setNonBlocking. apply swp_used; [intros b; split; [apply used_connected|done]|].
  intros flags. destruct (flags <? 0); cbn; [apply HQ|]. intros b _.
  rewrite Z.eqb_refl. apply HQ.
Qed.

Lemma swp_connectEntries n context deadline lastError entries time
    (Q : wire -> Z -> comp Z -> Prop) :
  budget n deadline time ->
  (forall w time' r, time <= time' -> dialled w r -> Q w time' r) ->
  proves (connectEntries n context deadline lastError entries) Idle time Q.
Proof.
  revert lastError time. induction entries as [|entry entries IH];
    intros lastError time Hn HQ; cbn [connectEntries]; [by apply HQ|].
  assert (forall e time', time <= time' ->
    proves (connectEntries n context deadline e entries) Idle time' Q) as Hnext.
  { intros e time' Ht. apply IH; [by eapply budget_later|]. intros w t' r ? ?.
    apply HQ; [lia|done]. }
  apply swp_tcp_bind, swp_cancelled. intros cancelled. cbn [then_swp].
  destruct cancelled; [by apply HQ|].
  cbn [mbind tcp_bind call sys_bind swp observe passed answered]. intros fd Hfd.
  unfold kInvalidSocket. destruct (Z.eqb_spec fd (-1)) as [->|Hfd'].
  { apply swp_errno. intros error. by apply Hnext. }
  destruct Hfd as [?|[Hpos Hfds]]; [done|].
  apply swp_tcp_bind, swp_setNonBlocking. intros mode. cbn [then_swp].
  destruct (negb (mode =? 0)).
  { apply swp_errno. intros error. apply swp_close_bind. by apply Hnext. }
  apply swp_used; [intros b; split; [apply used_connected|done]|]. intros connectResult.
  destruct (connectResult =? 0); [by apply HQ|].
  apply swp_errno. intros connectError. destruct (negb (isWouldBlock connectError)).
  { apply swp_close_bind. by apply Hnext. }
  apply swp_bind, swp_waitForSocket; [done|]. intros time' r [Ht Hr].
  destruct r as [b|e|m|]; [|by apply swp_close_bind, HQ|done|].
  - apply swp_used; [intros x; split; [apply used_connected|done]|].
    intros [status socketError']. destruct (negb (status =? 0) || _).
    + apply swp_tcp_bind. destruct (negb (socketError' =? 0)); cbn; intros;
        rewrite ?Z.eqb_refl; by apply Hnext.
    + by apply HQ.
  - apply HQ; [done|]. exists fd, [], []. split_and!; [done..|lia].
Qed.

Lemma swp_connectSocket n endpoint context time (Q : wire -> Z -> comp Z -> Prop) :
  stuck \/ 1 <= tick /\ timeoutOf context < Z.of_nat n ->
  (forall w time' r, time <= time' -> dialled w r -> Q w time' r) ->
  proves (connectSocket n endpoint context) Idle time Q.
Proof.
  intros Hn HQ. unfold connectSocket. pose proof (timeoutOf_pos context).
  cbn [mbind tcp_bind call sys_bind swp observe passed]. intros [status results] _.
  destruct (negb (status =? 0) || _); [by apply HQ|].
  apply swp_tcp_bind, swp_deadlineFor. intros now Hnow. cbn [then_swp].
  apply swp_connectEntries.
  - destruct Hn as [?|[? ?]]; [by left|right; lia].
  - intros w time' r ? ?. apply HQ; [lia|done].
Qed.

(** ** The exchange *)

(** The object and its connection: [o] is what was sent and received on it. *)
Definition linked (t : DirectTcpTransport) (o : option (bytes * bytes)) (w : wire) : Prop :=
  match o with
  | None => m_socket t = -1 /\ w = Idle
  | Some (sent, received) =>
      0 <= m_socket t /\ fds (m_socket t) /\ w = Connected (m_socket t) sent received
  end.

(** A frame that is one message behind its header, and nothing else. *)
Definition whole_frame (frame : bytes) : Prop :=
  bytes_ok frame /\
  exists payload, decodeDirectTcpPayload frame = Ok payload /\
    blen frame = kDirectTcpHeaderSize + blen payload.

(** What an exchange leaves of a connection. *)
Definition after_exchange (o : option (bytes * bytes)) (m : message) : option (bytes * bytes) :=
  match snd m with
  | Ok response =>
      let '(sent, received) := default ([], []) o in
      Some (sent ++ fst m, received ++ response)
  | _ => None
  end.

(** How an exchange can end. *)
Definition exchanged (endpoint : DirectTcpEndpoint) (o : option (bytes * bytes))
    (request : bytes) (w : wire) (a : DirectTcpTransport * comp bytes) : Prop :=
  m_endpoint (fst a) = endpoint /\
  match snd a with
  | OutOfBounds => undefined w
  | r => wp r whole_frame /\ linked (fst a) (after_exchange o (request, r)) w
  end.

Lemma header_and_payload header n payload :
  bytes_ok header -> blen header = kDirectTcpHeaderSize -> bytes_ok payload ->
  decodeDirectTcpPayloadLength header = Ok n -> blen payload = n ->
  whole_frame (header ++ payload).
Proof.
  unfold kDirectTcpHeaderSize. intros Hh Hl Hp Hn Hpl. split.
  { by apply Forall_app. }
  exists payload. split; [|unfold kDirectTcpHeaderSize; len; lia].
  assert (decodeDirectTcpPayloadLength (header ++ payload) = Ok n) as Hn'.
  { destruct header as [|a [|b [|c [|d [|]]]]]; unfold blen in Hl; cbn in Hl; try lia.
    rewrite <- Hn. unfold decodeDirectTcpPayloadLength, kDirectTcpHeaderSize.
    rewrite (proj2 (Z.ltb_ge (blen (_ ++ payload)) _)); [reflexivity|].
    len. pose proof (blen_nonneg payload). unfold blen at 1. cbn [length]. lia. }
  unfold decodeDirectTcpPayload. rewrite Hn'. cbn [reraise mbind comp_bind].
  unfold kDirectTcpHeaderSize. rewrite (proj2 (Z.ltb_ge _ _)) by (len; lia).
  rewrite <- (app_nil_r payload) at 1. apply read_range_at; [|lia].
  rewrite app_nil_r. exists header, []. by rewrite app_nil_r.
Qed.

Lemma swp_close {A} t o w time (r : A) (Q : wire -> Z -> DirectTcpTransport * A -> Prop) :
  linked t o w ->
  (forall t', linked t' None Idle -> m_endpoint t' = m_endpoint t -> Q Idle time (t', r)) ->
  proves (sys_bind (DirectTcpTransport_close t) (fun t => Return (t, r))) w time Q.
Proof.
  unfold DirectTcpTransport_close, kInvalidSocket. intros Hl HQ.
  destruct o as [[sent received]|]; cbn [linked] in Hl.
  - destruct Hl as (Hpos & _ & ->). rewrite (proj2 (Z.eqb_neq _ _)) by lia.
    cbn. intros _ _. rewrite Z.eqb_refl. by apply HQ.
  - destruct Hl as [Hs ->]. rewrite Hs. cbn. by apply HQ.
Qed.

Lemma swp_connectIfNeeded n context t o w time
    (Q : wire -> Z -> DirectTcpTransport * comp bool -> Prop) :
  stuck \/ 1 <= tick /\ timeoutOf context < Z.of_nat n ->
  linked t o w ->
  (forall w time' t' r, time <= time' -> m_endpoint t' = m_endpoint t ->
    match r with
    | Ok _ => linked t' (Some (default ([], []) o)) w
    | Err _ => linked t' None w
    | Throw _ => False
    | OutOfBounds => undefined w
    end -> Q w time' (t', r)) ->
  proves (connectIfNeeded n context t) w time Q.
Proof.
  unfold connectIfNeeded, kInvalidSocket. intros Hn Hl HQ.
  destruct o as [[sent received]|].
  - pose proof Hl as (Hpos & _ & _). rewrite (proj2 (Z.eqb_neq _ _)) by lia.
    by apply HQ.
  - destruct Hl as [Hs ->]. rewrite Hs. cbn [negb Z.eqb Pos.eqb].
    apply swp_bind, swp_connectSocket; [done|]. intros w time' r Ht Hr.
    destruct r as [fd|e|m|]; cbn [on_result swp]; [|by apply HQ|done|by apply HQ].
    apply HQ; [done..|]. destruct Hr as (-> & Hpos & Hfd). done.
Qed.

Lemma swp_exchange n context t o w time request
    (Q : wire -> Z -> DirectTcpTransport * comp bytes -> Prop) :
  stuck \/ 1 <= tick /\ timeoutOf context < Z.of_nat n ->
  linked t o w ->
  (forall w time' a, time <= time' -> exchanged (m_endpoint t) o request w a ->
    Q w time' a) ->
  proves (DirectTcpTransport_exchange n request context t) w time Q.
Proof.
  intros Hn Hl HQ. unfold DirectTcpTransport_exchange.
  apply swp_bind. eapply swp_connectIfNeeded; [done|exact Hl|].
  intros w1 time1 t1 r1 H1 He Hr. destruct r1 as [b1|e1|m1|]; cbn [on_result];
    [|by apply HQ|done|by apply HQ]. clear Hl.
  set (o1 := default ([], []) o) in Hr. destruct o1 as [sent1 received1] eqn:Ho.
  pose proof Hr as (Hpos & Hfds & ->).
  assert (forall time' sent' received' r, time1 <= time' -> (forall x, r <> Ok x) ->
    r <> OutOfBounds -> wp r whole_frame ->
    proves (sys_bind (DirectTcpTransport_close t1) (fun t => Return (t, r)))
      (Connected (m_socket t1) sent' received') time' Q) as Hclose.
  { intros time' sent' received' r Ht Hno Hnu Hr'.
    eapply (swp_close _ (Some (sent', received'))); [by split_and!|].
    intros t2 Hl2 He2. apply HQ; [lia|]. split; [cbn; congruence|]. cbn [fst snd].
    destruct r as [x|e|m|]; [by destruct (Hno x)|by split|done|done]. }
  assert (forall time' w', time1 <= time' ->
    (exists sent' received', w' = Connected (m_socket t1) sent' received') ->
    ~ 0 <= m_socket t1 < FD_SETSIZE -> Q w' time' (t1, OutOfBounds)) as Hundefined.
  { intros time' w' Ht (sent' & received' & ->) Hfd. apply HQ; [lia|].
    split; [done|]. exists (m_socket t1), sent', received'. split_and!; [done..|lia]. }
  apply swp_bind, swp_sendAll; [done|]. intros w2 time2 r2 H2 Hs.
  destruct r2 as [b2|e2|m2|]; cbn [on_result];
    [|by destruct Hs as [? ->]; apply Hclose|done
     |by destruct Hs as [[? ->] ?]; apply Hundefined; eauto].
  cbn in Hs. subst w2.
  apply swp_bind, swp_receiveExact; [done|done|]. intros w3 time3 r3 H3 Hs.
  destruct r3 as [header|e3|m3|]; cbn [on_result];
    [|by destruct Hs as [? ->]; apply Hclose; [lia|..]|done
     |by destruct Hs as [[? ->] ?]; apply Hundefined; [lia|eauto|]].
  destruct Hs as (-> & Hlen & Hok).
  pose proof (wp_decodeDirectTcpPayloadLength header Hok) as Hpl.
  destruct (decodeDirectTcpPayloadLength header) as [n4|e4|m4|] eqn:Hdec;
    cbn [on_result]; [|by apply Hclose; [lia|..]|done|done].
  cbn in Hpl.
  apply swp_bind, swp_receiveExact; [lia|done|]. intros w5 time5 r5 H5 Hs.
  destruct r5 as [payload|e5|m5|]; cbn [on_result];
    [|by destruct Hs as [? ->]; apply Hclose; [lia|..]|done
     |by destruct Hs as [[? ->] ?]; apply Hundefined; [lia|eauto|]].
  destruct Hs as (-> & Hlen' & Hok'). apply HQ; [lia|]. split; [done|]. cbn [fst snd].
  split; [by eapply header_and_payload|]. unfold after_exchange. cbn [fst snd].
  fold o1. rewrite Ho. split_and!; [done..|]. by rewrite app_assoc.
Qed.

(** How a list of exchanges can end. *)
Definition in_step (endpoint : DirectTcpEndpoint) (o : option (bytes * bytes))
    (requests : list (bytes * OperationContext)) (w : wire)
    (a : DirectTcpTransport * list (comp bytes)) : Prop :=
  let results := snd a in
  m_endpoint (fst a) = endpoint /\
  match last results with
  | Some OutOfBounds => undefined w
  | _ =>
      length results = length requests /\
      Forall (fun r => wp r whole_frame) results /\
      linked (fst a) (foldl after_exchange o (zip (fst <$> requests) results)) w
  end.

Lemma swp_exchanges n requests t o w time :
  Forall (fun request =>
    stuck \/ 1 <= tick /\ timeoutOf (snd request) < Z.of_nat n) requests ->
  linked t o w ->
  proves (exchanges n requests t) w time
    (fun w _ a => in_step (m_endpoint t) o requests w a).
Proof.
  intros Hn. revert t o w time. induction Hn as [|[request context] requests Hc Hn IH];
    intros t o w time Hl; cbn [exchanges].
  { cbn. split; [done|]. by split_and!. }
  apply swp_bind. eapply swp_exchange; [exact Hc|exact Hl|].
  intros w1 time1 [t1 r] _ [He Hr]. cbn [fst snd] in *.
  assert (r <> OutOfBounds -> wp r whole_frame ->
    linked t1 (after_exchange o (request, r)) w1 ->
    proves (sys_bind (exchanges n requests t1)
      (fun '(t, results) => Return (t, r :: results))) w1 time1
      (fun w _ a => in_step (m_endpoint t) o ((request, context) :: requests) w a))
    as Hnext.
  { intros Hno Hwp Hl1. apply swp_bind. eapply swp_mono; [by apply IH|].
    intros w2 time2 [t2 results] [He2 Hs]. cbn [fst snd] in *. cbn [swp].
    split; [cbn; congruence|]. cbn [fst snd]. rewrite last_cons.
    destruct (last results) as [[x|e|m|]|] eqn:Hlast; [| |..]; try exact Hs.
    all: destruct Hs as (Hlen & Hall & Hlink).
    all: assert (S (length results) = S (length requests)) by congruence.
    1-3: split_and!; [done|by constructor|exact Hlink].
    apply last_None in Hlast. subst results. destruct r; [| | |done].
    all: split_and!; [done|by constructor|exact Hlink]. }
  destruct r as [x|e|m|]; [by apply Hnext; [|apply Hr..]..|].
  cbn. split; [done|exact Hr].
Qed.
End runs.

(** ** Properties *)

(** C18: The stream stays in step. Whatever the sockets, the clock and the
    caller's cancellation do, after any list of exchanges on a new transport:
    every answer handed out is one whole frame; if the last exchange failed
    there is no connection left, and otherwise the bytes sent on it are exactly
    the requests since the last failure and the bytes received exactly their
    answers, one frame each, so that no answer is ever taken for another
    request's; no descriptor is lost, used after it was closed or closed twice.
    The one exception is a descriptor of 1024 or more, which is written outside
    the set [select] is given. *)
Theorem tcp_stream_in_step fuel endpoint requests time t results w :
  runs_to 0 (fun _ => True)
    (exchanges fuel requests (mkDirectTcpTransport endpoint (-1))) Idle time
    (Some (t, results)) w ->
  match last results with
  | Some OutOfBounds => exists fd sent received,
      w = Connected fd sent received /\ FD_SETSIZE <= fd
  | _ =>
      length results = length requests /\
      Forall (fun r => wp r whole_frame) results /\
      match foldl after_exchange None (zip (fst <$> requests) results) with
      | None => m_socket t = -1 /\ w = Idle
      | Some (sent, received) =>
          0 <= m_socket t /\ w = Connected (m_socket t) sent received
      end
  end.
Proof.
  intros Hr. pose proof (swp_runs _ _ True _ _ _ _ _ _
    (swp_exchanges 0 (fun _ => True) True (Z.le_refl 0) fuel requests
       (mkDirectTcpTransport endpoint (-1)) None Idle time ltac:(by apply Forall_true; left)
       ltac:(done)) Hr) as (time' & _ & Hs). cbn [fst snd m_endpoint] in Hs.
  destruct (last results) as [[x|e|m|]|];
    [| | |destruct Hs as (fd & sent & received & ? & _ & ?); by exists fd, sent, received|].
  all: destruct Hs as (? & ? & Hl); split_and!; [done..|].
  all: destruct (foldl _ _ _) as [[sent received]|]; [by destruct Hl as (? & _ & ?)|exact Hl].
Qed.

(** The fuel a context asks for. *)
Definition tcp_fuel (context : OperationContext) : nat := S (Z.to_nat (timeoutOf context)).

Lemma tcp_fuel_enough context : timeoutOf context < Z.of_nat (tcp_fuel context).
Proof. unfold tcp_fuel. pose proof (timeoutOf_pos context). lia. Qed.

(** A transport object in one of the states its methods leave it in. *)
Definition socket_ok (fds : Z -> Prop) (t : DirectTcpTransport) : Prop :=
  m_socket t = -1 \/ 0 <= m_socket t /\ fds (m_socket t).

Lemma linked_ok fds t o w : linked fds t o w -> socket_ok fds t.
Proof. destruct o as [[sent received]|]; cbn; [right; tauto|left; tauto]. Qed.

Lemma socket_ok_linked fds t : socket_ok fds t -> exists o w, linked fds t o w.
Proof.
  intros [H|[H Hf]]; [by exists None, Idle|].
  by exists (Some ([], [])), (Connected (m_socket t) [] []).
Qed.

(** On a system whose clock runs, an exchange with enough fuel has a result. *)
Lemma run_exchange {W} `{SystemLaws W 1 fds} fuel request context t (s : W) :
  timeoutOf context < Z.of_nat fuel -> system_ok s -> socket_ok fds t ->
  exists a s', run (DirectTcpTransport_exchange fuel request context t) s = Some (a, s') /\
    system_ok s' /\ m_endpoint (fst a) = m_endpoint t /\
    match snd a with
    | OutOfBounds => exists fd, fds fd /\ FD_SETSIZE <= fd
    | r => wp r whole_frame /\ socket_ok fds (fst a)
    end.
Proof.
  intros Hf Hs (o & w & Hl)%socket_ok_linked.
  pose proof (swp_run False _ w s _ Hs (swp_exchange 1 fds False ltac:(lia) fuel context t
    o w (clock s) request (fun w _ a => exchanged fds (m_endpoint t) o request w a)
    ltac:(right; lia) Hl ltac:(done))) as Hrun.
  destruct (run _ s) as [[a s']|]; [|done].
  destruct Hrun as (Hs' & w' & time' & He & Hr). exists a, s'. split_and!; [done..|].
  destruct (snd a); [| | |by destruct Hr as (fd & _ & _ & _ & ? & ?); exists fd].
  all: destruct Hr as [? ?%linked_ok]; done.
Qed.

(** C37: An exchange ends. If at least a nanosecond passes between two readings
    of the clock, then however the host, the network and the peer behave (an
    address list of any length, partial sends and receives, spurious wake-ups,
    interrupted calls), [exchange] returns before a fuel of the timeout in
    nanoseconds is spent: with a whole frame or an error, and in a state its
    next call can start from, unless the host hands out a descriptor of 1024 or
    more. *)
Theorem tcp_exchange_terminates {W} `{SystemLaws W 1 fds} fuel request context t (s : W) :
  timeoutOf context < Z.of_nat fuel -> system_ok s -> socket_ok fds t ->
  exists a s', run (DirectTcpTransport_exchange fuel request context t) s = Some (a, s') /\
    match snd a with
    | OutOfBounds => exists fd, fds fd /\ FD_SETSIZE <= fd
    | r => wp r whole_frame /\ socket_ok fds (fst a)
    end.
Proof.
  intros Hf Hs Ht. destruct (run_exchange fuel request context t s Hf Hs Ht)
    as (a & s' & ? & _ & _ & ?). eauto.
Qed.

(** ** The transport interface

    On a host whose clock runs and whose descriptors fit a descriptor set, the
    transport keeps the laws the rest of the engine is verified against. *)

Definition fits (fd : Z) : Prop := fd < FD_SETSIZE.

#[export] Instance DirectTcp {W} `{System W} :
    Transport (DirectTcpTransport * W) OperationContext :=
  fun '(t, s) requestFrame context =>
    match run (DirectTcpTransport_exchange (tcp_fuel context) requestFrame context t) s with
    | Some ((t, r), s) => ((t, s), r)
    | None => ((t, s), OutOfBounds)
    end.

#[export] Instance DirectTcp_laws {W} `{SystemLaws W 1 fits} :
  TransportLaws (DirectTcpTransport * W) OperationContext.
Proof.
  refine {| transport_ok := fun ts => socket_ok fits (fst ts) /\ system_ok (snd ts) |}.
  intros [t s] request context [Ht Hs] _. cbn [fst snd] in *.
  destruct (run_exchange (tcp_fuel context) request context t s
    (tcp_fuel_enough context) Hs Ht) as ([t' r] & s' & Hrun & Hs' & _ & Hr).
  unfold exchange, DirectTcp. rewrite Hrun. cbn [fst snd] in *.
  destruct r as [x|e|m|]; [| | |destruct Hr as (fd & Hfd & ?); unfold fits in Hfd; lia].
  all: destruct Hr as [Hwp Hok]; split; [done|].
  all: by eapply wp_mono; [exact Hwp|intros y [? _]].
Defined.

(** ** A host *)

(** A host with one address, whose sockets take three bytes at a time and give
    two, and whose peer's bytes are [host_stream]. *)
Record host : Set := mkHost { host_clock : Z; host_stream : bytes }.

Definition host_answer {B} (c : syscall B) : host -> B * host :=
  match c in syscall B return host -> B * host with
  | AskCancelToken | AskCancelCallback => fun h => (false, h)
  | SteadyClock => fun h =>
      (host_clock h + 1, mkHost (host_clock h + 1) (host_stream h))
  | Errno => fun h => (EINPROGRESS, h)
  | Getaddrinfo _ _ _ _ => fun h => ((0, [mkAddrinfo 2 1 6 [127; 0; 0; 1]]), h)
  | Socket _ _ _ => fun h => (5, h)
  | FcntlGetFlags _ | FcntlSetFlags _ _ | CloseSocket _ => fun h => (0, h)
  | Connect _ _ => fun h => (-1, h)
  | Select _ _ _ _ _ => fun h => (1, h)
  | Getsockopt _ => fun h => ((0, 0), h)
  | Send _ data => fun h => (Z.min 3 (blen data), h)
  | Recv _ size => fun h =>
      let n := Z.min (Z.min 2 size) (blen (host_stream h)) in
      ((n, u8 <$> take (Z.to_nat n) (host_stream h)),
       mkHost (host_clock h) (drop (Z.to_nat n) (host_stream h)))
  end.

#[export] Instance host_system : System host := {|
  answer := @host_answer;
  clock := host_clock
|}.

Lemma host_lawful tick fds : tick <= 1 -> fds 5 -> SystemLaws host tick fds.
Proof.
  intros Ht Hf. refine {| system_ok := fun _ => True |}.
  intros B c h _. destruct c; cbn; split_and!; try done; try (right; done); try lia.
  intros Hn. split.
  - unfold blen in *. rewrite length_fmap, length_take. lia.
  - apply Forall_forall. intros b (x & -> & _)%list_elem_of_fmap. apply u8_range.
Defined.

(** Two requests of five bytes; two frames come back, two bytes at a time. *)
Definition host_requests : list (bytes * OperationContext) :=
  replicate 2 ([0; 0; 0; 1; 7], mkOperationContext 1 true true false).
Definition host_replies : bytes := [0; 0; 0; 2; 8; 9; 0; 0; 0; 1; 4].

Lemma tcp_stream_in_step_witness :
  exists w, runs_to 0 (fun _ => True)
    (exchanges 20 host_requests (mkDirectTcpTransport (mkDirectTcpEndpoint [0x68] 445) (-1)))
    Idle 0
    (Some (mkDirectTcpTransport (mkDirectTcpEndpoint [0x68] 445) 5,
           [Ok [0; 0; 0; 2; 8; 9]; Ok [0; 0; 0; 1; 4]])) w /\
    w = Connected 5 [0; 0; 0; 1; 7; 0; 0; 0; 1; 7] host_replies.
Proof.
  destruct (run_runs_to (H0 := host_lawful 0 (fun _ => True) ltac:(lia) I)
    (exchanges 20 host_requests (mkDirectTcpTransport (mkDirectTcpEndpoint [0x68] 445) (-1)))
    Idle (mkHost 0 host_replies) I) as [w Hr].
  assert (fst <$> run
    (exchanges 20 host_requests (mkDirectTcpTransport (mkDirectTcpEndpoint [0x68] 445) (-1)))
    (mkHost 0 host_replies) =
    Some (mkDirectTcpTransport (mkDirectTcpEndpoint [0x68] 445) 5,
          [Ok [0; 0; 0; 2; 8; 9]; Ok [0; 0; 0; 1; 4]])) as Hrun
    by (vm_compute; reflexivity).
  rewrite Hrun in Hr.
  exists w. split; [exact Hr|].
  pose proof (tcp_stream_in_step 20 (mkDirectTcpEndpoint [0x68] 445) host_requests 0 _ _ w Hr)
    as (_ & _ & _ & Hw).
  exact Hw.
Defined.

Lemma tcp_exchange_terminates_witness :
  exists a s', run (DirectTcpTransport_exchange (tcp_fuel (mkOperationContext 1 true true false))
      [0; 0; 0; 1; 7] (mkOperationContext 1 true true false)
      (mkDirectTcpTransport (mkDirectTcpEndpoint [0x68] 445) (-1))) (mkHost 0 []) = Some (a, s') /\
    match snd a with
    | OutOfBounds => exists fd, fits fd /\ FD_SETSIZE <= fd
    | r => wp r whole_frame /\ socket_ok fits (fst a)
    end.
Proof.
  apply (tcp_exchange_terminates (H0 := host_lawful 1 fits ltac:(lia) eq_refl)).
  - apply tcp_fuel_enough.
  - exact I.
  - by left.
Defined.
