(* ===== verification/AppErrors.v ===== *)
(** * Errors of the application ([core/Error.h], [core/Error.cpp],
    [core/SmbError.cpp], [NativeSmbErrorMapper.cpp])

    The services and the user interface work with [AppError] and [Result]; the
    errors of the engine are mapped to them where it is called.  A [QString] is
    the list of its UTF-16 code units. *)

From S2P Require Export Core Utf16.
Local Open Scope Z_scope.

Definition QString : Set := list Z.

(** [QStringLiteral] of ASCII text. *)
Definition QStringLiteral (text : string) : QString :=
  (fun c => Z.of_N (Ascii.N_of_ascii c)) <$> String.list_ascii_of_string text.

Inductive ErrorCategory : Set :=
| ErrorCategory_General
| ErrorCategory_Validation
| ErrorCategory_Storage
| ErrorCategory_Credentials
| ErrorCategory_Smb
| ErrorCategory_Transfer.

(** [smb::core::ErrorCode] *)
Inductive AppErrorCode : Set :=
| App_None
| App_InvalidPath
| App_DnsError
| App_ServerUnavailable
| App_ShareUnavailable
| App_AuthenticationFailed
| App_PermissionDenied
| App_Timeout
| App_ProtocolUnsupported
| App_NetworkError
| App_FileNotFound
| App_AlreadyExists
| App_DirectoryNotEmpty
| App_OperationCancelled
| App_LocalIoError
| App_StorageError
| App_CredentialStoreUnavailable
| App_CredentialNotFound
| App_Unknown.
#[export] Instance AppErrorCode_eq_dec : EqDecision AppErrorCode.
Proof. solve_decision. Defined.
#[export] Instance ErrorCategory_eq_dec : EqDecision ErrorCategory.
Proof. solve_decision. Defined.

Record AppError : Set := mkAppError {
  ae_code : AppErrorCode;
  ae_category : ErrorCategory;
  ae_userMessage : QString;
  ae_sanitizedTechnicalDetails : QString;
  ae_retryable : bool
}.

Definition defaultUserMessage (code : AppErrorCode) : QString :=
  match code with
  | App_None => []
  | App_InvalidPath => QStringLiteral "The path is not valid."
  | App_DnsError => QStringLiteral "The server name could not be resolved."
  | App_ServerUnavailable => QStringLiteral "The server is unavailable."
  | App_ShareUnavailable => QStringLiteral "The shared folder is unavailable."
  | App_AuthenticationFailed =>
      QStringLiteral "The username or password is incorrect."
  | App_PermissionDenied =>
      QStringLiteral "You do not have permission to perform this operation."
  | App_Timeout => QStringLiteral "The operation timed out."
  | App_ProtocolUnsupported =>
      QStringLiteral "The SMB protocol version is not supported."
  | App_NetworkError => QStringLiteral "A network error occurred."
  | App_FileNotFound => QStringLiteral "The file or folder was not found."
  | App_AlreadyExists =>
      QStringLiteral "A file or folder with this name already exists."
  | App_DirectoryNotEmpty => QStringLiteral "The folder is not empty."
  | App_OperationCancelled => QStringLiteral "The operation was cancelled."
  | App_LocalIoError => QStringLiteral "A local file system error occurred."
  | App_StorageError => QStringLiteral "The local database operation failed."
  | App_CredentialStoreUnavailable =>
      QStringLiteral "The credential store is unavailable."
  | App_CredentialNotFound => QStringLiteral "The saved credential was not found."
  | App_Unknown => QStringLiteral "An unknown error occurred."
  end.

(** [AppError::none] *)
Definition noError : AppError := mkAppError App_None ErrorCategory_General [] [] false.

Definition fromCode (code : AppErrorCode) (category : ErrorCategory)
    (sanitizedTechnicalDetails : QString) (retryable : bool) : AppError :=
  mkAppError code category (defaultUserMessage code) sanitizedTechnicalDetails retryable.

Definition hasError (e : AppError) : bool := negb (bool_decide (ae_code e = App_None)).

(** [Result<T>]: a value and an error at once; [ok] looks at the error, so a
    failure made from an error without a code counts as a success, with the
    default value of the type. *)
Record Result (A : Type) : Type := mkResult {
  res_value : A;
  res_error : AppError
}.
Arguments mkResult {_} _ _.
Arguments res_value {_} _.
Arguments res_error {_} _.

Definition Result_success {A} (value : A) : Result A := mkResult value noError.
Definition Result_failure {A} (default : A) (error : AppError) : Result A :=
  mkResult default error.
Definition Result_ok {A} (r : Result A) : bool := negb (hasError (res_error r)).

(** ** Errors of the engine *)

Definition nativeToCoreError (code : ErrorCode) : AppErrorCode :=
  match code with
  | ErrorCode_None => App_None
  | ErrorCode_Cancelled => App_OperationCancelled
  | ErrorCode_Timeout => App_Timeout
  | ErrorCode_DnsError => App_DnsError
  | ErrorCode_ServerUnavailable => App_ServerUnavailable
  | ErrorCode_ShareUnavailable => App_ShareUnavailable
  | ErrorCode_AuthenticationFailed => App_AuthenticationFailed
  | ErrorCode_PermissionDenied => App_PermissionDenied
  | ErrorCode_ProtocolUnsupported => App_ProtocolUnsupported
  | ErrorCode_FileNotFound => App_FileNotFound
  | ErrorCode_AlreadyExists => App_AlreadyExists
  | ErrorCode_DirectoryNotEmpty => App_DirectoryNotEmpty
  | ErrorCode_InvalidPath => App_InvalidPath
  | ErrorCode_NetworkError => App_NetworkError
  | ErrorCode_IoError => App_LocalIoError
  | ErrorCode_UnsupportedCapability => App_ProtocolUnsupported
  | ErrorCode_InternalError => App_Unknown
  end.

Definition isNativeErrorRetryable (code : ErrorCode) : bool :=
  match code with
  | ErrorCode_Timeout | ErrorCode_NetworkError | ErrorCode_ServerUnavailable => true
  | _ => false
  end.

(** ** Lemmas *)

Lemma hasError_fromCode code category details retryable :
  hasError (fromCode code category details retryable) = negb (bool_decide (code = App_None)).
Proof. done. Qed.

(** Mapping keeps a cancellation apart from every other error. *)
Lemma native_cancelled code :
  nativeToCoreError code = App_OperationCancelled <-> code = ErrorCode_Cancelled.
Proof. by destruct code. Qed.

Lemma Result_ok_success {A} (a : A) : Result_ok (Result_success a) = true.
Proof. done. Qed.
