(* ===== verification/OperationQueue.v ===== *)
(** * The operation queue ([OperationQueue.h], [OperationQueue.cpp])

    Transfers run on the threads of a pool while the user interface enqueues,
    cancels and looks at them.  [Queue] is the state the threads share: the
    table of operations, guarded by the mutex, the tokens, the events posted to
    the interface, and for every operation the point its code has reached.
    Between two points lies at most one access to shared data (a block under the
    mutex, a read of the token, a posted event), so that [step_with], one such
    move of one thread, has every interleaving of the program.

    The pool (Qt's [QThreadPool]) is represented by what is documented of it: a
    runnable that was started begins at some time, on no more threads than the
    maximum; the order is left open.  A UUID that was created is new.  The
    callbacks of the operations are left open too: one reports progress as often
    as it likes, and may return any result. *)

From stdpp Require Export gmap.
From S2P Require Export AppErrors.
Local Open Scope Z_scope.

(** ** Data *)

Inductive OperationState : Set :=
| OperationState_Queued
| OperationState_Running
| OperationState_Completed
| OperationState_Failed
| OperationState_Cancelled.
#[export] Instance OperationState_eq_dec : EqDecision OperationState.
Proof. solve_decision. Defined.

(** [smb::core::TransferProgress] *)
Record CoreTransferProgress : Set := mkCoreTransferProgress {
  ctp_bytesTransferred : Z;
  ctp_totalBytes : Z
}.

Record OperationSnapshot : Set := mkOperationSnapshot {
  os_id : QString;
  os_name : QString;
  os_state : OperationState;
  os_progress : CoreTransferProgress;
  os_error : AppError
}.

(** [OperationQueue::OperationData]; [od_cancelled] is the flag in the token it
    shares with the runnable. *)
Record OperationData : Set := mkOperationData {
  od_id : QString;
  od_name : QString;
  od_state : OperationState;
  od_progress : CoreTransferProgress;
  od_error : AppError;
  od_cancelled : bool
}.

Definition no_progress : CoreTransferProgress := mkCoreTransferProgress 0 0.

Definition snapshot_of (d : OperationData) : OperationSnapshot :=
  mkOperationSnapshot (od_id d) (od_name d) (od_state d) (od_progress d) (od_error d).

(** Where the code of an operation stands: in [postChanged], before the
    snapshot is taken ([Snapping]) or posted; in [setState] or [setProgress],
    before the mutex is taken; handed to the pool ([Started]); at the tests the
    runnable begins with; before the callback is called, inside it, or after it
    returned. *)
Inductive point : Set :=
| Snapping (next : point)
| Posting (s : OperationSnapshot) (next : point)
| Started
| Begun
| AskingToken
| Setting (state : OperationState) (error : AppError) (next : point)
| Entering
| Inside
| SettingProgress (progress : CoreTransferProgress)
| Returned (r : Result bool)
| Finished.

(** What happens to an operation: an event is posted to the interface, its
    callback is called, its callback returns. *)
Inductive event : Set :=
| Posted (s : OperationSnapshot)
| Invoked (id : QString)
| Ended (id : QString) (r : Result bool).

(** [m_points] also holds whether the operation has a callback. *)
Record Queue : Type := mkQueue {
  m_operations : gmap QString OperationData;
  m_points : gmap QString (bool * point);
  m_maxThreadCount : Z;
  m_events : list event
}.

Definition cancelledError : AppError :=
  fromCode App_OperationCancelled ErrorCategory_General
    (QStringLiteral "Operation cancelled.") false.

(** ** Operations *)

Definition OperationQueue_new (maxConcurrentOperations : Z) : Queue :=
  mkQueue empty empty (Z.max 1 maxConcurrentOperations) [].

Definition cancel_token (d : OperationData) : OperationData :=
  mkOperationData (od_id d) (od_name d) (od_state d) (od_progress d) (od_error d) true.

(** The destructor's loop over the operations; it then waits for the pool. *)
Definition cancelAll (q : Queue) : Queue :=
  mkQueue (cancel_token <$> m_operations q) (m_points q) (m_maxThreadCount q) (m_events q).

Definition cancel (operationId : QString) (q : Queue) : Queue * bool :=
  match m_operations q !! operationId with
  | None => (q, false)
  | Some _ =>
      (mkQueue (alter cancel_token operationId (m_operations q)) (m_points q)
         (m_maxThreadCount q) (m_events q), true)
  end.

Definition snapshot (operationId : QString) (q : Queue) : OperationSnapshot :=
  match m_operations q !! operationId with
  | None => mkOperationSnapshot [] [] OperationState_Queued no_progress noError
  | Some d => snapshot_of d
  end.

(** In the order of the table. *)
Definition snapshots (q : Queue) : list OperationSnapshot :=
  (fun kv => snapshot_of (snd kv)) <$> map_to_list (m_operations q).

Definition update (operationId : QString) (f : OperationData -> OperationData)
    (q : Queue) : Queue :=
  mkQueue (alter f operationId (m_operations q)) (m_points q) (m_maxThreadCount q)
    (m_events q).

Definition goto (id : QString) (p : point) (q : Queue) : Queue :=
  mkQueue (m_operations q) (alter (fun x => (fst x, p)) id (m_points q))
    (m_maxThreadCount q) (m_events q).

Definition record (e : event) (q : Queue) : Queue :=
  mkQueue (m_operations q) (m_points q) (m_maxThreadCount q) (m_events q ++ [e]).

(** The block of [setState] under the mutex, and where the code goes on: to
    [postChanged], unless there is no such operation. *)
Definition setState (id : QString) (state : OperationState) (error : AppError)
    (next : point) (q : Queue) : Queue :=
  match m_operations q !! id with
  | None => goto id next q
  | Some _ =>
      goto id (Snapping next) (update id (fun d =>
        mkOperationData (od_id d) (od_name d) state (od_progress d) error
          (od_cancelled d)) q)
  end.

Definition setProgress (id : QString) (progress : CoreTransferProgress) (next : point)
    (q : Queue) : Queue :=
  match m_operations q !! id with
  | None => goto id next q
  | Some _ =>
      goto id (Snapping next) (update id (fun d =>
        mkOperationData (od_id d) (od_name d) (od_state d) progress (od_error d)
          (od_cancelled d)) q)
  end.

(** [enqueue] up to the insertion; the rest is [postChanged] and [start]. *)
Definition enqueue (id name : QString) (callback : bool) (q : Queue) : Queue :=
  mkQueue
    (<[id := mkOperationData id name OperationState_Queued no_progress noError false]>
       (m_operations q))
    (<[id := (callback, Snapping Started)]> (m_points q))
    (m_maxThreadCount q) (m_events q).

(** [token->isCancellationRequested()] *)
Definition isCancellationRequested (id : QString) (q : Queue) : bool :=
  match m_operations q !! id with Some d => od_cancelled d | None => false end.

(** The runnable after its callback returned [r], given the token. *)
Definition outcome (cancelled : bool) (r : Result bool) : OperationState * AppError :=
  if cancelled || (negb (Result_ok r)
                   && bool_decide (ae_code (res_error r) = App_OperationCancelled))
  then (OperationState_Cancelled, if Result_ok r then cancelledError else res_error r)
  else if Result_ok r then (OperationState_Completed, noError)
  else (OperationState_Failed, res_error r).

(** ** Steps *)

(** A point of the code that is still [enqueue]'s or the pool's. *)
Fixpoint awaits (p : point) : bool :=
  match p with
  | Snapping next | Posting _ next => awaits next
  | Started => true
  | _ => false
  end.

(** A runnable that occupies a thread. *)
Definition occupies (x : bool * point) : Prop :=
  awaits (snd x) = false /\ snd x <> Finished.
#[export] Instance occupies_dec x : Decision (occupies x).
Proof.
  refine (and_dec _ _). destruct (snd x); first [left; discriminate|right; by intros []].
Defined.

Definition activeThreadCount (q : Queue) : Z :=
  Z.of_nat (size (filter (fun kv => occupies (snd kv)) (m_points q))).

(** What a callback does next. *)
Inductive choice : Set :=
| Go
| Progress (progress : CoreTransferProgress)
| Return (r : Result bool).

(** One move of the thread that carries the operation [id]. *)
Definition work (id : QString) (callback : bool) (p : point) (c : choice) (q : Queue)
    : option Queue :=
  match p, c with
  | Snapping next, Go => Some (goto id (Posting (snapshot id q) next) q)
  | Posting s next, Go => Some (goto id next (record (Posted s) q))
  | Started, Go =>
      if activeThreadCount q <? m_maxThreadCount q then Some (goto id Begun q) else None
  | Begun, Go =>
      Some (goto id (if negb callback
        then Setting OperationState_Failed
               (fromCode App_Unknown ErrorCategory_General
                  (QStringLiteral "Operation callback is empty.") false) Finished
        else AskingToken) q)
  | AskingToken, Go =>
      Some (goto id (if isCancellationRequested id q
        then Setting OperationState_Cancelled cancelledError Finished
        else Setting OperationState_Running noError Entering) q)
  | Setting state error next, Go => Some (setState id state error next q)
  | Entering, Go => Some (goto id Inside (record (Invoked id) q))
  | Inside, Progress progress => Some (goto id (SettingProgress progress) q)
  | SettingProgress progress, Go => Some (setProgress id progress Inside q)
  | Inside, Return r => Some (goto id (Returned r) (record (Ended id r) q))
  | Returned r, Go =>
      let '(state, error) := outcome (isCancellationRequested id q) r in
      Some (goto id (Setting state error Finished) q)
  | _, _ => None
  end.

Inductive input : Set :=
| Enqueue (id name : QString) (callback : bool)
| Cancel (id : QString)
| CancelAll
| Work (id : QString) (c : choice).

Definition step_with (i : input) (q : Queue) : option Queue :=
  match i with
  | Enqueue id name callback =>
      match m_operations q !! id with
      | Some _ => None
      | None => Some (enqueue id name callback q)
      end
  | Cancel id => Some (fst (cancel id q))
  | CancelAll => Some (cancelAll q)
  | Work id c =>
      match m_points q !! id with
      | None => None
      | Some (callback, p) => work id callback p c q
      end
  end.

Fixpoint run_queue (inputs : list input) (q : Queue) : option Queue :=
  match inputs with
  | [] => Some q
  | i :: inputs => step_with i q ≫= run_queue inputs
  end.

Definition step (q q' : Queue) : Prop := exists i, step_with i q = Some q'.
Definition reachable (q : Queue) : Prop :=
  exists maxThreads, rtc step (OperationQueue_new maxThreads) q.

Definition toString (state : OperationState) : QString :=
  match state with
  | OperationState_Queued => QStringLiteral "queued"
  | OperationState_Running => QStringLiteral "running"
  | OperationState_Completed => QStringLiteral "completed"
  | OperationState_Failed => QStringLiteral "failed"
  | OperationState_Cancelled => QStringLiteral "cancelled"
  end.

(** ** What a state may be followed by *)

Definition may_become (from to : OperationState) : bool :=
  match from, to with
  | OperationState_Queued, (OperationState_Queued | OperationState_Running
                            | OperationState_Failed | OperationState_Cancelled)
  | OperationState_Running, (OperationState_Running | OperationState_Completed
                             | OperationState_Failed | OperationState_Cancelled)
  | OperationState_Completed, OperationState_Completed
  | OperationState_Failed, OperationState_Failed
  | OperationState_Cancelled, OperationState_Cancelled => true
  | _, _ => false
  end.

Definition terminal (state : OperationState) : bool :=
  match state with
  | OperationState_Queued | OperationState_Running => false
  | _ => true
  end.

(** The states [l] follow one another from [from] on. *)
Fixpoint follows (from : OperationState) (l : list OperationState) : Prop :=
  match l with
  | [] => True
  | to :: l => may_become from to = true /\ follows to l
  end.

Lemma may_become_refl s : may_become s s = true.
Proof. by destruct s. Qed.

Lemma follows_snoc from l x y :
  follows from (l ++ [x]) -> may_become x y = true -> follows from (l ++ [x; y]).
Proof.
  revert from. induction l as [|z l IH]; intros from; cbn; [tauto|].
  intros [? ?] ?. split; [done|]. by apply IH.
Qed.

(** ** Events of one operation *)

(** The snapshots posted of [id], in order. *)
Definition posted (id : QString) (events : list event) : list OperationSnapshot :=
  omap (fun e => match e with
                 | Posted s => if decide (os_id s = id) then Some s else None
                 | _ => None
                 end) events.

(** The calls of the callback of [id] and its results. *)
Definition calls (id : QString) (events : list event) : list (option (Result bool)) :=
  omap (fun e => match e with
                 | Invoked id' => if decide (id' = id) then Some None else None
                 | Ended id' r => if decide (id' = id) then Some (Some r) else None
                 | _ => None
                 end) events.

(** ** The invariant *)

Definition fresh (d : OperationData) : Prop :=
  od_state d = OperationState_Queued /\ od_progress d = no_progress /\ od_error d = noError.

Definition running (d : OperationData) : Prop :=
  od_state d = OperationState_Running /\ od_error d = noError.

(** The states of the snapshots, followed by the present one. *)
Definition chain (d : OperationData) (ps : list OperationSnapshot) : Prop :=
  follows OperationState_Queued ((os_state <$> ps) ++ [od_state d]).

(** What was posted last is the present state. *)
Definition shown (d : OperationData) (ps : list OperationSnapshot) : Prop :=
  last ps = Some (snapshot_of d).

(** The operation ended without its callback being called. *)
Definition refused (cancelled callback : bool) (state : OperationState) : Prop :=
  match state with
  | OperationState_Failed => callback = false
  | OperationState_Cancelled => callback = true /\ cancelled = true
  | _ => False
  end.

(** The state and the error are what the result [r] of the callback calls for;
    the operation was cancelled by then only if it is now. *)
Definition settled_by (cancelled : bool) (r : Result bool) (state : OperationState)
    (error : AppError) : Prop :=
  exists asked, (asked = true -> cancelled = true) /\ outcome asked r = (state, error).

(** How an operation can have ended. *)
Definition settled (d : OperationData) (callback : bool) (cs : list (option (Result bool)))
    : Prop :=
  (cs = [] /\ refused (od_cancelled d) callback (od_state d)) \/
  (exists r, callback = true /\ cs = [None; Some r] /\
     settled_by (od_cancelled d) r (od_state d) (od_error d)).

(** The callback has been called, or is about to be. *)
Inductive in_call (d : OperationData) (ps : list OperationSnapshot)
    : point -> list (option (Result bool)) -> Prop :=
| call_snap : in_call d ps (Snapping Entering) []
| call_post : in_call d ps (Posting (snapshot_of d) Entering) []
| call_enter : shown d ps -> in_call d ps Entering []
| call_progress_snap : in_call d ps (Snapping Inside) [None]
| call_progress_post : in_call d ps (Posting (snapshot_of d) Inside) [None]
| call_inside : shown d ps -> in_call d ps Inside [None]
| call_progress p : shown d ps -> in_call d ps (SettingProgress p) [None]
| call_returned r : shown d ps -> in_call d ps (Returned r) [None; Some r]
| call_setting r state error :
    shown d ps -> settled_by (od_cancelled d) r state error ->
    in_call d ps (Setting state error Finished) [None; Some r].

(** The data of an operation fit the point it has reached, the snapshots posted
    of it and the calls of its callback. *)
Inductive coherent (d : OperationData) (callback : bool) (ps : list OperationSnapshot)
    : point -> list (option (Result bool)) -> Prop :=
| co_enqueued : fresh d -> ps = [] -> coherent d callback ps (Snapping Started) []
| co_enqueued_post :
    fresh d -> ps = [] -> coherent d callback ps (Posting (snapshot_of d) Started) []
| co_waiting : fresh d -> shown d ps -> coherent d callback ps Started []
| co_begun : fresh d -> shown d ps -> coherent d callback ps Begun []
| co_asking :
    fresh d -> shown d ps -> callback = true -> coherent d callback ps AskingToken []
| co_refusing state error :
    fresh d -> shown d ps -> refused (od_cancelled d) callback state ->
    coherent d callback ps (Setting state error Finished) []
| co_starting :
    fresh d -> shown d ps -> callback = true ->
    coherent d callback ps (Setting OperationState_Running noError Entering) []
| co_running p cs :
    running d -> callback = true -> in_call d ps p cs -> coherent d callback ps p cs
| co_ending_snap cs : settled d callback cs -> coherent d callback ps (Snapping Finished) cs
| co_ending_post cs :
    settled d callback cs ->
    coherent d callback ps (Posting (snapshot_of d) Finished) cs
| co_ended cs :
    settled d callback cs -> shown d ps -> coherent d callback ps Finished cs.

Definition operation_ok (q : Queue) (id : QString) : Prop :=
  match m_operations q !! id, m_points q !! id with
  | Some d, Some (callback, p) =>
      od_id d = id /\ chain d (posted id (m_events q)) /\
      coherent d callback (posted id (m_events q)) p (calls id (m_events q))
  | None, None => posted id (m_events q) = [] /\ calls id (m_events q) = []
  | _, _ => False
  end.

Definition queue_ok (q : Queue) : Prop :=
  1 <= m_maxThreadCount q /\ forall id, operation_ok q id.

(** ** It is preserved *)

Lemma posted_app id l l' : posted id (l ++ l') = posted id l ++ posted id l'.
Proof. apply omap_app. Qed.
Lemma calls_app id l l' : calls id (l ++ l') = calls id l ++ calls id l'.
Proof. apply omap_app. Qed.

Lemma coherent_cancel d callback ps p cs :
  coherent d callback ps p cs -> coherent (cancel_token d) callback ps p cs.
Proof.
  assert (forall state, refused (od_cancelled d) callback state ->
    refused true callback state) as Href by (intros []; cbn; tauto).
  assert (forall r state error, settled_by (od_cancelled d) r state error ->
    settled_by true r state error) as Hby.
  { intros r state error (asked & _ & ?). by exists asked. }
  assert (settled d callback cs -> settled (cancel_token d) callback cs) as Hs.
  { intros [[? ?]|(r & ? & ? & ?)]; [left|right; exists r]; naive_solver. }
  intros Hc. destruct Hc as [| | | | | | |p cs ? ? Hin| | |].
  8: { apply co_running; [done|done|]. destruct Hin;
      try change (snapshot_of d) with (snapshot_of (cancel_token d));
      econstructor; eauto. }
  all: try change (snapshot_of d) with (snapshot_of (cancel_token d)).
  all: first [apply co_ending_snap; by auto|apply co_ending_post; by auto
             |apply co_ended; by auto|econstructor; eauto].
Qed.

(** A move of one operation leaves the others alone. *)
Definition elsewhere (id : QString) (q q' : Queue) : Prop :=
  m_maxThreadCount q' = m_maxThreadCount q /\
  forall id', id' <> id ->
    m_operations q' !! id' = m_operations q !! id' /\
    m_points q' !! id' = m_points q !! id' /\
    posted id' (m_events q') = posted id' (m_events q) /\
    calls id' (m_events q') = calls id' (m_events q).

Lemma elsewhere_goto id p q : elsewhere id q (goto id p q).
Proof. split; [done|]. intros id' Hid. cbn. by rewrite lookup_alter_ne. Qed.

Lemma elsewhere_update id f q : elsewhere id q (update id f q).
Proof. split; [done|]. intros id' Hid. cbn. by rewrite lookup_alter_ne. Qed.

Definition event_of (e : event) : QString :=
  match e with Posted s => os_id s | Invoked id => id | Ended id _ => id end.

Lemma elsewhere_record id e q : event_of e = id -> elsewhere id q (record e q).
Proof.
  intros He. split; [done|]. intros id' Hid.
  cbn [record m_events m_operations m_points]. rewrite posted_app, calls_app.
  destruct e as [s|i|i r]; cbn in *; subst; try case_decide; try done;
    by rewrite !app_nil_r.
Qed.

Lemma elsewhere_trans id q1 q2 q3 :
  elsewhere id q1 q2 -> elsewhere id q2 q3 -> elsewhere id q1 q3.
Proof.
  intros [H1 H2] [H3 H4]. split; [congruence|]. intros id' Hid.
  destruct (H2 id' Hid) as (<- & <- & <- & <-). by apply H4.
Qed.

Lemma queue_ok_elsewhere id q q' :
  queue_ok q -> elsewhere id q q' -> operation_ok q' id -> queue_ok q'.
Proof.
  intros [Hm Hq] [He Helse] Hid. split; [by rewrite He|]. intros id'.
  destruct (decide (id' = id)) as [->|Hne]; [done|].
  destruct (Helse id' Hne) as (Ho & Hp & Hps & Hcs). specialize (Hq id').
  unfold operation_ok in *. by rewrite Ho, Hp, Hps, Hcs.
Qed.

Lemma chain_next d d' ps :
  chain d ps -> shown d ps -> may_become (od_state d) (od_state d') = true -> chain d' ps.
Proof.
  unfold chain, shown. intros Hc Hs Hm.
  destruct ps as [|s ps _] using rev_ind; [done|].
  rewrite last_snoc in Hs. injection Hs as ->. rewrite fmap_app in *. cbn in *.
  rewrite <- app_assoc in *. cbn in *.
  remember (os_state <$> ps) as l eqn:Hl. clear Hl. revert Hc.
  generalize OperationState_Queued. induction l as [|x l IH]; intros from; cbn.
  - tauto.
  - intros [? ?]. split; [done|]. by apply IH.
Qed.

Lemma chain_post d ps : chain d ps -> chain d (ps ++ [snapshot_of d]).
Proof.
  unfold chain. intros Hc. rewrite fmap_app, <- app_assoc. cbn.
  apply follows_snoc; [done|apply may_become_refl].
Qed.

Lemma shown_post d ps : shown d (ps ++ [snapshot_of d]).
Proof. apply last_snoc. Qed.

Lemma ok_intro q id d callback p :
  m_operations q !! id = Some d -> m_points q !! id = Some (callback, p) ->
  od_id d = id -> chain d (posted id (m_events q)) ->
  coherent d callback (posted id (m_events q)) p (calls id (m_events q)) ->
  operation_ok q id.
Proof. intros Ho Hp ???. unfold operation_ok. by rewrite Ho, Hp. Qed.

Section one_move.
Context (q : Queue) (id : QString) (d : OperationData) (callback : bool).
Context (p : point) (Ho : m_operations q !! id = Some d).
Context (Hp : m_points q !! id = Some (callback, p)) (Hid : od_id d = id).
Let ps := posted id (m_events q).
Let cs := calls id (m_events q).

Lemma ok_goto p' :
  chain d ps -> coherent d callback ps p' cs -> operation_ok (goto id p' q) id.
Proof.
  intros Hc Hok. eapply ok_intro; [exact Ho| |done|exact Hc|exact Hok].
  cbn. by rewrite lookup_alter_eq, Hp.
Qed.

Lemma ok_post p' :
  chain d ps -> coherent d callback (ps ++ [snapshot_of d]) p' cs ->
  operation_ok (goto id p' (record (Posted (snapshot_of d)) q)) id.
Proof.
  intros Hc Hok.
  assert (posted id (m_events q ++ [Posted (snapshot_of d)]) = ps ++ [snapshot_of d]) as Hps.
  { rewrite posted_app. cbn. rewrite Hid. by rewrite decide_True. }
  assert (calls id (m_events q ++ [Posted (snapshot_of d)]) = cs) as Hcs.
  { rewrite calls_app. cbn. by rewrite app_nil_r. }
  eapply ok_intro; [exact Ho| |done|cbn [goto record m_events]; rewrite Hps|cbn [goto record m_events]; rewrite Hps, Hcs; exact Hok].
  - cbn. by rewrite lookup_alter_eq, Hp.
  - by apply chain_post.
Qed.

Lemma ok_call e p' x :
  calls id [e] = [x] -> posted id [e] = [] ->
  chain d ps -> coherent d callback ps p' (cs ++ [x]) ->
  operation_ok (goto id p' (record e q)) id.
Proof.
  intros He He' Hc Hok.
  assert (posted id (m_events q ++ [e]) = ps) as Hps
    by by rewrite posted_app, He', app_nil_r.
  assert (calls id (m_events q ++ [e]) = cs ++ [x]) as Hcs by by rewrite calls_app, He.
  eapply ok_intro; [exact Ho| |done|cbn [goto record m_events]; by rewrite Hps|cbn [goto record m_events]; by rewrite Hps, Hcs].
  cbn. by rewrite lookup_alter_eq, Hp.
Qed.

Lemma ok_set d' f p' :
  d' = f d -> od_id d' = id -> chain d ps -> shown d ps ->
  may_become (od_state d) (od_state d') = true ->
  coherent d' callback ps p' cs -> operation_ok (goto id p' (update id f q)) id.
Proof.
  intros -> Hid' Hc Hs Hm Hok. eapply ok_intro; [| |done| |exact Hok].
  - cbn. by rewrite lookup_alter_eq, Ho.
  - cbn. by rewrite lookup_alter_eq, Hp.
  - by eapply chain_next.
Qed.
End one_move.

Lemma snapshot_at id q d : m_operations q !! id = Some d -> snapshot id q = snapshot_of d.
Proof. unfold snapshot. by intros ->. Qed.

Lemma asked_at id q d :
  m_operations q !! id = Some d -> isCancellationRequested id q = od_cancelled d.
Proof. unfold isCancellationRequested. by intros ->. Qed.

(** A state and an error for [d], as [setState] stores them. *)
Definition with_state (state : OperationState) (error : AppError) (d : OperationData)
    : OperationData :=
  mkOperationData (od_id d) (od_name d) state (od_progress d) error (od_cancelled d).

Lemma outcome_terminal cancelled r : terminal (fst (outcome cancelled r)) = true.
Proof. unfold outcome. repeat case_match; done. Qed.

Lemma running_may_end d state :
  running d -> terminal state = true -> may_become (od_state d) state = true.
Proof. intros [-> _]. by destruct state. Qed.

Section one_work.
Context (q q' : Queue) (id : QString) (d : OperationData) (callback : bool).
Context (p : point) (c : choice).
Context (Ho : m_operations q !! id = Some d).
Context (Hp : m_points q !! id = Some (callback, p)).
Context (Hid : od_id d = id).
Context (Hc : chain d (posted id (m_events q))).
Context (Hok : coherent d callback (posted id (m_events q)) p (calls id (m_events q))).
Context (Hw : work id callback p c q = Some q').

Lemma work_elsewhere : elsewhere id q q'.
Proof.
  assert (forall s next, p = Posting s next -> os_id s = id) as Hpost.
  { intros s next ->. inversion Hok as [| | | | | | |? ? ? ? Hin| | |]; subst; try done.
    by inversion Hin. }
  destruct p as [next|s next| | | |state error next| | |progress|r|], c as [|progress'|r'];
    cbn [work] in Hw; try done.
  - injection Hw as <-. apply elsewhere_goto.
  - injection Hw as <-. eapply elsewhere_trans; [|apply elsewhere_goto].
    apply elsewhere_record. by eapply Hpost.
  - destruct (_ <? _); [|done]. injection Hw as <-. apply elsewhere_goto.
  - injection Hw as <-. apply elsewhere_goto.
  - injection Hw as <-. apply elsewhere_goto.
  - injection Hw as <-. unfold setState. rewrite Ho.
    eapply elsewhere_trans; [apply elsewhere_update|apply elsewhere_goto].
  - injection Hw as <-. eapply elsewhere_trans; [|apply elsewhere_goto].
    by apply elsewhere_record.
  - injection Hw as <-. apply elsewhere_goto.
  - injection Hw as <-. eapply elsewhere_trans; [|apply elsewhere_goto].
    by apply elsewhere_record.
  - injection Hw as <-. unfold setProgress. rewrite Ho.
    eapply elsewhere_trans; [apply elsewhere_update|apply elsewhere_goto].
  - destruct (outcome _ r) as [state error]. injection Hw as <-. apply elsewhere_goto.
Qed.

(** Storing a state in the data. *)
Lemma setState_ok state error next :
  shown d (posted id (m_events q)) -> may_become (od_state d) state = true ->
  coherent (with_state state error d) callback (posted id (m_events q))
    (Snapping next) (calls id (m_events q)) ->
  operation_ok (setState id state error next q) id.
Proof.
  intros Hs Hm Hok'. unfold setState. rewrite Ho.
  by eapply (ok_set q id d callback p Ho Hp (with_state state error d)).
Qed.

Lemma work_in_call :
  running d -> callback = true ->
  in_call d (posted id (m_events q)) p (calls id (m_events q)) -> operation_ok q' id.
Proof.
  intros Hr Hcb Hin. destruct Hr as [Hst Her].
  inversion Hin as [Hpt Hcs|Hpt Hcs|Hs Hpt Hcs|Hpt Hcs|Hpt Hcs|Hs Hpt Hcs|pr Hs Hpt Hcs
    |r Hs Hpt Hcs|r state error Hs Hby Hpt Hcs]; clear Hin; rewrite <- Hpt in Hw;
    destruct c as [|progress'|r']; cbn [work] in Hw; try done.
  - injection Hw as <-. rewrite (snapshot_at _ _ _ Ho).
    eapply ok_goto; [done..|]. rewrite <- Hcs. by apply co_running; [|done|constructor].
  - injection Hw as <-. eapply ok_post; [done..|]. rewrite <- Hcs.
    apply co_running; [done|done|]. constructor. apply shown_post.
  - injection Hw as <-.
    eapply (ok_call _ _ _ _ _ Ho Hp Hid (Invoked id) _ None);
      [cbn; by rewrite decide_True|done|done|]. rewrite <- Hcs.
    apply co_running; [done|done|]. by constructor.
  - injection Hw as <-. rewrite (snapshot_at _ _ _ Ho).
    eapply ok_goto; [done..|]. rewrite <- Hcs. by apply co_running; [|done|constructor].
  - injection Hw as <-. eapply ok_post; [done..|]. rewrite <- Hcs.
    apply co_running; [done|done|]. constructor. apply shown_post.
  - injection Hw as <-. eapply ok_goto; [done..|]. rewrite <- Hcs.
    apply co_running; [done|done|]. by constructor.
  - injection Hw as <-.
    eapply (ok_call _ _ _ _ _ Ho Hp Hid (Ended id r') _ (Some r'));
      [cbn; by rewrite decide_True|done|done|]. rewrite <- Hcs.
    apply co_running; [done|done|]. by constructor.
  - injection Hw as <-. unfold setProgress. rewrite Ho.
    eapply (ok_set q id d callback p Ho Hp (mkOperationData (od_id d) (od_name d)
      (od_state d) pr (od_error d) (od_cancelled d))); [done|done|done|done
      |apply may_become_refl|].
    rewrite <- Hcs. apply co_running; [done|done|]. constructor.
  - rewrite (asked_at _ _ _ Ho) in Hw.
    destruct (outcome (od_cancelled d) r) as [state error] eqn:Hout.
    injection Hw as <-. eapply ok_goto; [done..|]. rewrite <- Hcs.
    apply co_running; [done|done|]. constructor; [done|]. by exists (od_cancelled d).
  - injection Hw as <-. apply setState_ok; [done| |].
    + apply running_may_end; [done|]. destruct Hby as (asked & _ & Hout).
      pose proof (outcome_terminal asked r) as Ht. by rewrite Hout in Ht.
    + rewrite <- Hcs. apply co_ending_snap. right. by exists r.
Qed.

Lemma work_ok : operation_ok q' id.
Proof.
  inversion Hok as [Hf Hps Hpt Hcs|Hf Hps Hpt Hcs|Hf Hs Hpt Hcs|Hf Hs Hpt Hcs
    |Hf Hs Hcb Hpt Hcs|state error Hf Hs Href Hpt Hcs|Hf Hs Hcb Hpt Hcs
    |p0 cs0 Hr Hcb Hin Hpt Hcs|cs0 Hset Hpt Hcs|cs0 Hset Hpt Hcs|cs0 Hset Hs Hpt Hcs].
  8: by apply work_in_call.
  all: rewrite <- Hpt in Hw; try (destruct c as [|progress'|r']; cbn [work] in Hw; try done).
  - injection Hw as <-. rewrite (snapshot_at _ _ _ Ho).
    eapply ok_goto; [done..|]. rewrite <- Hcs. by constructor.
  - injection Hw as <-. eapply ok_post; [done..|]. rewrite <- Hcs, Hps.
    by constructor.
  - destruct (_ <? _); [|done]. injection Hw as <-. eapply ok_goto; [done..|].
    rewrite <- Hcs. by constructor.
  - injection Hw as <-. eapply ok_goto; [done..|]. rewrite <- Hcs.
    destruct callback eqn:Hcb; cbn [negb]; constructor; done.
  - injection Hw as <-. rewrite (asked_at _ _ _ Ho). eapply ok_goto; [done..|].
    rewrite <- Hcs. destruct (od_cancelled d) eqn:Hcan; constructor; by try rewrite Hcan.
  - injection Hw as <-. destruct Hf as (Hst & _). apply setState_ok; [done| |].
    + rewrite Hst. by destruct state.
    + rewrite <- Hcs. apply co_ending_snap. by left.
  - injection Hw as <-. destruct Hf as (Hst & _). apply setState_ok; [done|by rewrite Hst|].
    rewrite <- Hcs. apply co_running; [done|done|]. constructor.
  - injection Hw as <-. rewrite (snapshot_at _ _ _ Ho). eapply ok_goto; [done..|].
    by apply co_ending_post.
  - injection Hw as <-. eapply ok_post; [done..|].
    apply co_ended; [done|apply shown_post].
Qed.
End one_work.

Lemma with_token_ok q id :
  operation_ok q id ->
  operation_ok (mkQueue (alter cancel_token id (m_operations q)) (m_points q)
    (m_maxThreadCount q) (m_events q)) id.
Proof.
  unfold operation_ok. cbn. rewrite lookup_alter_eq.
  destruct (m_operations q !! id) as [d|], (m_points q !! id) as [[callback p]|]; cbn;
    [|done..]. intros (? & ? & ?). split_and!; [done..|]. by apply coherent_cancel.
Qed.

Lemma step_ok q q' : queue_ok q -> step q q' -> queue_ok q'.
Proof.
  intros Hq [i Hi]. destruct i as [id name callback|id| |id c]; cbn [step_with] in Hi.
  - destruct (m_operations q !! id) as [d|] eqn:Ho; [done|]. injection Hi as <-.
    eapply (queue_ok_elsewhere id q); [done| |].
    + split; [done|]. intros id' Hne. cbn. by rewrite !lookup_insert_ne.
    + pose proof (proj2 Hq id) as Hid. unfold operation_ok in Hid. rewrite Ho in Hid.
      destruct (m_points q !! id); [done|]. destruct Hid as [Hps Hcs].
      eapply ok_intro; [apply lookup_insert_eq|apply lookup_insert_eq|done| |].
      * cbn [enqueue m_events]. by rewrite Hps.
      * cbn [enqueue m_events]. rewrite Hps, Hcs. by constructor.
  - injection Hi as <-. unfold cancel.
    destruct (m_operations q !! id) as [d|] eqn:Ho; [|done]. cbn [fst].
    eapply (queue_ok_elsewhere id q); [done| |by apply with_token_ok, Hq].
    split; [done|]. intros id' Hne. cbn. by rewrite lookup_alter_ne.
  - injection Hi as <-. split; [apply Hq|]. intros id.
    pose proof (proj2 Hq id) as Hid. unfold operation_ok in *. cbn. rewrite lookup_fmap.
    destruct (m_operations q !! id) as [d|], (m_points q !! id) as [[callback p]|]; cbn;
      [|done..]. destruct Hid as (? & ? & ?). split_and!; [done..|].
    by apply coherent_cancel.
  - destruct (m_points q !! id) as [[callback p]|] eqn:Hp; [|done].
    pose proof (proj2 Hq id) as Hid. unfold operation_ok in Hid. rewrite Hp in Hid.
    destruct (m_operations q !! id) as [d|] eqn:Ho; [|done].
    destruct Hid as (Hid & Hc & Hok).
    eapply queue_ok_elsewhere; [done|by eapply work_elsewhere|by eapply work_ok].
Qed.

Lemma steps_ok q q' : queue_ok q -> rtc step q q' -> queue_ok q'.
Proof. intros Hq Hs. induction Hs; [done|]. eauto using step_ok. Qed.

Lemma reachable_ok q : reachable q -> queue_ok q.
Proof.
  intros [n Hs]. eapply steps_ok; [|exact Hs]. split; [cbn; lia|].
  intros id. by unfold operation_ok.
Qed.

(** ** Facts about coherent operations *)

Lemma coherent_calls d callback ps p cs :
  coherent d callback ps p cs -> cs = [] \/ cs = [None] \/ exists r, cs = [None; Some r].
Proof.
  intros [| | | | | | |p' cs' ? ? Hin|cs' Hs|cs' Hs|cs' Hs ?]; eauto.
  - destruct Hin; eauto.
  - destruct Hs as [[-> _]|(r & _ & -> & _)]; eauto.
  - destruct Hs as [[-> _]|(r & _ & -> & _)]; eauto.
  - destruct Hs as [[-> _]|(r & _ & -> & _)]; eauto.
Qed.

Lemma settled_terminal d callback cs : settled d callback cs -> terminal (od_state d) = true.
Proof.
  intros [[_ Hr]|(r & _ & _ & asked & _ & Ho)].
  - by destruct (od_state d).
  - pose proof (outcome_terminal asked r) as Ht. by rewrite Ho in Ht.
Qed.

(** An operation in a terminal state only has to be shown. *)
Lemma terminal_point d callback ps p cs :
  coherent d callback ps p cs -> terminal (od_state d) = true ->
  settled d callback cs /\
  (p = Snapping Finished \/ p = Posting (snapshot_of d) Finished \/
   p = Finished /\ shown d ps).
Proof.
  intros Hc Ht.
  destruct Hc as [[Hs _]|[Hs _]|[Hs _]|[Hs _]|[Hs _]|? ? [Hs _]|[Hs _]|p' cs' [Hs _]
    |cs' Hs|cs' Hs|cs' Hs ?]; try (by rewrite Hs in Ht); eauto 6.
Qed.

Lemma operation_at q id d :
  queue_ok q -> m_operations q !! id = Some d ->
  exists callback p, m_points q !! id = Some (callback, p) /\ od_id d = id /\
    chain d (posted id (m_events q)) /\
    coherent d callback (posted id (m_events q)) p (calls id (m_events q)).
Proof.
  intros [_ Hq] Ho. specialize (Hq id). unfold operation_ok in Hq. rewrite Ho in Hq.
  destruct (m_points q !! id) as [[callback p]|]; [|done]. eauto.
Qed.

(** A step keeps what an operation that has ended says of itself. *)
Lemma step_terminal q q' id d :
  queue_ok q -> step q q' -> m_operations q !! id = Some d ->
  terminal (od_state d) = true ->
  exists d', m_operations q' !! id = Some d' /\ snapshot_of d' = snapshot_of d.
Proof.
  intros Hq [i Hi] Ho Ht.
  destruct (operation_at q id d Hq Ho) as (callback & p & Hp & Hid & Hch & Hc).
  destruct (terminal_point d _ _ _ _ Hc Ht) as [Hs Hpt].
  destruct i as [id' name callback'|id'| |id' c]; cbn [step_with] in Hi.
  - destruct (m_operations q !! id') as [d'|] eqn:Ho'; [done|]. injection Hi as <-.
    exists d. split; [|done]. cbn. rewrite lookup_insert_ne by congruence. done.
  - injection Hi as <-. unfold cancel. destruct (m_operations q !! id') as [d'|]; [|eauto].
    cbn. destruct (decide (id' = id)) as [->|Hne].
    + exists (cancel_token d). by rewrite lookup_alter_eq, Ho.
    + exists d. by rewrite lookup_alter_ne.
  - injection Hi as <-. exists (cancel_token d). cbn. by rewrite lookup_fmap, Ho.
  - destruct (m_points q !! id') as [[callback' p']|] eqn:Hp'; [|done].
    destruct (decide (id' = id)) as [->|Hne].
    + rewrite Hp in Hp'. injection Hp' as <- <-. exists d. split; [|done].
      destruct Hpt as [->|[->|[-> _]]], c; cbn in Hi; try done;
        injection Hi as <-; exact Ho.
    + pose proof (proj2 Hq id') as Hid'. unfold operation_ok in Hid'. rewrite Hp' in Hid'.
      destruct (m_operations q !! id') as [d'|] eqn:Ho'; [|done].
      destruct Hid' as (Hid' & Hc' & Hok').
      destruct (work_elsewhere q q' id' d' callback' p' c Ho' Hp' Hid' Hc' Hok' Hi) as [_ He].
      exists d. destruct (He id) as (-> & _); done.
Qed.

Lemma steps_terminal q q' id d :
  queue_ok q -> rtc step q q' -> m_operations q !! id = Some d ->
  terminal (od_state d) = true ->
  exists d', m_operations q' !! id = Some d' /\ snapshot_of d' = snapshot_of d.
Proof.
  intros Hq Hs. revert d. induction Hs as [q|q q1 q2 H1 Hs IH]; intros d Ho Ht; [eauto|].
  destruct (step_terminal _ _ _ _ Hq H1 Ho Ht) as (d1 & Ho1 & Hd1).
  destruct (IH (step_ok _ _ Hq H1) d1 Ho1) as (d2 & Ho2 & Hd2).
  - by assert (od_state d1 = od_state d) as -> by (by injection Hd1).
  - exists d2. split; [done|congruence].
Qed.

(** C19: The life of an operation, in every interleaving of the threads. Its
    state goes from queued over running to an end, in the table and in the
    snapshots posted to the interface; its callback is called at most once; once
    its state is an end, what the table says of it never changes again, and it is
    what its result, its missing callback or its cancellation calls for; when its
    code is done, the last snapshot posted is the one in the table. *)
Theorem operation_life q id d :
  reachable q -> m_operations q !! id = Some d ->
  follows OperationState_Queued
    ((os_state <$> posted id (m_events q)) ++ [os_state (snapshot id q)]) /\
  (calls id (m_events q) = [] \/ calls id (m_events q) = [None] \/
   exists r, calls id (m_events q) = [None; Some r]) /\
  exists callback p, m_points q !! id = Some (callback, p) /\
    (terminal (os_state (snapshot id q)) = true ->
       settled d callback (calls id (m_events q)) /\
       forall q', rtc step q q' -> snapshot id q' = snapshot id q) /\
    (p = Finished ->
       terminal (os_state (snapshot id q)) = true /\
       last (posted id (m_events q)) = Some (snapshot id q)).
Proof.
  intros Hq%reachable_ok Ho. rewrite (snapshot_at id q d Ho).
  destruct (operation_at q id d Hq Ho) as (callback & p & Hp & Hid & Hch & Hc).
  split; [exact Hch|]. split; [by eapply coherent_calls|].
  exists callback, p. split; [done|]. split.
  - intros Ht. split; [by eapply terminal_point|]. intros q' Hs.
    destruct (steps_terminal _ _ _ _ Hq Hs Ho Ht) as (d' & Ho' & Hd').
    by rewrite (snapshot_at _ _ _ Ho').
  - intros ->. inversion Hc as [| | | | | | |? ? ? ? Hin|? Hset|? Hset|? Hset Hs]; subst.
    + by inversion Hin.
    + split; [by eapply settled_terminal|done].
Qed.

(** ** An operation that is cancelled in time *)

(** How an operation ends that is cancelled before it begins. *)
Definition verdict (callback : bool) : OperationState :=
  if callback then OperationState_Cancelled else OperationState_Failed.

(** On its way there. *)
Definition doomed_point (callback : bool) (state : OperationState) (p : point) : Prop :=
  match p with
  | Begun => True
  | AskingToken => callback = true
  | Setting state' _ Finished => state' = verdict callback
  | Snapping Finished | Posting _ Finished | Finished => state = verdict callback
  | _ => awaits p = true
  end.

Definition doomed (callback : bool) (id : QString) (q : Queue) : Prop :=
  exists d p, m_operations q !! id = Some d /\
    m_points q !! id = Some (callback, p) /\ od_cancelled d = true /\
    doomed_point callback (od_state d) p /\ calls id (m_events q) = [].

Lemma awaits_doomed callback state p :
  awaits p = true -> doomed_point callback state p.
Proof. by destruct p as [[]|? []| | | | | | | | |]. Qed.

Lemma doomed_next callback state s next :
  doomed_point callback state (Snapping next) \/
  doomed_point callback state (Posting s next) ->
  doomed_point callback state next /\
  forall s', doomed_point callback state (Posting s' next).
Proof.
  assert (awaits next = true \/ next = Finished /\ state = verdict callback ->
    doomed_point callback state next /\
    forall s', doomed_point callback state (Posting s' next)) as H.
  { intros [Ha|[-> Hs]]; [|done]. split; [by apply awaits_doomed|].
    intros s'. by apply (awaits_doomed _ _ (Posting s' next)). }
  intros Hd. apply H. destruct next; destruct Hd as [Hd|Hd]; cbn in Hd; auto.
Qed.

Lemma doomed_move q q' id callback p c d :
  m_operations q !! id = Some d -> m_points q !! id = Some (callback, p) ->
  od_cancelled d = true -> doomed_point callback (od_state d) p ->
  calls id (m_events q) = [] -> work id callback p c q = Some q' -> doomed callback id q'.
Proof.
  intros Ho Hp Hcan Hd Hcs Hw.
  assert (forall p', doomed_point callback (od_state d) p' ->
    doomed callback id (goto id p' q))
    as Hgo.
  { intros p' Hd'. exists d, p'. cbn. rewrite lookup_alter_eq, Hp.
    by split_and!. }
  destruct p as [next|s next| | | |state error next| | |progress|r|], c as [|progress'|r'];
    cbn [work] in Hw; try done.
  - injection Hw as <-. apply Hgo. apply (doomed_next callback (od_state d) (snapshot id q) next).
    by left.
  - injection Hw as <-. exists d, next. cbn [goto record m_operations m_points m_events].
    rewrite lookup_alter_eq, Hp, calls_app, Hcs. split_and!; [done..| |done].
    apply (doomed_next callback (od_state d) s next). by right.
  - destruct (_ <? _); [|done]. injection Hw as <-. by apply Hgo.
  - injection Hw as <-. apply Hgo. by destruct callback.
  - injection Hw as <-. apply Hgo. cbn in Hd. subst callback.
    rewrite (asked_at _ _ _ Ho), Hcan. done.
  - injection Hw as <-. unfold setState. rewrite Ho.
    exists (with_state state error d), (Snapping next). cbn.
    rewrite !lookup_alter_eq, Ho, Hp. split_and!; [done..| |done].
    cbn in Hd. by destruct next.
Qed.

Lemma doomed_step q q' callback id :
  queue_ok q -> step q q' -> doomed callback id q -> doomed callback id q'.
Proof.
  intros Hq [i Hi] Hdoom. pose proof Hdoom as (d & p & Ho & Hp & Hcan & Hd & Hcs).
  destruct i as [id' name callback'|id'| |id' c]; cbn [step_with] in Hi.
  - destruct (m_operations q !! id') as [d'|] eqn:Ho'; [done|]. injection Hi as <-.
    exists d, p. cbn. rewrite !lookup_insert_ne by congruence. done.
  - injection Hi as <-. unfold cancel. destruct (m_operations q !! id') as [d'|]; [|done].
    cbn. destruct (decide (id' = id)) as [->|Hne].
    + exists (cancel_token d), p. cbn. by rewrite lookup_alter_eq, Ho.
    + exists d, p. cbn. by rewrite lookup_alter_ne.
  - injection Hi as <-. exists (cancel_token d), p. cbn.
    by rewrite lookup_fmap, Ho.
  - destruct (m_points q !! id') as [[callback' p']|] eqn:Hp'; [|done].
    destruct (decide (id' = id)) as [->|Hne].
    + rewrite Hp in Hp'. injection Hp' as <- <-. by eapply doomed_move.
    + pose proof (proj2 Hq id') as Hid'. unfold operation_ok in Hid'. rewrite Hp' in Hid'.
      destruct (m_operations q !! id') as [d'|] eqn:Ho'; [|done].
      destruct Hid' as (Hid' & Hc' & Hok').
      destruct (work_elsewhere q q' id' d' callback' p' c Ho' Hp' Hid' Hc' Hok' Hi) as [_ He].
      destruct (He id) as (Heo & Hep & _ & Hec); [done|].
      exists d, p. by rewrite Heo, Hep, Hec.
Qed.

Lemma doomed_steps q q' callback id :
  queue_ok q -> rtc step q q' -> doomed callback id q -> doomed callback id q'.
Proof. intros Hq Hs. induction Hs; eauto using step_ok, doomed_step. Qed.

Lemma coherent_awaits d callback ps p cs :
  coherent d callback ps p cs -> awaits p = true -> cs = [].
Proof.
  intros [| | | | | | |p' cs' ? ? Hin| | |]; cbn; try done. by destruct Hin.
Qed.

(** A cancellation in time is not lost. [cancel] answers true exactly for
    an operation of the table; if the pool has not begun it, then whatever the
    threads do afterwards its callback is never called, and when it is done its
    state is cancelled (failed, if it has no callback). *)
Theorem cancelled_in_time q id :
  reachable q ->
  (snd (cancel id q) = true <-> is_Some (m_operations q !! id)) /\
  forall callback p q', m_points q !! id = Some (callback, p) -> awaits p = true ->
    rtc step (fst (cancel id q)) q' ->
    calls id (m_events q') = [] /\
    (m_points q' !! id = Some (callback, Finished) ->
       os_state (snapshot id q') = verdict callback).
Proof.
  intros Hq%reachable_ok. split.
  { unfold cancel. destruct (m_operations q !! id); cbn; split; eauto; try done. }
  intros callback p q' Hp Ha Hs.
  pose proof (proj2 Hq id) as Hid. unfold operation_ok in Hid. rewrite Hp in Hid.
  destruct (m_operations q !! id) as [d|] eqn:Ho; [|done]. destruct Hid as (Hid & _ & Hc).
  assert (queue_ok (fst (cancel id q))) as Hq1.
  { eapply step_ok; [exact Hq|]. by exists (Cancel id). }
  assert (doomed callback id (fst (cancel id q))) as Hdoom.
  { unfold cancel. rewrite Ho. exists (cancel_token d), p. cbn.
    rewrite lookup_alter_eq, Ho. split_and!; [done..|by apply awaits_doomed|].
    by eapply coherent_awaits. }
  destruct (doomed_steps _ _ _ _ Hq1 Hs Hdoom) as (d' & p' & Ho' & Hp' & _ & Hd' & Hcs').
  split; [done|]. rewrite Hp', (snapshot_at _ _ _ Ho'). by intros [= ->].
Qed.

(** ** Waiting for the pool *)

(** The moves an operation has left when its callback returns at once. *)
Fixpoint rank (p : point) : nat :=
  match p with
  | Finished => 0
  | Posting _ next => S (rank next)
  | Snapping next => S (S (rank next))
  | Setting _ _ next => S (S (S (rank next)))
  | Returned _ => 4
  | Inside => 5
  | SettingProgress _ => 8
  | Entering => 6
  | AskingToken => 10
  | Begun => 11
  | Started => 12
  end.

Definition moves_left (q : Queue) : nat :=
  map_fold (fun _ x n => rank (snd x) + n)%nat O (m_points q).

(** A move of an operation that is not a report of progress. *)
Definition quiet (i : input) : Prop :=
  match i with
  | Work _ (Progress _) => False
  | Work _ _ => True
  | _ => False
  end.

Lemma moves_left_goto q id callback p p' :
  m_points q !! id = Some (callback, p) ->
  (moves_left (goto id p' q) + rank p = moves_left q + rank p')%nat.
Proof.
  intros Hp. unfold moves_left. cbn [goto m_points].
  set (f := fun (_ : QString) (x : bool * point) n => (rank (snd x) + n)%nat).
  assert (forall x, map_fold f O (<[id := x]> (delete id (m_points q))) =
    (rank (snd x) + map_fold f O (delete id (m_points q)))%nat) as Hf.
  { intros x. rewrite (map_fold_insert_L f); [done| |by apply lookup_delete_eq].
    intros. unfold f. lia. }
  assert (alter (fun x => (fst x, p')) id (m_points q) =
    <[id := (callback, p')]> (delete id (m_points q))) as ->.
  { apply map_eq. intros j. destruct (decide (j = id)) as [->|Hne].
    - by rewrite lookup_alter_eq, lookup_insert_eq, Hp.
    - by rewrite lookup_alter_ne, lookup_insert_ne, lookup_delete_ne. }
  rewrite <- (insert_delete_id _ _ _ Hp) at 2. rewrite !Hf. cbn. lia.
Qed.

(** A quiet move brings its operation nearer to the end. *)
Lemma work_rank id callback p c q q' :
  m_points q !! id = Some (callback, p) -> quiet (Work id c) ->
  work id callback p c q = Some q' -> (moves_left q' < moves_left q)%nat.
Proof.
  intros Hp Hq Hw.
  assert (forall q1 p', m_points q1 = m_points q -> (rank p' < rank p)%nat ->
    (moves_left (goto id p' q1) < moves_left q)%nat) as Hgo.
  { intros q1 p' H1 Hr. pose proof (moves_left_goto q id callback p p' Hp) as Hg.
    unfold moves_left in *. cbn [goto m_points] in *. rewrite H1. lia. }
  destruct p as [next|s next| | | |state error next| | |progress|r|], c as [|progress'|r'];
    cbn [work] in Hw; try done.
  - injection Hw as <-. apply Hgo; cbn; [done|lia].
  - injection Hw as <-. apply Hgo; cbn; [done|lia].
  - destruct (_ <? _); [|done]. injection Hw as <-. apply Hgo; cbn; [done|lia].
  - injection Hw as <-. apply Hgo; [done|]. destruct callback; cbn; lia.
  - injection Hw as <-. apply Hgo; [done|].
    destruct (isCancellationRequested id q); cbn; lia.
  - injection Hw as <-. unfold setState.
    destruct (m_operations q !! id); apply Hgo; cbn; try done; lia.
  - injection Hw as <-. apply Hgo; cbn; [done|lia].
  - injection Hw as <-. apply Hgo; cbn; [done|lia].
  - injection Hw as <-. unfold setProgress.
    destruct (m_operations q !! id); apply Hgo; cbn; try done; lia.
  - destruct (outcome _ r) as [state error]. injection Hw as <-. apply Hgo; cbn; [done|lia].
Qed.

Lemma point_moves id callback p q :
  p <> Started -> p <> Finished ->
  exists c q', quiet (Work id c) /\ work id callback p c q = Some q'.
Proof.
  intros Hs Hf. destruct p; try done.
  7: { exists (Return (Result_success true)). eexists. split; [done|reflexivity]. }
  all: exists Go; cbn; try (destruct (outcome _ _)); eauto.
Qed.

(** As long as an operation is not done, some thread can move. *)
Lemma some_move q id callback p :
  1 <= m_maxThreadCount q -> m_points q !! id = Some (callback, p) -> p <> Finished ->
  exists id' c q', quiet (Work id' c) /\ step_with (Work id' c) q = Some q'.
Proof.
  intros Hm Hp Hf.
  assert (forall id' callback' p', m_points q !! id' = Some (callback', p') ->
    p' <> Started -> p' <> Finished ->
    exists id' c q', quiet (Work id' c) /\ step_with (Work id' c) q = Some q') as Hmoves.
  { intros id' callback' p' Hp' Hs' Hf'.
    destruct (point_moves id' callback' p' q Hs' Hf') as (c & q' & Hc & Hw).
    exists id', c, q'. split; [done|]. cbn. by rewrite Hp'. }
  assert (p = Started \/ p <> Started) as [->|Hs];
    [by destruct p; first [by left|right; discriminate]| |by eapply Hmoves].
  destruct (activeThreadCount q <? m_maxThreadCount q) eqn:Hact.
  { exists id, Go. eexists. split; [done|]. cbn. rewrite Hp. cbn. by rewrite Hact. }
  apply Z.ltb_ge in Hact. unfold activeThreadCount in Hact.
  destruct (map_choose (filter (fun kv => occupies (snd kv)) (m_points q)))
    as (id' & [callback' p'] & Hin).
  { intros He. rewrite He, map_size_empty in Hact. lia. }
  apply map_lookup_filter_Some in Hin as [Hp' [Ha Hnf]]. cbn in *.
  apply (Hmoves id' callback' p' Hp'); [|done]. by intros ->.
Qed.

Lemma run_queue_steps inputs q q' : run_queue inputs q = Some q' -> rtc step q q'.
Proof.
  revert q. induction inputs as [|i inputs IH]; cbn; [intros q [= ->]; apply rtc_refl|].
  intros q (q1 & H1 & Hr)%bind_Some. eapply rtc_l; [by exists i|by apply IH].
Qed.

Lemma quiet_run inputs q q' :
  Forall quiet inputs -> run_queue inputs q = Some q' ->
  (length inputs + moves_left q' <= moves_left q)%nat.
Proof.
  intros Hi. revert q. induction Hi as [|i inputs Hq Hi IH]; cbn.
  - intros q [= ->]. lia.
  - intros q (q1 & H1 & Hr)%bind_Some. apply IH in Hr.
    destruct i as [| | |id c]; try done. cbn in H1.
    destruct (m_points q !! id) as [[callback p]|] eqn:Hp; [|done].
    pose proof (work_rank _ _ _ _ _ _ Hp Hq H1). lia.
Qed.

(** C40: Waiting for the pool ends. From any state the queue can be in, when
    nothing more is enqueued, the threads make at most [moves_left] moves besides
    reports of progress and the calls they report from, whatever the order; and
    when none of them can move, every operation is done, so none is left waiting
    for a thread or for the mutex. *)
Theorem queue_drains q inputs q' :
  reachable q -> Forall quiet inputs -> run_queue inputs q = Some q' ->
  (length inputs + moves_left q' <= moves_left q)%nat /\
  ((forall id c, step_with (Work id c) q' = None) ->
   forall id callback p, m_points q' !! id = Some (callback, p) -> p = Finished).
Proof.
  intros Hq%reachable_ok Hi Hr. split; [by apply quiet_run|].
  intros Hstuck id callback p Hp.
  pose proof (steps_ok _ _ Hq (run_queue_steps _ _ _ Hr)) as [Hm _].
  assert (p = Finished \/ p <> Finished) as [|Hf]
    by (destruct p; first [by left|right; discriminate]); [done|].
  destruct (some_move q' id callback p Hm Hp Hf) as (id' & c & q2 & _ & H2).
  by rewrite Hstuck in H2.
Qed.

(** ** A run *)

Definition sample_inputs : list input :=
  [Enqueue [1] [10] true; Work [1] Go; Work [1] Go; Work [1] Go; Enqueue [2] [20] true;
   Work [1] Go; Work [2] Go; Work [2] Go; Work [1] Go; Cancel [2]; Work [1] Go;
   Work [1] Go; Work [1] Go; Work [1] Go; Work [1] (Progress (mkCoreTransferProgress 5 9))].

Definition sample_rest : list input :=
  [Work [1] Go; Work [1] Go; Work [1] Go;
   Work [1] (Return (Result_failure false (fromCode App_Timeout ErrorCategory_Smb [] true)));
   Work [1] Go; Work [1] Go; Work [1] Go; Work [1] Go].

Definition queue_after (inputs : list input) : Queue :=
  default (OperationQueue_new 1) (run_queue inputs (OperationQueue_new 1)).

Lemma queue_after_reachable inputs :
  is_Some (run_queue inputs (OperationQueue_new 1)) -> reachable (queue_after inputs).
Proof.
  intros [q Hq]. exists 1. unfold queue_after. rewrite Hq.
  by eapply run_queue_steps.
Qed.

(** The first operation reports progress and fails. *)
Lemma operation_life_witness :
  let q := queue_after (sample_inputs ++ sample_rest) in
  (os_state <$> posted [1] (m_events q)) =
    [OperationState_Queued; OperationState_Running; OperationState_Running;
     OperationState_Failed] /\
  last (posted [1] (m_events q)) = Some (snapshot [1] q).
Proof.
  cbv zeta. split; [vm_compute; reflexivity|].
  assert (reachable (queue_after (sample_inputs ++ sample_rest))) as Hq
    by (apply queue_after_reachable; vm_compute; eauto).
  assert (is_Some (m_operations (queue_after (sample_inputs ++ sample_rest)) !! [1]))
    as [d Ho] by (vm_compute; eauto).
  assert (m_points (queue_after (sample_inputs ++ sample_rest)) !! [1]
    = Some (true, Finished)) as Hp by (vm_compute; reflexivity).
  destruct (operation_life _ _ d Hq Ho) as (_ & _ & callback & p & Hp' & _ & Hf).
  apply Hf. assert (Some (true, Finished) = Some (callback, p)) as He
    by (rewrite <- Hp; exact Hp'). by injection He.
Defined.

(** The second one is cancelled while it waits for the thread. *)
Lemma cancelled_in_time_witness :
  calls [2] (m_events (fst (cancel [2] (queue_after (take 9 sample_inputs))))) = [].
Proof.
  assert (reachable (queue_after (take 9 sample_inputs))) as Hq
    by (apply queue_after_reachable; vm_compute; eauto).
  assert (exists p, m_points (queue_after (take 9 sample_inputs)) !! [2] = Some (true, p)
    /\ awaits p = true) as (p & Hp & Ha) by (eexists; split; vm_compute; reflexivity).
  apply (proj2 (cancelled_in_time _ [2] Hq) true p _ Hp Ha). apply rtc_refl.
Defined.

Lemma queue_drains_witness :
  (length sample_rest + moves_left (queue_after (sample_inputs ++ sample_rest))
   <= moves_left (queue_after sample_inputs))%nat.
Proof.
  apply (queue_drains (queue_after sample_inputs) sample_rest).
  - apply queue_after_reachable. vm_compute. eauto.
  - repeat constructor.
  - vm_compute. reflexivity.
Defined.
