(* ===== verification/Asking.v ===== *)
(** * Programs that ask

    [asking F A] is a program that makes calls [F] to its surroundings, gives an
    [A], or halts where the fuel of a loop is spent.  What the calls may be
    answered, and what an answer does to the world, is a relation; [asks] has
    the runs of a program over it and [awp] its program logic.  The clients of
    the application (NativeClient.v, DfsClient.v) are such programs. *)

From S2P Require Export Prelude.

Inductive asking (F : Set -> Type) (A : Type) : Type :=
| Give (a : A)
| Ask (B : Set) (c : F B) (k : B -> asking F A)
| Halt.
Arguments Give {_ _} a.
Arguments Ask {_ _ B} c k.
Arguments Halt {_ _}.

Fixpoint asking_bind {F A B} (p : asking F A) (f : A -> asking F B) : asking F B :=
  match p with
  | Give a => f a
  | Ask c k => Ask c (fun b => asking_bind (k b) f)
  | Halt => Halt
  end.
#[export] Instance asking_mret F : MRet (asking F) := fun A => Give.
#[export] Instance asking_mbind F : MBind (asking F) := fun A B f p => asking_bind p f.
Definition ask {F} {B : Set} (c : F B) : asking F B := Ask c Give.

Section runs.
Context {F : Set -> Type} {W : Type}.
Context (answers : forall B : Set, F B -> W -> B -> W -> Prop).

(** [asks p w o w']: with such answers [p] takes the world from [w] to [w'] and
    ends with [o], [None] if its fuel is spent. *)
Inductive asks {A} : asking F A -> W -> option A -> W -> Prop :=
| asks_give a w : asks (Give a) w (Some a) w
| asks_ask B (c : F B) k b w w1 o w' :
    answers B c w b w1 -> asks (k b) w1 o w' -> asks (Ask c k) w o w'
| asks_halt w : asks Halt w None w.

(** Every run of [p] from [w] ends with a world and a result that satisfy [Q];
    [stuck] says whether spent fuel is tolerated. *)
Fixpoint awp (stuck : Prop) {A} (p : asking F A) (w : W) (Q : W -> A -> Prop) : Prop :=
  match p with
  | Give a => Q w a
  | Ask c k => forall b w', answers _ c w b w' -> awp stuck (k b) w' Q
  | Halt => stuck
  end.

Lemma awp_runs stuck {A} (p : asking F A) w Q o w' :
  awp stuck p w Q -> asks p w o w' ->
  match o with Some a => Q w' a | None => stuck end.
Proof.
  intros Hp Hr. induction Hr as [a w|B c k b w w1 o w' Hb Hr IH|w]; [exact Hp| |exact Hp].
  exact (IH (Hp b w1 Hb)).
Qed.

Lemma awp_mono stuck {A} (p : asking F A) w (Q Q' : W -> A -> Prop) :
  awp stuck p w Q -> (forall w a, Q w a -> Q' w a) -> awp stuck p w Q'.
Proof. intros Hp HQ. revert w Hp. induction p; cbn; eauto. Qed.

Lemma awp_bind stuck {A B} (p : asking F A) (f : A -> asking F B) w Q :
  awp stuck p w (fun w a => awp stuck (f a) w Q) -> awp stuck (p ≫= f) w Q.
Proof. revert w. induction p; cbn; eauto. Qed.

Lemma awp_ask stuck {A} {B : Set} (c : F B) (f : B -> asking F A) w Q :
  (forall b w', answers B c w b w' -> awp stuck (f b) w' Q) -> awp stuck (ask c ≫= f) w Q.
Proof. done. Qed.

(** ** Parts of a run *)

Lemma asks_inv {A} (p : asking F A) w o w' :
  asks p w o w' ->
  match p with
  | Give a => o = Some a /\ w' = w
  | Ask c k => exists b w1, answers _ c w b w1 /\ asks (k b) w1 o w'
  | Halt => o = None /\ w' = w
  end.
Proof. intros [a v|B c k b v v1 o' v' Hb Hr|v]; eauto. Qed.

Lemma asks_bind {A B} (p : asking F A) (f : A -> asking F B) w o w' :
  asks (p ≫= f) w o w' ->
  (o = None /\ asks p w None w') \/
  exists a w1, asks p w (Some a) w1 /\ asks (f a) w1 o w'.
Proof.
  revert w. induction p as [a|C c k IH|]; intros w Hr.
  - right. exists a, w. split; [constructor|exact Hr].
  - apply asks_inv in Hr as (b & w1 & Hb & Hr).
    destruct (IH b w1 Hr) as [[-> Hk]|(a & w2 & Hk & Hf)]; [left|right].
    + split; [done|]. by econstructor.
    + exists a, w2. split; [by econstructor|done].
  - apply asks_inv in Hr as [-> ->]. left. split; [done|constructor].
Qed.

(** What no answer changes, no run changes. *)
Lemma asks_preserves (R : W -> W -> Prop) :
  PreOrder R -> (forall (B : Set) (c : F B) w b w', answers B c w b w' -> R w w') ->
  forall {A} (p : asking F A) w o w', asks p w o w' -> R w w'.
Proof.
  intros HR Ha A p w o w' Hr. induction Hr as [|B c k b w w1 o w' Hb _ IH|]; [done| |done].
  transitivity w1; [by eapply Ha|done].
Qed.

(** ** Deterministic answers *)

Context (serve : forall B : Set, F B -> W -> option (B * W)).

Fixpoint run_asking {A} (p : asking F A) (w : W) : option (option A * W) :=
  match p with
  | Give a => Some (Some a, w)
  | Ask c k => '(b, w1) ← serve _ c w; run_asking (k b) w1
  | Halt => Some (None, w)
  end.

Lemma run_runs {A} (p : asking F A) w o w' :
  (forall (B : Set) (c : F B) w b w', serve B c w = Some (b, w') -> answers B c w b w') ->
  run_asking p w = Some (o, w') -> asks p w o w'.
Proof.
  intros Hs. revert w.
  induction p as [a|B c k IH|]; cbn; intros w Hr; simplify_eq; [constructor| |constructor].
  destruct (serve B c w) as [[b w1]|] eqn:Hb; simplify_eq/=.
  econstructor; [by apply Hs|by apply IH].
Qed.
End runs.

(** ** Programs of a part *)

(** A program over the calls of a part, over the calls of the whole. *)
Fixpoint asking_lift {F G : Set -> Type} (embed : forall B : Set, F B -> G B) {A}
    (p : asking F A) : asking G A :=
  match p with
  | Give a => Give a
  | Ask c k => Ask (embed _ c) (fun b => asking_lift embed (k b))
  | Halt => Halt
  end.

Section lift.
Context {F G : Set -> Type} {V W : Type} (embed : forall B : Set, F B -> G B).
Context (answers_part : forall B : Set, F B -> V -> B -> V -> Prop).
Context (answers : forall B : Set, G B -> W -> B -> W -> Prop).
Context (get : W -> V) (put : V -> W -> W).
Hypothesis get_put : forall v w, get (put v w) = v.
Hypothesis put_put : forall v v' w, put v' (put v w) = put v' w.
Hypothesis put_get : forall w, put (get w) w = w.
Hypothesis embedded : forall (B : Set) (c : F B) w b w',
  answers B (embed B c) w b w' -> exists v, answers_part B c (get w) b v /\ w' = put v w.

Lemma awp_lift stuck {A} (p : asking F A) w (Q : W -> A -> Prop) :
  awp answers_part stuck p (get w) (fun v a => Q (put v w) a) ->
  awp answers stuck (asking_lift embed p) w Q.
Proof.
  revert w. induction p as [a|B c k IH|]; cbn; intros w Hp; [by rewrite put_get in Hp| |done].
  intros b w' (v & Hv & ->)%embedded. apply IH. rewrite get_put.
  eapply awp_mono; [exact (Hp b v Hv)|]. intros v' a Hq. by rewrite put_put.
Qed.
End lift.
