(* ===== verification/QtText.v ===== *)
(** * What the program uses of Qt

    Qt is not part of the repository: its functions are the fields of the class
    [Qt], and what the Qt documentation says of those the proofs rely on are its
    laws, in [QtLaws].  A [QString] is the list of its UTF-16 code units; a
    [QByteArray] is a list of bytes.  [ascii_qt] is an instance, for ASCII text. *)

From S2P Require Export AppErrors Signing.
Local Open Scope Z_scope.

Class Qt : Type := {
  QDateTime : Set;
  (** [QDateTime()], and [fromMSecsSinceEpoch(msecs, Qt::UTC).toLocalTime()] *)
  nullDateTime : QDateTime;
  localTimeOfMSecs : Z -> QDateTime;
  (** [QChar::isSpace] and [QString] *)
  isSpace : Z -> bool;
  trimmed : QString -> QString;
  toLower : QString -> QString;
  startsWith : QString -> Z -> bool;
  startsWithText : QString -> QString -> bool;
  startsWithIgnoringCase : QString -> QString -> bool;
  endsWith : QString -> Z -> bool;
  contains : QString -> QString -> bool;
  indexOf : QString -> Z -> Z;
  lastIndexOf : QString -> Z -> Z;
  mid : QString -> Z -> Z -> QString;
  midFrom : QString -> Z -> QString;
  left : QString -> Z -> QString;
  chop : QString -> Z -> QString;
  removeAt : QString -> Z -> Z -> QString;
  replaceChar : QString -> Z -> Z -> QString;
  replaceText : QString -> QString -> QString -> QString;
  (** [split(separator, Qt::KeepEmptyParts)] *)
  splitParts : QString -> Z -> list QString;
  equalsIgnoringCase : QString -> QString -> bool;
  toUShort : QString -> option Z;
  toStdString : QString -> bytes;
  fromStdString : bytes -> QString;
  fromUtf8 : bytes -> QString;
  (** [QStringLiteral("0x%1").arg(attributes, 8, 16, QLatin1Char('0'))] *)
  hexArg : Z -> QString;
  (** [QObject::tr] *)
  tr : string -> QString;
  (** [input.replace(QRegularExpression(pattern), replacement)], with
      [CaseInsensitiveOption] or without. *)
  replacePattern : bool -> string -> string -> QString -> QString
}.

(** [QString::isEmpty] and [QStringList::join] *)
Definition isEmpty (s : QString) : bool := match s with [] => true | _ => false end.

Fixpoint join (parts : list QString) (separator : QString) : QString :=
  match parts with
  | [] => []
  | [part] => part
  | part :: parts => part ++ separator ++ join parts separator
  end.

Fixpoint drop_while (f : Z -> bool) (s : QString) : QString :=
  match s with
  | c :: s' => if f c then drop_while f s' else s
  | [] => []
  end.

Fixpoint split_on (c : Z) (s : QString) : list QString :=
  match s with
  | [] => [[]]
  | x :: s =>
      if x =? c then [] :: split_on c s
      else match split_on c s with w :: ws => (x :: w) :: ws | [] => [[x]] end
  end.

Class QtLaws `{Qt} : Prop := {
  isSpace_slashes : isSpace 0x2F = false /\ isSpace 0x5C = false;
  trimmed_strips s :
    trimmed s = reverse (drop_while isSpace (reverse (drop_while isSpace s)));
  startsWith_char s c : startsWith s c = match s with x :: _ => x =? c | [] => false end;
  startsWithText_prefix s t : startsWithText s t = bool_decide (t `prefix_of` s);
  endsWith_char s c : endsWith s c = bool_decide (last s = Some c);
  contains_infix s t : contains s t = true <-> exists before after, s = before ++ t ++ after;
  lastIndexOf_char before c after :
    c ∉ after -> lastIndexOf (before ++ c :: after) c = blen before;
  midFrom_drop s from : 0 <= from -> midFrom s from = drop (Z.to_nat from) s;
  left_take s n : 0 <= n -> left s n = take (Z.to_nat n) s;
  chop_take s n : 0 <= n -> chop s n = take (length s - Z.to_nat n) s;
  removeAt_front s n : 0 <= n -> removeAt s 0 n = drop (Z.to_nat n) s;
  replaceChar_each s before after :
    replaceChar s before after = (fun c => if c =? before then after else c) <$> s;
  replaceText_end before after : replaceText [] before after = [];
  replaceText_hit s before after : before <> [] ->
    replaceText (before ++ s) before after = after ++ replaceText s before after;
  replaceText_miss c s before after : ~ before `prefix_of` c :: s ->
    replaceText (c :: s) before after = c :: replaceText s before after;
  split_parts s c : splitParts s c = split_on c s;
  equalsIgnoringCase_same s : equalsIgnoringCase s s = true;
  equalsIgnoringCase_length s t : equalsIgnoringCase s t = true -> length s = length t;
  startsWithIgnoringCase_app s t : startsWithIgnoringCase (s ++ t) s = true
}.

(** ** [LogSanitizer] *)

(** [m_secretValues] *)
Definition LogSanitizer : Set := list QString.

Definition addSecretValue (s : LogSanitizer) (secretValue : QString) : LogSanitizer :=
  if negb (isEmpty secretValue) && negb (bool_decide (secretValue ∈ s))
  then s ++ [secretValue] else s.

Definition Mask : QString := QStringLiteral "***".

Definition quote : string := String (Ascii.ascii_of_nat 34) EmptyString.

Definition secret_pattern : string :=
  "((?:password|passwd|pwd|token|access_token|refresh_token|secret|master_password)\s*[:=]\s*)("
  +:+ quote +:+ "[^" +:+ quote +:+ "]*" +:+ quote +:+ "|'[^']*'|[^\s,;&]+)".
Definition uri_pattern : string := "\b(smb://)([^/\s@]+)@".
Definition bearer_pattern : string := "(Authorization\s*[:=]\s*Bearer\s+)[^\s,;&]+".
Definition triple_pattern : string := "\b([A-Za-z0-9_.-]+):([A-Za-z0-9_.@-]+):([^\s,;&]+)".

Definition sanitize_message `{Qt} (s : LogSanitizer) (message : QString) : QString :=
  let sanitized := foldl (fun sanitized secret =>
    if negb (isEmpty secret) then replaceText sanitized secret Mask else sanitized)
    message s in
  let sanitized := replacePattern true secret_pattern "\1***" sanitized in
  let sanitized := replacePattern true uri_pattern "\1***@" sanitized in
  let sanitized := replacePattern true bearer_pattern "\1***" sanitized in
  replacePattern false triple_pattern "\1:\2:***" sanitized.

(** ** An instance *)

Definition is_space (c : Z) : bool := (c =? 32) || (9 <=? c) && (c <=? 13).

Definition ascii_trimmed (s : QString) : QString :=
  reverse (drop_while is_space (reverse (drop_while is_space s))).

Fixpoint ascii_index (s : QString) (c : Z) (i : Z) : Z :=
  match s with
  | [] => -1
  | x :: s => if x =? c then i else ascii_index s c (i + 1)
  end.

Fixpoint ascii_contains (s t : QString) : bool :=
  bool_decide (t `prefix_of` s) ||
  match s with [] => false | _ :: s => ascii_contains s t end.

(** The number [skip] of characters of a match are still to be dropped. *)
Fixpoint ascii_replace (skip : nat) (s before after : QString) : QString :=
  match s with
  | [] => []
  | c :: s' =>
      match skip with
      | S skip => ascii_replace skip s' before after
      | O => if bool_decide (before `prefix_of` s) && negb (isEmpty before)
             then after ++ ascii_replace (length before - 1) s' before after
             else c :: ascii_replace 0 s' before after
      end
  end.

Definition ascii_number (s : QString) : option Z :=
  match s with
  | [] => None
  | _ =>
      foldl (fun acc c =>
        n ← acc;
        if (48 <=? c) && (c <=? 57) && (10 * n + (c - 48) <=? 0xFFFF)
        then Some (10 * n + (c - 48)) else None) (Some 0) s
  end.

Definition ascii_lower (s : QString) : QString :=
  (fun c => if (65 <=? c) && (c <=? 90) then c + 32 else c) <$> s.

#[export] Instance ascii_qt : Qt := {|
  QDateTime := Z;
  nullDateTime := 0;
  localTimeOfMSecs msecs := msecs;
  isSpace := is_space;
  trimmed := ascii_trimmed;
  toLower := ascii_lower;
  startsWith s c := match s with x :: _ => x =? c | [] => false end;
  startsWithText s t := bool_decide (t `prefix_of` s);
  startsWithIgnoringCase s t := bool_decide (ascii_lower t `prefix_of` ascii_lower s);
  endsWith s c := bool_decide (last s = Some c);
  contains := ascii_contains;
  indexOf s c := ascii_index s c 0;
  lastIndexOf s c :=
    let i := ascii_index (reverse s) c 0 in
    if i <? 0 then -1 else blen s - 1 - i;
  mid s from n := slice from (from + n) s;
  midFrom s from := drop (Z.to_nat from) s;
  left s n := take (Z.to_nat n) s;
  chop s n := take (length s - Z.to_nat n) s;
  removeAt s from n := slice 0 from s ++ drop (Z.to_nat (from + n)) s;
  replaceChar s before after := (fun c => if c =? before then after else c) <$> s;
  replaceText := ascii_replace 0;
  splitParts s c := split_on c s;
  equalsIgnoringCase s t := bool_decide (ascii_lower s = ascii_lower t);
  toUShort := ascii_number;
  toStdString s := s;
  fromStdString s := s;
  fromUtf8 s := s;
  hexArg v := QStringLiteral ("0x" +:+ hex_field 8 v);
  tr := QStringLiteral;
  replacePattern _ _ _ s := s
|}.

Lemma ascii_index_reverse before c after :
  c ∉ after -> forall i,
  ascii_index (reverse after ++ c :: before) c i = i + blen after.
Proof.
  intros Hc i. rewrite <- (reverse_involutive after) in Hc.
  rewrite elem_of_reverse in Hc.
  replace (blen after) with (blen (reverse after)) by (unfold blen; by rewrite length_reverse).
  revert i Hc. induction (reverse after) as [|x s IH]; intros i Hc; cbn.
  - rewrite Z.eqb_refl. unfold blen. cbn. lia.
  - rewrite not_elem_of_cons in Hc. rewrite (proj2 (Z.eqb_neq x c)) by (intros ->; tauto).
    rewrite IH by tauto. unfold blen. cbn. lia.
Qed.

Lemma ascii_index_bound s c i : 0 <= i -> ascii_index s c i = -1 \/ 0 <= ascii_index s c i.
Proof.
  revert i. induction s as [|x s IH]; intros i Hi; cbn; [by left|].
  destruct (x =? c); [by right|apply IH; lia].
Qed.

Lemma ascii_replace_skip skip s before after :
  (skip <= length s)%nat ->
  ascii_replace skip s before after = ascii_replace 0 (drop skip s) before after.
Proof.
  revert s. induction skip as [|skip IH]; intros s Hs; [by rewrite drop_0|].
  destruct s as [|c s]; cbn in *; [lia|]. rewrite IH by lia. done.
Qed.

#[export] Instance ascii_qt_laws : QtLaws.
Proof.
  split; cbn; try done.
  - intros s t. split.
    + induction s as [|c s IH]; cbn; intros Hs%orb_true_iff; destruct Hs as [Hs|Hs];
        try (apply bool_decide_eq_true in Hs as [k ->]; by exists [], k); [done|].
      destruct (IH Hs) as (b & a & ->). by exists (c :: b), a.
    + intros (b & a & ->). induction b as [|c b IH]; cbn.
      * destruct (t ++ a) eqn:Ht; cbn; rewrite bool_decide_eq_true_2; try done;
          rewrite <- Ht; by exists a.
      * by rewrite IH, orb_true_r.
  - intros before c after Hc. rewrite reverse_app, reverse_cons, <- app_assoc. cbn.
    rewrite ascii_index_reverse by done. rewrite (proj2 (Z.ltb_ge _ _)) by (unfold blen; lia).
    unfold blen. rewrite length_app. cbn. lia.
  - intros s before after Hb. destruct before as [|b before]; [done|]. cbn.
    rewrite bool_decide_eq_true_2 by (by apply prefix_cons, prefix_app_r). cbn.
    f_equal. rewrite Nat.sub_0_r, ascii_replace_skip by (rewrite length_app; lia).
    by rewrite drop_app_length.
  - intros c s before after Hm. cbn. by rewrite bool_decide_eq_false_2.
  - intros s. by apply bool_decide_eq_true.
  - intros s t Hst%bool_decide_eq_true%(f_equal length). unfold ascii_lower in Hst.
    by rewrite !length_fmap in Hst.
  - intros s t. apply bool_decide_eq_true. unfold ascii_lower. rewrite fmap_app. by eexists.
Qed.
