(* ===== verification/Libsmb2Errors.v ===== *)
(** * Errors of libsmb2 ([Libsmb2ErrorMapper.cpp])

    What a status of the library, which is an [errno] with or without its sign, and
    the text that comes with it are for the program. *)

From S2P Require Export QtText Sockets.
Local Open Scope Z_scope.

(** [<cerrno>] of Linux *)
Definition EPERM : Z := 1.
Definition ENOENT : Z := 2.
Definition EACCES : Z := 13.
Definition EEXIST : Z := 17.
Definition ENODEV : Z := 19.
Definition ENOTDIR : Z := 20.
Definition ENOTEMPTY : Z := 39.
Definition EPROTO : Z := 71.
Definition EOPNOTSUPP : Z := 95.

Inductive Libsmb2ErrorContext : Set :=
| Libsmb2ErrorContext_Connection
| Libsmb2ErrorContext_Directory
| Libsmb2ErrorContext_FileOperation.

Section libsmb2_errors.
Context `{Qt}.

(** [lower.contains(a) || lower.contains(b) || ...] *)
Definition contains_one (lower : QString) (texts : list string) : bool :=
  existsb (fun text => contains lower (QStringLiteral text)) texts.

(** The labels of a [switch]. *)
Definition one_of (err : Z) (labels : list Z) : bool := existsb (Z.eqb err) labels.

Definition errno_of (status : Z) : Z := if status <? 0 then - status else status.

Definition mapConnectionError (status : Z) (details : QString) : AppErrorCode :=
  let err := errno_of status in
  let lower := toLower details in
  if contains_one lower ["logon"; "authentication"; "bad password"]%string
  then App_AuthenticationFailed else
  if contains_one lower
       ["bad network name"; "bad_network_name"; "status_bad_network_name";
        "path not covered"; "path_not_covered"; "status_path_not_covered"; "0xc0000257";
        "tree connect"; "share"]%string
  then App_ShareUnavailable else
  if contains_one lower ["name"; "resolve"; "dns"]%string then App_DnsError else
  if contains_one lower ["protocol"; "dialect"; "negotiate"]%string
  then App_ProtocolUnsupported else
  if one_of err [EACCES; EPERM] then App_AuthenticationFailed else
  if one_of err [ETIMEDOUT] then App_Timeout else
  if one_of err [ENOENT; ENODEV] then App_ShareUnavailable else
  if one_of err [ECONNREFUSED; ECONNRESET; EHOSTUNREACH; ENETUNREACH]
  then App_ServerUnavailable else
  if one_of err [EPROTONOSUPPORT; EPROTO; EOPNOTSUPP] then App_ProtocolUnsupported else
  App_NetworkError.

Definition mapDirectoryError (status : Z) (details : QString) : AppErrorCode :=
  let err := errno_of status in
  let lower := toLower details in
  if contains_one lower ["permission"; "access denied"]%string
  then App_PermissionDenied else
  if contains_one lower
       ["bad network name"; "bad_network_name"; "path not covered"; "path_not_covered";
        "status_path_not_covered"; "0xc0000257"; "tree connect"; "share"]%string
  then App_ShareUnavailable else
  if contains_one lower ["protocol"; "dialect"; "negotiate"]%string
  then App_ProtocolUnsupported else
  if one_of err [EACCES; EPERM] then App_PermissionDenied else
  if one_of err [ETIMEDOUT] then App_Timeout else
  if one_of err [ENOENT] then App_FileNotFound else
  if one_of err [EPROTONOSUPPORT; EPROTO; EOPNOTSUPP] then App_ProtocolUnsupported else
  App_NetworkError.

Definition mapFileOperationError (status : Z) (details : QString) : AppErrorCode :=
  let err := errno_of status in
  let lower := toLower details in
  if contains_one lower ["permission"; "access denied"]%string
  then App_PermissionDenied else
  if contains_one lower
       ["path not covered"; "path_not_covered"; "status_path_not_covered";
        "0xc0000257"]%string
  then App_ShareUnavailable else
  if contains_one lower ["already exists"]%string then App_AlreadyExists else
  if contains_one lower ["not empty"]%string then App_DirectoryNotEmpty else
  if contains_one lower ["protocol"; "dialect"; "negotiate"]%string
  then App_ProtocolUnsupported else
  if one_of err [EACCES; EPERM] then App_PermissionDenied else
  if one_of err [ETIMEDOUT] then App_Timeout else
  if one_of err [ENOENT; ENOTDIR] then App_FileNotFound else
  if one_of err [EEXIST] then App_AlreadyExists else
  if one_of err [ENOTEMPTY] then App_DirectoryNotEmpty else
  if one_of err [EPROTONOSUPPORT; EPROTO; EOPNOTSUPP] then App_ProtocolUnsupported else
  App_NetworkError.

Definition isRetryable (code : AppErrorCode) : bool :=
  bool_decide (code = App_Timeout) || bool_decide (code = App_ServerUnavailable)
  || bool_decide (code = App_NetworkError).

Definition diagnosticHint (code : AppErrorCode) (context : Libsmb2ErrorContext) : QString :=
  match code with
  | App_DnsError => QStringLiteral "Check the server name and DNS resolution."
  | App_ServerUnavailable =>
      QStringLiteral ("Check network connectivity, firewall rules, and whether the SMB " +:+
        "server is reachable.")
  | App_ShareUnavailable =>
      QStringLiteral ("Check that the share or DFS link exists and is exported by the " +:+
        "server. If this path is a DFS namespace, use the resolved target or " +:+
        "install smbclient so the DFS resolver can find it.")
  | App_AuthenticationFailed =>
      QStringLiteral ("Check username, domain or workgroup, password, and guest access " +:+
        "settings.")
  | App_PermissionDenied =>
      match context with
      | Libsmb2ErrorContext_Connection =>
          QStringLiteral ("Credentials were rejected or do not allow access to this " +:+
            "share.")
      | _ =>
          QStringLiteral ("The credentials do not allow this operation on the " +:+
            "selected path.")
      end
  | App_Timeout =>
      QStringLiteral ("Check server responsiveness and consider increasing the operation " +:+
        "timeout.")
  | App_ProtocolUnsupported =>
      QStringLiteral "Check SMB dialect/version requirements and server capabilities."
  | App_FileNotFound => QStringLiteral "Check that the remote path still exists."
  | App_AlreadyExists =>
      QStringLiteral "Choose another target name or overwrite explicitly."
  | App_DirectoryNotEmpty =>
      QStringLiteral "Delete directory contents before removing it."
  | _ => []
  end.

Definition mapLibsmb2Error (status : Z) (details : QString)
    (context : Libsmb2ErrorContext) : AppErrorCode :=
  match context with
  | Libsmb2ErrorContext_Connection => mapConnectionError status details
  | Libsmb2ErrorContext_Directory => mapDirectoryError status details
  | Libsmb2ErrorContext_FileOperation => mapFileOperationError status details
  end.

Definition makeLibsmb2Error (status : Z) (details : QString)
    (context : Libsmb2ErrorContext) (sanitizer : LogSanitizer) : AppError :=
  let code := mapLibsmb2Error status details context in
  let hint := diagnosticHint code context in
  let sanitizedDetails := sanitize_message sanitizer details in
  let sanitizedDetails :=
    if isEmpty hint then sanitizedDetails else
    (if isEmpty sanitizedDetails then sanitizedDetails
     else sanitizedDetails ++ QStringLiteral " ")
    ++ QStringLiteral ("hint=" +:+ quote) ++ hint ++ QStringLiteral quote in
  let error := fromCode code ErrorCategory_Smb sanitizedDetails (isRetryable code) in
  if isEmpty hint then error else
  mkAppError (ae_code error) (ae_category error)
    (ae_userMessage error ++ QStringLiteral " " ++ hint)
    (ae_sanitizedTechnicalDetails error) (ae_retryable error).

(** ** What is reported *)

(** The codes that come out of the mapping: nothing is a success, and what failed
    with the connection is never said to be a matter of permissions or of a file. *)
Definition reported_code (context : Libsmb2ErrorContext) (code : AppErrorCode) : bool :=
  match context with
  | Libsmb2ErrorContext_Connection =>
      bool_decide (code ∈ [App_AuthenticationFailed; App_ShareUnavailable; App_DnsError;
        App_ProtocolUnsupported; App_Timeout; App_ServerUnavailable; App_NetworkError])
  | Libsmb2ErrorContext_Directory =>
      bool_decide (code ∈ [App_PermissionDenied; App_ShareUnavailable;
        App_ProtocolUnsupported; App_Timeout; App_FileNotFound; App_NetworkError])
  | Libsmb2ErrorContext_FileOperation =>
      bool_decide (code ∈ [App_PermissionDenied; App_ShareUnavailable; App_AlreadyExists;
        App_DirectoryNotEmpty; App_ProtocolUnsupported; App_Timeout; App_FileNotFound;
        App_NetworkError])
  end.

Lemma mapLibsmb2Error_reported status details context :
  reported_code context (mapLibsmb2Error status details context) = true.
Proof.
  destruct context; cbn [mapLibsmb2Error]; unfold mapConnectionError, mapDirectoryError,
    mapFileOperationError; cbv zeta;
  repeat (destruct (contains_one _ _); [done|]); by repeat (destruct (one_of _ _); [done|]).
Qed.

(** The sign of a status does not matter. *)
Lemma mapLibsmb2Error_sign status details context :
  mapLibsmb2Error (- status) details context = mapLibsmb2Error status details context.
Proof.
  assert (errno_of (- status) = errno_of status) as He.
  { unfold errno_of. destruct (Z.ltb_spec (- status) 0), (Z.ltb_spec status 0); lia. }
  destruct context; cbn [mapLibsmb2Error]; unfold mapConnectionError, mapDirectoryError,
    mapFileOperationError; by rewrite He.
Qed.

(** Every error says what the user may do, unless the network failed without a
    reason; it may be tried again exactly where nothing was refused. *)
Theorem libsmb2_error_explained status details context sanitizer :
  let e := makeLibsmb2Error status details context sanitizer in
  hasError e = true /\ ae_category e = ErrorCategory_Smb /\
  ae_retryable e = isRetryable (ae_code e) /\
  (ae_code e = App_NetworkError \/
   exists hint, hint <> [] /\
     ae_userMessage e = defaultUserMessage (ae_code e) ++ QStringLiteral " " ++ hint).
Proof.
  cbv zeta. unfold makeLibsmb2Error.
  pose proof (mapLibsmb2Error_reported status details context) as Hr.
  set (code := mapLibsmb2Error status details context) in *. clearbody code.
  destruct context, code; try done;
    (split_and!; [done..|]; first [by left|right; eexists; split; [|reflexivity]; done]).
Qed.

End libsmb2_errors.
