(* ===== verification/DfsPaths.v ===== *)
(** * Paths of the DFS client ([DfsResolvingSmbClient.cpp])

    The functions on remote paths, and what they are on the lists of segments
    that paths spell: [to_path] writes a list of segments, [path_segments] reads
    one, and every function here is a function on segments in between. *)

From S2P Require Export QtText Session.
Local Open Scope Z_scope.

Definition kSlash : Z := 0x2F.

Section dfs_paths.
Context `{Qt}.

(** ** The functions *)

Definition double_slash : QString := [kSlash; kSlash].

(** The loop over runs of separators; the path gets shorter each time. *)
Fixpoint collapse_slashes (fuel : nat) (path : QString) : QString :=
  match fuel with
  | O => path
  | S fuel =>
      if contains path double_slash
      then collapse_slashes fuel (replaceText path double_slash [kSlash]) else path
  end.

Fixpoint chop_slashes (fuel : nat) (path : QString) : QString :=
  match fuel with
  | O => path
  | S fuel =>
      if (1 <? blen path) && endsWith path kSlash
      then chop_slashes fuel (chop path 1) else path
  end.

(** The same without keeping the first. *)
Fixpoint chop_trailing (fuel : nat) (path : QString) : QString :=
  match fuel with
  | O => path
  | S fuel => if endsWith path kSlash then chop_trailing fuel (chop path 1) else path
  end.

Definition dfs_normalizeRemotePath (remotePath : QString) : QString :=
  let remotePath := trimmed remotePath in
  let remotePath := replaceChar remotePath kBackslash kSlash in
  let remotePath := collapse_slashes (length remotePath) remotePath in
  let remotePath := if isEmpty remotePath then [kSlash] else remotePath in
  let remotePath :=
    if negb (startsWith remotePath kSlash) then kSlash :: remotePath else remotePath in
  chop_slashes (length remotePath) remotePath.

Definition isPathPrefix (prefix remotePath : QString) : bool :=
  let normalizedPrefix := dfs_normalizeRemotePath prefix in
  let normalizedPath := dfs_normalizeRemotePath remotePath in
  bool_decide (normalizedPrefix = [kSlash]) ||
  bool_decide (normalizedPath = normalizedPrefix) ||
  startsWithText normalizedPath (normalizedPrefix ++ [kSlash]).

Definition suffixAfterPrefix (remotePath prefix : QString) : QString :=
  let normalizedPath := dfs_normalizeRemotePath remotePath in
  let normalizedPrefix := dfs_normalizeRemotePath prefix in
  if bool_decide (normalizedPrefix = [kSlash]) then
    if bool_decide (normalizedPath = [kSlash]) then [] else normalizedPath
  else if bool_decide (normalizedPath = normalizedPrefix) then []
  else if negb (startsWithText normalizedPath (normalizedPrefix ++ [kSlash])) then []
  else midFrom normalizedPath (blen normalizedPrefix).

Definition dfs_joinRemotePath (prefix suffix : QString) : QString :=
  let normalizedPrefix := dfs_normalizeRemotePath prefix in
  if isEmpty suffix then normalizedPrefix else
  let normalizedSuffix := replaceChar suffix kBackslash kSlash in
  let normalizedSuffix :=
    if negb (startsWith normalizedSuffix kSlash)
    then kSlash :: normalizedSuffix else normalizedSuffix in
  let normalizedSuffix := chop_slashes (length normalizedSuffix) normalizedSuffix in
  if bool_decide (normalizedPrefix = [kSlash]) then normalizedSuffix
  else normalizedPrefix ++ normalizedSuffix.

Definition parentRemotePath (remotePath : QString) : QString :=
  let normalized := dfs_normalizeRemotePath remotePath in
  let slash := lastIndexOf normalized kSlash in
  if slash <=? 0 then [kSlash] else left normalized slash.

(** ** Segments *)

Definition segments_of (s : QString) : list QString :=
  filter (fun w => w <> []) (split_on kSlash s).
Definition spell (l : list QString) : QString := mjoin (cons kSlash <$> l).
Definition to_path (l : list QString) : QString :=
  match l with [] => [kSlash] | _ => spell l end.

Definition path_segments (p : QString) : list QString :=
  segments_of (replaceChar (trimmed p) kBackslash kSlash).

Definition segment (w : QString) : Prop := w <> [] /\ (kSlash ∉ w) /\ (kBackslash ∉ w).

(** A path whose last segment does not end with a space reads as it was written. *)
Definition neat (l : list QString) : Prop :=
  forall w c, last l = Some w -> last w = Some c -> isSpace c = false.

Lemma split_on_sep c a b : split_on c (a ++ c :: b) = split_on c a ++ split_on c b.
Proof.
  induction a as [|x a IH]; cbn; [by rewrite Z.eqb_refl|].
  destruct (x =? c); [by rewrite IH|]. rewrite IH.
  destruct (split_on c a) eqn:Ha; [|done]. by destruct a; cbn in Ha; repeat case_match.
Qed.

Lemma split_on_free c a : c ∉ a -> split_on c a = [a].
Proof.
  induction a as [|x a IH]; intros Hc; [done|]. rewrite not_elem_of_cons in Hc. cbn.
  rewrite (proj2 (Z.eqb_neq x c)) by (intros ->; tauto). by rewrite IH by tauto.
Qed.

Lemma split_on_cons c s : exists w ws, split_on c s = w :: ws.
Proof.
  induction s as [|x s (w & ws & IH)]; cbn; [by eauto|]. destruct (x =? c); [by eauto|].
  rewrite IH. eauto.
Qed.

Lemma split_on_parts c s : Forall (fun w => c ∉ w) (split_on c s).
Proof.
  induction s as [|x s IH]; cbn; [repeat constructor; by apply not_elem_of_nil|].
  destruct (Z.eqb_spec x c); [constructor; [by apply not_elem_of_nil|done]|].
  destruct (split_on c s) as [|w ws]; [repeat constructor|].
  - apply not_elem_of_cons. by split; [|apply not_elem_of_nil].
  - inversion_clear IH. constructor; [|done]. apply not_elem_of_cons. by split.
Qed.

Lemma spell_split s : kSlash :: s = spell (split_on kSlash s).
Proof.
  induction s as [|x s IH]; [done|]. cbn [split_on]. destruct (Z.eqb_spec x kSlash) as [->|Hx].
  - cbn. by rewrite IH.
  - destruct (split_on_cons kSlash s) as (w & ws & Hs). rewrite Hs in IH |- *.
    cbn in IH |- *. injection IH as ->. done.
Qed.

Lemma spell_app a b : spell (a ++ b) = spell a ++ spell b.
Proof. unfold spell. by rewrite fmap_app, join_app. Qed.

Lemma spell_cons w l : spell (w :: l) = kSlash :: w ++ spell l.
Proof. done. Qed.

Lemma segments_of_slash s : segments_of (kSlash :: s) = segments_of s.
Proof. done. Qed.

Lemma segments_of_sep a b :
  segments_of (a ++ kSlash :: b) = segments_of a ++ segments_of b.
Proof. unfold segments_of. by rewrite split_on_sep, filter_app. Qed.

Lemma segments_of_segment w : segment w -> segments_of w = [w].
Proof.
  intros (Hne & Hs & _). unfold segments_of. rewrite split_on_free by done.
  by rewrite filter_cons_True.
Qed.

Lemma segments_of_spell l : Forall segment l -> segments_of (spell l) = l.
Proof.
  intros Hl. induction Hl as [|w l Hw Hl IH]; [done|]. rewrite spell_cons, segments_of_slash.
  destruct l as [|v l]; [by rewrite app_nil_r, segments_of_segment|].
  rewrite spell_cons, segments_of_slash in IH.
  by rewrite spell_cons, segments_of_sep, segments_of_segment, IH.
Qed.

Lemma segments_of_to_path l : Forall segment l -> segments_of (to_path l) = l.
Proof. destruct l; [done|]. apply segments_of_spell. Qed.

Lemma split_valid s :
  (kBackslash ∉ s) -> Forall segment (segments_of s).
Proof.
  intros Hb. apply Forall_forall. intros w [Hne Hw]%list_elem_of_filter. split; [done|].
  split; [by apply (proj1 (Forall_forall _ _) (split_on_parts kSlash s))|].
  intros Hin. apply Hb. assert (kBackslash ∈ kSlash :: s) as Hs.
  { rewrite spell_split. unfold spell. apply list_elem_of_join. exists (kSlash :: w).
    split; [by apply elem_of_cons; right|by apply list_elem_of_fmap_2]. }
  by apply elem_of_cons in Hs as [|].
Qed.

(** [a] and [b] read alike, and so they do behind any text. *)
Definition alike (a b : QString) : Prop := exists w x y,
  split_on kSlash a = w :: x /\ split_on kSlash b = w :: y /\
  filter (fun w => w <> []) x = filter (fun w => w <> []) y.

Lemma alike_refl a : alike a a.
Proof. destruct (split_on_cons kSlash a) as (w & ws & Ha). by exists w, ws, ws. Qed.

Lemma alike_segments a b : alike a b -> segments_of a = segments_of b.
Proof.
  intros (w & x & y & Ha & Hb & Hf). unfold segments_of. rewrite Ha, Hb.
  destruct (decide (w = [])) as [->|Hw]; [done|].
  rewrite !filter_cons_True by done. by f_equal.
Qed.

Lemma alike_cons c a b : alike a b -> alike (c :: a) (c :: b).
Proof.
  intros Hab. destruct (decide (c = kSlash)) as [->|Hc].
  - exists [], (split_on kSlash a), (split_on kSlash b). split_and!; [done..|].
    by apply (alike_segments a b).
  - destruct Hab as (w & x & y & Ha & Hb & Hf). exists (c :: w), x, y. cbn.
    by rewrite (proj2 (Z.eqb_neq c kSlash)), Ha, Hb by done.
Qed.

Context `{!QtLaws}.

Lemma double_slash_dec s : {t | s = double_slash ++ t} + {~ double_slash `prefix_of` s}.
Proof.
  destruct s as [|a [|b s]]; [right; by intros [? ?]..|].
  destruct (decide (a = kSlash /\ b = kSlash)) as [[-> ->]|Hn]; [left; by exists s|right].
  intros [t Ht]. apply Hn. cbn in Ht. by simplify_eq.
Qed.

(** Replacing runs keeps the segments and shortens a path that has one. *)
Lemma replace_slashes s :
  let t := replaceText s double_slash [kSlash] in
  alike s t /\ (length t <= length s)%nat /\
  (contains s double_slash = true -> (length t < length s)%nat).
Proof.
  cbv zeta. remember (length s) as n eqn:Hn. revert s Hn.
  induction (lt_wf n) as [n _ IH]. intros s ->.
  destruct (double_slash_dec s) as [[t ->]|Hmiss].
  - rewrite replaceText_hit by done.
    destruct (IH (length t)) with (s := t) as (Ha & Hl & _); [cbn; lia|done|].
    rewrite !length_app. cbn in *. split_and!; [|lia|lia].
    exists [], (split_on kSlash (kSlash :: t)),
      (split_on kSlash (replaceText t double_slash [kSlash])).
    split_and!; [done..|]. by apply alike_segments in Ha.
  - destruct s as [|c s].
    { rewrite replaceText_end. split_and!; [apply alike_refl|done|].
      rewrite contains_infix. by intros ([|] & a & ?). }
    rewrite replaceText_miss by done.
    destruct (IH (length s)) with (s := s) as (Ha & Hl & Hlt); [cbn; lia|done|].
    cbn. split_and!; [by apply alike_cons|lia|].
    rewrite contains_infix in Hlt |- *. intros ([|d b] & a & Hs).
    { by destruct Hmiss; exists a. }
    injection Hs as -> ->. apply -> Nat.succ_lt_mono. apply Hlt. by exists b, a.
Qed.

Lemma collapse_slashes_spec fuel s :
  (length s <= fuel)%nat ->
  segments_of (collapse_slashes fuel s) = segments_of s /\
  contains (collapse_slashes fuel s) double_slash = false.
Proof.
  revert s. induction fuel as [|fuel IH]; intros s Hs; cbn.
  - destruct s; [|cbn in Hs; lia]. split; [done|].
    apply not_true_iff_false. rewrite contains_infix. by intros ([|] & a & ?).
  - destruct (contains s double_slash) eqn:Hc; [|done].
    destruct (replace_slashes s) as (Ha & _ & Hl). specialize (Hl Hc).
    rewrite (alike_segments _ _ Ha). apply IH. lia.
Qed.

Lemma filter_nonempty (l : list QString) :
  Forall (fun w => w <> []) l -> filter (fun w => w <> []) l = l.
Proof.
  intros Hl. induction Hl as [|w l Hw Hl IH]; [done|].
  rewrite filter_cons_True by done. by f_equal.
Qed.

(** Without runs only the last part of a path can be empty. *)
Lemma split_without_runs s :
  contains (kSlash :: s) double_slash = false ->
  exists l e, split_on kSlash s = l ++ [e] /\ Forall (fun w => w <> []) l.
Proof.
  intros Hc. destruct (split_on kSlash s) as [|e l _] eqn:Hs using rev_ind.
  { destruct (split_on_cons kSlash s) as (w & ws & ?). congruence. }
  exists l, e. split; [done|]. apply Forall_forall. intros w Hin ->.
  apply list_elem_of_split in Hin as (a & b & ->).
  apply not_true_iff_false in Hc. apply Hc, contains_infix. exists (spell a).
  rewrite spell_split, Hs, <- app_assoc, spell_app. cbn [app]. rewrite spell_cons. cbn [app].
  destruct b as [|w b]; cbn [app]; rewrite spell_cons; by eexists.
Qed.

Lemma segment_end w : segment w -> exists c, last w = Some c /\ c <> kSlash.
Proof.
  intros (Hne & Hs & _). destruct w as [|c w _] using rev_ind; [done|].
  exists c. rewrite last_snoc. split; [done|]. intros ->. apply Hs.
  apply elem_of_app. right. by apply list_elem_of_singleton.
Qed.

Lemma last_spell l w : last l = Some w -> w <> [] -> last (spell l) = last w.
Proof.
  intros Hl Hw. destruct l as [|v l _] using rev_ind; [done|].
  rewrite last_snoc in Hl. injection Hl as ->. rewrite spell_app. cbn.
  rewrite app_nil_r, last_app, last_cons. by destruct (last w) eqn:Hw'; [|apply last_None in Hw'].
Qed.

(** A path that spells segments has no separator to chop. *)
Lemma chop_slashes_spell fuel l :
  Forall segment l -> chop_slashes fuel (to_path l) = to_path l.
Proof.
  intros Hl. destruct fuel as [|fuel]; [done|]. cbn [chop_slashes].
  destruct l as [|w l _] using rev_ind; [done|].
  destruct (segment_end w) as (c & Hc & Hne).
  { apply Forall_app in Hl as [_ Hw]. by inversion Hw. }
  assert (endsWith (to_path (l ++ [w])) kSlash = false) as ->.
  { rewrite endsWith_char. apply bool_decide_eq_false_2.
    assert (to_path (l ++ [w]) = spell (l ++ [w])) as -> by (by destruct l).
    rewrite (last_spell _ w), Hc; [congruence|apply last_snoc|by intros ->]. }
  by rewrite andb_false_r.
Qed.

Lemma chop_slashes_spec s :
  contains (kSlash :: s) double_slash = false -> Forall segment (segments_of s) ->
  chop_slashes (length (kSlash :: s)) (kSlash :: s) = to_path (segments_of s).
Proof.
  intros Hc Hv.
  destruct (split_without_runs s Hc) as (l & e & Hs & Hl).
  assert (segments_of s = l ++ if decide (e = []) then [] else [e]) as Hseg.
  { unfold segments_of. rewrite Hs, filter_app, filter_nonempty by done. f_equal.
    destruct (decide (e = [])) as [->|He]; [done|by rewrite filter_cons_True]. }
  rewrite Hseg in Hv |- *. rewrite spell_split, Hs.
  destruct (decide (e = [])) as [->|He].
  2: { replace (spell (l ++ [e])) with (to_path (l ++ [e])) by by destruct l.
       by apply chop_slashes_spell. }
  rewrite app_nil_r in Hv |- *. rewrite spell_app.
  replace (length (spell l ++ _)) with (S (length (spell l))) by (rewrite length_app; cbn; lia).
  cbn [chop_slashes].
  set (q := spell l ++ _). assert (endsWith q kSlash = true) as ->.
  { rewrite endsWith_char. apply bool_decide_eq_true_2. unfold q. by rewrite last_app. }
  destruct l as [|w l]; [by rewrite andb_true_r|].
  rewrite (proj2 (Z.ltb_lt 1 _)) by (unfold blen, q; cbn; rewrite !length_app; cbn; lia).
  cbn [andb]. rewrite chop_take by lia. unfold q.
  replace (length _ - _)%nat with (length (spell (w :: l))) by (rewrite length_app; cbn; lia).
  rewrite take_app_length. by apply (chop_slashes_spell _ (w :: l)).
Qed.

Lemma normalized_no_backslash p :
  kBackslash ∉ replaceChar p kBackslash kSlash.
Proof.
  rewrite replaceChar_each. intros (c & Hc & _)%list_elem_of_fmap.
  destruct (Z.eqb_spec c kBackslash); [done|congruence].
Qed.

(** What normalisation does: it writes the segments that it reads. *)
Lemma normalize_segments p :
  dfs_normalizeRemotePath p = to_path (path_segments p).
Proof.
  unfold dfs_normalizeRemotePath, path_segments.
  set (q := replaceChar (trimmed p) kBackslash kSlash).
  assert (kBackslash ∉ q) as Hv%split_valid by apply normalized_no_backslash.
  destruct (collapse_slashes_spec (length q) q) as [Hs Hc]; [done|].
  set (r := collapse_slashes (length q) q) in *. rewrite <- Hs in Hv |- *.
  destruct r as [|c r]; [by rewrite startsWith_char; apply (chop_slashes_spell 1 [])|].
  cbn [isEmpty]. rewrite startsWith_char.
  destruct (Z.eqb_spec c kSlash) as [->|Hne]; cbn [negb]; [exact (chop_slashes_spec r Hc Hv)|].
  rewrite chop_slashes_spec; [done| |done].
  apply not_true_iff_false in Hc. apply not_true_iff_false. rewrite contains_infix in Hc |- *.
  intros ([|d b] & a & He); cbn in He; [congruence|].
  injection He as _ He. apply Hc. exists b, a. exact He.
Qed.

Lemma path_segments_valid p : Forall segment (path_segments p).
Proof. apply split_valid, normalized_no_backslash. Qed.

(** ** The functions on segments *)

Lemma replaceChar_absent s before after : (before ∉ s) -> replaceChar s before after = s.
Proof.
  intros Hs. rewrite replaceChar_each. induction s as [|c s IH]; [done|].
  rewrite not_elem_of_cons in Hs. cbn. rewrite (proj2 (Z.eqb_neq c before)) by (intros ->; tauto).
  f_equal. apply IH. tauto.
Qed.

Lemma spell_no_backslash l : Forall segment l -> kBackslash ∉ spell l.
Proof.
  intros Hl (x & Hx & Hin)%list_elem_of_join. apply list_elem_of_fmap in Hin as (w & -> & Hw).
  apply (proj1 (Forall_forall _ _) Hl) in Hw as (_ & _ & Hb).
  apply elem_of_cons in Hx as [Hx|Hx]; done.
Qed.

Lemma to_path_no_backslash l : Forall segment l -> kBackslash ∉ to_path l.
Proof.
  destruct l as [|w l]; intros Hl; [|by apply spell_no_backslash].
  intros Hin%list_elem_of_singleton. done.
Qed.

Lemma trimmed_solid c s d :
  isSpace c = false -> isSpace d = false -> last (c :: s) = Some d ->
  trimmed (c :: s) = c :: s.
Proof.
  intros Hc Hd Hl. rewrite trimmed_strips. cbn [drop_while]. rewrite Hc.
  destruct (c :: s) as [|e t _] eqn:He using rev_ind; [done|].
  rewrite last_snoc in Hl. injection Hl as ->.
  rewrite reverse_snoc. cbn [drop_while]. by rewrite Hd, reverse_cons, reverse_involutive.
Qed.

Lemma to_path_cons l : exists t, to_path l = kSlash :: t.
Proof. destruct l; by eexists. Qed.

Lemma neat_spelling l : Forall segment l -> neat l -> path_segments (to_path l) = l.
Proof.
  intros Hl Hn. unfold path_segments.
  assert (trimmed (to_path l) = to_path l) as ->.
  { destruct isSpace_slashes as [Hs _]. destruct (to_path_cons l) as [t Ht]. rewrite Ht.
    destruct (last (kSlash :: t)) as [d|] eqn:Hd; [|by apply last_None in Hd].
    apply (trimmed_solid _ _ d); [done| |done].
    destruct l as [|w l _] using rev_ind; [by cbn in Ht; simplify_eq/=|].
    apply (Hn w); [apply last_snoc|]. rewrite <- Ht in Hd.
    rewrite <- (last_spell (l ++ [w])); [by destruct l|apply last_snoc|].
    apply Forall_app in Hl as [_ Hw]. inversion_clear Hw as [|? ? [? _]]. done. }
  rewrite replaceChar_absent by by apply to_path_no_backslash.
  by apply segments_of_to_path.
Qed.

Lemma to_path_root l : Forall segment l -> to_path l = [kSlash] <-> l = [].
Proof.
  intros Hl. split; [|by intros ->]. destruct Hl as [|w l [Hne _] Hl]; [done|].
  destruct w; [done|]. discriminate.
Qed.

Lemma to_path_inj a b : Forall segment a -> Forall segment b -> to_path a = to_path b -> a = b.
Proof. intros Ha Hb He. by rewrite <- (segments_of_to_path a), He, segments_of_to_path. Qed.

(** A spelled path and a separator begin another where the segments do. *)
Lemma free_prefix (x y : list Z) r z :
  (kSlash ∉ x) -> (kSlash ∉ y) -> (z = [] \/ exists z', z = kSlash :: z') ->
  (x ++ kSlash :: r) `prefix_of` (y ++ z) -> x = y /\ (kSlash :: r) `prefix_of` z.
Proof.
  revert y. induction x as [|c x IH]; intros [|d y] Hx Hy Hz Hp; cbn [app] in Hp |- *.
  - done.
  - apply prefix_cons_inv_1 in Hp as <-. destruct Hy. by left.
  - destruct Hz as [->|[z' ->]]; [by apply prefix_nil_not in Hp|].
    apply prefix_cons_inv_1 in Hp as ->. destruct Hx. by left.
  - pose proof (prefix_cons_inv_1 _ _ _ _ Hp) as ->. apply prefix_cons_inv_2 in Hp.
    rewrite not_elem_of_cons in Hx, Hy.
    destruct (IH y) as [-> ?]; tauto.
Qed.

Lemma spell_end a : exists r, spell a ++ [kSlash] = kSlash :: r.
Proof. destruct a; by eexists. Qed.

Lemma spell_begin a : spell a = [] \/ exists r, spell a = kSlash :: r.
Proof. destruct a; [by left|right]. by eexists. Qed.

Lemma spell_prefix a b :
  Forall segment a -> Forall segment b ->
  (spell a ++ [kSlash]) `prefix_of` spell b <-> a `prefix_of` b /\ a <> b.
Proof.
  intros Ha. revert b. induction Ha as [|x a Hx Ha IH]; intros b Hb.
  - destruct b as [|y b]; [split; [by intros ?%prefix_nil_not|tauto]|].
    split; [intros _; split; [by apply prefix_nil|done]|intros _; by eexists].
  - destruct Hb as [|y b Hy Hb]; [split; [by intros ?%prefix_nil_not|by intros [?%prefix_nil_not ?]]|].
    destruct (spell_end a) as [r Hr].
    rewrite !spell_cons. cbn [app]. rewrite <- app_assoc, Hr. split.
    + intros Hp%prefix_cons_inv_2.
      apply free_prefix in Hp as [-> Hp]; [|apply Hx|apply Hy|by apply spell_begin].
      rewrite <- Hr in Hp. apply IH in Hp as [Hp Hne]; [|done].
      split; [by apply prefix_cons|congruence].
    + intros [Hp Hne]. pose proof (prefix_cons_inv_1 _ _ _ _ Hp) as ->.
      apply prefix_cons_inv_2 in Hp. apply prefix_cons, prefix_app. rewrite <- Hr.
      apply IH; [done|]. split; congruence.
Qed.

Lemma spell_drop a b :
  a `prefix_of` b -> drop (length (spell a)) (spell b) = spell (drop (length a) b).
Proof. intros [k ->]. by rewrite spell_app, !drop_app_length. Qed.

Lemma startsWith_path l a :
  Forall segment l -> Forall segment a -> a <> [] ->
  startsWithText (to_path l) (to_path a ++ [kSlash]) = bool_decide (a `prefix_of` l /\ a <> l).
Proof.
  intros Hl Ha Hne. rewrite startsWithText_prefix. apply bool_decide_ext.
  destruct a as [|x a]; [done|]. destruct l as [|w l]; [|by apply spell_prefix].
  split; [|by intros [?%prefix_nil_not _]]. intros [k Hk]. cbn in Hk. exfalso.
  inversion_clear Ha as [|? ? [Hx _] _]. destruct x; [done|]. discriminate.
Qed.

(** [isPathPrefix] is the order of the segments. *)
Lemma isPathPrefix_segments prefix path :
  isPathPrefix prefix path =
    bool_decide (path_segments prefix `prefix_of` path_segments path).
Proof.
  unfold isPathPrefix. rewrite !normalize_segments.
  pose proof (path_segments_valid prefix) as Ha. pose proof (path_segments_valid path) as Hb.
  destruct (path_segments prefix) as [|x a] eqn:Hp.
  { rewrite (bool_decide_eq_true_2 _ (prefix_nil _)). done. }
  rewrite <- Hp in *. assert (path_segments prefix <> []) as Hne by congruence.
  rewrite startsWith_path by done.
  rewrite (bool_decide_eq_false_2 (to_path (path_segments prefix) = [kSlash]))
    by by rewrite to_path_root.
  cbn [orb]. apply eq_true_iff_eq. rewrite orb_true_iff, !bool_decide_eq_true. split.
  - intros [He|[? _]]; [|done]. apply to_path_inj in He; [|done..]. by rewrite He.
  - intros Hpre. destruct (decide (path_segments prefix = path_segments path)) as [<-|];
      [by left|by right].
Qed.

Lemma suffixAfterPrefix_segments path prefix :
  suffixAfterPrefix path prefix =
    if decide (path_segments prefix `prefix_of` path_segments path)
    then spell (drop (length (path_segments prefix)) (path_segments path)) else [].
Proof.
  unfold suffixAfterPrefix. rewrite !normalize_segments.
  pose proof (path_segments_valid prefix) as Ha. pose proof (path_segments_valid path) as Hb.
  rewrite (bool_decide_ext _ _ (to_path_root _ Ha)), (bool_decide_ext _ _ (to_path_root _ Hb)).
  destruct (path_segments prefix) as [|x a] eqn:Hp.
  { rewrite decide_True by apply prefix_nil. cbn [length]. rewrite drop_0.
    by destruct (path_segments path). }
  rewrite <- Hp in *. assert (path_segments prefix <> []) as Hne by congruence.
  rewrite bool_decide_eq_false_2 by done. rewrite startsWith_path by done.
  case_bool_decide as He.
  { apply to_path_inj in He; [|done..]. rewrite He, decide_True, drop_all by done. done. }
  assert (path_segments prefix <> path_segments path) as Hd by (intros Heq; apply He; by rewrite Heq).
  case_bool_decide as Hd2; cbn [negb].
  - rewrite decide_True by apply Hd2. rewrite midFrom_drop by (unfold blen; lia).
    unfold blen. rewrite Nat2Z.id, <- spell_drop by apply Hd2. f_equal; [f_equal|].
    + by destruct (path_segments prefix).
    + destruct Hd2 as [[k Hk] _]. rewrite Hk. by destruct (path_segments prefix).
  - rewrite decide_False; [done|]. tauto.
Qed.

Lemma joinRemotePath_segments prefix l :
  Forall segment l ->
  dfs_joinRemotePath prefix (spell l) = to_path (path_segments prefix ++ l).
Proof.
  intros Hl. unfold dfs_joinRemotePath. rewrite normalize_segments.
  destruct l as [|w l]; [by rewrite app_nil_r|]. cbn [isEmpty spell].
  change (spell (w :: l)) with (to_path (w :: l)). set (m := w :: l) in *.
  destruct (to_path_cons m) as [t Ht].
  assert (isEmpty (to_path m) = false) as -> by by rewrite Ht.
  rewrite replaceChar_absent by by apply to_path_no_backslash.
  rewrite startsWith_char. rewrite Ht. rewrite Z.eqb_refl. cbn [negb]. rewrite <- Ht.
  rewrite chop_slashes_spell by done.
  rewrite (bool_decide_ext _ _ (to_path_root _ (path_segments_valid prefix))).
  case_bool_decide as Hp; [by rewrite Hp|].
  destruct (path_segments prefix) as [|x a]; [done|]. cbn [to_path app].
  change (x :: a ++ m) with ((x :: a) ++ m). by rewrite spell_app.
Qed.

Lemma parentRemotePath_segments path :
  parentRemotePath path = to_path (take (length (path_segments path) - 1) (path_segments path)).
Proof.
  unfold parentRemotePath. rewrite normalize_segments.
  pose proof (path_segments_valid path) as Hv.
  destruct (path_segments path) as [|w l _] using rev_ind; [cbn|].
  { change [kSlash] with ([] ++ kSlash :: []). rewrite (lastIndexOf_char []); [done|].
    by apply not_elem_of_nil. }
  apply Forall_app in Hv as [Hl Hw]. inversion_clear Hw as [|? ? Hw' _].
  destruct Hw' as (Hne & Hs & _).
  replace (to_path (l ++ [w])) with (spell l ++ kSlash :: w).
  2: { replace (to_path (l ++ [w])) with (spell (l ++ [w])) by by destruct l.
       rewrite spell_app. cbn. by rewrite app_nil_r. }
  rewrite lastIndexOf_char by done. rewrite length_app. cbn [length].
  replace (length l + 1 - 1)%nat with (length l) by lia. rewrite take_app_length.
  destruct l as [|x l]; [done|].
  rewrite (proj2 (Z.leb_gt _ _)) by (unfold blen; cbn; lia).
  rewrite left_take by (unfold blen; lia). unfold blen. by rewrite Nat2Z.id, take_app_length.
Qed.

End dfs_paths.
