(* ===== verification/NativeClient.v ===== *)
(** * The native SMB client of the application ([NativeSmbClient.cpp])

    Every operation of [NativeSmbClient] opens a connection of its own, works
    with remote objects and at most one local file, and lets the destructors
    close both.  They are programs that ask ([client], Asking.v): what the
    engine, the local file, the random device, the host name, the cancellation
    token and the progress callback answer is left open.  The engine's part of the interface,
    [remote_op], has the operations of [NativeSmbConnection] (Connector.v), and
    [remote] runs them there. *)

From S2P Require Export Asking DfsPaths OperationQueue TcpTransport Connector NtlmProvider.
Local Open Scope Z_scope.
Local Open Scope comp_scope.

(** ** The application's data *)

Inductive AuthType : Set :=
| AuthType_Password | AuthType_Guest | AuthType_Anonymous | AuthType_CurrentUser.
#[export] Instance AuthType_eq_dec : EqDecision AuthType.
Proof. solve_decision. Defined.

(** [smb::core::Connection], with the members the SMB clients read. *)
Record Connection : Set := mkConnection {
  con_id : QString;
  con_normalizedUri : QString;
  con_server : QString;
  con_share : QString;
  con_domain : QString;
  con_username : QString;
  con_authType : AuthType
}.

(** A pointer to a [CredentialSecret]. *)
Definition secret_pointer : Set := option bytes.

(** [smb::core::OperationContext]: whether it has a token and a callback. *)
Record CoreContext : Set := mkCoreContext {
  cc_cancellationToken : bool;
  cc_progressCallback : bool
}.

Inductive RemoteFileType : Set :=
| RemoteFileType_File | RemoteFileType_Directory | RemoteFileType_Symlink
| RemoteFileType_Unknown.

Record RemoteFileEntry `{Qt} : Set := mkRemoteFileEntry {
  rfe_name : QString;
  rfe_remotePath : QString;
  rfe_type : RemoteFileType;
  rfe_size : Z;
  rfe_modifiedAt : QDateTime;
  rfe_attributes : QString;
  rfe_permissions : QString;
  rfe_isHidden : bool
}.

Arguments mkRemoteFileEntry {_} _ _ _ _ _ _ _ _.

Record SmbShareInfo : Set := mkSmbShareInfo {
  ssi_name : QString;
  ssi_type : QString;
  ssi_comment : QString;
  ssi_hidden : bool;
  ssi_dfs : bool
}.

Record SmbClientCapabilities : Set := mkSmbClientCapabilities {
  canListDirectory : bool;
  canCreateDirectory : bool;
  canRemove : bool;
  canRename : bool;
  canDownload : bool;
  canUpload : bool;
  canCopy : bool;
  canMove : bool;
  canSetBasicMetadata : bool;
  canReadExtendedAttributes : bool;
  canWriteExtendedAttributes : bool;
  canReadSecurityDescriptor : bool;
  canWriteSecurityDescriptor : bool;
  canWatchDirectory : bool;
  canUsePosixMode : bool;
  canUsePosixOwner : bool;
  canBrowseShares : bool;
  unsupportedAdvancedOperationsReason : QString
}.

Record SmbCapabilityReport : Set := mkSmbCapabilityReport {
  scr_serverAvailable : bool;
  scr_shareAvailable : bool;
  scr_dialect : QString;
  scr_signingRequired : bool;
  scr_encryptionSupported : bool;
  scr_encryptionRequired : bool;
  scr_dfsSupported : bool;
  scr_shareDfs : bool;
  scr_shareDfsRoot : bool;
  scr_capabilities : SmbClientCapabilities
}.

(** ** Calls *)

(** The operations of [NativeSmbConnection] the clients use. *)
Inductive remote_op : Set -> Type :=
| ListDirectory (path : bytes) : remote_op NativeDirectoryListing
| StatObject (path : bytes) : remote_op NativeStatResult
| OpenFileForRead (path : bytes) : remote_op NativeFileHandle
| ReadFileChunk (fileId : FileId) (length offset : Z) : remote_op NativeReadResult
| CloseFileHandle (fileId : FileId) : remote_op bool
| ReadFileOnce (path : bytes) (length offset : Z) : remote_op NativeReadResult
| WriteFileOnce (path data : bytes) (offset : Z) : remote_op NativeWriteResult
| CreateDirectory (path : bytes) : remote_op NativeObjectMutationResult
| DeleteObject (path : bytes) (directory : bool) : remote_op NativeObjectMutationResult
| DeleteTree (path : bytes) : remote_op NativeObjectMutationResult
| RenameObject (fromPath toPath : bytes) (replaceIfExists : bool)
    : remote_op NativeObjectMutationResult
| CopyFileServerSide (sourcePath targetPath : bytes) (size : Z)
    : remote_op NativeObjectMutationResult
| ListShares (serverName : bytes) : remote_op NativeShareList
| GetDfsReferrals (requestPath : bytes) : remote_op NativeDfsReferralResult.

(** They are the operations of a connection; [fuel] bounds the listings and
    the depth of a deletion. *)
Definition remote {W} `{World W} (fuel : nat) (context : OperationContext) {A : Set}
    (op : remote_op A) : NativeSmbConnection W -> NativeSmbConnection W * option (comp A) :=
  match op with
  | ListDirectory path => connection_listDirectory context fuel path
  | StatObject path => connection_statObject context path
  | OpenFileForRead path => connection_openFileForRead context path
  | ReadFileChunk fileId length offset =>
      connection_readFileChunk context fileId length offset
  | CloseFileHandle fileId => connection_closeFileHandle context fileId
  | ReadFileOnce path length offset => connection_readFileOnce context path length offset
  | WriteFileOnce path data offset => connection_writeFileOnce context path data offset
  | CreateDirectory path => connection_createDirectory context path
  | DeleteObject path directory => connection_deleteObject context path directory
  | DeleteTree path => connection_deleteTree context fuel path
  | RenameObject fromPath toPath replaceIfExists =>
      connection_renameObject context fromPath toPath replaceIfExists
  | CopyFileServerSide sourcePath targetPath size =>
      connection_copyFileServerSide context sourcePath targetPath size
  | ListShares serverName => connection_listShares context serverName
  | GetDfsReferrals requestPath => connection_getDfsReferrals context requestPath
  end.

(** The methods of the [QFile] of a transfer, its destructor included. *)
Inductive file_op : Set -> Type :=
| OpenWrite (path : QString) : file_op bool
| OpenRead (path : QString) : file_op bool
| WriteBytes (data : bytes) : file_op Z
| ReadBytes (maxSize : Z) : file_op bytes
| AtEnd : file_op bool
| FileSize : file_op Z
| HasError : file_op bool
| ErrorString : file_op QString
| CloseFile : file_op unit.

(** [NativeSmbConnectedState], with the connection it owns by number. *)
Record client_state : Set := mkConnectedState {
  cs_connection : nat;
  cs_negotiated : NegotiatedConnection;
  cs_session : SessionSetupResponse;
  cs_tree : TreeConnectResult
}.

(** [Connect] is [NativeSmbConnector::connect] with a new [DirectTcpTransport]
    and a new [NtlmV2TokenProvider]; [Disconnect] is the destructor of the
    connection. *)
Inductive client_call : Set -> Type :=
| AskCancelled : client_call bool
| ReportCore (progress : CoreTransferProgress) : client_call unit
| RandomDevice : client_call Z
| MachineHostName : client_call QString
| Connect (endpoint : DirectTcpEndpoint) (secret : bytes)
    (tokenOptions : NtlmV2TokenProviderOptions) (options : NativeSmbConnectorOptions)
    (context : OperationContext) : client_call (comp client_state)
| Disconnect (connection : nat) : client_call unit
| Remote (A : Set) (connection : nat) (context : OperationContext) (op : remote_op A)
    : client_call (comp A)
| Local (A : Set) (op : file_op A) : client_call A.
Arguments Remote {A} connection context op.
Arguments Local {A} op.

Abbreviation client := (asking client_call).

(** A method of the client: it returns a [Result], throws what an operation of
    the engine throws, or has undefined behaviour where that has. *)
Inductive returned (A : Type) : Type :=
| Returns (r : Result A)
| Throws (message : string)
| Undefined.
Arguments Returns {_} r.
Arguments Throws {_} message.
Arguments Undefined {_}.
Abbreviation client_method A := (client (returned A)).

(** [p] and then the destructors [cleanup], however [p] ends. *)
Definition scoped {A} (p : client A) (cleanup : client unit) : client A :=
  a ← p;
  _ ← cleanup;
  mret a.

(** ** Conversions *)

Section native_client.
Context `{Qt}.

Definition makeNativeSmbError (error : ProtocolError) (sanitizer : LogSanitizer) : AppError :=
  let details := sanitize_message sanitizer (fromStdString (ascii_bytes (err_message error))) in
  fromCode (nativeToCoreError (err_code error)) ErrorCategory_Smb details
    (isNativeErrorRetryable (err_code error)).

Definition kFiletimeOfUnixEpoch : Z := 116444736000000000.
Definition kChunkSize : Z := 64 * 1024.
Definition kDownloadChunkSize : Z := 64 * 1024.

Definition localIoError (details : QString) : AppError :=
  fromCode App_LocalIoError ErrorCategory_Transfer details false.

Definition appError (error : ProtocolError) (baseSanitizer : LogSanitizer)
    (secret : secret_pointer) : AppError :=
  let sanitizer :=
    match secret with
    | Some (b :: bs) => addSecretValue baseSanitizer (fromUtf8 (b :: bs))
    | _ => baseSanitizer
    end in
  makeNativeSmbError error sanitizer.

Definition cancelledFailure {A} (default : A) : Result A :=
  Result_failure default (fromCode App_OperationCancelled ErrorCategory_Transfer
    (tr "Operation was cancelled.") false).

Definition clientCancelled (context : CoreContext) : client bool :=
  if cc_cancellationToken context then ask AskCancelled else mret false.

Fixpoint guid_bytes (n : nat) : client bytes :=
  match n with
  | O => mret []
  | S n =>
      value ← ask RandomDevice;
      rest ← guid_bytes n;
      mret (u8 value :: rest)
  end.

Definition set_at (i : Z) (b : Z) (l : bytes) : bytes := <[Z.to_nat i := b]> l.
Definition get_at (i : Z) (l : bytes) : Z := default 0 (l !! Z.to_nat i).

Definition randomClientGuid : client bytes :=
  guid ← guid_bytes 16;
  let guid := set_at 6 (u8 (Z.lor (Z.land (get_at 6 guid) 0x0F) 0x40)) guid in
  mret (set_at 8 (u8 (Z.lor (Z.land (get_at 8 guid) 0x3F) 0x80)) guid).

Definition toNativeAuthMode (authType : AuthType) : AuthMode :=
  match authType with
  | AuthType_Password => AuthMode_Password
  | AuthType_Guest => AuthMode_Guest
  | AuthType_Anonymous => AuthMode_Anonymous
  | AuthType_CurrentUser => AuthMode_CurrentUser
  end.

Definition signingPolicyForAuthType (authType : AuthType) : SecurityPolicy :=
  SecurityPolicy_Preferred.

Definition dialectName (dialect : Dialect) : QString :=
  match dialect with
  | Dialect_Smb202 => QStringLiteral "SMB 2.0.2"
  | Dialect_Smb210 => QStringLiteral "SMB 2.1"
  | Dialect_Smb300 => QStringLiteral "SMB 3.0"
  | Dialect_Smb302 => QStringLiteral "SMB 3.0.2"
  | Dialect_Smb311 => QStringLiteral "SMB 3.1.1"
  | _ => QStringLiteral "SMB unknown"
  end.

Definition kOpenBracket : Z := 0x5B.
Definition kCloseBracket : Z := 0x5D.
Definition kColon : Z := 0x3A.

(** A number that [toUShort] reads and that is not 0. *)
Definition portNumber (text : QString) : option Z :=
  port ← toUShort text;
  if 0 <? port then Some port else None.

Definition bracketedEndpoint (host : QString) : option DirectTcpEndpoint :=
  if startsWith host kOpenBracket then
    let closingBracket := indexOf host kCloseBracket in
    if (0 <? closingBracket) && startsWith (midFrom host (closingBracket + 1)) kColon then
      port ← portNumber (midFrom host (closingBracket + 2));
      Some (mkDirectTcpEndpoint (toStdString (mid host 1 (closingBracket - 1))) port)
    else None
  else None.

Definition colonEndpoint (host : QString) : option DirectTcpEndpoint :=
  let colon := lastIndexOf host kColon in
  if (0 <? colon) && (indexOf host kColon =? colon) then
    port ← portNumber (midFrom host (colon + 1));
    Some (mkDirectTcpEndpoint (toStdString (left host colon)) port)
  else None.

Definition endpointForServer (server : QString) : DirectTcpEndpoint :=
  let host := trimmed server in
  match bracketedEndpoint host with
  | Some endpoint => endpoint
  | None =>
      match colonEndpoint host with
      | Some endpoint => endpoint
      | None => mkDirectTcpEndpoint (toStdString host) 445
      end
  end.

(** The members of [ConnectionConfig] the engine reads. *)
Definition nativeConfig (connection : Connection) : ConnectionConfig :=
  mkConnectionConfig (ep_host (endpointForServer (con_server connection)))
    (toStdString (con_share connection)) (toStdString (con_domain connection))
    (toStdString (con_username connection)) (toNativeAuthMode (con_authType connection))
    (signingPolicyForAuthType (con_authType connection)) SecurityPolicy_Preferred.

Definition nativeSecret (secret : secret_pointer) : bytes := default [] secret.

(** The cancellation callback asks the token of the application's context. *)
Definition nativeContext (context : CoreContext) (timeoutSeconds : Z) : OperationContext :=
  mkOperationContext (Z.max 1 timeoutSeconds * 1000) false
    (cc_cancellationToken context) (cc_progressCallback context).

(** The loop over leading separators; the text gets shorter each time. *)
Fixpoint strip_separators (fuel : nat) (path : QString) : QString :=
  match fuel with
  | O => path
  | S fuel =>
      if startsWith path kSlash || startsWith path kBackslash
      then strip_separators fuel (removeAt path 0 1) else path
  end.

Definition normalizeRemotePath (remotePath : QString) : QString :=
  let normalized := trimmed remotePath in
  let normalized := strip_separators (length normalized) normalized in
  replaceChar normalized kSlash kBackslash.

Definition childPath (parent name : QString) : QString :=
  let normalizedParent := normalizeRemotePath parent in
  if isEmpty normalizedParent then name
  else normalizedParent ++ [kBackslash] ++ name.

Definition sameRemoteTree (l r : Connection) : bool :=
  if negb (isEmpty (con_id l)) && bool_decide (con_id l = con_id r) then true else
  let sameAddress :=
    negb (isEmpty (con_server l)) && negb (isEmpty (con_share l))
    && equalsIgnoringCase (con_server l) (con_server r)
    && equalsIgnoringCase (con_share l) (con_share r) in
  let sameUri :=
    negb (isEmpty (con_normalizedUri l))
    && equalsIgnoringCase (con_normalizedUri l) (con_normalizedUri r) in
  if negb sameAddress && negb sameUri then false else
  equalsIgnoringCase (con_domain l) (con_domain r)
  && equalsIgnoringCase (con_username l) (con_username r)
  && bool_decide (con_authType l = con_authType r).

Definition filetimeToDateTime (filetime : Z) : QDateTime :=
  if filetime <=? kFiletimeOfUnixEpoch then nullDateTime
  else localTimeOfMSecs ((filetime - kFiletimeOfUnixEpoch) / 10000).

Definition attributesString (attributes : Z) : QString := hexArg attributes.

(** [static_cast<qint64>] of a 64-bit value. *)
Definition qint64 (v : Z) : Z := if v <? 2 ^ 63 then v else v - 2 ^ 64.

Definition toCoreEntry (entry : NativeRemoteEntry) (parentPath : QString) : RemoteFileEntry :=
  let name := fromStdString (nre_name entry) in
  mkRemoteFileEntry name (childPath parentPath name)
    (if nre_reparsePoint entry then RemoteFileType_Symlink
     else if nre_directory entry then RemoteFileType_Directory else RemoteFileType_File)
    (qint64 (nre_size entry)) (filetimeToDateTime (nre_lastWriteTime entry))
    (attributesString (nre_attributes entry)) [] (startsWith name 0x2E).

Definition toCoreShare (share : NativeShareInfo) : SmbShareInfo :=
  mkSmbShareInfo (fromStdString (nsi_name share))
    (fromStdString (ascii_bytes (nsi_type share))) (fromStdString (nsi_comment share))
    (nsi_hidden share) false.

(** The options of the token provider: its defaults, and the workstation. *)
Definition tokenProviderOptions (workstation : bytes) : NtlmV2TokenProviderOptions :=
  mkNtlmV2TokenProviderOptions workstation
    (foldl Z.lor 0
      [kNtlmNegotiateUnicode; kNtlmRequestTarget; kNtlmNegotiateSign; kNtlmNegotiateSeal;
       kNtlmNegotiateNtlm; kNtlmNegotiateAlwaysSign;
       kNtlmNegotiateExtendedSessionSecurity; kNtlmNegotiateTargetInfo;
       kNtlmNegotiateVersion; kNtlmNegotiate128; kNtlmNegotiate56])
    true false true None None false false.

(** ** Operations *)

Context (m_timeoutSeconds : Z) (m_sanitizer : LogSanitizer).

Definition openNativeConnection (connection : Connection) (secret : secret_pointer)
    (context : CoreContext) : client (comp client_state) :=
  cancelled ← clientCancelled context;
  if cancelled : bool then
    mret (failure ErrorCode_Cancelled "Operation was cancelled.")
  else
  workstation ← ask MachineHostName;
  guid ← randomClientGuid;
  ask (Connect (endpointForServer (con_server connection)) (nativeSecret secret)
    (tokenProviderOptions (toStdString workstation))
    (mkNativeSmbConnectorOptions (nativeConfig connection)
       (mkNegotiateRequestOptions
          [Dialect_Smb202; Dialect_Smb210; Dialect_Smb300; Dialect_Smb302; Dialect_Smb311]
          SecurityPolicy_Required 0 guid)
       1 8)
    (nativeContext context m_timeoutSeconds)).

(** [if (!r.ok) return failure(appError(r.error, m_sanitizer, secret));] *)
Definition or_fail {A B} (default : B) (secret : secret_pointer) (r : comp A)
    (k : A -> client_method B) : client_method B :=
  match r with
  | Ok a => k a
  | Err e => mret (Returns (Result_failure default (appError e m_sanitizer secret)))
  | Throw m => mret (Throws m)
  | OutOfBounds => mret Undefined
  end.

(** A connection that lives as long as [k]. *)
Definition with_connection {B} (default : B) (connection : Connection)
    (secret : secret_pointer) (context : CoreContext)
    (k : client_state -> client_method B) : client_method B :=
  connected ← openNativeConnection connection secret context;
  or_fail default secret connected (fun connected =>
  scoped (k connected) (ask (Disconnect (cs_connection connected)))).

(** An operation of the engine on the connection. *)
Definition remotely {A : Set} (connected : client_state) (context : CoreContext)
    (op : remote_op A) : client (comp A) :=
  ask (Remote (cs_connection connected) (nativeContext context m_timeoutSeconds) op).

Definition succeed {A} (value : A) : client_method A := mret (Returns (Result_success value)).
Definition fail {A} (default : A) (error : AppError) : client_method A :=
  mret (Returns (Result_failure default error)).

Definition capabilities : SmbClientCapabilities :=
  let metadata := metadataCapabilities in
  mkSmbClientCapabilities true true true true true true true true
    (nmc_canSetBasicInformation metadata) (nmc_canListExtendedAttributes metadata)
    (nmc_canSetExtendedAttributes metadata) (nmc_canQuerySecurityDescriptor metadata)
    (nmc_canSetSecurityDescriptor metadata) true (nmc_canUsePosixMode metadata)
    (nmc_canUsePosixOwner metadata || nmc_canUsePosixGroup metadata) true
    (tr "POSIX chmod/chown are not supported by the native SMB2/SMB3 backend yet.").

Definition no_capabilities : SmbClientCapabilities :=
  mkSmbClientCapabilities true true true true true true true true
    false false false false false false false false false [].
Definition no_report : SmbCapabilityReport :=
  mkSmbCapabilityReport false false [] false false false false false false no_capabilities.

Definition probeCapabilities (connection : Connection) (secret : secret_pointer)
    (context : CoreContext) : client_method SmbCapabilityReport :=
  with_connection no_report connection secret context (fun connected =>
  let negotiated := cs_negotiated connected in
  let tree := cs_tree connected in
  succeed (mkSmbCapabilityReport true true (dialectName (ngc_dialect negotiated))
    (ngc_signingRequired negotiated) (ngc_encryptionSupported negotiated)
    (tcn_requiresEncryption tree || ssr_encryptData (cs_session connected))
    (negb (Z.land (ngc_capabilities negotiated)
             (globalCapability_value GlobalCapability_Dfs) =? 0))
    (tcn_isDfs tree) (tcn_isDfsRoot tree) capabilities)).

Definition client_listShares (connection : Connection) (secret : secret_pointer)
    (context : CoreContext) : client_method (list SmbShareInfo) :=
  cancelled ← clientCancelled context;
  if cancelled : bool then mret (Returns (cancelledFailure [])) else
  let ipcConnection := mkConnection (con_id connection)
    (QStringLiteral "smb://" ++ con_server connection ++ QStringLiteral "/IPC$")
    (con_server connection) (QStringLiteral "IPC$") (con_domain connection)
    (con_username connection) (con_authType connection) in
  with_connection [] ipcConnection secret context (fun connected =>
  let endpoint := endpointForServer (con_server connection) in
  shares ← remotely connected context (ListShares (ep_host endpoint));
  or_fail [] secret shares (fun shares =>
  succeed (toCoreShare <$> nsl_shares shares))).

Definition checkConnection (connection : Connection) (secret : secret_pointer)
    (context : CoreContext) : client_method bool :=
  with_connection false connection secret context (fun _ => succeed true).

Definition client_listDirectory (connection : Connection) (secret : secret_pointer)
    (remotePath : QString) (context : CoreContext) : client_method (list RemoteFileEntry) :=
  with_connection [] connection secret context (fun connected =>
  let normalizedPath := normalizeRemotePath remotePath in
  listing ← remotely connected context (ListDirectory (toStdString normalizedPath));
  or_fail [] secret listing (fun listing =>
  succeed ((fun entry => toCoreEntry entry normalizedPath) <$> ndl_entries listing))).

Definition client_createDirectory (connection : Connection) (secret : secret_pointer)
    (remotePath : QString) (context : CoreContext) : client_method bool :=
  with_connection false connection secret context (fun connected =>
  r ← remotely connected context
        (CreateDirectory (toStdString (normalizeRemotePath remotePath)));
  or_fail false secret r (fun _ => succeed true)).

Definition client_remove (connection : Connection) (secret : secret_pointer)
    (remotePath : QString) (context : CoreContext) : client_method bool :=
  with_connection false connection secret context (fun connected =>
  let path := toStdString (normalizeRemotePath remotePath) in
  stat ← remotely connected context (StatObject path);
  or_fail false secret stat (fun stat =>
  r ← (if nsr_directory stat && negb (nsr_reparsePoint stat)
       then remotely connected context (DeleteTree path)
       else remotely connected context (DeleteObject path (nsr_directory stat)));
  or_fail false secret r (fun _ => succeed true))).

Definition client_rename (connection : Connection) (secret : secret_pointer)
    (sourceRemotePath targetRemotePath : QString) (context : CoreContext)
    : client_method bool :=
  with_connection false connection secret context (fun connected =>
  r ← remotely connected context
        (RenameObject (toStdString (normalizeRemotePath sourceRemotePath))
           (toStdString (normalizeRemotePath targetRemotePath)) true);
  or_fail false secret r (fun _ => succeed true)).

(** [if (context.progressCallback) context.progressCallback(...)] *)
Definition reportProgress (context : CoreContext) (transferred total : Z) : client unit :=
  if cc_progressCallback context
  then ask (ReportCore (mkCoreTransferProgress (qint64 transferred) total)) else mret tt.

(** ** Transfers *)

(** An error of the local file, with the file's own message. *)
Definition fail_locally : client_method bool :=
  details ← ask (Local ErrorString);
  fail false (localIoError details).

(** [closeRemoteFile()], whose failure is ignored, and then [k]. *)
Definition after_closing (connected : client_state) (context : CoreContext)
    (fileId : FileId) (k : client_method bool) : client_method bool :=
  closed ← remotely connected context (CloseFileHandle fileId);
  match closed with
  | Throw m => mret (Throws m)
  | OutOfBounds => mret Undefined
  | _ => k
  end.

Fixpoint download_loop (fuel : nat) (connected : client_state)
    (secret : secret_pointer) (context : CoreContext) (opened : NativeFileHandle)
    (offset : Z) : client_method bool :=
  let close := after_closing connected context (nfh_fileId opened) in
  match fuel with
  | O => Halt
  | S fuel =>
      if negb (offset <? nfh_size opened) then close (succeed true) else
      cancelled ← clientCancelled context;
      if cancelled : bool then close (mret (Returns (cancelledFailure false))) else
      let length := u32 (Z.min kDownloadChunkSize (u64 (nfh_size opened - offset))) in
      read ← remotely connected context (ReadFileChunk (nfh_fileId opened) length offset);
      match read with
      | Err e => close (or_fail false secret read (fun _ => succeed true))
      | Throw m => mret (Throws m)
      | OutOfBounds => mret Undefined
      | Ok read =>
          let data := nrr_data read in
          written ← ask (Local (WriteBytes data));
          if negb (written =? blen data) then close fail_locally else
          let offset := u64 (offset + blen data) in
          _ ← reportProgress context offset (qint64 (nfh_size opened));
          if blen data =? 0 then close (succeed true)
          else download_loop fuel connected secret context opened offset
      end
  end.

Definition client_downloadFile (fuel : nat) (connection : Connection)
    (secret : secret_pointer) (remotePath localPath : QString) (context : CoreContext)
    : client_method bool :=
  with_connection false connection secret context (fun connected =>
  let path := toStdString (normalizeRemotePath remotePath) in
  opened ← remotely connected context (OpenFileForRead path);
  or_fail false secret opened (fun opened =>
  isOpen ← ask (Local (OpenWrite localPath));
  scoped
    (if negb isOpen
     then after_closing connected context (nfh_fileId opened) fail_locally
     else download_loop fuel connected secret context opened 0)
    (ask (Local CloseFile)))).

Fixpoint upload_loop (fuel : nat) (connected : client_state)
    (secret : secret_pointer) (context : CoreContext) (path : bytes) (total offset : Z)
    : client_method bool :=
  match fuel with
  | O => Halt
  | S fuel =>
      atEnd ← ask (Local AtEnd);
      if atEnd : bool then succeed true else
      cancelled ← clientCancelled context;
      if cancelled : bool then mret (Returns (cancelledFailure false)) else
      chunk ← ask (Local (ReadBytes kChunkSize));
      hasError ← (if blen chunk =? 0 then ask (Local HasError) else mret false);
      if hasError : bool then fail_locally else
      write ← remotely connected context (WriteFileOnce path chunk offset);
      or_fail false secret write (fun _ =>
      let offset := u64 (offset + blen chunk) in
      _ ← reportProgress context offset total;
      upload_loop fuel connected secret context path total offset)
  end.

(** The target of an upload or a copy is deleted first, if there is one. *)
Definition clear_target (connected : client_state) (secret : secret_pointer)
    (context : CoreContext) (path : bytes) (k : client_method bool) : client_method bool :=
  existing ← remotely connected context (StatObject path);
  match existing with
  | Ok existing =>
      removed ← remotely connected context (DeleteObject path (nsr_directory existing));
      or_fail false secret removed (fun _ => k)
  | Err e =>
      if negb (bool_decide (err_code e = ErrorCode_FileNotFound))
      then fail false (appError e m_sanitizer secret) else k
  | Throw m => mret (Throws m)
  | OutOfBounds => mret Undefined
  end.

Definition client_uploadFile (fuel : nat) (connection : Connection)
    (secret : secret_pointer) (localPath remotePath : QString) (context : CoreContext)
    : client_method bool :=
  with_connection false connection secret context (fun connected =>
  isOpen ← ask (Local (OpenRead localPath));
  scoped
    (if negb isOpen then fail_locally else
     let path := toStdString (normalizeRemotePath remotePath) in
     clear_target connected secret context path (
     total ← ask (Local FileSize);
     upload_loop fuel connected secret context path total 0))
    (ask (Local CloseFile))).

Fixpoint copy_blocks (fuel : nat) (source target : client_state)
    (sourceSecret targetSecret : secret_pointer) (context : CoreContext)
    (sourcePath targetPath : bytes) (size offset : Z) : client_method bool :=
  match fuel with
  | O => Halt
  | S fuel =>
      if negb (offset <? size) then succeed true else
      cancelled ← clientCancelled context;
      if cancelled : bool then mret (Returns (cancelledFailure false)) else
      let length := u32 (Z.min kChunkSize (u64 (size - offset))) in
      read ← remotely source context (ReadFileOnce sourcePath length offset);
      or_fail false sourceSecret read (fun read =>
      write ← remotely target context (WriteFileOnce targetPath (nrr_data read) offset);
      or_fail false targetSecret write (fun _ =>
      let offset := u64 (offset + blen (nrr_data read)) in
      _ ← reportProgress context offset (qint64 size);
      if blen (nrr_data read) =? 0 then succeed true
      else copy_blocks fuel source target sourceSecret targetSecret context
             sourcePath targetPath size offset))
  end.

(** The copy through the client, block by block. *)
Definition copy_through (fuel : nat) (source target : client_state)
    (sourceSecret targetSecret : secret_pointer) (context : CoreContext)
    (sourcePath targetPath : bytes) (size : Z) : client_method bool :=
  if size =? 0 then
    write ← remotely target context (WriteFileOnce targetPath [] 0);
    or_fail false targetSecret write (fun _ =>
    _ ← reportProgress context 0 0;
    succeed true)
  else copy_blocks fuel source target sourceSecret targetSecret context
         sourcePath targetPath size 0.

(** The copy on the server; when it fails, what is there is deleted, and [k]
    goes on. *)
Definition copy_on_server (source target : client_state)
    (sourceSecret : secret_pointer) (context : CoreContext)
    (sourcePath targetPath : bytes) (size : Z) (k : client_method bool)
    : client_method bool :=
  copied ← remotely source context (CopyFileServerSide sourcePath targetPath size);
  match copied with
  | Ok _ => succeed true
  | Err e =>
      if bool_decide (err_code e = ErrorCode_Cancelled)
      then fail false (appError e m_sanitizer sourceSecret)
      else
        partial ← remotely target context (StatObject targetPath);
        match partial with
        | Ok partial =>
            removed ← remotely target context
                        (DeleteObject targetPath (nsr_directory partial));
            match removed with
            | Throw m => mret (Throws m)
            | OutOfBounds => mret Undefined
            | _ => k
            end
        | Err _ => k
        | Throw m => mret (Throws m)
        | OutOfBounds => mret Undefined
        end
  | Throw m => mret (Throws m)
  | OutOfBounds => mret Undefined
  end.

Definition client_copy (fuel : nat) (sourceConnection : Connection)
    (sourceSecret : secret_pointer) (sourceRemotePath : QString)
    (targetConnection : Connection) (targetSecret : secret_pointer)
    (targetRemotePath : QString) (context : CoreContext) : client_method bool :=
  with_connection false sourceConnection sourceSecret context (fun source =>
  with_connection false targetConnection targetSecret context (fun target =>
  let sourcePath := toStdString (normalizeRemotePath sourceRemotePath) in
  let targetPath := toStdString (normalizeRemotePath targetRemotePath) in
  stat ← remotely source context (StatObject sourcePath);
  or_fail false sourceSecret stat (fun stat =>
  if nsr_directory stat then
    fail false (fromCode App_ProtocolUnsupported ErrorCategory_Smb
      (tr "Directory copy is not implemented by the native SMB backend yet.") false)
  else
  let size := nsr_size stat in
  clear_target target targetSecret context targetPath (
  let through := copy_through fuel source target sourceSecret targetSecret context
                   sourcePath targetPath size in
  if sameRemoteTree sourceConnection targetConnection
  then copy_on_server source target sourceSecret context sourcePath targetPath size through
  else through)))).

Definition client_move (fuel : nat) (sourceConnection : Connection)
    (sourceSecret : secret_pointer) (sourceRemotePath : QString)
    (targetConnection : Connection) (targetSecret : secret_pointer)
    (targetRemotePath : QString) (context : CoreContext) : client_method bool :=
  if sameRemoteTree sourceConnection targetConnection
  then client_rename sourceConnection sourceSecret sourceRemotePath targetRemotePath context
  else
  copied ← client_copy fuel sourceConnection sourceSecret sourceRemotePath
             targetConnection targetSecret targetRemotePath context;
  match copied with
  | Returns r =>
      if negb (Result_ok r) then mret copied
      else client_remove sourceConnection sourceSecret sourceRemotePath context
  | _ => mret copied
  end.

End native_client.
