(* ===== verification/ClientWorld.v ===== *)
(** * What the native client works on

    A world has the remote objects of every tree, the local files, the
    connections and remote handles that are open, and the local file of a
    transfer.  [answers] says how a call may be answered: the contract of the
    engine, of a server that holds still while it is read, and of Qt's [QFile].
    Everything may fail at any time; a failed change of a remote object leaves
    it as it was or in pieces.  [cwp] is the program logic over these answers,
    and [serve] a world without failures. *)

From S2P Require Export NativeClient.
From stdpp Require Export gmap.
Local Open Scope Z_scope.

(** ** Worlds *)

(** A remote object; of a directory only that it is one. *)
Inductive node : Set :=
| File (content : bytes)
| Directory.

Definition is_directory (n : node) : bool :=
  match n with File _ => false | Directory => true end.

#[export] Instance FileId_eq_dec : EqDecision FileId.
Proof. solve_decision. Defined.

(** The local file of a transfer, and whether reading has failed. *)
Inductive open_file : Set :=
| Writing (path : QString)
| Reading (path : QString) (position : Z) (failed : bool).

(** [content] from [offset] on replaced by [data]. *)
Definition overlay (content data : bytes) (offset : Z) : bytes :=
  take (Z.to_nat offset) content
  ++ zeros (Z.to_nat offset - length content)
  ++ data ++ drop (Z.to_nat offset + length data) content.

(** What reading [length] bytes at [offset] may give: bytes of the content, and
    at least one if there are any. *)
Definition chunk_of (content : bytes) (offset length : Z) (data : bytes) : Prop :=
  exists n, 0 <= n /\ data = slice offset (offset + n) content /\ n <= length /\
    offset + n <= Z.max offset (blen content) /\
    (offset < blen content -> 0 < length -> 0 < n).

Section worlds.
Context {T : Type} `{Countable T}.

Record world : Type := mkWorld {
  w_remote : gmap (T * bytes) node;
  w_local : gmap QString bytes;
  w_connections : gmap nat T;
  w_handles : list (nat * FileId * bytes);
  w_file : option open_file
}.

Definition set_remote (files : gmap (T * bytes) node) (w : world) : world :=
  mkWorld files (w_local w) (w_connections w) (w_handles w) (w_file w).
Definition set_local (files : gmap QString bytes) (w : world) : world :=
  mkWorld (w_remote w) files (w_connections w) (w_handles w) (w_file w).
Definition set_connections (connections : gmap nat T) (w : world) : world :=
  mkWorld (w_remote w) (w_local w) connections (w_handles w) (w_file w).
Definition set_handles (handles : list (nat * FileId * bytes)) (w : world) : world :=
  mkWorld (w_remote w) (w_local w) (w_connections w) handles (w_file w).
Definition set_file (file : option open_file) (w : world) : world :=
  mkWorld (w_remote w) (w_local w) (w_connections w) (w_handles w) file.

(** ** Answers *)

(** At most the object at [key] is changed. *)
Definition only_at (key : T * bytes) (w w' : world) : Prop :=
  exists n, w' = set_remote (partial_alter (fun _ => n) key (w_remote w)) w.

Definition stat_fits (n : node) (st : NativeStatResult) : Prop :=
  nsr_directory st = is_directory n /\ is_u64 (nsr_size st) /\
  match n with
  | File content => nsr_size st = blen content /\ nsr_reparsePoint st = false
  | Directory => True
  end.

(** What renaming does; of a directory only that it stays in its tree. *)
Definition rename_effect (t : T) (fromPath toPath : bytes) (w w' : world) : Prop :=
  match w_remote w !! (t, fromPath) with
  | None => False
  | Some (File content) =>
      w' = set_remote (<[(t, toPath) := File content]>
                         (delete (t, fromPath) (w_remote w))) w
  | Some Directory =>
      exists files, w' = set_remote files w /\
        forall key, fst key <> t -> files !! key = w_remote w !! key
  end.

(** The engine on the connection [c] to the tree [t]. *)
Definition remote_answers (c : nat) (t : T) {A : Set} (op : remote_op A)
    : world -> comp A -> world -> Prop :=
  match op in remote_op A return world -> comp A -> world -> Prop with
  | ListDirectory _ => fun w _ w' => w' = w
  | ListShares _ => fun w _ w' => w' = w
  | GetDfsReferrals _ => fun w _ w' => w' = w
  | StatObject path => fun w r w' =>
      w' = w /\
      match r with
      | Ok st => exists n, w_remote w !! (t, path) = Some n /\ stat_fits n st
      | Err e => err_code e = ErrorCode_FileNotFound -> w_remote w !! (t, path) = None
      | _ => True
      end
  | OpenFileForRead path => fun w r w' =>
      match r with
      | Ok h => exists content, w_remote w !! (t, path) = Some (File content) /\
          nfh_size h = blen content /\ is_u64 (nfh_size h) /\
          w' = set_handles ((c, nfh_fileId h, path) :: w_handles w) w
      | _ => w' = w
      end
  | ReadFileChunk fileId length offset => fun w r w' =>
      w' = w /\
      match r with
      | Ok read => exists path content, (c, fileId, path) ∈ w_handles w /\
          w_remote w !! (t, path) = Some (File content) /\
          chunk_of content offset length (nrr_data read)
      | _ => True
      end
  | CloseFileHandle fileId => fun w r w' =>
      match r with
      | Ok _ => w' = set_handles (filter (fun h => fst h <> (c, fileId)) (w_handles w)) w
      | _ => w' = w
      end
  | ReadFileOnce path length offset => fun w r w' =>
      w' = w /\
      match r with
      | Ok read => exists content, w_remote w !! (t, path) = Some (File content) /\
          chunk_of content offset length (nrr_data read)
      | _ => True
      end
  | WriteFileOnce path data offset => fun w r w' =>
      match r with
      | Ok _ =>
          match w_remote w !! (t, path) with
          | Some Directory => False
          | Some (File content) =>
              w' = set_remote (<[(t, path) := File (overlay content data offset)]>
                                 (w_remote w)) w
          | None =>
              w' = set_remote (<[(t, path) := File (overlay [] data offset)]>
                                 (w_remote w)) w
          end
      | _ => only_at (t, path) w w'
      end
  | CreateDirectory path => fun w r w' =>
      match r with
      | Ok _ => w' = set_remote (<[(t, path) := Directory]> (w_remote w)) w
      | _ => only_at (t, path) w w'
      end
  | DeleteObject path directory => fun w r w' =>
      match r with
      | Ok _ => (exists n, w_remote w !! (t, path) = Some n) /\
          w' = set_remote (delete (t, path) (w_remote w)) w
      | _ => w' = w \/ w' = set_remote (delete (t, path) (w_remote w)) w
      end
  | DeleteTree path => fun w r w' =>
      exists files, w' = set_remote files w /\
        forall key, fst key <> t \/ ~ path `prefix_of` snd key ->
          files !! key = w_remote w !! key
  | RenameObject fromPath toPath _ => fun w r w' =>
      match r with
      | Ok _ => rename_effect t fromPath toPath w w'
      | _ => w' = w \/ rename_effect t fromPath toPath w w'
      end
  | CopyFileServerSide sourcePath targetPath size => fun w r w' =>
      match r with
      | Ok _ => exists content, w_remote w !! (t, sourcePath) = Some (File content) /\
          w' = set_remote (<[(t, targetPath) := File (slice 0 size content)]>
                             (w_remote w)) w
      | _ => w' = w \/ exists content, blen content <= size /\
          w' = set_remote (<[(t, targetPath) := File content]> (w_remote w)) w
      end
  end.

Definition file_answers {A : Set} (op : file_op A) : world -> A -> world -> Prop :=
  match op in file_op A return world -> A -> world -> Prop with
  | OpenWrite path => fun w ok w' =>
      if ok : bool
      then w' = set_file (Some (Writing path)) (set_local (<[path := []]> (w_local w)) w)
      else w' = w
  | OpenRead path => fun w ok w' =>
      if ok : bool
      then (exists content, w_local w !! path = Some content /\ blen content < 2 ^ 63) /\
           w' = set_file (Some (Reading path 0 false)) w
      else w' = w
  | WriteBytes data => fun w n w' =>
      match w_file w with
      | Some (Writing path) => exists content written,
          w_local w !! path = Some content /\
          w' = set_local (<[path := content ++ written]> (w_local w)) w /\
          (n = blen data -> written = data)
      | _ => w' = w
      end
  | ReadBytes maxSize => fun w data w' =>
      match w_file w with
      | Some (Reading path position failed) => exists content,
          w_local w !! path = Some content /\
          (data = [] /\ w' = set_file (Some (Reading path position true)) w \/
           chunk_of content position maxSize data /\
           w' = set_file (Some (Reading path (position + blen data) failed)) w)
      | _ => w' = w
      end
  | AtEnd => fun w b w' =>
      w' = w /\
      match w_file w with
      | Some (Reading path position _) =>
          exists content, w_local w !! path = Some content /\
            b = (blen content <=? position)
      | _ => True
      end
  | FileSize => fun w n w' => w' = w
  | HasError => fun w b w' =>
      w' = w /\
      match w_file w with Some (Reading _ _ failed) => b = failed | _ => True end
  | ErrorString => fun w _ w' => w' = w
  | CloseFile => fun w _ w' => w' = set_file None w
  end.

(** An error of the engine has a code. *)
Definition coded {A} (r : comp A) : Prop :=
  match r with Err e => err_code e <> ErrorCode_None | _ => True end.

(** The tree a connection leads to is settled by its endpoint and share. *)
Context (tree_of : DirectTcpEndpoint -> ConnectionConfig -> T).

Definition answers {B : Set} (c : client_call B) : world -> B -> world -> Prop :=
  match c in client_call B return world -> B -> world -> Prop with
  | AskCancelled => fun w _ w' => w' = w
  | ReportCore _ => fun w _ w' => w' = w
  | RandomDevice => fun w _ w' => w' = w
  | MachineHostName => fun w _ w' => w' = w
  | Connect endpoint _ _ options _ => fun w r w' =>
      coded r /\
      match r with
      | Ok cs => w_connections w !! cs_connection cs = None /\
          Forall (fun h => fst (fst h) <> cs_connection cs) (w_handles w) /\
          w' = set_connections (<[cs_connection cs := tree_of endpoint (nco_config options)]>
                                  (w_connections w)) w
      | _ => w' = w
      end
  | Disconnect n => fun w _ w' =>
      w' = set_handles (filter (fun h => fst (fst h) <> n) (w_handles w))
             (set_connections (delete n (w_connections w)) w)
  | Remote n _ op => fun w r w' =>
      match w_connections w !! n with
      | Some t => coded r /\ remote_answers n t op w r w'
      | None => False
      end
  | Local op => file_answers op
  end.

End worlds.
Arguments world T {_ _}.

(** Runs of the client, and their program logic. *)
Abbreviation client_runs tree_of := (asks (fun B => @answers _ _ _ tree_of B)).
Abbreviation cwp tree_of := (awp (fun B => @answers _ _ _ tree_of B)).

(** * A world without failures *)

(** A tree is named by its host and share. *)
Definition host_share : Type := bytes * bytes.
Definition tree_by_name (endpoint : DirectTcpEndpoint) (config : ConnectionConfig)
    : host_share := (ep_host endpoint, cfg_share config).
Abbreviation named_world := (world host_share).

Definition served_state (n : nat) : client_state :=
  mkConnectedState n
    (mkNegotiatedConnection Dialect_Smb311 true true 0 0x100000 0x100000 [] [])
    (mkSessionSetupResponse 0 1 0 [] [] [] false false false false)
    (mkTreeConnectResult 1 ShareType_Disk false false false 0x1F01FF).

Definition served_stat (n : node) : NativeStatResult :=
  match n with
  | File content => mkNativeStatResult (blen content) (blen content) 0 0 0 0 0x80 1
      false false false
  | Directory => mkNativeStatResult 0 0 0 0 0 0 0x10 1 true false false
  end.

Definition not_found {A} : comp A := failure ErrorCode_FileNotFound "Not found.".
Definition refused {A} : comp A := failure ErrorCode_PermissionDenied "Refused.".

Definition content_at (key : host_share * bytes) (w : named_world) : option bytes :=
  match w_remote w !! key with Some (File content) => Some content | _ => None end.

(** A chunk of at most [length] bytes. *)
Definition served_chunk (content : bytes) (offset length : Z) : bytes :=
  slice offset (offset + Z.max 0 (Z.min length (blen content - offset))) content.

Definition serve_remote (c : nat) (t : host_share) {A : Set} (op : remote_op A)
    : named_world -> comp A * named_world :=
  match op in remote_op A return named_world -> comp A * named_world with
  | ListDirectory _ => fun w => (Ok (mkNativeDirectoryListing []), w)
  | GetDfsReferrals _ => fun w => (not_found, w)
  | ListShares _ => fun w => (Ok (mkNativeShareList [] 0 None false 0), w)
  | StatObject path => fun w =>
      match w_remote w !! (t, path) with
      | Some n => if decide (is_u64 (nsr_size (served_stat n)))
                  then (Ok (served_stat n), w) else (refused, w)
      | None => (not_found, w)
      end
  | OpenFileForRead path => fun w =>
      match content_at (t, path) w with
      | Some content =>
          if decide (is_u64 (blen content)) then
            let id := mkFileId (Z.of_nat (length (w_handles w))) 0 in
            (Ok (mkNativeFileHandle id (blen content)),
             set_handles ((c, id, path) :: w_handles w) w)
          else (refused, w)
      | None => (not_found, w)
      end
  | ReadFileChunk fileId length offset => fun w =>
      match list_find (fun h => fst h = (c, fileId)) (w_handles w) with
      | Some (_, h) =>
          match content_at (t, snd h) w with
          | Some content =>
              if decide (0 <= offset /\ 0 <= length)
              then (Ok (mkNativeReadResult (served_chunk content offset length) 0), w)
              else (refused, w)
          | None => (refused, w)
          end
      | None => (refused, w)
      end
  | CloseFileHandle fileId => fun w =>
      (Ok true, set_handles (filter (fun h => fst h <> (c, fileId)) (w_handles w)) w)
  | ReadFileOnce path length offset => fun w =>
      match content_at (t, path) w with
      | Some content =>
          if decide (0 <= offset /\ 0 <= length)
          then (Ok (mkNativeReadResult (served_chunk content offset length) 0), w)
          else (refused, w)
      | None => (not_found, w)
      end
  | WriteFileOnce path data offset => fun w =>
      match w_remote w !! (t, path) with
      | Some Directory => (refused, w)
      | Some (File content) =>
          (Ok (mkNativeWriteResult (blen data) 0),
           set_remote (<[(t, path) := File (overlay content data offset)]> (w_remote w)) w)
      | None =>
          (Ok (mkNativeWriteResult (blen data) 0),
           set_remote (<[(t, path) := File (overlay [] data offset)]> (w_remote w)) w)
      end
  | CreateDirectory path => fun w =>
      (Ok (mkNativeObjectMutationResult path),
       set_remote (<[(t, path) := Directory]> (w_remote w)) w)
  | DeleteObject path _ => fun w =>
      match w_remote w !! (t, path) with
      | Some _ => (Ok (mkNativeObjectMutationResult path),
                   set_remote (delete (t, path) (w_remote w)) w)
      | None => (not_found, w)
      end
  | DeleteTree path => fun w =>
      (Ok (mkNativeObjectMutationResult path),
       set_remote (delete (t, path) (w_remote w)) w)
  | RenameObject fromPath toPath _ => fun w =>
      match content_at (t, fromPath) w with
      | Some content =>
          (Ok (mkNativeObjectMutationResult toPath),
           set_remote (<[(t, toPath) := File content]>
                         (delete (t, fromPath) (w_remote w))) w)
      | None => (refused, w)
      end
  | CopyFileServerSide sourcePath targetPath size => fun w =>
      match content_at (t, sourcePath) w with
      | Some content =>
          (Ok (mkNativeObjectMutationResult targetPath),
           set_remote (<[(t, targetPath) := File (slice 0 size content)]> (w_remote w)) w)
      | None => (not_found, w)
      end
  end.

(** [None] where the client breaks a rule of [QFile]. *)
Definition serve_file {A : Set} (op : file_op A) : named_world -> option (A * named_world) :=
  match op in file_op A return named_world -> option (A * named_world) with
  | OpenWrite path => fun w =>
      Some (true, set_file (Some (Writing path)) (set_local (<[path := []]> (w_local w)) w))
  | OpenRead path => fun w =>
      match w_local w !! path with
      | Some content =>
          if decide (blen content < 2 ^ 63)
          then Some (true, set_file (Some (Reading path 0 false)) w) else Some (false, w)
      | None => Some (false, w)
      end
  | WriteBytes data => fun w =>
      match w_file w with
      | Some (Writing path) =>
          content ← w_local w !! path;
          Some (blen data, set_local (<[path := content ++ data]> (w_local w)) w)
      | _ => Some (0, w)
      end
  | ReadBytes maxSize => fun w =>
      match w_file w with
      | Some (Reading path position failed) =>
          content ← w_local w !! path;
          if decide (0 <= position /\ 0 <= maxSize) then
            let data := served_chunk content position maxSize in
            Some (data, set_file (Some (Reading path (position + blen data) failed)) w)
          else None
      | _ => Some ([], w)
      end
  | AtEnd => fun w =>
      match w_file w with
      | Some (Reading path position _) =>
          content ← w_local w !! path; Some (blen content <=? position, w)
      | _ => Some (true, w)
      end
  | FileSize => fun w => Some (0, w)
  | HasError => fun w =>
      Some (match w_file w with Some (Reading _ _ failed) => failed | _ => false end, w)
  | ErrorString => fun w => Some ([], w)
  | CloseFile => fun w => Some (tt, set_file None w)
  end.

(** The connection gets a number that is not in use. *)
Definition free_connection (w : named_world) : nat :=
  fresh (elements (dom (w_connections w)) ++ ((fun h => fst (fst h)) <$> w_handles w)).

Definition serve {B : Set} (c : client_call B) : named_world -> option (B * named_world) :=
  match c in client_call B return named_world -> option (B * named_world) with
  | AskCancelled => fun w => Some (false, w)
  | ReportCore _ => fun w => Some (tt, w)
  | RandomDevice => fun w => Some (0, w)
  | MachineHostName => fun w => Some ([], w)
  | Connect endpoint _ _ options _ => fun w =>
      let n := free_connection w in
      Some (Ok (served_state n),
            set_connections (<[n := tree_by_name endpoint (nco_config options)]>
                               (w_connections w)) w)
  | Disconnect n => fun w =>
      Some (tt, set_handles (filter (fun h => fst (fst h) <> n) (w_handles w))
                  (set_connections (delete n (w_connections w)) w))
  | Remote n _ op => fun w =>
      t ← w_connections w !! n; Some (serve_remote n t op w)
  | Local op => serve_file op
  end.

Abbreviation run_client := (run_asking (fun B => @serve B)).

(** ** Its answers are among those of the contract *)

Lemma served_chunk_fits content offset length :
  0 <= offset /\ 0 <= length ->
  chunk_of content offset length (served_chunk content offset length).
Proof.
  intros [? ?]. exists (Z.max 0 (Z.min length (blen content - offset))).
  split_and!; try done; lia.
Qed.

Lemma content_at_file key w content :
  content_at key w = Some content -> w_remote w !! key = Some (File content).
Proof. unfold content_at. by destruct (w_remote w !! key) as [[]|]; [intros [= ->]|..]. Qed.

Lemma served_stat_fits n : is_u64 (nsr_size (served_stat n)) -> stat_fits n (served_stat n).
Proof. intros Hn. destruct n; done. Qed.

Lemma serve_remote_answers c t {A : Set} (op : remote_op A) w r w' :
  serve_remote c t op w = (r, w') -> coded r /\ remote_answers c t op w r w'.
Proof.
  destruct op; cbn [serve_remote]; intros Hs; repeat case_match; simplify_eq/=;
    repeat match goal with
      | H : content_at _ _ = Some _ |- _ => apply content_at_file in H
      | H : list_find _ _ = Some _ |- _ =>
          apply list_find_Some in H as (Hin%list_elem_of_lookup_2 & ? & _)
      end;
    try done; split; try done; eauto 10 using served_chunk_fits, served_stat_fits.
  - match goal with H : ?x ∈ w_handles w' |- _ => destruct x as [[? ?] ?] end.
    cbn in *. simplify_eq. eauto 10 using served_chunk_fits.
  - by case_match; simplify_eq.
  - exists (w_remote w' !! (t, path)). destruct w' as [f l cs hs fl]. unfold set_remote. cbn.
    by rewrite partial_alter_self.
  - by case_match; simplify_eq.
  - exists (delete (t, path) (w_remote w)). split; [done|]. intros key Hkey.
    apply lookup_delete_ne. intros <-. by destruct Hkey as [|[]].
  - unfold rename_effect. by case_match; simplify_eq.
Qed.

Lemma serve_file_answers {A : Set} (op : file_op A) w r w' :
  serve_file op w = Some (r, w') -> file_answers op w r w'.
Proof.
  destruct op; cbn; intros Hs; try (by simplify_eq).
  - destruct (w_local w !! path) as [content|] eqn:Hc; cbn in Hs; [|by simplify_eq].
    case_decide; simplify_eq; [|done]. eauto.
  - destruct (w_file w) as [[p|p pos f]|]; simplify_eq; [|done|done].
    destruct (w_local w !! p) as [content|] eqn:Hc; simplify_eq/=. by exists content, data.
  - destruct (w_file w) as [[p|p pos f]|]; simplify_eq; [done| |done].
    destruct (w_local w !! p) as [content|] eqn:Hc; simplify_eq/=.
    case_decide; simplify_eq. exists content. split; [done|]. right.
    by split; [apply served_chunk_fits|].
  - destruct (w_file w) as [[p|p pos f]|]; simplify_eq; [done| |done].
    destruct (w_local w !! p) as [content|] eqn:Hc; simplify_eq/=. eauto.
  - by destruct (w_file w) as [[p|p pos f]|]; simplify_eq.
Qed.

Lemma free_connection_unused w :
  w_connections w !! free_connection w = None /\
  Forall (fun h => fst (fst h) <> free_connection w) (w_handles w).
Proof.
  pose proof (infinite_is_fresh
    (elements (dom (w_connections w)) ++ ((fun h => fst (fst h)) <$> w_handles w))) as Hf.
  fold (free_connection w) in Hf. rewrite elem_of_app, elem_of_elements in Hf. split.
  - apply not_elem_of_dom. tauto.
  - apply Forall_forall. intros h Hin He. apply Hf. right. rewrite <- He.
    by apply (list_elem_of_fmap_2 (fun h => fst (fst h))).
Qed.

Lemma serve_answers {B : Set} (c : client_call B) w b w' :
  serve c w = Some (b, w') -> answers tree_by_name c w b w'.
Proof.
  destruct c; cbn; intros Hs; try (by simplify_eq).
  - simplify_eq. destruct (free_connection_unused w). done.
  - destruct (w_connections w !! connection) as [t|]; simplify_eq/=.
    by apply serve_remote_answers.
  - by apply serve_file_answers.
Qed.

Lemma run_client_runs {A} (p : client A) w o w' :
  run_client p w = Some (o, w') -> client_runs tree_by_name p w o w'.
Proof. apply run_runs. intros B c w1 b w2. apply serve_answers. Qed.
