(* ===== verification/ClientRuns.v ===== *)
(** * The transfers of the native client ([NativeSmbClient.cpp])

    What [downloadFile], [uploadFile], [copy] and [move] do to the local and the
    remote files, in every run over the answers of ClientWorld.v: what a success
    means, what a failure leaves, and that the loops end. *)

From S2P Require Export ClientWorld.
Local Open Scope Z_scope.

Section client_runs.
Context `{Qt} {T : Type} `{Countable T}.
Context (tree_of : DirectTcpEndpoint -> ConnectionConfig -> T).
Context (m_timeoutSeconds : Z) (m_sanitizer : LogSanitizer).
#[local] Abbreviation proves := (cwp tree_of).

(** ** Opening a connection *)

Lemma cwp_clientCancelled stuck context w (Q : world T -> bool -> Prop) :
  (forall b, Q w b) -> proves stuck (clientCancelled context) w Q.
Proof.
  intros HQ. unfold clientCancelled. destruct (cc_cancellationToken context); [|apply HQ].
  intros b w' ->. apply HQ.
Qed.

Lemma cwp_reportProgress stuck context n total w (Q : world T -> unit -> Prop) :
  (forall u, Q w u) -> proves stuck (reportProgress context n total) w Q.
Proof.
  intros HQ. unfold reportProgress. destruct (cc_progressCallback context); [|apply HQ].
  intros b w' ->. apply HQ.
Qed.

Lemma awp_guid_bytes stuck n w (Q : world T -> bytes -> Prop) :
  (forall bs, Q w bs) -> proves stuck (guid_bytes n) w Q.
Proof.
  revert Q. induction n as [|n IH]; intros Q HQ; [apply HQ|].
  apply awp_ask. intros b w' ->. apply awp_bind, IH. intros bs. apply HQ.
Qed.

(** The tree of a connection, and the path the engine is given. *)
Definition tree (connection : Connection) : T :=
  tree_of (endpointForServer (con_server connection)) (nativeConfig connection).
Definition remote_path (path : QString) : bytes := toStdString (normalizeRemotePath path).

(** The failure a method makes of an error of the engine. *)
Definition reports_failure {B} (default : B) (a : returned B) : Prop :=
  match a with
  | Returns r => Result_ok r = false /\ res_value r = default
  | _ => True
  end.

Lemma appError_failure {B} (default : B) e secret :
  err_code e <> ErrorCode_None ->
  reports_failure default (Returns (Result_failure default (appError e m_sanitizer secret))).
Proof.
  intros He. split; [|done]. unfold Result_ok, appError, makeNativeSmbError. cbn.
  destruct secret as [[|]|]; cbn; by destruct (err_code e).
Qed.

Lemma awp_or_fail stuck {A B} (default : B) secret (r : comp A) k w Q :
  coded r -> (forall a, reports_failure default a -> Q w a) ->
  (forall a, r = Ok a -> proves stuck (k a) w Q) ->
  proves stuck (or_fail m_sanitizer default secret r k) w Q.
Proof.
  intros Hc Hf Hk. destruct r as [a|e|m|]; cbn [or_fail].
  - by apply Hk.
  - by apply Hf, appError_failure.
  - by apply Hf.
  - by apply Hf.
Qed.

Definition connect_to (n : nat) (t : T) (w : world T) : world T :=
  set_connections (<[n := t]> (w_connections w)) w.
Definition disconnect (n : nat) (w : world T) : world T :=
  set_handles (filter (fun h => fst (fst h) <> n) (w_handles w))
    (set_connections (delete n (w_connections w)) w).

(** A connection that is no other's, and without handles. *)
Definition unused (n : nat) (w : world T) : Prop :=
  w_connections w !! n = None /\ Forall (fun h => fst (fst h) <> n) (w_handles w).

Lemma cwp_with_connection stuck {B} (default : B) connection secret context k w Q :
  (forall a, reports_failure default a -> Q w a) ->
  (forall cs, unused (cs_connection cs) w ->
    proves stuck (k cs) (connect_to (cs_connection cs) (tree connection) w)
      (fun w' a => Q (disconnect (cs_connection cs) w') a)) ->
  proves stuck (with_connection m_timeoutSeconds m_sanitizer default connection secret
    context k) w Q.
Proof.
  intros Hf Hk. apply awp_bind. unfold openNativeConnection.
  apply awp_bind, cwp_clientCancelled. intros cancelled. destruct cancelled.
  { apply awp_or_fail; [done|done|]. intros a Ha. discriminate. }
  apply awp_ask. intros host w' ->. apply awp_bind. unfold randomClientGuid.
  apply awp_bind, awp_guid_bytes. intros guid r w' [Hc Hr].
  destruct r as [cs|e|m|]; cbn [or_fail].
  2-4: subst w'; apply Hf; try exact I; by apply appError_failure.
  destruct Hr as (Hnew & Hun & ->). apply awp_bind.
  eapply awp_mono; [by apply (Hk cs)|]. intros w' a HQ. apply awp_ask.
  intros u w1 ->. exact HQ.
Qed.

(** An operation of the engine on the connection [cs]. *)
Lemma cwp_remotely stuck {A : Set} cs context (op : remote_op A) t w Q :
  w_connections w !! cs_connection cs = Some t ->
  (forall r w', coded r -> remote_answers (cs_connection cs) t op w r w' -> Q w' r) ->
  proves stuck (remotely m_timeoutSeconds cs context op) w Q.
Proof. intros Ht HQ r w' Ha. cbn in Ha. rewrite Ht in Ha. destruct Ha as [Hc Ha].
  exact (HQ r w' Hc Ha). Qed.

(** Closing a remote handle changes nothing but the handles. *)
Lemma cwp_after_closing stuck cs context fileId k t w (Q : world T -> returned bool -> Prop) :
  w_connections w !! cs_connection cs = Some t ->
  (forall hs a, reports_failure false a -> (forall r, a <> Returns r) ->
     Q (set_handles hs w) a) ->
  (forall hs, proves stuck k (set_handles hs w) Q) ->
  proves stuck (after_closing m_timeoutSeconds cs context fileId k) w Q.
Proof.
  intros Ht HQ Hk. apply awp_bind, (cwp_remotely _ _ _ _ t); [done|].
  assert (w = set_handles (w_handles w) w) as Hw by by destruct w.
  intros r w' _ Ha. cbn in Ha. destruct r as [b|e|m|]; subst w'.
  - apply Hk.
  - rewrite Hw. apply Hk.
  - rewrite Hw. by apply HQ.
  - rewrite Hw. by apply HQ.
Qed.

Lemma cwp_fail_locally stuck w (Q : world T -> returned bool -> Prop) :
  (forall a, reports_failure false a -> Q w a) -> proves stuck fail_locally w Q.
Proof. intros HQ. apply awp_ask. intros s w' ->. by apply HQ. Qed.

(** ** Downloads *)

(** The length the loops ask for is positive as long as something is left. *)
Lemma block_length size offset :
  0 <= offset < size -> is_u64 size ->
  let n := u32 (Z.min kChunkSize (u64 (size - offset))) in
  0 < n /\ n <= size - offset.
Proof.
  intros Ho Hs. cbv zeta. unfold kChunkSize, is_u64 in *.
  rewrite (u64_small (size - offset)) by ulia. rewrite u32_small; unfold is_u32; lia.
Qed.

(** A block that was read moves the offset on, at most to the end. *)
Lemma next_block content offset length data :
  0 <= offset < blen content -> 0 < length -> is_u64 (blen content) ->
  chunk_of content offset length data ->
  0 < blen data /\ offset + blen data <= blen content /\
  u64 (offset + blen data) = offset + blen data /\
  slice 0 offset content ++ data = slice 0 (offset + blen data) content.
Proof.
  intros Ho Hl Hs (n & Hn & -> & Hln & Hmax & Hpos).
  assert (0 < n) by (apply Hpos; lia).
  rewrite blen_slice by lia. replace (offset + n - offset) with n by lia.
  split_and!; [lia|lia|apply u64_small; unfold is_u64 in *; lia|].
  unfold slice. rewrite !drop_0, !Z.sub_0_r.
  replace (Z.to_nat (offset + n - offset)) with (Z.to_nat n) by lia.
  rewrite Z2Nat.inj_add by lia. by rewrite take_take_drop.
Qed.

Definition downloaded (localPath : QString) (content : bytes) (w w' : world T)
    (a : returned bool) : Prop :=
  w_remote w' = w_remote w /\ w_connections w' = w_connections w /\
  (forall p, p <> localPath -> w_local w' !! p = w_local w !! p) /\
  match a with
  | Returns r => Result_ok r = true -> w_local w' !! localPath = Some content
  | _ => True
  end.

Lemma failure_not_ok {B} (default : B) a :
  reports_failure default a ->
  match a with Returns r => Result_ok r = true -> False | _ => True end.
Proof. destruct a as [r| |]; cbn; [|done..]. intros [-> _]. done. Qed.

Lemma cwp_download_loop stuck n cs secret context opened path content localPath t w0 w offset :
  stuck \/ (length content - Z.to_nat offset < n)%nat ->
  nfh_size opened = blen content -> is_u64 (blen content) ->
  0 <= offset <= blen content ->
  w_connections w !! cs_connection cs = Some t ->
  (forall h, h ∈ w_handles w -> fst h = (cs_connection cs, nfh_fileId opened) ->
     snd h = path) ->
  w_remote w !! (t, path) = Some (File content) ->
  w_file w = Some (Writing localPath) ->
  w_local w !! localPath = Some (slice 0 offset content) ->
  w_remote w = w_remote w0 -> w_connections w = w_connections w0 ->
  (forall p, p <> localPath -> w_local w !! p = w_local w0 !! p) ->
  proves stuck (download_loop m_timeoutSeconds m_sanitizer n cs secret context opened offset)
    w (downloaded localPath content w0).
Proof.
  revert w offset. induction n as [|n IH];
    intros w offset Hn Hsize Hu Ho Ht Hhs Hrem Hfile Hloc Hr0 Hc0 Hl0; cbn [download_loop].
  { destruct Hn as [?|?]; [done|lia]. }
  assert (forall hs a, (forall r, a = Returns r -> Result_ok r = true ->
      slice 0 offset content = content) ->
    downloaded localPath content w0 (set_handles hs w) a) as Hend.
  { intros hs a Ha. split_and!; [done..|].
    destruct a as [r| |]; [|done..]. intros Hok. cbn. by rewrite Hloc, (Ha r). }
  assert (forall hs a, reports_failure false a ->
    downloaded localPath content w0 (set_handles hs w) a) as Hfailed.
  { intros hs a Ha. apply Hend. intros r -> Hok. by destruct (failure_not_ok _ _ Ha Hok). }
  assert (forall a, reports_failure false a -> downloaded localPath content w0 w a) as Hfail.
  { intros a Ha. pose proof (Hfailed (w_handles w) a Ha) as Hf.
    by replace (set_handles (w_handles w) w) with w in Hf by by destruct w. }
  rewrite Hsize. destruct (Z.ltb_spec offset (blen content)) as [Hlt|Hge]; cbn [negb].
  2: { eapply cwp_after_closing; [done|by auto|]. intros hs. apply Hend. intros r _ _.
       replace offset with (blen content) by lia. apply slice_all. }
  apply awp_bind, cwp_clientCancelled. intros cancelled. destruct cancelled.
  { eapply cwp_after_closing; [done|by auto|]. intros hs. by apply Hfailed. }
  destruct (block_length (blen content) offset) as [Hpos Hle]; [lia|done|].
  apply awp_bind, (cwp_remotely _ _ _ _ t); [done|]. intros r w1 Hcoded [-> Hr].
  destruct r as [rd|e|m|]; [|..].
  2: { eapply cwp_after_closing; [done|by auto|]. intros hs. by apply Hfailed, appError_failure. }
  2-3: by apply Hfail.
  destruct Hr as (path' & content' & Hin & Hrem' & Hchunk).
  assert (path' = path) as -> by by apply (Hhs _ Hin).
  rewrite Hrem in Hrem'. injection Hrem' as <-.
  destruct (next_block content offset _ (nrr_data rd) ltac:(lia) Hpos Hu Hchunk)
    as (Hd & Hod & Hu64 & Hsl).
  apply awp_ask. intros written w1 Hw. cbn in Hw. rewrite Hfile in Hw.
  destruct Hw as (content1 & data1 & Hl1 & -> & Hfull). rewrite Hloc in Hl1.
  injection Hl1 as <-.
  destruct (Z.eqb_spec written (blen (nrr_data rd))) as [He|He]; cbn [negb].
  2: { eapply cwp_after_closing; [done| |].
       - intros hs a _ Hno. split_and!; [done..| |].
         + intros p Hp. cbn. rewrite lookup_insert_ne by congruence. by apply Hl0.
         + destruct a as [r'| |]; [|done..]. by destruct (Hno r').
       - intros hs. apply cwp_fail_locally. intros a Ha. split_and!; [done..| |].
         + intros p Hp. cbn. rewrite lookup_insert_ne by congruence. by apply Hl0.
         + pose proof (failure_not_ok _ _ Ha) as Hno. destruct a; [|done..].
           intros Hok. by destruct Hno. }
  rewrite (Hfull He) in *. rewrite Hsl, Hu64.
  apply awp_bind, cwp_reportProgress. intros _.
  rewrite (proj2 (Z.eqb_neq (blen (nrr_data rd)) 0)) by lia.
  apply IH; cbn; try done.
  - destruct Hn as [?|Hn]; [by left|right].
    unfold blen in *. lia.
  - lia.
  - apply lookup_insert_eq.
  - intros p Hp. rewrite lookup_insert_ne by congruence. by apply Hl0.
Qed.

Lemma disconnected n t (w : world T) :
  unused n w -> w_connections (disconnect n (connect_to n t w)) = w_connections w.
Proof. intros [Hn _]. cbn. rewrite delete_insert_eq. by apply delete_id. Qed.

Lemma connected_to n t (w : world T) : w_connections (connect_to n t w) !! n = Some t.
Proof. apply lookup_insert_eq. Qed.

(** The object a connection and a path name. *)
Definition remote_key (connection : Connection) (path : QString) : T * bytes :=
  (tree connection, remote_path path).

Lemma cwp_downloadFile stuck fuel connection secret remotePath localPath context w :
  stuck \/ (forall content,
    w_remote w !! remote_key connection remotePath = Some (File content) ->
    (length content < fuel)%nat) ->
  proves stuck (client_downloadFile m_timeoutSeconds m_sanitizer fuel connection secret
    remotePath localPath context) w
    (fun w' a => exists content,
       (forall r, a = Returns r -> Result_ok r = true ->
          w_remote w !! remote_key connection remotePath = Some (File content)) /\
       downloaded localPath content w w' a).
Proof.
  intros Hn. apply cwp_with_connection.
  { intros a Ha. exists []. split.
    - intros r -> Hok. by destruct (failure_not_ok _ _ Ha).
    - split_and!; [done..|]. pose proof (failure_not_ok _ _ Ha). destruct a; [|done..].
      intros Hok. by destruct H1. }
  intros cs Hun. pose proof (connected_to (cs_connection cs) (tree connection) w) as Ht.
  apply awp_bind, (cwp_remotely _ _ _ _ (tree connection)); [done|].
  intros r w1 Hcoded Hr. cbn in Hr.
  assert (forall w' a, reports_failure false a -> w_remote w' = w_remote w ->
    w_local w' = w_local w ->
    w_connections w' = w_connections (connect_to (cs_connection cs) (tree connection) w) ->
    exists content,
       (forall r, a = Returns r -> Result_ok r = true ->
          w_remote w !! remote_key connection remotePath = Some (File content)) /\
       downloaded localPath content w (disconnect (cs_connection cs) w') a) as Hfail.
  { intros w' a Ha Hrem Hloc Hcon. exists []. split.
    - intros r' -> Hok. by destruct (failure_not_ok _ _ Ha).
    - split_and!; [done| | |].
      + cbn. rewrite Hcon. by apply disconnected.
      + intros p _. cbn. by rewrite Hloc.
      + pose proof (failure_not_ok _ _ Ha) as Hno. destruct a; [|done..].
        intros Hok. by destruct Hno. }
  destruct r as [opened|e|m|]; cbn [or_fail].
  2-4: subst w1; apply Hfail; try done; by apply appError_failure.
  destruct Hr as (content & Hrem & Hsize & Hu & ->).
  apply awp_ask. intros isOpen w1 Ho. cbn in Ho. apply awp_bind.
  destruct isOpen; cbn [negb].
  2: { subst w1. eapply cwp_after_closing; [done| |].
       - intros hs a Ha _ u w2 ->. by apply Hfail.
       - intros hs. apply cwp_fail_locally. intros a Ha u w2 ->. by apply Hfail. }
  subst w1. eapply awp_mono.
  - eapply (cwp_download_loop stuck fuel cs secret context opened (remote_path remotePath)
      content localPath (tree connection)
      (set_local (<[localPath := []]> (w_local w))
         (connect_to (cs_connection cs) (tree connection) w))); cbn; try done.
    + destruct Hn as [?|Hn]; [by left|right]. specialize (Hn content Hrem). lia.
    + by rewrite <- Hsize.
    + pose proof (blen_nonneg content). lia.
    + intros h Hin Hh. apply elem_of_cons in Hin as [->|Hin]; [done|].
      destruct Hun as [_ Hun]. rewrite Forall_forall in Hun.
      exfalso. apply (Hun h Hin). by rewrite Hh.
    + by rewrite lookup_insert_eq.
  - intros w' a (Hrem' & Hcon' & Hloc' & Hok). apply awp_ask. intros u w2 ->.
    exists content. split; [by intros|]. split_and!.
    + cbn. by rewrite Hrem'.
    + cbn. rewrite Hcon'. by apply disconnected.
    + intros p Hp. cbn. rewrite Hloc' by done. cbn. by rewrite lookup_insert_ne by congruence.
    + destruct a; [|done..]. exact Hok.
Qed.

(** C8: What a download leaves behind. Whatever the server, the network, the
    local disk and the user do while it runs, the remote side is as it was and
    the connection is closed, no local file but the target is touched, and when
    the download reports success the target holds exactly the content of the
    remote file; with a fuel above the size of the file it always ends. *)
Theorem download_exact fuel connection secret remotePath localPath context w o w' :
  client_runs tree_of (client_downloadFile m_timeoutSeconds m_sanitizer fuel connection
    secret remotePath localPath context) w o w' ->
  match o with
  | None => exists content, (fuel <= length content)%nat /\
      w_remote w !! remote_key connection remotePath = Some (File content)
  | Some a =>
      w_remote w' = w_remote w /\ w_connections w' = w_connections w /\
      (forall p, p <> localPath -> w_local w' !! p = w_local w !! p) /\
      forall r, a = Returns r -> Result_ok r = true -> exists content,
        w_remote w !! remote_key connection remotePath = Some (File content) /\
        w_local w' !! localPath = Some content
  end.
Proof.
  intros Hr. destruct o as [a|].
  - pose proof (awp_runs _ True _ _ _ _ _ (cwp_downloadFile True fuel connection secret
      remotePath localPath context w (or_introl I)) Hr)
      as (content & Hk & Hrem & Hcon & Hloc & Hok).
    split_and!; [done..|]. intros r -> Hr'. exists content. split; [by eapply Hk|by apply Hok].
  - destruct (w_remote w !! remote_key connection remotePath) as [[content|]|] eqn:Hk.
    1: destruct (decide (fuel <= length content)%nat) as [Hle|Hgt]; [by exists content|].
    all: exfalso; refine (awp_runs _ False _ _ _ _ _ (cwp_downloadFile False fuel connection
      secret remotePath localPath context w _) Hr); right; rewrite Hk; intros c [= <-].
    lia.
Qed.

(** ** Uploads *)

(** Worlds that differ at most in the remote object at [key]. *)
Definition same_but (key : T * bytes) (w w' : world T) : Prop :=
  exists files, w' = set_remote files w /\
    forall k, k <> key -> files !! k = w_remote w !! k.

Lemma same_but_refl key w : same_but key w w.
Proof. exists (w_remote w). by destruct w. Qed.

Lemma same_but_trans key w1 w2 w3 :
  same_but key w1 w2 -> same_but key w2 w3 -> same_but key w1 w3.
Proof.
  intros (f1 & -> & H1) (f2 & -> & H2). exists f2. split; [done|].
  intros k Hk. rewrite H2 by done. by apply H1.
Qed.

Lemma same_but_at key w w' : only_at key w w' -> same_but key w w'.
Proof.
  intros [n ->]. eexists. split; [done|]. intros k Hk.
  by rewrite lookup_partial_alter_ne by congruence.
Qed.

Lemma same_but_insert key n w : same_but key w (set_remote (<[key := n]> (w_remote w)) w).
Proof.
  eexists. split; [done|]. intros k Hk. by rewrite lookup_insert_ne by congruence.
Qed.

Lemma same_but_delete key w : same_but key w (set_remote (delete key (w_remote w)) w).
Proof.
  eexists. split; [done|]. intros k Hk. by rewrite lookup_delete_ne by congruence.
Qed.

Lemma cwp_clear_target stuck cs secret context path k t w (Q : world T -> returned bool -> Prop) :
  w_connections w !! cs_connection cs = Some t ->
  (forall w' a, same_but (t, path) w w' -> reports_failure false a -> Q w' a) ->
  (forall w', same_but (t, path) w w' -> w_remote w' !! (t, path) = None ->
     proves stuck k w' Q) ->
  proves stuck (clear_target m_timeoutSeconds m_sanitizer cs secret context path k) w Q.
Proof.
  intros Ht Hf Hk. apply awp_bind, (cwp_remotely _ _ _ _ t); [done|].
  intros r w1 Hc [-> Hr]. pose proof (same_but_refl (t, path) w) as Hrefl.
  destruct r as [st|e|m|]; [| |by apply Hf..].
  - apply awp_bind, (cwp_remotely _ _ _ _ t); [done|]. intros r w1 Hc1 Hr1. cbn in Hr1.
    assert (w1 = w \/ w1 = set_remote (delete (t, path) (w_remote w)) w ->
      same_but (t, path) w w1) as Hgone.
    { intros [->| ->]; [done|apply same_but_delete]. }
    destruct r as [x|e|m|]; cbn [or_fail].
    + destruct Hr1 as [_ ->]. apply Hk; [apply same_but_delete|].
      apply lookup_delete_eq.
    + apply Hf; [by apply Hgone|by apply appError_failure].
    + apply Hf; [by apply Hgone|done].
    + apply Hf; [by apply Hgone|done].
  - destruct (bool_decide_reflect (err_code e = ErrorCode_FileNotFound)) as [He|He];
      cbn [negb].
    + by apply Hk; [|apply Hr].
    + by apply Hf, appError_failure.
Qed.

(** The remote object after [offset] bytes of [content] were written: there is
    none before the first. *)
Definition written_so_far (content : bytes) (offset : Z) : option node :=
  if offset =? 0 then None else Some (File (slice 0 offset content)).

Lemma overlay_end content data offset :
  offset = blen content -> overlay content data offset = content ++ data.
Proof.
  intros ->. unfold overlay, blen. rewrite !Nat2Z.id, Nat.sub_diag. cbn.
  rewrite take_ge by lia. rewrite drop_ge by lia. by rewrite app_nil_r.
Qed.

(** One more block written. *)
Lemma write_block t path data content offset (w w' : world T) :
  0 <= offset -> offset + blen data <= blen content -> 0 < blen data ->
  slice 0 offset content ++ data = slice 0 (offset + blen data) content ->
  w_remote w !! (t, path) = written_so_far content offset ->
  match w_remote w !! (t, path) with
  | Some Directory => False
  | Some (File c) => w' = set_remote (<[(t, path) := File (overlay c data offset)]>
                                        (w_remote w)) w
  | None => w' = set_remote (<[(t, path) := File (overlay [] data offset)]>
                               (w_remote w)) w
  end ->
  same_but (t, path) w w' /\
  w_remote w' !! (t, path) = written_so_far content (offset + blen data).
Proof.
  intros Ho Hle Hd Hsl Hw. unfold written_so_far in *. rewrite Hw.
  rewrite (proj2 (Z.eqb_neq (offset + blen data) 0)) by lia.
  destruct (Z.eqb_spec offset 0) as [->|Hne]; intros ->.
  all: split; [apply same_but_insert|]; cbn; rewrite lookup_insert_eq; do 2 f_equal.
  - rewrite overlay_end by done. exact Hsl.
  - rewrite overlay_end; [exact Hsl|]. rewrite blen_slice by lia. lia.
Qed.

Definition uploaded (key : T * bytes) (content : bytes) (w w' : world T)
    (a : returned bool) : Prop :=
  w_local w' = w_local w /\ w_connections w' = w_connections w /\
  (forall k, k <> key -> w_remote w' !! k = w_remote w !! k) /\
  match a with
  | Returns r => Result_ok r = true ->
      w_remote w' !! key = match content with [] => None | _ => Some (File content) end
  | _ => True
  end.

Lemma uploaded_failure key content w w' a :
  w_local w' = w_local w -> w_connections w' = w_connections w ->
  (forall k, k <> key -> w_remote w' !! k = w_remote w !! k) ->
  reports_failure false a -> uploaded key content w w' a.
Proof.
  intros ??? Ha. split_and!; [done..|]. pose proof (failure_not_ok _ _ Ha) as Hno.
  destruct a; [|done..]. intros Hok. by destruct Hno.
Qed.

Lemma cwp_upload_loop stuck n cs secret context path content localPath total t w0 w offset :
  stuck \/ (length content - Z.to_nat offset < n)%nat ->
  blen content < 2 ^ 63 -> 0 <= offset <= blen content ->
  w_connections w !! cs_connection cs = Some t ->
  w_file w = Some (Reading localPath offset false) ->
  w_local w !! localPath = Some content ->
  w_remote w !! (t, path) = written_so_far content offset ->
  w_local w = w_local w0 -> w_connections w = w_connections w0 ->
  (forall k, k <> (t, path) -> w_remote w !! k = w_remote w0 !! k) ->
  proves stuck (upload_loop m_timeoutSeconds m_sanitizer n cs secret context path total offset)
    w (uploaded (t, path) content w0).
Proof.
  revert w offset. induction n as [|n IH];
    intros w offset Hn Hu Ho Ht Hfile Hloc Hrem Hl0 Hc0 Hr0; cbn [upload_loop].
  { destruct Hn as [?|?]; [done|lia]. }
  apply awp_ask. intros atEnd w1 Ha. cbn in Ha. rewrite Hfile in Ha.
  destruct Ha as [-> (c & Hc & ->)]. rewrite Hloc in Hc. injection Hc as <-.
  destruct (Z.leb_spec (blen content) offset) as [Hge|Hlt].
  { split_and!; [done..|]. intros _. rewrite Hrem. unfold written_so_far.
    assert (offset = blen content) as -> by lia. rewrite slice_all. by destruct content. }
  apply awp_bind, cwp_clientCancelled. intros cancelled. destruct cancelled.
  { by apply uploaded_failure. }
  apply awp_ask. intros data w1 Hrd. cbn in Hrd. rewrite Hfile in Hrd.
  destruct Hrd as (c & Hc & Hrd). rewrite Hloc in Hc. injection Hc as <-.
  destruct Hrd as [[-> ->]|[Hchunk ->]].
  { cbn [blen length Z.of_nat Z.eqb]. apply awp_bind. cbn. intros b w1 [-> ->].
    apply cwp_fail_locally. intros a Ha. by apply uploaded_failure. }
  pose proof (next_block content offset kChunkSize data ltac:(lia) ltac:(done)
    ltac:(unfold is_u64; lia) Hchunk) as (Hd & Hod & Hu64 & Hsl).
  rewrite (proj2 (Z.eqb_neq (blen data) 0)) by lia. apply awp_bind. cbn [cwp].
  apply awp_bind, (cwp_remotely _ _ _ _ t); [done|]. intros r w1 Hcoded Hw. cbn in Hw.
  assert (only_at (t, path) (set_file (Some (Reading localPath (offset + blen data) false)) w)
    w1 -> forall a, reports_failure false a -> uploaded (t, path) content w0 w1 a) as Hfail.
  { intros [nd ->] a Ha. apply uploaded_failure; try done. cbn. intros k Hk.
    rewrite lookup_partial_alter_ne by congruence. by apply Hr0. }
  destruct r as [x|e|m|]; cbn [or_fail]; [|by apply Hfail, appError_failure|by apply Hfail..].
  pose proof (write_block t path data content offset
    (set_file (Some (Reading localPath (offset + blen data) false)) w) w1
    ltac:(lia) Hod Hd Hsl Hrem Hw) as [(files & -> & Hsame) Hrem'].
  rewrite Hu64. apply awp_bind, cwp_reportProgress. intros _.
  apply IH; try done.
  - destruct Hn as [?|Hn]; [by left|right]. unfold blen in *. lia.
  - lia.
  - intros k Hk. cbn. rewrite Hsame by done. by apply Hr0.
Qed.

Lemma cwp_uploadFile stuck fuel connection secret localPath remotePath context w :
  stuck \/ (forall content, w_local w !! localPath = Some content ->
    (length content < fuel)%nat) ->
  proves stuck (client_uploadFile m_timeoutSeconds m_sanitizer fuel connection secret
    localPath remotePath context) w
    (fun w' a => exists content,
       (forall r, a = Returns r -> Result_ok r = true ->
          w_local w !! localPath = Some content) /\
       uploaded (remote_key connection remotePath) content w w' a).
Proof.
  intros Hn. set (key := remote_key connection remotePath).
  assert (forall w' a, w_local w' = w_local w -> w_connections w' = w_connections w ->
    (forall k, k <> key -> w_remote w' !! k = w_remote w !! k) ->
    reports_failure false a ->
    exists content, (forall r, a = Returns r -> Result_ok r = true ->
          w_local w !! localPath = Some content) /\ uploaded key content w w' a) as Hfail.
  { intros w' a Hl Hc Hr Ha. exists []. split; [|by apply uploaded_failure].
    intros r -> Hok. by destruct (failure_not_ok _ _ Ha). }
  apply cwp_with_connection; [intros a Ha; by apply Hfail|].
  intros cs Hun. pose proof (connected_to (cs_connection cs) (tree connection) w) as Ht.
  pose proof (disconnected (cs_connection cs) (tree connection) w Hun) as Hdis.
  set (w1 := connect_to (cs_connection cs) (tree connection) w) in *.
  apply awp_ask. intros isOpen w2 Ho. cbn in Ho. apply awp_bind.
  destruct isOpen; cbn [negb].
  2: { subst w2. apply cwp_fail_locally. intros a Ha u w2 ->. by apply Hfail. }
  destruct Ho as [(content & Hloc & Hu) ->].
  apply (cwp_clear_target _ _ _ _ _ _ (tree connection)); [done| |].
  - intros w2 a (files & -> & Hsame) Ha u w3 ->. by apply Hfail.
  - intros w2 (files & -> & Hsame) Hnone. apply awp_ask. intros total w3 ->.
    eapply awp_mono.
    + eapply (cwp_upload_loop stuck fuel cs secret context (remote_path remotePath) content
        localPath total (tree connection)
        (set_remote files (set_file (Some (Reading localPath 0 false)) w1)) _ 0); try done.
      * destruct Hn as [?|Hn]; [by left|right]. specialize (Hn content Hloc). lia.
      * pose proof (blen_nonneg content). lia.
    + intros w3 a (Hl & Hc & Hr & Hok). apply awp_ask. intros u w4 ->.
      exists content. split; [done|]. split_and!.
      * exact Hl.
      * cbn. rewrite Hc. exact Hdis.
      * intros k Hk. cbn. rewrite Hr by done. by apply Hsame.
      * exact Hok.
Qed.


(** ** Copies *)

(** The target of a copy of [content] while its first [offset] bytes are right:
    nothing but zeros of them may be missing, and nothing is behind the end. *)
Definition copied_so_far (content : bytes) (offset : Z) (n : option node) : Prop :=
  match n with
  | None => offset = 0
  | Some (File c) => offset <= blen c <= blen content /\ slice 0 offset c = slice 0 offset content
  | Some Directory => False
  end.

Lemma slice_prefix (l : bytes) n : 0 <= n -> slice 0 n l = take (Z.to_nat n) l.
Proof. intros. unfold slice. by rewrite drop_0, Z.sub_0_r. Qed.

Lemma overlay_partial content c data offset :
  0 <= offset -> offset + blen data <= blen content ->
  slice 0 offset content ++ data = slice 0 (offset + blen data) content ->
  offset <= blen c <= blen content -> slice 0 offset c = slice 0 offset content ->
  offset + blen data <= blen (overlay c data offset) <= blen content /\
  slice 0 (offset + blen data) (overlay c data offset)
    = slice 0 (offset + blen data) content.
Proof.
  intros Ho Hle Hsl Hc Hpre. unfold overlay.
  replace (Z.to_nat offset - length c)%nat with 0%nat by (unfold blen in *; lia).
  cbn [zeros replicate app]. rewrite <- slice_prefix by done. rewrite Hpre. split.
  - len. rewrite blen_slice by lia. unfold blen in *.
    rewrite length_drop. pose proof (Zle_0_nat (length data)). lia.
  - rewrite app_assoc, Hsl. rewrite slice_prefix by (pose proof (blen_nonneg data); lia).
    assert (length (slice 0 (offset + blen data) content) = Z.to_nat (offset + blen data))
      as Hl.
    { pose proof (blen_slice 0 (offset + blen data) content) as Hb.
      pose proof (blen_nonneg data). unfold blen in *. lia. }
    rewrite <- Hl. by rewrite take_app_length.
Qed.

(** One more block of a copy. *)
Lemma copy_block t path data content offset (w w' : world T) :
  0 <= offset -> offset + blen data <= blen content ->
  slice 0 offset content ++ data = slice 0 (offset + blen data) content ->
  copied_so_far content offset (w_remote w !! (t, path)) ->
  remote_answers 0 t (WriteFileOnce path data offset) w (Ok (mkNativeWriteResult 0 0)) w' ->
  same_but (t, path) w w' /\
  exists c, w_remote w' !! (t, path) = Some (File c) /\
    copied_so_far content (offset + blen data) (Some (File c)).
Proof.
  intros Ho Hle Hsl Hc Hw. cbn in Hw.
  destruct (w_remote w !! (t, path)) as [[c|]|]; [|done|]; subst w'.
  all: split; [apply same_but_insert|]; eexists; cbn [set_remote w_remote].
  all: split; [apply lookup_insert_eq|].
  - destruct Hc as [Hb Hpre]. by apply overlay_partial.
  - cbn in Hc. subst offset. apply overlay_partial; try done.
    split; [done|]. apply blen_nonneg.
Qed.

(** The copy is complete. *)
Lemma copied_whole content c :
  copied_so_far content (blen content) (Some (File c)) -> c = content.
Proof.
  intros [Hb Hs]. assert (blen content = blen c) as He by lia.
  rewrite He in Hs at 1. by rewrite !slice_all in Hs.
Qed.

Definition copied_to (sourceKey key : T * bytes) (w w' : world T) (a : returned bool) : Prop :=
  w_local w' = w_local w /\ w_connections w' = w_connections w /\
  (forall k, k <> key -> w_remote w' !! k = w_remote w !! k) /\
  match a with
  | Returns r => Result_ok r = true -> exists content,
      w_remote w !! sourceKey = Some (File content) /\
      w_remote w' !! key = Some (File content)
  | _ => True
  end.

Lemma copied_failure sourceKey key w w' a :
  w_local w' = w_local w -> w_connections w' = w_connections w ->
  (forall k, k <> key -> w_remote w' !! k = w_remote w !! k) ->
  reports_failure false a -> copied_to sourceKey key w w' a.
Proof.
  intros ??? Ha. split_and!; [done..|]. pose proof (failure_not_ok _ _ Ha) as Hno.
  destruct a; [|done..]. intros Hok. by destruct Hno.
Qed.

(** The worlds of a copy: [w0] with some changes at the target. *)
Section copying.
Context (source target : client_state) (sourceSecret targetSecret : secret_pointer).
Context (context : CoreContext) (ts tt' : T) (sourcePath targetPath content : bytes).
Context (w0 : world T) (stuck : Prop).
Context (Hs : w_connections w0 !! cs_connection source = Some ts).
Context (Ht : w_connections w0 !! cs_connection target = Some tt').
Context (Hne : (ts, sourcePath) <> (tt', targetPath)).
Context (Hcontent : w_remote w0 !! (ts, sourcePath) = Some (File content)).
Context (Hu : is_u64 (blen content)).
#[local] Abbreviation done_by := (copied_to (ts, sourcePath) (tt', targetPath) w0).

Lemma copy_source w :
  same_but (tt', targetPath) w0 w -> w_remote w !! (ts, sourcePath) = Some (File content).
Proof. intros (files & -> & Hf). cbn. by rewrite Hf. Qed.

Lemma copy_fails w a :
  same_but (tt', targetPath) w0 w -> reports_failure false a -> done_by w a.
Proof. intros (files & -> & Hf) Ha. by apply copied_failure. Qed.

Lemma copy_succeeds w r :
  same_but (tt', targetPath) w0 w ->
  w_remote w !! (tt', targetPath) = Some (File content) -> done_by w (Returns r).
Proof.
  intros (files & -> & Hf) Hk. split_and!; [done..|]. intros _. by exists content.
Qed.

Lemma cwp_copy_blocks n w offset :
  stuck \/ (length content - Z.to_nat offset < n)%nat ->
  same_but (tt', targetPath) w0 w -> 0 <= offset <= blen content ->
  copied_so_far content offset (w_remote w !! (tt', targetPath)) ->
  (offset = blen content -> w_remote w !! (tt', targetPath) = Some (File content)) ->
  proves stuck (copy_blocks m_timeoutSeconds m_sanitizer n source target sourceSecret
    targetSecret context sourcePath targetPath (blen content) offset) w done_by.
Proof.
  revert w offset. induction n as [|n IH]; intros w offset Hn Hw Ho Hc Hend;
    cbn [copy_blocks].
  { destruct Hn as [?|?]; [done|lia]. }
  destruct (Z.ltb_spec offset (blen content)) as [Hlt|Hge]; cbn [negb].
  2: { apply copy_succeeds; [done|]. apply Hend. lia. }
  apply awp_bind, cwp_clientCancelled. intros cancelled. destruct cancelled.
  { by apply copy_fails. }
  destruct (block_length (blen content) offset) as [Hpos Hle]; [lia|done|].
  pose proof Hw as (files & -> & Hf).
  apply awp_bind, (cwp_remotely _ _ _ _ ts); [exact Hs|]. intros r w1 Hc1 [-> Hr].
  apply awp_or_fail; [done|intros a Ha; by apply copy_fails|]. intros rd ->.
  destruct Hr as (content' & Hrem & Hchunk). rewrite (copy_source _ Hw) in Hrem.
  injection Hrem as <-.
  pose proof (next_block content offset _ (nrr_data rd) ltac:(lia) Hpos Hu Hchunk)
    as (Hd & Hod & Hu64 & Hsl).
  apply awp_bind, (cwp_remotely _ _ _ _ tt'); [exact Ht|]. intros r w1 Hc2 Hr.
  destruct r as [x|e|m|]; cbn [or_fail].
  2-4: apply copy_fails; [|try exact I; by apply appError_failure].
  2-4: eapply same_but_trans; [exact Hw|by apply same_but_at].
  pose proof (copy_block tt' targetPath (nrr_data rd) content offset _ w1 ltac:(lia) Hod Hsl
    Hc Hr) as (Hw1 & c & Hk & Hc').
  rewrite Hu64. apply awp_bind, cwp_reportProgress. intros _.
  rewrite (proj2 (Z.eqb_neq (blen (nrr_data rd)) 0)) by lia.
  apply IH.
  - destruct Hn as [?|Hn]; [by left|right]. unfold blen in *. lia.
  - by eapply same_but_trans.
  - lia.
  - by rewrite Hk.
  - intros He. rewrite Hk. rewrite He in Hc'. by rewrite (copied_whole content c Hc').
Qed.

Lemma cwp_copy_through n w :
  stuck \/ (length content < n)%nat -> same_but (tt', targetPath) w0 w ->
  copied_so_far content 0 (w_remote w !! (tt', targetPath)) ->
  proves stuck (copy_through m_timeoutSeconds m_sanitizer n source target sourceSecret
    targetSecret context sourcePath targetPath (blen content)) w done_by.
Proof.
  intros Hn Hw Hc. unfold copy_through. destruct (Z.eqb_spec (blen content) 0) as [Hz|Hz].
  - pose proof Hw as (files & -> & Hf).
    apply awp_bind, (cwp_remotely _ _ _ _ tt'); [exact Ht|]. intros r w1 Hc2 Hr.
    destruct r as [x|e|m|]; cbn [or_fail].
    2-4: apply copy_fails; [|try exact I; by apply appError_failure].
    2-4: eapply same_but_trans; [exact Hw|by apply same_but_at].
    pose proof (copy_block tt' targetPath [] content 0 _ w1 ltac:(lia)
      ltac:(rewrite Hz; done) ltac:(by rewrite app_nil_r) Hc Hr) as (Hw1 & c & Hk & Hc').
    apply awp_bind, cwp_reportProgress. intros _.
    apply copy_succeeds; [by eapply same_but_trans|].
    rewrite Hk, (copied_whole content c); [done|]. rewrite Hz. exact Hc'.
  - pose proof (blen_nonneg content). apply cwp_copy_blocks; try done; try lia.
    destruct Hn as [?|Hn]; [by left|right]. lia.
Qed.

Lemma cwp_copy_on_server k w :
  ts = tt' -> same_but (tt', targetPath) w0 w ->
  w_remote w !! (tt', targetPath) = None ->
  (forall w', same_but (tt', targetPath) w0 w' ->
     copied_so_far content 0 (w_remote w' !! (tt', targetPath)) ->
     proves stuck k w' done_by) ->
  proves stuck (copy_on_server m_timeoutSeconds m_sanitizer source target sourceSecret
    context sourcePath targetPath (blen content) k) w done_by.
Proof.
  intros Htree Hw Hnone Hk. pose proof Hw as (files & -> & Hf).
  apply awp_bind, (cwp_remotely _ _ _ _ ts); [exact Hs|]. intros r w1 Hc1 Hr. cbn in Hr.
  assert (forall w', w' = set_remote files w0 \/ (exists c, blen c <= blen content /\
      w' = set_remote (<[(ts, targetPath) := File c]> (w_remote (set_remote files w0)))
             (set_remote files w0)) ->
    same_but (tt', targetPath) w0 w' /\
    copied_so_far content 0 (w_remote w' !! (tt', targetPath))) as Hpartial.
  { intros w' [->|(c & Hb & ->)].
    - split; [done|]. cbn in Hnone |- *. by rewrite Hnone.
    - rewrite Htree. split; [eapply same_but_trans; [exact Hw|apply same_but_insert]|].
      cbn. rewrite lookup_insert_eq. pose proof (blen_nonneg c). split; [lia|done]. }
  destruct r as [x|e|m|].
  - destruct Hr as (content' & Hrem & ->). pose proof (copy_source _ Hw) as Hsrc.
    cbn in Hsrc. rewrite Hsrc in Hrem. injection Hrem as <-. rewrite slice_all.
    replace (ts, targetPath) with (tt', targetPath) by by rewrite Htree.
    apply copy_succeeds.
    + eapply same_but_trans; [exact Hw|apply same_but_insert].
    + apply lookup_insert_eq.
  - destruct (Hpartial w1 Hr) as [Hw1 Hp1].
    destruct (bool_decide _); [by apply copy_fails; [|apply appError_failure]|].
    pose proof Hw1 as (files1 & Hw1e & _).
    apply awp_bind, (cwp_remotely _ _ _ _ tt'); [by subst w1|].
    intros r w2 Hc2 [-> Hr2].
    destruct r as [st|e'|m|]; [|by apply Hk|by apply copy_fails..].
    apply awp_bind, (cwp_remotely _ _ _ _ tt'); [by subst w1|].
    intros r w2 Hc3 Hr3. cbn in Hr3.
    assert (same_but (tt', targetPath) w0 w2 /\
      copied_so_far content 0 (w_remote w2 !! (tt', targetPath))) as [Hw2 Hp2].
    { assert (w2 = w1 \/ w2 = set_remote (delete (tt', targetPath) (w_remote w1)) w1)
        as [->| ->] by (destruct r; tauto); [done|].
      split; [eapply same_but_trans; [exact Hw1|apply same_but_delete]|].
      cbn. by rewrite lookup_delete_eq. }
    destruct r; [by apply Hk..|by apply copy_fails|by apply copy_fails].
  - by apply copy_fails; [apply Hpartial|].
  - by apply copy_fails; [apply Hpartial|].
Qed.
End copying.

Lemma cwp_copy stuck fuel sourceConnection sourceSecret sourceRemotePath targetConnection
    targetSecret targetRemotePath context w :
  let sourceKey := remote_key sourceConnection sourceRemotePath in
  let key := remote_key targetConnection targetRemotePath in
  sourceKey <> key ->
  (sameRemoteTree sourceConnection targetConnection = true ->
     tree sourceConnection = tree targetConnection) ->
  stuck \/ (forall content, w_remote w !! sourceKey = Some (File content) ->
    (length content < fuel)%nat) ->
  proves stuck (client_copy m_timeoutSeconds m_sanitizer fuel sourceConnection sourceSecret
    sourceRemotePath targetConnection targetSecret targetRemotePath context) w
    (copied_to sourceKey key w).
Proof.
  intros sourceKey key Hne Hsame Hn.
  apply cwp_with_connection; [intros a Ha; by apply copied_failure|].
  intros source Hun1. set (w1 := connect_to (cs_connection source) (tree sourceConnection) w).
  apply cwp_with_connection.
  { intros a Ha. apply copied_failure; try done. by apply disconnected. }
  intros target Hun2.
  set (w2 := connect_to (cs_connection target) (tree targetConnection) w1).
  assert (w_connections w2 !! cs_connection source = Some (tree sourceConnection)) as Hs.
  { assert (cs_connection target <> cs_connection source) as Hd.
    { intros He. destruct Hun2 as [Hun2 _]. rewrite He in Hun2. cbn in Hun2.
      by rewrite lookup_insert_eq in Hun2. }
    cbn. by rewrite lookup_insert_ne, lookup_insert_eq. }
  assert (w_connections w2 !! cs_connection target = Some (tree targetConnection)) as Ht
    by apply connected_to.
  assert (forall w' a, copied_to sourceKey key w2 w' a -> copied_to sourceKey key w
    (disconnect (cs_connection source) (disconnect (cs_connection target) w')) a) as Hclose.
  { intros w' a (Hl & Hc & Hr & Hok). split_and!; [exact Hl| |exact Hr|exact Hok].
    change (delete (cs_connection source) (delete (cs_connection target) (w_connections w'))
      = w_connections w). rewrite Hc.
    change (delete (cs_connection source)
      (w_connections (disconnect (cs_connection target) w2)) = w_connections w).
    unfold w2. rewrite disconnected by done. by apply disconnected. }
  eapply (awp_mono _ _ _ _ (copied_to sourceKey key w2)); [|exact Hclose].
  apply awp_bind, (cwp_remotely _ _ _ _ (tree sourceConnection)); [done|].
  intros r w3 Hc [-> Hr]. pose proof (same_but_refl key w2) as Hrefl.
  apply awp_or_fail; [done|by intros a Ha; apply copied_failure|]. intros st ->.
  destruct Hr as (n & Hnode & Hdir & Hu & Hfile). rewrite Hdir.
  destruct n as [content|]; [|by apply copied_failure].
  destruct Hfile as [Hsize _]. rewrite Hsize in *. cbn [is_directory].
  assert (stuck \/ (length content < fuel)%nat) as Hfuel.
  { destruct Hn as [?|Hn]; [by left|right]. by apply Hn. }
  apply (cwp_clear_target _ _ _ _ _ _ (tree targetConnection)); [done| |].
  { intros w3 a (files & -> & Hf) Ha. by apply copied_failure. }
  intros w3 Hw3 Hnone.
  assert (forall w', same_but key w2 w' ->
    copied_so_far content 0 (w_remote w' !! key) ->
    proves stuck (copy_through m_timeoutSeconds m_sanitizer fuel source target sourceSecret
      targetSecret context (remote_path sourceRemotePath) (remote_path targetRemotePath)
      (blen content)) w' (copied_to sourceKey key w2)) as Hthrough.
  { intros w' Hw' Hp. by apply (cwp_copy_through source target sourceSecret targetSecret
      context (tree sourceConnection) (tree targetConnection)). }
  destruct (sameRemoteTree _ _) eqn:Hst.
  - apply (cwp_copy_on_server source target sourceSecret context (tree sourceConnection)
      (tree targetConnection)); try done. by apply Hsame.
  - apply Hthrough; [done|]. by assert (w_remote w3 !! key = None) as -> by exact Hnone.
Qed.


(** ** Moves *)

(** Removing a file: at the end it is as it was or gone, gone for sure after a
    success. *)
Definition removed_file (key : T * bytes) (w w' : world T) (a : returned bool) : Prop :=
  w_local w' = w_local w /\ w_connections w' = w_connections w /\
  (forall k, k <> key -> w_remote w' !! k = w_remote w !! k) /\
  (w_remote w' !! key = w_remote w !! key \/ w_remote w' !! key = None) /\
  match a with
  | Returns r => Result_ok r = true -> w_remote w' !! key = None
  | _ => True
  end.

Lemma cwp_remove_file stuck connection secret remotePath context content w :
  w_remote w !! remote_key connection remotePath = Some (File content) ->
  proves stuck (client_remove m_timeoutSeconds m_sanitizer connection secret remotePath
    context) w (removed_file (remote_key connection remotePath) w).
Proof.
  intros Hfile. set (key := remote_key connection remotePath) in *.
  assert (forall w' a, w_local w' = w_local w -> w_connections w' = w_connections w ->
    w_remote w' = w_remote w \/ w_remote w' = delete key (w_remote w) ->
    reports_failure false a -> removed_file key w w' a) as Hfail.
  { intros w' a Hl Hc Hr Ha. split_and!; [done..| | |].
    - intros k Hk. destruct Hr as [->| ->]; [done|]. by rewrite lookup_delete_ne by congruence.
    - destruct Hr as [->| ->]; [by left|right]. apply lookup_delete_eq.
    - pose proof (failure_not_ok _ _ Ha) as Hno. destruct a; [|done..].
      intros Hok. by destruct Hno. }
  apply cwp_with_connection; [intros a Ha; apply Hfail; by auto|].
  intros cs Hun. pose proof (disconnected (cs_connection cs) (tree connection) w Hun) as Hdis.
  set (w1 := connect_to (cs_connection cs) (tree connection) w) in *.
  pose proof (connected_to (cs_connection cs) (tree connection) w) as Ht.
  apply awp_bind, (cwp_remotely _ _ _ _ (tree connection)); [done|].
  intros r w2 Hc [-> Hr]. apply awp_or_fail; [done|intros a Ha; apply Hfail; by auto|].
  intros st ->. destruct Hr as (n & Hnode & Hdir & _ & Hst). cbn in Hnode.
  change (w_remote w !! key = Some n) in Hnode. rewrite Hfile in Hnode. injection Hnode as <-.
  rewrite Hdir. cbn [is_directory andb]. apply awp_bind, (cwp_remotely _ _ _ _ (tree connection));
    [done|]. intros r w2 Hc2 Hr2. cbn in Hr2. change ((tree connection, _)) with key in Hr2.
  destruct r as [x|e|m|]; cbn [or_fail].
  2-4: apply Hfail; [by destruct Hr2 as [->| ->]|by destruct Hr2 as [->| ->]
    |destruct Hr2 as [->| ->]; by auto|try exact I; by apply appError_failure].
  destruct Hr2 as [_ ->]. split_and!; [done|exact Hdis| | |].
  - intros k Hk. cbn. by rewrite lookup_delete_ne by congruence.
  - right. apply lookup_delete_eq.
  - intros _. apply lookup_delete_eq.
Qed.

(** How a move of the file [content] can end. *)
Definition moved (sourceKey key : T * bytes) (content : bytes) (w w' : world T)
    (a : returned bool) : Prop :=
  w_local w' = w_local w /\ w_connections w' = w_connections w /\
  (forall k, k <> sourceKey -> k <> key -> w_remote w' !! k = w_remote w !! k) /\
  (w_remote w' !! sourceKey = Some (File content) \/ w_remote w' !! key = Some (File content)) /\
  match a with
  | Returns r => Result_ok r = true ->
      w_remote w' !! key = Some (File content) /\
      (sourceKey <> key -> w_remote w' !! sourceKey = None)
  | _ => True
  end.

Lemma moved_failure sourceKey key content w w' a :
  w_local w' = w_local w -> w_connections w' = w_connections w ->
  (forall k, k <> sourceKey -> k <> key -> w_remote w' !! k = w_remote w !! k) ->
  w_remote w' !! sourceKey = Some (File content) \/ w_remote w' !! key = Some (File content) ->
  reports_failure false a -> moved sourceKey key content w w' a.
Proof.
  intros ???? Ha. split_and!; [done..|]. pose proof (failure_not_ok _ _ Ha) as Hno.
  destruct a; [|done..]. intros Hok. by destruct Hno.
Qed.

Lemma cwp_rename_file stuck connection secret sourceRemotePath targetRemotePath context
    content w :
  let sourceKey := remote_key connection sourceRemotePath in
  let key := remote_key connection targetRemotePath in
  w_remote w !! sourceKey = Some (File content) ->
  proves stuck (client_rename m_timeoutSeconds m_sanitizer connection secret
    sourceRemotePath targetRemotePath context) w (moved sourceKey key content w).
Proof.
  intros sourceKey key Hfile.
  apply cwp_with_connection; [intros a Ha; apply moved_failure; by auto|].
  intros cs Hun. pose proof (disconnected (cs_connection cs) (tree connection) w Hun) as Hdis.
  set (w1 := connect_to (cs_connection cs) (tree connection) w) in *.
  pose proof (connected_to (cs_connection cs) (tree connection) w) as Ht.
  apply awp_bind, (cwp_remotely _ _ _ _ (tree connection)); [done|].
  intros r w2 Hc Hr.
  set (renamed := set_remote (<[key := File content]> (delete sourceKey (w_remote w))) w1).
  assert (w2 = w1 \/ w2 = renamed) as Hw2.
  { assert (forall w', rename_effect (tree connection) (remote_path sourceRemotePath)
      (remote_path targetRemotePath) w1 w' -> w' = renamed) as Heff.
    { intros w' He. unfold rename_effect in He.
      change (w_remote w1 !! (tree connection, remote_path sourceRemotePath))
        with (w_remote w !! sourceKey) in He. rewrite Hfile in He. exact He. }
    cbn in Hr. destruct r; [right; by apply Heff|..];
      (destruct Hr as [->|Hr]; [by left|right; by apply Heff]). }
  assert (w_local w2 = w_local w /\ w_connections (disconnect (cs_connection cs) w2)
    = w_connections w /\ (forall k, k <> sourceKey -> k <> key ->
      w_remote w2 !! k = w_remote w !! k)) as (Hl & Hcon & Hrem).
  { destruct Hw2 as [->| ->]; split_and!; try done. intros k Hk1 Hk2. cbn.
    rewrite lookup_insert_ne, lookup_delete_ne by congruence. done. }
  destruct r as [x|e|m|]; cbn [or_fail].
  - assert (w2 = renamed) as ->.
    { cbn in Hr. unfold rename_effect in Hr.
      change (w_remote w1 !! (tree connection, _))
        with (w_remote w !! sourceKey) in Hr. rewrite Hfile in Hr. exact Hr. }
    split_and!; [done|done|done|right; apply lookup_insert_eq|].
    intros _. split; [apply lookup_insert_eq|]. intros Hne. cbn.
    rewrite lookup_insert_ne by congruence. apply lookup_delete_eq.
  - apply moved_failure; [done..| |by apply appError_failure].
    destruct Hw2 as [->| ->]; [by left|right; apply lookup_insert_eq].
  - apply moved_failure; [done..| |done].
    destruct Hw2 as [->| ->]; [by left|right; apply lookup_insert_eq].
  - apply moved_failure; [done..| |done].
    destruct Hw2 as [->| ->]; [by left|right; apply lookup_insert_eq].
Qed.

Lemma cwp_move stuck fuel sourceConnection sourceSecret sourceRemotePath targetConnection
    targetSecret targetRemotePath context content w :
  let sourceKey := remote_key sourceConnection sourceRemotePath in
  let key := remote_key targetConnection targetRemotePath in
  (if sameRemoteTree sourceConnection targetConnection
   then tree sourceConnection = tree targetConnection else sourceKey <> key) ->
  w_remote w !! sourceKey = Some (File content) ->
  stuck \/ (length content < fuel)%nat ->
  proves stuck (client_move m_timeoutSeconds m_sanitizer fuel sourceConnection sourceSecret
    sourceRemotePath targetConnection targetSecret targetRemotePath context) w
    (moved sourceKey key content w).
Proof.
  intros sourceKey key Htrees Hfile Hn. unfold client_move.
  destruct (sameRemoteTree sourceConnection targetConnection) eqn:Hsame.
  - assert (key = remote_key sourceConnection targetRemotePath) as ->
      by (unfold key, remote_key; by rewrite Htrees).
    by apply cwp_rename_file.
  - apply awp_bind. eapply awp_mono.
    + apply cwp_copy; [exact Htrees|by rewrite Hsame|].
      destruct Hn as [?|Hn]; [by left|right]. intros c Hc.
      change (w_remote w !! sourceKey = Some (File c)) in Hc.
      rewrite Hfile in Hc. by injection Hc as <-.
    + intros w1 a (Hl & Hc & Hr & Hok).
      fold sourceKey key in Hr, Hok.
      assert (w_remote w1 !! sourceKey = Some (File content)) as Hsrc
        by (by rewrite Hr).
      assert (forall a', reports_failure false a' -> moved sourceKey key content w w1 a')
        as Hfail.
      { intros a' Ha. apply moved_failure; try done; [|by left].
        intros k Hk1 Hk2. by apply Hr. }
      destruct a as [r|m|]; [|by apply Hfail..].
      destruct (Result_ok r) eqn:Hrok; cbn [negb].
      2: { split_and!; [done|done| |by left|by rewrite Hrok]. intros k Hk1 Hk2. by apply Hr. }
      destruct (Hok eq_refl) as (c & Hc' & Hk). rewrite Hfile in Hc'. injection Hc' as <-.
      eapply awp_mono; [by apply (cwp_remove_file _ _ _ _ _ content)|].
      intros w2 a (Hl2 & Hc2 & Hr2 & Hor & Hok2).
      fold sourceKey in Hr2, Hor, Hok2.
      assert (w_remote w2 !! key = Some (File content)) as Hk2 by (by rewrite Hr2).
      split_and!.
      * by rewrite Hl2.
      * by rewrite Hc2.
      * intros k Hks Hkt. rewrite Hr2 by done. by apply Hr.
      * by right.
      * destruct a; [|done..]. intros Hrok2. split; [done|]. intros _. by apply Hok2.
Qed.

End client_runs.

(** ** Runs over a world without failures *)

Definition connection_as (user share : string) : Connection :=
  mkConnection [] [] (QStringLiteral "server") (QStringLiteral share) []
    (QStringLiteral user) AuthType_Password.
Definition silent : CoreContext := mkCoreContext true true.
Definition key_of (share path : string) : host_share * bytes :=
  ((QStringLiteral "server", QStringLiteral share), QStringLiteral path).

(** A remote file [a] on the share [x], another [b], and local ones. *)
Definition start : named_world :=
  mkWorld {[ key_of "x" "a" := File [1; 2; 3]; key_of "x" "b" := File [9] ]}
    {[ QStringLiteral "l" := [4; 5]; QStringLiteral "empty" := [] ]} ∅ [] None.

(** [p] ends from [start] with a result and a world that satisfy [Q]. *)
Definition ends_with (p : client (returned bool)) (Q : Result bool -> named_world -> Prop) : Prop :=
  exists r w', run_client p start = Some (Some (Returns r), w') /\ Q r w'.

#[export] Instance node_eq_dec : EqDecision node.
Proof. solve_decision. Defined.

Lemma ends_with_compute (p : client (returned bool)) Q {HQ : forall r w, Decision (Q r w)} :
  match run_client p start with
  | Some (Some (Returns r), w') => bool_decide (Q r w')
  | _ => false
  end = true -> ends_with p Q.
Proof.
  unfold ends_with. destruct (run_client p start) as [[[[r| |]|] w']|]; [|done..].
  intros HQ'%bool_decide_eq_true. eauto.
Qed.
Ltac run_it := eapply ends_with_compute; vm_compute; reflexivity.

Abbreviation path := QStringLiteral.
Abbreviation download := (client_downloadFile 30 [] 4).
Abbreviation upload := (client_uploadFile 30 [] 4).
Abbreviation copy := (client_copy 30 [] 4).
Abbreviation move := (client_move 30 [] 4).

Lemma run_download :
  ends_with (download (connection_as "u" "x") None (path "/a") (path "l") silent)
    (fun r w' => Result_ok r = true).
Proof. run_it. Qed.

Lemma run_upload :
  ends_with (upload (connection_as "u" "x") None (path "l") (path "b") silent)
    (fun r w' => Result_ok r = true).
Proof. run_it. Qed.

Lemma run_copy :
  ends_with (copy (connection_as "u" "x") None (path "a") (connection_as "u" "y") None
      (path "c") silent)
    (fun r w' => Result_ok r = true).
Proof. run_it. Qed.

Lemma run_move :
  ends_with (move (connection_as "u" "x") None (path "a") (connection_as "u" "y") None
      (path "c") silent)
    (fun r w' => Result_ok r = true).
Proof. run_it. Qed.

(** The upload of an empty file deletes the target and creates none. *)
Lemma upload_empty_deletes :
  ends_with (upload (connection_as "u" "x") None (path "empty") (path "b") silent)
    (fun r w' => Result_ok r = true /\
       w_remote start !! key_of "x" "b" = Some (File [9]) /\
       w_remote w' !! key_of "x" "b" = None).
Proof. run_it. Qed.

(** A file copied onto itself is deleted. *)
Lemma copy_onto_itself_deletes :
  ends_with (copy (connection_as "u" "x") None (path "a") (connection_as "u" "x") None
      (path "/a") silent)
    (fun r w' => Result_ok r = false /\ w_remote w' !! key_of "x" "a" = None).
Proof. run_it. Qed.

(** So is one that is moved to its own place by way of another account. *)
Lemma move_to_its_place_deletes :
  ends_with (move (connection_as "u" "x") None (path "a") (connection_as "v" "x") None
      (path "a") silent)
    (fun r w' => Result_ok r = false /\ w_remote w' !! key_of "x" "a" = None).
Proof. run_it. Qed.

Lemma keys_named :
  remote_key tree_by_name (connection_as "u" "x") (path "/a") = key_of "x" "a" /\
  remote_key tree_by_name (connection_as "u" "x") (path "a") = key_of "x" "a" /\
  remote_key tree_by_name (connection_as "u" "x") (path "b") = key_of "x" "b" /\
  remote_key tree_by_name (connection_as "u" "y") (path "c") = key_of "y" "c" /\
  key_of "x" "a" <> key_of "y" "c" /\
  sameRemoteTree (connection_as "u" "x") (connection_as "u" "y") = false.
Proof. split_and!; vm_compute; done. Qed.

Lemma download_exact_witness :
  ends_with (download (connection_as "u" "x") None (path "/a") (path "l") silent)
    (fun r w' => Result_ok r = true /\ exists content,
       w_remote start !! key_of "x" "a" = Some (File content) /\
       w_local w' !! path "l" = Some content).
Proof.
  destruct run_download as (r & w' & Hrun & Hok). exists r, w'. split_and!; [exact Hrun|exact Hok|].
  apply run_client_runs, download_exact in Hrun. destruct Hrun as (_ & _ & _ & Hd).
  destruct keys_named as (<- & _). exact (Hd r eq_refl Hok).
Defined.



