(* ===== verification/DfsClient.v ===== *)
(** * The client that follows DFS referrals ([DfsResolvingSmbClient.cpp])

    It stands between the application and another [SmbClient]: an operation that
    fails in a way that suggests DFS is tried again on the targets a resolver
    names, and those are cached.  [dfs] is the monad of its methods: the other
    client, the resolver and the clock answer calls, and so does the lock of the
    caches, because other threads may change them while it is not held.  The two
    clients are called through their interface, so an exception of theirs, which
    would end a method here as well, is not among the answers. *)

From S2P Require Export NativeClient.
From stdpp Require Export gmap.
Local Open Scope Z_scope.

(** [toString(AuthType)] of [Connection.cpp] *)
Definition authType_toString (authType : AuthType) : QString :=
  match authType with
  | AuthType_Password => QStringLiteral "password"
  | AuthType_Guest => QStringLiteral "guest"
  | AuthType_Anonymous => QStringLiteral "anonymous"
  | AuthType_CurrentUser => QStringLiteral "current_user"
  end.

Section dfs_client.
Context `{Qt}.

(** ** Data *)

(** A [QDateTime] in UTC: invalid, or in milliseconds. *)
Definition utc : Set := option Z.

Record DfsResolvedConnection : Set := mkDfsResolvedConnection {
  drc_connection : Connection;
  drc_ttlSeconds : Z
}.

Record DfsResolvedPath : Set := mkDfsResolvedPath {
  drp_connection : Connection;
  drp_remotePath : QString;
  drp_originalPathPrefix : QString;
  drp_targetPathPrefix : QString;
  drp_ttlSeconds : Z
}.

Record DfsConnectionCacheEntry : Set := mkDfsConnectionCacheEntry {
  cce_targets : list Connection;
  cce_expiresAtUtc : utc
}.

Record DfsPathMapping : Set := mkDfsPathMapping {
  dpm_connectionKey : QString;
  dpm_originalPrefix : QString;
  dpm_targetConnection : Connection;
  dpm_targetPrefix : QString;
  dpm_expiresAtUtc : utc
}.

Record DfsPathMappingCacheEntry : Set := mkDfsPathMappingCacheEntry {
  pce_mappings : list DfsPathMapping;
  pce_expiresAtUtc : utc
}.

(** What [m_cacheMutex] guards. *)
Record dfs_caches : Set := mkDfsCaches {
  m_resolvedConnections : gmap QString DfsConnectionCacheEntry;
  m_resolvedPathMappings : gmap QString DfsPathMappingCacheEntry
}.

(** The operations of the interface [SmbClient]. *)
Inductive smb_op : Set -> Type :=
| Smb_capabilities (connection : Connection) : smb_op SmbClientCapabilities
| Smb_probeCapabilities (connection : Connection) (secret : secret_pointer)
    : smb_op (Result SmbCapabilityReport)
| Smb_listShares (connection : Connection) (secret : secret_pointer)
    : smb_op (Result (list SmbShareInfo))
| Smb_checkConnection (connection : Connection) (secret : secret_pointer)
    : smb_op (Result bool)
| Smb_listDirectory (connection : Connection) (secret : secret_pointer)
    (remotePath : QString) : smb_op (Result (list RemoteFileEntry))
| Smb_createDirectory (connection : Connection) (secret : secret_pointer)
    (remotePath : QString) : smb_op (Result bool)
| Smb_remove (connection : Connection) (secret : secret_pointer)
    (remotePath : QString) : smb_op (Result bool)
| Smb_rename (connection : Connection) (secret : secret_pointer)
    (sourceRemotePath targetRemotePath : QString) : smb_op (Result bool)
| Smb_downloadFile (connection : Connection) (secret : secret_pointer)
    (remotePath localPath : QString) : smb_op (Result bool)
| Smb_uploadFile (connection : Connection) (secret : secret_pointer)
    (localPath remotePath : QString) : smb_op (Result bool)
| Smb_copy (sourceConnection : Connection) (sourceSecret : secret_pointer)
    (sourceRemotePath : QString) (targetConnection : Connection)
    (targetSecret : secret_pointer) (targetRemotePath : QString) : smb_op (Result bool)
| Smb_move (sourceConnection : Connection) (sourceSecret : secret_pointer)
    (sourceRemotePath : QString) (targetConnection : Connection)
    (targetSecret : secret_pointer) (targetRemotePath : QString) : smb_op (Result bool).

(** [LockCaches] is the constructor of a [QMutexLocker] and [UnlockCaches] its
    destructor; [CacheOrder] is the order in which a [QHash] is walked through. *)
Inductive dfs_call : Set -> Type :=
| Delegate (A : Set) (op : smb_op A) (context : CoreContext) : dfs_call A
| ResolveTargets (connection : Connection) (secret : secret_pointer)
    (context : CoreContext) : dfs_call (Result (list DfsResolvedConnection))
| ResolvePathTargets (connection : Connection) (secret : secret_pointer)
    (remotePath : QString) (context : CoreContext)
    : dfs_call (Result (list DfsResolvedPath))
| CurrentDateTimeUtc : dfs_call Z
| CacheOrder (mappings : gmap QString DfsPathMappingCacheEntry)
    : dfs_call (list DfsPathMappingCacheEntry)
| LockCaches : dfs_call dfs_caches
| UnlockCaches (caches : dfs_caches) : dfs_call unit.
Arguments Delegate {A} op context.

Abbreviation dfs := (asking dfs_call).

(** ** Helpers *)

Definition kLine : QString := [0x0A].

Definition cacheKey (connection : Connection) : QString :=
  toLower (con_server connection) ++ kLine ++ toLower (con_share connection) ++ kLine ++
  toLower (con_domain connection) ++ kLine ++ toLower (con_username connection) ++ kLine ++
  authType_toString (con_authType connection).

Definition pathCacheKey (connection : Connection) (originalPrefix : QString) : QString :=
  cacheKey connection ++ kLine ++ dfs_normalizeRemotePath originalPrefix.

Definition targetPathForMapping (mapping : DfsPathMapping) (remotePath : QString) : QString :=
  dfs_joinRemotePath (dpm_targetPrefix mapping)
    (suffixAfterPrefix remotePath (dpm_originalPrefix mapping)).

Definition originalPathForMapping (mapping : DfsPathMapping) (targetPath : QString) : QString :=
  dfs_joinRemotePath (dpm_originalPrefix mapping)
    (suffixAfterPrefix targetPath (dpm_targetPrefix mapping)).

Definition with_remotePath (path : QString) (entry : RemoteFileEntry) : RemoteFileEntry :=
  mkRemoteFileEntry (rfe_name entry) path (rfe_type entry) (rfe_size entry)
    (rfe_modifiedAt entry) (rfe_attributes entry) (rfe_permissions entry) (rfe_isHidden entry).

Definition rebaseEntriesToOriginalNamespace (entries : list RemoteFileEntry)
    (mapping : DfsPathMapping) : list RemoteFileEntry :=
  (fun entry => with_remotePath (originalPathForMapping mapping (rfe_remotePath entry)) entry)
  <$> entries.

Definition mentions (error : AppError) (words : list string) : bool :=
  existsb (fun word => contains (toLower (ae_sanitizedTechnicalDetails error))
                         (QStringLiteral word)) words.

Definition looksLikeShareDfsReferralFailure (error : AppError) : bool :=
  if negb (bool_decide (ae_code error = App_ShareUnavailable)) then false else
  mentions error
    ["bad network name"; "bad_network_name"; "status_bad_network_name"; "tree connect"]%string.

Definition looksLikePathDfsReferralFailure (error : AppError) : bool :=
  if negb (bool_decide (ae_code error = App_ShareUnavailable))
     && negb (bool_decide (ae_code error = App_NetworkError)) then false else
  mentions error
    ["path not covered"; "path_not_covered"; "status_path_not_covered"; "0xc0000257"]%string.

Definition looksLikeDfsReferralFailure (error : AppError) : bool :=
  looksLikeShareDfsReferralFailure error || looksLikePathDfsReferralFailure error.

Definition mayHavePathDfsReferral (error : AppError) : bool :=
  looksLikeDfsReferralFailure error
  || bool_decide (ae_code error = App_ShareUnavailable)
  || bool_decide (ae_code error = App_PermissionDenied).

Definition sameResolvedTarget (l r : DfsPathMapping) : bool :=
  let l := dpm_targetConnection l in
  let r := dpm_targetConnection r in
  equalsIgnoringCase (con_server l) (con_server r)
  && equalsIgnoringCase (con_share l) (con_share r)
  && equalsIgnoringCase (con_domain l) (con_domain r)
  && equalsIgnoringCase (con_username l) (con_username r)
  && bool_decide (con_authType l = con_authType r).

Definition expiresAtForTtl (ttlSeconds : Z) : dfs utc :=
  now ← ask CurrentDateTimeUtc;
  mret (Some (now + Z.max 1 ttlSeconds * 1000)).

Definition isCacheFresh (expiresAtUtc : utc) : dfs bool :=
  match expiresAtUtc with
  | None => mret true
  | Some expires =>
      now ← ask CurrentDateTimeUtc;
      mret (now <? expires)
  end.

Definition isTargetFailoverError (error : AppError) : bool :=
  match ae_code error with
  | App_ServerUnavailable | App_ShareUnavailable | App_Timeout | App_NetworkError => true
  | _ => false
  end.

(** [if (!expiresAtUtc.isValid() || next < expiresAtUtc) expiresAtUtc = next;] *)
Definition earlier (expiresAtUtc next : utc) : utc :=
  match expiresAtUtc, next with
  | Some expires, Some next => Some (Z.min expires next)
  | None, _ => next
  | Some _, None => next
  end.

(** ** The caches *)

Definition cachedResolvedConnections (connection : Connection) : dfs (list Connection) :=
  caches ← ask LockCaches;
  targets ← match m_resolvedConnections caches !! cacheKey connection with
            | None => mret []
            | Some entry =>
                isFresh ← isCacheFresh (cce_expiresAtUtc entry);
                mret (if isFresh : bool then cce_targets entry else [])
            end;
  _ ← ask (UnlockCaches caches);
  mret targets.

Fixpoint targets_loop (resolved : list DfsResolvedConnection) (targets : list Connection)
    (expiresAtUtc : utc) : dfs (list Connection * utc) :=
  match resolved with
  | [] => mret (targets, expiresAtUtc)
  | target :: resolved =>
      targetExpiresAt ← expiresAtForTtl (drc_ttlSeconds target);
      targets_loop resolved (targets ++ [drc_connection target])
        (earlier expiresAtUtc targetExpiresAt)
  end.

Definition resolveAndCache (connection : Connection) (secret : secret_pointer)
    (context : CoreContext) : dfs (list Connection) :=
  resolved ← ask (ResolveTargets connection secret context);
  if negb (Result_ok resolved) || bool_decide (length (res_value resolved) = 0%nat) then mret [] else
  '(targets, expiresAtUtc) ← targets_loop (res_value resolved) [] None;
  caches ← ask LockCaches;
  _ ← ask (UnlockCaches (mkDfsCaches
        (<[cacheKey connection := mkDfsConnectionCacheEntry targets expiresAtUtc]>
           (m_resolvedConnections caches)) (m_resolvedPathMappings caches)));
  mret targets.

Definition forgetCachedConnection (connection : Connection) : dfs unit :=
  caches ← ask LockCaches;
  ask (UnlockCaches (mkDfsCaches
    (delete (cacheKey connection) (m_resolvedConnections caches))
    (m_resolvedPathMappings caches))).

Definition cachedResolvedConnection (connection : Connection) : dfs (option Connection) :=
  targets ← cachedResolvedConnections connection;
  mret (head targets).

(** The entry with the longest prefix so far, after its first mapping. *)
Fixpoint best_entry (sourceKey normalizedPath : QString)
    (entries : list DfsPathMappingCacheEntry)
    (best : option (DfsPathMapping * DfsPathMappingCacheEntry))
    : dfs (option (DfsPathMapping * DfsPathMappingCacheEntry)) :=
  match entries with
  | [] => mret best
  | entry :: entries =>
      isFresh ← isCacheFresh (pce_expiresAtUtc entry);
      match pce_mappings entry with
      | [] => best_entry sourceKey normalizedPath entries best
      | firstMapping :: _ =>
          if negb isFresh then best_entry sourceKey normalizedPath entries best else
          if negb (bool_decide (dpm_connectionKey firstMapping = sourceKey))
             || negb (isPathPrefix (dpm_originalPrefix firstMapping) normalizedPath)
          then best_entry sourceKey normalizedPath entries best
          else
            best_entry sourceKey normalizedPath entries
              (match best with
               | Some (first, _) =>
                   if blen (dpm_originalPrefix first) <? blen (dpm_originalPrefix firstMapping)
                   then Some (firstMapping, entry) else best
               | None => Some (firstMapping, entry)
               end)
      end
  end.

Definition cachedResolvedPathMappings (connection : Connection) (remotePath : QString)
    : dfs (list DfsPathMapping) :=
  let sourceKey := cacheKey connection in
  let normalizedPath := dfs_normalizeRemotePath remotePath in
  caches ← ask LockCaches;
  entries ← ask (CacheOrder (m_resolvedPathMappings caches));
  best ← best_entry sourceKey normalizedPath entries None;
  _ ← ask (UnlockCaches caches);
  mret (match best with Some (_, entry) => pce_mappings entry | None => [] end).

Definition cachedResolvedPathMapping (connection : Connection) (remotePath : QString)
    : dfs (option DfsPathMapping) :=
  mappings ← cachedResolvedPathMappings connection remotePath;
  mret (head mappings).

Fixpoint mappings_loop (connection : Connection) (remotePath : QString)
    (resolved : list DfsResolvedPath) (mappings : list DfsPathMapping) (expiresAtUtc : utc)
    : dfs (list DfsPathMapping * utc) :=
  match resolved with
  | [] => mret (mappings, expiresAtUtc)
  | resolvedPath :: resolved =>
      expires ← expiresAtForTtl (drp_ttlSeconds resolvedPath);
      let mapping := mkDfsPathMapping (cacheKey connection)
        (dfs_normalizeRemotePath
           (if isEmpty (drp_originalPathPrefix resolvedPath) then remotePath
            else drp_originalPathPrefix resolvedPath))
        (drp_connection resolvedPath)
        (dfs_normalizeRemotePath
           (if isEmpty (drp_targetPathPrefix resolvedPath) then [kSlash]
            else drp_targetPathPrefix resolvedPath))
        expires in
      mappings_loop connection remotePath resolved (mappings ++ [mapping])
        (earlier expiresAtUtc expires)
  end.

Definition resolvePathAndCache (connection : Connection) (secret : secret_pointer)
    (remotePath : QString) (context : CoreContext) : dfs (list DfsPathMapping) :=
  resolved ← ask (ResolvePathTargets connection secret remotePath context);
  if negb (Result_ok resolved) || bool_decide (length (res_value resolved) = 0%nat)
  then mret [] else
  '(mappings, expiresAtUtc) ← mappings_loop connection remotePath (res_value resolved) [] None;
  caches ← ask LockCaches;
  _ ← ask (UnlockCaches (mkDfsCaches (m_resolvedConnections caches)
        (<[pathCacheKey connection
             (match mappings with m :: _ => dpm_originalPrefix m | [] => [] end) :=
             mkDfsPathMappingCacheEntry mappings expiresAtUtc]>
           (m_resolvedPathMappings caches))));
  mret mappings.

Definition forgetCachedPathMapping (connection : Connection) (originalPrefix : QString)
    : dfs unit :=
  caches ← ask LockCaches;
  ask (UnlockCaches (mkDfsCaches (m_resolvedConnections caches)
    (delete (pathCacheKey connection originalPrefix) (m_resolvedPathMappings caches)))).

(** ** An operation with a fallback *)

Section with_fallback.
Context {T : Set} (default : T).

Definition failing (error : AppError) : Result T := Result_failure default error.

(** How a loop over targets ends: the method returns, or it goes on with the last
    error, and whether the cache entry was dropped. *)
Inductive looped : Set :=
| Returned (result : Result T)
| Went_on (cleared : bool) (lastFailoverError : option AppError).

Section share_fallback.
Context (operation : Connection -> dfs (Result T)).

Fixpoint cached_targets (connection : Connection) (targets : list Connection)
    (lastFailoverError : option AppError) : dfs looped :=
  match targets with
  | [] => mret (Went_on false lastFailoverError)
  | cached :: targets =>
      cachedResult ← operation cached;
      let error := res_error cachedResult in
      if Result_ok cachedResult then mret (Returned cachedResult) else
      if looksLikeShareDfsReferralFailure error then
        _ ← forgetCachedConnection connection;
        mret (Went_on true lastFailoverError)
      else if negb (isTargetFailoverError error) then mret (Returned cachedResult)
      else cached_targets connection targets (Some error)
  end.

Fixpoint resolved_targets (targets : list Connection)
    (lastFailoverError : option AppError) : dfs looped :=
  match targets with
  | [] => mret (Went_on false lastFailoverError)
  | target :: targets =>
      resolvedResult ← operation target;
      let error := res_error resolvedResult in
      if Result_ok resolvedResult then mret (Returned resolvedResult) else
      if negb (isTargetFailoverError error) then mret (Returned resolvedResult)
      else resolved_targets targets (Some error)
  end.

Definition after_cached_targets (connection : Connection) (secret : secret_pointer)
    (context : CoreContext) : dfs (Result T) :=
  result ← operation connection;
  if Result_ok result || negb (looksLikeShareDfsReferralFailure (res_error result))
  then mret result else
  targets ← resolveAndCache connection secret context;
  looped ← resolved_targets targets None;
  match looped with
  | Returned resolvedResult => mret resolvedResult
  | Went_on _ (Some error) => mret (failing error)
  | Went_on _ None => mret result
  end.

Definition runWithDfsFallback (connection : Connection) (secret : secret_pointer)
    (context : CoreContext) : dfs (Result T) :=
  cachedTargets ← cachedResolvedConnections connection;
  looped ← cached_targets connection cachedTargets None;
  match looped with
  | Returned cachedResult => mret cachedResult
  | Went_on false (Some error) => mret (failing error)
  | Went_on _ _ => after_cached_targets connection secret context
  end.
End share_fallback.

Context (operation : Connection -> QString -> dfs (Result T)).
Context (rebase : T -> DfsPathMapping -> T).

Definition rebased (result : Result T) (mapping : DfsPathMapping) : Result T :=
  Result_success (rebase (res_value result) mapping).

Definition composedMapping (outerMapping nestedMapping : DfsPathMapping) : DfsPathMapping :=
  mkDfsPathMapping (dpm_connectionKey outerMapping)
    (originalPathForMapping outerMapping (dpm_originalPrefix nestedMapping))
    (dpm_targetConnection nestedMapping) (dpm_targetPrefix nestedMapping)
    (dpm_expiresAtUtc nestedMapping).

(** The loop of [tryNestedPathMappings], which calls itself as [deeper]. *)
Fixpoint nested_loop
    (deeper : DfsPathMapping -> QString -> AppError -> dfs (option (Result T)))
    (outerMapping : DfsPathMapping) (mappedPath : QString)
    (nestedMappings : list DfsPathMapping) (lastFailoverError : option AppError)
    : dfs (option (Result T)) :=
  match nestedMappings with
  | [] => mret (failing <$> lastFailoverError)
  | nestedMapping :: nestedMappings =>
      let continue := nested_loop deeper outerMapping mappedPath nestedMappings in
      if sameResolvedTarget nestedMapping outerMapping then continue lastFailoverError else
      if negb (isPathPrefix (dpm_originalPrefix nestedMapping) mappedPath)
      then continue lastFailoverError else
      let nestedMappedPath := targetPathForMapping nestedMapping mappedPath in
      nestedResult ← operation (dpm_targetConnection nestedMapping) nestedMappedPath;
      let error := res_error nestedResult in
      if Result_ok nestedResult then
        mret (Some (rebased nestedResult (composedMapping outerMapping nestedMapping)))
      else
      deeperResult ← deeper nestedMapping nestedMappedPath error;
      let after_deeper :=
        if negb (isTargetFailoverError error) then mret (Some (failing error))
        else continue (Some error) in
      match deeperResult with
      | Some deeperResult =>
          if Result_ok deeperResult then mret (Some (rebased deeperResult outerMapping)) else
          if negb (isTargetFailoverError (res_error deeperResult))
          then mret (Some deeperResult) else after_deeper
      | None => after_deeper
      end
  end.

Definition kMaxNestedDfsDepth : nat := 4.

(** [left] is [kMaxNestedDfsDepth - depth]. *)
Fixpoint tryNestedPathMappings (secret : secret_pointer) (context : CoreContext)
    (left : nat) (outerMapping : DfsPathMapping) (mappedPath : QString)
    (triggerError : AppError) : dfs (option (Result T)) :=
  if negb (mayHavePathDfsReferral triggerError) then mret None else
  match left with
  | O => mret None
  | S left =>
      let connection := dpm_targetConnection outerMapping in
      cachedMappings ← cachedResolvedPathMappings connection mappedPath;
      nestedMappings ← (if bool_decide (length cachedMappings = 0%nat)
                        then resolvePathAndCache connection secret mappedPath context
                        else mret cachedMappings);
      nested_loop (tryNestedPathMappings secret context left) outerMapping mappedPath
        nestedMappings None
  end.

Fixpoint cached_mappings (connection : Connection) (secret : secret_pointer)
    (context : CoreContext) (normalizedPath : QString) (mappings : list DfsPathMapping)
    (lastFailoverError : option AppError) : dfs looped :=
  match mappings with
  | [] => mret (Went_on false lastFailoverError)
  | mapping :: mappings =>
      let mappedPath := targetPathForMapping mapping normalizedPath in
      cachedResult ← operation (dpm_targetConnection mapping) mappedPath;
      let error := res_error cachedResult in
      if Result_ok cachedResult then mret (Returned (rebased cachedResult mapping)) else
      nestedResult ← tryNestedPathMappings secret context kMaxNestedDfsDepth mapping
                       mappedPath error;
      let after_nested (lastFailoverError : option AppError) :=
        if looksLikeDfsReferralFailure error then
          _ ← forgetCachedPathMapping connection (dpm_originalPrefix mapping);
          mret (Went_on true lastFailoverError)
        else if negb (isTargetFailoverError error) then mret (Returned cachedResult)
        else cached_mappings connection secret context normalizedPath mappings (Some error) in
      match nestedResult with
      | Some nestedResult =>
          if Result_ok nestedResult || negb (isTargetFailoverError (res_error nestedResult))
          then mret (Returned nestedResult)
          else after_nested (Some (res_error nestedResult))
      | None => after_nested lastFailoverError
      end
  end.

Fixpoint resolved_mappings (secret : secret_pointer) (context : CoreContext)
    (normalizedPath : QString) (mappings : list DfsPathMapping)
    (lastFailoverError : option AppError) : dfs looped :=
  match mappings with
  | [] => mret (Went_on false lastFailoverError)
  | mapping :: mappings =>
      let mappedPath := targetPathForMapping mapping normalizedPath in
      resolvedResult ← operation (dpm_targetConnection mapping) mappedPath;
      let error := res_error resolvedResult in
      if Result_ok resolvedResult then mret (Returned (rebased resolvedResult mapping)) else
      nestedResult ← tryNestedPathMappings secret context kMaxNestedDfsDepth mapping
                       mappedPath error;
      let after_nested :=
        if negb (isTargetFailoverError error) then mret (Returned resolvedResult)
        else resolved_mappings secret context normalizedPath mappings (Some error) in
      match nestedResult with
      | Some nestedResult =>
          if Result_ok nestedResult || negb (isTargetFailoverError (res_error nestedResult))
          then mret (Returned nestedResult) else after_nested
      | None => after_nested
      end
  end.

Definition after_cached_mappings (connection : Connection) (secret : secret_pointer)
    (normalizedPath : QString) (context : CoreContext) : dfs (Result T) :=
  result ← runWithDfsFallback (fun candidate => operation candidate normalizedPath)
             connection secret context;
  if Result_ok result || negb (mayHavePathDfsReferral (res_error result)) then mret result else
  mappings ← resolvePathAndCache connection secret normalizedPath context;
  looped ← resolved_mappings secret context normalizedPath mappings None;
  match looped with
  | Returned resolvedResult => mret resolvedResult
  | Went_on _ (Some error) => mret (failing error)
  | Went_on _ None => mret result
  end.

Definition runWithPathDfsFallback (connection : Connection) (secret : secret_pointer)
    (remotePath : QString) (context : CoreContext) : dfs (Result T) :=
  let normalizedPath := dfs_normalizeRemotePath remotePath in
  cachedMappings ← cachedResolvedPathMappings connection normalizedPath;
  looped ← cached_mappings connection secret context normalizedPath cachedMappings None;
  match looped with
  | Returned cachedResult => mret cachedResult
  | Went_on false (Some error) => mret (failing error)
  | Went_on _ _ => after_cached_mappings connection secret normalizedPath context
  end.
End with_fallback.
Arguments Returned {T} result.
Arguments Went_on {T} cleared lastFailoverError.

(** ** The operations *)

Definition keep (value : bool) (mapping : DfsPathMapping) : bool := value.

Definition dfs_capabilities (connection : Connection) (context : CoreContext)
    : dfs SmbClientCapabilities :=
  ask (Delegate (Smb_capabilities connection) context).

Definition dfs_probeCapabilities (connection : Connection) (secret : secret_pointer)
    (context : CoreContext) : dfs (Result SmbCapabilityReport) :=
  ask (Delegate (Smb_probeCapabilities connection secret) context).

Definition dfs_listShares (connection : Connection) (secret : secret_pointer)
    (context : CoreContext) : dfs (Result (list SmbShareInfo)) :=
  ask (Delegate (Smb_listShares connection secret) context).

Definition dfs_checkConnection (connection : Connection) (secret : secret_pointer)
    (context : CoreContext) : dfs (Result bool) :=
  runWithDfsFallback false
    (fun candidate => ask (Delegate (Smb_checkConnection candidate secret) context))
    connection secret context.

Definition dfs_listDirectory (connection : Connection) (secret : secret_pointer)
    (remotePath : QString) (context : CoreContext) : dfs (Result (list RemoteFileEntry)) :=
  runWithPathDfsFallback []
    (fun candidate candidatePath =>
       ask (Delegate (Smb_listDirectory candidate secret candidatePath) context))
    rebaseEntriesToOriginalNamespace connection secret remotePath context.

Definition dfs_createDirectory (connection : Connection) (secret : secret_pointer)
    (remotePath : QString) (context : CoreContext) : dfs (Result bool) :=
  runWithPathDfsFallback false
    (fun candidate candidatePath =>
       ask (Delegate (Smb_createDirectory candidate secret candidatePath) context))
    keep connection secret remotePath context.

Definition dfs_remove (connection : Connection) (secret : secret_pointer)
    (remotePath : QString) (context : CoreContext) : dfs (Result bool) :=
  runWithPathDfsFallback false
    (fun candidate candidatePath =>
       ask (Delegate (Smb_remove candidate secret candidatePath) context))
    keep connection secret remotePath context.

Definition dfs_downloadFile (connection : Connection) (secret : secret_pointer)
    (remotePath localPath : QString) (context : CoreContext) : dfs (Result bool) :=
  runWithPathDfsFallback false
    (fun candidate candidatePath =>
       ask (Delegate (Smb_downloadFile candidate secret candidatePath localPath) context))
    keep connection secret remotePath context.

Definition dfs_uploadFile (connection : Connection) (secret : secret_pointer)
    (localPath remotePath : QString) (context : CoreContext) : dfs (Result bool) :=
  runWithPathDfsFallback false
    (fun candidate candidatePath =>
       ask (Delegate (Smb_uploadFile candidate secret localPath candidatePath) context))
    keep connection secret remotePath context.

Definition rename_uncached (connection : Connection) (secret : secret_pointer)
    (sourcePath targetPath : QString) (context : CoreContext) : dfs (Result bool) :=
  result ← runWithDfsFallback false
             (fun candidate =>
                ask (Delegate (Smb_rename candidate secret sourcePath targetPath) context))
             connection secret context;
  if Result_ok result || negb (looksLikePathDfsReferralFailure (res_error result))
  then mret result else
  mappings ← resolvePathAndCache connection secret sourcePath context;
  match mappings with
  | [] => mret result
  | mapping :: _ =>
      let mappedTargetPath :=
        if isPathPrefix (dpm_originalPrefix mapping) targetPath
        then targetPathForMapping mapping targetPath else targetPath in
      ask (Delegate (Smb_rename (dpm_targetConnection mapping) secret
             (targetPathForMapping mapping sourcePath) mappedTargetPath) context)
  end.

Definition dfs_rename (connection : Connection) (secret : secret_pointer)
    (sourceRemotePath targetRemotePath : QString) (context : CoreContext)
    : dfs (Result bool) :=
  let sourcePath := dfs_normalizeRemotePath sourceRemotePath in
  let targetPath := dfs_normalizeRemotePath targetRemotePath in
  cachedSource ← cachedResolvedPathMapping connection sourcePath;
  cachedTarget ← cachedResolvedPathMapping connection targetPath;
  let uncached := rename_uncached connection secret sourcePath targetPath context in
  match cachedSource, cachedTarget with
  | Some cachedSource, Some cachedTarget =>
      if negb (sameResolvedTarget cachedSource cachedTarget) then uncached else
      cachedResult ← ask (Delegate (Smb_rename (dpm_targetConnection cachedSource) secret
        (targetPathForMapping cachedSource sourcePath)
        (targetPathForMapping cachedTarget targetPath)) context);
      if Result_ok cachedResult || negb (looksLikeDfsReferralFailure (res_error cachedResult))
      then mret cachedResult else
      _ ← forgetCachedPathMapping connection (dpm_originalPrefix cachedSource);
      _ ← forgetCachedPathMapping connection (dpm_originalPrefix cachedTarget);
      uncached
  | _, _ => uncached
  end.

(** A place: a connection and a path on it. *)
Definition place : Set := Connection * QString.

Definition mapped_place (mapping : DfsPathMapping) (originalPath : QString) : place :=
  (dpm_targetConnection mapping, targetPathForMapping mapping originalPath).

(** [copy] and [move] are alike but for the operation of the other client. *)
Definition between
    (operation : Connection -> secret_pointer -> QString -> Connection -> secret_pointer ->
       QString -> smb_op (Result bool))
    (sourceConnection : Connection) (sourceSecret : secret_pointer)
    (sourceRemotePath : QString) (targetConnection : Connection)
    (targetSecret : secret_pointer) (targetRemotePath : QString) (context : CoreContext)
    : dfs (Result bool) :=
  let originalSourcePath := dfs_normalizeRemotePath sourceRemotePath in
  let originalTargetPath := dfs_normalizeRemotePath targetRemotePath in
  let call (source target : place) :=
    ask (Delegate (operation (fst source) sourceSecret (snd source)
                     (fst target) targetSecret (snd target)) context) in
  resolvedSource ← cachedResolvedConnection sourceConnection;
  resolvedTarget ← cachedResolvedConnection targetConnection;
  sourceMapping ← cachedResolvedPathMapping sourceConnection originalSourcePath;
  targetMapping ← cachedResolvedPathMapping targetConnection originalTargetPath;
  let source := match sourceMapping with
    | Some mapping => mapped_place mapping originalSourcePath
    | None => (default sourceConnection resolvedSource, originalSourcePath) end in
  let target := match targetMapping with
    | Some mapping => mapped_place mapping originalTargetPath
    | None => (default targetConnection resolvedTarget, originalTargetPath) end in
  result ← call source target;
  if Result_ok result then mret result else
  if looksLikePathDfsReferralFailure (res_error result) then
    sourceMappings ← resolvePathAndCache sourceConnection sourceSecret originalSourcePath
                       context;
    let source := match sourceMappings with
      | mapping :: _ => mapped_place mapping originalSourcePath | [] => source end in
    targetMappings ← resolvePathAndCache targetConnection targetSecret
                       (parentRemotePath originalTargetPath) context;
    let target := match targetMappings with
      | mapping :: _ => mapped_place mapping originalTargetPath | [] => target end in
    call source target
  else if negb (looksLikeShareDfsReferralFailure (res_error result)) then mret result
  else
    resolvedSources ← resolveAndCache sourceConnection sourceSecret context;
    resolvedTargets ← resolveAndCache targetConnection targetSecret context;
    call (default sourceConnection (head resolvedSources), originalSourcePath)
         (default targetConnection (head resolvedTargets), originalTargetPath).

Definition dfs_copy := between Smb_copy.
Definition dfs_move := between Smb_move.

End dfs_client.
Arguments Delegate {_ _} op context.
Arguments Returned {T} result.
Arguments Went_on {T} cleared lastFailoverError.
Abbreviation dfs := (asking dfs_call).
