(* ===== verification/DfsRuns.v ===== *)
(** * What the DFS client does ([DfsResolvingSmbClient.cpp])

    In every run of its methods, over any answers of the other client, any
    changes other threads make to the caches while they are not locked, and a
    resolver that tells the truth: which places are tried, that a call that
    succeeded is the last one, and that results are about the path that was asked
    for. *)

From S2P Require Export DfsClient.
Local Open Scope Z_scope.

Section dfs_runs.
Context `{Qt} `{!QtLaws}.

(** ** Segments of mapped paths *)

Definition original_segments (m : DfsPathMapping) : list QString :=
  path_segments (dpm_originalPrefix m).
Definition target_segments (m : DfsPathMapping) : list QString :=
  path_segments (dpm_targetPrefix m).

(** [l] with the original prefix replaced by the target's. *)
Definition mapped (m : DfsPathMapping) (l : list QString) : list QString :=
  target_segments m ++ drop (length (original_segments m)) l.

Lemma neat_app a b : neat a -> neat b -> neat (a ++ b).
Proof.
  intros Ha Hb w c. rewrite last_app. destruct (last b) as [v|] eqn:Hl.
  - intros [= <-]. by apply Hb.
  - by apply Ha.
Qed.

Lemma neat_drop n l : neat l -> neat (drop n l).
Proof.
  intros Hl w c Hw. apply Hl. rewrite <- (take_drop n l), last_app. by rewrite Hw.
Qed.

Lemma mapped_valid m l : Forall segment l -> Forall segment (mapped m l).
Proof.
  intros Hl. apply Forall_app. split; [apply path_segments_valid|by apply Forall_drop].
Qed.

Lemma targetPath_segments m p :
  original_segments m `prefix_of` path_segments p ->
  targetPathForMapping m p = to_path (mapped m (path_segments p)).
Proof.
  intros Hp. unfold targetPathForMapping. rewrite suffixAfterPrefix_segments, decide_True by done.
  by rewrite joinRemotePath_segments by apply Forall_drop, path_segments_valid.
Qed.

(** Mapping back undoes mapping. *)
Lemma originalPath_segments m p rest :
  path_segments p = target_segments m ++ rest ->
  originalPathForMapping m p = to_path (original_segments m ++ rest).
Proof.
  intros Hp. unfold originalPathForMapping.
  rewrite suffixAfterPrefix_segments, Hp, decide_True by by exists rest.
  rewrite drop_app_length, joinRemotePath_segments; [done|].
  pose proof (path_segments_valid p) as Hv. rewrite Hp in Hv.
  by apply Forall_app in Hv as [_ ?].
Qed.

Lemma mapped_neat m l : neat (target_segments m) -> neat l -> neat (mapped m l).
Proof. intros Ht Hl. apply neat_app; [done|by apply neat_drop]. Qed.

(** ** Calls and what they may be answered *)

(** A call of the other client and its answer, as a run records it. *)
Record event : Type := mkEvent {
  ev_call : {A : Set & (smb_op A * A)%type};
  ev_ok : bool;
  ev_error : AppError
}.

Definition report {A : Set} (op : smb_op A) : A -> event :=
  match op in smb_op A return A -> event with
  | Smb_capabilities _ as op => fun a => mkEvent (existT _ (op, a)) true noError
  | Smb_probeCapabilities _ _ as op | Smb_listShares _ _ as op
  | Smb_checkConnection _ _ as op | Smb_listDirectory _ _ _ as op
  | Smb_createDirectory _ _ _ as op | Smb_remove _ _ _ as op | Smb_rename _ _ _ _ as op
  | Smb_downloadFile _ _ _ _ as op | Smb_uploadFile _ _ _ _ as op
  | Smb_copy _ _ _ _ _ _ as op | Smb_move _ _ _ _ _ _ as op =>
      fun r => mkEvent (existT _ (op, r)) (Result_ok r) (res_error r)
  end.

(** Where the file of a path is, by the cache key of its connection: [located] is
    the name space the resolver knows.  [entered key t] says that referrals lead
    to [key] under the prefix [t]; only in a [strict] world the referrals from
    there go on below it. *)
Context {O : Type} (located : QString -> list QString -> O).
Context (strict : Prop) (entered : QString -> list QString -> Prop).

(** A referral that tells the truth. *)
Record truthful (key : QString) (original target : list QString) (c : Connection)
    : Prop := mkTruthful {
  tr_leads rest : located key (original ++ rest) = located (cacheKey c) (target ++ rest);
  tr_original : neat original;
  tr_target : neat target;
  tr_enters : strict -> entered (cacheKey c) target;
  tr_extends t : strict -> entered key t -> t `prefix_of` original
}.

Definition same_tree (key : QString) (c : Connection) : Prop :=
  forall l, located key l = located (cacheKey c) l.

Definition sound_mapping (m : DfsPathMapping) : Prop :=
  truthful (dpm_connectionKey m) (original_segments m) (target_segments m)
    (dpm_targetConnection m).

Definition sound_entry (e : DfsPathMappingCacheEntry) : Prop :=
  match pce_mappings e with
  | [] => True
  | first :: _ =>
      Forall (fun m => sound_mapping m /\ dpm_connectionKey m = dpm_connectionKey first /\
        original_segments m = original_segments first) (pce_mappings e)
  end.

Definition sound_caches (caches : dfs_caches) : Prop :=
  map_Forall (fun key e => Forall (same_tree key) (cce_targets e))
    (m_resolvedConnections caches) /\
  map_Forall (fun _ => sound_entry) (m_resolvedPathMappings caches).

(** What a resolver that tells the truth answers. *)
Definition resolves_shares (c : Connection) (r : Result (list DfsResolvedConnection))
    : Prop :=
  Result_ok r = true ->
  Forall (fun t => same_tree (cacheKey c) (drc_connection t)) (res_value r).

Definition or_else (s t : QString) : QString := if isEmpty s then t else s.

Definition resolves_paths (c : Connection) (path : QString)
    (r : Result (list DfsResolvedPath)) : Prop :=
  Result_ok r = true -> exists original,
  original `prefix_of` path_segments path /\
  Forall (fun p => path_segments (or_else (drp_originalPathPrefix p) path) = original /\
    truthful (cacheKey c) original
      (path_segments (or_else (drp_targetPathPrefix p) [kSlash])) (drp_connection p))
    (res_value r).

(** A run so far: the calls of the other client, and the caches that were put
    back when the lock was released. *)
Record dfs_world : Type := mkDfsWorld {
  dw_events : list event;
  dw_published : list dfs_caches
}.

(** What the other client promises of its answers. *)
Context (delegate_ok : forall A : Set, smb_op A -> A -> Prop).

Definition dfs_answers {B : Set} (c : dfs_call B) : dfs_world -> B -> dfs_world -> Prop :=
  match c in dfs_call B return dfs_world -> B -> dfs_world -> Prop with
  | Delegate op _ => fun w r w' =>
      delegate_ok _ op r /\ w' = mkDfsWorld (dw_events w ++ [report op r]) (dw_published w)
  | ResolveTargets connection _ _ => fun w r w' => w' = w /\ resolves_shares connection r
  | ResolvePathTargets connection _ path _ => fun w r w' =>
      w' = w /\ resolves_paths connection path r
  | CurrentDateTimeUtc => fun w _ w' => w' = w
  | CacheOrder mappings => fun w entries w' =>
      w' = w /\ entries ≡ₚ snd <$> map_to_list mappings
  | LockCaches => fun w caches w' => w' = w /\ sound_caches caches
  | UnlockCaches caches => fun w _ w' =>
      w' = mkDfsWorld (dw_events w) (dw_published w ++ [caches])
  end.

#[local] Abbreviation proves := (awp (fun B => @dfs_answers B) False).

(** Nothing but the caches was touched, and they were left sound. *)
Definition kept (w w' : dfs_world) : Prop := exists caches,
  w' = mkDfsWorld (dw_events w) (dw_published w ++ caches) /\ Forall sound_caches caches.

Lemma kept_refl w : kept w w.
Proof. exists []. rewrite app_nil_r. by destruct w. Qed.

Lemma kept_one w caches :
  sound_caches caches -> kept w (mkDfsWorld (dw_events w) (dw_published w ++ [caches])).
Proof. intros Hc. exists [caches]. by split; [|apply Forall_singleton]. Qed.

(** ** The caches *)

Lemma awp_isCacheFresh expires w Q :
  (forall b, Q w b) -> proves (isCacheFresh expires) w Q.
Proof. intros HQ. destruct expires; [|apply HQ]. intros now w' ->. apply HQ. Qed.

Lemma awp_expiresAtForTtl ttl w Q :
  (forall t, Q w t) -> proves (expiresAtForTtl ttl) w Q.
Proof. intros HQ now w' ->. apply HQ. Qed.

Lemma awp_cachedResolvedConnections c w :
  proves (cachedResolvedConnections c) w
    (fun w' targets => kept w w' /\ Forall (same_tree (cacheKey c)) targets).
Proof.
  apply awp_ask. intros caches w' [-> Hs]. apply awp_bind.
  assert (forall targets, Forall (same_tree (cacheKey c)) targets ->
    proves (_ ← ask (UnlockCaches caches); mret targets) w
      (fun w' targets => kept w w' /\ Forall (same_tree (cacheKey c)) targets)) as Hend.
  { intros targets Ht. apply awp_ask. intros u w' ->. split; [by apply kept_one|done]. }
  destruct (m_resolvedConnections caches !! cacheKey c) as [e|] eqn:He; [|by apply Hend].
  apply awp_bind, awp_isCacheFresh. intros []; apply Hend; [|done].
  by apply (proj1 Hs) in He.
Qed.

Lemma awp_targets_loop key resolved targets expires w Q :
  Forall (same_tree key) targets ->
  Forall (fun t => same_tree key (drc_connection t)) resolved ->
  (forall targets expires, Forall (same_tree key) targets -> Q w (targets, expires)) ->
  proves (targets_loop resolved targets expires) w Q.
Proof.
  intros Ht Hr HQ. revert targets expires Ht.
  induction Hr as [|t resolved Hx Hr IH]; intros targets expires Ht; cbn [targets_loop].
  - by apply HQ.
  - apply awp_bind, awp_expiresAtForTtl. intros x. apply IH. apply Forall_app. by repeat constructor.
Qed.

Lemma awp_resolveAndCache c secret context w :
  proves (resolveAndCache c secret context) w
    (fun w' targets => kept w w' /\ Forall (same_tree (cacheKey c)) targets).
Proof.
  apply awp_ask. intros r w' [-> Hr]. destruct (Result_ok r) eqn:Hok; cbn [negb orb].
  2: { by split; [apply kept_refl|]. }
  case_bool_decide; [by split; [apply kept_refl|]|]. apply awp_bind.
  apply (awp_targets_loop (cacheKey c)); [done|by apply Hr|]. intros targets expires Ht.
  apply awp_ask. intros caches w' [-> [Hs1 Hs2]]. apply awp_ask. intros u w' ->.
  split; [|done]. apply kept_one. split; [|done]. by apply map_Forall_insert_2.
Qed.

Lemma awp_forgetCachedConnection c w :
  proves (forgetCachedConnection c) w (fun w' _ => kept w w').
Proof.
  apply awp_ask. intros caches w1 [-> [Hs1 Hs2]] u w2 ->. apply kept_one. split; [|done].
  by apply map_Forall_delete.
Qed.

Lemma awp_forgetCachedPathMapping c prefix w :
  proves (forgetCachedPathMapping c prefix) w (fun w' _ => kept w w').
Proof.
  apply awp_ask. intros caches w1 [-> [Hs1 Hs2]] u w2 ->. apply kept_one. split; [done|].
  by apply map_Forall_delete.
Qed.

(** A mapping for the path with the segments [l] on the connection with [key]. *)
Definition usable (key : QString) (l : list QString) (m : DfsPathMapping) : Prop :=
  sound_mapping m /\ dpm_connectionKey m = key /\ original_segments m `prefix_of` l.

Lemma usable_entry key l e first rest :
  sound_entry e -> pce_mappings e = first :: rest -> dpm_connectionKey first = key ->
  original_segments first `prefix_of` l -> Forall (usable key l) (pce_mappings e).
Proof.
  unfold sound_entry. intros Hs He Hk Hp. rewrite He in Hs |- *.
  eapply Forall_impl; [exact Hs|]. cbn. intros m (Hm & Hmk & Ho).
  split_and!; [done|congruence|]. by rewrite Ho.
Qed.

Lemma awp_best_entry key path entries best w Q :
  Forall sound_entry entries ->
  (forall m e, best = Some (m, e) -> Forall (usable key (path_segments path)) (pce_mappings e)) ->
  (forall best, (forall m e, best = Some (m, e) ->
     Forall (usable key (path_segments path)) (pce_mappings e)) -> Q w best) ->
  proves (best_entry key path entries best) w Q.
Proof.
  intros He Hb HQ. revert best Hb. induction He as [|e entries Hs He IH]; intros best Hb;
    cbn [best_entry]; [by apply HQ|].
  apply awp_bind, awp_isCacheFresh. intros isFresh.
  destruct (pce_mappings e) as [|first rest] eqn:Hm; [by apply IH|].
  destruct isFresh; cbn [negb]; [|by apply IH].
  case_bool_decide as Hk; cbn [negb orb]; [|by apply IH].
  rewrite isPathPrefix_segments. case_bool_decide as Hp; cbn [negb]; [|by apply IH].
  assert (Forall (usable key (path_segments path)) (pce_mappings e)) as Hu
    by by eapply usable_entry.
  apply IH. intros m e'. destruct best as [[m0 e0]|]; [|by intros [= <- <-]].
  destruct (_ <? _); [by intros [= <- <-]|]. apply Hb.
Qed.

Lemma normalize_neat path :
  neat (path_segments path) ->
  path_segments (dfs_normalizeRemotePath path) = path_segments path.
Proof.
  intros Hn. rewrite normalize_segments. apply neat_spelling; [apply path_segments_valid|done].
Qed.

Lemma awp_cachedResolvedPathMappings c path w :
  neat (path_segments path) ->
  proves (cachedResolvedPathMappings c path) w
    (fun w' ms => kept w w' /\ Forall (usable (cacheKey c) (path_segments path)) ms).
Proof.
  intros Hn. apply awp_ask. intros caches w1 [-> Hs]. apply awp_ask.
  intros entries w1 [-> He]. apply awp_bind. apply awp_best_entry; [| done|].
  - rewrite He. apply Forall_fmap, Forall_forall. intros [k e] Hin%elem_of_map_to_list.
    by apply (proj2 Hs) in Hin.
  - rewrite normalize_neat by done. intros best Hb. apply awp_ask. intros u w1 ->.
    split; [by apply kept_one|]. destruct best as [[m e]|]; [by eapply Hb|done].
Qed.

(** [resolved_for] is what a truthful answer says of every path in it. *)
Definition resolved_for (c : Connection) (path : QString) (original : list QString)
    (p : DfsResolvedPath) : Prop :=
  path_segments (or_else (drp_originalPathPrefix p) path) = original /\
  truthful (cacheKey c) original
    (path_segments (or_else (drp_targetPathPrefix p) [kSlash])) (drp_connection p).

Lemma awp_mappings_loop c path original resolved mappings expires w Q :
  let good m := sound_mapping m /\ dpm_connectionKey m = cacheKey c /\
                original_segments m = original in
  Forall good mappings -> Forall (resolved_for c path original) resolved ->
  (forall mappings' expires, Forall good mappings' ->
     (length mappings' = length mappings + length resolved)%nat -> Q w (mappings', expires)) ->
  proves (mappings_loop c path resolved mappings expires) w Q.
Proof.
  intros good Hm Hr. revert mappings expires Hm.
  induction Hr as [|p resolved [Ho Ht] Hr IH]; intros mappings expires Hm HQ;
    cbn [mappings_loop].
  - apply HQ; [done|cbn; lia].
  - apply awp_bind, awp_expiresAtForTtl. intros x. apply IH.
    + apply Forall_app. split; [done|]. apply Forall_singleton. unfold good, sound_mapping,
        original_segments, target_segments. cbn.
      fold (or_else (drp_originalPathPrefix p) path) (or_else (drp_targetPathPrefix p) [kSlash]).
      rewrite !normalize_neat by (rewrite ?Ho; apply Ht). by rewrite Ho.
    + intros ms e Hms Hl. apply HQ; [done|]. rewrite Hl, length_app. cbn. lia.
Qed.

Lemma awp_resolvePathAndCache c secret path context w :
  proves (resolvePathAndCache c secret path context) w
    (fun w' ms => kept w w' /\ Forall (usable (cacheKey c) (path_segments path)) ms).
Proof.
  apply awp_ask. intros r w1 [-> Hr]. destruct (Result_ok r) eqn:Hok; cbn [negb orb].
  2: { by split; [apply kept_refl|]. }
  case_bool_decide as Hlen; [by split; [apply kept_refl|]|]. apply awp_bind.
  destruct (Hr Hok) as (original & Hpre & Hall).
  apply (awp_mappings_loop c path original); [done|exact Hall|]. intros ms expires Hms Hl.
  apply awp_ask. intros caches w1 [-> [Hs1 Hs2]]. apply awp_ask. intros u w1 ->. split.
  - apply kept_one. split; [done|]. apply map_Forall_insert_2; [|done].
    unfold sound_entry. cbn. destruct ms as [|first rest]; [done|].
    inversion Hms as [|? ? (_ & Hk & Ho) _]; subst.
    eapply Forall_impl; [exact Hms|]. cbn. intros m (? & ? & ?). split_and!; congruence.
  - eapply Forall_impl; [exact Hms|]. cbn. intros m (? & ? & Ho). by split_and!; [..|rewrite Ho].
Qed.

(** ** Tries *)

Section tries.
Context {T : Set} (default : T) (context : CoreContext).
(** The operation at a place, the object it is meant for, ... *)
Context (op_at : Connection -> QString -> smb_op (Result T)).
Context (report_at : forall c p r,
  report (op_at c p) r = mkEvent (existT _ (op_at c p, r)) (Result_ok r) (res_error r)).
Context (goal : O).
(** ... what a result says of a path, and what is the same in two results. *)
Context (fits : list QString -> T -> Prop) (like : T -> T -> Prop).
Context (fits_at : forall c p r, delegate_ok _ (op_at c p) r -> Result_ok r = true ->
  fits (path_segments p) (res_value r)).
Context (like_refl : forall v, like v v).
Context (like_trans : forall u v x, like u v -> like v x -> like u x).
Context (rebase : T -> DfsPathMapping -> T).
Context (rebase_like : forall v m, like v (rebase v m)).
Context (rebase_fits : forall v m rest,
  fits (target_segments m ++ rest) v ->
  fits (original_segments m ++ rest) (rebase v m)).
Context (fits_or_strict : strict \/ forall l v, fits l v).

(** A call of the operation at a place of the object. *)
Definition attempt (e : event) : Prop := exists c p r,
  ev_call e = existT _ (op_at c p, r) /\ located (cacheKey c) (path_segments p) = goal.

(** All calls so far failed. *)
Definition tried (w w' : dfs_world) : Prop := exists events caches,
  w' = mkDfsWorld (dw_events w ++ events) (dw_published w ++ caches) /\
  Forall (fun e => attempt e /\ ev_ok e = false) events /\ Forall sound_caches caches.

Definition blames (w : dfs_world) (error : AppError) : Prop :=
  hasError error = true /\
  Exists (fun e => attempt e /\ ev_ok e = false /\ ev_error e = error) (dw_events w).

(** The result [r], for the path with the segments [l]: of the last call, which
    succeeded, or the error of a call when all failed. *)
Definition settled (l : list QString) (w w' : dfs_world) (r : Result T) : Prop :=
  if Result_ok r then exists w1 c p v,
    tried w w1 /\ w' = mkDfsWorld (dw_events w1 ++ [mkEvent (existT _ (op_at c p, v)) true (res_error v)])
                         (dw_published w1) /\
    located (cacheKey c) (path_segments p) = goal /\
    Result_ok v = true /\ like (res_value v) (res_value r) /\ fits l (res_value r)
  else tried w w' /\ blames w' (res_error r).

Lemma tried_refl w : tried w w.
Proof. exists [], []. rewrite !app_nil_r. by destruct w. Qed.

Lemma tried_trans w w1 w2 : tried w w1 -> tried w1 w2 -> tried w w2.
Proof.
  intros (e1 & c1 & -> & He1 & Hc1) (e2 & c2 & -> & He2 & Hc2).
  exists (e1 ++ e2), (c1 ++ c2). cbn. rewrite !app_assoc. split; [done|].
  split; by apply Forall_app.
Qed.

Lemma kept_tried w w' : kept w w' -> tried w w'.
Proof. intros (c & -> & Hc). exists [], c. by rewrite app_nil_r. Qed.

Lemma blames_tried w w' error : blames w error -> tried w w' -> blames w' error.
Proof. intros [He Hb] (e & c & -> & _). split; [done|]. apply Exists_app. by left. Qed.

Lemma settled_tried l w w1 w2 r : tried w w1 -> settled l w1 w2 r -> settled l w w2 r.
Proof.
  unfold settled. intros Ht. destruct (Result_ok r).
  - intros (w3 & c & p & v & Hw & ?). exists w3, c, p, v. split; [by eapply tried_trans|done].
  - intros [Hw Hb]. split; [by eapply tried_trans|done].
Qed.

(** The call itself. *)
Lemma awp_try c p w Q :
  located (cacheKey c) (path_segments p) = goal ->
  (forall r w', settled (path_segments p) w w' r -> Q w' r) ->
  proves (ask (Delegate (op_at c p) context)) w Q.
Proof.
  intros Hl HQ r w' [Hd ->]. apply HQ. unfold settled. rewrite report_at.
  destruct (Result_ok r) eqn:Hok.
  - exists w, c, p, r. split_and!; eauto using tried_refl.
  - assert (attempt (mkEvent (existT _ (op_at c p, r)) false (res_error r))) as Ha by by exists c, p, r.
    split.
    + exists [mkEvent (existT _ (op_at c p, r)) false (res_error r)], []. rewrite app_nil_r.
      split_and!; [done|by apply Forall_singleton|done].
    + split; [by apply negb_false_iff|]. apply Exists_app. right. by apply Exists_cons_hd.
Qed.


Lemma settled_failing l w w' error :
  tried w w' -> blames w' error -> settled l w w' (failing default error).
Proof.
  intros Ht Hb. unfold settled, Result_ok. cbn. by rewrite (proj1 Hb).
Qed.

Lemma settled_failed l w w' r :
  Result_ok r = false -> settled l w w' r -> tried w w' /\ blames w' (res_error r).
Proof. unfold settled. by intros ->. Qed.

Lemma settled_again l l' w w' r :
  Result_ok r = false -> settled l w w' r -> settled l' w w' r.
Proof. unfold settled. by intros ->. Qed.

(** How a loop over targets may end. *)
Definition looped_well (l : list QString) (w w' : dfs_world) (x : looped (T := T)) : Prop :=
  match x with
  | Returned r => settled l w w' r
  | Went_on _ last => tried w w' /\ forall error, last = Some error -> blames w' error
  end.

Definition blamed_last (w : dfs_world) (last : option AppError) : Prop :=
  forall error, last = Some error -> blames w error.

Lemma kept_then w w1 w2 : kept w w1 -> tried w1 w2 -> tried w w2.
Proof. intros Hk. apply tried_trans, kept_tried, Hk. Qed.

Lemma then_kept w w1 w2 : tried w w1 -> kept w1 w2 -> tried w w2.
Proof. intros Ht Hk. eapply tried_trans; [exact Ht|by apply kept_tried]. Qed.

Lemma blamed_last_None w : blamed_last w None.
Proof. by intros error. Qed.

Lemma blamed_last_Some w error : blames w error -> blamed_last w (Some error).
Proof. by intros ? ? [= <-]. Qed.

Lemma blamed_last_tried w w' last : blamed_last w last -> tried w w' -> blamed_last w' last.
Proof. intros Hb Ht error Hl. eapply blames_tried; eauto. Qed.

#[local] Hint Resolve tried_refl kept_tried blamed_last_None blamed_last_Some
  blamed_last_tried : core.

Section share.
Context (path : QString).
#[local] Abbreviation operation := (fun c => ask (Delegate (op_at c path) context)).
#[local] Abbreviation l := (path_segments path).

Lemma awp_resolved_targets key targets last w :
  Forall (same_tree key) targets -> located key l = goal -> blamed_last w last ->
  proves (resolved_targets operation targets last) w (looped_well l w).
Proof.
  intros Ht Hl. revert w last. induction Ht as [|c targets Hc Ht IH]; intros w last Hb;
    cbn [resolved_targets]; [by split|].
  apply awp_bind, awp_try; [by rewrite <- Hc|]. intros r w' Hr. cbv zeta.
  destruct (Result_ok r) eqn:Hok; [done|].
  destruct (settled_failed _ _ _ _ Hok Hr) as [Htr Hbl].
  destruct (isTargetFailoverError (res_error r)); cbn [negb]; [|done].
  eapply awp_mono; [apply IH; eauto|]. intros w2 [r2|b2 last2]; cbn.
  - by apply settled_tried.
  - intros [? ?]. split; [by eapply tried_trans|done].
Qed.

Lemma awp_cached_targets key c targets last w :
  Forall (same_tree key) targets -> located key l = goal -> blamed_last w last ->
  proves (cached_targets operation c targets last) w (looped_well l w).
Proof.
  intros Ht Hl. revert w last. induction Ht as [|x targets Hx Ht IH]; intros w last Hb;
    cbn [cached_targets]; [by split|].
  apply awp_bind, awp_try; [by rewrite <- Hx|]. intros r w' Hr. cbv zeta.
  destruct (Result_ok r) eqn:Hok; [done|].
  destruct (settled_failed _ _ _ _ Hok Hr) as [Htr Hbl].
  destruct (looksLikeShareDfsReferralFailure (res_error r)).
  { apply awp_bind. eapply awp_mono; [apply awp_forgetCachedConnection|]. intros w2 u Hk.
    assert (tried w w2) by (eauto using kept_then, then_kept). split; [done|]. by eapply blamed_last_tried. }
  destruct (isTargetFailoverError (res_error r)); cbn [negb]; [|done].
  eapply awp_mono; [apply IH; eauto|]. intros w2 [r2|b2 last2]; cbn.
  - by apply settled_tried.
  - intros [? ?]. split; [by eapply tried_trans|done].
Qed.

Lemma awp_after_cached_targets c secret w :
  located (cacheKey c) l = goal ->
  proves (after_cached_targets default operation c secret context) w (settled l w).
Proof.
  intros Hl. apply awp_bind, awp_try; [done|]. intros r w' Hr.
  destruct (Result_ok r) eqn:Hok; cbn [orb]; [done|].
  destruct (settled_failed _ _ _ _ Hok Hr) as [Htr Hbl].
  destruct (looksLikeShareDfsReferralFailure (res_error r)); cbn [negb]; [|done].
  apply awp_bind. eapply awp_mono; [apply awp_resolveAndCache|]. intros w2 targets [Hk Ht].
  apply awp_bind. eapply awp_mono; [by apply (awp_resolved_targets (cacheKey c))|].
  intros w3 x Hx. assert (tried w w2) as Hw2 by (eauto using kept_then, then_kept).
  destruct x as [r2|b last]; cbn in Hx |- *; [by eapply settled_tried|].
  destruct Hx as [Hw3 Hb]. assert (tried w w3) as Hw by by eapply tried_trans.
  destruct last as [error|]; cbn; [by apply settled_failing; [|apply Hb]|].
  unfold settled. rewrite Hok. split; [done|]. eapply blames_tried; [exact Hbl|].
  eapply tried_trans; [by apply kept_tried|done].
Qed.

Lemma awp_runWithDfsFallback c secret w :
  located (cacheKey c) l = goal ->
  proves (runWithDfsFallback default operation c secret context) w (settled l w).
Proof.
  intros Hl. apply awp_bind. eapply awp_mono; [apply awp_cachedResolvedConnections|].
  intros w1 targets [Hk Ht]. apply awp_bind.
  eapply awp_mono; [by apply (awp_cached_targets (cacheKey c))|]. intros w2 x Hx.
  destruct x as [r|cleared last]; cbn in Hx |- *; [eapply settled_tried; [by apply kept_tried|done]|].
  destruct Hx as [Hw2 Hb]. assert (tried w w2) as Hw by (eauto using kept_then, then_kept).
  assert (proves (after_cached_targets default operation c secret context) w2 (settled l w))
    as Hafter.
  { eapply awp_mono; [by apply awp_after_cached_targets|]. intros w3 r. by apply settled_tried. }
  destruct cleared; [done|]. destruct last as [error|]; [|done].
  by apply settled_failing; [|apply Hb].
Qed.
End share.

(** ** Nested referrals *)

Lemma settled_rebased l l' w w' r m :
  Result_ok r = true -> settled l w w' r ->
  (fits l (res_value r) -> fits l' (rebase (res_value r) m)) ->
  settled l' w w' (rebased rebase r m).
Proof.
  intros Hok Hr Hf. unfold settled in *. rewrite Hok in Hr. cbn.
  destruct Hr as (w1 & c & p & v & ? & ? & ? & ? & ? & ?). exists w1, c, p, v.
  split_and!; eauto.
Qed.

(** The path [p] was reached by way of [m], with [rest] below its prefixes. *)
Record reached (m : DfsPathMapping) (p : QString) (rest : list QString) : Prop := mkReached {
  re_sound : sound_mapping m;
  re_path : path_segments p = target_segments m ++ rest;
  re_neat : neat (path_segments p);
  re_goal : located (cacheKey (dpm_targetConnection m)) (path_segments p) = goal
}.

Lemma usable_reached key p m :
  usable key (path_segments p) m -> neat (path_segments p) ->
  located key (path_segments p) = goal ->
  exists rest, path_segments p = original_segments m ++ rest /\
    reached m (targetPathForMapping m p) rest.
Proof.
  intros (Hs & Hk & rest & Hp) Hn Hl. exists rest. split; [done|].
  assert (original_segments m `prefix_of` path_segments p) as Hpre by by exists rest.
  assert (mapped m (path_segments p) = target_segments m ++ rest) as Hm
    by (unfold mapped; by rewrite Hp, drop_app_length).
  assert (path_segments (targetPathForMapping m p) = target_segments m ++ rest) as Ht.
  { rewrite targetPath_segments by done. rewrite neat_spelling; [done| |].
    - apply mapped_valid, path_segments_valid.
    - apply mapped_neat; [apply Hs|done]. }
  split; [done|done| |].
  - rewrite Ht, <- Hm. apply mapped_neat; [apply Hs|done].
  - rewrite Ht, <- (tr_leads _ _ _ _ Hs), Hk, <- Hp. done.
Qed.

(** The composition of two mappings, below a prefix that goes on. *)
Lemma composed_original outer n k :
  original_segments n = target_segments outer ++ k ->
  neat (original_segments outer) -> neat (original_segments n) ->
  original_segments (composedMapping outer n) = original_segments outer ++ k.
Proof.
  intros Hk Ho Hn. unfold original_segments at 1. cbn.
  rewrite (originalPath_segments outer _ k) by done.
  pose proof (path_segments_valid (dpm_originalPrefix n)) as Hv.
  fold (original_segments n) in Hv. rewrite Hk in Hv, Hn. apply neat_spelling.
  - apply Forall_app. split; [apply path_segments_valid|]. by apply Forall_app in Hv as [_ ?].
  - apply neat_app; [done|]. replace k with (drop (length (target_segments outer))
      (target_segments outer ++ k)) by apply drop_app_length. by apply neat_drop.
Qed.

Lemma composed_fits outer n p q rest rest' v :
  reached outer p rest -> path_segments p = original_segments n ++ rest' ->
  sound_mapping n -> dpm_connectionKey n = cacheKey (dpm_targetConnection outer) ->
  reached n q rest' -> fits (path_segments q) v ->
  fits (original_segments outer ++ rest) (rebase v (composedMapping outer n)).
Proof.
  intros Ho Hp Hn Hk Hq Hf. destruct fits_or_strict as [Hs|Hany]; [|by apply Hany].
  destruct (tr_extends _ _ _ _ Hn (target_segments outer) Hs) as [k Hext].
  { rewrite Hk. by apply (tr_enters _ _ _ _ (re_sound _ _ _ Ho)). }
  rewrite (re_path _ _ _ Ho), Hext, <- app_assoc in Hp. apply app_inv_head in Hp as ->.
  rewrite app_assoc, <- (composed_original outer n k Hext);
    [|apply (re_sound _ _ _ Ho)|apply Hn].
  apply rebase_fits. change (target_segments (composedMapping outer n)) with (target_segments n).
  by rewrite <- (re_path _ _ _ Hq).
Qed.

(** How the search through nested referrals may end. *)
Definition nested_well (l : list QString) (w w' : dfs_world) (x : option (Result T)) : Prop :=
  match x with Some r => settled l w w' r | None => tried w w' end.

Lemma nested_well_tried l w w1 w2 x :
  tried w w1 -> nested_well l w1 w2 x -> nested_well l w w2 x.
Proof. intros Ht. destruct x; [by apply settled_tried|by apply tried_trans]. Qed.

#[local] Abbreviation operation := (fun c p => ask (Delegate (op_at c p) context)).

Lemma awp_nested_loop deeper outer p rest ns last w :
  (forall m q error rest w, reached m q rest ->
     proves (deeper m q error) w (nested_well (original_segments m ++ rest) w)) ->
  reached outer p rest ->
  Forall (usable (cacheKey (dpm_targetConnection outer)) (path_segments p)) ns ->
  blamed_last w last ->
  proves (nested_loop default operation rebase deeper outer p ns last) w
    (nested_well (original_segments outer ++ rest) w).
Proof.
  intros Hdeeper Hre Hns. revert last w.
  induction Hns as [|n ns Hn Hns IH]; intros last w Hb; cbn [nested_loop].
  { destruct last as [error|]; cbn; [apply settled_failing; eauto|apply tried_refl]. }
  cbv zeta. destruct (sameResolvedTarget n outer); [by apply IH|].
  destruct (isPathPrefix (dpm_originalPrefix n) p); cbn [negb]; [|by apply IH].
  destruct (usable_reached _ _ _ Hn (re_neat _ _ _ Hre) (re_goal _ _ _ Hre))
    as (rest' & Hp & Hn').
  apply awp_bind, awp_try; [apply Hn'|]. intros r w1 Hr.
  destruct (Result_ok r) eqn:Hok.
  { eapply settled_rebased; [done|exact Hr|]. destruct Hn as (? & ? & _).
    by eapply composed_fits. }
  destruct (settled_failed _ _ _ _ Hok Hr) as [Ht1 Hb1].
  apply awp_bind. eapply awp_mono; [by apply Hdeeper|]. intros w2 x Hx.
  assert (tried w1 w2 ->
    proves (if negb (isTargetFailoverError (res_error r)) then mret (Some (failing default (res_error r)))
      else nested_loop default operation rebase deeper outer p ns (Some (res_error r))) w2
      (nested_well (original_segments outer ++ rest) w)) as Hafter.
  { intros Ht2. assert (tried w w2) by by eapply tried_trans.
    assert (blames w2 (res_error r)) by by eapply blames_tried.
    destruct (isTargetFailoverError (res_error r)); cbn [negb].
    - eapply awp_mono; [apply IH; eauto|]. intros w3 y. by apply nested_well_tried.
    - by apply settled_failing. }
  destruct x as [d|]; [|by apply Hafter]. cbn in Hx.
  destruct (Result_ok d) eqn:Hokd.
  { eapply settled_rebased; [done|by eapply settled_tried|]. rewrite <- Hp, (re_path _ _ _ Hre).
    apply rebase_fits. }
  destruct (settled_failed _ _ _ _ Hokd Hx) as [Ht2 Hb2].
  destruct (isTargetFailoverError (res_error d)); cbn [negb]; [by apply Hafter|].
  eapply settled_again; [done|by eapply settled_tried].
Qed.

Lemma awp_tryNestedPathMappings secret left m p error rest w :
  reached m p rest ->
  proves (tryNestedPathMappings default operation rebase secret context left m p error) w
    (nested_well (original_segments m ++ rest) w).
Proof.
  revert m p error rest w. induction left as [|left IH]; intros m p error rest w Hre;
    cbn [tryNestedPathMappings]; destruct (mayHavePathDfsReferral error); cbn [negb];
    try apply tried_refl.
  apply awp_bind.
  eapply awp_mono; [by apply awp_cachedResolvedPathMappings, (re_neat _ _ _ Hre)|].
  intros w1 cached [Hk1 Hc]. apply awp_bind.
  assert (proves (if bool_decide (length cached = 0%nat)
      then resolvePathAndCache (dpm_targetConnection m) secret p context
      else mret cached) w1 (fun w2 ns => kept w1 w2 /\
        Forall (usable (cacheKey (dpm_targetConnection m)) (path_segments p)) ns)) as Hns.
  { case_bool_decide; [apply awp_resolvePathAndCache|]. split; [apply kept_refl|done]. }
  eapply awp_mono; [exact Hns|]. intros w2 ns [Hk2 Hn].
  eapply awp_mono; [by apply awp_nested_loop|]. intros w3 x.
  apply nested_well_tried. eauto using kept_then, then_kept.
Qed.

(** ** The whole fallback *)

Lemma awp_cached_mappings c secret p ms last w :
  Forall (usable (cacheKey c) (path_segments p)) ms ->
  neat (path_segments p) -> located (cacheKey c) (path_segments p) = goal ->
  blamed_last w last ->
  proves (cached_mappings default operation rebase c secret context p ms last) w
    (looped_well (path_segments p) w).
Proof.
  intros Hms Hn Hl. revert last w. induction Hms as [|m ms Hm Hms IH]; intros last w Hb;
    cbn [cached_mappings]; [by split; [apply tried_refl|]|]. cbv zeta.
  destruct (usable_reached _ _ _ Hm Hn Hl) as (rest & Hp & Hre).
  apply awp_bind, awp_try; [apply Hre|]. intros r w1 Hr.
  destruct (Result_ok r) eqn:Hok.
  { eapply settled_rebased; [done|exact Hr|]. rewrite Hp, (re_path _ _ _ Hre). apply rebase_fits. }
  destruct (settled_failed _ _ _ _ Hok Hr) as [Ht1 Hb1].
  apply awp_bind. eapply awp_mono; [by apply awp_tryNestedPathMappings|].
  intros w2 x Hx. rewrite <- Hp in Hx.
  assert (forall last', blamed_last w2 last' -> tried w1 w2 ->
    proves (if looksLikeDfsReferralFailure (res_error r)
      then _ ← forgetCachedPathMapping c (dpm_originalPrefix m); mret (Went_on true last')
      else if negb (isTargetFailoverError (res_error r)) then mret (Returned r)
      else cached_mappings default operation rebase c secret context p ms
             (Some (res_error r))) w2 (looped_well (path_segments p) w)) as Hafter.
  { intros last' Hlast Ht2. assert (tried w w2) by by eapply tried_trans.
    assert (blames w2 (res_error r)) by by eapply blames_tried.
    destruct (looksLikeDfsReferralFailure (res_error r)).
    { apply awp_bind. eapply awp_mono; [apply awp_forgetCachedPathMapping|]. intros w3 u Hk.
      split; [by eapply then_kept|]. eapply blamed_last_tried; [done|by apply kept_tried]. }
    destruct (isTargetFailoverError (res_error r)); cbn [negb].
    - eapply awp_mono; [apply IH; eauto|]. intros w3 [r3|b3 last3]; cbn.
      + by apply settled_tried.
      + intros [? ?]. split; [by eapply tried_trans|done].
    - cbn. unfold settled. by rewrite Hok. }
  destruct x as [d|]; cbn in Hx.
  2: { apply Hafter; [|done]. eapply blamed_last_tried; [done|by eapply tried_trans]. }
  destruct (Result_ok d) eqn:Hokd; cbn [orb]; [by eapply settled_tried|].
  destruct (settled_failed _ _ _ _ Hokd Hx) as [Ht2 Hb2].
  destruct (isTargetFailoverError (res_error d)); cbn [negb]; [|by eapply settled_tried].
  apply Hafter; [by apply blamed_last_Some|done].
Qed.

Lemma awp_resolved_mappings key secret p ms last w :
  Forall (usable key (path_segments p)) ms ->
  neat (path_segments p) -> located key (path_segments p) = goal ->
  blamed_last w last ->
  proves (resolved_mappings default operation rebase secret context p ms last) w
    (looped_well (path_segments p) w).
Proof.
  intros Hms Hn Hl. revert last w. induction Hms as [|m ms Hm Hms IH]; intros last w Hb;
    cbn [resolved_mappings]; [by split; [apply tried_refl|]|]. cbv zeta.
  destruct (usable_reached _ _ _ Hm Hn Hl) as (rest & Hp & Hre).
  apply awp_bind, awp_try; [apply Hre|]. intros r w1 Hr.
  destruct (Result_ok r) eqn:Hok.
  { eapply settled_rebased; [done|exact Hr|]. rewrite Hp, (re_path _ _ _ Hre). apply rebase_fits. }
  destruct (settled_failed _ _ _ _ Hok Hr) as [Ht1 Hb1].
  apply awp_bind. eapply awp_mono; [by apply awp_tryNestedPathMappings|].
  intros w2 x Hx. rewrite <- Hp in Hx.
  assert (tried w1 w2 ->
    proves (if negb (isTargetFailoverError (res_error r)) then mret (Returned r)
      else resolved_mappings default operation rebase secret context p ms
             (Some (res_error r))) w2 (looped_well (path_segments p) w)) as Hafter.
  { intros Ht2. assert (tried w w2) by by eapply tried_trans.
    assert (blames w2 (res_error r)) by by eapply blames_tried.
    destruct (isTargetFailoverError (res_error r)); cbn [negb].
    - eapply awp_mono; [apply IH; eauto|]. intros w3 [r3|b3 last3]; cbn.
      + by apply settled_tried.
      + intros [? ?]. split; [by eapply tried_trans|done].
    - cbn. unfold settled. by rewrite Hok. }
  destruct x as [d|]; cbn in Hx; [|by apply Hafter].
  destruct (Result_ok d) eqn:Hokd; cbn [orb]; [by eapply settled_tried|].
  destruct (settled_failed _ _ _ _ Hokd Hx) as [Ht2 Hb2].
  destruct (isTargetFailoverError (res_error d)); cbn [negb]; [by apply Hafter|].
  by eapply settled_tried.
Qed.

Lemma awp_after_cached_mappings c secret p w :
  neat (path_segments p) -> located (cacheKey c) (path_segments p) = goal ->
  proves (after_cached_mappings default operation rebase c secret p context) w
    (settled (path_segments p) w).
Proof.
  intros Hn Hl. apply awp_bind. eapply awp_mono; [by apply awp_runWithDfsFallback|].
  intros w1 r Hr. destruct (Result_ok r) eqn:Hok; cbn [orb]; [done|].
  destruct (settled_failed _ _ _ _ Hok Hr) as [Ht1 Hb1].
  destruct (mayHavePathDfsReferral (res_error r)); cbn [negb]; [|done].
  apply awp_bind. eapply awp_mono; [apply awp_resolvePathAndCache|]. intros w2 ms [Hk Hms].
  apply awp_bind. eapply awp_mono; [by apply (awp_resolved_mappings (cacheKey c))|].
  intros w3 x Hx. assert (tried w w2) as Hw2 by by eapply then_kept.
  destruct x as [r2|b last]; cbn in Hx |- *; [by eapply settled_tried|].
  destruct Hx as [Hw3 Hb]. assert (tried w w3) as Hw by by eapply tried_trans.
  destruct last as [error|]; cbn; [by apply settled_failing; [|apply Hb]|].
  unfold settled. rewrite Hok. split; [done|]. eapply blames_tried; [exact Hb1|].
  by eapply kept_then.
Qed.

Lemma awp_runWithPathDfsFallback c secret p w :
  neat (path_segments p) -> located (cacheKey c) (path_segments p) = goal ->
  proves (runWithPathDfsFallback default operation rebase c secret p context) w
    (settled (path_segments p) w).
Proof.
  intros Hn Hl. unfold runWithPathDfsFallback. cbv zeta.
  pose proof (normalize_neat p Hn) as Hq. set (q := dfs_normalizeRemotePath p) in *.
  rewrite <- Hq in Hn, Hl |- *. clear Hq.
  apply awp_bind. eapply awp_mono; [by apply awp_cachedResolvedPathMappings|].
  intros w1 ms [Hk Hms]. apply awp_bind.
  eapply awp_mono; [by apply awp_cached_mappings|]. intros w2 x Hx.
  destruct x as [r|cleared last]; cbn in Hx |- *.
  { eapply settled_tried; [by apply kept_tried|done]. }
  destruct Hx as [Hw2 Hb]. assert (tried w w2) as Hw by by eapply kept_then.
  assert (proves (after_cached_mappings default operation rebase c secret q context) w2
    (settled (path_segments q) w)) as Hafter.
  { eapply awp_mono; [by apply awp_after_cached_mappings|]. intros w3 r. by apply settled_tried. }
  destruct cleared; [done|]. destruct last as [error|]; [|done].
  by apply settled_failing; [|apply Hb].
Qed.
End tries.

(** Every call but the last failed; [r] is a success exactly if the last did not
    fail, and otherwise its error is the error of a call. *)
Definition once {A} (events : list event) (r : Result A) : Prop :=
  if Result_ok r
  then exists before e, events = before ++ [e] /\ Forall (fun e => ev_ok e = false) before /\
         ev_ok e = true
  else Forall (fun e => ev_ok e = false) events /\
       Exists (fun e => ev_error e = res_error r) events.

(** From the beginning of a run. *)
Definition world_before : dfs_world := mkDfsWorld [] [].

Lemma settled_once {T : Set} op_at goal fits like l w' (r : Result T) :
  settled op_at goal fits like l world_before w' r ->
  Forall (attempt op_at goal) (dw_events w') /\ Forall sound_caches (dw_published w') /\
  once (dw_events w') r /\
  (Result_ok r = true -> fits l (res_value r) /\ exists c p v,
     last (dw_events w') = Some (mkEvent (existT _ (op_at c p, v)) true (res_error v)) /\
     like (res_value v) (res_value r)).
Proof.
  unfold settled, once. destruct (Result_ok r).
  - intros (w1 & c & p & v & (es & cs & -> & Hes & Hcs) & -> & Hg & Hv & Hlike & Hfits). cbn.
    split_and!.
    + apply Forall_app. split; [by eapply Forall_impl; [exact Hes|intros e []]|].
      apply Forall_singleton. by exists c, p, v.
    + done.
    + eexists es, _. split_and!; [done| |done].
      eapply Forall_impl; [exact Hes|by intros e []].
    + intros _. split; [done|]. exists c, p, v. by rewrite last_snoc.
  - intros [(es & cs & -> & Hes & Hcs) [Herr Hb]]. cbn in *. split_and!.
    + eapply Forall_impl; [exact Hes|by intros e []].
    + done.
    + eapply Forall_impl; [exact Hes|by intros e []].
    + eapply Exists_impl; [exact Hb|by intros e (_ & _ & ?)].
    + done.
Qed.
End dfs_runs.
