(* ===== verification/DfsProperties.v ===== *)
(** * Properties of the DFS client ([DfsResolvingSmbClient.cpp])

    Operations on one path, listings, copies and moves, over resolvers that tell
    the truth about a name space; and a name space with one link, over which they
    are run. *)

From S2P Require Export DfsRuns.
Local Open Scope Z_scope.

(** ** Operations on one path *)

Definition no_promise `{Qt} (A : Set) (op : smb_op A) (a : A) : Prop := True.

(** Runs over a truthful resolver that may also leave a prefix it entered by. *)
Abbreviation truthful_runs located :=
  (asks (fun B => @dfs_answers _ _ located False (fun _ _ => True) no_promise B)).

Section operations.
Context `{Qt}.

Inductive path_operation : Set :=
| Create_directory | Remove | Download (localPath : QString) | Upload (localPath : QString).

Definition path_op (operation : path_operation) (secret : secret_pointer)
    (c : Connection) (path : QString) : smb_op (Result bool) :=
  match operation with
  | Create_directory => Smb_createDirectory c secret path
  | Remove => Smb_remove c secret path
  | Download localPath => Smb_downloadFile c secret path localPath
  | Upload localPath => Smb_uploadFile c secret localPath path
  end.

Definition run_path_operation (operation : path_operation) (c : Connection)
    (secret : secret_pointer) (path : QString) (context : CoreContext) : dfs (Result bool) :=
  match operation with
  | Create_directory => dfs_createDirectory c secret path context
  | Remove => dfs_remove c secret path context
  | Download localPath => dfs_downloadFile c secret path localPath context
  | Upload localPath => dfs_uploadFile c secret localPath path context
  end.

Lemma run_path_operation_eq operation c secret path context :
  run_path_operation operation c secret path context =
  runWithPathDfsFallback false
    (fun c p => ask (Delegate (path_op operation secret c p) context)) keep
    c secret path context.
Proof. by destruct operation. Qed.

Lemma report_path_op operation secret c p r :
  report (path_op operation secret c p) r =
  mkEvent (existT _ (path_op operation secret c p, r)) (Result_ok r) (res_error r).
Proof. by destruct operation. Qed.

End operations.

(** ** Listings *)

Section listings.
Context `{Qt} `{!QtLaws}.

(** The entries are children of the directory with the segments [l]. *)
Definition lists_below (l : list QString) (entries : list RemoteFileEntry) : Prop :=
  Forall (fun e => exists name, path_segments (rfe_remotePath e) = l ++ [name] /\ neat [name])
    entries.

(** What the other client promises: a listing holds children of its directory. *)
Definition lists_children (A : Set) (op : smb_op A) : A -> Prop :=
  match op in smb_op A return A -> Prop with
  | Smb_listDirectory _ _ path => fun r =>
      Result_ok r = true -> lists_below (path_segments path) (res_value r)
  | _ => fun _ => True
  end.

(** Entries without their paths. *)
Definition unplaced (entries : list RemoteFileEntry) : list RemoteFileEntry :=
  with_remotePath [] <$> entries.

Lemma unplaced_rebased entries m :
  unplaced entries = unplaced (rebaseEntriesToOriginalNamespace entries m).
Proof.
  unfold unplaced, rebaseEntriesToOriginalNamespace. rewrite <- list_fmap_compose.
  by apply list_fmap_ext.
Qed.

Lemma neat_last l w : neat [w] -> neat (l ++ [w]).
Proof. intros Hw v c. rewrite last_snoc. intros [= <-]. by apply Hw. Qed.

Lemma lists_below_rebased v m rest :
  lists_below (target_segments m ++ rest) v ->
  lists_below (original_segments m ++ rest) (rebaseEntriesToOriginalNamespace v m).
Proof.
  intros Hv. apply Forall_fmap. eapply Forall_impl; [exact Hv|].
  intros e (name & Hp & Hn). exists name. split; [|done]. cbn.
  rewrite <- app_assoc in Hp. rewrite (originalPath_segments m _ (rest ++ [name])) by done.
  rewrite app_assoc. apply neat_spelling; [|by apply neat_last].
  pose proof (path_segments_valid (rfe_remotePath e)) as Hs. rewrite Hp in Hs.
  apply Forall_app in Hs as [_ Hs]. rewrite <- app_assoc. apply Forall_app.
  split; [apply path_segments_valid|done].
Qed.

(** Runs over a truthful resolver whose referrals go on below the prefix by which
    their server was entered. *)
Abbreviation strict_runs located entered :=
  (asks (fun B => @dfs_answers _ _ located True entered lists_children B)).

(** A listing comes back in the name space it was asked for in, however many
    referrals were followed. Take a resolver that leads to the same directory of
    the name space [located], with referrals that go on below the prefix by which
    their server was entered. Then listing ends; only listings of that directory
    are asked for; on success every entry is a child of [path], and but for its
    path it is the entry the other client gave; otherwise the error is the error
    of a call; and the caches are left as the resolver says. *)
Theorem dfs_listing_namespace {O} (located : QString -> list QString -> O) entered
    c secret path context o w' :
  neat (path_segments path) ->
  strict_runs located entered (dfs_listDirectory c secret path context) world_before o w' ->
  exists r, o = Some r /\
    Forall (fun e => exists c' p' a,
      ev_call e = existT _ (Smb_listDirectory c' secret p', a) /\
      located (cacheKey c') (path_segments p') = located (cacheKey c) (path_segments path))
      (dw_events w') /\
    once (dw_events w') r /\
    Forall (sound_caches located True entered) (dw_published w') /\
    (Result_ok r = true ->
       lists_below (path_segments path) (res_value r) /\
       exists c' p' v,
         last (dw_events w') =
           Some (mkEvent (existT _ (Smb_listDirectory c' secret p', v)) true (res_error v)) /\
         unplaced (res_value v) = unplaced (res_value r)).
Proof.
  intros Hn Hr. eapply awp_runs in Hr; [|apply (awp_runWithPathDfsFallback located True entered
    lists_children [] context (fun c p => Smb_listDirectory c secret p) (fun _ _ _ => eq_refl)
    (located (cacheKey c) (path_segments path)) lists_below
    (fun u v => unplaced u = unplaced v)
    ltac:(done) ltac:(done) ltac:(congruence) rebaseEntriesToOriginalNamespace
    unplaced_rebased lists_below_rebased ltac:(by left)); done].
  destruct o as [r|]; [|done]. exists r. split; [done|].
  apply settled_once in Hr as (Ha & Hc & Ho & Hok). by split_and!.
Qed.
End listings.

(** ** Copying and moving *)

Section between.
Context `{Qt} `{!QtLaws}.
Context {O : Type} (located : QString -> list QString -> O).
Context (operation : Connection -> secret_pointer -> QString -> Connection -> secret_pointer ->
  QString -> smb_op (Result bool)).
Context (report_at : forall c1 s1 p1 c2 s2 p2 r,
  report (operation c1 s1 p1 c2 s2 p2) r =
  mkEvent (existT _ (operation c1 s1 p1 c2 s2 p2, r)) (Result_ok r) (res_error r)).
Context (sourceSecret targetSecret : secret_pointer) (source target : O).
#[local] Abbreviation entered := (fun _ _ => True).
#[local] Abbreviation sound := (sound_caches located False entered).
#[local] Abbreviation kept_ := (kept located False entered).
#[local] Abbreviation proves :=
  (awp (fun B => @dfs_answers _ _ located False entered no_promise B) False).

Definition at_place (o : O) (x : place) : Prop :=
  located (cacheKey (fst x)) (path_segments (snd x)) = o.

(** A call of the operation from a place of the source to one of the target. *)
Definition pair_attempt (e : event) : Prop := exists s t r,
  at_place source s /\ at_place target t /\
  ev_call e = existT _ (operation (fst s) sourceSecret (snd s) (fst t) targetSecret (snd t), r).

(** What a run leaves after the world [w]: [e] more calls. *)
Definition called (w w' : dfs_world) (events : list event) : Prop := exists caches,
  w' = mkDfsWorld (dw_events w ++ events) (dw_published w ++ caches) /\
  Forall pair_attempt events /\ Forall sound caches.

Lemma called_kept w w1 w2 events : called w w1 events -> kept_ w1 w2 -> called w w2 events.
Proof.
  intros (c1 & -> & He & Hc1) (c2 & -> & Hc2). exists (c1 ++ c2). cbn.
  rewrite app_assoc. split_and!; [done..|by apply Forall_app].
Qed.

Lemma kept_called w w1 : kept_ w w1 -> called w w1 [].
Proof. intros (c & -> & Hc). exists c. by rewrite app_nil_r. Qed.

Lemma awp_pair_call context s t w w1 events Q :
  called w w1 events -> at_place source s -> at_place target t ->
  (forall r w', called w w' (events ++ [mkEvent
     (existT _ (operation (fst s) sourceSecret (snd s) (fst t) targetSecret (snd t), r))
     (Result_ok r) (res_error r)]) -> Q w' r) ->
  proves (ask (Delegate (operation (fst s) sourceSecret (snd s)
                (fst t) targetSecret (snd t)) context)) w1 Q.
Proof.
  intros (c & -> & He & Hc) Hs Ht HQ r w' [_ ->]. apply HQ. exists c. cbn.
  rewrite report_at, app_assoc. split_and!; [done| |done]. apply Forall_app. split; [done|].
  apply Forall_singleton. by exists s, t, r.
Qed.

Lemma usable_place c p m :
  usable located False entered (cacheKey c) (path_segments p) m -> neat (path_segments p) ->
  located (cacheKey (dpm_targetConnection m)) (path_segments (targetPathForMapping m p)) =
  located (cacheKey c) (path_segments p).
Proof.
  intros Hm Hn. destruct (usable_reached located False entered _ (cacheKey c) p m Hm Hn eq_refl)
    as (rest & _ & Hr). apply Hr.
Qed.

Lemma awp_cachedResolvedConnection c w :
  proves (cachedResolvedConnection c) w (fun w' x =>
    kept_ w w' /\ same_tree located (cacheKey c) (default c x)).
Proof.
  apply awp_bind. eapply awp_mono; [by apply awp_cachedResolvedConnections|].
  intros w' ts [Hk Ht]. split; [done|]. destruct Ht; done.
Qed.

Lemma awp_cachedResolvedPathMapping c p w :
  neat (path_segments p) ->
  proves (cachedResolvedPathMapping c p) w (fun w' x => kept_ w w' /\
    forall m, x = Some m -> usable located False entered (cacheKey c) (path_segments p) m).
Proof.
  intros Hn. apply awp_bind. eapply awp_mono; [by apply awp_cachedResolvedPathMappings|].
  intros w' ms [Hk Hm]. split; [done|]. intros m Hh. destruct Hm; cbn in Hh; [done|].
  by injection Hh as <-.
Qed.

(** Where a path is, by a mapping or by the connection that stands for its own. *)
Lemma place_of c p m x o :
  neat (path_segments p) -> located (cacheKey c) (path_segments p) = o ->
  same_tree located (cacheKey c) x ->
  (forall n, m = Some n -> usable located False entered (cacheKey c) (path_segments p) n) ->
  at_place o (match m with Some n => mapped_place n p | None => (x, p) end).
Proof.
  intros Hn Ho Hx Hm. unfold at_place. destruct m as [n|]; cbn.
  - by rewrite (usable_place c) by auto.
  - by rewrite <- Hx.
Qed.

Lemma awp_resolved_place c secret p q context w o x :
  neat (path_segments p) -> neat (path_segments q) ->
  path_segments q `prefix_of` path_segments p ->
  located (cacheKey c) (path_segments p) = o -> at_place o x ->
  proves (resolvePathAndCache c secret q context) w (fun w' ms => kept_ w w' /\
    at_place o (match ms with m :: _ => mapped_place m p | [] => x end)).
Proof.
  intros Hp Hq Hqp Ho Hx. eapply awp_mono; [by apply awp_resolvePathAndCache|].
  intros w' ms [Hk Hms]. split; [done|]. destruct Hms as [|m ms (Hs & Hmk & Hpre) _]; [done|].
  unfold at_place. cbn. rewrite (usable_place c p); [done| |done].
  split_and!; [done..|]. by etrans.
Qed.

Lemma awp_resolved_share c secret context w :
  proves (resolveAndCache c secret context) w (fun w' ts =>
    kept_ w w' /\ same_tree located (cacheKey c) (default c (head ts))).
Proof.
  eapply awp_mono; [by apply awp_resolveAndCache|]. intros w' ts [Hk Ht]. split; [done|].
  by destruct Ht.
Qed.

Lemma awp_between sc sp tc tp context :
  neat (path_segments sp) -> neat (path_segments tp) ->
  neat (take (length (path_segments tp) - 1) (path_segments tp)) ->
  located (cacheKey sc) (path_segments sp) = source ->
  located (cacheKey tc) (path_segments tp) = target ->
  proves (between operation sc sourceSecret sp tc targetSecret tp context) world_before
    (fun w r => exists events, called world_before w events /\ (length events <= 2)%nat /\
       once events r).
Proof.
  intros Hsn Htn Hpn Hs Ht. unfold between. cbv zeta.
  rewrite <- (normalize_neat sp Hsn) in Hs. rewrite <- (normalize_neat tp Htn) in Ht.
  assert (neat (path_segments (dfs_normalizeRemotePath sp))) as Hsn' by by rewrite normalize_neat.
  assert (neat (path_segments (dfs_normalizeRemotePath tp))) as Htn' by by rewrite normalize_neat.
  rewrite <- (normalize_neat tp Htn) in Hpn.
  set (s := dfs_normalizeRemotePath sp) in *. set (t := dfs_normalizeRemotePath tp) in *.
  clearbody s t. clear Hsn Htn.
  assert (path_segments (parentRemotePath t) =
    take (length (path_segments t) - 1) (path_segments t)) as Hparent.
  { rewrite parentRemotePath_segments. apply neat_spelling; [|done].
    apply Forall_take, path_segments_valid. }
  apply awp_bind. eapply awp_mono; [apply awp_cachedResolvedConnection|]. intros w1 x1 [Hk1 Hx1].
  apply awp_bind. eapply awp_mono; [apply awp_cachedResolvedConnection|]. intros w2 x2 [Hk2 Hx2].
  apply awp_bind. eapply awp_mono; [by apply awp_cachedResolvedPathMapping|].
  intros w3 m1 [Hk3 Hm1].
  apply awp_bind. eapply awp_mono; [by apply awp_cachedResolvedPathMapping|].
  intros w4 m2 [Hk4 Hm2].
  pose proof (place_of sc s m1 _ source Hsn' Hs Hx1 Hm1) as Hps.
  pose proof (place_of tc t m2 _ target Htn' Ht Hx2 Hm2) as Hpt.
  set (ps := match m1 with Some n => _ | None => _ end) in *.
  set (pt := match m2 with Some n => _ | None => _ end) in *. clearbody ps pt.
  assert (called world_before w4 []) as Hc4 by eauto using called_kept, kept_called.
  apply awp_bind. eapply (awp_pair_call context ps pt); [done..|]. intros r w5 Hc5. cbn [app] in Hc5.
  destruct (Result_ok r) eqn:Hok.
  { eexists. split; [exact Hc5|]. split; [cbn; lia|]. unfold once. rewrite Hok.
    eexists [], _. by split_and!. }
  assert (forall r' w' s' t', called world_before w'
      [mkEvent (existT _ (operation (fst ps) sourceSecret (snd ps) (fst pt) targetSecret (snd pt), r))
         false (res_error r);
       mkEvent (existT _ (operation (fst s') sourceSecret (snd s') (fst t') targetSecret (snd t'), r'))
         (Result_ok r') (res_error r')] ->
      exists events, called world_before w' events /\ (length events <= 2)%nat /\
        once events r') as Hend.
  { intros r' w' s' t' Hc. eexists. split; [exact Hc|]. split; [done|]. unfold once.
    destruct (Result_ok r').
    - eexists [_], _. split_and!; [done|by apply Forall_singleton|done].
    - split; [by repeat constructor|]. by apply Exists_cons_tl, Exists_cons_hd. }
  destruct (looksLikePathDfsReferralFailure (res_error r)).
  { apply awp_bind. eapply awp_mono; [by apply (awp_resolved_place sc _ s s _ _ source ps)|].
    intros w6 ms1 [Hk6 Hps']. apply awp_bind.
    eapply awp_mono; [apply (awp_resolved_place tc _ t (parentRemotePath t) _ _ target pt)|].
    { done. } { by rewrite Hparent. } { rewrite Hparent. apply prefix_take. } { done. } { done. }
    intros w7 ms2 [Hk7 Hpt'].
    eapply awp_pair_call; [|exact Hps'|exact Hpt'|].
    - eapply called_kept; [|exact Hk7]. eapply called_kept; [exact Hc5|done].
    - intros r' w' Hc. exact (Hend _ _ _ _ Hc). }
  destruct (looksLikeShareDfsReferralFailure (res_error r)); cbn [negb].
  - apply awp_bind. eapply awp_mono; [apply awp_resolved_share|]. intros w6 ts1 [Hk6 Hx6].
    apply awp_bind. eapply awp_mono; [apply awp_resolved_share|]. intros w7 ts2 [Hk7 Hx7].
    eapply (awp_pair_call context (default sc (head ts1), s) (default tc (head ts2), t)).
    + eapply called_kept; [|exact Hk7]. eapply called_kept; [exact Hc5|done].
    + unfold at_place. cbn. by rewrite <- Hx6.
    + unfold at_place. cbn. by rewrite <- Hx7.
    + intros r' w' Hc. exact (Hend _ _ _ _ Hc).
  - eexists. split; [exact Hc5|]. split; [cbn; lia|]. unfold once. rewrite Hok.
    split; [by repeat constructor|by apply Exists_cons_hd].
Qed.
End between.

(** C20: Copying and moving act on the two files that were asked for. Take any
    resolver whose referrals lead to the same file of the name space [located], and
    any changes other threads make to the caches. Then the other client is asked to
    copy, or to move, at most twice, each time from a place of the source's file to a
    place of the target's; the second time only if the first failed; the result is
    a success exactly if the last call was one, and otherwise its error is the
    error of a call; and the caches are left as the resolver says. *)
Theorem dfs_copy_move_places `{!Qt, !QtLaws} {O} (located : QString -> list QString -> O)
    (is_move : bool) sc ss sp tc ts tp context o w' :
  neat (path_segments sp) -> neat (path_segments tp) ->
  neat (take (length (path_segments tp) - 1) (path_segments tp)) ->
  let operation := if is_move then Smb_move else Smb_copy in
  truthful_runs located ((if is_move then dfs_move else dfs_copy) sc ss sp tc ts tp context)
    world_before o w' ->
  exists r, o = Some r /\
    Forall (fun e => exists s sq t tq a,
      ev_call e = existT _ (operation s ss sq t ts tq, a) /\
      located (cacheKey s) (path_segments sq) = located (cacheKey sc) (path_segments sp) /\
      located (cacheKey t) (path_segments tq) = located (cacheKey tc) (path_segments tp))
      (dw_events w') /\
    (length (dw_events w') <= 2)%nat /\ once (dw_events w') r /\
    Forall (sound_caches located False (fun _ _ => True)) (dw_published w').
Proof.
  intros Hs Ht Hp operation Hr.
  assert (forall c1 s1 p1 c2 s2 p2 r, report (operation c1 s1 p1 c2 s2 p2) r =
    mkEvent (existT _ (operation c1 s1 p1 c2 s2 p2, r)) (Result_ok r) (res_error r)) as Hrep
    by by destruct is_move.
  pose proof (awp_between located operation Hrep ss ts _ _ sc sp tc tp context Hs Ht Hp
    eq_refl eq_refl) as Hw.
  replace (between operation sc ss sp tc ts tp context)
    with ((if is_move then dfs_move else dfs_copy) sc ss sp tc ts tp context) in Hw
    by by destruct is_move.
  eapply awp_runs in Hw; [|exact Hr]. destruct o as [r|]; [|done]. exists r. split; [done|].
  destruct Hw as (events & (cs & -> & He & Hc) & Hl & Ho). cbn. split_and!; [|done..].
  eapply Forall_impl; [exact He|]. intros e ([s sq] & [t tq] & a & Has & Hat & ->).
  by exists s, sq, t, tq, a.
Qed.

(** ** A name space with one link *)

Definition text := QStringLiteral.

(** The share [ns] has a link at [/link] to [/data] on the share [srv]. *)
Definition ns : Connection :=
  mkConnection [] [] (text "ns") (text "x") [] [] AuthType_Password.
Definition srv : Connection :=
  mkConnection [] [] (text "srv") (text "x") [] [] AuthType_Password.

Definition linked_file (key : QString) (l : list QString) : QString * list QString :=
  match l with
  | w :: rest =>
      if bool_decide (key = cacheKey ns /\ w = text "link")
      then (cacheKey srv, text "data" :: rest) else (key, l)
  | [] => (key, [])
  end.

Definition not_covered : AppError :=
  mkAppError App_ShareUnavailable ErrorCategory_Smb [] (text "path not covered") false.

Definition on_srv {A} (default value : A) (c : Connection) : Result A :=
  if bool_decide (con_server c = text "srv") then Result_success value
  else Result_failure default not_covered.

Definition child_of (path : QString) : RemoteFileEntry :=
  mkRemoteFileEntry (text "f") (path ++ text "/f") RemoteFileType_File 0 0 [] [] false.

(** The other client: it finds files on [srv] only. *)
Definition sample_delegate {A : Set} (op : smb_op A) : option A :=
  match op in smb_op A return option A with
  | Smb_remove c _ _ => Some (on_srv false true c)
  | Smb_listDirectory c _ path =>
      if decide (path_segments (path ++ text "/f") = path_segments path ++ [text "f"])
      then Some (on_srv [] [child_of path] c) else None
  | Smb_rename c _ _ _ => Some (on_srv false true c)
  | Smb_copy s _ _ t _ _ =>
      Some (if bool_decide (con_server s = text "srv") then on_srv false true t
            else Result_failure false not_covered)
  | _ => None
  end.

Definition sample_referral : DfsResolvedPath :=
  mkDfsResolvedPath srv [] (text "/link") (text "/data") 300.

Definition sample_resolver (c : Connection) (path : QString) : list DfsResolvedPath :=
  if bool_decide (cacheKey c = cacheKey ns /\ head (path_segments path) = Some (text "link"))
  then [sample_referral] else [].

(** No thread leaves anything in the caches. *)
Definition sample_serve {B : Set} (c : dfs_call B) : dfs_world -> option (B * dfs_world) :=
  match c in dfs_call B return dfs_world -> option (B * dfs_world) with
  | Delegate op _ => fun w =>
      r ← sample_delegate op;
      Some (r, mkDfsWorld (dw_events w ++ [report op r]) (dw_published w))
  | ResolveTargets _ _ _ => fun w => Some (Result_success [], w)
  | ResolvePathTargets c _ path _ => fun w => Some (Result_success (sample_resolver c path), w)
  | CurrentDateTimeUtc => fun w => Some (0, w)
  | CacheOrder mappings => fun w => Some (snd <$> map_to_list mappings, w)
  | LockCaches => fun w => Some (mkDfsCaches ∅ ∅, w)
  | UnlockCaches caches => fun w =>
      Some (tt, mkDfsWorld (dw_events w) (dw_published w ++ [caches]))
  end.

Definition entered_srv (key : QString) (t : list QString) : Prop := key = cacheKey srv.

Lemma sample_truthful (strict : Prop) entered :
  (strict -> entered = entered_srv) ->
  truthful linked_file strict entered (cacheKey ns) [text "link"] [text "data"] srv.
Proof.
  intros He. split.
  - intros rest. cbn [app linked_file]. rewrite bool_decide_eq_true_2 by done.
    by rewrite bool_decide_eq_false_2 by (by intros [? _]).
  - by intros w c [= <-] [= <-].
  - by intros w c [= <-] [= <-].
  - intros Hs. by rewrite (He Hs).
  - intros t Hs. rewrite (He Hs). intros Ht. exfalso. revert Ht. by vm_compute.
Qed.

Lemma sample_serve_answers (strict : Prop) entered (promise : forall A : Set, smb_op A -> A -> Prop)
    (B : Set) (c : dfs_call B) w b w' :
  (strict -> entered = entered_srv) ->
  (forall A (op : smb_op A) r, sample_delegate op = Some r -> promise A op r) ->
  sample_serve c w = Some (b, w') -> dfs_answers linked_file strict entered promise c w b w'.
Proof.
  intros He Hp Hs. destruct c; cbn [sample_serve dfs_answers] in *; simplify_eq; try done.
  - destruct (sample_delegate op) as [r|] eqn:Hd; simplify_eq/=. split; [by apply Hp|done].
  - split; [done|]. intros _. constructor.
  - split; [done|]. intros _. unfold sample_resolver. case_bool_decide as Hl.
    + destruct Hl as [Hk Hh]. exists [text "link"]. split.
      * destruct (path_segments remotePath) as [|u l]; [done|]. injection Hh as ->. by exists l.
      * apply Forall_singleton. split; [by vm_compute|]. rewrite Hk.
        by apply (sample_truthful strict entered).
    + exists []. split; [apply prefix_nil|constructor].
Qed.

Abbreviation run_sample := (run_asking (fun B => @sample_serve B)).
Abbreviation sample_context := (mkCoreContext false false).

Lemma run_sample_runs strict entered promise {A} (p : dfs A) w o w' :
  (strict -> entered = entered_srv) ->
  (forall A (op : smb_op A) r, sample_delegate op = Some r -> promise A op r) ->
  run_sample p w = Some (o, w') ->
  asks (fun B => @dfs_answers _ _ linked_file strict entered promise B) p w o w'.
Proof.
  intros He Hp. apply run_runs. intros B c w1 b w2. by apply sample_serve_answers.
Qed.

(** [p] ends with a result and a world that satisfy [Q]. *)
Definition sample_ends {T : Set} (p : dfs (Result T)) (Q : Result T -> dfs_world -> Prop) : Prop :=
  exists r w', run_sample p world_before = Some (Some r, w') /\ Q r w'.

Lemma sample_ends_compute {T : Set} (p : dfs (Result T)) Q
    {HQ : forall r w, Decision (Q r w)} :
  match run_sample p world_before with
  | Some (Some r, w') => bool_decide (Q r w')
  | _ => false
  end = true -> sample_ends p Q.
Proof.
  unfold sample_ends. destruct (run_sample p world_before) as [[[r|] w']|]; [|done..].
  intros HQ'%bool_decide_eq_true. eauto.
Qed.
Ltac run_it := eapply sample_ends_compute; vm_compute; reflexivity.

Lemma run_remove :
  sample_ends (run_path_operation Remove ns None (text "/link/f") sample_context)
    (fun r w' => Result_ok r = true /\ length (dw_events w') = 2%nat).
Proof. run_it. Qed.

Lemma run_listing :
  sample_ends (dfs_listDirectory ns None (text "/link") sample_context)
    (fun r w' => Result_ok r = true /\ rfe_remotePath <$> res_value r = [text "/link/f"]).
Proof. run_it. Qed.

Lemma run_copy_out :
  sample_ends (dfs_copy ns None (text "/link/f") srv None (text "/g") sample_context)
    (fun r w' => Result_ok r = true /\ length (dw_events w') = 2%nat).
Proof. run_it. Qed.

(** Renaming a file out of a link asks the link's server for the old path in the
    new place: the target is not the file that was meant. *)
Lemma rename_leaves_link :
  sample_ends (dfs_rename ns None (text "/link/f") (text "/other/f") sample_context)
    (fun r w' => Result_ok r = true /\
       last ((fun e => match projT2 (ev_call e) with
         | (Smb_rename c _ p q, _) => Some (con_server c, p, q) | _ => None end)
         <$> dw_events w') = Some (Some (text "srv", text "/data/f", text "/other/f"))) /\
  linked_file (cacheKey srv) (path_segments (text "/other/f")) <>
  linked_file (cacheKey ns) (path_segments (text "/other/f")).
Proof. split; [run_it|]. vm_compute. discriminate. Qed.

(** A nested referral that is shorter than the prefix by which its server was
    entered composes to a mapping that leads elsewhere: [/link] leads to [/a/b] on
    one server, whose [/] leads to [/t] on the next; of [/a/b/c], found at
    [/t/a/b/c], the way back is [/link/a/b/c] instead of [/link/c]. *)
Lemma composed_mapping_astray :
  let outer := mkDfsPathMapping [] (text "/link") srv (text "/a/b") None in
  let nested := mkDfsPathMapping [] (text "/") ns (text "/t") None in
  let mappedPath := targetPathForMapping outer (text "/link/c") in
  originalPathForMapping (composedMapping outer nested) (targetPathForMapping nested mappedPath)
    = text "/link/a/b/c" /\
  originalPathForMapping outer mappedPath = text "/link/c".
Proof. by vm_compute. Qed.

Lemma neat_text (p : QString) w c :
  last (path_segments p) = Some w -> last w = Some c -> is_space c = false ->
  neat (path_segments p).
Proof. intros Hw Hc Hs v d Hv. rewrite Hw in Hv. injection Hv as <-.
  rewrite Hc. by intros [= <-]. Qed.

Lemma sample_lists A (op : smb_op A) r :
  sample_delegate op = Some r -> lists_children A op r.
Proof.
  destruct op; cbn [sample_delegate lists_children]; try done.
  case_decide as Hd; [|done]. intros [= <-]. unfold on_srv.
  case_bool_decide; [|done]. intros _. apply Forall_singleton. exists (text "f").
  split; [exact Hd|]. by intros w c [= <-] [= <-].
Qed.


Lemma dfs_listing_namespace_witness :
  sample_ends (dfs_listDirectory ns None (text "/link") sample_context)
    (fun r w' => Result_ok r = true /\
       rfe_remotePath <$> res_value r = [text "/link/f"] /\
       lists_below (path_segments (text "/link")) (res_value r)).
Proof.
  destruct run_listing as (r & w' & Hrun & Hok & Hp). exists r, w'.
  split; [exact Hrun|]. split; [exact Hok|]. split; [exact Hp|].
  apply (run_sample_runs True entered_srv lists_children) in Hrun; [|done|apply sample_lists].
  apply dfs_listing_namespace in Hrun; [|by eapply neat_text; vm_compute].
  destruct Hrun as (r' & [= <-] & _ & _ & _ & Hl). by apply Hl.
Defined.

Lemma dfs_copy_move_places_witness :
  sample_ends (dfs_copy ns None (text "/link/f") srv None (text "/g") sample_context)
    (fun r w' => Result_ok r = true /\ length (dw_events w') = 2%nat /\
       once (dw_events w') r /\
       Forall (fun e => exists s sq t tq a,
         ev_call e = existT _ (Smb_copy s None sq t None tq, a) /\
         linked_file (cacheKey s) (path_segments sq) =
           linked_file (cacheKey ns) (path_segments (text "/link/f")) /\
         linked_file (cacheKey t) (path_segments tq) =
           linked_file (cacheKey srv) (path_segments (text "/g"))) (dw_events w')).
Proof.
  destruct run_copy_out as (r & w' & Hrun & Hok & Hlen). exists r, w'.
  split; [exact Hrun|]. split; [exact Hok|]. split; [exact Hlen|].
  apply (run_sample_runs False (fun _ _ => True) no_promise) in Hrun; [|done|done].
  apply (dfs_copy_move_places linked_file false) in Hrun;
    [|by eapply neat_text; vm_compute|by eapply neat_text; vm_compute|intros w c; by vm_compute].
  destruct Hrun as (r' & [= <-] & He & _ & Ho & _). split; [exact Ho|exact He].
Defined.
