(* ===== verification/DfsResolver.v ===== *)
(** * The resolver of DFS referrals ([NativeDfsReferralResolver.cpp])

    It asks the server of a connection for referrals, over the pipe share, and
    turns the answers into what the DFS client takes (DfsClient.v).  The functions
    the source has a second time, [isCancelled], [randomClientGuid],
    [toNativeAuthMode], [endpointForServer], [nativeSecret], [nativeConfig] and
    [appError], are those of NativeClient.v. *)

From S2P Require Export DfsClient NativeClient.
Local Open Scope Z_scope.

Record NativeDfsReferralTarget : Set := mkNativeDfsReferralTarget {
  nrt_server : QString;
  nrt_share : QString;
  nrt_targetPathPrefix : QString
}.

Section dfs_resolver.
Context `{Qt}.

(** The context of an operation; there is no progress to report. *)
Definition resolverContext (context : CoreContext) (timeoutSeconds : Z) : OperationContext :=
  mkOperationContext (Z.max 1 timeoutSeconds * 1000) false (cc_cancellationToken context) false.

Definition normalizedUri (server share : QString) : QString :=
  QStringLiteral "smb://" ++ server ++ [kSlash] ++ share.

(** [split(separator, Qt::SkipEmptyParts)] *)
Definition split_nonempty (s : QString) (separator : Z) : list QString :=
  filter (fun part => part <> []) (splitParts s separator).

Definition pathFromSegments (segments : list QString) (count : Z) : QString :=
  if count <=? 0 then [kSlash]
  else [kSlash] ++ QtText.join (take (Z.to_nat count) segments) [kSlash].

Definition pathFromSegmentsAt (segments : list QString) (first count : Z) : QString :=
  if (count <=? 0) || (Z.of_nat (length segments) <=? first) then [kSlash]
  else [kSlash] ++ QtText.join (take (Z.to_nat count) (drop (Z.to_nat first) segments)) [kSlash].

Definition remotePathSegments (remotePath : QString) : list QString :=
  let normalized := dfs_normalizeRemotePath remotePath in
  if bool_decide (normalized = [kSlash]) then []
  else split_nonempty (midFrom normalized 1) kSlash.

Definition requestUncPath (connection : Connection) (serverForUnc remotePath : QString)
    : QString :=
  let path := dfs_normalizeRemotePath remotePath in
  let path := replaceChar path kSlash kBackslash in
  let path := if bool_decide (path = [kBackslash]) then [] else path in
  [kBackslash; kBackslash] ++ serverForUnc ++ [kBackslash] ++ con_share connection ++ path.

Definition sameShare (connection : Connection) (target : NativeDfsReferralTarget) : bool :=
  equalsIgnoringCase (con_server connection) (nrt_server target)
  && equalsIgnoringCase (con_share connection) (nrt_share target).

Definition targetConnectionFor (connection : Connection) (target : NativeDfsReferralTarget)
    : Connection :=
  mkConnection (con_id connection)
    (normalizedUri (nrt_server target) (nrt_share target))
    (nrt_server target) (nrt_share target) (con_domain connection)
    (con_username connection) (con_authType connection).

Definition consumedOriginalPrefix (requestPath serverForUnc share : QString)
    (pathConsumedBytes : Z) (fallbackRemotePath : QString) : QString :=
  if pathConsumedBytes =? 0 then dfs_normalizeRemotePath fallbackRemotePath else
  let consumedChars := pathConsumedBytes / 2 in
  let consumed := left requestPath (Z.min consumedChars (blen requestPath)) in
  let consumed := replaceChar consumed kSlash kBackslash in
  let base := [kBackslash; kBackslash] ++ serverForUnc ++ [kBackslash] ++ share in
  if equalsIgnoringCase consumed base then [kSlash] else
  if startsWithIgnoringCase consumed (base ++ [kBackslash]) then
    let suffix := midFrom consumed (blen base) in
    dfs_normalizeRemotePath (replaceChar suffix kBackslash kSlash)
  else dfs_normalizeRemotePath fallbackRemotePath.

(** The loops over leading backslashes; the text gets shorter each time. *)
Fixpoint strip_pairs (fuel : nat) (path : QString) : QString :=
  match fuel with
  | O => path
  | S fuel =>
      if startsWithText path [kBackslash; kBackslash]
      then strip_pairs fuel (removeAt path 0 2) else path
  end.

Fixpoint strip_backslashes (fuel : nat) (path : QString) : QString :=
  match fuel with
  | O => path
  | S fuel =>
      if startsWith path kBackslash
      then strip_backslashes fuel (removeAt path 0 1) else path
  end.

Definition parseNativeDfsReferralTarget (networkAddress : QString)
    : option NativeDfsReferralTarget :=
  let path := trimmed networkAddress in
  let path := replaceChar path kSlash kBackslash in
  let path := strip_pairs (length path) path in
  let path := strip_backslashes (length path) path in
  match splitParts path kBackslash with
  | server :: share :: rest =>
      if isEmpty server || isEmpty share then None else
      Some (mkNativeDfsReferralTarget server share
        (match rest with
         | [] => [kSlash]
         | _ => dfs_normalizeRemotePath ([kSlash] ++ QtText.join rest [kSlash])
         end))
  | _ => None
  end.

(** [static_cast<int>] of a 32-bit value. *)
Definition int32 (v : Z) : Z := if v <? 2 ^ 31 then v else v - 2 ^ 32.
Definition referralTtl (entry : DfsReferralEntry) : Z :=
  int32 (Z.max 1 (dfe_timeToLiveSeconds entry)).

(** ** Operations *)

Context (m_timeoutSeconds : Z) (m_sanitizer : LogSanitizer).

Definition openIpcConnection (connection : Connection) (secret : secret_pointer)
    (context : CoreContext) : client (comp client_state) :=
  cancelled ← clientCancelled context;
  if cancelled : bool then
    mret (failure ErrorCode_Cancelled "Operation was cancelled.")
  else
  let ipcConnection := mkConnection (con_id connection)
    (normalizedUri (con_server connection) (QStringLiteral "IPC$"))
    (con_server connection) (QStringLiteral "IPC$") (con_domain connection)
    (con_username connection) (con_authType connection) in
  workstation ← ask MachineHostName;
  guid ← randomClientGuid;
  ask (Connect (endpointForServer (con_server connection)) (nativeSecret secret)
    (tokenProviderOptions (toStdString workstation))
    (mkNativeSmbConnectorOptions (nativeConfig ipcConnection)
       (mkNegotiateRequestOptions
          [Dialect_Smb202; Dialect_Smb210; Dialect_Smb300; Dialect_Smb302; Dialect_Smb311]
          SecurityPolicy_Required 0 guid)
       1 8)
    (resolverContext context m_timeoutSeconds)).

Definition with_ipc {B} (default : B) (connection : Connection) (secret : secret_pointer)
    (context : CoreContext) (k : client_state -> client_method B) : client_method B :=
  connected ← openIpcConnection connection secret context;
  or_fail m_sanitizer default secret connected (fun connected =>
  scoped (k connected) (ask (Disconnect (cs_connection connected)))).

Definition referrals_of (connected : client_state) (context : CoreContext)
    (requestPath : QString) : client (comp NativeDfsReferralResult) :=
  ask (Remote (cs_connection connected) (resolverContext context m_timeoutSeconds)
         (GetDfsReferrals (toStdString requestPath))).

(** [continue] where there is no target, or the target is the share itself. *)
Definition other_target (connection : Connection) (entry : DfsReferralEntry)
    : option NativeDfsReferralTarget :=
  match parseNativeDfsReferralTarget (fromStdString (dfe_networkAddress entry)) with
  | Some target => if sameShare connection target then None else Some target
  | None => None
  end.

Definition resolved_connections (connection : Connection) (entries : list DfsReferralEntry)
    : list DfsResolvedConnection :=
  omap (fun entry =>
    target ← other_target connection entry;
    Some (mkDfsResolvedConnection (targetConnectionFor connection target)
            (referralTtl entry))) entries.

Definition resolveTargets (connection : Connection) (secret : secret_pointer)
    (context : CoreContext) : client_method (list DfsResolvedConnection) :=
  let endpoint := endpointForServer (con_server connection) in
  let requestPath :=
    requestUncPath connection (fromStdString (ep_host endpoint)) [kSlash] in
  with_ipc [] connection secret context (fun connected =>
  referrals ← referrals_of connected context requestPath;
  or_fail m_sanitizer [] secret referrals (fun referrals =>
  succeed (resolved_connections connection (drr_entries (ndr_response referrals))))).

Definition resolve (connection : Connection) (secret : secret_pointer)
    (context : CoreContext) : client_method (option Connection) :=
  targets ← resolveTargets connection secret context;
  mret (match targets with
        | Returns targets =>
            Returns (if negb (Result_ok targets) then Result_failure None (res_error targets)
                     else Result_success (drc_connection <$> head (res_value targets)))
        | Throws m => Throws m
        | Undefined => Undefined
        end).

Definition resolved_paths (connection : Connection) (serverForUnc requestPath prefix : QString)
    (segments : list QString) (count : Z) (response : DfsReferralResponse)
    : list DfsResolvedPath :=
  omap (fun entry =>
    target ← other_target connection entry;
    Some (mkDfsResolvedPath (targetConnectionFor connection target)
            (pathFromSegmentsAt segments count (Z.of_nat (length segments) - count))
            (consumedOriginalPrefix requestPath serverForUnc (con_share connection)
               (drr_pathConsumedBytes response) prefix)
            (nrt_targetPathPrefix target) (referralTtl entry)))
    (drr_entries response).

(** The failures after which a shorter prefix is tried. *)
Definition not_here (code : ErrorCode) : bool :=
  match code with
  | ErrorCode_FileNotFound | ErrorCode_ShareUnavailable | ErrorCode_InvalidPath
  | ErrorCode_NetworkError => true
  | _ => false
  end.

(** [tries] is [count + 1]. *)
Fixpoint prefixes_loop (tries : nat) (connected : client_state) (connection : Connection)
    (secret : secret_pointer) (context : CoreContext) (serverForUnc : QString)
    (segments : list QString) : client_method (list DfsResolvedPath) :=
  match tries with
  | O => succeed []
  | S tries =>
      let count := Z.of_nat tries in
      let prefix := pathFromSegments segments count in
      let requestPath := requestUncPath connection serverForUnc prefix in
      let next := prefixes_loop tries connected connection secret context serverForUnc
                    segments in
      referrals ← referrals_of connected context requestPath;
      match referrals with
      | Err e =>
          if not_here (err_code e) then next
          else fail [] (appError e m_sanitizer secret)
      | Throw m => mret (Throws m)
      | OutOfBounds => mret Undefined
      | Ok referrals =>
          let paths := resolved_paths connection serverForUnc requestPath prefix segments
                         count (ndr_response referrals) in
          match paths with [] => next | _ => succeed paths end
      end
  end.

Definition resolvePathTargets (connection : Connection) (secret : secret_pointer)
    (remotePath : QString) (context : CoreContext) : client_method (list DfsResolvedPath) :=
  let endpoint := endpointForServer (con_server connection) in
  let serverForUnc := fromStdString (ep_host endpoint) in
  with_ipc [] connection secret context (fun connected =>
  let segments := remotePathSegments remotePath in
  prefixes_loop (S (length segments)) connected connection secret context serverForUnc
    segments).

Definition resolvePath (connection : Connection) (secret : secret_pointer)
    (remotePath : QString) (context : CoreContext)
    : client_method (option DfsResolvedPath) :=
  targets ← resolvePathTargets connection secret remotePath context;
  mret (match targets with
        | Returns targets =>
            Returns (if negb (Result_ok targets) then Result_failure None (res_error targets)
                     else Result_success (head (res_value targets)))
        | Throws m => Throws m
        | Undefined => Undefined
        end).

End dfs_resolver.
