(* ===== verification/ResolverRuns.v ===== *)
(** * What the resolver of DFS referrals returns ([NativeDfsReferralResolver.cpp])

    The paths of its requests and the targets of referrals on segments, as in
    DfsPaths.v; and that over a server whose referrals tell the truth it keeps the
    contract the DFS client is proved against, [resolves_paths] of DfsRuns.v. *)

From S2P Require Export DfsProperties ClientWorld DfsResolver.
Local Open Scope Z_scope.

(** A decidable proposition, by evaluation. *)
Ltac by_decision := match goal with |- ?P => apply (bool_decide_unpack P); vm_compute; exact I end.

Section resolver_paths.
Context `{Qt} `{!QtLaws}.

(** ** The paths of requests *)

(** Segments that no path trims. *)
Definition tidy (l : list QString) : Prop := Forall (fun w => segment w /\ neat [w]) l.

Lemma tidy_segments l : tidy l -> Forall segment l.
Proof. intros Hl. eapply Forall_impl; [exact Hl|]. by intros w [? _]. Qed.

Lemma tidy_neat l : tidy l -> neat l.
Proof.
  intros Hl w c Hw Hc. apply last_Some in Hw as [l' ->]. apply Forall_app in Hl as [_ Hl].
  inversion_clear Hl as [|? ? [_ Hn] _]. by apply (Hn w).
Qed.

Lemma tidy_path l : tidy l -> path_segments (to_path l) = l.
Proof. intros Hl. apply neat_spelling; [by apply tidy_segments|by apply tidy_neat]. Qed.

Lemma tidy_normalize l : tidy l -> dfs_normalizeRemotePath (to_path l) = to_path l.
Proof. intros Hl. by rewrite normalize_segments, tidy_path. Qed.

Lemma tidy_prefix l1 l : l1 `prefix_of` l -> tidy l -> tidy l1.
Proof. intros [k ->] Hl. by apply Forall_app in Hl as [? _]. Qed.

Lemma join_spell l : l <> [] -> [kSlash] ++ QtText.join l [kSlash] = spell l.
Proof.
  intros Hl. destruct l as [|w l]; [done|]. revert w Hl.
  induction l as [|v l IH]; intros w Hl; [by rewrite spell_cons; cbn; rewrite app_nil_r|].
  rewrite spell_cons, <- IH by done. done.
Qed.

Lemma pathFromSegments_path l count :
  0 <= count <= blen l -> pathFromSegments l count = to_path (take (Z.to_nat count) l).
Proof.
  intros Hc. unfold pathFromSegments, blen in *. destruct (Z.leb_spec count 0).
  - by replace count with 0 by lia.
  - rewrite join_spell; [|intros Ht%(f_equal length); rewrite length_take in Ht; cbn in Ht; lia].
    destruct (take _ l) eqn:Ht; [|done].
    apply (f_equal length) in Ht. rewrite length_take in Ht. cbn in Ht. lia.
Qed.

Lemma remotePathSegments_path p : remotePathSegments p = path_segments p.
Proof.
  unfold remotePathSegments. rewrite normalize_segments.
  pose proof (path_segments_valid p) as Hv.
  rewrite (bool_decide_ext _ _ (to_path_root _ Hv)). case_bool_decide as He; [done|].
  unfold split_nonempty. rewrite midFrom_drop, split_parts by lia.
  destruct (to_path_cons (path_segments p)) as [t Ht]. rewrite Ht. cbn [Z.to_nat Pos.to_nat].
  change (segments_of t = path_segments p). rewrite <- segments_of_slash, <- Ht.
  by apply segments_of_to_path.
Qed.

(** The share of [host] and a path below it, with backslashes. *)
Definition backslashed (l : list QString) : QString := mjoin (cons kBackslash <$> l).
Definition unc_root (host share : QString) : QString :=
  [kBackslash; kBackslash] ++ host ++ [kBackslash] ++ share.
Definition unc (host share : QString) (l : list QString) : QString :=
  unc_root host share ++ backslashed l.

Lemma replaceChar_app s t a b :
  replaceChar (s ++ t) a b = replaceChar s a b ++ replaceChar t a b.
Proof. by rewrite !replaceChar_each, fmap_app. Qed.

Lemma replace_spell l : Forall segment l -> replaceChar (spell l) kSlash kBackslash = backslashed l.
Proof.
  intros Hl. induction Hl as [|w l (_ & Hs & _) Hl IH]; [by rewrite replaceChar_each|].
  rewrite spell_cons. change (kSlash :: ?x) with ([kSlash] ++ x).
  rewrite !replaceChar_app, IH, (replaceChar_absent w) by done. by rewrite replaceChar_each.
Qed.

Lemma replace_backslashed l :
  Forall segment l -> replaceChar (backslashed l) kBackslash kSlash = spell l.
Proof.
  intros Hl. induction Hl as [|w l (_ & _ & Hb) Hl IH]; [by rewrite replaceChar_each|].
  change (backslashed (w :: l)) with ([kBackslash] ++ w ++ backslashed l).
  rewrite !replaceChar_app, IH, (replaceChar_absent w) by done. by rewrite replaceChar_each.
Qed.

Lemma backslashed_no_slash l : Forall segment l -> kSlash ∉ backslashed l.
Proof.
  intros Hl (x & Hx & Hin)%list_elem_of_join. apply list_elem_of_fmap in Hin as (w & -> & Hw).
  apply (proj1 (Forall_forall _ _) Hl) in Hw as (_ & Hs & _).
  by apply elem_of_cons in Hx as [Hx|Hx].
Qed.

Lemma requestUncPath_unc c host l :
  tidy l -> requestUncPath c host (to_path l) = unc host (con_share c) l.
Proof.
  intros Hl. unfold requestUncPath, unc, unc_root. rewrite tidy_normalize by done.
  destruct l as [|w l].
  - change (to_path []) with [kSlash]. rewrite replaceChar_each. rewrite bool_decide_eq_true_2 by done.
    change (backslashed []) with (@nil Z). by rewrite !app_nil_r.
  - change (to_path (w :: l)) with (spell (w :: l)).
    rewrite replace_spell by by apply tidy_segments. rewrite bool_decide_eq_false_2.
    + by rewrite <- !app_assoc.
    + inversion_clear Hl as [|? ? [[Hne _] _] _]. destruct w as [|x w]; [done|]. discriminate.
Qed.

(** What the server says it consumed names the prefix it refers by. *)
Lemma consumedOriginalPrefix_unc host share l1 l n fallback :
  (kSlash ∉ host) -> (kSlash ∉ share) -> tidy l -> l1 `prefix_of` l ->
  n = 2 * blen (unc host share l1) ->
  consumedOriginalPrefix (unc host share l) host share n fallback = to_path l1.
Proof.
  intros Hh Hs Hl Hp ->. pose proof (tidy_prefix _ _ Hp Hl) as Hl1.
  unfold consumedOriginalPrefix.
  rewrite (proj2 (Z.eqb_neq _ 0)) by (unfold blen, unc, unc_root; cbn; rewrite !length_app; lia).
  rewrite Z.mul_comm, Z.div_mul by lia.
  destruct Hp as [k ->].
  assert (unc host share (l1 ++ k) = unc host share l1 ++ backslashed k) as ->.
  { unfold unc, backslashed. by rewrite fmap_app, join_app, app_assoc. }
  rewrite Z.min_l by (unfold blen; rewrite length_app; lia).
  assert (left (unc host share l1 ++ backslashed k) (blen (unc host share l1)) =
    unc host share l1) as ->.
  { rewrite left_take by (unfold blen; lia). unfold blen. by rewrite Nat2Z.id, take_app_length. }
  rewrite replaceChar_absent.
  2: { unfold unc, unc_root. rewrite !elem_of_app.
       intros [[H1|[?|[H2|?]]]|?]; [|done| |done|].
       - by apply elem_of_cons in H1 as [H1|H1%list_elem_of_singleton].
       - by apply list_elem_of_singleton in H2.
       - by eapply backslashed_no_slash; [by apply tidy_segments|]. }
  fold (unc_root host share).
  destruct l1 as [|w l1]; [by unfold unc; rewrite app_nil_r, equalsIgnoringCase_same|].
  destruct (equalsIgnoringCase _ _) eqn:He.
  { apply equalsIgnoringCase_length in He. unfold unc in He. rewrite length_app in He.
    cbn in He. lia. }
  assert (unc host share (w :: l1) =
    (unc_root host share ++ [kBackslash]) ++ w ++ backslashed l1) as Hu
    by (unfold unc; by rewrite <- app_assoc).
  rewrite Hu. rewrite startsWithIgnoringCase_app, <- Hu. unfold unc.
  rewrite midFrom_drop by (unfold blen; lia). unfold blen. rewrite Nat2Z.id, drop_app_length.
  rewrite replace_backslashed by by apply tidy_segments.
  change (spell (w :: l1)) with (to_path (w :: l1)). by apply tidy_normalize.
Qed.

(** ** The targets of referrals *)

Lemma backslashed_app a b : backslashed (a ++ b) = backslashed a ++ backslashed b.
Proof. unfold backslashed. by rewrite fmap_app, join_app. Qed.

Lemma last_backslashed l w : last l = Some w -> w <> [] -> last (backslashed l) = last w.
Proof.
  intros [l' ->]%last_Some Hw. rewrite backslashed_app. cbn.
  rewrite app_nil_r, last_app, last_cons. by destruct (last w) eqn:Hl; [|apply last_None in Hl].
Qed.

Lemma split_backslashed w l :
  segment w -> Forall segment l -> split_on kBackslash (w ++ backslashed l) = w :: l.
Proof.
  intros Hw Hl. revert w Hw. induction Hl as [|v l Hv Hl IH]; intros w (_ & _ & Hb).
  - unfold backslashed. cbn. by rewrite app_nil_r, split_on_free.
  - change (backslashed (v :: l)) with (kBackslash :: v ++ backslashed l).
    by rewrite split_on_sep, IH, split_on_free.
Qed.

Definition is_backslash (c : Z) : bool := c =? kBackslash.

Lemma strip_backslashes_all p : strip_backslashes (length p) p = drop_while is_backslash p.
Proof.
  induction p as [|c p IH]; [done|]. cbn [length strip_backslashes drop_while].
  rewrite startsWith_char. unfold is_backslash at 1. destruct (c =? kBackslash); [|done].
  rewrite removeAt_front by lia. exact IH.
Qed.

Lemma strip_pairs_none fuel p :
  drop_while is_backslash (strip_pairs fuel p) = drop_while is_backslash p.
Proof.
  revert p. induction fuel as [|fuel IH]; intros p; [done|]. cbn [strip_pairs].
  rewrite startsWithText_prefix. case_bool_decide as Hp; [|done]. destruct Hp as [k ->].
  rewrite removeAt_front by lia. by rewrite IH.
Qed.

(** Any number of backslashes may precede the target. *)
Lemma parse_target n host share t :
  tidy (host :: share :: t) ->
  parseNativeDfsReferralTarget (replicate n kBackslash ++ backslashed (host :: share :: t)) =
    Some (mkNativeDfsReferralTarget host share (to_path t)).
Proof.
  intros Hl. pose proof (tidy_segments _ Hl) as Hs.
  set (p := replicate n kBackslash ++ backslashed (host :: share :: t)).
  assert (trimmed p = p) as Ht.
  { destruct isSpace_slashes as [_ Hb].
    assert (exists q, p = kBackslash :: q) as [q Hq] by (unfold p; destruct n; by eexists).
    destruct (last p) as [d|] eqn:Hd; [|rewrite last_None in Hd; congruence].
    rewrite Hq in Hd |- *. apply (trimmed_solid _ _ d); [done| |done]. rewrite <- Hq in Hd.
    destruct (last (host :: share :: t)) as [w|] eqn:Hw; [|by apply last_None in Hw].
    apply (tidy_neat _ Hl w); [done|]. rewrite <- Hd. unfold p.
    assert (w <> []) as Hne.
    { apply last_Some in Hw as [l' Hw]. rewrite Hw in Hs. apply Forall_app in Hs as [_ Hs].
      by inversion_clear Hs as [|? ? [? _]]. }
    rewrite last_app, (last_backslashed _ w) by done.
    by destruct (last w) eqn:Hlw; [|apply last_None in Hlw]. }
  unfold parseNativeDfsReferralTarget. rewrite Ht, replaceChar_absent.
  2: { unfold p. rewrite elem_of_app. intros [[? _]%elem_of_replicate|Hin]; [done|].
       by apply backslashed_no_slash in Hin. }
  rewrite strip_backslashes_all, strip_pairs_none.
  assert (drop_while is_backslash p = host ++ backslashed (share :: t)) as ->.
  { unfold p. clear p Ht. induction n as [|n IH]; [|exact IH]. cbn. inversion_clear Hs as [|? ? [Hne [_ Hb]] _].
    destruct host as [|c host]; [done|]. cbn. unfold is_backslash.
    rewrite (proj2 (Z.eqb_neq c kBackslash)); [done|]. intros ->. apply Hb. by left. }
  inversion_clear Hs as [|? ? Hh Hs']. rewrite split_parts, split_backslashed by done.
  inversion_clear Hs' as [|? ? Hsh Hs].
  destruct Hh as [Hh _], Hsh as [Hsh _]. destruct host; [done|]. destruct share; [done|]. cbn [isEmpty orb].
  destruct t as [|w t]; [done|]. rewrite join_spell by done.
  change (spell (w :: t)) with (to_path (w :: t)). rewrite tidy_normalize; [done|].
  apply Forall_cons in Hl as [_ [_ Hl]%Forall_cons]. exact Hl.
Qed.

(** ** A resolver that tells the truth *)

Context {O : Type} (located : QString -> list QString -> O).
Context (strict : Prop) (entered : QString -> list QString -> Prop).

(** The host that requests name. *)
Definition host_for_unc (c : Connection) : QString :=
  fromStdString (ep_host (endpointForServer (con_server c))).

(** A referral answer for the path [l] that tells the truth: it refers by the
    prefix [l1] of what was asked, and each target is the same place. *)
Definition tells_truth (c : Connection) (l : list QString) (r : DfsReferralResponse) : Prop :=
  exists l1, l1 `prefix_of` l /\
  (drr_pathConsumedBytes r = 0 /\ l1 = l \/
   drr_pathConsumedBytes r = 2 * blen (unc (host_for_unc c) (con_share c) l1)) /\
  Forall (fun e => exists n host share t,
    tidy (host :: share :: t) /\
    fromStdString (dfe_networkAddress e) =
      replicate n kBackslash ++ backslashed (host :: share :: t) /\
    truthful located strict entered (cacheKey c) l1 t
      (targetConnectionFor c (mkNativeDfsReferralTarget host share (to_path t))))
    (drr_entries r).

Lemma other_target_spec c e target n host share t :
  tidy (host :: share :: t) ->
  fromStdString (dfe_networkAddress e) =
    replicate n kBackslash ++ backslashed (host :: share :: t) ->
  other_target c e = Some target -> target = mkNativeDfsReferralTarget host share (to_path t).
Proof.
  intros Ht Ha. unfold other_target. rewrite Ha, parse_target by done.
  by case_match; intros [= <-].
Qed.

Lemma or_else_path l (p : QString) : DfsRuns.or_else (to_path l) p = to_path l.
Proof. by destruct (to_path_cons l) as [t ->]. Qed.

Lemma resolved_paths_true c path l count r prefix :
  (kSlash ∉ host_for_unc c) -> (kSlash ∉ con_share c) -> tidy l ->
  l `prefix_of` path_segments path -> prefix = to_path l -> tells_truth c l r ->
  resolves_paths located strict entered c path (Result_success
    (resolved_paths c (host_for_unc c) (unc (host_for_unc c) (con_share c) l) prefix
       (path_segments path) count r)).
Proof.
  intros Hh Hs Hl Hp -> (l1 & Hl1 & Hn & He) _. exists l1. split; [by etrans|].
  pose proof (tidy_prefix _ _ Hl1 Hl) as Htidy1.
  assert (consumedOriginalPrefix (unc (host_for_unc c) (con_share c) l) (host_for_unc c)
    (con_share c) (drr_pathConsumedBytes r) (to_path l) = to_path l1) as Hconsumed.
  { destruct Hn as [[Hn ->]|Hn]; [|by apply consumedOriginalPrefix_unc].
    unfold consumedOriginalPrefix. rewrite Hn. by apply tidy_normalize. }
  cbn [res_value Result_success]. unfold resolved_paths. rewrite Hconsumed.
  apply Forall_forall. intros x [e [Hin Hx]]%list_elem_of_omap.
  apply (proj1 (Forall_forall _ _) He) in Hin as (n & host & share & t & Ht & Ha & Htr).
  destruct (other_target c e) as [target|] eqn:Htg; simplify_eq/=.
  apply (other_target_spec c e target n host share t) in Htg as ->; [|done..].
  apply Forall_cons in Ht as [_ [_ Ht]%Forall_cons].
  cbn. rewrite !or_else_path, !tidy_path by done. done.
Qed.

Context {W : Type} (answers : forall B : Set, client_call B -> W -> B -> W -> Prop).
Context (timeout : Z) (sanitizer : LogSanitizer).

(** What the engine answers for referrals of a connection. *)
Definition refers_truly (c : Connection) : Prop := forall id context l w r w',
  tidy l ->
  answers _ (Remote id context (GetDfsReferrals
    (toStdString (unc (host_for_unc c) (con_share c) l)))) w (Ok r) w' ->
  tells_truth c l (ndr_response r).

Definition returns_paths (c : Connection) (path : QString)
    (a : returned (list DfsResolvedPath)) : Prop :=
  forall r, a = Returns r -> resolves_paths located strict entered c path r.

Lemma nothing_resolves c path e : returns_paths c path (Returns (mkResult [] e)).
Proof. intros r [= <-] _. exists []. split; [apply prefix_nil|constructor]. Qed.

Lemma fails_truly c path (e : AppError) w :
  awp answers False (fail [] e) w (fun _ => returns_paths c path).
Proof. apply nothing_resolves. Qed.

Lemma awp_prefixes_loop tries c connected secret context path w :
  (kSlash ∉ host_for_unc c) -> (kSlash ∉ con_share c) -> tidy (path_segments path) ->
  refers_truly c -> (tries <= S (length (path_segments path)))%nat ->
  awp answers False
    (prefixes_loop timeout sanitizer tries connected c secret context (host_for_unc c)
       (path_segments path)) w (fun _ => returns_paths c path).
Proof.
  intros Hh Hs Hl Hr. revert w. induction tries as [|tries IH]; intros w Hn.
  { apply nothing_resolves. }
  cbn [prefixes_loop].
  assert (pathFromSegments (path_segments path) (Z.of_nat tries) =
    to_path (take tries (path_segments path))) as Hprefix.
  { rewrite pathFromSegments_path by (unfold blen; lia). by rewrite Nat2Z.id. }
  assert (take tries (path_segments path) `prefix_of` path_segments path) as Hp
    by apply prefix_take.
  pose proof (tidy_prefix _ _ Hp Hl) as Ht.
  rewrite Hprefix, requestUncPath_unc by done. unfold referrals_of. apply awp_ask.
  intros a w' Ha. destruct a as [r|e|m|].
  - apply Hr in Ha; [|done].
    pose proof (resolved_paths_true c path _ (Z.of_nat tries) (ndr_response r) _
      Hh Hs Ht Hp eq_refl Ha) as Htr.
    destruct (resolved_paths _ _ _ _ _ _ _) as [|x paths]; [by apply IH; lia|].
    by intros ? [= <-].
  - destruct (not_here _); [by apply IH; lia|apply fails_truly].
  - done.
  - done.
Qed.

Lemma awp_guid n w : awp answers False (guid_bytes n) w (fun _ _ => True).
Proof.
  revert w. induction n as [|n IH]; intros w; [done|]. intros v w' _. apply awp_bind.
  eapply awp_mono; [apply IH|]. done.
Qed.

Lemma awp_openIpcConnection c secret context w :
  awp answers False (openIpcConnection timeout c secret context) w (fun _ _ => True).
Proof.
  unfold openIpcConnection. apply awp_bind. apply (awp_mono _ _ _ _ (fun _ _ => True)).
  { unfold clientCancelled. by destruct (cc_cancellationToken context). }
  intros w1 [] _; [done|]. apply awp_ask. intros workstation w2 _.
  do 2 apply awp_bind. eapply awp_mono; [apply awp_guid|]. done.
Qed.

Lemma awp_with_ipc {B} (default : B) c secret context k Q w :
  (forall e w, Q w (Returns (Result_failure default e))) ->
  (forall m w, Q w (Throws m)) -> (forall w, Q w Undefined) ->
  (forall connected w, awp answers False (k connected) w (fun w a => forall w', Q w' a)) ->
  awp answers False (with_ipc timeout sanitizer default c secret context k) w Q.
Proof.
  intros Hf Ht Hu Hk. unfold with_ipc. apply awp_bind.
  eapply awp_mono; [apply awp_openIpcConnection|]. intros w' a _.
  destruct a as [connected|e|m|]; [|apply Hf|apply Ht|apply Hu].
  apply awp_bind. eapply awp_mono; [apply Hk|]. intros w1 r Hr u w2 _. apply Hr.
Qed.


End resolver_paths.

(** ** A server with one link *)

(** It refers by [/link] to [/data] on [srv], as the name space of
    DfsProperties.v has it. *)
Definition link_referral : DfsReferralResponse :=
  mkDfsReferralResponse (2 * blen (unc (text "ns") (text "x") [text "link"])) 0
    [mkDfsReferralEntry 3 0 0 300 (text "\ns\x\link") (text "\ns\x\link")
       (text "\srv\x\data") false false].

Definition refer_link (request : bytes) : comp NativeDfsReferralResult :=
  match split_on kBackslash request with
  | _ :: _ :: _ :: _ :: w :: _ =>
      if bool_decide (w = text "link") then Ok (mkNativeDfsReferralResult link_referral 1)
      else failure ErrorCode_FileNotFound "Not found."
  | _ => failure ErrorCode_FileNotFound "Not found."
  end.

Definition link_serve {B : Set} (c : client_call B) : unit -> option (B * unit) :=
  match c in client_call B return unit -> option (B * unit) with
  | AskCancelled => fun w => Some (false, w)
  | RandomDevice => fun w => Some (7, w)
  | MachineHostName => fun w => Some (text "here", w)
  | Connect _ _ _ _ _ => fun w => Some (Ok (served_state 0), w)
  | Disconnect _ => fun w => Some (tt, w)
  | @Remote A _ _ op => fun w =>
      match op in remote_op A return option (comp A * unit) with
      | GetDfsReferrals request => Some (refer_link request, w)
      | _ => None
      end
  | _ => fun _ => None
  end.

Abbreviation link_answers := (fun (B : Set) (c : client_call B) w b w' =>
  link_serve c w = Some (b, w')).

Lemma split_unc host share l :
  segment host -> segment share -> Forall segment l ->
  split_on kBackslash (unc host share l) = [] :: [] :: host :: share :: l.
Proof.
  intros Hh Hs Hl. change (unc host share l) with
    ([] ++ kBackslash :: [] ++ kBackslash :: (host ++ kBackslash :: share) ++ backslashed l).
  rewrite !split_on_sep, <- app_assoc. cbn [app].
  change (kBackslash :: share ++ backslashed l) with (backslashed (share :: l)).
  by rewrite split_backslashed by (first [done|by constructor]).
Qed.

Lemma ns_share : segment (text "ns") /\ segment (text "x").
Proof. by split; (split; [done|split; by_decision]). Qed.

Lemma truthful_key {O} (located : QString -> list QString -> O) strict entered key original
    target c c' :
  cacheKey c = cacheKey c' -> truthful located strict entered key original target c ->
  truthful located strict entered key original target c'.
Proof. intros He [H1 H2 H3 H4 H5]. rewrite He in *. by split. Qed.

Lemma link_refers_truly strict entered :
  (strict -> entered = entered_srv) -> refers_truly linked_file strict entered link_answers ns.
Proof.
  intros He id context l w r w' Hl Ha. 
  change (Some (refer_link (unc (text "ns") (text "x") l), w) = Some (Ok r, w')) in Ha.
  injection Ha as Ha _. unfold refer_link in Ha.
  rewrite split_unc in Ha; [|apply ns_share|apply ns_share|by apply tidy_segments].
  destruct l as [|u l]; [done|]. case_bool_decide as Hu; [|done]. injection Ha as <-.
  subst u. exists [text "link"]. split; [by exists l|]. split; [by right|].
  apply Forall_singleton. exists 0%nat, (text "srv"), (text "x"), [text "data"].
  split; [|split; [done|]]; cycle 1.
  { eapply truthful_key; [|by apply (sample_truthful strict entered)]. by vm_compute. }
  repeat constructor; try (by_decision); by intros w0 c [= <-] [= <-].
Qed.

(** The request for the whole path is answered by the link it passes. *)
Lemma run_resolver :
  run_asking (fun B => @link_serve B)
    (resolvePathTargets 30 [] ns None (text "/link/sub/f") sample_context) tt =
  Some (Some (Returns (Result_success
    [mkDfsResolvedPath (targetConnectionFor ns
       (mkNativeDfsReferralTarget (text "srv") (text "x") (text "/data")))
       [kSlash] (text "/link") (text "/data") 300])), tt).
Proof. by vm_compute. Qed.


(** A referral of a whole share to a path of another: [resolveTargets] returns the
    other share without the path, which is another tree. *)
Definition rooted_file (key : QString) (l : list QString) : QString * list QString :=
  if bool_decide (key = cacheKey ns) then (cacheKey srv, text "data" :: l) else (key, l).

Lemma resolved_connection_drops_path :
  let target := targetConnectionFor ns
    (mkNativeDfsReferralTarget (text "srv") (text "x") (text "/data")) in
  drc_connection <$> resolved_connections ns (drr_entries link_referral) = [target] /\
  truthful rooted_file False (fun _ _ => True) (cacheKey ns) [] [text "data"] target /\
  ~ same_tree rooted_file (cacheKey ns) target.
Proof.
  intros target. split; [by vm_compute|].
  assert (forall l, rooted_file (cacheKey target) l = (cacheKey srv, l)) as Ht
    by (intros l; unfold rooted_file; by rewrite bool_decide_eq_false_2).
  split.
  - split; [|done|by intros w c [= <-] [= <-]|done|done].
    intros rest. etrans; [|symmetry; apply Ht]. unfold rooted_file.
    by rewrite bool_decide_eq_true_2.
  - intros Hs. specialize (Hs []). unfold same_tree in Hs. rewrite Ht in Hs. revert Hs. by vm_compute.
Qed.
