(* ===== verification/Json.v ===== *)
(** * JSON, text encodings and libsodium, as the program uses them

    [QJsonValue] and [QJsonObject]; the class [QtJson] has the functions of Qt that
    write and read JSON documents, Base64, Latin-1 and dates, and [Sodium] those of
    libsodium; [QtJsonLaws] and [SodiumLaws] say what their documentation says.
    [sample_json] and [sample_sodium] are instances. *)

From stdpp Require Import gmap.
From S2P Require Export QtText.
Local Open Scope Z_scope.

(** ** Values *)

(** A number is a double; the program only has integers. *)
#[local] Set Warnings "-register-all,-automation".
Inductive json : Set :=
| JNull
| JBool (b : bool)
| JNumber (n : Z)
| JString (s : QString)
| JArray (l : list json)
| JObject (o : gmap QString json).

Abbreviation QJsonObject := (gmap QString json).

(** [QJsonObject::value], null for a key that is absent, and the conversions of
    [QJsonValue] with their defaults. *)
Definition value (object : QJsonObject) (key : QString) : json :=
  default JNull (object !! key).
Definition toStringOr (v : json) (otherwise : QString) : QString :=
  match v with JString s => s | _ => otherwise end.
Definition toText (v : json) : QString := toStringOr v [].
Definition toInt (v : json) : Z :=
  match v with
  | JNumber n => if (- 2 ^ 31 <=? n) && (n <? 2 ^ 31) then n else 0
  | _ => 0
  end.
Definition toBool (v : json) : bool := match v with JBool b => b | _ => false end.
Definition toObject (v : json) : QJsonObject := match v with JObject o => o | _ => ∅ end.
Definition toArray (v : json) : list json := match v with JArray l => l | _ => [] end.

(** Well-formed UTF-16: surrogates come in pairs. *)
Definition is_high (c : Z) : bool := (0xD800 <=? c) && (c <=? 0xDBFF).
Definition is_low (c : Z) : bool := (0xDC00 <=? c) && (c <=? 0xDFFF).
Fixpoint well_formed (s : QString) : bool :=
  match s with
  | [] => true
  | c :: s =>
      if is_high c then
        match s with d :: s => is_low d && well_formed s | [] => false end
      else negb (is_low c) && well_formed s
  end.

(** The values a document can hold unchanged. *)
Inductive storable : json -> Prop :=
| storable_null : storable JNull
| storable_bool b : storable (JBool b)
| storable_number n : - 2 ^ 53 <= n <= 2 ^ 53 -> storable (JNumber n)
| storable_string s : well_formed s = true -> storable (JString s)
| storable_array l : Forall storable l -> storable (JArray l)
| storable_object o :
    map_Forall (fun k v => well_formed k = true /\ storable v) o -> storable (JObject o).

(** ** Qt and libsodium *)

Class QtJson `{Qt} : Type := {
  (** [QJsonDocument(object).toJson(compact ? Compact : Indented)], and
      [QJsonDocument::fromJson] with the text of its error *)
  toJson : bool -> QJsonObject -> bytes;
  fromJson : bytes -> option json;
  jsonErrorString : bytes -> QString;
  toBase64 : bytes -> bytes;
  fromBase64 : bytes -> bytes;
  toLatin1 : QString -> bytes;
  fromLatin1 : bytes -> QString;
  (** [QDateTime::isValid], [toUTC().toString(Qt::ISODateWithMs)] and
      [fromString(text, Qt::ISODateWithMs)] *)
  isValid : QDateTime -> bool;
  toIsoUtc : QDateTime -> QString;
  fromIso : QString -> QDateTime;
  (** the same instant in UTC; a year of at most four digits *)
  inUtc : QDateTime -> QDateTime;
  hasIsoYear : QDateTime -> bool
}.

Class QtJsonLaws `{QtJson} : Prop := {
  fromJson_toJson compact object :
    storable (JObject object) -> fromJson (toJson compact object) = Some (JObject object);
  toBase64_ascii b : Forall (fun c => 0 <= c < 128) (toBase64 b);
  fromBase64_toBase64 b : fromBase64 (toBase64 b) = b;
  toLatin1_fromLatin1 b : Forall (fun c => 0 <= c < 128) b -> toLatin1 (fromLatin1 b) = b;
  fromLatin1_ascii b : Forall (fun c => 0 <= c < 128) b -> fromLatin1 b = b;
  toIsoUtc_ascii d : Forall (fun c => 0 <= c < 128) (toIsoUtc d);
  fromIso_toIsoUtc d :
    isValid d = true -> hasIsoYear d = true -> fromIso (toIsoUtc d) = inUtc d;
  isValid_null : isValid nullDateTime = false;
  isValid_inUtc d : isValid (inUtc d) = isValid d;
  hasIsoYear_inUtc d : hasIsoYear (inUtc d) = hasIsoYear d
}.

Class Sodium : Type := {
  (** [crypto_pwhash] with the limits and the algorithm of the program, where
      there is memory for it *)
  pwhash : bytes -> bytes -> bytes;
  (** [crypto_secretbox_easy(message, nonce, key)] and its inverse *)
  secretbox_easy : bytes -> bytes -> bytes -> bytes;
  secretbox_open_easy : bytes -> bytes -> bytes -> option bytes
}.

Definition crypto_pwhash_SALTBYTES : Z := 16.
Definition crypto_secretbox_KEYBYTES : Z := 32.
Definition crypto_secretbox_NONCEBYTES : Z := 24.
Definition crypto_secretbox_MACBYTES : Z := 16.

Class SodiumLaws `{Sodium} : Prop := {
  secretbox_opens message nonce key :
    secretbox_open_easy (secretbox_easy message nonce key) nonce key = Some message;
  blen_secretbox message nonce key :
    blen (secretbox_easy message nonce key) = blen message + crypto_secretbox_MACBYTES
}.

(** Bytes as text in a document, and back. *)
Definition base64_text `{QtJson} (b : bytes) : json := JString (fromLatin1 (toBase64 b)).
Definition bytes_of_text `{QtJson} (v : json) : bytes := fromBase64 (toLatin1 (toText v)).

Lemma well_formed_ascii s : Forall (fun c => 0 <= c < 128) s -> well_formed s = true.
Proof.
  intros Hs. induction Hs as [|c s Hc Hs IH]; [done|]. cbn. unfold is_high, is_low.
  rewrite (proj2 (Z.leb_gt 0xD800 c)) by lia. rewrite (proj2 (Z.leb_gt 0xDC00 c)) by lia. done.
Qed.

Section texts.
Context `{QtJson} `{!QtJsonLaws}.

Lemma bytes_of_base64_text b : bytes_of_text (base64_text b) = b.
Proof.
  unfold bytes_of_text, base64_text. cbn.
  by rewrite toLatin1_fromLatin1, fromBase64_toBase64 by apply toBase64_ascii.
Qed.

Lemma storable_base64_text b : storable (base64_text b).
Proof.
  constructor. rewrite fromLatin1_ascii by apply toBase64_ascii.
  apply well_formed_ascii, toBase64_ascii.
Qed.
End texts.

Lemma storable_insert (o : QJsonObject) k v :
  storable (JObject o) -> well_formed k = true -> storable v -> storable (JObject (<[k := v]> o)).
Proof. intros Ho Hk Hv. inversion_clear Ho. constructor. by apply map_Forall_insert_2; [split|]. Qed.

Lemma storable_empty : storable (JObject ∅).
Proof. constructor. apply map_Forall_empty. Qed.

Lemma storable_lookup (o : QJsonObject) k v :
  storable (JObject o) -> o !! k = Some v -> storable v.
Proof. intros Ho Hk. inversion_clear Ho as [| | | | |? Hm]. apply (Hm k v Hk). Qed.

Lemma storable_delete (o : QJsonObject) k :
  storable (JObject o) -> storable (JObject (delete k o)).
Proof. intros Ho. inversion_clear Ho. constructor. by apply map_Forall_delete. Qed.

(** ** Instances *)

(** A document is written as the values in prefix order, each text and each
    collection with its length first. *)
Fixpoint write_json (v : json) : bytes :=
  match v with
  | JNull => [0]
  | JBool b => [1; if b then 1 else 0]
  | JNumber n => [2; n]
  | JString s => 3 :: blen s :: s
  | JArray l => 4 :: blen l :: foldr (fun v rest => write_json v ++ rest) [] l
  | JObject o =>
      5 :: Z.of_nat (size o) ::
      map_fold (fun k v rest => blen k :: k ++ write_json v ++ rest) [] o
  end.

Section reading.
Context (read : bytes -> option (json * bytes)).

Fixpoint read_values (n : nat) (s : bytes) : option (list json * bytes) :=
  match n with
  | O => Some ([], s)
  | S n =>
      '(v, s) ← read s;
      '(l, s) ← read_values n s;
      Some (v :: l, s)
  end.

Fixpoint read_members (n : nat) (s : bytes) : option (list (QString * json) * bytes) :=
  match n with
  | O => Some ([], s)
  | S n =>
      match s with
      | len :: s =>
          '(v, rest) ← read (drop (Z.to_nat len) s);
          '(l, rest) ← read_members n rest;
          Some ((take (Z.to_nat len) s, v) :: l, rest)
      | [] => None
      end
  end.
End reading.

Fixpoint read_json (fuel : nat) (s : bytes) : option (json * bytes) :=
  match fuel, s with
  | S fuel, 0 :: s => Some (JNull, s)
  | S fuel, 1 :: b :: s => Some (JBool (b =? 1), s)
  | S fuel, 2 :: n :: s => Some (JNumber n, s)
  | S fuel, 3 :: len :: s =>
      Some (JString (take (Z.to_nat len) s), drop (Z.to_nat len) s)
  | S fuel, 4 :: len :: s =>
      '(l, s) ← read_values (read_json fuel) (Z.to_nat len) s;
      Some (JArray l, s)
  | S fuel, 5 :: len :: s =>
      '(l, s) ← read_members (read_json fuel) (Z.to_nat len) s;
      Some (JObject (list_to_map l), s)
  | _, _ => None
  end.

Definition read_document (s : bytes) : option json :=
  match read_json (S (length s)) s with Some (v, []) => Some v | _ => None end.

Definition write_values (l : list json) : bytes :=
  foldr (fun v rest => write_json v ++ rest) [] l.
Definition write_members (l : list (QString * json)) : bytes :=
  foldr (fun '(k, v) rest => blen k :: k ++ write_json v ++ rest) [] l.

Lemma write_object o :
  write_json (JObject o) = 5 :: Z.of_nat (size o) :: write_members (map_to_list o).
Proof. cbn [write_json]. by rewrite map_fold_foldr. Qed.

Lemma write_value_short v l : v ∈ l -> (length (write_json v) <= length (write_values l))%nat.
Proof.
  induction l as [|u l IH]; intros Hv; [by apply elem_of_nil in Hv|]. cbn.
  rewrite length_app. apply elem_of_cons in Hv as [<-|Hv]; [lia|]. specialize (IH Hv).
  unfold write_values in IH. lia.
Qed.

Lemma write_member_short k v l :
  (k, v) ∈ l -> (length (write_json v) <= length (write_members l))%nat.
Proof.
  induction l as [|[j u] l IH]; intros Hv; [by apply elem_of_nil in Hv|]. cbn.
  rewrite !length_app. apply elem_of_cons in Hv as [[= <- <-]|Hv]; [lia|].
  specialize (IH Hv). unfold write_members in IH. lia.
Qed.

Lemma read_values_written read l rest :
  (forall v rest, v ∈ l -> read (write_json v ++ rest) = Some (v, rest)) ->
  read_values read (length l) (write_values l ++ rest) = Some (l, rest).
Proof.
  induction l as [|v l IH]; intros Hr; [done|]. cbn [length read_values].
  change (write_values (v :: l)) with (write_json v ++ write_values l).
  rewrite <- app_assoc, Hr by (by left). cbn [mbind option_bind].
  rewrite IH; [done|]. intros u ? Hu. apply Hr. by right.
Qed.

Lemma read_members_written read l rest :
  (forall k v rest, (k, v) ∈ l -> read (write_json v ++ rest) = Some (v, rest)) ->
  read_members read (length l) (write_members l ++ rest) = Some (l, rest).
Proof.
  induction l as [|[k v] l IH]; intros Hr; [done|]. cbn [length].
  change (write_members ((k, v) :: l)) with (blen k :: k ++ write_json v ++ write_members l).
  cbn [app read_members]. unfold blen. rewrite Nat2Z.id, <- !app_assoc.
  rewrite drop_app_length, take_app_length, (Hr k) by (by left). cbn [mbind option_bind].
  rewrite IH; [done|]. intros j u ? Hu. apply (Hr j). by right.
Qed.

Lemma read_written fuel v rest :
  (length (write_json v) <= fuel)%nat -> read_json fuel (write_json v ++ rest) = Some (v, rest).
Proof.
  revert v rest. induction fuel as [|fuel IH]; intros v rest Hf; [destruct v; cbn in Hf; lia|].
  destruct v as [|b|n|s|l|o]; cbn [write_json app read_json].
  - done.
  - by destruct b.
  - done.
  - unfold blen. by rewrite Nat2Z.id, take_app_length, drop_app_length.
  - unfold blen. rewrite Nat2Z.id.
    change (foldr _ _ l) with (write_values l). cbn [read_json].
    rewrite read_values_written; [done|]. intros v r Hv. apply IH.
    pose proof (write_value_short v l Hv).
    change (S (S (length (write_values l))) <= S fuel)%nat in Hf. lia.
  - pose proof (write_object o) as Ho. rewrite Ho in Hf. cbn [write_json] in Ho.
    injection Ho as ->. rewrite Nat2Z.id, <- length_map_to_list.
    rewrite read_members_written; [by cbn; rewrite list_to_map_to_list|].
    intros k v r Hv. apply IH. pose proof (write_member_short k v _ Hv). cbn in Hf. lia.
Qed.

Lemma read_document_written v : read_document (write_json v) = Some v.
Proof.
  unfold read_document. rewrite <- (app_nil_r (write_json v)) at 2.
  by rewrite read_written by lia.
Qed.

(** Bytes are written as the binary digits of numbers that stand for them, the
    lowest first and each number with an end. *)
Fixpoint digits (p : positive) : bytes :=
  match p with
  | xH => [50]
  | xO p => 48 :: digits p
  | xI p => 49 :: digits p
  end.
Fixpoint numbers (s : bytes) : list positive :=
  match s with
  | [] => []
  | c :: s =>
      match numbers s with
      | ps => if c =? 50 then xH :: ps else
          match ps with
          | p :: ps => (if c =? 48 then xO p else xI p) :: ps
          | [] => []
          end
      end
  end.
Definition write_bytes (b : bytes) : bytes := b ≫= fun z => digits (encode z).
Definition read_bytes (s : bytes) : bytes := omap decode (numbers s).

Lemma numbers_digits p s : numbers (digits p ++ s) = p :: numbers s.
Proof. induction p as [p IH|p IH|]; cbn; [by rewrite IH..|done]. Qed.

Lemma read_write_bytes b : read_bytes (write_bytes b) = b.
Proof.
  unfold read_bytes, write_bytes. induction b as [|z b IH]; [done|]. cbn [mbind list_bind].
  rewrite numbers_digits. cbn [omap list_omap]. by rewrite decode_encode, IH.
Qed.

Lemma digits_ascii p : Forall (fun c => 0 <= c < 128) (digits p).
Proof. induction p; repeat constructor; try lia; done. Qed.

Lemma write_bytes_ascii b : Forall (fun c => 0 <= c < 128) (write_bytes b).
Proof. induction b; [constructor|]. apply Forall_app. split; [apply digits_ascii|done]. Qed.

Definition sample_json : @QtJson ascii_qt := @Build_QtJson ascii_qt
  (fun _ object => write_json (JObject object)) read_document
  (fun _ => QStringLiteral "illegal value")
  write_bytes read_bytes
  (fun s => s) (fun b => b)
  (fun d : Z => bool_decide (d <> 0)) (fun d : Z => write_bytes [d])
  (fun s => default 0 (head (read_bytes s))) (fun d => d) (fun _ => true).

Lemma sample_json_laws : @QtJsonLaws ascii_qt sample_json.
Proof.
  split.
  - intros compact object _. apply read_document_written.
  - apply write_bytes_ascii.
  - apply read_write_bytes.
  - done.
  - done.
  - intros d. apply write_bytes_ascii.
  - intros d _ _. change (default 0 (head (read_bytes (write_bytes [d]))) = d).
    by rewrite read_write_bytes.
  - done.
  - done.
  - done.
Qed.

(** A box is the key's code and the message. *)
Definition key_code (key : bytes) : bytes := take 16 (key ++ zeros 16).

Lemma length_key_code key : length (key_code key) = 16%nat.
Proof.
  unfold key_code. rewrite length_take, length_app. change (length (zeros 16)) with 16%nat. lia.
Qed.

Definition sample_sodium : Sodium := {|
  pwhash password salt := password ++ salt;
  secretbox_easy message nonce key := key_code key ++ message;
  secretbox_open_easy box nonce key :=
    if bool_decide (take 16 box = key_code key) then Some (drop 16 box) else None
|}.

Lemma sample_sodium_laws : @SodiumLaws sample_sodium.
Proof.
  split; intros message nonce key; cbn.
  - rewrite take_app_length', drop_app_length' by by rewrite length_key_code.
    by rewrite bool_decide_eq_true_2.
  - unfold blen. rewrite length_app, length_key_code. unfold crypto_secretbox_MACBYTES. lia.
Qed.
