(* ===== verification/Vault.v ===== *)
(** * The encrypted vault ([EncryptedVaultCredentialStore.cpp])

    A file of secrets by reference, sealed with a key from a master password.
    The methods are programs of calls: to libsodium where its answer may vary, to
    the file of the vault and to the random generators.  The file then is a map of secrets. *)

From S2P Require Export Json Asking NativeClient.
Local Open Scope Z_scope.

(** [SodiumInit] is what [sodium_init] returned to the static variable that keeps
    it.  [Pwhash] is [crypto_pwhash]: it fails where there is no memory for it.  The
    file calls are those of [QFile], [QFileInfo] and [QDir] on the path of the
    vault; [CloseVault] is the destructor of the [QFile]. *)
Inductive vault_call : Set -> Type :=
| SodiumInit : vault_call Z
| RandomBytes (size : Z) : vault_call bytes
| Pwhash (password salt : bytes) : vault_call (option bytes)
| CreateUuid : vault_call QString
| VaultExists : vault_call bool
| OpenVaultRead : vault_call bool
| ReadVault : vault_call bytes
| VaultDirExists : vault_call bool
| MakeVaultDir : vault_call bool
| OpenVaultTruncate : vault_call bool
| WriteVault (data : bytes) : vault_call Z
| FlushVault : vault_call bool
| CloseVault : vault_call unit.
Abbreviation vault := (asking vault_call).

Section vault.
Context `{QtJson} `{Sodium}.

Definition VaultVersion : Z := 1.

Definition vault_credentialError (code : AppErrorCode) (details : string) : AppError :=
  fromCode code ErrorCategory_Credentials (QStringLiteral details) false.

Definition vault_localIoError (details : string) : AppError :=
  fromCode App_LocalIoError ErrorCategory_Credentials (QStringLiteral details) false.

Definition ensureSodiumInitialized : vault bool :=
  r ← ask SodiumInit;
  mret (0 <=? r).

Definition makeCredentialRef (ownerId : QString) : vault QString :=
  id ← ask CreateUuid;
  mret (if isEmpty ownerId then QStringLiteral "vault:" ++ id
        else QStringLiteral "vault:" ++ ownerId ++ [kColon] ++ id).

Definition emptyPayload : QJsonObject :=
  <[QStringLiteral "credentials" := JObject ∅]> ∅.

Definition credentialsObject (payload : QJsonObject) : QJsonObject :=
  toObject (value payload (QStringLiteral "credentials")).

(** The key, or the error that is assigned to the out parameter. *)
Definition vault_deriveKey (masterPassword salt : bytes) : vault (AppError + bytes) :=
  key ← ask (Pwhash masterPassword salt);
  mret match key with
       | Some key => inr key
       | None => inl (vault_credentialError App_CredentialStoreUnavailable
                        "Unable to derive vault key.")
       end.

Definition sodium_missing : AppError :=
  vault_credentialError App_CredentialStoreUnavailable "libsodium initialization failed.".

(** What is read of a vault that is an object. *)
Definition open_sealed (masterPassword : bytes) (object : QJsonObject)
    : vault (Result QJsonObject) :=
  let failing e := mret (Result_failure ∅ e) in
  if negb (toInt (value object (QStringLiteral "version")) =? VaultVersion) then
    failing (vault_credentialError App_StorageError
               "Encrypted vault version is not supported.")
  else
  let salt := bytes_of_text (value object (QStringLiteral "salt")) in
  let nonce := bytes_of_text (value object (QStringLiteral "nonce")) in
  let ciphertext := bytes_of_text (value object (QStringLiteral "ciphertext")) in
  if negb (blen salt =? crypto_pwhash_SALTBYTES)
     || negb (blen nonce =? crypto_secretbox_NONCEBYTES)
     || (blen ciphertext <? crypto_secretbox_MACBYTES) then
    failing (vault_credentialError App_StorageError
               "Encrypted vault structure is invalid.")
  else
  key ← vault_deriveKey masterPassword salt;
  match key with
  | inl keyError => failing keyError
  | inr key =>
      match secretbox_open_easy ciphertext nonce key with
      | None => failing (vault_credentialError App_PermissionDenied
                           "Encrypted vault decryption failed.")
      | Some plaintext =>
          match fromJson plaintext with
          | Some (JObject payload) => mret (Result_success payload)
          | _ => failing (vault_credentialError App_StorageError
                            "Encrypted vault payload is invalid.")
          end
      end
  end.

Definition decryptPayload (masterPassword : bytes) : vault (Result QJsonObject) :=
  initialized ← ensureSodiumInitialized;
  if negb initialized then mret (Result_failure ∅ sodium_missing) else
  exists_ ← ask VaultExists;
  if negb exists_ then mret (Result_success emptyPayload) else
  opened ← ask OpenVaultRead;
  if negb opened then
    _ ← ask CloseVault;
    mret (Result_failure ∅ (vault_localIoError "Unable to open encrypted vault."))
  else
  data ← ask ReadVault;
  result ← match fromJson data with
           | Some (JObject object) => open_sealed masterPassword object
           | _ => mret (Result_failure ∅ (vault_credentialError App_StorageError
                         "Encrypted vault file is not valid JSON."))
           end;
  _ ← ask CloseVault;
  mret result.

Definition sealed_vault (salt nonce ciphertext : bytes) : QJsonObject :=
  <[QStringLiteral "ciphertext" := base64_text ciphertext]>
  (<[QStringLiteral "nonce" := base64_text nonce]>
  (<[QStringLiteral "salt" := base64_text salt]>
  (<[QStringLiteral "cipher" := JString (QStringLiteral "crypto_secretbox")]>
  (<[QStringLiteral "kdf" := JString (QStringLiteral "libsodium-crypto_pwhash")]>
  (<[QStringLiteral "version" := JNumber VaultVersion]> ∅))))).

(** The directory is made, and the file written over. *)
Definition store_vault (data : bytes) : vault AppError :=
  dirExists ← ask VaultDirExists;
  made ← (if dirExists : bool then mret true else ask MakeVaultDir);
  if negb made then
    mret (vault_localIoError "Unable to create encrypted vault directory.")
  else
  opened ← ask OpenVaultTruncate;
  error ← (if negb opened then
             mret (vault_localIoError "Unable to write encrypted vault.")
           else
             _ ← ask (WriteVault data);
             flushed ← ask FlushVault;
             mret (if negb flushed then vault_localIoError "Unable to flush encrypted vault."
                   else noError));
  _ ← ask CloseVault;
  mret error.

Definition writePayload (masterPassword : bytes) (payload : QJsonObject) : vault AppError :=
  initialized ← ensureSodiumInitialized;
  if negb initialized then mret sodium_missing else
  salt ← ask (RandomBytes crypto_pwhash_SALTBYTES);
  nonce ← ask (RandomBytes crypto_secretbox_NONCEBYTES);
  key ← vault_deriveKey masterPassword salt;
  match key with
  | inl keyError => mret keyError
  | inr key =>
      let plaintext := toJson true payload in
      let ciphertext := secretbox_easy plaintext nonce key in
      store_vault (toJson true (sealed_vault salt nonce ciphertext))
  end.

(** ** Methods *)

Context (m_masterPassword : bytes).

Definition vault_load (credentialRef : QString) : vault (Result bytes) :=
  payload ← decryptPayload m_masterPassword;
  if negb (Result_ok payload) then mret (Result_failure [] (res_error payload)) else
  let credentials := credentialsObject (res_value payload) in
  mret match credentials !! credentialRef with
       | None => Result_failure [] (vault_credentialError App_CredentialNotFound
                                     "Credential was not found.")
       | Some secret => Result_success (bytes_of_text secret)
       end.

(** [update] and [remove] after their change of the credentials. *)
Definition rewrite_credentials (object credentials : QJsonObject) (done : bool)
    : vault (Result bool) :=
  let object := <[QStringLiteral "credentials" := JObject credentials]> object in
  error ← writePayload m_masterPassword object;
  mret (if hasError error then Result_failure false error else Result_success done).

Definition vault_update (credentialRef : QString) (secret : bytes) : vault (Result bool) :=
  payload ← decryptPayload m_masterPassword;
  if negb (Result_ok payload) then mret (Result_failure false (res_error payload)) else
  let object := res_value payload in
  let credentials := <[credentialRef := base64_text secret]> (credentialsObject object) in
  rewrite_credentials object credentials true.

Definition vault_remove (credentialRef : QString) : vault (Result bool) :=
  payload ← decryptPayload m_masterPassword;
  if negb (Result_ok payload) then mret (Result_failure false (res_error payload)) else
  let object := res_value payload in
  let credentials := credentialsObject object in
  let removed := bool_decide (is_Some (credentials !! credentialRef)) in
  rewrite_credentials object (delete credentialRef credentials) removed.

Definition vault_save (ownerId : QString) (secret : bytes) : vault (Result QString) :=
  credentialRef ← makeCredentialRef ownerId;
  updated ← vault_update credentialRef secret;
  mret (if negb (Result_ok updated) then Result_failure [] (res_error updated)
        else Result_success credentialRef).

Definition vault_isAvailable : vault (Result bool) :=
  initialized ← ensureSodiumInitialized;
  mret (if negb initialized then Result_failure false sodium_missing
        else Result_success true).

End vault.

(** * What the vault keeps *)

#[local] Arguments QStringLiteral : simpl never.

Section vault_runs.
Context `{QtJson} `{!QtJsonLaws} `{Sodium} `{!SodiumLaws}.

(** ** The file of the vault *)

(** The file, and what was written to the open [QFile] and not yet flushed. *)
Record vault_world : Set := mkVaultWorld {
  vw_file : option bytes;
  vw_pending : option bytes
}.

(** What the surroundings may answer.  In a world of [short] writes, the file may
    take less of the data than it was given. *)
Definition vault_answers (short : Prop) {B : Set} (c : vault_call B)
    : vault_world -> B -> vault_world -> Prop :=
  match c in vault_call B return vault_world -> B -> vault_world -> Prop with
  | SodiumInit => fun w _ w' => w' = w
  | RandomBytes size => fun w r w' => w' = w /\ (0 <= size -> blen r = size)
  | Pwhash password salt => fun w r w' =>
      w' = w /\ forall key, r = Some key -> key = pwhash password salt
  | CreateUuid => fun w r w' => w' = w /\ well_formed r = true
  | VaultExists => fun w r w' => w' = w /\ r = bool_decide (is_Some (vw_file w))
  | OpenVaultRead | VaultDirExists | MakeVaultDir => fun w _ w' => w' = w
  | ReadVault => fun w r w' => w' = w /\ vw_file w = Some r
  | OpenVaultTruncate => fun w r w' =>
      w' = if r : bool then mkVaultWorld (Some []) (Some []) else w
  | WriteVault data => fun w _ w' => exists taken,
      w' = mkVaultWorld (vw_file w) (Some (default [] (vw_pending w) ++ taken)) /\
      taken `prefix_of` data /\ (short \/ taken = data)
  | FlushVault => fun w r w' => exists flushed,
      w' = mkVaultWorld (Some (default [] (vw_file w) ++ flushed)) (Some []) /\
      flushed `prefix_of` default [] (vw_pending w) /\
      (r = true -> flushed = default [] (vw_pending w))
  | CloseVault => fun w _ w' =>
      match vw_pending w with
      | None => w' = w
      | Some pending => exists flushed, flushed `prefix_of` pending /\
          w' = mkVaultWorld (Some (default [] (vw_file w) ++ flushed)) None
      end
  end.

#[local] Abbreviation proves short := (awp (fun B => @vault_answers short B) False).

(** ** What a vault holds *)

(** The secrets of a document, by reference. *)
Definition keeps (payload : QJsonObject) (secrets : gmap QString bytes) : Prop :=
  storable (JObject payload) /\ credentialsObject payload = base64_text <$> secrets.

(** A vault that opens with the master password to a document. *)
Definition sealed (password data : bytes) (payload : QJsonObject) : Prop :=
  exists object, fromJson data = Some (JObject object) /\
  toInt (value object (QStringLiteral "version")) = VaultVersion /\
  let salt := bytes_of_text (value object (QStringLiteral "salt")) in
  let nonce := bytes_of_text (value object (QStringLiteral "nonce")) in
  let ciphertext := bytes_of_text (value object (QStringLiteral "ciphertext")) in
  blen salt = crypto_pwhash_SALTBYTES /\ blen nonce = crypto_secretbox_NONCEBYTES /\
  crypto_secretbox_MACBYTES <= blen ciphertext /\
  exists plaintext,
    secretbox_open_easy ciphertext nonce (pwhash password salt) = Some plaintext /\
    fromJson plaintext = Some (JObject payload).

(** The vault of the master password holds these secrets; no file holds none. *)
Definition vault_holds (password : bytes) (file : option bytes)
    (secrets : gmap QString bytes) : Prop :=
  match file with
  | None => secrets = ∅
  | Some data => exists payload, sealed password data payload /\ keeps payload secrets
  end.

(** ** Reading *)

Lemma keeps_nothing : keeps emptyPayload ∅.
Proof.
  split; [|by rewrite fmap_empty].
  apply storable_insert; [apply storable_empty|by vm_compute|apply storable_empty].
Qed.

Lemma awp_ensureSodiumInitialized short w Q :
  (forall b, Q w b) -> proves short ensureSodiumInitialized w Q.
Proof. intros HQ i w' ->. apply HQ. Qed.

Lemma awp_deriveKey short password salt w Q :
  (forall e, hasError e = true -> Q w (inl e)) -> Q w (inr (pwhash password salt)) ->
  proves short (vault_deriveKey password salt) w Q.
Proof.
  intros Hf HQ [key|] w' [-> Hk]; [|by apply Hf]. cbn. by rewrite (Hk key eq_refl).
Qed.

Lemma awp_open_sealed short password object payload data w Q :
  fromJson data = Some (JObject object) -> sealed password data payload ->
  (forall e, hasError e = true -> Q w (Result_failure ∅ e)) -> Q w (Result_success payload) ->
  proves short (open_sealed password object) w Q.
Proof.
  intros Hd (object' & Hd' & Hv & Hs & Hn & Hc & plaintext & Ho & Hp) Hf Hq.
  rewrite Hd in Hd'. injection Hd' as <-. unfold open_sealed.
  rewrite Hv, Hs, Hn, !Z.eqb_refl, (proj2 (Z.ltb_ge _ _) Hc). cbn [negb orb].
  apply awp_bind, awp_deriveKey; [exact Hf|]. rewrite Ho, Hp. exact Hq.
Qed.

Lemma awp_decryptPayload short password secrets w Q :
  vault_holds password (vw_file w) secrets -> vw_pending w = None ->
  (forall e, hasError e = true -> Q w (Result_failure ∅ e)) ->
  (forall payload, keeps payload secrets -> Q w (Result_success payload)) ->
  proves short (decryptPayload password) w Q.
Proof.
  intros Hh Hn Hf Hq. apply awp_bind, awp_ensureSodiumInitialized. intros []; [|by apply Hf].
  cbn [negb]. apply awp_ask. intros e w' [-> ->]. case_bool_decide as He; cbn [negb].
  2: { apply Hq. destruct (vw_file w); [by destruct He|]. cbn in Hh. subst. apply keeps_nothing. }
  apply awp_ask. intros opened w' ->. destruct opened; cbn [negb].
  2: { apply awp_ask. intros u w'. cbn. rewrite Hn. intros ->. by apply Hf. }
  apply awp_ask. intros data w' [-> Hd]. rewrite Hd in Hh. destruct Hh as (payload & Hs & Hk).
  pose proof Hs as (object & Ho & _). rewrite Ho. apply awp_bind.
  assert (forall r, Q w r -> proves short (_ ← ask CloseVault; mret r) w Q) as Hclose.
  { intros r Hr u w'. cbn. by rewrite Hn; intros ->. }
  by eapply (awp_open_sealed short); eauto.
Qed.

(** ** Writing *)

Lemma sealed_vault_storable salt nonce ciphertext :
  storable (JObject (sealed_vault salt nonce ciphertext)).
Proof.
  unfold sealed_vault.
  repeat (apply storable_insert; [|by vm_compute|first
    [apply storable_base64_text|by constructor; vm_compute|constructor; unfold VaultVersion; lia]]).
  apply storable_empty.
Qed.

Lemma sealed_vault_fields salt nonce ciphertext :
  let object := sealed_vault salt nonce ciphertext in
  toInt (value object (QStringLiteral "version")) = VaultVersion /\
  bytes_of_text (value object (QStringLiteral "salt")) = salt /\
  bytes_of_text (value object (QStringLiteral "nonce")) = nonce /\
  bytes_of_text (value object (QStringLiteral "ciphertext")) = ciphertext.
Proof.
  cbv zeta. unfold value, sealed_vault. split_and!.
  - rewrite !lookup_insert_ne by by vm_compute. by rewrite lookup_insert_eq.
  - do 2 rewrite lookup_insert_ne by by vm_compute. rewrite lookup_insert_eq. apply bytes_of_base64_text.
  - rewrite lookup_insert_ne by by vm_compute. rewrite lookup_insert_eq. apply bytes_of_base64_text.
  - rewrite lookup_insert_eq. apply bytes_of_base64_text.
Qed.
Definition flush_failed : AppError := vault_localIoError "Unable to flush encrypted vault.".

Lemma awp_store_vault data w Q :
  vw_pending w = None -> Q (mkVaultWorld (Some data) None) noError ->
  (forall e, hasError e = true -> Q w e) ->
  (forall file, Q (mkVaultWorld (Some file) None) flush_failed) ->
  proves False (store_vault data) w Q.
Proof.
  intros Hn Hq Hf Hl. apply awp_ask. intros exists_ w' ->. apply awp_bind.
  eapply (awp_mono _ _ _ _ (fun w' _ => w' = w)); [destruct exists_; [done|by intros b w']|].
  intros w' made ->. destruct made; cbn [negb]; [|by apply Hf].
  apply awp_ask. intros opened w' ->. destruct opened; cbn [negb].
  2: { apply awp_bind, awp_ask. intros u w'. cbn. rewrite Hn. intros ->. by apply Hf. }
  apply awp_bind, awp_ask. intros n w' (taken & -> & _ & Htaken). destruct Htaken as [[]| ->].
  apply awp_ask. intros flushed w' (out & -> & _ & Hout).
  apply awp_ask. intros u w'. cbn. intros (more & Hmore & ->).
  apply prefix_nil_inv in Hmore as ->. rewrite app_nil_r. cbn in Hout.
  destruct flushed; cbn [negb]; [|apply Hl]. by rewrite Hout.
Qed.

Lemma awp_writePayload password payload secrets w Q :
  keeps payload secrets -> vw_pending w = None ->
  (forall file, vault_holds password (Some file) secrets -> Q (mkVaultWorld (Some file) None) noError) ->
  (forall e, hasError e = true -> Q w e) ->
  (forall file, Q (mkVaultWorld (Some file) None) flush_failed) ->
  proves False (writePayload password payload) w Q.
Proof.
  intros Hk Hn Hq Hf Hl. apply awp_bind, awp_ensureSodiumInitialized. intros []; [|by apply Hf].
  cbn [negb]. apply awp_ask. intros salt w' [-> Hsalt]. apply awp_ask. intros nonce w' [-> Hnonce].
  specialize (Hsalt ltac:(done)). specialize (Hnonce ltac:(done)).
  apply awp_bind, awp_deriveKey; [done|]. apply awp_store_vault; [done| |done|done].
  apply Hq. exists payload. split; [|done].
  set (ciphertext := secretbox_easy _ _ _).
  exists (sealed_vault salt nonce ciphertext).
  destruct (sealed_vault_fields salt nonce ciphertext) as (Hv & -> & -> & ->).
  split; [by apply fromJson_toJson, sealed_vault_storable|].
  split; [done|]. cbv zeta. split_and!; [done..| |].
  - unfold ciphertext. rewrite blen_secretbox. unfold blen. lia.
  - exists (toJson true payload). split; [apply secretbox_opens|].
    apply fromJson_toJson, Hk.
Qed.

(** ** The methods *)

(** The vault as a map of secrets: its operations and what they return. *)
Inductive vault_op : Set -> Type :=
| Load (ref : QString) : vault_op bytes
| Update (ref : QString) (secret : bytes) : vault_op bool
| Remove_secret (ref : QString) : vault_op bool
| Save (ownerId : QString) (secret : bytes) : vault_op QString.

Definition vault_method (password : bytes) {A : Set} (op : vault_op A) : vault (Result A) :=
  match op in vault_op A return vault (Result A) with
  | Load ref => vault_load password ref
  | Update ref secret => vault_update password ref secret
  | Remove_secret ref => vault_remove password ref
  | Save ownerId secret => vault_save password ownerId secret
  end.

(** The map after an operation that returned [a]. *)
Definition secrets_after {A : Set} (op : vault_op A)
    : A -> gmap QString bytes -> gmap QString bytes -> Prop :=
  match op in vault_op A return A -> gmap QString bytes -> gmap QString bytes -> Prop with
  | Load ref => fun a m m' => m !! ref = Some a /\ m' = m
  | Update ref secret => fun a m m' => a = true /\ m' = <[ref := secret]> m
  | Remove_secret ref => fun a m m' =>
      a = bool_decide (is_Some (m !! ref)) /\ m' = delete ref m
  | Save ownerId secret => fun a m m' =>
      QStringLiteral "vault:" `prefix_of` a /\ m' = <[a := secret]> m
  end.

(** The references of the operation can be stored. *)
Definition storable_op {A : Set} (op : vault_op A) : Prop :=
  match op with
  | Load _ | Remove_secret _ => True
  | Update ref _ => well_formed ref = true
  | Save ownerId _ => well_formed ownerId = true
  end.

(** What an operation leaves: on success the secrets after it, otherwise the file
    it found, but for a flush that failed. *)
Definition vault_left {A : Set} (password : bytes) (op : vault_op A)
    (secrets : gmap QString bytes) (w : vault_world) (w' : vault_world) (r : Result A) : Prop :=
  vw_pending w' = None /\
  if Result_ok r then exists secrets', secrets_after op (res_value r) secrets secrets' /\
      vault_holds password (vw_file w') secrets'
  else vw_file w' = vw_file w \/ res_error r = flush_failed.

Lemma awp_rewrite password object credentials secrets result w Q :
  storable (JObject object) -> storable (JObject credentials) ->
  credentials = base64_text <$> secrets -> vw_pending w = None ->
  (forall file r, Result_ok r = true -> res_value r = result ->
     vault_holds password (Some file) secrets -> Q (mkVaultWorld (Some file) None) r) ->
  (forall e, hasError e = true -> Q w (Result_failure false e)) ->
  (forall file, Q (mkVaultWorld (Some file) None) (Result_failure false flush_failed)) ->
  proves False (rewrite_credentials password object credentials result) w Q.
Proof.
  intros Ho Hc He Hn Hq Hf Hl. apply awp_bind. eapply (awp_writePayload _ _ secrets); [|done|..].
  - split; [by apply storable_insert; [..|by vm_compute]|].
    unfold credentialsObject, value. by rewrite lookup_insert_eq.
  - intros file Hh. by apply Hq.
  - intros e Hh. cbn. rewrite Hh. by apply Hf.
  - intros file. apply Hl.
Qed.

Lemma vault_left_failure {A : Set} password (op : vault_op A) secrets w default e :
  vw_pending w = None -> hasError e = true ->
  vault_left password op secrets w w (Result_failure default e).
Proof.
  intros Hn He. split; [done|]. unfold Result_ok. cbn. rewrite He. by left.
Qed.

Lemma vault_left_unflushed {A : Set} password (op : vault_op A) secrets w file default :
  vault_left password op secrets w (mkVaultWorld (Some file) None)
    (Result_failure default flush_failed).
Proof. split; [done|]. by right. Qed.

Lemma keeps_credentials payload secrets :
  keeps payload secrets -> storable (JObject (credentialsObject payload)).
Proof.
  intros [Hs Hc]. unfold credentialsObject, value.
  destruct (payload !! _) as [v|] eqn:Hv; [|apply storable_empty].
  apply (storable_lookup _ _ _ Hs) in Hv. destruct v; try apply storable_empty. done.
Qed.

Lemma awp_vault_load password ref secrets w :
  vault_holds password (vw_file w) secrets -> vw_pending w = None ->
  proves False (vault_load password ref) w (vault_left password (Load ref) secrets w).
Proof.
  intros Hh Hn. apply awp_bind. eapply awp_decryptPayload; [done|done| |].
  - intros e He. unfold Result_ok. cbn [res_error Result_failure]. rewrite He.
    by apply vault_left_failure.
  - intros payload [_ Hc]. cbn [Result_ok Result_success res_error]. cbn. rewrite Hc, lookup_fmap.
    destruct (secrets !! ref) as [secret|] eqn:Hs; [|by apply vault_left_failure].
    split; [done|]. cbn. exists secrets. rewrite bytes_of_base64_text. done.
Qed.

Lemma awp_vault_update password ref secret secrets w :
  well_formed ref = true ->
  vault_holds password (vw_file w) secrets -> vw_pending w = None ->
  proves False (vault_update password ref secret) w
    (vault_left password (Update ref secret) secrets w).
Proof.
  intros Href Hh Hn. apply awp_bind. eapply awp_decryptPayload; [done|done| |].
  - intros e He. unfold Result_ok. cbn [res_error Result_failure]. rewrite He.
    by apply vault_left_failure.
  - intros payload Hk. pose proof (keeps_credentials _ _ Hk) as Hc. destruct Hk as [Hs He].
    apply (awp_rewrite _ _ _ (<[ref := secret]> secrets)); [done| |by rewrite fmap_insert, <- He|done|..].
    + apply storable_insert; [done|done|apply storable_base64_text].
    + intros file r Hok Hv Hh'. split; [done|]. rewrite Hok. eexists. split; [by rewrite Hv|done].
    + intros e He'. by apply vault_left_failure.
    + intros file. apply vault_left_unflushed.
Qed.

Lemma awp_vault_remove password ref secrets w :
  vault_holds password (vw_file w) secrets -> vw_pending w = None ->
  proves False (vault_remove password ref) w
    (vault_left password (Remove_secret ref) secrets w).
Proof.
  intros Hh Hn. apply awp_bind. eapply awp_decryptPayload; [done|done| |].
  - intros e He. unfold Result_ok. cbn [res_error Result_failure]. rewrite He.
    by apply vault_left_failure.
  - intros payload Hk. pose proof (keeps_credentials _ _ Hk) as Hc. destruct Hk as [Hs He].
    apply (awp_rewrite _ _ _ (delete ref secrets)); [done| |by rewrite fmap_delete, <- He|done|..].
    + by apply storable_delete.
    + intros file r Hok Hv Hh'. split; [done|]. rewrite Hok. eexists.
      split; [rewrite Hv; split; [|done]|done].
      cbn. rewrite He, lookup_fmap. apply bool_decide_ext. by rewrite fmap_is_Some.
    + intros e He'. by apply vault_left_failure.
    + intros file. apply vault_left_unflushed.
Qed.

Lemma well_formed_app s t :
  well_formed s = true -> well_formed t = true -> well_formed (s ++ t) = true.
Proof.
  remember (length s) as n eqn:Hl. revert s Hl. induction (lt_wf n) as [n _ IH]. intros s -> Hs Ht.
  destruct s as [|c s]; [done|]. cbn in Hs |- *. destruct (is_high c).
  - destruct s as [|d s]; [done|]. cbn [app]. apply andb_true_iff in Hs as [-> Hs].
    by apply (IH (length s)); [cbn; lia|..].
  - apply andb_true_iff in Hs as [-> Hs]. by apply (IH (length s)); [cbn; lia|..].
Qed.

Lemma awp_makeCredentialRef ownerId w Q :
  well_formed ownerId = true ->
  (forall ref, well_formed ref = true -> QStringLiteral "vault:" `prefix_of` ref -> Q w ref) ->
  proves False (makeCredentialRef ownerId) w Q.
Proof.
  intros Ho HQ id w' [-> Hid]. cbn.
  destruct (isEmpty ownerId); apply HQ; try by eexists.
  - by apply well_formed_app; [vm_compute|].
  - repeat apply well_formed_app; try done; by vm_compute.
Qed.

Lemma awp_vault_method {A : Set} password (op : vault_op A) secrets w :
  storable_op op -> vault_holds password (vw_file w) secrets -> vw_pending w = None ->
  proves False (vault_method password op) w (vault_left password op secrets w).
Proof.
  intros Hop Hh Hn. destruct op as [ref|ref secret|ref|ownerId secret].
  - by apply awp_vault_load.
  - by apply awp_vault_update.
  - by apply awp_vault_remove.
  - apply awp_bind, awp_makeCredentialRef; [done|]. intros ref Hr Hp.
    apply awp_bind. eapply awp_mono; [by apply awp_vault_update|]. intros w' r [Hn' Hl].
    cbn. split; [by destruct (Result_ok r)|]. destruct (Result_ok r) eqn:Hok; cbn [negb].
    + destruct Hl as (m & [_ ->] & Hm). exists (<[ref := secret]> secrets). by split.
    + unfold Result_ok in Hok |- *. cbn. by rewrite Hok.
Qed.


End vault_runs.

(** ** A file system that takes [taken] of each write *)

Definition vault_serve `{Qt} `{Sodium} (taken : bytes -> bytes) {B : Set} (c : vault_call B)
    : vault_world -> option (B * vault_world) :=
  match c in vault_call B return vault_world -> option (B * vault_world) with
  | SodiumInit => fun w => Some (0, w)
  | RandomBytes size => fun w => Some (zeros (Z.to_nat size), w)
  | Pwhash password salt => fun w => Some (Some (pwhash password salt), w)
  | CreateUuid => fun w => Some (QStringLiteral "1b4e28ba", w)
  | VaultExists => fun w => Some (bool_decide (is_Some (vw_file w)), w)
  | OpenVaultRead => fun w => Some (true, w)
  | ReadVault => fun w => data ← vw_file w; Some (data, w)
  | VaultDirExists | MakeVaultDir => fun w => Some (true, w)
  | OpenVaultTruncate => fun w => Some (true, mkVaultWorld (Some []) (Some []))
  | WriteVault data => fun w =>
      Some (blen (taken data),
        mkVaultWorld (vw_file w) (Some (default [] (vw_pending w) ++ taken data)))
  | FlushVault => fun w => Some (true,
      mkVaultWorld (Some (default [] (vw_file w) ++ default [] (vw_pending w))) (Some []))
  | CloseVault => fun w => Some (tt,
      match vw_pending w with
      | None => w
      | Some pending => mkVaultWorld (Some (default [] (vw_file w) ++ pending)) None
      end)
  end.

Lemma vault_serve_answers `{QtJson} `{Sodium} (short : Prop) taken (B : Set) (c : vault_call B)
    w b w' :
  (forall data, taken data `prefix_of` data /\ (short \/ taken data = data)) ->
  vault_serve taken c w = Some (b, w') -> vault_answers short c w b w'.
Proof.
  intros Ht. destruct c; cbn [vault_serve vault_answers]; intros Hs; simplify_eq/=; try done.
  - split; [done|]. intros Hn. unfold blen, zeros. rewrite length_replicate. lia.
  - split; [done|]. by intros key [= <-].
  - destruct (vw_file w) as [data|] eqn:Hf; simplify_eq/=. done.
  - exists (taken data). split; [done|]. apply Ht.
  - by exists (default [] (vw_pending w)).
  - destruct (vw_pending w) as [pending|]; [|done]. by exists pending.
Qed.

#[local] Existing Instances sample_json sample_json_laws sample_sodium sample_sodium_laws.

Abbreviation run_vault taken := (run_asking (fun B => @vault_serve _ _ taken B)).
Definition no_vault : vault_world := mkVaultWorld None None.
Definition master : bytes := [109; 97].

Lemma vault_runs short taken {A} (p : vault A) w o w' :
  (forall data, taken data `prefix_of` data /\ (short \/ taken data = data)) ->
  run_vault taken p w = Some (o, w') ->
  asks (fun B => @vault_answers _ short B) p w o w'.
Proof. intros Ht. apply run_runs. intros B c u b u'. by apply vault_serve_answers. Qed.

(** The run ends with a result of which [Q] holds. *)
Lemma run_vault_ends taken {A : Set} (op : vault_op A) w (Q : Result A -> vault_world -> bool) :
  match run_vault taken (vault_method master op) w with
  | Some (Some r, w') => Q r w'
  | _ => false
  end = true ->
  exists r w', run_vault taken (vault_method master op) w = Some (Some r, w') /\ Q r w' = true.
Proof. destruct (run_vault _ _ _) as [[[r|] w']|]; try done. by exists r, w'. Qed.

Lemma run_save : exists r w',
  run_vault id (vault_method master (Save (QStringLiteral "me") [1; 2; 3])) no_vault = Some (Some r, w') /\
  (Result_ok r && bool_decide (res_value r = QStringLiteral "vault:me:1b4e28ba")) = true.
Proof. apply run_vault_ends. by vm_compute. Qed.


(** A write that takes less than it was given is not noticed: the operation
    succeeds and no secret can be read again. *)
Lemma vault_short_write_loses : exists r w',
  run_vault (take 2) (vault_method master (Save (QStringLiteral "me") [1; 2; 3])) no_vault
    = Some (Some r, w') /\
  (Result_ok r && match run_vault id (vault_method master (Load (res_value r))) w' with
                  | Some (Some l, _) => bool_decide (ae_code (res_error l) = App_StorageError)
                  | _ => false
                  end) = true.
Proof. apply run_vault_ends. by vm_compute. Qed.
