(* ===== verification/PathNormalizer.v ===== *)
(** * Paths and identities that users type ([core/PathNormalizer.cpp])

    What a path of a share and a user name are taken for. URIs are read by [QUrl],
    which is a function of the class [QtUrl]; paths with slashes or backslashes
    are read here. *)

From S2P Require Export Json NativeClient DfsPaths.
Local Open Scope Z_scope.

(** What the program asks a valid [QUrl] for. *)
Record url : Set := mkUrl {
  url_scheme : QString;
  url_userName : QString;
  url_password : QString;
  url_host : QString;
  url_path : QString
}.

Class QtUrl `{Qt} : Type := {
  parseUrl : QString -> option url
}.

Record NormalizedSmbPath : Set := mkNormalizedSmbPath {
  nsp_inputPath : QString;
  nsp_normalizedUri : QString;
  nsp_server : QString;
  nsp_share : QString;
  nsp_initialRemotePath : QString
}.

Record ParsedIdentity : Set := mkParsedIdentity {
  pid_authType : AuthType;
  pid_domain : QString;
  pid_username : QString
}.

Section path_normalizer.
Context `{QtUrl}.

Definition no_path : NormalizedSmbPath := mkNormalizedSmbPath [] [] [] [] [].
Definition no_identity : ParsedIdentity := mkParsedIdentity AuthType_Password [] [].

Definition cleanedPathInput (input : QString) : QString :=
  replaceChar (trimmed input) kBackslash kSlash.

Definition invalidInput (details : string) : AppError :=
  fromCode App_InvalidPath ErrorCategory_Validation (QStringLiteral details) false.

Definition invalidPath (details : string) : Result NormalizedSmbPath :=
  Result_failure no_path (invalidInput details).

Definition invalidIdentity (details : string) : Result ParsedIdentity :=
  Result_failure no_identity (invalidInput details).

(** [parts.mid(firstIndex).join('/')] *)
Definition joinInitialPath (parts : list QString) (firstIndex : nat) : QString :=
  if bool_decide (length parts <= firstIndex)%nat then []
  else QtText.join (drop firstIndex parts) [kSlash].

(** [split('/', Qt::SkipEmptyParts)] *)
Definition path_parts (path : QString) : list QString :=
  filter (fun part => part <> []) (splitParts path kSlash).

(** The loop over leading slashes; the path gets shorter each time. *)
Fixpoint strip_slashes (fuel : nat) (path : QString) : QString :=
  match fuel with
  | O => path
  | S fuel =>
      if startsWith path kSlash then strip_slashes fuel (removeAt path 0 1) else path
  end.

(** The server, the share and the path of a URI. *)
Definition uri_parts (input : QString) : string + (QString * QString * QString) :=
  match parseUrl input with
  | None => inl "SMB URI is invalid."%string
  | Some url =>
      if negb (equalsIgnoringCase (url_scheme url) (QStringLiteral "smb"))
      then inl "SMB URI is invalid."%string else
      if negb (isEmpty (url_userName url)) || negb (isEmpty (url_password url))
      then inl "SMB URI must not contain credentials."%string else
      let server := trimmed (url_host url) in
      match path_parts (url_path url) with
      | [] => inr (server, [], [])
      | share :: _ as parts => inr (server, trimmed share, joinInitialPath parts 1)
      end
  end.

Definition unc_parts (input : QString) : QString * QString * QString :=
  let path := cleanedPathInput input in
  let path := strip_slashes (length path) path in
  match path_parts path with
  | server :: share :: _ as parts => (trimmed server, trimmed share, joinInitialPath parts 2)
  | _ => ([], [], [])
  end.

Definition normalizeSmbPath (inputPath : QString) : Result NormalizedSmbPath :=
  let input := trimmed inputPath in
  if isEmpty input then invalidPath "SMB path is empty." else
  match (if startsWithIgnoringCase input (QStringLiteral "smb://")
         then uri_parts input else inr (unc_parts input)) with
  | inl details => invalidPath details
  | inr (server, share, initialRemotePath) =>
      if isEmpty server then invalidPath "SMB server is missing." else
      if isEmpty share then invalidPath "SMB share is missing." else
      Result_success (mkNormalizedSmbPath inputPath
        (QStringLiteral "smb://" ++ server ++ [kSlash] ++ share)
        server share initialRemotePath)
  end.

Definition kAt : Z := 0x40.

(** An explicit domain has to agree with the one of the user name. *)
Definition conflicts (domain parsedDomain : QString) : bool :=
  negb (isEmpty domain) && negb (equalsIgnoringCase domain parsedDomain).

Definition normalizeIdentity (authType : AuthType) (usernameInput domainInput : QString)
    : Result ParsedIdentity :=
  let username := trimmed usernameInput in
  let domain := trimmed domainInput in
  if negb (bool_decide (authType = AuthType_Password)) then
    Result_success (mkParsedIdentity authType domain username)
  else
  if isEmpty username then
    invalidIdentity "Username is required for password authentication."
  else
  let slashIndex := indexOf username kBackslash in
  let atIndex := indexOf username kAt in
  if 0 <? slashIndex then
    let parsedDomain := trimmed (left username slashIndex) in
    let parsedUsername := trimmed (midFrom username (slashIndex + 1)) in
    if isEmpty parsedUsername then invalidIdentity "Username part is empty." else
    if conflicts domain parsedDomain
    then invalidIdentity "Explicit domain conflicts with username domain."
    else Result_success (mkParsedIdentity authType parsedDomain parsedUsername)
  else if 0 <? atIndex then
    let parsedUsername := trimmed (left username atIndex) in
    let parsedDomain := trimmed (midFrom username (atIndex + 1)) in
    if isEmpty parsedUsername || isEmpty parsedDomain
    then invalidIdentity "User principal name is incomplete." else
    if conflicts domain parsedDomain
    then invalidIdentity "Explicit domain conflicts with username domain."
    else Result_success (mkParsedIdentity authType parsedDomain parsedUsername)
  else Result_success (mkParsedIdentity authType domain username).

End path_normalizer.
