(* ===== verification/ImportExport.v ===== *)
(** * Exported connections ([ImportExportService.cpp])

    Connections and groups are written to a JSON document, which a passphrase may
    seal, and read back. *)

From stdpp Require Import gmap.
From S2P Require Export PathNormalizer Asking DfsClient.
Local Open Scope Z_scope.

(** ** Data *)

(** [smb::core::Connection] with the members the clients have no use for. *)
Record SavedConnection `{Qt} : Set := mkSavedConnection {
  svc_connection : Connection;
  svc_name : QString;
  svc_inputPath : QString;
  svc_initialRemotePath : QString;
  svc_credentialRef : QString;
  svc_comment : QString;
  svc_groupId : QString;
  svc_isFavorite : bool;
  svc_lastOpenedAt : QDateTime;
  svc_createdAt : QDateTime;
  svc_updatedAt : QDateTime;
  svc_lastErrorCode : AppErrorCode;
  svc_lastErrorMessage : QString;
  svc_lastSuccessfulCheckAt : QDateTime
}.

Record ConnectionGroup `{Qt} : Set := mkConnectionGroup {
  grp_id : QString;
  grp_name : QString;
  grp_sortOrder : Z;
  grp_createdAt : QDateTime;
  grp_updatedAt : QDateTime
}.

Record ExportPayload `{Qt} : Set := mkExportPayload {
  xpl_connections : list SavedConnection;
  xpl_groups : list ConnectionGroup
}.

Record ExportOptions : Set := mkExportOptions {
  xpo_includePlainTextPasswords : bool;
  xpo_confirmPlainTextPasswordExport : bool;
  xpo_credentialStore : bool;
  xpo_encryptExport : bool;
  xpo_encryptionPassphrase : bytes
}.

Inductive DuplicatePolicy : Set :=
| DuplicatePolicy_Skip
| DuplicatePolicy_Replace
| DuplicatePolicy_CreateCopy.
#[export] Instance DuplicatePolicy_eq_dec : EqDecision DuplicatePolicy.
Proof. solve_decision. Defined.

Record ImportOptions : Set := mkImportOptions {
  imo_duplicatePolicy : DuplicatePolicy;
  imo_existingConnectionIds : gset QString;
  imo_encryptionPassphrase : bytes
}.

Record ImportRecordError : Set := mkImportRecordError {
  ire_index : Z;
  ire_recordName : QString;
  ire_error : AppError
}.

Record ImportResult `{Qt} : Set := mkImportResult {
  imr_connections : list SavedConnection;
  imr_groups : list ConnectionGroup;
  imr_errors : list ImportRecordError;
  imr_skippedDuplicates : Z
}.

Arguments mkSavedConnection {_} _ _ _ _ _ _ _ _ _ _ _ _ _ _.
Arguments mkConnectionGroup {_} _ _ _ _ _.
Arguments mkExportPayload {_} _ _.
Arguments mkImportResult {_} _ _ _ _.

(** The calls: libsodium, the generators, and the store of credentials.  [InitSodium]
    is what [sodium_init] returned to the static variable that keeps it. *)
Inductive export_call `{Qt} : Set -> Type :=
| InitSodium : export_call Z
| RandomBuffer (size : Z) : export_call bytes
| PasswordHash (password salt : bytes) : export_call (option bytes)
| NewUuid : export_call QString
| CurrentUtc : export_call QDateTime
| LoadCredential (credentialRef : QString) : export_call (Result bytes).
Abbreviation export := (asking export_call).

(** ** Conversions *)

Definition appErrorCode_toString (code : AppErrorCode) : QString :=
  QStringLiteral match code with
  | App_None => "none"
  | App_InvalidPath => "invalid_path"
  | App_DnsError => "dns_error"
  | App_ServerUnavailable => "server_unavailable"
  | App_ShareUnavailable => "share_unavailable"
  | App_AuthenticationFailed => "authentication_failed"
  | App_PermissionDenied => "permission_denied"
  | App_Timeout => "timeout"
  | App_ProtocolUnsupported => "protocol_unsupported"
  | App_NetworkError => "network_error"
  | App_FileNotFound => "file_not_found"
  | App_AlreadyExists => "already_exists"
  | App_DirectoryNotEmpty => "directory_not_empty"
  | App_OperationCancelled => "operation_cancelled"
  | App_LocalIoError => "local_io_error"
  | App_StorageError => "storage_error"
  | App_CredentialStoreUnavailable => "credential_store_unavailable"
  | App_CredentialNotFound => "credential_not_found"
  | App_Unknown => "unknown"
  end.

Definition authTypeFromString (value : QString) : AuthType :=
  if bool_decide (value = QStringLiteral "guest") then AuthType_Guest else
  if bool_decide (value = QStringLiteral "anonymous") then AuthType_Anonymous else
  if bool_decide (value = QStringLiteral "current_user") then AuthType_CurrentUser else
  AuthType_Password.

Definition knownCodes : list AppErrorCode :=
  [App_None; App_InvalidPath; App_DnsError; App_ServerUnavailable; App_ShareUnavailable;
   App_AuthenticationFailed; App_PermissionDenied; App_Timeout; App_ProtocolUnsupported;
   App_NetworkError; App_FileNotFound; App_AlreadyExists; App_DirectoryNotEmpty;
   App_OperationCancelled; App_LocalIoError; App_StorageError;
   App_CredentialStoreUnavailable; App_CredentialNotFound; App_Unknown].

Definition errorCodeFromString (value : QString) : AppErrorCode :=
  default App_None
    (head (filter (fun code => appErrorCode_toString code = value) knownCodes)).

Section import_export.
Context `{Qt} `{!QtUrl} `{!QtJson} `{Sodium}.

Definition kExportSchemaVersion : Z := 1.
Definition kEncryptedExportSchemaVersion : Z := 1.
Definition plainExportSchema : QString := QStringLiteral "smb-browser.connections.export".
Definition encryptedExportSchema : QString :=
  QStringLiteral "smb-browser.connections.encrypted-export".

Definition addDateTime (key : string) (dateTime : QDateTime) (object : QJsonObject)
    : QJsonObject :=
  if isValid dateTime
  then <[QStringLiteral key := JString (toIsoUtc dateTime)]> object else object.

Definition dateTimeFromJson (object : QJsonObject) (key : string) : QDateTime :=
  match value object (QStringLiteral key) with
  | JString text => fromIso text
  | _ => nullDateTime
  end.

(** A member of an object, as it is added to it. *)
Definition member (key : string) (v : json) (object : QJsonObject) : QJsonObject :=
  <[QStringLiteral key := v]> object.
Definition text_member (key : string) (text : QString) : QJsonObject -> QJsonObject :=
  member key (JString text).

Definition validationError (details : string) : AppError :=
  fromCode App_InvalidPath ErrorCategory_Validation (QStringLiteral details) false.

Definition credentialError (code : AppErrorCode) (details : string) : AppError :=
  fromCode code ErrorCategory_Credentials (QStringLiteral details) false.

Definition ensureSodium : export bool :=
  r ← ask InitSodium;
  mret (0 <=? r).

Definition deriveExportKey (passphrase salt : bytes) : export (AppError + bytes) :=
  key ← ask (PasswordHash passphrase salt);
  mret match key with
       | Some key => inr key
       | None => inl (credentialError App_CredentialStoreUnavailable
                        "Unable to derive export key.")
       end.

Definition sodium_unavailable : AppError :=
  credentialError App_CredentialStoreUnavailable "libsodium initialization failed.".

Definition sealed_export (salt nonce ciphertext : bytes) : QJsonObject :=
  member "ciphertext" (base64_text ciphertext)
  (member "nonce" (base64_text nonce)
  (member "salt" (base64_text salt)
  (text_member "cipher" (QStringLiteral "crypto_secretbox")
  (text_member "kdf" (QStringLiteral "libsodium-crypto_pwhash")
  (member "version" (JNumber kEncryptedExportSchemaVersion)
  (text_member "schema" encryptedExportSchema ∅)))))).

Definition encryptExportPayload (plaintext passphrase : bytes) : export (Result bytes) :=
  match passphrase with
  | [] => mret (Result_failure [] (validationError "Encrypted export requires passphrase."))
  | _ =>
      initialized ← ensureSodium;
      if negb initialized then mret (Result_failure [] sodium_unavailable) else
      salt ← ask (RandomBuffer crypto_pwhash_SALTBYTES);
      nonce ← ask (RandomBuffer crypto_secretbox_NONCEBYTES);
      key ← deriveExportKey passphrase salt;
      mret match key with
           | inl keyError => Result_failure [] keyError
           | inr key =>
               let ciphertext := secretbox_easy plaintext nonce key in
               Result_success (toJson false (sealed_export salt nonce ciphertext))
           end
  end.

Definition decryptExportPayload (root : QJsonObject) (passphrase : bytes)
    : export (Result bytes) :=
  let failing e := mret (Result_failure [] e) in
  match passphrase with
  | [] => failing (validationError "Encrypted import requires passphrase.")
  | _ =>
      initialized ← ensureSodium;
      if negb initialized then failing sodium_unavailable else
      if negb (toInt (value root (QStringLiteral "version"))
                 =? kEncryptedExportSchemaVersion) then
        failing (validationError "Unsupported encrypted export version.")
      else
      let salt := bytes_of_text (value root (QStringLiteral "salt")) in
      let nonce := bytes_of_text (value root (QStringLiteral "nonce")) in
      let ciphertext := bytes_of_text (value root (QStringLiteral "ciphertext")) in
      if negb (blen salt =? crypto_pwhash_SALTBYTES)
         || negb (blen nonce =? crypto_secretbox_NONCEBYTES)
         || (blen ciphertext <? crypto_secretbox_MACBYTES) then
        failing (validationError "Encrypted export structure is invalid.")
      else
      key ← deriveExportKey passphrase salt;
      match key with
      | inl keyError => failing keyError
      | inr key =>
          match secretbox_open_easy ciphertext nonce key with
          | None => failing (credentialError App_PermissionDenied
                               "Encrypted export decryption failed.")
          | Some plaintext => mret (Result_success plaintext)
          end
      end
  end.
(** ** Writing *)

(** [m_sanitizer.sanitize]; the sanitizer has no secrets of its own. *)
Definition sanitized (message : QString) : QString := sanitize_message [] message.

Definition connection_object (connection : SavedConnection) : QJsonObject :=
  let c := svc_connection connection in
  addDateTime "lastSuccessfulCheckAt" (svc_lastSuccessfulCheckAt connection)
  (addDateTime "updatedAt" (svc_updatedAt connection)
  (addDateTime "createdAt" (svc_createdAt connection)
  (addDateTime "lastOpenedAt" (svc_lastOpenedAt connection)
  (text_member "lastErrorMessage" (sanitized (svc_lastErrorMessage connection))
  (text_member "lastErrorCode" (appErrorCode_toString (svc_lastErrorCode connection))
  (member "favorite" (JBool (svc_isFavorite connection))
  (text_member "groupId" (svc_groupId connection)
  (text_member "comment" (svc_comment connection)
  (text_member "authType" (authType_toString (con_authType c))
  (text_member "username" (con_username c)
  (text_member "domain" (con_domain c)
  (text_member "initialRemotePath" (svc_initialRemotePath connection)
  (text_member "share" (con_share c)
  (text_member "server" (con_server c)
  (text_member "normalizedUri" (con_normalizedUri c)
  (text_member "inputPath" (svc_inputPath connection)
  (text_member "name" (svc_name connection)
  (text_member "id" (con_id c) ∅)))))))))))))))))).

Definition connectionToJson (connection : SavedConnection) (options : ExportOptions)
    : export (Result QJsonObject) :=
  let object := connection_object connection in
  if xpo_includePlainTextPasswords options
     && bool_decide (con_authType (svc_connection connection) = AuthType_Password) then
    if isEmpty (svc_credentialRef connection) then
      mret (Result_failure ∅ (credentialError App_CredentialNotFound
                                "Connection has no credential reference."))
    else
    secret ← ask (LoadCredential (svc_credentialRef connection));
    mret (if negb (Result_ok secret) then Result_failure ∅ (res_error secret)
          else Result_success
                 (text_member "plainTextPassword" (fromUtf8 (res_value secret)) object))
  else mret (Result_success object).

Definition groupToJson (group : ConnectionGroup) : QJsonObject :=
  addDateTime "updatedAt" (grp_updatedAt group)
  (addDateTime "createdAt" (grp_createdAt group)
  (member "sortOrder" (JNumber (grp_sortOrder group))
  (text_member "name" (grp_name group)
  (text_member "id" (grp_id group) ∅)))).

Fixpoint connections_loop (connections : list SavedConnection) (options : ExportOptions)
    (items : list json) : export (Result (list json)) :=
  match connections with
  | [] => mret (Result_success items)
  | connection :: connections =>
      item ← connectionToJson connection options;
      if negb (Result_ok item) then mret (Result_failure [] (res_error item))
      else connections_loop connections options (items ++ [JObject (res_value item)])
  end.

Definition export_root (exportedAt : QDateTime) (connections groups : list json)
    : QJsonObject :=
  member "groups" (JArray groups)
  (member "connections" (JArray connections)
  (text_member "exportedAt" (toIsoUtc exportedAt)
  (member "version" (JNumber kExportSchemaVersion)
  (text_member "schema" plainExportSchema ∅)))).

Definition exportConnections (payload : ExportPayload) (options : ExportOptions)
    : export (Result bytes) :=
  if xpo_includePlainTextPasswords options && negb (xpo_confirmPlainTextPasswordExport options)
  then mret (Result_failure [] (fromCode App_Unknown ErrorCategory_Validation
         (QStringLiteral "Plain-text password export requires explicit confirmation.") false))
  else
  if xpo_includePlainTextPasswords options && negb (xpo_credentialStore options)
  then mret (Result_failure [] (fromCode App_CredentialStoreUnavailable
         ErrorCategory_Credentials
         (QStringLiteral "Credential store is required for plain-text password export.")
         false))
  else
  connections ← connections_loop (xpl_connections payload) options [];
  if negb (Result_ok connections) then mret (Result_failure [] (res_error connections)) else
  let groups := (fun group => JObject (groupToJson group)) <$> xpl_groups payload in
  exportedAt ← ask CurrentUtc;
  let root := export_root exportedAt (res_value connections) groups in
  if xpo_encryptExport options
  then encryptExportPayload (toJson true root) (xpo_encryptionPassphrase options)
  else mret (Result_success (toJson false root)).

(** ** Reading *)

Definition text_of (object : QJsonObject) (key : string) : QString :=
  toText (value object (QStringLiteral key)).

Definition connectionFromJson (object : QJsonObject) : Result SavedConnection :=
  let none := mkSavedConnection (mkConnection [] [] [] [] [] [] AuthType_Password)
    [] [] [] [] [] [] false nullDateTime nullDateTime nullDateTime App_None [] nullDateTime in
  let path := toStringOr (value object (QStringLiteral "normalizedUri"))
                (text_of object "inputPath") in
  let normalized := normalizeSmbPath path in
  if negb (Result_ok normalized) then Result_failure none (res_error normalized) else
  let normalized := res_value normalized in
  Result_success (mkSavedConnection
    (mkConnection (text_of object "id") (nsp_normalizedUri normalized) (nsp_server normalized)
       (nsp_share normalized) (text_of object "domain") (text_of object "username")
       (authTypeFromString (text_of object "authType")))
    (text_of object "name")
    (toStringOr (value object (QStringLiteral "inputPath")) (nsp_inputPath normalized))
    (nsp_initialRemotePath normalized)
    []
    (text_of object "comment")
    (text_of object "groupId")
    (toBool (value object (QStringLiteral "favorite")))
    (dateTimeFromJson object "lastOpenedAt")
    (dateTimeFromJson object "createdAt")
    (dateTimeFromJson object "updatedAt")
    (errorCodeFromString (text_of object "lastErrorCode"))
    (sanitized (text_of object "lastErrorMessage"))
    (dateTimeFromJson object "lastSuccessfulCheckAt")).

Definition groupFromJson (object : QJsonObject) : ConnectionGroup :=
  mkConnectionGroup (text_of object "id") (text_of object "name")
    (toInt (value object (QStringLiteral "sortOrder")))
    (dateTimeFromJson object "createdAt") (dateTimeFromJson object "updatedAt").

Definition imported_groups (values : list json) : list ConnectionGroup :=
  omap (fun v => match v with JObject o => Some (groupFromJson o) | _ => None end) values.

(** The connection under another id and name. *)
Definition renamed (id name : QString) (connection : SavedConnection) : SavedConnection :=
  let c := svc_connection connection in
  mkSavedConnection
    (mkConnection id (con_normalizedUri c) (con_server c) (con_share c) (con_domain c)
       (con_username c) (con_authType c))
    name (svc_inputPath connection) (svc_initialRemotePath connection)
    (svc_credentialRef connection) (svc_comment connection) (svc_groupId connection)
    (svc_isFavorite connection) (svc_lastOpenedAt connection) (svc_createdAt connection)
    (svc_updatedAt connection) (svc_lastErrorCode connection)
    (svc_lastErrorMessage connection) (svc_lastSuccessfulCheckAt connection).

(** A result after a record that could not be read, or was skipped, or kept. *)
Definition with_error (index : Z) (name : QString) (error : AppError) (r : ImportResult)
    : ImportResult :=
  mkImportResult (imr_connections r) (imr_groups r)
    (imr_errors r ++ [mkImportRecordError index name error]) (imr_skippedDuplicates r).
Definition with_skipped (r : ImportResult) : ImportResult :=
  mkImportResult (imr_connections r) (imr_groups r) (imr_errors r)
    (imr_skippedDuplicates r + 1).
Definition with_connection_added (connection : SavedConnection) (r : ImportResult)
    : ImportResult :=
  mkImportResult (imr_connections r ++ [connection]) (imr_groups r) (imr_errors r)
    (imr_skippedDuplicates r).

Fixpoint import_loop (values : list json) (index : Z) (policy : DuplicatePolicy)
    (existingIds : gset QString) (r : ImportResult) : export ImportResult :=
  match values with
  | [] => mret r
  | v :: values =>
      let next := import_loop values (index + 1) policy in
      match v with
      | JObject object =>
          let parsed := connectionFromJson object in
          if negb (Result_ok parsed) then
            next existingIds
              (with_error index (text_of object "name") (res_error parsed) r)
          else
          let connection := res_value parsed in
          let keep connection :=
            let id := con_id (svc_connection connection) in
            next (if negb (isEmpty id) then {[id]} ∪ existingIds else existingIds)
              (with_connection_added connection r) in
          let id := con_id (svc_connection connection) in
          if negb (isEmpty id) && bool_decide (id ∈ existingIds) then
            match policy with
            | DuplicatePolicy_Skip => next existingIds (with_skipped r)
            | DuplicatePolicy_CreateCopy =>
                id ← ask NewUuid;
                keep (renamed id
                  (if isEmpty (svc_name connection) then QStringLiteral "Imported copy"
                   else svc_name connection ++ QStringLiteral " Copy") connection)
            | DuplicatePolicy_Replace => keep connection
            end
          else keep connection
      | _ =>
          next existingIds (with_error index []
            (validationError "Connection entry is not an object.") r)
      end
  end.

Definition no_import : ImportResult := mkImportResult [] [] [] 0.

(** The document of a sealed one may be sealed again, but then there is no
    passphrase for it: [levels] of 2 are enough. *)
Fixpoint importConnections (levels : nat) (data : bytes) (options : ImportOptions)
    : export (Result ImportResult) :=
  match levels with
  | O => Halt
  | S levels =>
      match fromJson data with
      | Some (JObject root) =>
          let schema := text_of root "schema" in
          if bool_decide (schema = encryptedExportSchema) then
            decrypted ← decryptExportPayload root (imo_encryptionPassphrase options);
            if negb (Result_ok decrypted)
            then mret (Result_failure no_import (res_error decrypted))
            else importConnections levels (res_value decrypted)
                   (mkImportOptions (imo_duplicatePolicy options)
                      (imo_existingConnectionIds options) [])
          else
          if negb (bool_decide (schema = plainExportSchema))
             || negb (toInt (value root (QStringLiteral "version")) =? kExportSchemaVersion)
          then mret (Result_failure no_import
                 (validationError "Unsupported import schema or version."))
          else
          result ← import_loop (toArray (value root (QStringLiteral "connections"))) 0
            (imo_duplicatePolicy options) (imo_existingConnectionIds options)
            (mkImportResult []
               (imported_groups (toArray (value root (QStringLiteral "groups")))) [] 0);
          mret (Result_success result)
      | _ =>
          mret (Result_failure no_import
            (fromCode App_InvalidPath ErrorCategory_Validation (jsonErrorString data) false))
      end
  end.

End import_export.
