(* ===== verification/ImportExportRuns.v ===== *)
(** * What an import restores ([ImportExportService.cpp])

    A document that was exported, plain or sealed, is read back as the connections
    and groups it was written from. *)

From stdpp Require Import gmap.
From S2P Require Export ImportExport.
Local Open Scope Z_scope.

#[local] Arguments QStringLiteral : simpl never.

Lemma QStringLiteral_inj (s t : string) : QStringLiteral s = QStringLiteral t -> s = t.
Proof.
  intros He. rewrite <- (String.string_of_list_ascii_of_string s),
    <- (String.string_of_list_ascii_of_string t). f_equal.
  apply (list_fmap_eq_inj (fun c => Z.of_N (Ascii.N_of_ascii c))); [|exact He].
  intros a b Hab%N2Z.inj. by rewrite <- (Ascii.ascii_N_embedding a), Hab, Ascii.ascii_N_embedding.
Qed.

Section import_runs.
Context `{Qt} `{!QtUrl} `{!QtJson} `{!QtJsonLaws} `{Sodium} `{!SodiumLaws}.

(** ** Members *)

Lemma value_member k v o : value (member k v o) (QStringLiteral k) = v.
Proof. unfold value, member. by rewrite lookup_insert_eq. Qed.

Lemma value_member_ne k j v o :
  k <> j -> value (member j v o) (QStringLiteral k) = value o (QStringLiteral k).
Proof.
  intros Hk. unfold value, member. rewrite lookup_insert_ne; [done|].
  by intros He%QStringLiteral_inj.
Qed.

Lemma value_date_ne k j d o :
  k <> j -> value (addDateTime j d o) (QStringLiteral k) = value o (QStringLiteral k).
Proof. intros Hk. unfold addDateTime. destruct (isValid d); [by apply value_member_ne|done]. Qed.

Lemma text_member_eq k t o : text_of (text_member k t o) k = t.
Proof. unfold text_of, text_member. by rewrite value_member. Qed.

(** A date that was written, read back. *)
Definition date_back (d : QDateTime) : QDateTime := if isValid d then inUtc d else nullDateTime.
Definition date_fits (d : QDateTime) : Prop := isValid d = true -> hasIsoYear d = true.

Lemma date_same k d o :
  date_fits d -> value o (QStringLiteral k) = JNull ->
  dateTimeFromJson (addDateTime k d o) k = date_back d.
Proof.
  intros Hd Ho. unfold dateTimeFromJson, addDateTime, date_back, date_fits in *.
  destruct (isValid d) eqn:Hv; [|by rewrite Ho].
  change (<[_ := ?v]> o) with (member k v o). rewrite value_member.
  by apply fromIso_toIsoUtc; [|apply Hd].
Qed.

Lemma date_ne k j d o :
  k <> j -> dateTimeFromJson (addDateTime j d o) k = dateTimeFromJson o k.
Proof. intros Hk. unfold dateTimeFromJson. by rewrite value_date_ne. Qed.

Lemma storable_member k v o :
  well_formed (QStringLiteral k) = true -> storable (JObject o) -> storable v ->
  storable (JObject (member k v o)).
Proof. intros Hk Ho Hv. by apply storable_insert. Qed.

Lemma storable_date k d o :
  well_formed (QStringLiteral k) = true -> storable (JObject o) ->
  storable (JObject (addDateTime k d o)).
Proof.
  intros Hk Ho. unfold addDateTime. destruct (isValid d); [|done]. apply storable_insert; [done..|].
  constructor. apply well_formed_ascii, toIsoUtc_ascii.
Qed.

(** ** Connections and groups *)

(** A connection a document can hold, whose URI is read as the path it was
    normalised from. *)
Record portable (c : SavedConnection) : Prop := mkPortable {
  pt_texts : Forall (fun t => well_formed t = true)
    [con_id (svc_connection c); svc_name c; svc_inputPath c;
     con_normalizedUri (svc_connection c); con_server (svc_connection c);
     con_share (svc_connection c); svc_initialRemotePath c; con_domain (svc_connection c);
     con_username (svc_connection c); svc_comment c; svc_groupId c;
     sanitized (svc_lastErrorMessage c)];
  pt_dates : Forall date_fits
    [svc_lastOpenedAt c; svc_createdAt c; svc_updatedAt c; svc_lastSuccessfulCheckAt c];
  pt_path :
    let k := svc_connection c in
    normalizeSmbPath (con_normalizedUri k) =
    Result_success (mkNormalizedSmbPath (con_normalizedUri k) (con_normalizedUri k)
      (con_server k) (con_share k) [])
}.

(** What comes back of it: everything but the path it opens at and the reference
    of its password, with the error message sanitized once more. *)
Definition restored (c : SavedConnection) : SavedConnection :=
  mkSavedConnection (svc_connection c) (svc_name c) (svc_inputPath c) [] [] (svc_comment c)
    (svc_groupId c) (svc_isFavorite c) (date_back (svc_lastOpenedAt c))
    (date_back (svc_createdAt c)) (date_back (svc_updatedAt c)) (svc_lastErrorCode c)
    (sanitized (sanitized (svc_lastErrorMessage c))) (date_back (svc_lastSuccessfulCheckAt c)).

Lemma authTypeFromString_toString a : authTypeFromString (authType_toString a) = a.
Proof. by destruct a. Qed.

Lemma errorCodeFromString_toString code :
  errorCodeFromString (appErrorCode_toString code) = code.
Proof. by destruct code. Qed.
Ltac look := unfold text_of, text_member; repeat first
  [rewrite value_member | rewrite value_member_ne by discriminate
  |rewrite value_date_ne by discriminate].
Ltac look_date := repeat first
  [rewrite date_ne by discriminate | rewrite date_same by (first [done|look; done])].

(** An exported object, with or without a password. *)
Definition exported (c : SavedConnection) (o : QJsonObject) : Prop :=
  o = connection_object c \/
  exists secret, o = text_member "plainTextPassword" secret (connection_object c).

Lemma exported_value c o k :
  exported c o -> k <> "plainTextPassword"%string ->
  value o (QStringLiteral k) = value (connection_object c) (QStringLiteral k).
Proof. intros [->|[t ->]] Hk; [done|]. by apply value_member_ne. Qed.

Lemma connection_back c o :
  portable c -> exported c o -> connectionFromJson o = Result_success (restored c).
Proof.
  intros [_ Hd Hp] Ho. unfold connectionFromJson, text_of, dateTimeFromJson.
  rewrite !(exported_value c o) by done. fold (dateTimeFromJson (connection_object c) "lastOpenedAt").
  fold (dateTimeFromJson (connection_object c) "createdAt").
  fold (dateTimeFromJson (connection_object c) "updatedAt").
  fold (dateTimeFromJson (connection_object c) "lastSuccessfulCheckAt").
  rewrite !Forall_cons in Hd. destruct Hd as (Hd1 & Hd2 & Hd3 & Hd4 & _).
  unfold connection_object. look. cbn [toStringOr toText toBool]. rewrite Hp.
  look_date. rewrite authTypeFromString_toString, errorCodeFromString_toString.
  unfold restored. by destruct (svc_connection c).
Qed.

Lemma connection_storable c o : portable c -> exported c o ->
  (forall secret, o = text_member "plainTextPassword" secret (connection_object c) ->
     well_formed secret = true) ->
  storable (JObject o).
Proof.
  intros [Ht _ _] Ho Hs. rewrite !Forall_cons in Ht.
  destruct Ht as (T1 & T2 & T3 & T4 & T5 & T6 & T7 & T8 & T9 & T10 & T11 & T12 & _).
  assert (storable (JObject (connection_object c))) as Hc.
  { unfold connection_object, text_member.
    repeat first
      [apply storable_empty
      |apply storable_date; [by vm_compute|]
      |apply storable_member; [by vm_compute| |by constructor; first [done|
         by destruct (con_authType _)|by destruct (svc_lastErrorCode c)]]]. }
  destruct Ho as [->|[t ->]]; [done|].
  apply storable_member; [by vm_compute|done|]. constructor. by apply Hs.
Qed.

(** The groups of a document. *)
Record portable_group (g : ConnectionGroup) : Prop := mkPortableGroup {
  pg_texts : well_formed (grp_id g) = true /\ well_formed (grp_name g) = true;
  pg_order : - 2 ^ 31 <= grp_sortOrder g < 2 ^ 31;
  pg_dates : date_fits (grp_createdAt g) /\ date_fits (grp_updatedAt g)
}.

Definition restored_group (g : ConnectionGroup) : ConnectionGroup :=
  mkConnectionGroup (grp_id g) (grp_name g) (grp_sortOrder g)
    (date_back (grp_createdAt g)) (date_back (grp_updatedAt g)).

Lemma group_back g : portable_group g -> groupFromJson (groupToJson g) = restored_group g.
Proof.
  intros [_ Ho [Hc Hu]]. unfold groupFromJson, groupToJson. look. look_date.
  cbn [toText toStringOr toInt]. rewrite (proj2 (Z.leb_le _ _)), (proj2 (Z.ltb_lt _ _)) by lia.
  done.
Qed.

Lemma group_storable g : portable_group g -> storable (JObject (groupToJson g)).
Proof.
  intros [[Hi Hn] Ho _]. unfold groupToJson, text_member.
  do 2 (apply storable_date; [by vm_compute|]).
  apply storable_member; [by vm_compute| |constructor; lia].
  do 2 (apply storable_member; [by vm_compute| |by constructor]). apply storable_empty.
Qed.

Lemma groups_back gs :
  Forall portable_group gs ->
  imported_groups ((fun group => JObject (groupToJson group)) <$> gs) = restored_group <$> gs.
Proof.
  intros Hg. induction Hg as [|g gs Hg _ IH]; [done|]. cbn. rewrite group_back by done.
  by f_equal.
Qed.

(** ** Runs *)

(** What the surroundings may answer; a stored password reads as text. *)
Definition export_answers {B : Set} (c : export_call B) (w : unit) : B -> unit -> Prop :=
  match c in export_call B return B -> unit -> Prop with
  | InitSodium | NewUuid | CurrentUtc => fun _ _ => True
  | RandomBuffer size => fun r _ => 0 <= size -> blen r = size
  | PasswordHash passphrase salt => fun r _ =>
      forall key, r = Some key -> key = pwhash passphrase salt
  | LoadCredential _ => fun r _ =>
      Result_ok r = true -> well_formed (fromUtf8 (res_value r)) = true
  end.

#[local] Abbreviation proves := (awp (fun B => @export_answers B) False).

Lemma awp_ensureSodium w Q : (forall b w, Q w b) -> proves ensureSodium w Q.
Proof. intros HQ i w' _. apply HQ. Qed.

Lemma awp_deriveExportKey passphrase salt w Q :
  (forall e w, hasError e = true -> Q w (inl e)) ->
  (forall w, Q w (inr (pwhash passphrase salt))) ->
  proves (deriveExportKey passphrase salt) w Q.
Proof.
  intros Hf HQ [key|] w' Hk; [|by apply Hf]. cbn in Hk |- *. rewrite (Hk key eq_refl). apply HQ.
Qed.

Lemma failure_ok {A B} (default : A) (r : Result B) :
  Result_ok (Result_failure default (res_error r)) = Result_ok r.
Proof. done. Qed.

Lemma awp_connectionToJson c options w :
  portable c -> proves (connectionToJson c options) w (fun _ r =>
    (xpo_includePlainTextPasswords options = false -> Result_ok r = true) /\
    (Result_ok r = true -> exported c (res_value r) /\ storable (JObject (res_value r)))).
Proof.
  intros Hc. unfold connectionToJson.
  assert (exported c (connection_object c)) as Hx by by left.
  assert (storable (JObject (connection_object c))) as Hs.
  { apply (connection_storable c); [done|done|]. intros t Ht. exfalso.
    apply (f_equal (fun o : QJsonObject => value o (QStringLiteral "plainTextPassword"))) in Ht.
    unfold connection_object in Ht. revert Ht. look. done. }
  destruct (xpo_includePlainTextPasswords options); [|done]. cbn [andb].
  destruct (bool_decide _); [|done].
  destruct (isEmpty (svc_credentialRef c)); [done|]. intros secret w' Hw. cbn in Hw |- *.
  split; [done|]. destruct (Result_ok secret) eqn:Hok; cbn [negb]; [|by rewrite failure_ok, Hok].
  intros _. assert (exported c (text_member "plainTextPassword" (fromUtf8 (res_value secret))
    (connection_object c))) as Hx' by (right; by eexists). split; [done|].
  apply storable_member; [by vm_compute|done|]. constructor. by apply Hw.
Qed.

Lemma awp_connections_loop cs options items w :
  Forall portable cs -> proves (connections_loop cs options items) w (fun _ r =>
    (xpo_includePlainTextPasswords options = false -> Result_ok r = true) /\
    (Result_ok r = true -> exists objects, res_value r = items ++ (JObject <$> objects) /\
      Forall2 exported cs objects /\ Forall (fun o => storable (JObject o)) objects)).
Proof.
  intros Hc. revert items w. induction Hc as [|c cs Hc _ IH]; intros items w.
  { split; [done|]. intros _. exists []. by rewrite app_nil_r. }
  cbn [connections_loop]. apply awp_bind. eapply awp_mono; [by apply awp_connectionToJson|].
  intros w' item [Hplain Hi]. destruct (Result_ok item) eqn:Hok; cbn [negb].
  2: { split; intros Ho; [by apply Hplain in Ho|by rewrite failure_ok, Hok in Ho]. }
  destruct (Hi eq_refl) as [Hx Hs]. eapply awp_mono; [apply IH|].
  intros w2 r [Hsure Hr]. split; [done|]. intros Ho. destruct (Hr Ho) as (objects & -> & Hf & Hst).
  exists (res_value item :: objects). rewrite <- app_assoc. split_and!; [done|by constructor|by constructor].
Qed.

(** The root of a document of these connections and groups. *)
Definition root_of (root : QJsonObject) (cs : list SavedConnection) (gs : list ConnectionGroup)
    : Prop := exists at_ objects,
  root = export_root at_ (JObject <$> objects) ((fun g => JObject (groupToJson g)) <$> gs) /\
  Forall2 exported cs objects.

(** A document of them, plain or sealed with the passphrase. *)
Definition document_of (data passphrase : bytes) (cs : list SavedConnection)
    (gs : list ConnectionGroup) : Prop :=
  exists object, fromJson data = Some (JObject object) /\
  (root_of object cs gs \/
   passphrase <> [] /\ exists salt nonce root plaintext,
     object = sealed_export salt nonce
       (secretbox_easy plaintext nonce (pwhash passphrase salt)) /\
     blen salt = crypto_pwhash_SALTBYTES /\ blen nonce = crypto_secretbox_NONCEBYTES /\
     fromJson plaintext = Some (JObject root) /\ root_of root cs gs).

Lemma root_storable at_ objects gs :
  Forall (fun o => storable (JObject o)) objects -> Forall portable_group gs ->
  storable (JObject (export_root at_ (JObject <$> objects)
    ((fun g => JObject (groupToJson g)) <$> gs))).
Proof.
  intros Ho Hg. unfold export_root, text_member.
  apply storable_member; [by vm_compute| |].
  2: { constructor. apply Forall_fmap. eapply Forall_impl; [exact Hg|]. intros g. apply group_storable. }
  apply storable_member; [by vm_compute| |].
  2: { constructor. by apply Forall_fmap. }
  apply storable_member; [by vm_compute| |].
  2: { constructor. apply well_formed_ascii, toIsoUtc_ascii. }
  apply storable_member; [by vm_compute| |by constructor; unfold kExportSchemaVersion; lia].
  apply storable_member; [by vm_compute|apply storable_empty|by constructor; vm_compute].
Qed.

Lemma sealed_storable salt nonce ciphertext :
  storable (JObject (sealed_export salt nonce ciphertext)).
Proof.
  unfold sealed_export, text_member.
  repeat first
    [apply storable_empty
    |apply storable_member; [by vm_compute| |first
       [apply storable_base64_text|by constructor; vm_compute
       |constructor; unfold kEncryptedExportSchemaVersion; lia]]].
Qed.

Lemma awp_encrypt root cs gs passphrase w :
  root_of root cs gs -> storable (JObject root) ->
  proves (encryptExportPayload (toJson true root) passphrase) w (fun _ r =>
    Result_ok r = true -> document_of (res_value r) passphrase cs gs).
Proof.
  intros Hr Hs. unfold encryptExportPayload. destruct passphrase as [|b passphrase]; [done|].
  set (p := b :: passphrase). apply awp_bind, awp_ensureSodium. intros [] w1; [|done].
  cbn [negb]. apply awp_ask. intros salt w2 Hsalt. apply awp_ask. intros nonce w3 Hnonce.
  apply awp_bind, awp_deriveExportKey.
  { intros e w4 He Hok. unfold Result_ok in Hok. cbn in Hok. by rewrite He in Hok. }
  intros w4 _. cbn [res_value Result_success].
  exists (sealed_export salt nonce (secretbox_easy (toJson true root) nonce (pwhash p salt))).
  split; [by apply fromJson_toJson, sealed_storable|]. right. split; [done|].
  exists salt, nonce, root, (toJson true root).
  split_and!; [done|by apply Hsalt|by apply Hnonce|by apply fromJson_toJson|done].
Qed.

Lemma awp_export payload options w :
  Forall portable (xpl_connections payload) -> Forall portable_group (xpl_groups payload) ->
  proves (exportConnections payload options) w (fun _ r =>
    (xpo_includePlainTextPasswords options = false -> xpo_encryptExport options = false ->
       Result_ok r = true) /\
    (Result_ok r = true -> document_of (res_value r)
      (if xpo_encryptExport options then xpo_encryptionPassphrase options else [])
      (xpl_connections payload) (xpl_groups payload))).
Proof.
  intros Hc Hg. unfold exportConnections.
  destruct (xpo_includePlainTextPasswords options && negb (xpo_confirmPlainTextPasswordExport options))
    eqn:Hi1; [by split; [intros Hno; rewrite Hno in Hi1|]|].
  destruct (xpo_includePlainTextPasswords options && negb (xpo_credentialStore options))
    eqn:Hi2; [by split; [intros Hno; rewrite Hno in Hi2|]|]. clear Hi1 Hi2.
  apply awp_bind. eapply awp_mono; [by apply awp_connections_loop|].
  intros w1 items [Hplain Hi]. destruct (Result_ok items) eqn:Hok; cbn [negb].
  2: { split; [by intros Ho _; apply Hplain in Ho|]. intros Ho. by rewrite failure_ok, Hok in Ho. }
  destruct (Hi eq_refl) as (objects & -> & Hx & Hs). apply awp_ask. intros at_ w2 _.
  set (root := export_root _ _ _). assert (root_of root (xpl_connections payload) (xpl_groups payload)) as Hroot
    by by exists at_, objects.
  assert (storable (JObject root)) as Hst by by apply root_storable.
  destruct (xpo_encryptExport options).
  { eapply awp_mono; [by apply awp_encrypt|]. by intros w3 r Hr; split. }
  split; [done|]. intros _. exists root. split; [by apply fromJson_toJson|by left].
Qed.

(** ** Reading back *)

Definition id_of (c : SavedConnection) : QString := con_id (svc_connection c).

(** The ids that are no empty texts are different, and none is taken. *)
Definition ids_free (ids : gset QString) (cs : list SavedConnection) : Prop :=
  NoDup (filter (fun id => id <> []) (id_of <$> cs)) /\
  Forall (fun c => id_of c <> [] -> id_of c ∉ ids) cs.

Lemma ids_free_next ids c cs :
  ids_free ids (c :: cs) ->
  ids_free (if negb (isEmpty (id_of c)) then {[id_of c]} ∪ ids else ids) cs.
Proof.
  intros [Hn Hf]. inversion_clear Hf as [|? ? Hc Hf']. rewrite fmap_cons in Hn.
  destruct (decide (id_of c = [])) as [He|He].
  - rewrite He in *. rewrite filter_cons_False in Hn by tauto. by split.
  - rewrite filter_cons_True in Hn by done. apply NoDup_cons in Hn as [Hnot Hn]. split; [done|].
    apply Forall_forall. intros d Hd Hne. destruct (isEmpty (id_of c)); cbn [negb];
      [by apply (proj1 (Forall_forall _ _) Hf')|].
    apply not_elem_of_union. split; [|by apply (proj1 (Forall_forall _ _) Hf')].
    intros Heq%elem_of_singleton. apply Hnot. apply list_elem_of_filter. split; [done|].
    apply list_elem_of_fmap. by exists d.
Qed.

Lemma awp_import_loop cs objects index policy ids r w Q :
  Forall portable cs -> Forall2 exported cs objects -> ids_free ids cs ->
  Q w (mkImportResult (imr_connections r ++ (restored <$> cs)) (imr_groups r) (imr_errors r)
    (imr_skippedDuplicates r)) ->
  proves (import_loop (JObject <$> objects) index policy ids r) w Q.
Proof.
  intros Hp Hx. revert index ids r. induction Hx as [|c o cs objects Hx _ IH];
    intros index ids r Hids HQ.
  { cbn in HQ |- *. rewrite app_nil_r in HQ. by destruct r. }
  inversion_clear Hp as [|? ? Hc Hp']. cbn [fmap list_fmap import_loop].
  rewrite (connection_back c o) by done. cbn [res_value Result_success Result_ok res_error].
  change (negb (negb (hasError noError))) with false. cbn [negb].
  change (con_id (svc_connection (restored c))) with (id_of c).
  assert (negb (isEmpty (id_of c)) && bool_decide (id_of c ∈ ids) = false) as ->.
  { destruct (id_of c) as [|x id] eqn:Hid; [done|]. cbn [isEmpty negb andb].
    apply bool_decide_eq_false_2. rewrite <- Hid. destruct Hids as [_ Hf].
    inversion_clear Hf as [|? ? Hnot _]. apply Hnot. by rewrite Hid. }
  apply IH; [done|by apply ids_free_next|]. cbn [imr_connections imr_groups imr_errors
    imr_skippedDuplicates with_connection_added]. rewrite <- app_assoc. exact HQ.
Qed.

Definition imported (cs : list SavedConnection) (gs : list ConnectionGroup) : ImportResult :=
  mkImportResult (restored <$> cs) (restored_group <$> gs) [] 0.

Lemma root_fields at_ connections groups :
  let root := export_root at_ connections groups in
  text_of root "schema" = plainExportSchema /\
  toInt (value root (QStringLiteral "version")) = kExportSchemaVersion /\
  toArray (value root (QStringLiteral "connections")) = connections /\
  toArray (value root (QStringLiteral "groups")) = groups.
Proof. cbv zeta. unfold export_root. look. done. Qed.

Lemma awp_import_root levels data root cs gs options w Q :
  fromJson data = Some (JObject root) -> root_of root cs gs ->
  Forall portable cs -> Forall portable_group gs ->
  ids_free (imo_existingConnectionIds options) cs ->
  Q w (Result_success (imported cs gs)) ->
  proves (importConnections (S levels) data options) w Q.
Proof.
  intros Hd (at_ & objects & -> & Hx) Hc Hg Hids HQ. cbn [importConnections]. rewrite Hd.
  destruct (root_fields at_ (JObject <$> objects)
    ((fun g => JObject (groupToJson g)) <$> gs)) as (-> & -> & -> & ->).
  rewrite (bool_decide_eq_false_2 (plainExportSchema = encryptedExportSchema))
    by (by intros He%QStringLiteral_inj).
  rewrite (bool_decide_eq_true_2 (plainExportSchema = plainExportSchema)) by done.
  rewrite Z.eqb_refl. cbn [negb orb]. rewrite groups_back by done. apply awp_bind.
  by eapply awp_import_loop.
Qed.

Lemma sealed_fields salt nonce ciphertext :
  let root := sealed_export salt nonce ciphertext in
  text_of root "schema" = encryptedExportSchema /\
  toInt (value root (QStringLiteral "version")) = kEncryptedExportSchemaVersion /\
  bytes_of_text (value root (QStringLiteral "salt")) = salt /\
  bytes_of_text (value root (QStringLiteral "nonce")) = nonce /\
  bytes_of_text (value root (QStringLiteral "ciphertext")) = ciphertext.
Proof. cbv zeta. unfold sealed_export. look. rewrite !bytes_of_base64_text. done. Qed.

Lemma awp_decrypt salt nonce plaintext passphrase w Q :
  passphrase <> [] ->
  blen salt = crypto_pwhash_SALTBYTES -> blen nonce = crypto_secretbox_NONCEBYTES ->
  (forall e w, hasError e = true -> Q w (Result_failure [] e)) ->
  (forall w, Q w (Result_success plaintext)) ->
  proves (decryptExportPayload (sealed_export salt nonce
    (secretbox_easy plaintext nonce (pwhash passphrase salt))) passphrase) w Q.
Proof.
  intros Hp Hs Hn Hf HQ. unfold decryptExportPayload.
  destruct (sealed_fields salt nonce (secretbox_easy plaintext nonce (pwhash passphrase salt)))
    as (_ & -> & -> & -> & ->). destruct passphrase as [|b p]; [done|].
  apply awp_bind, awp_ensureSodium. intros [] w1; [|by apply Hf]. cbn [negb].
  rewrite Hs, Hn, !Z.eqb_refl, (proj2 (Z.ltb_ge _ _))
    by (rewrite blen_secretbox; unfold blen; lia).
  cbn [negb orb]. apply awp_bind, awp_deriveExportKey; [by auto|]. intros w2.
  rewrite secretbox_opens. apply HQ.
Qed.

Lemma awp_import data passphrase cs gs options w :
  document_of data passphrase cs gs -> Forall portable cs -> Forall portable_group gs ->
  ids_free (imo_existingConnectionIds options) cs ->
  (passphrase <> [] -> imo_encryptionPassphrase options = passphrase) ->
  proves (importConnections 2 data options) w (fun _ r =>
    (passphrase = [] -> Result_ok r = true) /\
    (Result_ok r = true -> res_value r = imported cs gs)).
Proof.
  intros (object & Hd & [Hr|(Hp & salt & nonce & root & plaintext & -> & Hs & Hn & Hpl & Hr)])
    Hc Hg Hids Hpass.
  { by eapply awp_import_root. }
  cbn [importConnections]. rewrite Hd, (proj1 (sealed_fields _ _ _)).
  rewrite (bool_decide_eq_true_2 (encryptedExportSchema = encryptedExportSchema)) by done.
  rewrite (Hpass Hp). apply awp_bind, awp_decrypt; try done.
  - intros e w1 He. unfold Result_ok at 1. cbn [res_error Result_failure]. rewrite He.
    split; [done|]. intros Hok. unfold Result_ok in Hok. cbn in Hok. by rewrite He in Hok.
  - intros w1. change (Result_ok (Result_success plaintext)) with true. cbn [negb].
    change (negb true) with false. by apply (awp_import_root 0 plaintext root cs gs).
Qed.

(** An export, and an import of what it wrote. *)
Definition export_then_import (payload : ExportPayload) (exportOptions : ExportOptions)
    (importOptions : ImportOptions) : export (Result ImportResult) :=
  written ← exportConnections payload exportOptions;
  if negb (Result_ok written) then mret (Result_failure no_import (res_error written))
  else importConnections 2 (res_value written) importOptions.

(** C27: What is exported can be imported. Take connections and groups whose texts are
    well formed and whose URIs are read as they were written, with different ids of
    which none is taken, and the same passphrase if there is one. Then an export and
    an import of the document end, and if they succeed there are no errors and no
    duplicates, and every group and every connection is back, except for the path it
    opens at and its stored password; without passwords and passphrase they always
    succeed. *)
Theorem import_restores_export payload exportOptions importOptions w o w' :
  Forall portable (xpl_connections payload) -> Forall portable_group (xpl_groups payload) ->
  ids_free (imo_existingConnectionIds importOptions) (xpl_connections payload) ->
  (xpo_encryptExport exportOptions = true ->
     imo_encryptionPassphrase importOptions = xpo_encryptionPassphrase exportOptions) ->
  asks (fun B => @export_answers B) (export_then_import payload exportOptions importOptions)
    w o w' ->
  exists r, o = Some r /\
    (Result_ok r = true ->
       res_value r = imported (xpl_connections payload) (xpl_groups payload)) /\
    (xpo_includePlainTextPasswords exportOptions = false ->
     xpo_encryptExport exportOptions = false -> Result_ok r = true).
Proof.
  intros Hc Hg Hids Hp Hr.
  assert (proves (export_then_import payload exportOptions importOptions) w (fun _ r =>
    (Result_ok r = true ->
       res_value r = imported (xpl_connections payload) (xpl_groups payload)) /\
    (xpo_includePlainTextPasswords exportOptions = false ->
     xpo_encryptExport exportOptions = false -> Result_ok r = true))) as Hw.
  { apply awp_bind. eapply awp_mono; [by apply awp_export|]. intros w1 written [Hsure Hwr].
    destruct (Result_ok written) eqn:Hok; cbn [negb].
    2: { split; [|by intros Ha Hb; apply Hsure in Hb]. intros Ho. by rewrite failure_ok, Hok in Ho. }
    eapply awp_mono; [eapply awp_import; [by apply Hwr|done|done|done|]|].
    - by destruct (xpo_encryptExport exportOptions); [intros _; apply Hp|].
    - intros w2 r [Hplain Hv]. split; [exact Hv|]. intros _ He. apply Hplain. by rewrite He. }
  eapply awp_runs in Hw; [|exact Hr]. destruct o as [r|]; [|done]. by exists r.
Qed.

End import_runs.

(** ** A sealed export of one connection *)

(** A reader of URIs of a host and a path. *)
#[local] Instance sample_url : @QtUrl ascii_qt := {|
  parseUrl s :=
    match splitParts s kSlash with
    | scheme :: [] :: host :: parts =>
        Some (mkUrl (take (length scheme - 1) scheme) [] [] host
          (kSlash :: QtText.join parts [kSlash]))
    | _ => None
    end
|}.
#[local] Existing Instances sample_json sample_json_laws sample_sodium sample_sodium_laws.

Definition export_serve {B : Set} (c : export_call B) : unit -> option (B * unit) :=
  match c in export_call B return unit -> option (B * unit) with
  | InitSodium => fun w => Some (0, w)
  | RandomBuffer size => fun w => Some (zeros (Z.to_nat size), w)
  | PasswordHash passphrase salt => fun w => Some (Some (pwhash passphrase salt), w)
  | NewUuid => fun w => Some (QStringLiteral "1b4e28ba", w)
  | CurrentUtc => fun w => Some (5 : Z, w)
  | LoadCredential _ => fun w => Some (Result_success [115], w)
  end.

Lemma export_serve_answers (B : Set) (c : export_call B) w b w' :
  export_serve c w = Some (b, w') -> export_answers c w b w'.
Proof.
  destruct c; cbn [export_serve export_answers]; try done.
  - intros [= <- <-] Hn. unfold blen, zeros. rewrite length_replicate. lia.
  - intros [= <- <-] key [= <-]. done.
  - intros [= <- <-] _. by vm_compute.
Qed.

Definition lab : SavedConnection :=
  mkSavedConnection
    (mkConnection (QStringLiteral "c1") (QStringLiteral "smb://srv/lab") (QStringLiteral "srv")
       (QStringLiteral "lab") [] (QStringLiteral "me") AuthType_Guest)
    (QStringLiteral "Lab") (QStringLiteral "\\srv\lab\in") (QStringLiteral "in") [] [] [] true
    0 7 9 App_Timeout [] 0.

Definition sealing : ExportOptions := mkExportOptions false false false true [112; 119].
Definition opening : ImportOptions := mkImportOptions DuplicatePolicy_Skip ∅ [112; 119].
Definition lab_payload : ExportPayload :=
  mkExportPayload [lab] [mkConnectionGroup (QStringLiteral "g") (QStringLiteral "G") 1 0 0].

Lemma run_lab : exists r,
  run_asking (fun B => @export_serve B) (export_then_import lab_payload sealing opening) tt
    = Some (Some r, tt) /\ Result_ok r = true.
Proof.
  assert (match run_asking (fun B => @export_serve B)
    (export_then_import lab_payload sealing opening) tt with
    | Some (Some r, tt) => Result_ok r | _ => false end = true) as Hr by by vm_compute.
  destruct (run_asking _ _ _) as [[[r|] []]|]; try done. by exists r.
Qed.

Lemma lab_portable : portable lab.
Proof. split; [repeat constructor..|]. by vm_compute. Qed.

Lemma import_restores_export_witness : exists r,
  run_asking (fun B => @export_serve B) (export_then_import lab_payload sealing opening) tt
    = Some (Some r, tt) /\ imr_connections (res_value r) = [restored lab].
Proof.
  destruct run_lab as (r & Hrun & Hok). exists r. split; [exact Hrun|].
  apply (run_runs (fun B => @export_answers _ _ B)) in Hrun.
  2: { intros B c w b w'. apply export_serve_answers. }
  apply import_restores_export in Hrun.
  - destruct Hrun as (r' & [= <-] & Hv & _). by rewrite (Hv Hok).
  - apply Forall_singleton, lab_portable.
  - apply Forall_singleton. repeat constructor; cbn; lia.
  - split; [|by apply Forall_singleton; intros _; apply not_elem_of_empty].
    cbn. repeat constructor. by apply not_elem_of_nil.
  - done.
Defined.
