(* ===== verification/Repository.v ===== *)
(** * The database of connections ([ConnectionRepository.cpp],
    [ConnectionGroupRepository.cpp])

    The repositories write connections and groups to two tables of an SQLite
    database.  SQLite and Qt's driver for it are not part of the repository: a
    statement and the values bound to it are a call.  [statement] has the SQL of the
    two files; every placeholder carries the name of its column, so the values are
    bound by column.  A [QString] that is null is not told apart from an empty one
    here, as [nonNullString] sees to where it would matter. *)

From stdpp Require Import gmap strings.
From S2P Require Export ImportExport.
Local Open Scope Z_scope.

(** ** SQL *)

(** A [QVariant] that is bound to a placeholder or read from a row. *)
Inductive variant : Set :=
| VNull
| VText (text : QString)
| VInteger (n : Z).
#[export] Instance variant_eq_dec : EqDecision variant.
Proof. solve_decision. Defined.

Abbreviation row := (gmap string variant).

(** What a column is set to: the value bound to its placeholder, or a literal. *)
Inductive assigned : Set :=
| Bound
| Literal (v : variant).

(** A term of [ORDER BY]: a column, whether its text is compared with [COLLATE
    NOCASE], and whether it ascends. *)
Record order_term : Set := mkOrderTerm {
  ord_column : string;
  ord_nocase : bool;
  ord_ascending : bool
}.

Inductive statement : Set :=
| InsertInto (table : string) (columns : list string)
| SelectWhereId (table : string)
| SelectOrdered (table : string) (terms : list order_term)
| UpdateWhereId (table : string) (assignments : list (string * assigned))
| DeleteWhereId (table : string).

(** [prepare], [bindValue] and [exec]: the text of [lastError], or the rows that
    [next] goes through and [numRowsAffected]. *)
Record executed : Set := mkExecuted {
  exe_rows : list row;
  exe_affected : Z
}.

Inductive storage_call `{Qt} : Set -> Type :=
| Exec (s : statement) (bindings : row) : storage_call (QString + executed)
| CreateId : storage_call QString
| CurrentTime : storage_call QDateTime.
Abbreviation storage := (asking storage_call).

(** [QVariant::toString] and [toInt] of what the driver returns. *)
Class QtSql `{Qt} : Type := {
  variant_toString : variant -> QString;
  variant_toInt : variant -> Z
}.

Section repository.
Context `{Qt} `{!QtJson} `{!QtSql}.

(** ** Conversions *)

Definition storageError (details : QString) : AppError :=
  fromCode App_StorageError ErrorCategory_Storage details false.

Definition notFoundError (id : QString) : AppError :=
  fromCode App_FileNotFound ErrorCategory_Storage
    (QStringLiteral "Connection was not found: " ++ id) false.

Definition nowIsoUtc : storage QString :=
  now ← ask CurrentTime;
  mret (toIsoUtc now).

Definition dateToValue (dateTime : QDateTime) : variant :=
  if isValid dateTime then VText (toIsoUtc dateTime) else VNull.

Definition dateFromValue (v : variant) : QDateTime :=
  if bool_decide (v = VNull) || isEmpty (variant_toString v) then nullDateTime
  else fromIso (variant_toString v).

(** The chain of comparisons of [errorCodeFromString]. *)
Definition storedCodes : list (string * AppErrorCode) :=
  [("invalid_path", App_InvalidPath); ("dns_error", App_DnsError);
   ("server_unavailable", App_ServerUnavailable);
   ("share_unavailable", App_ShareUnavailable);
   ("authentication_failed", App_AuthenticationFailed);
   ("permission_denied", App_PermissionDenied); ("timeout", App_Timeout);
   ("protocol_unsupported", App_ProtocolUnsupported);
   ("network_error", App_NetworkError); ("file_not_found", App_FileNotFound);
   ("already_exists", App_AlreadyExists);
   ("directory_not_empty", App_DirectoryNotEmpty);
   ("operation_cancelled", App_OperationCancelled);
   ("local_io_error", App_LocalIoError); ("storage_error", App_StorageError);
   ("credential_store_unavailable", App_CredentialStoreUnavailable);
   ("credential_not_found", App_CredentialNotFound); ("unknown", App_Unknown)]%string.

Definition storedErrorCode (v : QString) : AppErrorCode :=
  foldr (fun known otherwise =>
    if bool_decide (v = QStringLiteral (fst known)) then snd known else otherwise)
    App_None storedCodes.

(** [query.value(query.record().indexOf(fieldName))] *)
Definition field (r : row) (fieldName : string) : variant :=
  default VNull (r !! fieldName).
Definition text_field (r : row) (fieldName : string) : QString :=
  variant_toString (field r fieldName).

Definition connectionFromQuery (r : row) : SavedConnection :=
  mkSavedConnection
    (mkConnection (text_field r "id") (text_field r "normalized_uri")
       (text_field r "server") (text_field r "share") (text_field r "domain")
       (text_field r "username") (authTypeFromString (text_field r "auth_type")))
    (text_field r "name") (text_field r "input_path")
    (text_field r "initial_remote_path") (text_field r "credential_ref")
    (text_field r "comment") (text_field r "group_id")
    (negb (variant_toInt (field r "is_favorite") =? 0))
    (dateFromValue (field r "last_opened_at"))
    (dateFromValue (field r "created_at"))
    (dateFromValue (field r "updated_at"))
    (storedErrorCode (text_field r "last_error_code"))
    (text_field r "last_error_message")
    (dateFromValue (field r "last_successful_check_at")).

Definition bindValue (column : string) (v : variant) (bindings : row) : row :=
  <[column := v]> bindings.
Definition bindText (column : string) (text : QString) : row -> row :=
  bindValue column (VText text).

Definition bindConnection (connection : SavedConnection) : row :=
  let c := svc_connection connection in
  bindValue "last_successful_check_at" (dateToValue (svc_lastSuccessfulCheckAt connection))
  (bindText "last_error_message" (sanitized (svc_lastErrorMessage connection))
  (bindText "last_error_code" (appErrorCode_toString (svc_lastErrorCode connection))
  (bindValue "updated_at" (dateToValue (svc_updatedAt connection))
  (bindValue "created_at" (dateToValue (svc_createdAt connection))
  (bindValue "last_opened_at" (dateToValue (svc_lastOpenedAt connection))
  (bindValue "is_favorite" (VInteger (if svc_isFavorite connection then 1 else 0))
  (bindValue "group_id" (if isEmpty (svc_groupId connection) then VNull
                         else VText (svc_groupId connection))
  (bindText "comment" (svc_comment connection)
  (bindText "credential_ref" (svc_credentialRef connection)
  (bindText "auth_type" (authType_toString (con_authType c))
  (bindText "username" (con_username c)
  (bindText "domain" (con_domain c)
  (bindText "initial_remote_path" (svc_initialRemotePath connection)
  (bindText "share" (con_share c)
  (bindText "server" (con_server c)
  (bindText "normalized_uri" (con_normalizedUri c)
  (bindText "input_path" (svc_inputPath connection)
  (bindText "name" (svc_name connection)
  (bindText "id" (con_id c) ∅))))))))))))))))))).

(** ** [ConnectionRepository] *)

(** The id and the dates [add] and [update] give a connection. *)
Definition dated (id : QString) (createdAt updatedAt : QDateTime)
    (connection : SavedConnection) : SavedConnection :=
  let c := svc_connection connection in
  mkSavedConnection
    (mkConnection id (con_normalizedUri c) (con_server c) (con_share c) (con_domain c)
       (con_username c) (con_authType c))
    (svc_name connection) (svc_inputPath connection) (svc_initialRemotePath connection)
    (svc_credentialRef connection) (svc_comment connection) (svc_groupId connection)
    (svc_isFavorite connection) (svc_lastOpenedAt connection) createdAt updatedAt
    (svc_lastErrorCode connection) (svc_lastErrorMessage connection)
    (svc_lastSuccessfulCheckAt connection).

Definition no_connection : SavedConnection :=
  mkSavedConnection (mkConnection [] [] [] [] [] [] AuthType_Password)
    [] [] [] [] [] [] false nullDateTime nullDateTime nullDateTime App_None [] nullDateTime.

Definition connection_columns : list string :=
  ["id"; "name"; "input_path"; "normalized_uri"; "server"; "share";
   "initial_remote_path"; "domain"; "username"; "auth_type"; "credential_ref";
   "comment"; "group_id"; "is_favorite"; "last_opened_at"; "created_at"; "updated_at";
   "last_error_code"; "last_error_message"; "last_successful_check_at"]%string.

Definition repository_add (connection : SavedConnection)
    : storage (Result SavedConnection) :=
  let id := con_id (svc_connection connection) in
  id ← (if isEmpty id then ask CreateId else mret id);
  now ← ask CurrentTime;
  let createdAt := if isValid (svc_createdAt connection) then svc_createdAt connection
                   else now in
  let connection := dated id createdAt now connection in
  done ← ask (Exec (InsertInto "connections" connection_columns) (bindConnection connection));
  mret match done with
       | inl text => Result_failure no_connection (storageError text)
       | inr _ => Result_success connection
       end.

Definition repository_getById (id : QString) : storage (Result SavedConnection) :=
  done ← ask (Exec (SelectWhereId "connections") (bindText "id" id ∅));
  mret match done with
       | inl text => Result_failure no_connection (storageError text)
       | inr found =>
           match exe_rows found with
           | [] => Result_failure no_connection (notFoundError id)
           | r :: _ => Result_success (connectionFromQuery r)
           end
       end.

Definition repository_list : storage (Result (list SavedConnection)) :=
  done ← ask (Exec (SelectOrdered "connections"
    [mkOrderTerm "is_favorite" false false; mkOrderTerm "name" true true]) ∅);
  mret match done with
       | inl text => Result_failure [] (storageError text)
       | inr found => Result_success (connectionFromQuery <$> exe_rows found)
       end.

Definition bound_columns (columns : list string) : list (string * assigned) :=
  (fun column => (column, Bound)) <$> columns.

Definition repository_update (connection : SavedConnection)
    : storage (Result SavedConnection) :=
  let id := con_id (svc_connection connection) in
  if isEmpty id then mret (Result_failure no_connection (notFoundError id)) else
  now ← ask CurrentTime;
  let connection := dated id (svc_createdAt connection) now connection in
  done ← ask (Exec (UpdateWhereId "connections" (bound_columns (tail connection_columns)))
                (bindConnection connection));
  mret match done with
       | inl text => Result_failure no_connection (storageError text)
       | inr changed =>
           if exe_affected changed =? 0 then Result_failure no_connection (notFoundError id)
           else Result_success connection
       end.

(** [exec], and whether it changed a row. *)
Definition changes_rows (s : statement) (bindings : row) : storage (Result bool) :=
  done ← ask (Exec s bindings);
  mret match done with
       | inl text => Result_failure false (storageError text)
       | inr changed => Result_success (0 <? exe_affected changed)
       end.

Definition repository_remove (id : QString) : storage (Result bool) :=
  changes_rows (DeleteWhereId "connections") (bindText "id" id ∅).

Definition repository_updateLastOpened (id : QString) (openedAt : QDateTime)
    : storage (Result bool) :=
  updatedAt ← nowIsoUtc;
  changes_rows
    (UpdateWhereId "connections" (bound_columns ["last_opened_at"; "updated_at"]%string))
    (bindText "id" id (bindText "updated_at" updatedAt
       (bindValue "last_opened_at" (dateToValue openedAt) ∅))).

Definition repository_updateLastError (id : QString) (errorCode : AppErrorCode)
    (sanitizedMessage : QString) : storage (Result bool) :=
  updatedAt ← nowIsoUtc;
  changes_rows
    (UpdateWhereId "connections"
       (bound_columns ["last_error_code"; "last_error_message"; "updated_at"]%string))
    (bindText "id" id (bindText "updated_at" updatedAt
       (bindText "last_error_message" (sanitized sanitizedMessage)
       (bindText "last_error_code" (appErrorCode_toString errorCode) ∅)))).

Definition repository_updateLastSuccessfulCheck (id : QString) (checkedAt : QDateTime)
    : storage (Result bool) :=
  updatedAt ← nowIsoUtc;
  changes_rows
    (UpdateWhereId "connections"
       [("last_successful_check_at", Bound);
        ("last_error_code", Literal (VText (QStringLiteral "none")));
        ("last_error_message", Literal (VText [])); ("updated_at", Bound)]%string)
    (bindText "id" id (bindText "updated_at" updatedAt
       (bindValue "last_successful_check_at" (dateToValue checkedAt) ∅))).

(** ** [ConnectionGroupRepository] *)

Definition groupNotFoundError (id : QString) : AppError :=
  fromCode App_FileNotFound ErrorCategory_Storage
    (QStringLiteral "Connection group was not found: " ++ id) false.

Definition groupFromQuery (r : row) : ConnectionGroup :=
  mkConnectionGroup (text_field r "id") (text_field r "name")
    (variant_toInt (field r "sort_order"))
    (dateFromValue (field r "created_at")) (dateFromValue (field r "updated_at")).

Definition bindGroup (group : ConnectionGroup) : row :=
  bindValue "updated_at" (dateToValue (grp_updatedAt group))
  (bindValue "created_at" (dateToValue (grp_createdAt group))
  (bindValue "sort_order" (VInteger (grp_sortOrder group))
  (bindText "name" (grp_name group)
  (bindText "id" (grp_id group) ∅)))).

Definition no_group : ConnectionGroup := mkConnectionGroup [] [] 0 nullDateTime nullDateTime.

Definition groups_add (group : ConnectionGroup) : storage (Result ConnectionGroup) :=
  id ← (if isEmpty (grp_id group) then ask CreateId else mret (grp_id group));
  now ← ask CurrentTime;
  let createdAt := if isValid (grp_createdAt group) then grp_createdAt group else now in
  let group := mkConnectionGroup id (grp_name group) (grp_sortOrder group) createdAt now in
  done ← ask (Exec (InsertInto "connection_groups"
                ["id"; "name"; "sort_order"; "created_at"; "updated_at"]%string)
                (bindGroup group));
  mret match done with
       | inl text => Result_failure no_group (storageError text)
       | inr _ => Result_success group
       end.

Definition groups_getById (id : QString) : storage (Result ConnectionGroup) :=
  done ← ask (Exec (SelectWhereId "connection_groups") (bindText "id" id ∅));
  mret match done with
       | inl text => Result_failure no_group (storageError text)
       | inr found =>
           match exe_rows found with
           | [] => Result_failure no_group (groupNotFoundError id)
           | r :: _ => Result_success (groupFromQuery r)
           end
       end.

Definition groups_list : storage (Result (list ConnectionGroup)) :=
  done ← ask (Exec (SelectOrdered "connection_groups"
    [mkOrderTerm "sort_order" false true; mkOrderTerm "name" true true]) ∅);
  mret match done with
       | inl text => Result_failure [] (storageError text)
       | inr found => Result_success (groupFromQuery <$> exe_rows found)
       end.

Definition groups_update (group : ConnectionGroup) : storage (Result ConnectionGroup) :=
  if isEmpty (grp_id group)
  then mret (Result_failure no_group (groupNotFoundError (grp_id group))) else
  now ← ask CurrentTime;
  let group := mkConnectionGroup (grp_id group) (grp_name group) (grp_sortOrder group)
                 (grp_createdAt group) now in
  done ← ask (Exec (UpdateWhereId "connection_groups"
                (bound_columns ["name"; "sort_order"; "created_at"; "updated_at"]%string))
                (bindGroup group));
  mret match done with
       | inl text => Result_failure no_group (storageError text)
       | inr changed =>
           if exe_affected changed =? 0
           then Result_failure no_group (groupNotFoundError (grp_id group))
           else Result_success group
       end.

Definition groups_remove (id : QString) : storage (Result bool) :=
  changes_rows (DeleteWhereId "connection_groups") (bindText "id" id ∅).

End repository.
