(* ===== verification/RepositoryRuns.v ===== *)
(** * The database as a store of connections ([ConnectionRepository.cpp])

    A database with the two tables and what SQL says the statements do to it, over
    which the methods of Repository.v are the operations of a map from ids to
    connections, in every run. *)

From stdpp Require Import pretty.
From S2P Require Export Repository ImportExportRuns.
Local Open Scope Z_scope.

(** ** Tables *)

(** The rows of the tables by their ids. *)
Record database : Set := mkDatabase {
  db_connections : gmap QString row;
  db_groups : gmap QString row
}.

Definition table (name : string) (db : database) : gmap QString row :=
  if bool_decide (name = "connections"%string) then db_connections db else db_groups db.

(** [ON DELETE SET NULL] of the connections of a group. *)
Definition ungrouped (id : QString) (r : row) : row :=
  if bool_decide (r !! "group_id"%string = Some (VText id))
  then <["group_id"%string := VNull]> r else r.

Definition with_table (name : string) (t : gmap QString row) (db : database) : database :=
  if bool_decide (name = "connections"%string) then mkDatabase t (db_groups db)
  else mkDatabase (db_connections db) t.

Definition without_row (name : string) (id : QString) (db : database) : database :=
  let db' := with_table name (delete id (table name db)) db in
  if bool_decide (name = "connections"%string) then db'
  else mkDatabase (ungrouped id <$> db_connections db') (db_groups db').

Definition bound_id (bindings : row) : QString :=
  match bindings !! "id"%string with Some (VText id) => id | _ => [] end.

Definition assigned_value (bindings : row) (a : string * assigned) : string * variant :=
  (fst a, match snd a with Bound => field bindings (fst a) | Literal v => v end).

(** What a statement does where it succeeds: the rows it gives, how many it
    changed, and the tables after it. *)
Definition sql_effect (s : statement) (bindings : row) (db : database)
    : option (list row * Z * database) :=
  let id := bound_id bindings in
  match s with
  | InsertInto t columns =>
      match table t db !! id with
      | Some _ => None
      | None =>
          let r := list_to_map (assigned_value bindings <$> bound_columns columns) in
          Some ([], 1, with_table t (<[id := r]> (table t db)) db)
      end
  | SelectWhereId t => Some (option_list (table t db !! id), 0, db)
  | SelectOrdered t _ => Some ((map_to_list (table t db)).*2, 0, db)
  | UpdateWhereId t assignments =>
      match table t db !! id with
      | None => Some ([], 0, db)
      | Some r =>
          let values : row := list_to_map (assigned_value bindings <$> assignments) in
          Some ([], 1, with_table t (<[id := values ∪ r]> (table t db)) db)
      end
  | DeleteWhereId t =>
      match table t db !! id with
      | None => Some ([], 0, db)
      | Some _ => Some ([], 1, without_row t id db)
      end
  end.

(** ** Reading rows *)

Fixpoint assoc {A} (key : string) (l : list (string * A)) : option A :=
  match l with
  | [] => None
  | (k, v) :: l => if String.eqb key k then Some v else assoc key l
  end.

Class QtSqlLaws `{Qt} `{!QtJson} `{!QtSql} : Prop := {
  variant_toString_null : variant_toString VNull = [];
  variant_toString_text t : variant_toString (VText t) = t;
  variant_toInt_integer n : - 2 ^ 31 <= n < 2 ^ 31 -> variant_toInt (VInteger n) = n;
  toIsoUtc_some d : isValid d = true -> toIsoUtc d <> []
}.

Section repository_runs.
Context `{Qt} `{!QtJson} `{!QtJsonLaws} `{!QtSql} `{!QtSqlLaws}.

Lemma field_values (l : list (string * variant)) (r : row) key :
  field (list_to_map l ∪ r) key = default (field r key) (assoc key l).
Proof.
  unfold field. induction l as [|[k v] l IH]; cbn [list_to_map assoc fst snd foldr].
  - by rewrite (left_id_L ∅ (∪)).
  - rewrite <- insert_union_l. destruct (String.eqb_spec key k) as [->|Hk].
    + by rewrite lookup_insert_eq.
    + by rewrite lookup_insert_ne.
Qed.

Lemma field_inserted (l : list (string * variant)) key :
  field (list_to_map l) key = default VNull (assoc key l).
Proof.
  rewrite <- (right_id_L ∅ (∪) (list_to_map l)), field_values. unfold field.
  by rewrite lookup_empty.
Qed.

Definition connection_bindings (c : SavedConnection) : list (string * variant) :=
  [("last_successful_check_at", dateToValue (svc_lastSuccessfulCheckAt c));
   ("last_error_message", VText (sanitized (svc_lastErrorMessage c)));
   ("last_error_code", VText (appErrorCode_toString (svc_lastErrorCode c)));
   ("updated_at", dateToValue (svc_updatedAt c));
   ("created_at", dateToValue (svc_createdAt c));
   ("last_opened_at", dateToValue (svc_lastOpenedAt c));
   ("is_favorite", VInteger (if svc_isFavorite c then 1 else 0));
   ("group_id", if isEmpty (svc_groupId c) then VNull else VText (svc_groupId c));
   ("comment", VText (svc_comment c)); ("credential_ref", VText (svc_credentialRef c));
   ("auth_type", VText (authType_toString (con_authType (svc_connection c))));
   ("username", VText (con_username (svc_connection c)));
   ("domain", VText (con_domain (svc_connection c)));
   ("initial_remote_path", VText (svc_initialRemotePath c));
   ("share", VText (con_share (svc_connection c)));
   ("server", VText (con_server (svc_connection c)));
   ("normalized_uri", VText (con_normalizedUri (svc_connection c)));
   ("input_path", VText (svc_inputPath c)); ("name", VText (svc_name c));
   ("id", VText (con_id (svc_connection c)))]%string.

Lemma bindConnection_list c : bindConnection c = list_to_map (connection_bindings c).
Proof. done. Qed.

(** A connection that was written and read. *)
Definition as_read (c : SavedConnection) : SavedConnection :=
  mkSavedConnection (svc_connection c) (svc_name c) (svc_inputPath c)
    (svc_initialRemotePath c) (svc_credentialRef c) (svc_comment c) (svc_groupId c)
    (svc_isFavorite c) (date_back (svc_lastOpenedAt c)) (date_back (svc_createdAt c))
    (date_back (svc_updatedAt c)) (svc_lastErrorCode c)
    (sanitized (svc_lastErrorMessage c)) (date_back (svc_lastSuccessfulCheckAt c)).

Definition dates_fit (c : SavedConnection) : Prop :=
  date_fits (svc_lastOpenedAt c) /\ date_fits (svc_createdAt c) /\
  date_fits (svc_updatedAt c) /\ date_fits (svc_lastSuccessfulCheckAt c).

Lemma dateFromValue_toValue d : date_fits d -> dateFromValue (dateToValue d) = date_back d.
Proof.
  unfold date_fits, dateFromValue, dateToValue, date_back. intros Hd.
  destruct (isValid d) eqn:Hv; [|done].
  rewrite bool_decide_eq_false_2 by done. cbn [orb]. rewrite variant_toString_text.
  pose proof (toIsoUtc_some d Hv) as Hs. destruct (toIsoUtc d) eqn:He; [done|].
  cbn [isEmpty]. rewrite <- He. by apply fromIso_toIsoUtc; [|apply Hd].
Qed.

Lemma storedErrorCode_toString code : storedErrorCode (appErrorCode_toString code) = code.
Proof. by destruct code. Qed.

Lemma assoc_assigned b columns key :
  assoc key (assigned_value b <$> bound_columns columns) =
  if bool_decide (key ∈ columns) then Some (field b key) else None.
Proof.
  induction columns as [|column columns IH]; [done|]. cbn [bound_columns fmap list_fmap].
  unfold assigned_value at 1. cbn [fst snd assoc]. destruct (String.eqb_spec key column) as [->|Hk].
  - by rewrite bool_decide_eq_true_2 by set_solver.
  - unfold bound_columns in IH. rewrite IH.
    rewrite (bool_decide_ext (key ∈ column :: columns) (key ∈ columns)); [done|].
    rewrite elem_of_cons. tauto.
Qed.

Lemma field_assigned b columns r key :
  field (list_to_map (assigned_value b <$> bound_columns columns) ∪ r) key =
  if bool_decide (key ∈ columns) then field b key else field r key.
Proof. rewrite field_values, assoc_assigned. by destruct (bool_decide _). Qed.

(** A row is that of a connection if it has its bound values. *)
Lemma connectionFromQuery_bound r c :
  dates_fit c ->
  Forall (fun key => field r key = field (bindConnection c) key) connection_columns ->
  connectionFromQuery r = as_read c.
Proof.
  intros (Ho & Hc & Hu & Hs) Hr. unfold connectionFromQuery, text_field.
  rewrite bindConnection_list in Hr. unfold connection_columns in Hr.
  do 20 (apply Forall_cons in Hr as [He Hr]; rewrite field_inserted in He; cbn in He;
         rewrite He; clear He).
  rewrite !dateFromValue_toValue, !variant_toString_text, storedErrorCode_toString,
    authTypeFromString_toString by done.
  destruct c as [[] ? ? ? ? ? group favorite ? ? ? ? ? ?]. cbn in *. unfold as_read. cbn.
  f_equal.
  - destruct group; cbn; [apply variant_toString_null|apply variant_toString_text].
  - by destruct favorite; rewrite variant_toInt_integer by lia.
Qed.

(** ** The store *)

(** What the calls may be answered. A statement may always fail, and then it has
    done nothing; the rows come in any order. The clock shows a date that can be
    written, and an id that is made up is not empty. *)
Definition db_answers {B : Set} (c : storage_call B)
    : database -> B -> database -> Prop :=
  match c in storage_call B return database -> B -> database -> Prop with
  | Exec s bindings => fun db r db' =>
      match r with
      | inl _ => db' = db
      | inr done => exists rows, exe_rows done ≡ₚ rows /\
          sql_effect s bindings db = Some (rows, exe_affected done, db')
      end
  | CreateId => fun db id db' => db' = db /\ id <> []
  | CurrentTime => fun db now db' =>
      db' = db /\ isValid now = true /\ hasIsoYear now = true /\ inUtc now = now
  end.

Abbreviation stores p db Q := (awp (fun B => @db_answers B) False p db Q).

(** Every row is kept by its id. *)
Definition keyed (db : database) : Prop :=
  map_Forall (fun id r => field r "id" = VText id) (db_connections db).

Definition store_of (db : database) : gmap QString SavedConnection :=
  connectionFromQuery <$> db_connections db.

(** ** Operations *)

Inductive store_op : Set -> Type :=
| StoreAdd (connection : SavedConnection) : store_op SavedConnection
| StoreGet (id : QString) : store_op SavedConnection
| StoreList : store_op (list SavedConnection)
| StoreUpdate (connection : SavedConnection) : store_op SavedConnection
| StoreRemove (id : QString) : store_op bool
| StoreOpened (id : QString) (openedAt : QDateTime) : store_op bool
| StoreError (id : QString) (code : AppErrorCode) (message : QString) : store_op bool
| StoreChecked (id : QString) (checkedAt : QDateTime) : store_op bool.

Definition store_method {A : Set} (op : store_op A) : storage (Result A) :=
  match op with
  | StoreAdd connection => repository_add connection
  | StoreGet id => repository_getById id
  | StoreList => repository_list
  | StoreUpdate connection => repository_update connection
  | StoreRemove id => repository_remove id
  | StoreOpened id openedAt => repository_updateLastOpened id openedAt
  | StoreError id code message => repository_updateLastError id code message
  | StoreChecked id checkedAt => repository_updateLastSuccessfulCheck id checkedAt
  end.

(** A connection with another date of its last opening, error, or check. *)
Definition restamped (lastOpenedAt updatedAt : QDateTime) (code : AppErrorCode)
    (message : QString) (lastCheck : QDateTime) (c : SavedConnection) : SavedConnection :=
  mkSavedConnection (svc_connection c) (svc_name c) (svc_inputPath c)
    (svc_initialRemotePath c) (svc_credentialRef c) (svc_comment c) (svc_groupId c)
    (svc_isFavorite c) lastOpenedAt (svc_createdAt c) updatedAt code message lastCheck.

Definition opened (openedAt now : QDateTime) (c : SavedConnection) : SavedConnection :=
  restamped (date_back openedAt) now (svc_lastErrorCode c) (svc_lastErrorMessage c)
    (svc_lastSuccessfulCheckAt c) c.
Definition blamed (code : AppErrorCode) (message : QString) (now : QDateTime)
    (c : SavedConnection) : SavedConnection :=
  restamped (svc_lastOpenedAt c) now code (sanitized message)
    (svc_lastSuccessfulCheckAt c) c.
Definition checked_at (checkedAt now : QDateTime) (c : SavedConnection) : SavedConnection :=
  restamped (svc_lastOpenedAt c) now App_None [] (date_back checkedAt) c.

(** What an operation that succeeds does to the store. *)
Definition store_after {A : Set} (op : store_op A) (store : gmap QString SavedConnection)
    : A -> gmap QString SavedConnection -> Prop :=
  match op in store_op A return A -> gmap QString SavedConnection -> Prop with
  | StoreAdd c => fun r store' => exists id now,
      id <> [] /\ (con_id (svc_connection c) = [] \/ con_id (svc_connection c) = id) /\
     r = dated id (if isValid (svc_createdAt c) then svc_createdAt c else now) now c /\
      store !! id = None /\ store' = <[id := as_read r]> store
  | StoreGet id => fun r store' => store !! id = Some r /\ store' = store
  | StoreList => fun r store' => r ≡ₚ (map_to_list store).*2 /\ store' = store
  | StoreUpdate c => fun r store' => exists now,
      let id := con_id (svc_connection c) in
      id <> [] /\ r = dated id (svc_createdAt c) now c /\
      is_Some (store !! id) /\ store' = <[id := as_read r]> store
  | StoreRemove id => fun r store' =>
      r = bool_decide (is_Some (store !! id)) /\ store' = delete id store
  | StoreOpened id openedAt => fun r store' => exists now,
      r = bool_decide (is_Some (store !! id)) /\ store' = alter (opened openedAt now) id store
  | StoreError id code message => fun r store' => exists now,
      r = bool_decide (is_Some (store !! id)) /\
      store' = alter (blamed code message now) id store
  | StoreChecked id checkedAt => fun r store' => exists now,
      r = bool_decide (is_Some (store !! id)) /\
      store' = alter (checked_at checkedAt now) id store
  end.

(** The dates an operation is given can be written. *)
Definition store_op_fits {A : Set} (op : store_op A) : Prop :=
  match op with
  | StoreAdd c | StoreUpdate c =>
      date_fits (svc_lastOpenedAt c) /\ date_fits (svc_createdAt c) /\
      date_fits (svc_lastSuccessfulCheckAt c)
  | StoreOpened _ d | StoreChecked _ d => date_fits d
  | _ => True
  end.

Definition reads {A : Set} (op : store_op A) : Prop :=
  match op with StoreGet _ | StoreList => True | _ => False end.

(** The store after an operation, or before it if it failed, with the reason. *)
Definition store_left {A : Set} (op : store_op A) (db db' : database) (r : Result A) : Prop :=
  keyed db' /\ db_groups db' = db_groups db /\ (reads op -> db' = db) /\
  if Result_ok r then store_after op (store_of db) (res_value r) (store_of db')
  else db' = db /\
    (ae_code (res_error r) = App_StorageError \/
     ae_code (res_error r) = App_FileNotFound /\
     match op with
     | StoreGet id => store_of db !! id = None
     | StoreUpdate c => con_id (svc_connection c) = [] \/
         store_of db !! con_id (svc_connection c) = None
     | _ => False
     end).

Lemma stores_exec {A} s bindings (f : QString + executed -> storage A) db Q :
  (forall text, stores (f (inl text)) db Q) ->
  (forall done rows db', exe_rows done ≡ₚ rows ->
     sql_effect s bindings db = Some (rows, exe_affected done, db') ->
     stores (f (inr done)) db' Q) ->
  stores (ask (Exec s bindings) ≫= f) db Q.
Proof.
  intros Hl Hr. apply awp_ask. intros [text|done] db'; cbn; [by intros ->|].
  intros (rows & Hp & He). by eapply Hr.
Qed.

Lemma stores_now {A} (f : QDateTime -> storage A) db Q :
  (forall now, isValid now = true -> hasIsoYear now = true -> inUtc now = now ->
     stores (f now) db Q) ->
  stores (ask CurrentTime ≫= f) db Q.
Proof. intros Hf. apply awp_ask. intros now db' (-> & ? & ? & ?). by apply Hf. Qed.

Lemma stores_give {A} (a : A) db (Q : database -> A -> Prop) :
  Q db a -> stores (mret a) db Q.
Proof. done. Qed.

Lemma keyed_store db id :
  store_of db !! id = connectionFromQuery <$> db_connections db !! id.
Proof. apply lookup_fmap. Qed.

(** A connection is kept by its own id. *)
Lemma keyed_id db id c : keyed db -> store_of db !! id = Some c -> con_id (svc_connection c) = id.
Proof.
  intros Hk. rewrite keyed_store. destruct (db_connections db !! id) as [r|] eqn:Hr; [|done].
  intros [= <-]. cbn. unfold text_field. rewrite (Hk _ _ Hr). apply variant_toString_text.
Qed.

Lemma failed_ok {A} (a : A) text : Result_ok (Result_failure a (storageError text)) = false.
Proof. done. Qed.

(** A row that was changed in some of its columns. *)
Lemma keyed_insert db id r :
  keyed db -> field r "id" = VText id ->
  keyed (with_table "connections" (<[id := r]> (db_connections db)) db).
Proof. intros Hk Hr. by apply map_Forall_insert_2. Qed.

Lemma store_insert db id r :
  store_of (with_table "connections" (<[id := r]> (db_connections db)) db) =
  <[id := connectionFromQuery r]> (store_of db).
Proof. apply fmap_insert. Qed.

Lemma inserted_row c :
  let r := list_to_map (assigned_value (bindConnection c) <$>
                          bound_columns connection_columns) : row in
  dates_fit c -> connectionFromQuery r = as_read c /\
    field r "id" = VText (con_id (svc_connection c)).
Proof.
  cbn zeta. intros Hd. rewrite <- (right_id_L ∅ (∪) (list_to_map _)). split.
  - apply connectionFromQuery_bound; [done|]. apply Forall_forall. intros key Hk.
    by rewrite field_assigned, bool_decide_eq_true_2.
  - by rewrite field_assigned, bindConnection_list, field_inserted.
Qed.

Lemma updated_row c r :
  let r' := list_to_map (assigned_value (bindConnection c) <$>
                           bound_columns (tail connection_columns)) ∪ r in
  dates_fit c -> field r "id" = VText (con_id (svc_connection c)) ->
  connectionFromQuery r' = as_read c /\
  field r' "id" = VText (con_id (svc_connection c)).
Proof.
  cbn zeta. intros Hd Hr. split; [|by rewrite field_assigned].
  apply connectionFromQuery_bound; [done|]. apply Forall_forall. intros key Hk.
  rewrite field_assigned. case_bool_decide as Ht; [done|].
  apply elem_of_cons in Hk as [->|Hk]; [|done].
  by rewrite Hr, bindConnection_list, field_inserted.
Qed.

Lemma bound_id_text id b : bound_id (bindText "id" id b) = id.
Proof. unfold bound_id, bindText, bindValue. by rewrite lookup_insert_eq. Qed.

(** A statement that changes or deletes the row of an id. *)
Lemma stores_changes s b db Q :
  (forall text, Q db (Result_failure false (storageError text))) ->
  (forall rows n db', sql_effect s b db = Some (rows, n, db') ->
     Q db' (Result_success (0 <? n))) ->
  stores (changes_rows s b) db Q.
Proof. intros Hl Hr. apply stores_exec; [done|]. intros done rows db' _ He. by eapply Hr. Qed.

(** [UPDATE] is [alter] for the change of a row it makes. *)
Lemma stores_altered (f : SavedConnection -> SavedConnection) assignments b id db :
  let values : row := list_to_map (assigned_value (bindText "id" id b) <$> assignments) in
  (forall r, connectionFromQuery (values ∪ r) = f (connectionFromQuery r)) ->
  (forall r, field (values ∪ r) "id" = field r "id") ->
  keyed db ->
  stores (changes_rows (UpdateWhereId "connections" assignments) (bindText "id" id b)) db
    (fun db' r => keyed db' /\ db_groups db' = db_groups db /\
       if Result_ok r
       then res_value r = bool_decide (is_Some (store_of db !! id)) /\
            store_of db' = alter f id (store_of db)
       else db' = db /\ ae_code (res_error r) = App_StorageError).
Proof.
  cbn zeta. intros Hf Hid Hk. apply stores_changes; [done|].
  intros rows n db' He. cbn [sql_effect] in He. rewrite bound_id_text in He.
  change (table "connections" db) with (db_connections db) in He. rewrite keyed_store.
  destruct (db_connections db !! id) as [r|] eqn:Hr; simplify_eq/=; split_and!; try done.
  - apply keyed_insert; [done|]. rewrite Hid. by apply (Hk id).
  - rewrite store_insert, Hf. symmetry. apply map_eq. intros i.
    destruct (decide (i = id)) as [->|Hi].
    + by rewrite lookup_alter_eq, lookup_insert_eq, keyed_store, Hr.
    + by rewrite lookup_alter_ne, lookup_insert_ne.
  - symmetry. apply map_eq. intros i. destruct (decide (i = id)) as [->|Hi].
    + by rewrite lookup_alter_eq, keyed_store, Hr.
    + by rewrite lookup_alter_ne.
Qed.

Lemma field_bind column v b key :
  field (bindValue column v b) key = if String.eqb key column then v else field b key.
Proof.
  unfold field, bindValue. destruct (String.eqb_spec key column) as [->|Hk].
  - by rewrite lookup_insert_eq.
  - by rewrite lookup_insert_ne.
Qed.

Lemma success_ok {A} (a : A) : Result_ok (Result_success a) = true.
Proof. done. Qed.

Lemma missing_ok {A} (a : A) id : Result_ok (Result_failure a (notFoundError id)) = false.
Proof. done. Qed.

Lemma store_left_failed {A : Set} (op : store_op A) db a text :
  keyed db -> store_left op db db (Result_failure a (storageError text)).
Proof. intros Hk. unfold store_left. rewrite failed_ok. split_and!; [done..|by left]. Qed.

(** The columns of an [UPDATE], one by one. *)
Ltac by_columns :=
  intros; unfold connectionFromQuery, text_field, bindText; rewrite ?field_values;
  cbn [assoc fmap list_fmap bound_columns assigned_value fst snd default from_option];
  rewrite ?field_bind;
  cbn [String.eqb Ascii.eqb Bool.eqb default from_option Datatypes.id].

Lemma stores_getById id db :
  keyed db -> stores (repository_getById id) db (store_left (StoreGet id) db).
Proof.
  intros Hk. apply stores_exec; [by intros; apply store_left_failed|].
  intros done rows db' Hp He. cbn in He. rewrite bound_id_text in He. simplify_eq.
  change (table "connections" _) with (db_connections db') in Hp.
  apply stores_give. unfold store_left.
  destruct (db_connections db' !! id) as [r|] eqn:Hr; cbn in Hp.
  - apply Permutation_singleton_r in Hp as ->. cbn. by rewrite keyed_store, Hr.
  - apply Permutation_nil_r in Hp as ->. cbn beta iota. rewrite missing_ok.
    split_and!; [done..|]. right. by rewrite keyed_store, Hr.
Qed.

Lemma stores_list db :
  keyed db -> stores repository_list db (store_left StoreList db).
Proof.
  intros Hk. apply stores_exec; [by intros; apply store_left_failed|].
  intros done rows db' Hp [= <- Hn <-]. apply stores_give. unfold store_left. split_and!; [done..|].
  rewrite success_ok. split; [|done]. cbn [res_value Result_success]. rewrite Hp.
  unfold store_of. by rewrite map_to_list_fmap, <- !list_fmap_compose.
Qed.

Lemma dated_fit c id createdAt now :
  store_op_fits (StoreAdd c) -> date_fits createdAt -> hasIsoYear now = true ->
  dates_fit (dated id createdAt now c).
Proof. intros (Ho & Hc & Hl) Hd Hn. split_and!; [exact Ho|exact Hd|by intros ?|exact Hl]. Qed.

Lemma stores_update c db :
  keyed db -> store_op_fits (StoreUpdate c) ->
  stores (repository_update c) db (store_left (StoreUpdate c) db).
Proof.
  intros Hk Hf. unfold repository_update.
  destruct (isEmpty (con_id (svc_connection c))) eqn:He.
  { apply stores_give. unfold store_left. rewrite missing_ok. split_and!; [done..|].
    right. split; [done|]. left. by destruct (con_id _). }
  apply stores_now. intros now Hv Hy Hu. set (c' := dated _ _ _ _).
  apply stores_exec; [by intros; apply store_left_failed|].
  intros done rows db' _ Hs. cbn [sql_effect] in Hs.
  change (bound_id (bindConnection c')) with (con_id (svc_connection c)) in Hs.
  change (table "connections" db) with (db_connections db) in Hs. apply stores_give.
  unfold store_left. destruct (db_connections db !! _) as [r|] eqn:Hr.
  - apply (inj Some), (inj2 pair) in Hs as [[_ <-]%(inj2 pair) <-].
    change (1 =? 0) with false. cbn iota. rewrite success_ok.
    destruct (updated_row c' r) as [Hq Hi].
    { apply dated_fit; [done| |done]. apply Hf. }
    { by apply (Hk (con_id (svc_connection c))). }
    split_and!; [by apply keyed_insert|done|done|]. exists now. split_and!.
    + by destruct (con_id _).
    + done.
    + rewrite keyed_store, Hr. by eexists.
    + cbn [res_value Result_success]. by rewrite store_insert, Hq.
  - apply (inj Some), (inj2 pair) in Hs as [[_ <-]%(inj2 pair) <-].
    change (0 =? 0) with true. cbn iota. rewrite missing_ok. split_and!; [done..|].
    right. split; [done|]. right. by rewrite keyed_store, Hr.
Qed.

Lemma stores_add c db :
  keyed db -> store_op_fits (StoreAdd c) ->
  stores (repository_add c) db (store_left (StoreAdd c) db).
Proof.
  intros Hk Hf. unfold repository_add. apply awp_bind.
  assert (stores (if isEmpty (con_id (svc_connection c)) then ask CreateId
                  else mret (con_id (svc_connection c))) db (fun db' id =>
    db' = db /\ id <> [] /\
    (con_id (svc_connection c) = [] \/ con_id (svc_connection c) = id))) as Hi.
  { destruct (con_id _) eqn:He; cbn; [|by split_and!; [..|right]].
    intros id db' [-> Hid]. by split_and!; [..|left]. }
  eapply awp_mono; [exact Hi|]. intros db0 id (-> & Hid & Hc). clear Hi.
  apply stores_now. intros now Hv Hy Hu. set (c' := dated _ _ _ _).
  apply stores_exec; [by intros; apply store_left_failed|].
  intros done rows db' _ Hs. cbn [sql_effect] in Hs.
  change (bound_id (bindConnection c')) with id in Hs.
  change (table "connections" db) with (db_connections db) in Hs. apply stores_give.
  unfold store_left. destruct (db_connections db !! _) as [r|] eqn:Hr; [done|].
  apply (inj Some), (inj2 pair) in Hs as [_ <-]. rewrite success_ok.
  destruct (inserted_row c') as [Hq Hi].
  { apply dated_fit; [done| |done].
    destruct (isValid (svc_createdAt c)); [by apply Hf|by intros ?]. }
  split_and!; [by apply keyed_insert|done|done|]. exists id, now.
  split; [exact Hid|]. split; [exact Hc|]. split; [reflexivity|]. split.
  - by rewrite keyed_store, Hr.
  - cbn [res_value Result_success]. by rewrite store_insert, Hq.
Qed.

Lemma stores_remove id db :
  keyed db -> stores (repository_remove id) db (store_left (StoreRemove id) db).
Proof.
  intros Hk. apply stores_changes; [by intros; apply store_left_failed|].
  intros rows n db' He. cbn [sql_effect] in He. rewrite bound_id_text in He.
  change (table "connections" db) with (db_connections db) in He.
  unfold store_left. rewrite success_ok. cbn [res_value Result_success store_after].
  rewrite keyed_store. destruct (db_connections db !! id) as [r|] eqn:Hr; simplify_eq/=.
  - split_and!; [by apply map_Forall_delete|done|done|done|by apply fmap_delete].
  - split_and!; [done..|]. symmetry. apply delete_id. by rewrite keyed_store, Hr.
Qed.

(** The three updates that stamp a connection. *)
Lemma store_left_altered f op id db db' r :
  ~ reads op ->
  keyed db' /\ db_groups db' = db_groups db /\
  (if Result_ok r
   then res_value r = bool_decide (is_Some (store_of db !! id)) /\
        store_of db' = alter f id (store_of db)
   else db' = db /\ ae_code (res_error r) = App_StorageError) ->
  (res_value r = bool_decide (is_Some (store_of db !! id)) ->
   store_of db' = alter f id (store_of db) ->
   store_after op (store_of db) (res_value r) (store_of db')) ->
  store_left op db db' r.
Proof.
  intros Ho (Hk & Hg & Hr) Ha. split_and!; [done..|]. destruct (Result_ok r).
  - by apply Ha; apply Hr.
  - destruct Hr as [-> Hc]. split; [done|by left].
Qed.

Lemma date_back_now now :
  isValid now = true -> hasIsoYear now = true -> inUtc now = now ->
  dateFromValue (VText (toIsoUtc now)) = now.
Proof.
  intros Hv Hy Hu. transitivity (dateFromValue (dateToValue now)).
  - unfold dateToValue. by rewrite Hv.
  - rewrite dateFromValue_toValue by (by intros ?). unfold date_back. by rewrite Hv.
Qed.

Lemma stores_updateLastOpened id openedAt db :
  keyed db -> date_fits openedAt ->
  stores (repository_updateLastOpened id openedAt) db
    (store_left (StoreOpened id openedAt) db).
Proof.
  intros Hk Hd. apply stores_now. intros now Hv Hy Hu.
  eapply awp_mono; [apply (stores_altered (opened openedAt now)); [| |done]; by_columns|].
  - by rewrite dateFromValue_toValue, date_back_now.
  - done.
  - intros db' r Hr. eapply store_left_altered; [by intros []|exact Hr|]. by exists now.
Qed.

Lemma stores_updateLastError id code message db :
  keyed db ->
  stores (repository_updateLastError id code message) db
    (store_left (StoreError id code message) db).
Proof.
  intros Hk. apply stores_now. intros now Hv Hy Hu.
  eapply awp_mono; [apply (stores_altered (blamed code message now)); [| |done]; by_columns|].
  - by rewrite date_back_now, !variant_toString_text, storedErrorCode_toString.
  - done.
  - intros db' r Hr. eapply store_left_altered; [by intros []|exact Hr|]. by exists now.
Qed.

Lemma stores_updateLastSuccessfulCheck id checkedAt db :
  keyed db -> date_fits checkedAt ->
  stores (repository_updateLastSuccessfulCheck id checkedAt) db
    (store_left (StoreChecked id checkedAt) db).
Proof.
  intros Hk Hd. apply stores_now. intros now Hv Hy Hu.
  eapply awp_mono; [apply (stores_altered (checked_at checkedAt now)); [| |done]; by_columns|].
  - by rewrite dateFromValue_toValue, date_back_now, !variant_toString_text.
  - done.
  - intros db' r Hr. eapply store_left_altered; [by intros []|exact Hr|]. by exists now.
Qed.

Lemma stores_method {A : Set} (op : store_op A) db :
  keyed db -> store_op_fits op -> stores (store_method op) db (store_left op db).
Proof.
  intros Hk Hf. destruct op; cbn in Hf.
  - by apply stores_add.
  - by apply stores_getById.
  - by apply stores_list.
  - by apply stores_update.
  - by apply stores_remove.
  - by apply stores_updateLastOpened.
  - by apply stores_updateLastError.
  - by apply stores_updateLastSuccessfulCheck.
Qed.

(** C12: The table of connections is a map from ids to connections. Take a database
    whose rows are kept by their ids, and dates that can be written. Then every
    method of the repository ends. If it succeeds, it has done to the connections
    that can be read from the table what it says: [add] puts a connection where there
    was none, with the dates it gives it; [update] replaces one; [remove] deletes it;
    the three updates of a stamp change the stamp and the date of the update and
    nothing else; [getById] and [list] give what is there and change nothing. If it
    fails, the database is as it was, and the error is that of the database, or says
    truly that there is no such connection. The groups are left alone. *)
Theorem repository_refines_store {A : Set} (op : store_op A) db o db' :
  keyed db -> store_op_fits op ->
  asks (fun B => @db_answers B) (store_method op) db o db' ->
  exists r, o = Some r /\ keyed db' /\ db_groups db' = db_groups db /\
    (reads op -> db' = db) /\
    if Result_ok r then store_after op (store_of db) (res_value r) (store_of db')
    else db' = db /\
      (ae_code (res_error r) = App_StorageError \/
       ae_code (res_error r) = App_FileNotFound /\
       match op with
       | StoreGet id => store_of db !! id = None
       | StoreUpdate c => con_id (svc_connection c) = [] \/
           store_of db !! con_id (svc_connection c) = None
       | _ => False
       end).
Proof.
  intros Hk Hf Hr. eapply awp_runs in Hr; [|by apply stores_method].
  destruct o as [r|]; [|done]. exists r. split; [done|exact Hr].
Qed.

End repository_runs.

(** ** A database *)

#[export] Instance sample_sql : @QtSql ascii_qt := {|
  variant_toString v :=
    match v with VNull => [] | VText t => t | VInteger n => QStringLiteral (pretty n) end;
  variant_toInt v := match v with VInteger n => n | _ => 0 end
|}.
#[local] Existing Instances sample_json sample_json_laws.

#[export] Instance sample_sql_laws : @QtSqlLaws ascii_qt sample_json sample_sql.
Proof.
  split; [done..|]. intros d _ He. apply (f_equal read_bytes) in He.
  revert He. cbn [toIsoUtc sample_json]. by rewrite read_write_bytes.
Qed.

Definition db_serve {B : Set} (c : storage_call B) : database -> option (B * database) :=
  match c in storage_call B return database -> option (B * database) with
  | Exec s bindings => fun db =>
      Some match sql_effect s bindings db with
           | Some (rows, n, db') => (inr (mkExecuted rows n), db')
           | None => (inl (QStringLiteral "UNIQUE constraint failed"), db)
           end
  | CreateId => fun db => Some (QStringLiteral "1b4e28ba", db)
  | CurrentTime => fun db => Some (5 : Z, db)
  end.

Lemma db_serve_answers (B : Set) (c : storage_call B) db b db' :
  db_serve c db = Some (b, db') -> db_answers c db b db'.
Proof.
  destruct c; cbn [db_serve db_answers].
  - destruct (sql_effect s bindings db) as [[[rows n] db1]|]; intros [= <- <-]; [|done].
    by exists rows.
  - by intros [= <- <-].
  - by intros [= <- <-].
Qed.

Definition no_rows : database := mkDatabase ∅ ∅.

Lemma run_add : exists r db',
  run_asking (fun B => @db_serve B) (store_method (StoreAdd lab)) no_rows
    = Some (Some r, db') /\ Result_ok r = true.
Proof.
  assert (match run_asking (fun B => @db_serve B) (store_method (StoreAdd lab)) no_rows with
    | Some (Some r, _) => Result_ok r | _ => false end = true) as Hr by by vm_compute.
  destruct (run_asking _ _ _) as [[[r|] db']|]; try done. by exists r, db'.
Qed.

Lemma repository_refines_store_witness : exists r db' id now,
  run_asking (fun B => @db_serve B) (store_method (StoreAdd lab)) no_rows
    = Some (Some r, db') /\
  res_value r = dated id (svc_createdAt lab) now lab /\ store_of db' = {[id := as_read (res_value r)]}.
Proof.
  destruct run_add as (r & db' & Hrun & Hok).
  pose proof (run_runs (fun B => @db_answers _ _ B) (fun B => @db_serve B) _ _ _ _
                db_serve_answers Hrun) as Hr.
  apply (repository_refines_store (StoreAdd lab)) in Hr; [|done|by split_and!].
  destruct Hr as (r' & [= <-] & _ & _ & _ & Hs). rewrite Hok in Hs.
  destruct Hs as (id & now & _ & _ & Hv & _ & Hs). by exists r, db', id, now.
Defined.
