(* ===== verification/Backup.v ===== *)
(** * Export and import of what is stored ([ConnectionImportExportService.cpp])

    The service between the repositories (Repository.v) and the documents
    (ImportExport.v): it writes a document of all connections and groups, and stores
    what it reads from one. *)

From stdpp Require Import gmap.
From S2P Require Export Repository.
Local Open Scope Z_scope.

(** The calls of the repositories and of the serializer. *)
Inductive backup_call `{Qt} : Set -> Type :=
| OfStorage (B : Set) (c : storage_call B) : backup_call B
| OfSerializer (B : Set) (c : export_call B) : backup_call B.
Arguments OfStorage {_ B} c.
Arguments OfSerializer {_ B} c.
Abbreviation backup := (asking backup_call).

Record ExportConnectionsRequest : Set := mkExportConnectionsRequest {
  ecr_includePlainTextPasswords : bool;
  ecr_plainTextPasswordExportConfirmed : bool
}.

Section backup.
Context `{Qt} `{!QtUrl} `{!QtJson} `{!QtSql} `{Sodium}.

Definition in_storage {A} (p : storage A) : backup A :=
  asking_lift (fun B (c : storage_call B) => OfStorage c) p.
Definition in_serializer {A} (p : export A) : backup A :=
  asking_lift (fun B (c : export_call B) => OfSerializer c) p.

Definition request_options (request : ExportConnectionsRequest) : ExportOptions :=
  mkExportOptions (ecr_includePlainTextPasswords request)
    (ecr_plainTextPasswordExportConfirmed request)
    (ecr_includePlainTextPasswords request) false [].

Definition backup_export (request : ExportConnectionsRequest) : backup (Result bytes) :=
  connections ← in_storage repository_list;
  if negb (Result_ok connections) then mret (Result_failure [] (res_error connections)) else
  groups ← in_storage groups_list;
  if negb (Result_ok groups) then mret (Result_failure [] (res_error groups)) else
  in_serializer (exportConnections (mkExportPayload (res_value connections) (res_value groups))
                   (request_options request)).

Fixpoint persistGroups_loop (existingGroupIds : gset QString)
    (groups : list ConnectionGroup) : backup (Result bool) :=
  match groups with
  | [] => mret (Result_success true)
  | group :: groups =>
      saved ← in_storage (if bool_decide (grp_id group ∈ existingGroupIds)
                          then groups_update group else groups_add group);
      if negb (Result_ok saved) then mret (Result_failure false (res_error saved))
      else persistGroups_loop existingGroupIds groups
  end.

Definition persistGroups (groups : list ConnectionGroup) : backup (Result bool) :=
  existingGroups ← in_storage groups_list;
  if negb (Result_ok existingGroups)
  then mret (Result_failure false (res_error existingGroups)) else
  persistGroups_loop (list_to_set (grp_id <$> res_value existingGroups)) groups.

Fixpoint persistConnections (connections : list SavedConnection)
    (existingConnectionIds : gset QString) (duplicatePolicy : DuplicatePolicy)
    : backup (Result bool) :=
  match connections with
  | [] => mret (Result_success true)
  | connection :: connections =>
      let shouldUpdate := bool_decide (duplicatePolicy = DuplicatePolicy_Replace)
        && bool_decide (con_id (svc_connection connection) ∈ existingConnectionIds) in
      saved ← in_storage (if shouldUpdate then repository_update connection
                          else repository_add connection);
      if negb (Result_ok saved) then mret (Result_failure false (res_error saved))
      else persistConnections connections existingConnectionIds duplicatePolicy
  end.

(** [importConnections] from where the ids of the stored connections are known. *)
Definition import_and_persist (data : bytes) (duplicatePolicy : DuplicatePolicy)
    (existingConnectionIds : gset QString) : backup (Result ImportResult) :=
  let failing e := mret (Result_failure no_import e) in
  imported ← in_serializer (importConnections 2 data
    (mkImportOptions duplicatePolicy existingConnectionIds []));
  if negb (Result_ok imported) then mret imported else
  persistedGroups ← persistGroups (imr_groups (res_value imported));
  if negb (Result_ok persistedGroups) then failing (res_error persistedGroups) else
  persistedConnections ← persistConnections (imr_connections (res_value imported))
    existingConnectionIds duplicatePolicy;
  if negb (Result_ok persistedConnections) then failing (res_error persistedConnections) else
  mret imported.

Definition backup_import (data : bytes) (duplicatePolicy : DuplicatePolicy)
    : backup (Result ImportResult) :=
  existing ← in_storage repository_list;
  if negb (Result_ok existing) then mret (Result_failure no_import (res_error existing)) else
  import_and_persist data duplicatePolicy
    (list_to_set ((fun connection => con_id (svc_connection connection))
                    <$> res_value existing)).

End backup.
