(* ===== verification/BackupRuns.v ===== *)
(** * A backup can be restored ([ConnectionImportExportService.cpp])

    Runs of Backup.v over a database: what is exported from one database and imported
    into another. *)

From S2P Require Export Backup RepositoryRuns.
Local Open Scope Z_scope.

(** ** Maps that elements are stored in one by one *)

Section stored_all.
Context {A : Type} (key : A -> QString) (comes : A -> A -> Prop).

(** [stored_all l m m']: every element of [l], as it comes to be stored, is put into
    [m], which gives [m']. *)
Inductive stored_all : list A -> gmap QString A -> gmap QString A -> Prop :=
| stored_none m : stored_all [] m m
| stored_next a a' l m m' :
    comes a a' -> stored_all l (<[key a := a']> m) m' -> stored_all (a :: l) m m'.

Lemma stored_all_other l m m' k :
  stored_all l m m' -> k ∉ key <$> l -> m' !! k = m !! k.
Proof.
  intros Hl. induction Hl as [m|a a' l m m' Ha Hl IH]; [done|].
  rewrite fmap_cons, not_elem_of_cons. intros [Hk Hn]. rewrite IH by done.
  by rewrite lookup_insert_ne.
Qed.

Lemma stored_all_in l m m' a :
  stored_all l m m' -> NoDup (key <$> l) -> a ∈ l ->
  exists a', m' !! key a = Some a' /\ comes a a'.
Proof.
  intros Hl. induction Hl as [m|b b' l m m' Hb Hl IH]; [by intros _ ?%elem_of_nil|].
  rewrite fmap_cons, NoDup_cons, elem_of_cons. intros [Hn Hd] [->|Ha]; [|by apply IH].
  exists b'. split; [|done]. rewrite (stored_all_other _ _ _ _ Hl Hn). apply lookup_insert_eq.
Qed.

(** [merged which m1 m2 m2']: what of [m1] is wanted has come into [m2], and the rest
    of [m2] is in [m2'] as it was. *)
Definition merged (which : QString -> Prop) (m1 m2 m2' : gmap QString A) : Prop :=
  (forall k a, m1 !! k = Some a -> which k -> exists a', m2' !! k = Some a' /\ comes a a') /\
  (forall k, m1 !! k = None \/ ~ which k -> m2' !! k = m2 !! k).
End stored_all.

(** A list of the values of a map, of which some are stored. *)
Lemma stored_all_merged {A} (key : A -> QString) (comes comes' : A -> A -> Prop)
    (which : QString -> Prop) `{!forall k, Decision (which k)} (f : A -> A) l m1 m2 m2' :
  (forall k a, m1 !! k = Some a -> key a = k) -> (forall a, key (f a) = key a) ->
  (forall a a', comes' (f a) a' -> comes a a') ->
  l ≡ₚ (map_to_list m1).*2 ->
  stored_all key comes' (f <$> filter (fun a => which (key a)) l) m2 m2' ->
  merged comes which m1 m2 m2'.
Proof.
  intros Hkey Hf Hcome Hl Hs.
  assert (forall a, a ∈ l <-> exists k, m1 !! k = Some a) as Hin.
  { intros a. rewrite Hl, list_elem_of_fmap. setoid_rewrite <- elem_of_map_to_list.
    split; [intros ([k b] & -> & Hb); by exists k|intros [k Ha]; by exists (k, a)]. }
  assert (key <$> (f <$> filter (fun a => which (key a)) l) =
    key <$> filter (fun a => which (key a)) l) as Hkeys.
  { rewrite <- list_fmap_compose. apply list_fmap_ext. intros i a _. apply Hf. }
  split.
  - intros k a Ha Hw. destruct (stored_all_in _ _ _ _ _ (f a) Hs) as (a' & Ha' & Hc).
    + rewrite Hkeys, Hl. apply NoDup_fmap_2_strong.
      * intros x y (_ & Hx)%list_elem_of_filter (_ & Hy)%list_elem_of_filter He.
        apply list_elem_of_fmap in Hx as ([kx ?] & -> & Hx%elem_of_map_to_list).
        apply list_elem_of_fmap in Hy as ([ky ?] & -> & Hy%elem_of_map_to_list).
        cbn in *. rewrite (Hkey _ _ Hx), (Hkey _ _ Hy) in He. congruence.
      * apply NoDup_filter. apply NoDup_fmap_2_strong; [|apply NoDup_map_to_list].
        intros [kx x] [ky y] Hx%elem_of_map_to_list Hy%elem_of_map_to_list He. cbn in *.
        subst y. f_equal. by rewrite <- (Hkey _ _ Hx), <- (Hkey _ _ Hy).
    + apply list_elem_of_fmap. exists a. split; [done|]. apply list_elem_of_filter.
      split; [by rewrite (Hkey k a)|]. apply Hin. by exists k.
    + rewrite Hf, (Hkey k a Ha) in Ha'. exists a'. auto.
  - intros k Hk. apply (stored_all_other _ _ _ _ _ k Hs). rewrite Hkeys, list_elem_of_fmap.
    intros (a & -> & (Hw & Ha)%list_elem_of_filter). apply Hin in Ha as [k Ha].
    rewrite (Hkey k a Ha) in Hw, Hk. destruct Hk as [Hk|Hk]; [congruence|done].
Qed.

Section backup_runs.
Context `{Qt} `{!QtUrl} `{!QtJson} `{!QtJsonLaws} `{!QtSql} `{!QtSqlLaws}.
Context `{Sodium} `{!SodiumLaws}.

(** The serializer does nothing to the database. *)
Definition backup_answers {B : Set} (c : backup_call B)
    : database -> B -> database -> Prop :=
  match c in backup_call B return database -> B -> database -> Prop with
  | OfStorage c => db_answers c
  | OfSerializer c => fun db b db' => db' = db /\ export_answers c tt b tt
  end.

Abbreviation stores p db Q := (awp (fun B => @db_answers _ _ B) False p db Q).
Abbreviation proves p Q := (awp (fun B => @export_answers _ _ B) False p tt Q).
Abbreviation backs p db Q := (awp (fun B => @backup_answers B) False p db Q).

Lemma backs_storage {A B} (p : storage A) (f : A -> backup B) db Q :
  stores p db (fun db' a => backs (f a) db' Q) -> backs (in_storage p ≫= f) db Q.
Proof.
  intros Hp. apply awp_bind.
  eapply (awp_lift _ (fun B => @db_answers _ _ B) _ (fun db => db) (fun v _ => v)); try done.
  intros C c w b w' Hb. by exists w'.
Qed.

Lemma backs_give {A} (a : A) db (Q : database -> A -> Prop) : Q db a -> backs (mret a) db Q.
Proof. done. Qed.

Lemma serializer_lift {A} (p : export A) db (Q : database -> A -> Prop) :
  proves p (fun _ a => Q db a) -> backs (in_serializer p) db Q.
Proof.
  intros Hp.
  eapply (awp_lift _ (fun B => @export_answers _ _ B) _ (fun _ => tt) (fun _ w => w)); try done.
  - by intros [].
  - intros C c w b w' [-> Hb]. by exists tt.
Qed.

Lemma backs_serializer {A B} (p : export A) (f : A -> backup B) db Q :
  proves p (fun _ a => backs (f a) db Q) -> backs (in_serializer p ≫= f) db Q.
Proof. intros Hp. by apply awp_bind, serializer_lift. Qed.

(** ** Groups in the database *)

Definition keyed_groups (db : database) : Prop :=
  map_Forall (fun id r => field r "id" = VText id) (db_groups db).

Definition groups_of (db : database) : gmap QString ConnectionGroup :=
  groupFromQuery <$> db_groups db.

(** A group with the dates it is stored with. *)
Definition stored_group (g g' : ConnectionGroup) : Prop := exists createdAt now,
  (isValid (grp_createdAt g) = true -> createdAt = grp_createdAt g) /\
  g' = restored_group
    (mkConnectionGroup (grp_id g) (grp_name g) (grp_sortOrder g) createdAt now).

Definition group_fits (g : ConnectionGroup) : Prop :=
  grp_id g <> [] /\ - 2 ^ 31 <= grp_sortOrder g < 2 ^ 31 /\ date_fits (grp_createdAt g).

Definition database_failed (e : AppError) : Prop :=
  ae_code e = App_StorageError \/ ae_code e = App_FileNotFound.

Definition group_columns : list string :=
  ["id"; "name"; "sort_order"; "created_at"; "updated_at"]%string.

Lemma groupFromQuery_bound r g :
  - 2 ^ 31 <= grp_sortOrder g < 2 ^ 31 -> date_fits (grp_createdAt g) ->
  date_fits (grp_updatedAt g) ->
  Forall (fun key => field r key = field (bindGroup g) key) group_columns ->
  groupFromQuery r = restored_group g.
Proof.
  intros Ho Hc Hu Hr. unfold groupFromQuery, text_field, group_columns in *.
  rewrite !Forall_cons in Hr. destruct Hr as (-> & -> & -> & -> & -> & _).
  unfold bindGroup, bindText. rewrite !field_bind. cbn [String.eqb Ascii.eqb Bool.eqb].
  rewrite !variant_toString_text, variant_toInt_integer, !dateFromValue_toValue by done.
  done.
Qed.

Lemma groups_of_insert db id r :
  groups_of (with_table "connection_groups" (<[id := r]> (db_groups db)) db) =
  <[id := groupFromQuery r]> (groups_of db).
Proof. apply fmap_insert. Qed.

Lemma keyed_groups_insert db id r :
  keyed_groups db -> field r "id" = VText id ->
  keyed_groups (with_table "connection_groups" (<[id := r]> (db_groups db)) db).
Proof. intros Hk Hr. by apply map_Forall_insert_2. Qed.

(** After a group was stored, or was not. *)
Definition group_left (g : ConnectionGroup) (db db' : database) (r : Result ConnectionGroup)
    : Prop :=
  db_connections db' = db_connections db /\ keyed_groups db' /\
  if Result_ok r
  then exists g', stored_group g g' /\ groups_of db' = <[grp_id g := g']> (groups_of db)
  else db' = db /\ database_failed (res_error r).

Lemma group_failed g db text :
  keyed_groups db -> group_left g db db (Result_failure no_group (storageError text)).
Proof. intros Hk. split_and!; [done|done|]. rewrite failed_ok. split; [done|by left]. Qed.

Lemma group_written g db r createdAt now result :
  keyed_groups db -> group_fits g -> date_fits createdAt -> hasIsoYear now = true ->
  (isValid (grp_createdAt g) = true -> createdAt = grp_createdAt g) ->
  (forall key, key ∈ group_columns -> field r key = field (bindGroup
     (mkConnectionGroup (grp_id g) (grp_name g) (grp_sortOrder g) createdAt now)) key) ->
  group_left g db (with_table "connection_groups" (<[grp_id g := r]> (db_groups db)) db)
    (Result_success result).
Proof.
  intros Hk (_ & Ho & _) Hc Hn Hcr Hr. set (g1 := mkConnectionGroup _ _ _ _ _) in Hr.
  assert (groupFromQuery r = restored_group g1) as Hq.
  { apply groupFromQuery_bound; try done; [by intros ?|]. by apply Forall_forall. }
  split; [done|]. split.
  - apply keyed_groups_insert; [done|]. rewrite Hr by (by left). done.
  - rewrite success_ok. exists (restored_group g1). rewrite groups_of_insert, Hq.
    split; [by exists createdAt, now|done].
Qed.

Lemma stores_groups_add g db :
  keyed_groups db -> group_fits g -> stores (groups_add g) db (group_left g db).
Proof.
  intros Hk Hf. unfold groups_add. pose proof Hf as (Hid & _ & Hc).
  destruct (grp_id g) as [|x id] eqn:He; [done|]. cbn [isEmpty]. rewrite <- He in *. clear He.
  apply awp_bind, stores_give. apply stores_now. intros now Hv Hy _. cbv zeta.
  apply stores_exec; [by intros; apply group_failed|].
  intros done rows db' _ Hs. cbn [sql_effect] in Hs.
  change (bound_id _) with (grp_id g) in Hs.
  change (table "connection_groups" db) with (db_groups db) in Hs. apply stores_give.
  destruct (db_groups db !! grp_id g); [done|].
  apply (inj Some), (inj2 pair) in Hs as [_ <-].
  eapply group_written; [done|done| |exact Hy| |].
  - instantiate (1 := if isValid (grp_createdAt g) then grp_createdAt g else now).
    destruct (isValid (grp_createdAt g)); [done|by intros ?].
  - by intros ->.
  - intros key Hkey. rewrite <- (right_id_L ∅ (∪) (list_to_map _)), field_assigned.
    by rewrite bool_decide_eq_true_2.
Qed.

Lemma stores_groups_update g db :
  keyed_groups db -> group_fits g -> stores (groups_update g) db (group_left g db).
Proof.
  intros Hk Hf. unfold groups_update. pose proof Hf as (Hid & _ & Hc).
  assert (isEmpty (grp_id g) = false) as -> by by destruct (grp_id g).
  apply stores_now. intros now Hv Hy _. cbv zeta.
  apply stores_exec; [by intros; apply group_failed|].
  intros done rows db' _ Hs. cbn [sql_effect] in Hs.
  change (bound_id _) with (grp_id g) in Hs.
  change (table "connection_groups" db) with (db_groups db) in Hs. apply stores_give.
  destruct (db_groups db !! grp_id g) as [r|] eqn:Hr;
    apply (inj Some), (inj2 pair) in Hs as [[_ <-]%(inj2 pair) <-].
  - change (1 =? 0) with false. cbn iota. eapply group_written; [done|done|exact Hc|exact Hy|done|].
    intros key Hkey. rewrite field_assigned. case_bool_decide as Hin; [done|].
    assert (key = "id"%string) as ->.
    { unfold group_columns in Hkey. apply elem_of_cons in Hkey as [->|Hkey]; done. }
    by apply (Hk (grp_id g)).
  - change (0 =? 0) with true. cbn iota. split_and!; [done|done|].
    change (Result_ok _) with false. split; [done|by right].
Qed.

(** ** Storing what was read *)

(** A connection with the dates it is stored with. *)
Definition stored_connection (c c' : SavedConnection) : Prop := exists createdAt now,
  (isValid (svc_createdAt c) = true -> createdAt = svc_createdAt c) /\
  c' = as_read (dated (id_of c) createdAt now c).

Definition connection_fits (c : SavedConnection) : Prop :=
  id_of c <> [] /\ store_op_fits (StoreAdd c).

(** All of a list are stored, or those before the one that could not be. *)
Definition all_stored {A} (key : A -> QString) (comes : A -> A -> Prop) (l : list A)
    (m m' : gmap QString A) (r : Result bool) : Prop :=
  if Result_ok r then stored_all key comes l m m'
  else database_failed (res_error r) /\
    exists stored rest, l = stored ++ rest /\ stored_all key comes stored m m'.

Lemma all_stored_next {A} (key : A -> QString) (comes : A -> A -> Prop) a a' l m m' r :
  comes a a' -> all_stored key comes l (<[key a := a']> m) m' r ->
  all_stored key comes (a :: l) m m' r.
Proof.
  unfold all_stored. intros Ha. destruct (Result_ok r); [by econstructor|].
  intros [He (stored & rest & -> & Hs)]. split; [done|]. exists (a :: stored), rest.
  split; [done|by econstructor].
Qed.

Lemma all_stored_failed {A B} (key : A -> QString) (comes : A -> A -> Prop) l m
    (saved : Result B) :
  Result_ok saved = false -> database_failed (res_error saved) ->
  all_stored key comes l m m (Result_failure false (res_error saved)).
Proof.
  intros Hok He. unfold all_stored. rewrite failure_ok, Hok. split; [done|].
  exists [], l. split; [done|constructor].
Qed.

Lemma backs_groups_loop existing gs db (Q : database -> Result bool -> Prop) :
  keyed_groups db -> Forall group_fits gs ->
  (forall db' r, db_connections db' = db_connections db -> keyed_groups db' ->
     all_stored grp_id stored_group gs (groups_of db) (groups_of db') r -> Q db' r) ->
  backs (persistGroups_loop existing gs) db Q.
Proof.
  intros Hk Hg. revert db Hk. induction Hg as [|g gs Hg _ IH]; intros db Hk HQ.
  { by apply HQ; [..|constructor]. }
  cbn [persistGroups_loop]. apply backs_storage.
  eapply awp_mono with (Q := group_left g db);
    [by destruct (bool_decide _); [apply stores_groups_update|apply stores_groups_add]|].
  intros db1 saved (Hc & Hk1 & Hs). destruct (Result_ok saved) eqn:Hok; cbn [negb].
  - destruct Hs as (g' & Hg' & He). apply IH; [done|]. intros db' r Hc' Hk' Ha.
    apply HQ; [congruence|done|]. rewrite He in Ha. by eapply all_stored_next.
  - destruct Hs as [-> He]. apply HQ; [done..|]. by apply all_stored_failed.
Qed.

Lemma backs_groups gs db (Q : database -> Result bool -> Prop) :
  keyed_groups db -> Forall group_fits gs ->
  (forall db' r, db_connections db' = db_connections db -> keyed_groups db' ->
     all_stored grp_id stored_group gs (groups_of db) (groups_of db') r -> Q db' r) ->
  backs (persistGroups gs) db Q.
Proof.
  intros Hk Hg HQ. apply backs_storage, stores_exec.
  - intros text. apply HQ; [done..|]. apply all_stored_failed; [done|by left].
  - intros done rows db' _ [= _ _ <-]. by apply backs_groups_loop.
Qed.

(** A connection that is added or updated. *)
Lemma stores_save (replace : bool) c db :
  keyed db -> connection_fits c ->
  stores (if replace then repository_update c else repository_add c) db (fun db' r =>
    keyed db' /\ db_groups db' = db_groups db /\
    if Result_ok r
    then exists c', stored_connection c c' /\ store_of db' = <[id_of c := c']> (store_of db)
    else db' = db /\ database_failed (res_error r)).
Proof.
  intros Hk [Hid Hf]. destruct replace.
  - eapply awp_mono; [by apply stores_update|]. intros db' r (Hk' & Hg & _ & Hr).
    split_and!; [done..|]. destruct (Result_ok r); [|by destruct Hr as [-> [?|[? _]]]; split; [|left|..|right]].
    destruct Hr as (now & _ & -> & _ & Hs). eexists. split; [|exact Hs].
    by exists (svc_createdAt c), now.
  - eapply awp_mono; [by apply stores_add|]. intros db' r (Hk' & Hg & _ & Hr).
    split_and!; [done..|]. destruct (Result_ok r); [|by destruct Hr as [-> [?|[? _]]]; split; [|left|..|right]].
    destruct Hr as (id & now & _ & [Hno|<-] & -> & _ & Hs); [done|]. eexists. split; [|exact Hs].
    eexists _, now. split; [|done]. by intros ->.
Qed.

Lemma backs_connections ids policy cs db (Q : database -> Result bool -> Prop) :
  keyed db -> Forall connection_fits cs ->
  (forall db' r, db_groups db' = db_groups db -> keyed db' ->
     all_stored id_of stored_connection cs (store_of db) (store_of db') r -> Q db' r) ->
  backs (persistConnections cs ids policy) db Q.
Proof.
  intros Hk Hc. revert db Hk. induction Hc as [|c cs Hc _ IH]; intros db Hk HQ.
  { by apply HQ; [..|constructor]. }
  cbn [persistConnections]. apply backs_storage.
  eapply awp_mono; [by apply stores_save|]. intros db1 saved (Hk1 & Hg & Hs).
  destruct (Result_ok saved) eqn:Hok; cbn [negb].
  - destruct Hs as (c' & Hc' & He). apply IH; [done|]. intros db' r Hg' Hk' Ha.
    apply HQ; [congruence|done|]. rewrite He in Ha. by eapply all_stored_next.
  - destruct Hs as [-> He]. apply HQ; [done..|]. by apply all_stored_failed.
Qed.

(** ** Reading a document *)

(** The connections of a document that are kept. *)
Definition wanted (policy : DuplicatePolicy) (ids : gset QString) (id : QString) : Prop :=
  policy = DuplicatePolicy_Replace \/ id ∉ ids.
#[global] Instance wanted_dec policy ids id : Decision (wanted policy ids id).
Proof. unfold wanted. apply _. Defined.

Lemma import_loop_wanted policy ids0 cs objects index ids r (Q : unit -> ImportResult -> Prop) :
  policy <> DuplicatePolicy_CreateCopy ->
  Forall portable cs -> Forall2 exported cs objects ->
  Forall (fun c => id_of c <> []) cs -> NoDup (id_of <$> cs) ->
  Forall (fun c => id_of c ∈ ids <-> id_of c ∈ ids0) cs ->
  (forall skipped, Q tt (mkImportResult
     (imr_connections r ++ (restored <$> filter (fun c => wanted policy ids0 (id_of c)) cs))
     (imr_groups r) (imr_errors r) skipped)) ->
  proves (import_loop (JObject <$> objects) index policy ids r) Q.
Proof.
  intros Hpol Hp Hx. revert index ids r. induction Hx as [|c o cs objects Hx _ IH];
    intros index ids r Hne Hd Hids HQ.
  { cbn in HQ |- *. rewrite app_nil_r in HQ. specialize (HQ (imr_skippedDuplicates r)). by destruct r. }
  inversion_clear Hp as [|? ? Hc Hp']. inversion_clear Hne as [|? ? Hn Hne'].
  rewrite fmap_cons, NoDup_cons in Hd. destruct Hd as [Hnot Hd].
  inversion_clear Hids as [|? ? Hi Hids']. cbn [fmap list_fmap import_loop].
  rewrite (connection_back c o) by done. cbn [res_value Result_success Result_ok res_error].
  change (negb (negb (hasError noError))) with false. cbn [negb].
  change (con_id (svc_connection (restored c))) with (id_of c).
  assert (negb (isEmpty (id_of c)) = true) as -> by by destruct (id_of c). cbn [andb].
  assert (Forall (fun d => id_of d ∈ ({[id_of c]} ∪ ids : gset QString) <-> id_of d ∈ ids0) cs)
    as Hgrown.
  { apply Forall_forall. intros d Hd'. rewrite elem_of_union, elem_of_singleton.
    rewrite (proj1 (Forall_forall _ _) Hids' d Hd'). split; [|by right].
    intros [He|He]; [|done]. destruct Hnot. rewrite <- He. by apply list_elem_of_fmap_2. }
  assert (wanted policy ids0 (id_of c) ->
    proves (import_loop (JObject <$> objects) (index + 1) policy ({[id_of c]} ∪ ids)
      (with_connection_added (restored c) r)) Q) as Hkeep.
  { intros Hw. rewrite filter_cons_True in HQ by done. apply IH; [done..|].
    intros skipped. cbn. rewrite <- app_assoc. apply HQ. }
  case_bool_decide as Hin; [|apply Hkeep; right; by rewrite <- Hi].
  destruct policy; [|by apply Hkeep; left|done].
  rewrite filter_cons_False in HQ by (intros [?|Hno]; [done|by apply Hno, Hi]).
  apply IH; done.
Qed.

Lemma import_wanted data cs gs policy ids (Q : unit -> Result ImportResult -> Prop) :
  policy <> DuplicatePolicy_CreateCopy ->
  document_of data [] cs gs -> Forall portable cs -> Forall portable_group gs ->
  Forall (fun c => id_of c <> []) cs -> NoDup (id_of <$> cs) ->
  (forall skipped, Q tt (Result_success (mkImportResult
     (restored <$> filter (fun c => wanted policy ids (id_of c)) cs)
     (restored_group <$> gs) [] skipped))) ->
  proves (importConnections 2 data (mkImportOptions policy ids [])) Q.
Proof.
  intros Hpol (root & Hd & [(at_ & objects & -> & Hx)|[? _]]) Hc Hg Hne Hdup HQ; [|done].
  cbn [importConnections]. rewrite Hd.
  destruct (root_fields at_ (JObject <$> objects)
    ((fun g => JObject (groupToJson g)) <$> gs)) as (-> & -> & -> & ->).
  rewrite (bool_decide_eq_false_2 (plainExportSchema = encryptedExportSchema))
    by (by intros He%QStringLiteral_inj).
  rewrite (bool_decide_eq_true_2 (plainExportSchema = plainExportSchema)) by done.
  rewrite Z.eqb_refl. cbn [negb orb]. rewrite groups_back by done. apply awp_bind.
  eapply import_loop_wanted; [done..| |]; [by apply Forall_true|].
  intros skipped. apply HQ.
Qed.

(** ** From one database to another *)

(** A connection or a group that went through a document into a database: with the
    dates of the day, without its secret and the path it opens at. *)
Definition backed_up (c c' : SavedConnection) : Prop := stored_connection (restored c) c'.
Definition backed_up_group (g g' : ConnectionGroup) : Prop :=
  stored_group (restored_group g) g'.

(** A database whose connections and groups a document can hold. *)
Record well_kept (db : database) : Prop := mkWellKept {
  wk_keyed : keyed db;
  wk_keyed_groups : keyed_groups db;
  wk_connections : map_Forall (fun id c => id <> [] /\ portable c) (store_of db);
  wk_groups : map_Forall (fun id g => id <> [] /\ portable_group g) (groups_of db)
}.

Lemma groups_id db id g : keyed_groups db -> groups_of db !! id = Some g -> grp_id g = id.
Proof.
  intros Hk. unfold groups_of. rewrite lookup_fmap.
  destruct (db_groups db !! id) as [r|] eqn:Hr; [|done].
  intros [= <-]. cbn. unfold text_field. rewrite (Hk _ _ Hr). apply variant_toString_text.
Qed.

Lemma map_values_Forall {A} (m : gmap QString A) (P : A -> Prop) l :
  l ≡ₚ (map_to_list m).*2 -> map_Forall (fun _ a => P a) m -> Forall P l.
Proof.
  intros -> Hm. apply Forall_forall. intros a ([k b] & -> & Hb%elem_of_map_to_list)%list_elem_of_fmap.
  by eapply Hm.
Qed.

Lemma map_values_NoDup {A} (key : A -> QString) (m : gmap QString A) l :
  l ≡ₚ (map_to_list m).*2 -> (forall k a, m !! k = Some a -> key a = k) -> NoDup (key <$> l).
Proof.
  intros -> Hkey. rewrite <- list_fmap_compose.
  rewrite (list_fmap_ext _ fst (map_to_list m)); [apply NoDup_fst_map_to_list|].
  intros i [k a] Hi. apply Hkey, elem_of_map_to_list. by eapply list_elem_of_lookup_2.
Qed.

Lemma date_back_fits d : date_fits d -> date_fits (date_back d).
Proof.
  unfold date_fits, date_back. intros Hd. destruct (isValid d) eqn:Hv.
  - intros _. rewrite hasIsoYear_inUtc. by apply Hd.
  - by rewrite isValid_null.
Qed.

Lemma restored_fits c : id_of c <> [] -> portable c -> connection_fits (restored c).
Proof.
  intros Hid [_ Hd _]. rewrite !Forall_cons in Hd. destruct Hd as (? & ? & _ & ? & _).
  split; [exact Hid|]. cbn. split_and!; by apply date_back_fits.
Qed.

Lemma restored_group_fits g : grp_id g <> [] -> portable_group g -> group_fits (restored_group g).
Proof. intros Hid [_ Ho [Hc _]]. split; [exact Hid|]. split; [exact Ho|by apply date_back_fits]. Qed.

(** A document of a database. *)
Definition document_of_database (data : bytes) (db : database) : Prop := exists cs gs,
  cs ≡ₚ (map_to_list (store_of db)).*2 /\ gs ≡ₚ (map_to_list (groups_of db)).*2 /\
  document_of data [] cs gs.

Lemma backs_export request db :
  well_kept db ->
  backs (backup_export request) db (fun db' r =>
    db' = db /\ (Result_ok r = true -> document_of_database (res_value r) db)).
Proof.
  intros [Hk Hkg Hc Hg]. apply backs_storage.
  eapply awp_mono; [by apply stores_list|]. intros db1 r (_ & _ & -> & Hr); [|done].
  destruct (Result_ok r) eqn:Hok; cbn [negb].
  2: { split; [done|]. rewrite failure_ok, Hok. done. }
  destruct Hr as [Hp _]. apply backs_storage, stores_exec; [by split|].
  intros executed rows db' Hrows [= <- _ <-]. apply stores_give.
  change (negb (Result_ok (Result_success _))) with false. cbn iota.
  assert (groupFromQuery <$> exe_rows executed ≡ₚ (map_to_list (groups_of db)).*2) as Hgp.
  { rewrite Hrows. unfold groups_of. by rewrite map_to_list_fmap, <- !list_fmap_compose. }
  apply serializer_lift. eapply awp_mono.
  { apply awp_export; cbn [xpl_connections xpl_groups].
    - eapply map_values_Forall; [exact Hp|]. intros id c Hi. by apply (Hc id).
    - eapply map_values_Forall; [exact Hgp|]. intros id g Hi. by apply (Hg id). }
  intros w r' [_ Hr']. split; [done|]. intros Hok'. eexists _, _.
  split; [exact Hp|]. split; [exact Hgp|]. by apply Hr'.
Qed.

(** What an import leaves in the database it goes to: if it fails, part of it may have
    been stored. *)
Definition import_left (policy : DuplicatePolicy) (db1 db db' : database)
    (r : Result ImportResult) : Prop :=
  let which := wanted policy (dom (store_of db)) in
  if Result_ok r
  then imr_errors (res_value r) = [] /\
    merged backed_up which (store_of db1) (store_of db) (store_of db') /\
    merged backed_up_group (fun _ => True) (groups_of db1) (groups_of db) (groups_of db')
  else database_failed (res_error r) /\
    (forall id, store_of db1 !! id = None \/ ~ which id -> store_of db' !! id = store_of db !! id) /\
    (forall id, groups_of db1 !! id = None -> groups_of db' !! id = groups_of db !! id).

Lemma all_stored_outside {A} (key : A -> QString) comes l m m' r k :
  all_stored key comes l m m' r -> k ∉ key <$> l -> m' !! k = m !! k.
Proof.
  unfold all_stored. intros Ha Hk. destruct (Result_ok r).
  - by eapply stored_all_other.
  - destruct Ha as [_ (stored & rest & -> & Hs)]. eapply stored_all_other; [exact Hs|].
    rewrite fmap_app, not_elem_of_app in Hk. tauto.
Qed.

Lemma outside_connections db cs policy ids k :
  keyed db -> cs ≡ₚ (map_to_list (store_of db)).*2 ->
  store_of db !! k = None \/ ~ wanted policy ids k ->
  k ∉ id_of <$> (restored <$> filter (fun c => wanted policy ids (id_of c)) cs).
Proof.
  intros Hk Hp Hno. rewrite <- list_fmap_compose, list_elem_of_fmap.
  intros (c & -> & (Hw & Hin)%list_elem_of_filter).
  rewrite Hp in Hin. apply list_elem_of_fmap in Hin as ([k d] & -> & Hd%elem_of_map_to_list).
  cbn in *. change (id_of (restored d)) with (id_of d) in Hno.
  rewrite (keyed_id _ _ _ Hk Hd : id_of d = k) in Hw, Hno. destruct Hno; [congruence|done].
Qed.

Lemma outside_groups db gs k :
  keyed_groups db -> gs ≡ₚ (map_to_list (groups_of db)).*2 -> groups_of db !! k = None ->
  k ∉ grp_id <$> (restored_group <$> gs).
Proof.
  intros Hk Hp Hno. rewrite <- list_fmap_compose, Hp, list_elem_of_fmap.
  intros (g & -> & Hin). apply list_elem_of_fmap in Hin as ([k d] & -> & Hd%elem_of_map_to_list).
  cbn in *. rewrite (groups_id _ _ _ Hk Hd) in Hno. congruence.
Qed.

Lemma backs_import_list (db : database) (f : gset QString -> backup (Result ImportResult))
    (Q : database -> Result ImportResult -> Prop) :
  keyed db ->
  (forall text, Q db (Result_failure no_import (storageError text))) ->
  backs (f (dom (store_of db))) db Q ->
  backs (existing ← in_storage repository_list;
         if negb (Result_ok existing)
         then mret (Result_failure no_import (res_error existing))
         else f (list_to_set (id_of <$> res_value existing))) db Q.
Proof.
  intros Hk Hfail Hf. apply backs_storage, stores_exec; [by apply Hfail|].
  intros executed rows db' Hrows [= <- _ <-]. apply backs_give.
  change (negb (Result_ok (Result_success _))) with false. cbn iota.
  set (ids := list_to_set _). replace ids with (dom (store_of db)); [done|].
  apply set_eq. intros id. unfold ids.
  rewrite elem_of_list_to_set, elem_of_dom. cbn [res_value Result_success].
  assert (connectionFromQuery <$> exe_rows executed ≡ₚ (map_to_list (store_of db)).*2) as ->.
  { rewrite Hrows. unfold store_of. by rewrite map_to_list_fmap, <- !list_fmap_compose. }
  rewrite <- list_fmap_compose, list_elem_of_fmap. split.
  - intros [c Hc]. exists (id, c). rewrite elem_of_map_to_list. split; [|done].
    symmetry. by apply (keyed_id db).
  - intros ([k c] & -> & Hc%elem_of_map_to_list). exists c.
    change (store_of db !! con_id (svc_connection c) = Some c).
    by rewrite (keyed_id db k c).
Qed.

Lemma import_left_failed policy db1 db e :
  database_failed e -> hasError e = true ->
  import_left policy db1 db db (Result_failure no_import e).
Proof.
  intros He Hh. unfold import_left, Result_ok. cbn [res_error Result_failure]. by rewrite Hh.
Qed.

Lemma backs_import policy data db1 db :
  policy <> DuplicatePolicy_CreateCopy -> well_kept db1 -> keyed db -> keyed_groups db ->
  document_of_database data db1 ->
  backs (backup_import data policy) db (import_left policy db1 db).
Proof.
  intros Hpol [Hk1 Hkg1 Hc1 Hg1] Hk Hkg (cs & gs & Hcs & Hgs & Hdoc).
  assert (Forall (fun c => id_of c <> [] /\ portable c) cs) as Hc.
  { eapply map_values_Forall; [exact Hcs|]. intros id c Hi.
    rewrite (keyed_id _ _ _ Hk1 Hi : id_of c = id). by apply Hc1. }
  assert (Forall (fun g => grp_id g <> [] /\ portable_group g) gs) as Hg.
  { eapply map_values_Forall; [exact Hgs|]. intros id g Hi.
    rewrite (groups_id _ _ _ Hkg1 Hi). by apply Hg1. }
  assert (NoDup (id_of <$> cs)) as Hdup by by
    (apply (map_values_NoDup id_of (store_of db1)); [done|intros k c; by apply (keyed_id db1)]).
  unfold backup_import.
  apply (backs_import_list db (import_and_persist data policy)); [done|..].
  { intros text. apply import_left_failed; [by left|done]. }
  unfold import_and_persist. apply backs_serializer. apply Forall_and in Hc as [Hne Hpt]. apply Forall_and in Hg as [Hgne Hgp].
  eapply import_wanted; [done..|]. intros skipped.
  change (negb (Result_ok (Result_success _))) with false. cbn iota. cbn [res_value Result_success].
  set (kept := restored <$> filter _ cs). cbn [imr_groups imr_connections].
  assert (Forall group_fits (restored_group <$> gs)) as Hgf.
  { apply Forall_fmap, Forall_forall. intros g Hin. rewrite Forall_forall in Hgne, Hgp.
    apply restored_group_fits; auto. }
  assert (Forall connection_fits kept) as Hcf.
  { apply Forall_fmap, Forall_forall. intros c [_ Hin]%list_elem_of_filter.
    rewrite Forall_forall in Hne, Hpt. apply restored_fits; auto. }
  apply awp_bind, backs_groups; [done..|]. intros dbg persisted Hcg Hkg' Hsg.
  assert (store_of dbg = store_of db) as Hsame by (unfold store_of; by rewrite Hcg).
  assert (forall id, groups_of db1 !! id = None -> groups_of dbg !! id = groups_of db !! id) as Hog.
  { intros id Hno. eapply all_stored_outside; [exact Hsg|]. by apply (outside_groups db1). }
  destruct (Result_ok persisted) eqn:Hokg; cbn [negb].
  2: { apply backs_give. unfold import_left, all_stored in *. rewrite Hokg in Hsg. rewrite failure_ok, Hokg.
       split; [apply Hsg|]. split; [by intros; rewrite Hsame|exact Hog]. }
  apply awp_bind, backs_connections; [by unfold keyed; rewrite Hcg|done|].
  intros db2 saved Hgr _ Hsc. rewrite Hsame in Hsc.
  assert (groups_of db2 = groups_of dbg) as Hsame2 by (unfold groups_of; by rewrite Hgr).
  destruct (Result_ok saved) eqn:Hokc; cbn [negb]; apply backs_give; unfold import_left.
  2: { rewrite failure_ok, Hokc. split; [unfold all_stored in Hsc; rewrite Hokc in Hsc; apply Hsc|].
       split; [|by intros; rewrite Hsame2; apply Hog].
       intros id Hno. eapply all_stored_outside; [exact Hsc|]. by apply (outside_connections db1). }
  rewrite success_ok. split; [done|]. unfold all_stored in *. rewrite Hokc in Hsc. rewrite Hokg in Hsg.
  split.
  - eapply (stored_all_merged id_of _ stored_connection _ restored); [|done..|exact Hcs|exact Hsc].
    intros k c. by apply keyed_id.
  - rewrite Hsame2. eapply (stored_all_merged grp_id _ stored_group _ restored_group);
      [|done..|exact Hgs|].
    + intros k g. by apply groups_id.
    + assert (filter (fun _ : ConnectionGroup => True) gs = gs) as ->; [|exact Hsg].
      clear. induction gs as [|g gs IH]; [done|]. by rewrite filter_cons_True, IH.
Qed.
(** What has come back has neither a secret nor a path to open at: what it replaces
    loses its own. *)
Lemma backed_up_secret c c' :
  backed_up c c' -> svc_credentialRef c' = [] /\ svc_initialRemotePath c' = [].
Proof. by intros (createdAt & now & _ & ->). Qed.

(** C17: A backup can be restored. Take a database whose connections and groups a
    document can hold, and a document that was exported from it; the export has left
    the database alone. Then an import of the document into any database, where ids
    that are taken are skipped or replaced, ends. If it succeeds, there were no
    errors, and the other database has every connection of the first, as it was
    stored there but for its secret, the path it opens at and the date of the update;
    those that are skipped, and those of which the document knows nothing, are as
    they were; and it has every group. If it fails, then because the database failed,
    and it has changed nothing that it would not have changed with success. *)
Theorem backup_restores request policy db1 written db1' db o db' :
  policy <> DuplicatePolicy_CreateCopy -> well_kept db1 -> keyed db -> keyed_groups db ->
  asks (fun B => @backup_answers B) (backup_export request) db1 (Some written) db1' ->
  Result_ok written = true ->
  asks (fun B => @backup_answers B) (backup_import (res_value written) policy) db o db' ->
  db1' = db1 /\ exists r, o = Some r /\ import_left policy db1 db db' r.
Proof.
  intros Hp Hw Hk Hg Hx Hok Hi. eapply awp_runs in Hx; [|by apply backs_export].
  destruct Hx as [-> Hd]. split; [done|].
  eapply awp_runs in Hi; [|by apply (backs_import policy _ db1); auto].
  destruct o as [r|]; [|done]. by exists r.
Qed.

End backup_runs.

(** ** Two databases *)

#[local] Existing Instances sample_url sample_json sample_json_laws sample_sodium
  sample_sodium_laws sample_sql sample_sql_laws.

Definition backup_serve {B : Set} (c : backup_call B) : database -> option (B * database) :=
  match c in backup_call B return database -> option (B * database) with
  | OfStorage c => db_serve c
  | OfSerializer c => fun db => '(b, _) ← export_serve c tt; Some (b, db)
  end.

Lemma backup_serve_answers (B : Set) (c : backup_call B) db b db' :
  backup_serve c db = Some (b, db') -> backup_answers c db b db'.
Proof.
  destruct c as [B c|B c]; cbn [backup_serve backup_answers]; [apply db_serve_answers|].
  destruct (export_serve c tt) as [[b0 []]|] eqn:He; [|done]. intros [= <- <-].
  split; [done|]. by apply export_serve_answers.
Qed.

(** A database with one connection, in the group "g". *)
Definition lab_row : row := bindConnection lab.
Definition group_row : row :=
  bindGroup (mkConnectionGroup (QStringLiteral "g") (QStringLiteral "G") 1 7 9).
Definition lab_db : database :=
  mkDatabase {[QStringLiteral "c1" := lab_row]} {[QStringLiteral "g" := group_row]}.

Lemma lab_well_kept : well_kept lab_db.
Proof.
  split.
  - by apply map_Forall_singleton.
  - by apply map_Forall_singleton.
  - unfold store_of, lab_db. cbn [db_connections]. rewrite map_fmap_singleton.
    apply map_Forall_singleton. split; [done|].
    split; [by repeat constructor..|]. by vm_compute.
  - unfold groups_of, lab_db. cbn [db_groups]. rewrite map_fmap_singleton.
    apply map_Forall_singleton. split; [done|]. repeat constructor; by vm_compute.
Qed.

Definition lab_request : ExportConnectionsRequest := mkExportConnectionsRequest false false.

Lemma run_backup : exists written r db',
  run_asking (fun B => @backup_serve B) (backup_export lab_request) lab_db
    = Some (Some written, lab_db) /\
  Result_ok written = true /\
  run_asking (fun B => @backup_serve B)
    (backup_import (res_value written) DuplicatePolicy_Skip) no_rows = Some (Some r, db') /\
  Result_ok r = true.
Proof.
  assert (match run_asking (fun B => @backup_serve B) (backup_export lab_request) lab_db with
    | Some (Some written, db) => bool_decide (db_connections db = db_connections lab_db)
        && bool_decide (db_groups db = db_groups lab_db) && Result_ok written &&
        match run_asking (fun B => @backup_serve B)
          (backup_import (res_value written) DuplicatePolicy_Skip) no_rows with
        | Some (Some r, _) => Result_ok r | _ => false end
    | _ => false end = true) as Hr by by vm_compute.
  destruct (run_asking _ (backup_export _) _) as [[[written|] [c g]]|]; try done.
  destruct (run_asking _ (backup_import _ _) _) as [[[r|] db']|] eqn:Hi;
    rewrite ?andb_false_r in Hr; try done.
  apply andb_prop in Hr as [[[Hc%bool_decide_eq_true Hg%bool_decide_eq_true]%andb_prop Hw]%andb_prop Hr].
  cbn in Hc, Hg. subst c g. by exists written, r, db'.
Qed.

Lemma backup_restores_witness : exists written r db',
  run_asking (fun B => @backup_serve B) (backup_export lab_request) lab_db
    = Some (Some written, lab_db) /\
  run_asking (fun B => @backup_serve B)
    (backup_import (res_value written) DuplicatePolicy_Skip) no_rows = Some (Some r, db') /\
  exists c', store_of db' !! QStringLiteral "c1" = Some c' /\
    backed_up (connectionFromQuery lab_row) c'.
Proof.
  destruct run_backup as (written & r & db' & Hx & Hok & Hi & Hr).
  exists written, r, db'. split; [exact Hx|]. split; [exact Hi|].
  pose proof (run_runs (fun B => backup_answers (B:=B)) (fun B => @backup_serve B) _ _ _ _
                backup_serve_answers Hx) as Hx'.
  pose proof (run_runs (fun B => backup_answers (B:=B)) (fun B => @backup_serve B) _ _ _ _
                backup_serve_answers Hi) as Hi'.
  apply (backup_restores lab_request DuplicatePolicy_Skip lab_db written lab_db no_rows (Some r) db')
    in Hi'; [|done|exact lab_well_kept|done|done|exact Hx'|exact Hok].
  destruct Hi' as (_ & r' & [= <-] & Hl). unfold import_left in Hl. rewrite Hr in Hl.
  destruct Hl as (_ & [Hc _] & _). apply (Hc (QStringLiteral "c1")).
  - unfold store_of, lab_db. cbn [db_connections]. by rewrite map_fmap_singleton, lookup_singleton_eq.
  - right. unfold store_of, no_rows. cbn [db_connections]. rewrite fmap_empty, dom_empty_L.
    apply not_elem_of_empty.
Defined.
