(* ===== verification/Settings.v ===== *)
(** * The database file and settings ([SqliteStorage.cpp], [core/Settings.cpp],
    [SettingsRepository.cpp], [SettingsService.cpp])

    Opening the SQLite database of the program, its tables, and transactions.  As in
    Repository.v a statement is data, with the values bound to its placeholders; the
    names of the connections of [QSqlDatabase] are left out, because the program has
    one.  The settings are the rows of a table, written in one transaction. *)

From stdpp Require Import gmap strings.
From S2P Require Export Repository.
Local Open Scope Z_scope.

(** * The database file *)

(** A column with its type and constraints, and what the statements say beside. *)
Inductive sql_statement : Set :=
| ForeignKeysOn
| CreateTableIfNotExists (table : string) (columns : list (string * string))
    (constraints : list string)
| CreateIndexIfNotExists (name table column : string)
| InsertOrIgnore (table : string) (assignments : list (string * assigned))
| UpsertByKey (table : string) (columns updated : list string)
| SelectColumns (table : string) (columns : list string).

(** [open], [transaction] and [commit] give the text of [lastError] if they fail. *)
Inductive sqlite_call `{Qt} : Set -> Type :=
| OpenDatabase (databasePath : QString) : sqlite_call (option QString)
| HasConnection : sqlite_call bool
| DatabaseIsOpen : sqlite_call bool
| CloseDatabase : sqlite_call unit
| RemoveConnection : sqlite_call unit
| BeginTransaction : sqlite_call (option QString)
| CommitTransaction : sqlite_call (option QString)
| RollbackTransaction : sqlite_call unit
| Perform (s : sql_statement) (bindings : row) : sqlite_call (QString + list row)
| TimeNow : sqlite_call QDateTime.
Abbreviation sqlite := (asking sqlite_call).

Section sqlite_storage.
Context `{Qt} `{!QtJson}.

Definition timestamp : sqlite QString :=
  now ← ask TimeNow;
  mret (toIsoUtc now).

Definition execute (s : sql_statement) (bindings : row) : sqlite AppError :=
  performed ← ask (Perform s bindings);
  mret match performed with inl text => storageError text | inr _ => noError end.

(** The member [m_open] goes in and out. *)
Definition sqlite_open (m_open : bool) (databasePath : QString) : sqlite (AppError * bool) :=
  if m_open then mret (noError, m_open) else
  opened ← ask (OpenDatabase databasePath);
  match opened with
  | Some text => mret (storageError text, m_open)
  | None =>
      let m_open := true in
      foreignKeysError ← execute ForeignKeysOn ∅;
      mret (foreignKeysError, m_open)
  end.

Definition sqlite_isOpen (m_open : bool) : sqlite bool :=
  if negb m_open then mret false else
  known ← ask HasConnection;
  if negb known then mret false else ask DatabaseIsOpen.

Definition sqlite_destroy : sqlite unit :=
  known ← ask HasConnection;
  if negb known then mret tt else
  open ← ask DatabaseIsOpen;
  (if (open : bool) then ask CloseDatabase else mret tt) ;;
  ask RemoveConnection.

Definition migrations : list sql_statement :=
  [CreateTableIfNotExists "schema_migrations"
     [("version", "INTEGER PRIMARY KEY"); ("applied_at", "TEXT NOT NULL")] [];
   CreateTableIfNotExists "connection_groups"
     [("id", "TEXT PRIMARY KEY"); ("name", "TEXT NOT NULL");
      ("sort_order", "INTEGER NOT NULL DEFAULT 0"); ("created_at", "TEXT NOT NULL");
      ("updated_at", "TEXT NOT NULL")] [];
   CreateTableIfNotExists "connections"
     [("id", "TEXT PRIMARY KEY"); ("name", "TEXT NOT NULL");
      ("input_path", "TEXT NOT NULL"); ("normalized_uri", "TEXT NOT NULL");
      ("server", "TEXT NOT NULL"); ("share", "TEXT NOT NULL");
      ("initial_remote_path", "TEXT NOT NULL DEFAULT ''");
      ("domain", "TEXT NOT NULL DEFAULT ''"); ("username", "TEXT NOT NULL DEFAULT ''");
      ("auth_type", "TEXT NOT NULL"); ("credential_ref", "TEXT NOT NULL DEFAULT ''");
      ("comment", "TEXT NOT NULL DEFAULT ''"); ("group_id", "TEXT");
      ("is_favorite", "INTEGER NOT NULL DEFAULT 0"); ("last_opened_at", "TEXT");
      ("created_at", "TEXT NOT NULL"); ("updated_at", "TEXT NOT NULL");
      ("last_error_code", "TEXT NOT NULL DEFAULT 'none'");
      ("last_error_message", "TEXT NOT NULL DEFAULT ''");
      ("last_successful_check_at", "TEXT")]
     ["FOREIGN KEY(group_id) REFERENCES connection_groups(id) ON DELETE SET NULL"];
   CreateIndexIfNotExists "idx_connections_group_id" "connections" "group_id";
   CreateIndexIfNotExists "idx_connections_favorite" "connections" "is_favorite";
   CreateTableIfNotExists "settings"
     [("key", "TEXT PRIMARY KEY"); ("value", "TEXT NOT NULL");
      ("updated_at", "TEXT NOT NULL")] []]%string.

(** The loop over the statements, which ends with the first error. *)
Fixpoint execute_all (statements : list sql_statement) : sqlite AppError :=
  match statements with
  | [] => mret noError
  | statement :: statements =>
      error ← execute statement ∅;
      if hasError error then mret error else execute_all statements
  end.

Definition record_migration (appliedAt : QString) : sqlite AppError :=
  execute
    (InsertOrIgnore "schema_migrations"
       [("version", Literal (VInteger 1)); ("applied_at", Bound)]%string)
    (bindText "applied_at" appliedAt ∅).

(** [rollback] and the error. *)
Definition roll_back (error : AppError) : sqlite AppError :=
  ask RollbackTransaction ;;
  mret error.

Definition commit_or_error : sqlite AppError :=
  committed ← ask CommitTransaction;
  mret match committed with Some text => storageError text | None => noError end.

Definition sqlite_migrate (m_open : bool) : sqlite AppError :=
  isOpen ← sqlite_isOpen m_open;
  if negb isOpen
  then mret (storageError (QStringLiteral "SQLite database is not open.")) else
  begun ← ask BeginTransaction;
  match begun with
  | Some text => mret (storageError text)
  | None =>
      error ← execute_all migrations;
      if hasError error then roll_back error else
      appliedAt ← timestamp;
      error ← record_migration appliedAt;
      if hasError error then roll_back error else commit_or_error
  end.

End sqlite_storage.

(** * Settings *)

(** ** [core/Settings.cpp] *)

Inductive ThemeMode : Set := ThemeMode_System | ThemeMode_Light | ThemeMode_Dark.

Inductive LanguageMode : Set :=
| LanguageMode_System
| LanguageMode_English
| LanguageMode_Russian.

Inductive CredentialStoreMode : Set :=
| CredentialStoreMode_SystemKeychainWithVaultFallback
| CredentialStoreMode_SystemKeychainOnly
| CredentialStoreMode_EncryptedVault.

Record ApplicationSettings : Set := mkApplicationSettings {
  set_themeMode : ThemeMode;
  set_languageMode : LanguageMode;
  set_credentialStoreMode : CredentialStoreMode;
  set_logLevel : QString;
  set_operationTimeoutMs : Z;
  set_cacheRetentionDays : Z;
  set_cacheMaxSizeMb : Z
}.

Definition themeMode_toString (mode : ThemeMode) : QString :=
  QStringLiteral match mode with
  | ThemeMode_System => "system"
  | ThemeMode_Light => "light"
  | ThemeMode_Dark => "dark"
  end.

Definition languageMode_toString (mode : LanguageMode) : QString :=
  QStringLiteral match mode with
  | LanguageMode_System => "system"
  | LanguageMode_English => "english"
  | LanguageMode_Russian => "russian"
  end.

Definition credentialStoreMode_toString (mode : CredentialStoreMode) : QString :=
  QStringLiteral match mode with
  | CredentialStoreMode_SystemKeychainWithVaultFallback =>
      "system_keychain_with_vault_fallback"
  | CredentialStoreMode_SystemKeychainOnly => "system_keychain_only"
  | CredentialStoreMode_EncryptedVault => "encrypted_vault"
  end.

Definition settings_defaults : ApplicationSettings :=
  mkApplicationSettings ThemeMode_System LanguageMode_English
    CredentialStoreMode_SystemKeychainWithVaultFallback (QStringLiteral "info")
    30000 7 512.

(** [QString::number(int)] and [toInt(&ok)]. *)
Class QtNumbers : Type := {
  number : Z -> QString;
  toIntOk : QString -> option Z
}.

Section settings.
Context `{Qt} `{!QtJson} `{!QtSql} `{!QtNumbers}.

(** ** [SettingsRepository] *)

Definition themeModeFromString (value : QString) : ThemeMode :=
  if bool_decide (value = QStringLiteral "light") then ThemeMode_Light else
  if bool_decide (value = QStringLiteral "dark") then ThemeMode_Dark else
  ThemeMode_System.

Definition languageModeFromString (value : QString) : LanguageMode :=
  if bool_decide (value = QStringLiteral "system") then LanguageMode_System else
  if bool_decide (value = QStringLiteral "russian") then LanguageMode_Russian else
  LanguageMode_English.

Definition credentialStoreModeFromString (value : QString) : CredentialStoreMode :=
  if bool_decide (value = QStringLiteral "system_keychain_only")
  then CredentialStoreMode_SystemKeychainOnly else
  if bool_decide (value = QStringLiteral "encrypted_vault")
  then CredentialStoreMode_EncryptedVault else
  CredentialStoreMode_SystemKeychainWithVaultFallback.

Definition intFromString (value : QString) (fallback : Z) : Z :=
  match toIntOk value with Some parsed => parsed | None => fallback end.

Definition upsertSetting (key : string) (value : QString) : sqlite AppError :=
  updatedAt ← timestamp;
  execute (UpsertByKey "settings" ["key"; "value"; "updated_at"]%string
             ["value"; "updated_at"]%string)
    (bindText "updated_at" updatedAt
       (bindText "value" value (bindText "key" (QStringLiteral key) ∅))).

(** The loop over the rows: a later row of a key replaces an earlier one. *)
Fixpoint collect_values (rows : list row) (values : gmap QString QString)
    : gmap QString QString :=
  match rows with
  | [] => values
  | r :: rows => collect_values rows (<[text_field r "key" := text_field r "value"]> values)
  end.

Definition settings_from (values : gmap QString QString) : ApplicationSettings :=
  let value key fallback := default fallback (values !! QStringLiteral key) in
  let settings := settings_defaults in
  mkApplicationSettings
    (themeModeFromString (value "theme_mode"
       (themeMode_toString (set_themeMode settings))))
    (languageModeFromString (value "language_mode"
       (languageMode_toString (set_languageMode settings))))
    (credentialStoreModeFromString (value "credential_store_mode"
       (credentialStoreMode_toString (set_credentialStoreMode settings))))
    (value "log_level" (set_logLevel settings))
    (intFromString (value "operation_timeout_ms" (number (set_operationTimeoutMs settings)))
       (set_operationTimeoutMs settings))
    (intFromString (value "cache_retention_days" (number (set_cacheRetentionDays settings)))
       (set_cacheRetentionDays settings))
    (intFromString (value "cache_max_size_mb" (number (set_cacheMaxSizeMb settings)))
       (set_cacheMaxSizeMb settings))%string.

Definition settings_load : sqlite (Result ApplicationSettings) :=
  performed ← ask (Perform (SelectColumns "settings" ["key"; "value"]%string) ∅);
  mret match performed with
       | inl text => Result_failure settings_defaults (storageError text)
       | inr rows => Result_success (settings_from (collect_values rows ∅))
       end.

(** The [QMap] of the values, in the order of its keys. *)
Definition settings_values (settings : ApplicationSettings) : list (string * QString) :=
  [("cache_max_size_mb", number (set_cacheMaxSizeMb settings));
   ("cache_retention_days", number (set_cacheRetentionDays settings));
   ("credential_store_mode", credentialStoreMode_toString (set_credentialStoreMode settings));
   ("language_mode", languageMode_toString (set_languageMode settings));
   ("log_level", set_logLevel settings);
   ("operation_timeout_ms", number (set_operationTimeoutMs settings));
   ("theme_mode", themeMode_toString (set_themeMode settings))]%string.

Fixpoint upsert_all (values : list (string * QString)) : sqlite AppError :=
  match values with
  | [] => mret noError
  | (key, value) :: values =>
      error ← upsertSetting key value;
      if hasError error then mret error else upsert_all values
  end.

Definition settings_save (settings : ApplicationSettings) : sqlite (Result bool) :=
  begun ← ask BeginTransaction;
  match begun with
  | Some text => mret (Result_failure false (storageError text))
  | None =>
      error ← upsert_all (settings_values settings);
      if hasError error then
        error ← roll_back error;
        mret (Result_failure false error)
      else
      error ← commit_or_error;
      if hasError error then mret (Result_failure false error)
      else mret (Result_success true)
  end.

(** ** [SettingsService] *)

Definition loadSettings : sqlite (Result ApplicationSettings) := settings_load.
Definition saveSettings (settings : ApplicationSettings) : sqlite (Result bool) :=
  settings_save settings.

End settings.
