(* ===== verification/SettingsRuns.v ===== *)
(** * Transactions, migrations and settings ([SqliteStorage.cpp],
    [SettingsRepository.cpp])

    A database file with transactions, over which a migration and a change of the
    settings are done as a whole or not at all, and settings that were saved are
    loaded. *)

From Stdlib Require Import DecimalString DecimalZ.
From S2P Require Export Settings RepositoryRuns.
Local Open Scope Z_scope.

(** ** A database file *)

(** The tables and indexes that exist, the migrations that were recorded, and the
    settings. *)
Record content : Set := mkContent {
  ct_tables : gset string;
  ct_indexes : gset string;
  ct_versions : gset Z;
  ct_settings : gmap QString QString
}.

(** What is in the file, and what is seen in a transaction that is open. *)
Record sqlite_file : Set := mkSqliteFile {
  sf_committed : content;
  sf_transaction : option content
}.

Definition seen (w : sqlite_file) : content := default (sf_committed w) (sf_transaction w).
Definition outside (w : sqlite_file) : sqlite_file := mkSqliteFile (sf_committed w) None.
Definition seeing (c : content) (w : sqlite_file) : sqlite_file :=
  match sf_transaction w with
  | Some _ => mkSqliteFile (sf_committed w) (Some c)
  | None => mkSqliteFile c None
  end.

Definition settings_row (kv : QString * QString) : row :=
  <["key"%string := VText kv.1]> (<["value"%string := VText kv.2]> ∅).

Definition bound_text (bindings : row) (column : string) : QString :=
  match bindings !! column with Some (VText t) => t | _ => [] end.

(** The number a literal assigns to [version]. *)
Definition version_of (assignments : list (string * assigned)) : Z :=
  match assoc "version" assignments with
  | Some (Literal (VInteger n)) => n
  | _ => 0
  end.

Definition sqlite_effect (s : sql_statement) (bindings : row) (c : content)
    : option (list row * content) :=
  let '(mkContent tables indexes versions settings) := c in
  let if_exists (table : string) r := if decide (table ∈ tables) then Some r else None in
  match s with
  | ForeignKeysOn => Some ([], c)
  | CreateTableIfNotExists t _ _ =>
      Some ([], mkContent ({[t]} ∪ tables) indexes versions settings)
  | CreateIndexIfNotExists i t _ =>
      if_exists t ([], mkContent tables ({[i]} ∪ indexes) versions settings)
  | InsertOrIgnore t assignments =>
      if_exists t
        ([], mkContent tables indexes ({[version_of assignments]} ∪ versions) settings)
  | UpsertByKey t _ _ =>
      if_exists t ([], mkContent tables indexes versions
        (<[bound_text bindings "key" := bound_text bindings "value"]> settings))
  | SelectColumns t _ => if_exists t (settings_row <$> map_to_list settings, c)
  end.

(** What the calls may be answered.  A transaction begins outside of others.  What
    fails has done nothing, or it has ended the transaction, as SQLite does after some
    errors. *)
Definition sqlite_answers `{Qt} `{!QtJson} {B : Set} (c : sqlite_call B)
    : sqlite_file -> B -> sqlite_file -> Prop :=
  match c in sqlite_call B return sqlite_file -> B -> sqlite_file -> Prop with
  | OpenDatabase _ => fun w _ w' => w' = w
  | HasConnection | DatabaseIsOpen => fun w _ w' => w' = w
  | CloseDatabase | RemoveConnection => fun w _ w' => w' = outside w
  | BeginTransaction => fun w failed w' =>
      match failed with
      | Some _ => w' = w
      | None => sf_transaction w = None /\
          w' = mkSqliteFile (sf_committed w) (Some (sf_committed w))
      end
  | CommitTransaction => fun w failed w' =>
      match failed with
      | Some _ => w' = w \/ w' = outside w
      | None => exists c, sf_transaction w = Some c /\ w' = mkSqliteFile c None
      end
  | RollbackTransaction => fun w _ w' => w' = outside w
  | Perform s bindings => fun w r w' =>
      match r with
      | inl _ => w' = w \/ w' = outside w
      | inr rows => exists rows' c, rows ≡ₚ rows' /\
          sqlite_effect s bindings (seen w) = Some (rows', c) /\ w' = seeing c w
      end
  | TimeNow => fun w _ w' => w' = w
  end.

Fixpoint effects (statements : list sql_statement) (c : content) : option content :=
  match statements with
  | [] => Some c
  | s :: statements => r ← sqlite_effect s ∅ c; effects statements (snd r)
  end.

(** The file after the migration to version 1. *)
Definition migrated (c : content) : content :=
  mkContent
    ({["settings"; "connections"; "connection_groups"; "schema_migrations"]}%string ∪ ct_tables c)
    ({["idx_connections_favorite"; "idx_connections_group_id"]}%string ∪ ct_indexes c)
    ({[1]} ∪ ct_versions c) (ct_settings c).

Lemma effects_migrations c :
  exists c', effects migrations c = Some c' /\
    (exists rows, sqlite_effect (InsertOrIgnore "schema_migrations"
       [("version", Literal (VInteger 1)); ("applied_at", Bound)]%string) ∅ c' =
       Some (rows, migrated c)).
Proof.
  destruct c as [tables indexes versions settings]. unfold migrations. cbn.
  repeat (rewrite decide_True by set_solver; cbn). eexists. split; [done|].
  cbn. rewrite decide_True by set_solver. eexists. unfold migrated. cbn.
  do 3 f_equal; apply set_eq; intros x; set_unfold; tauto.
Qed.

Lemma migrated_idempotent c : migrated (migrated c) = migrated c.
Proof. destruct c. unfold migrated. cbn. f_equal; apply set_eq; intros x; set_unfold; tauto. Qed.

(** The numbers of the settings are of type [int]. *)
Class QtNumbersLaws `{QtNumbers} : Prop := {
  toIntOk_number n : - 2 ^ 31 <= n < 2 ^ 31 -> toIntOk (number n) = Some n
}.

Section settings_runs.
Context `{Qt} `{!QtJson} `{!QtJsonLaws} `{!QtSql} `{!QtSqlLaws}.
Context `{QtNumbers} `{!QtNumbersLaws}.

Abbreviation transacts p w Q := (awp (fun B => @sqlite_answers _ _ B) False p w Q).

Lemma transacts_give {A} (a : A) w (Q : sqlite_file -> A -> Prop) : Q w a -> transacts (mret a) w Q.
Proof. done. Qed.

(** A program and the rest of it, which only gives its result. *)
Lemma transacts_last {A} (p : sqlite A) w (Q : sqlite_file -> A -> Prop) :
  transacts (p ≫= mret) w Q -> transacts p w Q.
Proof. revert w. induction p as [a|B c k IH|]; cbn; [done| |done]. intros w Hp b w' Hb. by apply IH, Hp. Qed.

Lemma storage_error_has text : hasError (storageError text) = true.
Proof. done. Qed.

Lemma no_error_has : hasError noError = false.
Proof. done. Qed.

(** ** Statements in a transaction *)

(** In a transaction over [c0] that sees [c], or after it was ended by an error. *)
Definition within (c0 c : content) : sqlite_file := mkSqliteFile c0 (Some c).

Lemma transacts_execute {A} s bindings c0 c w0 (f : AppError -> sqlite A) Q :
  w0 = within c0 c ->
  (forall c', snd <$> sqlite_effect s bindings c = Some c' -> transacts (f noError) (within c0 c') Q) ->
  (forall text w, sf_committed w = c0 -> transacts (f (storageError text)) w Q) ->
  transacts (execute s bindings ≫= f) w0 Q.
Proof.
  intros -> Hok Hf. apply awp_bind, awp_ask. intros [text|rows] w' Hw; cbn in Hw.
  - apply transacts_give, Hf. by destruct Hw as [->| ->].
  - destruct Hw as (rows' & c' & _ & He & ->). apply transacts_give, Hok.
    change (seen (within c0 c)) with c in He. by rewrite He.
Qed.

(** The transaction is rolled back with an error of its own. *)
Lemma transacts_roll_back {A} e c0 w (f : AppError -> sqlite A) Q :
  sf_committed w = c0 -> transacts (f e) (mkSqliteFile c0 None) Q ->
  transacts (roll_back e ≫= f) w Q.
Proof. intros <- Hf. apply awp_bind, awp_ask. intros [] w' ->. exact Hf. Qed.

Lemma transacts_commit {A} c0 c (f : AppError -> sqlite A) Q :
  transacts (f noError) (mkSqliteFile c None) Q ->
  (forall text w, sf_committed w = c0 -> sf_transaction w = Some c \/ sf_transaction w = None ->
     transacts (f (storageError text)) w Q) ->
  transacts (commit_or_error ≫= f) (within c0 c) Q.
Proof.
  intros Hok Hf. apply awp_bind, awp_ask. intros [text|] w' Hw; cbn in Hw; apply transacts_give.
  - apply Hf; destruct Hw as [->| ->]; auto.
  - by destruct Hw as (c' & [= <-] & ->).
Qed.

(** ** Migration *)

Lemma transacts_execute_all {A} statements c0 c (f : AppError -> sqlite A) Q :
  (forall c', effects statements c = Some c' -> transacts (f noError) (within c0 c') Q) ->
  (forall text w, sf_committed w = c0 -> transacts (f (storageError text)) w Q) ->
  transacts (execute_all statements ≫= f) (within c0 c) Q.
Proof.
  intros Hok Hf. apply awp_bind. revert c Hok.
  induction statements as [|s statements IH]; intros c Hok; [by apply Hok|].
  cbn [execute_all]. eapply transacts_execute; [done|..].
  - intros c' Hc'. rewrite no_error_has. apply IH. intros c2 He. apply Hok. cbn [effects].
    destruct (sqlite_effect s ∅ c) as [[rows c1]|]; [|done]. cbn in Hc'. simplify_eq/=. done.
  - intros text w Hw. rewrite storage_error_has. apply transacts_give. by apply Hf.
Qed.

(** A migration is done as a whole or not at all, and a second one changes nothing. *)
Theorem migrate_all_or_nothing m_open w o w' :
  sf_transaction w = None ->
  asks (fun B => @sqlite_answers _ _ B) (sqlite_migrate m_open) w o w' ->
  exists e, o = Some e /\
    if hasError e then sf_committed w' = sf_committed w
    else w' = mkSqliteFile (migrated (sf_committed w)) None.
Proof.
  intros Ht Hr.
  assert (transacts (sqlite_migrate m_open) w (fun w' e =>
    if hasError e then sf_committed w' = sf_committed w
    else w' = mkSqliteFile (migrated (sf_committed w)) None)) as Hw.
  2: { eapply awp_runs in Hw; [|exact Hr]. destruct o as [e|]; [|done]. by exists e. }
  unfold sqlite_migrate. apply awp_bind.
  assert (transacts (sqlite_isOpen m_open) w (fun w' _ => w' = w)) as Ho.
  { unfold sqlite_isOpen. destruct m_open; [|done]. by intros [] w1 ->; [intros [] w2 ->|]. }
  eapply awp_mono; [exact Ho|]. intros w1 [] ->; [cbn [negb]|done].
  apply awp_ask. intros [text|] w1 Hb; cbn in Hb; [by subst|]. destruct Hb as [_ ->].
  set (c := sf_committed w). destruct (effects_migrations c) as (c1 & He & rows & Hi).
  apply (transacts_execute_all _ c).
  - intros c' Hc'. rewrite He in Hc'. injection Hc' as <-. rewrite no_error_has.
    apply awp_bind, awp_ask. intros now w1 ->. apply transacts_give.
    apply (transacts_execute _ _ c c1); [done|..].
    + intros c' Hc'. rewrite no_error_has. change (sqlite_effect _ _ c1) with
        (sqlite_effect (InsertOrIgnore "schema_migrations"
          [("version", Literal (VInteger 1)); ("applied_at", Bound)]%string) ∅ c1) in Hc'.
      rewrite Hi in Hc'. injection Hc' as <-.
      apply transacts_last, transacts_commit; [done|].
      intros text w1 Hw1 _. apply transacts_give. by rewrite storage_error_has.
    + intros text w1 Hw1. rewrite storage_error_has. by apply transacts_last, (transacts_roll_back _ c).
  - intros text w1 Hw1. rewrite storage_error_has. by apply transacts_last, (transacts_roll_back _ c).
Qed.

(** ** Settings *)

Definition settings_fit (s : ApplicationSettings) : Prop :=
  Forall (fun n => - 2 ^ 31 <= n < 2 ^ 31)
    [set_operationTimeoutMs s; set_cacheRetentionDays s; set_cacheMaxSizeMb s].

(** The rows with these values, and the tables with these rows. *)
Definition with_values (values : list (string * QString)) (m : gmap QString QString)
    : gmap QString QString :=
  foldl (fun m kv => <[QStringLiteral kv.1 := kv.2]> m) m values.

Definition with_settings (m : gmap QString QString) (c : content) : content :=
  mkContent (ct_tables c) (ct_indexes c) (ct_versions c) m.

Lemma themeMode_back m : themeModeFromString (themeMode_toString m) = m.
Proof. by destruct m. Qed.
Lemma languageMode_back m : languageModeFromString (languageMode_toString m) = m.
Proof. by destruct m. Qed.
Lemma credentialStoreMode_back m :
  credentialStoreModeFromString (credentialStoreMode_toString m) = m.
Proof. by destruct m. Qed.

Lemma with_values_other values m k :
  k ∉ (fun kv : string * QString => QStringLiteral kv.1) <$> values ->
  with_values values m !! k = m !! k.
Proof.
  revert m. induction values as [|[key v] values IH]; intros m; [done|].
  rewrite fmap_cons, not_elem_of_cons. intros [Hk Hn]. cbn. unfold with_values in IH.
  rewrite IH by done. by rewrite lookup_insert_ne.
Qed.

Lemma with_values_in values m key v :
  NoDup (fst <$> values) -> (key, v) ∈ values ->
  with_values values m !! QStringLiteral key = Some v.
Proof.
  revert m. induction values as [|[k u] values IH]; intros m; [by intros _ ?%elem_of_nil|].
  rewrite fmap_cons, NoDup_cons, elem_of_cons. cbn [fst]. intros [Hn Hd] [[= -> ->]|Hin].
  - change (with_values values (<[QStringLiteral k := u]> m) !! QStringLiteral k = Some u).
    rewrite with_values_other; [apply lookup_insert_eq|].
    rewrite list_elem_of_fmap. intros ([k' u'] & Hk%QStringLiteral_inj & Hin). cbn in Hk. subst k'.
    apply Hn, list_elem_of_fmap. by exists (k, u').
  - by apply IH.
Qed.

(** What was written as settings is read as these settings. *)
Lemma settings_back s m : settings_fit s -> settings_from (with_values (settings_values s) m) = s.
Proof.
  unfold settings_fit. rewrite !Forall_cons. intros (Ht & Hr & Hm & _).
  set (values := with_values _ _).
  assert (Forall (fun kv => values !! QStringLiteral kv.1 = Some kv.2) (settings_values s)) as Hv.
  { apply Forall_forall. intros [key v]. apply with_values_in.
    apply (bool_decide_eq_true_1 _). by vm_compute. }
  unfold settings_values in Hv. rewrite !Forall_cons in Hv. cbn [fst snd] in Hv.
  destruct Hv as (E1 & E2 & E3 & E4 & E5 & E6 & E7 & _).
  unfold settings_from. rewrite E1, E2, E3, E4, E5, E6, E7.
  cbn [default from_option id]. unfold intFromString. rewrite !toIntOk_number by done.
  rewrite themeMode_back, languageMode_back, credentialStoreMode_back. by destruct s.
Qed.

Lemma bound_upsert updatedAt v key :
  let b := bindText "updated_at" updatedAt
    (bindText "value" v (bindText "key" (QStringLiteral key) ∅)) in
  bound_text b "key" = QStringLiteral key /\ bound_text b "value" = v.
Proof.
  cbv zeta. unfold bound_text, bindText, bindValue. split.
  - by rewrite !lookup_insert_ne, lookup_insert_eq by done.
  - by rewrite lookup_insert_ne, lookup_insert_eq by done.
Qed.

Lemma transacts_upsert_all {A} values c0 c (f : AppError -> sqlite A) Q :
  transacts (f noError) (within c0 (with_settings (with_values values (ct_settings c)) c)) Q ->
  (forall text w, sf_committed w = c0 -> transacts (f (storageError text)) w Q) ->
  transacts (upsert_all values ≫= f) (within c0 c) Q.
Proof.
  intros Hok Hf. apply awp_bind. revert c Hok.
  induction values as [|[key v] values IH]; intros c Hok; [by destruct c; apply Hok|].
  cbn [upsert_all]. apply awp_bind, awp_bind, awp_ask. intros now w1 ->. apply transacts_give.
  apply transacts_last. eapply transacts_execute; [done|..].
  - destruct (bound_upsert (toIsoUtc now) v key) as [Hk Hv].
    destruct c as [tables indexes versions settings]. cbn [sqlite_effect]. rewrite Hk, Hv.
    intros c' Hc'. case_decide; [|done]. injection Hc' as <-. apply transacts_give.
    rewrite no_error_has. by apply IH.
  - intros text w Hw. apply transacts_give. rewrite storage_error_has. apply transacts_give.
    by apply Hf.
Qed.

(** After the settings were saved, or could not be. *)
Definition save_left (s : ApplicationSettings) (w w' : sqlite_file) (r : Result bool) : Prop :=
  let saved := with_settings (with_values (settings_values s) (ct_settings (sf_committed w)))
                 (sf_committed w) in
  if Result_ok r then w' = mkSqliteFile saved None
  else sf_committed w' = sf_committed w /\
    (sf_transaction w' = None \/ sf_transaction w' = Some saved).

Lemma transacts_save s w :
  sf_transaction w = None -> transacts (settings_save s) w (save_left s w).
Proof.
  intros Ht. unfold settings_save. apply awp_ask. intros [text|] w1 Hb; cbn in Hb.
  { subst. split; [done|by left]. }
  destruct Hb as [_ ->]. apply (transacts_upsert_all _ (sf_committed w)).
  - rewrite no_error_has. apply transacts_commit; [done|].
    intros text w1 Hw1 Ht1. rewrite storage_error_has. apply transacts_give.
    unfold save_left. rewrite failed_ok. split; [done|]. tauto.
  - intros text w1 Hw1. rewrite storage_error_has. apply (transacts_roll_back _ (sf_committed w)).
    { done. }
    apply transacts_give. unfold save_left. rewrite failed_ok. split; [done|by left].
Qed.

Lemma collect_settings (l : list (QString * QString)) (m : gmap QString QString) :
  collect_values (settings_row <$> l) m = foldl (fun m kv => <[kv.1 := kv.2]> m) m l.
Proof.
  revert m. induction l as [|[k v] l IH]; intros m; [done|].
  cbn [fmap list_fmap collect_values foldl]. rewrite IH. unfold text_field, settings_row.
  cbn [fst snd]. unfold field. rewrite lookup_insert_eq, lookup_insert_ne, lookup_insert_eq by done.
  cbn [default from_option id]. by rewrite !variant_toString_text.
Qed.

Lemma foldl_map_to_list (l : list (QString * QString)) (m : gmap QString QString) :
  NoDup l.*1 -> foldl (fun m kv => <[kv.1 := kv.2]> m) m l = list_to_map l ∪ m.
Proof.
  revert m. induction l as [|[k v] l IH]; intros m Hd.
  { cbn. by rewrite (left_id_L ∅ (∪)). }
  rewrite fmap_cons, NoDup_cons in Hd. destruct Hd as [Hn Hd]. cbn in Hn |- *. rewrite IH by done.
  rewrite <- insert_union_r by (by apply not_elem_of_list_to_map_1).
  by rewrite insert_union_l.
Qed.

(** The rows come in any order. *)
Lemma collect_rows (rows : list row) (m : gmap QString QString) :
  rows ≡ₚ settings_row <$> map_to_list m -> collect_values rows ∅ = m.
Proof.
  intros Hp. apply Permutation_map_inv in Hp as (l & -> & Hl).
  change (map settings_row l) with (settings_row <$> l). rewrite collect_settings.
  assert (NoDup l.*1) as Hd by (rewrite <- Hl; apply NoDup_fst_map_to_list).
  rewrite foldl_map_to_list, (right_id_L ∅ (∪)) by done.
  rewrite <- (list_to_map_to_list m). symmetry. apply list_to_map_proper; [|done].
  apply NoDup_fst_map_to_list.
Qed.

Lemma transacts_load w :
  transacts settings_load w (fun w' r =>
    if Result_ok r then w' = w /\ res_value r = settings_from (ct_settings (seen w))
    else w' = w \/ w' = outside w).
Proof.
  apply awp_ask. intros [text|rows] w' Hw; cbn in Hw; apply transacts_give.
  { by rewrite failed_ok. }
  destruct Hw as (rows' & c & Hp & He & ->). rewrite success_ok. cbn [res_value Result_success].
  unfold seeing, seen in *. destruct w as [committed [c1|]]; cbn in *.
  - destruct c1 as [tables indexes versions settings]. cbn in He. case_decide; [|done].
    injection He as <- <-. split; [done|]. cbn. by erewrite collect_rows.
  - destruct committed as [tables indexes versions settings]. cbn in He. case_decide; [|done].
    injection He as <- <-. split; [done|]. cbn. by erewrite collect_rows.
Qed.

(** The settings are saved, and loaded again. *)
Definition save_and_reload (s : ApplicationSettings)
    : sqlite (Result bool * Result ApplicationSettings) :=
  saved ← saveSettings s;
  loaded ← loadSettings;
  mret (saved, loaded).

(** The file after that, and what was loaded. *)
Definition reload_left (s : ApplicationSettings) (w w' : sqlite_file) (saved : Result bool)
    (loaded : Result ApplicationSettings) : Prop :=
  let before := sf_committed w in
  if Result_ok saved
  then w' = mkSqliteFile
      (with_settings (with_values (settings_values s) (ct_settings before)) before) None /\
    (Result_ok loaded = true -> res_value loaded = s)
  else sf_committed w' = before /\
    (sf_transaction w' = None -> Result_ok loaded = true ->
     res_value loaded = settings_from (ct_settings before)).

(** C24: Settings are saved as a whole or not at all. Take settings whose numbers are of
    type [int], and a file with no transaction open. Then saving the settings and
    loading them ends. If they were saved, the transaction is over, the rows of the
    settings are in the file and nothing else in it has changed, and if loading
    succeeds it gives these settings. If they were not saved, the file is as it was;
    and unless the transaction could not be ended, loading gives the settings from
    before. *)
Theorem settings_kept s w o w' :
  sf_transaction w = None -> settings_fit s ->
  asks (fun B => @sqlite_answers _ _ B) (save_and_reload s) w o w' ->
  exists saved loaded, o = Some (saved, loaded) /\ reload_left s w w' saved loaded.
Proof.
  intros Ht Hs Hr.
  assert (transacts (save_and_reload s) w (fun w' r => reload_left s w w' r.1 r.2)) as Hw.
  2: { eapply awp_runs in Hw; [|exact Hr]. destruct o as [[saved loaded]|]; [|done].
       by exists saved, loaded. }
  apply awp_bind. eapply awp_mono; [by apply transacts_save|]. intros w1 saved Hl.
  apply awp_bind. eapply awp_mono; [apply transacts_load|]. intros w2 loaded Hlo.
  apply transacts_give. cbn [fst snd]. unfold save_left, reload_left in *.
  destruct (Result_ok saved).
  - subst w1. destruct (Result_ok loaded).
    + destruct Hlo as [-> ->]. split; [done|]. intros _. by apply settings_back.
    + split; [|done]. by destruct Hlo as [->| ->].
  - destruct Hl as [Hc Ht1]. destruct (Result_ok loaded).
    + destruct Hlo as [-> ->]. split; [done|]. intros Hn _. unfold seen. by rewrite Hn, Hc.
    + split; [|done]. destruct Hlo as [->| ->]; exact Hc.
Qed.

(** A transaction that could not be committed is not rolled back. As long as it is
    open, nothing can be saved. *)
Lemma open_transaction_blocks s t w :
  sf_transaction w = Some t ->
  transacts (saveSettings s) w (fun w' r => w' = w /\ Result_ok r = false).
Proof.
  intros Ht. apply awp_ask. intros [text|] w1 Hb; cbn in Hb.
  - subst. split; [done|]. apply failed_ok.
  - destruct Hb as [Hn _]. congruence.
Qed.

End settings_runs.

(** ** Decimal numbers, and a file *)

Definition ascii_text (t : QString) : string :=
  String.string_of_list_ascii ((fun c => Ascii.ascii_of_N (Z.to_N c)) <$> t).

#[export] Instance sample_numbers : QtNumbers := {|
  number n := QStringLiteral (NilZero.string_of_int (Z.to_int n));
  toIntOk t :=
    n ← Z.of_int <$> NilZero.int_of_string (ascii_text t);
    if (- 2 ^ 31 <=? n) && (n <? 2 ^ 31) then Some n else None
|}.

Lemma ascii_text_literal s : ascii_text (QStringLiteral s) = s.
Proof.
  unfold ascii_text, QStringLiteral. rewrite <- list_fmap_compose.
  rewrite <- (String.string_of_list_ascii_of_string s) at 2. f_equal.
  rewrite <- (list_fmap_id (String.list_ascii_of_string s)) at 2. apply list_fmap_ext.
  intros i c _. cbn. by rewrite N2Z.id, Ascii.ascii_N_embedding.
Qed.

Lemma to_int_some n : Z.to_int n <> Decimal.Pos Decimal.Nil /\ Z.to_int n <> Decimal.Neg Decimal.Nil.
Proof.
  destruct n as [|p|p]; cbn; split; try done; injection;
    apply DecimalPos.Unsigned.to_uint_nonnil.
Qed.

#[export] Instance sample_numbers_laws : QtNumbersLaws.
Proof.
  split. intros n Hn. cbn [number toIntOk sample_numbers]. rewrite ascii_text_literal.
  destruct (to_int_some n) as [Hp Hm]. rewrite NilZero.isi by done. cbn.
  rewrite of_to. rewrite (proj2 (Z.leb_le _ _)), (proj2 (Z.ltb_lt _ _)) by lia. done.
Qed.

#[local] Existing Instances sample_json sample_json_laws sample_sql sample_sql_laws.

Definition sqlite_serve {B : Set} (c : sqlite_call B)
    : sqlite_file -> option (B * sqlite_file) :=
  match c in sqlite_call B return sqlite_file -> option (B * sqlite_file) with
  | OpenDatabase _ => fun w => Some (None, w)
  | HasConnection | DatabaseIsOpen => fun w => Some (true, w)
  | CloseDatabase | RemoveConnection => fun w => Some (tt, outside w)
  | BeginTransaction => fun w =>
      Some match sf_transaction w with
           | None => (None, mkSqliteFile (sf_committed w) (Some (sf_committed w)))
           | Some _ => (Some (QStringLiteral "cannot start a transaction"), w)
           end
  | CommitTransaction => fun w =>
      Some match sf_transaction w with
           | None => (Some (QStringLiteral "no transaction is active"), w)
           | Some c => (None, mkSqliteFile c None)
           end
  | RollbackTransaction => fun w => Some (tt, outside w)
  | Perform s bindings => fun w =>
      Some match sqlite_effect s bindings (seen w) with
           | Some (rows, c) => (inr rows, seeing c w)
           | None => (inl (QStringLiteral "no such table"), w)
           end
  | TimeNow => fun w => Some (5 : Z, w)
  end.

Lemma sqlite_serve_answers (B : Set) (c : sqlite_call B) w b w' :
  sqlite_serve c w = Some (b, w') -> sqlite_answers c w b w'.
Proof.
  destruct c; cbn [sqlite_serve sqlite_answers]; try (by intros [= <- <-]).
  - destruct (sf_transaction w) eqn:Ht; by intros [= <- <-].
  - destruct (sf_transaction w) as [c|] eqn:Ht; intros [= <- <-]; [by exists c|by left].
  - destruct (sqlite_effect s bindings (seen w)) as [[rows c]|]; intros [= <- <-]; [|by left].
    by exists rows, c.
Qed.

Definition new_file : sqlite_file := mkSqliteFile (migrated (mkContent ∅ ∅ ∅ ∅)) None.

Definition dark : ApplicationSettings :=
  mkApplicationSettings ThemeMode_Dark LanguageMode_Russian
    CredentialStoreMode_EncryptedVault (QStringLiteral "debug") 1500 (-1) 64.

Lemma run_dark : exists saved loaded w',
  run_asking (fun B => @sqlite_serve B) (save_and_reload dark) new_file
    = Some (Some (saved, loaded), w') /\ Result_ok saved = true /\ Result_ok loaded = true.
Proof.
  assert (match run_asking (fun B => @sqlite_serve B) (save_and_reload dark) new_file with
    | Some (Some (saved, loaded), _) => Result_ok saved && Result_ok loaded
    | _ => false end = true) as Hr by by vm_compute.
  destruct (run_asking _ _ _) as [[[[saved loaded]|] w']|]; try done.
  apply andb_prop in Hr as [Hs Hl]. by exists saved, loaded, w'.
Qed.

Lemma settings_kept_witness : exists saved loaded w',
  run_asking (fun B => @sqlite_serve B) (save_and_reload dark) new_file
    = Some (Some (saved, loaded), w') /\ res_value loaded = dark.
Proof.
  destruct run_dark as (saved & loaded & w' & Hrun & Hs & Hl). exists saved, loaded, w'.
  split; [exact Hrun|].
  pose proof (run_runs (fun B => sqlite_answers (B:=B)) (fun B => @sqlite_serve B) _ _ _ _
                sqlite_serve_answers Hrun) as Hr.
  apply (settings_kept dark) in Hr; [|done|by repeat constructor].
  destruct Hr as (? & ? & [= <- <-] & Hk). unfold reload_left in Hk. rewrite Hs in Hk. by apply Hk.
Defined.
