(* ===== verification/Services.v ===== *)
(** * The services on stored connections ([ConnectionService.cpp],
    [ConnectionOpenService.cpp], [ConnectivityCheckService.cpp])

    They put the repository, the credential store and the SMB client together.  The
    methods of the repository are those of Repository.v; the store and the client are
    interfaces, whose answers are left open, and [Vault.v] and [NativeClient.v] are
    implementations of them. *)

From S2P Require Export Repository.
Local Open Scope Z_scope.

(** [smb::core::ConnectionStatus] *)
Inductive ConnectionStatus : Set :=
| ConnectionStatus_Unknown
| ConnectionStatus_NotChecked
| ConnectionStatus_Checking
| ConnectionStatus_Available
| ConnectionStatus_ServerUnavailable
| ConnectionStatus_ShareUnavailable
| ConnectionStatus_AuthenticationFailed
| ConnectionStatus_PermissionDenied
| ConnectionStatus_Timeout
| ConnectionStatus_DnsError
| ConnectionStatus_ProtocolUnsupported
| ConnectionStatus_Error.

Definition connectionStatusForSmbError (code : AppErrorCode) : ConnectionStatus :=
  match code with
  | App_None => ConnectionStatus_Available
  | App_InvalidPath => ConnectionStatus_Error
  | App_DnsError => ConnectionStatus_DnsError
  | App_ServerUnavailable | App_NetworkError => ConnectionStatus_ServerUnavailable
  | App_ShareUnavailable | App_FileNotFound => ConnectionStatus_ShareUnavailable
  | App_AuthenticationFailed => ConnectionStatus_AuthenticationFailed
  | App_PermissionDenied => ConnectionStatus_PermissionDenied
  | App_Timeout => ConnectionStatus_Timeout
  | App_ProtocolUnsupported => ConnectionStatus_ProtocolUnsupported
  | App_AlreadyExists | App_DirectoryNotEmpty | App_OperationCancelled
  | App_LocalIoError | App_StorageError | App_CredentialStoreUnavailable
  | App_CredentialNotFound | App_Unknown => ConnectionStatus_Error
  end.

(** The calls: those of the repository, the virtual methods of [CredentialStore], and
    those of [SmbClient]. *)
Inductive service_call `{Qt} : Set -> Type :=
| Stored (B : Set) (c : storage_call B) : service_call B
| SaveSecret (ownerId : QString) (secret : bytes) : service_call (Result QString)
| LoadSecret (credentialRef : QString) : service_call (Result bytes)
| UpdateSecret (credentialRef : QString) (secret : bytes) : service_call (Result bool)
| RemoveSecret (credentialRef : QString) : service_call (Result bool)
| Smb (A : Set) (op : smb_op A) (context : CoreContext) : service_call A.
Arguments Stored {_ B} c.
Arguments Smb {_ A} op context.
Abbreviation service := (asking service_call).

Record OpenConnectionResult `{Qt} : Set := mkOpenConnectionResult {
  ocr_connection : SavedConnection;
  ocr_capabilities : SmbClientCapabilities;
  ocr_currentRemotePath : QString;
  ocr_entries : list RemoteFileEntry
}.
Arguments mkOpenConnectionResult {_} _ _ _ _.

Record ConnectivityCheckResult `{Qt} : Set := mkConnectivityCheckResult {
  ccr_available : bool;
  ccr_status : ConnectionStatus;
  ccr_error : AppError;
  ccr_checkedAtUtc : QDateTime
}.
Arguments mkConnectivityCheckResult {_} _ _ _ _.

Section services.
Context `{Qt} `{!QtJson} `{!QtSql}.

(** A method of the repository. *)
Definition stored {A} (p : storage A) : service A :=
  asking_lift (fun B (c : storage_call B) => Stored c) p.

Definition service_failure {A} (none : A) (error : AppError) : service (Result A) :=
  mret (Result_failure none error).

(** ** [ConnectionService] *)

Definition missingCredentialError : AppError :=
  fromCode App_CredentialNotFound ErrorCategory_Credentials
    (QStringLiteral "Password authentication requires a credential secret.") false.

Definition with_id (id : QString) (connection : SavedConnection) : SavedConnection :=
  dated id (svc_createdAt connection) (svc_updatedAt connection) connection.

Definition with_credentialRef (ref : QString) (connection : SavedConnection)
    : SavedConnection :=
  mkSavedConnection (svc_connection connection) (svc_name connection)
    (svc_inputPath connection) (svc_initialRemotePath connection) ref
    (svc_comment connection) (svc_groupId connection) (svc_isFavorite connection)
    (svc_lastOpenedAt connection) (svc_createdAt connection) (svc_updatedAt connection)
    (svc_lastErrorCode connection) (svc_lastErrorMessage connection)
    (svc_lastSuccessfulCheckAt connection).

Definition uses_password (connection : SavedConnection) : bool :=
  bool_decide (con_authType (svc_connection connection) = AuthType_Password).

(** [create] from where the connection has its credential. *)
Definition add_or_clean_up (connection : SavedConnection)
    : service (Result SavedConnection) :=
  let credentialRef := svc_credentialRef connection in
  let shouldCleanupCredential := uses_password connection && negb (isEmpty credentialRef) in
  added ← stored (repository_add connection);
  if negb (Result_ok added) && shouldCleanupCredential then
    _ ← ask (RemoveSecret credentialRef);
    mret added
  else mret added.

Definition service_create (connection : SavedConnection) (secret : secret_pointer)
    : service (Result SavedConnection) :=
  let given := con_id (svc_connection connection) in
  id ← (if isEmpty given then stored (ask CreateId) else mret given);
  let connection := with_id id connection in
  if uses_password connection then
    match secret with
    | None => service_failure no_connection missingCredentialError
    | Some secret =>
        saved ← ask (SaveSecret id secret);
        if negb (Result_ok saved) then service_failure no_connection (res_error saved)
        else add_or_clean_up (with_credentialRef (res_value saved) connection)
    end
  else add_or_clean_up (with_credentialRef [] connection).

Definition credentialIsShared (credentialRef excludingConnectionId : QString)
    : service bool :=
  connections ← stored repository_list;
  mret (if negb (Result_ok connections) then true
        else existsb (fun connection =>
               negb (bool_decide
                       (con_id (svc_connection connection) = excludingConnectionId))
               && bool_decide (svc_credentialRef connection = credentialRef))
             (res_value connections)).

(** [a && b], where [b] is a call that is not made if [a] is false. *)
Definition and_then (a : bool) (b : service bool) : service bool :=
  if a then b else mret false.

Definition service_update (connection : SavedConnection) (secret : secret_pointer)
    : service (Result SavedConnection) :=
  let id := con_id (svc_connection connection) in
  let ref := svc_credentialRef connection in
  existing ← stored (repository_getById id);
  if negb (Result_ok existing) then service_failure no_connection (res_error existing) else
  let previousCredentialRef := svc_credentialRef (res_value existing) in
  if uses_password connection then
    match secret with
    | Some secret =>
        if isEmpty ref then
          saved ← ask (SaveSecret id secret);
          if negb (Result_ok saved) then service_failure no_connection (res_error saved)
          else stored (repository_update (with_credentialRef (res_value saved) connection))
        else
          updated ← ask (UpdateSecret ref secret);
          if negb (Result_ok updated) then service_failure no_connection (res_error updated)
          else stored (repository_update connection)
    | None =>
        if isEmpty ref then service_failure no_connection missingCredentialError
        else stored (repository_update connection)
    end
  else
    let connection := with_credentialRef [] connection in
    unshared ← and_then (negb (isEmpty previousCredentialRef))
      (shared ← credentialIsShared previousCredentialRef id; mret (negb shared));
    if unshared : bool then
      removed ← ask (RemoveSecret previousCredentialRef);
      if negb (Result_ok removed) then service_failure no_connection (res_error removed)
      else stored (repository_update connection)
    else stored (repository_update connection).

Definition service_remove (connectionId : QString) : service (Result bool) :=
  existing ← stored (repository_getById connectionId);
  if negb (Result_ok existing) then service_failure false (res_error existing) else
  let credentialRef := svc_credentialRef (res_value existing) in
  shouldRemoveCredential ← and_then (negb (isEmpty credentialRef))
    (shared ← credentialIsShared credentialRef connectionId; mret (negb shared));
  removedConnection ← stored (repository_remove connectionId);
  if negb (Result_ok removedConnection) then mret removedConnection else
  if negb (res_value removedConnection) then mret (Result_success false) else
  if shouldRemoveCredential : bool then
    removedCredential ← ask (RemoveSecret credentialRef);
    if negb (Result_ok removedCredential) then service_failure false (res_error removedCredential)
    else mret (Result_success true)
  else mret (Result_success true).

Definition service_list : service (Result (list SavedConnection)) := stored repository_list.

Definition service_getById (connectionId : QString) : service (Result SavedConnection) :=
  stored (repository_getById connectionId).

(** ** Common parts of the services that use the client *)

Definition errorMessageForStorage (error : AppError) : QString :=
  if negb (isEmpty (ae_sanitizedTechnicalDetails error))
  then ae_sanitizedTechnicalDetails error else ae_userMessage error.

Definition rememberError (connectionId : QString) (error : AppError) : service unit :=
  _ ← stored (repository_updateLastError connectionId (ae_code error)
                (errorMessageForStorage error));
  mret tt.

Definition usesStoredCredential (connection : SavedConnection) : bool :=
  uses_password connection && negb (isEmpty (svc_credentialRef connection)).

Definition loadSecret (connection : SavedConnection) : service (Result secret_pointer) :=
  if negb (usesStoredCredential connection) then mret (Result_success None) else
  secret ← ask (LoadSecret (svc_credentialRef connection));
  if negb (Result_ok secret) then service_failure None (res_error secret)
  else mret (Result_success (Some (res_value secret))).

(** ** [ConnectionOpenService] *)

Fixpoint chop_all_slashes (fuel : nat) (path : QString) : QString :=
  match fuel with
  | O => path
  | S fuel => if endsWith path kSlash then chop_all_slashes fuel (chop path 1) else path
  end.

Definition normalizedStartPath (path : QString) : QString :=
  let v := replaceChar (trimmed path) kBackslash kSlash in
  let v := strip_slashes (length v) v in
  let v := chop_all_slashes (length v) v in
  if isEmpty v then [kSlash] else kSlash :: v.

Context (context : CoreContext).

Definition no_open : OpenConnectionResult :=
  mkOpenConnectionResult no_connection no_capabilities [] [].

(** A connection that was loaded, and the secret it is used with; a secret that cannot
    be loaded is an error of the connection. *)
Definition with_secret {A} (none : A) (connectionId : QString)
    (k : SavedConnection -> secret_pointer -> service (Result A)) : service (Result A) :=
  loadedConnection ← stored (repository_getById connectionId);
  if negb (Result_ok loadedConnection) then service_failure none (res_error loadedConnection) else
  let connection := res_value loadedConnection in
  loadedSecret ← loadSecret connection;
  if negb (Result_ok loadedSecret) then
    _ ← rememberError (con_id (svc_connection connection)) (res_error loadedSecret);
    service_failure none (res_error loadedSecret)
  else k connection (res_value loadedSecret).

Definition openAtPath (connectionId remotePath : QString) (updateLastOpened : bool)
    : service (Result OpenConnectionResult) :=
  with_secret no_open connectionId (fun connection secret =>
  let id := con_id (svc_connection connection) in
  let currentPath := normalizedStartPath remotePath in
  listed ← ask (Smb (Smb_listDirectory (svc_connection connection) secret currentPath)
                  context);
  if negb (Result_ok listed) then
    _ ← rememberError id (res_error listed);
    service_failure no_open (res_error listed)
  else
  updated ← (if updateLastOpened then
               openedAt ← stored (ask CurrentTime);
               stored (repository_updateLastOpened id openedAt)
             else mret (Result_success true));
  if negb (Result_ok updated) then service_failure no_open (res_error updated) else
  refreshedConnection ← stored (repository_getById id);
  if negb (Result_ok refreshedConnection)
  then service_failure no_open (res_error refreshedConnection) else
  let refreshed := res_value refreshedConnection in
  capabilities ← ask (Smb (Smb_capabilities (svc_connection refreshed)) context);
  mret (Result_success
          (mkOpenConnectionResult refreshed capabilities currentPath (res_value listed)))).

Definition open_connection (connectionId : QString)
    : service (Result OpenConnectionResult) :=
  loadedConnection ← stored (repository_getById connectionId);
  if negb (Result_ok loadedConnection)
  then service_failure no_open (res_error loadedConnection)
  else openAtPath connectionId (svc_initialRemotePath (res_value loadedConnection)) true.

Definition open_listDirectory (connectionId remotePath : QString)
    : service (Result OpenConnectionResult) :=
  openAtPath connectionId remotePath false.

Definition runFileOperation (connectionId : QString)
    (operation : Connection -> secret_pointer -> smb_op (Result bool))
    : service (Result bool) :=
  with_secret false connectionId (fun connection secret =>
  result ← ask (Smb (operation (svc_connection connection) secret) context);
  if negb (Result_ok result) then
    _ ← rememberError (con_id (svc_connection connection)) (res_error result);
    mret result
  else mret result).

Definition open_createDirectory (connectionId remotePath : QString) : service (Result bool) :=
  let path := normalizedStartPath remotePath in
  runFileOperation connectionId (fun connection secret =>
    Smb_createDirectory connection secret path).

Definition open_remove (connectionId remotePath : QString) : service (Result bool) :=
  let path := normalizedStartPath remotePath in
  runFileOperation connectionId (fun connection secret => Smb_remove connection secret path).

Definition open_rename (connectionId sourceRemotePath targetRemotePath : QString)
    : service (Result bool) :=
  let source := normalizedStartPath sourceRemotePath in
  let target := normalizedStartPath targetRemotePath in
  runFileOperation connectionId (fun connection secret =>
    Smb_rename connection secret source target).

Definition open_downloadFile (connectionId remotePath localPath : QString)
    : service (Result bool) :=
  let path := normalizedStartPath remotePath in
  runFileOperation connectionId (fun connection secret =>
    Smb_downloadFile connection secret path localPath).

Definition open_uploadFile (connectionId localPath remotePath : QString)
    : service (Result bool) :=
  let path := normalizedStartPath remotePath in
  runFileOperation connectionId (fun connection secret =>
    Smb_uploadFile connection secret localPath path).

Definition loadConnectionWithSecret (connectionId : QString)
    : service (Result (SavedConnection * secret_pointer)) :=
  let none := (no_connection, None) in
  loadedConnection ← stored (repository_getById connectionId);
  if negb (Result_ok loadedConnection) then service_failure none (res_error loadedConnection) else
  loadedSecret ← loadSecret (res_value loadedConnection);
  if negb (Result_ok loadedSecret) then service_failure none (res_error loadedSecret) else
  mret (Result_success (res_value loadedConnection, res_value loadedSecret)).

(** [copy] and [move], which differ in the method of the client. *)
Definition between_connections
    (operation : Connection -> secret_pointer -> QString ->
                 Connection -> secret_pointer -> QString -> smb_op (Result bool))
    (sourceConnectionId sourceRemotePath targetConnectionId targetRemotePath : QString)
    : service (Result bool) :=
  source ← loadConnectionWithSecret sourceConnectionId;
  if negb (Result_ok source) then
    _ ← rememberError sourceConnectionId (res_error source);
    service_failure false (res_error source)
  else
  let '(sourceConnection, sourceSecret) := res_value source in
  let sourceId := con_id (svc_connection sourceConnection) in
  target ← loadConnectionWithSecret targetConnectionId;
  if negb (Result_ok target) then
    _ ← rememberError sourceId (res_error target);
    service_failure false (res_error target)
  else
  let '(targetConnection, targetSecret) := res_value target in
  let targetId := con_id (svc_connection targetConnection) in
  let sourcePath := normalizedStartPath sourceRemotePath in
  let targetPath := normalizedStartPath targetRemotePath in
  result ← ask (Smb (operation (svc_connection sourceConnection) sourceSecret sourcePath
                       (svc_connection targetConnection) targetSecret targetPath) context);
  if negb (Result_ok result) then
    _ ← rememberError sourceId (res_error result);
    (if negb (bool_decide (sourceId = targetId)) then
       _ ← rememberError targetId (res_error result);
       mret result
     else mret result)
  else mret result.

Definition open_copy := between_connections Smb_copy.
Definition open_move := between_connections Smb_move.

(** ** [ConnectivityCheckService] *)

Definition no_check : ConnectivityCheckResult :=
  mkConnectivityCheckResult false ConnectionStatus_NotChecked noError nullDateTime.

Definition check_connection (connectionId : QString)
    : service (Result ConnectivityCheckResult) :=
  with_secret no_check connectionId (fun connection secret =>
  let id := con_id (svc_connection connection) in
  checked ← ask (Smb (Smb_checkConnection (svc_connection connection) secret) context);
  checkedAt ← stored (ask CurrentTime);
  if Result_ok checked && res_value checked then
    updated ← stored (repository_updateLastSuccessfulCheck id checkedAt);
    if negb (Result_ok updated) then service_failure no_check (res_error updated)
    else mret (Result_success
           (mkConnectivityCheckResult true ConnectionStatus_Available noError checkedAt))
  else
    _ ← rememberError id (res_error checked);
    mret (Result_success
      (mkConnectivityCheckResult false
         (connectionStatusForSmbError (ae_code (res_error checked)))
         (res_error checked) checkedAt))).

End services.
