(* ===== verification/ServiceRuns.v ===== *)
(** * What the services on connections keep ([ConnectionService.cpp],
    [ConnectionOpenService.cpp], [ConnectivityCheckService.cpp])

    Runs of Services.v over a database, a store of secrets and any client: which
    connections can still be opened with their secrets, and which failures are
    remembered. *)

From S2P Require Export Services RepositoryRuns.
Local Open Scope Z_scope.

(** ** The world *)

(** [sw_failure] is the last error of the client, with [true], or of the store of
    secrets, when it was asked for one. *)
Record service_world : Set := mkServiceWorld {
  sw_db : database;
  sw_secrets : gmap QString bytes;
  sw_failure : option (bool * AppError)
}.

Definition with_db (db : database) (w : service_world) : service_world :=
  mkServiceWorld db (sw_secrets w) (sw_failure w).
Definition with_secrets (secrets : gmap QString bytes) (w : service_world) : service_world :=
  mkServiceWorld (sw_db w) secrets (sw_failure w).
Definition reported {A} (client : bool) (r : Result A) (w : service_world) : service_world :=
  mkServiceWorld (sw_db w) (sw_secrets w)
    (if Result_ok r then sw_failure w else Some (client, res_error r)).

Section service_runs.
Context `{Qt} `{!QtJson} `{!QtJsonLaws} `{!QtSql} `{!QtSqlLaws}.

(** What an operation of the client reports. *)
Definition client_report {A : Set} (op : smb_op A)
    : A -> service_world -> service_world :=
  match op in smb_op A return A -> service_world -> service_world with
  | Smb_capabilities _ => fun _ w => w
  | Smb_probeCapabilities _ _ | Smb_listShares _ _ | Smb_checkConnection _ _
  | Smb_listDirectory _ _ _ | Smb_createDirectory _ _ _ | Smb_remove _ _ _
  | Smb_rename _ _ _ _ | Smb_downloadFile _ _ _ _ | Smb_uploadFile _ _ _ _
  | Smb_copy _ _ _ _ _ _ | Smb_move _ _ _ _ _ _ => fun r w => reported true r w
  end.

(** What the calls may be answered. A reference that the store gives out is new; an
    operation of the store that fails has done nothing; the client may do anything,
    but not to the database or to the secrets. *)
Definition service_answers {B : Set} (c : service_call B)
    : service_world -> B -> service_world -> Prop :=
  match c in service_call B return service_world -> B -> service_world -> Prop with
  | Stored c => fun w b w' => exists db, db_answers c (sw_db w) b db /\ w' = with_db db w
  | SaveSecret _ secret => fun w r w' =>
      if Result_ok r
      then res_value r <> [] /\ sw_secrets w !! res_value r = None /\
           w' = with_secrets (<[res_value r := secret]> (sw_secrets w)) w
      else w' = w
  | LoadSecret ref => fun w r w' => w' = reported false r w /\
      (Result_ok r = true -> sw_secrets w !! ref = Some (res_value r))
  | UpdateSecret ref secret => fun w r w' =>
      w' = if Result_ok r then with_secrets (<[ref := secret]> (sw_secrets w)) w else w
  | RemoveSecret ref => fun w r w' =>
      w' = if Result_ok r then with_secrets (delete ref (sw_secrets w)) w else w
  | Smb op _ => fun w r w' => w' = client_report op r w
  end.

Abbreviation stores p db Q := (awp (fun B => @db_answers _ _ B) False p db Q).
Abbreviation serves p w Q := (awp (fun B => @service_answers B) False p w Q).

Lemma serves_stored {A B} (p : storage A) (f : A -> service B) w Q :
  stores p (sw_db w) (fun db a => serves (f a) (with_db db w) Q) ->
  serves (stored p ≫= f) w Q.
Proof.
  intros Hp. apply awp_bind.
  eapply (awp_lift _ (fun B => @db_answers _ _ B) _ sw_db with_db); try done.
  by intros [].
Qed.

(** A method of the repository. *)
Lemma serves_store {A : Set} {B} (op : store_op A) (f : Result A -> service B) w Q :
  keyed (sw_db w) -> store_op_fits op ->
  (forall db r, store_left op (sw_db w) db r -> serves (f r) (with_db db w) Q) ->
  serves (stored (store_method op) ≫= f) w Q.
Proof.
  intros Hk Hf Hr. apply serves_stored.
  eapply awp_mono; [by apply stores_method|]. intros db r Hl. by apply Hr.
Qed.

Lemma serves_now {B} (f : QDateTime -> service B) w Q :
  (forall now, isValid now = true -> hasIsoYear now = true -> inUtc now = now ->
     serves (f now) w Q) ->
  serves (stored (ask CurrentTime) ≫= f) w Q.
Proof.
  intros Hf. apply serves_stored. intros now db (-> & Hv & Hy & Hu).
  destruct w. by apply Hf.
Qed.

Lemma serves_give {A} (a : A) w (Q : service_world -> A -> Prop) :
  Q w a -> serves (mret a) w Q.
Proof. done. Qed.

(** A method whose answer is the answer of the service. *)
Lemma serves_store_last {A : Set} (op : store_op A) w (Q : service_world -> Result A -> Prop) :
  keyed (sw_db w) -> store_op_fits op ->
  (forall db r, store_left op (sw_db w) db r -> Q (with_db db w) r) ->
  serves (stored (store_method op)) w Q.
Proof.
  intros Hk Hf Hr.
  eapply (awp_lift _ (fun B => @db_answers _ _ B) _ sw_db with_db); try done; [by intros []|].
  eapply awp_mono; [by apply stores_method|]. intros db r Hl. by apply Hr.
Qed.

(** ** Secrets of connections *)

(** Every reference of a connection leads to a secret. *)
Definition backed (store : gmap QString SavedConnection) (secrets : gmap QString bytes)
    : Prop :=
  forall id c, store !! id = Some c -> svc_credentialRef c <> [] ->
    is_Some (secrets !! svc_credentialRef c).

Definition consistent (w : service_world) : Prop :=
  keyed (sw_db w) /\ backed (store_of (sw_db w)) (sw_secrets w).

Lemma backed_insert store secrets id c :
  backed store secrets -> (svc_credentialRef c <> [] -> is_Some (secrets !! svc_credentialRef c)) ->
  backed (<[id := c]> store) secrets.
Proof.
  intros Hb Hc i d. rewrite lookup_insert_Some. intros [[-> <-]|[_ Hd]]; [exact Hc|by eapply Hb].
Qed.

Lemma backed_more store secrets secrets' :
  backed store secrets -> (forall ref, is_Some (secrets !! ref) -> is_Some (secrets' !! ref)) ->
  backed store secrets'.
Proof. intros Hb Hs id c Hc Hr. by eapply Hs, Hb. Qed.

Lemma backed_delete store secrets id :
  backed store secrets -> backed (delete id store) secrets.
Proof. intros Hb i c [_ Hc]%lookup_delete_Some. by eapply Hb. Qed.

(** A reference that no other connection has can go with its connection. *)
Definition unshared (store : gmap QString SavedConnection) (id ref : QString) : Prop :=
  forall i c, store !! i = Some c -> i <> id -> svc_credentialRef c <> ref.

Lemma backed_drop_secret store secrets id ref :
  backed store secrets -> unshared store id ref ->
  backed (delete id store) (delete ref secrets).
Proof.
  intros Hb Hu i c [Hi Hc]%lookup_delete_Some Hr.
  rewrite lookup_delete_ne by (intros He; eapply Hu; [exact Hc|congruence|done]).
  by eapply Hb.
Qed.

Lemma is_Some_insert (secrets : gmap QString bytes) ref secret ref' :
  is_Some (secrets !! ref') -> is_Some (<[ref := secret]> secrets !! ref').
Proof. rewrite lookup_insert_is_Some'. by right. Qed.

Lemma with_same_db w : with_db (sw_db w) w = w.
Proof. by destruct w. Qed.

Lemma map_values (store : gmap QString SavedConnection) id c :
  store !! id = Some c -> c ∈ (map_to_list store).*2.
Proof. intros Hc. apply list_elem_of_fmap. exists (id, c). by rewrite elem_of_map_to_list. Qed.

Definition database_error (e : AppError) : Prop :=
  ae_code e = App_StorageError \/ ae_code e = App_FileNotFound.

(** The database answers, or fails and is as it was. *)
Lemma serves_get {B} id (f : Result SavedConnection -> service B) w Q :
  keyed (sw_db w) ->
  (forall r, (Result_ok r = true -> store_of (sw_db w) !! id = Some (res_value r)) ->
     (Result_ok r = false -> database_error (res_error r)) -> serves (f r) w Q) ->
  serves (stored (repository_getById id) ≫= f) w Q.
Proof.
  intros Hk Hf. apply (serves_store (StoreGet id)); [done..|].
  intros db r (_ & _ & -> & Hr); [|done]. rewrite with_same_db.
  apply Hf; intros Hok; rewrite Hok in Hr; [apply Hr|].
  destruct Hr as [_ [Hc|[Hc _]]]; [by left|by right].
Qed.

Lemma serves_shared {B} ref id w (f : bool -> service B) Q :
  keyed (sw_db w) ->
  (forall b, (b = false -> unshared (store_of (sw_db w)) id ref) -> serves (f b) w Q) ->
  serves (credentialIsShared ref id ≫= f) w Q.
Proof.
  intros Hk Hf. apply awp_bind. apply (serves_store StoreList); [done..|].
  intros db r (_ & _ & -> & Hr); [|done]. rewrite with_same_db. apply serves_give, Hf.
  destruct (Result_ok r); [|done]. destruct Hr as [Hp _]. cbn [negb].
  intros He i c Hc Hi Href. apply not_true_iff_false in He. apply He, existsb_exists.
  exists c. split.
  - apply list_elem_of_In. rewrite Hp. by eapply map_values.
  - cbv beta. rewrite (keyed_id _ _ _ Hk Hc), bool_decide_eq_false_2 by done.
    by rewrite bool_decide_eq_true_2.
Qed.

(** ** Operations *)

Inductive connection_op : Set -> Type :=
| CreateConnection (c : SavedConnection) (secret : secret_pointer)
    : connection_op SavedConnection
| UpdateConnection (c : SavedConnection) (secret : secret_pointer)
    : connection_op SavedConnection
| RemoveConnection (id : QString) : connection_op bool.

Definition connection_method {A : Set} (op : connection_op A) : service (Result A) :=
  match op with
  | CreateConnection c secret => service_create c secret
  | UpdateConnection c secret => service_update c secret
  | RemoveConnection id => service_remove id
  end.

(** A connection that is updated without a new secret keeps a reference that leads
    to one. *)
Definition admissible {A : Set} (op : connection_op A) (w : service_world) : Prop :=
  match op with
  | CreateConnection c _ => store_op_fits (StoreAdd c)
  | UpdateConnection c secret => store_op_fits (StoreUpdate c) /\
      (uses_password c = true -> secret = None -> svc_credentialRef c <> [] ->
       is_Some (sw_secrets w !! svc_credentialRef c))
  | RemoveConnection _ => True
  end.

(** The connection [c] as it is stored: its id, its dates and its reference may be new. *)
Definition like (c r : SavedConnection) : Prop :=
  exists id createdAt updatedAt ref, r = dated id createdAt updatedAt (with_credentialRef ref c).

(** The effect of a success on the store and on the secrets. *)
Definition connection_done {A : Set} (op : connection_op A) (w w' : service_world)
    : A -> Prop :=
  let store := store_of (sw_db w) in
  let store' := store_of (sw_db w') in
  match op in connection_op A return A -> Prop with
  | CreateConnection c secret => fun r =>
      like c r /\ store !! con_id (svc_connection r) = None /\
      store' = <[con_id (svc_connection r) := as_read r]> store /\
      if uses_password c
      then sw_secrets w' !! svc_credentialRef r = secret /\ sw_secrets w ⊆ sw_secrets w'
      else svc_credentialRef r = [] /\ sw_secrets w' = sw_secrets w
  | UpdateConnection c secret => fun r =>
      like c r /\ is_Some (store !! con_id (svc_connection c)) /\
      store' = <[con_id (svc_connection c) := as_read r]> store /\
      if uses_password c
      then match secret with
           | Some s => sw_secrets w' = <[svc_credentialRef r := s]> (sw_secrets w)
           | None => svc_credentialRef r = svc_credentialRef c /\
                     sw_secrets w' = sw_secrets w
           end
      else svc_credentialRef r = [] /\ sw_secrets w' ⊆ sw_secrets w
  | RemoveConnection id => fun r =>
      store' = delete id store /\
      if r : bool then
        sw_secrets w' = sw_secrets w \/
        exists c, store !! id = Some c /\ unshared store id (svc_credentialRef c) /\
          sw_secrets w' = delete (svc_credentialRef c) (sw_secrets w)
      else sw_secrets w' = sw_secrets w
  end.

(** The failure that leaves a reference to nothing: the secret of a connection that
    is to do without a password is removed before the connection is changed, and
    then the connection cannot be changed. *)
Definition secret_lost {A : Set} (op : connection_op A) (w w' : service_world)
    (r : Result A) : Prop :=
  match op with
  | UpdateConnection c _ =>
      uses_password c = false /\ Result_ok r = false /\ sw_db w' = sw_db w /\
      exists previous, store_of (sw_db w) !! con_id (svc_connection c) = Some previous /\
        sw_secrets w' = delete (svc_credentialRef previous) (sw_secrets w)
  | _ => False
  end.

Definition connection_left {A : Set} (op : connection_op A) (w w' : service_world)
    (r : Result A) : Prop :=
  (consistent w' \/ secret_lost op w w' r) /\
  (Result_ok r = true -> connection_done op w w' (res_value r)).

(** ** Creating *)

Lemma connection_failed {A : Set} (op : connection_op A) w w' r :
  consistent w' -> Result_ok r = false -> connection_left op w w' r.
Proof. intros Hc Hr. split; [by left|]. by rewrite Hr. Qed.

Lemma failure_error {A B} (a : A) (r : Result B) :
  Result_ok (Result_failure a (res_error r)) = Result_ok r.
Proof. done. Qed.

Lemma like_dated id createdAt updatedAt ref given c :
  like c (dated id createdAt updatedAt (with_credentialRef ref (with_id given c))).
Proof. by exists id, createdAt, updatedAt, ref. Qed.

Lemma like_changed ref id c createdAt updatedAt :
  like c (dated id createdAt updatedAt (with_credentialRef ref c)).
Proof. by exists id, createdAt, updatedAt, ref. Qed.

Lemma like_update id c createdAt updatedAt : like c (dated id createdAt updatedAt c).
Proof. exists id, createdAt, updatedAt, (svc_credentialRef c). by destruct c. Qed.

(** [repository_add] after the secret was saved, or not. *)
Lemma serves_add_or_clean_up (c0 : SavedConnection) secret c w w0 :
  consistent w -> store_of (sw_db w) = store_of (sw_db w0) ->
  store_op_fits (StoreAdd c) -> con_id (svc_connection c) <> [] ->
  (svc_credentialRef c <> [] -> is_Some (sw_secrets w !! svc_credentialRef c)) ->
  (svc_credentialRef c <> [] -> sw_secrets w0 !! svc_credentialRef c = None) ->
  consistent w0 ->
  (forall ref, ref <> svc_credentialRef c -> sw_secrets w !! ref = sw_secrets w0 !! ref) ->
  uses_password c = uses_password c0 ->
  (forall id createdAt updatedAt, like c0 (dated id createdAt updatedAt c)) ->
  (if uses_password c0
   then svc_credentialRef c <> [] /\ sw_secrets w !! svc_credentialRef c = secret
   else svc_credentialRef c = [] /\ sw_secrets w = sw_secrets w0) ->
  serves (add_or_clean_up c) w (connection_left (CreateConnection c0 secret) w0).
Proof.
  intros [Hk Hb] Hs Hf Hid Hin Hnew Hw0 Hold Hu Hlike Hp. unfold add_or_clean_up.
  apply (serves_store (StoreAdd c)); [done..|]. intros db r (Hk' & _ & _ & Hr).
  destruct (Result_ok r) eqn:Hok; cbn [negb andb].
  - destruct Hr as (id & now & _ & Hc & Hv & Hn & Hst). destruct Hc as [Hc|<-]; [done|].
    apply serves_give. split.
    + left. split; [done|]. cbn [sw_db sw_secrets with_db]. rewrite Hst, Hv.
      by apply backed_insert.
    + intros _. cbn. rewrite Hv, <- Hs. split; [apply Hlike|]. split; [done|].
      split; [by rewrite Hst, Hv|].
      destruct (uses_password c0).
      * destruct Hp as [Hne <-]. split; [done|]. apply map_subseteq_spec.
        intros ref s Href. rewrite Hold; [done|]. intros ->. by rewrite (Hnew Hne) in Href.
      * exact Hp.
  - destruct Hr as [-> _]. rewrite with_same_db.
    destruct (uses_password c && negb (isEmpty (svc_credentialRef c))) eqn:Hcl.
    2: { apply serves_give, connection_failed; [by split|done]. }
    intros removed w'; cbn. intros ->. apply serves_give, connection_failed; [|done].
    destruct (Result_ok removed); [|by split]. split; [done|]. cbn [with_secrets sw_db sw_secrets].
    apply andb_true_iff in Hcl as [_ Hcl]. rewrite Hs.
    eapply backed_more; [exact (proj2 Hw0)|]. intros ref Href.
    assert (ref <> svc_credentialRef c) as Hne.
    { intros ->. rewrite Hnew in Href; [by destruct Href|].
      by destruct (svc_credentialRef c). }
    by rewrite lookup_delete_ne, Hold.
Qed.

Lemma serves_create c secret w :
  consistent w -> admissible (CreateConnection c secret) w ->
  serves (service_create c secret) w (connection_left (CreateConnection c secret) w).
Proof.
  intros Hw Hf. unfold service_create. apply awp_bind.
  assert (serves (if isEmpty (con_id (svc_connection c)) then stored (ask CreateId)
                  else mret (con_id (svc_connection c))) w
            (fun w' id => w' = w /\ id <> [])) as Hid.
  { destruct (con_id (svc_connection c)); cbn; [|done].
    intros id w' (db & [-> Hid] & ->). by rewrite with_same_db. }
  eapply awp_mono; [exact Hid|]. intros w' id [-> Hne]. clear Hid.
  change (uses_password (with_id id c)) with (uses_password c).
  destruct (uses_password c) eqn:Hu.
  - destruct secret as [secret|]; [|by apply serves_give, connection_failed].
    apply awp_ask. intros saved w' Hs. cbn in Hs.
    destruct (Result_ok saved) eqn:Hok; cbn [negb].
    2: { subst w'. by apply serves_give, connection_failed. }
    destruct Hs as (Href & Hnew & ->).
    apply serves_add_or_clean_up; cbn; rewrite ?Hu, ?lookup_insert_eq; try done.
    + split; [apply Hw|]. eapply backed_more; [apply Hw|]. intros ref. apply is_Some_insert.
    + intros ref Hr. by rewrite lookup_insert_ne.
    + intros i d1 d2. apply like_dated.
  - apply serves_add_or_clean_up; cbn; rewrite ?Hu; try done.
    intros i d1 d2. apply like_dated.
Qed.

(** ** Updating *)

(** [repository_update] after what was done to the secrets. *)
Lemma serves_changed c secret c1 w w1 :
  let id := con_id (svc_connection c) in
  keyed (sw_db w) -> sw_db w1 = sw_db w -> store_op_fits (StoreUpdate c1) ->
  con_id (svc_connection c1) = id ->
  (forall createdAt updatedAt, like c (dated id createdAt updatedAt c1)) ->
  (forall d, svc_credentialRef d = svc_credentialRef c1 ->
     backed (<[id := d]> (store_of (sw_db w))) (sw_secrets w1)) ->
  (if uses_password c
   then match secret with
        | Some s => sw_secrets w1 = <[svc_credentialRef c1 := s]> (sw_secrets w)
        | None => svc_credentialRef c1 = svc_credentialRef c /\ sw_secrets w1 = sw_secrets w
        end
   else svc_credentialRef c1 = [] /\ sw_secrets w1 ⊆ sw_secrets w) ->
  (forall r, Result_ok r = false -> connection_left (UpdateConnection c secret) w w1 r) ->
  serves (stored (repository_update c1)) w1 (connection_left (UpdateConnection c secret) w).
Proof.
  intros id Hk Hd Hf Hi Hlike Hb Hs Hfail.
  apply (serves_store_last (StoreUpdate c1)); [by rewrite Hd|done|].
  intros db r (Hk' & _ & _ & Hr). destruct (Result_ok r) eqn:Hok.
  - destruct Hr as (now & _ & Hv & Hex & Hst). rewrite Hi, Hd in *. split.
    + left. split; [done|]. cbn [sw_db sw_secrets with_db]. rewrite Hst.
      apply Hb. by rewrite Hv.
    + intros _. split; [rewrite Hv; apply Hlike|]. split; [done|].
      split; [exact Hst|]. rewrite Hv. exact Hs.
  - destruct Hr as [-> _]. rewrite with_same_db. by apply Hfail.
Qed.

(** A failure that left the database and the references of its connections. *)
Lemma update_failed c secret w w1 r :
  consistent w -> sw_db w1 = sw_db w -> backed (store_of (sw_db w)) (sw_secrets w1) ->
  Result_ok r = false -> connection_left (UpdateConnection c secret) w w1 r.
Proof.
  intros Hw Hd Hb. apply connection_failed. split; rewrite Hd; [apply Hw|done].
Qed.

Lemma backed_secret store secrets ref s :
  backed store secrets -> backed store (<[ref := s]> secrets).
Proof. intros Hb. eapply backed_more; [done|]. intros ref'. apply is_Some_insert. Qed.

(** The connection refers to a secret that was just stored. *)
Lemma serves_changed_secret c s c1 w :
  let w1 := with_secrets (<[svc_credentialRef c1 := s]> (sw_secrets w)) w in
  consistent w -> uses_password c = true -> store_op_fits (StoreUpdate c1) ->
  con_id (svc_connection c1) = con_id (svc_connection c) ->
  (forall createdAt updatedAt,
     like c (dated (con_id (svc_connection c)) createdAt updatedAt c1)) ->
  serves (stored (repository_update c1)) w1
    (connection_left (UpdateConnection c (Some s)) w).
Proof.
  intros w1 Hw Hu Hf Hi Hlike. pose proof Hw as [Hk Hb].
  apply serves_changed; cbn [w1 sw_db sw_secrets with_secrets]; try done.
  - intros d He. apply backed_insert; [by apply backed_secret|].
    intros _. rewrite He. by rewrite lookup_insert_eq.
  - by rewrite Hu.
  - intros r. apply update_failed; [done..|by apply backed_secret].
Qed.

(** [update] for a connection with a password, once the old one was found. *)
Lemma serves_update_password c secret w :
  consistent w -> admissible (UpdateConnection c secret) w -> uses_password c = true ->
  let id := con_id (svc_connection c) in
  let ref := svc_credentialRef c in
  serves match secret with
    | Some secret =>
        if isEmpty ref then
          saved ← ask (SaveSecret id secret);
          if negb (Result_ok saved) then service_failure no_connection (res_error saved)
          else stored (repository_update (with_credentialRef (res_value saved) c))
        else
          updated ← ask (UpdateSecret ref secret);
          if negb (Result_ok updated) then service_failure no_connection (res_error updated)
          else stored (repository_update c)
    | None =>
        if isEmpty ref then service_failure no_connection missingCredentialError
        else stored (repository_update c)
    end w (connection_left (UpdateConnection c secret) w).
Proof.
  intros Hw [Hf Hadm] Hu id ref. pose proof Hw as [Hk Hb].
  destruct secret as [s|]; destruct (isEmpty ref) eqn:Href.
  - apply awp_ask. intros saved w1 Hs. cbn in Hs.
    destruct (Result_ok saved) eqn:Hok; cbn [negb].
    + destruct Hs as (_ & _ & ->). 
      apply (serves_changed_secret c s (with_credentialRef _ c)); try done. apply like_changed.
    + subst w1. by apply serves_give, update_failed.
  - apply awp_ask. intros updated w1 Hs. cbn in Hs.
    destruct (Result_ok updated) eqn:Hok; subst w1; cbn [negb].
    + apply serves_changed_secret; try done. apply like_update.
    + by apply serves_give, update_failed.
  - by apply serves_give, update_failed.
  - apply serves_changed; try done.
    + apply like_update.
    + intros d Hd. apply backed_insert; [done|]. rewrite Hd. by apply Hadm.
    + by rewrite Hu.
    + intros r. by apply update_failed.
Qed.

(** Whether a reference may go. *)
Lemma serves_unshared {B} ref id w (f : bool -> service B) Q :
  keyed (sw_db w) ->
  (forall b, (b = true -> unshared (store_of (sw_db w)) id ref) -> serves (f b) w Q) ->
  serves (and_then (negb (isEmpty ref))
            (shared ← credentialIsShared ref id; mret (negb shared)) ≫= f) w Q.
Proof.
  intros Hk Hf. unfold and_then. destruct (isEmpty ref); cbn [negb]; [by apply Hf|].
  apply awp_bind. apply serves_shared; [done|]. intros b Hb. apply serves_give, Hf.
  destruct b; [done|]. intros _. by apply Hb.
Qed.

Lemma serves_update c secret w :
  consistent w -> admissible (UpdateConnection c secret) w ->
  serves (service_update c secret) w (connection_left (UpdateConnection c secret) w).
Proof.
  intros Hw Ha. pose proof Hw as [Hk Hb]. pose proof Ha as [Hf _]. unfold service_update.
  apply serves_get; [done|]. intros existing Hex _.
  destruct (Result_ok existing) eqn:Hok; cbn [negb];
    [specialize (Hex eq_refl)|by apply serves_give, update_failed].
  destruct (uses_password c) eqn:Hu; [by apply serves_update_password|].
  set (previous := res_value existing) in *.
  apply serves_unshared; [done|]. intros [] Hun.
  - specialize (Hun eq_refl). apply awp_ask. intros removed w1 Hs. cbn in Hs.
    destruct (Result_ok removed) eqn:Hrok; subst w1; cbn [negb];
      [|by apply serves_give, update_failed].
    apply serves_changed; cbn [sw_db sw_secrets with_secrets]; try done.
    + apply like_changed.
    + intros d He. rewrite <- insert_delete_eq. apply backed_insert; [|by rewrite He].
      by apply backed_drop_secret.
    + rewrite Hu. split; [done|]. apply delete_subseteq.
    + intros r Hr. split; [|by rewrite Hr]. right. split_and!; try done. by exists previous.
  - apply serves_changed; try done.
    + apply like_changed.
    + intros d He. apply backed_insert; [done|]. by rewrite He.
    + by rewrite Hu.
    + intros r. by apply update_failed.
Qed.

(** ** Removing *)

Lemma serves_remove id w :
  consistent w ->
  serves (service_remove id) w (connection_left (RemoveConnection id) w).
Proof.
  intros Hw. pose proof Hw as [Hk Hb]. unfold service_remove.
  apply serves_get; [done|]. intros existing Hex _.
  destruct (Result_ok existing) eqn:Hok; cbn [negb];
    [specialize (Hex eq_refl)|by apply serves_give, connection_failed].
  set (previous := res_value existing) in *.
  apply serves_unshared; [done|]. intros b Hun.
  apply (serves_store (StoreRemove id)); [done..|]. intros db r (Hk' & _ & _ & Hr).
  destruct (Result_ok r) eqn:Hrok; cbn [negb].
  2: { destruct Hr as [-> _]. rewrite with_same_db. by apply serves_give, connection_failed. }
  destruct Hr as [Hv Hst]. rewrite bool_decide_eq_true_2 in Hv by (by rewrite Hex; eexists).
  rewrite Hv. cbn [negb].
  assert (consistent (with_db db w)) as Hw'.
  { split; [done|]. cbn [sw_db sw_secrets with_db]. rewrite Hst. by apply backed_delete. }
  destruct b.
  - specialize (Hun eq_refl). apply awp_ask. intros removed w1 Hs. cbn in Hs.
    destruct (Result_ok removed) eqn:Hmok; subst w1; cbn [negb].
    2: { by apply serves_give, connection_failed. }
    apply serves_give. split.
    + left. split; [done|]. cbn [sw_db sw_secrets with_db with_secrets]. rewrite Hst.
      by apply backed_drop_secret.
    + intros _. split; [done|]. right. by exists previous.
  - apply serves_give. split; [by left|]. intros _. split; [done|]. by left.
Qed.

Lemma serves_connection {A : Set} (op : connection_op A) w :
  consistent w -> admissible op w -> serves (connection_method op) w (connection_left op w).
Proof.
  intros Hw Ha. destruct op.
  - by apply serves_create.
  - by apply serves_update.
  - by apply serves_remove.
Qed.

(** C10: Connections keep their secrets. Take a database whose rows are kept by their
    ids and in which every credential reference leads to a secret, and a connection to
    update that does, too. Then [create], [update] and [remove] end, whatever the
    database and the store of secrets answer. On success the connection is in the
    database as it was given, but for its id, its dates and its reference, and this
    leads to the secret that was given with it; a connection that was removed is gone,
    and of the secrets at most its own, if no other connection refers to it. And in
    every case, failures included, every
    reference leads to a secret again, but for one: the update of a connection that is
    to do without a password removes the secret first, and if the database then fails,
    the connection is left with a reference to nothing. *)
Theorem credentials_never_dangle {A : Set} (op : connection_op A) w o w' :
  consistent w -> admissible op w ->
  asks (fun B => @service_answers B) (connection_method op) w o w' ->
  exists r, o = Some r /\
    (Result_ok r = true -> connection_done op w w' (res_value r)) /\
    (consistent w' \/ secret_lost op w w' r).
Proof.
  intros Hw Ha Hr. eapply awp_runs in Hr; [|by apply serves_connection].
  destruct o as [r|]; [|done]. exists r. by destruct Hr.
Qed.

(** ** Failures *)

Inductive remote_service : Set -> Type :=
| OpenConnection (id : QString) : remote_service OpenConnectionResult
| ListRemote (id path : QString) : remote_service OpenConnectionResult
| CreateRemote (id path : QString) : remote_service bool
| RemoveRemote (id path : QString) : remote_service bool
| RenameRemote (id source target : QString) : remote_service bool
| DownloadRemote (id path localPath : QString) : remote_service bool
| UploadRemote (id localPath path : QString) : remote_service bool
| CopyRemote (sourceId source targetId target : QString) : remote_service bool
| MoveRemote (sourceId source targetId target : QString) : remote_service bool.

Definition remote_method {A : Set} (context : CoreContext) (op : remote_service A)
    : service (Result A) :=
  match op with
  | OpenConnection id => open_connection context id
  | ListRemote id path => open_listDirectory context id path
  | CreateRemote id path => open_createDirectory context id path
  | RemoveRemote id path => open_remove context id path
  | RenameRemote id source target => open_rename context id source target
  | DownloadRemote id path localPath => open_downloadFile context id path localPath
  | UploadRemote id localPath path => open_uploadFile context id localPath path
  | CopyRemote sourceId source targetId target =>
      open_copy context sourceId source targetId target
  | MoveRemote sourceId source targetId target =>
      open_move context sourceId source targetId target
  end.

(** Whose failure it is when the client fails, or the store of secrets. *)
Definition blamed_ids {A : Set} (op : remote_service A) (client : bool) : list QString :=
  match op with
  | OpenConnection id | ListRemote id _ | CreateRemote id _ | RemoveRemote id _
  | RenameRemote id _ _ | DownloadRemote id _ _ | UploadRemote id _ _ => [id]
  | CopyRemote s _ t _ | MoveRemote s _ t _ =>
      if client && negb (bool_decide (s = t)) then [s; t] else [s]
  end.

(** The error is written to the connections, as far as the database lets it. *)
Fixpoint remembered (ids : list QString) (e : AppError)
    (store store' : gmap QString SavedConnection) : Prop :=
  match ids with
  | [] => store' = store
  | id :: ids => exists store1,
      (store1 = store \/ exists now,
         store1 = alter (blamed (ae_code e) (errorMessageForStorage e) now) id store) /\
      remembered ids e store1 store'
  end.

(** What an operation leaves that did not fail in the client: [open] stamps. *)
Definition stamped {A : Set} (op : remote_service A)
    (store store' : gmap QString SavedConnection) : Prop :=
  store' = store \/
  match op with
  | OpenConnection id => exists openedAt now, store' = alter (opened openedAt now) id store
  | _ => False
  end.

Definition between_two {A : Set} (op : remote_service A) : bool :=
  match op with CopyRemote _ _ _ _ | MoveRemote _ _ _ _ => true | _ => false end.

Definition remote_left {A : Set} (op : remote_service A) (w w' : service_world)
    (r : Result A) : Prop :=
  let store := store_of (sw_db w) in
  let store' := store_of (sw_db w') in
  keyed (sw_db w') /\ sw_secrets w' = sw_secrets w /\
  match sw_failure w' with
  | Some (client, e) =>
      Result_ok r = false /\ res_error r = e /\
      remembered (blamed_ids op client) e store store'
  | None =>
      if Result_ok r then stamped op store store'
      else database_error (res_error r) /\
        if between_two op then remembered (blamed_ids op false) (res_error r) store store'
        else stamped op store store'
  end.

(** The result of a success of [open] is of the connection and of the path that was
    asked for. *)
Definition open_done {A : Set} (op : remote_service A) (w w' : service_world) (r : A) : Prop :=
  match op in remote_service A return A -> Prop with
  | OpenConnection id => fun r =>
      store_of (sw_db w') !! id = Some (ocr_connection r) /\
      exists c, store_of (sw_db w) !! id = Some c /\
        ocr_currentRemotePath r = normalizedStartPath (svc_initialRemotePath c)
  | ListRemote id path => fun r =>
      store_of (sw_db w') !! id = Some (ocr_connection r) /\
      ocr_currentRemotePath r = normalizedStartPath path
  | _ => fun _ => True
  end r.

Definition when_failing (client : bool) (e : AppError) (w : service_world) : service_world :=
  mkServiceWorld (sw_db w) (sw_secrets w) (Some (client, e)).

Lemma reported_ok {A} client (r : Result A) w : Result_ok r = true -> reported client r w = w.
Proof. unfold reported. intros ->. by destruct w. Qed.

Lemma reported_failing {A} client (r : Result A) w :
  Result_ok r = false -> reported client r w = when_failing client (res_error r) w.
Proof. unfold reported. by intros ->. Qed.

Lemma serves_remember {B} id e (f : unit -> service B) w Q :
  keyed (sw_db w) ->
  (forall db, keyed db -> remembered [id] e (store_of (sw_db w)) (store_of db) ->
     serves (f tt) (with_db db w) Q) ->
  serves (rememberError id e ≫= f) w Q.
Proof.
  intros Hk Hf. apply awp_bind.
  apply (serves_store (StoreError id (ae_code e) (errorMessageForStorage e))); [done..|].
  intros db r (Hk' & _ & _ & Hr). apply serves_give, Hf; [done|].
  exists (store_of db). split; [|done]. destruct (Result_ok r).
  - destruct Hr as (now & _ & Hr). right. by exists now.
  - destruct Hr as [-> _]. by left.
Qed.


Lemma serves_load_secret {B} c (f : Result secret_pointer -> service B) w Q :
  (forall secret, serves (f (Result_success secret)) w Q) ->
  (forall r, Result_ok r = false -> serves (f r) (when_failing false (res_error r) w) Q) ->
  serves (loadSecret c ≫= f) w Q.
Proof.
  intros Hs Hf. unfold loadSecret. destruct (usesStoredCredential c); cbn [negb]; [|by apply Hs].
  apply awp_bind, awp_ask. intros secret w' [-> _].
  destruct (Result_ok secret) eqn:Hok; cbn [negb]; apply serves_give.
  - rewrite reported_ok by done. apply Hs.
  - rewrite reported_failing by done. by apply (Hf (Result_failure None (res_error secret))).
Qed.

Lemma serves_with_secret {A} (none : A) id k w Q :
  keyed (sw_db w) ->
  (forall e, database_error e -> Q w (Result_failure none e)) ->
  (forall e db, Result_ok (Result_failure none e) = false -> keyed db ->
     remembered [id] e (store_of (sw_db w)) (store_of db) ->
     Q (when_failing false e (with_db db w)) (Result_failure none e)) ->
  (forall c secret, store_of (sw_db w) !! id = Some c -> serves (k c secret) w Q) ->
  serves (with_secret none id k) w Q.
Proof.
  intros Hk Hdb Hs Hf. unfold with_secret. apply serves_get; [done|]. intros loaded Hc He.
  destruct (Result_ok loaded) eqn:Hok; cbn [negb]; [|by apply serves_give, Hdb, He].
  specialize (Hc eq_refl). apply serves_load_secret; [by intros secret; apply Hf|].
  intros r Hr. rewrite Hr. cbn [negb]. rewrite (keyed_id _ _ _ Hk Hc).
  apply serves_remember; [done|]. intros db Hk' Hrem. by apply serves_give, Hs.
Qed.

(** A call of the client whose result is a [Result]. *)
Lemma serves_client {A} {B} (op : smb_op (Result A)) context (f : Result A -> service B) w Q :
  (forall r, client_report op r w = reported true r w) ->
  (forall r, Result_ok r = true -> serves (f r) w Q) ->
  (forall r, Result_ok r = false -> serves (f r) (when_failing true (res_error r) w) Q) ->
  serves (ask (Smb op context) ≫= f) w Q.
Proof.
  intros Ho Hs Hf. apply awp_ask. intros r w' ->. rewrite Ho.
  destruct (Result_ok r) eqn:Hok.
  - rewrite reported_ok by done. by apply Hs.
  - rewrite reported_failing by done. by apply Hf.
Qed.

(** The three ways an operation on one connection ends without a success. *)
Lemma remote_database_error {A : Set} (op : remote_service A) w w' none e :
  keyed (sw_db w') -> sw_secrets w' = sw_secrets w -> sw_failure w' = None ->
  database_error e -> between_two op = false -> stamped op (store_of (sw_db w)) (store_of (sw_db w')) ->
  remote_left op w w' (Result_failure none e).
Proof.
  intros Hk Hs Hn He Hb Hst. split; [done|]. split; [done|]. rewrite Hn, Hb.
  assert (Result_ok (Result_failure none e) = false) as ->; [|done].
  unfold Result_ok, hasError. cbn. by destruct He as [->| ->].
Qed.

Lemma remote_failing {A : Set} (op : remote_service A) w w1 db client r e :
  sw_secrets w1 = sw_secrets w -> Result_ok r = false -> res_error r = e -> keyed db ->
  remembered (blamed_ids op client) e (store_of (sw_db w)) (store_of db) ->
  remote_left op w (with_db db (when_failing client e w1)) r.
Proof. by intros. Qed.

Lemma serves_runFileOperation context id f (op : remote_service bool) w :
  keyed (sw_db w) -> sw_failure w = None -> between_two op = false ->
  (forall client, blamed_ids op client = [id]) ->
  (forall c secret r, client_report (f c secret) r w = reported true r w) ->
  serves (runFileOperation context id f) w (remote_left op w).
Proof.
  intros Hk Hn Hb Hi Hf. apply serves_with_secret; [done|..].
  - intros e He. apply remote_database_error; try done. by left.
  - intros e db Hok Hk' Hrem. apply (remote_failing op w w db false); try done. by rewrite Hi.
  - intros c secret Hc. apply serves_client; [done|..].
    + intros r Hr. rewrite Hr. cbn [negb]. apply serves_give.
      split_and!; [done..|]. rewrite Hn, Hr. by left.
    + intros r Hr. rewrite Hr. cbn [negb]. rewrite (keyed_id _ _ _ Hk Hc).
      apply serves_remember; [done|]. intros db Hk' Hrem. apply serves_give.
      apply remote_failing; try done. by rewrite Hi.
Qed.

Lemma database_error_fails {A} (none : A) e :
  database_error e -> Result_ok (Result_failure none e) = false.
Proof. unfold Result_ok, hasError. cbn. by intros [->| ->]. Qed.

(** The stamp of [open]. *)
Lemma serves_stamp {B} id stamp (op : remote_service OpenConnectionResult)
    (f : Result bool -> service B) w Q :
  keyed (sw_db w) -> (stamp = true -> op = OpenConnection id) ->
  (forall r db, keyed db -> stamped op (store_of (sw_db w)) (store_of db) ->
     (Result_ok r = false -> database_error (res_error r)) -> serves (f r) (with_db db w) Q) ->
  serves ((if stamp : bool then
             openedAt ← stored (ask CurrentTime);
             stored (repository_updateLastOpened id openedAt)
           else mret (Result_success true)) ≫= f) w Q.
Proof.
  intros Hk Hst Hf. apply awp_bind. destruct stamp.
  - rewrite (Hst eq_refl) in Hf. apply serves_now. intros now Hv Hy Hu.
    apply (serves_store_last (StoreOpened id now)); [done|by intros ?|].
    intros db r (Hk' & _ & _ & Hr). apply Hf; [done|..].
    + destruct (Result_ok r); [|by destruct Hr as [-> _]; left].
      destruct Hr as (now' & _ & Hr). right. by exists now, now'.
    + intros Hok. rewrite Hok in Hr. destruct Hr as [_ [Hc|[Hc _]]]; [by left|by right].
  - rewrite <- (with_same_db w). apply Hf; [done|by left|done].
Qed.

Lemma serves_openAtPath context id path stamp (op : remote_service OpenConnectionResult) w :
  keyed (sw_db w) -> sw_failure w = None -> between_two op = false ->
  (forall client, blamed_ids op client = [id]) ->
  (stamp = true -> op = OpenConnection id) ->
  serves (openAtPath context id path stamp) w (fun w' r =>
    remote_left op w w' r /\
    (Result_ok r = true ->
       store_of (sw_db w') !! id = Some (ocr_connection (res_value r)) /\
       ocr_currentRemotePath (res_value r) = normalizedStartPath path)).
Proof.
  intros Hk Hn Hb Hi Hst. apply serves_with_secret; [done|..].
  - intros e He. rewrite database_error_fails by done. split; [|done].
    apply remote_database_error; try done. by left.
  - intros e db Hok Hk' Hrem. rewrite Hok. split; [|done].
    apply (remote_failing op w w db false); try done. by rewrite Hi.
  - intros c secret Hc. apply serves_client; [done|..].
    2: { intros r Hr. rewrite Hr. cbn [negb]. rewrite (keyed_id _ _ _ Hk Hc).
         apply serves_remember; [done|]. intros db Hk' Hrem. apply serves_give.
         split; [|by rewrite failure_error, Hr]. apply remote_failing; try done. by rewrite Hi. }
    intros listed Hl. rewrite Hl. cbn [negb]. rewrite (keyed_id _ _ _ Hk Hc).
    apply (serves_stamp id stamp op); [done..|]. intros r db Hk' Hs He.
    destruct (Result_ok r) eqn:Hok; cbn [negb].
    2: { apply serves_give. rewrite database_error_fails by auto. split; [|done].
         apply remote_database_error; auto. }
    apply serves_get; [done|]. intros refreshed Hc' He'.
    destruct (Result_ok refreshed) eqn:Hrok; cbn [negb].
    2: { apply serves_give. rewrite database_error_fails by auto. split; [|done].
         apply remote_database_error; auto. }
    specialize (Hc' eq_refl). apply awp_ask. intros caps w2 ->. apply serves_give.
    split; [|by intros _]. split_and!; [done..|]. cbn [client_report sw_failure with_db].
    by rewrite Hn.
Qed.

Lemma serves_load_both {B} id (f : Result (SavedConnection * secret_pointer) -> service B) w Q :
  keyed (sw_db w) ->
  (forall c secret, store_of (sw_db w) !! id = Some c ->
     serves (f (Result_success (c, secret))) w Q) ->
  (forall r, Result_ok r = false -> database_error (res_error r) -> serves (f r) w Q) ->
  (forall r, Result_ok r = false -> serves (f r) (when_failing false (res_error r) w) Q) ->
  serves (loadConnectionWithSecret id ≫= f) w Q.
Proof.
  intros Hk Hs Hdb Hf. unfold loadConnectionWithSecret. apply awp_bind.
  apply serves_get; [done|]. intros loaded Hc He.
  destruct (Result_ok loaded) eqn:Hok; cbn [negb].
  2: { apply serves_give, Hdb; [by rewrite failure_error|by apply He]. }
  apply serves_load_secret.
  - intros secret. apply serves_give. by apply Hs, Hc.
  - intros r Hr. change (@Result_ok (option bytes) r) with (@Result_ok secret_pointer r).
    rewrite Hr. cbn [negb]. apply serves_give.
    by apply (Hf (Result_failure (no_connection, None) (res_error r))).
Qed.

Lemma remote_between_error (op : remote_service bool) w db r :
  sw_failure w = None -> keyed db -> between_two op = true ->
  Result_ok r = false -> database_error (res_error r) ->
  remembered (blamed_ids op false) (res_error r) (store_of (sw_db w)) (store_of db) ->
  remote_left op w (with_db db w) r.
Proof.
  intros Hn Hk Hb Hok He Hrem. split; [done|]. split; [done|].
  cbn [sw_failure with_db sw_db]. by rewrite Hn, Hok, Hb.
Qed.

Lemma serves_between_connections context operation s source t target
    (op : remote_service bool) w :
  keyed (sw_db w) -> sw_failure w = None -> between_two op = true ->
  (forall client, blamed_ids op client =
     if client && negb (bool_decide (s = t)) then [s; t] else [s]) ->
  (forall c1 s1 p1 c2 s2 p2 r,
     client_report (operation c1 s1 p1 c2 s2 p2) r w = reported true r w) ->
  serves (between_connections context operation s source t target) w (remote_left op w).
Proof.
  intros Hk Hn Hb Hi Hop. unfold between_connections.
  apply serves_load_both; [done|..].
  2: { intros r Hr He. rewrite Hr. apply serves_remember; [done|]. intros db Hk' Hrem.
       apply serves_give, remote_between_error; try done. by rewrite Hi. }
  2: { intros r Hr. rewrite Hr. apply serves_remember; [done|]. intros db Hk' Hrem.
       apply serves_give, remote_failing; try done. by rewrite Hi. }
  intros c1 secret1 Hc1. cbn [negb res_value Result_success]. rewrite success_ok.
  cbn [negb]. rewrite (keyed_id _ _ _ Hk Hc1). apply serves_load_both; [done|..].
  2: { intros r Hr He. rewrite Hr. apply serves_remember; [done|]. intros db Hk' Hrem.
       apply serves_give, remote_between_error; try done. by rewrite Hi. }
  2: { intros r Hr. rewrite Hr. apply serves_remember; [done|]. intros db Hk' Hrem.
       apply serves_give, remote_failing; try done. by rewrite Hi. }
  intros c2 secret2 Hc2. rewrite success_ok. cbn [negb res_value Result_success].
  rewrite (keyed_id _ _ _ Hk Hc2). apply serves_client; [done|..].
  - intros r Hr. rewrite Hr. apply serves_give. split_and!; [done..|]. rewrite Hn, Hr. by left.
  - intros r Hr. rewrite Hr. cbn [negb]. apply serves_remember; [done|].
    intros db Hk' (store1 & Hst & Hs1). cbn [remembered] in Hs1.
    case_bool_decide as Hst'; cbn [negb].
    + apply serves_give, remote_failing; try done. rewrite Hi.
      by exists store1.
    + apply serves_remember; [done|]. intros db2 Hk2 Hrem. apply serves_give.
      apply (remote_failing op w w db2 true); try done.
      rewrite Hi. exists store1. split; [done|].
      cbn [sw_db with_db when_failing] in Hrem. by rewrite Hs1 in Hrem.
Qed.

Lemma serves_remote {A : Set} context (op : remote_service A) w :
  keyed (sw_db w) -> sw_failure w = None ->
  serves (remote_method context op) w (fun w' r =>
    remote_left op w w' r /\ (Result_ok r = true -> open_done op w w' (res_value r))).
Proof.
  intros Hk Hn.
  destruct op; try match goal with |- awp _ _ (remote_method _ ?o) _ _ =>
    eapply (awp_mono _ _ _ _ (remote_left o w));
      [first [by apply (serves_runFileOperation _ _ _ o)
             |by apply (serves_between_connections _ _ _ _ _ _ o)]
      |intros w1 r Hl; by split] end.
  - apply serves_get; [done|]. intros loaded Hc He.
    destruct (Result_ok loaded) eqn:Hok; cbn [negb].
    + eapply awp_mono; [by apply (serves_openAtPath _ _ _ _ (OpenConnection id))|].
      intros w' r [Hl Hd]. split; [done|]. intros Hr. destruct (Hd Hr) as [Hi Hp].
      split; [done|]. exists (res_value loaded). split; [by apply Hc|done].
    + apply serves_give. rewrite database_error_fails by auto. split; [|done].
      apply remote_database_error; try done; [by apply He|by left].
  - by apply (serves_openAtPath _ _ _ _ (ListRemote id path)).
Qed.


End service_runs.

(** ** A world *)

#[local] Existing Instances sample_json sample_json_laws.

(** Copies time out, and everything else succeeds. *)
Definition sample_client {A : Set} (op : smb_op A) : A :=
  match op with
  | Smb_capabilities _ => no_capabilities
  | Smb_probeCapabilities _ _ => Result_success no_report
  | Smb_listShares _ _ => Result_success []
  | Smb_listDirectory _ _ _ => Result_success []
  | Smb_copy _ _ _ _ _ _ =>
      Result_failure false (fromCode App_Timeout ErrorCategory_Smb [] true)
  | Smb_checkConnection _ _ | Smb_createDirectory _ _ _ | Smb_remove _ _ _
  | Smb_rename _ _ _ _ | Smb_downloadFile _ _ _ _ | Smb_uploadFile _ _ _ _
  | Smb_move _ _ _ _ _ _ => Result_success true
  end.

(** [locked]: whether the database refuses to change rows. *)
Definition locking (locked : bool) {B : Set} (c : storage_call B)
    : database -> option (B * database) :=
  match c in storage_call B return database -> option (B * database) with
  | Exec s bindings => fun db =>
      match s, locked with
      | UpdateWhereId _ _, true => Some (inl (QStringLiteral "database is locked"), db)
      | _, _ => db_serve (Exec s bindings) db
      end
  | CreateId => db_serve CreateId
  | CurrentTime => db_serve CurrentTime
  end.

Lemma locking_answers locked (B : Set) (c : storage_call B) db b db' :
  locking locked c db = Some (b, db') -> db_answers c db b db'.
Proof.
  destruct c as [s bindings| |]; [|apply db_serve_answers..].
  destruct s, locked; try apply db_serve_answers. by intros [= <- <-].
Qed.

Definition service_serve (locked : bool) {B : Set} (c : service_call B)
    : service_world -> option (B * service_world) :=
  match c in service_call B return service_world -> option (B * service_world) with
  | Stored c => fun w =>
      '(b, db) ← locking locked c (sw_db w);
      Some (b, with_db db w)
  | SaveSecret owner secret => fun w =>
      let ref := QStringLiteral "vault:" ++ owner in
      match sw_secrets w !! ref with
      | None => Some (Result_success ref,
                      with_secrets (<[ref := secret]> (sw_secrets w)) w)
      | Some _ => Some (Result_failure [] (storageError []), w)
      end
  | LoadSecret ref => fun w =>
      let r := match sw_secrets w !! ref with
               | Some secret => Result_success secret
               | None => Result_failure [] missingCredentialError
               end in
      Some (r, reported false r w)
  | UpdateSecret ref secret => fun w =>
      Some (Result_success true, with_secrets (<[ref := secret]> (sw_secrets w)) w)
  | RemoveSecret ref => fun w =>
      Some (Result_success true, with_secrets (delete ref (sw_secrets w)) w)
  | Smb op _ => fun w => Some (sample_client op, client_report op (sample_client op) w)
  end.

Lemma service_serve_answers locked (B : Set) (c : service_call B) w b w' :
  service_serve locked c w = Some (b, w') -> service_answers c w b w'.
Proof.
  destruct c as [B c|owner secret|ref|ref secret|ref|A op context]; cbn [service_serve].
  - destruct (locking locked c (sw_db w)) as [[b0 db]|] eqn:Hl; [|done].
    intros [= <- <-]. exists db. split; [|done]. by eapply locking_answers.
  - destruct (sw_secrets w !! _) eqn:Hr; intros [= <- <-]; [done|]. by split_and!.
  - destruct (sw_secrets w !! ref) eqn:Hr; intros [= <- <-]; by split.
  - by intros [= <- <-].
  - by intros [= <- <-].
  - by intros [= <- <-].
Qed.

Definition run_service (locked : bool) {A} (p : service A) (w : service_world) :=
  run_asking (fun B => @service_serve locked B) p w.

Lemma service_runs locked {A} (p : service A) w o w' :
  run_service locked p w = Some (o, w') -> asks (fun B => @service_answers _ _ B) p w o w'.
Proof. apply run_runs. intros B c w0 b w1. apply service_serve_answers. Qed.

(** Two connections, the first with a password. *)
Definition desk : SavedConnection :=
  mkSavedConnection
    (mkConnection (QStringLiteral "d") (QStringLiteral "smb://srv/desk") (QStringLiteral "srv")
       (QStringLiteral "desk") [] (QStringLiteral "me") AuthType_Password)
    (QStringLiteral "Desk") [] [] (QStringLiteral "vault:d") [] [] false 0 7 9 App_None [] 0.

Definition two_connections : service_world :=
  mkServiceWorld
    (mkDatabase (<[QStringLiteral "d" := bindConnection desk]>
                   {[QStringLiteral "c1" := bindConnection lab]}) ∅)
    {[QStringLiteral "vault:d" := [1; 2; 3]]} None.

Lemma two_consistent : consistent two_connections.
Proof.
  split.
  - apply map_Forall_insert_2; [done|]. by apply map_Forall_singleton.
  - intros id c. unfold two_connections, store_of. cbn [sw_db db_connections].
    rewrite fmap_insert, map_fmap_singleton, lookup_insert_Some.
    intros [[_ <-]|[_ [_ <-]%lookup_singleton_Some]]; [|done].
    intros _. by exists [1; 2; 3].
Qed.

Definition desk_update : connection_op SavedConnection := UpdateConnection desk (Some [9]).

Lemma run_desk_update : exists r w',
  run_service false (connection_method desk_update) two_connections = Some (Some r, w') /\
  Result_ok r = true.
Proof.
  assert (match run_service false (connection_method desk_update) two_connections with
    | Some (Some r, _) => Result_ok r | _ => false end = true) as Hr by by vm_compute.
  destruct (run_service _ _ _) as [[[r|] w']|]; try done. by exists r, w'.
Qed.

Lemma credentials_never_dangle_witness : exists r w',
  run_service false (connection_method desk_update) two_connections = Some (Some r, w') /\
  consistent w' /\ sw_secrets w' = <[svc_credentialRef (res_value r) := [9]]>
                                     (sw_secrets two_connections).
Proof.
  destruct run_desk_update as (r & w' & Hrun & Hok). exists r, w'. split; [exact Hrun|].
  apply service_runs in Hrun.
  apply (credentials_never_dangle desk_update) in Hrun; [|exact two_consistent|].
  - destruct Hrun as (r' & [= <-] & Hd & Hc). destruct (Hd Hok) as (_ & _ & _ & Hs).
    split; [|exact Hs]. destruct Hc as [Hc|(_ & Hf & _)]; [done|congruence].
  - split; [by split_and!|done].
Defined.

(** The connection without its password, over a database that is locked. *)
Definition guest_desk : SavedConnection :=
  mkSavedConnection
    (mkConnection (QStringLiteral "d") (QStringLiteral "smb://srv/desk") (QStringLiteral "srv")
       (QStringLiteral "desk") [] (QStringLiteral "me") AuthType_Guest)
    (QStringLiteral "Desk") [] [] (QStringLiteral "vault:d") [] [] false 0 7 9 App_None [] 0.

(** The secret is gone, and the connection still asks for a password. *)
Lemma update_loses_secret : exists r w',
  run_service true (connection_method (UpdateConnection guest_desk None)) two_connections
    = Some (Some r, w') /\ Result_ok r = false /\ sw_secrets w' = ∅ /\
  exists c, store_of (sw_db w') !! QStringLiteral "d" = Some c /\
    usesStoredCredential c = true.
Proof.
  assert (match run_service true (connection_method (UpdateConnection guest_desk None))
                  two_connections with
    | Some (Some r, w') => negb (Result_ok r) && bool_decide (sw_secrets w' = ∅) &&
        match store_of (sw_db w') !! QStringLiteral "d" with
        | Some c => usesStoredCredential c | None => false end
    | _ => false end = true) as Hr by by vm_compute.
  destruct (run_service _ _ _) as [[[r|] w']|]; [|done..].
  apply andb_true_iff in Hr as [[Ho Hs]%andb_true_iff Hc]. exists r, w'.
  split; [done|]. split; [by apply negb_true_iff|]. split; [by apply bool_decide_eq_true in Hs|].
  destruct (store_of (sw_db w') !! QStringLiteral "d") as [c|]; [|done]. by exists c.
Qed.

Definition no_callbacks : CoreContext := mkCoreContext false false.
Definition desk_copy : remote_service bool :=
  CopyRemote (QStringLiteral "d") (QStringLiteral "/a") (QStringLiteral "c1")
    (QStringLiteral "/b").

Lemma run_desk_copy : exists r w' e,
  run_service false (remote_method no_callbacks desk_copy) two_connections
    = Some (Some r, w') /\ sw_failure w' = Some (true, e).
Proof.
  assert (match run_service false (remote_method no_callbacks desk_copy) two_connections with
    | Some (Some r, w') => match sw_failure w' with Some (true, _) => true | _ => false end
    | _ => false end = true) as Hr by by vm_compute.
  destruct (run_service _ _ _) as [[[r|] w']|]; [|done..].
  destruct (sw_failure w') as [[[] e]|] eqn:Hf; [|done..]. by exists r, w', e.
Qed.

