(* ===== verification/Search.v ===== *)
(** * Recursive search ([RecursiveSearchService.cpp])

    A search lists directories, the start first and then, through a queue, those it
    meets down to a depth, and collects the entries that match.  Listing is the
    interface [RemoteDirectoryUseCase], of which [open_listDirectory] (Services.v) is
    the implementation; its answers and those of the cancellation token are left
    open.  A search visits a tree by levels. *)

From S2P Require Export Services.
Local Open Scope Z_scope.

Record RecursiveSearchOptions : Set := mkRecursiveSearchOptions {
  rso_connectionId : QString;
  rso_startRemotePath : QString;
  rso_query : QString;
  rso_maxDepth : Z;
  rso_maxResults : Z;
  rso_includeDirectories : bool
}.

Record RecursiveSearchResult `{Qt} : Set := mkRecursiveSearchResult {
  rsr_entries : list RemoteFileEntry;
  rsr_scannedDirectories : Z;
  rsr_limitReached : bool
}.
Arguments mkRecursiveSearchResult {_} _ _ _.

Record PendingDirectory : Set := mkPendingDirectory {
  pdi_remotePath : QString;
  pdi_depth : Z
}.

Inductive search_call `{Qt} : Set -> Type :=
| SearchCancelled : search_call bool
| ReportSearch (progress : CoreTransferProgress) : search_call unit
| ListForSearch (connectionId remotePath : QString)
    : search_call (Result OpenConnectionResult).
Abbreviation search := (asking search_call).

(** [QString::contains(text, Qt::CaseInsensitive)] *)
Class QtSearch : Type := {
  containsIgnoringCase : QString -> QString -> bool
}.

Section search.
Context `{Qt} `{!QtSearch}.

Definition isFile (entry : RemoteFileEntry) : bool :=
  match rfe_type entry with RemoteFileType_File => true | _ => false end.
Definition isDirectory (entry : RemoteFileEntry) : bool :=
  match rfe_type entry with RemoteFileType_Directory => true | _ => false end.

Definition searchNormalizeRemotePath (remotePath : QString) : QString :=
  let path := replaceChar (trimmed remotePath) kBackslash kSlash in
  if isEmpty path then [kSlash] else
  let path := if startsWith path kSlash then path else kSlash :: path in
  chop_slashes (length path) path.

Definition matchesQuery (entry : RemoteFileEntry) (query : QString) : bool :=
  isEmpty query || containsIgnoringCase (rfe_name entry) query
  || containsIgnoringCase (rfe_remotePath entry) query.

Definition search_cancelledError : AppError :=
  fromCode App_OperationCancelled ErrorCategory_General
    (QStringLiteral "Recursive search cancelled.") false.

Definition invalidOptionsError (details : string) : AppError :=
  fromCode App_InvalidPath ErrorCategory_Validation (QStringLiteral details) false.

Definition no_search : RecursiveSearchResult := mkRecursiveSearchResult [] 0 false.

Context (context : CoreContext) (options : RecursiveSearchOptions).

Definition searchCancelled : search bool :=
  if cc_cancellationToken context then ask SearchCancelled else mret false.

Definition shouldInclude (query : QString) (entry : RemoteFileEntry) : bool :=
  (rso_includeDirectories options || isFile entry) && matchesQuery entry query.

(** The loop over the entries of a directory: it ends the search, or gives the result
    so far and the queue. *)
Fixpoint entries_loop (entries : list RemoteFileEntry) (query : QString) (depth : Z)
    (result : RecursiveSearchResult) (pending : list PendingDirectory)
    : search (Result RecursiveSearchResult +
              RecursiveSearchResult * list PendingDirectory) :=
  match entries with
  | [] => mret (inr (result, pending))
  | entry :: entries =>
      cancelled ← searchCancelled;
      if cancelled : bool
      then mret (inl (Result_failure no_search search_cancelledError)) else
      let found := if shouldInclude query entry then rsr_entries result ++ [entry]
                   else rsr_entries result in
      let scanned := rsr_scannedDirectories result in
      if shouldInclude query entry && (rso_maxResults options <=? blen found)
      then mret (inl (Result_success (mkRecursiveSearchResult found scanned true))) else
      let pending :=
        if isDirectory entry && (depth <? rso_maxDepth options)
        then pending ++ [mkPendingDirectory
               (searchNormalizeRemotePath (rfe_remotePath entry)) (depth + 1)]
        else pending in
      entries_loop entries query depth
        (mkRecursiveSearchResult found scanned (rsr_limitReached result)) pending
  end.

(** The loop over the queue. *)
Fixpoint pending_loop (fuel : nat) (query : QString) (result : RecursiveSearchResult)
    (pending : list PendingDirectory) : search (Result RecursiveSearchResult) :=
  match fuel with
  | O => Halt
  | S fuel =>
      match pending with
      | [] => mret (Result_success result)
      | current :: pending =>
          cancelled ← searchCancelled;
          if cancelled : bool
          then mret (Result_failure no_search search_cancelledError) else
          listed ← ask (ListForSearch (rso_connectionId options) (pdi_remotePath current));
          if negb (Result_ok listed)
          then mret (Result_failure no_search (res_error listed)) else
          let scanned := rsr_scannedDirectories result + 1 in
          _ ← (if cc_progressCallback context
               then ask (ReportSearch (mkCoreTransferProgress scanned
                                         (rso_maxResults options)))
               else mret tt);
          next ← entries_loop (ocr_entries (res_value listed)) query (pdi_depth current)
            (mkRecursiveSearchResult (rsr_entries result) scanned (rsr_limitReached result))
            pending;
          match next with
          | inl ended => mret ended
          | inr (result, pending) => pending_loop fuel query result pending
          end
      end
  end.

Definition RecursiveSearchService_search (fuel : nat) : search (Result RecursiveSearchResult) :=
  if isEmpty (trimmed (rso_connectionId options)) then
    mret (Result_failure no_search (invalidOptionsError "Connection ID is required."))
  else
  if (rso_maxDepth options <? 0) || (rso_maxResults options <=? 0) then
    mret (Result_failure no_search
            (invalidOptionsError "Depth and result limits must be positive."))
  else
  pending_loop fuel (trimmed (rso_query options)) no_search
    [mkPendingDirectory (searchNormalizeRemotePath (rso_startRemotePath options)) 0].

End search.

(** * What a search finds *)

Lemma blen_append {A} (l k : list A) : blen (l ++ k) = blen l + blen k.
Proof. unfold blen. rewrite length_app. lia. Qed.

Section search_runs.
Context `{Qt} `{!QtSearch}.
Context (context : CoreContext) (options : RecursiveSearchOptions).
Context (listing : QString -> Result OpenConnectionResult).

(** The world is the directories listed so far. *)
Definition search_answers {B : Set} (c : search_call B)
    : list QString -> B -> list QString -> Prop :=
  match c in search_call B return list QString -> B -> list QString -> Prop with
  | SearchCancelled => fun log _ log' => log' = log
  | ReportSearch _ => fun log _ log' => log' = log
  | ListForSearch _ path => fun log r log' => r = listing path /\ log' = log ++ [path]
  end.

Abbreviation searches p log Q := (awp (fun B => @search_answers B) False p log Q).

(** ** The reference *)

Definition entries_in (path : QString) : list RemoteFileEntry :=
  ocr_entries (res_value (listing path)).

(** The directories in a directory, as they are searched. *)
Definition directories_in (path : QString) : list QString :=
  (fun entry => searchNormalizeRemotePath (rfe_remotePath entry)) <$>
    filter (fun entry => isDirectory entry = true) (entries_in path).

Definition level_below (level : list QString) : list QString := level ≫= directories_in.

(** A level and the [levels - 1] levels below it, one after the other. *)
Fixpoint levels_from (levels : nat) (level : list QString) : list QString :=
  match levels with
  | O => []
  | S levels => level ++ levels_from levels (level_below level)
  end.

Definition directories : list QString :=
  levels_from (S (Z.to_nat (rso_maxDepth options)))
    [searchNormalizeRemotePath (rso_startRemotePath options)].

Definition matches_in (path : QString) : list RemoteFileEntry :=
  filter (fun entry => shouldInclude options (trimmed (rso_query options)) entry = true)
    (entries_in path).

(** What is found in directories one after the other, as far as there is room. *)
Fixpoint found_in (paths : list QString) (found : list RemoteFileEntry) (scanned : Z)
    : Result RecursiveSearchResult :=
  match paths with
  | [] => Result_success (mkRecursiveSearchResult found scanned false)
  | path :: paths =>
      if negb (Result_ok (listing path))
      then Result_failure no_search (res_error (listing path)) else
      let found := found ++ matches_in path in
      if rso_maxResults options <=? blen found
      then Result_success (mkRecursiveSearchResult
             (take (Z.to_nat (rso_maxResults options)) found) (scanned + 1) true)
      else found_in paths found (scanned + 1)
  end.

Definition breadth_first : Result RecursiveSearchResult := found_in directories [] 0.

(** A search that was cancelled, or is as [found_in] says, having listed no other
    directories than these, in their order. *)
Definition searched (paths : list QString) (found : list RemoteFileEntry) (scanned : Z)
    (log log' : list QString) (r : Result RecursiveSearchResult) : Prop :=
  (exists listed, listed `prefix_of` paths /\ log' = log ++ listed) /\
  (cc_cancellationToken context = true /\
     r = Result_failure no_search search_cancelledError \/
   r = found_in paths found scanned).

Lemma searches_cancelled {A} (f : bool -> search A) log (Q : list QString -> A -> Prop) :
  (cc_cancellationToken context = true -> searches (f true) log Q) ->
  searches (f false) log Q -> searches (searchCancelled context ≫= f) log Q.
Proof.
  intros Ht Hf. unfold searchCancelled. destruct (cc_cancellationToken context); [|done].
  apply awp_ask. intros [] log' ->; auto.
Qed.

(** The entries of a directory. *)
Definition scanned_entries (entries : list RemoteFileEntry) (depth : Z)
    (found : list RemoteFileEntry) (scanned : Z) (pending : list PendingDirectory)
    (next : Result RecursiveSearchResult +
            RecursiveSearchResult * list PendingDirectory) : Prop :=
  let found' := found ++ filter (fun entry =>
    shouldInclude options (trimmed (rso_query options)) entry = true) entries in
  cc_cancellationToken context = true /\
    next = inl (Result_failure no_search search_cancelledError) \/
  next = if rso_maxResults options <=? blen found'
         then inl (Result_success (mkRecursiveSearchResult
                (take (Z.to_nat (rso_maxResults options)) found') scanned true))
         else inr (mkRecursiveSearchResult found' scanned false,
                pending ++ if depth <? rso_maxDepth options
                  then (fun entry => mkPendingDirectory
                          (searchNormalizeRemotePath (rfe_remotePath entry)) (depth + 1)) <$>
                       filter (fun entry => isDirectory entry = true) entries
                  else []).

Lemma searches_entries entries depth found scanned pending log :
  blen found < rso_maxResults options ->
  searches (entries_loop context options entries (trimmed (rso_query options)) depth
              (mkRecursiveSearchResult found scanned false) pending) log
    (fun log' next => log' = log /\ scanned_entries entries depth found scanned pending next).
Proof.
  revert found pending. induction entries as [|entry entries IH]; intros found pending Hm.
  - split; [done|]. right. rewrite filter_nil, app_nil_r, (proj2 (Z.leb_gt _ _)) by done.
    rewrite filter_nil. by destruct (depth <? _); rewrite app_nil_r.
  - cbn [entries_loop]. apply searches_cancelled; [by intros Ht; split; [|left]|].
    cbn [rsr_entries rsr_scannedDirectories rsr_limitReached].
    set (included := shouldInclude options _ entry).
    set (found1 := if included then found ++ [entry] else found).
    destruct (included && (rso_maxResults options <=? blen found1)) eqn:Hl.
    + apply andb_true_iff in Hl as [Hi Hl%Z.leb_le]. subst found1. rewrite Hi in *.
      split; [done|]. right. rewrite filter_cons_True by done.
      set (rest := filter _ entries).
      rewrite (app_assoc found [entry] rest : found ++ entry :: rest = _), blen_append.
      rewrite (proj2 (Z.leb_le _ _)) by (unfold blen in *; lia). do 4 f_equal.
      assert (Z.to_nat (rso_maxResults options) = length (found ++ [entry])) as ->.
      { unfold blen in *. rewrite length_app in *. cbn [length] in *. lia. }
      by rewrite take_app_length.
    + eapply awp_mono; [apply IH|].
      { subst found1. destruct included; [|done]. by apply Z.leb_gt in Hl. }
      intros log' next [-> Hn]. split; [done|].
      destruct Hn as [Hn|Hn]; [by left|right]. rewrite Hn.
      assert (found1 ++ filter (fun entry => shouldInclude options
                (trimmed (rso_query options)) entry = true) entries =
              found ++ filter (fun entry => shouldInclude options
                (trimmed (rso_query options)) entry = true) (entry :: entries)) as ->.
      { subst found1 included. destruct (shouldInclude _ _ entry) eqn:Hi.
        - by rewrite filter_cons_True, <- app_assoc.
        - rewrite filter_cons_False; [done|]. by rewrite Hi. }
      match goal with |- (if _ then _ else inr (_, ?p)) = (if _ then _ else inr (_, ?q)) =>
        assert (p = q) as ->; [|done] end.
      destruct (isDirectory entry) eqn:Hd; cbn [andb].
      * rewrite (filter_cons_True _ entry entries) by done.
        destruct (depth <? rso_maxDepth options); [|done]. by rewrite <- app_assoc.
      * rewrite (filter_cons_False _ entry entries); [done|]. by rewrite Hd.
Qed.

Definition at_depth (depth : Z) (paths : list QString) : list PendingDirectory :=
  (fun path => mkPendingDirectory path depth) <$> paths.

Lemma levels_from_nil levels : levels_from levels [] = [].
Proof. induction levels; [done|]. exact IHlevels. Qed.

(** What is still listed with [pending] the rest [xs] of a level and [ys] of the next. *)
Definition still_listed (levels : nat) (xs ys : list QString) : list QString :=
  xs ++ levels_from levels (ys ++ level_below xs).

Lemma still_listed_cons levels x xs ys :
  still_listed levels (x :: xs) ys =
  x :: still_listed levels xs (ys ++ directories_in x).
Proof. unfold still_listed. cbn. by rewrite <- app_assoc. Qed.

Lemma searched_now paths found scanned log r :
  cc_cancellationToken context = true /\
    r = Result_failure no_search search_cancelledError \/ r = found_in paths found scanned ->
  searched paths found scanned log log r.
Proof. intros Hr. split; [|done]. exists []. split; [apply prefix_nil|]. by rewrite app_nil_r. Qed.

Lemma searched_cons x paths found scanned log log' r :
  Result_ok (listing x) = true ->
  blen (found ++ matches_in x) < rso_maxResults options ->
  searched paths (found ++ matches_in x) (scanned + 1) (log ++ [x]) log' r ->
  searched (x :: paths) found scanned log log' r.
Proof.
  intros Hx Hm [(listed & Hp & ->) Hr]. split.
  - exists (x :: listed). split; [by apply prefix_cons|]. by rewrite <- app_assoc.
  - cbn [found_in]. by rewrite Hx, (proj2 (Z.leb_gt _ _)).
Qed.

Lemma searched_last x paths found scanned log r :
  cc_cancellationToken context = true /\
    r = Result_failure no_search search_cancelledError \/
  r = found_in (x :: paths) found scanned ->
  searched (x :: paths) found scanned log (log ++ [x]) r.
Proof.
  intros Hr. split; [|done]. exists [x]. split; [|done]. apply prefix_cons, prefix_nil.
Qed.

Definition loops_well (fuel : nat) : Prop :=
  forall depth levels xs ys found scanned log,
  Z.of_nat levels = rso_maxDepth options - depth -> (levels = 0%nat -> ys = []) ->
  blen found < rso_maxResults options ->
  (length (still_listed levels xs ys) < fuel)%nat ->
  searches (pending_loop context options fuel (trimmed (rso_query options))
              (mkRecursiveSearchResult found scanned false)
              (at_depth depth xs ++ at_depth (depth + 1) ys)) log
    (searched (still_listed levels xs ys) found scanned log).

(** One turn of the loop, where the level is not yet at its end. *)
Lemma searches_turn fuel depth levels x xs ys found scanned log :
  loops_well fuel ->
  Z.of_nat levels = rso_maxDepth options - depth -> (levels = 0%nat -> ys = []) ->
  blen found < rso_maxResults options ->
  (length (still_listed levels (x :: xs) ys) < S fuel)%nat ->
  searches (pending_loop context options (S fuel) (trimmed (rso_query options))
              (mkRecursiveSearchResult found scanned false)
              (at_depth depth (x :: xs) ++ at_depth (depth + 1) ys)) log
    (searched (still_listed levels (x :: xs) ys) found scanned log).
Proof.
  intros IH Hl Hy Hm Hf. rewrite still_listed_cons in *. cbn [at_depth fmap list_fmap app].
  cbn [pending_loop]. apply searches_cancelled; [intros Ht; apply searched_now; by left|].
  apply awp_ask. intros listed log1 [-> ->]. cbn [pdi_remotePath pdi_depth].
  destruct (Result_ok (listing x)) eqn:Hx; cbn [negb].
  2: { apply searched_last. right. cbn [found_in]. by rewrite Hx. }
  apply awp_bind. cbn [rsr_entries rsr_scannedDirectories rsr_limitReached].
  assert (forall Q, Q (log ++ [x]) tt -> searches (if cc_progressCallback context
    then ask (ReportSearch (mkCoreTransferProgress (scanned + 1) (rso_maxResults options)))
    else mret tt) (log ++ [x]) Q) as Hrep.
  { intros Q HQ. destruct (cc_progressCallback context); [|exact HQ]. by intros [] log2 ->. }
  apply Hrep, awp_bind. eapply awp_mono; [by apply searches_entries|].
  intros log2 next [-> Hn]. destruct Hn as [[Ht ->]|Hn]; [apply searched_last; by left|].
  change (found ++ filter _ _) with (found ++ matches_in x) in Hn. subst next.
  destruct (rso_maxResults options <=? blen (found ++ matches_in x)) eqn:Hfull.
  { apply searched_last. right. cbn [found_in]. by rewrite Hx, Hfull. }
  apply Z.leb_gt in Hfull.
  eapply awp_mono; [|intros log2 r Hr; by eapply searched_cons, Hr].
  rewrite <- app_assoc.
  assert (at_depth (depth + 1) ys ++ (if depth <? rso_maxDepth options
     then (fun entry => mkPendingDirectory
             (searchNormalizeRemotePath (rfe_remotePath entry)) (depth + 1)) <$>
          filter (fun entry => isDirectory entry = true) (ocr_entries (res_value (listing x)))
     else []) = at_depth (depth + 1)
       (match levels with O => [] | S _ => ys ++ directories_in x end)) as Hp.
  { destruct levels as [|levels].
    - rewrite Hy, (proj2 (Z.ltb_ge _ _)) by lia. done.
    - rewrite (proj2 (Z.ltb_lt _ _)) by lia. unfold at_depth, directories_in.
      by rewrite fmap_app, <- list_fmap_compose. }
  rewrite Hp. clear Hp. destruct levels as [|levels].
  - apply (IH depth 0%nat xs []); try done. cbn in *. unfold still_listed in *. cbn in *. lia.
  - apply IH; try done. cbn [length] in Hf. lia.
Qed.

Lemma searches_pending fuel : loops_well fuel.
Proof.
  induction fuel as [|fuel IH]; intros depth levels xs ys found scanned log Hl Hy Hm Hf; [lia|].
  destruct xs as [|x xs]; [|by apply searches_turn].
  destruct ys as [|y ys].
  - unfold still_listed. cbn. rewrite levels_from_nil. apply searched_now. by right.
  - destruct levels as [|levels]; [by specialize (Hy eq_refl)|].
    assert (still_listed (S levels) [] (y :: ys) = still_listed levels (y :: ys) []) as He.
    { unfold still_listed. cbn. by rewrite app_nil_r. }
    rewrite He in *. cbn [at_depth fmap list_fmap app].
    rewrite <- (app_nil_r (mkPendingDirectory y (depth + 1) :: _)).
    apply (searches_turn fuel (depth + 1) levels y ys []); try done. lia.
Qed.

Definition valid_options : bool :=
  negb (isEmpty (trimmed (rso_connectionId options))) &&
  (0 <=? rso_maxDepth options) && (0 <? rso_maxResults options).

Lemma searches_search fuel :
  (length directories < fuel)%nat ->
  searches (RecursiveSearchService_search context options fuel) [] (fun log r =>
    if valid_options
    then log `prefix_of` directories /\
         (cc_cancellationToken context = true /\
            r = Result_failure no_search search_cancelledError \/ r = breadth_first)
    else log = [] /\ Result_ok r = false).
Proof.
  intros Hf. unfold RecursiveSearchService_search, valid_options.
  destruct (isEmpty (trimmed (rso_connectionId options))); cbn [negb andb]; [done|].
  destruct (rso_maxDepth options <? 0) eqn:Hd; cbn [orb].
  { apply Z.ltb_lt in Hd. by rewrite (proj2 (Z.leb_gt _ _)) by lia. }
  apply Z.ltb_ge in Hd. rewrite (proj2 (Z.leb_le 0 _)) by lia. cbn [andb].
  rewrite Z.ltb_antisym.
  destruct (rso_maxResults options <=? 0) eqn:Hm; cbn [negb]; [done|].
  apply Z.leb_gt in Hm.
  eapply awp_mono; [apply (searches_pending fuel 0 (Z.to_nat (rso_maxDepth options))
    [searchNormalizeRemotePath (rso_startRemotePath options)] [])|]; try done; [lia|].
  intros log r [(listed & Hp & ->) Hr]. by split.
Qed.

(** C15: A search is breadth first. Take directories that hold still while they are
    searched. Then the search ends, with a fuel larger than the number of directories
    there are down to the depth that was asked for. With a connection id, a depth that
    is not negative and a positive number of results it was cancelled, which takes a
    token, or its result is that of [breadth_first]: level by level, the matching
    entries of one directory after the other, cut off at the number of results, with
    the number of directories that were listed; or the first error of a listing. It
    has listed directories in that order, and no others. With other options it fails
    and lists nothing. *)
Theorem search_is_breadth_first fuel o log :
  (length directories < fuel)%nat ->
  asks (fun B => @search_answers B) (RecursiveSearchService_search context options fuel)
    [] o log ->
  exists r, o = Some r /\
    if valid_options
    then log `prefix_of` directories /\
         (cc_cancellationToken context = true /\
            r = Result_failure no_search search_cancelledError \/ r = breadth_first)
    else log = [] /\ Result_ok r = false.
Proof.
  intros Hf Hr. eapply awp_runs in Hr; [|by apply searches_search].
  destruct o as [r|]; [|done]. by exists r.
Qed.

End search_runs.

(** ** A tree *)

#[export] Instance sample_search : QtSearch := {|
  containsIgnoringCase s t := ascii_contains (ascii_lower s) (ascii_lower t)
|}.

Definition tree_entry (name path : string) (type : RemoteFileType) : RemoteFileEntry :=
  mkRemoteFileEntry (QStringLiteral name) (QStringLiteral path) type 0 0 [] [] false.

Definition tree_listing (path : QString) : Result OpenConnectionResult :=
  Result_success (mkOpenConnectionResult no_connection no_capabilities path
    (if bool_decide (path = QStringLiteral "/") then
       [tree_entry "docs" "/docs" RemoteFileType_Directory;
        tree_entry "Notes.txt" "/Notes.txt" RemoteFileType_File]
     else if bool_decide (path = QStringLiteral "/docs") then
       [tree_entry "notes.txt" "/docs/notes.txt" RemoteFileType_File]
     else [])).

Definition find_notes : RecursiveSearchOptions :=
  mkRecursiveSearchOptions (QStringLiteral "c1") (QStringLiteral "/")
    (QStringLiteral "notes") 5 1000 false.

Definition search_serve {B : Set} (c : search_call B)
    : list QString -> option (B * list QString) :=
  match c in search_call B return list QString -> option (B * list QString) with
  | SearchCancelled => fun log => Some (false, log)
  | ReportSearch _ => fun log => Some (tt, log)
  | ListForSearch _ path => fun log => Some (tree_listing path, log ++ [path])
  end.

Lemma search_serve_answers (B : Set) (c : search_call B) log b log' :
  search_serve c log = Some (b, log') -> search_answers tree_listing c log b log'.
Proof. destruct c; by intros [= <- <-]. Qed.

Definition run_find : option (option (Result RecursiveSearchResult) * list QString) :=
  run_asking (fun B => @search_serve B)
    (RecursiveSearchService_search (mkCoreContext false true) find_notes 8) [].

Lemma run_find_some : exists o log, run_find = Some (o, log).
Proof.
  assert (match run_find with Some _ => true | None => false end = true) as Hr by by vm_compute.
  destruct run_find as [[o log]|]; [|done]. by exists o, log.
Qed.

(** Both files are found, the one at the top first. *)
Lemma search_is_breadth_first_witness : exists r log,
  run_find = Some (Some r, log) /\ r = breadth_first find_notes tree_listing /\
  rfe_remotePath <$> rsr_entries (res_value r) =
    [QStringLiteral "/Notes.txt"; QStringLiteral "/docs/notes.txt"].
Proof.
  destruct run_find_some as (o & log & Hrun). pose proof Hrun as Hr. unfold run_find in Hr.
  apply (run_runs (fun B => @search_answers _ tree_listing B)) in Hr.
  2: { intros B c w b w'. apply search_serve_answers. }
  apply search_is_breadth_first in Hr; [|by vm_compute; lia].
  destruct Hr as (r & -> & Hv). exists r, log. split; [exact Hrun|].
  assert (valid_options find_notes = true) as Ho by by vm_compute.
  rewrite Ho in Hv. destruct Hv as [_ [[Hc _]|Hv]]; [done|]. split; [exact Hv|].
  rewrite Hv. by vm_compute.
Defined.
