(* ===== verification/TempFiles.v ===== *)
(** * The cache of downloaded files ([TempFileCache.cpp])

    Remote files that are opened or previewed are downloaded to a directory of their
    own, which is cleaned up by age and by size.  The file system is behind calls; the
    set of protected paths, which a mutex guards, is too, because other threads
    change it. *)

From stdpp Require Import gmap.
From S2P Require Export Json Asking DfsClient.
Local Open Scope Z_scope.

Record TempFileCacheCleanupOptions `{Qt} : Set := mkCleanupOptions {
  clo_removeFilesOlderThanUtc : QDateTime;
  clo_maxSizeBytes : Z
}.
Arguments mkCleanupOptions {_} _ _.

Record TempFileCacheCleanupResult : Set := mkCleanupResult {
  clr_filesRemoved : Z;
  clr_bytesRemoved : Z;
  clr_bytesRemaining : Z
}.

Record CacheFile `{Qt} : Set := mkCacheFile {
  cfi_path : QString;
  cfi_modifiedAtUtc : QDateTime;
  cfi_size : Z
}.
Arguments mkCacheFile {_} _ _ _.

(** What is asked of a [QFileInfo] in a listing. *)
Record FileInfo `{Qt} : Set := mkFileInfo {
  fin_absoluteFilePath : QString;
  fin_fileName : QString;
  fin_isDir : bool;
  fin_lastModified : QDateTime;
  fin_size : Z
}.
Arguments mkFileInfo {_} _ _ _ _ _.

(** [EntryInfoList path files] is [QDir(path).entryInfoList] without the dots, with the
    files or of the directories only.  [std::sort] is a call because it leaves open in
    which order files of the same time come. *)
Inductive cache_call `{Qt} : Set -> Type :=
| DirectoryExists (path : QString) : cache_call bool
| EntryInfoList (path : QString) (files : bool) : cache_call (list FileInfo)
| RemoveFile (path : QString) : cache_call bool
| RemoveDirectory (path name : QString) : cache_call bool
| RemoveRecursively (path : QString) : cache_call bool
| MakePath (path : QString) : cache_call bool
| SortByTime (files : list CacheFile) : cache_call (list CacheFile)
| ProtectedPaths : cache_call (gset QString)
| InsertProtected (path : QString) : cache_call unit
| RemoveProtected (path : QString) : cache_call unit.
Abbreviation caching := (asking cache_call).

(** [QFileInfo(path).absoluteFilePath()] and [suffix()], [QDir(path).filePath(name)],
    [toUtf8], the digits of a SHA-256, [QChar::isLetterOrNumber], and [<] of
    [QDateTime]. *)
Class QtFiles `{Qt} : Type := {
  absoluteFilePath : QString -> QString;
  fileSuffix : QString -> QString;
  filePath : QString -> QString -> QString;
  toUtf8 : QString -> bytes;
  sha256Hex : bytes -> QString;
  isLetterOrNumber : Z -> bool;
  earlier : QDateTime -> QDateTime -> bool
}.

Section temp_files.
Context `{Qt} `{!QtJson} `{!QtFiles}.

Definition cacheError (details : string) : AppError :=
  fromCode App_LocalIoError ErrorCategory_Transfer (QStringLiteral details) false.

Definition safeSuffix (remotePath : QString) : QString :=
  let suffix := toLower (fileSuffix remotePath) in
  let suffix := if 16 <? blen suffix then take 16 suffix else suffix in
  filter (fun character => isLetterOrNumber character = true) suffix.

Definition cacheKey (connectionId remotePath : QString) : QString :=
  sha256Hex (toUtf8 connectionId ++ [10] ++ toUtf8 remotePath).

Definition isProtected (protectedPaths : gset QString) (path : QString) : bool :=
  bool_decide (absoluteFilePath path ∈ protectedPaths).

(** The loop of [collectFiles] over a listing. *)
Fixpoint collect_entries (collect : QString -> list CacheFile -> caching (list CacheFile))
    (entries : list FileInfo) (files : list CacheFile) : caching (list CacheFile) :=
  match entries with
  | [] => mret files
  | entry :: entries =>
      if fin_isDir entry then
        files ← collect (fin_absoluteFilePath entry) files;
        collect_entries collect entries files
      else
        collect_entries collect entries (files ++
          [mkCacheFile (fin_absoluteFilePath entry) (inUtc (fin_lastModified entry))
             (fin_size entry)])
  end.

(** The levels of directories are bounded by the fuel. *)
Fixpoint collectFiles (fuel : nat) (dir : QString) (files : list CacheFile)
    : caching (list CacheFile) :=
  match fuel with
  | O => Halt
  | S fuel =>
      entries ← ask (EntryInfoList dir true);
      collect_entries (collectFiles fuel) entries files
  end.

(** The loop of [removeEmptyDirectories]. *)
Fixpoint remove_entries (remove_empty : QString -> caching unit) (dir : QString)
    (entries : list FileInfo) : caching unit :=
  match entries with
  | [] => mret tt
  | entry :: entries =>
      remove_empty (fin_absoluteFilePath entry) ;;
      _ ← ask (RemoveDirectory dir (fin_fileName entry));
      remove_entries remove_empty dir entries
  end.

Fixpoint removeEmptyDirectories (fuel : nat) (dir : QString) : caching unit :=
  match fuel with
  | O => Halt
  | S fuel =>
      entries ← ask (EntryInfoList dir false);
      remove_entries (removeEmptyDirectories fuel) dir entries
  end.

Definition totalSize (files : list CacheFile) : Z :=
  foldl (fun total file => total + cfi_size file) 0 files.

Definition removeCacheFile (file : CacheFile) (protectedPaths : gset QString)
    (result : TempFileCacheCleanupResult) : caching (bool * TempFileCacheCleanupResult) :=
  if isProtected protectedPaths (cfi_path file) then mret (false, result) else
  removed ← ask (RemoveFile (cfi_path file));
  mret (if negb removed then (false, result)
        else (true, mkCleanupResult (clr_filesRemoved result + 1)
                      (clr_bytesRemoved result + cfi_size file)
                      (clr_bytesRemaining result))).

(** The files that are older than [cutoff]. *)
Fixpoint remove_older (cutoff : QDateTime) (files : list CacheFile)
    (protectedPaths : gset QString) (result : TempFileCacheCleanupResult)
    : caching TempFileCacheCleanupResult :=
  match files with
  | [] => mret result
  | file :: files =>
      if earlier (cfi_modifiedAtUtc file) cutoff then
        '(_, result) ← removeCacheFile file protectedPaths result;
        remove_older cutoff files protectedPaths result
      else remove_older cutoff files protectedPaths result
  end.

(** Files in their order until what remains fits. *)
Fixpoint remove_until_fits (maxSizeBytes remaining : Z) (files : list CacheFile)
    (protectedPaths : gset QString) (result : TempFileCacheCleanupResult)
    : caching TempFileCacheCleanupResult :=
  match files with
  | [] => mret result
  | file :: files =>
      if remaining <=? maxSizeBytes then mret result else
      '(removed, result) ← removeCacheFile file protectedPaths result;
      remove_until_fits maxSizeBytes
        (if removed : bool then remaining - cfi_size file else remaining)
        files protectedPaths result
  end.

Definition no_cleanup : TempFileCacheCleanupResult := mkCleanupResult 0 0 0.

Section cache.
(** [m_rootPath], and the levels below it. *)
Context (rootPath : QString) (levels : nat).

Definition cache_localPathFor (connectionId remotePath : QString)
    : caching (Result QString) :=
  let key := cacheKey connectionId remotePath in
  let shard := left key 2 in
  let suffix := safeSuffix remotePath in
  let directory := filePath rootPath shard in
  made ← ask (MakePath directory);
  if negb made
  then mret (Result_failure [] (cacheError "Unable to create cache directory.")) else
  let fileName := if isEmpty suffix then key else key ++ QStringLiteral "." ++ suffix in
  mret (Result_success (filePath directory fileName)).

Definition cache_cleanup (options : TempFileCacheCleanupOptions)
    : caching (Result TempFileCacheCleanupResult) :=
  exists_ ← ask (DirectoryExists rootPath);
  if negb exists_ then mret (Result_success no_cleanup) else
  protectedPaths ← ask ProtectedPaths;
  files ← collectFiles levels rootPath [];
  result ← (if isValid (clo_removeFilesOlderThanUtc options)
            then remove_older (inUtc (clo_removeFilesOlderThanUtc options)) files
                   protectedPaths no_cleanup
            else mret no_cleanup);
  files ← collectFiles levels rootPath [];
  let remaining := totalSize files in
  let maxSizeBytes := clo_maxSizeBytes options in
  result ← (if (0 <? maxSizeBytes) && (maxSizeBytes <? remaining) then
              files ← ask (SortByTime files);
              remove_until_fits maxSizeBytes remaining files protectedPaths result
            else mret result);
  removeEmptyDirectories levels rootPath ;;
  files ← collectFiles levels rootPath [];
  mret (Result_success (mkCleanupResult (clr_filesRemoved result)
          (clr_bytesRemoved result) (totalSize files))).

Definition cache_removeOlderThan (cutoffUtc : QDateTime) : caching (Result Z) :=
  cleaned ← cache_cleanup (mkCleanupOptions cutoffUtc 0);
  mret (if negb (Result_ok cleaned) then Result_failure 0 (res_error cleaned)
        else Result_success (clr_filesRemoved (res_value cleaned))).

(** The loop of [clearAll]. *)
Fixpoint remove_each (files : list CacheFile) (protectedPaths : gset QString)
    (result : TempFileCacheCleanupResult) : caching unit :=
  match files with
  | [] => mret tt
  | file :: files =>
      '(_, result) ← removeCacheFile file protectedPaths result;
      remove_each files protectedPaths result
  end.

Definition cache_clearAll : caching (Result bool) :=
  exists_ ← ask (DirectoryExists rootPath);
  if negb exists_ then mret (Result_success true) else
  protectedPaths ← ask ProtectedPaths;
  if bool_decide (protectedPaths = ∅) then
    cleared ← ask (RemoveRecursively rootPath);
    mret (if negb cleared
          then Result_failure false (cacheError "Unable to clear cache directory.")
          else Result_success true)
  else
  files ← collectFiles levels rootPath [];
  remove_each files protectedPaths no_cleanup ;;
  removeEmptyDirectories levels rootPath ;;
  mret (Result_success true).

Definition cache_protectPath (localPath : QString) : caching unit :=
  if isEmpty localPath then mret tt
  else ask (InsertProtected (absoluteFilePath localPath)).

Definition cache_unprotectPath (localPath : QString) : caching unit :=
  if isEmpty localPath then mret tt
  else ask (RemoveProtected (absoluteFilePath localPath)).

Definition cache_isProtectedPath (localPath : QString) : caching bool :=
  if isEmpty localPath then mret false else
  protectedPaths ← ask ProtectedPaths;
  mret (bool_decide (absoluteFilePath localPath ∈ protectedPaths)).

End cache.
End temp_files.
