(* ===== verification/TempFileRuns.v ===== *)
(** * What a cleanup of the cache leaves ([TempFileCache.cpp])

    Runs of TempFiles.v over a directory tree: which files are removed, which are
    kept, and what is counted. *)

From Stdlib Require Import Sorted.
From stdpp Require Import sorting.
From S2P Require Export TempFiles.
Local Open Scope Z_scope.

(** ** A tree of directories *)

Section tree.
Context `{Qt} `{!QtJson} `{!QtFiles}.

(** The listing of every directory, the files the system refused to remove, and the
    paths that were protected when a cleanup asked for them. *)
Record cache_world : Set := mkCacheWorld {
  caw_listings : gmap QString (list FileInfo);
  caw_refused : gset QString;
  caw_protected : gset QString
}.

Definition listing (w : cache_world) (dir : QString) : list FileInfo :=
  default [] (caw_listings w !! dir).

Definition cache_file (i : FileInfo) : CacheFile :=
  mkCacheFile (fin_absoluteFilePath i) (inUtc (fin_lastModified i)) (fin_size i).

(** The files in a directory and below it. *)
Fixpoint under (fuel : nat) (w : cache_world) (dir : QString) : list CacheFile :=
  match fuel with
  | O => []
  | S fuel =>
      flat_map (fun i => if fin_isDir i then under fuel w (fin_absoluteFilePath i)
                         else [cache_file i]) (listing w dir)
  end.

(** Directories are longer than those they are in, and not longer than [longest]. *)
Definition rooted (longest : nat) (w : cache_world) : Prop :=
  forall dir i, i ∈ listing w dir -> fin_isDir i = true ->
    (length dir < length (fin_absoluteFilePath i) <= longest)%nat.

Definition is_file (path : QString) (i : FileInfo) : bool :=
  negb (fin_isDir i) && bool_decide (fin_absoluteFilePath i = path).
Definition is_directory (path : QString) (i : FileInfo) : bool :=
  fin_isDir i && bool_decide (fin_absoluteFilePath i = path).

Definition with_listings (l : gmap QString (list FileInfo)) (w : cache_world)
    : cache_world := mkCacheWorld l (caw_refused w) (caw_protected w).
Definition without_file (path : QString) (w : cache_world) : cache_world :=
  with_listings (List.filter (fun i => negb (is_file path i)) <$> caw_listings w) w.
Definition without_directory (dir path : QString) (w : cache_world) : cache_world :=
  with_listings
    (delete path (<[dir := List.filter (fun i => negb (is_directory path i)) (listing w dir)]>
       (caw_listings w))) w.
Definition refusing (path : QString) (w : cache_world) : cache_world :=
  mkCacheWorld (caw_listings w) ({[path]} ∪ caw_refused w) (caw_protected w).

(** What the calls may be answered.  The paths that are protected are changed by
    others, so that any may be. *)
Definition cache_answers {B : Set} (c : cache_call B)
    : cache_world -> B -> cache_world -> Prop :=
  match c in cache_call B return cache_world -> B -> cache_world -> Prop with
  | DirectoryExists path => fun w r w' =>
      w' = w /\ r = bool_decide (is_Some (caw_listings w !! path))
  | EntryInfoList path files => fun w r w' => w' = w /\
      r ≡ₚ (if files then listing w path else List.filter fin_isDir (listing w path))
  | RemoveFile path => fun w r w' =>
      w' = if r then without_file path w else refusing path w
  | RemoveDirectory dir name => fun w r w' =>
      if r then exists i, i ∈ listing w dir /\ fin_isDir i = true /\ fin_fileName i = name /\
                 listing w (fin_absoluteFilePath i) = [] /\
                 w' = without_directory dir (fin_absoluteFilePath i) w
      else w' = w
  | RemoveRecursively _ => fun w r w' =>
      if r then w' = with_listings ∅ w
      else caw_refused w' = caw_refused w /\ caw_protected w' = caw_protected w
  | MakePath _ => fun w _ w' =>
      (forall fuel dir, under fuel w' dir = under fuel w dir) /\
      caw_refused w' = caw_refused w /\ caw_protected w' = caw_protected w
  | SortByTime files => fun w r w' => w' = w /\ r ≡ₚ files /\
      StronglySorted (fun f g => earlier (cfi_modifiedAtUtc g) (cfi_modifiedAtUtc f) = false) r
  | ProtectedPaths => fun w r w' => w' = mkCacheWorld (caw_listings w) (caw_refused w) r
  | InsertProtected _ | RemoveProtected _ => fun w _ w' => w' = w
  end.

Abbreviation caches p w Q := (awp (fun B => @cache_answers B) False p w Q).

(** ** Changes of the tree *)

Lemma under_perm fuel w l l' :
  l ≡ₚ l' ->
  flat_map (fun i => if fin_isDir i then under fuel w (fin_absoluteFilePath i)
                     else [cache_file i]) l ≡ₚ
  flat_map (fun i => if fin_isDir i then under fuel w (fin_absoluteFilePath i)
                     else [cache_file i]) l'.
Proof. apply Permutation_flat_map. Qed.

Lemma listing_without_file path w dir :
  listing (without_file path w) dir = List.filter (fun i => negb (is_file path i)) (listing w dir).
Proof.
  unfold listing, without_file, with_listings. cbn. rewrite lookup_fmap.
  by destruct (caw_listings w !! dir).
Qed.

(** A file that is removed is gone, and nothing else is. *)
Lemma under_without_file path fuel w dir :
  under fuel (without_file path w) dir =
  List.filter (fun f => negb (bool_decide (cfi_path f = path))) (under fuel w dir).
Proof.
  revert dir. induction fuel as [|fuel IH]; intros dir; [done|].
  cbn [under]. rewrite listing_without_file. induction (listing w dir) as [|i l IHl]; [done|].
  cbn [List.filter flat_map]. rewrite List.filter_app, <- IHl. unfold is_file at 1.
  destruct (fin_isDir i) eqn:Hd; cbn [negb andb flat_map].
  - by rewrite Hd, IH.
  - unfold cache_file at 2. cbn [List.filter cfi_path].
    destruct (bool_decide _); cbn [negb flat_map List.app]; [done|by rewrite Hd].
Qed.

Lemma listing_without_directory dir path w d :
  listing (without_directory dir path w) d =
  if bool_decide (d = path) then []
  else if bool_decide (d = dir)
       then List.filter (fun i => negb (is_directory path i)) (listing w d)
       else listing w d.
Proof.
  unfold without_directory, with_listings. unfold listing at 1. cbn [caw_listings].
  case_bool_decide as Hp; [subst; by rewrite lookup_delete_eq|].
  rewrite lookup_delete_ne by done.
  case_bool_decide as Hd; [subst; by rewrite lookup_insert_eq|].
  by rewrite lookup_insert_ne.
Qed.

(** An empty directory has no files. *)
Lemma under_empty fuel w dir : listing w dir = [] -> under fuel w dir = [].
Proof. intros He. destruct fuel; [done|]. cbn. by rewrite He. Qed.

Lemma under_without_directory dir path fuel w d :
  listing w path = [] ->
  under fuel (without_directory dir path w) d = under fuel w d.
Proof.
  intros He. revert d. induction fuel as [|fuel IH]; intros d; [done|].
  cbn [under]. rewrite listing_without_directory.
  case_bool_decide as Hp; [by subst; rewrite He|]. clear Hp.
  case_bool_decide as Hd.
  - clear Hd. induction (listing w d) as [|i l IHl]; [done|]. cbn [List.filter flat_map].
    rewrite <- IHl. unfold is_directory at 1. destruct (fin_isDir i) eqn:Hi; cbn [negb andb flat_map].
    + case_bool_decide as Hpath; cbn [negb flat_map]; [|by rewrite Hi, IH].
      by rewrite Hpath, under_empty.
    + by rewrite Hi.
  - apply flat_map_ext. intros i. destruct (fin_isDir i); [apply IH|done].
Qed.

Lemma rooted_without_file longest path w : rooted longest w -> rooted longest (without_file path w).
Proof.
  intros Hr dir i. rewrite listing_without_file. intros Hi. apply Hr.
  apply list_elem_of_In, List.filter_In in Hi as [Hi _]. by apply list_elem_of_In.
Qed.

Lemma rooted_without_directory longest dir path w :
  rooted longest w -> rooted longest (without_directory dir path w).
Proof.
  intros Hr d i. rewrite listing_without_directory.
  case_bool_decide; [by intros ?%elem_of_nil|]. case_bool_decide; [|apply Hr].
  intros Hi. apply Hr. apply list_elem_of_In, List.filter_In in Hi as [Hi _].
  by apply list_elem_of_In.
Qed.

(** ** Going through the tree *)

Lemma caches_give {A} (a : A) w (Q : cache_world -> A -> Prop) : Q w a -> caches (mret a) w Q.
Proof. done. Qed.

Lemma caches_collect longest fuel w dir files (Q : cache_world -> list CacheFile -> Prop) :
  rooted longest w -> (length dir <= longest < length dir + fuel)%nat ->
  (forall found, found ≡ₚ files ++ under fuel w dir -> Q w found) ->
  caches (collectFiles fuel dir files) w Q.
Proof.
  intros Hr. revert dir files Q. induction fuel as [|fuel IH]; intros dir files Q Hd HQ; [lia|].
  cbn [collectFiles under] in *. apply awp_ask. intros entries w' [-> Hp].
  assert (Forall (fun i => i ∈ listing w dir) entries) as Hin.
  { apply Forall_forall. intros i Hi. by rewrite <- Hp. }
  assert (forall found, found ≡ₚ files ++ flat_map (fun i => if fin_isDir i
    then under fuel w (fin_absoluteFilePath i) else [cache_file i]) entries -> Q w found) as HQ'.
  { intros found Hf. apply HQ. rewrite Hf. by rewrite (under_perm fuel w _ _ Hp). }
  clear Hp HQ. rename HQ' into HQ.
  revert files HQ. induction Hin as [|i entries Hi _ IHe]; intros files HQ.
  { apply HQ. by rewrite app_nil_r. }
  cbn [collect_entries flat_map] in *. destruct (fin_isDir i) eqn:Hdir.
  - apply awp_bind, IH; [by specialize (Hr dir i Hi Hdir); lia|].
    intros found Hf. apply IHe. intros found' Hf'. apply HQ. by rewrite Hf', Hf, (assoc_L (++)).
  - apply IHe. intros found Hf. apply HQ. by rewrite Hf, <- (assoc_L (++)).
Qed.

(** Empty directories go, and no file. *)
Definition same_files (w w' : cache_world) : Prop :=
  (forall fuel dir, under fuel w' dir = under fuel w dir) /\
  caw_refused w' = caw_refused w /\ caw_protected w' = caw_protected w.

#[local] Instance same_files_preorder : PreOrder same_files.
Proof.
  split; [by intros w|]. intros w1 w2 w3 (F1 & F2 & F3) (G1 & G2 & G3). split_and!; [|congruence..].
  intros fuel dir. by rewrite G1.
Qed.

Lemma caches_remove_empty longest fuel w dir (Q : cache_world -> unit -> Prop) :
  rooted longest w -> (length dir <= longest < length dir + fuel)%nat ->
  (forall w', rooted longest w' -> same_files w w' -> Q w' tt) ->
  caches (removeEmptyDirectories fuel dir) w Q.
Proof.
  revert dir w Q. induction fuel as [|fuel IH]; intros dir w Q Hr Hd HQ; [lia|].
  cbn [removeEmptyDirectories]. apply awp_ask. intros entries w' [-> Hp].
  assert (Forall (fun i => length dir < length (fin_absoluteFilePath i) <= longest)%nat entries)
    as Hin.
  { apply Forall_forall. intros i Hi. rewrite Hp in Hi.
    apply list_elem_of_In, List.filter_In in Hi as [Hi Hdir]. apply Hr; [|done].
    by apply list_elem_of_In. }
  clear Hp. revert w Hr HQ. induction Hin as [|i entries Hi _ IHe]; intros w Hr HQ.
  { by apply HQ. }
  cbn [remove_entries]. apply awp_bind, IH; [done|lia|]. intros w1 Hr1 Hs1.
  apply awp_ask. intros [] w2 Hw2; cbn in Hw2.
  - destruct Hw2 as (j & _ & _ & _ & He & ->). apply IHe.
    + by apply rooted_without_directory.
    + intros w3 Hr3 Hs3. apply HQ; [done|]. etrans; [exact Hs1|]. etrans; [|exact Hs3].
      split_and!; [|done..]. intros. by apply under_without_directory.
  - subst w2. apply IHe; [done|]. intros w3 Hr3 Hs3. apply HQ; [done|]. by etrans.
Qed.

(** ** Removing files *)

Definition sizes (files : list CacheFile) : Z := foldr (fun f n => cfi_size f + n) 0 files.

Lemma sizes_app l k : sizes (l ++ k) = sizes l + sizes k.
Proof. unfold sizes. induction l as [|f l IH]; cbn; [done|]. rewrite IH. lia. Qed.

#[local] Instance sizes_proper : Proper ((≡ₚ) ==> (=)) sizes.
Proof. unfold sizes. induction 1; cbn in *; lia. Qed.

Lemma foldl_sizes files n : foldl (fun total f => total + cfi_size f) n files = n + sizes files.
Proof.
  unfold sizes. revert n. induction files as [|f files IH]; intros n; cbn; [lia|].
  rewrite IH. lia.
Qed.

Lemma totalSize_sizes files : totalSize files = sizes files.
Proof. apply foldl_sizes. Qed.

Lemma sizes_nonneg files : Forall (fun f => 0 <= cfi_size f) files -> 0 <= sizes files.
Proof. unfold sizes. induction 1; cbn in *; lia. Qed.

Definition counted (files : list CacheFile) (r : TempFileCacheCleanupResult)
    : TempFileCacheCleanupResult :=
  mkCleanupResult (clr_filesRemoved r + blen files) (clr_bytesRemoved r + sizes files)
    (clr_bytesRemaining r).

Lemma counted_none r : counted [] r = r.
Proof. unfold counted. destruct r. cbn. f_equal; unfold blen; cbn; lia. Qed.

Lemma counted_more l k r : counted k (counted l r) = counted (l ++ k) r.
Proof.
  unfold counted. cbn. rewrite sizes_app. unfold blen. rewrite length_app. f_equal; lia.
Qed.

(** Not removed for a reason: protected, or refused by the system. *)
Definition spared (w : cache_world) (f : CacheFile) : Prop :=
  absoluteFilePath (cfi_path f) ∈ caw_protected w \/ cfi_path f ∈ caw_refused w.

Lemma remove_from_files f (files : list CacheFile) :
  NoDup (cfi_path <$> files) -> f ∈ files ->
  files ≡ₚ f :: List.filter (fun g => negb (bool_decide (cfi_path g = cfi_path f))) files.
Proof.
  intros Hd Hf. apply list_elem_of_split in Hf as (l & k & ->).
  rewrite fmap_app, fmap_cons in Hd. apply NoDup_app in Hd as (_ & Hl & Hk).
  apply NoDup_cons in Hk as [Hk _].
  assert (forall m, cfi_path f ∉ cfi_path <$> m ->
    List.filter (fun g => negb (bool_decide (cfi_path g = cfi_path f))) m = m) as Hm.
  { induction m as [|g m IH]; [done|]. rewrite fmap_cons, not_elem_of_cons. intros [Hg Hm].
    cbn. rewrite bool_decide_eq_false_2 by done. cbn. by rewrite IH. }
  rewrite List.filter_app. cbn. rewrite bool_decide_eq_true_2 by done. cbn.
  rewrite (Hm k) by done. rewrite (Hm l); [by rewrite Permutation_middle|].
  intros Hin. apply (Hl _ Hin). by left.
Qed.

(** Files of different connections or paths are not cached under the digest of the same
    text. *)
Lemma cache_keys_differ connection path connection' path' :
  10 ∉ toUtf8 connection -> 10 ∉ toUtf8 connection' ->
  toUtf8 connection ++ [10] ++ toUtf8 path = toUtf8 connection' ++ [10] ++ toUtf8 path' ->
  toUtf8 connection = toUtf8 connection' /\ toUtf8 path = toUtf8 path'.
Proof.
  generalize (toUtf8 connection) as l, (toUtf8 connection') as k. intros l.
  induction l as [|x l IH]; intros [|y k] Hl Hk Heq; cbn in Heq; simplify_eq.
  - done.
  - destruct Hk. by left.
  - destruct Hl. by left.
  - apply not_elem_of_cons in Hl as [_ Hl]. apply not_elem_of_cons in Hk as [_ Hk].
    by destruct (IH k Hl Hk) as [-> ->].
Qed.

Section cleaning.
Context (rootPath : QString) (levels longest : nat).
Hypothesis enough : (length rootPath <= longest < length rootPath + levels)%nat.

(** The files of the cache. *)
Abbreviation files w := (under levels w rootPath).

(** A cache whose files have paths of their own. *)
Definition well_formed_cache (w : cache_world) : Prop :=
  rooted longest w /\ NoDup (cfi_path <$> files w) /\ Forall (fun f => 0 <= cfi_size f) (files w).

(** What was removed on the way from [w] to [w']. *)
Definition removing (removed : list CacheFile) (w w' : cache_world) : Prop :=
  files w ≡ₚ removed ++ files w' /\ well_formed_cache w' /\
  caw_protected w' = caw_protected w /\ caw_refused w ⊆ caw_refused w' /\
  Forall (fun f => absoluteFilePath (cfi_path f) ∉ caw_protected w) removed.

Lemma removing_none w : well_formed_cache w -> removing [] w w.
Proof. intros Hw. split; [done|]. split; [exact Hw|]. by split_and!. Qed.

Lemma removing_more l k w1 w2 w3 :
  removing l w1 w2 -> removing k w2 w3 -> removing (l ++ k) w1 w3.
Proof.
  intros (Hf & _ & Hp & Hr & Hl) (Gf & Gw & Gp & Gr & Gl).
  split; [|split; [|split; [|split]]].
  - by rewrite Hf, Gf, (assoc_L (++)).
  - done.
  - congruence.
  - by etrans.
  - apply Forall_app. split; [done|]. by rewrite <- Hp.
Qed.

Lemma well_formed_left removed w w' :
  well_formed_cache w -> rooted longest w' -> files w ≡ₚ removed ++ files w' ->
  well_formed_cache w'.
Proof.
  intros (_ & Hd & Hs) Hr Hf. split; [done|]. rewrite Hf in Hd, Hs.
  rewrite fmap_app in Hd. apply NoDup_app in Hd as (_ & _ & Hd). apply Forall_app in Hs as [_ Hs].
  done.
Qed.

Lemma caches_remove_file {A} f r w (k : bool * TempFileCacheCleanupResult -> caching A) Q :
  well_formed_cache w -> f ∈ files w ->
  (forall w', removing [f] w w' -> caches (k (true, counted [f] r)) w' Q) ->
  (forall w', removing [] w w' -> spared w' f -> caches (k (false, r)) w' Q) ->
  caches (removeCacheFile f (caw_protected w) r ≫= k) w Q.
Proof.
  intros Hw Hf Hyes Hno. unfold removeCacheFile, isProtected.
  case_bool_decide as Hp; [apply Hno; [by apply removing_none|by left]|].
  apply awp_ask. intros [] w' ->; cbn [negb].
  - assert (files w ≡ₚ [f] ++ files (without_file (cfi_path f) w)) as Hfiles.
    { rewrite under_without_file. apply remove_from_files; [apply Hw|done]. }
    assert (mkCleanupResult (clr_filesRemoved r + 1) (clr_bytesRemoved r + cfi_size f)
      (clr_bytesRemaining r) = counted [f] r) as ->.
    { unfold counted. f_equal. cbn. lia. }
    apply Hyes. split_and!; [done| |done|done|by apply Forall_singleton].
    eapply well_formed_left; [done|by apply rooted_without_file, Hw|exact Hfiles].
  - assert (forall fuel dir, under fuel (refusing (cfi_path f) w) dir = under fuel w dir) as Hu.
    { induction fuel as [|fuel IH]; intros dir; [done|]. cbn. apply flat_map_ext.
      intros i. by rewrite IH. }
    apply Hno; [|right; by apply elem_of_union_l, elem_of_singleton].
    split_and!; [by rewrite Hu| |done|by apply union_subseteq_r|done].
    destruct Hw as (Hr & Hd & Hs). by split_and!; rewrite ?Hu.
Qed.

Lemma removing_sizes removed w w' :
  removing removed w w' -> sizes (files w) = sizes removed + sizes (files w').
Proof. intros (-> & _). apply sizes_app. Qed.

Lemma removing_listed removed w w' fs :
  removing removed w w' -> Forall (fun f => f ∈ files w) fs ->
  Forall (fun f => cfi_path f ∉ cfi_path <$> removed) fs -> Forall (fun f => f ∈ files w') fs.
Proof.
  intros (Hf & _) Hin Hnot. apply Forall_forall. intros f Hfs.
  pose proof (proj1 (Forall_forall _ _) Hin f Hfs) as Hw. cbv beta in Hw.
  rewrite Hf, elem_of_app in Hw. destruct Hw as [Hw|Hw]; [|done].
  destruct (proj1 (Forall_forall _ _) Hnot f Hfs). by apply list_elem_of_fmap_2.
Qed.

Lemma spared_later w w' f :
  caw_protected w' = caw_protected w -> caw_refused w ⊆ caw_refused w' ->
  spared w f -> spared w' f.
Proof. unfold spared. intros -> Hr [Hp|Hp]; [by left|right; by apply Hr]. Qed.

Lemma not_in_paths f (fs : list CacheFile) : cfi_path f ∉ cfi_path <$> fs ->
  Forall (fun g => cfi_path g ∉ cfi_path <$> [f]) fs.
Proof.
  intros Hn. apply Forall_forall. intros g Hg. cbn. rewrite list_elem_of_singleton.
  intros He. apply Hn. rewrite <- He. by apply list_elem_of_fmap_2.
Qed.

Lemma caches_remove_older cutoff fs r w
    (Q : cache_world -> TempFileCacheCleanupResult -> Prop) :
  well_formed_cache w -> NoDup (cfi_path <$> fs) -> Forall (fun f => f ∈ files w) fs ->
  (forall removed w', removing removed w w' ->
     Forall (fun f => earlier (cfi_modifiedAtUtc f) cutoff = true) removed ->
     Forall (fun f => earlier (cfi_modifiedAtUtc f) cutoff = true -> f ∈ removed \/ spared w' f) fs ->
     Q w' (counted removed r)) ->
  caches (remove_older cutoff fs (caw_protected w) r) w Q.
Proof.
  revert r w Q. induction fs as [|f fs IH]; intros r w Q Hw Hd Hin HQ.
  { specialize (HQ [] w). rewrite counted_none in HQ. apply HQ; [by apply removing_none|done..]. }
  rewrite fmap_cons, NoDup_cons in Hd. destruct Hd as [Hn Hd].
  apply Forall_cons in Hin as [Hf Hin]. cbn [remove_older].
  destruct (earlier (cfi_modifiedAtUtc f) cutoff) eqn:He.
  - apply caches_remove_file; [done..| |].
    + intros w1 Hr1. pose proof Hr1 as (_ & Hw1 & Hp1 & _). rewrite <- Hp1. apply IH; [done..| |].
      { eapply removing_listed; [exact Hr1|done|by apply not_in_paths]. }
      intros removed w' Hr' Hold Hleft. rewrite counted_more.
      apply (HQ ([f] ++ removed)); [by eapply removing_more|by constructor|].
      constructor; [by left; left|]. eapply Forall_impl; [exact Hleft|]. cbn.
      intros g Hg Hge. destruct (Hg Hge) as [?|?]; [left; by right|by right].
    + intros w1 Hr1 Hsp. pose proof Hr1 as (_ & Hw1 & Hp1 & _). rewrite <- Hp1. apply IH; [done..| |].
      { eapply removing_listed; [exact Hr1|done|]. apply Forall_true. intros g. apply not_elem_of_nil. }
      intros removed w' Hr' Hold Hleft. apply HQ; [by apply (removing_more [] removed w w1)|done|].
      constructor; [|done]. intros _. right. destruct Hr' as (_ & _ & Hp' & Hre & _).
      by eapply spared_later.
  - apply IH; [done..|]. intros removed w' Hr' Hold Hleft. apply HQ; [done..|].
    constructor; [|done]. by rewrite He.
Qed.

(** Files that go because the cache is too large: each of them while it was, and those
    that stay are spared or not older. *)
Definition evicted (most : Z) (fs removed : list CacheFile) (w' : cache_world) : Prop :=
  (forall l f k, removed = l ++ f :: k -> most < sizes (f :: k) + sizes (files w')) /\
  (sizes (files w') <= most \/ Forall (fun f => f ∈ removed \/ spared w' f) fs) /\
  Forall (fun f => Forall (fun g => g ∈ removed \/ spared w' g \/
    earlier (cfi_modifiedAtUtc g) (cfi_modifiedAtUtc f) = false) fs) removed.

Lemma caches_remove_until_fits most fs r w
    (Q : cache_world -> TempFileCacheCleanupResult -> Prop) :
  well_formed_cache w -> NoDup (cfi_path <$> fs) -> Forall (fun f => f ∈ files w) fs ->
  StronglySorted (fun f g => earlier (cfi_modifiedAtUtc g) (cfi_modifiedAtUtc f) = false) fs ->
  (forall removed w', removing removed w w' -> Forall (fun f => f ∈ fs) removed ->
     evicted most fs removed w' -> Q w' (counted removed r)) ->
  caches (remove_until_fits most (sizes (files w)) fs (caw_protected w) r) w Q.
Proof.
  intros Hw Hd Hin Hs. revert r w Q Hw Hd Hin.
  induction Hs as [|f fs Hs IH Hlater]; intros r w Q Hw Hd Hin HQ.
  { specialize (HQ [] w). rewrite counted_none in HQ. apply HQ; [by apply removing_none|done|].
    split; [by intros []|]. split; [by right|done]. }
  rewrite fmap_cons, NoDup_cons in Hd. destruct Hd as [Hn Hd].
  apply Forall_cons in Hin as [Hf Hin]. cbn [remove_until_fits].
  destruct (Z.leb_spec (sizes (files w)) most) as [Hfits|Hlarge].
  { specialize (HQ [] w). rewrite counted_none in HQ. apply HQ; [by apply removing_none|done|].
    split; [by intros []|]. split; [by left|done]. }
  apply caches_remove_file; [done..| |].
  - intros w1 Hr1. pose proof Hr1 as (Hfiles & Hw1 & Hp1 & _). rewrite <- Hp1.
    assert (sizes (files w) - cfi_size f = sizes (files w1)) as ->.
    { rewrite Hfiles. unfold sizes. cbn. lia. }
    apply IH; [done|done| |].
    { eapply removing_listed; [exact Hr1|done|by apply not_in_paths]. }
    intros removed w' Hr' Hfrom (Hbig & Hfit & Hold). rewrite counted_more.
    apply (HQ ([f] ++ removed)); [by eapply removing_more| |].
    { constructor; [by left|]. eapply Forall_impl; [exact Hfrom|]. intros g. by right. }
    split; [|split].
    + intros [|f1 l] g k [= <- He]; [|by apply (Hbig l)]. subst k.
      by rewrite <- (removing_sizes (f :: removed) w w') by by apply (removing_more [f] _ w w1).
    + destruct Hfit as [Hfit|Hfit]; [by left|right]. constructor; [by left; left|].
      eapply Forall_impl; [exact Hfit|]. intros g [Hg|Hg]; [left; by right|by right].
    + constructor.
      * constructor; [by left; left|]. eapply Forall_impl; [exact Hlater|].
        intros g Hg. right. by right.
      * eapply Forall_impl; [exact Hold|]. intros g Hg. constructor; [by left; left|].
        eapply Forall_impl; [exact Hg|]. intros h [Hh|Hh]; [left; by right|by right].
  - intros w1 Hr1 Hsp. pose proof Hr1 as (Hfiles & Hw1 & Hp1 & _). rewrite <- Hp1.
    rewrite (removing_sizes [] w w1 Hr1). cbn [sizes foldr Z.add]. apply IH; [done..| |].
    { eapply removing_listed; [exact Hr1|done|]. apply Forall_true. intros g. apply not_elem_of_nil. }
    intros removed w' Hr' Hfrom (Hbig & Hfit & Hold).
    assert (spared w' f) as Hsp'.
    { destruct Hr' as (_ & _ & Hp' & Hre & _). by eapply spared_later. }
    apply HQ; [by apply (removing_more [] removed w w1)| |].
    { eapply Forall_impl; [exact Hfrom|]. intros g. by right. }
    split; [done|]. split.
    + destruct Hfit as [Hfit|Hfit]; [by left|right]. constructor; [by right|done].
    + eapply Forall_impl; [exact Hold|]. intros g Hg. constructor; [right; by left|done].
Qed.

(** ** A cleanup *)

Lemma caches_collect_all w (Q : cache_world -> list CacheFile -> Prop) :
  rooted longest w -> (forall found, found ≡ₚ files w -> Q w found) ->
  caches (collectFiles levels rootPath []) w Q.
Proof. intros Hr HQ. by eapply caches_collect. Qed.

Definition aged (options : TempFileCacheCleanupOptions) (f : CacheFile) : Prop :=
  isValid (clo_removeFilesOlderThanUtc options) = true /\
  earlier (cfi_modifiedAtUtc f) (inUtc (clo_removeFilesOlderThanUtc options)) = true.

(** What a cleanup leaves, and reports. [old] are the files it removed for their age,
    [large] those it removed to make room. *)
Record cleaned (options : TempFileCacheCleanupOptions) (old large : list CacheFile)
    (w w' : cache_world) (r : TempFileCacheCleanupResult) : Prop := mkCleaned {
  cle_rest : files w ≡ₚ (old ++ large) ++ files w';
  cle_unprotected :
    Forall (fun f => absoluteFilePath (cfi_path f) ∉ caw_protected w') (old ++ large);
  cle_old : Forall (aged options) old;
  cle_old_gone : Forall (fun f => aged options f -> spared w' f) (files w');
  cle_wanted : 0 < clo_maxSizeBytes options \/ large = [];
  cle_fits : 0 < clo_maxSizeBytes options ->
    sizes (files w') <= clo_maxSizeBytes options \/ Forall (spared w') (files w');
  cle_needed : forall l f k, large = l ++ f :: k ->
    clo_maxSizeBytes options < sizes (f :: k) + sizes (files w');
  cle_oldest_first : Forall (fun f => Forall (fun g => spared w' g \/
    earlier (cfi_modifiedAtUtc g) (cfi_modifiedAtUtc f) = false) (files w')) large;
  cle_report :
    r = mkCleanupResult (blen (old ++ large)) (sizes (old ++ large)) (sizes (files w'))
}.

(** What stays was not removed. *)
Lemma stays removed w w' (P : CacheFile -> Prop) :
  well_formed_cache w -> removing removed w w' ->
  Forall (fun f => f ∈ removed \/ P f) (files w) -> Forall P (files w').
Proof.
  intros (_ & Hd & _) (Hf & _) Hall. rewrite Hf, fmap_app, NoDup_app in Hd.
  destruct Hd as (_ & Hno & _). apply Forall_forall. intros f Hin.
  rewrite Hf, Forall_app in Hall. destruct Hall as [_ Hall].
  destruct (proj1 (Forall_forall _ _) Hall f Hin) as [Hr|HP]; [|done].
  destruct (Hno (cfi_path f)); by apply list_elem_of_fmap_2.
Qed.

Lemma same_files_removing w w' :
  well_formed_cache w -> rooted longest w' -> same_files w w' -> removing [] w w'.
Proof.
  intros Hw Hr (Hu & Hre & Hp). split; [by rewrite Hu|]. split.
  - eapply (well_formed_left []); [done..|]. by rewrite Hu.
  - by rewrite Hre, Hp.
Qed.

(** The first part of a cleanup, by age. *)
Lemma caches_by_age options fs w (Q : cache_world -> TempFileCacheCleanupResult -> Prop) :
  well_formed_cache w -> fs ≡ₚ files w ->
  (forall old w', removing old w w' -> Forall (aged options) old ->
     Forall (fun f => aged options f -> spared w' f) (files w') -> Q w' (counted old no_cleanup)) ->
  caches (if isValid (clo_removeFilesOlderThanUtc options)
          then remove_older (inUtc (clo_removeFilesOlderThanUtc options)) fs
                 (caw_protected w) no_cleanup
          else mret no_cleanup) w Q.
Proof.
  intros Hw Hfs HQ. unfold aged in HQ. destruct (isValid _) eqn:Hv.
  - apply caches_remove_older; [done|by rewrite Hfs; apply Hw|by apply Forall_forall; intros f Hf; rewrite <- Hfs|].
    intros old w' Hr Hold Hleft. apply HQ; [done| |].
    + eapply Forall_impl; [exact Hold|]. done.
    + eapply stays; [exact Hw|exact Hr|]. rewrite <- Hfs. eapply Forall_impl; [exact Hleft|]. cbn.
      intros f Hf. destruct (earlier _ _); [by destruct (Hf eq_refl); [left|right]|by right; intros []].
  - specialize (HQ [] w). rewrite counted_none in HQ. apply HQ; [by apply removing_none|done|].
    apply Forall_true. by intros f [].
Qed.

(** The second part, by size. *)
Lemma caches_by_size options fs r w (Q : cache_world -> TempFileCacheCleanupResult -> Prop) :
  well_formed_cache w -> fs ≡ₚ files w ->
  (forall large w', removing large w w' ->
     (0 < clo_maxSizeBytes options \/ large = []) ->
     (0 < clo_maxSizeBytes options -> evicted (clo_maxSizeBytes options) (files w) large w') ->
     Q w' (counted large r)) ->
  caches (if (0 <? clo_maxSizeBytes options) && (clo_maxSizeBytes options <? totalSize fs) then
            sorted ← ask (SortByTime fs);
            remove_until_fits (clo_maxSizeBytes options) (totalSize fs) sorted
              (caw_protected w) r
          else mret r) w Q.
Proof.
  intros Hw Hfs HQ. rewrite totalSize_sizes, (sizes_proper _ _ Hfs).
  destruct (Z.ltb_spec 0 (clo_maxSizeBytes options)) as [Hm|Hm]; cbn [andb].
  2: { specialize (HQ [] w). rewrite counted_none in HQ. apply HQ; [by apply removing_none|by right|lia]. }
  destruct (Z.ltb_spec (clo_maxSizeBytes options) (sizes (files w))) as [Hl|Hl].
  - apply awp_ask. intros sorted w' (-> & Hp & Hs). rewrite Hfs in Hp.
    apply caches_remove_until_fits; [done|by rewrite Hp; apply Hw|by apply Forall_forall; intros f Hf; rewrite <- Hp|done|].
    intros large w' Hr _ (Hbig & Hfit & Hold). apply HQ; [done|by left|]. intros _.
    split; [done|]. split; [by rewrite <- Hp|]. eapply Forall_impl; [exact Hold|].
    intros f Hf. by rewrite <- Hp.
  - specialize (HQ [] w). rewrite counted_none in HQ. apply HQ; [by apply removing_none|by right|].
    intros _. split; [by intros []|]. split; [by left|done].
Qed.

Lemma caches_cleanup options w :
  well_formed_cache w ->
  caches (cache_cleanup rootPath levels options) w (fun w' r =>
    exists report old large, r = Result_success report /\
      cleaned options old large w w' report).
Proof.
  intros Hw. apply awp_ask. intros found w0 (-> & ->).
  case_bool_decide as Hroot; cbn [negb].
  2: { eexists _, [], []. split; [reflexivity|].
       assert (files w = []) as Hnone.
       { apply under_empty. unfold listing. destruct (caw_listings w !! rootPath); [|done].
         destruct Hroot. by eexists. }
       split; rewrite ?Hnone; try done; [by right|by right|by intros []]. }
  apply awp_ask. intros protected w0 ->.
  set (w0 := mkCacheWorld _ _ protected).
  assert (forall fuel dir, under fuel w0 dir = under fuel w dir) as Hu0.
  { induction fuel as [|fuel IH]; intros dir; [done|]. cbn. apply flat_map_ext.
    intros i. by rewrite IH. }
  assert (well_formed_cache w0) as Hw0 by (destruct Hw as (Ha & Hb & Hc); by split_and!; rewrite ?Hu0).
  apply awp_bind, caches_collect_all; [apply Hw0|]. intros fs Hfs.
  apply awp_bind. change protected with (caw_protected w0). apply caches_by_age; [done..|].
  intros old w1 Hr1 Hold Hgone. pose proof Hr1 as (_ & Hw1 & Hp1 & _). rewrite <- Hp1.
  apply awp_bind, caches_collect_all; [apply Hw1|]. intros fs1 Hfs1.
  apply awp_bind, caches_by_size; [done..|]. intros large w2 Hr2 Hwanted Hev.
  pose proof Hr2 as (_ & Hw2 & Hp2 & Hre2 & _).
  apply awp_bind. eapply caches_remove_empty; [apply Hw2|exact enough|]. intros w3 Hroot3 Hs3.
  pose proof (same_files_removing _ _ Hw2 Hroot3 Hs3) as Hr3.
  apply awp_bind, caches_collect_all; [done|]. intros fs3 Hfs3. apply caches_give.
  destruct Hs3 as (Hu3 & Hre3 & Hp3).
  assert (forall f, spared w2 f -> spared w3 f) as Hsp by (unfold spared; by rewrite Hre3, Hp3).
  assert (removing (old ++ large) w0 w3) as (Hrest & _ & Hp & _ & Hun).
  { rewrite <- (app_nil_r (old ++ large)). eapply removing_more; [|exact Hr3].
    by eapply removing_more. }
  eexists _, old, large. split; [reflexivity|]. split.
  - by rewrite <- Hrest, Hu0.
  - by rewrite Hp.
  - done.
  - rewrite Hu3. eapply (stays large); [exact Hw1|exact Hr2|].
    eapply Forall_impl; [exact Hgone|]. cbn. intros f Hf. right. intros Ha.
    apply Hsp. eapply spared_later; [exact Hp2|exact Hre2|by apply Hf].
  - done.
  - intros Hm. destruct (Hev Hm) as (_ & Hfit & _). rewrite Hu3.
    destruct Hfit as [Hfit|Hfit]; [by left|right]. eapply stays; [exact Hw1|exact Hr2|].
    eapply Forall_impl; [exact Hfit|]. intros f [Hf|Hf]; [by left|right; by apply Hsp].
  - intros l f k He. rewrite Hu3. destruct Hwanted as [Hm|Hno]; [|by rewrite Hno in He; destruct l].
    destruct (Hev Hm) as (Hbig & _). by eapply Hbig.
  - destruct Hwanted as [Hm|Hno]; [|by subst large]. destruct (Hev Hm) as (_ & _ & Hold').
    eapply Forall_impl; [exact Hold'|]. intros f Hf. rewrite Hu3.
    eapply stays; [exact Hw1|exact Hr2|]. eapply Forall_impl; [exact Hf|].
    intros g [Hg|[Hg|Hg]]; [by left|right; left; by apply Hsp|right; by right].
  - rewrite counted_more, totalSize_sizes, (sizes_proper _ _ Hfs3). unfold counted. by cbn.
Qed.
End cleaning.

(** C25: A cleanup of the cache takes what it should, in order, and reports it. Take a
    cache in which files have paths of their own and directories are not deeper than
    the levels that are gone through. Then a cleanup ends with success. The files it
    removed were not protected when it began. Some were too old, and of the files that
    stay only those are too old that are protected or that the system refused to
    remove. The others were removed while the rest was larger than it may be, and none
    of them while an older file stayed, but for those exceptions; and if the rest is
    still too large, it consists of exceptions. What is reported are the number and
    the size of the files that were removed, and the size of the rest. *)
Theorem cleanup_cleans rootPath levels longest options w o w' :
  (length rootPath <= longest < length rootPath + levels)%nat ->
  well_formed_cache rootPath levels longest w ->
  asks (fun B => @cache_answers B) (cache_cleanup rootPath levels options) w o w' ->
  exists r old large, o = Some (Result_success r) /\
    cleaned rootPath levels options old large w w' r.
Proof.
  intros Hl Hw Hr. eapply awp_runs in Hr; [|by eapply caches_cleanup].
  destruct o as [r|]; [|done]. destruct Hr as (report & old & large & -> & Hc).
  by exists report, old, large.
Qed.
End tree.

(** ** A cache of three files *)

#[local] Existing Instances sample_json.

#[export] Instance sample_files : @QtFiles ascii_qt := {|
  absoluteFilePath path := path;
  fileSuffix path := if ascii_index path 46 0 <? 0 then []
                     else List.last (split_on 46 path) [];
  filePath dir name := dir ++ [kSlash] ++ name;
  toUtf8 s := s;
  sha256Hex b := b;
  isLetterOrNumber c := (48 <=? c) && (c <=? 122);
  earlier a b := (a <? b)%Z
|}.

Definition by_time (f g : CacheFile) : Prop := cfi_modifiedAtUtc f <= cfi_modifiedAtUtc g.
#[local] Instance by_time_dec : RelDecision by_time.
Proof. intros f g. apply Z_le_dec. Defined.
#[local] Instance by_time_trans : Transitive by_time.
Proof. intros f g h. unfold by_time. apply Z.le_trans. Qed.
#[local] Instance by_time_total : Total by_time.
Proof. intros f g. apply Z.le_ge_cases. Qed.

Definition cache_serve {B : Set} (c : cache_call B)
    : cache_world -> option (B * cache_world) :=
  match c in cache_call B return cache_world -> option (B * cache_world) with
  | DirectoryExists path => fun w =>
      Some (bool_decide (is_Some (caw_listings w !! path)), w)
  | EntryInfoList path files => fun w =>
      Some (if files then listing w path else List.filter fin_isDir (listing w path), w)
  | RemoveFile path => fun w => Some (true, without_file path w)
  | RemoveDirectory dir name => fun w => Some (false, w)
  | RemoveRecursively _ => fun w => Some (true, with_listings ∅ w)
  | MakePath _ => fun w => Some (true, w)
  | SortByTime files => fun w => Some (merge_sort by_time files, w)
  | ProtectedPaths => fun w =>
      Some (caw_protected w, mkCacheWorld (caw_listings w) (caw_refused w) (caw_protected w))
  | InsertProtected _ | RemoveProtected _ => fun w => Some (tt, w)
  end.

Lemma cache_serve_answers (B : Set) (c : cache_call B) w b w' :
  cache_serve c w = Some (b, w') -> cache_answers c w b w'.
Proof.
  destruct c; cbn [cache_serve cache_answers]; try (by intros [= <- <-]).
  intros [= <- <-]. split; [done|]. split; [apply merge_sort_Permutation|].
  pose proof (StronglySorted_merge_sort by_time files) as Hs.
  induction Hs as [|f fs Hs IH Hf]; constructor; [done|].
  eapply Forall_impl; [exact Hf|]. intros g Hg. apply Z.ltb_ge, Hg.
Qed.

(** Files of 60, 50 and 40 bytes, of which the first is too old. *)
Definition cached_file (name : string) (modified size : Z) : FileInfo :=
  mkFileInfo (QStringLiteral ("/c/ab/" +:+ name)) (QStringLiteral name) false modified size.
Definition three_files : cache_world := mkCacheWorld
  (<[QStringLiteral "/c" := [mkFileInfo (QStringLiteral "/c/ab") (QStringLiteral "ab") true 9 0]]>
   (<[QStringLiteral "/c/ab" :=
        [cached_file "k1" 5 60; cached_file "k2" 20 50; cached_file "k3" 10 40]]> ∅)) ∅ ∅.

Definition by_age_and_size : TempFileCacheCleanupOptions := mkCleanupOptions 7 80.

Lemma run_cleanup : exists r w',
  run_asking (fun B => @cache_serve B)
    (cache_cleanup (QStringLiteral "/c") 7 by_age_and_size) three_files = Some (Some r, w') /\
  clr_filesRemoved (res_value r) = 2.
Proof.
  assert (match run_asking (fun B => @cache_serve B)
    (cache_cleanup (QStringLiteral "/c") 7 by_age_and_size) three_files with
    | Some (Some r, _) => bool_decide (clr_filesRemoved (res_value r) = 2)
    | _ => false end = true) as Hr by by vm_compute.
  destruct (run_asking _ _ _) as [[[r|] w']|]; try done. exists r, w'. split; [done|].
  by apply bool_decide_eq_true in Hr.
Qed.

Lemma three_files_well_formed : well_formed_cache (QStringLiteral "/c") 7 6 three_files.
Proof.
  split; [|split].
  - intros dir i. unfold listing, three_files. cbn [caw_listings].
    destruct (decide (dir = QStringLiteral "/c")) as [->|Hc].
    + rewrite lookup_insert_eq. cbn [default from_option id].
      intros ->%list_elem_of_singleton _. cbn. lia.
    + rewrite lookup_insert_ne by done.
      destruct (decide (dir = QStringLiteral "/c/ab")) as [->|Hab].
      * rewrite lookup_insert_eq. cbn [default from_option id]. rewrite !elem_of_cons.
        by intros [->|[->|[->|?%elem_of_nil]]].
      * rewrite lookup_insert_ne, lookup_empty by done. by intros ?%elem_of_nil.
  - apply (bool_decide_eq_true_1 _). by vm_compute.
  - apply (bool_decide_eq_true_1 _). by vm_compute.
Qed.

Lemma cleanup_cleans_witness : exists report old large w',
  run_asking (fun B => @cache_serve B)
    (cache_cleanup (QStringLiteral "/c") 7 by_age_and_size) three_files
    = Some (Some (Result_success report), w') /\
  clr_filesRemoved report = 2 /\ blen (old ++ large) = 2 /\
  cleaned (QStringLiteral "/c") 7 by_age_and_size old large three_files w' report.
Proof.
  destruct run_cleanup as (r & w' & Hrun & Hn).
  pose proof (run_runs (fun B => cache_answers (B:=B)) (fun B => @cache_serve B) _ _ _ _
                cache_serve_answers Hrun) as Hr.
  apply (cleanup_cleans (QStringLiteral "/c") 7 6) in Hr;
    [|cbn; lia|exact three_files_well_formed].
  destruct Hr as (report & old & large & [= ->] & Hc). exists report, old, large, w'.
  split; [exact Hrun|]. split; [exact Hn|]. split; [|exact Hc].
  pose proof (cle_report _ _ _ _ _ _ _ _ Hc) as He. rewrite He in Hn. exact Hn.
Defined.
