(* ===== verification/FileServices.v ===== *)
(** * Transfers, opened files and previews ([TransferManager.cpp],
    [OpenFileService.cpp], [PreviewService.cpp], [DesktopServicesFileOpener.cpp])

    Operations on files that run on the queue (OperationQueue.v), and the preview of a
    file.  What is put on the queue is a name and a program, which is given the context
    of the operation when it runs. *)

From S2P Require Export TempFiles Search.
Local Open Scope Z_scope.

Inductive file_call `{Qt} : Set -> Type :=
| InCache (B : Set) (c : cache_call B) : file_call B
| OnClient (A : Set) (op : smb_op A) (context : CoreContext) : file_call A
| TransferDownload (connectionId remotePath localPath : QString) (context : CoreContext)
    : file_call (Result bool)
| OpenLocalFile (localPath : QString) : file_call (Result bool)
| LocalFileExists (localPath : QString) : file_call bool
| OpenUrl (localPath : QString) : file_call bool
| ReadLocalFile (localPath : QString) (most : Z) : file_call (option bytes)
| ReadImageSize (localPath : QString) : file_call (option (Z * Z)).
Arguments InCache {_ B} c.
Arguments OnClient {_ A} op context.
Abbreviation files_asking := (asking file_call).

(** What [enqueue] is given. *)
Record Enqueued `{Qt} : Type := mkEnqueued {
  enq_name : QString;
  enq_operation : CoreContext -> files_asking (Result bool)
}.
Arguments mkEnqueued {_} _ _.

Inductive PreviewKind : Set :=
| PreviewKind_Unsupported
| PreviewKind_Text
| PreviewKind_Image.
#[export] Instance PreviewKind_eq_dec : EqDecision PreviewKind.
Proof. solve_decision. Defined.

Record PreviewResult : Set := mkPreviewResult {
  pvr_kind : PreviewKind;
  pvr_localPath : QString;
  pvr_text : QString;
  pvr_imageSize : option (Z * Z)
}.

Section file_services.
Context `{Qt} `{!QtJson} `{!QtFiles}.

Definition in_cache {A} (p : caching A) : files_asking A :=
  asking_lift (fun B (c : cache_call B) => InCache c) p.

(** ** [TransferManager] *)

Definition transfer_downloadFile (connection : Connection) (secret : secret_pointer)
    (remotePath localPath : QString) : Enqueued :=
  mkEnqueued (QStringLiteral "download:" ++ remotePath) (fun context =>
    ask (OnClient (Smb_downloadFile connection secret remotePath localPath) context)).

Definition transfer_uploadFile (connection : Connection) (secret : secret_pointer)
    (localPath remotePath : QString) : Enqueued :=
  mkEnqueued (QStringLiteral "upload:" ++ remotePath) (fun context =>
    ask (OnClient (Smb_uploadFile connection secret localPath remotePath) context)).

Definition transfer_copy (sourceConnection : Connection) (sourceSecret : secret_pointer)
    (sourceRemotePath : QString) (targetConnection : Connection)
    (targetSecret : secret_pointer) (targetRemotePath : QString) : Enqueued :=
  mkEnqueued (QStringLiteral "copy:" ++ sourceRemotePath) (fun context =>
    ask (OnClient (Smb_copy sourceConnection sourceSecret sourceRemotePath
                     targetConnection targetSecret targetRemotePath) context)).

Definition transfer_move (sourceConnection : Connection) (sourceSecret : secret_pointer)
    (sourceRemotePath : QString) (targetConnection : Connection)
    (targetSecret : secret_pointer) (targetRemotePath : QString) : Enqueued :=
  mkEnqueued (QStringLiteral "move:" ++ sourceRemotePath) (fun context =>
    ask (OnClient (Smb_move sourceConnection sourceSecret sourceRemotePath
                     targetConnection targetSecret targetRemotePath) context)).

(** ** [OpenFileService] *)

Definition cacheConnectionKey (connection : Connection) : QString :=
  if negb (isEmpty (con_id connection)) then con_id connection
  else con_normalizedUri connection.

Definition openRemoteFile (rootPath : QString) (connection : Connection)
    (secret : secret_pointer) (remotePath : QString) : Enqueued :=
  mkEnqueued (QStringLiteral "open:" ++ remotePath) (fun context =>
    localPath ← in_cache (cache_localPathFor rootPath (cacheConnectionKey connection)
                            remotePath);
    if negb (Result_ok localPath) then mret (Result_failure false (res_error localPath)) else
    downloaded ← ask (OnClient (Smb_downloadFile connection secret remotePath
                                  (res_value localPath)) context);
    if negb (Result_ok downloaded) then mret downloaded else
    in_cache (cache_protectPath (res_value localPath)) ;;
    ask (OpenLocalFile (res_value localPath))).

(** ** [DesktopServicesFileOpener] *)

(** [openUrl] is called on the thread of the interface, wherever this runs. *)
Definition desktop_openLocalFile (localPath : QString) : files_asking (Result bool) :=
  found ← ask (LocalFileExists localPath);
  if negb found then mret (Result_failure false
    (fromCode App_FileNotFound ErrorCategory_Transfer
       (QStringLiteral "Local cached file was not found.") false)) else
  opened ← ask (OpenUrl localPath);
  mret (if negb opened then Result_failure false
          (fromCode App_LocalIoError ErrorCategory_Transfer
             (QStringLiteral "System file opener rejected the local file.") false)
        else Result_success true).

(** ** [PreviewService] *)

Definition textSuffixes : list QString := QStringLiteral <$>
  ["txt"; "md"; "log"; "csv"; "json"; "xml"; "yml"; "yaml"; "ini"; "conf"; "cpp"; "h";
   "hpp"; "c"; "py"; "js"; "ts"; "css"; "html"]%string.
Definition imageSuffixes : list QString := QStringLiteral <$>
  ["png"; "jpg"; "jpeg"; "gif"; "bmp"; "webp"]%string.

Definition previewError (details : string) : AppError :=
  fromCode App_LocalIoError ErrorCategory_Transfer (QStringLiteral details) false.

Definition previewKindFor (entry : RemoteFileEntry) : PreviewKind :=
  if negb (isFile entry) then PreviewKind_Unsupported else
  let suffix := toLower (fileSuffix (rfe_name entry)) in
  if bool_decide (suffix ∈ textSuffixes) then PreviewKind_Text else
  if bool_decide (suffix ∈ imageSuffixes) then PreviewKind_Image else
  PreviewKind_Unsupported.

Definition no_preview : PreviewResult :=
  mkPreviewResult PreviewKind_Unsupported [] [] None.

Definition readTextPreview (maxTextBytes : Z) (localPath : QString)
    : files_asking (Result QString) :=
  data ← ask (ReadLocalFile localPath maxTextBytes);
  mret match data with
       | None => Result_failure [] (previewError "Unable to read text preview.")
       | Some data => Result_success (fromUtf8 data)
       end.

Definition preparePreview (rootPath : QString) (maxTextBytes : Z) (connectionId : QString)
    (entry : RemoteFileEntry) (context : CoreContext) : files_asking (Result PreviewResult) :=
  let kind := previewKindFor entry in
  if bool_decide (kind = PreviewKind_Unsupported) then mret (Result_success no_preview) else
  localPath ← in_cache (cache_localPathFor rootPath connectionId (rfe_remotePath entry));
  if negb (Result_ok localPath)
  then mret (Result_failure no_preview (res_error localPath)) else
  downloaded ← ask (TransferDownload connectionId (rfe_remotePath entry)
                      (res_value localPath) context);
  if negb (Result_ok downloaded)
  then mret (Result_failure no_preview (res_error downloaded)) else
  if bool_decide (kind = PreviewKind_Text) then
    text ← readTextPreview maxTextBytes (res_value localPath);
    mret (if negb (Result_ok text) then Result_failure no_preview (res_error text)
          else Result_success
                 (mkPreviewResult kind (res_value localPath) (res_value text) None))
  else
    size ← ask (ReadImageSize (res_value localPath));
    mret match size with
         | None => Result_failure no_preview (previewError "Unable to read image preview.")
         | Some size =>
             Result_success (mkPreviewResult kind (res_value localPath) [] (Some size))
         end.

Definition previewKind_toString (kind : PreviewKind) : QString :=
  QStringLiteral match kind with
  | PreviewKind_Unsupported => "unsupported"
  | PreviewKind_Text => "text"
  | PreviewKind_Image => "image"
  end.

(** ** Order of events *)

(** What has been done with a local file. *)
Inductive file_event : Set :=
| Downloaded (localPath : QString)
| ProtectedFile (path : QString)
| Opened (localPath : QString)
| ReadFile (localPath : QString).

Definition event_of {B : Set} (c : file_call B) : B -> list file_event :=
  match c in file_call B return B -> list file_event with
  | InCache c =>
      match c in cache_call B return B -> list file_event with
      | InsertProtected path => fun _ => [ProtectedFile path]
      | _ => fun _ => []
      end
  | OnClient op _ =>
      match op in smb_op B return B -> list file_event with
      | Smb_downloadFile _ _ _ localPath => fun r =>
          if Result_ok r then [Downloaded localPath] else []
      | _ => fun _ => []
      end
  | TransferDownload _ _ localPath _ => fun r =>
      if Result_ok r then [Downloaded localPath] else []
  | OpenLocalFile localPath => fun r => if Result_ok r then [Opened localPath] else []
  | OpenUrl localPath => fun r => if r then [Opened localPath] else []
  | ReadLocalFile localPath _ => fun _ => [ReadFile localPath]
  | ReadImageSize localPath => fun _ => [ReadFile localPath]
  | LocalFileExists _ => fun _ => []
  end.

(** Anything may be answered; what is done is written down. *)
Definition file_answers {B : Set} (c : file_call B) (log : list file_event) (b : B)
    (log' : list file_event) : Prop := log' = log ++ event_of c b.

Abbreviation doing p log Q := (awp (fun B => @file_answers B) False p log Q).

Lemma doing_localPathFor {A} root key path (f : Result QString -> files_asking A) log Q :
  (forall r, doing (f r) log Q) ->
  doing (in_cache (cache_localPathFor root key path) ≫= f) log Q.
Proof.
  intros Hf made log' Hl. unfold file_answers in Hl. cbn [event_of] in Hl.
  rewrite app_nil_r in Hl. subst log'. by destruct made; apply Hf.
Qed.

(** What has been done when a remote file was opened, or could not be. *)
Definition opening_log (localPath : QString) (log log' : list file_event) (r : Result bool)
    : Prop :=
  let ready := Downloaded localPath ::
    (if isEmpty localPath then [] else [ProtectedFile (absoluteFilePath localPath)]) in
  if Result_ok r then log' = log ++ ready ++ [Opened localPath]
  else log' = log \/ log' = log ++ ready.

(** A remote file is opened after it was downloaded to the cache and is protected there.
    If it was not opened, the operation fails. *)
Theorem opened_when_ready rootPath connection secret remotePath context log o log' :
  asks (fun B => @file_answers B)
    (enq_operation (openRemoteFile rootPath connection secret remotePath) context) log o log' ->
  exists r localPath, o = Some r /\ opening_log localPath log log' r.
Proof.
  intros Hr. eapply (awp_runs (fun B => @file_answers B) False) with (Q := fun log' r =>
    exists localPath, opening_log localPath log log' r) in Hr.
  { destruct o as [r|]; [|done]. destruct Hr as [localPath Hr]. by exists r, localPath. }
  clear Hr. cbn [openRemoteFile enq_operation]. apply doing_localPathFor. intros localPath.
  eapply awp_mono with (Q := opening_log (res_value localPath) log); [|by intros; eexists].
  destruct (Result_ok localPath) eqn:Hl; cbn [negb].
  2: { unfold opening_log. cbn. unfold Result_ok in *. cbn. rewrite Hl. by left. }
  apply awp_ask. intros downloaded log1 ->. cbn [event_of].
  destruct (Result_ok downloaded) eqn:Hd; cbn [negb].
  2: { unfold opening_log. cbn. rewrite Hd. left. by rewrite app_nil_r. }
  apply awp_bind. unfold cache_protectPath, opening_log.
  destruct (isEmpty (res_value localPath)).
  - intros opened log2 ->. cbn [event_of]. rewrite <- (assoc_L (++)).
    cbn [awp]. destruct (Result_ok opened); [done|]. by right.
  - intros [] log2 ->. intros opened log3 ->. cbn [event_of].
    rewrite <- !(assoc_L (++)). cbn [awp]. destruct (Result_ok opened); [done|]. by right.
Qed.

End file_services.
