(* ===== verification/Browser.v ===== *)
(** * The browser of remote files ([RemoteBrowserWidget.cpp])

    What the widget decides: which directory is shown and where back and forward lead,
    which operations are put on the queue, and what these do.  The handlers of the
    interface take the state of the widget and give the next one; labels, buttons and the
    table are not in it.  Operations run on threads of the queue and post events, which
    are handled later.  There is a file opener, as the constructor makes one. *)

From stdpp Require Import gmap.
From S2P Require Export FileServices Backup.
Local Open Scope Z_scope.

Inductive HistoryMode : Set :=
| HistoryMode_Push
| HistoryMode_Replace
| HistoryMode_Back
| HistoryMode_Forward.

Record OpenFileSession : Set := mkOpenFileSession {
  ofs_connectionId : QString;
  ofs_remotePath : QString;
  ofs_localPath : QString
}.

Record RemoteDestination : Set := mkRemoteDestination {
  rds_connectionId : QString;
  rds_remoteDirectory : QString
}.

Section browser_data.
Context `{Qt}.

(** The members of the widget; stacks have their top at the end. *)
Record Browser : Set := mkBrowser {
  m_connectionId : QString;
  m_capabilities : SmbClientCapabilities;
  m_locationRootText : QString;
  m_currentRemotePath : QString;
  m_entries : list RemoteFileEntry;
  m_backStack : list QString;
  m_forwardStack : list QString;
  m_pendingSymlinkFileFallbacks : gmap QString RemoteFileEntry;
  m_openFileSessions : gmap QString OpenFileSession;
  m_pendingOpenFileSyncs : gset QString;
  m_startDragWhenReady : bool
}.

(** The operations that are put on the queue, with what their closures hold. *)
Inductive browser_operation : Set :=
| ListOperation (connectionId targetPath previousPath : QString) (mode : HistoryMode)
| CreateDirectoryOperation (connectionId targetPath : QString)
| RemoveOperation (connectionId remotePath : QString)
| RenameOperation (connectionId sourcePath targetPath : QString)
| DownloadOperation (connectionId remotePath localPath : QString)
| UploadOperation (connectionId localPath targetPath : QString)
| CopyOrMoveOperation (moving : bool) (entries : list RemoteFileEntry)
    (destination : RemoteDestination)
| UploadLocalOperation (connectionId currentRemotePath : QString)
    (localPaths : list QString)
| ExternalDragOperation (connectionId : QString) (fileEntries : list RemoteFileEntry)
| OpenOperation (connectionId remotePath : QString)
| SyncOperation (connectionId remotePath localPath : QString).

(** What an operation posts to the thread of the interface. *)
Inductive interface_event : Set :=
| DirectoryListed (result : OpenConnectionResult) (mode : HistoryMode)
    (previousPath : QString)
| DirectoryFailed (connectionId remotePath : QString) (error : AppError)
| OperationFailed (operationName : QString) (error : AppError)
| OperationCompleted (operationName : QString) (refreshAfterSuccess : bool)
| DragReady (localPaths : list QString)
| FileOpened (connectionId remotePath localPath : QString).

Inductive browser_signal : Set :=
| directoryLoadStarted (connectionId remotePath operationId : QString)
| directoryOpened (connectionId remotePath : QString)
| directoryOpenFailed (connectionId remotePath : QString) (error : AppError)
| remoteOperationStarted (operationName operationId : QString)
| remoteOperationCompleted (operationName : QString)
| remoteOperationFailed (operationName : QString) (error : AppError)
| fileActivated (entry : RemoteFileEntry)
| externalDragReady (localPaths : list QString).

(** The calls of the interface: the prompter, the selected rows, the queue, signals,
    and local files. *)
Inductive ui_call : Set -> Type :=
| PromptCreateFolderName (currentRemotePath : QString) : ui_call (option QString)
| ConfirmDelete (entry : RemoteFileEntry) : ui_call bool
| PromptRename (entry : RemoteFileEntry) : ui_call (option QString)
| PromptDownloadPath (entry : RemoteFileEntry) : ui_call (option QString)
| PromptUploadPath (currentRemotePath : QString) : ui_call (option QString)
| PromptDestination (moving : bool) (currentConnectionId currentRemotePath : QString)
    (entries : list RemoteFileEntry) : ui_call (option RemoteDestination)
| PromptError (title : string) (error : AppError) : ui_call unit
| SelectedRows : ui_call (list RemoteFileEntry)
| Enqueue (name : QString) (op : browser_operation) (refreshAfterSuccess : bool)
    : ui_call QString
| Emit (s : browser_signal) : ui_call unit
| ExistsLocally (path : QString) : ui_call bool
| LocalFileName (path : QString) : ui_call QString
| WatchFile (path : QString) : ui_call unit
| StartSyncTimer : ui_call unit
| StartDrag (localPaths : list QString) : ui_call unit.

(** The calls of an operation: the use cases ([ConnectionOpenService]), its context,
    the cache, local files, the event queue of the interface, and [m_connectionId] as it
    is when the operation looks at it. *)
Inductive worker_call : Set -> Type :=
| UseListDirectory (connectionId remotePath : QString)
    : worker_call (Result OpenConnectionResult)
| UseCreateDirectory (connectionId remotePath : QString) : worker_call (Result bool)
| UseRemove (connectionId remotePath : QString) : worker_call (Result bool)
| UseRename (connectionId source target : QString) : worker_call (Result bool)
| UseDownloadFile (connectionId remotePath localPath : QString)
    (progress : option (Z * Z)) : worker_call (Result bool)
| UseUploadFile (connectionId localPath remotePath : QString)
    (progress : option (Z * Z)) : worker_call (Result bool)
| UseCopy (moving : bool) (sourceConnectionId sourcePath targetConnectionId
    targetPath : QString) (progress : option (Z * Z)) : worker_call (Result bool)
| OperationCancelledNow : worker_call bool
| Progress (bytesTransferred totalBytes : Z) : worker_call unit
| ShownConnectionId : worker_call QString
| CachePathFor (connectionId remotePath : QString) : worker_call (Result QString)
| ProtectLocal (localPath : QString) : worker_call unit
| OpenWith (localPath : QString) : worker_call (Result bool)
| LocalSize (localPath : QString) : worker_call Z
| FileNameOf (localPath : QString) : worker_call QString
| PostEvent (e : interface_event) : worker_call unit
| Sleep (milliseconds : Z) : worker_call unit.
End browser_data.
Abbreviation ui := (asking ui_call).
Abbreviation worker := (asking worker_call).

Section browser.
Context `{Qt} `{!QtFiles}.

(** ** Paths *)

Definition browserNormalizeRemotePath (remotePath : QString) : QString :=
  let remotePath := replaceChar (trimmed remotePath) kBackslash kSlash in
  if isEmpty remotePath then [kSlash] else
  let remotePath :=
    if startsWith remotePath kSlash then remotePath else kSlash :: remotePath in
  chop_slashes (length remotePath) remotePath.

Definition browserParentRemotePath (remotePath : QString) : QString :=
  let path := browserNormalizeRemotePath remotePath in
  if bool_decide (path = [kSlash]) then path else
  let index := lastIndexOf path kSlash in
  if index <=? 0 then [kSlash] else left path index.

Definition browserJoinRemotePath (parentPath childName : QString) : QString :=
  let parent := browserNormalizeRemotePath parentPath in
  let child := trimmed childName in
  if bool_decide (parent = [kSlash]) then kSlash :: child
  else parent ++ [kSlash] ++ child.

Definition isValidEntryName (name : QString) : bool :=
  negb (isEmpty (trimmed name)) && negb (contains name [kSlash])
  && negb (contains name [kBackslash]).

Definition invalidNameError : AppError :=
  fromCode App_InvalidPath ErrorCategory_Validation
    (tr "Remote item name must not be empty or contain path separators.") false.

Definition locationRootText (connection : SavedConnection) : QString :=
  let c := svc_connection connection in
  if negb (isEmpty (trimmed (con_normalizedUri c))) then trimmed (con_normalizedUri c) else
  if negb (isEmpty (trimmed (con_server c))) && negb (isEmpty (trimmed (con_share c)))
  then QStringLiteral "smb://" ++ trimmed (con_server c) ++ [kSlash]
       ++ trimmed (con_share c) else
  if negb (isEmpty (trimmed (svc_name connection))) then trimmed (svc_name connection) else
  trimmed (con_id c).

Definition displayLocation (rootText remotePath : QString) : QString :=
  let rootText := trimmed rootText in
  let rootText := chop_trailing (length rootText) rootText in
  let path := trimmed remotePath in
  let path := if isEmpty path then [kSlash] else path in
  let path := if startsWith path kSlash then path else kSlash :: path in
  rootText ++ path.

Definition isDownloadableRemoteEntry (entry : RemoteFileEntry) : bool :=
  negb (isEmpty (rfe_name entry)) && negb (isDirectory entry).

(** ** Members *)

Definition with_place (connectionId rootText path : QString)
    (entries : list RemoteFileEntry) (back forward : list QString)
    (fallbacks : gmap QString RemoteFileEntry) (b : Browser) : Browser :=
  mkBrowser connectionId (m_capabilities b) rootText path entries back forward fallbacks
    (m_openFileSessions b) (m_pendingOpenFileSyncs b) (m_startDragWhenReady b).
Definition with_capabilities (c : SmbClientCapabilities) (b : Browser) : Browser :=
  mkBrowser (m_connectionId b) c (m_locationRootText b) (m_currentRemotePath b)
    (m_entries b) (m_backStack b) (m_forwardStack b) (m_pendingSymlinkFileFallbacks b)
    (m_openFileSessions b) (m_pendingOpenFileSyncs b) (m_startDragWhenReady b).
Definition with_fallbacks (f : gmap QString RemoteFileEntry) (b : Browser) : Browser :=
  with_place (m_connectionId b) (m_locationRootText b) (m_currentRemotePath b)
    (m_entries b) (m_backStack b) (m_forwardStack b) f b.
Definition with_sessions (sessions : gmap QString OpenFileSession) (syncs : gset QString)
    (b : Browser) : Browser :=
  mkBrowser (m_connectionId b) (m_capabilities b) (m_locationRootText b)
    (m_currentRemotePath b) (m_entries b) (m_backStack b) (m_forwardStack b)
    (m_pendingSymlinkFileFallbacks b) sessions syncs (m_startDragWhenReady b).
Definition with_drag (ready : bool) (b : Browser) : Browser :=
  mkBrowser (m_connectionId b) (m_capabilities b) (m_locationRootText b)
    (m_currentRemotePath b) (m_entries b) (m_backStack b) (m_forwardStack b)
    (m_pendingSymlinkFileFallbacks b) (m_openFileSessions b) (m_pendingOpenFileSyncs b)
    ready.

(** ** Places *)

Definition setDirectory (result : OpenConnectionResult) (b : Browser) : Browser :=
  with_capabilities (ocr_capabilities result)
    (with_place (con_id (svc_connection (ocr_connection result)))
       (locationRootText (ocr_connection result))
       (browserNormalizeRemotePath (ocr_currentRemotePath result))
       (ocr_entries result) [] [] ∅ b).

Definition browser_clear (b : Browser) : Browser :=
  with_capabilities no_capabilities (with_place [] [] [] [] [] [] ∅ b).

Definition requestDirectory (remotePath : QString) (historyMode : HistoryMode)
    (b : Browser) : ui Browser :=
  if isEmpty (m_connectionId b) then mret b else
  let targetPath := browserNormalizeRemotePath remotePath in
  operationId ← ask (Enqueue (tr "Open remote folder")
    (ListOperation (m_connectionId b) targetPath (m_currentRemotePath b) historyMode) false);
  ask (Emit (directoryLoadStarted (m_connectionId b) targetPath operationId)) ;;
  mret b.

Definition openDirectory (remotePath : QString) : Browser -> ui Browser :=
  requestDirectory remotePath HistoryMode_Push.

Definition goBack (b : Browser) : ui Browser :=
  match last (m_backStack b) with
  | None => mret b
  | Some path => requestDirectory path HistoryMode_Back b
  end.

Definition goForward (b : Browser) : ui Browser :=
  match last (m_forwardStack b) with
  | None => mret b
  | Some path => requestDirectory path HistoryMode_Forward b
  end.

Definition goUp (b : Browser) : ui Browser :=
  let parent := browserParentRemotePath (m_currentRemotePath b) in
  if isEmpty (m_connectionId b) || bool_decide (parent = m_currentRemotePath b)
  then mret b else requestDirectory parent HistoryMode_Push b.

Definition browser_refresh (b : Browser) : ui Browser :=
  if isEmpty (m_connectionId b) || isEmpty (m_currentRemotePath b) then mret b
  else requestDirectory (m_currentRemotePath b) HistoryMode_Replace b.

(** [removeLast] of a stack whose top is the path. *)
Definition pop_if (path : QString) (stack : list QString) : list QString :=
  if bool_decide (last stack = Some path) then take (length stack - 1) stack else stack.
(** [push_back] of the place that was left. *)
Definition push_left (previous target : QString) (stack : list QString) : list QString :=
  if negb (isEmpty previous) && negb (bool_decide (previous = target))
  then stack ++ [previous] else stack.

(** The [switch] over the mode: the stacks after the move to [target]. *)
Definition moved_stacks (mode : HistoryMode) (previous target : QString)
    (back forward : list QString) : list QString * list QString :=
  match mode with
  | HistoryMode_Push => (push_left previous target back, [])
  | HistoryMode_Back => (pop_if target back, push_left previous target forward)
  | HistoryMode_Forward => (push_left previous target back, pop_if target forward)
  | HistoryMode_Replace => (back, forward)
  end.

Definition applyDirectory (result : OpenConnectionResult) (historyMode : HistoryMode)
    (previousPath : QString) (b : Browser) : ui Browser :=
  let targetPath := browserNormalizeRemotePath (ocr_currentRemotePath result) in
  let previous :=
    if isEmpty previousPath then [] else browserNormalizeRemotePath previousPath in
  let '(back, forward) :=
    moved_stacks historyMode previous targetPath (m_backStack b) (m_forwardStack b) in
  let connectionId := con_id (svc_connection (ocr_connection result)) in
  ask (Emit (directoryOpened connectionId targetPath)) ;;
  mret (with_place connectionId (locationRootText (ocr_connection result)) targetPath
          (ocr_entries result) back forward
          (delete targetPath (m_pendingSymlinkFileFallbacks b)) b).

(** ** Operations on files, as they are asked for *)

(** [runFileOperation] up to the queue. *)
Definition start_operation (operationName : QString) (op : browser_operation)
    (refreshAfterSuccess : bool) (b : Browser) : ui Browser :=
  operationId ← ask (Enqueue operationName op refreshAfterSuccess);
  ask (Emit (remoteOperationStarted operationName operationId)) ;;
  mret b.

Definition no_entry : RemoteFileEntry :=
  mkRemoteFileEntry [] [] RemoteFileType_Unknown 0 nullDateTime [] [] false.

Definition selectedEntry : ui RemoteFileEntry :=
  rows ← ask SelectedRows;
  mret (default no_entry (head rows)).

Definition selectedEntries : ui (list RemoteFileEntry) :=
  rows ← ask SelectedRows;
  mret (List.filter (fun entry => negb (isEmpty (rfe_name entry))) rows).

(** An error that is shown and reported. *)
Definition refuse_operation (title : string) (operationName : QString) (error : AppError)
    (b : Browser) : ui Browser :=
  ask (PromptError title error) ;;
  ask (Emit (remoteOperationFailed operationName error)) ;;
  mret b.

Definition createFolder (b : Browser) : ui Browser :=
  if isEmpty (m_connectionId b) then mret b else
  name ← ask (PromptCreateFolderName (m_currentRemotePath b));
  match name with
  | None => mret b
  | Some name =>
      let trimmedName := trimmed name in
      let operation := QStringLiteral "create_directory" in
      if negb (isValidEntryName trimmedName)
      then refuse_operation "Unable to Create Folder" operation invalidNameError b
      else start_operation operation (CreateDirectoryOperation (m_connectionId b)
             (browserJoinRemotePath (m_currentRemotePath b) trimmedName)) true b
  end.

Definition deleteSelected (b : Browser) : ui Browser :=
  entry ← selectedEntry;
  if isEmpty (m_connectionId b) || isEmpty (rfe_name entry) then mret b else
  confirmed ← ask (ConfirmDelete entry);
  if negb confirmed then mret b else
  start_operation (QStringLiteral "delete")
    (RemoveOperation (m_connectionId b) (rfe_remotePath entry)) true b.

Definition renameSelected (b : Browser) : ui Browser :=
  entry ← selectedEntry;
  if isEmpty (m_connectionId b) || isEmpty (rfe_name entry) then mret b else
  name ← ask (PromptRename entry);
  match name with
  | None => mret b
  | Some name =>
      let trimmedName := trimmed name in
      let operation := QStringLiteral "rename" in
      if negb (isValidEntryName trimmedName)
      then refuse_operation "Unable to Rename Item" operation invalidNameError b
      else start_operation operation
             (RenameOperation (m_connectionId b) (rfe_remotePath entry)
                (browserJoinRemotePath (browserParentRemotePath (rfe_remotePath entry))
                   trimmedName)) true b
  end.

Definition downloadSelected (b : Browser) : ui Browser :=
  entry ← selectedEntry;
  if isEmpty (m_connectionId b) || negb (isDownloadableRemoteEntry entry) then mret b else
  localPath ← ask (PromptDownloadPath entry);
  match localPath with
  | None => mret b
  | Some localPath =>
      start_operation (QStringLiteral "download")
        (DownloadOperation (m_connectionId b) (rfe_remotePath entry) localPath) false b
  end.

Definition browser_uploadFile (b : Browser) : ui Browser :=
  if isEmpty (m_connectionId b) then mret b else
  localPath ← ask (PromptUploadPath (m_currentRemotePath b));
  match localPath with
  | None => mret b
  | Some localPath =>
      fileName ← ask (LocalFileName localPath);
      let operation := QStringLiteral "upload" in
      if negb (isValidEntryName fileName)
      then refuse_operation "Unable to Upload File" operation invalidNameError b
      else start_operation operation (UploadOperation (m_connectionId b) localPath
             (browserJoinRemotePath (m_currentRemotePath b) fileName)) true b
  end.

(** [copySelected] and [moveSelected] *)
Definition copyOrMoveSelected (moving : bool) (b : Browser) : ui Browser :=
  entries ← selectedEntries;
  if isEmpty (m_connectionId b) || bool_decide (length entries = 0%nat) then mret b else
  destination ← ask (PromptDestination moving (m_connectionId b) (m_currentRemotePath b)
                       entries);
  match destination with
  | None => mret b
  | Some destination =>
      start_operation (QStringLiteral (if moving then "move" else "copy"))
        (CopyOrMoveOperation moving entries destination) true b
  end.

Definition prepareExternalDragForSelected (b : Browser) : ui Browser :=
  if isEmpty (m_connectionId b) then mret b else
  entries ← selectedEntries;
  let fileEntries := List.filter isFile entries in
  let operation := QStringLiteral "external_drag" in
  match fileEntries with
  | [] =>
      refuse_operation "Unable to Drag Remote Items" operation
        (fromCode App_InvalidPath ErrorCategory_Validation
           (tr "Only files can be dragged to the local desktop.") false) b
  | _ =>
      start_operation operation (ExternalDragOperation (m_connectionId b) fileEntries)
        false b
  end.

Definition startExternalDragFromMouse (b : Browser) : ui Browser :=
  prepareExternalDragForSelected (with_drag true b).

Definition uploadLocalFiles (localPaths : list QString) (b : Browser) : ui Browser :=
  start_operation (QStringLiteral "drop_upload")
    (UploadLocalOperation (m_connectionId b) (m_currentRemotePath b) localPaths) true b.

Definition browser_openRemoteFile (entry : RemoteFileEntry) (b : Browser) : ui Browser :=
  if isEmpty (m_connectionId b) || isEmpty (trimmed (rfe_remotePath entry)) then mret b else
  ask (Emit (fileActivated entry)) ;;
  start_operation (QStringLiteral "open")
    (OpenOperation (m_connectionId b) (rfe_remotePath entry)) false b.

(** A double click on a row. *)
Definition activateEntry (entry : RemoteFileEntry) (b : Browser) : ui Browser :=
  if isEmpty (rfe_name entry) then mret b else
  match rfe_type entry with
  | RemoteFileType_Directory => openDirectory (rfe_remotePath entry) b
  | RemoteFileType_Symlink =>
      openDirectory (rfe_remotePath entry)
        (with_fallbacks
           (<[browserNormalizeRemotePath (rfe_remotePath entry) := entry]>
              (m_pendingSymlinkFileFallbacks b)) b)
  | _ => browser_openRemoteFile entry b
  end.

(** ** Opened files *)

Definition registerOpenFileSession (connectionId remotePath localPath : QString)
    (b : Browser) : ui Browser :=
  let normalizedPath := absoluteFilePath localPath in
  if isEmpty normalizedPath then mret b else
  exists_ ← ask (ExistsLocally normalizedPath);
  if negb exists_ then mret b else
  ask (WatchFile normalizedPath) ;;
  mret (with_sessions
    (<[normalizedPath := mkOpenFileSession connectionId
         (browserNormalizeRemotePath remotePath) normalizedPath]> (m_openFileSessions b))
    (m_pendingOpenFileSyncs b) b).

Definition scheduleOpenFileSync (localPath : QString) (b : Browser) : ui Browser :=
  let normalizedPath := absoluteFilePath localPath in
  match m_openFileSessions b !! normalizedPath with
  | None => mret b
  | Some _ =>
      exists_ ← ask (ExistsLocally normalizedPath);
      (if exists_ : bool then ask (WatchFile normalizedPath) else mret tt) ;;
      ask StartSyncTimer ;;
      mret (with_sessions (m_openFileSessions b)
              ({[normalizedPath]} ∪ m_pendingOpenFileSyncs b) b)
  end.

(** The loop over the files that have changed. *)
Fixpoint flush_loop (pending : list QString) (b : Browser) : ui Browser :=
  match pending with
  | [] => mret b
  | localPath :: pending =>
      match m_openFileSessions b !! localPath with
      | None => flush_loop pending b
      | Some session =>
          if isEmpty (ofs_connectionId session) || isEmpty (ofs_remotePath session)
          then flush_loop pending b else
          exists_ ← ask (ExistsLocally (ofs_localPath session));
          if negb exists_ then flush_loop pending b else
          b ← start_operation (QStringLiteral "sync_open_file")
                (SyncOperation (ofs_connectionId session) (ofs_remotePath session)
                   (ofs_localPath session)) false b;
          flush_loop pending b
      end
  end.

Definition flushPendingOpenFileSyncs (b : Browser) : ui Browser :=
  flush_loop (elements (m_pendingOpenFileSyncs b))
    (with_sessions (m_openFileSessions b) ∅ b).

(** ** Events *)

Definition handle_event (e : interface_event) (b : Browser) : ui Browser :=
  match e with
  | DirectoryListed result mode previousPath => applyDirectory result mode previousPath b
  | DirectoryFailed connectionId remotePath error =>
      let normalizedPath := browserNormalizeRemotePath remotePath in
      let fallback := m_pendingSymlinkFileFallbacks b !! normalizedPath in
      let b := with_fallbacks (delete normalizedPath (m_pendingSymlinkFileFallbacks b)) b in
      match fallback with
      | Some fallback =>
          if negb (isEmpty (rfe_name fallback)) then browser_openRemoteFile fallback b
          else ask (Emit (directoryOpenFailed connectionId remotePath error)) ;; mret b
      | None => ask (Emit (directoryOpenFailed connectionId remotePath error)) ;; mret b
      end
  | OperationFailed operationName error =>
      refuse_operation "Remote Operation Failed" operationName error b
  | OperationCompleted operationName refreshAfterSuccess =>
      ask (Emit (remoteOperationCompleted operationName)) ;;
      if refreshAfterSuccess then browser_refresh b else mret b
  | DragReady localPaths =>
      ask (Emit (externalDragReady localPaths)) ;;
      if m_startDragWhenReady b then
        (match localPaths with [] => mret tt | _ => ask (StartDrag localPaths) end) ;;
        mret (with_drag false b)
      else mret b
  | FileOpened connectionId remotePath localPath =>
      registerOpenFileSession connectionId remotePath localPath b
  end.
End browser.

(** ** Operations, as they run *)

Section operations.
Context `{Qt} `{!QtFiles}.
(** Whether the context of the operation has a token and a callback. *)
Context (context : CoreContext).

Definition workerCancelled : worker bool :=
  if cc_cancellationToken context then ask OperationCancelledNow else mret false.

Definition worker_failure (error : AppError) : worker (Result bool) :=
  mret (Result_failure false error).

Definition operationCancelled (category : ErrorCategory) : AppError :=
  fromCode App_OperationCancelled category (tr "Operation cancelled.") false.

(** The callback of an item, which turns its bytes into [qMin(total, completed + bytes)]
    of [total]; without one the context is passed on. *)
Definition item_progress (completedBytes totalBytes : Z) : option (Z * Z) :=
  if cc_progressCallback context then Some (completedBytes, totalBytes) else None.

Definition report_progress (completedBytes totalBytes : Z) : worker unit :=
  if cc_progressCallback context
  then ask (Progress (Z.min completedBytes totalBytes) totalBytes) else mret tt.

(** The sizes of all items, or their number if they have none. *)
Definition total_bytes (item_sizes : list Z) : Z :=
  let totalBytes := foldl (fun total size => total + Z.max size 0) 0 item_sizes in
  if totalBytes =? 0 then blen item_sizes else totalBytes.

Definition item_bytes (size : Z) : Z := if 0 <? size then size else 1.

Fixpoint copy_entries_loop (moving : bool) (entries : list RemoteFileEntry)
    (destination : RemoteDestination) (totalBytes completedBytes : Z)
    : worker (Result bool) :=
  match entries with
  | [] => mret (Result_success true)
  | entry :: entries =>
      cancelled ← workerCancelled;
      if cancelled : bool
      then worker_failure (operationCancelled ErrorCategory_General) else
      let targetPath := browserJoinRemotePath (rds_remoteDirectory destination) (rfe_name entry) in
      source ← ask ShownConnectionId;
      result ← ask (UseCopy moving source (rfe_remotePath entry)
                      (rds_connectionId destination) targetPath
                      (item_progress completedBytes totalBytes));
      if negb (Result_ok result) then mret result else
      let completedBytes := completedBytes + item_bytes (rfe_size entry) in
      report_progress completedBytes totalBytes ;;
      copy_entries_loop moving entries destination totalBytes completedBytes
  end.

Definition copyOrMoveEntries (moving : bool) (entries : list RemoteFileEntry)
    (destination : RemoteDestination) : worker (Result bool) :=
  if isEmpty (trimmed (rds_connectionId destination))
     || isEmpty (trimmed (rds_remoteDirectory destination))
  then worker_failure (fromCode App_InvalidPath ErrorCategory_Validation
         (tr "Destination connection and folder are required.") false)
  else copy_entries_loop moving entries destination (total_bytes (rfe_size <$> entries)) 0.

Fixpoint upload_loop_local (connectionId currentRemotePath : QString)
    (localPaths : list QString) (totalBytes completedBytes : Z) : worker (Result bool) :=
  match localPaths with
  | [] => mret (Result_success true)
  | localPath :: localPaths =>
      cancelled ← workerCancelled;
      if cancelled : bool
      then worker_failure (operationCancelled ErrorCategory_General) else
      fileName ← ask (FileNameOf localPath);
      uploaded ← ask (UseUploadFile connectionId localPath
                        (browserJoinRemotePath currentRemotePath fileName)
                        (item_progress completedBytes totalBytes));
      if negb (Result_ok uploaded) then mret uploaded else
      size ← ask (LocalSize localPath);
      let completedBytes := completedBytes + item_bytes size in
      report_progress completedBytes totalBytes ;;
      upload_loop_local connectionId currentRemotePath localPaths totalBytes completedBytes
  end.

Fixpoint local_sizes (localPaths : list QString) : worker (list Z) :=
  match localPaths with
  | [] => mret []
  | localPath :: localPaths =>
      size ← ask (LocalSize localPath);
      sizes ← local_sizes localPaths;
      mret (size :: sizes)
  end.

Fixpoint drag_loop (connectionId : QString) (fileEntries : list RemoteFileEntry)
    (totalBytes completedBytes : Z) (urls : list QString) : worker (Result bool) :=
  match fileEntries with
  | [] => ask (PostEvent (DragReady urls)) ;; mret (Result_success true)
  | entry :: fileEntries =>
      cancelled ← workerCancelled;
      if cancelled : bool
      then worker_failure (operationCancelled ErrorCategory_General) else
      localPath ← ask (CachePathFor connectionId (rfe_remotePath entry));
      if negb (Result_ok localPath) then worker_failure (res_error localPath) else
      downloaded ← ask (UseDownloadFile connectionId (rfe_remotePath entry)
                          (res_value localPath) (item_progress completedBytes totalBytes));
      if negb (Result_ok downloaded) then mret downloaded else
      let completedBytes := completedBytes + item_bytes (rfe_size entry) in
      report_progress completedBytes totalBytes ;;
      drag_loop connectionId fileEntries totalBytes completedBytes
        (urls ++ [res_value localPath])
  end.

Definition open_operation (connectionId remotePath : QString) : worker (Result bool) :=
  localPath ← ask (CachePathFor connectionId remotePath);
  if negb (Result_ok localPath) then worker_failure (res_error localPath) else
  downloaded ← ask (UseDownloadFile connectionId remotePath (res_value localPath) None);
  if negb (Result_ok downloaded) then mret downloaded else
  ask (ProtectLocal (res_value localPath)) ;;
  opened ← ask (OpenWith (res_value localPath));
  if negb (Result_ok opened) then mret opened else
  ask (PostEvent (FileOpened connectionId remotePath (res_value localPath))) ;;
  mret opened.

(** The attempts that are left, of 30. *)
Fixpoint sync_attempts (attempts : nat) (connectionId remotePath localPath : QString)
    (lastResult : Result bool) : worker (Result bool) :=
  match attempts with
  | O => mret lastResult
  | S attempts =>
      cancelled ← workerCancelled;
      if cancelled : bool
      then worker_failure (operationCancelled ErrorCategory_Transfer) else
      lastResult ← ask (UseUploadFile connectionId localPath remotePath None);
      if Result_ok lastResult
         || negb (bool_decide (ae_code (res_error lastResult) = App_LocalIoError))
      then mret lastResult else
      ask (Sleep 1000) ;;
      sync_attempts attempts connectionId remotePath localPath lastResult
  end.

(** The closure that [runFileOperation] wraps. *)
Definition operation_body (op : browser_operation) : worker (Result bool) :=
  match op with
  | ListOperation _ _ _ _ => mret (Result_success true)
  | CreateDirectoryOperation connectionId targetPath =>
      ask (UseCreateDirectory connectionId targetPath)
  | RemoveOperation connectionId remotePath => ask (UseRemove connectionId remotePath)
  | RenameOperation connectionId sourcePath targetPath =>
      ask (UseRename connectionId sourcePath targetPath)
  | DownloadOperation connectionId remotePath localPath =>
      ask (UseDownloadFile connectionId remotePath localPath None)
  | UploadOperation connectionId localPath targetPath =>
      ask (UseUploadFile connectionId localPath targetPath None)
  | CopyOrMoveOperation moving entries destination =>
      copyOrMoveEntries moving entries destination
  | UploadLocalOperation connectionId currentRemotePath localPaths =>
      sizes ← local_sizes localPaths;
      upload_loop_local connectionId currentRemotePath localPaths (total_bytes sizes) 0
  | ExternalDragOperation connectionId fileEntries =>
      drag_loop connectionId fileEntries (total_bytes (rfe_size <$> fileEntries)) 0 []
  | OpenOperation connectionId remotePath => open_operation connectionId remotePath
  | SyncOperation connectionId remotePath localPath =>
      sync_attempts 30 connectionId remotePath localPath (Result_success false)
  end.

(** What the queue runs: the operation, and the event that tells how it went. *)
Definition run_operation (operationName : QString) (op : browser_operation)
    (refreshAfterSuccess : bool) : worker (Result bool) :=
  match op with
  | ListOperation connectionId targetPath previousPath mode =>
      listed ← ask (UseListDirectory connectionId targetPath);
      if negb (Result_ok listed) then
        ask (PostEvent (DirectoryFailed connectionId targetPath (res_error listed))) ;;
        worker_failure (res_error listed)
      else
      ask (PostEvent (DirectoryListed (res_value listed) mode previousPath)) ;;
      mret (Result_success true)
  | _ =>
      result ← operation_body op;
      if negb (Result_ok result) then
        ask (PostEvent (OperationFailed operationName (res_error result))) ;;
        worker_failure (res_error result)
      else
      ask (PostEvent (OperationCompleted operationName refreshAfterSuccess)) ;;
      mret (Result_success true)
  end.
End operations.
