(* ===== verification/BrowserRuns.v ===== *)
(** * What the browser does ([RemoteBrowserWidget.cpp])

    Runs of Browser.v: back and forward lead through the places that were visited. *)

From stdpp Require Import gmap sorting.
From S2P Require Import TempFileRuns.
From S2P Require Export Browser.
Local Open Scope Z_scope.

Section browser_runs.
Context `{Qt} `{!QtLaws} `{!QtFiles}.

(** ** Navigation *)

(** The operations that are put on the queue are noted; all else is left open. *)
Definition ui_answers {B : Set} (c : ui_call B)
    : list browser_operation -> B -> list browser_operation -> Prop :=
  match c in ui_call B return list browser_operation -> B -> list browser_operation -> Prop with
  | Enqueue _ op _ => fun w _ w' => w' = w ++ [op]
  | _ => fun w _ w' => w' = w
  end.

Abbreviation shows p w Q := (awp (fun B => @ui_answers B) False p w Q).

Inductive navigation : Set :=
| GoTo (remotePath : QString)
| GoBack
| GoForward
| GoUp
| Refresh.

Definition navigate (n : navigation) : Browser -> ui Browser :=
  match n with
  | GoTo remotePath => openDirectory remotePath
  | GoBack => goBack
  | GoForward => goForward
  | GoUp => goUp
  | Refresh => browser_refresh
  end.

(** A path that is not changed by normalising it; a path with a name that ends with a
    space may be. *)
Definition steady (path : QString) : Prop := browserNormalizeRemotePath path = path.

(** [navigated n b b']: the user asked for [n], and if a directory is requested for it,
    the directory has been listed and is shown, before anything else was asked for. *)
Inductive navigated (n : navigation) (b : Browser) : Browser -> Prop :=
| navigated_not b' :
    asks (fun B => @ui_answers B) (navigate n b) [] (Some b') [] -> navigated n b b'
| navigated_listed b1 b' connectionId target previous mode result log :
    asks (fun B => @ui_answers B) (navigate n b) [] (Some b1)
      [ListOperation connectionId target previous mode] ->
    con_id (svc_connection (ocr_connection result)) = connectionId ->
    browserNormalizeRemotePath (ocr_currentRemotePath result) = target -> steady target ->
    asks (fun B => @ui_answers B)
      (handle_event (DirectoryListed result mode previous) b1) [] (Some b') log ->
    navigated n b b'.

Inductive navigations : list navigation -> Browser -> Browser -> Prop :=
| navigations_none b : navigations [] b b
| navigations_next n ns b b1 b' :
    navigated n b b1 -> navigations ns b1 b' -> navigations (n :: ns) b b'.

(** The places that were visited: before the one that is shown, and after it, with the
    next at the end. *)
Record trail : Set := mkTrail {
  tr_past : list QString;
  tr_here : QString;
  tr_future : list QString
}.

Definition visit (path : QString) (t : trail) : trail :=
  mkTrail (if bool_decide (path = tr_here t) then tr_past t else tr_past t ++ [tr_here t])
    path [].

Definition step_back (t : trail) : trail :=
  match last (tr_past t) with
  | None => t
  | Some path =>
      mkTrail (take (length (tr_past t) - 1) (tr_past t)) path (tr_future t ++ [tr_here t])
  end.

Definition step_forward (t : trail) : trail :=
  match last (tr_future t) with
  | None => t
  | Some path =>
      mkTrail (tr_past t ++ [tr_here t]) path (take (length (tr_future t) - 1) (tr_future t))
  end.

Definition trail_step (t : trail) (n : navigation) : trail :=
  match n with
  | GoTo remotePath => visit (browserNormalizeRemotePath remotePath) t
  | GoBack => step_back t
  | GoForward => step_forward t
  | GoUp => if bool_decide (browserParentRemotePath (tr_here t) = tr_here t) then t
            else visit (browserNormalizeRemotePath (browserParentRemotePath (tr_here t))) t
  | Refresh => t
  end.

Definition trail_of (b : Browser) : trail :=
  mkTrail (m_backStack b) (m_currentRemotePath b) (m_forwardStack b).

(** All places, in the order of back and forward; no two neighbours are the same. *)
Definition places (t : trail) : list QString :=
  tr_past t ++ [tr_here t] ++ reverse (tr_future t).

Record well_trailed (b : Browser) : Prop := mkWellTrailed {
  wt_connected : m_connectionId b <> [];
  wt_steady : Forall steady (places (trail_of b));
  wt_moves : Sorted (fun p q => p <> q) (places (trail_of b))
}.

Lemma chop_slashes_nonempty fuel path : path <> [] -> chop_slashes fuel path <> [].
Proof.
  revert path. induction fuel as [|fuel IH]; intros path Hp; [done|]. cbn [chop_slashes].
  destruct (Z.ltb_spec 1 (blen path)) as [Hl|Hl]; cbn [andb]; [|done].
  destruct (endsWith path kSlash); [|done]. apply IH. rewrite chop_take by lia.
  unfold blen in Hl. destruct path as [|x [|y path]]; cbn in *; [lia|lia|].
  by destruct (length path).
Qed.

Lemma normalize_nonempty path : browserNormalizeRemotePath path <> [].
Proof.
  unfold browserNormalizeRemotePath. destruct (isEmpty _) eqn:He; [done|].
  apply chop_slashes_nonempty. destruct (startsWith _ _); [|done].
  by destruct (replaceChar _ _ _).
Qed.

Lemma steady_nonempty path : steady path -> isEmpty path = false.
Proof.
  intros Hs. pose proof (normalize_nonempty path) as Hn. rewrite Hs in Hn. by destruct path.
Qed.

Lemma shows_request path mode b log :
  m_connectionId b <> [] ->
  shows (requestDirectory path mode b) log (fun log' b' => b' = b /\
    log' = log ++ [ListOperation (m_connectionId b) (browserNormalizeRemotePath path)
                     (m_currentRemotePath b) mode]).
Proof.
  intros Hc. unfold requestDirectory. destruct (m_connectionId b); [done|]. cbn [isEmpty].
  intros id log1 ->. intros [] log2 ->. done.
Qed.

(** Where the browser is after a directory was listed for it. *)
Definition arrived (result : OpenConnectionResult) (mode : HistoryMode)
    (previous : QString) (b b' : Browser) : Prop :=
  let target := browserNormalizeRemotePath (ocr_currentRemotePath result) in
  let stacks := moved_stacks mode
    (if isEmpty previous then [] else browserNormalizeRemotePath previous) target
    (m_backStack b) (m_forwardStack b) in
  m_connectionId b' = con_id (svc_connection (ocr_connection result)) /\
  trail_of b' = mkTrail stacks.1 target stacks.2.

Lemma shows_arrival result mode previous b log :
  shows (handle_event (DirectoryListed result mode previous) b) log
    (fun _ b' => arrived result mode previous b b').
Proof.
  cbn [handle_event]. unfold applyDirectory. cbv zeta.
  rewrite (surjective_pairing (moved_stacks _ _ _ _ _)). by intros [] log1 ->.
Qed.

(** A request and the arrival of its answer. *)
Lemma navigated_request n path mode b b' :
  well_trailed b -> navigate n b = requestDirectory path mode b -> navigated n b b' ->
  let target := browserNormalizeRemotePath path in
  let stacks := moved_stacks mode (m_currentRemotePath b) target
    (m_backStack b) (m_forwardStack b) in
  steady target /\ m_connectionId b' = m_connectionId b /\
  trail_of b' = mkTrail stacks.1 target stacks.2.
Proof.
  intros [Hc Hs _] Hn Hb. destruct Hb as
    [b' Hr|b1 b' connectionId target previous mode' result log Hr Hid Htarget Hst He];
    rewrite Hn in Hr; (eapply awp_runs in Hr; [|by apply shows_request]); cbn in Hr.
  { by destruct Hr as [_ ?]. }
  destruct Hr as [-> [= -> -> -> ->]].
  eapply awp_runs in He; [|apply shows_arrival]. destruct He as [Hid' Ht].
  split; [done|]. split; [by rewrite Hid'|]. rewrite Ht, Htarget.
  assert (steady (m_currentRemotePath b)) as Hh.
  { rewrite Forall_forall in Hs. apply Hs. unfold places. cbn. set_solver. }
  by rewrite (steady_nonempty _ Hh), Hh.
Qed.

Lemma navigated_stays n b b' :
  navigate n b = mret b -> navigated n b b' -> b' = b.
Proof.
  intros Hn Hb. assert (shows (navigate n b) [] (fun log b' => log = [] /\ b' = b)) as Hw.
  { by rewrite Hn. }
  destruct Hb as [b' Hr|b1 b' connectionId target previous mode result log Hr _ _ _ _];
    eapply awp_runs in Hw; [|exact Hr| |exact Hr]; by destruct Hw.
Qed.

(** ** Neighbours *)

Abbreviation moving l := (Sorted (fun p q : QString => p <> q) l).

Lemma moving_prefix l k : moving (l ++ k) -> moving l.
Proof.
  induction l as [|p l IH]; [constructor|]. cbn. intros Hs. inversion_clear Hs as [|? ? Hs' Hp].
  constructor; [by apply IH|]. destruct l; [constructor|]. by inversion_clear Hp; constructor.
Qed.

Lemma moving_neighbours l p q k : moving (l ++ p :: q :: k) -> p <> q.
Proof.
  induction l as [|r l IH]; cbn; intros Hs; inversion_clear Hs as [|? ? Hs' Hp].
  - by inversion_clear Hp.
  - by apply IH.
Qed.

Lemma moving_snoc l p q : moving (l ++ [p]) -> p <> q -> moving (l ++ [p; q]).
Proof.
  intros Hs Hp. change (moving (l ++ [p] ++ [q])). rewrite (assoc_L (++)).
  apply Sorted_snoc; [done|]. by constructor.
Qed.

Lemma take_last (k : list QString) p : take (length (k ++ [p]) - 1) (k ++ [p]) = k.
Proof. rewrite length_app. cbn. by rewrite Nat.add_sub, take_app_length. Qed.

(** ** Back and forward *)

(** A trail along which the browser can go. *)
Definition sound_trail (t : trail) : Prop :=
  Forall steady (places t) /\ moving (places t).

Lemma sound_visit path t : steady path -> sound_trail t -> sound_trail (visit path t).
Proof.
  destruct t as [past here future]. intros Hp [Hs Hm]. unfold sound_trail, visit, places in *.
  cbn [tr_past tr_here tr_future reverse] in *. rewrite (assoc_L (++)) in Hs, Hm.
  apply moving_prefix in Hm. apply Forall_app in Hs as [Hs _].
  change (reverse (@nil QString)) with (@nil QString). rewrite app_nil_r.
  case_bool_decide as He; [by subst|]. rewrite <- (assoc_L (++)). split.
  - apply Forall_app in Hs as [Hs1 Hs2]. apply Forall_app. split; [done|].
    apply Forall_app. split; [done|by constructor].
  - apply moving_snoc; [done|]. by intros <-.
Qed.

Lemma places_back t : places (step_back t) = places t.
Proof.
  destruct t as [past here future]. unfold step_back, places. cbn [tr_past tr_future tr_here].
  destruct (last past) as [path|] eqn:Hl; [|done]. apply last_Some in Hl as [k ->].
  cbn [tr_past tr_future tr_here]. rewrite take_last, reverse_app. by rewrite <- !(assoc_L (++)).
Qed.

Lemma places_forward t : places (step_forward t) = places t.
Proof.
  destruct t as [past here future]. unfold step_forward, places. cbn [tr_past tr_future tr_here].
  destruct (last future) as [path|] eqn:Hl; [|done]. apply last_Some in Hl as [k ->].
  cbn [tr_past tr_future tr_here]. rewrite take_last, reverse_app. by rewrite <- !(assoc_L (++)).
Qed.

Lemma well_trailed_sound b :
  well_trailed b <-> m_connectionId b <> [] /\ sound_trail (trail_of b).
Proof. split; [by intros [? ? ?]|by intros [? [? ?]]]. Qed.

Lemma push_left_here here path stack :
  steady here -> push_left here path stack =
  if bool_decide (path = here) then stack else stack ++ [here].
Proof.
  intros Hh. unfold push_left. rewrite (steady_nonempty _ Hh). cbn [negb andb].
  rewrite (bool_decide_ext (here = path) (path = here)) by (split; congruence).
  by destruct (bool_decide _).
Qed.

Lemma steady_places t p : sound_trail t -> p ∈ places t -> steady p.
Proof. intros [Hs _]. by apply Forall_forall. Qed.

(** The places before and after the one that is shown are not the same. *)
Lemma back_place t path :
  sound_trail t -> last (tr_past t) = Some path -> path <> tr_here t /\ steady path.
Proof.
  intros Ht [k Hl]%last_Some. pose proof Ht as [_ Hm]. split.
  - unfold places in Hm. rewrite Hl, <- (assoc_L (++)) in Hm.
    exact (moving_neighbours k path _ _ Hm).
  - apply (steady_places t); [done|]. unfold places.
    rewrite Hl, !elem_of_app, list_elem_of_singleton. tauto.
Qed.

Lemma forward_place t path :
  sound_trail t -> last (tr_future t) = Some path -> path <> tr_here t /\ steady path.
Proof.
  intros Ht [k Hl]%last_Some. pose proof Ht as [_ Hm]. split.
  - unfold places in Hm. rewrite Hl, reverse_app in Hm. apply not_eq_sym.
    exact (moving_neighbours (tr_past t) _ path _ Hm).
  - apply (steady_places t); [done|]. unfold places.
    rewrite Hl, reverse_app, reverse_singleton, !elem_of_app, !list_elem_of_singleton. tauto.
Qed.

(** A move along the trail. *)
Lemma navigated_along n mode path b b' stacks :
  well_trailed b -> navigate n b = requestDirectory path mode b -> navigated n b b' ->
  steady path -> moved_stacks mode (m_currentRemotePath b) path (m_backStack b)
    (m_forwardStack b) = stacks ->
  mkTrail stacks.1 path stacks.2 = trail_step (trail_of b) n ->
  sound_trail (trail_step (trail_of b) n) ->
  well_trailed b' /\ trail_of b' = trail_step (trail_of b) n.
Proof.
  intros Hw Hn Hb Hp Hst Ht Hsound.
  destruct (navigated_request _ path mode _ _ Hw Hn Hb) as (_ & Hc' & Ht').
  rewrite Hp, Hst, Ht in Ht'. split; [|done]. apply well_trailed_sound. rewrite Hc', Ht'.
  split; [apply Hw|done].
Qed.

Lemma sound_here b : well_trailed b -> steady (m_currentRemotePath b).
Proof.
  intros [_ Ht]%well_trailed_sound. apply (steady_places (trail_of b)); [done|].
  unfold places. cbn. rewrite elem_of_app, elem_of_cons. tauto.
Qed.

Lemma navigated_step n b b' :
  well_trailed b -> navigated n b b' ->
  well_trailed b' /\ trail_of b' = trail_step (trail_of b) n.
Proof.
  intros Hw Hb. pose proof Hw as [Hc Ht]%well_trailed_sound. pose proof (sound_here _ Hw) as Hh.
  destruct n as [path| | | |].
  - destruct (navigated_request (GoTo path) path HistoryMode_Push _ _ Hw eq_refl Hb)
      as (Hs & Hc' & Ht').
    cbn [moved_stacks fst snd] in Ht'. rewrite push_left_here in Ht' by done.
    assert (trail_of b' = trail_step (trail_of b) (GoTo path)) as He by done.
    rewrite well_trailed_sound. split; [|done]. rewrite Hc', He. split; [done|].
    by apply sound_visit.
  - destruct (last (m_backStack b)) as [path|] eqn:Hl.
    + destruct (back_place _ path Ht Hl) as [Hp Hs].
      eapply (navigated_along GoBack HistoryMode_Back path);
        [done|by cbn; unfold goBack; rewrite Hl|done|done|reflexivity| |].
      * cbn [moved_stacks fst snd trail_step]. rewrite push_left_here by done.
        rewrite (bool_decide_eq_false_2 (path = _)) by done.
        unfold pop_if, step_back. cbn. by rewrite Hl, bool_decide_eq_true_2.
      * unfold sound_trail. cbn [trail_step]. by rewrite places_back.
    + apply navigated_stays in Hb as ->; [|by cbn; unfold goBack; rewrite Hl]. split; [done|].
      cbn [trail_step]. unfold step_back. cbn. by rewrite Hl.
  - destruct (last (m_forwardStack b)) as [path|] eqn:Hl.
    + destruct (forward_place _ path Ht Hl) as [Hp Hs].
      eapply (navigated_along GoForward HistoryMode_Forward path);
        [done|by cbn; unfold goForward; rewrite Hl|done|done|reflexivity| |].
      * cbn [moved_stacks fst snd trail_step]. rewrite push_left_here by done.
        rewrite (bool_decide_eq_false_2 (path = _)) by done.
        unfold pop_if, step_forward. cbn. by rewrite Hl, bool_decide_eq_true_2.
      * unfold sound_trail. cbn [trail_step]. by rewrite places_forward.
    + apply navigated_stays in Hb as ->; [|by cbn; unfold goForward; rewrite Hl]. split; [done|].
      cbn [trail_step]. unfold step_forward. cbn. by rewrite Hl.
  - cbn [trail_step]. change (tr_here (trail_of b)) with (m_currentRemotePath b).
    assert (isEmpty (m_connectionId b) = false) as Hce by by destruct (m_connectionId b).
    case_bool_decide as Hup.
    + apply navigated_stays in Hb as ->; [done|]. cbn [navigate]. unfold goUp.
      by rewrite Hce, (bool_decide_eq_true_2 _ Hup).
    + destruct (navigated_request GoUp (browserParentRemotePath (m_currentRemotePath b))
        HistoryMode_Push b b' Hw) as (Hs & Hc' & Ht').
      { cbn [navigate]. unfold goUp. by rewrite Hce, (bool_decide_eq_false_2 _ Hup). }
      { done. }
      cbn [moved_stacks fst snd] in Ht'. rewrite push_left_here in Ht' by done.
      assert (trail_of b' = visit (browserNormalizeRemotePath
        (browserParentRemotePath (m_currentRemotePath b))) (trail_of b)) as He by done.
      rewrite well_trailed_sound. split; [|done]. rewrite Hc', He. split; [done|].
      by apply sound_visit.
  - assert (isEmpty (m_connectionId b) = false) as Hce by by destruct (m_connectionId b).
    eapply (navigated_along Refresh HistoryMode_Replace (m_currentRemotePath b));
      [done| |done|done|reflexivity|done|done].
    cbn [navigate]. unfold browser_refresh. by rewrite Hce, (steady_nonempty _ Hh).
Qed.

(** C26: Back and forward lead through the places that were visited. Take a browser that
    shows a place of a connection, and any walk in which every directory that was asked
    for has been listed before the next is asked for. Then the stacks of the browser
    and its place are what a history makes of the walk: going to another place leaves
    the one that was shown in the past and forgets the future, back and forward move
    along the places without changing their order, and refreshing changes nothing; and
    no step goes to the place where one is already. *)
Theorem browser_history ns b b' :
  well_trailed b -> navigations ns b b' ->
  well_trailed b' /\ trail_of b' = foldl trail_step (trail_of b) ns.
Proof.
  intros Hw Hn. induction Hn as [b|n ns b b1 b' Hb Hn IH]; [done|].
  destruct (navigated_step _ _ _ Hw Hb) as [Hw1 Ht1]. destruct (IH Hw1) as [Hw' Ht'].
  split; [done|]. by rewrite Ht', Ht1.
Qed.

(** Opening a connection starts such a walk. *)
Lemma opened_well_trailed result b :
  con_id (svc_connection (ocr_connection result)) <> [] ->
  steady (browserNormalizeRemotePath (ocr_currentRemotePath result)) ->
  well_trailed (setDirectory result b).
Proof.
  intros Hc Hs. split; [done|by constructor|]. cbn. by repeat constructor.
Qed.

End browser_runs.

(** ** A walk *)

Definition ui_serve `{Qt} {B : Set} (c : ui_call B)
    : list browser_operation -> option (B * list browser_operation) :=
  match c in ui_call B
    return list browser_operation -> option (B * list browser_operation) with
  | Enqueue _ op _ => fun w => Some (QStringLiteral "op", w ++ [op])
  | Emit _ => fun w => Some (tt, w)
  | _ => fun _ => None
  end.

Lemma ui_serve_answers `{Qt} (B : Set) (c : ui_call B) w b w' :
  ui_serve c w = Some (b, w') -> ui_answers c w b w'.
Proof. by destruct c; cbn; try done; intros [= _ <-]. Qed.

#[local] Existing Instances sample_json.

Definition lab_listed (path : string) : OpenConnectionResult :=
  mkOpenConnectionResult (mkSavedConnection
      (mkConnection (QStringLiteral "c1") [] (QStringLiteral "s") (QStringLiteral "d") [] []
         AuthType_Anonymous)
      [] [] [] [] [] [] false 0 0 0 App_None [] 0)
    no_capabilities (QStringLiteral path) [].

(** The browser at a place, with the places before and after it. *)
Definition browser_at (path : string) (back forward : list string) : Browser :=
  mkBrowser (QStringLiteral "c1") no_capabilities (QStringLiteral "smb://s/d")
    (QStringLiteral path) [] (QStringLiteral <$> back) (QStringLiteral <$> forward)
    ∅ ∅ ∅ false.

Lemma walked n result mode target previous b b' log :
  run_asking (fun B => @ui_serve _ B) (navigate n b) []
    = Some (Some b, [ListOperation (con_id (svc_connection (ocr_connection result))) target
                       previous mode]) ->
  run_asking (fun B => @ui_serve _ B) (handle_event (DirectoryListed result mode previous) b) []
    = Some (Some b', log) ->
  browserNormalizeRemotePath (ocr_currentRemotePath result) = target -> steady target ->
  navigated n b b'.
Proof.
  intros Hn%(run_runs (fun B => ui_answers (B:=B)) _ _ _ _ _ ui_serve_answers)
    He%(run_runs (fun B => ui_answers (B:=B)) _ _ _ _ _ ui_serve_answers) Ht Hs.
  by eapply navigated_listed.
Qed.

(** To a folder, up again, back to the folder, back, and forward. *)
Lemma browser_history_witness :
  well_trailed (browser_at "/" [] []) /\
  navigations [GoTo (QStringLiteral "a/"); GoUp; GoBack; GoBack; GoForward]
    (browser_at "/" [] []) (browser_at "/a" ["/"] ["/"]) /\
  trail_of (browser_at "/a" ["/"] ["/"]) =
    foldl trail_step (trail_of (browser_at "/" [] []))
      [GoTo (QStringLiteral "a/"); GoUp; GoBack; GoBack; GoForward].
Proof.
  assert (well_trailed (browser_at "/" [] [])) as Hw by by repeat constructor.
  assert (navigations [GoTo (QStringLiteral "a/"); GoUp; GoBack; GoBack; GoForward]
    (browser_at "/" [] []) (browser_at "/a" ["/"] ["/"])) as Hn.
  { apply (navigations_next _ _ _ (browser_at "/a" ["/"] [])).
    { by eapply (walked _ (lab_listed "/a") HistoryMode_Push). }
    apply (navigations_next _ _ _ (browser_at "/" ["/"; "/a"] [])).
    { by eapply (walked _ (lab_listed "/") HistoryMode_Push). }
    apply (navigations_next _ _ _ (browser_at "/a" ["/"] ["/"])).
    { by eapply (walked _ (lab_listed "/a") HistoryMode_Back). }
    apply (navigations_next _ _ _ (browser_at "/" [] ["/"; "/a"])).
    { by eapply (walked _ (lab_listed "/") HistoryMode_Back). }
    apply (navigations_next _ _ _ (browser_at "/a" ["/"] ["/"])); [|constructor].
    by eapply (walked _ (lab_listed "/a") HistoryMode_Forward). }
  split; [exact Hw|]. split; [exact Hn|].
  exact (proj2 (browser_history _ _ _ Hw Hn)).
Defined.
