(* ===== verification/Libsmb2Client.v ===== *)
(** * The client on libsmb2 ([Libsmb2SmbClient.cpp])

    Every operation has a session of its own with the library, which it makes and
    destroys; file handles and local files are closed by destructors.  The operations
    are programs over calls of libsmb2, of a local file, and of the context, whose
    answers are left open. *)

From S2P Require Export Libsmb2Errors DfsClient.
Local Open Scope Z_scope.

Definition EIO : Z := 5.

Definition SMB2_TYPE_FILE : Z := 0.
Definition SMB2_TYPE_DIRECTORY : Z := 1.
Definition SMB2_TYPE_LINK : Z := 2.

(** [smb2_stat_64] and [smb2dirent], as far as they are read. *)
Record smb2_stat_64 : Set := mkSmb2Stat {
  smb2_type : Z;
  smb2_size : Z;
  smb2_mtime : Z
}.
Record smb2dirent : Set := mkSmb2Dirent {
  de_name : bytes;
  de_st : smb2_stat_64
}.

(** Contexts, handles and directories are pointers of the library, by number; a status
    is 0 or a negated [errno], or counts bytes.  [InitContext] sets the timeout and the
    security mode as well, and [LastError] is [smb2_get_error] with [nullptr] as the empty
    text.  [OpenFd] is [smb2_open] with [O_RDONLY], or with [O_WRONLY | O_CREAT]; a local
    file is there once in an operation. *)
Inductive smb2_call : Set -> Type :=
| TokenCancelled : smb2_call bool
| ReportTransfer (bytesTransferred totalBytes : Z) : smb2_call unit
| InitContext (timeoutSeconds : Z) : smb2_call (option nat)
| DestroyContext (context : nat) : smb2_call unit
| SetDomain (context : nat) (domain : bytes) : smb2_call unit
| SetUser (context : nat) (user : bytes) : smb2_call unit
| SetPassword (context : nat) (password : bytes) : smb2_call unit
| ConnectShare (context : nat) (server share : bytes) (user : option bytes) : smb2_call Z
| DisconnectShare (context : nat) : smb2_call unit
| LastError (context : nat) : smb2_call bytes
| LastNtError (context : nat) : smb2_call Z
| ErrNo : smb2_call Z
| OpenDir (context : nat) (path : bytes) : smb2_call (option nat)
| ReadDir (context directory : nat) : smb2_call (option smb2dirent)
| CloseDir (context directory : nat) : smb2_call unit
| MakeDir (context : nat) (path : bytes) : smb2_call Z
| RemoveDir (context : nat) (path : bytes) : smb2_call Z
| Unlink (context : nat) (path : bytes) : smb2_call Z
| RenamePath (context : nat) (source target : bytes) : smb2_call Z
| StatPath (context : nat) (path : bytes) : smb2_call (Z * smb2_stat_64)
| OpenFd (context : nat) (path : bytes) (writing : bool) : smb2_call (option nat)
| CloseFd (context handle : nat) : smb2_call unit
| PRead (context handle : nat) (count offset : Z) : smb2_call (Z * bytes)
| PWrite (context handle : nat) (data : bytes) (offset : Z) : smb2_call Z
| Truncate (context handle : nat) (length : Z) : smb2_call Z
| FSync (context handle : nat) : smb2_call Z
| OpenLocal (path : QString) (writing : bool) : smb2_call bool
| LocalFileSize (path : QString) : smb2_call Z
| ReadLocal (count : Z) : smb2_call (option bytes)
| WriteLocal (data : bytes) : smb2_call Z
| RemoveLocal : smb2_call unit
| CloseLocal : smb2_call unit.
Abbreviation libsmb2 := (asking smb2_call).

(** What the program uses of Qt besides: numbers in texts, decimal and hexadecimal, and
    [fromSecsSinceEpoch(seconds, Qt::UTC)]. *)
Class QtNumerals `{Qt} : Type := {
  decimalArg : Z -> QString;
  hexadecimalArg : Z -> QString;
  utcOfSecs : Z -> QDateTime
}.

Section libsmb2_client.
Context `{Qt} `{!QtNumerals}.
(** [m_timeoutSeconds] and [m_sanitizer], and a bound for the loops. *)
Context (m_timeoutSeconds : Z) (m_sanitizer : LogSanitizer) (fuel : nat).

(** A method that fails, and [p] with the destructor [cleanup] after it. *)
Definition lib_fail {A} (default : A) (error : AppError) : libsmb2 (Result A) :=
  mret (Result_failure default error).
Definition lib_done : libsmb2 (Result bool) := mret (Result_success true).
Definition guarded {A} (p : libsmb2 A) (cleanup : libsmb2 unit) : libsmb2 A :=
  a ← p;
  _ ← cleanup;
  mret a.

Definition libCancelled (context : CoreContext) : libsmb2 bool :=
  if cc_cancellationToken context then ask TokenCancelled else mret false.

Definition libCancelledError : AppError :=
  fromCode App_OperationCancelled ErrorCategory_Smb (QStringLiteral "Operation cancelled.")
    false.

(** ** Paths and names *)

Fixpoint strip_leading (fuel : nat) (path : QString) : QString :=
  match fuel with
  | O => path
  | S fuel =>
      if startsWith path kSlash then strip_leading fuel (removeAt path 0 1) else path
  end.

Definition normalizedRemotePath (remotePath : QString) : QString :=
  let remotePath := replaceChar (trimmed remotePath) kBackslash kSlash in
  let remotePath := strip_leading (length remotePath) remotePath in
  chop_trailing (length remotePath) remotePath.

(** The text a [const char *] of an array of bytes has. *)
Fixpoint c_string (data : bytes) : bytes :=
  match data with
  | [] => []
  | b :: data => if b =? 0 then [] else b :: c_string data
  end.

Definition pathBytes (remotePath : QString) : bytes :=
  c_string (toStdString (normalizedRemotePath remotePath)).

Definition libSameShare (left right : Connection) : bool :=
  equalsIgnoringCase (con_server left) (con_server right)
  && equalsIgnoringCase (con_share left) (con_share right).

Definition libJoinRemotePath (parent name : QString) : QString :=
  let cleanParent := replaceChar (trimmed parent) kBackslash kSlash in
  if isEmpty cleanParent || bool_decide (cleanParent = [kSlash])
  then QStringLiteral "/" ++ name else
  let cleanParent := chop_trailing (length cleanParent) cleanParent in
  let cleanParent :=
    if startsWith cleanParent kSlash then cleanParent else kSlash :: cleanParent in
  cleanParent ++ QStringLiteral "/" ++ name.

Definition remoteFileType (smb2Type : Z) : RemoteFileType :=
  if smb2Type =? SMB2_TYPE_FILE then RemoteFileType_File else
  if smb2Type =? SMB2_TYPE_DIRECTORY then RemoteFileType_Directory else
  if smb2Type =? SMB2_TYPE_LINK then RemoteFileType_Symlink else RemoteFileType_Unknown.

Definition libIsDotEntry (name : QString) : bool :=
  bool_decide (name = QStringLiteral ".") || bool_decide (name = QStringLiteral "..").

(** ** Errors *)

Definition smb2Details (context : nat) (status : Z) (phase : string) : libsmb2 QString :=
  let details := QStringLiteral ("libsmb2 " +:+ phase +:+ " failed with status ")
                 ++ decimalArg status in
  error ← ask (LastError context);
  let details := match error with
                 | [] => details
                 | _ => details ++ QStringLiteral ": " ++ fromUtf8 error
                 end in
  ntStatus ← ask (LastNtError context);
  mret (if negb (ntStatus =? 0)
        then details ++ QStringLiteral " ntstatus=0x" ++ hexadecimalArg (u32 ntStatus)
        else details).

Definition secret_sanitizer (secret : secret_pointer) : LogSanitizer :=
  match secret with
  | Some (b :: bs) => addSecretValue m_sanitizer (fromUtf8 (b :: bs))
  | _ => m_sanitizer
  end.

Definition smbError (code : AppErrorCode) (details : QString) (secret : secret_pointer)
    : AppError :=
  fromCode code ErrorCategory_Smb (sanitize_message (secret_sanitizer secret) details)
    (isRetryable code).

(** [libsmb2Error] of the details of a phase. *)
Definition lib_refused {A} (default : A) (context : nat) (status : Z) (phase : string)
    (kind : Libsmb2ErrorContext) (secret : secret_pointer) : libsmb2 (Result A) :=
  details ← smb2Details context status phase;
  lib_fail default (makeLibsmb2Error status details kind (secret_sanitizer secret)).

Definition statusFromErrno : libsmb2 Z :=
  errno ← ask ErrNo;
  mret (if errno =? 0 then - EIO else - errno).

Definition lib_local_error (details : string) : AppError :=
  fromCode App_LocalIoError ErrorCategory_Transfer (QStringLiteral details) false.

(** ** Sessions *)

Definition validateConnectionInput (connection : Connection) (secret : secret_pointer)
    (context : CoreContext) : libsmb2 (Result bool) :=
  cancelled ← libCancelled context;
  mret (if cancelled : bool then Result_failure false libCancelledError else
  if isEmpty (con_server connection) || isEmpty (con_share connection)
  then Result_failure false (fromCode App_InvalidPath ErrorCategory_Smb
         (QStringLiteral "Missing server/share.") false) else
  if bool_decide (con_authType connection = AuthType_Password)
     && match secret with Some (_ :: _) => false | _ => true end
  then Result_failure false (fromCode App_CredentialNotFound ErrorCategory_Credentials
         (QStringLiteral "Password authentication requires a secret.") false)
  else Result_success true).

(** [AuthBuffers], with the texts behind its pointers. *)
Record AuthBuffers : Set := mkAuthBuffers {
  ab_server : bytes;
  ab_share : bytes;
  ab_domain : option bytes;
  ab_user : option bytes;
  ab_password : bytes
}.

Definition authBuffers (connection : Connection) (secret : secret_pointer) : AuthBuffers :=
  let domain := toStdString (con_domain connection) in
  let username := toStdString (con_username connection) in
  let username :=
    if bool_decide (con_authType connection = AuthType_Guest)
       && match username with [] => true | _ => false end
    then ascii_bytes "guest" else username in
  mkAuthBuffers (c_string (toStdString (con_server connection)))
    (c_string (toStdString (con_share connection)))
    (match domain with [] => None | _ => Some (c_string domain) end)
    (if bool_decide (con_authType connection = AuthType_CurrentUser) then None
     else Some (c_string username))
    (c_string (default [] secret)).

Definition connectShare (session : nat) (connection : Connection) (auth : AuthBuffers)
    : libsmb2 Z :=
  _ ← match ab_domain auth with
      | Some domain => ask (SetDomain session domain)
      | None => mret tt
      end;
  _ ← match con_authType connection, ab_user auth with
      | AuthType_CurrentUser, _ | _, None => mret tt
      | _, Some user => ask (SetUser session user)
      end;
  _ ← match con_authType connection with
      | AuthType_CurrentUser => mret tt
      | _ => ask (SetPassword session (ab_password auth))
      end;
  ask (ConnectShare session (ab_server auth) (ab_share auth) (ab_user auth)).

(** A [Smb2Session] with [connectSession], then [k], then the destructor. *)
Definition with_session {A} (default : A) (connection : Connection)
    (secret : secret_pointer) (k : nat -> libsmb2 (Result A)) : libsmb2 (Result A) :=
  initialized ← ask (InitContext m_timeoutSeconds);
  match initialized with
  | None =>
      lib_fail default (smbError App_NetworkError
        (QStringLiteral "Failed to initialize libsmb2 context.") secret)
  | Some session =>
      rc ← connectShare session connection (authBuffers connection secret);
      guarded
        (if rc <? 0
         then lib_refused default session rc "connect_share" Libsmb2ErrorContext_Connection
                secret
         else k session)
        (_ ← (if rc =? 0 then ask (DisconnectShare session) else mret tt);
         ask (DestroyContext session))
  end.

(** [smb2_open] with a [Smb2FileHandle] around what follows. *)
Definition with_handle (session : nat) (path : bytes) (writing : bool)
    (secret : secret_pointer) (k : nat -> libsmb2 (Result bool)) : libsmb2 (Result bool) :=
  opened ← ask (OpenFd session path writing);
  match opened with
  | None =>
      status ← statusFromErrno;
      lib_refused false session status (if writing then "open_write" else "open_read")%string
        Libsmb2ErrorContext_FileOperation secret
  | Some handle => guarded (k handle) (ask (CloseFd session handle))
  end.

(** The checks and the session every operation starts with. *)
Definition in_session {A} (default : A) (connection : Connection) (secret : secret_pointer)
    (context : CoreContext) (k : nat -> libsmb2 (Result A)) : libsmb2 (Result A) :=
  valid ← validateConnectionInput connection secret context;
  if negb (Result_ok valid) then lib_fail default (res_error valid)
  else with_session default connection secret k.

(** A call that gives a status, and what follows if it is not negative. *)
Definition or_refused (session : nat) (rc : Z) (phase : string) (secret : secret_pointer)
    (k : libsmb2 (Result bool)) : libsmb2 (Result bool) :=
  if rc <? 0
  then lib_refused false session rc phase Libsmb2ErrorContext_FileOperation secret else k.

(** ** Operations *)

Definition lib_checkConnection (connection : Connection) (secret : secret_pointer)
    (context : CoreContext) : libsmb2 (Result bool) :=
  in_session false connection secret context (fun _ => lib_done).

Definition lib_entry (remotePath name : QString) (st : smb2_stat_64) : RemoteFileEntry :=
  mkRemoteFileEntry name (libJoinRemotePath remotePath name)
    (remoteFileType (smb2_type st)) (qint64 (smb2_size st))
    (if 0 <? smb2_mtime st then utcOfSecs (qint64 (smb2_mtime st)) else nullDateTime)
    [] [] false.

Fixpoint readdir_loop (fuel : nat) (session directory : nat) (remotePath : QString)
    (context : CoreContext) (entries : list RemoteFileEntry)
    : libsmb2 (Result (list RemoteFileEntry)) :=
  match fuel with
  | O => Halt
  | S fuel =>
      entry ← ask (ReadDir session directory);
      match entry with
      | None =>
          _ ← ask (CloseDir session directory);
          mret (Result_success entries)
      | Some entry =>
          cancelled ← libCancelled context;
          if cancelled : bool then
            _ ← ask (CloseDir session directory);
            lib_fail [] libCancelledError
          else
          let name := fromUtf8 (de_name entry) in
          readdir_loop fuel session directory remotePath context
            (if libIsDotEntry name then entries
             else entries ++ [lib_entry remotePath name (de_st entry)])
      end
  end.

Definition lib_listDirectory (connection : Connection) (secret : secret_pointer)
    (remotePath : QString) (context : CoreContext)
    : libsmb2 (Result (list RemoteFileEntry)) :=
  in_session [] connection secret context (fun session =>
  cancelled ← libCancelled context;
  if cancelled : bool then lib_fail [] libCancelledError else
  directory ← ask (OpenDir session (pathBytes remotePath));
  match directory with
  | None =>
      status ← statusFromErrno;
      lib_refused [] session status "opendir" Libsmb2ErrorContext_Directory secret
  | Some directory => readdir_loop fuel session directory remotePath context []
  end).

Definition lib_createDirectory (connection : Connection) (secret : secret_pointer)
    (remotePath : QString) (context : CoreContext) : libsmb2 (Result bool) :=
  in_session false connection secret context (fun session =>
  rc ← ask (MakeDir session (pathBytes remotePath));
  or_refused session rc "mkdir" secret lib_done).

Definition lib_remove (connection : Connection) (secret : secret_pointer)
    (remotePath : QString) (context : CoreContext) : libsmb2 (Result bool) :=
  in_session false connection secret context (fun session =>
  let path := pathBytes remotePath in
  '(statRc, stat) ← ask (StatPath session path);
  or_refused session statRc "stat" secret (
  removeRc ← ask (if smb2_type stat =? SMB2_TYPE_DIRECTORY then RemoveDir session path
                  else Unlink session path);
  or_refused session removeRc "remove" secret lib_done)).

Definition lib_rename (connection : Connection) (secret : secret_pointer)
    (sourceRemotePath targetRemotePath : QString) (context : CoreContext)
    : libsmb2 (Result bool) :=
  in_session false connection secret context (fun session =>
  rc ← ask (RenamePath session (pathBytes sourceRemotePath) (pathBytes targetRemotePath));
  or_refused session rc "rename" secret lib_done).

Definition kBufferSize : Z := 256 * 1024.

Definition lib_progress (context : CoreContext) (transferred total : Z) : libsmb2 unit :=
  if cc_progressCallback context then ask (ReportTransfer transferred total) else mret tt.

Fixpoint lib_download_loop (fuel : nat) (session handle : nat) (secret : secret_pointer)
    (context : CoreContext) (totalSize offset : Z) : libsmb2 (Result bool) :=
  match fuel with
  | O => Halt
  | S fuel =>
      cancelled ← libCancelled context;
      if cancelled : bool then
        _ ← ask RemoveLocal;
        lib_fail false libCancelledError
      else
      '(readRc, data) ← ask (PRead session handle kBufferSize (u64 offset));
      if readRc =? - EAGAIN
      then lib_download_loop fuel session handle secret context totalSize offset else
      or_refused session readRc "read" secret (
      if readRc =? 0 then lib_done else
      written ← ask (WriteLocal data);
      if negb (written =? readRc)
      then lib_fail false (lib_local_error "Unable to write local target file.") else
      let offset := offset + readRc in
      _ ← lib_progress context offset totalSize;
      lib_download_loop fuel session handle secret context totalSize offset)
  end.

Definition lib_downloadFile (connection : Connection) (secret : secret_pointer)
    (remotePath localPath : QString) (context : CoreContext) : libsmb2 (Result bool) :=
  in_session false connection secret context (fun session =>
  let path := pathBytes remotePath in
  '(statRc, stat) ← ask (StatPath session path);
  let totalSize := if statRc =? 0 then qint64 (smb2_size stat) else 0 in
  with_handle session path false secret (fun handle =>
  opened ← ask (OpenLocal localPath true);
  guarded
    (if negb opened
     then lib_fail false (lib_local_error "Unable to open local target file.")
     else lib_download_loop fuel session handle secret context totalSize 0)
    (ask CloseLocal))).

(** The writes of one buffer, from [chunkOffset]; [after_write] is given the offset
    after every write. *)
Fixpoint lib_write_loop (fuel : nat) (session handle : nat) (secret : secret_pointer)
    (context : CoreContext) (data : bytes) (base chunkOffset : Z)
    (after_write : Z -> libsmb2 unit) (k : libsmb2 (Result bool))
    : libsmb2 (Result bool) :=
  match fuel with
  | O => Halt
  | S fuel =>
      if negb (chunkOffset <? blen data) then k else
      cancelled ← libCancelled context;
      if cancelled : bool then lib_fail false libCancelledError else
      writeRc ← ask (PWrite session handle (drop (Z.to_nat chunkOffset) data)
                       (u64 (base + chunkOffset)));
      if writeRc =? - EAGAIN
      then lib_write_loop fuel session handle secret context data base chunkOffset
             after_write k else
      if writeRc <=? 0
      then lib_refused false session writeRc "write" Libsmb2ErrorContext_FileOperation
             secret else
      let chunkOffset := chunkOffset + writeRc in
      _ ← after_write (base + chunkOffset);
      lib_write_loop fuel session handle secret context data base chunkOffset after_write k
  end.

(** What an upload and a copy do when everything is written. *)
Definition lib_sync (session handle : nat) (secret : secret_pointer) : libsmb2 (Result bool) :=
  fsyncRc ← ask (FSync session handle);
  or_refused session fsyncRc "fsync" secret lib_done.

Fixpoint lib_upload_loop (turns : nat) (session handle : nat) (secret : secret_pointer)
    (context : CoreContext) (totalSize offset : Z) : libsmb2 (Result bool) :=
  match turns with
  | O => Halt
  | S turns =>
      cancelled ← libCancelled context;
      if cancelled : bool then lib_fail false libCancelledError else
      read ← ask (ReadLocal kBufferSize);
      match read with
      | None => lib_fail false (lib_local_error "Unable to read local source file.")
      | Some [] => lib_sync session handle secret
      | Some data =>
          lib_write_loop fuel session handle secret context data offset 0
            (fun offset => lib_progress context offset totalSize)
            (lib_upload_loop turns session handle secret context totalSize
               (offset + blen data))
      end
  end.

Definition lib_uploadFile (connection : Connection) (secret : secret_pointer)
    (localPath remotePath : QString) (context : CoreContext) : libsmb2 (Result bool) :=
  valid ← validateConnectionInput connection secret context;
  if negb (Result_ok valid) then lib_fail false (res_error valid) else
  opened ← ask (OpenLocal localPath false);
  guarded
    (if negb opened
     then lib_fail false (lib_local_error "Unable to open local source file.") else
     totalSize ← ask (LocalFileSize localPath);
     with_session false connection secret (fun session =>
     with_handle session (pathBytes remotePath) true secret (fun handle =>
     truncateRc ← ask (Truncate session handle 0);
     or_refused session truncateRc "truncate" secret (
     lib_upload_loop fuel session handle secret context totalSize 0))))
    (ask CloseLocal).

Fixpoint lib_copy_loop (turns : nat) (sourceSession sourceFile : nat)
    (sourceSecret : secret_pointer) (targetSession targetFile : nat)
    (targetSecret : secret_pointer) (context : CoreContext) (totalSize offset : Z)
    : libsmb2 (Result bool) :=
  match turns with
  | O => Halt
  | S turns =>
      cancelled ← libCancelled context;
      if cancelled : bool then lib_fail false libCancelledError else
      '(readRc, data) ← ask (PRead sourceSession sourceFile kBufferSize (u64 offset));
      if readRc =? - EAGAIN
      then lib_copy_loop turns sourceSession sourceFile sourceSecret targetSession targetFile
             targetSecret context totalSize offset else
      or_refused sourceSession readRc "read" sourceSecret (
      if readRc =? 0 then lib_sync targetSession targetFile targetSecret else
      lib_write_loop fuel targetSession targetFile targetSecret context data offset 0
        (fun _ => mret tt)
        (let offset := offset + readRc in
         _ ← lib_progress context offset totalSize;
         lib_copy_loop turns sourceSession sourceFile sourceSecret targetSession targetFile
           targetSecret context totalSize offset))
  end.

Definition lib_copy (sourceConnection : Connection) (sourceSecret : secret_pointer)
    (sourceRemotePath : QString) (targetConnection : Connection)
    (targetSecret : secret_pointer) (targetRemotePath : QString) (context : CoreContext)
    : libsmb2 (Result bool) :=
  validSource ← validateConnectionInput sourceConnection sourceSecret context;
  if negb (Result_ok validSource) then lib_fail false (res_error validSource) else
  validTarget ← validateConnectionInput targetConnection targetSecret context;
  if negb (Result_ok validTarget) then lib_fail false (res_error validTarget) else
  with_session false sourceConnection sourceSecret (fun source =>
  cancelled ← libCancelled context;
  if cancelled : bool then lib_fail false libCancelledError else
  with_session false targetConnection targetSecret (fun target =>
  let sourcePath := pathBytes sourceRemotePath in
  '(statRc, stat) ← ask (StatPath source sourcePath);
  or_refused source statRc "stat" sourceSecret (
  if smb2_type stat =? SMB2_TYPE_DIRECTORY
  then lib_fail false (fromCode App_Unknown ErrorCategory_Smb
         (QStringLiteral "Directory copy is not supported yet.") false) else
  with_handle source sourcePath false sourceSecret (fun sourceFile =>
  with_handle target (pathBytes targetRemotePath) true targetSecret (fun targetFile =>
  truncateRc ← ask (Truncate target targetFile 0);
  or_refused target truncateRc "truncate" targetSecret (
  lib_copy_loop fuel source sourceFile sourceSecret target targetFile targetSecret context
    (qint64 (smb2_size stat)) 0)))))).

Definition lib_move (sourceConnection : Connection) (sourceSecret : secret_pointer)
    (sourceRemotePath : QString) (targetConnection : Connection)
    (targetSecret : secret_pointer) (targetRemotePath : QString) (context : CoreContext)
    : libsmb2 (Result bool) :=
  if libSameShare sourceConnection targetConnection
  then lib_rename sourceConnection sourceSecret sourceRemotePath targetRemotePath context
  else
  copied ← lib_copy sourceConnection sourceSecret sourceRemotePath targetConnection
             targetSecret targetRemotePath context;
  if negb (Result_ok copied) then mret copied else
  cancelled ← libCancelled context;
  if cancelled : bool then lib_fail false libCancelledError
  else lib_remove sourceConnection sourceSecret sourceRemotePath context.

(** ** The interface *)

(** The methods of [SmbClient] that are not overridden. *)
Definition default_capabilities : SmbClientCapabilities :=
  mkSmbClientCapabilities true true true true true true true true
    false false false false false false false false false [].
Definition default_probeCapabilities : Result SmbCapabilityReport :=
  Result_success (mkSmbCapabilityReport false false [] false false false false false false
                    default_capabilities).
Definition default_listShares : Result (list SmbShareInfo) :=
  Result_failure [] (fromCode App_ProtocolUnsupported ErrorCategory_Smb
    (QStringLiteral "Share browsing is not supported by this SMB backend.") false).

Definition libsmb2_method {A} (op : smb_op A) (context : CoreContext) : libsmb2 A :=
  match op in smb_op A return libsmb2 A with
  | Smb_capabilities _ => mret default_capabilities
  | Smb_probeCapabilities _ _ => mret default_probeCapabilities
  | Smb_listShares _ _ => mret default_listShares
  | Smb_checkConnection c secret => lib_checkConnection c secret context
  | Smb_listDirectory c secret remotePath => lib_listDirectory c secret remotePath context
  | Smb_createDirectory c secret remotePath =>
      lib_createDirectory c secret remotePath context
  | Smb_remove c secret remotePath => lib_remove c secret remotePath context
  | Smb_rename c secret source target => lib_rename c secret source target context
  | Smb_downloadFile c secret remotePath localPath =>
      lib_downloadFile c secret remotePath localPath context
  | Smb_uploadFile c secret localPath remotePath =>
      lib_uploadFile c secret localPath remotePath context
  | Smb_copy c secret source c' secret' target =>
      lib_copy c secret source c' secret' target context
  | Smb_move c secret source c' secret' target =>
      lib_move c secret source c' secret' target context
  end.

End libsmb2_client.
