(* ===== verification/Libsmb2Runs.v ===== *)
(** * What the client on libsmb2 does ([Libsmb2SmbClient.cpp])

    The server as files by their place, and the resources of the library that are in
    use.  Every operation ends, gives back all it took, touches only the files it is
    about, and does what it says when it reports success. *)

From stdpp Require Import gmap.
From S2P Require Export Libsmb2Client.
Local Open Scope Z_scope.

(** ** The world *)

(** What is in use: contexts with the share they are connected to, file handles and
    directories with their context, and the local file, by path and mode.
    [lr_misused] tells that a pointer was used that is not valid. *)
Record lib_resources {F : Type} : Type := mkLibResources {
  lr_sessions : gmap nat (option (bytes * bytes));
  lr_handles : gmap nat (nat * F);
  lr_directories : gmap nat (nat * list smb2dirent);
  lr_open : option (QString * bool);
  lr_misused : bool
}.
Arguments lib_resources : clear implicits.
Arguments mkLibResources {F} _ _ _ _ _.

(** The files of the servers, local files, the position in the local file, and how
    often the library will still be busy. *)
Record lib_data {F : Type} `{Countable F} : Type := mkLibData {
  ld_files : gmap F bytes;
  ld_local : gmap QString bytes;
  ld_position : Z;
  ld_busy : nat
}.
Arguments lib_data F {_ _}.
Arguments mkLibData {F _ _} _ _ _ _.

Section lib_world.
Context {F : Type} `{Countable F}.
(** Where the file of a path is, and what a directory has. *)
Context (located : bytes -> bytes -> bytes -> F).
Context (listing : F -> list smb2dirent).

Abbreviation data := (lib_data F).
Abbreviation resources := (lib_resources F).
Abbreviation world := (data * resources)%type.

Definition with_sessions_of (sessions : gmap nat (option (bytes * bytes))) (r : resources)
    : resources :=
  mkLibResources sessions (lr_handles r) (lr_directories r) (lr_open r) (lr_misused r).
Definition with_handles (handles : gmap nat (nat * F)) (r : resources) : resources :=
  mkLibResources (lr_sessions r) handles (lr_directories r) (lr_open r) (lr_misused r).
Definition with_directories (directories : gmap nat (nat * list smb2dirent)) (r : resources)
    : resources :=
  mkLibResources (lr_sessions r) (lr_handles r) directories (lr_open r) (lr_misused r).
Definition with_open (o : option (QString * bool)) (r : resources) : resources :=
  mkLibResources (lr_sessions r) (lr_handles r) (lr_directories r) o (lr_misused r).
Definition misused (r : resources) : resources :=
  mkLibResources (lr_sessions r) (lr_handles r) (lr_directories r) (lr_open r) true.

Definition with_files (files : gmap F bytes) (d : data) : data :=
  mkLibData files (ld_local d) (ld_position d) (ld_busy d).
Definition with_local (local : gmap QString bytes) (d : data) : data :=
  mkLibData (ld_files d) local (ld_position d) (ld_busy d).
Definition with_position (position : Z) (d : data) : data :=
  mkLibData (ld_files d) (ld_local d) position (ld_busy d).
Definition with_busy (busy : nat) (d : data) : data :=
  mkLibData (ld_files d) (ld_local d) (ld_position d) busy.

(** The share of a context, and no handle or directory of it. *)
Definition share_of (r : resources) (context : nat) : option (bytes * bytes) :=
  mjoin (lr_sessions r !! context).
Definition place (r : resources) (context : nat) (path : bytes) : option F :=
  '(server, share) ← share_of r context;
  Some (located server share path).
Definition unreferenced (context : nat) (r : resources) : Prop :=
  map_Forall (fun _ h => h.1 <> context) (lr_handles r) /\
  map_Forall (fun _ h => h.1 <> context) (lr_directories r).

(** The file of a handle that is open on a connected context. *)
Definition held (r : resources) (context handle : nat) : option F :=
  '(owner, f) ← lr_handles r !! handle;
  if decide (owner = context /\ is_Some (share_of r context)) then Some f else None.

(** What an answer does when the pointer is valid, or that it was not. *)
Definition valid_or_misused {A} (valid : option A) (w w' : world) (Q : A -> Prop) : Prop :=
  match valid with
  | Some a => Q a
  | None => w' = (w.1, misused w.2)
  end.

(** Bytes written over a file at an offset, with zeros where the file was shorter. *)
Definition overwritten (content : bytes) (offset : Z) (written : bytes) : bytes :=
  let before := take (Z.to_nat offset) content in
  before ++ replicate (Z.to_nat offset - length before) 0 ++ written
  ++ drop (Z.to_nat offset + length written) content.

Definition busy_again (w w' : world) : Prop :=
  exists busy, ld_busy w.1 = S busy /\ w' = (with_busy busy w.1, w.2).

(** A file is renamed; of directories nothing is said. *)
Definition renamed (f g : F) (w w' : world) : Prop :=
  match ld_files w.1 !! f with
  | Some content =>
      w' = (if decide (f = g) then w.1
            else with_files (<[g := content]> (delete f (ld_files w.1))) w.1, w.2)
  | None => exists files, w' = (with_files files w.1, w.2)
  end.

(** What the library, the local file and the context may answer.  A call that fails may
    have had its effect; a file that was opened holds still but for what is written
    through the handles of the operation. *)
Definition lib_answers {B : Set} (c : smb2_call B) : world -> B -> world -> Prop :=
  match c in smb2_call B return world -> B -> world -> Prop with
  | TokenCancelled => fun w _ w' => w' = w
  | ReportTransfer _ _ => fun w _ w' => w' = w
  | InitContext _ => fun w context w' =>
      match context with
      | None => w' = w
      | Some n => lr_sessions w.2 !! n = None /\
          w' = (w.1, with_sessions_of (<[n := None]> (lr_sessions w.2)) w.2)
      end
  | DestroyContext n => fun w _ w' =>
      w' = (w.1, if decide (lr_sessions w.2 !! n = Some None)
                 then with_sessions_of (delete n (lr_sessions w.2)) w.2 else misused w.2)
  | SetDomain n _ | SetUser n _ | SetPassword n _ => fun w _ w' =>
      w' = if decide (lr_sessions w.2 !! n = Some None) then w else (w.1, misused w.2)
  | ConnectShare n server share _ => fun w rc w' =>
      rc <= 0 /\
      w' = (w.1, if decide (lr_sessions w.2 !! n = Some None)
                 then if rc =? 0
                      then with_sessions_of (<[n := Some (server, share)]> (lr_sessions w.2)) w.2
                      else w.2
                 else misused w.2)
  | DisconnectShare n => fun w _ w' =>
      valid_or_misused (share_of w.2 n) w w' (fun _ =>
        unreferenced n w.2 /\
          w' = (w.1, with_sessions_of (<[n := None]> (lr_sessions w.2)) w.2) \/
        ~ unreferenced n w.2 /\ w' = (w.1, misused w.2))
  | LastError n | LastNtError n => fun w _ w' =>
      w' = if decide (is_Some (lr_sessions w.2 !! n)) then w else (w.1, misused w.2)
  | ErrNo => fun w _ w' => w' = w
  | OpenDir n path => fun w directory w' =>
      valid_or_misused (place w.2 n path) w w' (fun f =>
        match directory with
        | None => w' = w
        | Some d => lr_directories w.2 !! d = None /\
            w' = (w.1, with_directories (<[d := (n, listing f)]> (lr_directories w.2)) w.2)
        end)
  | ReadDir n d => fun w entry w' =>
      match lr_directories w.2 !! d with
      | Some (n', entries) =>
          if decide (n' = n) then
            match entries with
            | [] => entry = None /\ w' = w
            | e :: entries => entry = Some e /\
                w' = (w.1, with_directories (<[d := (n, entries)]> (lr_directories w.2)) w.2)
            end
          else w' = (w.1, misused w.2)
      | None => w' = (w.1, misused w.2)
      end
  | CloseDir n d => fun w _ w' =>
      w' = (w.1, if decide (fst <$> lr_directories w.2 !! d = Some n)
                 then with_directories (delete d (lr_directories w.2)) w.2 else misused w.2)
  | MakeDir n path | RemoveDir n path => fun w rc w' =>
      rc <= 0 /\ valid_or_misused (place w.2 n path) w w' (fun _ => w' = w)
  | Unlink n path => fun w rc w' =>
      rc <= 0 /\ valid_or_misused (place w.2 n path) w w' (fun f =>
        w' = (with_files (delete f (ld_files w.1)) w.1, w.2) \/ rc <> 0 /\ w' = w)
  | RenamePath n source target => fun w rc w' =>
      rc <= 0 /\ valid_or_misused (place w.2 n source) w w' (fun f =>
      valid_or_misused (place w.2 n target) w w' (fun g =>
        (ld_files w.1 !! g = None \/ f = g) /\ renamed f g w w' \/ rc <> 0 /\ w' = w))
  | StatPath n path => fun w r w' =>
      r.1 <= 0 /\ valid_or_misused (place w.2 n path) w w' (fun f =>
        w' = w /\ (r.1 = 0 ->
          match ld_files w.1 !! f with
          | Some content =>
              smb2_type r.2 <> SMB2_TYPE_DIRECTORY /\ smb2_size r.2 = blen content
          | None => smb2_type r.2 = SMB2_TYPE_DIRECTORY
          end))
  | OpenFd n path writing => fun w handle w' =>
      valid_or_misused (place w.2 n path) w w' (fun f =>
        let created :=
          with_files (<[f := default [] (ld_files w.1 !! f)]> (ld_files w.1)) w.1 in
        let d' := if writing then created else w.1 in
        match handle with
        | None => w' = w \/ w' = (d', w.2)
        | Some h => (writing = false -> is_Some (ld_files w.1 !! f)) /\
            lr_handles w.2 !! h = None /\
            w' = (d', with_handles (<[h := (n, f)]> (lr_handles w.2)) w.2)
        end)
  | CloseFd n h => fun w _ w' =>
      valid_or_misused (held w.2 n h) w w' (fun _ =>
        w' = (w.1, with_handles (delete h (lr_handles w.2)) w.2))
  | PRead n h count offset => fun w r w' =>
      valid_or_misused (held w.2 n h) w w' (fun f =>
        let content := default [] (ld_files w.1 !! f) in
        r.1 < 0 /\ (r.1 = - EAGAIN /\ busy_again w w' \/ r.1 <> - EAGAIN /\ w' = w) \/
        w' = w /\ r.1 = blen r.2 /\ r.1 <= count /\
          r.2 = take (length r.2) (drop (Z.to_nat offset) content) /\
          (r.1 = 0 -> blen content <= offset))
  | PWrite n h written offset => fun w rc w' =>
      valid_or_misused (held w.2 n h) w w' (fun f =>
        rc = - EAGAIN /\ busy_again w w' \/
        rc < 0 /\ rc <> - EAGAIN /\
          (exists content, w' = (with_files (<[f := content]> (ld_files w.1)) w.1, w.2)) \/
        0 <= rc <= blen written /\
          w' = (with_files (<[f := overwritten (default [] (ld_files w.1 !! f)) offset
                                     (take (Z.to_nat rc) written)]> (ld_files w.1)) w.1, w.2))
  | Truncate n h length => fun w rc w' =>
      rc <= 0 /\ valid_or_misused (held w.2 n h) w w' (fun f =>
        exists content,
          w' = (with_files (<[f := content]> (ld_files w.1)) w.1, w.2) /\
          (rc = 0 -> content = take (Z.to_nat length) (default [] (ld_files w.1 !! f))))
  | FSync n h => fun w _ w' =>
      valid_or_misused (held w.2 n h) w w' (fun _ => w' = w)
  | OpenLocal path writing => fun w opened w' =>
      match lr_open w.2 with
      | Some _ => w' = (w.1, misused w.2)
      | None =>
          if opened
          then (writing = false -> is_Some (ld_local w.1 !! path)) /\
            w' = (with_position 0
                    (if writing then with_local (<[path := []]> (ld_local w.1)) w.1 else w.1),
                  with_open (Some (path, writing)) w.2)
          else w' = w
      end
  | LocalFileSize _ => fun w _ w' => w' = w
  | ReadLocal count => fun w read w' =>
      match lr_open w.2 with
      | Some (path, false) =>
          let rest := drop (Z.to_nat (ld_position w.1)) (default [] (ld_local w.1 !! path)) in
          match read with
          | None => w' = w
          | Some bs => bs = take (length bs) rest /\ blen bs <= count /\ (bs = [] -> rest = []) /\
              w' = (with_position (ld_position w.1 + blen bs) w.1, w.2)
          end
      | _ => w' = (w.1, misused w.2)
      end
  | WriteLocal bs => fun w written w' =>
      match lr_open w.2 with
      | Some (path, true) =>
          let content := default [] (ld_local w.1 !! path) in
          exists content', w' = (with_local (<[path := content']> (ld_local w.1)) w.1, w.2) /\
            (written = blen bs -> content' = content ++ bs)
      | _ => w' = (w.1, misused w.2)
      end
  | RemoveLocal => fun w _ w' =>
      match lr_open w.2 with
      | Some (path, _) => w' = (with_local (delete path (ld_local w.1)) w.1, w.2)
      | None => w' = (w.1, misused w.2)
      end
  | CloseLocal => fun w _ w' => w' = (w.1, with_open None w.2)
  end.

(** ** Runs *)

Context `{Qt} `{!QtNumerals}.
Context (timeout : Z) (sanitizer : LogSanitizer) (fuel : nat).

Abbreviation lib_wp p w Q := (awp (fun B => @lib_answers B) False p w Q).

(** Every run of [p] ends, with the resources it began with, and with [Q]. *)
Definition returns {A} (p : libsmb2 A) (d : data) (r : resources) (Q : data -> A -> Prop)
    : Prop :=
  lib_wp p (d, r) (fun w a => w.2 = r /\ Q w.1 a).

(** Any failure is fine. *)
Definition fails {A} (Q : data -> Result A -> Prop) (d : data) : Prop :=
  forall x, Result_ok x = false -> Q d x.

Lemma returns_give {A} (a : A) d r (Q : data -> A -> Prop) : Q d a -> returns (mret a) d r Q.
Proof. done. Qed.

Lemma returns_bind {A B} (p : libsmb2 A) (f : A -> libsmb2 B) d r Q :
  returns p d r (fun d a => returns (f a) d r Q) -> returns (p ≫= f) d r Q.
Proof.
  intros Hp. apply awp_bind. eapply awp_mono; [exact Hp|].
  intros [d' r'] a [Hr Ha]. cbn in Hr. subst. exact Ha.
Qed.

Lemma returns_mono {A} (p : libsmb2 A) d r (Q Q' : data -> A -> Prop) :
  returns p d r Q -> (forall d a, Q d a -> Q' d a) -> returns p d r Q'.
Proof.
  intros Hp HQ. eapply awp_mono; [exact Hp|]. intros w a [Hr Ha]. split; [done|by apply HQ].
Qed.

(** A call that leaves the resources. *)
Lemma returns_ask {A} {B : Set} (c : smb2_call B) (f : B -> libsmb2 A) d r Q :
  (forall b w', lib_answers c (d, r) b w' -> exists d', w' = (d', r) /\ returns (f b) d' r Q) ->
  returns (ask c ≫= f) d r Q.
Proof. intros Hc. apply awp_ask. intros b w' Hb. by destruct (Hc b w' Hb) as (d' & -> & Hd). Qed.

(** A call that only tells something. *)
Lemma returns_told {A} {B : Set} (c : smb2_call B) (f : B -> libsmb2 A) d r Q :
  (forall b w', lib_answers c (d, r) b w' -> w' = (d, r)) ->
  (forall b, returns (f b) d r Q) -> returns (ask c ≫= f) d r Q.
Proof. intros Hc Hf. apply awp_ask. intros b w' Hb. rewrite (Hc b w' Hb). apply Hf. Qed.

Lemma returns_cancelled {A} context (f : bool -> libsmb2 A) d r Q :
  (forall b, returns (f b) d r Q) -> returns (libCancelled context ≫= f) d r Q.
Proof.
  intros Hf. unfold libCancelled. destruct (cc_cancellationToken context); [|apply Hf].
  by apply returns_told.
Qed.

Lemma returns_progress {A} context n total (f : unit -> libsmb2 A) d r Q :
  returns (f tt) d r Q -> returns (lib_progress context n total ≫= f) d r Q.
Proof.
  intros Hf. unfold lib_progress. destruct (cc_progressCallback context); [|exact Hf].
  apply returns_told; [done|]. by intros [].
Qed.

Lemma returns_fail {A} (default : A) e d r Q :
  hasError e = true -> fails Q d -> returns (lib_fail default e) d r Q.
Proof.
  intros He Hf. apply returns_give, Hf. unfold Result_ok. cbn [res_error Result_failure].
  by rewrite He.
Qed.

Lemma returns_refused {A} (default : A) n status phase kind secret d r Q :
  is_Some (lr_sessions r !! n) -> fails Q d ->
  returns (lib_refused sanitizer default n status phase kind secret) d r Q.
Proof.
  intros Hn Hf. apply returns_bind. unfold smb2Details.
  apply returns_told; [intros b w'; cbn; by rewrite decide_True|]. intros error.
  apply returns_told; [intros b w'; cbn; by rewrite decide_True|]. intros nt.
  apply returns_give, returns_give, Hf. unfold Result_ok. cbn [res_error Result_failure].
  by rewrite (proj1 (libsmb2_error_explained _ _ _ _)).
Qed.

Lemma returns_errno {A} (f : Z -> libsmb2 A) d r Q :
  (forall status, returns (f status) d r Q) -> returns (statusFromErrno ≫= f) d r Q.
Proof. intros Hf. apply returns_bind, returns_told; [done|]. intros b. by apply returns_give. Qed.

Lemma returns_or_refused n rc phase secret k d r Q :
  is_Some (lr_sessions r !! n) -> fails Q d -> (0 <= rc -> returns k d r Q) ->
  returns (or_refused sanitizer n rc phase secret k) d r Q.
Proof.
  intros Hn Hf Hk. unfold or_refused. destruct (Z.ltb_spec rc 0); [by apply returns_refused|].
  by apply Hk.
Qed.

(** [p] with a resource that [cleanup] gives back. *)
Lemma returns_guarded {A} (p : libsmb2 A) cleanup d r r1 Q :
  returns p d r1 Q ->
  (forall d, lib_wp cleanup (d, r1) (fun w _ => w = (d, r))) ->
  lib_wp (guarded p cleanup) (d, r1) (fun w a => w.2 = r /\ Q w.1 a).
Proof.
  intros Hp Hc. unfold guarded. apply awp_bind. eapply awp_mono; [exact Hp|].
  intros [d' r'] a [Hr Ha]. cbn in Hr, Ha. subst r'. apply awp_bind.
  eapply awp_mono; [apply Hc|]. intros w u ->. done.
Qed.

(** ** Sessions *)

(** Handles and directories are of contexts that are connected. *)
Definition well_used (r : resources) : Prop :=
  map_Forall (fun _ h => is_Some (share_of r h.1)) (lr_handles r) /\
  map_Forall (fun _ h => is_Some (share_of r h.1)) (lr_directories r).

Definition in_share (n : nat) (c : Connection) (r : resources) : resources :=
  with_sessions_of (<[n := Some (c_string (toStdString (con_server c)),
                                 c_string (toStdString (con_share c)))]> (lr_sessions r)) r.

Lemma share_of_other n x r m :
  lr_sessions r !! n = None -> is_Some (share_of r m) ->
  share_of (with_sessions_of (<[n := x]> (lr_sessions r)) r) m = share_of r m.
Proof.
  intros Hn [s Hs]. unfold share_of in *. cbn [with_sessions_of lr_sessions].
  rewrite lookup_insert_ne; [done|]. intros <-. by rewrite Hn in Hs.
Qed.

Lemma in_share_share n c r :
  share_of (in_share n c r) n = Some (c_string (toStdString (con_server c)),
                                      c_string (toStdString (con_share c))).
Proof. unfold share_of, in_share. cbn. by rewrite lookup_insert_eq. Qed.

Lemma in_share_used n c r :
  lr_sessions r !! n = None -> well_used r -> well_used (in_share n c r).
Proof.
  intros Hn [Hh Hd]. split; intros h x Hx; [apply Hh in Hx|apply Hd in Hx];
    unfold in_share; by rewrite share_of_other.
Qed.

Lemma unused_unreferenced n c r :
  lr_sessions r !! n = None -> well_used r -> unreferenced n (in_share n c r).
Proof.
  intros Hn [Hh Hd]. split; intros h x Hx Hxn.
  - apply Hh in Hx as [s Hs]. unfold share_of in Hs. by rewrite Hxn, Hn in Hs.
  - apply Hd in Hx as [s Hs]. unfold share_of in Hs. by rewrite Hxn, Hn in Hs.
Qed.

Lemma with_same_sessions r : with_sessions_of (lr_sessions r) r = r.
Proof. by destruct r. Qed.

(** A context that was just made. *)
Definition fresh_session (n : nat) (r : resources) : resources :=
  with_sessions_of (<[n := None]> (lr_sessions r)) r.

Lemma wp_destroy n d r :
  lr_sessions r !! n = None ->
  lib_wp (ask (DestroyContext n)) (d, fresh_session n r) (fun w _ => w = (d, r)).
Proof.
  intros Hn u w' Hw. cbn [lib_answers] in Hw. rewrite Hw. cbn [fst snd].
  unfold fresh_session. cbn [with_sessions_of lr_sessions].
  rewrite lookup_insert_eq, decide_True by done. unfold with_sessions_of. cbn.
  rewrite delete_insert_id by done. by destruct r.
Qed.

Lemma wp_connectShare n c auth d r (Q : world -> Z -> Prop) :
  lr_sessions r !! n = None ->
  (forall rc, rc <= 0 ->
     Q (d, if rc =? 0 then with_sessions_of (<[n := Some (ab_server auth, ab_share auth)]>
                             (lr_sessions r)) r
           else fresh_session n r) rc) ->
  lib_wp (connectShare n c auth) (d, fresh_session n r) Q.
Proof.
  intros Hn HQ. assert (lr_sessions (fresh_session n r) !! n = Some None) as Hf
    by (cbn; by rewrite lookup_insert_eq).
  assert (forall (B : Type) (p : libsmb2 unit) (f : unit -> libsmb2 B) (Q : world -> B -> Prop),
    lib_wp p (d, fresh_session n r) (fun w _ => w = (d, fresh_session n r)) ->
    lib_wp (f tt) (d, fresh_session n r) Q -> lib_wp (p ≫= f) (d, fresh_session n r) Q) as Hskip.
  { intros B p f Q' Hp Hk. apply awp_bind. eapply awp_mono; [exact Hp|]. by intros w [] ->. }
  assert (forall c : smb2_call unit,
    (forall u w', lib_answers c (d, fresh_session n r) u w' ->
       w' = if decide (lr_sessions (fresh_session n r) !! n = Some None)
            then (d, fresh_session n r) else (d, misused (fresh_session n r))) ->
    lib_wp (ask c) (d, fresh_session n r) (fun w _ => w = (d, fresh_session n r))) as Hset.
  { intros call Hcall u w' Hw. apply Hcall in Hw. by rewrite decide_True in Hw by done. }
  unfold connectShare. apply Hskip; [destruct (ab_domain auth); [by apply Hset|done]|].
  apply Hskip; [destruct (con_authType c), (ab_user auth); first [by apply Hset|done]|].
  apply Hskip; [destruct (con_authType c); first [by apply Hset|done]|].
  intros rc w' [Hrc Hw]. cbn [fst snd] in Hw. rewrite decide_True in Hw by done.
  unfold lib_answers in Hw. rewrite Hw. cbn [awp asking_mret mret].
  specialize (HQ rc Hrc). destruct (rc =? 0); [|exact HQ].
  unfold fresh_session, with_sessions_of in *. cbn in *. by rewrite insert_insert_eq.
Qed.

Lemma returns_session {A} (default : A) c secret k d r (Q : data -> Result A -> Prop) :
  well_used r -> fails Q d ->
  (forall n, lr_sessions r !! n = None -> returns (k n) d (in_share n c r) Q) ->
  returns (with_session timeout sanitizer default c secret k) d r Q.
Proof.
  intros Hr Hf Hk. apply awp_ask. intros [n|] w' Hw; cbn [lib_answers fst snd] in Hw.
  2: { subst w'. by apply returns_fail. }
  destruct Hw as [Hn ->]. fold (fresh_session n r). apply awp_bind, wp_connectShare; [done|].
  intros rc Hrc. cbn [authBuffers ab_server ab_share]. fold (in_share n c r).
  destruct (Z.eqb_spec rc 0) as [->|Hne].
  - change (0 <? 0) with false. apply returns_guarded; [by apply Hk|].
    intros d'. apply awp_ask. intros u w' Hw. cbn [lib_answers fst snd] in Hw.
    rewrite in_share_share in Hw. cbn [valid_or_misused] in Hw.
    destruct Hw as [[_ ->]|[Hu _]]; [|by destruct (Hu (unused_unreferenced n c r Hn Hr))].
    cbn [in_share with_sessions_of lr_sessions]. rewrite insert_insert_eq.
    exact (wp_destroy n d' r Hn).
  - rewrite (proj2 (Z.ltb_lt rc 0)) by lia. apply returns_guarded.
    + apply returns_refused; [|done]. cbn. rewrite lookup_insert_eq. by eexists.
    + intros d'. change (mret tt ≫= (fun _ : unit => ask (DestroyContext n)))
        with (ask (DestroyContext n)). by apply wp_destroy.
Qed.

Lemma returns_validate {A} c secret context (f : Result bool -> libsmb2 A) d r Q :
  (forall x, returns (f x) d r Q) ->
  returns (validateConnectionInput c secret context ≫= f) d r Q.
Proof.
  intros Hf. apply returns_bind. apply returns_cancelled. intros b. by apply returns_give.
Qed.

Lemma returns_in_session {A} (default : A) c secret context k d r
    (Q : data -> Result A -> Prop) :
  well_used r -> fails Q d ->
  (forall n, lr_sessions r !! n = None -> returns (k n) d (in_share n c r) Q) ->
  returns (in_session timeout sanitizer default c secret context k) d r Q.
Proof.
  intros Hr Hf Hk. apply returns_validate. intros x.
  destruct (Result_ok x) eqn:Hok; cbn [negb]; [by apply returns_session|].
  by apply returns_give, Hf.
Qed.

(** ** Handles *)

Definition holding (h n : nat) (f : F) (r : resources) : resources :=
  with_handles (<[h := (n, f)]> (lr_handles r)) r.

Lemma holding_used h n f r :
  is_Some (share_of r n) -> well_used r -> well_used (holding h n f r).
Proof. intros Hn [Hh Hd]. split; [by apply map_Forall_insert_2|done]. Qed.

Lemma holding_held h n f r : is_Some (share_of r n) -> held (holding h n f r) n h = Some f.
Proof. intros Hn. unfold held. cbn. rewrite lookup_insert_eq. cbn. by rewrite decide_True. Qed.

Lemma held_other h h' n n' f g r :
  lr_handles r !! h' = None -> held r n h = Some f -> held (holding h' n' g r) n h = Some f.
Proof.
  intros Hh Hf. unfold held in *. cbn. destruct (decide (h' = h)) as [->|Hne].
  - by rewrite Hh in Hf.
  - by rewrite lookup_insert_ne.
Qed.

Lemma share_session r n s : share_of r n = Some s -> is_Some (lr_sessions r !! n).
Proof. unfold share_of. destruct (lr_sessions r !! n); [by eexists|done]. Qed.

Lemma returns_handle n path (writing : bool) secret k f d r (Q : data -> Result bool -> Prop) :
  place r n path = Some f ->
  let created := with_files (<[f := default [] (ld_files d !! f)]> (ld_files d)) d in
  fails Q d -> (writing = true -> fails Q created) ->
  (forall h, lr_handles r !! h = None -> (writing = false -> is_Some (ld_files d !! f)) ->
     returns (k h) (if writing then created else d) (holding h n f r) Q) ->
  returns (with_handle sanitizer n path writing secret k) d r Q.
Proof.
  cbv zeta. intros Hp Hf Hfc Hk. assert (is_Some (lr_sessions r !! n)) as Hn.
  { unfold place in Hp. destruct (share_of r n) as [s|] eqn:Hs; [|done]. by eapply share_session. }
  apply awp_ask. intros [h|] w' Hw; cbn [lib_answers fst snd] in Hw; rewrite Hp in Hw; cbn in Hw.
  - destruct Hw as (Hsome & Hh & ->). fold (holding h n f r).
    apply returns_guarded; [by apply Hk|]. intros d' u w' Hw. cbn [lib_answers fst snd] in Hw.
    rewrite holding_held in Hw by (unfold place in Hp; by destruct (share_of r n); [eexists|]).
    cbn in Hw. rewrite Hw. unfold holding, with_handles. cbn. rewrite delete_insert_id by done.
    by destruct r.
  - destruct Hw as [->| ->].
    + by apply returns_errno; intros status; apply returns_refused.
    + destruct writing; apply returns_errno; intros status; apply returns_refused; auto.
Qed.

Lemma held_session r n h f : held r n h = Some f -> is_Some (lr_sessions r !! n).
Proof.
  unfold held. destruct (lr_handles r !! h) as [[owner g]|]; [|done]. cbn.
  case_decide as Hd; [|done]. intros _. destruct Hd as [_ [s Hs]]. by eapply share_session.
Qed.

(** ** What an operation may change *)

Definition only_local (path : QString) (d d' : data) : Prop :=
  ld_files d' = ld_files d /\ forall q, q <> path -> ld_local d' !! q = ld_local d !! q.
Definition only_remote (f : F) (d d' : data) : Prop :=
  ld_local d' = ld_local d /\ forall g, g <> f -> ld_files d' !! g = ld_files d !! g.

Lemma only_local_trans path d d1 d' :
  only_local path d d1 -> only_local path d1 d' -> only_local path d d'.
Proof.
  intros [Hf Hl] [Hf' Hl']. split; [congruence|]. intros q Hq. by rewrite Hl', Hl.
Qed.

Lemma only_remote_trans f d d1 d' :
  only_remote f d d1 -> only_remote f d1 d' -> only_remote f d d'.
Proof.
  intros [Hl Hf] [Hl' Hf']. split; [congruence|]. intros g Hg. by rewrite Hf', Hf.
Qed.

Lemma only_local_insert path bs d : only_local path d (with_local (<[path := bs]> (ld_local d)) d).
Proof. split; [done|]. intros q Hq. cbn. by rewrite lookup_insert_ne. Qed.

Lemma only_remote_insert f bs d : only_remote f d (with_files (<[f := bs]> (ld_files d)) d).
Proof. split; [done|]. intros g Hg. cbn. by rewrite lookup_insert_ne. Qed.

Lemma take_more {A} (c x : list A) (k : nat) :
  x = take (length x) (drop k c) -> take k c ++ x = take (k + length x) c.
Proof.
  intros Hx. destruct (Nat.le_gt_cases k (length c)) as [Hk|Hk].
  - rewrite <- (take_drop k c) at 2. rewrite take_app, length_take, Nat.min_l by done.
    rewrite (take_ge (take k c)) by (rewrite length_take; lia). f_equal.
    by replace (k + length x - k)%nat with (length x) by lia.
  - rewrite (drop_ge c k) in Hx by lia. rewrite take_nil in Hx. rewrite Hx, app_nil_r. cbn.
    by rewrite Nat.add_0_r.
Qed.

(** ** Downloads *)

Lemma returns_download_loop turns n h secret context total offset f p c d r :
  held r n h = Some f -> lr_open r = Some (p, true) -> ld_files d !! f = Some c ->
  blen c < 2 ^ 63 -> 0 <= offset <= blen c -> ld_local d !! p = Some (take (Z.to_nat offset) c) ->
  (Z.to_nat (blen c - offset) + ld_busy d < turns)%nat ->
  returns (lib_download_loop sanitizer turns n h secret context total offset) d r
    (fun d' x => only_local p d d' /\ (Result_ok x = true -> ld_local d' !! p = Some c)).
Proof.
  intros Hh Ho Hc Hsize. pose proof (held_session _ _ _ _ Hh) as Hn.
  revert offset d Hc. induction turns as [|turns IH]; intros offset d Hc Hoff Hl Ht; [lia|].
  assert (only_local p d d) as Hrefl by done.
  cbn [lib_download_loop]. apply returns_cancelled. intros [].
  { apply returns_ask. intros u w' Hw. cbn [lib_answers fst snd] in Hw. rewrite Ho in Hw. subst w'.
    eexists. split; [done|]. apply returns_fail; [done|]. intros x Hx. split; [|by rewrite Hx].
    split; [done|]. intros q Hq. cbn. by rewrite lookup_delete_ne. }
  apply returns_ask. intros [rc data] w' Hw. cbn [lib_answers fst snd] in Hw.
  rewrite Hh in Hw. cbn [valid_or_misused] in Hw. rewrite Hc in Hw.
  cbn [default from_option id] in Hw.
  rewrite u64_small in Hw by ulia.
  destruct Hw as [[Hneg [[-> (busy & Hb & ->)]|[Hne ->]]]|(-> & -> & Hcount & Hdata & Hend)].
  - eexists. split; [done|]. rewrite Z.eqb_refl. cbn [ld_busy fst] in Hb.
    apply (IH offset (with_busy busy d)); try done. cbn. lia.
  - eexists. split; [done|]. rewrite (proj2 (Z.eqb_neq _ _)) by done.
    apply returns_or_refused; [done| |lia].
    intros x Hx. split; [done|by rewrite Hx].
  - eexists. split; [done|]. rewrite (proj2 (Z.eqb_neq _ _)) by (unfold EAGAIN, blen; lia).
    apply returns_or_refused; [done| |].
    { intros x Hx. split; [done|by rewrite Hx]. }
    intros _. destruct (Z.eqb_spec (blen data) 0) as [Hz|Hnz].
    { apply returns_give. split; [done|]. intros _. rewrite Hl. f_equal. apply take_ge.
      specialize (Hend Hz). unfold blen in *. lia. }
    assert (blen data <= blen c - offset) as Hle.
    { apply (f_equal length) in Hdata. rewrite length_take, length_drop in Hdata.
      unfold blen in *. lia. }
    apply returns_ask. intros written w' Hw. cbn [lib_answers fst snd] in Hw. rewrite Ho in Hw.
    destruct Hw as (content & -> & Hcontent). eexists. split; [done|].
    set (d1 := with_local (<[p := content]> (ld_local d)) d).
    assert (only_local p d d1) as H1' by apply only_local_insert.
    destruct (Z.eqb_spec written (blen data)) as [Hwr|]; cbn [negb].
    2: { apply returns_fail; [done|]. intros x Hx. split; [done|by rewrite Hx]. }
    specialize (Hcontent Hwr). rewrite Hl in Hcontent. cbn [default from_option id] in Hcontent.
    rewrite (take_more _ _ _ Hdata) in Hcontent. apply returns_progress.
    eapply returns_mono; [apply (IH (offset + blen data) d1)|].
    + done.
    + unfold blen in *. lia.
    + cbn. rewrite lookup_insert_eq. subst content. do 2 f_equal. unfold blen. lia.
    + cbn. unfold blen in *. lia.
    + cbn. intros d' x [Hd' Hx]. split; [by eapply only_local_trans|done].
Qed.

(** ** Uploads and copies *)

Lemma overwritten_end content offset bs :
  offset = blen content -> overwritten content offset bs = content ++ bs.
Proof.
  intros ->. unfold overwritten, blen. rewrite Nat2Z.id, take_ge, drop_ge by lia.
  by rewrite Nat.sub_diag, app_nil_r.
Qed.

Lemma only_remote_refl f d : only_remote f d d.
Proof. done. Qed.

Lemma returns_write_loop turns n h secret context data base chunk after_write k f pre d r
    (Q : lib_world.data -> Result bool -> Prop) :
  held r n h = Some f ->
  (forall m (p : libsmb2 (Result bool)) d, returns p d r Q ->
     returns (after_write m ≫= (fun _ => p)) d r Q) ->
  base = blen pre -> base + blen data < 2 ^ 63 -> 0 <= chunk <= blen data ->
  ld_files d !! f = Some (pre ++ take (Z.to_nat chunk) data) ->
  (Z.to_nat (blen data - chunk) + ld_busy d < turns)%nat ->
  (forall d', only_remote f d d' -> fails Q d') ->
  (forall d', only_remote f d d' -> ld_files d' !! f = Some (pre ++ data) ->
     ld_position d' = ld_position d -> (ld_busy d' <= ld_busy d)%nat -> returns k d' r Q) ->
  returns (lib_write_loop sanitizer turns n h secret context data base chunk after_write k) d r Q.
Proof.
  intros Hh Haw Hbase Hsize. pose proof (held_session _ _ _ _ Hh) as Hn.
  revert chunk d. induction turns as [|turns IH]; intros chunk d Hchunk Hc Ht Hfail Hk; [lia|].
  cbn [lib_write_loop]. destruct (Z.ltb_spec chunk (blen data)) as [Hlt|Hge]; cbn [negb].
  2: { apply Hk; try done. rewrite Hc. do 2 f_equal. apply take_ge. unfold blen in *. lia. }
  apply returns_cancelled. intros []; [by apply returns_fail; [|apply Hfail]|].
  apply returns_ask. intros rc w' Hw. cbn [lib_answers fst snd] in Hw.
  rewrite Hh in Hw. cbn [valid_or_misused] in Hw. rewrite Hc in Hw.
  cbn [default from_option id] in Hw.
  assert (blen (pre ++ take (Z.to_nat chunk) data) = base + chunk) as Hlen.
  { subst base. unfold blen in *. rewrite length_app, length_take. lia. }
  rewrite u64_small in Hw by (unfold blen in *; ulia). rewrite overwritten_end in Hw by done.
  destruct Hw as [[-> (busy & Hb & ->)]|[(Hneg & Hne & content & ->)|[Hrc ->]]];
    (eexists; split; [done|]).
  - rewrite Z.eqb_refl. cbn [ld_busy fst] in Hb. apply IH; try done.
    + cbn. lia.
    + intros d' Hd' Hf Hpos Hle. apply Hk; try done. cbn in Hle. lia.
  - rewrite (proj2 (Z.eqb_neq _ _)) by done. rewrite (proj2 (Z.leb_le _ _)) by lia.
    apply returns_refused; [done|]. apply Hfail, only_remote_insert.
  - set (d1 := with_files _ _). assert (only_remote f d d1) as Hd1 by apply only_remote_insert.
    rewrite (proj2 (Z.eqb_neq _ _)) by (unfold EAGAIN; lia).
    destruct (Z.leb_spec rc 0); [by apply returns_refused; [|apply Hfail]|].
    assert (blen (drop (Z.to_nat chunk) data) = blen data - chunk) as Hdrop
      by (unfold blen; rewrite length_drop; unfold blen in *; lia).
    apply Haw. apply IH.
    + lia.
    + cbn. rewrite lookup_insert_eq, <- (assoc_L (++)). do 2 f_equal.
      rewrite take_take_drop. f_equal. lia.
    + cbn. unfold blen in *. lia.
    + intros d' Hd'. apply Hfail. by eapply only_remote_trans.
    + intros d' Hd'. apply Hk. by eapply only_remote_trans.
Qed.

Lemma returns_sync n h secret f d r (Q : data -> Result bool -> Prop) :
  held r n h = Some f -> fails Q d -> Q d (Result_success true) ->
  returns (lib_sync sanitizer n h secret) d r Q.
Proof.
  intros Hh Hf HQ. pose proof (held_session _ _ _ _ Hh) as Hn. apply returns_ask.
  intros rc w' Hw. cbn [lib_answers fst snd] in Hw. rewrite Hh in Hw. cbn in Hw. subst w'.
  exists d. split; [done|]. apply returns_or_refused; [done..|]. intros _. by apply returns_give.
Qed.

Lemma returns_upload_loop turns n h secret context total offset f p c d r :
  held r n h = Some f -> lr_open r = Some (p, false) -> ld_local d !! p = Some c ->
  blen c < 2 ^ 63 -> ld_position d = offset -> 0 <= offset <= blen c ->
  ld_files d !! f = Some (take (Z.to_nat offset) c) ->
  (length c + ld_busy d < fuel)%nat -> (Z.to_nat (blen c - offset) < turns)%nat ->
  returns (lib_upload_loop sanitizer fuel turns n h secret context total offset) d r
    (fun d' x => only_remote f d d' /\ (Result_ok x = true -> ld_files d' !! f = Some c)).
Proof.
  intros Hh Ho Hc Hsize. revert offset d Hc.
  induction turns as [|turns IH]; intros offset d Hc Hpos Hoff Hfile Hfuel Ht; [lia|].
  assert (fails (fun d' (x : Result bool) =>
    only_remote f d d' /\ (Result_ok x = true -> ld_files d' !! f = Some c)) d) as Hself.
  { intros x Hx. split; [done|by rewrite Hx]. }
  cbn [lib_upload_loop]. apply returns_cancelled. intros []; [by apply returns_fail|].
  apply returns_ask. intros read w' Hw. cbn [lib_answers fst snd] in Hw.
  rewrite Ho, Hc, Hpos in Hw. cbn [default from_option id] in Hw.
  destruct read as [bs|]; [|subst w'; exists d; split; [done|by apply returns_fail]].
  destruct Hw as (Hdata & Hcount & Hend & ->). eexists. split; [done|].
  destruct bs as [|b bs'] eqn:Hbs.
  { specialize (Hend eq_refl). eapply returns_sync; [exact Hh|exact Hself|].
    split; [done|]. intros _. cbn. rewrite Hfile. f_equal. apply take_ge.
    apply (f_equal length) in Hend. rewrite length_drop in Hend. cbn in Hend. lia. }
  rewrite <- Hbs in *. clear Hend.
  assert (0 < blen bs <= blen c - offset) as Hle.
  { split; [by rewrite Hbs|]. apply (f_equal length) in Hdata.
    rewrite length_take, length_drop in Hdata. unfold blen in *. lia. }
  set (d1 := with_position _ _).
  apply (returns_write_loop fuel n h secret context bs offset 0 _ _ f (take (Z.to_nat offset) c)).
  - done.
  - intros m q d0 Hq. by apply returns_progress.
  - unfold blen in *. rewrite length_take. lia.
  - lia.
  - lia.
  - cbn. by rewrite app_nil_r.
  - cbn. unfold blen in *. lia.
  - intros d' Hd' x Hx. split; [done|by rewrite Hx].
  - intros d' [Hl' Hd'] Hf' Hp' Hb'. cbn in Hp', Hb', Hl'.
    eapply returns_mono; [apply (IH (offset + blen bs) d')|].
    + by rewrite Hl'.
    + by rewrite Hp'.
    + lia.
    + rewrite Hf', (take_more _ _ _ Hdata). do 2 f_equal. unfold blen. lia.
    + lia.
    + lia.
    + cbn. intros d2 x [Hd2 Hx]. split; [|done]. by eapply only_remote_trans.
Qed.

Lemma returns_copy_loop turns n h secret n' h' secret' context total offset f g c d r :
  held r n h = Some f -> held r n' h' = Some g -> f <> g -> ld_files d !! f = Some c ->
  blen c < 2 ^ 63 -> 0 <= offset <= blen c ->
  ld_files d !! g = Some (take (Z.to_nat offset) c) ->
  (length c + ld_busy d < fuel)%nat ->
  (Z.to_nat (blen c - offset) + ld_busy d < turns)%nat ->
  returns (lib_copy_loop sanitizer fuel turns n h secret n' h' secret' context total offset) d r
    (fun d' x => only_remote g d d' /\ (Result_ok x = true -> ld_files d' !! g = Some c)).
Proof.
  intros Hh Hg Hfg Hc Hsize. revert offset d Hc. pose proof (held_session _ _ _ _ Hh) as Hn.
  induction turns as [|turns IH]; intros offset d Hc Hoff Hfile Hfuel Ht; [lia|].
  assert (fails (fun d' (x : Result bool) =>
    only_remote g d d' /\ (Result_ok x = true -> ld_files d' !! g = Some c)) d) as Hself.
  { intros x Hx. split; [done|by rewrite Hx]. }
  cbn [lib_copy_loop]. apply returns_cancelled. intros []; [by apply returns_fail|].
  apply returns_ask. intros [rc bs] w' Hw. cbn [lib_answers fst snd] in Hw.
  rewrite Hh in Hw. cbn [valid_or_misused] in Hw. rewrite Hc in Hw.
  cbn [default from_option id] in Hw.
  rewrite u64_small in Hw by ulia.
  destruct Hw as [[Hneg [[-> (busy & Hb & ->)]|[Hne ->]]]|(-> & -> & Hcount & Hdata & Hend)];
    (eexists; split; [done|]).
  - rewrite Z.eqb_refl. cbn [ld_busy fst] in Hb.
    apply (IH offset (with_busy busy d)); try done; cbn; lia.
  - rewrite (proj2 (Z.eqb_neq _ _)) by done. apply returns_or_refused; [done|done|lia].
  - rewrite (proj2 (Z.eqb_neq _ _)) by (unfold EAGAIN, blen; lia).
    apply returns_or_refused; [done|done|]. intros _.
    destruct (Z.eqb_spec (blen bs) 0) as [Hz|Hnz].
    { eapply returns_sync; [exact Hg|exact Hself|]. split; [done|]. intros _. rewrite Hfile.
      f_equal. apply take_ge. specialize (Hend Hz). unfold blen in *. lia. }
    assert (blen bs <= blen c - offset) as Hle.
    { apply (f_equal length) in Hdata. rewrite length_take, length_drop in Hdata.
      unfold blen in *. lia. }
    apply (returns_write_loop fuel n' h' secret' context bs offset 0 _ _ g
             (take (Z.to_nat offset) c)).
    + done.
    + by intros m q d0 Hq.
    + unfold blen in *. rewrite length_take. lia.
    + lia.
    + unfold blen. lia.
    + cbn. by rewrite app_nil_r.
    + cbn. unfold blen in *. lia.
    + intros d' Hd' x Hx. split; [done|by rewrite Hx].
    + intros d' [Hl' Hd'] Hf' _ Hb'. apply returns_progress.
      eapply returns_mono; [apply (IH (offset + blen bs) d')|].
      * by rewrite Hd' by done.
      * unfold blen in *. lia.
      * rewrite Hf', (take_more _ _ _ Hdata). do 2 f_equal. unfold blen. lia.
      * lia.
      * unfold blen in *. lia.
      * cbn. intros d2 x [Hd2 Hx]. split; [|done]. by eapply only_remote_trans.
Qed.

(** A file that is copied onto itself has been truncated before it is read. *)
Lemma returns_copy_itself turns n h secret n' h' secret' context total f d r :
  held r n h = Some f -> held r n' h' = Some f -> ld_files d !! f = Some [] ->
  (ld_busy d < turns)%nat ->
  returns (lib_copy_loop sanitizer fuel turns n h secret n' h' secret' context total 0) d r
    (fun d' x => only_remote f d d' /\ (Result_ok x = true -> ld_files d' !! f = Some [])).
Proof.
  intros Hh Hg Hc Ht. pose proof (held_session _ _ _ _ Hh) as Hn. revert d Hc Ht.
  induction turns as [|turns IH]; intros d Hc Ht; [lia|].
  assert (fails (fun d' (x : Result bool) =>
    only_remote f d d' /\ (Result_ok x = true -> ld_files d' !! f = Some [])) d) as Hself.
  { intros x Hx. split; [done|by rewrite Hx]. }
  cbn [lib_copy_loop]. apply returns_cancelled. intros []; [by apply returns_fail|].
  apply returns_ask. intros [rc bs] w' Hw. cbn [lib_answers fst snd] in Hw.
  rewrite Hh in Hw. cbn [valid_or_misused] in Hw. rewrite Hc in Hw. cbn in Hw.
  destruct Hw as [[Hneg [[-> (busy & Hb & ->)]|[Hne ->]]]|(-> & -> & _ & Hdata & _)];
    (eexists; split; [done|]).
  - rewrite Z.eqb_refl. apply (IH (with_busy busy d)); [done|]. cbn in Hb |- *. lia.
  - rewrite (proj2 (Z.eqb_neq _ _)) by done. apply returns_or_refused; [done|done|lia].
  - rewrite drop_nil, take_nil in Hdata. subst bs. cbn [blen length Z.of_nat].
    change (0 =? - EAGAIN) with false.
    apply returns_or_refused; [done|done|]. intros _. cbn.
    by eapply returns_sync; [exact Hg|exact Hself|].
Qed.

(** ** Directories *)

Definition listed (remotePath : QString) (l : list smb2dirent) : list RemoteFileEntry :=
  (fun e => lib_entry remotePath (fromUtf8 (de_name e)) (de_st e)) <$>
    filter (fun e => libIsDotEntry (fromUtf8 (de_name e)) = false) l.

Definition reading (k n : nat) (l : list smb2dirent) (r : resources) : resources :=
  with_directories (<[k := (n, l)]> (lr_directories r)) r.

Lemma wp_closedir k n l d r :
  lr_directories r !! k = None ->
  lib_wp (ask (CloseDir n k)) (d, reading k n l r) (fun w _ => w = (d, r)).
Proof.
  intros Hk u w' Hw. cbn [lib_answers fst snd] in Hw. rewrite Hw.
  unfold reading, with_directories. cbn. rewrite lookup_insert_eq. cbn.
  rewrite decide_True by done. rewrite delete_insert_id by done. by destruct r.
Qed.

Lemma wp_readdir_loop turns n k remotePath context entries l d r :
  lr_directories r !! k = None -> (length l < turns)%nat ->
  lib_wp (readdir_loop turns n k remotePath context entries) (d, reading k n l r)
    (fun w x => w = (d, r) /\
       (Result_ok x = true -> res_value x = entries ++ listed remotePath l)).
Proof.
  intros Hk. revert turns entries. induction l as [|e l IH]; intros [|turns] entries Ht;
    cbn [length] in Ht; try lia; cbn [readdir_loop]; apply awp_ask; intros b w' Hw;
    cbn [lib_answers fst snd reading with_directories lr_directories] in Hw;
    rewrite lookup_insert_eq, decide_True in Hw by done; destruct Hw as [-> ->].
  - apply awp_bind. eapply awp_mono; [by apply wp_closedir|]. intros w u ->.
    split; [done|]. intros _. cbn. by rewrite app_nil_r.
  - rewrite insert_insert_eq. fold (reading k n l r).
    assert (forall b : bool, lib_wp (if b
      then _ ← ask (CloseDir n k); lib_fail [] libCancelledError
      else readdir_loop turns n k remotePath context
        (if libIsDotEntry (fromUtf8 (de_name e)) then entries
         else entries ++ [lib_entry remotePath (fromUtf8 (de_name e)) (de_st e)]))
      (d, reading k n l r) (fun w x => w = (d, r) /\
       (Result_ok x = true -> res_value x = entries ++ listed remotePath (e :: l)))) as Hb.
    { intros []; [apply awp_bind; eapply awp_mono; [by apply wp_closedir|]; by intros w u ->|].
      eapply awp_mono; [apply IH; lia|]. intros w x [-> Hx]. split; [done|]. intros Hok.
      rewrite (Hx Hok). unfold listed. destruct (libIsDotEntry _) eqn:Hdot.
      - rewrite filter_cons_False; [done|]. by rewrite Hdot.
      - rewrite filter_cons_True by done. cbn. by rewrite <- (assoc_L (++)). }
    unfold libCancelled. destruct (cc_cancellationToken context); [|apply (Hb false)].
    apply awp_ask. intros b w' ->. apply Hb.
Qed.

(** ** Operations *)

Definition place_of (c : Connection) (path : QString) : F :=
  located (c_string (toStdString (con_server c))) (c_string (toStdString (con_share c)))
    (pathBytes path).

Lemma in_share_place n c r path :
  place (in_share n c r) n (pathBytes path) = Some (place_of c path).
Proof. unfold place. by rewrite in_share_share. Qed.

Lemma in_share_session n c r : is_Some (lr_sessions (in_share n c r) !! n).
Proof. eapply share_session, in_share_share. Qed.

(** Only these two files may have changed. *)
Definition only_both (f g : F) (d d' : data) : Prop :=
  ld_local d' = ld_local d /\ forall x, x <> f -> x <> g -> ld_files d' !! x = ld_files d !! x.

(** A file was to be moved from [f] to [g]. *)
Definition move_left (f g : F) (d d' : data) (ok : bool) : Prop :=
  only_both f g d d' /\ forall content, ld_files d !! f = Some content ->
  (ld_files d' !! f = Some content \/ ld_files d' !! g = Some content) /\
  (ok = true -> ld_files d' !! g = Some content /\ (f <> g -> ld_files d' !! f = None)).

Definition same_files (d d' : data) : Prop :=
  ld_files d' = ld_files d /\ ld_local d' = ld_local d.

(** What an operation has left, and what its result means. *)
Definition lib_left {A} (op : smb_op A) : data -> data -> A -> Prop :=
  match op in smb_op A return data -> data -> A -> Prop with
  | Smb_capabilities _ | Smb_probeCapabilities _ _ | Smb_listShares _ _
  | Smb_checkConnection _ _ | Smb_createDirectory _ _ _ => fun d d' _ => same_files d d'
  | Smb_listDirectory c _ path => fun d d' x => same_files d d' /\
      (Result_ok x = true -> res_value x = listed path (listing (place_of c path)))
  | Smb_remove c _ path => fun d d' x =>
      only_remote (place_of c path) d d' /\
      (Result_ok x = true -> ld_files d' !! place_of c path = None)
  | Smb_rename c _ source target => fun d d' x =>
      is_Some (ld_files d !! place_of c source) ->
      move_left (place_of c source) (place_of c target) d d' (Result_ok x)
  | Smb_downloadFile c _ path localPath => fun d d' x =>
      only_local localPath d d' /\
      (Result_ok x = true -> is_Some (ld_files d !! place_of c path) /\
         ld_local d' !! localPath = ld_files d !! place_of c path)
  | Smb_uploadFile c _ localPath path => fun d d' x =>
      only_remote (place_of c path) d d' /\
      (Result_ok x = true -> is_Some (ld_local d !! localPath) /\
         ld_files d' !! place_of c path = ld_local d !! localPath)
  | Smb_copy c _ source c' _ target => fun d d' x =>
      only_remote (place_of c' target) d d' /\
      (Result_ok x = true -> is_Some (ld_files d !! place_of c source) /\
         ld_files d' !! place_of c' target =
           if decide (place_of c source = place_of c' target) then Some []
           else ld_files d !! place_of c source)
  | Smb_move c _ source c' _ target => fun d d' x =>
      let f := place_of c source in
      let g := place_of c' target in
      if libSameShare c c'
      then is_Some (ld_files d !! f) -> move_left f (place_of c target) d d' (Result_ok x)
      else f <> g -> move_left f g d d' (Result_ok x)
  end.

(** Contents are not larger than an offset can say, and the loops have fuel for them. *)
Definition manageable (d : data) : Prop :=
  map_Forall (fun _ c => (length c + ld_busy d < fuel)%nat /\ blen c < 2 ^ 63) (ld_files d) /\
  map_Forall (fun _ c => (length c + ld_busy d < fuel)%nat /\ blen c < 2 ^ 63) (ld_local d) /\
  (ld_busy d < fuel)%nat /\
  forall f, (length (listing f) < fuel)%nat.

(** What is asked of one operation. *)
Definition performs {A} (op : smb_op A) (context : CoreContext) (d : data) (r : resources)
    : Prop :=
  returns (libsmb2_method timeout sanitizer fuel op context) d r (lib_left op d).

Lemma performs_check c secret context d r :
  well_used r -> performs (Smb_checkConnection c secret) context d r.
Proof. intros Hr. by apply returns_in_session. Qed.

Lemma performs_list c secret path context d r :
  well_used r -> (forall f, (length (listing f) < fuel)%nat) ->
  performs (Smb_listDirectory c secret path) context d r.
Proof.
  intros Hr Hl.
  assert (fails (lib_left (Smb_listDirectory c secret path) d) d) as Hself.
  { intros x Hx. split; [done|by rewrite Hx]. }
  apply returns_in_session; [done|exact Hself|]. intros n Hn.
  apply returns_cancelled. intros []; [by apply returns_fail|].
  apply awp_ask. intros [k|] w' Hw; cbn [lib_answers fst snd] in Hw;
    rewrite in_share_place in Hw; cbn in Hw.
  - destruct Hw as [Hk ->]. fold (reading k n (listing (place_of c path)) (in_share n c r)).
    eapply awp_mono; [by apply (wp_readdir_loop _ _ _ _ _ _ _ _ (in_share n c r))|].
    intros w x [-> Hx]. by split.
  - subst w'. apply returns_errno. intros status. apply returns_refused; [|exact Hself].
    apply in_share_session.
Qed.

(** A call that gives a status and is the last one. *)
Lemma returns_status n c r (call : smb2_call Z) phase secret d (Q : data -> Result bool -> Prop) :
  (forall rc w', lib_answers call (d, in_share n c r) rc w' -> exists d',
     w' = (d', in_share n c r) /\ fails Q d' /\ (0 <= rc -> Q d' (Result_success true))) ->
  returns (rc ← ask call; or_refused sanitizer n rc phase secret lib_done) d (in_share n c r) Q.
Proof.
  intros Hc. apply returns_ask. intros rc w' Hw. destruct (Hc rc w' Hw) as (d' & -> & Hf & HQ).
  exists d'. split; [done|]. apply returns_or_refused; [apply in_share_session|done|].
  intros Hrc. by apply returns_give, HQ.
Qed.

Lemma performs_create c secret path context d r :
  well_used r -> performs (Smb_createDirectory c secret path) context d r.
Proof.
  intros Hr. apply returns_in_session; [done|done|]. intros n Hn. apply returns_status.
  intros rc w' [_ Hw]. cbn [fst snd] in Hw. rewrite in_share_place in Hw. cbn in Hw. subst w'.
  by exists d.
Qed.

Lemma performs_remove c secret path context d r :
  well_used r -> performs (Smb_remove c secret path) context d r.
Proof.
  intros Hr.
  assert (fails (lib_left (Smb_remove c secret path) d) d) as Hself.
  { intros x Hx. split; [done|by rewrite Hx]. }
  apply returns_in_session; [done|exact Hself|]. intros n Hn.
  apply returns_ask. intros [rc st] w' [Hrc Hw]. cbn [fst snd] in Hrc, Hw.
  rewrite in_share_place in Hw. cbn in Hw. destruct Hw as [-> Hst].
  exists d. split; [done|]. apply returns_or_refused; [apply in_share_session|exact Hself|].
  intros Hge. specialize (Hst ltac:(lia)). apply returns_status. intros rc2 w' Hw.
  destruct (Z.eqb_spec (smb2_type st) SMB2_TYPE_DIRECTORY) as [Hd|Hd];
    destruct Hw as [Hrc2 Hw]; cbn [fst snd] in Hw; rewrite in_share_place in Hw; cbn in Hw.
  - subst w'. exists d. split; [done|]. split; [exact Hself|]. intros _. split; [done|].
    intros _. destruct (ld_files d !! place_of c path); [|done]. by destruct Hst.
  - destruct Hw as [->|[Hne ->]]; (eexists; split; [done|]).
    + assert (only_remote (place_of c path) d
        (with_files (delete (place_of c path) (ld_files d)) d)) as Hdel.
      { split; [done|]. intros g Hg. cbn. by rewrite lookup_delete_ne. }
      split; [intros x Hx; split; [done|by rewrite Hx]|]. intros _. split; [done|].
      intros _. cbn. by rewrite lookup_delete_eq.
    + split; [exact Hself|]. lia.
Qed.

Lemma move_left_refl f g d : move_left f g d d false.
Proof. split; [done|]. intros content Hc. split; [by left|done]. Qed.

Lemma renamed_left f g d w' (r : resources) :
  is_Some (ld_files d !! f) -> ld_files d !! g = None \/ f = g -> renamed f g (d, r) w' ->
  exists d', w' = (d', r) /\ forall ok, move_left f g d d' ok.
Proof.
  intros [content Hc] Hg Hw. unfold renamed in Hw. cbn [fst snd] in Hw. rewrite Hc in Hw.
  eexists. split; [exact Hw|]. intros ok. case_decide as Hfg.
  - subst g. split; [done|]. intros content' Hc'. split; [by left|]. by intros _.
  - split.
    + split; [done|]. intros x Hf Hx. cbn. by rewrite lookup_insert_ne, lookup_delete_ne.
    + intros content' Hc'. simplify_eq. cbn. rewrite lookup_insert_eq. split; [by right|].
      intros _. split; [done|]. intros _. rewrite lookup_insert_ne by done. apply lookup_delete_eq.
Qed.

Lemma performs_rename c secret source target context d r :
  well_used r -> performs (Smb_rename c secret source target) context d r.
Proof.
  intros Hr.
  assert (fails (lib_left (Smb_rename c secret source target) d) d) as Hself.
  { intros x Hx _. rewrite Hx. apply move_left_refl. }
  apply returns_in_session; [done|exact Hself|]. intros n Hn. apply returns_status.
  intros rc w' [Hrc Hw]. cbn [fst snd] in Hw. rewrite !in_share_place in Hw. cbn in Hw.
  destruct Hw as [[Hg Hw]|[Hne ->]].
  - destruct (ld_files d !! place_of c source) as [content|] eqn:Hf.
    + destruct (renamed_left _ _ _ _ _ (ex_intro _ content Hf) Hg Hw) as (d' & -> & Hd').
      exists d'. split; [done|]. split; [by intros x Hx _; rewrite Hx|]. by intros _ _.
    + unfold renamed in Hw. cbn [fst] in Hw. rewrite Hf in Hw. destruct Hw as [files ->].
      eexists. split; [done|]. cbn [lib_left]. unfold fails. rewrite Hf.
      split; [by intros x _ []|by intros _ []].
  - exists d. split; [done|]. split; [exact Hself|]. cbn in Hrc. lia.
Qed.

(** The local file is closed by its destructor, whether it was opened or not. *)
Lemma wp_close_local d r o :
  lr_open r = None -> lib_wp (ask CloseLocal) (d, with_open o r) (fun w _ => w = (d, r)).
Proof.
  intros Ho u w' Hw. cbn [lib_answers fst snd] in Hw. rewrite Hw. destruct r. cbn in *. by subst.
Qed.

Lemma with_same_open r : lr_open r = None -> with_open None r = r.
Proof. intros Ho. destruct r. cbn in *. by subst. Qed.

Lemma performs_download c secret path localPath context d r :
  well_used r -> lr_open r = None -> manageable d ->
  performs (Smb_downloadFile c secret path localPath) context d r.
Proof.
  intros Hr Ho (Hfiles & _ & _ & _).
  assert (fails (lib_left (Smb_downloadFile c secret path localPath) d) d) as Hself.
  { intros x Hx. split; [done|by rewrite Hx]. }
  apply returns_in_session; [done|exact Hself|]. intros n Hn.
  apply returns_ask. intros [rc st] w' [_ Hw]. cbn [fst snd] in Hw.
  rewrite in_share_place in Hw. cbn in Hw. destruct Hw as [-> _].
  exists d. split; [done|].
  eapply returns_handle; [apply in_share_place|exact Hself|done|]. intros h Hh Hsome.
  destruct (Hsome eq_refl) as [content Hc]. destruct (Hfiles _ _ Hc) as [Hlen Hsize].
  apply awp_ask. intros opened w' Hw. cbn [lib_answers fst snd holding with_handles in_share
    with_sessions_of lr_open] in Hw. rewrite Ho in Hw.
  set (r1 := holding h n (place_of c path) (in_share n c r)).
  destruct opened; cbn [negb].
  - destruct Hw as [_ ->]. cbn [ld_local with_position].
    set (d1 := with_position 0 (with_local (<[localPath := []]> (ld_local d)) d)).
    apply (returns_guarded _ _ d1 r1 (with_open (Some (localPath, true)) r1)).
    + eapply returns_mono; [apply (returns_download_loop fuel n h secret context _ 0
        (place_of c path) localPath content)|].
      * by apply holding_held; rewrite in_share_share.
      * done.
      * done.
      * done.
      * unfold blen. lia.
      * cbn. by rewrite lookup_insert_eq.
      * cbn. unfold blen. lia.
      * intros d' x [Hd' Hx]. split.
        { eapply only_local_trans; [|exact Hd']. apply only_local_insert. }
        rewrite Hc. intros Hok. split; [done|by apply Hx].
    + intros d'. by apply wp_close_local.
  - rewrite Hw. apply (returns_guarded _ _ d r1 r1); [by apply returns_fail|].
    intros d'. rewrite <- (with_same_open r1) at 1 by done. by apply wp_close_local.
Qed.

Lemma performs_upload c secret localPath path context d r :
  well_used r -> lr_open r = None -> manageable d ->
  performs (Smb_uploadFile c secret localPath path) context d r.
Proof.
  intros Hr Ho (_ & Hlocal & _ & _). set (f := place_of c path).
  assert (forall d', only_remote f d d' ->
    fails (lib_left (Smb_uploadFile c secret localPath path) d) d') as Hself.
  { intros d' Hd' x Hx. split; [done|by rewrite Hx]. }
  apply returns_validate. intros x. destruct (Result_ok x) eqn:Hok; cbn [negb].
  2: { apply returns_give. by apply Hself. }
  apply awp_ask. intros opened w' Hw. cbn [lib_answers fst snd] in Hw. rewrite Ho in Hw.
  destruct opened; cbn [negb].
  2: { subst w'. apply returns_guarded; [by apply returns_fail; [|apply Hself]|].
       intros d'. rewrite <- (with_same_open r) at 1 by done. by apply wp_close_local. }
  destruct Hw as [Hsome ->]. destruct (Hsome eq_refl) as [content Hc].
  destruct (Hlocal _ _ Hc) as [Hlen Hsize].
  set (r1 := with_open (Some (localPath, false)) r). set (d1 := with_position 0 d).
  apply returns_guarded; [|intros d'; by apply wp_close_local].
  apply returns_told; [done|]. intros total.
  apply returns_session; [done|by apply Hself|]. intros n Hn.
  set (d2 := with_files (<[f := default [] (ld_files d1 !! f)]> (ld_files d1)) d1).
  assert (only_remote f d d2) as Hd2 by apply (only_remote_insert f _ d1).
  eapply returns_handle; [apply in_share_place|by apply Hself|intros _; by apply Hself|].
  fold f. fold d2. intros h Hh _. set (r2 := holding h n f (in_share n c r1)).
  assert (held r2 n h = Some f) as Hheld by (apply holding_held; by rewrite in_share_share).
  apply returns_ask. intros rc w' [Hrc Hw]. cbn [fst snd] in Hw. rewrite Hheld in Hw.
  destruct Hw as (content' & -> & Htr). cbn [fst snd]. eexists. split; [done|].
  set (d3 := with_files _ _).
  assert (only_remote f d d3) as Hd3
    by (eapply only_remote_trans; [exact Hd2|apply only_remote_insert]).
  apply returns_or_refused; [by eapply held_session|by apply Hself|]. intros Hge.
  specialize (Htr ltac:(lia)). cbn in Htr. subst content'.
  eapply returns_mono;
    [apply (returns_upload_loop fuel n h secret context total 0 f localPath content)|].
  - done.
  - done.
  - done.
  - done.
  - done.
  - unfold blen. lia.
  - cbn. by rewrite lookup_insert_eq.
  - cbn. lia.
  - unfold blen. lia.
  - intros d' y [Hd' Hy]. split; [by eapply only_remote_trans|]. intros Hok'. rewrite Hc.
    split; [done|by apply Hy].
Qed.

Lemma in_share_other n c m c' r path :
  m <> n -> place (in_share n c (in_share m c' r)) m (pathBytes path) = Some (place_of c' path).
Proof.
  intros Hne. unfold place, share_of, in_share. cbn. rewrite lookup_insert_ne by done.
  by rewrite lookup_insert_eq.
Qed.

Lemma copied_fails c secret source c' secret' target d d' :
  only_remote (place_of c' target) d d' ->
  fails (lib_left (Smb_copy c secret source c' secret' target) d) d'.
Proof. intros Hd' x Hx. split; [done|by rewrite Hx]. Qed.

(** The target is open and truncated. *)
Lemma returns_copy_blocks c secret source c' secret' target context total n h n' h' content
    d d1 r :
  let f := place_of c source in
  let g := place_of c' target in
  held r n h = Some f -> held r n' h' = Some g -> manageable d ->
  ld_files d !! f = Some content -> only_remote g d d1 -> ld_files d1 !! g = Some [] ->
  ld_busy d1 = ld_busy d ->
  returns (lib_copy_loop sanitizer fuel fuel n h secret n' h' secret' context total 0) d1 r
    (lib_left (Smb_copy c secret source c' secret' target) d).
Proof.
  intros f g Hh Hg (Hfiles & _ & Hb & _) Hc Hd1 Hempty Hbusy.
  destruct (Hfiles _ _ Hc) as [Hlen Hsize]. cbn [lib_left]. fold f g.
  destruct (decide (f = g)) as [Hfg|Hfg].
  - rewrite <- Hfg in *.
    eapply returns_mono; [apply returns_copy_itself with (f := f); try done; lia|].
    intros d' x [Hd' Hx]. split; [by eapply only_remote_trans|]. intros Hok.
    split; [by eexists|by apply Hx].
  - eapply returns_mono; [apply returns_copy_loop with (f := f) (g := g) (c := content); try done|].
    + destruct Hd1 as [_ Hd1]. by rewrite Hd1 by done.
    + unfold blen. lia.
    + lia.
    + unfold blen. lia.
    + intros d' x [Hd' Hx]. split; [by eapply only_remote_trans|]. intros Hok. rewrite Hc.
      split; [done|by apply Hx].
Qed.

Lemma performs_copy c secret source c' secret' target context d r :
  well_used r -> manageable d ->
  performs (Smb_copy c secret source c' secret' target) context d r.
Proof.
  intros Hr Hm. set (f := place_of c source). set (g := place_of c' target).
  pose proof (copied_fails c secret source c' secret' target d) as Hself.
  pose proof (Hself d (only_remote_refl _ _)) as Hd.
  apply returns_validate. intros x. destruct (Result_ok x) eqn:Hx; cbn [negb];
    [|by apply returns_give, Hd].
  apply returns_validate. intros y. destruct (Result_ok y) eqn:Hy; cbn [negb];
    [|by apply returns_give, Hd].
  apply returns_session; [done|exact Hd|]. intros n Hn.
  apply returns_cancelled. intros []; [by apply returns_fail|].
  apply returns_session; [by apply in_share_used|exact Hd|]. intros n' Hn'.
  assert (n <> n') as Hnn.
  { intros <-. destruct (in_share_session n c r) as [s Hs]. by rewrite Hn' in Hs. }
  set (r2 := in_share n' c' (in_share n c r)).
  assert (place r2 n (pathBytes source) = Some f) as Hpf by by apply in_share_other.
  assert (place r2 n' (pathBytes target) = Some g) as Hpg by apply in_share_place.
  assert (is_Some (share_of r2 n) /\ is_Some (share_of r2 n')) as [Hsn Hsn'].
  { unfold place in Hpf, Hpg. by destruct (share_of r2 n), (share_of r2 n'). }
  assert (is_Some (lr_sessions r2 !! n)) as Hln by (destruct Hsn; by eapply share_session).
  apply returns_ask. intros [rc st] w' [_ Hw]. cbn [fst snd] in Hw. rewrite Hpf in Hw.
  cbn in Hw. destruct Hw as [-> _]. exists d. split; [done|].
  apply returns_or_refused; [done|exact Hd|]. intros _.
  destruct (_ =? _); [by apply returns_fail|].
  eapply returns_handle; [exact Hpf|exact Hd|done|]. intros h Hh Hsome.
  destruct (Hsome eq_refl) as [content Hc].
  set (r3 := holding h n f r2). assert (held r3 n h = Some f) as Hheld by by apply holding_held.
  set (d1 := with_files (<[g := default [] (ld_files d !! g)]> (ld_files d)) d).
  assert (only_remote g d d1) as Hd1 by apply only_remote_insert.
  eapply returns_handle; [exact Hpg|exact Hd|intros _; by apply Hself|].
  fold d1. intros h' Hh' _. set (r4 := holding h' n' g r3).
  assert (held r4 n' h' = Some g) as Hheld' by by apply holding_held.
  assert (held r4 n h = Some f) as Hheld2 by by apply held_other.
  apply returns_ask. intros rc2 w' [Hrc Hw]. cbn [fst snd] in Hw. rewrite Hheld' in Hw.
  destruct Hw as (content' & -> & Htr). cbn [fst snd]. eexists. split; [done|].
  set (d2 := with_files _ _).
  assert (only_remote g d d2) as Hd2
    by (eapply only_remote_trans; [exact Hd1|apply only_remote_insert]).
  apply returns_or_refused; [by eapply held_session|by apply Hself|]. intros Hge.
  specialize (Htr ltac:(lia)). cbn in Htr. subst content'.
  eapply returns_copy_blocks; try done. cbn. by rewrite lookup_insert_eq.
Qed.

Lemma performs_move c secret source c' secret' target context d r :
  well_used r -> manageable d ->
  performs (Smb_move c secret source c' secret' target) context d r.
Proof.
  intros Hr Hm. set (f := place_of c source). set (g := place_of c' target).
  unfold performs. cbn [libsmb2_method lib_left]. unfold lib_move. fold f g.
  destruct (libSameShare c c').
  { eapply returns_mono; [by apply (performs_rename c secret source target)|]. done. }
  apply returns_bind. eapply returns_mono;
    [by apply (performs_copy c secret source c' secret' target)|].
  intros d1 x [[Hl1 Hf1] Hx]. fold f g in Hf1, Hx.
  assert (only_both f g d d1) as Hboth by (split; [done|]; intros y _ Hy; by apply Hf1).
  assert (f <> g -> forall ok, (ok = true -> False) -> move_left f g d d1 ok) as Hkept.
  { intros Hfg ok Hok. split; [done|]. intros content Hc. split; [|done]. left. by rewrite Hf1. }
  assert (fails (fun d' (x : Result bool) =>
    f <> g -> move_left f g d d' (Result_ok x)) d1) as Hself.
  { intros y Hy Hfg. apply Hkept; [done|]. by rewrite Hy. }
  destruct (Result_ok x) eqn:Hok; cbn [negb]; [|by apply returns_give, Hself].
  apply returns_cancelled. intros []; [by apply returns_fail|].
  eapply returns_mono; [by apply (performs_remove c secret source)|].
  intros d2 y [[Hl2 Hf2] Hy] Hfg. fold f in Hf2, Hy. destruct (Hx eq_refl) as [_ Hg].
  rewrite decide_False in Hg by done. split.
  - split; [congruence|]. intros z Hz Hzg. by rewrite Hf2, Hf1.
  - intros content Hc. assert (ld_files d2 !! g = Some content) as Hg2
      by (rewrite Hf2, Hg by congruence; done).
    split; [by right|]. intros Hok2. split; [done|]. intros _. by apply Hy.
Qed.

(** C9: The client on libsmb2 does what it says and gives back what it took. Take any
    answers of the library over files that hold still while they are open, among which
    everything may fail and be busy again for a while, and fuel for the size of the
    files and the directories. Then every operation ends, and it has destroyed every
    context, left every share and closed every handle, directory and file it has
    opened, once, and never used one that was not valid. If it reports success, a
    download has made the local file the remote one, an upload or a copy the target
    the source, unless they are the same file; a listing is that of the directory; what
    was removed is gone. Success or not, only the files it is about have changed, and
    a file that is moved is at one of its places. *)
Theorem libsmb2_operations {A} (op : smb_op A) context d r o w :
  well_used r -> lr_open r = None -> manageable d ->
  asks (fun B => @lib_answers B) (libsmb2_method timeout sanitizer fuel op context)
    (d, r) o w ->
  exists d' a, o = Some a /\ w = (d', r) /\ lib_left op d d' a.
Proof.
  intros Hr Ho Hm Hrun. pose proof Hm as (_ & _ & _ & Hl).
  assert (performs op context d r) as Hp.
  { destruct op; [done|done|done|by apply performs_check|by apply performs_list|
      by apply performs_create|by apply performs_remove|by apply performs_rename|
      by apply performs_download|by apply performs_upload|by apply performs_copy|
      by apply performs_move]. }
  eapply awp_runs in Hrun; [|exact Hp]. destruct o as [a|]; [|done].
  destruct w as [d' r']. destruct Hrun as [Hr' Ha]. cbn in Hr', Ha. subst r'.
  by exists d', a.
Qed.

End lib_world.

(** ** A copy from one share to another *)

#[export] Instance sample_numerals : @QtNumerals ascii_qt :=
  {| decimalArg := fun _ => QStringLiteral "-1"; hexadecimalArg := fun _ => QStringLiteral "c0";
     utcOfSecs := fun secs => secs * 1000 |}.

Definition triple (server share path : bytes) : bytes * bytes * bytes := (server, share, path).

Abbreviation lib_world :=
  (lib_data (bytes * bytes * bytes) * lib_resources (bytes * bytes * bytes))%type.

Definition unused {A} (m : gmap nat A) : option nat :=
  let n := size m in if decide (m !! n = None) then Some n else None.

Definition lib_serve {B : Set} (c : smb2_call B) : lib_world -> option (B * lib_world) :=
  match c in smb2_call B return lib_world -> option (B * lib_world) with
  | InitContext _ => fun w =>
      n ← unused (lr_sessions w.2);
      Some (Some n, (w.1, with_sessions_of (<[n := None]> (lr_sessions w.2)) w.2))
  | SetUser n _ | SetPassword n _ => fun w =>
      if decide (lr_sessions w.2 !! n = Some None) then Some (tt, w) else None
  | ConnectShare n server share _ => fun w =>
      if decide (lr_sessions w.2 !! n = Some None)
      then Some (0, (w.1, with_sessions_of (<[n := Some (server, share)]> (lr_sessions w.2)) w.2))
      else None
  | DisconnectShare n => fun w =>
      _ ← share_of w.2 n;
      if decide (map_Forall (fun _ h => h.1 <> n) (lr_handles w.2) /\
                 map_Forall (fun _ h => h.1 <> n) (lr_directories w.2))
      then Some (tt, (w.1, with_sessions_of (<[n := None]> (lr_sessions w.2)) w.2)) else None
  | DestroyContext n => fun w =>
      if decide (lr_sessions w.2 !! n = Some None)
      then Some (tt, (w.1, with_sessions_of (delete n (lr_sessions w.2)) w.2)) else None
  | StatPath n path => fun w =>
      f ← place triple w.2 n path;
      content ← ld_files w.1 !! f;
      Some ((0, mkSmb2Stat SMB2_TYPE_FILE (blen content) 0), w)
  | OpenFd n path writing => fun w =>
      f ← place triple w.2 n path;
      h ← unused (lr_handles w.2);
      let r' := with_handles (<[h := (n, f)]> (lr_handles w.2)) w.2 in
      if writing
      then Some (Some h,
        (with_files (<[f := default [] (ld_files w.1 !! f)]> (ld_files w.1)) w.1, r'))
      else _ ← ld_files w.1 !! f; Some (Some h, (w.1, r'))
  | CloseFd n h => fun w =>
      _ ← held w.2 n h;
      Some (tt, (w.1, with_handles (delete h (lr_handles w.2)) w.2))
  | PRead n h count offset => fun w =>
      f ← held w.2 n h;
      let bs := drop (Z.to_nat offset) (default [] (ld_files w.1 !! f)) in
      if decide (0 <= offset /\ blen bs <= count) then Some ((blen bs, bs), w) else None
  | PWrite n h written offset => fun w =>
      f ← held w.2 n h;
      Some (blen written, (with_files (<[f := overwritten (default [] (ld_files w.1 !! f)) offset
                                     written]> (ld_files w.1)) w.1, w.2))
  | Truncate n h length => fun w =>
      f ← held w.2 n h;
      Some (0, (with_files (<[f := take (Z.to_nat length)
                  (default [] (ld_files w.1 !! f))]> (ld_files w.1)) w.1, w.2))
  | FSync n h => fun w => _ ← held w.2 n h; Some (0, w)
  | _ => fun _ => None
  end.

Lemma unused_free {A} (m : gmap nat A) n : unused m = Some n -> m !! n = None.
Proof. unfold unused. case_decide; [by intros [= <-]|done]. Qed.

Lemma lib_serve_answers (B : Set) (c : smb2_call B) w b w' :
  lib_serve c w = Some (b, w') -> lib_answers triple (fun _ => []) c w b w'.
Proof.
  destruct w as [d r].
  destruct c; cbn [lib_serve lib_answers fst snd]; try done; intros Hs;
    repeat match type of Hs with
    | context [place ?l ?r ?n ?p] => destruct (place l r n p) as [f|] eqn:?; [|done]; cbn in Hs
    | context [held ?r ?n ?h] => destruct (held r n h) as [f|] eqn:?; [|done]; cbn in Hs
    | context [unused ?m] =>
        destruct (unused m) as [n'|] eqn:Hu; [|done]; apply unused_free in Hu; cbn in Hs
    end.
  - by simplify_eq/=.
  - case_decide; by simplify_eq/=.
  - case_decide; by simplify_eq/=.
  - case_decide; by simplify_eq/=.
  - case_decide; by simplify_eq/=.
  - destruct (share_of r context); [|done]. cbn in *. case_decide; [|done].
    simplify_eq. by left.
  - destruct (ld_files d !! f) as [content|] eqn:Hf; [|done]. cbn in Hs. simplify_eq/=.
    split; [done|]. split; [done|]. intros _. by rewrite Hf.
  - destruct writing; [|destruct (ld_files d !! f) eqn:?; [|done]]; by simplify_eq/=.
  - by simplify_eq/=.
  - case_decide as Hc; [|done]. simplify_eq/=. right. split_and!; [done|done|lia| |].
    + by rewrite firstn_all.
    + unfold blen. rewrite length_drop. lia.
  - simplify_eq/=. right. right. split; [unfold blen; lia|].
    unfold blen. by rewrite Nat2Z.id, firstn_all.
  - simplify_eq/=. split; [done|]. eexists. split; [done|]. done.
  - by simplify_eq/=.
Qed.

Definition on_share (share : string) : Connection :=
  mkConnection (QStringLiteral share) [] (QStringLiteral "srv") (QStringLiteral share) [] []
    AuthType_Guest.

Definition source_file : bytes * bytes * bytes :=
  place_of triple (on_share "x") (QStringLiteral "/a").
Definition target_file : bytes * bytes * bytes :=
  place_of triple (on_share "y") (QStringLiteral "b").

Definition two_shares : lib_data (bytes * bytes * bytes) :=
  mkLibData (<[source_file := [1; 2; 3]]> (<[target_file := [9; 9; 9; 9; 9]]> ∅)) ∅ 0 1.
Definition unused_library : lib_resources (bytes * bytes * bytes) :=
  mkLibResources ∅ ∅ ∅ None false.

Definition lab_copy : smb_op (Result bool) :=
  Smb_copy (on_share "x") None (QStringLiteral "/a") (on_share "y") None (QStringLiteral "b").

Lemma run_lib_copy : exists d' a,
  run_asking (fun B => @lib_serve B)
    (libsmb2_method 15 [] 9 lab_copy (mkCoreContext false false)) (two_shares, unused_library)
    = Some (Some a, (d', unused_library)) /\
  Result_ok a = true.
Proof.
  assert (match run_asking (fun B => @lib_serve B)
    (libsmb2_method 15 [] 9 lab_copy (mkCoreContext false false)) (two_shares, unused_library) with
    | Some (Some a, (d', r)) => Result_ok a && bool_decide (lr_sessions r = ∅)
        && bool_decide (lr_handles r = ∅) && bool_decide (lr_directories r = ∅)
        && bool_decide (lr_open r = None) && negb (lr_misused r)
    | _ => false end = true) as Hr by by vm_compute.
  destruct (run_asking _ _ _) as [[[a|] [d' [sessions handles directories o m]]]|]; try done.
  exists d', a. rewrite !andb_true_iff, !bool_decide_eq_true, negb_true_iff in Hr. cbn in Hr.
  destruct Hr as [[[[[Ha ->] ->] ->] ->] ->]. done.
Qed.

Lemma source_is_not_target : source_file <> target_file.
Proof. apply (bool_decide_eq_false_1 _). by vm_compute. Qed.

Lemma source_content : ld_files two_shares !! source_file = Some [1; 2; 3].
Proof. apply lookup_insert_eq. Qed.

Lemma two_shares_manageable : manageable (fun _ => []) 9 two_shares.
Proof.
  split_and!; [|done|cbn; lia|intros _; cbn; lia].
  apply (bool_decide_eq_true_1 _). by vm_compute.
Qed.

Lemma libsmb2_operations_witness : exists d' a,
  run_asking (fun B => @lib_serve B)
    (libsmb2_method 15 [] 9 lab_copy (mkCoreContext false false)) (two_shares, unused_library)
    = Some (Some a, (d', unused_library)) /\
  Result_ok a = true /\ ld_files d' !! target_file = Some [1; 2; 3] /\
  lib_left triple (fun _ => []) lab_copy two_shares d' a.
Proof.
  destruct run_lib_copy as (d' & a & Hrun & Ha). exists d', a. split; [exact Hrun|].
  split; [exact Ha|].
  pose proof (run_runs (fun B => lib_answers triple (fun _ => []) (B:=B)) (fun B => @lib_serve B)
    _ _ _ _ lib_serve_answers Hrun) as Hr.
  assert (well_used unused_library) as Hu by (split; apply map_Forall_empty).
  destruct (libsmb2_operations triple (fun _ => []) 15 [] 9 lab_copy (mkCoreContext false false)
    two_shares unused_library (Some a) (d', unused_library) Hu eq_refl two_shares_manageable Hr)
    as (d2 & a2 & Ha2 & Hd2 & Hl).
  injection Ha2 as <-. apply (f_equal fst) in Hd2. cbn [fst] in Hd2. subst d2.
  split; [|exact Hl]. destruct Hl as [_ Hl]. destruct (Hl Ha) as [_ He].
  fold source_file target_file in He.
  rewrite decide_False in He by exact source_is_not_target.
  rewrite He. exact source_content.
Defined.
