(* ===== verification/SmbclientResolver.v ===== *)
(** * The resolver that runs smbclient ([SmbclientDfsReferralResolver.cpp])

    Beside the client on libsmb2, which knows nothing of DFS, referrals are followed by
    the program [smbclient], which is asked to go to a directory and to say which share
    it is then connected to.  Processes, the temporary file with the credentials and
    the clock are behind calls.  The methods of the interface that it does not override
    ([DfsReferralResolver.h]) are here too; functions the source has again are those of
    DfsPaths.v and DfsResolver.v.

    Over a program that says truly which share a directory is in, it keeps the contract
    the DFS client is proved against ([resolves_paths] of DfsRuns.v); it leaves no
    process and no file with credentials behind. *)

From S2P Require Export DfsResolver.
Local Open Scope Z_scope.

Record SmbclientDfsTarget : Set := mkSmbclientDfsTarget {
  sdt_server : QString;
  sdt_share : QString
}.

(** [RunnableProgram] is [exists() && isFile() && isExecutable()]; [TempWrite] gives what
    [write] returns.  [RemoveTemp] and [DestroyProcess] are the destructors of the
    temporary file and of the process, which end both. *)
Inductive smbclient_call : Set -> Type :=
| ResolverCancelled : smbclient_call bool
| FindExecutable (name : QString) : smbclient_call QString
| ApplicationDirPath : smbclient_call QString
| RunnableProgram (path : QString) : smbclient_call bool
| TempOpen : smbclient_call bool
| TempOwnerOnly : smbclient_call unit
| TempWrite (content : bytes) : smbclient_call Z
| TempFlush : smbclient_call bool
| TempClose : smbclient_call unit
| TempFileName : smbclient_call QString
| RemoveTemp : smbclient_call unit
| StartProcess (program : QString) (arguments : list QString) : smbclient_call unit
| WaitForStarted (msecs : Z) : smbclient_call bool
| ProcessRunning : smbclient_call bool
| StartTimer : smbclient_call unit
| TimerElapsed : smbclient_call Z
| KillProcess : smbclient_call unit
| WaitForFinished (msecs : Z) : smbclient_call unit
| ReadAllOutput : smbclient_call bytes
| ExitedNormally : smbclient_call bool
| ProcessExitCode : smbclient_call Z
| DestroyProcess : smbclient_call unit.
Abbreviation smbclient := (asking smbclient_call).

(** What is used of Qt besides: [QDir(dir).filePath(name)], [absoluteFilePath], and the
    captures of the pattern in [parseSmbclientShowconnectTarget]. *)
Class QtPrograms : Type := {
  dirFilePath : QString -> QString -> QString;
  programPath : QString -> QString;
  matchTarget : QString -> option (QString * QString)
}.

Section smbclient_resolver.
Context `{Qt} `{!QtPrograms}.

Definition kPollIntervalMs : Z := 100.

Definition resolverCancelled (context : CoreContext) : smbclient bool :=
  if cc_cancellationToken context then ask ResolverCancelled else mret false.

Definition resolverError (code : AppErrorCode) (details : QString) (retryable : bool)
    : AppError :=
  fromCode code ErrorCategory_Smb details retryable.

Definition smbclient_uncPath (connection : Connection) : QString :=
  QStringLiteral "//" ++ con_server connection ++ [kSlash] ++ con_share connection.

Definition kQuote : Z := 0x22.

Definition smbclientQuotedPath (remotePath : QString) : QString :=
  let relative := dfs_normalizeRemotePath remotePath in
  let relative := if startsWith relative kSlash then removeAt relative 0 1 else relative in
  let relative := replaceText relative [kBackslash] [kBackslash; kBackslash] in
  replaceText relative [kQuote] [kBackslash; kQuote].

Definition smbclientCommandForPath (remotePath : QString) : QString :=
  let normalized := dfs_normalizeRemotePath remotePath in
  if bool_decide (normalized = [kSlash]) then QStringLiteral "showconnect"
  else QStringLiteral "cd " ++ [kQuote] ++ smbclientQuotedPath normalized ++ [kQuote]
       ++ QStringLiteral "; showconnect".

Definition isSameShare (connection : Connection) (target : SmbclientDfsTarget) : bool :=
  equalsIgnoringCase (con_server connection) (sdt_server target)
  && equalsIgnoringCase (con_share connection) (sdt_share target).

Definition credentialFileContent (connection : Connection) (secret : secret_pointer)
    : bytes :=
  let content := ascii_bytes "username=" ++ toStdString (con_username connection) ++ [10] in
  let content := content ++ ascii_bytes "password=" ++ default [] secret ++ [10] in
  if isEmpty (con_domain connection) then content
  else content ++ ascii_bytes "domain=" ++ toStdString (con_domain connection) ++ [10].

Definition sanitizedOutput (output : bytes) (secret : secret_pointer) : QString :=
  let sanitizer := match secret with
                   | Some (b :: bs) => addSecretValue [] (fromUtf8 (b :: bs))
                   | _ => []
                   end in
  sanitize_message sanitizer (fromUtf8 output).

(** The loop over the places beside the program. *)
Fixpoint first_runnable (candidates : list QString) : smbclient QString :=
  match candidates with
  | [] => mret []
  | candidate :: candidates =>
      runnable ← ask (RunnableProgram candidate);
      if runnable : bool then mret (programPath candidate) else first_runnable candidates
  end.

(** On Linux *)
Definition findSmbclientExecutable : smbclient QString :=
  let executableName := QStringLiteral "smbclient" in
  fromPath ← ask (FindExecutable executableName);
  if negb (isEmpty fromPath) then mret fromPath else
  appDir ← ask ApplicationDirPath;
  first_runnable
    [dirFilePath appDir executableName;
     dirFilePath appDir (QStringLiteral "bin/" ++ executableName);
     dirFilePath appDir (QStringLiteral "../bin/" ++ executableName);
     dirFilePath appDir (QStringLiteral "../Resources/bin/" ++ executableName)].

(** The loop over the lines. *)
Fixpoint first_target (lines : list QString) : option SmbclientDfsTarget :=
  match lines with
  | [] => None
  | line :: lines =>
      match matchTarget (trimmed line) with
      | Some (server, share) =>
          let target := mkSmbclientDfsTarget (trimmed server) (trimmed share) in
          if negb (isEmpty (sdt_server target)) && negb (isEmpty (sdt_share target))
          then Some target else first_target lines
      | None => first_target lines
      end
  end.

Definition parseSmbclientShowconnectTarget (output : QString) : option SmbclientDfsTarget :=
  first_target (split_nonempty output 10).

(** ** Running the program *)

Section running.
(** [m_timeoutMs], and a bound for the loop that waits. *)
Context (m_timeoutMs : Z) (fuel : nat).

Definition resolver_cancelled_error : AppError :=
  resolverError App_OperationCancelled
    (QStringLiteral "DFS referral resolution was cancelled.") false.

Definition resolver_fails {A} (error : AppError) : smbclient (Result (option A)) :=
  mret (Result_failure None error).

(** The arguments; the secret is not among them. *)
Definition smbclient_arguments (connection : Connection) (remotePath : QString)
    (authentication : list QString) : list QString :=
  [smbclient_uncPath connection; QStringLiteral "-m"; QStringLiteral "SMB3";
   QStringLiteral "-c"; smbclientCommandForPath remotePath] ++ authentication.

Definition kill_process : smbclient unit :=
  _ ← ask KillProcess;
  ask (WaitForFinished kPollIntervalMs).

(** The loop while the process runs: the error it ends with, if any. *)
Fixpoint wait_loop (fuel : nat) (context : CoreContext) : smbclient (option AppError) :=
  match fuel with
  | O => Halt
  | S fuel =>
      running ← ask ProcessRunning;
      if negb running then mret None else
      cancelled ← resolverCancelled context;
      if cancelled : bool then
        _ ← kill_process;
        mret (Some resolver_cancelled_error)
      else
      elapsed ← ask TimerElapsed;
      if m_timeoutMs <? elapsed then
        _ ← kill_process;
        mret (Some (resolverError App_Timeout
          (QStringLiteral "DFS referral resolution timed out.") true))
      else
      _ ← ask (WaitForFinished kPollIntervalMs);
      wait_loop fuel context
  end.

(** From the start of the process on, with its destructor. *)
Definition run_smbclient (program : QString) (arguments : list QString)
    (secret : secret_pointer) (context : CoreContext) (commandFailureIsError : bool)
    : smbclient (Result (option SmbclientDfsTarget)) :=
  _ ← ask (StartProcess program arguments);
  started ← ask (WaitForStarted 3000);
  if negb started then
    resolver_fails (resolverError App_ServerUnavailable
      (QStringLiteral "Unable to start smbclient for DFS referral resolution.") true)
  else
  _ ← ask StartTimer;
  waited ← wait_loop fuel context;
  match waited with
  | Some error => resolver_fails error
  | None =>
      output ← ask ReadAllOutput;
      normal ← ask ExitedNormally;
      exitCode ← (if normal : bool then ask ProcessExitCode else mret 0);
      if negb normal || negb (exitCode =? 0) then
        if negb commandFailureIsError then mret (Result_success None) else
        resolver_fails (resolverError App_ShareUnavailable
          (QStringLiteral "smbclient DFS referral resolution failed: "
           ++ sanitizedOutput output secret) false)
      else
      mret (Result_success (parseSmbclientShowconnectTarget (fromUtf8 output)))
  end.

Definition run_and_destroy (program : QString) (arguments : list QString)
    (secret : secret_pointer) (context : CoreContext) (commandFailureIsError : bool)
    : smbclient (Result (option SmbclientDfsTarget)) :=
  result ← run_smbclient program arguments secret context commandFailureIsError;
  _ ← ask DestroyProcess;
  mret result.

(** The credentials in a temporary file, for its owner only; its name, or an error. *)
Definition write_credentials (connection : Connection) (secret : secret_pointer)
    : smbclient (QString + AppError) :=
  let credentials := credentialFileContent connection secret in
  let fail text := mret (inr (resolverError App_LocalIoError (QStringLiteral text) false)) in
  opened ← ask TempOpen;
  if negb opened then
    fail ("Unable to create temporary credentials file for " +:+
          "DFS referral resolution.")
  else
  _ ← ask TempOwnerOnly;
  written ← ask (TempWrite credentials);
  flushed ← (if written =? blen credentials then ask TempFlush else mret false);
  if negb flushed then
    fail ("Unable to write temporary credentials file for " +:+
          "DFS referral resolution.")
  else
  _ ← ask TempClose;
  fileName ← ask TempFileName;
  mret (inl fileName).

Definition resolveTarget (connection : Connection) (secret : secret_pointer)
    (context : CoreContext) (remotePath : QString) (commandFailureIsError : bool)
    : smbclient (Result (option SmbclientDfsTarget)) :=
  cancelled ← resolverCancelled context;
  if cancelled : bool then resolver_fails resolver_cancelled_error else
  program ← findSmbclientExecutable;
  if isEmpty program then mret (Result_success None) else
  let run authentication :=
    run_and_destroy program (smbclient_arguments connection remotePath authentication)
      secret context commandFailureIsError in
  match con_authType connection with
  | AuthType_Password | AuthType_Guest =>
      written ← write_credentials connection secret;
      result ← match written with
               | inl fileName => run [QStringLiteral "-A"; fileName]
               | inr error => resolver_fails error
               end;
      _ ← ask RemoveTemp;
      mret result
  | AuthType_Anonymous => run [QStringLiteral "-N"]
  | AuthType_CurrentUser => mret (Result_success None)
  end.

(** ** The interface *)

(** The connection with the server and the share of the target. *)
Definition smbclient_connection (connection : Connection) (target : SmbclientDfsTarget)
    : Connection :=
  mkConnection (con_id connection) (normalizedUri (sdt_server target) (sdt_share target))
    (sdt_server target) (sdt_share target) (con_domain connection)
    (con_username connection) (con_authType connection).

(** The target, if it is another share. *)
Definition other_share (connection : Connection) (target : option SmbclientDfsTarget)
    : option SmbclientDfsTarget :=
  target ← target;
  if isSameShare connection target then None else Some target.

Definition smbclient_resolve (connection : Connection) (secret : secret_pointer)
    (context : CoreContext) : smbclient (Result (option Connection)) :=
  targetResult ← resolveTarget connection secret context [kSlash] true;
  mret (if negb (Result_ok targetResult) then Result_failure None (res_error targetResult)
        else Result_success (smbclient_connection connection
                               <$> other_share connection (res_value targetResult))).

Fixpoint segments_loop (count : nat) (connection : Connection) (secret : secret_pointer)
    (context : CoreContext) (segments : list QString) (i : Z)
    : smbclient (Result (option DfsResolvedPath)) :=
  match count with
  | O => mret (Result_success None)
  | S count =>
      let prefix := pathFromSegments segments (i + 1) in
      targetResult ← resolveTarget connection secret context prefix false;
      if negb (Result_ok targetResult) then resolver_fails (res_error targetResult) else
      match other_share connection (res_value targetResult) with
      | None => segments_loop count connection secret context segments (i + 1)
      | Some target =>
          mret (Result_success (Some (mkDfsResolvedPath
            (smbclient_connection connection target)
            (pathFromSegmentsAt segments (i + 1) (blen segments - i - 1))
            prefix [kSlash] 300)))
      end
  end.

Definition smbclient_resolvePath (connection : Connection) (secret : secret_pointer)
    (remotePath : QString) (context : CoreContext)
    : smbclient (Result (option DfsResolvedPath)) :=
  let normalized := dfs_normalizeRemotePath remotePath in
  if bool_decide (normalized = [kSlash]) then
    resolved ← smbclient_resolve connection secret context;
    mret (if negb (Result_ok resolved) then Result_failure None (res_error resolved)
          else Result_success ((fun c => mkDfsResolvedPath c [kSlash] [kSlash] [kSlash] 300)
                                 <$> res_value resolved))
  else
    let segments := remotePathSegments normalized in
    segments_loop (length segments) connection secret context segments 0.

(** [resolveTargets] and [resolvePathTargets] of the interface *)
Definition default_resolveTargets (connection : Connection) (secret : secret_pointer)
    (context : CoreContext) : smbclient (Result (list DfsResolvedConnection)) :=
  resolved ← smbclient_resolve connection secret context;
  mret (if negb (Result_ok resolved) then Result_failure [] (res_error resolved)
        else Result_success
               (option_list ((fun c => mkDfsResolvedConnection c 300) <$> res_value resolved))).

Definition default_resolvePathTargets (connection : Connection) (secret : secret_pointer)
    (remotePath : QString) (context : CoreContext)
    : smbclient (Result (list DfsResolvedPath)) :=
  resolved ← smbclient_resolvePath connection secret remotePath context;
  mret (if negb (Result_ok resolved) then Result_failure [] (res_error resolved)
        else Result_success (option_list (res_value resolved))).

End running.
End smbclient_resolver.

(** * What the resolver returns *)

From S2P Require Export ResolverRuns.
Local Open Scope Z_scope.

Section smbclient_runs.
Context `{Qt} `{!QtLaws} `{!QtPrograms}.
Context {O : Type} (located : QString -> list QString -> O).
Context (strict : Prop) (entered : QString -> list QString -> Prop).

(** The program that is found in the path, the place of this one, and which files can be
    run; what smbclient prints for a share and a command when it succeeds. *)
Context (inPath appDir : QString) (runnable : QString -> bool).
Context (prints : QString -> QString -> option bytes).

(** The arguments of every start so far, those of the process there is, whether it
    runs, whether there is a temporary file, and the time on the timer. *)
Record process_world : Set := mkProcessWorld {
  pw_started : list (list QString);
  pw_arguments : list QString;
  pw_running : bool;
  pw_file : bool;
  pw_elapsed : Z
}.

Definition with_running (running : bool) (w : process_world) : process_world :=
  mkProcessWorld (pw_started w) (pw_arguments w) running (pw_file w) (pw_elapsed w).
Definition with_file (file : bool) (w : process_world) : process_world :=
  mkProcessWorld (pw_started w) (pw_arguments w) (pw_running w) file (pw_elapsed w).
Definition with_elapsed (elapsed : Z) (w : process_world) : process_world :=
  mkProcessWorld (pw_started w) (pw_arguments w) (pw_running w) (pw_file w) elapsed.
Definition with_started (arguments : list QString) (running : bool) (w : process_world)
    : process_world :=
  mkProcessWorld (pw_started w ++ [arguments]) arguments running (pw_file w) (pw_elapsed w).

(** What the process prints if it succeeds. *)
Definition printed (w : process_world) : option bytes :=
  match pw_arguments w with
  | unc :: _ :: _ :: _ :: command :: _ => prints unc command
  | _ => None
  end.

(** Waiting ends with the process, or takes time. The process ends well exactly if there
    is something to print. *)
Definition process_answers {B : Set} (c : smbclient_call B)
    : process_world -> B -> process_world -> Prop :=
  match c in smbclient_call B return process_world -> B -> process_world -> Prop with
  | ResolverCancelled | TempOwnerOnly | TempWrite _ | TempFlush | TempClose | TempFileName
  | WaitForStarted _ | KillProcess => fun w _ w' => w' = w
  | FindExecutable _ => fun w found w' => found = inPath /\ w' = w
  | ApplicationDirPath => fun w dir w' => dir = appDir /\ w' = w
  | RunnableProgram path => fun w b w' => b = runnable path /\ w' = w
  | TempOpen => fun w opened w' => w' = with_file opened w
  | RemoveTemp => fun w _ w' => w' = with_file false w
  | StartProcess _ arguments => fun w _ w' =>
      exists running, w' = with_started arguments running w
  | ProcessRunning => fun w running w' =>
      w' = with_running running w /\ (running = true -> pw_running w = true)
  | StartTimer => fun w _ w' => w' = with_elapsed 0 w
  | TimerElapsed => fun w elapsed w' => pw_elapsed w <= elapsed /\ w' = with_elapsed elapsed w
  | WaitForFinished _ => fun w _ w' =>
      w' = with_running false w \/
      exists elapsed, pw_elapsed w < elapsed /\ w' = with_elapsed elapsed w
  | ReadAllOutput => fun w output w' =>
      w' = w /\ forall text, printed w = Some text -> output = text
  | ExitedNormally => fun w normal w' => w' = w /\ (normal = false -> printed w = None)
  | ProcessExitCode => fun w code w' => w' = w /\ (code = 0 <-> is_Some (printed w))
  | DestroyProcess => fun w _ w' => w' = with_running false w
  end.

Abbreviation process_wp p w Q := (awp (fun B => @process_answers B) False p w Q).

(** Where the server says a directory is. *)
Definition shown (c : Connection) (l : list QString) : option SmbclientDfsTarget :=
  output ← prints (smbclient_uncPath c) (smbclientCommandForPath (to_path l));
  parseSmbclientShowconnectTarget (fromUtf8 output).

(** The program, if it is found. *)
Definition program_found : QString :=
  if negb (isEmpty inPath) then inPath else
  match List.find runnable
    [dirFilePath appDir (QStringLiteral "smbclient");
     dirFilePath appDir (QStringLiteral "bin/" ++ QStringLiteral "smbclient");
     dirFilePath appDir (QStringLiteral "../bin/" ++ QStringLiteral "smbclient");
     dirFilePath appDir (QStringLiteral "../Resources/bin/" ++ QStringLiteral "smbclient")] with
  | Some candidate => programPath candidate
  | None => []
  end.

(** Whether the resolver can run it for a connection. *)
Definition runs_for (c : Connection) : bool :=
  negb (isEmpty program_found) && negb (bool_decide (con_authType c = AuthType_CurrentUser)).

Definition told (c : Connection) (l : list QString) : option SmbclientDfsTarget :=
  if runs_for c then shown c l else None.

(** A start for a path of a connection. *)
Definition started_for (c : Connection) (arguments : list QString) : Prop :=
  exists path authentication, arguments = smbclient_arguments c path authentication /\
    (authentication = [QStringLiteral "-N"] \/
     exists fileName, authentication = [QStringLiteral "-A"; fileName]).

(** No process runs, and there is no temporary file; only such starts were added. *)
Definition left_behind (c : Connection) (w w' : process_world) : Prop :=
  pw_running w' = false /\ pw_file w' = false /\
  exists starts, pw_started w' = pw_started w ++ starts /\ Forall (started_for c) starts.

Lemma left_behind_trans c w w1 w' :
  left_behind c w w1 -> left_behind c w1 w' -> left_behind c w w'.
Proof.
  intros (_ & _ & s1 & H1' & Hs1) (Hr & Hf & s2 & H2' & Hs2). split; [done|]. split; [done|].
  exists (s1 ++ s2). rewrite H2', H1', (assoc_L (++)). split; [done|]. by apply Forall_app.
Qed.

Definition idle (w : process_world) : Prop := pw_running w = false /\ pw_file w = false.

Lemma left_behind_refl c w : idle w -> left_behind c w w.
Proof. intros [Hr Hf]. split; [done|]. split; [done|]. exists []. by rewrite app_nil_r. Qed.

Lemma process_tell {A} {B : Set} (c : smbclient_call B) (f : B -> smbclient A) w Q :
  (forall b w', process_answers c w b w' -> w' = w) ->
  (forall b, process_wp (f b) w Q) -> process_wp (ask c ≫= f) w Q.
Proof. intros Hc Hf. apply awp_ask. intros b w' Hb. rewrite (Hc b w' Hb). apply Hf. Qed.

Lemma process_cancelled {A} context (f : bool -> smbclient A) w Q :
  (forall b, process_wp (f b) w Q) -> process_wp (resolverCancelled context ≫= f) w Q.
Proof.
  intros Hf. unfold resolverCancelled. destruct (cc_cancellationToken context); [|apply Hf].
  by apply process_tell.
Qed.

Lemma wp_find w (Q : process_world -> QString -> Prop) :
  Q w program_found -> process_wp findSmbclientExecutable w Q.
Proof.
  intros HQ. unfold findSmbclientExecutable, program_found in *. apply awp_ask.
  intros found w' [-> ->]. destruct (negb (isEmpty inPath)); [exact HQ|].
  apply awp_ask. intros dir w' [-> ->]. revert HQ.
  generalize (dirFilePath appDir (QStringLiteral "smbclient")) as p1.
  generalize (dirFilePath appDir (QStringLiteral "bin/" ++ QStringLiteral "smbclient")) as p2.
  generalize (dirFilePath appDir (QStringLiteral "../bin/" ++ QStringLiteral "smbclient")) as p3.
  generalize
    (dirFilePath appDir (QStringLiteral "../Resources/bin/" ++ QStringLiteral "smbclient")) as p4.
  intros p4 p3 p2 p1. generalize [p1; p2; p3; p4] as l. intros l.
  induction l as [|p l IH]; cbn [List.find first_runnable]; [done|]. intros HQ.
  apply awp_ask. intros b w' [-> ->]. destruct (runnable p); [exact HQ|by apply IH].
Qed.

(** The process is ended or killed before its time is up. *)
Lemma wp_wait_loop timeout fuel context w :
  (Z.to_nat (timeout + 1 - pw_elapsed w) + 1 < fuel)%nat ->
  process_wp (wait_loop timeout fuel context) w (fun w' error =>
    pw_started w' = pw_started w /\ pw_arguments w' = pw_arguments w /\
    pw_file w' = pw_file w /\ forall e, error = Some e -> hasError e = true).
Proof.
  assert (forall e w, hasError e = true -> process_wp (_ ← kill_process; mret (Some e)) w
    (fun w' error => pw_started w' = pw_started w /\ pw_arguments w' = pw_arguments w /\
      pw_file w' = pw_file w /\ forall e, error = Some e -> hasError e = true)) as Hkill.
  { intros e w0 He. apply awp_bind. apply process_tell; [done|]. intros u v w' Hw.
    destruct Hw as [->|(t & _ & ->)]; (split_and!; [done..|]; by intros e' [= <-]). }
  revert w. induction fuel as [|fuel IH]; intros w Hf; [lia|]. cbn [wait_loop].
  apply awp_ask. intros running w' [-> Hr]. destruct running; cbn [negb]; [|done].
  apply process_cancelled.
  intros []; [eapply awp_mono; [by apply Hkill|]; by intros|].
  apply awp_ask. intros elapsed w' [Hle ->]. cbn [pw_elapsed with_running] in Hle.
  destruct (Z.ltb_spec timeout elapsed) as [Hlt|Hge].
  { eapply awp_mono; [by apply Hkill|]; by intros. }
  apply awp_ask. intros u w' [->|(t & Ht & ->)].
  - destruct fuel as [|fuel]; [lia|]. cbn [wait_loop]. apply awp_ask.
    intros [] w' [-> Hrun]; [|done]. by specialize (Hrun eq_refl).
  - eapply awp_mono; [apply IH; cbn in *; lia|]. by intros.
Qed.

Context (timeout : Z) (fuel : nat).
Hypothesis enough : (Z.to_nat (timeout + 1) + 1 < fuel)%nat.

Lemma process_fails {A} e w (Q : process_world -> Result (option A) -> Prop) :
  hasError e = true -> (forall r, Result_ok r = false -> Q w r) ->
  process_wp (resolver_fails e) w Q.
Proof.
  intros He HQ. apply HQ. unfold Result_ok. cbn [res_error Result_failure]. by rewrite He.
Qed.

(** One start of the program, for a path. *)
Lemma wp_run c l program authentication secret context flag w :
  process_wp (run_and_destroy timeout fuel program
      (smbclient_arguments c (to_path l) authentication) secret context flag) w
    (fun w' r =>
       pw_started w' = pw_started w ++ [smbclient_arguments c (to_path l) authentication] /\
       pw_running w' = false /\ pw_file w' = pw_file w /\
       (Result_ok r = true -> res_value r = shown c l)).
Proof.
  set (arguments := smbclient_arguments c (to_path l) authentication).
  assert (process_wp (run_smbclient timeout fuel program arguments secret context flag) w
    (fun w' r => pw_started w' = pw_started w ++ [arguments] /\ pw_file w' = pw_file w /\
       (Result_ok r = true -> res_value r = shown c l))) as Hrun.
  2: { apply awp_bind. eapply awp_mono; [exact Hrun|]. intros w' r (Hs & Hf & Hv).
       apply awp_ask. by intros u w2 ->. }
  apply awp_ask. intros u w' [running ->].
  set (w1 := with_started arguments running w).
  apply process_tell; [done|]. intros [|]; cbn [negb].
  2: { apply process_fails; [done|]. intros r Hr. split_and!; [done|done|by rewrite Hr]. }
  apply awp_ask. intros u2 w' ->. apply awp_bind.
  eapply awp_mono; [apply wp_wait_loop; cbn; lia|].
  intros w2 waited (Hs & Ha & Hf & He). cbn in Hs, Ha, Hf.
  destruct waited as [e|].
  { apply process_fails; [by apply He|]. intros r Hr. split_and!; [done|done|by rewrite Hr]. }
  assert (printed w2 = prints (smbclient_uncPath c) (smbclientCommandForPath (to_path l))) as Hp
    by (unfold printed; by rewrite Ha).
  assert (forall (b : bool) r, printed w2 = None ->
    (b = false -> r = Result_success None) -> (b = true -> Result_ok r = false) ->
    pw_started w2 = pw_started w ++ [arguments] /\ pw_file w2 = pw_file w /\
       (Result_ok r = true -> res_value r = shown c l)) as Hbad.
  { intros [] r Hn Hr1 Hr2; (split_and!; [done|done|]).
    - by rewrite Hr2.
    - rewrite Hr1 by done. intros _. unfold shown. by rewrite <- Hp, Hn. }
  apply awp_ask. intros output w' [-> Hout]. apply awp_ask. intros normal w' [-> Hnormal].
  destruct normal; cbn [negb orb].
  - apply awp_ask. intros code w' [-> Hcode].
    destruct (Z.eqb_spec code 0) as [Hz|Hz]; cbn [negb].
    + apply Hcode in Hz as [text Ht]. split_and!; [done|done|]. intros _. cbn.
      rewrite (Hout _ Ht). unfold shown. by rewrite <- Hp, Ht.
    + assert (printed w2 = None) as Hn.
      { destruct (printed w2); [|done]. destruct Hz. apply Hcode. by eexists. }
      destruct flag; cbn [negb]; [|by apply (Hbad false)].
      apply process_fails; [done|]. intros r Hr. by apply (Hbad true).
  - destruct flag; cbn [negb]; [|by apply (Hbad false); [apply Hnormal|..]].
    apply process_fails; [done|]. intros r Hr. by apply (Hbad true); [apply Hnormal|..].
Qed.

Lemma wp_credentials c secret w :
  process_wp (write_credentials c secret) w (fun w' written =>
    (exists file, w' = with_file file w) /\
    match written with inl _ => True | inr e => hasError e = true end).
Proof.
  apply awp_ask. intros opened w' ->. destruct opened; cbn [negb]; [|split; [by eexists|done]].
  apply process_tell; [done|]. intros u. apply process_tell; [done|]. intros written.
  destruct (written =? blen (credentialFileContent c secret)).
  - apply process_tell; [done|]. intros [|]; cbn [negb]; [|split; [by eexists|done]].
    apply process_tell; [done|]. intros v. apply process_tell; [done|]. intros name.
    split; [by eexists|done].
  - cbn. split; [by eexists|done].
Qed.

Lemma wp_resolveTarget c l secret context flag w :
  idle w ->
  process_wp (resolveTarget timeout fuel c secret context (to_path l) flag) w
    (fun w' r => left_behind c w w' /\ (Result_ok r = true -> res_value r = told c l)).
Proof.
  intros Hi. pose proof (left_behind_refl c w Hi) as Hself.
  unfold resolveTarget. apply process_cancelled. intros [].
  { apply process_fails; [done|]. intros r Hr. split; [done|by rewrite Hr]. }
  apply awp_bind, wp_find. unfold told, runs_for.
  destruct (isEmpty program_found); cbn [negb andb]; [done|].
  destruct (con_authType c) eqn:Hauth.
  4: { done. }
  3: { eapply awp_mono; [apply wp_run|]. intros w' r (Hs & Hr & Hf & Hv).
       rewrite bool_decide_eq_false_2 by done. split; [|exact Hv].
       split; [done|]. split; [rewrite Hf; apply Hi|]. eexists. split; [exact Hs|].
       apply Forall_singleton. eexists _, _. split; [done|by left]. }
  all: rewrite bool_decide_eq_false_2 by done; apply awp_bind;
    (eapply awp_mono; [apply wp_credentials|]); intros w1 [fileName|e] [[file ->] He].
  all: apply awp_bind.
  1, 3: (eapply awp_mono; [apply wp_run|]); intros w' r (Hs & Hr & Hf & Hv);
    apply awp_ask; intros u w2 ->; split; [|exact Hv]; split; [done|]; split; [done|];
    eexists; (split; [exact Hs|]); apply Forall_singleton; eexists _, _;
    (split; [done|]); right; by eexists.
  all: apply process_fails; [done|]; intros r Hr; apply awp_ask; intros u w2 ->;
    (split; [|by rewrite Hr]); split; [apply Hi|]; split; [done|]; exists [];
    by rewrite app_nil_r.
Qed.

(** ** What it says *)

(** The first directory of a path that is in another share is the root of that share:
    what a link of the server's name space does. *)
Definition links_shown (c : Connection) : Prop := forall l target,
  tidy l -> other_share c (shown c l) = Some target ->
  (forall l1, l1 `prefix_of` l -> l1 <> l -> other_share c (shown c l1) = None) ->
  truthful located strict entered (cacheKey c) l [] (smbclient_connection c target).

Lemma told_other c l target :
  other_share c (told c l) = Some target ->
  runs_for c = true /\ other_share c (shown c l) = Some target.
Proof. unfold told. by destruct (runs_for c). Qed.

Lemma told_none c l : runs_for c = true -> other_share c (told c l) = None ->
  other_share c (shown c l) = None.
Proof. unfold told. by intros ->. Qed.

(** A path that is found to start from [l]. *)
Lemma found_truthful c path l target rest :
  links_shown c -> tidy (path_segments path) -> l `prefix_of` path_segments path ->
  other_share c (told c l) = Some target ->
  (forall l1, l1 `prefix_of` l -> l1 <> l -> other_share c (shown c l1) = None) ->
  resolves_paths located strict entered c path (Result_success
    [mkDfsResolvedPath (smbclient_connection c target) rest (to_path l) [kSlash] 300]).
Proof.
  intros Hl Ht Hp Htold Hfirst _. pose proof (tidy_prefix _ _ Hp Ht) as Htl.
  apply told_other in Htold as [_ Hshown]. exists l. split; [done|].
  assert (path_segments [kSlash] = []) as Hroot by (apply (tidy_path []); constructor).
  apply Forall_singleton. cbn. rewrite or_else_path, tidy_path, Hroot by done.
  split; [done|]. by apply Hl.
Qed.

Lemma none_resolves c path :
  resolves_paths located strict entered c path (Result_success []).
Proof. intros _. exists []. split; [apply prefix_nil|constructor]. Qed.

Lemma failed_resolves c path (r : Result (list DfsResolvedPath)) :
  Result_ok r = false -> resolves_paths located strict entered c path r.
Proof. intros Hr Hok. congruence. Qed.

(** What the method returns for a path, as the list of the default method. *)
Definition returns_path (c : Connection) (path : QString) (r : Result (option DfsResolvedPath))
    : Prop :=
  Result_ok r = true ->
  resolves_paths located strict entered c path (Result_success (option_list (res_value r))).

Lemma wp_segments_loop count c secret context path i w :
  idle w -> links_shown c -> tidy (path_segments path) ->
  (i + count = length (path_segments path))%nat ->
  (runs_for c = true -> forall j, (j <= i)%nat ->
     other_share c (shown c (take j (path_segments path))) = None) ->
  process_wp (segments_loop timeout fuel count c secret context (path_segments path)
      (Z.of_nat i)) w
    (fun w' r => left_behind c w w' /\ returns_path c path r).
Proof.
  intros Hi Hl Ht. revert i w Hi. induction count as [|count IH]; intros i w Hi Hn Hnone.
  { cbn. split; [by apply left_behind_refl|]. intros _. apply none_resolves. }
  set (l := path_segments path) in *. cbn [segments_loop].
  rewrite pathFromSegments_path by (unfold blen; lia).
  replace (Z.to_nat (Z.of_nat i + 1)) with (S i) by lia.
  apply awp_bind. eapply awp_mono; [by apply wp_resolveTarget|]. intros w1 r [Hw1 Hr].
  destruct (Result_ok r) eqn:Hok; cbn [negb].
  2: { split; [done|]. intros Ho. unfold Result_ok in *. cbn in Ho. congruence. }
  rewrite (Hr eq_refl). destruct (other_share c (told c (take (S i) l))) as [target|] eqn:Ho.
  - split; [done|]. intros _. cbn [res_value Result_success option_list].
    pose proof (told_other _ _ _ Ho) as [Hruns _].
    apply (found_truthful c path (take (S i) l) target); try done; [apply prefix_take|].
    intros l1 Hp1 Hne.
    assert (l1 = take (length l1) l /\ (length l1 <= i)%nat) as [He Hlen].
    { pose proof (prefix_length _ _ Hp1) as Hle. rewrite length_take in Hle.
      assert (l1 `prefix_of` l) as [k Hk] by (etrans; [exact Hp1|apply prefix_take]).
      split; [by rewrite Hk, take_app_length|].
      destruct (decide (length l1 = S i)) as [He|]; [|lia]. destruct Hne.
      rewrite Hk. by rewrite <- He, take_app_length. }
    rewrite He. by apply Hnone.
  - replace (Z.of_nat i + 1) with (Z.of_nat (S i)) by lia.
    eapply awp_mono; [apply IH|].
    + split; apply Hw1.
    + lia.
    + intros Hruns j Hj. destruct (decide (j = S i)) as [->|]; [by apply told_none|].
      apply Hnone; [done|lia].
    + intros w2 r2 [Hw2 Hr2]. split; [by eapply left_behind_trans|done].
Qed.

Lemma wp_resolve c secret context w :
  idle w ->
  process_wp (smbclient_resolve timeout fuel c secret context) w
    (fun w' r => left_behind c w w' /\ (Result_ok r = true ->
       res_value r = smbclient_connection c <$> other_share c (told c []))).
Proof.
  intros Hi. apply awp_bind. eapply awp_mono; [by apply (wp_resolveTarget c [])|].
  intros w1 r [Hw1 Hr]. cbn. split; [done|]. destruct (Result_ok r) eqn:Hok; cbn [negb].
  - intros _. cbn. by rewrite Hr.
  - unfold Result_ok in *. cbn. congruence.
Qed.

Lemma normalize_tidy path :
  tidy (path_segments path) ->
  dfs_normalizeRemotePath path = to_path (path_segments path) /\
  remotePathSegments (dfs_normalizeRemotePath path) = path_segments path.
Proof.
  intros Ht. rewrite normalize_segments, remotePathSegments_path. split; [done|].
  by apply tidy_path.
Qed.

(** The resolver on smbclient tells the truth and cleans up. Take a program that
    prints, for every directory it can enter, the share the directory is in, and a
    server where the first directory of a path that is in another share is the root of
    that share, while the root of the connection is in the share of the connection. Then
    resolving a path ends. If it succeeds, the path it returns starts from a prefix of
    the path and its connection is the same place of the name space as that prefix, as
    the DFS client asks of a resolver. Success or not, no process is left and no file
    with credentials, and what the processes were started with is the share, a command
    for a path, and the name of that file, but no secret. *)
Theorem smbclient_tells_truth c secret path context w o w' :
  tidy (path_segments path) -> idle w -> links_shown c ->
  (path_segments path <> [] -> other_share c (shown c []) = None) ->
  asks (fun B => @process_answers B)
    (default_resolvePathTargets timeout fuel c secret path context) w o w' ->
  exists r, o = Some r /\ resolves_paths located strict entered c path r /\
    left_behind c w w'.
Proof.
  intros Ht Hi Hl Hroot Hrun.
  assert (process_wp (smbclient_resolvePath timeout fuel c secret path context) w
    (fun w' r => left_behind c w w' /\ returns_path c path r)) as Hpath.
  { destruct (normalize_tidy _ Ht) as [Hnorm Hsegs]. unfold smbclient_resolvePath.
    rewrite Hnorm, (bool_decide_ext _ _ (to_path_root _ (path_segments_valid path))).
    case_bool_decide as Hempty.
    - apply awp_bind. eapply awp_mono; [by apply wp_resolve|]. intros w1 r [Hw1 Hr].
      split; [done|]. destruct (Result_ok r) eqn:Hok; cbn [negb].
      2: { intros Ho. unfold Result_ok in *. cbn in Ho. congruence. }
      intros _. cbn [res_value Result_success]. rewrite (Hr eq_refl).
      destruct (other_share c (told c [])) as [target|] eqn:Ho; [|apply none_resolves].
      apply (found_truthful c path [] target); try done; [by apply prefix_nil|].
      by intros l1 ->%prefix_nil_inv.
    - rewrite <- Hnorm, Hsegs. apply (wp_segments_loop _ c secret context path 0); try done.
      intros Hruns j Hj. replace j with 0%nat by lia. by apply Hroot. }
  assert (process_wp (default_resolvePathTargets timeout fuel c secret path context) w
    (fun w' r => left_behind c w w' /\ resolves_paths located strict entered c path r)) as Hw.
  { apply awp_bind. eapply awp_mono; [exact Hpath|]. intros w1 r [Hw1 Hr]. split; [done|].
    destruct (Result_ok r) eqn:Hok; cbn [negb]; [by apply Hr|].
    apply failed_resolves. unfold Result_ok in *. done. }
  eapply awp_runs in Hrun; [|exact Hw]. destruct o as [r|]; [|done].
  destruct Hrun as [Hleft Hr]. by exists r.
Qed.

End smbclient_runs.

(** ** A server whose directories are links *)

(** The captures in a line that has no space before the share. *)
Definition match_target (line : QString) : option (QString * QString) :=
  match line with
  | 47 :: 47 :: rest =>
      match split_on kSlash rest with
      | server :: share => Some (server, QtText.join share [kSlash])
      | [] => None
      end
  | _ => None
  end.

#[export] Instance sample_programs : QtPrograms := {|
  dirFilePath dir name := dir ++ [kSlash] ++ name;
  programPath path := path;
  matchTarget := match_target
|}.

(** Every directory of the share leads to the share on the other server. *)
Definition linked_prints (unc command : QString) : option bytes :=
  Some (if bool_decide (command = text "showconnect") then text "//ns/x" else text "//srv/x").

Definition beyond : Connection :=
  smbclient_connection ns (mkSmbclientDfsTarget (text "srv") (text "x")).

Definition linked_place (key : QString) (l : list QString) : QString * list QString :=
  if bool_decide (key = cacheKey ns)
  then match l with [] => (key, []) | _ :: rest => (cacheKey beyond, rest) end else (key, l).

Definition program_serve {B : Set} (c : smbclient_call B)
    : process_world -> option (B * process_world) :=
  match c in smbclient_call B return process_world -> option (B * process_world) with
  | ResolverCancelled => fun w => Some (false, w)
  | FindExecutable _ => fun w => Some (text "/smbclient", w)
  | TempOpen => fun w => Some (true, with_file true w)
  | TempOwnerOnly | TempClose => fun w => Some (tt, w)
  | TempWrite content => fun w => Some (blen content, w)
  | TempFlush | WaitForStarted _ => fun w => Some (true, w)
  | TempFileName => fun w => Some (text "/tmp/x", w)
  | RemoveTemp => fun w => Some (tt, with_file false w)
  | StartProcess _ arguments => fun w => Some (tt, with_started arguments true w)
  | ProcessRunning => fun w => Some (pw_running w, with_running (pw_running w) w)
  | StartTimer => fun w => Some (tt, with_elapsed 0 w)
  | TimerElapsed => fun w => Some (pw_elapsed w, with_elapsed (pw_elapsed w) w)
  | WaitForFinished _ => fun w =>
      Some (tt, if pw_elapsed w <? 100 then with_elapsed (pw_elapsed w + 100) w
                else with_running false w)
  | ReadAllOutput => fun w => Some (default [] (printed linked_prints w), w)
  | ExitedNormally => fun w => Some (true, w)
  | ProcessExitCode => fun w =>
      Some (if bool_decide (is_Some (printed linked_prints w)) then 0 else 1, w)
  | DestroyProcess => fun w => Some (tt, with_running false w)
  | _ => fun _ => None
  end.

Abbreviation program_answers :=
  (fun B => @process_answers (text "/smbclient") [] (fun _ => false) linked_prints B).

Lemma program_serve_answers (B : Set) (c : smbclient_call B) w b w' :
  program_serve c w = Some (b, w') -> program_answers B c w b w'.
Proof.
  destruct c; cbn [program_serve process_answers]; try done; try (by intros [= <- <-]);
    try (by intros [= _ <-]).
  - intros [= <- <-]. by eexists.
  - intros [= <- <-]. destruct (Z.ltb_spec (pw_elapsed w) 100); [|by left]. right. eexists. split; [|done]. lia.
  - intros [= <- <-]. split; [done|]. by intros text ->.
  - intros [= <- <-]. split; [done|].
    case_bool_decide as Hp; [by split|]. split; [done|]. by intros ?%Hp.
Qed.

Lemma shown_root : shown linked_prints ns [] = Some (mkSmbclientDfsTarget (text "ns") (text "x")).
Proof. by vm_compute. Qed.

Lemma shown_below w l :
  tidy (w :: l) ->
  shown linked_prints ns (w :: l) = Some (mkSmbclientDfsTarget (text "srv") (text "x")).
Proof.
  intros Ht. unfold shown, linked_prints. rewrite bool_decide_eq_false_2; [by vm_compute|].
  unfold smbclientCommandForPath. rewrite tidy_normalize by done.
  rewrite bool_decide_eq_false_2; [by destruct (smbclientQuotedPath _)|].
  rewrite (to_path_root _ (tidy_segments _ Ht)). done.
Qed.

Lemma directories_linked :
  links_shown linked_place False (fun _ _ => True) linked_prints ns.
Proof.
  intros l target Ht Ho Hfirst. destruct l as [|w l]; [by rewrite shown_root in Ho|].
  rewrite shown_below in Ho by done. destruct l as [|v l].
  2: { assert (tidy [w]) as Hw by (eapply tidy_prefix; [|exact Ht]; by exists (v :: l)).
       specialize (Hfirst [w]). rewrite shown_below in Hfirst by done.
       specialize (Hfirst ltac:(by exists (v :: l)) ltac:(done)). congruence. }
  assert (smbclient_connection ns target = beyond) as ->.
  { assert (target = mkSmbclientDfsTarget (text "srv") (text "x")) as ->; [|done].
    revert Ho. vm_compute. by intros [= <-]. }
  split; [|by apply tidy_neat|by intros ? ? [= <-]|done|done].
  intros rest. unfold linked_place. rewrite bool_decide_eq_true_2 by done.
  by rewrite bool_decide_eq_false_2 by by_decision.
Qed.

Definition no_processes : process_world := mkProcessWorld [] [] false false 0.

(** The password is in the file, and nowhere else. *)
Lemma run_smbclient_resolver :
  run_asking (fun B => @program_serve B)
    (default_resolvePathTargets 1000 1100 ns (Some [112; 119]) (text "/docs/f") sample_context)
    no_processes =
  Some (Some (Result_success
    [mkDfsResolvedPath beyond (text "/f") (text "/docs") [kSlash] 300]),
    mkProcessWorld [[text "//ns/x"; text "-m"; text "SMB3"; text "-c";
      text ("cd " +:+ quote +:+ "docs" +:+ quote +:+ "; showconnect"); text "-A"; text "/tmp/x"]]
      [text "//ns/x"; text "-m"; text "SMB3"; text "-c";
      text ("cd " +:+ quote +:+ "docs" +:+ quote +:+ "; showconnect"); text "-A"; text "/tmp/x"]
      false false 100).
Proof. by vm_compute. Qed.

(** The theorem at a path of this server. *)
Lemma smbclient_tells_truth_example : exists r w',
  run_asking (fun B => @program_serve B)
    (default_resolvePathTargets 1000 1100 ns (Some [112; 119]) (text "/docs/f") sample_context)
    no_processes = Some (Some r, w') /\
  length (res_value r) = 1%nat /\
  resolves_paths linked_place False (fun _ _ => True) ns (text "/docs/f") r /\
  left_behind ns no_processes w'.
Proof.
  eexists _, _. split; [exact run_smbclient_resolver|]. split; [reflexivity|].
  pose proof run_smbclient_resolver as Hrun.
  apply (run_runs program_answers _ _ _ _ _ program_serve_answers) in Hrun.
  pose proof (smbclient_tells_truth linked_place False (fun _ _ => True) (text "/smbclient") []
    (fun _ => false) linked_prints 1000 1100 ltac:(lia) ns (Some [112; 119]) (text "/docs/f")
    sample_context no_processes) as Hall.
  edestruct Hall as (r & Hr & Hp & Hleft);
    [|done|exact directories_linked|by intros _; rewrite shown_root|exact Hrun|].
  - repeat constructor; try (by_decision); intros w c; vm_compute; by intros [= <-] [= <-].
  - injection Hr as <-. by split.
Qed.
