(* ===== verification/StatusPanel.v ===== *)
(** * The status panel ([StatusPanel.cpp])

    The panel shows the state of a connection, the last error and one operation of the
    queue, which its button cancels.  It hears of operations through the snapshots that
    the threads of the queue (OperationQueue.v) post to the thread of the interface,
    where they are handled one after the other, some time later.  [panel_and_queue] is
    the panel and the queue together. *)

From stdpp Require Import gmap.
From S2P Require Export OperationQueue QtText.
Local Open Scope Z_scope.

(** [tr(text).arg(...)], with all arguments at once. *)
Class QtLabels : Type := {
  trArgs : string -> list QString -> QString
}.

(** [QProgressBar] from 0 on; it has no value after [reset]. *)
Record ProgressBar : Set := mkProgressBar {
  pb_maximum : Z;
  pb_value : option Z
}.

(** [setRange(0, maximum)] resets a bar whose value is outside; [setValue] leaves the
    bar alone if the value is, but for a bar without an end. *)
Definition setRange (maximum : Z) (bar : ProgressBar) : ProgressBar :=
  mkProgressBar maximum
    (value ← pb_value bar; if maximum <? value then None else Some value).
Definition setValue (value : Z) (bar : ProgressBar) : ProgressBar :=
  if ((value <? 0) || (pb_maximum bar <? value)) && negb (pb_maximum bar =? 0) then bar
  else mkProgressBar (pb_maximum bar) (Some value).

(** A label and its tool tip. *)
Record Label : Set := mkLabel {
  lb_text : QString;
  lb_toolTip : QString
}.

Record StatusPanel : Set := mkStatusPanel {
  sp_bound : bool;
  sp_sanitizer : LogSanitizer;
  sp_connectionStatus : Label;
  sp_lastError : Label;
  sp_activeOperation : Label;
  sp_progress : ProgressBar;
  sp_cancelEnabled : bool;
  sp_activeOperationId : QString
}.

Definition with_connectionStatus (l : Label) (p : StatusPanel) : StatusPanel :=
  mkStatusPanel (sp_bound p) (sp_sanitizer p) l (sp_lastError p) (sp_activeOperation p)
    (sp_progress p) (sp_cancelEnabled p) (sp_activeOperationId p).
Definition with_lastError (l : Label) (p : StatusPanel) : StatusPanel :=
  mkStatusPanel (sp_bound p) (sp_sanitizer p) (sp_connectionStatus p) l
    (sp_activeOperation p) (sp_progress p) (sp_cancelEnabled p) (sp_activeOperationId p).
Definition with_activeOperation (l : Label) (p : StatusPanel) : StatusPanel :=
  mkStatusPanel (sp_bound p) (sp_sanitizer p) (sp_connectionStatus p) (sp_lastError p) l
    (sp_progress p) (sp_cancelEnabled p) (sp_activeOperationId p).
Definition with_progress (bar : ProgressBar) (p : StatusPanel) : StatusPanel :=
  mkStatusPanel (sp_bound p) (sp_sanitizer p) (sp_connectionStatus p) (sp_lastError p)
    (sp_activeOperation p) bar (sp_cancelEnabled p) (sp_activeOperationId p).
Definition with_active (id : QString) (enabled : bool) (p : StatusPanel) : StatusPanel :=
  mkStatusPanel (sp_bound p) (sp_sanitizer p) (sp_connectionStatus p) (sp_lastError p)
    (sp_activeOperation p) (sp_progress p) enabled id.
Definition with_bound (bound : bool) (p : StatusPanel) : StatusPanel :=
  mkStatusPanel bound (sp_sanitizer p) (sp_connectionStatus p) (sp_lastError p)
    (sp_activeOperation p) (sp_progress p) (sp_cancelEnabled p) (sp_activeOperationId p).

Section status_panel.
Context `{Qt} `{!QtLabels}.

Definition isTerminal (state : OperationState) : bool :=
  bool_decide (state = OperationState_Completed) || bool_decide (state = OperationState_Failed)
  || bool_decide (state = OperationState_Cancelled).

Definition stateLabel (state : OperationState) : QString :=
  tr match state with
     | OperationState_Queued => "Queued"
     | OperationState_Running => "Running"
     | OperationState_Completed => "Completed"
     | OperationState_Failed => "Failed"
     | OperationState_Cancelled => "Cancelled"
     end.

(** With the default [maxLength]. *)
Definition compactText (text : QString) : QString :=
  if blen text <=? 160 then text else left text (160 - 1) ++ QStringLiteral "...".

Definition compact_label (text : QString) : Label := mkLabel (compactText text) text.

(** The labels of the constructor have no tool tip. *)
Definition StatusPanel_new : StatusPanel :=
  mkStatusPanel false [] (mkLabel (tr "Connection: Not connected") [])
    (mkLabel (tr "Last error: None") []) (mkLabel (tr "Operation: Idle") [])
    (mkProgressBar 100 (Some 0)) false [].

Definition bindOperationQueue (operationQueue : bool) (p : StatusPanel) : StatusPanel :=
  let p := with_bound operationQueue p in
  if operationQueue then p else
  let p := with_active [] false p in
  let p := with_activeOperation
             (mkLabel (tr "Operation: Idle") (lb_toolTip (sp_activeOperation p))) p in
  with_progress (setValue 0 (setRange 100 (sp_progress p))) p.

Definition setConnectionStatus (status : QString) (p : StatusPanel) : StatusPanel :=
  let text := if isEmpty (trimmed status) then tr "Connection: Not connected"
              else trimmed status in
  with_connectionStatus (compact_label text) p.

Definition clearLastError (p : StatusPanel) : StatusPanel :=
  let text := tr "Last error: None" in
  with_lastError (mkLabel text text) p.

Definition setLastError (error : AppError) (p : StatusPanel) : StatusPanel :=
  if negb (hasError error) then clearLastError p else
  let message := if isEmpty (ae_userMessage error)
                 then defaultUserMessage (ae_code error) else ae_userMessage error in
  let details := sanitize_message (sp_sanitizer p) (ae_sanitizedTechnicalDetails error) in
  let text := if isEmpty details then trArgs "Last error: %1" [message]
              else trArgs "Last error: %1 (%2)" [message; details] in
  with_lastError (compact_label text) p.

(** [qBound(0, transferred * 100 / total, 100)]; the division truncates. *)
Definition percentage (progress : CoreTransferProgress) : Z :=
  Z.max 0 (Z.min (Z.quot (ctp_bytesTransferred progress * 100) (ctp_totalBytes progress)) 100).

Definition updateProgress (snapshot : OperationSnapshot) (p : StatusPanel) : StatusPanel :=
  let progress := os_progress snapshot in
  if ctp_totalBytes progress <=? 0 then with_progress (setRange 0 (sp_progress p)) p
  else with_progress (setValue (percentage progress) (setRange 100 (sp_progress p))) p.

Definition updateTerminalOperation (snapshot : OperationSnapshot) (p : StatusPanel)
    : StatusPanel :=
  let state := os_state snapshot in
  let completed := bool_decide (state = OperationState_Completed) in
  let p := if completed
           then with_progress (setValue 100 (setRange 100 (sp_progress p))) p else p in
  let p := if bool_decide (state = OperationState_Failed)
              || bool_decide (state = OperationState_Cancelled)
           then setLastError (os_error snapshot) p else p in
  if bool_decide (sp_activeOperationId p = os_id snapshot) || completed
  then with_active [] false p else p.

Definition handleOperationChanged (snapshot : OperationSnapshot) (p : StatusPanel)
    : StatusPanel :=
  let p := updateProgress snapshot p in
  let operationText :=
    trArgs "Operation: %1 (%2)" [os_name snapshot; stateLabel (os_state snapshot)] in
  let p := with_activeOperation (compact_label operationText) p in
  if isTerminal (os_state snapshot) then updateTerminalOperation snapshot p
  else with_active (os_id snapshot) true p.

(** The operation that is cancelled, after [cancelRequested] is emitted. *)
Definition cancelActiveOperation (p : StatusPanel) : option QString :=
  if negb (sp_bound p) || isEmpty (sp_activeOperationId p) then None
  else Some (sp_activeOperationId p).

(** ** The panel and the queue *)

Record panel_and_queue : Type := mkDesk {
  dk_queue : Queue;
  dk_panel : StatusPanel;
  (** The events of the queue that were handled. *)
  dk_handled : nat
}.

Definition desk_new (maxConcurrentOperations : Z) : panel_and_queue :=
  mkDesk (OperationQueue_new maxConcurrentOperations)
    (bindOperationQueue true StatusPanel_new) 0.

Definition handle_posted (e : event) (p : StatusPanel) : StatusPanel :=
  match e with Posted s => handleOperationChanged s p | _ => p end.

(** A move of the queue, an operation being known by an id that is not empty; the next
    event, handled by the panel; a click on the button, if it can be clicked; and what
    others tell the panel. *)
Inductive desk_input : Set :=
| QueueMove (i : input)
| HandleNext
| ClickCancel
| ShowStatus (status : QString)
| ShowError (error : AppError)
| ClearError.

Definition named (i : input) : bool :=
  match i with Enqueue id _ _ => negb (isEmpty id) | _ => true end.

Definition desk_step_with (i : desk_input) (d : panel_and_queue) : option panel_and_queue :=
  let '(mkDesk q p n) := d in
  match i with
  | QueueMove i =>
      if named i then (fun q' => mkDesk q' p n) <$> step_with i q else None
  | HandleNext => (fun e => mkDesk q (handle_posted e p) (S n)) <$> m_events q !! n
  | ClickCancel =>
      if negb (sp_cancelEnabled p) then None else
      Some (match cancelActiveOperation p with
            | None => d
            | Some id => mkDesk (fst (OperationQueue.cancel id q)) p n
            end)
  | ShowStatus status => Some (mkDesk q (setConnectionStatus status p) n)
  | ShowError error => Some (mkDesk q (setLastError error p) n)
  | ClearError => Some (mkDesk q (clearLastError p) n)
  end.

Definition desk_step (d d' : panel_and_queue) : Prop :=
  exists i, desk_step_with i d = Some d'.
Definition desk_reachable (d : panel_and_queue) : Prop :=
  exists maxThreads, rtc desk_step (desk_new maxThreads) d.

Fixpoint run_desk (inputs : list desk_input) (d : panel_and_queue) : option panel_and_queue :=
  match inputs with
  | [] => Some d
  | i :: inputs => desk_step_with i d ≫= run_desk inputs
  end.

(** The snapshots the panel was told of. *)
Definition told_events (d : panel_and_queue) : list event :=
  take (dk_handled d) (m_events (dk_queue d)).

(** ** What the panel knows *)

Lemma isTerminal_terminal state : isTerminal state = terminal state.
Proof. by destruct state. Qed.

(** A bar is either without an end or goes to 100, and its value is on it. *)
Definition bar_ok (bar : ProgressBar) : Prop :=
  (pb_maximum bar = 0 \/ pb_maximum bar = 100) /\
  forall v, pb_value bar = Some v -> 0 <= v <= pb_maximum bar.

Lemma setRange_ok bar m : bar_ok bar -> m = 0 \/ m = 100 -> bar_ok (setRange m bar).
Proof.
  intros [_ Hv] Hm. split; [exact Hm|]. cbn. intros v. destruct (pb_value bar) as [x|]; [|done].
  cbn. specialize (Hv x eq_refl). destruct (Z.ltb_spec m x); [done|]. intros [= <-]. lia.
Qed.

Lemma setValue_ok bar v : bar_ok bar -> 0 <= v <= pb_maximum bar -> bar_ok (setValue v bar).
Proof.
  intros [Hm Hb] Hv. unfold setValue.
  destruct (((v <? 0) || (pb_maximum bar <? v)) && _); [by split|].
  split; [done|]. by intros w [= <-].
Qed.

Lemma percentage_bounds progress : 0 <= percentage progress <= 100.
Proof. unfold percentage. lia. Qed.

(** The panel after [events]: the button can be clicked just if there is an operation
    to cancel, and it is one whose last snapshot is not of an end. *)
Definition panel_ok (events : list event) (p : StatusPanel) : Prop :=
  sp_bound p = true /\
  sp_cancelEnabled p = negb (isEmpty (sp_activeOperationId p)) /\
  (sp_activeOperationId p = [] \/
   exists s, last (posted (sp_activeOperationId p) events) = Some s /\
     terminal (os_state s) = false) /\
  bar_ok (sp_progress p).

Lemma posted_snoc id events s :
  posted id (events ++ [Posted s]) =
  posted id events ++ if decide (os_id s = id) then [s] else [].
Proof. rewrite posted_app. cbn. by case_decide. Qed.

Lemma panel_updateProgress s p :
  sp_bound (updateProgress s p) = sp_bound p /\
  sp_cancelEnabled (updateProgress s p) = sp_cancelEnabled p /\
  sp_activeOperationId (updateProgress s p) = sp_activeOperationId p.
Proof. unfold updateProgress. by case_match. Qed.

Lemma panel_setLastError e p :
  sp_bound (setLastError e p) = sp_bound p /\
  sp_cancelEnabled (setLastError e p) = sp_cancelEnabled p /\
  sp_activeOperationId (setLastError e p) = sp_activeOperationId p /\
  sp_progress (setLastError e p) = sp_progress p.
Proof. unfold setLastError. by case_match. Qed.

(** What [handleOperationChanged] does to the operation to cancel. *)
Lemma panel_handled s p :
  let p' := handleOperationChanged s p in
  sp_bound p' = sp_bound p /\
  if terminal (os_state s)
  then if bool_decide (sp_activeOperationId p = os_id s)
          || bool_decide (os_state s = OperationState_Completed)
       then sp_activeOperationId p' = [] /\ sp_cancelEnabled p' = false
       else sp_activeOperationId p' = sp_activeOperationId p /\
            sp_cancelEnabled p' = sp_cancelEnabled p
  else sp_activeOperationId p' = os_id s /\ sp_cancelEnabled p' = true.
Proof.
  cbv zeta. unfold handleOperationChanged. rewrite isTerminal_terminal.
  destruct (panel_updateProgress s p) as (Hb & He & Ha).
  set (p1 := with_activeOperation _ _).
  change (sp_bound (updateProgress s p)) with (sp_bound p1) in Hb.
  change (sp_cancelEnabled (updateProgress s p)) with (sp_cancelEnabled p1) in He.
  change (sp_activeOperationId (updateProgress s p)) with (sp_activeOperationId p1) in Ha.
  clearbody p1. rewrite <- Hb, <- He, <- Ha. clear Hb He Ha.
  destruct (terminal (os_state s)) eqn:Ht; [|done]. unfold updateTerminalOperation.
  set (p2 := if bool_decide (os_state s = OperationState_Failed) || _ then _ else _).
  assert (sp_bound p2 = sp_bound p1 /\ sp_cancelEnabled p2 = sp_cancelEnabled p1 /\
          sp_activeOperationId p2 = sp_activeOperationId p1) as (Hb & He & Ha).
  { subst p2. destruct (_ || _).
    - destruct (panel_setLastError (os_error s)
        (if bool_decide (os_state s = OperationState_Completed)
         then with_progress (setValue 100 (setRange 100 (sp_progress p1))) p1 else p1))
        as (-> & -> & -> & _). by case_bool_decide.
    - by case_bool_decide. }
  clearbody p2. rewrite Ha. by destruct (_ || _).
Qed.

Lemma bar_full bar v : bar_ok bar -> 0 <= v <= 100 -> bar_ok (setValue v (setRange 100 bar)).
Proof. intros Hb Hv. apply setValue_ok; [|done]. apply setRange_ok; [done|by right]. Qed.

Lemma panel_bar s p :
  bar_ok (sp_progress p) -> bar_ok (sp_progress (handleOperationChanged s p)).
Proof.
  intros Hb. assert (bar_ok (sp_progress (updateProgress s p))) as Hu.
  { unfold updateProgress. case_match; [apply setRange_ok; [done|by left]|].
    apply bar_full; [done|apply percentage_bounds]. }
  unfold handleOperationChanged. destruct (isTerminal _); [|done].
  unfold updateTerminalOperation. set (p1 := with_activeOperation _ _).
  assert (bar_ok (sp_progress
    (if bool_decide (os_state s = OperationState_Completed)
     then with_progress (setValue 100 (setRange 100 (sp_progress p1))) p1 else p1))) as H2.
  { case_bool_decide; [apply bar_full; [exact Hu|lia]|exact Hu]. }
  set (p2 := if bool_decide (os_state s = OperationState_Completed) then _ else p1) in *.
  clearbody p2. clear Hb Hu.
  assert (bar_ok (sp_progress (if bool_decide (os_state s = OperationState_Failed)
    || bool_decide (os_state s = OperationState_Cancelled)
    then setLastError (os_error s) p2 else p2))) as H3.
  { destruct (_ || _); [|done].
    by destruct (panel_setLastError (os_error s) p2) as (_ & _ & _ & ->). }
  clear H2. cbv zeta.
  set (p3 := if bool_decide (os_state s = OperationState_Failed) || _ then _ else _) in *.
  clearbody p3. by destruct (_ || _).
Qed.

Lemma panel_ok_handle events s p :
  os_id s <> [] -> panel_ok events p ->
  panel_ok (events ++ [Posted s]) (handleOperationChanged s p).
Proof.
  intros Hid (Hb & He & Ha & Hbar). apply (panel_bar s) in Hbar.
  pose proof (panel_handled s p) as Hp. cbv zeta in Hp.
  set (p' := handleOperationChanged s p) in *. clearbody p'. destruct Hp as [Hb' Hp].
  split; [by rewrite Hb'|]. destruct (terminal (os_state s)) eqn:Ht.
  - destruct (bool_decide (sp_activeOperationId p = os_id s)) eqn:Hact; cbn [orb] in Hp.
    { destruct Hp as [-> ->]. split_and!; [done|by left|done]. }
    destruct (bool_decide (os_state s = OperationState_Completed)).
    { destruct Hp as [-> ->]. split_and!; [done|by left|done]. }
    destruct Hp as [-> ->]. split_and!; [done| |done]. apply bool_decide_eq_false in Hact.
    destruct Ha as [Ha|(s' & Hs' & Hs)]; [by left|right]. exists s'.
    rewrite posted_snoc, decide_False by done. by rewrite app_nil_r.
  - destruct Hp as [-> ->]. split_and!; [by destruct (os_id s)| |done]. right. exists s.
    rewrite posted_snoc, decide_True by done. by rewrite last_snoc.
Qed.

(** Events that are not snapshots are for nobody. *)
Lemma posted_other id events e :
  (forall s, e <> Posted s) -> posted id (events ++ [e]) = posted id events.
Proof.
  intros He. rewrite posted_app. destruct e as [s| |]; cbn; [by destruct (He s)|..];
    by rewrite app_nil_r.
Qed.

Lemma panel_ok_posted events e p :
  event_of e <> [] -> panel_ok events p -> panel_ok (events ++ [e]) (handle_posted e p).
Proof.
  intros Hid Hp. destruct e as [s|id|id r]; [by apply panel_ok_handle|..];
    destruct Hp as (? & ? & Ha & ?); split_and!; try done; cbn [handle_posted];
    by rewrite posted_other.
Qed.

(** ** The invariant of the panel and the queue *)

(** What was handled is a part of what was posted, and no operation has the empty id. *)
Definition desk_ok (d : panel_and_queue) : Prop :=
  queue_ok (dk_queue d) /\ m_operations (dk_queue d) !! [] = None /\
  panel_ok (told_events d) (dk_panel d) /\
  (dk_handled d <= length (m_events (dk_queue d)))%nat.

Lemma work_events id callback p c q q' :
  work id callback p c q = Some q' -> m_events q `prefix_of` m_events q'.
Proof.
  intros Hw. destruct p, c; cbn [work] in Hw; simplify_eq; try done;
    try (by eexists).
  - by destruct (_ <? _); simplify_eq.
  - unfold setState. by destruct (m_operations q !! id).
  - unfold setProgress. by destruct (m_operations q !! id).
  - destruct (outcome _ _). by simplify_eq.
Qed.

Lemma work_unknown id callback p c q q' i :
  work id callback p c q = Some q' -> m_operations q !! i = None -> m_operations q' !! i = None.
Proof.
  intros Hw Hi. destruct p, c; cbn [work] in Hw; simplify_eq; try done.
  - by destruct (_ <? _); simplify_eq.
  - unfold setState. destruct (m_operations q !! id); [|done]. cbn.
    by apply lookup_alter_None.
  - unfold setProgress. destruct (m_operations q !! id); [|done]. cbn.
    by apply lookup_alter_None.
  - destruct (outcome _ _). by simplify_eq.
Qed.

Lemma step_events i q q' : step_with i q = Some q' -> m_events q `prefix_of` m_events q'.
Proof.
  destruct i as [id name callback|id| |id c]; cbn [step_with]; intros Hs.
  - by destruct (m_operations q !! id); simplify_eq.
  - simplify_eq. unfold OperationQueue.cancel. by destruct (m_operations q !! id).
  - by simplify_eq.
  - destruct (m_points q !! id) as [[callback p]|]; [|done]. by eapply work_events.
Qed.

Lemma step_unnamed i q q' :
  step_with i q = Some q' -> named i = true -> m_operations q !! [] = None ->
  m_operations q' !! [] = None.
Proof.
  destruct i as [id name callback|id| |id c]; cbn [step_with named]; intros Hs Hn Hq.
  - destruct (m_operations q !! id); simplify_eq. cbn.
    by rewrite lookup_insert_ne by (by destruct id).
  - simplify_eq. unfold OperationQueue.cancel. destruct (m_operations q !! id); [|done]. cbn.
    by apply lookup_alter_None.
  - simplify_eq. cbn. by rewrite lookup_fmap, Hq.
  - destruct (m_points q !! id) as [[callback p]|]; [|done]. by eapply work_unknown.
Qed.

(** What happens, happens to an operation of the queue. *)
Lemma event_known q e :
  queue_ok q -> e ∈ m_events q -> is_Some (m_operations q !! event_of e).
Proof.
  intros [_ Hq] He. specialize (Hq (event_of e)). unfold operation_ok in Hq.
  destruct (m_operations q !! event_of e) as [d|]; [done|].
  destruct (m_points q !! event_of e); [done|]. destruct Hq as [Hp Hc].
  apply list_elem_of_split in He as (l1 & l2 & He). rewrite He in Hp, Hc.
  rewrite posted_app in Hp. rewrite calls_app in Hc. exfalso.
  apply app_eq_nil in Hp as [_ Hp], Hc as [_ Hc].
  destruct e as [s|id|id r]; cbn in Hp, Hc; [clear Hc|clear Hp..]; by rewrite decide_True in *.
Qed.

Lemma told_queue d q' :
  (dk_handled d <= length (m_events (dk_queue d)))%nat ->
  m_events (dk_queue d) `prefix_of` m_events q' ->
  told_events (mkDesk q' (dk_panel d) (dk_handled d)) = told_events d /\
  (dk_handled d <= length (m_events q'))%nat.
Proof.
  intros Hn [l Hl]. unfold told_events. cbn [dk_queue dk_handled]. rewrite Hl, length_app.
  split; [|lia]. by apply take_app_le.
Qed.

Lemma desk_ok_queue d q' :
  desk_ok d -> step (dk_queue d) q' -> m_operations q' !! [] = None ->
  desk_ok (mkDesk q' (dk_panel d) (dk_handled d)).
Proof.
  intros (Hq & _ & Hp & Hn) Hs Hu. destruct Hs as [i Hi].
  destruct (told_queue d q' Hn (step_events _ _ _ Hi)) as [Ht Hn'].
  split_and!; [by eapply step_ok; [|exists i]|done|by rewrite Ht|done].
Qed.

Lemma desk_ok_step d d' : desk_ok d -> desk_step d d' -> desk_ok d'.
Proof.
  intros Hd [i Hi]. pose proof Hd as (Hq & Hu & Hp & Hn). destruct d as [q p n].
  destruct i as [i| | |status|error|]; cbn [desk_step_with dk_queue dk_panel dk_handled] in *.
  - destruct (named i) eqn:Hnamed; [|done].
    apply fmap_Some in Hi as (q' & Hs & ->).
    apply (desk_ok_queue (mkDesk q p n)); [done|by exists i|by eapply step_unnamed].
  - apply fmap_Some in Hi as (e & He & ->). split_and!; try done.
    + unfold told_events in *. cbn [dk_queue dk_handled dk_panel] in *.
      rewrite (take_S_r _ _ _ He). apply panel_ok_posted; [|done].
      intros Hid. destruct (event_known q e Hq) as [x Hx]; [by eapply list_elem_of_lookup_2|].
      rewrite Hid in Hx. by pose proof (eq_trans (eq_sym Hu) Hx).
    + cbn. by apply lookup_lt_Some in He.
  - destruct (sp_cancelEnabled p); [|done]. cbn [negb] in Hi. injection Hi as <-.
    destruct (cancelActiveOperation p) as [id|]; [|done].
    assert (step_with (OperationQueue.Cancel id) q = Some (fst (OperationQueue.cancel id q)))
      as Hs by done.
    apply (desk_ok_queue (mkDesk q p n)); [done|by eexists|by eapply step_unnamed].
  - injection Hi as <-. done.
  - injection Hi as <-. split_and!; try done. unfold panel_ok. cbn [dk_panel].
    destruct (panel_setLastError error p) as (-> & -> & -> & ->). exact Hp.
  - injection Hi as <-. done.
Qed.

Lemma desk_reachable_ok d : desk_reachable d -> desk_ok d.
Proof.
  intros [n Hs]. assert (desk_ok (desk_new n)) as Hd.
  { split_and!; try done.
    - split; [cbn; lia|]. intros id. by unfold operation_ok.
    - split_and!; [done..|by left|]. split; [by right|]. cbn. intros v [= <-]. lia. }
  induction Hs; [done|]. eauto using desk_ok_step.
Qed.

Lemma desk_queue_reachable d : desk_reachable d -> reachable (dk_queue d).
Proof.
  intros [n Hs]. exists n. change (OperationQueue_new n) with (dk_queue (desk_new n)).
  induction Hs as [d|d d1 d2 [i Hi] Hs IH]; [apply rtc_refl|].
  apply (transitivity (y := dk_queue d1)); [|done]. destruct d as [q p k].
  destruct i as [i| | |status|error|]; cbn [desk_step_with] in Hi.
  - destruct (named i); [|done]. apply fmap_Some in Hi as (q' & Hi & ->).
    apply rtc_once. by exists i.
  - by apply fmap_Some in Hi as (e & _ & ->).
  - destruct (sp_cancelEnabled p); [|done]. injection Hi as <-.
    destruct (cancelActiveOperation p) as [id|]; [|done].
    apply rtc_once. by exists (OperationQueue.Cancel id).
  - by injection Hi as <-.
  - by injection Hi as <-.
  - by injection Hi as <-.
Qed.

(** An operation whose snapshots were posted is in the queue. *)
Lemma posted_known q id s :
  queue_ok q -> s ∈ posted id (m_events q) -> is_Some (m_operations q !! id).
Proof.
  intros Hq Hs. apply list_elem_of_omap in Hs as (e & He & Hs).
  destruct e as [s'| |]; simplify_eq. case_decide as Hid; simplify_eq.
  by apply (event_known q (Posted s)).
Qed.

Lemma told_all d :
  dk_handled d = length (m_events (dk_queue d)) -> told_events d = m_events (dk_queue d).
Proof. unfold told_events. intros ->. by apply firstn_all. Qed.

Lemma told_posted d id s :
  last (posted id (told_events d)) = Some s -> s ∈ posted id (m_events (dk_queue d)).
Proof.
  intros Hs. rewrite <- (take_drop (dk_handled d) (m_events (dk_queue d))), posted_app.
  apply elem_of_app. left. by apply last_Some_elem_of.
Qed.

(** When all is done and told, no operation is active. *)
Lemma desk_idle d :
  desk_reachable d -> dk_handled d = length (m_events (dk_queue d)) ->
  (forall id callback p, m_points (dk_queue d) !! id = Some (callback, p) -> p = Finished) ->
  sp_activeOperationId (dk_panel d) = [].
Proof.
  intros Hd Hall Hdone. pose proof (desk_reachable_ok d Hd) as (Hq & _ & (_ & _ & Ha & _) & _).
  destruct Ha as [Ha|(s & Hs & Ht)]; [done|exfalso].
  destruct (posted_known _ _ _ Hq (told_posted _ _ _ Hs)) as [data Ho].
  destruct (operation_at _ _ _ Hq Ho) as (callback & p & Hp & _ & _ & Hc).
  rewrite (Hdone _ _ _ Hp) in Hc. rewrite (told_all d Hall) in Hs.
  inversion Hc as [| | | | | | |? ? ? ? Hin|? Hset|? Hset|? Hset Hshown]; subst;
    [by inversion Hin|].
  unfold shown in Hshown. rewrite Hs in Hshown. injection Hshown as ->.
  apply settled_terminal in Hset. cbn in Ht. congruence.
Qed.


End status_panel.

(** ** Two operations *)

Definition sample_labels : QtLabels :=
  {| trArgs text args := QStringLiteral text ++ concat args |}.
#[local] Existing Instance sample_labels.

(** Both threads are at work; the first operation has reported progress when the second
    one ends. *)
Definition two_operations : list desk_input :=
  let on id n := repeat (QueueMove (Work [id] Go)) n in
  [QueueMove (Enqueue [1] [10] true)] ++ on 1 2%nat ++
  [QueueMove (Enqueue [2] [20] true)] ++ on 2 2%nat ++ on 1 2%nat ++ on 2 2%nat ++
  on 2 5%nat ++ on 1 5%nat ++
  [QueueMove (Work [1] (Progress (mkCoreTransferProgress 5 9)))] ++ on 1 3%nat ++
  [QueueMove (Work [2] (Return (Result_success true)))] ++ on 2 4%nat.

Definition desk_after (inputs : list desk_input) : panel_and_queue :=
  default (desk_new 2) (run_desk inputs (desk_new 2)).

Lemma run_desk_steps inputs d d' : run_desk inputs d = Some d' -> rtc desk_step d d'.
Proof.
  revert d. induction inputs as [|i inputs IH]; cbn; [intros d [= ->]; apply rtc_refl|].
  intros d (d1 & H1 & Hr)%bind_Some. eapply rtc_l; [by exists i|by apply IH].
Qed.

Lemma desk_after_reachable inputs :
  is_Some (run_desk inputs (desk_new 2)) -> desk_reachable (desk_after inputs).
Proof.
  intros [d Hd]. exists 2. unfold desk_after. rewrite Hd. by eapply run_desk_steps.
Qed.

(** The panel has heard of everything, and nothing can be cancelled, while the first
    operation is still running. *)
Definition told_everything : list desk_input := two_operations ++ repeat HandleNext 9%nat.

Lemma completion_takes_the_button :
  let d := desk_after told_everything in
  desk_reachable d /\ dk_handled d = length (m_events (dk_queue d)) /\
  (od_state <$> m_operations (dk_queue d) !! [1]) = Some OperationState_Running /\
  sp_cancelEnabled (dk_panel d) = false.
Proof.
  split; [apply desk_after_reachable; vm_compute; eauto|]. split_and!; by vm_compute.
Qed.

(** Before the second operation ends, the button cancels the first one. *)
Definition heard_of_first : list desk_input := two_operations ++ repeat HandleNext 8%nat.

