(* ===== verification/ConnectionUi.v ===== *)
(** * Connections in the interface ([ConnectionDialog.cpp], [ConnectionListModel.cpp],
    [ConnectionsPanel.cpp], [ConnectionManagementController.cpp],
    [ConnectionOpenController.cpp], [ConnectivityCheckController.cpp],
    [ConnectionClipboardController.cpp], [ImportExportController.cpp])

    The list of connections with its filter, the dialog that edits one, and the handlers
    between them and the services.  The state of widgets is explicit where the code
    looks at it; what the user does is the answer to a call.  The theorems follow the
    list that is shown through histories of additions, changes and deletions. *)

From stdpp Require Import gmap.
From S2P Require Export ServiceRuns PathNormalizer Backup.
Local Open Scope Z_scope.

(** ** The list of connections ([ConnectionListModel.cpp]) *)

Section connection_list.
Context `{Qt}.

Definition Qt_DisplayRole : Z := 0.
Definition Qt_UserRole : Z := 0x100.

Definition IdRole : Z := Qt_UserRole + 1.
Definition NameRole : Z := Qt_UserRole + 2.
Definition ServerRole : Z := Qt_UserRole + 3.
Definition ShareRole : Z := Qt_UserRole + 4.
Definition GroupRole : Z := Qt_UserRole + 5.
Definition FavoriteRole : Z := Qt_UserRole + 6.
Definition NormalizedUriRole : Z := Qt_UserRole + 7.

(** A [QVariant] that is invalid, a text or a truth value. *)
Inductive cell : Set :=
| NoCell
| TextCell (text : QString)
| BoolCell (b : bool).

(** [toString] and [toBool] of those. *)
Definition cell_text (c : cell) : QString :=
  match c with
  | NoCell => []
  | TextCell text => text
  | BoolCell b => QStringLiteral (if b then "true" else "false")
  end.
Definition cell_bool (c : cell) : bool := match c with BoolCell b => b | _ => false end.

(** [data] at an index; an index that is not valid has no row. *)
Definition connection_data (m_connections : list SavedConnection) (row : option nat)
    (role : Z) : cell :=
  match (row ← row; m_connections !! row) with
  | None => NoCell
  | Some connection =>
      let c := svc_connection connection in
      if role =? Qt_DisplayRole then
        TextCell (if isEmpty (svc_name connection) then con_normalizedUri c
                  else svc_name connection ++ QStringLiteral "  " ++ con_server c
                       ++ [kSlash] ++ con_share c)
      else if role =? IdRole then TextCell (con_id c)
      else if role =? NameRole then TextCell (svc_name connection)
      else if role =? ServerRole then TextCell (con_server c)
      else if role =? ShareRole then TextCell (con_share c)
      else if role =? GroupRole then TextCell (svc_groupId connection)
      else if role =? FavoriteRole then BoolCell (svc_isFavorite connection)
      else if role =? NormalizedUriRole then TextCell (con_normalizedUri c)
      else NoCell
  end.

Definition connectionAt (m_connections : list SavedConnection) (row : Z)
    : SavedConnection :=
  if (row <? 0) || (blen m_connections <=? row) then no_connection
  else default no_connection (m_connections !! Z.to_nat row).

(** ** The panel ([ConnectionsPanel.cpp]) *)

(** The connections of the model and the filter before it. *)
Record ConnectionsPanel : Set := mkConnectionsPanel {
  cp_connections : list SavedConnection;
  cp_filterText : QString;
  cp_favoritesOnly : bool
}.

Definition setConnections (connections : list SavedConnection) (p : ConnectionsPanel)
    : ConnectionsPanel :=
  mkConnectionsPanel connections (cp_filterText p) (cp_favoritesOnly p).
Definition setFilterText (filterText : QString) (p : ConnectionsPanel) : ConnectionsPanel :=
  mkConnectionsPanel (cp_connections p) (toLower (trimmed filterText)) (cp_favoritesOnly p).
Definition setFavoritesOnly (favoritesOnly : bool) (p : ConnectionsPanel)
    : ConnectionsPanel :=
  mkConnectionsPanel (cp_connections p) (cp_filterText p) favoritesOnly.

Definition filterAcceptsRow (p : ConnectionsPanel) (sourceRow : nat) : bool :=
  let data := connection_data (cp_connections p) (Some sourceRow) in
  if bool_decide (length (cp_connections p) <= sourceRow)%nat then false else
  if cp_favoritesOnly p && negb (cell_bool (data FavoriteRole)) then false else
  if isEmpty (cp_filterText p) then true else
  existsb (fun role => contains (toLower (cell_text (data role))) (cp_filterText p))
    [NameRole; ServerRole; ShareRole; GroupRole; NormalizedUriRole].

(** The rows of the model that the view shows, in their order. *)
Definition shown_rows (p : ConnectionsPanel) : list nat :=
  List.filter (filterAcceptsRow p) (seq 0 (length (cp_connections p))).

(** [selectedSourceIndex], given the row that is selected in the view. *)
Definition selectedSourceIndex (selected : option nat) (p : ConnectionsPanel) : option nat :=
  row ← selected; shown_rows p !! row.

Definition selectedConnectionId (selected : option nat) (p : ConnectionsPanel) : QString :=
  cell_text (connection_data (cp_connections p) (selectedSourceIndex selected p) IdRole).
Definition selectedNormalizedUri (selected : option nat) (p : ConnectionsPanel) : QString :=
  cell_text (connection_data (cp_connections p) (selectedSourceIndex selected p)
               NormalizedUriRole).

(** What is done with the panel, with the row that is selected, and what it asks for. *)
Inductive panel_event : Set :=
| AddClicked
| EditClicked (selected : option nat)
| DeleteClicked (selected : option nat)
| CheckClicked (selected : option nat)
| ConnectClicked (selected : option nat)
| DoubleClicked (selected : option nat)
| CopyPathClicked (selected : option nat)
| FilterChanged (text : QString)
| FavoritesToggled (checked : bool).

Inductive panel_request : Set :=
| addRequested
| editRequested (id : QString)
| deleteRequested (id : QString)
| checkRequested (id : QString)
| connectRequested (id : QString)
| copyPathRequested (path : QString).

(** A request that is made unless its text is empty. *)
Definition request_of (request : QString -> panel_request) (text : QString)
    : option panel_request :=
  if isEmpty text then None else Some (request text).

Definition panel_handle (e : panel_event) (p : ConnectionsPanel)
    : ConnectionsPanel * option panel_request :=
  match e with
  | AddClicked => (p, Some addRequested)
  | EditClicked s => (p, request_of editRequested (selectedConnectionId s p))
  | DeleteClicked s => (p, request_of deleteRequested (selectedConnectionId s p))
  | CheckClicked s => (p, request_of checkRequested (selectedConnectionId s p))
  | ConnectClicked s | DoubleClicked s =>
      (p, request_of connectRequested (selectedConnectionId s p))
  | CopyPathClicked s => (p, request_of copyPathRequested (selectedNormalizedUri s p))
  | FilterChanged text => (setFilterText text p, None)
  | FavoritesToggled checked => (setFavoritesOnly checked p, None)
  end.

(** Whether the buttons for a connection can be clicked. *)
Definition panel_updateActionState (selected : option nat) (p : ConnectionsPanel) : bool :=
  bool_decide (is_Some (selectedSourceIndex selected p)).

End connection_list.

(** ** The dialog ([ConnectionDialog.cpp]) *)

Section dialog_data.
Context `{Qt}.

(** The text of the edits, the index in the box, and the check box. *)
Record DialogFields : Set := mkDialogFields {
  df_name : QString;
  df_path : QString;
  df_authType : Z;
  df_username : QString;
  df_domain : QString;
  df_password : QString;
  df_comment : QString;
  df_group : QString;
  df_favorite : bool
}.

(** The members; [cd_preview] and [cd_passwordControls] are what [updatePreview] and
    [updateAuthControls] set. *)
Record ConnectionDialog : Set := mkConnectionDialog {
  cd_connection : SavedConnection;
  cd_secret : secret_pointer;
  cd_passwordRequired : bool;
  cd_fields : DialogFields;
  cd_preview : option QString;
  cd_passwordControls : bool;
  cd_validationMessage : QString
}.
End dialog_data.

Section dialog.
Context `{Qt} `{!QtUrl}.

Definition authTypeValue (authType : AuthType) : Z :=
  match authType with
  | AuthType_Password => 0
  | AuthType_Guest => 1
  | AuthType_Anonymous => 2
  | AuthType_CurrentUser => 3
  end.

Definition authTypeFromValue (value : Z) : AuthType :=
  if value =? authTypeValue AuthType_Guest then AuthType_Guest
  else if value =? authTypeValue AuthType_Anonymous then AuthType_Anonymous
  else if value =? authTypeValue AuthType_CurrentUser then AuthType_CurrentUser
  else AuthType_Password.

(** The data of the items of [m_authTypeCombo]. *)
Definition authTypeItems : list Z :=
  authTypeValue <$> [AuthType_Password; AuthType_Guest; AuthType_Anonymous;
                     AuthType_CurrentUser].

(** [findData], and [currentData().toInt()] of the item at an index. *)
Fixpoint index_of (value : Z) (items : list Z) (i : Z) : Z :=
  match items with
  | [] => -1
  | item :: items => if item =? value then i else index_of value items (i + 1)
  end.
Definition findData (value : Z) (items : list Z) : Z := index_of value items 0.
Definition itemData (items : list Z) (index : Z) : Z :=
  if index <? 0 then 0 else default 0 (items !! Z.to_nat index).

Definition selectedAuthType (f : DialogFields) : AuthType :=
  authTypeFromValue (itemData authTypeItems (df_authType f)).

Definition with_validationMessage (message : QString) (d : ConnectionDialog)
    : ConnectionDialog :=
  mkConnectionDialog (cd_connection d) (cd_secret d) (cd_passwordRequired d) (cd_fields d)
    (cd_preview d) (cd_passwordControls d) message.

(** The fields are edited or set: [updatePreview] and [updateAuthControls] follow. *)
Definition with_fields (f : DialogFields) (d : ConnectionDialog) : ConnectionDialog :=
  let normalized := normalizeSmbPath (df_path f) in
  mkConnectionDialog (cd_connection d) (cd_secret d) (cd_passwordRequired d) f
    (if Result_ok normalized then Some (nsp_normalizedUri (res_value normalized)) else None)
    (bool_decide (selectedAuthType f = AuthType_Password)) (cd_validationMessage d).

Definition ConnectionDialog_new : ConnectionDialog :=
  with_fields (mkDialogFields [] [] 0 [] [] [] [] [] false)
    (mkConnectionDialog no_connection None true (mkDialogFields [] [] 0 [] [] [] [] [] false)
       None true []).

Definition setPasswordRequired (required : bool) (d : ConnectionDialog) : ConnectionDialog :=
  mkConnectionDialog (cd_connection d) (cd_secret d) required (cd_fields d)
    (cd_preview d) (cd_passwordControls d) (cd_validationMessage d).

Definition connection_fields (c : SavedConnection) (password : QString) : DialogFields :=
  let connection := svc_connection c in
  let comboIndex := findData (authTypeValue (con_authType connection)) authTypeItems in
  mkDialogFields (svc_name c)
    (if isEmpty (svc_inputPath c) then con_normalizedUri connection else svc_inputPath c)
    (if comboIndex <? 0 then 0 else comboIndex)
    (con_username connection) (con_domain connection) password (svc_comment c)
    (svc_groupId c) (svc_isFavorite c).

Definition setConnection (c : SavedConnection) (d : ConnectionDialog) : ConnectionDialog :=
  with_fields (connection_fields c (df_password (cd_fields d)))
    (mkConnectionDialog c (cd_secret d) (cd_passwordRequired d) (cd_fields d)
       (cd_preview d) (cd_passwordControls d) (cd_validationMessage d)).

(** The members of a connection that the dialog sets. *)
Definition connection_of_fields (c : SavedConnection) (f : DialogFields)
    (path : NormalizedSmbPath) (identity : ParsedIdentity) : SavedConnection :=
  mkSavedConnection
    (mkConnection (con_id (svc_connection c)) (nsp_normalizedUri path) (nsp_server path)
       (nsp_share path) (pid_domain identity) (pid_username identity) (pid_authType identity))
    (trimmed (df_name f)) (nsp_inputPath path) (nsp_initialRemotePath path)
    (svc_credentialRef c) (trimmed (df_comment f)) (trimmed (df_group f)) (df_favorite f)
    (svc_lastOpenedAt c) (svc_createdAt c) (svc_updatedAt c) (svc_lastErrorCode c)
    (svc_lastErrorMessage c) (svc_lastSuccessfulCheckAt c).

(** [accept]: the dialog, and whether it is done. *)
Definition dialog_accept (d : ConnectionDialog) : ConnectionDialog * bool :=
  let d := with_validationMessage [] d in
  let f := cd_fields d in
  let refuse message := (with_validationMessage message d, false) in
  let normalized := normalizeSmbPath (df_path f) in
  if negb (Result_ok normalized) then refuse (ae_userMessage (res_error normalized)) else
  let authType := selectedAuthType f in
  let identity := normalizeIdentity authType (df_username f) (df_domain f) in
  if negb (Result_ok identity) then refuse (ae_userMessage (res_error identity)) else
  let password := df_password f in
  let byPassword := bool_decide (authType = AuthType_Password) in
  if byPassword && cd_passwordRequired d && isEmpty password
  then refuse (tr "Password is required.") else
  (mkConnectionDialog
     (connection_of_fields (cd_connection d) f (res_value normalized) (res_value identity))
     (if byPassword && negb (isEmpty password) then Some (toStdString password) else None)
     (cd_passwordRequired d) f (cd_preview d) (cd_passwordControls d) [], true).

End dialog.

(** ** The handlers ([ConnectionManagementController.cpp]) *)

(** What the user does with the dialog that is open. *)
Inductive dialog_action : Set :=
| EditFields (f : DialogFields)
| ClickOk
| ClickCancelDialog.

Inductive management_signal : Set :=
| connectionsRefreshed
| connectionAdded (connectionId : QString)
| connectionUpdated (connectionId : QString)
| connectionDeleted (connectionId : QString).

(** The calls: those of [ConnectionService], the dialog, and the prompter. *)
Inductive manage_call `{Qt} : Set -> Type :=
| OfService (B : Set) (c : service_call B) : manage_call B
| DialogAction (d : ConnectionDialog) : manage_call dialog_action
| ConfirmDeleteConnection (connection : SavedConnection) : manage_call bool
| ShowConnectionError (title : string) (error : AppError) : manage_call unit
| EmitManagement (s : management_signal) : manage_call unit.
Arguments OfService {_ B} c.
Abbreviation manage := (asking manage_call).

Section management.
Context `{Qt} `{!QtUrl} `{!QtJson} `{!QtSql}.

Definition by_service {A} (p : service A) : manage A :=
  asking_lift (fun B (c : service_call B) => OfService c) p.

(** The error is shown, and nothing else is done. *)
Definition show_error (title : string) (error : AppError) (p : ConnectionsPanel)
    : manage ConnectionsPanel :=
  ask (ShowConnectionError title error) ;;
  mret p.

(** [exec]: the dialog when it is closed, and whether it was accepted; a bound for
    what the user does with it. *)
Fixpoint dialog_exec (fuel : nat) (d : ConnectionDialog) : manage (ConnectionDialog * bool) :=
  match fuel with
  | O => Halt
  | S fuel =>
      action ← ask (DialogAction d);
      match action with
      | EditFields f => dialog_exec fuel (with_fields f d)
      | ClickOk =>
          let '(d, accepted) := dialog_accept d in
          if accepted : bool then mret (d, true) else dialog_exec fuel d
      | ClickCancelDialog => mret (d, false)
      end
  end.

Definition refreshConnections (p : ConnectionsPanel) : manage ConnectionsPanel :=
  listed ← by_service service_list;
  if negb (Result_ok listed)
  then show_error "Unable to Load Connections" (res_error listed) p else
  ask (EmitManagement connectionsRefreshed) ;;
  mret (setConnections (res_value listed) p).

Context (fuel : nat).

Definition addConnection (p : ConnectionsPanel) : manage ConnectionsPanel :=
  closed ← dialog_exec fuel (setPasswordRequired true ConnectionDialog_new);
  let '(dialog, accepted) := closed in
  if negb accepted then mret p else
  created ← by_service (service_create (cd_connection dialog) (cd_secret dialog));
  if negb (Result_ok created)
  then show_error "Unable to Add Connection" (res_error created) p else
  p ← refreshConnections p;
  ask (EmitManagement (connectionAdded (con_id (svc_connection (res_value created))))) ;;
  mret p.

Definition editConnection (connectionId : QString) (p : ConnectionsPanel)
    : manage ConnectionsPanel :=
  connection ← by_service (service_getById connectionId);
  if negb (Result_ok connection)
  then show_error "Unable to Edit Connection" (res_error connection) p else
  closed ← dialog_exec fuel
    (setConnection (res_value connection) (setPasswordRequired false ConnectionDialog_new));
  let '(dialog, accepted) := closed in
  if negb accepted then mret p else
  updated ← by_service (service_update (cd_connection dialog) (cd_secret dialog));
  if negb (Result_ok updated)
  then show_error "Unable to Edit Connection" (res_error updated) p else
  p ← refreshConnections p;
  ask (EmitManagement (connectionUpdated (con_id (svc_connection (res_value updated))))) ;;
  mret p.

Definition connection_not_found : AppError :=
  fromCode App_FileNotFound ErrorCategory_Storage (tr "Connection was not found.") false.

Definition deleteConnection (connectionId : QString) (p : ConnectionsPanel)
    : manage ConnectionsPanel :=
  let title := "Unable to Delete Connection"%string in
  connection ← by_service (service_getById connectionId);
  if negb (Result_ok connection) then show_error title (res_error connection) p else
  confirmed ← ask (ConfirmDeleteConnection (res_value connection));
  if negb confirmed then mret p else
  removed ← by_service (service_remove connectionId);
  if negb (Result_ok removed) then show_error title (res_error removed) p else
  if negb (res_value removed) then show_error title connection_not_found p else
  p ← refreshConnections p;
  ask (EmitManagement (connectionDeleted connectionId)) ;;
  mret p.

(** What the program connects to the handlers: requests of the panel, and
    [MainWindow::connectionsImported]. *)
Inductive management_request : Set :=
| RequestAdd
| RequestEdit (id : QString)
| RequestDelete (id : QString)
| RequestRefresh.

Definition manage_request (r : management_request)
    : ConnectionsPanel -> manage ConnectionsPanel :=
  match r with
  | RequestAdd => addConnection
  | RequestEdit id => editConnection id
  | RequestDelete id => deleteConnection id
  | RequestRefresh => refreshConnections
  end.

Fixpoint manage_requests (rs : list management_request) (p : ConnectionsPanel)
    : manage ConnectionsPanel :=
  match rs with
  | [] => mret p
  | r :: rs => p ← manage_request r p; manage_requests rs p
  end.

End management.

(** ** Opening and checking ([ConnectionOpenController.cpp],
    [ConnectivityCheckController.cpp], [ConnectionClipboardController.cpp]) *)

Section queued.
Context `{Qt}.

(** What an operation posts to the thread of the interface. *)
Inductive connection_delivery : Set :=
| OpenFailed (connectionId : QString) (error : AppError)
| OpenSucceeded (result : OpenConnectionResult)
| CheckCompleted (connectionId : QString) (result : ConnectivityCheckResult)
| CheckFailed (connectionId : QString) (error : AppError).

Inductive connection_signal : Set :=
| openStarted (connectionId operationId : QString)
| connectionOpened (result : OpenConnectionResult)
| connectionOpenFailed (connectionId : QString) (error : AppError)
| checkStarted (connectionId operationId : QString)
| checkCompleted (connectionId : QString) (result : ConnectivityCheckResult)
| checkFailed (connectionId : QString) (error : AppError)
| pathCopied (normalizedUri : QString).

(** The operations that are put on the queue. *)
Inductive queued_operation : Set :=
| OpenQueued (connectionId : QString)
| CheckQueued (connectionId : QString).

Inductive queueing_call : Set -> Type :=
| EnqueueOperation (name : string) (op : queued_operation) : queueing_call QString
| EmitConnection (s : connection_signal) : queueing_call unit
| ShowQueuedError (title : string) (error : AppError) : queueing_call unit
| SetClipboard (text : QString) : queueing_call unit
| ShowCopied (normalizedUri : QString) (milliseconds : Z) : queueing_call unit.

(** The calls of an operation: the services, and the post to the interface. *)
Inductive delivering_call : Set -> Type :=
| ByService (B : Set) (c : service_call B) : delivering_call B
| Deliver (d : connection_delivery) : delivering_call unit.
Arguments ByService {B} c.

Context `{!QtJson} `{!QtSql}.

Definition ui_openConnection (connectionId : QString) : asking queueing_call unit :=
  if isEmpty connectionId then mret tt else
  operationId ← ask (EnqueueOperation "Open connection" (OpenQueued connectionId));
  ask (EmitConnection (openStarted connectionId operationId)).

Definition ui_checkConnection (connectionId : QString) : asking queueing_call unit :=
  if isEmpty connectionId then mret tt else
  operationId ← ask (EnqueueOperation "Check connection" (CheckQueued connectionId));
  ask (EmitConnection (checkStarted connectionId operationId)).

(** [statusBar]: whether the controller was given one. *)
Definition copyPath (statusBar : bool) (normalizedUri : QString) : asking queueing_call unit :=
  if isEmpty normalizedUri then mret tt else
  ask (SetClipboard normalizedUri) ;;
  (if statusBar then ask (ShowCopied normalizedUri 3000) else mret tt) ;;
  ask (EmitConnection (pathCopied normalizedUri)).

Definition delivering (d : connection_delivery) (r : Result bool)
    : asking delivering_call (Result bool) :=
  ask (Deliver d) ;;
  mret r.

Definition in_services {A} (p : service A) : asking delivering_call A :=
  asking_lift (fun B (c : service_call B) => ByService c) p.

Definition unavailableError : AppError :=
  fromCode App_Unknown ErrorCategory_Smb (tr "Connection is unavailable.") false.

(** The closures that the queue runs. *)
Definition run_queued (context : CoreContext) (op : queued_operation)
    : asking delivering_call (Result bool) :=
  match op with
  | OpenQueued connectionId =>
      opened ← in_services (open_connection context connectionId);
      if negb (Result_ok opened)
      then delivering (OpenFailed connectionId (res_error opened))
             (Result_failure false (res_error opened))
      else delivering (OpenSucceeded (res_value opened)) (Result_success true)
  | CheckQueued connectionId =>
      checked ← in_services (check_connection context connectionId);
      if negb (Result_ok checked)
      then delivering (CheckFailed connectionId (res_error checked))
             (Result_failure false (res_error checked))
      else
      let result := res_value checked in
      if negb (ccr_available result) then
        let error := if hasError (ccr_error result) then ccr_error result
                     else unavailableError in
        delivering (CheckCompleted connectionId result) (Result_failure false error)
      else delivering (CheckCompleted connectionId result) (Result_success true)
  end.

(** What is done in the thread of the interface. *)
Definition handle_delivery (d : connection_delivery) : asking queueing_call unit :=
  match d with
  | OpenFailed connectionId error =>
      ask (ShowQueuedError "Unable to Open Connection" error) ;;
      ask (EmitConnection (connectionOpenFailed connectionId error))
  | OpenSucceeded result => ask (EmitConnection (connectionOpened result))
  | CheckCompleted connectionId result =>
      ask (EmitConnection (checkCompleted connectionId result))
  | CheckFailed connectionId error =>
      ask (ShowQueuedError "Unable to Check Connection" error) ;;
      ask (EmitConnection (checkFailed connectionId error))
  end.

End queued.

(** ** Import and export ([ImportExportController.cpp]) *)

Section files.
Context `{Qt}.

Record ExportFileRequest : Set := mkExportFileRequest {
  efr_filePath : QString;
  efr_includePlainTextPasswords : bool;
  efr_plainTextPasswordExportConfirmed : bool
}.

(** The calls: the prompter, the use case ([ConnectionImportExportService]), the file
    that is read, and the one that is saved as a whole ([QSaveFile]); a call that
    fails is followed by [LastFileError]. *)
Inductive exchange_call : Set -> Type :=
| PromptImportFile : exchange_call (option (QString * DuplicatePolicy))
| PromptExportFile : exchange_call (option ExportFileRequest)
| ShowExchangeError (title : string) (error : AppError) : exchange_call unit
| ShowImported (imported skippedDuplicates errors : Z) : exchange_call unit
| ShowExported (filePath : QString) : exchange_call unit
| UseImport (data : bytes) (policy : DuplicatePolicy) : exchange_call (Result ImportResult)
| UseExport (request : ExportConnectionsRequest) : exchange_call (Result bytes)
| OpenToRead (filePath : QString) : exchange_call bool
| ReadWholeFile : exchange_call bytes
| OpenToSave (filePath : QString) : exchange_call bool
| WriteSaved (data : bytes) : exchange_call Z
| CommitSaved : exchange_call bool
| LastFileError : exchange_call QString
| ImportCompleted (result : ImportResult) : exchange_call unit
| ExportCompleted (filePath : QString) : exchange_call unit.

Definition exchange_localIoError (details : QString) : AppError :=
  fromCode App_LocalIoError ErrorCategory_Transfer details false.

Definition show_file_error (title : string) : asking exchange_call unit :=
  details ← ask LastFileError;
  ask (ShowExchangeError title (exchange_localIoError details)).

Definition ui_importConnections : asking exchange_call unit :=
  let title := "Unable to Import Connections"%string in
  request ← ask PromptImportFile;
  match request with
  | None => mret tt
  | Some (filePath, duplicatePolicy) =>
      opened ← ask (OpenToRead filePath);
      if negb opened then show_file_error title else
      data ← ask ReadWholeFile;
      imported ← ask (UseImport data duplicatePolicy);
      if negb (Result_ok imported) then ask (ShowExchangeError title (res_error imported)) else
      let result := res_value imported in
      ask (ShowImported (Z.of_nat (length (imr_connections result)))
             (imr_skippedDuplicates result) (Z.of_nat (length (imr_errors result)))) ;;
      ask (ImportCompleted result)
  end.

Definition ui_exportConnections : asking exchange_call unit :=
  let title := "Unable to Export Connections"%string in
  request ← ask PromptExportFile;
  match request with
  | None => mret tt
  | Some request =>
      exported ← ask (UseExport (mkExportConnectionsRequest
        (efr_includePlainTextPasswords request)
        (efr_plainTextPasswordExportConfirmed request)));
      if negb (Result_ok exported) then ask (ShowExchangeError title (res_error exported)) else
      let data := res_value exported in
      opened ← ask (OpenToSave (efr_filePath request));
      if negb opened then show_file_error title else
      written ← ask (WriteSaved data);
      if negb (written =? blen data) then show_file_error title else
      committed ← ask CommitSaved;
      if negb committed then show_file_error title else
      ask (ShowExported (efr_filePath request)) ;;
      ask (ExportCompleted (efr_filePath request))
  end.

End files.

(** * What the panel and the dialog do *)

Section panel_facts.
Context `{Qt}.

(** A connection that the filter lets through. *)
Definition matches (p : ConnectionsPanel) (connection : SavedConnection) : bool :=
  let c := svc_connection connection in
  (negb (cp_favoritesOnly p) || svc_isFavorite connection)
  && (isEmpty (cp_filterText p)
      || existsb (fun field => contains (toLower field) (cp_filterText p))
           [svc_name connection; con_server c; con_share c; svc_groupId connection;
            con_normalizedUri c]).

Lemma accepts_matches p row connection :
  cp_connections p !! row = Some connection ->
  filterAcceptsRow p row = matches p connection.
Proof.
  intros Hc. unfold filterAcceptsRow, matches.
  rewrite bool_decide_eq_false_2 by (apply lookup_lt_Some in Hc; lia).
  assert (forall role, connection_data (cp_connections p) (Some row) role =
    connection_data [connection] (Some 0%nat) role) as Hd.
  { intros role. unfold connection_data. cbn. by rewrite Hc. }
  cbn [existsb]. rewrite !Hd. clear Hc Hd. cbn [connection_data mbind option_bind].
  change (cell_bool (connection_data [connection] (Some 0%nat) FavoriteRole))
    with (svc_isFavorite connection).
  by destruct (cp_favoritesOnly p), (svc_isFavorite connection), (isEmpty (cp_filterText p)).
Qed.

(** The view shows the connections that match, in their order. *)
Lemma shown_rows_match p :
  omap (fun row => cp_connections p !! row) (shown_rows p) =
  List.filter (matches p) (cp_connections p).
Proof.
  unfold shown_rows.
  assert (forall l k, (forall i c, l !! i = Some c -> cp_connections p !! (k + i)%nat = Some c) ->
    omap (fun row => cp_connections p !! row)
      (List.filter (filterAcceptsRow p) (seq k (length l))) = List.filter (matches p) l) as Hl.
  { induction l as [|c l IH]; intros k Hk; [done|]. cbn [length seq List.filter].
    pose proof (Hk 0%nat c eq_refl) as Hc. rewrite Nat.add_0_r in Hc.
    rewrite (accepts_matches _ _ _ Hc).
    assert (forall i d, l !! i = Some d -> cp_connections p !! (S k + i)%nat = Some d) as Hk'.
    { intros i d Hd. rewrite <- (Hk (S i) d Hd). f_equal. lia. }
    destruct (matches p c); cbn; rewrite ?Hc; by rewrite IH. }
  apply Hl. intros i c Hc. by rewrite Nat.add_0_l.
Qed.

(** What is asked for is asked of a connection that can be seen. *)
Lemma selected_is_shown selected p row :
  selectedSourceIndex selected p = Some row ->
  exists connection, cp_connections p !! row = Some connection /\
    matches p connection = true /\
    selectedConnectionId selected p = con_id (svc_connection connection) /\
    selectedNormalizedUri selected p = con_normalizedUri (svc_connection connection).
Proof.
  intros Hs. pose proof Hs as Hrow. unfold selectedSourceIndex in Hrow.
  destruct selected as [i|]; [|done]. apply list_elem_of_lookup_2 in Hrow.
  apply list_elem_of_In, filter_In in Hrow as [Hin Ha]. apply in_seq in Hin as [_ Hin].
  destruct (lookup_lt_is_Some_2 (cp_connections p) row Hin) as [c Hc]. exists c.
  rewrite (accepts_matches _ _ _ Hc) in Ha. split; [done|]. split; [done|].
  unfold selectedConnectionId, selectedNormalizedUri, connection_data. rewrite Hs. cbn.
  by rewrite Hc.
Qed.

End panel_facts.

(** What is documented of [indexOf], and of [fromString] with [Qt::ISODateWithMs], which
    reads years of four digits. *)
Class QtDialogLaws `{Qt} `{!QtJson} : Prop := {
  indexOf_absent s c : c ∉ s -> indexOf s c = -1;
  fromIso_year text : isValid (fromIso text) = true -> hasIsoYear (fromIso text) = true
}.

Section dialog_facts.
Context `{Qt} `{!QtLaws} `{!QtUrl}.

(** Connections that can be used: a server, a share, and a name to log in with. *)
Definition proper (connection : SavedConnection) : Prop :=
  let c := svc_connection connection in
  con_server c <> [] /\ con_share c <> [] /\
  con_normalizedUri c = QStringLiteral "smb://" ++ con_server c ++ [kSlash] ++ con_share c /\
  (con_authType c = AuthType_Password -> con_username c <> []).

Lemma isEmpty_false {s : QString} : isEmpty s = false -> s <> [].
Proof. by destruct s. Qed.

Lemma normalizeSmbPath_ok path :
  let r := normalizeSmbPath path in
  Result_ok r = true ->
  nsp_inputPath (res_value r) = path /\ trimmed path <> [] /\
  nsp_server (res_value r) <> [] /\ nsp_share (res_value r) <> [] /\
  nsp_normalizedUri (res_value r) =
    QStringLiteral "smb://" ++ nsp_server (res_value r) ++ [kSlash] ++ nsp_share (res_value r).
Proof.
  cbv zeta. unfold normalizeSmbPath. destruct (isEmpty (trimmed path)) eqn:Hp; [done|].
  apply isEmpty_false in Hp.
  destruct (if startsWithIgnoringCase _ _ then _ else _) as [details|[[server share] initial]];
    [done|].
  destruct (isEmpty server) eqn:Hs; [done|]. destruct (isEmpty share) eqn:Hh; [done|].
  intros _. cbn. split_and!; try done; by apply isEmpty_false.
Qed.

Lemma normalizeIdentity_ok authType username domain :
  let r := normalizeIdentity authType username domain in
  Result_ok r = true ->
  pid_authType (res_value r) = authType /\
  (authType = AuthType_Password -> pid_username (res_value r) <> []) /\
  exists u d, pid_username (res_value r) = trimmed u /\ pid_domain (res_value r) = trimmed d.
Proof.
  cbv zeta. unfold normalizeIdentity. case_bool_decide as Ha; cbn [negb].
  2: { intros _. split_and!; [done..|by eexists _, _]. }
  subst authType. destruct (isEmpty (trimmed username)) eqn:Hu; [done|].
  apply isEmpty_false in Hu.
  destruct (0 <? indexOf (trimmed username) kBackslash).
  - destruct (isEmpty (trimmed (midFrom _ _))) eqn:Hp; [done|]. apply isEmpty_false in Hp.
    destruct (conflicts _ _); [done|]. intros _. split_and!; [done..|by eexists _, _].
  - destruct (0 <? indexOf (trimmed username) kAt).
    + destruct (isEmpty (trimmed (left _ _))) eqn:Hp; [done|]. apply isEmpty_false in Hp.
      destruct (isEmpty (trimmed (midFrom _ _))); [done|]. cbn [orb].
      destruct (conflicts _ _); [done|]. intros _. split_and!; [done..|by eexists _, _].
    + intros _. split_and!; [done..|by eexists _, _].
Qed.

(** The dialog leaves the rest of the connection alone. *)
Definition identity_kept (c c' : SavedConnection) : Prop :=
  con_id (svc_connection c') = con_id (svc_connection c) /\
  svc_credentialRef c' = svc_credentialRef c /\
  svc_lastOpenedAt c' = svc_lastOpenedAt c /\ svc_createdAt c' = svc_createdAt c /\
  svc_lastSuccessfulCheckAt c' = svc_lastSuccessfulCheckAt c.

(** The secret that goes with a connection: of those with a password only, and there is
    one if it is required. *)
Definition secret_fits (required : bool) (c : SavedConnection) (secret : secret_pointer)
    : Prop :=
  (forall s, secret = Some s -> uses_password c = true) /\
  (required = true -> uses_password c = true -> is_Some secret).

(** What [accept] gives. *)
Definition accepted_from (d d' : ConnectionDialog) : Prop :=
  identity_kept (cd_connection d) (cd_connection d') /\ proper (cd_connection d') /\
  secret_fits (cd_passwordRequired d) (cd_connection d') (cd_secret d').

Lemma selected_authType c password :
  selectedAuthType (connection_fields c password) = con_authType (svc_connection c).
Proof. by destruct c as [[? ? ? ? ? ? []] ? ? ? ? ? ? ? ? ? ? ? ? ?]. Qed.

Lemma dialog_accept_ok d d' : dialog_accept d = (d', true) -> accepted_from d d'.
Proof.
  unfold dialog_accept. cbn [cd_fields cd_connection cd_passwordRequired with_validationMessage].
  destruct (Result_ok (normalizeSmbPath (df_path (cd_fields d)))) eqn:Hn; [|done].
  pose proof (normalizeSmbPath_ok _ Hn) as (_ & _ & Hs & Hh & Hu).
  set (authType := selectedAuthType (cd_fields d)).
  destruct (Result_ok (normalizeIdentity authType _ _)) eqn:Hi; [|done].
  pose proof (normalizeIdentity_ok _ _ _ Hi) as (Ha & Hname & _). cbn [negb].
  destruct (bool_decide (authType = AuthType_Password) && cd_passwordRequired d
    && isEmpty (df_password (cd_fields d))) eqn:Hp; [done|]. intros [= <-].
  split; [by split_and!|]. split.
  - split_and!; [done..|]. intros He. apply Hname. rewrite <- Ha. exact He.
  - assert (forall i : ParsedIdentity, pid_authType i = authType -> forall c f n,
      uses_password (connection_of_fields c f n i) =
      bool_decide (authType = AuthType_Password)) as Hup.
    { intros i Hi' c f n. unfold uses_password. cbn. by rewrite Hi'. }
    split; cbn [cd_connection cd_secret]; rewrite (Hup _ Ha).
    + intros s. by case_bool_decide.
    + intros Hr Hb. rewrite Hb, Hr in Hp. cbn [andb] in Hp. rewrite Hb, Hp. by eexists.
Qed.

(** An edit that is refused changes nothing but the message. *)
Lemma dialog_accept_refused d d' :
  dialog_accept d = (d', false) -> exists message, d' = with_validationMessage message d.
Proof.
  unfold dialog_accept. repeat case_match; intros [= <-]; by eexists.
Qed.

(** ** Editing a connection again *)

Lemma drop_while_hit f (s : QString) x l : drop_while f s = x :: l -> f x = false.
Proof.
  induction s as [|y s IH]; cbn; [done|]. destruct (f y) eqn:Hy; [done|].
  by intros [= <- <-].
Qed.

Lemma drop_while_fix f (s : QString) x l : s = x :: l -> f x = false -> drop_while f s = s.
Proof. intros ->. cbn. by intros ->. Qed.

Lemma drop_while_suffix f (s : QString) : exists k, s = k ++ drop_while f s.
Proof.
  induction s as [|y s [k IH]]; cbn; [by exists []|]. destruct (f y); [|by exists []].
  exists (y :: k). cbn. by rewrite <- IH.
Qed.

Lemma drop_while_twice f (s : QString) : drop_while f (drop_while f s) = drop_while f s.
Proof.
  destruct (drop_while f s) as [|x l] eqn:Hs; [done|].
  by apply (drop_while_fix f (x :: l) x l); [|eapply drop_while_hit].
Qed.

Lemma trimmed_again s : trimmed (trimmed s) = trimmed s.
Proof.
  rewrite (trimmed_strips (trimmed s)).
  assert (drop_while isSpace (trimmed s) = trimmed s) as ->.
  { rewrite trimmed_strips. set (l := drop_while isSpace s).
    destruct (drop_while_suffix isSpace (reverse l)) as [k Hk].
    apply (f_equal reverse) in Hk. rewrite reverse_involutive, reverse_app in Hk.
    destruct (reverse (drop_while isSpace (reverse l))) as [|x t] eqn:Ht; [done|].
    apply (drop_while_fix _ _ x t); [done|].
    apply (drop_while_hit isSpace s x (t ++ reverse k)). exact Hk. }
  by rewrite trimmed_strips, reverse_involutive, drop_while_twice.
Qed.

(** A name that is read as a name, and not as one with a domain. *)
Definition plain_name (username : QString) : Prop :=
  indexOf username kBackslash <= 0 /\ indexOf username kAt <= 0.

Lemma normalizeIdentity_again authType u d :
  let username := trimmed u in
  (authType = AuthType_Password -> username <> [] /\ plain_name username) ->
  normalizeIdentity authType username (trimmed d) =
    Result_success (mkParsedIdentity authType (trimmed d) username).
Proof.
  cbv zeta. intros Hname. unfold normalizeIdentity. rewrite !trimmed_again.
  case_bool_decide as Ha; [|done]. subst authType. cbn [negb].
  destruct (Hname eq_refl) as [Hne [Hb Hat]].
  destruct (isEmpty (trimmed u)) eqn:He; [by destruct (trimmed u)|].
  rewrite !(proj2 (Z.ltb_ge _ _)) by done. done.
Qed.

(** A connection that was accepted, opened in the dialog and accepted as it is. *)
Lemma dialog_accept_again d c :
  dialog_accept d = (c, true) ->
  (con_authType (svc_connection (cd_connection c)) = AuthType_Password ->
   plain_name (con_username (svc_connection (cd_connection c)))) ->
  exists d', dialog_accept (setConnection (cd_connection c)
                              (setPasswordRequired false ConnectionDialog_new)) = (d', true) /\
    cd_connection d' = cd_connection c /\ cd_secret d' = None.
Proof.
  unfold dialog_accept at 1.
  cbn [cd_fields cd_connection cd_passwordRequired with_validationMessage].
  destruct (Result_ok (normalizeSmbPath (df_path (cd_fields d)))) eqn:Hn; [|done].
  pose proof (normalizeSmbPath_ok _ Hn) as (Hin & Hpath & _).
  set (authType := selectedAuthType (cd_fields d)).
  set (identity := normalizeIdentity authType _ _).
  destruct (Result_ok identity) eqn:Hi; [|done].
  pose proof (normalizeIdentity_ok _ _ _ Hi) as (Ha & Hname & u & dom & Hu & Hd).
  fold identity in Ha, Hname, Hu, Hd. cbn [negb].
  destruct (_ && _); [done|]. intros [= <-]. cbn [cd_connection].
  set (c := connection_of_fields _ _ _ _).
  intros Hplain.
  assert (con_authType (svc_connection c) = authType) as Hauth by exact Ha.
  unfold dialog_accept, setConnection, with_fields.
  cbn [cd_fields cd_connection cd_passwordRequired with_validationMessage setPasswordRequired
    ConnectionDialog_new with_fields].
  set (f := connection_fields c []).
  change (connection_fields c (df_password _)) with f.
  assert (df_path f = df_path (cd_fields d)) as Hfp.
  { cbn. rewrite Hin. destruct (isEmpty (df_path (cd_fields d))) eqn:He; [|done].
    destruct (df_path (cd_fields d)) eqn:Hnil; [|done]. destruct Hpath.
    by rewrite trimmed_strips. }
  rewrite Hfp, Hn. cbn [negb].
  assert (selectedAuthType f = authType) as Hsel
    by (by rewrite <- Hauth, <- (selected_authType c [])).
  rewrite Hsel.
  assert (normalizeIdentity authType (df_username f) (df_domain f) =
          Result_success (res_value identity)) as Hagain.
  { cbn [f df_username df_domain connection_fields c connection_of_fields svc_connection
      con_username con_domain]. rewrite Hu, Hd, normalizeIdentity_again.
    - destruct (res_value identity) as [a dm un] eqn:Hid. cbn in Hu, Hd, Ha. by subst.
    - intros He. rewrite <- Hu. split; [by apply Hname|].
      apply Hplain. by rewrite Hauth. }
  rewrite Hagain. cbn [negb Result_ok]. rewrite success_ok. cbn [negb].
  rewrite andb_false_r. cbn [andb]. rewrite andb_false_r. eexists. split; [done|].
  split; [|done]. cbn [cd_connection res_value Result_success].
  unfold connection_of_fields. subst c f. cbn. by rewrite !trimmed_again.
Qed.

End dialog_facts.

(** * Histories of the list *)

(** The services with their database and secrets, how often the user still does something
    else with a dialog than to cancel it, and the errors that were shown. *)
Record manage_world : Set := mkManageWorld {
  mw_service : service_world;
  mw_patience : nat;
  mw_errors : list (string * AppError)
}.

Definition with_service (s : service_world) (w : manage_world) : manage_world :=
  mkManageWorld s (mw_patience w) (mw_errors w).
Definition with_patience (n : nat) (w : manage_world) : manage_world :=
  mkManageWorld (mw_service w) n (mw_errors w).
Definition with_shown (e : string * AppError) (w : manage_world) : manage_world :=
  mkManageWorld (mw_service w) (mw_patience w) (mw_errors w ++ [e]).

Section managed.
Context `{Qt} `{!QtLaws} `{!QtUrl} `{!QtJson} `{!QtJsonLaws} `{!QtSql} `{!QtSqlLaws}.
Context `{!QtDialogLaws}.

(** The services answer as in ServiceRuns.v, and the user may do anything. *)
Definition manage_answers {B : Set} (c : manage_call B)
    : manage_world -> B -> manage_world -> Prop :=
  match c in manage_call B return manage_world -> B -> manage_world -> Prop with
  | OfService c => fun w b w' =>
      exists s, service_answers c (mw_service w) b s /\ w' = with_service s w
  | DialogAction _ => fun w action w' =>
      match mw_patience w with
      | O => action = ClickCancelDialog /\ w' = w
      | S n => w' = with_patience n w
      end
  | ConfirmDeleteConnection _ | EmitManagement _ => fun w _ w' => w' = w
  | ShowConnectionError title error => fun w _ w' => w' = with_shown (title, error) w
  end.

Abbreviation serves p w Q := (awp (fun B => @service_answers _ _ B) False p w Q).
Abbreviation manages p w Q := (awp (fun B => @manage_answers B) False p w Q).

Definition stored_in (w : manage_world) : gmap QString SavedConnection :=
  store_of (sw_db (mw_service w)).

(** Every reference leads to a secret, and every connection can be used. *)
Definition well_managed (w : manage_world) : Prop :=
  consistent (mw_service w) /\ map_Forall (fun _ c => proper c) (stored_in w).

(** The panel has the connections of the database. *)
Definition showing (p : ConnectionsPanel) (w : manage_world) : Prop :=
  cp_connections p ≡ₚ (map_to_list (stored_in w)).*2.

(** The effect of a request on the database, when no error is shown. *)
Inductive requested (store : gmap QString SavedConnection)
    : management_request -> gmap QString SavedConnection -> Prop :=
| requested_nothing r : requested store r store
| requested_add c : proper c -> store !! con_id (svc_connection c) = None ->
    requested store RequestAdd (<[con_id (svc_connection c) := c]> store)
| requested_edit id c : proper c -> con_id (svc_connection c) = id -> is_Some (store !! id) ->
    requested store (RequestEdit id) (<[id := c]> store)
| requested_delete id : is_Some (store !! id) ->
    requested store (RequestDelete id) (delete id store).

Inductive all_requested (store : gmap QString SavedConnection)
    : list management_request -> gmap QString SavedConnection -> Prop :=
| requested_nil : all_requested store [] store
| requested_cons r rs store1 store2 : requested store r store1 ->
    all_requested store1 rs store2 -> all_requested store (r :: rs) store2.

(** What [p] leaves: errors are only added; without one, all is in order. *)
Definition managed (w : manage_world)
    (done : gmap QString SavedConnection -> gmap QString SavedConnection -> Prop)
    (w' : manage_world) (p : ConnectionsPanel) : Prop :=
  mw_errors w `prefix_of` mw_errors w' /\ (mw_patience w' <= mw_patience w)%nat /\
  (mw_errors w' = mw_errors w ->
   well_managed w' /\ showing p w' /\ done (stored_in w) (stored_in w')).

Lemma manages_service {A B} (s : service A) (f : A -> manage B) w Q :
  serves s (mw_service w) (fun v a => manages (f a) (with_service v w) Q) ->
  manages (by_service s ≫= f) w Q.
Proof.
  intros Hs. apply awp_bind.
  eapply (awp_lift _ (fun B => @service_answers _ _ B) _ mw_service with_service); try done.
  by intros [].
Qed.

Lemma more_errors {A} (l k : list A) x : (l ++ [x]) `prefix_of` k -> k <> l.
Proof.
  intros [t ->] He. apply (f_equal length) in He. rewrite !length_app in He.
  cbn in He. lia.
Qed.

(** An error is shown. *)
Lemma manages_error title error p w w' done :
  mw_errors w' = mw_errors w -> (mw_patience w' <= mw_patience w)%nat ->
  manages (show_error title error p) w' (managed w done).
Proof.
  intros He Hp u w1; cbn. intros ->. unfold managed. cbn. rewrite He.
  split_and!; [by eexists|done|]. intros Hs. by apply (more_errors _ _ _ (reflexivity _)) in Hs.
Qed.

(** ** The dialog *)

Lemma dialog_kept d f : cd_connection (with_fields f d) = cd_connection d /\
  cd_passwordRequired (with_fields f d) = cd_passwordRequired d.
Proof. done. Qed.

Lemma manages_dialog {B} fuel d (f : ConnectionDialog * bool -> manage B) w Q :
  (mw_patience w < fuel)%nat ->
  (forall n d' accepted, (n <= mw_patience w)%nat ->
     (accepted = true -> accepted_from d d') ->
     manages (f (d', accepted)) (with_patience n w) Q) ->
  manages (dialog_exec fuel d ≫= f) w Q.
Proof.
  intros Hfuel Hf. apply awp_bind.
  revert d w Hfuel Hf. induction fuel as [|fuel IH]; intros d w Hfuel Hf; [lia|].
  cbn [dialog_exec]. apply awp_ask. intros action w'; cbn. intros Ha.
  assert (exists n, (n <= mw_patience w)%nat /\ w' = with_patience n w /\
    (action = ClickCancelDialog \/ (n < fuel)%nat)) as (n & Hn & -> & Hact).
  { destruct (mw_patience w) as [|n] eqn:Hp.
    - destruct Ha as [-> ->]. exists 0%nat. split; [lia|]. split; [|by left].
      destruct w. cbn in Hp. by subst.
    - exists n. split; [lia|]. split; [done|]. right. lia. }
  assert (forall d1, (n < fuel)%nat -> (forall d', accepted_from d1 d' -> accepted_from d d') ->
    manages (dialog_exec fuel d1) (with_patience n w) (fun w1 x => manages (f x) w1 Q)) as Hloop.
  { intros d1 Hlt Hd1. apply IH; [done|]. intros m d' accepted Hm Hacc. cbn in Hm.
    change (with_patience m (with_patience n w)) with (with_patience m w).
    apply Hf; [lia|]. auto. }
  destruct action as [g| |].
  - destruct Hact as [|Hlt]; [done|]. apply Hloop; [done|]. by intros d' Hd'.
  - destruct Hact as [|Hlt]; [done|]. destruct (dialog_accept d) as [d' [|]] eqn:Hd.
    + apply Hf; [done|]. intros _. by apply dialog_accept_ok.
    + apply dialog_accept_refused in Hd as [message ->]. apply Hloop; [done|]. by intros d' Hd'.
  - by apply Hf.
Qed.

(** ** Refreshing *)

Lemma orderly_same w w' : mw_service w' = mw_service w -> well_managed w -> well_managed w'.
Proof. unfold well_managed, stored_in. by intros ->. Qed.

(** [refreshConnections] at the end of a handler, when the services have done their part. *)
Lemma manages_refresh p w (Q : manage_world -> ConnectionsPanel -> Prop) :
  keyed (sw_db (mw_service w)) -> (forall p', showing p' w -> Q w p') ->
  (forall p' title error, Q (with_shown (title, error) w) p') ->
  manages (refreshConnections p) w Q.
Proof.
  intros Hk Hok Herr. unfold refreshConnections. apply manages_service.
  unfold service_list. apply (serves_store_last StoreList); [done..|].
  intros db r (_ & _ & -> & Hr); [|done]. rewrite with_same_db.
  assert (with_service (mw_service w) w = w) as -> by by destruct w.
  destruct (Result_ok r); cbn [negb].
  - intros u w1; cbn. intros ->. apply Hok. exact (proj1 Hr).
  - intros u w1; cbn. intros ->. apply Herr.
Qed.

Lemma manages_refreshed r p w w0 store store' s :
  mw_errors w = mw_errors w0 -> (mw_patience w <= mw_patience w0)%nat -> well_managed w ->
  stored_in w0 = store -> stored_in w = store' -> requested store r store' ->
  manages (p ← refreshConnections p; ask (EmitManagement s) ;; mret p) w
    (managed w0 (fun store => requested store r)).
Proof.
  intros He Hp Ho Hs Hs' Hr. apply awp_bind, manages_refresh; [apply Ho|..].
  - intros p' Hsh u w1; cbn. intros ->. unfold managed. rewrite He, Hs, Hs'. by split_and!.
  - intros p' title error u w1; cbn. intros ->. unfold managed. cbn. rewrite He.
    split_and!; [by eexists|done|]. intros Hx. by apply (more_errors _ _ _ (reflexivity _)) in Hx.
Qed.

(** Nothing is done. *)
Lemma managed_same r p w w' :
  well_managed w -> showing p w -> mw_service w' = mw_service w -> mw_errors w' = mw_errors w ->
  (mw_patience w' <= mw_patience w)%nat -> managed w (fun store => requested store r) w' p.
Proof.
  intros Ho Hs Hsv He Hp. unfold managed. rewrite He. split_and!; [done..|]. intros _.
  split; [by eapply orderly_same|]. unfold showing, stored_in. rewrite Hsv.
  split; [exact Hs|apply requested_nothing].
Qed.

(** ** The services *)

Lemma proper_like c c' r : proper c -> like c' r ->
  svc_connection c' = svc_connection c \/
  (exists id, svc_connection c' = svc_connection (with_id id c)) -> proper (as_read r).
Proof.
  intros (Hs & Hh & Hu & Ha) (id & d1 & d2 & ref & ->) Hc. unfold proper.
  destruct Hc as [Hc|[i Hc]]; cbn; rewrite Hc; cbn; by split_and!.
Qed.

Lemma stored_dates_fit (db : database) id c :
  store_of db !! id = Some c ->
  date_fits (svc_lastOpenedAt c) /\ date_fits (svc_createdAt c) /\
  date_fits (svc_lastSuccessfulCheckAt c).
Proof.
  rewrite keyed_store. destruct (db_connections db !! id) as [r|]; [|done]. intros [= <-].
  cbn. assert (forall v, date_fits (dateFromValue v)) as Hv.
  { intros v. unfold dateFromValue. destruct (_ || _); [|intros Hv; by apply fromIso_year].
    intros Hv. by rewrite isValid_null in Hv. }
  by split_and!.
Qed.

Context (fuel : nat).

Lemma manages_add p w :
  well_managed w -> showing p w -> (mw_patience w < fuel)%nat ->
  manages (addConnection fuel p) w (managed w (fun store => requested store RequestAdd)).
Proof.
  intros Ho Hs Hfuel. pose proof Ho as [Hc Hp]. apply manages_dialog; [done|].
  intros n d accepted Hn Hacc. cbv beta iota.
  destruct accepted; cbn [negb]; [|by apply managed_same].
  destruct (Hacc eq_refl) as ((Hid & _ & Ho1 & Ho2 & Ho3) & Hproper & _).
  set (c := cd_connection d) in *. set (secret := cd_secret d).
  apply manages_service. cbn [mw_service with_patience].
  assert (admissible (CreateConnection c secret) (mw_service w)) as Hadm.
  { cbn. rewrite Ho1, Ho2, Ho3. cbn. unfold date_fits. rewrite isValid_null. done. }
  eapply awp_mono; [exact (serves_connection (CreateConnection c secret) _ Hc Hadm)|].
  intros s r [Hleft Hdone]. destruct (Result_ok r) eqn:Hok; cbn [negb].
  2: by apply manages_error.
  destruct (Hdone eq_refl) as (Hlike & Hnew & Hst & _). destruct Hleft as [Hc'|[]].
  assert (proper (as_read (res_value r))) as Hr
    by (by eapply proper_like; [exact Hproper| |left]).
  eapply manages_refreshed; try done.
  - split; [done|]. unfold stored_in. cbn [mw_service with_service]. rewrite Hst.
    by apply map_Forall_insert_2.
  - by apply (requested_add _ (as_read (res_value r))).
Qed.

Lemma manages_edit id p w :
  well_managed w -> showing p w -> (mw_patience w < fuel)%nat ->
  manages (editConnection fuel id p) w
    (managed w (fun store => requested store (RequestEdit id))).
Proof.
  intros Ho Hs Hfuel. pose proof Ho as [Hc Hp]. pose proof Hc as [Hk Hb].
  apply manages_service. unfold service_getById.
  apply (serves_store_last (StoreGet id)); [done..|].
  intros db found (_ & _ & -> & Hfound); [|done]. rewrite with_same_db.
  assert (with_service (mw_service w) w = w) as -> by by destruct w.
  destruct (Result_ok found); cbn [negb]; [|by apply manages_error].
  destruct Hfound as [Hfound _]. set (c0 := res_value found) in *.
  apply manages_dialog; [done|]. intros n d accepted Hn Hacc. cbv beta iota.
  destruct accepted; cbn [negb]; [|by apply managed_same].
  destruct (Hacc eq_refl) as ((Hid & Href & Ho1 & Ho2 & Ho3) & Hproper & _).
  cbn [cd_connection setConnection with_fields] in Hid, Href, Ho1, Ho2, Ho3.
  set (c := cd_connection d) in *. set (secret := cd_secret d).
  apply manages_service. cbn [mw_service with_patience].
  assert (con_id (svc_connection c) = id) as Hcid
    by (rewrite Hid; by apply (keyed_id _ _ _ Hk Hfound)).
  assert (admissible (UpdateConnection c secret) (mw_service w)) as Hadm.
  { split; [cbn; rewrite Ho1, Ho2, Ho3; by eapply stored_dates_fit|].
    intros _ _. rewrite Href. by apply (Hb id c0 Hfound). }
  eapply awp_mono; [exact (serves_connection (UpdateConnection c secret) _ Hc Hadm)|].
  intros s r [Hleft Hdone]. destruct (Result_ok r) eqn:Hok; cbn [negb].
  2: by apply manages_error.
  destruct (Hdone eq_refl) as (Hlike & Hold & Hst & _). rewrite Hcid in Hold, Hst.
  destruct Hleft as [Hc'|(_ & Hno & _)]; [|congruence].
  assert (proper (as_read (res_value r))) as Hr
    by (by eapply proper_like; [exact Hproper| |left]).
  eapply manages_refreshed; try done.
  - split; [done|]. unfold stored_in. cbn [mw_service with_service]. rewrite Hst.
    by apply map_Forall_insert_2.
  - apply requested_edit; try done.
    apply (keyed_id (sw_db s)); [apply Hc'|]. rewrite Hst. apply lookup_insert_eq.
Qed.

Lemma manages_delete id p w :
  well_managed w -> showing p w ->
  manages (deleteConnection id p) w
    (managed w (fun store => requested store (RequestDelete id))).
Proof.
  intros Ho Hs. pose proof Ho as [Hc Hp]. pose proof Hc as [Hk Hb].
  apply manages_service. unfold service_getById.
  apply (serves_store_last (StoreGet id)); [done..|].
  intros db found (_ & _ & -> & Hfound); [|done]. rewrite with_same_db.
  assert (with_service (mw_service w) w = w) as -> by by destruct w.
  destruct (Result_ok found); cbn [negb]; [|by apply manages_error].
  destruct Hfound as [Hfound _]. apply awp_ask.
  intros confirmed w1 Hw1. cbn in Hw1. subst w1.
  destruct confirmed; cbn [negb]; [|by apply managed_same].
  apply manages_service.
  eapply awp_mono; [exact (serves_connection (RemoveConnection id) _ Hc I)|].
  intros s r [Hleft Hdone]. destruct (Result_ok r) eqn:Hok; cbn [negb].
  2: by apply manages_error.
  destruct (Hdone eq_refl) as (Hst & _). destruct Hleft as [Hc'|[]].
  destruct (res_value r); cbn [negb]; [|by apply manages_error].
  eapply manages_refreshed; try done.
  - split; [done|]. unfold stored_in. cbn [mw_service with_service]. rewrite Hst.
    by apply map_Forall_delete.
  - by apply requested_delete.
Qed.

Lemma manages_request r p w :
  well_managed w -> showing p w -> (mw_patience w < fuel)%nat ->
  manages (manage_request fuel r p) w (managed w (fun store => requested store r)).
Proof.
  intros Ho Hs Hfuel. destruct r as [|id|id|].
  - by apply manages_add.
  - by apply manages_edit.
  - by apply manages_delete.
  - apply manages_refresh; [apply Ho|..].
    + intros p' Hsh. by apply managed_same.
    + intros p' title error. unfold managed. cbn. split_and!; [by eexists|done|].
      intros Hx. by apply (more_errors _ _ _ (reflexivity _)) in Hx.
Qed.

Definition grew (w w' : manage_world) : Prop :=
  mw_errors w `prefix_of` mw_errors w' /\ (mw_patience w' <= mw_patience w)%nat.

#[local] Instance grew_preorder : PreOrder grew.
Proof.
  split; [by intros w|]. intros w1 w2 w3 [? ?] [? ?]. split; [by etrans|lia].
Qed.

Lemma runs_grow {A} (q : manage A) w o w' :
  asks (fun B => @manage_answers B) q w o w' -> grew w w'.
Proof.
  apply asks_preserves; [apply _|]. intros B c w1 b w2. unfold grew.
  destruct c as [B c|d|c|title error|sg]; cbn; try (by intros ->).
  - by intros (v & _ & ->).
  - destruct (mw_patience w1) as [|n] eqn:Hn; [intros [_ ->]|intros ->; cbn]; split; try done; lia.
  - intros ->. split; [by eexists|done].
Qed.

Lemma grew_same w1 w2 w3 :
  grew w1 w2 -> grew w2 w3 -> mw_errors w3 = mw_errors w1 ->
  mw_errors w2 = mw_errors w1 /\ mw_errors w3 = mw_errors w2.
Proof.
  intros [[l H12] _] [[k H23] _] H13. rewrite H12, <- app_assoc in H23. rewrite H23 in H13.
  rewrite <- (app_nil_r (mw_errors w1)) in H13 at 2. apply app_inv_head in H13.
  apply app_eq_nil in H13 as [-> ->]. rewrite !app_nil_r in *. by rewrite H23, H12.
Qed.

Lemma request_runs r p w o w' :
  well_managed w -> showing p w -> (mw_patience w < fuel)%nat ->
  asks (fun B => @manage_answers B) (manage_request fuel r p) w o w' ->
  exists p', o = Some p' /\ managed w (fun store => requested store r) w' p'.
Proof.
  intros Ho Hs Hfuel Hrun. eapply awp_runs in Hrun; [|by apply manages_request].
  destruct o as [p'|]; [|done]. by exists p'.
Qed.

(** C16: The list that is shown is the list that is stored. Take a database and a store
    of secrets in which every reference of a connection leads to a secret and every
    connection has a server, a share and a name to log in with where it needs one, and a
    panel that shows what is stored. Let the user add, edit and delete connections, with
    whatever is typed into the dialogs and however often they are refused, and let the
    list be refreshed, in any order, whatever the database and the store of secrets
    answer. Errors are only added to those that were shown, and a single request always
    comes to an end. As long as no error is shown, all of it comes to an end, the panel
    shows what is stored, every reference leads to a secret and every connection can be
    used, and the requests did to what is stored what they are for: each added one new
    connection, changed the one it was for or deleted it, or did nothing. *)
Theorem connections_managed rs p w o w' :
  well_managed w -> showing p w -> (mw_patience w < fuel)%nat ->
  asks (fun B => @manage_answers B) (manage_requests fuel rs p) w o w' ->
  mw_errors w `prefix_of` mw_errors w' /\
  (length rs <= 1 -> is_Some o)%nat /\
  (mw_errors w' = mw_errors w -> exists p', o = Some p' /\
     showing p' w' /\ well_managed w' /\ all_requested (stored_in w) rs (stored_in w')).
Proof.
  intros Ho Hs Hfuel Hrun. split; [by apply (runs_grow _ _ _ _ Hrun)|]. split.
  - destruct rs as [|r [|? ?]]; cbn [length]; intros Hl; [| |lia].
    + apply asks_inv in Hrun as [-> _]. by eexists.
    + cbn [manage_requests] in Hrun. apply asks_bind in Hrun as [[-> Hr]|(p1 & w1 & Hr & Hrun)].
      * by apply request_runs in Hr as (p1 & [=] & _).
      * apply asks_inv in Hrun as [-> _]. by eexists.
  - revert p w Ho Hs Hfuel Hrun. induction rs as [|r rs IH]; intros p w Ho Hs Hfuel Hrun He.
    { apply asks_inv in Hrun as [-> ->]. exists p. split_and!; try done. constructor. }
    cbn [manage_requests] in Hrun. apply asks_bind in Hrun as [[-> Hr]|(p1 & w1 & Hr & Hrun)].
    { by apply request_runs in Hr as (p1 & [=] & _). }
    pose proof (runs_grow _ _ _ _ Hr) as Hg1. pose proof (runs_grow _ _ _ _ Hrun) as Hg2.
    destruct (grew_same _ _ _ Hg1 Hg2 He) as [He1 He2].
    apply request_runs in Hr as (p1' & [= <-] & _ & _ & Hm); try done.
    destruct (Hm He1) as (Ho1 & Hs1 & Hd1).
    destruct (IH p1 w1 Ho1 Hs1 ltac:(destruct Hg1; lia) Hrun He2) as (p' & -> & Hs' & Ho' & Hd').
    exists p'. split_and!; try done. by econstructor.
Qed.

End managed.

(** * What is opened and checked is reported *)

Record delivery_world `{Qt} : Set := mkDeliveryWorld {
  dw_service : service_world;
  dw_delivered : list connection_delivery
}.
Arguments mkDeliveryWorld {_} _ _.

Section delivered.
Context `{Qt} `{!QtJson} `{!QtJsonLaws} `{!QtSql} `{!QtSqlLaws}.

Definition delivery_answers {B : Set} (c : delivering_call B)
    : delivery_world -> B -> delivery_world -> Prop :=
  match c in delivering_call B return delivery_world -> B -> delivery_world -> Prop with
  | ByService B c => fun w b w' => exists s,
      service_answers c (dw_service w) b s /\ w' = mkDeliveryWorld s (dw_delivered w)
  | Deliver d => fun w _ w' => w' = mkDeliveryWorld (dw_service w) (dw_delivered w ++ [d])
  end.

Abbreviation serves p w Q := (awp (fun B => @service_answers _ _ B) False p w Q).
Abbreviation delivers p w Q := (awp (fun B => @delivery_answers B) False p w Q).

(** What a check says: the client's error, and the status it is for. *)
Definition check_left (w : service_world) (r : Result ConnectivityCheckResult) : Prop :=
  if Result_ok r then
    let c := res_value r in
    if ccr_available c
    then sw_failure w = None /\ ccr_status c = ConnectionStatus_Available /\
         ccr_error c = noError
    else ccr_status c = connectionStatusForSmbError (ae_code (ccr_error c)) /\
         match sw_failure w with
         | Some (client, e) => client = true /\ ccr_error c = e
         | None => hasError (ccr_error c) = false
         end
  else match sw_failure w with
       | Some (client, e) => client = false /\ res_error r = e
       | None => database_error (res_error r)
       end.

Lemma serves_check context id w :
  keyed (sw_db w) -> sw_failure w = None ->
  serves (check_connection context id) w check_left.
Proof.
  intros Hk Hn. apply serves_with_secret; [done|..].
  - intros e He. unfold check_left. rewrite database_error_fails by done. by rewrite Hn.
  - intros e db Hok _ _. unfold check_left. by rewrite Hok.
  - intros c secret Hc. apply serves_client; [done|..].
    + intros checked Hok. rewrite Hok. apply serves_now. intros now _ Hy _.
      destruct (res_value checked); cbn [andb].
      * rewrite (keyed_id _ _ _ Hk Hc).
        apply (serves_store (StoreChecked id now)); [done|by intros ?|].
        intros db r (_ & _ & _ & Hr). destruct (Result_ok r) eqn:Hrok; cbn [negb].
        -- by apply serves_give.
        -- apply serves_give. unfold check_left. rewrite failure_error, Hrok. cbn. rewrite Hn.
           destruct Hr as [_ [Hr|[Hr _]]]; [by left|by right].
      * apply serves_remember; [done|]. intros db _ _. apply serves_give.
        unfold check_left. cbn. rewrite Hn. split; [done|].
        unfold Result_ok in Hok. by apply negb_true_iff in Hok.
    + intros checked Hok. rewrite Hok. apply serves_now. intros now _ _ _. cbn [andb].
      apply serves_remember; [done|]. intros db _ _. apply serves_give. by split_and!.
Qed.

(** What is posted fits what the operation ends with, and what happened. *)
Definition operation_reported (op : queued_operation) (w : service_world)
    (d : connection_delivery) (r : Result bool) : Prop :=
  match op, d with
  | OpenQueued id, OpenSucceeded result =>
      Result_ok r = true /\ sw_failure w = None /\
      store_of (sw_db w) !! id = Some (ocr_connection result)
  | OpenQueued id, OpenFailed id' error =>
      id' = id /\ Result_ok r = false /\ res_error r = error
  | CheckQueued id, CheckCompleted id' result =>
      id' = id /\ Result_ok r = ccr_available result /\ check_left w (Result_success result) /\
      (hasError (ccr_error result) = true -> res_error r = ccr_error result)
  | CheckQueued id, CheckFailed id' error =>
      id' = id /\ Result_ok r = false /\ res_error r = error /\
      check_left w (Result_failure no_check error)
  | _, _ => False
  end.

Lemma delivers_service {A B} (s : service A) (f : A -> asking delivering_call B) w Q :
  serves s (dw_service w) (fun v a => delivers (f a) (mkDeliveryWorld v (dw_delivered w)) Q) ->
  delivers (in_services s ≫= f) w Q.
Proof.
  intros Hs. apply awp_bind.
  eapply (awp_lift _ (fun B => @service_answers _ _ B) _ dw_service
            (fun v w => mkDeliveryWorld v (dw_delivered w))); try done.
  by intros [].
Qed.

Lemma delivers_run context op w :
  keyed (sw_db (dw_service w)) -> sw_failure (dw_service w) = None ->
  delivers (run_queued context op) w (fun w' r => exists d,
    dw_delivered w' = dw_delivered w ++ [d] /\ operation_reported op (dw_service w') d r).
Proof.
  intros Hk Hn. destruct op as [id|id]; apply delivers_service.
  - eapply awp_mono; [exact (serves_remote context (OpenConnection id) _ Hk Hn)|].
    intros v r [Hl Hd]. destruct (Result_ok r) eqn:Hok; cbn [negb]; intros u w'; cbn; intros ->;
      (eexists; split; [done|]); cbn.
    + destruct (Hd eq_refl) as [Hst _]. split_and!; [done| |exact Hst].
      destruct Hl as (_ & _ & Hl). destruct (sw_failure v) as [[client e]|]; [|done].
      destruct Hl as [Hl _]. congruence.
    + by rewrite failure_error.
  - eapply awp_mono; [exact (serves_check context id _ Hk Hn)|].
    intros v r Hl. destruct (Result_ok r) eqn:Hok; cbn [negb].
    2: { intros u w'; cbn. intros ->. eexists. split; [done|]. cbn. rewrite failure_error.
         split_and!; try done. unfold check_left in *. by rewrite failure_error, Hok in *. }
    assert (check_left v (Result_success (res_value r))) as Hleft.
    { unfold check_left in *. by rewrite Hok in Hl. }
    destruct (ccr_available (res_value r)) eqn:Ha; cbn [negb];
      intros u w'; cbn; intros ->; (eexists; split; [done|]); cbn; rewrite Ha.
    + split_and!; try done. unfold check_left in Hl. rewrite Hok, Ha in Hl.
      destruct Hl as (_ & _ & ->). done.
    + destruct (hasError (ccr_error (res_value r))) eqn:He; split_and!; try done.
      unfold Result_ok, Result_failure. cbn. by rewrite He.
Qed.

(** What is opened or checked is reported. Take a database whose rows are kept by
    their ids, and a connection that is to be opened or checked. The operation that the
    queue runs comes to an end, whatever the database, the store of secrets and the
    client answer, and posts one event to the interface, which says of that connection
    what the operation tells the queue. It posts an opened connection only if nothing
    failed, as it is stored; it posts an available one only if the client reached it,
    and otherwise the error of the client with the status that is meant for it; and it
    posts a failed check only for an error of the database or of the store of secrets. *)
Theorem queued_operations_report context op w o w' :
  keyed (sw_db (dw_service w)) -> sw_failure (dw_service w) = None ->
  asks (fun B => @delivery_answers B) (run_queued context op) w o w' ->
  exists r d, o = Some r /\ dw_delivered w' = dw_delivered w ++ [d] /\
    operation_reported op (dw_service w') d r.
Proof.
  intros Hk Hn Hr. eapply awp_runs in Hr; [|by apply delivers_run].
  destruct o as [r|]; [|done]. destruct Hr as (d & Hd & Hrep). by exists r, d.
Qed.

End delivered.

(** * The dialog as a whole *)

Section dialog_properties.
Context `{Qt} `{!QtLaws} `{!QtUrl}.

(** C30: The dialog lets through what can be used, and no more than was typed. When it
    is accepted, the connection has a server, a share, the URI of these and, if it is to
    log in with a password, a user name; its id, its reference and its dates are the
    ones it had; and a secret goes with it only if it uses a password, and always if one
    is required. When it is refused, only the message changes. And an accepted
    connection that is opened in the dialog again and accepted as it is, is the same,
    without a new secret, provided its user name is not read as one with a domain. *)
Theorem dialog_keeps d d' :
  (dialog_accept d = (d', true) ->
     identity_kept (cd_connection d) (cd_connection d') /\ proper (cd_connection d') /\
     secret_fits (cd_passwordRequired d) (cd_connection d') (cd_secret d') /\
     ((con_authType (svc_connection (cd_connection d')) = AuthType_Password ->
       plain_name (con_username (svc_connection (cd_connection d')))) ->
      exists d'', dialog_accept (setConnection (cd_connection d')
                    (setPasswordRequired false ConnectionDialog_new)) = (d'', true) /\
        cd_connection d'' = cd_connection d' /\ cd_secret d'' = None)) /\
  (dialog_accept d = (d', false) -> exists message, d' = with_validationMessage message d).
Proof.
  split; [|apply dialog_accept_refused]. intros Hd.
  destruct (dialog_accept_ok _ _ Hd) as (Hk & Hp & Hs). split_and!; [done..|].
  by apply (dialog_accept_again d).
Qed.

End dialog_properties.

(** ** A history *)

#[local] Existing Instances sample_url sample_json sample_json_laws.

#[local] Instance sample_dialog_laws : @QtDialogLaws ascii_qt sample_json.
Proof.
  split; [|done]. intros s c. cbn. generalize 0. induction s as [|x s IH]; intros i Hc; [done|].
  apply not_elem_of_cons in Hc as [Hx Hc]. cbn. rewrite (proj2 (Z.eqb_neq x c)) by congruence.
  by apply IH.
Qed.

(** The user first forgets the password, and then types it. *)
Definition typed (password : string) : DialogFields :=
  mkDialogFields (QStringLiteral " Home ") (QStringLiteral "\\nas\home\in") 0
    (QStringLiteral "me@here") [] (QStringLiteral password) [] [] true.

(** What the user does when so much patience is left. *)
Definition typist (patience : nat) : dialog_action :=
  match patience with
  | 3%nat => EditFields (typed "")
  | 1%nat => EditFields (typed "pw")
  | _ => ClickOk
  end.

Definition manage_serve {B : Set} (c : manage_call B)
    : manage_world -> option (B * manage_world) :=
  match c in manage_call B return manage_world -> option (B * manage_world) with
  | OfService c => fun w =>
      '(b, s) ← service_serve false c (mw_service w);
      Some (b, with_service s w)
  | DialogAction _ => fun w =>
      match mw_patience w with
      | O => Some (ClickCancelDialog, w)
      | S n => Some (typist n, with_patience n w)
      end
  | ConfirmDeleteConnection _ => fun w => Some (true, w)
  | ShowConnectionError title error => fun w => Some (tt, with_shown (title, error) w)
  | EmitManagement _ => fun w => Some (tt, w)
  end.

Lemma manage_serve_answers (B : Set) (c : manage_call B) w b w' :
  manage_serve c w = Some (b, w') -> manage_answers c w b w'.
Proof.
  destruct c as [B c|d|c|title error|s]; cbn [manage_serve manage_answers];
    [|destruct (mw_patience w); by intros [= <- <-]|by intros [= <- <-]..].
  destruct (service_serve false c (mw_service w)) as [[b0 s]|] eqn:Hs; [|done].
  intros [= <- <-]. exists s. split; [|done]. by eapply service_serve_answers.
Qed.

Definition managed_start : manage_world := mkManageWorld two_connections 4 [].

Definition managed_panel : ConnectionsPanel :=
  mkConnectionsPanel (map_to_list (stored_in managed_start)).*2 [] false.

Lemma managed_start_orderly : well_managed managed_start.
Proof.
  split; [exact two_consistent|]. unfold stored_in, managed_start, two_connections, store_of.
  cbn [mw_service sw_db db_connections]. rewrite fmap_insert, map_fmap_singleton.
  apply map_Forall_insert_2; [|apply map_Forall_singleton];
    by split_and!; (vm_compute; congruence).
Qed.

Lemma managed_panel_showing : showing managed_panel managed_start.
Proof. unfold showing, managed_panel. cbn [cp_connections]. reflexivity. Qed.

Definition a_session : list management_request :=
  [RequestAdd; RequestDelete (QStringLiteral "d"); RequestRefresh].

Lemma run_session : exists p' w',
  run_asking (fun B => @manage_serve B) (manage_requests 5 a_session managed_panel) managed_start
    = Some (Some p', w') /\ mw_errors w' = [] /\
  svc_name <$> cp_connections p' = [QStringLiteral "Lab"; QStringLiteral "Home"].
Proof.
  assert (match run_asking (fun B => @manage_serve B)
      (manage_requests 5 a_session managed_panel) managed_start with
    | Some (Some p', w') => (svc_name <$> cp_connections p', mw_errors w')
    | _ => ([], [(""%string, noError)]) end
    = ([QStringLiteral "Lab"; QStringLiteral "Home"], [])) as Hr by (by vm_compute).
  destruct (run_asking _ _ _) as [[[p'|] w']|]; try done. injection Hr as Hn He.
  by exists p', w'.
Qed.

Lemma connections_managed_witness : exists p' w',
  run_asking (fun B => @manage_serve B) (manage_requests 5 a_session managed_panel) managed_start
    = Some (Some p', w') /\ showing p' w' /\ well_managed w' /\
  svc_name <$> cp_connections p' = [QStringLiteral "Lab"; QStringLiteral "Home"].
Proof.
  destruct run_session as (p' & w' & Hrun & He & Hn). exists p', w'. split; [exact Hrun|].
  apply (run_runs (fun B => manage_answers (B:=B))) in Hrun; [|exact manage_serve_answers].
  destruct (connections_managed 5 a_session managed_panel managed_start (Some p') w'
    managed_start_orderly managed_panel_showing ltac:(cbn; lia) Hrun) as (_ & _ & Hall).
  destruct (Hall He) as (p'' & Hp & Hs & Ho & _). injection Hp as <-. by split_and!.
Defined.

(** A name with a domain and a realm: accepted once, and refused when it is opened again,
    because what is left of it looks like a name with another domain. *)
Definition two_domains : DialogFields :=
  mkDialogFields [] (QStringLiteral "nas/home") 0 (QStringLiteral "corp\me@here") []
    (QStringLiteral "pw") [] [] false.

Lemma domain_twice_refused :
  let '(d, accepted) := dialog_accept (with_fields two_domains ConnectionDialog_new) in
  let '(_, again) := dialog_accept (setConnection (cd_connection d)
                       (setPasswordRequired false ConnectionDialog_new)) in
  accepted = true /\ again = false.
Proof. by vm_compute. Qed.

(** Without a user name, the dialog says that the path is not valid. *)
Lemma missing_name_blames_path :
  cd_validationMessage (fst (dialog_accept (with_fields
    (mkDialogFields [] (QStringLiteral "nas/home") 0 [] [] (QStringLiteral "pw") [] [] false)
    ConnectionDialog_new))) = QStringLiteral "The path is not valid.".
Proof. by vm_compute. Qed.

Lemma dialog_keeps_witness : exists d d'',
  dialog_accept (with_fields (typed "pw") ConnectionDialog_new) = (d, true) /\
  proper (cd_connection d) /\
  dialog_accept (setConnection (cd_connection d)
    (setPasswordRequired false ConnectionDialog_new)) = (d'', true) /\
  cd_connection d'' = cd_connection d.
Proof.
  destruct (dialog_accept (with_fields (typed "pw") ConnectionDialog_new)) as [d b] eqn:Hd.
  assert (b = true) as -> by (by apply (f_equal snd) in Hd; vm_compute in Hd).
  destruct (proj1 (dialog_keeps (with_fields (typed "pw") ConnectionDialog_new) d) Hd)
    as (_ & Hp & _ & Hagain).
  destruct Hagain as (d'' & Ha & Hc & _).
  - intros _. apply (f_equal (fun x => con_username (svc_connection (cd_connection (fst x)))))
      in Hd. cbn [fst] in Hd. rewrite <- Hd. split; vm_compute; congruence.
  - by exists d, d''.
Defined.

(** ** An operation that is reported *)

Definition delivery_serve {B : Set} (c : delivering_call B)
    : delivery_world -> option (B * delivery_world) :=
  match c in delivering_call B return delivery_world -> option (B * delivery_world) with
  | ByService B c => fun w =>
      '(b, s) ← service_serve false c (dw_service w);
      Some (b, mkDeliveryWorld s (dw_delivered w))
  | Deliver d => fun w => Some (tt, mkDeliveryWorld (dw_service w) (dw_delivered w ++ [d]))
  end.

Lemma delivery_serve_answers (B : Set) (c : delivering_call B) w b w' :
  delivery_serve c w = Some (b, w') -> delivery_answers c w b w'.
Proof.
  destruct c as [B c|d]; cbn [delivery_serve delivery_answers]; [|by intros [= <- <-]].
  destruct (service_serve false c (dw_service w)) as [[b0 s]|] eqn:Hs; [|done].
  intros [= <- <-]. exists s. split; [|done]. by eapply service_serve_answers.
Qed.

Definition check_desk : queued_operation := CheckQueued (QStringLiteral "d").

Lemma run_check_desk : exists r w',
  run_asking (fun B => @delivery_serve B) (run_queued no_callbacks check_desk)
    (mkDeliveryWorld two_connections []) = Some (Some r, w') /\ Result_ok r = true.
Proof.
  assert (match run_asking (fun B => @delivery_serve B) (run_queued no_callbacks check_desk)
      (mkDeliveryWorld two_connections []) with
    | Some (Some r, _) => Result_ok r | _ => false end = true) as Hr by (by vm_compute).
  destruct (run_asking _ _ _) as [[[r|] w']|]; try done. by exists r, w'.
Qed.

Lemma queued_operations_report_witness : exists r w' d,
  run_asking (fun B => @delivery_serve B) (run_queued no_callbacks check_desk)
    (mkDeliveryWorld two_connections []) = Some (Some r, w') /\
  dw_delivered w' = [d] /\ operation_reported check_desk (dw_service w') d r.
Proof.
  destruct run_check_desk as (r & w' & Hrun & Hok).
  pose proof (run_runs (fun B => delivery_answers (B:=B)) _ _ _ _ _ delivery_serve_answers Hrun)
    as Hr.
  destruct (queued_operations_report no_callbacks check_desk (mkDeliveryWorld two_connections [])
    (Some r) w' (proj1 two_consistent) eq_refl Hr) as (r' & d & Hr' & Hd & Hrep).
  injection Hr' as <-. by exists r, w', d.
Defined.
