(* ===== verification/Keychain.v ===== *)
(** * The key ring of the desktop ([QtKeychainCredentialStore.cpp])

    The store of secrets the program uses.  Its methods are programs over the jobs of
    QtKeychain; over a key ring that does what the jobs are documented to do, they
    answer as the theorems on the services (ServiceRuns.v) ask of a store. *)

From stdpp Require Import gmap.
From S2P Require Export ServiceRuns.
Local Open Scope Z_scope.

(** [QKeychain::Error] *)
Inductive KeychainError : Set :=
| NoError
| EntryNotFound
| CouldNotDeleteEntry
| AccessDeniedByUser
| AccessDenied
| NoBackendAvailable
| NotImplemented
| OtherError.
#[export] Instance KeychainError_eq_dec : EqDecision KeychainError.
Proof. solve_decision. Defined.

(** The jobs on the entries of a service, which are started and waited for; they give
    [error], [errorString] and, when reading, [binaryData]. *)
Inductive keychain_call : Set -> Type :=
| CreateKeyUuid : keychain_call QString
| ReadPasswordJob (service key : QString) : keychain_call (KeychainError * QString * bytes)
| WritePasswordJob (service key : QString) (data : bytes)
    : keychain_call (KeychainError * QString)
| DeletePasswordJob (service key : QString) : keychain_call (KeychainError * QString).
Abbreviation keychain := (asking keychain_call).

Section keychain.
Context `{Qt}.

Definition keychainError (error : KeychainError) (details : QString) : AppError :=
  let failed code := fromCode code ErrorCategory_Credentials details false in
  match error with
  | NoError => noError
  | EntryNotFound => failed App_CredentialNotFound
  | NoBackendAvailable | NotImplemented => failed App_CredentialStoreUnavailable
  | AccessDenied | AccessDeniedByUser | CouldNotDeleteEntry => failed App_PermissionDenied
  | OtherError => failed App_Unknown
  end.

(** [runJob]: the error of a job that was waited for. *)
Definition runJob (job : keychain_call (KeychainError * QString)) : keychain AppError :=
  finished ← ask job;
  mret (keychainError finished.1 finished.2).

Definition keychain_makeCredentialRef (ownerId : QString) : keychain QString :=
  id ← ask CreateKeyUuid;
  mret (if isEmpty ownerId then QStringLiteral "qtkeychain:" ++ id
        else QStringLiteral "qtkeychain:" ++ ownerId ++ [kColon] ++ id).

Context (m_serviceName : QString).

Definition keychain_update (credentialRef : QString) (secret : bytes)
    : keychain (Result bool) :=
  error ← runJob (WritePasswordJob m_serviceName credentialRef secret);
  if hasError error then mret (Result_failure false error) else
  mret (Result_success true).

Definition keychain_save (ownerId : QString) (secret : bytes) : keychain (Result QString) :=
  credentialRef ← keychain_makeCredentialRef ownerId;
  updated ← keychain_update credentialRef secret;
  if negb (Result_ok updated) then mret (Result_failure [] (res_error updated)) else
  mret (Result_success credentialRef).

Definition keychain_load (credentialRef : QString) : keychain (Result bytes) :=
  job ← ask (ReadPasswordJob m_serviceName credentialRef);
  let '(code, details, data) := job in
  let error := keychainError code details in
  if hasError error then mret (Result_failure [] error) else
  mret (Result_success data).

Definition keychain_remove (credentialRef : QString) : keychain (Result bool) :=
  error ← runJob (DeletePasswordJob m_serviceName credentialRef);
  if hasError error then
    if bool_decide (ae_code error = App_CredentialNotFound)
    then mret (Result_success false) else
    mret (Result_failure false error)
  else mret (Result_success true).

Definition keychain_isAvailable : Result bool := Result_success true.

(** The methods, and the calls of the services they are for. *)
Inductive secret_op : Set -> Type :=
| SaveOp (ownerId : QString) (secret : bytes) : secret_op (Result QString)
| LoadOp (credentialRef : QString) : secret_op (Result bytes)
| UpdateOp (credentialRef : QString) (secret : bytes) : secret_op (Result bool)
| RemoveOp (credentialRef : QString) : secret_op (Result bool).

Definition keychain_method {A : Set} (op : secret_op A) : keychain A :=
  match op in secret_op A return keychain A with
  | SaveOp ownerId secret => keychain_save ownerId secret
  | LoadOp ref => keychain_load ref
  | UpdateOp ref secret => keychain_update ref secret
  | RemoveOp ref => keychain_remove ref
  end.

Definition asked_by_services {A : Set} (op : secret_op A) : service_call A :=
  match op in secret_op A return service_call A with
  | SaveOp ownerId secret => SaveSecret ownerId secret
  | LoadOp ref => LoadSecret ref
  | UpdateOp ref secret => UpdateSecret ref secret
  | RemoveOp ref => RemoveSecret ref
  end.

End keychain.

(** ** The ring *)

(** The entries of every service. *)
Definition ring : Set := gmap QString (gmap QString bytes).
Definition entries_of (service : QString) (r : ring) : gmap QString bytes :=
  default ∅ (r !! service).
Definition with_entries (service : QString) (entries : gmap QString bytes) (r : ring)
    : ring := <[service := entries]> r.

(** A job that fails has done nothing, and one that does not find an entry tells the
    truth; an id of [QUuid] ends no key that is there. *)
Definition keychain_answers {B : Set} (c : keychain_call B) : ring -> B -> ring -> Prop :=
  match c in keychain_call B return ring -> B -> ring -> Prop with
  | CreateKeyUuid => fun r id r' => r' = r /\
      forall service prefix, entries_of service r !! (prefix ++ id) = None
  | ReadPasswordJob service key => fun r '(code, _, data) r' => r' = r /\
      (code = NoError -> entries_of service r !! key = Some data)
  | WritePasswordJob service key data => fun r '(code, _) r' =>
      r' = if bool_decide (code = NoError)
           then with_entries service (<[key := data]> (entries_of service r)) r else r
  | DeletePasswordJob service key => fun r '(code, _) r' =>
      (r' = if bool_decide (code = NoError)
            then with_entries service (delete key (entries_of service r)) r else r) /\
      (code = EntryNotFound -> entries_of service r !! key = None)
  end.

(** What [r'] has of [service] is [entries], and nothing else has changed. *)
Definition ring_left (service : QString) (entries : gmap QString bytes) (r r' : ring)
    : Prop :=
  entries_of service r' = entries /\
  forall other, other <> service -> r' !! other = r !! other.

Lemma ring_left_same service (r : ring) : ring_left service (entries_of service r) r r.
Proof. done. Qed.

Lemma ring_left_with service entries (r : ring) :
  ring_left service entries r (with_entries service entries r).
Proof.
  unfold ring_left, entries_of, with_entries, ring in *.
  rewrite (lookup_insert_eq (M:=gmap QString)). split; [done|]. intros other Ho.
  by apply (lookup_insert_ne (M:=gmap QString)).
Qed.

Lemma keychainError_none code details :
  hasError (keychainError code details) = negb (bool_decide (code = NoError)).
Proof. by destruct code. Qed.

Section keychain_runs.
Context `{Qt} `{!QtJson} `{!QtSql}.
Context (m_serviceName : QString).

Abbreviation rings p r Q := (awp (fun B => @keychain_answers B) False p r Q).

(** The ring after an operation, of a world of the services that has its entries. *)
Definition keychain_answered {A : Set} (op : secret_op A) (r : ring) (r' : ring) (a : A) : Prop :=
  forall w, sw_secrets w = entries_of m_serviceName r ->
  exists w', service_answers (asked_by_services op) w a w' /\
    ring_left m_serviceName (sw_secrets w') r r' /\ sw_db w' = sw_db w.

(** A new reference has no entry. *)
Lemma rings_makeCredentialRef owner (r : ring) (Q : ring -> QString -> Prop) :
  (forall ref, ref <> [] -> entries_of m_serviceName r !! ref = None -> Q r ref) ->
  rings (keychain_makeCredentialRef owner) r Q.
Proof.
  intros HQ id r' [-> Hnew]. apply HQ; [by destruct (isEmpty owner)|].
  destruct (isEmpty owner); [exact (Hnew m_serviceName (QStringLiteral "qtkeychain:"))|].
  specialize (Hnew m_serviceName (QStringLiteral "qtkeychain:" ++ owner ++ [kColon])).
  by rewrite <- !app_assoc in Hnew.
Qed.

Lemma rings_update ref secret (r : ring) (Q : ring -> Result bool -> Prop) :
  (forall (r' : ring) e, hasError e = true -> r' = r -> Q r' (Result_failure false e)) ->
  Q (with_entries m_serviceName (<[ref := secret]> (entries_of m_serviceName r)) r)
    (Result_success true) ->
  rings (keychain_update m_serviceName ref secret) r Q.
Proof.
  intros Hfail Hok [code details] r'; cbn. intros ->. rewrite keychainError_none.
  case_bool_decide; cbn [negb]; [exact Hok|]. apply Hfail; [|done].
  rewrite keychainError_none. by rewrite bool_decide_eq_false_2.
Qed.

Lemma rings_method {A : Set} (op : secret_op A) (r : ring) :
  rings (keychain_method m_serviceName op) r (keychain_answered op r).
Proof.
  destruct op as [owner secret|ref|ref secret|ref]; cbn [keychain_method].
  - apply awp_bind, rings_makeCredentialRef. intros ref Hne Hfresh.
    apply awp_bind, rings_update.
    + intros r' e He ->. unfold Result_ok. cbn [res_error Result_failure]. rewrite He.
      cbn [negb]. intros w Hw. exists w. cbn. rewrite Hw. unfold Result_ok. cbn. by rewrite He.
    + intros w Hw. rewrite <- Hw in *. cbn. eexists. split; [by split_and!|]. cbn. rewrite Hw.
      split; [apply ring_left_with|done].
  - intros [[code details] data] r'; cbn. intros [-> Hd]. rewrite keychainError_none.
    case_bool_decide as Hc; cbn [negb]; intros w Hw; cbn; rewrite Hw.
    + eexists. split; [split; [done|by intros _; apply Hd]|]. cbn. by rewrite Hw.
    + eexists. split; [split; [done|]|cbn; by rewrite Hw].
      unfold Result_ok. cbn. rewrite keychainError_none. by rewrite bool_decide_eq_false_2.
  - apply rings_update.
    + intros r' e He -> w Hw. cbn. unfold Result_ok. cbn. rewrite He. cbn.
      exists w. by rewrite Hw.
    + intros w Hw. cbn. eexists. split; [done|]. cbn. rewrite Hw.
      split; [apply ring_left_with|done].
  - intros [code details] r'; cbn. intros [-> Hd]. rewrite keychainError_none.
    case_bool_decide as Hc; cbn [negb].
    + intros w Hw. cbn. eexists. split; [done|]. cbn. rewrite Hw.
      split; [apply ring_left_with|done].
    + case_bool_decide as Hf; intros w Hw; cbn.
      * eexists. split; [done|]. cbn. rewrite Hw. split; [|done].
        rewrite delete_id; [apply ring_left_same|]. apply Hd. by destruct code.
      * unfold Result_ok. cbn. rewrite keychainError_none, bool_decide_eq_false_2 by done.
        cbn. exists w. by rewrite Hw.
Qed.

(** The key ring is a store of secrets as the services need it: an operation ends, and
    answers as the theorems on the services ask of a store with the entries that the
    program has in the ring; the entries of other programs are left alone. *)
Theorem keychain_serves_services {A : Set} (op : secret_op A) (r : ring) o r' :
  asks (fun B => @keychain_answers B) (keychain_method m_serviceName op) r o r' ->
  exists a, o = Some a /\ keychain_answered op r r' a.
Proof.
  intros Hr. eapply awp_runs in Hr; [|by apply rings_method].
  destruct o as [a|]; [|done]. by exists a.
Qed.

End keychain_runs.

(** ** A ring *)

#[local] Existing Instances sample_json.

Definition keychain_serve {B : Set} (c : keychain_call B) (r : ring) : option (B * ring) :=
  match c in keychain_call B return option (B * ring) with
  | CreateKeyUuid => Some (QStringLiteral "8f3a", r)
  | ReadPasswordJob service key =>
      match entries_of service r !! key with
      | Some data => Some (NoError, [], data, r)
      | None => Some (EntryNotFound, QStringLiteral "Entry not found", [], r)
      end
  | WritePasswordJob service key data =>
      Some (NoError, [], with_entries service (<[key := data]> (entries_of service r)) r)
  | DeletePasswordJob service key =>
      if bool_decide (is_Some (entries_of service r !! key))
      then Some (NoError, [], with_entries service (delete key (entries_of service r)) r)
      else Some (EntryNotFound, QStringLiteral "Entry not found", r)
  end.

(** A secret is saved, read and removed twice. *)
Lemma keychain_session :
  let service := QStringLiteral "smb-browser" in
  let run {A : Set} (op : secret_op A) :=
    run_asking (fun B => @keychain_serve B) (keychain_method service op) in
  let ref := QStringLiteral "qtkeychain:me:8f3a" in
  exists r, run (SaveOp (QStringLiteral "me") [1; 2; 3]) ∅
              = Some (Some (Result_success ref), r) /\
    fst <$> run (LoadOp ref) r = Some (Some (Result_success [1; 2; 3])) /\
    exists r1, run (RemoveOp ref) r = Some (Some (Result_success true), r1) /\
      fst <$> run (RemoveOp ref) r1 = Some (Some (Result_success false)).
Proof. eexists. split; [done|]. split; [done|]. eexists. split; [done|]. done. Qed.
