(* ===== verification/Program.v ===== *)
(** * The program around its parts ([app/main.cpp], [FileLogger.cpp])

    What starts the program, the log, what the program does when its parts signal
    something, and the two commands that try the client without an interface.  These
    commands run the DFS client of DfsClient.v as it is. *)

From stdpp Require Import gmap.
From S2P Require Export StatusPanel ConnectionUi Browser Settings.
Local Open Scope Z_scope.

(** ** The log ([FileLogger.cpp]) *)

Inductive LogLevel : Set :=
| LogLevel_Debug | LogLevel_Info | LogLevel_Warning | LogLevel_Error.

Definition logLevelName (level : LogLevel) : QString :=
  QStringLiteral match level with
                 | LogLevel_Debug => "debug"
                 | LogLevel_Info => "info"
                 | LogLevel_Warning => "warning"
                 | LogLevel_Error => "error"
                 end.

Record LogRecord `{Qt} : Set := mkLogRecord {
  lr_timestampUtc : QDateTime;
  lr_level : LogLevel;
  lr_category : QString;
  lr_correlationId : QString;
  lr_message : QString;
  lr_technicalDetails : QString
}.
Arguments mkLogRecord {_} _ _ _ _ _ _.

(** The calls on the file of the log and its directory; [LogErrorFree] is
    [file.error() == NoError] after the stream was flushed. *)
Inductive log_call `{Qt} : Set -> Type :=
| LogDirExists : log_call bool
| MakeLogDir : log_call bool
| OpenLogAppend : log_call bool
| CurrentLogTime : log_call QDateTime
| AppendText (text : QString) : log_call unit
| LogErrorFree : log_call bool.

Section logger.
Context `{Qt} `{!QtJson}.
Context (m_sanitizer : LogSanitizer).

Definition in_brackets (text : QString) : QString :=
  QStringLiteral " [" ++ text ++ QStringLiteral "]".
Definition otherwise_text (text : QString) (otherwise : string) : QString :=
  if isEmpty text then QStringLiteral otherwise else text.

(** [format] of a record with its time. *)
Definition format_at (time : QDateTime) (record : LogRecord) : QString :=
  let message := sanitize_message m_sanitizer (lr_message record) in
  let details := sanitize_message m_sanitizer (lr_technicalDetails record) in
  let line := toIsoUtc time ++ in_brackets (logLevelName (lr_level record))
    ++ in_brackets (otherwise_text (lr_category record) "app")
    ++ in_brackets (otherwise_text (lr_correlationId record) "-")
    ++ QStringLiteral " " ++ message in
  if isEmpty details then line else line ++ QStringLiteral " | " ++ details.

Definition format_record (record : LogRecord) : asking log_call QString :=
  if isValid (lr_timestampUtc record)
  then mret (format_at (lr_timestampUtc record) record)
  else
    now ← ask CurrentLogTime;
    mret (format_at now record).

Definition logger_log (record : LogRecord) : asking log_call bool :=
  exists_ ← ask LogDirExists;
  made ← (if exists_ : bool then mret true else ask MakeLogDir);
  if negb made then mret false else
  opened ← ask OpenLogAppend;
  if negb opened then mret false else
  line ← format_record record;
  ask (AppendText (line ++ [0x0A])) ;;
  ask LogErrorFree.
End logger.

(** ** Helpers of [main.cpp] *)

Definition errorCategory_toString (category : ErrorCategory) : QString :=
  QStringLiteral match category with
                 | ErrorCategory_General => "general"
                 | ErrorCategory_Validation => "validation"
                 | ErrorCategory_Storage => "storage"
                 | ErrorCategory_Credentials => "credentials"
                 | ErrorCategory_Smb => "smb"
                 | ErrorCategory_Transfer => "transfer"
                 end.

Definition connectionStatus_toString (status : ConnectionStatus) : QString :=
  QStringLiteral match status with
                 | ConnectionStatus_Unknown => "unknown"
                 | ConnectionStatus_NotChecked => "not_checked"
                 | ConnectionStatus_Checking => "checking"
                 | ConnectionStatus_Available => "available"
                 | ConnectionStatus_ServerUnavailable => "server_unavailable"
                 | ConnectionStatus_ShareUnavailable => "share_unavailable"
                 | ConnectionStatus_AuthenticationFailed => "authentication_failed"
                 | ConnectionStatus_PermissionDenied => "permission_denied"
                 | ConnectionStatus_Timeout => "timeout"
                 | ConnectionStatus_DnsError => "dns_error"
                 | ConnectionStatus_ProtocolUnsupported => "protocol_unsupported"
                 | ConnectionStatus_Error => "error"
                 end.

Definition remoteFileType_toString (type : RemoteFileType) : QString :=
  QStringLiteral match type with
                 | RemoteFileType_File => "file"
                 | RemoteFileType_Directory => "directory"
                 | RemoteFileType_Symlink => "symlink"
                 | RemoteFileType_Unknown => "unknown"
                 end.

(** [name="text"] *)
Definition quoted_member (name : string) (text : QString) : QString :=
  QStringLiteral (name +:+ "=" +:+ quote) ++ text ++ QStringLiteral quote.

Definition errorDetails (error : AppError) : QString :=
  let details := QStringLiteral "code=" ++ appErrorCode_toString (ae_code error)
    ++ QStringLiteral " category=" ++ errorCategory_toString (ae_category error) in
  let details :=
    if negb (isEmpty (ae_userMessage error))
    then details ++ quoted_member " user_message" (ae_userMessage error) else details in
  if negb (isEmpty (ae_sanitizedTechnicalDetails error))
  then details ++ quoted_member " details" (ae_sanitizedTechnicalDetails error)
  else details.

Section wiring.
Context `{Qt} `{!QtJson} `{!QtLabels} `{!QtNumbers}.

Definition statusForCheck (result : ConnectivityCheckResult) : QString :=
  tr (if ccr_available result then "Connection: Available" else "Connection: Unavailable").

(** The record that [writeLog] hands to the logger; whether it is written is ignored. *)
Definition writeLog (level : LogLevel) (category message : string)
    (technicalDetails correlationId : QString) : LogRecord :=
  mkLogRecord nullDateTime level (QStringLiteral category) correlationId
    (QStringLiteral message) technicalDetails.

Definition writeErrorLog (category message : string) (error : AppError)
    (correlationId : QString) : LogRecord :=
  writeLog LogLevel_Error category message (errorDetails error) correlationId.

(** ** What is connected to the signals *)

Inductive program_signal : Set :=
| OfManagement (s : management_signal)
| OfConnections (s : connection_signal)
| OfBrowser (s : browser_signal)
| ConnectionsImported.

(** The panel, the browser, and the records that were handed to the logger. *)
Record program_state : Set := mkProgramState {
  pg_panel : StatusPanel;
  pg_browser : Browser;
  pg_records : list LogRecord
}.

Definition on_panel (f : StatusPanel -> StatusPanel) (s : program_state) : program_state :=
  mkProgramState (f (pg_panel s)) (pg_browser s) (pg_records s).
Definition on_browser (f : Browser -> Browser) (s : program_state) : program_state :=
  mkProgramState (pg_panel s) (f (pg_browser s)) (pg_records s).
Definition logged (record : LogRecord) (s : program_state) : program_state :=
  mkProgramState (pg_panel s) (pg_browser s) (pg_records s ++ [record]).

(** [QStringLiteral("connection_id=%1")] and the like, with what follows. *)
Definition id_member (connectionId rest : QString) : QString :=
  QStringLiteral "connection_id=" ++ connectionId ++ rest.
Definition log_member (name : string) (text : QString) : QString :=
  QStringLiteral (" " +:+ name +:+ "=") ++ text.

Definition on_management (s : management_signal) : program_state -> program_state :=
  let writes message id :=
    logged (writeLog LogLevel_Info "connections" message (id_member id []) []) in
  match s with
  | connectionsRefreshed =>
      logged (writeLog LogLevel_Debug "connections" "Connections list refreshed." [] [])
  | connectionAdded id => writes "Connection added."%string id
  | connectionUpdated id => writes "Connection updated."%string id
  | connectionDeleted id => writes "Connection deleted."%string id
  end.

(** The status is set, and the error is shown or cleared. *)
Definition show_status (status : QString) (error : option AppError) (p : StatusPanel)
    : StatusPanel :=
  let p := setConnectionStatus status p in
  match error with Some error => setLastError error p | None => clearLastError p end.

Definition on_started (category message status : string) (connectionId operationId : QString)
    (s : program_state) : program_state :=
  on_panel (show_status (tr status) None)
    (logged (writeLog LogLevel_Info category message (id_member connectionId []) operationId)
       s).

Definition on_failed (category message status : string) (connectionId : QString)
    (error : AppError) (s : program_state) : program_state :=
  logged (writeErrorLog category message error connectionId)
    (on_panel (show_status (tr status) (Some error)) s).

Definition on_connection (s : connection_signal) (st : program_state) : program_state :=
  match s with
  | checkStarted connectionId operationId =>
      on_started "smb.check" "Connection check started." "Connection: Checking"
        connectionId operationId st
  | checkCompleted connectionId result =>
      let status := log_member "status" (connectionStatus_toString (ccr_status result)) in
      if hasError (ccr_error result) then
        logged (writeLog LogLevel_Warning "smb.check" "Connection check completed with error."
          (id_member connectionId
             (status ++ QStringLiteral " " ++ errorDetails (ccr_error result))) [])
          (on_panel (show_status (statusForCheck result) (Some (ccr_error result))) st)
      else
        logged (writeLog LogLevel_Info "smb.check" "Connection check completed."
          (id_member connectionId status) [])
          (on_panel (show_status (statusForCheck result) None) st)
  | checkFailed connectionId error =>
      on_failed "smb.check" "Connection check failed." "Connection: Check failed"
        connectionId error st
  | openStarted connectionId operationId =>
      on_started "smb.open" "Connection open started." "Connection: Opening"
        connectionId operationId st
  | connectionOpened result =>
      let c := ocr_connection result in
      let name := if isEmpty (svc_name c) then con_normalizedUri (svc_connection c)
                  else svc_name c in
      logged (writeLog LogLevel_Info "smb.open" "Connection opened."
        (id_member (con_id (svc_connection c))
           (log_member "path" (ocr_currentRemotePath result)
            ++ log_member "entries" (number (blen (ocr_entries result))))) [])
        (on_panel (show_status (trArgs "Connection: %1" [name]) None)
           (on_browser (setDirectory result) st))
  | connectionOpenFailed connectionId error =>
      on_failed "smb.open" "Connection open failed." "Connection: Open failed"
        connectionId error st
  | pathCopied _ => st
  end.

Definition on_browser_signal (s : browser_signal) (st : program_state) : program_state :=
  let place connectionId remotePath := id_member connectionId (log_member "path" remotePath) in
  let failed category message error id :=
    logged (writeErrorLog category message error id) (on_panel (setLastError error) st) in
  match s with
  | directoryLoadStarted connectionId remotePath operationId =>
      logged (writeLog LogLevel_Debug "smb.browser" "Directory load started."
        (place connectionId remotePath) operationId) st
  | directoryOpened connectionId remotePath =>
      logged (writeLog LogLevel_Info "smb.browser" "Directory opened."
        (place connectionId remotePath) []) st
  | directoryOpenFailed connectionId remotePath error =>
      failed "smb.browser"%string "Directory open failed."%string error
        (connectionId ++ [kColon] ++ remotePath)
  | remoteOperationStarted operationName operationId =>
      logged (writeLog LogLevel_Info "smb.operation" "Remote operation started."
        (QStringLiteral "operation=" ++ operationName) operationId) st
  | remoteOperationCompleted operationName =>
      logged (writeLog LogLevel_Info "smb.operation" "Remote operation completed."
        (QStringLiteral "operation=" ++ operationName) []) st
  | remoteOperationFailed operationName error =>
      failed "smb.operation"%string "Remote operation failed."%string error operationName
  | fileActivated _ | externalDragReady _ => st
  end.

(** After an import the list is refreshed as well (the request [RequestRefresh] of
    ConnectionUi.v). *)
Definition on_signal (s : program_signal) (st : program_state) : program_state :=
  match s with
  | OfManagement s => on_management s st
  | OfConnections s => on_connection s st
  | OfBrowser s => on_browser_signal s st
  | ConnectionsImported =>
      logged (writeLog LogLevel_Info "import_export" "Connections imported." [] []) st
  end.

End wiring.

(** ** Starting ([main]) *)

Section starting.
Context `{Qt} `{!QtJson} `{!QtNumbers} `{!QtLabels}.

(** The digits after [--smoke-close-ms=] of the first such argument. *)
Fixpoint smokeCloseDelayMs (arguments : list QString) : Z :=
  match arguments with
  | [] => -1
  | argument :: arguments =>
      let option := QStringLiteral "--smoke-close-ms=" in
      if negb (startsWithText argument option) then smokeCloseDelayMs arguments else
      match toIntOk (midFrom argument (blen option)) with
      | Some value => if 0 <=? value then value else 1000
      | None => 1000
      end
  end.

Definition hasArgument (arguments : list QString) (name : string) : bool :=
  existsb (fun argument => bool_decide (argument = QStringLiteral name)) arguments.

(** [writableLocation(AppDataLocation)], and a file below [QDir::home()]. *)
Definition writableAppDataPath (location : QString) (home : string -> QString) : QString :=
  if isEmpty location then home ".smb-browser"%string else location.

(** [OpenStorage] and [MigrateStorage] are [SqliteStorage::open] and [migrate], and
    [LoadAppSettings] is [SettingsService::loadSettings] (Settings.v). *)
Inductive start_call : Set -> Type :=
| AppDataPath : start_call QString
| MakeAppData (path : QString) : start_call bool
| ShowCritical (title text : QString) : start_call unit
| OpenStorage (path : QString) : start_call AppError
| MigrateStorage : start_call AppError
| LogFilePath : start_call QString
| WriteStartRecord (record : LogRecord) : start_call unit
| LoadAppSettings : start_call (Result ApplicationSettings).

(** Shown, and whether there was an error. *)
Definition showStartupErrorIfNeeded (error : AppError) (title : string)
    : asking start_call bool :=
  if negb (hasError error) then mret false else
  ask (ShowCritical (tr title)
         (if isEmpty (ae_userMessage error) then ae_sanitizedTechnicalDetails error
          else ae_userMessage error)) ;;
  mret true.

(** [filePath] of the directory is the path with the name behind a slash. *)
Definition in_directory (path : QString) (name : string) : QString :=
  path ++ [kSlash] ++ QStringLiteral name.

(** Up to the window: an exit code, or the settings the program goes on with. *)
Definition startup : asking start_call (Z + ApplicationSettings) :=
  appDataPath ← ask AppDataPath;
  made ← ask (MakeAppData appDataPath);
  if negb made then
    ask (ShowCritical (tr "Unable to Start")
           (trArgs "Unable to create application data directory: %1" [appDataPath])) ;;
    mret (inl 1)
  else
  opened ← ask (OpenStorage (in_directory appDataPath "app.db"));
  failed ← showStartupErrorIfNeeded opened "Unable to Open Database";
  if failed : bool then mret (inl 1) else
  migrated ← ask MigrateStorage;
  failed ← showStartupErrorIfNeeded migrated "Unable to Migrate Database";
  if failed : bool then mret (inl 1) else
  logFilePath ← ask LogFilePath;
  ask (WriteStartRecord (writeLog LogLevel_Info "app" "Application started."
         (quoted_member "log_file" logFilePath) [])) ;;
  loaded ← ask LoadAppSettings;
  mret (inr (if Result_ok loaded then res_value loaded else settings_defaults)).

(** The timeout the clients are made with, in seconds. *)
Definition client_timeout (settings : ApplicationSettings) : Z :=
  Z.max 1 (Z.quot (set_operationTimeoutMs settings) 1000).

End starting.

(** ** The commands that try the client ([runSmbListSmoke], [runSmbDownloadSmoke])

    The branch with [SMB_BROWSER_WITH_NATIVE_SMB]. *)

Section smoke.
Context `{Qt} `{!QtNumbers}.

(** [qgetenv], which is empty for a variable that is not set. *)
Context (qgetenv : string -> bytes).

Definition smokeEnv (name : string) : QString := trimmed (fromUtf8 (qgetenv name)).

Definition smokeFlagEnabled (name : string) : bool :=
  existsb (fun text => bool_decide (toLower (smokeEnv name) = QStringLiteral text))
    ["1"; "true"; "yes"; "on"]%string.

Definition smokeMaxEntries : Z :=
  match toIntOk (smokeEnv "SMB_BROWSER_SMOKE_MAX_ENTRIES") with
  | Some value => if 0 <? value then value else 0
  | None => 0
  end.

Record SmbSmokeContext : Set := mkSmbSmokeContext {
  ssc_connection : Connection;
  ssc_secret : secret_pointer;
  ssc_timeoutSeconds : Z
}.

Definition loadSmbSmokeContext : option SmbSmokeContext :=
  let server := smokeEnv "SMB_BROWSER_SMOKE_SERVER" in
  let share := smokeEnv "SMB_BROWSER_SMOKE_SHARE" in
  if isEmpty server || isEmpty share then None else
  let connection authType :=
    mkConnection (QStringLiteral "smoke")
      (QStringLiteral "smb://" ++ server ++ [kSlash] ++ share) server share
      (smokeEnv "SMB_BROWSER_SMOKE_DOMAIN") (smokeEnv "SMB_BROWSER_SMOKE_USER") authType in
  let timeout :=
    default 10 (toIntOk (smokeEnv "SMB_BROWSER_SMOKE_TIMEOUT_SECONDS")) in
  let auth := toLower (smokeEnv "SMB_BROWSER_SMOKE_AUTH") in
  if bool_decide (auth = QStringLiteral "guest")
  then Some (mkSmbSmokeContext (connection AuthType_Guest) None timeout) else
  if bool_decide (auth = QStringLiteral "anonymous")
  then Some (mkSmbSmokeContext (connection AuthType_Anonymous) None timeout) else
  let password := qgetenv "SMB_BROWSER_SMOKE_PASSWORD" in
  match password with
  | [] => None
  | _ => Some (mkSmbSmokeContext (connection AuthType_Password) (Some password) timeout)
  end.

(** The calls: those of the DFS client and its resolver, and text on the standard
    output or the standard error. *)
Inductive smoke_call : Set -> Type :=
| OfDfs (B : Set) (c : dfs_call B) : smoke_call B
| PrintOut (text : QString) : smoke_call unit
| PrintError (text : QString) : smoke_call unit.
Arguments OfDfs {B} c.
Abbreviation smoke := (asking smoke_call).

Definition by_dfs {A} (p : dfs A) : smoke A :=
  asking_lift (fun B (c : dfs_call B) => OfDfs c) p.

Definition print_line (to : QString -> smoke_call unit) (name : string) (text : QString)
    : smoke unit :=
  ask (to (QStringLiteral (name +:+ "=") ++ text ++ [0x0A])).

Definition printSmokeError (error : AppError) : smoke unit :=
  print_line PrintError "error_code" (appErrorCode_toString (ae_code error)) ;;
  print_line PrintError "error_category" (errorCategory_toString (ae_category error)) ;;
  print_line PrintError "error_message" (ae_userMessage error) ;;
  print_line PrintError "error_details" (ae_sanitizedTechnicalDetails error).

Definition entry_line (entry : RemoteFileEntry) : QString :=
  QStringLiteral "entry" ++ [0x09] ++ remoteFileType_toString (rfe_type entry) ++ [0x09]
  ++ rfe_remotePath entry ++ [0x09] ++ rfe_name entry ++ [0x0A].

Fixpoint print_entries (maxEntries printed : Z) (entries : list RemoteFileEntry)
    : smoke unit :=
  match entries with
  | [] => mret tt
  | entry :: entries =>
      if (0 <? maxEntries) && (maxEntries <=? printed) then mret tt else
      ask (PrintOut (entry_line entry)) ;;
      print_entries maxEntries (printed + 1) entries
  end.

Definition printSmokeEntries (entries : list RemoteFileEntry) : smoke unit :=
  print_line PrintOut "entries" (number (blen entries)) ;;
  if negb (smokeFlagEnabled "SMB_BROWSER_SMOKE_PRINT_ENTRIES") then mret tt else
  let maxEntries := smokeMaxEntries in
  print_entries maxEntries 0 entries ;;
  if (0 <? maxEntries) && (maxEntries <? blen entries)
  then print_line PrintOut "entries_omitted" (number (blen entries - maxEntries))
  else mret tt.

Definition target_uri (connection : Connection) : QString :=
  QStringLiteral "smb://" ++ con_server connection ++ [kSlash] ++ con_share connection.

Fixpoint print_all {A} (print : A -> smoke unit) (l : list A) : smoke unit :=
  match l with
  | [] => mret tt
  | a :: l => print a ;; print_all print l
  end.

Definition print_dfs_error (name : string) (error : AppError) : smoke unit :=
  print_line PrintError ("dfs_" +:+ name +:+ "_error_code")
    (appErrorCode_toString (ae_code error)) ;;
  print_line PrintError ("dfs_" +:+ name +:+ "_error_details")
    (ae_sanitizedTechnicalDetails error).

Definition no_context : CoreContext := mkCoreContext false false.

Definition print_path_target (target : DfsResolvedPath) : smoke unit :=
  print_line PrintError "dfs_path_target"
    (target_uri (drp_connection target)
     ++ QStringLiteral " original_prefix=" ++ drp_originalPathPrefix target
     ++ QStringLiteral " target_prefix=" ++ drp_targetPathPrefix target).

(** The diagnosis after a listing that failed. *)
Definition print_referrals (c : SmbSmokeContext) : smoke unit :=
  let path := smokeEnv "SMB_BROWSER_SMOKE_PATH" in
  shareTargets ← by_dfs (ask (ResolveTargets (ssc_connection c) (ssc_secret c) no_context));
  (if Result_ok shareTargets then
     print_line PrintError "dfs_share_targets" (number (blen (res_value shareTargets))) ;;
     print_all (fun target => print_line PrintError "dfs_share_target"
                                (target_uri (drc_connection target)))
       (res_value shareTargets)
   else print_dfs_error "share" (res_error shareTargets)) ;;
  pathTargets ← by_dfs (ask (ResolvePathTargets (ssc_connection c) (ssc_secret c) path
                               no_context));
  if Result_ok pathTargets then
    print_line PrintError "dfs_path_targets" (number (blen (res_value pathTargets))) ;;
    print_all print_path_target (res_value pathTargets)
  else print_dfs_error "path" (res_error pathTargets).

Definition smoke_listing (c : SmbSmokeContext) : smoke (Result (list RemoteFileEntry)) :=
  by_dfs (dfs_listDirectory (ssc_connection c) (ssc_secret c)
            (smokeEnv "SMB_BROWSER_SMOKE_PATH") no_context).

(** The exit code. *)
Definition runSmbListSmoke : smoke Z :=
  match loadSmbSmokeContext with
  | None => mret 2
  | Some c =>
      result ← smoke_listing c;
      if Result_ok result then printSmokeEntries (res_value result) ;; mret 0 else
      printSmokeError (res_error result) ;;
      print_referrals c ;;
      mret 1
  end.

Definition kProgressStep : Z := 10 * 1024 * 1024.

(** The callback for progress: what is printed, and [lastReportedBytes] after it. *)
Definition smoke_progress (lastReportedBytes : Z) (progress : CoreTransferProgress)
    : option QString * Z :=
  if (lastReportedBytes <? 0)
     || (ctp_bytesTransferred progress =? ctp_totalBytes progress)
     || (kProgressStep <=? ctp_bytesTransferred progress - lastReportedBytes)
  then (Some (QStringLiteral "progress=" ++ number (ctp_bytesTransferred progress)
                ++ [kSlash] ++ number (ctp_totalBytes progress) ++ [0x0A]),
        ctp_bytesTransferred progress)
  else (None, lastReportedBytes).

Definition smoke_download (c : SmbSmokeContext) : smoke (Result bool) :=
  by_dfs (dfs_downloadFile (ssc_connection c) (ssc_secret c)
            (smokeEnv "SMB_BROWSER_SMOKE_PATH") (smokeEnv "SMB_BROWSER_SMOKE_LOCAL_PATH")
            (mkCoreContext false (smokeFlagEnabled "SMB_BROWSER_SMOKE_PRINT_PROGRESS"))).

(** Listing a directory first, if one is named: whether the command goes on. *)
Definition warm_up (c : SmbSmokeContext) : smoke bool :=
  let warmPath := smokeEnv "SMB_BROWSER_SMOKE_WARM_PATH" in
  if isEmpty warmPath then mret true else
  warmResult ← by_dfs (dfs_listDirectory (ssc_connection c) (ssc_secret c) warmPath
                         no_context);
  if negb (Result_ok warmResult) then
    ask (PrintError (QStringLiteral "warmup_failed=1" ++ [0x0A])) ;;
    printSmokeError (res_error warmResult) ;;
    mret false
  else
  print_line PrintOut "warmup_entries" (number (blen (res_value warmResult))) ;;
  mret true.

Definition runSmbDownloadSmoke : smoke Z :=
  match loadSmbSmokeContext with
  | None => mret 2
  | Some c =>
      if isEmpty (smokeEnv "SMB_BROWSER_SMOKE_PATH")
         || isEmpty (smokeEnv "SMB_BROWSER_SMOKE_LOCAL_PATH") then mret 2 else
      warm ← warm_up c;
      if negb warm then mret 1 else
      result ← smoke_download c;
      if Result_ok result then
        ask (PrintOut (QStringLiteral "download=ok" ++ [0x0A])) ;;
        mret 0
      else
      printSmokeError (res_error result) ;;
      mret 1
  end.

End smoke.

(** * What can be relied on *)

Section program_facts.
Context `{Qt} `{!QtJson} `{!QtLabels} `{!QtNumbers}.

(** ** Signals *)

(** The error a signal reports. *)
Definition signalled_error (s : program_signal) : option AppError :=
  match s with
  | OfConnections (checkCompleted _ result) =>
      if hasError (ccr_error result) then Some (ccr_error result) else None
  | OfConnections (checkFailed _ e) | OfConnections (connectionOpenFailed _ e)
  | OfBrowser (directoryOpenFailed _ _ e) | OfBrowser (remoteOperationFailed _ e) => Some e
  | _ => None
  end.

(** The signals of checking and opening, which set the status. *)
Definition sets_status (s : program_signal) : bool :=
  match s with OfConnections (pathCopied _) => false | OfConnections _ => true | _ => false end.

Definition unheard (s : program_signal) : bool :=
  match s with
  | OfConnections (pathCopied _) | OfBrowser (fileActivated _)
  | OfBrowser (externalDragReady _) => true
  | _ => false
  end.

(** What the panel shows of an operation, and its button. *)
Definition operation_shown (p : StatusPanel) :=
  (sp_bound p, sp_activeOperation p, sp_progress p, sp_cancelEnabled p,
   sp_activeOperationId p, sp_sanitizer p).

Lemma setLastError_shown e p : operation_shown (setLastError e p) = operation_shown p.
Proof. unfold setLastError. by case_match. Qed.

Lemma error_shown status e p :
  sp_lastError (show_status status (Some e) p) = sp_lastError (setLastError e p).
Proof. unfold show_status, setLastError. by destruct (negb (hasError e)). Qed.

Lemma status_shown status e p :
  operation_shown (show_status status (Some e) p) = operation_shown p.
Proof. unfold show_status. by rewrite setLastError_shown. Qed.

(** The record that was appended is the one that is asked for. *)
Ltac record_logged :=
  cbn; eexists; split; [done|]; cbn; split;
  [split; [by intros []|first [by left|by right|by intros [? ?]]]
  |intros ? [=]; subst;
   by exists []].

(** An error is shown and logged as one; the end of a check or of opening that has
    none clears the error that was shown; every signal that is heard is logged once; and
    no signal touches what is shown of the operations. *)
Theorem signals_reported s st :
  let st' := on_signal s st in
  (if unheard s then st' = st
   else exists record, pg_records st' = pg_records st ++ [record] /\
     (lr_level record = LogLevel_Warning \/ lr_level record = LogLevel_Error <->
      is_Some (signalled_error s)) /\
     (forall e, signalled_error s = Some e ->
        exists before, lr_technicalDetails record = before ++ errorDetails e)) /\
  sp_lastError (pg_panel st') =
    match signalled_error s with
    | Some e => sp_lastError (setLastError e (pg_panel st))
    | None => if sets_status s then sp_lastError (clearLastError (pg_panel st))
              else sp_lastError (pg_panel st)
    end /\
  operation_shown (pg_panel st') = operation_shown (pg_panel st).
Proof.
  cbv zeta. destruct s as [s|s|s|].
  - destruct s; split_and!; first [done|record_logged].
  - destruct s as [id op|r|id e|id op|id r|id e|uri]; [..|done].
    + split_and!; [record_logged|done..].
    + split_and!; [record_logged|done..].
    + split_and!; [record_logged|apply error_shown|apply status_shown].
    + split_and!; [record_logged|done..].
    + cbn [on_signal on_connection signalled_error unheard].
      destruct (hasError (ccr_error r)).
      * split_and!; [|apply error_shown|apply status_shown].
        eexists. split; [done|]. split; [by split; [|left]|]. intros e [= <-].
        exists (QStringLiteral "connection_id=" ++ id
                ++ log_member "status" (connectionStatus_toString (ccr_status r))
                ++ QStringLiteral " ").
        unfold writeLog, id_member. cbn [lr_technicalDetails]. rewrite <- !app_assoc.
        reflexivity.
      * split_and!; [record_logged|done..].
    + split_and!; [record_logged|apply error_shown|apply status_shown].
  - destruct s as [id path op|id path|id path e|name op|name|name e|entry|paths]; [..|done|done].
    + split_and!; [record_logged|done..].
    + split_and!; [record_logged|done..].
    + split_and!; [record_logged|done|apply setLastError_shown].
    + split_and!; [record_logged|done..].
    + split_and!; [record_logged|done..].
    + split_and!; [record_logged|done|apply setLastError_shown].
  - split_and!; [record_logged|done..].
Qed.

(** ** The log *)

(** The world is what was appended; the file system may refuse anything. *)
Definition log_answers {B : Set} (c : log_call B)
    : list QString -> B -> list QString -> Prop :=
  match c in log_call B return list QString -> B -> list QString -> Prop with
  | LogDirExists | MakeLogDir | OpenLogAppend | CurrentLogTime | LogErrorFree =>
      fun w _ w' => w' = w
  | AppendText text => fun w _ w' => w' = w ++ [text]
  end.

(** A record is appended once, as one text with its time at the front and both its
    message and its details sanitized, or not at all, and then this is reported. *)
Theorem logger_appends_once sanitizer record w o w' :
  asks (fun B => @log_answers B) (logger_log sanitizer record) w o w' ->
  exists b, o = Some b /\
    ((w' = w /\ b = false) \/
     exists time, (isValid (lr_timestampUtc record) = true -> time = lr_timestampUtc record) /\
       w' = w ++ [format_at sanitizer time record ++ [0x0A]]).
Proof.
  intros Hr.
  eapply (awp_runs _ False) with (Q := fun w' b =>
    (w' = w /\ b = false) \/
    exists time, (isValid (lr_timestampUtc record) = true -> time = lr_timestampUtc record) /\
      w' = w ++ [format_at sanitizer time record ++ [0x0A]]) in Hr.
  { destruct o as [b|]; [by exists b|done]. }
  unfold logger_log. apply awp_ask. intros dir w1 ->.
  apply awp_bind. eapply awp_mono with (Q := fun w1 (_ : bool) => w1 = w).
  { destruct dir; [done|]. by intros made w2 ->. }
  intros w1 made ->. destruct made; cbn [negb]; [|by left].
  apply awp_ask. intros opened w2 ->. destruct opened; cbn [negb]; [|by left].
  apply awp_bind. unfold format_record. destruct (isValid (lr_timestampUtc record)) eqn:Hv.
  - apply awp_ask. intros _ w3 ->. intros b w4 ->. right. by eexists.
  - intros now w3 ->. apply awp_ask. intros _ w4 ->. intros b w5 ->. right.
    exists now. split; [congruence|done].
Qed.

(** ** The start *)

(** The world is the number of messages that were shown and of records written. *)
Definition start_answers {B : Set} (c : start_call B) : nat * nat -> B -> nat * nat -> Prop :=
  match c in start_call B return nat * nat -> B -> nat * nat -> Prop with
  | AppDataPath | MakeAppData _ | OpenStorage _ | MigrateStorage | LogFilePath
  | LoadAppSettings => fun w _ w' => w' = w
  | ShowCritical _ _ => fun w _ w' => w' = (S w.1, w.2)
  | WriteStartRecord _ => fun w _ w' => w' = (w.1, S w.2)
  end.

(** The program gives up with one message and the exit code 1, before it has logged
    anything, or goes on without a message. *)
Theorem startup_ends o w' :
  asks (fun B => @start_answers B) startup (0, 0)%nat o w' ->
  match o with
  | Some (inl code) => code = 1 /\ w' = (1, 0)%nat
  | Some (inr _) => w' = (0, 1)%nat
  | None => False
  end.
Proof.
  intros Hr.
  eapply (awp_runs _ False) with (Q := fun w' o =>
    match o with inl code => code = 1 /\ w' = (1, 0)%nat | inr _ => w' = (0, 1)%nat end) in Hr.
  { by destruct o as [[code|settings]|]. }
  unfold startup, showStartupErrorIfNeeded. apply awp_ask. intros path w1 ->.
  apply awp_ask. intros made w1 ->. destruct made; cbn [negb].
  2: { intros u w1 ->. done. }
  apply awp_ask. intros opened w1 ->. destruct (hasError opened); cbn [negb].
  { intros u w1 ->. done. }
  apply awp_ask. intros migrated w1 ->. destruct (hasError migrated); cbn [negb].
  { intros u w1 ->. done. }
  intros file w1 -> u w2 -> loaded w3 ->. done.
Qed.

End program_facts.

(** ** The commands *)

Section smoke_facts.
Context `{Qt} `{!QtNumbers} {W : Type}.
Context (answers : forall B : Set, smoke_call B -> W -> B -> W -> Prop).
Context (qgetenv : string -> bytes).

Lemma asks_then {A B} (p : asking smoke_call A) (b b' : B) w w' :
  asks answers (p ≫= fun _ => mret b) w (Some b') w' -> b' = b.
Proof.
  intros [[? _]|(a & w1 & _ & Hr)]%asks_bind; [done|].
  apply asks_inv in Hr as [Hr _]. congruence.
Qed.

(** The connection of a command has a server and a share, and a secret just if it logs
    in with a password. *)
Lemma smoke_connection c :
  loadSmbSmokeContext qgetenv = Some c ->
  con_server (ssc_connection c) <> [] /\ con_share (ssc_connection c) <> [] /\
  con_normalizedUri (ssc_connection c) = target_uri (ssc_connection c) /\
  (is_Some (ssc_secret c) <-> con_authType (ssc_connection c) = AuthType_Password) /\
  ssc_secret c <> Some [].
Proof.
  unfold loadSmbSmokeContext.
  destruct (isEmpty (smokeEnv qgetenv "SMB_BROWSER_SMOKE_SERVER")) eqn:Hs; [done|].
  destruct (isEmpty (smokeEnv qgetenv "SMB_BROWSER_SMOKE_SHARE")) eqn:Hh; [done|].
  cbn [orb]. apply isEmpty_false in Hs, Hh.
  case_bool_decide.
  { intros [= <-]. split_and!; [done..| |done]. by split; [intros []|]. }
  case_bool_decide.
  { intros [= <-]. split_and!; [done..| |done]. by split; [intros []|]. }
  destruct (qgetenv "SMB_BROWSER_SMOKE_PASSWORD") eqn:Hp; [done|].
  intros [= <-]. split_and!; [done..| |done]. by split; [|eexists].
Qed.

(** The exit code of the listing says whether a context was given and whether the
    listing succeeded, whatever is printed after it. *)
Theorem smoke_list_code w code w' :
  asks answers (runSmbListSmoke qgetenv) w (Some code) w' ->
  match loadSmbSmokeContext qgetenv with
  | None => code = 2 /\ w' = w
  | Some c => exists r w1, asks answers (smoke_listing qgetenv c) w (Some r) w1 /\
      code = if Result_ok r then 0 else 1
  end.
Proof.
  unfold runSmbListSmoke. destruct (loadSmbSmokeContext qgetenv) as [c|]; intros Hr.
  2: { apply asks_inv in Hr as [[= ->] ->]. done. }
  apply asks_bind in Hr as [[? _]|(r & w1 & Hl & Hr)]; [done|]. exists r, w1. split; [done|].
  destruct (Result_ok r); [by eapply asks_then|].
  apply asks_bind in Hr as [[? _]|(u & w2 & _ & Hr)]; [done|]. by eapply asks_then.
Qed.

(** The exit code 0 of the download says that it succeeded. *)
Theorem smoke_download_code w code w' :
  asks answers (runSmbDownloadSmoke qgetenv) w (Some code) w' ->
  (code = 0 \/ code = 1 \/ code = 2) /\
  (code = 0 -> exists c r w1 w2, loadSmbSmokeContext qgetenv = Some c /\
     asks answers (smoke_download qgetenv c) w1 (Some r) w2 /\ Result_ok r = true) /\
  (code = 2 -> w' = w).
Proof.
  unfold runSmbDownloadSmoke. destruct (loadSmbSmokeContext qgetenv) as [c|]; intros Hr.
  2: { apply asks_inv in Hr as [[= ->] ->]. split; [by right; right|done]. }
  destruct (_ || _).
  { apply asks_inv in Hr as [[= ->] ->]. split; [by right; right|done]. }
  apply asks_bind in Hr as [[? _]|(warm & w1 & _ & Hr)]; [done|].
  destruct warm; cbn [negb].
  2: { apply asks_inv in Hr as [[= ->] _]. split; [by right; left|done]. }
  apply asks_bind in Hr as [[? _]|(r & w2 & Hd & Hr)]; [done|].
  destruct (Result_ok r) eqn:Hok.
  - apply asks_then in Hr. subst code. split; [by left|]. split; [|done].
    intros _. by exists c, r, w1, w2.
  - apply asks_then in Hr. subst code. split; [by right; left|done].
Qed.

(** Progress is printed at the start, at the end, and every ten megabytes. *)
Lemma smoke_progress_printed last p :
  let '(text, last') := smoke_progress last p in
  (text = None -> last' = last /\ 0 <= last /\
     ctp_bytesTransferred p <> ctp_totalBytes p /\
     ctp_bytesTransferred p < last + kProgressStep) /\
  (is_Some text -> last' = ctp_bytesTransferred p).
Proof.
  unfold smoke_progress. destruct (_ || _) eqn:Hp; [split; [done|done]|].
  apply orb_false_iff in Hp as [[H1 H2]%orb_false_iff H3].
  apply Z.ltb_ge in H1. apply Z.eqb_neq in H2. apply Z.leb_gt in H3.
  split; [intros _; split_and!; try done; lia|by intros []].
Qed.

End smoke_facts.
